(* ===== verification/_CoqProject ===== *)
-Q . S2P
Prelude.v
Extension.v
Buddy.v
PageAlloc.v
Queue.v
Proc.v
Cap.v
Zicond.v
Sched.v
Ipc.v
Frames.v
Sv39.v
Elf.v
Heap.v
Hostcall.v
Wasm.v
Interp.v
WasmSafe.v
WasmTable.v
WasmExec.v
Words.v
Aes.v
Sm.v
Storage.v
Lock.v
Rcu.v
Fs.v
Wire.v
Pool.v
Remote.v
Block.v
Tx.v
Aslr.v
Mmap.v
Tcp.v
Bitmanip.v
Input.v
Term.v
