(* ===== verification/Prelude.v ===== *)
(** * TrainOS: a verification library

    TrainOS is a RISC-V microkernel with its user services.  This library models
    the parts listed below as Rocq functions on explicit states, and proves what
    makes them correct, and where they are not.  Paths are relative to
    src/kernel/src unless they start with src/.

    ** The program and its models

    Memory.
    - mem/buddy.rs, mem/layout.rs.  Buddy.v: the buddy allocator with its free
      lists threaded through physical memory, and the per-hart page caches.
      PageAlloc.v: the allocator under any number of clients that allocate, write
      and free.  Frames.v: the interface [FrameAllocator]/[FrameLaws] of the
      allocator to the page tables, with the number of pages it can still give a
      hart, and its instance.
    - mem/sv39.rs.  Sv39.v: entries, walks, mapping, unmapping, huge pages, ranges,
      the kernel mapping, the write-xor-execute sweep and the check of user ranges,
      in the memory of a [FrameAllocator].  The reference is [translate], the
      translation of the Sv39 architecture.
    - mem/txmmu.rs and the loader of proc/elf.rs that uses it: Tx.v, transactions
      on the tables of Sv39.v.  syscall/memory.rs and mem/mseal.rs: Mmap.v, the
      system calls for memory and sealing on the same tables.
    - mem/heap.rs: Heap.v, the kernel heap with its canaries.
    - proc/elf.rs: Elf.v, the loader, on the page tables and the frame allocator.
    - aslr/mod.rs: Aslr.v, random layouts, fat pointers, sandboxes, user id maps.

    Processes.
    - proc/thread.rs, proc/process.rs, proc/switch.rs, trap/mod.rs as data: Proc.v.
    - sched/mod.rs, numa/mod.rs.  Queue.v: the vector-backed queue of the scheduler
      and of the endpoints.  Zicond.v: the branch-free selection (mem/zicond.rs) the
      scheduler is built on.  Sched.v: run queues, EEVDF order, picking, balancing,
      preemption, priority donation.
    - ipc/, syscall/ipc.rs: Ipc.v, which composes the scheduler (a send wakes and
      queues the receiver) and the extensions (a send fires a hook).
    - cap/, syscall/cap.rs, the audit log of security/mod.rs: Cap.v, with the
      kernel's locks, so that taking one twice is a deadlock.
    - sync.rs, numa/mcs.rs: Lock.v, the spin lock and the MCS lock with any number
      of harts interleaved at each access to shared memory.  The waiting loops of
      the MCS lock read a plain field, which the compiler may load once or at each
      turn: [SpinReads] is that choice, and the theorems cover both.  numa/percpu.rs,
      numa/rcu.rs: Rcu.v, grace periods over one counter per hart, interleaved too.

    Code that runs in the kernel for others.
    - extension/mod.rs: Extension.v, the bytecode verifier, the interpreter, the
      table and the hooks.
    - wasm/.  Hostcall.v: the table of host functions.  Wasm.v: the module format,
      loading and unloading, on Heap.v.  Interp.v: the interpreter.  WasmSafe.v,
      WasmTable.v and WasmExec.v: its theorems, from memory safety over the table
      of modules to the meaning of programs.

    Cryptography and storage.
    - crypto/.  Words.v: 32-bit words and bytes.  Aes.v, Sm.v: the ciphers and the
      hash.  Storage.v: the random numbers and the sealed storage
      (security/secure_storage.rs), which use them.
    - mem/bitmanip.rs: Bitmanip.v, bit operations as instructions and in portable
      code.

    Devices.
    - device/merge.rs, device/sched.rs: Block.v, merging and scheduling of disk
      requests.
    - device/input.rs: Input.v, the event queue and the keyboard.
      device/terminal.rs: Term.v, the terminal emulator, which uses the keyboard.

    Nodes and services.
    - distributed/.  Wire.v: the packets.  Pool.v: the memory pool, on the page
      allocator.  Remote.v: nodes, messages and capabilities between nodes, on
      Ipc.v, Cap.v, Pool.v and Wire.v.
    - src/services/fs: Fs.v, the file server.  src/services/tcp: Tcp.v, the TCP
      server.

    Prelude.v, this file, has what they share: machine integers, the [outcome] and
    lock monads, arrays, tactics, and lemmas on lists.

    ** How code is modelled

    A static is a field of a state record; a function of the source is a
    function of the same name from state to [outcome] of result and state.
    [Panic] is an index out of range, a failed [unwrap] or an access to unmapped
    memory; [Deadlock] is a spin lock taken again by its holder (in the files
    that model locks, see [cmd]); [OutOfFuel] is a loop cut off.  Integers are
    [Z] with the wrap-around of their width written out, as in a release build.
    Raw pointers are addresses into a heap or into physical memory, so that
    aliases see each other's writes.  Clocks, seeds, received messages and the
    order of other harts are arguments, so that theorems hold for all of them.

    Loops are recursion on a list or carry fuel that is computed from the state
    and shown to be enough: the verifier of extensions visits every instruction
    at most once, the two interpreters have the budget of the code (1000 and
    10000 cycles), a loop over a range of pages has one unit per page, list walks
    have one per page of the region, a style sequence of the terminal one per
    parameter, revocation one per resource, and the probe of a node more than the
    201 turns the code allows.  The theorems state that the calls return [Done].

    ** What is shown

    - Allocation: blocks handed out never overlap, requests return, the counts
      add up, allocation refines taking a block from the free pages; and the
      page with number 0 is lost in the ways the code loses it.
    - Page tables: mapping and unmapping change exactly the translations they
      are asked to change, and mapping fails exactly on a huge page or with fewer
      free pages than tables are missing; the kernel mapping is exact; the write-xor-execute
      sweep and the check of user ranges do what they promise; huge pages work
      only on an aligned region.  A transaction makes exactly the changes asked
      for, but a failed one is not undone.  Sealed pages stay, except through two
      holes.  A program is loaded byte for byte with its rights if there are three
      free pages for each of its pages.
    - Scheduling: the queues stay consistent, picking takes the best thread, no
      thread is lost or duplicated by schedule or balancing; a priority of 64
      or more loses the thread.
    - IPC: send and receive implement mailboxes; a blocked receiver is woken;
      bytes arrive as sent; two receivers or a kill break this.
    - Capabilities: slots name live resources with enough references, deletion
      is exact, and revocation takes one reference from each derived resource;
      minting and copying deadlock.
    - Locks: the spin lock is taken by one hart at a time and by the next that
      tries when it is free; the MCS lock serves in order, and it drains if its
      waiting loops load again, and hangs if they do not.  Under either no update
      of shared data is lost.
      A grace period waits for every reader that does not change its hart.
    - Extensions and modules: accepted extensions run safely, every program stops;
      a module touches only its own memory, steps preserve types, and compiled
      expressions compute their value.
    - Cryptography: what the modes invert, what the ciphers get wrong, and that
      the key schedule panics, so that nothing is ever sealed.  The two versions
      of the bit operations agree but for one.
    - Devices: merging is exact while the counts fit in 32 bits, and the deadline
      scheduler is exact; the input queue is a
      queue that forgets; text appears on the terminal as on paper, no style ever
      does, and one form of escape sequence, and nothing else, stops the kernel.
    - Nodes and services: packets are read back, receive buffers are queues, a probe
      ends at the first answer, at the deadline or after 201 looks; the file server
      is a map from paths to contents, which survives a restart if its names fit;
      TCP transfers data unchanged between sides that number a connection alike.

    ** Not modelled

    Graphics, windows and the desktop, device registers and virtio, the
    hypervisor, traps and interrupt controllers, and the user library are drawing,
    CSR and device access and assembly.  The enclave manager, zones, namespaces,
    the io_uring interface, four-level page tables, Linux compatibility and the
    system calls for files and sockets are tables and glue in front of state
    modelled elsewhere, and are left out.  The other services are small
    servers, tools and tests.  TLB fences, interrupts to other harts and the
    console are outside the model.  So is concurrency outside Lock.v and Rcu.v:
    each operation runs alone, which its lock ensures where it holds one. *)

From stdpp Require Export prelude list gmap strings sorting.
From Stdlib Require Export ZArith Lia.

#[global] Open Scope Z_scope.

(** ** Machine integers

    An unsigned integer of [w] bits is a [Z] in [0, 2^w); arithmetic that the
    source lets wrap around is followed by [wrap w].  [to_signed w] is the
    two's complement reading that a cast such as [imm as i32] performs. *)

Definition wrap (w x : Z) : Z := x mod 2 ^ w.

Abbreviation u8 := (wrap 8).
Abbreviation u16 := (wrap 16).
Abbreviation u32 := (wrap 32).
Abbreviation u64 := (wrap 64).

Definition to_signed (w x : Z) : Z :=
  let y := wrap w x in
  if y <? 2 ^ (w - 1) then y else y - 2 ^ w.

(** [x] fits in an unsigned integer of [w] bits. *)
Definition fits (w x : Z) : Prop := 0 <= x < 2 ^ w.

(** ** Outcomes

    What running a piece of kernel code can come to: a value, a Rust panic
    (index out of range, [unwrap] on [None], explicit [panic!]), an attempt to
    take a non-reentrant spin lock the same hart already holds (which spins
    forever), or, for loops modelled with fuel, a run that the fuel did not
    cover. *)

Inductive outcome (A : Type) : Type :=
| Done (a : A)
| Panic
| Deadlock
| OutOfFuel.
Arguments Done {A} a.
Arguments Panic {A}.
Arguments Deadlock {A}.
Arguments OutOfFuel {A}.

#[export] Instance outcome_ret : MRet outcome := @Done.
#[export] Instance outcome_bind : MBind outcome := λ A B f m,
  match m with
  | Done a => f a
  | Panic => Panic
  | Deadlock => Deadlock
  | OutOfFuel => OutOfFuel
  end.

(** Rust's [Result<A, E>]. *)
Inductive result (E A : Type) : Type :=
| Ok (a : A)
| Err (e : E).
Arguments Ok {E A} a.
Arguments Err {E A} e.

Definition unwrap {A} (o : option A) : outcome A :=
  match o with Some a => Done a | None => Panic end.

(** ** Arrays and vectors, indexed by [usize] *)

Definition zlen {A} (l : list A) : Z := Z.of_nat (length l).

(** [l[i]]: panics out of range. *)
Definition aget {A} (l : list A) (i : Z) : outcome A :=
  if i <? 0 then Panic else
  match l !! Z.to_nat i with Some x => Done x | None => Panic end.

(** [l[i] = x]: panics out of range. *)
Definition aset {A} (l : list A) (i : Z) (x : A) : outcome (list A) :=
  if (0 <=? i) && (i <? zlen l) then Done (<[Z.to_nat i := x]> l) else Panic.

(** [&l[i..j]]: panics when [j < i] or [j] is past the end. *)
Definition aslice {A} (l : list A) (i j : Z) : outcome (list A) :=
  if (0 <=? i) && (i <=? j) && (j <=? zlen l)
  then Done (take (Z.to_nat (j - i)) (drop (Z.to_nat i) l)) else Panic.

(** [l[i..i + src.len()].copy_from_slice(src)]. *)
Definition asplice {A} (l : list A) (i : Z) (src : list A) : outcome (list A) :=
  if (0 <=? i) && (i + zlen src <=? zlen l)
  then Done (take (Z.to_nat i) l ++ src ++ drop (Z.to_nat (i + zlen src)) l)
  else Panic.

(** ** Little-endian byte strings, [to_le_bytes] and [from_le_bytes] *)

Fixpoint le_bytes (n : nat) (x : Z) : list Z :=
  match n with
  | O => []
  | S n' => (x mod 256) :: le_bytes n' (x / 256)
  end.

Fixpoint of_le_bytes (l : list Z) : Z :=
  match l with
  | [] => 0
  | b :: l' => b + 256 * of_le_bytes l'
  end.

Definition is_byte (b : Z) : Prop := 0 <= b < 256.

(** ** Record update

    [r <| f := v |>] is [r] with the field [f] set to [v].  A record takes
    part by an [Eta] instance that rebuilds it from its fields. *)

Class Eta (R : Type) := eta : R → R.
Class Setter {R E : Type} (getter : R → E) := set_field : (E → E) → R → R.
Arguments set_field {R E} getter {Setter} _ _ /.

Ltac solve_setter R getter :=
  let inst := constr:(_ : Eta R) in
  let e := eval hnf in inst in
  let f := fresh "f" in let r := fresh "r" in
  intros f r;
  let b := eval cbv beta in (e r) in
  match b with context C [getter r] =>
    let b' := context C [f (getter r)] in exact b'
  end.

#[export] Hint Extern 1 (@Setter ?R _ ?getter) => solve_setter R getter : typeclass_instances.

Notation "r <| f := v |>" := (set_field f (λ _, v) r)
  (at level 12, f at next level, left associativity, format "r  <| f  :=  v |>").

(** ** Commands: state, locks and outcomes

    Kernel code that works on shared state [S] under spin locks named by [L].
    A command carries the locks the hart holds; [lock] on one of them never
    returns.  [with_lock] is the scope of a guard. *)

Definition cmd (L S A : Type) : Type := list L → S → outcome (A * list L * S).

#[export] Instance cmd_ret {L S} : MRet (cmd L S) := λ A a h s, Done (a, h, s).
#[export] Instance cmd_bind {L S} : MBind (cmd L S) := λ A B f m h s,
  match m h s with
  | Done (a, h', s') => f a h' s'
  | Panic => Panic
  | Deadlock => Deadlock
  | OutOfFuel => OutOfFuel
  end.

Section cmd.
Context {L S : Type}.

Definition get : cmd L S S := λ h s, Done (s, h, s).
Definition gets {A} (f : S → A) : cmd L S A := λ h s, Done (f s, h, s).
Definition modify (f : S → S) : cmd L S () := λ h s, Done ((), h, f s).
Definition lift {A} (m : outcome A) : cmd L S A := λ h s,
  match m with
  | Done a => Done (a, h, s)
  | Panic => Panic
  | Deadlock => Deadlock
  | OutOfFuel => OutOfFuel
  end.

Definition lock `{EqDecision L} (l : L) : cmd L S () := λ h s,
  if bool_decide (l ∈ h) then Deadlock else Done ((), l :: h, s).
Definition unlock `{EqDecision L} (l : L) : cmd L S () := λ h s,
  Done ((), filter (λ l', l' ≠ l) h, s).
Definition with_lock `{EqDecision L} {A} (l : L) (m : cmd L S A) : cmd L S A :=
  _ ← lock l; a ← m; _ ← unlock l; mret a.

(** The operator [?] on a [Result]. *)
Definition try_bind {E A B} (m : cmd L S (result E A)) (f : A → cmd L S (result E B))
    : cmd L S (result E B) :=
  r ← m; match r with Ok a => f a | Err e => mret (Err e) end.

(** [o.ok_or(e)]. *)
Definition ok_or {E A} (o : option A) (e : E) : result E A :=
  match o with Some a => Ok a | None => Err e end.
End cmd.

Notation "x ←? m ; k" := (try_bind m (λ x, k))
  (at level 20, m at level 100, k at level 200, right associativity,
   format "x  ←?  m ;  '/' k").

(** ** Tactics *)

Create HintDb kernel.

(** [lia] on goals with division and remainder by constants. *)
Ltac dlia := Z.to_euclidean_division_equations; lia.

(** Turn the boolean tests of the code into propositions. *)
Ltac bools :=
  repeat match goal with
  | H : _ && _ = true |- _ => apply andb_true_iff in H as [? ?]
  | H : _ || _ = false |- _ => apply orb_false_iff in H as [? ?]
  | H : negb _ = true |- _ => apply negb_true_iff in H
  | H : negb _ = false |- _ => apply negb_false_iff in H
  | H : (_ <? _) = true |- _ => apply Z.ltb_lt in H
  | H : (_ <? _) = false |- _ => apply Z.ltb_ge in H
  | H : (_ <=? _) = true |- _ => apply Z.leb_le in H
  | H : (_ <=? _) = false |- _ => apply Z.leb_gt in H
  | H : (_ =? _) = true |- _ => apply Z.eqb_eq in H
  | H : (_ =? _) = false |- _ => apply Z.eqb_neq in H
  end.

(** Case split on the tests of [if] in the goal, with the facts they give. *)
Ltac if_split :=
  repeat match goal with
  | |- context [if ?b then _ else _] =>
      match b with context [if _ then _ else _] => fail 1 | _ => idtac end;
      let E := fresh "Hif" in destruct b eqn:E; bools
  end.

(** Step through a monadic bind whose first computation is known to return. *)
Ltac step_done H :=
  let E := fresh "E" in
  destruct H as [? E]; rewrite E; cbn [mbind outcome_bind].

Lemma bind_Done {A B} (m : outcome A) (f : A → outcome B) b :
  m ≫= f = Done b ↔ ∃ a, m = Done a ∧ f a = Done b.
Proof.
  destruct m as [a | | |]; split; try done; try (by intros (a' & ? & ?)).
  - intros Hf. by exists a.
  - by intros (a' & [= <-] & ?).
Qed.

Lemma Done_inj {A} (a b : A) : Done a = Done b → a = b.
Proof. by intros [=]. Qed.

(** Open the binds of a computation known to return: each one gives the value
    of its first part, with the equation. *)
Ltac inv_bind :=
  repeat match goal with
  | H : mbind _ _ = Done _ |- _ =>
      let a := fresh "a" in let E := fresh "E" in
      apply bind_Done in H as (a & E & H)
  | H : Done _ = Done _ |- _ => apply Done_inj in H; try subst
  | H : mret _ = Done _ |- _ => apply Done_inj in H; try subst
  end.

(** ** Lemmas on commands *)

Section cmd_lemmas.
Context {L S : Type}.

Lemma cmd_bind_Done {A B} (m : cmd L S A) (f : A → cmd L S B) h s a h' s' :
  m h s = Done (a, h', s') → (m ≫= f) h s = f a h' s'.
Proof. intros Hm. unfold mbind, cmd_bind. by rewrite Hm. Qed.

Lemma cmd_bind_Deadlock {A B} (m : cmd L S A) (f : A → cmd L S B) h s :
  m h s = Deadlock → (m ≫= f) h s = Deadlock.
Proof. intros Hm. unfold mbind, cmd_bind. by rewrite Hm. Qed.

Lemma try_bind_Done {E A B} (m : cmd L S (result E A)) (f : A → cmd L S (result E B))
    h s r h' s' :
  m h s = Done (r, h', s') →
  try_bind m f h s = match r with Ok a => f a h' s' | Err e => Done (Err e, h', s') end.
Proof. intros Hm. unfold try_bind. rewrite (cmd_bind_Done _ _ _ _ _ _ _ Hm). by destruct r. Qed.

Context `{EqDecision L}.

Lemma lock_free (l : L) h (s : S) : l ∉ h → lock l h s = Done ((), l :: h, s).
Proof. intros Hl. unfold lock. by rewrite bool_decide_eq_false_2. Qed.

Lemma lock_held (l : L) h (s : S) : l ∈ h → lock l h s = Deadlock.
Proof. intros Hl. unfold lock. by rewrite bool_decide_eq_true_2. Qed.

Lemma unlock_top (l : L) h (s : S) : l ∉ h → unlock l (l :: h) s = Done ((), h, s).
Proof.
  intros Hl. unfold unlock. rewrite filter_cons_False by naive_solver.
  assert (filter (λ l', l' ≠ l) h = h) as ->; [| done].
  induction h as [| x h IH]; [done |].
  rewrite filter_cons_True, IH by set_solver. done.
Qed.

Lemma with_lock_run {A} (l : L) (m : cmd L S A) h s a s' :
  l ∉ h → m (l :: h) s = Done (a, l :: h, s') → with_lock l m h s = Done (a, h, s').
Proof.
  intros Hl Hm. unfold with_lock.
  rewrite (cmd_bind_Done _ _ _ _ _ _ _ (lock_free l h s Hl)).
  rewrite (cmd_bind_Done _ _ _ _ _ _ _ Hm).
  by rewrite (cmd_bind_Done _ _ _ _ _ _ _ (unlock_top l h s' Hl)).
Qed.

Lemma with_lock_held {A} (l : L) (m : cmd L S A) h s :
  l ∈ h → with_lock l m h s = Deadlock.
Proof. intros Hl. apply cmd_bind_Deadlock, lock_held, Hl. Qed.

Lemma with_lock_Deadlock {A} (l : L) (m : cmd L S A) h s :
  l ∉ h → m (l :: h) s = Deadlock → with_lock l m h s = Deadlock.
Proof.
  intros Hl Hm. unfold with_lock.
  rewrite (cmd_bind_Done _ _ _ _ _ _ _ (lock_free l h s Hl)).
  by apply cmd_bind_Deadlock.
Qed.
End cmd_lemmas.

(** One step of a command whose first part is known to return. *)
Ltac cstep H := rewrite (cmd_bind_Done _ _ _ _ _ _ _ H).
Tactic Notation "cmd" "with" uconstr(H) :=
  erewrite cmd_bind_Done; [| eapply H].
Ltac cpure := erewrite cmd_bind_Done; [| reflexivity].

(** ** Lemmas on arrays *)

Section arrays.
Context {A : Type}.
Implicit Types (l : list A) (i : Z).

Lemma zlen_nonneg l : 0 <= zlen l.
Proof. unfold zlen. lia. Qed.

Lemma to_nat_zlen l : Z.to_nat (zlen l) = length l.
Proof. apply Nat2Z.id. Qed.

Lemma aget_lookup l i x :
  aget l i = Done x ↔ 0 <= i ∧ l !! Z.to_nat i = Some x.
Proof.
  unfold aget. destruct (i <? 0) eqn:E; bools.
  - split; [done | lia].
  - destruct (l !! Z.to_nat i) as [y |] eqn:Hl; split.
    + by intros [= ->].
    + by intros [_ [= ->]].
    + done.
    + by intros [_ ?].
Qed.

Lemma aget_in_range l i : 0 <= i < zlen l → ∃ x, aget l i = Done x.
Proof.
  unfold zlen. intros Hi.
  destruct (lookup_lt_is_Some_2 l (Z.to_nat i)) as [x Hx]; [lia |].
  exists x. apply aget_lookup. split; [lia | done].
Qed.

Lemma aget_done_range l i x : aget l i = Done x → 0 <= i < zlen l.
Proof.
  intros [? Hx%lookup_lt_Some]%aget_lookup. unfold zlen. lia.
Qed.

Lemma aget_out_of_range l i : zlen l <= i → aget l i = Panic.
Proof.
  unfold aget, zlen. intros Hi. destruct (i <? 0) eqn:E; [done |].
  by rewrite lookup_ge_None_2 by lia.
Qed.

Lemma aset_in_range l i x :
  0 <= i < zlen l → aset l i x = Done (<[Z.to_nat i := x]> l).
Proof.
  intros. unfold aset.
  destruct (0 <=? i) eqn:?, (i <? zlen l) eqn:?; bools; done || lia.
Qed.

Lemma aset_done l i x l' :
  aset l i x = Done l' → 0 <= i < zlen l ∧ l' = <[Z.to_nat i := x]> l.
Proof.
  unfold aset. destruct (_ && _) eqn:?; bools; [| done].
  intros [= <-]. done.
Qed.

Lemma zlen_insert l (n : nat) x : zlen (<[n := x]> l) = zlen l.
Proof. unfold zlen. by rewrite length_insert. Qed.

Lemma zlen_app l l' : zlen (l ++ l') = zlen l + zlen l'.
Proof. unfold zlen. rewrite length_app. lia. Qed.

Lemma zlen_replicate (n : nat) (x : A) : zlen (replicate n x) = Z.of_nat n.
Proof. unfold zlen. by rewrite length_replicate. Qed.

Lemma aget_insert_eq l i x :
  0 <= i < zlen l → aget (<[Z.to_nat i := x]> l) i = Done x.
Proof.
  intros Hi. apply aget_lookup. split; [lia |].
  apply list_lookup_insert_eq. unfold zlen in Hi. lia.
Qed.

Lemma aget_insert_ne l i j x :
  0 <= i → i ≠ j → aget (<[Z.to_nat i := x]> l) j = aget l j.
Proof.
  intros Hi Hij. unfold aget. destruct (j <? 0) eqn:E; [done |]. bools.
  rewrite list_lookup_insert_ne by lia. done.
Qed.

Lemma aslice_in_range l i j :
  0 <= i <= j → j <= zlen l →
  aslice l i j = Done (take (Z.to_nat (j - i)) (drop (Z.to_nat i) l)).
Proof.
  intros. unfold aslice.
  destruct (0 <=? i) eqn:?, (i <=? j) eqn:?, (j <=? zlen l) eqn:?; bools;
    first [done | lia].
Qed.

Lemma asplice_in_range l i src :
  0 <= i → i + zlen src <= zlen l →
  asplice l i src =
    Done (take (Z.to_nat i) l ++ src ++ drop (Z.to_nat (i + zlen src)) l).
Proof.
  intros. unfold asplice.
  destruct (0 <=? i) eqn:?, (_ <=? zlen l) eqn:?; bools; done || lia.
Qed.

Lemma asplice_done_zlen l i src l' :
  asplice l i src = Done l' → zlen l' = zlen l.
Proof.
  unfold asplice. destruct (_ && _) eqn:?; bools; [| done]. intros [= <-].
  unfold zlen in *.
  rewrite !length_app, length_take, length_drop. lia.
Qed.
End arrays.

(** ** Lemmas on little-endian bytes *)

Lemma length_le_bytes n x : length (le_bytes n x) = n.
Proof. revert x. induction n; intros; cbn; [done |]. by rewrite IHn. Qed.

Lemma of_le_bytes_le_bytes n x :
  of_le_bytes (le_bytes n x) = x mod 2 ^ (8 * Z.of_nat n).
Proof.
  revert x. induction n as [| n IH]; intros x.
  - cbn. by rewrite Z.mod_1_r.
  - cbn [le_bytes of_le_bytes]. rewrite IH.
    replace (8 * Z.of_nat (S n)) with (8 + 8 * Z.of_nat n) by lia.
    rewrite Z.pow_add_r by lia. change (2 ^ 8) with 256.
    rewrite Z.rem_mul_r by lia. lia.
Qed.

Lemma le_bytes_bytes n x : Forall is_byte (le_bytes n x).
Proof.
  revert x. induction n; intros; cbn; constructor; [| done].
  unfold is_byte. apply Z.mod_pos_bound. lia.
Qed.

Lemma of_le_bytes_bound l :
  Forall is_byte l → 0 <= of_le_bytes l < 2 ^ (8 * zlen l).
Proof.
  unfold zlen. induction 1 as [| b l Hb Hl IH]; cbn [of_le_bytes length].
  - cbn. lia.
  - unfold is_byte in Hb.
    replace (8 * Z.of_nat (S (length l))) with (8 + 8 * Z.of_nat (length l)) by lia.
    rewrite Z.pow_add_r by lia. change (2 ^ 8) with 256. lia.
Qed.

Lemma le_bytes_of_le_bytes l :
  Forall is_byte l → le_bytes (length l) (of_le_bytes l) = l.
Proof.
  induction 1 as [| b l Hb Hl IH]; cbn [of_le_bytes length le_bytes]; [done |].
  unfold is_byte in Hb.
  rewrite (Z.mul_comm 256), Z_mod_plus_full, Z.mod_small by lia.
  rewrite Z_div_plus_full, Z.div_small by lia. f_equal. exact IH.
Qed.

(** ** Lemmas on machine integers *)

Lemma wrap_bound w x : 0 <= w → 0 <= wrap w x < 2 ^ w.
Proof. intros. apply Z.mod_pos_bound. by apply Z.pow_pos_nonneg. Qed.

Lemma wrap_small w x : fits w x → wrap w x = x.
Proof. intros. by apply Z.mod_small. Qed.

(** Bits from position [w] on are zero. *)
Lemma fits_testbit w x n : fits w x → w <= n → Z.testbit x n = false.
Proof.
  intros Hx Hn. destruct (decide (0 <= w)).
  - rewrite <-(Z.mod_small x (2 ^ w)) by done. by apply Z.mod_pow2_bits_high.
  - unfold fits in Hx. rewrite Z.pow_neg_r in Hx by lia. lia.
Qed.

(** [a] has its low [k] bits clear, [b] has no others. *)
Lemma lor_low a b k : 0 <= k → a mod 2 ^ k = 0 → 0 <= b < 2 ^ k → Z.lor a b = a + b.
Proof.
  intros Hk Ha Hb. assert (Z.land a b = 0) as Hd.
  { apply Z.bits_inj'. intros n Hn. rewrite Z.land_spec, Z.bits_0.
    destruct (decide (n < k)).
    - rewrite <-(Z.mod_pow2_bits_low a k n), Ha, Z.bits_0 by lia. done.
    - rewrite (fits_testbit k b n) by (done || lia). apply andb_false_r. }
  by rewrite <-(Z.lxor_lor _ _ Hd), <-Z.add_nocarry_lxor.
Qed.

Lemma lor_bound w x y : fits w x → fits w y → fits w (Z.lor x y).
Proof.
  intros Hx Hy. destruct (decide (0 <= w)).
  - assert (Z.lor x y = Z.lor x y mod 2 ^ w) as ->; [| by apply wrap_bound].
    apply Z.bits_inj'. intros n Hn. destruct (decide (n < w)).
    + by rewrite Z.mod_pow2_bits_low by lia.
    + rewrite Z.mod_pow2_bits_high, Z.lor_spec by lia.
      by rewrite (fits_testbit w x), (fits_testbit w y) by (done || lia).
  - unfold fits in Hx. rewrite Z.pow_neg_r in Hx by lia. lia.
Qed.

Lemma to_signed_bound w x :
  0 < w → - 2 ^ (w - 1) <= to_signed w x < 2 ^ (w - 1).
Proof.
  intros Hw. unfold to_signed.
  pose proof (wrap_bound w x ltac:(lia)) as Hb.
  replace (2 ^ w) with (2 * 2 ^ (w - 1)) in *
    by (rewrite <- Z.pow_succ_r by lia; f_equal; lia).
  destruct (_ <? _) eqn:E; bools; lia.
Qed.

#[export] Hint Resolve zlen_nonneg le_bytes_bytes : kernel.

(** ** Ranges and counting *)

(** [0..n] as a list. *)
Definition zrange (n : Z) : list Z := Z.of_nat <$> seq 0 (Z.to_nat n).

Lemma elem_of_zrange n i : i ∈ zrange n ↔ 0 <= i < n.
Proof.
  unfold zrange. rewrite list_elem_of_fmap. split.
  - intros (k & -> & Hk%elem_of_seq). lia.
  - intros Hi. exists (Z.to_nat i). rewrite elem_of_seq. lia.
Qed.

(** How many flags of [l] are still false. *)
Fixpoint unset (l : list bool) : nat :=
  match l with
  | [] => 0
  | b :: l' => (if b then 0 else 1) + unset l'
  end%nat.

Lemma unset_insert l i :
  l !! i = Some false → S (unset (<[i := true]> l)) = unset l.
Proof.
  revert i. induction l as [| b l IH]; intros [| i] Hi; [done | done | |].
  - injection Hi as ->. done.
  - change (S (unset (b :: <[i := true]> l)) = unset (b :: l)).
    cbn [unset]. rewrite <- (IH i Hi). lia.
Qed.

Lemma unset_length l : (unset l <= length l)%nat.
Proof. induction l as [| [] l IH]; cbn; lia. Qed.

(** [n] consecutive integers from [a]. *)
Definition zseq (a n : Z) : list Z := (λ k, a + Z.of_nat k) <$> seq 0 (Z.to_nat n).

Lemma elem_of_zseq a n x : x ∈ zseq a n ↔ a <= x < a + n.
Proof.
  unfold zseq. rewrite list_elem_of_fmap. split.
  - intros (k & -> & Hk%elem_of_seq). lia.
  - intros Hx. exists (Z.to_nat (x - a)). rewrite elem_of_seq. lia.
Qed.

Lemma NoDup_zseq a n : NoDup (zseq a n).
Proof.
  unfold zseq. apply NoDup_fmap_2; [| apply NoDup_seq]. intros x y. lia.
Qed.

Lemma length_zseq a n : length (zseq a n) = Z.to_nat n.
Proof. unfold zseq. by rewrite length_fmap, length_seq. Qed.

Lemma zseq_nil a n : n <= 0 → zseq a n = [].
Proof. intros. unfold zseq. by replace (Z.to_nat n) with 0%nat by lia. Qed.

Lemma zseq_app a n m : 0 <= n → 0 <= m → zseq a (n + m) = zseq a n ++ zseq (a + n) m.
Proof.
  intros Hn Hm. unfold zseq. rewrite Z2Nat.inj_add, seq_app, fmap_app by lia. f_equal.
  rewrite Nat.add_0_l, <- (Nat.add_0_r (Z.to_nat n)) at 1.
  rewrite <- fmap_add_seq, <- list_fmap_compose. apply list_fmap_ext.
  intros i k _. unfold compose. lia.
Qed.

Lemma NoDup_of_submseteq {A} (l k : list A) : NoDup k → l ⊆+ k → NoDup l.
Proof.
  intros Hk [r Hr]%submseteq_Permutation. rewrite Hr in Hk. by apply NoDup_app in Hk as [? _].
Qed.

(** Replacing one element of a list of lists. *)
Lemma join_fmap_insert {A B} (f : A → list B) (l : list A) i x y :
  l !! i = Some x →
  mjoin (f <$> <[i := y]> l) ++ f x ≡ₚ mjoin (f <$> l) ++ f y.
Proof.
  revert i. induction l as [| z l IH]; intros [| i] Hi; [done | done | |].
  - injection Hi as ->. cbn. solve_Permutation.
  - change (<[S i := y]> (z :: l)) with (z :: <[i := y]> l). cbn.
    rewrite <- !app_assoc. f_equiv. by apply IH.
Qed.

(** Cancelling a common part of two permutations. *)
Lemma Permutation_cancel {A} (l k x : list A) : l ++ x ≡ₚ k ++ x → l ≡ₚ k.
Proof. apply Permutation_app_inv_r. Qed.

Lemma zseq_cons a n : 0 < n → zseq a n = a :: zseq (a + 1) (n - 1).
Proof.
  intros Hn. replace n with (1 + (n - 1)) at 1 by lia. rewrite zseq_app by lia.
  change (zseq a 1) with [a + 0]. by rewrite Z.add_0_r.
Qed.

(** Parts of a list without duplicates that is cut into pieces. *)
Lemma NoDup_join_piece {A} (ls : list (list A)) i a :
  NoDup (mjoin ls) → ls !! i = Some a → NoDup a.
Proof.
  revert i. induction ls as [| l ls IH]; intros i Hn Hi; [done |]. cbn in Hn.
  apply NoDup_app in Hn as (H1 & _ & H2). destruct i as [| i]; [by injection Hi as <- |].
  by apply (IH i).
Qed.

Lemma NoDup_join_disjoint {A} (ls : list (list A)) i j a b x :
  NoDup (mjoin ls) → ls !! i = Some a → ls !! j = Some b → i ≠ j → x ∈ a → x ∉ b.
Proof.
  revert i j. induction ls as [| l ls IH]; intros i j Hn Hi Hj Hne Ha Hb; [done |]. cbn in Hn.
  apply NoDup_app in Hn as (_ & H1 & H2).
  assert (∀ k c, ls !! k = Some c → x ∈ c → x ∈ mjoin ls) as Hin.
  { intros k c Hk Hc. apply list_elem_of_join. exists c. split; [done |].
    by eapply list_elem_of_lookup_2. }
  destruct i as [| i], j as [| j]; cbn in *; [done | | |].
  - injection Hi as <-. by apply (H1 x Ha), (Hin j b).
  - injection Hj as <-. by apply (H1 x Hb), (Hin i a).
  - by apply (IH i j H2 Hi Hj ltac:(congruence) Ha Hb).
Qed.

(** ** Loops over ranges *)

(** [for i in ids { s = f(s, i) }], left by a panic only. *)
Fixpoint for_each {S} (f : S → Z → outcome S) (s : S) (ids : list Z) : outcome S :=
  match ids with
  | [] => Done s
  | i :: ids' => s' ← f s i; for_each f s' ids'
  end.

(** A loop that keeps an invariant of the index reaches its end. *)
Lemma for_each_inv {S} (I : Z → S → Prop) (f : S → Z → outcome S) a n s :
  0 <= n → I a s →
  (∀ i s, a <= i < a + n → I i s → ∃ s', f s i = Done s' ∧ I (i + 1) s') →
  ∃ s', for_each f s (zseq a n) = Done s' ∧ I (a + n) s'.
Proof.
  intros Hn. revert a s. remember (Z.to_nat n) as k eqn:Hk. revert n Hn Hk.
  induction k as [| k IH]; intros n Hn Hk a s Hs Hstep.
  - replace n with 0 by lia. exists s. by rewrite Z.add_0_r.
  - rewrite zseq_cons by lia. cbn [for_each].
    destruct (Hstep a s ltac:(lia) Hs) as (s1 & -> & H1). cbn [mbind outcome_bind].
    destruct (IH (n - 1) ltac:(lia) ltac:(lia) (a + 1) s1 H1) as (s' & E & H').
    + intros i t Hi. apply Hstep. lia.
    + exists s'. split; [done |]. by replace (a + n) with (a + 1 + (n - 1)) by lia.
Qed.

(** The same for a loop that may panic, when it does return. *)
Lemma for_each_done {S} (I : Z → S → Prop) (f : S → Z → outcome S) a n s s' :
  0 <= n → I a s → (∀ i s s', a <= i < a + n → f s i = Done s' → I i s → I (i + 1) s') →
  for_each f s (zseq a n) = Done s' → I (a + n) s'.
Proof.
  intros Hn. revert a s. remember (Z.to_nat n) as k eqn:Hk. revert n Hn Hk.
  induction k as [| k IH]; intros n Hn Hk a s Hs Hstep.
  - replace n with 0 by lia. rewrite zseq_nil, Z.add_0_r by done. by intros [= <-].
  - rewrite zseq_cons by lia. cbn [for_each]. intros (s1 & E & H)%bind_Done.
    replace (a + n) with (a + 1 + (n - 1)) by lia.
    apply (IH (n - 1) ltac:(lia) ltac:(lia) (a + 1) s1); [| | done].
    + apply (Hstep a s s1 ltac:(lia) E Hs).
    + intros i t t' Hi. apply Hstep. lia.
Qed.
