(* ===== verification/Extension.v ===== *)
(** * Kernel extensions (kernel/src/extension/mod.rs)

    The eBPF-like extension framework: the bytecode verifier
    [verify_bytecode], the sandboxed interpreter [execute_extension], the
    table of registered extensions ([register], [unregister], [list]) and the
    hook dispatcher [run_hook].

    The interpreter's state is the record [vm]; an instruction is one
    application of [exec_step].  The verifier's depth-first search is
    [verify_loop], one stack entry per [verify_step].  Array accesses go
    through [aget]/[aset], so a register or scratch index that the code does
    not check shows up as [Panic].

    The theorems: a program the verifier accepts never panics, never runs out
    of its cycle budget and never leaves its bytecode
    ([verified_execution_safe]); the verifier itself always terminates without
    panicking ([verify_bytecode_total]); any bytecode stops within the cycle
    budget ([execute_extension_bounded]); every table reachable through the
    interface holds only verified programs and no hook panics
    ([reachable_hooks_safe]). *)
From S2P Require Import Prelude.

(** ** Constants *)

Definition MAX_EXTENSIONS : Z := 8.
Definition MAX_BYTECODE : Z := 512.
Definition SCRATCH_SIZE : Z := 256.
Definition CYCLE_BUDGET : Z := 1000.
Definition REG_COUNT : Z := 32.
Definition STACK_DEPTH : Z := 32.

(** The opcodes [OP_MOV = 0x01] to [OP_RET = 0x0C], by name. *)
Inductive opcode : Type :=
| OP_MOV | OP_ADD | OP_SUB | OP_CMP | OP_JMP | OP_JE | OP_JNE
| OP_LOAD | OP_STORE | OP_PUSH | OP_POP | OP_RET.

Definition opcode_of (b : Z) : option opcode :=
  if b =? 1 then Some OP_MOV
  else if b =? 2 then Some OP_ADD
  else if b =? 3 then Some OP_SUB
  else if b =? 4 then Some OP_CMP
  else if b =? 5 then Some OP_JMP
  else if b =? 6 then Some OP_JE
  else if b =? 7 then Some OP_JNE
  else if b =? 8 then Some OP_LOAD
  else if b =? 9 then Some OP_STORE
  else if b =? 10 then Some OP_PUSH
  else if b =? 11 then Some OP_POP
  else if b =? 12 then Some OP_RET
  else None.

(** An instruction is eight bytes: opcode, three register fields and a
    little-endian 32-bit immediate. *)
Record insn : Type := Insn {
  i_op : Z;
  i_r1 : Z;
  i_r2 : Z;
  i_r3 : Z;
  i_imm : Z
}.

Definition fetch (bc : list Z) (pc : Z) : outcome insn :=
  op ← aget bc pc;
  r1 ← aget bc (pc + 1);
  r2 ← aget bc (pc + 2);
  r3 ← aget bc (pc + 3);
  b4 ← aget bc (pc + 4);
  b5 ← aget bc (pc + 5);
  b6 ← aget bc (pc + 6);
  b7 ← aget bc (pc + 7);
  mret (Insn op r1 r2 r3 (of_le_bytes [b4; b5; b6; b7])).

(** [imm as i32 as isize] *)
Definition signed_imm (i : insn) : Z := to_signed 32 (i_imm i).

(** ** The verifier *)

(** The search's state: the visited flags and the explicit stack of program
    counters ([stack: [usize; 64]] with its depth [sp]). *)
Record vstate : Type := VState {
  v_visited : list bool;
  v_stack : list Z;
  v_sp : Z
}.

(** [stack[sp] = target; sp += 1], done only when [idx] is not visited. *)
Definition push_unvisited (idx target : Z) (s : vstate) : outcome vstate :=
  seen ← aget (v_visited s) idx;
  if (seen : bool) then mret s
  else
    stk ← aset (v_stack s) (v_sp s) target;
    mret (VState (v_visited s) stk (v_sp s + 1)).

(** The fall-through successor, when there is an instruction after [idx]. *)
Definition push_next (max_inst idx pc : Z) (s : vstate) : outcome vstate :=
  if idx + 1 <? max_inst then push_unvisited (idx + 1) (pc + 8) s else mret s.

Definition verify_insn (bc : list Z) (max_inst pc : Z) (i : insn) (s : vstate)
    : outcome (result string vstate) :=
  let idx := pc / 8 in
  let next := (s' ← push_next max_inst idx pc s; mret (Ok s')) in
  let offset := signed_imm i in
  let target := pc + offset in
  match opcode_of (i_op i) with
  | Some OP_RET => mret (Ok s)
  | Some OP_JMP =>
      if offset <=? 0 then mret (Err "JMP: back-edge (non-positive offset)"%string)
      else if negb (u64 target mod 8 =? 0) then mret (Err "JMP: misaligned target"%string)
      else if zlen bc <=? u64 target then mret (Err "JMP: target out of bounds"%string)
      else s' ← push_unvisited (u64 target / 8) (u64 target) s; mret (Ok s')
  | Some OP_JE | Some OP_JNE =>
      if offset <=? 0 then
        mret (Err "conditional jump: back-edge (non-positive offset)"%string)
      else if negb (u64 target mod 8 =? 0) then
        mret (Err "conditional jump: misaligned target"%string)
      else if zlen bc <=? u64 target then
        mret (Err "conditional jump: target out of bounds"%string)
      else
        s' ← push_next max_inst idx pc s;
        s'' ← push_unvisited (u64 target / 8) (u64 target) s';
        mret (Ok s'')
  | Some OP_MOV =>
      if 32 <=? i_r1 i then mret (Err "MOV: invalid dst register"%string) else next
  | Some OP_ADD | Some OP_SUB =>
      if 32 <=? i_r1 i then mret (Err "ADD/SUB: invalid dst register"%string)
      else if 32 <=? i_r2 i then mret (Err "ADD/SUB: invalid src1 register"%string)
      else if 32 <=? i_r3 i then mret (Err "ADD/SUB: invalid src2 register"%string)
      else next
  | Some OP_CMP =>
      if 32 <=? i_r2 i then mret (Err "CMP: invalid src1 register"%string)
      else if 32 <=? i_r3 i then mret (Err "CMP: invalid src2 register"%string)
      else next
  | Some OP_LOAD =>
      if 32 <=? i_r1 i then mret (Err "LOAD: invalid dst register"%string)
      else if SCRATCH_SIZE <? i_imm i + 8 then
        mret (Err "LOAD: scratch access out of bounds"%string)
      else next
  | Some OP_STORE =>
      if 32 <=? i_r2 i then mret (Err "STORE: invalid src register"%string)
      else if SCRATCH_SIZE <? i_imm i + 8 then
        mret (Err "STORE: scratch access out of bounds"%string)
      else next
  | Some OP_PUSH =>
      if 32 <=? i_r2 i then mret (Err "PUSH: invalid src register"%string) else next
  | Some OP_POP =>
      if 32 <=? i_r1 i then mret (Err "POP: invalid dst register"%string) else next
  | None => mret (Err "unknown opcode"%string)
  end.

(** One iteration of [while sp > 0]. *)
Definition verify_step (bc : list Z) (max_inst : Z) (s : vstate)
    : outcome (result string vstate) :=
  let sp := v_sp s - 1 in
  pc ← aget (v_stack s) sp;
  let idx := pc / 8 in
  if max_inst <=? idx then mret (Err "pc out of bounds"%string)
  else
    seen ← aget (v_visited s) idx;
    if (seen : bool) then
      mret (Err "back-edge detected (potential infinite loop)"%string)
    else
      visited ← aset (v_visited s) idx true;
      i ← fetch bc pc;
      r ← verify_insn bc max_inst pc i (VState visited (v_stack s) sp);
      match r with
      | Err e => mret (Err e)
      | Ok s' =>
          if 64 <=? v_sp s'
          then mret (Err "control flow too complex for verifier"%string)
          else mret (Ok s')
      end.

Fixpoint verify_loop (fuel : nat) (bc : list Z) (max_inst : Z) (s : vstate)
    : outcome (result string vstate) :=
  if v_sp s <=? 0 then mret (Ok s)
  else
    match fuel with
    | O => OutOfFuel
    | S fuel' =>
        r ← verify_step bc max_inst s;
        match r with
        | Err e => mret (Err e)
        | Ok s' => verify_loop fuel' bc max_inst s'
        end
    end.

(** Each iteration marks a new instruction, and there are at most 64. *)
Definition VERIFY_FUEL : nat := 65.

Definition verify_init : vstate :=
  VState (replicate 64 false) (replicate 64 0) 1.

Definition verify_bytecode (bc : list Z) : outcome (result string ()) :=
  if zlen bc =? 0 then mret (Err "empty bytecode"%string)
  else if zlen bc <? 8 then mret (Err "bytecode too short (min 8 bytes)"%string)
  else if MAX_BYTECODE <? zlen bc then mret (Err "bytecode exceeds maximum length"%string)
  else if negb (zlen bc mod 8 =? 0) then
    mret (Err "bytecode length not multiple of 8"%string)
  else
    r ← verify_loop VERIFY_FUEL bc (zlen bc / 8) verify_init;
    match r with
    | Err e => mret (Err e)
    | Ok _ =>
        op ← aget bc (zlen bc - 8);
        if op =? 12 then mret (Ok ())
        else mret (Err "bytecode must end with RET instruction"%string)
    end.

(** ** The interpreter *)

Inductive ExecResult : Type :=
| ExecOk
| Timeout
| Error (e : string).

Record vm : Type := Vm {
  regs : list Z;
  stack : list Z;
  sp : Z;
  pc : Z;
  cycles : Z;
  eq_flag : bool;
  scratch : list Z
}.

(** What one pass through the loop body leads to. *)
Inductive flow : Type :=
| Next (m : vm)
| Stop (r : ExecResult) (scr : list Z).

Definition set_reg (m : vm) (r v : Z) : outcome vm :=
  regs' ← aset (regs m) r v;
  mret (Vm regs' (stack m) (sp m) (pc m + 8) (cycles m) (eq_flag m) (scratch m)).

Definition set_pc (m : vm) (p : Z) : vm :=
  Vm (regs m) (stack m) (sp m) p (cycles m) (eq_flag m) (scratch m).

(** The jump of JMP, JE and JNE: the target is checked at run time too. *)
Definition jump (bc_len : Z) (m : vm) (imm : Z) (e : string) : flow :=
  let target := pc m + imm in
  if (target <? 0) || (bc_len <=? target) || negb (target mod 8 =? 0)
  then Stop (Error e) (scratch m)
  else Next (set_pc m target).

Definition exec_insn (bc_len : Z) (m : vm) (i : insn) : outcome flow :=
  match opcode_of (i_op i) with
  | Some OP_MOV => m' ← set_reg m (i_r1 i) (i_imm i); mret (Next m')
  | Some OP_ADD =>
      a ← aget (regs m) (i_r2 i); b ← aget (regs m) (i_r3 i);
      m' ← set_reg m (i_r1 i) (u64 (a + b)); mret (Next m')
  | Some OP_SUB =>
      a ← aget (regs m) (i_r2 i); b ← aget (regs m) (i_r3 i);
      m' ← set_reg m (i_r1 i) (u64 (a - b)); mret (Next m')
  | Some OP_CMP =>
      a ← aget (regs m) (i_r2 i); b ← aget (regs m) (i_r3 i);
      mret (Next (Vm (regs m) (stack m) (sp m) (pc m + 8) (cycles m) (a =? b) (scratch m)))
  | Some OP_JMP => mret (jump bc_len m (signed_imm i) "JMP: invalid target at runtime"%string)
  | Some OP_JE =>
      if eq_flag m
      then mret (jump bc_len m (signed_imm i) "JE: invalid target at runtime"%string)
      else mret (Next (set_pc m (pc m + 8)))
  | Some OP_JNE =>
      if negb (eq_flag m)
      then mret (jump bc_len m (signed_imm i) "JNE: invalid target at runtime"%string)
      else mret (Next (set_pc m (pc m + 8)))
  | Some OP_LOAD =>
      let offset := i_imm i in
      if SCRATCH_SIZE <? offset + 8
      then mret (Stop (Error "LOAD: scratch out of bounds at runtime"%string) (scratch m))
      else
        bytes ← aslice (scratch m) offset (offset + 8);
        m' ← set_reg m (i_r1 i) (of_le_bytes bytes); mret (Next m')
  | Some OP_STORE =>
      let offset := i_imm i in
      if SCRATCH_SIZE <? offset + 8
      then mret (Stop (Error "STORE: scratch out of bounds at runtime"%string) (scratch m))
      else
        v ← aget (regs m) (i_r2 i);
        scr ← asplice (scratch m) offset (le_bytes 8 v);
        mret (Next (Vm (regs m) (stack m) (sp m) (pc m + 8) (cycles m) (eq_flag m) scr))
  | Some OP_PUSH =>
      if STACK_DEPTH <=? sp m
      then mret (Stop (Error "execution stack overflow"%string) (scratch m))
      else
        v ← aget (regs m) (i_r2 i);
        stk ← aset (stack m) (sp m) v;
        mret (Next (Vm (regs m) stk (sp m + 1) (pc m + 8) (cycles m) (eq_flag m) (scratch m)))
  | Some OP_POP =>
      if sp m =? 0
      then mret (Stop (Error "execution stack underflow"%string) (scratch m))
      else
        v ← aget (stack m) (sp m - 1);
        regs' ← aset (regs m) (i_r1 i) v;
        mret (Next (Vm regs' (stack m) (sp m - 1) (pc m + 8) (cycles m) (eq_flag m) (scratch m)))
  | Some OP_RET => mret (Stop ExecOk (scratch m))
  | None => mret (Stop (Error "unknown opcode at runtime"%string) (scratch m))
  end.

(** One pass through [loop]: budget test, bounds test, fetch, [cycles += 1],
    dispatch. *)
Definition exec_step (bc : list Z) (bc_len : Z) (m : vm) : outcome flow :=
  if CYCLE_BUDGET <=? cycles m then mret (Stop Timeout (scratch m))
  else if bc_len <? pc m + 8
  then mret (Stop (Error "pc out of bounds at runtime"%string) (scratch m))
  else
    i ← fetch bc (pc m);
    exec_insn bc_len
      (Vm (regs m) (stack m) (sp m) (pc m) (cycles m + 1) (eq_flag m) (scratch m)) i.

Fixpoint exec_loop (fuel : nat) (bc : list Z) (bc_len : Z) (m : vm)
    : outcome (ExecResult * list Z) :=
  match fuel with
  | O => OutOfFuel
  | S fuel' =>
      f ← exec_step bc bc_len m;
      match f with
      | Stop r scr => mret (r, scr)
      | Next m' => exec_loop fuel' bc bc_len m'
      end
  end.

(** One more pass than the budget: the last one returns [Timeout]. *)
Definition EXEC_FUEL : nat := 1001.

Record Extension : Type := Ext {
  name : list Z;
  pid : Z;
  bytecode : list Z;
  bc_len : Z;
  hook_type : Z;
  active : bool;
  ext_scratch : list Z
}.

(** The interpreter on an extension; returns the verdict and the extension's
    scratch buffer, the only part of the extension it writes. *)
Definition execute_extension (ext : Extension) (hook context0 context1 : Z)
    : outcome (ExecResult * list Z) :=
  regs1 ← aset (replicate 32 0) 30 hook;
  regs2 ← aset regs1 31 context0;
  scr1 ← asplice (ext_scratch ext) 0 (le_bytes 8 context0);
  scr2 ← asplice scr1 8 (le_bytes 8 context1);
  bc ← aslice (bytecode ext) 0 (bc_len ext);
  exec_loop EXEC_FUEL bc (bc_len ext)
    (Vm regs2 (replicate 32 0) 0 0 0 false scr2).

(** ** The table of extensions *)

(** What the framework prints: a rejected program, a log record, a timeout and
    a run-time error, with the index of the extension in place of its name. *)
Inductive event : Type :=
| EvRejected (e : string)
| EvLog (id hook v1 v2 : Z)
| EvTimeout (id : Z)
| EvError (id : Z) (e : string).

(** [EXTENSIONS] and [EXT_COUNT], with the console output so far. *)
Record table : Type := Table {
  EXTENSIONS : list Extension;
  EXT_COUNT : Z;
  console : list event
}.

Definition empty_extension : Extension :=
  Ext (replicate 16 0) 0 (replicate 512 0) 0 0 false (replicate 256 0).

Definition initial_table : table := Table (replicate 8 empty_extension) 0 [].

Definition print (t : table) (e : event) : table :=
  Table (EXTENSIONS t) (EXT_COUNT t) (console t ++ [e]).

Definition register (t : table) (p hook : Z) (bc nm : list Z)
    : outcome (option Z * table) :=
  v ← verify_bytecode bc;
  match v with
  | Err e => mret (None, print t (EvRejected e))
  | Ok _ =>
      if MAX_EXTENSIONS <=? EXT_COUNT t then mret (None, t)
      else
        let id := EXT_COUNT t in
        e ← aget (EXTENSIONS t) id;
        let len := Z.min (zlen bc) MAX_BYTECODE in
        code ← asplice (bytecode e) 0 (take (Z.to_nat len) bc);
        let name_len := Z.min (zlen nm) 15 in
        nm1 ← asplice (name e) 0 (take (Z.to_nat name_len) nm);
        nm2 ← aset nm1 name_len 0;
        exts ← aset (EXTENSIONS t) id (Ext nm2 p code len hook true (replicate 256 0));
        mret (Some id, Table exts (EXT_COUNT t + 1) (console t))
  end.

(** [EXTENSIONS[id].active = false] *)
Definition deactivate (t : table) (id : Z) : outcome table :=
  e ← aget (EXTENSIONS t) id;
  exts ← aset (EXTENSIONS t) id
    (Ext (name e) (pid e) (bytecode e) (bc_len e) (hook_type e) false (ext_scratch e));
  mret (Table exts (EXT_COUNT t) (console t)).

Definition unregister (t : table) (ext_id : Z) : outcome (bool * table) :=
  if ext_id <? EXT_COUNT t then
    e ← aget (EXTENSIONS t) ext_id;
    if active e then t' ← deactivate t ext_id; mret (true, t')
    else mret (false, t)
  else mret (false, t).

(** The scratch buffer the interpreter leaves behind. *)
Definition set_scratch (t : table) (id : Z) (scr : list Z) : outcome table :=
  e ← aget (EXTENSIONS t) id;
  exts ← aset (EXTENSIONS t) id
    (Ext (name e) (pid e) (bytecode e) (bc_len e) (hook_type e) (active e) scr);
  mret (Table exts (EXT_COUNT t) (console t)).

(** The log record read back after a successful run. *)
Definition log_output (id hook : Z) (scr : list Z) (t : table) : outcome table :=
  flag ← aget scr 250;
  if flag =? 1 then
    b1 ← aslice scr 240 248;
    b2 ← aslice scr 248 256;
    mret (print t (EvLog id hook (of_le_bytes b1) (of_le_bytes b2)))
  else mret t.

(** The body of [run_hook]'s loop for extension [i]. *)
Definition run_hook_one (hook context0 context1 : Z) (t : table) (i : Z) : outcome table :=
  e ← aget (EXTENSIONS t) i;
  if negb (active e) || negb (hook_type e =? hook) then mret t
  else
    r ← execute_extension e hook context0 context1;
    t' ← set_scratch t i (snd r);
    match fst r with
    | ExecOk => log_output i hook (snd r) t'
    | Timeout => deactivate (print t' (EvTimeout i)) i
    | Error msg => deactivate (print t' (EvError i msg)) i
    end.

Fixpoint run_hook_loop (hook context0 context1 : Z) (ids : list Z) (t : table)
    : outcome table :=
  match ids with
  | [] => mret t
  | i :: ids' =>
      t' ← run_hook_one hook context0 context1 t i;
      run_hook_loop hook context0 context1 ids' t'
  end.

Definition run_hook (t : table) (hook context0 context1 : Z) : outcome table :=
  run_hook_loop hook context0 context1 (zrange (EXT_COUNT t)) t.

Definition execute_single (t : table) (ext_id hook context0 context1 : Z)
    : outcome (bool * table) :=
  if EXT_COUNT t <=? ext_id then mret (false, t)
  else
    e ← aget (EXTENSIONS t) ext_id;
    if negb (active e) then mret (false, t)
    else
      r ← execute_extension e hook context0 context1;
      t' ← set_scratch t ext_id (snd r);
      match fst r with
      | ExecOk => mret (true, t')
      | Timeout => t'' ← deactivate (print t' (EvTimeout ext_id)) ext_id; mret (false, t'')
      | Error msg => t'' ← deactivate (print t' (EvError ext_id msg)) ext_id; mret (false, t'')
      end.

(** The 27-byte record [list] writes for an active extension. *)
Definition list_record (e : Extension) : outcome (list Z) :=
  counter ← aslice (ext_scratch e) 128 136;
  mret (name e ++ [hook_type e; bc_len e mod 256; (bc_len e / 256) mod 256]
        ++ le_bytes 8 (of_le_bytes counter)).

Fixpoint list_loop (t : table) (ids : list Z) (buf : list Z) (pos : Z)
    : outcome (Z * list Z) :=
  match ids with
  | [] => mret (pos, buf)
  | i :: ids' =>
      e ← aget (EXTENSIONS t) i;
      if negb (active e) then list_loop t ids' buf pos
      else if zlen buf <? pos + 27 then mret (pos, buf)
      else
        rec ← list_record e;
        buf' ← asplice buf pos rec;
        list_loop t ids' buf' (pos + 27)
  end.

Definition list_extensions (t : table) (buf : list Z) : outcome (Z * list Z) :=
  list_loop t (zrange (EXT_COUNT t)) buf 0.

Definition read_scratch (t : table) (ext_id offset : Z) : outcome Z :=
  if (ext_id <? EXT_COUNT t) && (offset <? SCRATCH_SIZE) then
    e ← aget (EXTENSIONS t) ext_id; aget (ext_scratch e) offset
  else mret 0.

Definition read_scratch_u32 (t : table) (ext_id offset : Z) : outcome Z :=
  if (ext_id <? EXT_COUNT t) && (offset + 4 <=? SCRATCH_SIZE) then
    e ← aget (EXTENSIONS t) ext_id;
    b0 ← aget (ext_scratch e) offset;
    b1 ← aget (ext_scratch e) (offset + 1);
    b2 ← aget (ext_scratch e) (offset + 2);
    b3 ← aget (ext_scratch e) (offset + 3);
    mret (of_le_bytes [b0; b1; b2; b3])
  else mret 0.

(** The operations of the interface, as steps of the table. Arguments have the
    types the source gives them: bytes are below 256, contexts fit in 64 bits. *)
Inductive ext_step : table → table → Prop :=
| step_register t p hook bc nm r t' :
    Forall is_byte bc → Forall is_byte nm →
    register t p hook bc nm = Done (r, t') → ext_step t t'
| step_unregister t id r t' :
    0 <= id → unregister t id = Done (r, t') → ext_step t t'
| step_hook t hook c0 c1 t' :
    run_hook t hook c0 c1 = Done t' → ext_step t t'
| step_single t id hook c0 c1 r t' :
    0 <= id → execute_single t id hook c0 c1 = Done (r, t') → ext_step t t'.

Definition ext_reachable : table → Prop := rtc ext_step initial_table.

(** ** What a verified program looks like *)

(** The checks the verifier makes on one instruction. *)
Definition checked (len pc : Z) (i : insn) : Prop :=
  match opcode_of (i_op i) with
  | Some OP_RET => True
  | Some OP_JMP | Some OP_JE | Some OP_JNE =>
      0 < signed_imm i ∧ (pc + signed_imm i) mod 8 = 0 ∧ pc + signed_imm i < len
  | Some OP_MOV | Some OP_POP => i_r1 i < 32
  | Some OP_ADD | Some OP_SUB => i_r1 i < 32 ∧ i_r2 i < 32 ∧ i_r3 i < 32
  | Some OP_CMP => i_r2 i < 32 ∧ i_r3 i < 32
  | Some OP_LOAD => i_r1 i < 32 ∧ i_imm i + 8 <= SCRATCH_SIZE
  | Some OP_STORE => i_r2 i < 32 ∧ i_imm i + 8 <= SCRATCH_SIZE
  | Some OP_PUSH => i_r2 i < 32
  | None => False
  end.

(** Where control can go after the instruction at [pc]. *)
Definition succs (pc : Z) (i : insn) : list Z :=
  match opcode_of (i_op i) with
  | Some OP_RET | None => []
  | Some OP_JMP => [pc + signed_imm i]
  | Some OP_JE | Some OP_JNE => [pc + 8; pc + signed_imm i]
  | _ => [pc + 8]
  end.

(** A set [V] of program counters, closed under control flow, on which every
    instruction passes the checks. *)
Record closed (bc : list Z) (V : Z → Prop) : Prop := {
  closed_start : V 0;
  closed_at p : V p → 0 <= p ∧ p mod 8 = 0 ∧ p + 8 <= zlen bc ∧
    ∃ i, fetch bc p = Done i ∧ checked (zlen bc) p i ∧ ∀ q, q ∈ succs p i → V q
}.

Lemma fetch_in_range bc p :
  0 <= p → p + 8 <= zlen bc → ∃ i, fetch bc p = Done i.
Proof.
  intros Hp Hlen. unfold fetch.
  step_done (aget_in_range bc p ltac:(lia)).
  step_done (aget_in_range bc (p + 1) ltac:(lia)).
  step_done (aget_in_range bc (p + 2) ltac:(lia)).
  step_done (aget_in_range bc (p + 3) ltac:(lia)).
  step_done (aget_in_range bc (p + 4) ltac:(lia)).
  step_done (aget_in_range bc (p + 5) ltac:(lia)).
  step_done (aget_in_range bc (p + 6) ltac:(lia)).
  step_done (aget_in_range bc (p + 7) ltac:(lia)).
  by eexists.
Qed.

(** The fields of a fetched instruction are bytes, its immediate a [u32]. *)
Lemma fetch_fields bc p i :
  Forall is_byte bc → fetch bc p = Done i →
  0 <= i_r1 i ∧ 0 <= i_r2 i ∧ 0 <= i_r3 i ∧ fits 32 (i_imm i).
Proof.
  intros Hbc. unfold fetch.
  assert (Hget : ∀ k x, aget bc k = Done x → is_byte x).
  { intros k x [_ Hx]%aget_lookup. by eapply Forall_lookup_1 in Hx. }
  intros Hf. inv_bind. cbn [i_r1 i_r2 i_r3 i_imm].
  assert (Hb : Forall is_byte [a3; a4; a5; a6])
    by (repeat constructor; eapply Hget; done).
  repeat match goal with H : aget bc _ = Done _ |- _ => apply Hget in H end.
  unfold is_byte in *. unfold fits.
  apply of_le_bytes_bound in Hb. change (8 * zlen _) with 32 in Hb. lia.
Qed.

(** ** Soundness of the verifier *)

Definition on_stack (s : vstate) (q : Z) : Prop :=
  ∃ k, 0 <= k < v_sp s ∧ aget (v_stack s) k = Done q.

Definition visited (s : vstate) (idx : Z) : Prop := aget (v_visited s) idx = Done true.

Definition in_code (len q : Z) : Prop := 0 <= q < len ∧ q mod 8 = 0.

(** The search's arrays have their declared sizes and the stack holds only
    aligned program counters inside the code. *)
Record vshape (len : Z) (s : vstate) : Prop := {
  vs_visited : zlen (v_visited s) = 64;
  vs_stack : zlen (v_stack s) = 64;
  vs_sp : 0 <= v_sp s;
  vs_code q : on_stack s q → in_code len q
}.

(** From [s] to [s'] only the stack grew, by at most [n] entries. *)
Record grows (n : Z) (s s' : vstate) : Prop := {
  gr_visited : v_visited s' = v_visited s;
  gr_sp : v_sp s <= v_sp s' <= v_sp s + n;
  gr_stack q : on_stack s q → on_stack s' q
}.

(** An already processed successor: visited, or waiting on the stack. *)
Definition covered (s : vstate) (q : Z) : Prop := visited s (q / 8) ∨ on_stack s q.

Lemma push_unvisited_spec len s q :
  vshape len s → v_sp s < 64 → len <= 512 → in_code len q →
  ∃ s', push_unvisited (q / 8) q s = Done s' ∧ vshape len s' ∧ grows 1 s s' ∧ covered s' q.
Proof.
  intros [Hv Hst Hsp Hc] Hlt Hlen [Hq Hq8]. unfold push_unvisited.
  destruct (aget_in_range (v_visited s) (q / 8)) as [seen Hseen];
    [rewrite Hv; dlia |].
  rewrite Hseen. cbn [mbind outcome_bind]. destruct seen.
  { exists s. split_and!; [done | by constructor | constructor; [done | lia | done] |].
    by left. }
  rewrite aset_in_range by lia. cbn [mbind outcome_bind].
  set (s' := VState _ _ _).
  assert (Hmono : ∀ q', on_stack s q' → on_stack s' q').
  { intros q' (k & Hk & Hget). exists k. cbn. split; [lia |].
    rewrite aget_insert_ne by lia. done. }
  assert (Htop : on_stack s' q).
  { exists (v_sp s). cbn. split; [lia |]. apply aget_insert_eq. lia. }
  assert (Hinv : ∀ q', on_stack s' q' → on_stack s q' ∨ q' = q).
  { intros q' (k & Hk & Hget). cbn in Hk, Hget.
    destruct (decide (k = v_sp s)) as [-> | Hne].
    - rewrite aget_insert_eq in Hget by lia. naive_solver.
    - rewrite aget_insert_ne in Hget by lia. left. exists k. split; [lia | done]. }
  exists s'. split_and!; [done | | | by right].
  - constructor; cbn; [done | by rewrite zlen_insert | lia |].
    intros q' [? | ->]%Hinv; [by apply Hc | by split].
  - constructor; cbn; [done | lia | done].
Qed.

Lemma covered_grows n s s' q : grows n s s' → covered s q → covered s' q.
Proof.
  intros [Hv _ Hs] [Hq | Hq]; [left | right; by apply Hs].
  unfold visited. by rewrite Hv.
Qed.

Lemma grows_trans n m s s' s'' :
  grows n s s' → grows m s' s'' → grows (n + m) s s''.
Proof.
  intros [Hv Hsp Hs] [Hv' Hsp' Hs']. constructor; [congruence | lia | eauto].
Qed.

Lemma grows_le n m s s' : n <= m → grows n s s' → grows m s s'.
Proof. intros ? [? ? ?]. constructor; [done | lia | done]. Qed.

Lemma push_next_spec len s p :
  vshape len s → v_sp s < 64 → len <= 512 → len mod 8 = 0 → in_code len p →
  ∃ s', push_next (len / 8) (p / 8) p s = Done s' ∧ vshape len s' ∧ grows 1 s s' ∧
        (p + 8 < len → covered s' (p + 8)).
Proof.
  intros Hs Hlt Hlen Hlen8 [Hp Hp8]. unfold push_next.
  destruct (_ <? _) eqn:Hnext; bools.
  - replace (p / 8 + 1) with ((p + 8) / 8) by dlia.
    assert (in_code len (p + 8)) by (unfold in_code; dlia).
    destruct (push_unvisited_spec len s (p + 8)) as (s' & -> & ? & ? & ?); eauto.
  - exists s. split_and!; [done | done | | dlia].
    constructor; [done | lia | done].
Qed.

(** What [verify_insn] has established when it accepts the instruction. *)
Definition insn_accepted (len p : Z) (i : insn) (s : vstate) (r : result string vstate)
    : Prop :=
  match r with
  | Err _ => True
  | Ok s' => vshape len s' ∧ grows 2 s s' ∧ checked len p i ∧
             ∀ q, q ∈ succs p i → q < len → covered s' q
  end.

(** The instructions that fall through: [verify_insn] ends with [push_next]. *)
Lemma fall_through_spec len s p i :
  vshape len s → v_sp s < 63 → len <= 512 → len mod 8 = 0 → in_code len p →
  checked len p i → succs p i = [p + 8] →
  ∃ r, (s' ← push_next (len / 8) (p / 8) p s; mret (Ok s')) = Done r ∧
       insn_accepted len p i s r.
Proof.
  intros Hs Hlt Hlen Hlen8 Hp Hck Hsucc.
  destruct (push_next_spec len s p) as (s' & -> & ? & ? & ?); [done || lia.. |].
  exists (Ok s'). split; [done |]. cbn. rewrite Hsucc.
  split_and!; [done | apply (grows_le 1); [lia | done] | done |].
  intros q ->%list_elem_of_singleton. done.
Qed.

Lemma verify_insn_spec bc len s p i :
  zlen bc = len → vshape len s → v_sp s < 63 → len <= 512 → len mod 8 = 0 →
  in_code len p →
  ∃ r, verify_insn bc (len / 8) p i s = Done r ∧ insn_accepted len p i s r.
Proof.
  intros Hbc Hs Hlt Hlen Hlen8 Hp. unfold verify_insn. rewrite Hbc.
  pose proof (to_signed_bound 32 (i_imm i) ltac:(lia)) as Himm.
  fold (signed_imm i) in Himm. change (2 ^ (32 - 1)) with 2147483648 in Himm.
  assert (Hu : 0 < signed_imm i → u64 (p + signed_imm i) = p + signed_imm i).
  { intros. apply wrap_small. unfold fits, in_code in *. lia. }
  destruct (opcode_of (i_op i)) as [[] |] eqn:Hop;
    repeat (destruct (32 <=? _) eqn:?; bools;
            [by eexists; split; [reflexivity | exact I] |]);
    try (destruct (SCRATCH_SIZE <? _) eqn:?; bools;
            [by eexists; split; [reflexivity | exact I] |]);
    try (apply fall_through_spec; try done; unfold checked, succs; rewrite Hop; done || lia).
  all: try (by eexists; split; [reflexivity | exact I]).
  4: { exists (Ok s). split; [done |]. cbn. unfold checked, succs. rewrite Hop.
       split_and!; [done | constructor; [done | lia | done] | done |].
       intros q Hq. by apply not_elem_of_nil in Hq. }
  all: destruct (signed_imm i <=? 0) eqn:Hoff; bools;
    [by eexists; split; [reflexivity | exact I] |]; rewrite Hu by lia;
    destruct (negb _) eqn:Hal; bools; [by eexists; split; [reflexivity | exact I] |];
    destruct (len <=? _) eqn:Htl; bools; [by eexists; split; [reflexivity | exact I] |];
    assert (Ht : in_code len (p + signed_imm i)) by (unfold in_code in *; lia).
  1: { destruct (push_unvisited_spec len s (p + signed_imm i)) as (s' & -> & ? & ? & ?);
         [done || lia.. |].
       exists (Ok s'). split; [done |]. cbn. unfold checked, succs. rewrite Hop.
       split_and!; [done | apply (grows_le 1); [lia | done] | lia | lia | lia |].
       intros q ->%list_elem_of_singleton. done. }
  all: destruct (push_next_spec len s p) as (s1 & -> & Hs1 & Hg1 & Hc1); [done || lia.. |];
    cbn [mbind outcome_bind];
    pose proof (gr_sp _ _ _ Hg1);
    destruct (push_unvisited_spec len s1 (p + signed_imm i)) as (s' & -> & ? & Hg & ?);
      [done || lia.. |];
    exists (Ok s'); split; [done |]; cbn; unfold checked, succs; rewrite Hop;
    (split_and!; [done | by apply (grows_trans 1 1 _ s1) | lia | lia | lia |]);
    intros q [-> | ->%list_elem_of_singleton]%elem_of_cons Hq; [| done];
    eapply covered_grows; eauto.
Qed.

(** The invariant of the search: every visited instruction passed its checks
    and all its successors inside the code are visited or on the stack; so is
    the entry point. *)
Record vinv (bc : list Z) (s : vstate) : Prop := {
  vi_shape : vshape (zlen bc) s;
  vi_sp : v_sp s < 64;
  vi_start : covered s 0;
  vi_visited p : p mod 8 = 0 → visited s (p / 8) →
    in_code (zlen bc) p ∧
    ∃ i, fetch bc p = Done i ∧ checked (zlen bc) p i ∧
         ∀ q, q ∈ succs p i → q < zlen bc → covered s q
}.

(** Popping the top of the stack and marking it visited. *)
Lemma pop_top bc s p :
  vinv bc s → 0 < v_sp s → zlen bc <= 512 →
  aget (v_stack s) (v_sp s - 1) = Done p →
  in_code (zlen bc) p ∧
  let s1 := VState (<[Z.to_nat (p / 8) := true]> (v_visited s)) (v_stack s) (v_sp s - 1) in
  vshape (zlen bc) s1 ∧ visited s1 (p / 8) ∧
  (∀ q, q mod 8 = 0 → visited s1 (q / 8) → q = p ∨ visited s (q / 8)) ∧
  (∀ q, covered s q → covered s1 q).
Proof.
  intros [Hsh Hsp Hst Hvis] Hpos Hlen Htop.
  assert (Hp : in_code (zlen bc) p).
  { apply (vs_code _ _ Hsh). exists (v_sp s - 1). split; [lia | done]. }
  split; [done |]. intros s1. destruct Hp as [Hp Hp8].
  assert (Hidx : 0 <= p / 8 < zlen (v_visited s)) by (rewrite (vs_visited _ _ Hsh); dlia).
  assert (Hmark : ∀ k, k ≠ p / 8 → aget (v_visited s1) k = aget (v_visited s) k).
  { intros k Hk. cbn. apply aget_insert_ne; [lia | done]. }
  assert (Hmarked : visited s1 (p / 8)) by (by apply aget_insert_eq).
  split_and!.
  - constructor; cbn; [rewrite zlen_insert; apply Hsh | apply Hsh | lia |].
    intros q (k & Hk & Hget). apply (vs_code _ _ Hsh). exists k. cbn in Hk. split; [lia | done].
  - done.
  - intros q Hq8 Hq. destruct (decide (q / 8 = p / 8)) as [He | He]; [left; dlia | right].
    unfold visited in *. by rewrite Hmark in Hq.
  - intros q [Hq | (k & Hk & Hget)].
    + left. destruct (decide (q / 8 = p / 8)) as [-> | He]; [done |].
      unfold visited. by rewrite Hmark.
    + destruct (decide (k = v_sp s - 1)) as [-> | He].
      * left. replace q with p by congruence. done.
      * right. exists k. cbn. split; [lia | done].
Qed.

Lemma verify_step_spec bc s :
  vinv bc s → 0 < v_sp s → zlen bc <= 512 → zlen bc mod 8 = 0 →
  ∃ r, verify_step bc (zlen bc / 8) s = Done r ∧
       match r with
       | Err _ => True
       | Ok s' => vinv bc s' ∧ S (unset (v_visited s')) = unset (v_visited s)
       end.
Proof.
  intros Hinv Hpos Hlen Hlen8. unfold verify_step.
  destruct (aget_in_range (v_stack s) (v_sp s - 1)) as [p Htop].
  { destruct Hinv as [[] ?]. lia. }
  rewrite Htop. cbn [mbind outcome_bind].
  destruct (pop_top bc s p) as (Hp & Hsh1 & Hmarked & Honly & Hcov); [done.. |].
  destruct (_ <=? p / 8) eqn:Hin; [by eexists |].
  assert (Hidx : 0 <= p / 8 < zlen (v_visited s)).
  { rewrite (vs_visited _ _ (vi_shape _ _ Hinv)). unfold in_code in Hp. dlia. }
  destruct (aget_in_range (v_visited s) (p / 8) Hidx) as [seen Hseen].
  rewrite Hseen. cbn [mbind outcome_bind]. destruct seen; [by eexists |].
  rewrite aset_in_range by done. cbn [mbind outcome_bind].
  destruct (fetch_in_range bc p) as [i Hi]; [unfold in_code in Hp; lia | |].
  { unfold in_code in Hp. dlia. }
  rewrite Hi. cbn [mbind outcome_bind].
  set (s1 := VState _ (v_stack s) (v_sp s - 1)) in *.
  destruct (verify_insn_spec bc (zlen bc) s1 p i) as (r & -> & Hr); try done.
  { cbn. destruct Hinv. lia. }
  cbn [mbind outcome_bind]. destruct r as [s' | e]; [| by eexists].
  destruct (64 <=? v_sp s') eqn:H64; bools; [by eexists |].
  destruct Hr as (Hsh' & Hg & Hck & Hsuc).
  exists (Ok s'). split; [done |]. split.
  - constructor; [done | done | |].
    + eapply covered_grows, Hcov, Hinv. done.
    + intros q Hq8 Hq. unfold visited in Hq. rewrite (gr_visited _ _ _ Hg) in Hq.
      destruct (Honly q Hq8 Hq) as [-> | Hold].
      * split; [done |]. by exists i.
      * destruct (vi_visited _ _ Hinv q Hq8 Hold) as (? & i' & ? & ? & Hs').
        split; [done |]. exists i'. split_and!; [done.. |].
        intros q' Hq' Hlt. eapply covered_grows; [done |]. apply Hcov. by apply Hs'.
  - rewrite (gr_visited _ _ _ Hg). cbn. apply unset_insert.
    by apply aget_lookup in Hseen as [_ ?].
Qed.

Lemma verify_loop_spec bc fuel s :
  zlen bc <= 512 → zlen bc mod 8 = 0 → vinv bc s → (unset (v_visited s) < fuel)%nat →
  ∃ r, verify_loop fuel bc (zlen bc / 8) s = Done r ∧
       match r with Err _ => True | Ok s' => vinv bc s' ∧ v_sp s' <= 0 end.
Proof.
  intros Hlen Hlen8. revert s. induction fuel as [| fuel IH]; intros s Hinv Hfuel; [lia |].
  cbn [verify_loop]. destruct (v_sp s <=? 0) eqn:Hsp; bools; [by eexists |].
  destruct (verify_step_spec bc s) as (r & -> & Hr); [done.. |].
  cbn [mbind outcome_bind]. destruct r as [s' | e]; [| by eexists].
  destruct Hr as [Hinv' Hcnt]. apply IH; [done | lia].
Qed.

Lemma verify_init_inv bc : 8 <= zlen bc → vinv bc verify_init.
Proof.
  intros Hlen.
  assert (Hon : ∀ q, on_stack verify_init q ↔ q = 0).
  { intros q. split.
    - intros (k & Hk & Hget). cbn in Hk. assert (k = 0) as -> by lia. by injection Hget.
    - intros ->. by exists 0. }
  constructor; [| done | right; by apply Hon |].
  - constructor; [done | done | done |]. intros q ->%Hon. unfold in_code. split; [lia | done].
  - intros p _ [_ Hp]%aget_lookup. cbn [verify_init v_visited] in Hp.
    apply lookup_replicate in Hp as [? _]. done.
Qed.

(** The visited set of an accepted program is closed under control flow: the
    last instruction is RET, so no visited instruction falls off the end. *)
Lemma vinv_closed bc s :
  vinv bc s → v_sp s <= 0 → zlen bc mod 8 = 0 → aget bc (zlen bc - 8) = Done 12 →
  closed bc (λ p, p mod 8 = 0 ∧ visited s (p / 8)).
Proof.
  intros [Hsh _ Hst Hvis] Hsp Hlen8 Hret.
  assert (Hcov : ∀ q, covered s q → visited s (q / 8)).
  { intros q [? | (k & ? & _)]; [done | lia]. }
  split; [split; [done | by apply Hcov] |].
  intros p [Hp8 Hp]. destruct (Hvis p Hp8 Hp) as ([Hrange _] & i & Hi & Hck & Hs).
  assert (Hend : p + 8 <= zlen bc) by dlia.
  split_and!; [lia | done | done |]. exists i. split_and!; [done.. |].
  assert (Hlast : p + 8 = zlen bc → i_op i = 12).
  { intros He. unfold fetch in Hi. replace p with (zlen bc - 8) in Hi by lia.
    rewrite Hret in Hi. inv_bind. done. }
  intros q Hq. assert (q mod 8 = 0 ∧ q < zlen bc) as [Hq8 Hlt]; [| split; [done | by apply Hcov, Hs]].
  unfold checked, succs in *.
  destruct (decide (p + 8 = zlen bc)) as [He | He].
  { rewrite (Hlast He) in *. cbn in Hq. by apply not_elem_of_nil in Hq. }
  destruct (opcode_of (i_op i)) as [[] |];
    repeat match goal with
    | H : _ ∈ [] |- _ => by apply not_elem_of_nil in H
    | H : _ ∈ [_] |- _ => apply list_elem_of_singleton in H as ->
    | H : _ ∈ _ :: _ |- _ => apply elem_of_cons in H as [-> |]
    end; dlia.
Qed.

(** The verifier is total: on any byte string it returns a verdict (it
    never indexes its 64-entry arrays out of range and its search ends). *)
Theorem verify_bytecode_total (bc : list Z) : ∃ v, verify_bytecode bc = Done v.
Proof.
  unfold verify_bytecode.
  destruct (zlen bc =? 0); [by eexists |].
  destruct (zlen bc <? 8) eqn:?; bools; [by eexists |].
  destruct (MAX_BYTECODE <? zlen bc) eqn:?; bools; [by eexists |].
  destruct (negb _) eqn:?; bools; [by eexists |].
  unfold MAX_BYTECODE in *.
  destruct (verify_loop_spec bc VERIFY_FUEL verify_init) as (r & -> & Hr);
    [done | done | by apply verify_init_inv | vm_compute; lia |].
  cbn [mbind outcome_bind]. destruct r; [| by eexists].
  step_done (aget_in_range bc (zlen bc - 8) ltac:(lia)).
  destruct (_ =? 12); by eexists.
Qed.

Lemma verify_bytecode_closed bc :
  verify_bytecode bc = Done (Ok ()) →
  8 <= zlen bc <= 512 ∧ zlen bc mod 8 = 0 ∧ ∃ V, closed bc V.
Proof.
  unfold verify_bytecode.
  destruct (zlen bc =? 0); [done |].
  destruct (zlen bc <? 8) eqn:?; bools; [done |].
  destruct (MAX_BYTECODE <? zlen bc) eqn:?; bools; [done |].
  destruct (negb _) eqn:?; bools; [done |]. unfold MAX_BYTECODE in *.
  destruct (verify_loop_spec bc VERIFY_FUEL verify_init) as (r & -> & Hr);
    [done | done | by apply verify_init_inv | vm_compute; lia |].
  cbn [mbind outcome_bind]. destruct r as [s |]; [| done].
  destruct Hr as [Hinv Hsp].
  destruct (aget bc (zlen bc - 8)) as [op | | |] eqn:Hop; cbn [mbind outcome_bind]; try done.
  destruct (op =? 12) eqn:Hret; bools; [subst op | done].
  intros _. split_and!; [lia | lia | done |]. eexists. by apply vinv_closed.
Qed.

(** ** Running a verified program *)

Definition stack_error (r : ExecResult) : Prop :=
  r = Error "execution stack overflow" ∨ r = Error "execution stack underflow".

(** The arrays of the machine have their declared sizes. *)
Record vm_shape (m : vm) : Prop := {
  sh_regs : zlen (regs m) = 32;
  sh_stack : zlen (stack m) = 32;
  sh_sp : 0 <= sp m <= 32;
  sh_scratch : zlen (scratch m) = 256
}.

(** Where one instruction of a checked program leads: to a successor, in
    shape, or to a stop for RET or for a full or empty execution stack. *)
Definition checked_flow (m : vm) (i : insn) (f : flow) : Prop :=
  match f with
  | Next m' => vm_shape m' ∧ pc m' ∈ succs (pc m) i ∧ pc m < pc m' ∧ cycles m' = cycles m
  | Stop r scr => (r = ExecOk ∨ stack_error r) ∧ zlen scr = 256
  end.

(** Close a case of [exec_insn_checked] that goes on to the next instruction. *)
Ltac next_insn Hop :=
  eexists; split; [reflexivity |]; unfold checked_flow, succs; rewrite Hop;
  split_and!; cbn;
  [constructor; cbn; rewrite ?zlen_insert; first [done | lia] | set_solver | lia | done].

Lemma jump_checked len m i e :
  vm_shape m → 0 <= pc m → pc m + signed_imm i ∈ succs (pc m) i →
  0 < signed_imm i → (pc m + signed_imm i) mod 8 = 0 → pc m + signed_imm i < len →
  checked_flow m i (jump len m (signed_imm i) e).
Proof.
  intros Hm Hpc Hin Hoff Hal Hlt. unfold jump.
  destruct (_ || _) eqn:E.
  - rewrite !orb_true_iff, negb_true_iff, Z.ltb_lt, Z.leb_le, Z.eqb_neq in E. lia.
  - destruct Hm. cbn. split_and!; [by constructor | done | lia | done].
Qed.

Lemma exec_insn_checked len m i :
  vm_shape m → checked len (pc m) i → 0 <= pc m →
  0 <= i_r1 i → 0 <= i_r2 i → 0 <= i_r3 i → 0 <= i_imm i →
  ∃ f, exec_insn len m i = Done f ∧ checked_flow m i f.
Proof.
  intros Hm Hck Hpc H1 H2 H3 Himm. pose proof Hm as [Hr Hst Hsp Hsc].
  unfold exec_insn, checked, set_reg, SCRATCH_SIZE, STACK_DEPTH in *.
  assert (Hin : ∀ r, 0 <= r → r < 32 → ∃ x, aget (regs m) r = Done x)
    by (intros; apply aget_in_range; lia).
  destruct (opcode_of (i_op i)) as [[] |] eqn:Hop; destruct_and?; [.. | done].
  - rewrite aset_in_range by lia. next_insn Hop.
  - step_done (Hin (i_r2 i) H2 ltac:(lia)). step_done (Hin (i_r3 i) H3 ltac:(lia)).
    rewrite aset_in_range by lia. next_insn Hop.
  - step_done (Hin (i_r2 i) H2 ltac:(lia)). step_done (Hin (i_r3 i) H3 ltac:(lia)).
    rewrite aset_in_range by lia. next_insn Hop.
  - step_done (Hin (i_r2 i) H2 ltac:(lia)). step_done (Hin (i_r3 i) H3 ltac:(lia)).
    next_insn Hop.
  - eexists; split; [reflexivity |].
    apply jump_checked; try done. unfold succs. rewrite Hop. set_solver.
  - destruct (eq_flag m); [| next_insn Hop]. eexists; split; [reflexivity |].
    apply jump_checked; try done. unfold succs. rewrite Hop. set_solver.
  - destruct (eq_flag m); [next_insn Hop |]. eexists; split; [reflexivity |].
    apply jump_checked; try done. unfold succs. rewrite Hop. set_solver.
  - destruct (256 <? _) eqn:?; bools; [lia |].
    rewrite aslice_in_range by lia. cbn [mbind outcome_bind].
    rewrite aset_in_range by lia. next_insn Hop.
  - destruct (256 <? _) eqn:?; bools; [lia |].
    step_done (Hin (i_r2 i) H2 ltac:(lia)).
    assert (He : ∃ scr, asplice (scratch m) (i_imm i) (le_bytes 8 x) = Done scr).
    { eexists. apply asplice_in_range; [lia |]. unfold zlen at 1. rewrite length_le_bytes. lia. }
    destruct He as [scr He]. rewrite He. apply asplice_done_zlen in He.
    next_insn Hop.
  - destruct (32 <=? sp m) eqn:?; bools.
    { eexists; split; [reflexivity |]. cbn. unfold stack_error. eauto. }
    step_done (Hin (i_r2 i) H2 ltac:(lia)). rewrite aset_in_range by lia. next_insn Hop.
  - destruct (sp m =? 0) eqn:?; bools.
    { eexists; split; [reflexivity |]. cbn. unfold stack_error. eauto. }
    step_done (aget_in_range (stack m) (sp m - 1) ltac:(lia)).
    rewrite aset_in_range by lia. next_insn Hop.
  - eexists; split; [reflexivity |]. cbn. eauto.
Qed.

(** A run that keeps to a closed set of at most 64 instructions: each step
    moves forward by at least one instruction, so the cycle count stays below
    the instruction index. *)
Lemma exec_loop_closed bc V fuel m :
  closed bc V → Forall is_byte bc → zlen bc <= 512 →
  vm_shape m → V (pc m) → cycles m * 8 <= pc m → zlen bc - pc m < 8 * Z.of_nat fuel →
  ∃ r scr, exec_loop fuel bc (zlen bc) m = Done (r, scr) ∧
    (r = ExecOk ∨ stack_error r) ∧ zlen scr = 256.
Proof.
  intros [Hstart HV] Hbytes Hlen. revert m.
  induction fuel as [| fuel IH]; intros m Hm Hpc Hcyc Hfuel.
  { destruct (HV _ Hpc) as (? & ? & ? & ?). lia. }
  destruct (HV _ Hpc) as (Hge & Hal & Hend & i & Hi & Hck & Hsucc).
  cbn [exec_loop]. unfold exec_step, CYCLE_BUDGET.
  destruct (1000 <=? _) eqn:?; bools; [lia |].
  destruct (zlen bc <? _) eqn:?; bools; [lia |].
  rewrite Hi. cbn [mbind outcome_bind].
  destruct (fetch_fields bc (pc m) i Hbytes Hi) as (? & ? & ? & Himm).
  set (m1 := Vm (regs m) (stack m) (sp m) (pc m) (cycles m + 1) (eq_flag m) (scratch m)).
  assert (Hm1 : vm_shape m1) by (destruct Hm; by constructor).
  destruct (exec_insn_checked (zlen bc) m1 i) as (f & -> & Hf); try done.
  { unfold fits in Himm. lia. }
  cbn [mbind outcome_bind]. destruct f as [m' | r scr]; cbn in Hf; [| eauto 10].
  destruct Hf as (Hm' & Hin & Hfwd & Hc'). apply IH; [done | by apply Hsucc | |].
  all: destruct (HV _ (Hsucc _ Hin)) as (? & ? & ? & _); dlia.
Qed.

(** An extension as [register] leaves it: arrays of their declared sizes and
    [bc_len] bytes of verified code. *)
Record ext_ok (e : Extension) : Prop := {
  eo_bytecode : zlen (bytecode e) = 512;
  eo_scratch : zlen (ext_scratch e) = 256;
  eo_name : zlen (name e) = 16;
  eo_bytes : Forall is_byte (bytecode e);
  eo_len : 0 <= bc_len e <= 512;
  eo_verified : active e = true →
    verify_bytecode (take (Z.to_nat (bc_len e)) (bytecode e)) = Done (Ok ())
}.

Lemma execute_verified e hook c0 c1 :
  ext_ok e → active e = true →
  ∃ r scr, execute_extension e hook c0 c1 = Done (r, scr) ∧
    (r = ExecOk ∨ stack_error r) ∧ zlen scr = 256.
Proof.
  intros [Hbc Hsc _ Hbytes Hlen Hver] Hact.
  specialize (Hver Hact). set (code := take _ _) in Hver.
  assert (Hcl : zlen code = bc_len e).
  { unfold code, zlen in *. rewrite length_take. lia. }
  destruct (verify_bytecode_closed code Hver) as (Hlen8 & _ & V & HV).
  unfold execute_extension. rewrite aset_in_range by done. cbn [mbind outcome_bind].
  rewrite aset_in_range by done. cbn [mbind outcome_bind].
  assert (Hsp : ∀ l i x, zlen l = 256 → 0 <= i → i + 8 <= 256 →
    ∃ l', asplice l i (le_bytes 8 x) = Done l' ∧ zlen l' = 256).
  { intros l i x Hl Hi1 Hi2.
    assert (He : i + zlen (le_bytes 8 x) <= zlen l) by (unfold zlen at 1; rewrite length_le_bytes; lia).
    eexists. split; [by apply asplice_in_range |].
    rewrite <- Hl. eapply asplice_done_zlen, asplice_in_range; done. }
  destruct (Hsp (ext_scratch e) 0 c0) as (s1 & -> & Hs1); [done.. |].
  cbn [mbind outcome_bind].
  destruct (Hsp s1 8 c1) as (s2 & -> & Hs2); [done.. |].
  cbn [mbind outcome_bind].
  rewrite aslice_in_range by lia. cbn [mbind outcome_bind].
  rewrite Z.sub_0_r, drop_0. fold code. rewrite <- Hcl.
  apply (exec_loop_closed code V); try done.
  - by apply Forall_take.
  - lia.
  - by apply HV.
  - unfold EXEC_FUEL. cbn [pc]. lia.
Qed.

(** C2. Soundness of the verifier. A program that [verify_bytecode] accepts,
    installed in an extension's bytecode array, runs to the end on every hook
    and context: the interpreter does not panic, does not exhaust the cycle
    budget, does not leave the code or the scratch buffer and meets no unknown
    opcode.  It ends with RET, or with the one check that is left to run time,
    a full or empty execution stack. *)
Theorem verified_execution_safe (e : Extension) (code : list Z) (hook c0 c1 : Z) :
  verify_bytecode code = Done (Ok ()) →
  Forall is_byte code →
  zlen (ext_scratch e) = 256 →
  bytecode e = code ++ replicate (512 - length code) 0 →
  bc_len e = zlen code →
  ∃ r scr, execute_extension e hook c0 c1 = Done (r, scr) ∧
    (r = ExecOk ∨ r = Error "execution stack overflow" ∨
     r = Error "execution stack underflow").
Proof.
  intros Hver Hbytes Hsc Hbc Hlen.
  destruct (verify_bytecode_closed code Hver) as (Hb & _ & _).
  set (e' := Ext (replicate 16 0) (pid e) (bytecode e) (bc_len e) (hook_type e) true (ext_scratch e)).
  destruct (execute_verified e' hook c0 c1) as (r & scr & Hrun & Hr & _); [| done |].
  - unfold zlen in *. constructor; cbn; unfold zlen; rewrite ?Hbc, ?Hlen.
    + rewrite length_app, length_replicate. lia.
    + done.
    + done.
    + apply Forall_app. split; [done |]. apply Forall_replicate. unfold is_byte. lia.
    + lia.
    + intros _. by rewrite Nat2Z.id, take_app_length.
  - exists r, scr. split; [exact Hrun | exact Hr].
Qed.

(** A concrete program: MOV r1, 7; CMP r1, r2; JNE +16; PUSH r1; POP r3; RET,
    in which JNE skips the PUSH and lands on the POP. *)
Definition example_code : list Z :=
  [1; 1; 0; 0; 7; 0; 0; 0;
   4; 0; 1; 2; 0; 0; 0; 0;
   7; 0; 0; 0; 16; 0; 0; 0;
   12; 0; 0; 0; 0; 0; 0; 0;
   11; 3; 0; 0; 0; 0; 0; 0;
   12; 0; 0; 0; 0; 0; 0; 0].

Definition example_extension : Extension :=
  Ext (replicate 16 0) 1 (example_code ++ replicate (512 - length example_code) 0)
      (zlen example_code) 4 true (replicate 256 0).

Lemma verified_execution_safe_witness :
  verify_bytecode example_code = Done (Ok ()) ∧
  ∃ r scr, execute_extension example_extension 4 10 20 = Done (r, scr) ∧
    (r = ExecOk ∨ r = Error "execution stack overflow" ∨
     r = Error "execution stack underflow").
Proof.
  split; [vm_compute; reflexivity |].
  apply (verified_execution_safe example_extension example_code 4 10 20).
  - vm_compute. reflexivity.
  - repeat constructor; lia.
  - vm_compute. reflexivity.
  - reflexivity.
  - reflexivity.
Defined.

(** ** The cycle budget bounds every program *)

(** A computation that returns or panics: it neither deadlocks nor runs on. *)
Definition settles {A} (m : outcome A) : Prop := m = Panic ∨ ∃ a, m = Done a.

Lemma settles_bind {A B} (m : outcome A) (f : A → outcome B) :
  settles m → (∀ a, m = Done a → settles (f a)) → settles (m ≫= f).
Proof. intros [-> | [a ->]] Hf; [by left | by apply Hf]. Qed.

Lemma settles_done {A} (a : A) : settles (Done a).
Proof. right. by eexists. Qed.

Lemma aget_settles {A} (l : list A) i : settles (aget l i).
Proof.
  unfold aget. destruct (i <? 0); [by left |]. destruct (l !! _); [apply settles_done | by left].
Qed.

Lemma aset_settles {A} (l : list A) i x : settles (aset l i x).
Proof. unfold aset. destruct (_ && _); [apply settles_done | by left]. Qed.

Lemma aslice_settles {A} (l : list A) i j : settles (aslice l i j).
Proof. unfold aslice. destruct (_ && _); [apply settles_done | by left]. Qed.

Lemma asplice_settles {A} (l : list A) i src : settles (asplice l i src).
Proof. unfold asplice. destruct (_ && _); [apply settles_done | by left]. Qed.

Ltac settle :=
  repeat first
    [ apply settles_done | apply aget_settles | apply aset_settles
    | apply aslice_settles | apply asplice_settles
    | apply settles_bind; [| intros ? _]
    | match goal with |- settles (if ?b then _ else _) => destruct b end ].

Lemma fetch_settles bc p : settles (fetch bc p).
Proof. unfold fetch. settle. Qed.

Lemma exec_insn_settles len m i : settles (exec_insn len m i).
Proof. unfold exec_insn, set_reg. destruct (opcode_of _) as [[] |]; settle. Qed.

Lemma exec_insn_cycles len m i m' :
  exec_insn len m i = Done (Next m') → cycles m' = cycles m.
Proof.
  unfold exec_insn, set_reg, jump, set_pc.
  destruct (opcode_of _) as [[] |]; if_split; intros Hrun; inv_bind; try done; by simplify_eq.
Qed.

Lemma exec_loop_settles bc len fuel m :
  0 <= cycles m → 1000 - cycles m < Z.of_nat fuel → (0 < fuel)%nat →
  settles (exec_loop fuel bc len m).
Proof.
  revert m. induction fuel as [| fuel IH]; intros m Hc Hfuel Hpos; [lia |].
  cbn [exec_loop]. unfold exec_step, CYCLE_BUDGET.
  destruct (1000 <=? _) eqn:?; bools; [apply settles_done |].
  destruct (len <? _) eqn:?; bools; [apply settles_done |].
  apply settles_bind.
  { apply settles_bind; [apply fetch_settles | intros ? _; apply exec_insn_settles]. }
  intros f Hf. inv_bind. destruct f as [m' |]; [| apply settles_done].
  apply exec_insn_cycles in Hf. cbn in Hf. apply IH; lia.
Qed.

(** Any bytecode, verified or not, is cut off by the cycle budget: the
    interpreter's loop ends (in a verdict, or in a panic when an unverified
    register field is out of range) after at most 1000 instructions, one less
    than the fuel of the model. *)
Theorem execute_extension_bounded (e : Extension) (hook c0 c1 : Z) :
  execute_extension e hook c0 c1 = Panic ∨
  ∃ r scr, execute_extension e hook c0 c1 = Done (r, scr).
Proof.
  assert (Hs : settles (execute_extension e hook c0 c1)).
  { unfold execute_extension.
    do 5 (apply settles_bind; [settle | intros ? _]).
    apply exec_loop_settles; cbn [cycles]; unfold EXEC_FUEL; lia. }
  destruct Hs as [-> | [[r scr] ->]]; eauto.
Qed.

(** ** The table of extensions *)

(** What the framework may have printed: run-time errors only for the
    execution stack, and no timeout. *)
Definition event_ok (ev : event) : Prop :=
  match ev with
  | EvTimeout _ => False
  | EvError _ e => stack_error (Error e)
  | _ => True
  end.

Record table_ok (t : table) : Prop := {
  to_length : zlen (EXTENSIONS t) = 8;
  to_count : 0 <= EXT_COUNT t <= 8;
  to_exts : Forall ext_ok (EXTENSIONS t);
  to_console : Forall event_ok (console t)
}.

Lemma initial_table_ok : table_ok initial_table.
Proof.
  constructor; [done | done | | done]. apply Forall_replicate.
  constructor; try done. cbn [bytecode empty_extension]. apply Forall_replicate.
  unfold is_byte. lia.
Qed.

Lemma table_ok_get t i :
  table_ok t → 0 <= i < EXT_COUNT t → ∃ e, aget (EXTENSIONS t) i = Done e ∧ ext_ok e.
Proof.
  intros [Hl Hc He _] Hi.
  destruct (aget_in_range (EXTENSIONS t) i) as [e Hget]; [lia |].
  exists e. split; [done |]. apply aget_lookup in Hget as [_ Hget].
  by eapply Forall_lookup_1 in Hget.
Qed.

Lemma table_ok_print t ev : table_ok t → event_ok ev → table_ok (print t ev).
Proof.
  intros [? ? ? ?] ?. constructor; try done. cbn. apply Forall_app. auto.
Qed.

(** Replacing an extension by one that is [ext_ok] keeps the table in order. *)
Lemma table_ok_set t i e :
  table_ok t → 0 <= i < EXT_COUNT t → ext_ok e →
  ∃ exts, aset (EXTENSIONS t) i e = Done exts ∧
          table_ok (Table exts (EXT_COUNT t) (console t)).
Proof.
  intros [Hl Hc He Hev] Hi Hok. rewrite aset_in_range by lia.
  eexists; split; [reflexivity |].
  constructor; cbn; [by rewrite zlen_insert | done | by apply Forall_insert | done].
Qed.

Lemma deactivate_ok t i :
  table_ok t → 0 <= i < EXT_COUNT t →
  ∃ t', deactivate t i = Done t' ∧ table_ok t' ∧ EXT_COUNT t' = EXT_COUNT t.
Proof.
  intros Ht Hi. unfold deactivate.
  destruct (table_ok_get t i Ht Hi) as (e & -> & [? ? ? ? ? ?]). cbn [mbind outcome_bind].
  edestruct (table_ok_set t i) as (exts & -> & Hok); [done | done | |].
  2: { eexists; split; [reflexivity |]. split; [exact Hok | done]. }
  by constructor.
Qed.

Lemma set_scratch_ok t i scr :
  table_ok t → 0 <= i < EXT_COUNT t → zlen scr = 256 →
  ∃ t', set_scratch t i scr = Done t' ∧ table_ok t' ∧ EXT_COUNT t' = EXT_COUNT t.
Proof.
  intros Ht Hi Hscr. unfold set_scratch.
  destruct (table_ok_get t i Ht Hi) as (e & -> & [? ? ? ? ? ?]). cbn [mbind outcome_bind].
  edestruct (table_ok_set t i) as (exts & -> & Hok); [done | done | |].
  2: { eexists; split; [reflexivity |]. split; [exact Hok | done]. }
  by constructor.
Qed.

Lemma log_output_ok t i hook scr :
  table_ok t → zlen scr = 256 →
  ∃ t', log_output i hook scr t = Done t' ∧ table_ok t' ∧ EXT_COUNT t' = EXT_COUNT t.
Proof.
  intros Ht Hscr. unfold log_output.
  step_done (aget_in_range scr 250 ltac:(lia)).
  destruct (_ =? 1); [| by eexists].
  rewrite !aslice_in_range by lia. cbn [mbind outcome_bind].
  eexists; split; [reflexivity |]. split; [by apply table_ok_print | done].
Qed.

(** Extensions that fail are switched off; the others keep running. *)
Lemma finish_run_ok t i r :
  table_ok t → 0 <= i < EXT_COUNT t → r = ExecOk ∨ stack_error r →
  r ≠ ExecOk → ∃ msg t', r = Error msg ∧
    deactivate (print t (EvError i msg)) i = Done t' ∧ table_ok t' ∧
    EXT_COUNT t' = EXT_COUNT t.
Proof.
  intros Ht Hi [-> | Hr] Hne; [done |].
  assert (∃ msg, r = Error msg) as [msg ->] by (destruct Hr; eauto).
  destruct (deactivate_ok (print t (EvError i msg)) i) as (t' & ? & ? & ?);
    [by apply table_ok_print | done |]. eauto 10.
Qed.

Lemma run_hook_one_ok t i hook c0 c1 :
  table_ok t → 0 <= i < EXT_COUNT t →
  ∃ t', run_hook_one hook c0 c1 t i = Done t' ∧ table_ok t' ∧ EXT_COUNT t' = EXT_COUNT t.
Proof.
  intros Ht Hi. unfold run_hook_one.
  destruct (table_ok_get t i Ht Hi) as (e & -> & He). cbn [mbind outcome_bind].
  destruct (negb (active e) || _) eqn:Hskip; bools; [by exists t |].
  destruct (execute_verified e hook c0 c1) as (r & scr & -> & Hr & Hscr); [done | done |].
  cbn [mbind outcome_bind fst snd].
  destruct (set_scratch_ok t i scr) as (t1 & -> & Ht1 & Hc1); [done.. |].
  cbn [mbind outcome_bind].
  destruct r as [| | msg]; [| by destruct Hr as [| [|]] |].
  - destruct (log_output_ok t1 i hook scr) as (t' & ? & ? & ?); [done.. |].
    exists t'. split_and!; [done | done | congruence].
  - destruct (finish_run_ok t1 i (Error msg)) as (? & t' & [= <-] & ? & ? & ?);
      [done | by rewrite Hc1 | done | done |].
    exists t'. split_and!; [done | done | congruence].
Qed.

Lemma run_hook_loop_ok ids t hook c0 c1 :
  table_ok t → Forall (λ i, 0 <= i < EXT_COUNT t) ids →
  ∃ t', run_hook_loop hook c0 c1 ids t = Done t' ∧ table_ok t' ∧
        EXT_COUNT t' = EXT_COUNT t.
Proof.
  revert t. induction ids as [| i ids IH]; intros t Ht Hids; [by exists t |].
  apply Forall_cons in Hids as [Hi Hids]. cbn [run_hook_loop].
  destruct (run_hook_one_ok t i hook c0 c1) as (t1 & -> & Ht1 & Hc1); [done.. |].
  cbn [mbind outcome_bind].
  destruct (IH t1) as (t' & ? & ? & ?); [done | by rewrite Hc1 |].
  exists t'. split_and!; [done | done | congruence].
Qed.

Lemma run_hook_ok t hook c0 c1 :
  table_ok t →
  ∃ t', run_hook t hook c0 c1 = Done t' ∧ table_ok t' ∧ EXT_COUNT t' = EXT_COUNT t.
Proof.
  intros Ht. apply run_hook_loop_ok; [done |].
  apply Forall_forall. intros i. by rewrite elem_of_zrange.
Qed.

Lemma execute_single_ok t id hook c0 c1 :
  table_ok t → 0 <= id →
  ∃ b t', execute_single t id hook c0 c1 = Done (b, t') ∧ table_ok t' ∧
          EXT_COUNT t' = EXT_COUNT t.
Proof.
  intros Ht Hid. unfold execute_single.
  destruct (_ <=? id) eqn:Hlt; bools; [by exists false, t |].
  destruct (table_ok_get t id Ht) as (e & -> & He); [lia |]. cbn [mbind outcome_bind].
  destruct (active e) eqn:Hact; cbn [negb]; [| by exists false, t].
  destruct (execute_verified e hook c0 c1) as (r & scr & -> & Hr & Hscr); [done | done |].
  cbn [mbind outcome_bind fst snd].
  destruct (set_scratch_ok t id scr) as (t1 & -> & Ht1 & Hc1); [done | lia | done |].
  cbn [mbind outcome_bind].
  destruct r as [| | msg]; [by exists true, t1 | by destruct Hr as [| [|]] |].
  destruct (finish_run_ok t1 id (Error msg)) as (? & t' & [= <-] & -> & ? & ?);
    [done | rewrite Hc1; lia | done | done |].
  exists false, t'. split_and!; [done | done | congruence].
Qed.

Lemma unregister_ok t id :
  table_ok t → 0 <= id →
  ∃ b t', unregister t id = Done (b, t') ∧ table_ok t' ∧ EXT_COUNT t' = EXT_COUNT t.
Proof.
  intros Ht Hid. unfold unregister.
  destruct (id <? _) eqn:Hlt; bools; [| by exists false, t].
  destruct (table_ok_get t id Ht) as (e & -> & He); [lia |]. cbn [mbind outcome_bind].
  destruct (active e); [| by exists false, t].
  destruct (deactivate_ok t id) as (t' & -> & ? & ?); [done | lia |]. by exists true, t'.
Qed.

(** Installing verified code in a slot of the right shape. *)
Lemma install_ok e bc nm p hook :
  ext_ok e → Forall is_byte bc → verify_bytecode bc = Done (Ok ()) →
  ∃ code nm1 nm2,
    asplice (bytecode e) 0 (take (Z.to_nat (Z.min (zlen bc) MAX_BYTECODE)) bc) = Done code ∧
    asplice (name e) 0 (take (Z.to_nat (Z.min (zlen nm) 15)) nm) = Done nm1 ∧
    aset nm1 (Z.min (zlen nm) 15) 0 = Done nm2 ∧
    ext_ok (Ext nm2 p code (Z.min (zlen bc) MAX_BYTECODE) hook true (replicate 256 0)).
Proof.
  intros [Hbc Hsc Hnm Hbytes Hlen _] Hnew Hver. unfold MAX_BYTECODE.
  destruct (verify_bytecode_closed bc Hver) as (Hb & _ & _).
  rewrite Z.min_l by lia. rewrite to_nat_zlen, firstn_all.
  rewrite (asplice_in_range (bytecode e)) by lia.
  set (nm0 := take _ nm).
  assert (Hnm0 : zlen nm0 <= 15).
  { unfold nm0, zlen. rewrite length_take. lia. }
  rewrite (asplice_in_range (name e)) by lia. eexists _, _.
  assert (Hnm1 : ∀ l, asplice (name e) 0 nm0 = Done l → zlen l = 16).
  { intros l Hl. apply asplice_done_zlen in Hl. congruence. }
  rewrite asplice_in_range in Hnm1 by lia. specialize (Hnm1 _ eq_refl).
  set (nm1 := take _ (name e) ++ _) in *.
  rewrite (aset_in_range nm1) by (rewrite Hnm1; unfold zlen; lia).
  eexists. split_and!; [reflexivity | reflexivity | reflexivity |].
  assert (Hcode : zlen (take (Z.to_nat 0) (bytecode e) ++ bc ++
                        drop (Z.to_nat (0 + zlen bc)) (bytecode e)) = 512).
  { rewrite <- Hbc. eapply asplice_done_zlen, asplice_in_range; lia. }
  constructor; cbn [bytecode ext_scratch name bc_len active];
    [done | done | by rewrite zlen_insert | | lia |].
  - rewrite !Forall_app. split_and!; [by apply Forall_take | done | by apply Forall_drop].
  - intros _. rewrite to_nat_zlen. change (Z.to_nat 0) with 0%nat.
    rewrite take_0. cbn [app]. by rewrite take_app_length.
Qed.

Lemma register_ok t p hook bc nm :
  table_ok t → Forall is_byte bc →
  ∃ r t', register t p hook bc nm = Done (r, t') ∧ table_ok t' ∧
    EXT_COUNT t' = (if r is Some _ then EXT_COUNT t + 1 else EXT_COUNT t) ∧
    (EXT_COUNT t = 8 → r = None).
Proof.
  intros Ht Hbc. unfold register.
  destruct (verify_bytecode_total bc) as [v Hv]. rewrite Hv. cbn [mbind outcome_bind].
  destruct v as [[] | e]; [| exists None, (print t (EvRejected e));
    split_and!; [done | by apply table_ok_print | done | done]].
  unfold MAX_EXTENSIONS. destruct (8 <=? _) eqn:Hfull; bools.
  { exists None, t. done. }
  pose proof (to_count _ Ht) as Hc.
  destruct (aget_in_range (EXTENSIONS t) (EXT_COUNT t)) as [e Hget].
  { rewrite (to_length _ Ht). lia. }
  rewrite Hget. cbn [mbind outcome_bind].
  assert (He : ext_ok e).
  { apply aget_lookup in Hget as [_ Hget]. destruct Ht as [_ _ He _].
    by eapply Forall_lookup_1 in Hget. }
  destruct (install_ok e bc nm p hook He Hbc Hv) as (code & nm1 & nm2 & -> & E1 & E2 & Hok).
  cbn [mbind outcome_bind]. rewrite E1. cbn [mbind outcome_bind].
  rewrite E2. cbn [mbind outcome_bind].
  destruct Ht as [Hl _ Hexts Hev]. rewrite aset_in_range by lia. cbn [mbind outcome_bind].
  exists (Some (EXT_COUNT t)). eexists. split; [reflexivity |]. split_and!; [| done | lia].
  constructor; cbn; [by rewrite zlen_insert | lia | by apply Forall_insert | done].
Qed.

Lemma ext_step_ok t t' :
  table_ok t → ext_step t t' → table_ok t' ∧ EXT_COUNT t <= EXT_COUNT t'.
Proof.
  intros Ht Hst. destruct Hst as [t p hook bc nm r t' Hb _ H | t id r t' Hid H | t hook c0 c1 t' H | t id hook c0 c1 r t' Hid H].
  - destruct (register_ok t p hook bc nm) as (r' & t1 & E & Hok & Hc & _); [done.. |].
    rewrite E in H. simplify_eq. split; [done |]. destruct r; lia.
  - destruct (unregister_ok t id) as (b & t1 & E & Hok & Hc); [done.. |].
    rewrite E in H. simplify_eq. split; [done | lia].
  - destruct (run_hook_ok t hook c0 c1) as (t1 & E & Hok & Hc); [done |].
    rewrite E in H. simplify_eq. split; [done | lia].
  - destruct (execute_single_ok t id hook c0 c1) as (b & t1 & E & Hok & Hc); [done.. |].
    rewrite E in H. simplify_eq. split; [done | lia].
Qed.

Lemma ext_steps_ok t t' :
  rtc ext_step t t' → table_ok t → table_ok t' ∧ EXT_COUNT t <= EXT_COUNT t'.
Proof.
  induction 1 as [t | t t1 t' Hst _ IH]; intros Ht; [split; [done | lia] |].
  destruct (ext_step_ok t t1 Ht Hst) as [Ht1 Hc]. destruct (IH Ht1). split; [done | lia].
Qed.

(** However the interface is used (any sequence of registrations of any
    byte strings, removals, hook runs and single runs from the empty table), a
    hook fires without a panic, and nothing the framework has printed is a
    timeout or a run-time error other than the execution-stack ones. *)
Theorem reachable_hooks_safe (t : table) (hook c0 c1 : Z) :
  ext_reachable t →
  ∃ t', run_hook t hook c0 c1 = Done t' ∧
    Forall (λ ev, match ev with
                  | EvTimeout _ => False
                  | EvError _ e => e = "execution stack overflow"%string ∨
                                   e = "execution stack underflow"%string
                  | _ => True
                  end) (console t').
Proof.
  intros [Ht _]%ext_steps_ok; [| apply initial_table_ok].
  destruct (run_hook_ok t hook c0 c1 Ht) as (t' & -> & Ht' & _).
  exists t'. split; [done |]. eapply Forall_impl; [apply Ht' |].
  intros [] Hev; cbn in *; [done.. |]. unfold stack_error in Hev. naive_solver.
Qed.

Definition example_table : table :=
  match register initial_table 7 4 example_code [101; 120] with
  | Done (_, t) => t
  | _ => initial_table
  end.

Lemma reachable_hooks_safe_witness :
  ext_reachable example_table ∧
  ∃ t', run_hook example_table 4 10 20 = Done t' ∧
    Forall (λ ev, match ev with
                  | EvTimeout _ => False
                  | EvError _ e => e = "execution stack overflow"%string ∨
                                   e = "execution stack underflow"%string
                  | _ => True
                  end) (console t').
Proof.
  assert (H : ext_reachable example_table).
  { apply rtc_once. eapply (step_register _ 7 4 example_code [101; 120] (Some 0)).
    - repeat constructor; lia.
    - repeat constructor; lia.
    - vm_compute. reflexivity. }
  split; [exact H |]. exact (reachable_hooks_safe example_table 4 10 20 H).
Defined.

(** Slots of the table are never reclaimed: once eight registrations have
    succeeded, every later one fails, whatever has been unregistered since. *)
Theorem register_exhausted (t t' : table) (p hook : Z) (bc nm : list Z) :
  ext_reachable t → EXT_COUNT t = MAX_EXTENSIONS → rtc ext_step t t' →
  Forall is_byte bc →
  ∃ t'', register t' p hook bc nm = Done (None, t'').
Proof.
  intros Hr Hfull Hsteps Hbc. unfold MAX_EXTENSIONS in *.
  destruct (ext_steps_ok _ _ Hr initial_table_ok) as [Ht _].
  destruct (ext_steps_ok _ _ Hsteps Ht) as [Ht' Hc].
  destruct (register_ok t' p hook bc nm Ht' Hbc) as (r & t'' & -> & _ & _ & Hnone).
  exists t''. rewrite Hnone; [done |]. pose proof (to_count _ Ht'). lia.
Qed.

(** Eight copies of the example program registered, then all unregistered. *)
Fixpoint register_many (n : nat) (t : table) : table :=
  match n with
  | O => t
  | S n' =>
      match register (register_many n' t) 7 4 example_code [101; 120] with
      | Done (_, t') => t'
      | _ => t
      end
  end.

Definition full_table : table := register_many 8 initial_table.

Definition emptied_table : table :=
  match unregister full_table 0 with Done (_, t) => t | _ => full_table end.

Lemma register_exhausted_witness :
  EXT_COUNT full_table = MAX_EXTENSIONS ∧
  ∃ t'', register emptied_table 7 4 example_code [101; 120] = Done (None, t'').
Proof.
  assert (Hb : Forall is_byte example_code) by (repeat constructor; lia).
  assert (Hn : Forall is_byte [101; 120]) by (repeat constructor; lia).
  assert (Hr : ext_reachable full_table).
  { assert (Hk : ∀ n, (n <= 8)%nat → rtc ext_step initial_table (register_many n initial_table)).
    { induction n as [| n IH]; intros Hle; [constructor |].
      eapply rtc_r; [apply IH; lia |].
      eapply (step_register _ 7 4 example_code [101; 120] (Some (Z.of_nat n))); [done | done |].
      do 8 (destruct n as [| n]; [vm_compute; reflexivity |]). lia. }
    exact (Hk 8%nat (le_n 8)). }
  split; [vm_compute; reflexivity |].
  apply (register_exhausted full_table emptied_table 7 4 example_code [101; 120] Hr).
  - vm_compute. reflexivity.
  - apply rtc_once. eapply (step_unregister _ 0 true); [lia | vm_compute; reflexivity].
  - exact Hb.
Defined.

(** The log flag lives inside the second log value: whenever an extension
    logs, byte 2 of the value printed as [v2] is the flag itself, 1. *)
Theorem log_flag_in_second_value (t t' : table) (id hook v1 v2 : Z) (scr : list Z) :
  log_output id hook scr t = Done t' → Forall is_byte scr → zlen scr = 256 →
  console t' = console t ++ [EvLog id hook v1 v2] →
  (v2 / 65536) mod 256 = 1.
Proof.
  unfold log_output. intros Hlog Hb Hlen Hcons. inv_bind.
  destruct (a =? 1) eqn:Hflag; bools; [subst a |].
  - rewrite !aslice_in_range in Hlog by lia. inv_bind. cbn [print console] in Hcons.
    apply app_inv_head in Hcons. injection Hcons as _ <-.
    apply aget_lookup in E as [_ Hget].
    rewrite <- (list.take_drop 248 scr) in Hget, Hb.
    assert (Hl : length (take 248 scr) = 248%nat) by (unfold zlen in Hlen; rewrite length_take; lia).
    rewrite lookup_app_r in Hget by (rewrite Hl; vm_compute; lia).
    rewrite Hl in Hget. change (Z.to_nat 250 - 248)%nat with 2%nat in Hget.
    apply Forall_app in Hb as [_ Hb]. change (Z.to_nat 248) with 248%nat.
    change (Z.to_nat (256 - 248)) with 8%nat.
    destruct (drop 248 scr) as [| b0 [| b1 [| b2 r]]]; try done.
    injection Hget as ->. cbn [take of_le_bytes].
    apply Forall_cons in Hb as [Hb0 Hb]. apply Forall_cons in Hb as [Hb1 Hb].
    unfold is_byte in *. clear -Hb0 Hb1. dlia.
  - inv_bind. exfalso. apply (f_equal length) in Hcons.
    rewrite length_app in Hcons. cbn in Hcons. lia.
Qed.

Lemma log_flag_in_second_value_witness :
  let scr := replicate 240 0 ++ [5; 0; 0; 0; 0; 0; 0; 0] ++ [9; 0; 1; 0; 0; 0; 0; 0] in
  let v2 := 9 + 65536 in
  log_output 0 4 scr initial_table =
    Done (print initial_table (EvLog 0 4 5 v2)) ∧ (v2 / 65536) mod 256 = 1.
Proof.
  intros scr v2. split; [vm_compute; reflexivity |].
  apply (log_flag_in_second_value initial_table
           (print initial_table (EvLog 0 4 5 v2)) 0 4 5 v2 scr).
  - vm_compute. reflexivity.
  - repeat (constructor; [unfold is_byte; lia |]). constructor.
  - vm_compute. reflexivity.
  - reflexivity.
Defined.
