(* ===== verification/Buddy.v ===== *)
(** * The physical page allocator (kernel/src/mem/buddy.rs)

    The buddy allocator with its intrusive free lists, and the per-hart page
    caches in front of it.

    [BuddyInner] is the record [buddy]; the links of the free lists live in
    the first word of each free block, so the record also carries the physical
    memory [phys] that the raw pointers reach.  Page numbers are relative to
    [base].  [node_next] reads a link and, as the source does, takes the word 0
    to mean the end of the list, although 0 is also the number of the first
    page.

    The abstraction of the allocator is one list of block starts per order,
    [fl], related to the linked lists by [inv]; [flat fl] is the list of all
    free pages, so that "no page is free twice", "no page is free and
    allocated" and the page counts are statements about [NoDup], permutations
    and lengths. *)
From S2P Require Import Prelude.

(** ** State *)

Definition PAGE_SIZE : Z := 4096.
Definition MAX_ORDER : Z := 12.
Definition FREE_LIST_COUNT : Z := MAX_ORDER + 1.

Record buddy : Type := Buddy {
  free_lists : list (option Z);
  base : Z;
  end_ : Z;
  total_pages : Z;
  allocated_pages : Z;
  phys : Z → Z
}.

Definition set_lists (b : buddy) (fls : list (option Z)) : buddy :=
  Buddy fls (base b) (end_ b) (total_pages b) (allocated_pages b) (phys b).

Definition set_phys (b : buddy) (m : Z → Z) : buddy :=
  Buddy (free_lists b) (base b) (end_ b) (total_pages b) (allocated_pages b) m.

Definition set_allocated (b : buddy) (n : Z) : buddy :=
  Buddy (free_lists b) (base b) (end_ b) (total_pages b) n (phys b).

Definition write_word (m : Z → Z) (a v : Z) : Z → Z := λ x, if x =? a then v else m x.

(** ** Links *)

Definition page_to_addr (b : buddy) (page : Z) : Z := u64 (base b + page * PAGE_SIZE).

Definition addr_to_page (b : buddy) (addr : Z) : Z := u64 (addr - base b) / PAGE_SIZE.

Definition node_next (b : buddy) (page : Z) : option Z :=
  let val := phys b (page_to_addr b page) in
  if val =? 0 then None else Some val.

Definition set_node_next (b : buddy) (page : Z) (next : option Z) : buddy :=
  set_phys b (write_word (phys b) (page_to_addr b page) (default 0 next)).

(** ** Free lists *)

Definition has_buddy (b : buddy) (page order : Z) : bool :=
  let block_size := 2 ^ order in
  let buddy_page := Z.lxor page block_size in
  let buddy_addr := page_to_addr b buddy_page in
  let buddy_end := u64 (buddy_addr + block_size * PAGE_SIZE) in
  (base b <=? buddy_addr) && (buddy_end <=? end_ b).

Definition push_free (b : buddy) (page order : Z) : outcome buddy :=
  head ← aget (free_lists b) order;
  let b1 := set_node_next b page head in
  fls ← aset (free_lists b1) order (Some page);
  mret (set_lists b1 fls).

Definition pop_free (b : buddy) (order : Z) : outcome (option Z * buddy) :=
  page ← aget (free_lists b) order;
  match page with
  | Some p =>
      fls ← aset (free_lists b) order (node_next b p);
      mret (Some p, set_lists b fls)
  | None => mret (None, b)
  end.

(** [while order > target_order]; the fuel is the distance between them. *)
Fixpoint split_loop (fuel : nat) (b : buddy) (order target_order : Z)
    : outcome (Z * buddy) :=
  if order <=? target_order then Panic
  else
    match fuel with
    | O => OutOfFuel
    | S fuel' =>
        let order := order - 1 in
        let buddy_offset := 2 ^ order in
        r ← pop_free b (order + 1);
        block_start ← unwrap (fst r);
        b1 ← push_free (snd r) (block_start + buddy_offset) order;
        if target_order <? order then
          b2 ← push_free b1 block_start order;
          split_loop fuel' b2 order target_order
        else mret (block_start, b1)
    end.

Definition split (b : buddy) (order target_order : Z) : outcome (Z * buddy) :=
  split_loop (Z.to_nat (order - target_order)) b order target_order.

(** The walk [while let Some(p) = curr] that looks for the buddy; returns
    whether it was found and the node before it. *)
Fixpoint find_node (fuel : nat) (b : buddy) (target : Z) (prev curr : option Z)
    : outcome (bool * option Z) :=
  match curr with
  | None => mret (false, prev)
  | Some p =>
      if p =? target then mret (true, prev)
      else
        match fuel with
        | O => OutOfFuel
        | S fuel' => find_node fuel' b target curr (node_next b p)
        end
  end.

(** A free list has at most one node per page. *)
Definition list_fuel (b : buddy) : nat := Z.to_nat (total_pages b).

(** The buddy found at node [buddy_page] leaves its list: the node before it,
    or the list head, takes over its link. *)
Definition unlink (b : buddy) (order buddy_page : Z) (prev : option Z) : outcome buddy :=
  let buddy_next := node_next b buddy_page in
  match prev with
  | Some prev_p => mret (set_node_next b prev_p buddy_next)
  | None => fls ← aset (free_lists b) order buddy_next; mret (set_lists b fls)
  end.

(** [while order < MAX_ORDER]; the fuel is the number of orders left. *)
Fixpoint merge_loop (fuel : nat) (b : buddy) (page order : Z) : outcome (Z * Z * buddy) :=
  if MAX_ORDER <=? order then mret (page, order, b)
  else
    match fuel with
    | O => OutOfFuel
    | S fuel' =>
        let buddy_page := Z.lxor page (2 ^ order) in
        if negb (has_buddy b page order) then mret (page, order, b)
        else
          head ← aget (free_lists b) order;
          r ← find_node (list_fuel b) b buddy_page None head;
          if negb (fst r) then mret (page, order, b)
          else
            b1 ← unlink b order buddy_page (snd r);
            merge_loop fuel' b1 (Z.ldiff page (2 ^ order)) (order + 1)
    end.

Definition try_merge (b : buddy) (page order : Z) : outcome buddy :=
  r ← merge_loop (Z.to_nat (MAX_ORDER - order)) b page order;
  push_free (snd r) (fst (fst r)) (snd (fst r)).

(** [for o in order..=MAX_ORDER], the orders still to try given as a list. *)
Fixpoint alloc_loop (b : buddy) (order : Z) (os : list Z) : outcome (option Z * buddy) :=
  match os with
  | [] => mret (None, b)
  | o :: os' =>
      head ← aget (free_lists b) o;
      match head with
      | None => alloc_loop b order os'
      | Some _ =>
          if order <? o then
            r ← split b o order;
            mret (Some (fst r),
                  set_allocated (snd r) (u64 (allocated_pages (snd r) + 2 ^ order)))
          else
            r ← pop_free b o;
            page ← unwrap (fst r);
            mret (Some page, set_allocated (snd r) (u64 (allocated_pages (snd r) + 2 ^ o)))
      end
  end.

Definition alloc_pages (b : buddy) (order : Z) : outcome (option Z * buddy) :=
  if MAX_ORDER <? order then mret (None, b)
  else alloc_loop b order (zseq order (MAX_ORDER + 1 - order)).

Definition free_pages (b : buddy) (page order : Z) : outcome buddy :=
  if MAX_ORDER <? order then mret b
  else try_merge (set_allocated b (u64 (allocated_pages b - 2 ^ order))) page order.

(** [init]'s loop over [remaining], [offset] and [order]. *)
Fixpoint init_loop (fuel : nat) (b : buddy) (remaining offset order : Z) : outcome buddy :=
  match fuel with
  | O => OutOfFuel
  | S fuel' =>
      let block_pages := 2 ^ order in
      if block_pages <=? remaining then
        b' ← push_free b offset order;
        init_loop fuel' b' (remaining - block_pages) (offset + block_pages) order
      else if 0 <? order then init_loop fuel' b remaining offset (order - 1)
      else mret b
  end.

(** Every pass lowers [remaining + order]. *)
Definition init_fuel (total : Z) : nat := Z.to_nat (total + MAX_ORDER + 1).

Definition init (m : Z → Z) (base end_ : Z) : outcome buddy :=
  let total := (end_ - base) / PAGE_SIZE in
  init_loop (init_fuel total)
    (Buddy (replicate 13 None) base end_ total 0 m) total 0 MAX_ORDER.

(** [count_free_pages]: walk every list, [1 << order] pages per node. *)
Fixpoint count_list (fuel : nat) (b : buddy) (order : Z) (curr : option Z) : outcome Z :=
  match curr with
  | None => mret 0
  | Some page =>
      match fuel with
      | O => OutOfFuel
      | S fuel' => n ← count_list fuel' b order (node_next b page); mret (2 ^ order + n)
      end
  end.

Fixpoint count_lists (b : buddy) (os : list Z) : outcome Z :=
  match os with
  | [] => mret 0
  | o :: os' =>
      head ← aget (free_lists b) o;
      n ← count_list (list_fuel b) b o head;
      rest ← count_lists b os';
      mret (n + rest)
  end.

Definition count_free_pages (b : buddy) : outcome Z :=
  count_lists b (zrange (MAX_ORDER + 1)).

(** ** The per-hart page caches *)

Definition CPU_CACHE_SIZE : Z := 8.
Definition MAX_CPU_HARTS : Z := 8.

Record PerCpuPageCache : Type := PageCache {
  cached : list Z;
  count : Z
}.

(** The allocator with its caches and hit counters. *)
Record allocator : Type := Allocator {
  ALLOCATOR : buddy;
  CPU_CACHES : list PerCpuPageCache;
  CACHE_HITS : Z;
  CACHE_MISSES : Z
}.

Definition alloc_page_fast (a : allocator) (hart : Z) : outcome (option Z * allocator) :=
  if MAX_CPU_HARTS <=? hart then mret (None, a)
  else
    c ← aget (CPU_CACHES a) hart;
    if 0 <? count c then
      let n := count c - 1 in
      cs ← aset (CPU_CACHES a) hart (PageCache (cached c) n);
      page ← aget (cached c) n;
      mret (Some page, Allocator (ALLOCATOR a) cs (CACHE_HITS a) (CACHE_MISSES a))
    else mret (None, a).

Definition free_page_fast (a : allocator) (hart page : Z) : outcome (bool * allocator) :=
  if MAX_CPU_HARTS <=? hart then mret (false, a)
  else
    c ← aget (CPU_CACHES a) hart;
    if count c <? CPU_CACHE_SIZE then
      pages ← aset (cached c) (count c) page;
      cs ← aset (CPU_CACHES a) hart (PageCache pages (count c + 1));
      mret (true, Allocator (ALLOCATOR a) cs (CACHE_HITS a) (CACHE_MISSES a))
    else mret (false, a).

(** [alloc_pages(order).map(|p| p * PAGE_SIZE + base)] under the lock. *)
Definition alloc_addr (a : allocator) (order : Z) : outcome (option Z * allocator) :=
  r ← alloc_pages (ALLOCATOR a) order;
  mret (option_map (λ p, u64 (p * PAGE_SIZE + base (snd r))) (fst r),
        Allocator (snd r) (CPU_CACHES a) (CACHE_HITS a) (CACHE_MISSES a)).

Definition alloc_page (a : allocator) (hart : Z) : outcome (option Z * allocator) :=
  r ← alloc_page_fast a hart;
  let a1 := snd r in
  match fst r with
  | Some page =>
      mret (Some page, Allocator (ALLOCATOR a1) (CPU_CACHES a1)
                         (u64 (CACHE_HITS a1 + 1)) (CACHE_MISSES a1))
  | None =>
      alloc_addr (Allocator (ALLOCATOR a1) (CPU_CACHES a1) (CACHE_HITS a1)
                    (u64 (CACHE_MISSES a1 + 1))) 0
  end.

Definition free_page (a : allocator) (hart addr order : Z) : outcome allocator :=
  r ← (if order =? 0 then free_page_fast a hart addr else mret (false, a));
  if (fst r : bool) then mret (snd r)
  else
    let a1 := snd r in
    b ← free_pages (ALLOCATOR a1) (addr_to_page (ALLOCATOR a1) addr) order;
    mret (Allocator b (CPU_CACHES a1) (CACHE_HITS a1) (CACHE_MISSES a1)).

Fixpoint cached_total (cs : list PerCpuPageCache) : Z :=
  match cs with [] => 0 | c :: cs' => count c + cached_total cs' end.

Definition per_cpu_cache_stats (a : allocator) : Z * Z :=
  (cached_total (CPU_CACHES a), MAX_CPU_HARTS * CPU_CACHE_SIZE).

(** The caches as the kernel starts: empty, on the allocator [b]. *)
Definition boot (b : buddy) : allocator :=
  Allocator b (replicate 8 (PageCache (replicate 8 0) 0)) 0 0.

(** ** The abstraction: lists of blocks *)

(** The pages of the block of order [o] that starts at page [p]. *)
Definition pages (p o : Z) : list Z := zseq p (2 ^ o).

(** The pages of the blocks of one free list. *)
Fixpoint oflat (o : Z) (l : list Z) : list Z :=
  match l with [] => [] | p :: l' => pages p o ++ oflat o l' end.

(** The pages of all free lists, the first of which has order [o]. *)
Fixpoint flat_from (o : Z) (fl : list (list Z)) : list Z :=
  match fl with [] => [] | l :: fl' => oflat o l ++ flat_from (o + 1) fl' end.

Definition flat (fl : list (list Z)) : list Z := flat_from 0 fl.

(** The nodes reached from [h] by following [nx] are exactly [l]. *)
Fixpoint linked (nx : Z → option Z) (h : option Z) (l : list Z) : Prop :=
  match l with [] => h = None | p :: l' => h = Some p ∧ linked nx (nx p) l' end.

(** A block inside the managed region, aligned to its size. *)
Definition block_ok (b : buddy) (p o : Z) : Prop :=
  0 <= o <= 12 ∧ 0 <= p ∧ p + 2 ^ o <= total_pages b ∧ p mod 2 ^ o = 0.

(** The managed region lies below 2^63, as Sv39 physical memory does. *)
Definition geometry (b : buddy) : Prop :=
  0 <= base b ∧ 0 <= total_pages b ∧
  base b + total_pages b * PAGE_SIZE <= end_ b ∧ end_ b < 2 ^ 63.

Record inv (b : buddy) (fl : list (list Z)) : Prop := {
  inv_geometry : geometry b;
  inv_lists : length (free_lists b) = 13%nat;
  inv_fl : length fl = 13%nat;
  inv_linked o h l : free_lists b !! o = Some h → fl !! o = Some l →
    linked (node_next b) h l;
  inv_blocks o l p : fl !! o = Some l → p ∈ l → block_ok b p (Z.of_nat o);
  inv_nodup : NoDup (flat fl)
}.

(** Two states of the same region with the same number of allocated pages. *)
Record same_region (b b' : buddy) : Prop := {
  same_base : base b' = base b;
  same_end : end_ b' = end_ b;
  same_total : total_pages b' = total_pages b;
  same_allocated : allocated_pages b' = allocated_pages b
}.

(** Between the two states only the link words of the pages [ps] change. *)
Definition writes_in (ps : list Z) (b b' : buddy) : Prop :=
  ∀ x, (∀ p, p ∈ ps → x ≠ page_to_addr b p) → phys b' x = phys b x.

(** The list that [push_free] leaves: a list headed by page 0 is cut off,
    because the new node's link to it reads back as the end of the list. *)
Definition pushed (p : Z) (l : list Z) : list Z :=
  match l with 0 :: _ => [p] | _ => p :: l end.

(** ** Lemmas on the abstraction *)

#[export] Instance same_region_preorder : PreOrder same_region.
Proof.
  split; [by constructor |].
  intros ??? [? ? ? ?] [? ? ? ?]. constructor; congruence.
Qed.

Lemma writes_in_refl ps b : writes_in ps b b.
Proof. done. Qed.

Lemma writes_in_trans ps qs b1 b2 b3 :
  writes_in ps b1 b2 → base b2 = base b1 → writes_in qs b2 b3 → (∀ p, p ∈ qs → p ∈ ps) →
  writes_in ps b1 b3.
Proof.
  intros H1 Hb H2 Hs x Hx. rewrite H2, H1; [done | done |].
  intros p Hp. unfold page_to_addr. rewrite Hb. by apply Hx, Hs.
Qed.

Lemma writes_in_link b p next : writes_in [p] b (set_node_next b p next).
Proof.
  intros x Hx. cbn [set_node_next set_phys phys]. unfold write_word.
  destruct (x =? _) eqn:E; bools; [| done]. by destruct (Hx p ltac:(set_solver)).
Qed.

Lemma oflat_app o l l' : oflat o (l ++ l') = oflat o l ++ oflat o l'.
Proof. induction l; cbn; [done |]. by rewrite <- app_assoc, <- IHl. Qed.

Lemma flat_from_insert o fl i l l' :
  fl !! i = Some l →
  flat_from o (<[i := l']> fl) ++ oflat (o + Z.of_nat i) l ≡ₚ
  flat_from o fl ++ oflat (o + Z.of_nat i) l'.
Proof.
  revert o i. induction fl as [| k fl IH]; intros o [| i] Hi; [done | done | |].
  - injection Hi as ->. cbn [flat_from insert list_insert Z.of_nat]. rewrite Z.add_0_r.
    solve_Permutation.
  - change (<[S i := l']> (k :: fl)) with (k :: <[i := l']> fl). cbn [flat_from].
    replace (o + Z.of_nat (S i)) with (o + 1 + Z.of_nat i) by lia.
    rewrite <- !app_assoc. f_equiv. by apply IH.
Qed.

(** Taking pages [X] out of list [o]. *)
Lemma flat_remove fl o l l' X :
  fl !! o = Some l → oflat (Z.of_nat o) l ≡ₚ X ++ oflat (Z.of_nat o) l' →
  flat fl ≡ₚ X ++ flat (<[o := l']> fl).
Proof.
  intros Hl HX. pose proof (flat_from_insert 0 fl o l l' Hl) as H.
  rewrite Z.add_0_l, HX in H. unfold flat.
  apply (Permutation_app_inv_r (oflat (Z.of_nat o) l')). rewrite <- H. solve_Permutation.
Qed.

(** Adding pages [X] to list [o]. *)
Lemma flat_add fl o l l' X :
  fl !! o = Some l → oflat (Z.of_nat o) l' ≡ₚ X ++ oflat (Z.of_nat o) l →
  flat (<[o := l']> fl) ≡ₚ X ++ flat fl.
Proof.
  intros Hl HX. pose proof (flat_from_insert 0 fl o l l' Hl) as H.
  rewrite Z.add_0_l, HX in H. unfold flat.
  apply (Permutation_app_inv_r (oflat (Z.of_nat o) l)). rewrite H. solve_Permutation.
Qed.

Lemma pow2_pos o : 0 <= o → 0 < 2 ^ o.
Proof. intros. by apply Z.pow_pos_nonneg. Qed.

Lemma elem_of_pages x p o : x ∈ pages p o ↔ p <= x < p + 2 ^ o.
Proof. apply elem_of_zseq. Qed.

Lemma elem_of_oflat x o l : x ∈ oflat o l ↔ ∃ p, p ∈ l ∧ x ∈ pages p o.
Proof.
  induction l as [| p l IH]; cbn; [set_solver |].
  rewrite elem_of_app, IH. set_solver.
Qed.

Lemma elem_of_flat_from x k fl :
  x ∈ flat_from k fl ↔ ∃ o l p, fl !! o = Some l ∧ p ∈ l ∧ x ∈ pages p (k + Z.of_nat o).
Proof.
  revert k. induction fl as [| l fl IH]; intros k; cbn.
  - split; [by intros ?%not_elem_of_nil | by intros (? & ? & ? & ? & _)].
  - rewrite elem_of_app, elem_of_oflat, IH. split.
    + intros [(p & Hp & Hx) | (o & l' & p & Ho & Hp & Hx)].
      * exists 0%nat, l, p. by rewrite Z.add_0_r.
      * exists (S o), l', p. split_and!; [done | done |].
        by replace (k + Z.of_nat (S o)) with (k + 1 + Z.of_nat o) by lia.
    + intros ([| o] & l' & p & Ho & Hp & Hx).
      * left. injection Ho as ->. exists p. by rewrite Z.add_0_r in Hx.
      * right. exists o, l', p. split_and!; [done | done |].
        by replace (k + 1 + Z.of_nat o) with (k + Z.of_nat (S o)) by lia.
Qed.

Lemma elem_of_flat x fl :
  x ∈ flat fl ↔ ∃ o l p, fl !! o = Some l ∧ p ∈ l ∧ x ∈ pages p (Z.of_nat o).
Proof. apply elem_of_flat_from. Qed.

Lemma start_in_flat fl (o : nat) l p : fl !! o = Some l → p ∈ l → p ∈ flat fl.
Proof.
  intros Ho Hp. apply elem_of_flat. exists o, l, p. split_and!; [done | done |].
  apply elem_of_pages. pose proof (pow2_pos (Z.of_nat o)). lia.
Qed.

(** A block start belongs to one list only, once. *)
Lemma start_unique fl (o o' : nat) l l' p :
  NoDup (flat fl) → fl !! o = Some l → fl !! o' = Some l' → p ∈ l → p ∈ l' → o = o'.
Proof.
  intros Hnd Ho Ho' Hp Hp'. destruct (decide (o = o')) as [| Hne]; [done | exfalso].
  rewrite (flat_remove fl o l [] (oflat (Z.of_nat o) l)) in Hnd;
    [| done | by rewrite app_nil_r].
  apply NoDup_app in Hnd as (_ & Hdisj & _). apply (Hdisj p).
  - apply elem_of_oflat. exists p. split; [done |].
    apply elem_of_pages. pose proof (pow2_pos (Z.of_nat o)). lia.
  - apply (start_in_flat _ o' l'); [by rewrite list_lookup_insert_ne | done].
Qed.

Lemma oflat_nodup_starts o l : 0 <= o → NoDup (oflat o l) → NoDup l.
Proof.
  intros Ho. induction l as [| p l IH]; cbn; [constructor |].
  intros (_ & Hd & Hnd)%NoDup_app. constructor; [| auto].
  intros Hin. apply (Hd p).
  - apply elem_of_pages. pose proof (pow2_pos o Ho). lia.
  - apply elem_of_oflat. exists p. split; [done |].
    apply elem_of_pages. pose proof (pow2_pos o Ho). lia.
Qed.

Lemma list_nodup fl (o : nat) l : NoDup (flat fl) → fl !! o = Some l → NoDup l.
Proof.
  intros Hnd Ho. rewrite (flat_remove fl o l [] (oflat (Z.of_nat o) l)) in Hnd;
    [| done | by rewrite app_nil_r].
  apply NoDup_app in Hnd as (Hnd & _ & _). eapply oflat_nodup_starts; [| done]. lia.
Qed.

(** ** Lemmas on links *)

Lemma linked_frame nx nx' h l :
  (∀ p, p ∈ l → nx' p = nx p) → linked nx h l → linked nx' h l.
Proof.
  revert h. induction l as [| p l IH]; intros h Hf; cbn; [done |].
  intros [-> Hl]. split; [done |]. rewrite Hf by set_solver. apply IH; [set_solver | done].
Qed.

Lemma page_to_addr_eq b p :
  geometry b → 0 <= p <= total_pages b → page_to_addr b p = base b + p * PAGE_SIZE.
Proof.
  intros (? & ? & ? & ?) ?. apply wrap_small. unfold fits, PAGE_SIZE in *. lia.
Qed.

Lemma node_next_write b p q v :
  geometry b → 0 <= p <= total_pages b → 0 <= q <= total_pages b →
  node_next (set_node_next b p v) q =
    if decide (q = p) then (match v with Some 0 => None | _ => v end) else node_next b q.
Proof.
  intros Hg Hp Hq. unfold node_next, set_node_next, write_word. cbn [phys set_phys].
  change (page_to_addr (set_phys _ _) q) with (page_to_addr b q).
  rewrite !page_to_addr_eq by done. unfold PAGE_SIZE.
  case_decide as Hd.
  - subst q. rewrite Z.eqb_refl. by destruct v as [[| |] |].
  - destruct (base b + q * 4096 =? _) eqn:He; bools; [lia | done].
Qed.

(** ** Pushing and popping *)

Lemma block_start_range b p o : block_ok b p o → 0 <= p <= total_pages b.
Proof. intros (? & ? & ? & _). pose proof (pow2_pos o). lia. Qed.

Lemma inv_start_range b fl o l p :
  inv b fl → fl !! o = Some l → p ∈ l → 0 <= p <= total_pages b.
Proof. intros Hinv Ho Hp. eapply block_start_range, inv_blocks; eauto. Qed.

Lemma block_ok_region b b' p o : same_region b b' → block_ok b p o → block_ok b' p o.
Proof. intros [_ _ Ht _]. unfold block_ok. by rewrite Ht. Qed.

Lemma geometry_region b b' : same_region b b' → geometry b → geometry b'.
Proof. intros [Hb He Ht _]. unfold geometry. by rewrite Hb, He, Ht. Qed.

Lemma inv_lookup b fl (o : Z) :
  inv b fl → 0 <= o <= 12 →
  ∃ h l, free_lists b !! Z.to_nat o = Some h ∧ fl !! Z.to_nat o = Some l ∧
         aget (free_lists b) o = Done h ∧ linked (node_next b) h l.
Proof.
  intros Hinv Ho.
  destruct (lookup_lt_is_Some_2 (free_lists b) (Z.to_nat o)) as [h Hh];
    [rewrite (inv_lists _ _ Hinv); lia |].
  destruct (lookup_lt_is_Some_2 fl (Z.to_nat o)) as [l Hl];
    [rewrite (inv_fl _ _ Hinv); lia |].
  exists h, l. split_and!; [done | done | apply aget_lookup; split; [lia | done] |].
  by eapply inv_linked.
Qed.

Lemma aset_lists b fl o h :
  inv b fl → 0 <= o <= 12 →
  aset (free_lists b) o h = Done (<[Z.to_nat o := h]> (free_lists b)).
Proof.
  intros Hinv Ho. apply aset_in_range. unfold zlen. rewrite (inv_lists _ _ Hinv). lia.
Qed.

(** Replacing list [o] by [l'], with a new head and at most one link written,
    on a page [w] that is no node of another list. *)
Lemma inv_update b b' fl o l l' h' w :
  inv b fl → fl !! o = Some l → same_region b b' →
  free_lists b' = <[o := h']> (free_lists b) →
  linked (node_next b') h' l' →
  (∀ p, p ∈ l' → block_ok b p (Z.of_nat o)) →
  NoDup (flat (<[o := l']> fl)) →
  (∀ q, 0 <= q <= total_pages b → q ≠ w → node_next b' q = node_next b q) →
  (∀ o' k, o' ≠ o → fl !! o' = Some k → w ∉ k) →
  inv b' (<[o := l']> fl).
Proof.
  intros Hinv Ho Hreg Hfls Hlink Hblk Hnd Hframe Hw. constructor.
  - by eapply geometry_region, Hinv.
  - rewrite Hfls, length_insert. apply Hinv.
  - rewrite length_insert. apply Hinv.
  - intros o' h k Hh Hk. rewrite Hfls in Hh. destruct (decide (o' = o)) as [-> | Hne].
    + apply lookup_lt_Some in Ho as Hlt. rewrite list_lookup_insert_eq in Hk by done.
      rewrite list_lookup_insert_eq in Hh
        by (rewrite (inv_lists _ _ Hinv), <- (inv_fl _ _ Hinv); done).
      by simplify_eq.
    + rewrite list_lookup_insert_ne in Hh by done. rewrite list_lookup_insert_ne in Hk by done.
      eapply linked_frame; [| by eapply inv_linked].
      intros q Hq. apply Hframe; [by eapply inv_start_range |].
      intros ->. by eapply Hw.
  - intros o' k p Hk Hp. apply (block_ok_region b); [done |].
    destruct (decide (o' = o)) as [-> | Hne].
    + rewrite list_lookup_insert_eq in Hk by (by eapply lookup_lt_Some). simplify_eq. auto.
    + rewrite list_lookup_insert_ne in Hk by done. by eapply inv_blocks.
  - done.
Qed.

Lemma pushed_sublist p l : pushed p l `sublist_of` p :: l.
Proof.
  destruct l as [| [| |] l]; cbn; [done | | done | done].
  apply sublist_skip, sublist_nil_l.
Qed.

Lemma pushed_cons p l : 0 ∉ l → pushed p l = p :: l.
Proof. destruct l as [| [| |] l]; cbn; set_solver. Qed.

Lemma oflat_sublist o l l' : l `sublist_of` l' → oflat o l ⊆+ oflat o l'.
Proof.
  induction 1; cbn; [done | by apply submseteq_skips_l |].
  etrans; [done |]. apply submseteq_inserts_l. done.
Qed.

(** What [push_free] adds to the free pages: the whole block, minus the pages
    of a list headed by page 0. *)
Lemma flat_pushed fl o l p :
  fl !! o = Some l → flat (<[o := pushed p l]> fl) ⊆+ pages p (Z.of_nat o) ++ flat fl.
Proof.
  intros Ho. rewrite <- (flat_add fl o l (p :: l) (pages p (Z.of_nat o))) by done.
  pose proof (flat_remove (<[o := p :: l]> fl) o (p :: l) [] (oflat (Z.of_nat o) (p :: l)))
    as H1.
  rewrite list_insert_insert_eq in H1. rewrite H1; clear H1;
    [| apply list_lookup_insert_eq; by eapply lookup_lt_Some | by rewrite app_nil_r].
  pose proof (flat_remove (<[o := pushed p l]> fl) o (pushed p l) []
                (oflat (Z.of_nat o) (pushed p l))) as H2.
  rewrite list_insert_insert_eq in H2. rewrite H2; clear H2;
    [| apply list_lookup_insert_eq; by eapply lookup_lt_Some | by rewrite app_nil_r].
  apply submseteq_skips_r, oflat_sublist, pushed_sublist.
Qed.

Lemma linked_pushed b p h l :
  geometry b → 0 <= p <= total_pages b → p ∉ l →
  (∀ q, q ∈ l → 0 <= q <= total_pages b) → linked (node_next b) h l →
  linked (node_next (set_node_next b p h)) (Some p) (pushed p l).
Proof.
  intros Hg Hp Hnin Hr Hl.
  assert (Hself : node_next (set_node_next b p h) p = match h with Some 0 => None | _ => h end).
  { rewrite node_next_write by done. by rewrite decide_True. }
  assert (Htail : linked (node_next (set_node_next b p h)) h l).
  { eapply linked_frame; [| done]. intros q Hq.
    rewrite node_next_write by auto. rewrite decide_False; [done |]. by intros ->. }
  destruct l as [| q l].
  - cbn in Hl. subst h. cbn. by rewrite Hself.
  - pose proof Hl as [-> _]. destruct q as [| q | q]; cbn [pushed linked]; rewrite Hself; done.
Qed.

Lemma push_free_spec b fl p o l :
  inv b fl → fl !! Z.to_nat o = Some l → block_ok b p o →
  (∀ x, x ∈ pages p o → x ∉ flat fl) →
  ∃ b', push_free b p o = Done b' ∧ inv b' (<[Z.to_nat o := pushed p l]> fl) ∧
        same_region b b' ∧ writes_in [p] b b'.
Proof.
  intros Hinv Ho Hblk Hfresh. pose proof Hblk as (Hor & Hp0 & Hpe & _).
  pose proof (inv_geometry _ _ Hinv) as Hg.
  assert (Hself : p ∈ pages p o) by (apply elem_of_pages; pose proof (pow2_pos o); lia).
  assert (Hnew : ∀ o' k, fl !! o' = Some k → p ∉ k).
  { intros o' k Hk Hin. apply (Hfresh p Hself). by eapply start_in_flat. }
  destruct (inv_lookup b fl o Hinv Hor) as (h & l' & Hh & Hl' & Hget & Hlink).
  assert (l' = l) as -> by congruence.
  unfold push_free. rewrite Hget. cbn [mbind outcome_bind].
  change (free_lists (set_node_next b p h)) with (free_lists b).
  rewrite (aset_lists b fl) by done. cbn [mbind outcome_bind].
  eexists. split; [reflexivity |]. split; [| by split; [constructor | apply writes_in_link]].
  eapply (inv_update b _ fl (Z.to_nat o) l _ (Some p) p); try done.
  - change (node_next (set_lists (set_node_next b p h) _))
      with (node_next (set_node_next b p h)).
    apply linked_pushed; [done | by eapply block_start_range | by eapply Hnew | | done].
    intros q Hq. by eapply inv_start_range.
  - intros q Hq. eapply elem_of_sublist in Hq; [| apply pushed_sublist].
    rewrite Z2Nat.id by lia.
    apply elem_of_cons in Hq as [-> | Hq]; [done |].
    rewrite <- (Z2Nat.id o) by lia. by eapply inv_blocks.
  - eapply NoDup_of_submseteq; [| by apply flat_pushed]. rewrite Z2Nat.id by lia.
    apply NoDup_app. split_and!; [apply NoDup_zseq | done | apply Hinv].
  - intros q Hq Hne.
    change (node_next (set_lists (set_node_next b p h) _))
      with (node_next (set_node_next b p h)).
    rewrite node_next_write by (done || by eapply block_start_range).
    by rewrite decide_False.
  - intros o' k _ Hk. by eapply Hnew.
Qed.

Lemma pop_free_spec b fl p o l :
  inv b fl → 0 <= o <= 12 → fl !! Z.to_nat o = Some (p :: l) →
  ∃ b', pop_free b o = Done (Some p, b') ∧ inv b' (<[Z.to_nat o := l]> fl) ∧
        same_region b b' ∧ phys b' = phys b.
Proof.
  intros Hinv Hor Ho.
  destruct (inv_lookup b fl o Hinv Hor) as (h & l' & Hh & Hl' & Hget & Hlink).
  assert (l' = p :: l) as -> by congruence. destruct Hlink as [-> Hlink].
  unfold pop_free. rewrite Hget. cbn [mbind outcome_bind].
  rewrite (aset_lists b fl) by done. cbn [mbind outcome_bind].
  eexists. split; [reflexivity |]. split; [| by split; [constructor |]].
  eapply (inv_update b _ fl (Z.to_nat o) (p :: l) l (node_next b p) (-1)); try done.
  - intros q Hq. eapply inv_blocks; [done | done | set_solver].
  - eapply NoDup_of_submseteq; [apply (inv_nodup _ _ Hinv) |].
    rewrite (flat_remove fl (Z.to_nat o) (p :: l) l (pages p (Z.of_nat (Z.to_nat o)))) by done.
    by apply submseteq_inserts_l.
  - intros o' k _ Hk Hin. pose proof (inv_start_range _ _ _ _ _ Hinv Hk Hin). lia.
Qed.

Lemma pop_free_pages fl o p l :
  0 <= o → fl !! Z.to_nat o = Some (p :: l) →
  flat fl ≡ₚ pages p o ++ flat (<[Z.to_nat o := l]> fl).
Proof.
  intros Hor Ho. apply flat_remove with (l := p :: l); [done |].
  by rewrite Z2Nat.id.
Qed.

Lemma push_free_pages fl o p l :
  0 <= o → fl !! Z.to_nat o = Some l → 0 ∉ l →
  flat (<[Z.to_nat o := pushed p l]> fl) ≡ₚ pages p o ++ flat fl.
Proof.
  intros Hor Ho Hz. rewrite pushed_cons by done.
  apply flat_add with (l := l); [done |]. by rewrite Z2Nat.id.
Qed.

(** ** Splitting and allocating *)

Lemma pow2_succ o : 0 < o → 2 ^ o = 2 ^ (o - 1) + 2 ^ (o - 1).
Proof.
  intros. replace o with (Z.succ (o - 1)) at 1 by lia. rewrite Z.pow_succ_r by lia. lia.
Qed.

Lemma pages_halves p o :
  0 < o → pages p o = pages p (o - 1) ++ pages (p + 2 ^ (o - 1)) (o - 1).
Proof.
  intros Ho. unfold pages. rewrite (pow2_succ o Ho).
  pose proof (pow2_pos (o - 1)). apply zseq_app; lia.
Qed.

(** The two halves of a block are blocks. *)
Lemma block_halves b p o :
  0 < o → block_ok b p o →
  block_ok b p (o - 1) ∧ block_ok b (p + 2 ^ (o - 1)) (o - 1).
Proof.
  intros Hpos (Ho & Hp & He & Hal). pose proof (pow2_pos (o - 1) ltac:(lia)) as Hh.
  pose proof (pow2_succ o Hpos) as H2.
  assert (Hal' : p mod 2 ^ (o - 1) = 0).
  { apply Z.mod_divide; [lia |]. apply Z.mod_divide in Hal; [| lia].
    etrans; [| exact Hal]. exists 2. lia. }
  unfold block_ok. split_and!; try lia; try done.
  rewrite <- Zplus_mod_idemp_l, Hal', Z.add_0_l. by apply Z.mod_same; lia.
Qed.

Lemma lookup_insert_other {A} (l : list A) (i j : Z) x :
  0 <= i → 0 <= j → i ≠ j → <[Z.to_nat i := x]> l !! Z.to_nat j = l !! Z.to_nat j.
Proof. intros. apply list_lookup_insert_ne. lia. Qed.

Lemma lookup_insert_same {A} (fl : list A) (o : Z) l l' :
  fl !! Z.to_nat o = Some l → <[Z.to_nat o := l']> fl !! Z.to_nat o = Some l'.
Proof. intros Ho. apply list_lookup_insert_eq. by eapply lookup_lt_Some. Qed.

(** [split] takes the first block of list [o], returns its start as a block of
    order [t] and leaves the other halves in the lists below [o]. *)
Lemma split_loop_spec fuel b fl p o t l :
  inv b fl → 0 <= t < o → o <= 12 → Z.to_nat (o - t) = fuel →
  fl !! Z.to_nat o = Some (p :: l) →
  (∀ k, t <= k < o → fl !! Z.to_nat k = Some []) →
  ∃ b' fl', split_loop fuel b o t = Done (p, b') ∧ inv b' fl' ∧ same_region b b' ∧
            flat fl ≡ₚ pages p t ++ flat fl' ∧ writes_in (flat fl) b b'.
Proof.
  revert b fl o l. induction fuel as [| fuel IH]; intros b fl o l Hinv Ht Ho12 Hfuel Ho Hempty;
    [lia |].
  cbn [split_loop]. destruct (o <=? t) eqn:?; bools; [lia |].
  replace (o - 1 + 1) with o by lia.
  assert (Hblk : block_ok b p o).
  { rewrite <- (Z2Nat.id o) by lia. eapply inv_blocks; [done | done | set_solver]. }
  destruct (block_halves b p o ltac:(lia) Hblk) as [Hlow Hhigh].
  destruct (pop_free_spec b fl p o l Hinv ltac:(lia) Ho) as (b1 & -> & Hinv1 & Hreg1 & Hm1).
  cbn [mbind outcome_bind fst snd unwrap].
  pose proof (pop_free_pages fl o p l ltac:(lia) Ho) as Hperm1.
  rewrite pages_halves in Hperm1 by lia.
  set (fl1 := <[Z.to_nat o := l]> fl) in *.
  pose proof (pow2_pos (o - 1) ltac:(lia)) as Hpw.
  assert (Hp0 : 0 <= p) by (destruct Hblk; lia).
  assert (Hnd : NoDup ((pages p (o - 1) ++ pages (p + 2 ^ (o - 1)) (o - 1)) ++ flat fl1)).
  { rewrite <- Hperm1. apply Hinv. }
  rewrite <- app_assoc in Hnd. apply NoDup_app in Hnd as (_ & Hd1 & Hnd).
  apply NoDup_app in Hnd as (_ & Hd2 & _).
  assert (He1 : fl1 !! Z.to_nat (o - 1) = Some []).
  { unfold fl1. rewrite lookup_insert_other by lia. apply Hempty. lia. }
  destruct (push_free_spec b1 fl1 (p + 2 ^ (o - 1)) (o - 1) []) as (b2 & -> & Hinv2 & Hreg2 & Hm2);
    [done | done | by eapply block_ok_region | exact Hd2 |].
  cbn [mbind outcome_bind]. cbn [pushed] in Hinv2.
  set (fl2 := <[Z.to_nat (o - 1) := [p + 2 ^ (o - 1)]]> fl1) in *.
  assert (Hperm2 : flat fl2 ≡ₚ pages (p + 2 ^ (o - 1)) (o - 1) ++ flat fl1).
  { apply (push_free_pages fl1 (o - 1) _ []); [lia | done | set_solver]. }
  assert (Hin : ∀ x, x ∈ pages p (o - 1) ∨ x ∈ pages (p + 2 ^ (o - 1)) (o - 1) → x ∈ flat fl).
  { intros x Hx. rewrite Hperm1. set_solver. }
  assert (Hw2 : writes_in (flat fl) b b2).
  { eapply (writes_in_trans _ [p + 2 ^ (o - 1)] b b1).
    - intros x _. by rewrite Hm1.
    - apply Hreg1.
    - done.
    - intros x ->%list_elem_of_singleton. apply Hin. right. apply elem_of_pages. lia. }
  destruct (t <? o - 1) eqn:Hlt; bools.
  2: { assert (t = o - 1) as -> by lia. exists b2, fl2. split_and!; [done | done | by etrans | | done].
       rewrite Hperm1, Hperm2. by rewrite app_assoc. }
  assert (He2 : fl2 !! Z.to_nat (o - 1) = Some [p + 2 ^ (o - 1)]).
  { apply (lookup_insert_same _ _ []). done. }
  destruct (push_free_spec b2 fl2 p (o - 1) [p + 2 ^ (o - 1)]) as (b3 & -> & Hinv3 & Hreg3 & Hm3);
    [done | done | do 2 (eapply block_ok_region; [done |]); done | |].
  { intros x Hx. rewrite Hperm2. by apply Hd1. }
  cbn [mbind outcome_bind].
  assert (Hz : 0 ∉ [p + 2 ^ (o - 1)]) by (rewrite list_elem_of_singleton; lia).
  pose proof (push_free_pages fl2 (o - 1) p _ ltac:(lia) He2 Hz) as Hperm3.
  rewrite pushed_cons in Hinv3, Hperm3 by done.
  set (fl3 := <[Z.to_nat (o - 1) := p :: [p + 2 ^ (o - 1)]]> fl2) in *.
  destruct (IH b3 fl3 (o - 1) [p + 2 ^ (o - 1)]) as (b' & fl' & Hrun & Hinv' & Hreg' & Hperm' & Hw');
    [done | lia | lia | lia | by apply (lookup_insert_same _ _ [p + 2 ^ (o - 1)]) | |].
  { intros k Hk. unfold fl3, fl2, fl1. rewrite !lookup_insert_other by lia. apply Hempty. lia. }
  exists b', fl'. split_and!; [done | done | by do 3 (etrans; [done |]) | |].
  { rewrite <- Hperm', Hperm3, Hperm2, Hperm1. by rewrite app_assoc. }
  assert (base b2 = base b) as Hb2 by (etrans; [apply Hreg2 | apply Hreg1]).
  eapply (writes_in_trans _ (flat fl3) b b3);
    [| by rewrite (same_base _ _ Hreg3) | done |].
  - eapply (writes_in_trans _ [p] b b2); [done | done | done |].
    intros x ->%list_elem_of_singleton. apply Hin. left. apply elem_of_pages. lia.
  - intros x Hx. rewrite Hperm3, Hperm2, !elem_of_app in Hx. rewrite Hperm1. set_solver.
Qed.

(** What [alloc_pages] promises: [None] changes nothing and means that no list
    from [order] on has a block; [Some p] takes the pages of [p] out of the
    free pages and adds them to the count. *)
Definition alloc_post (b : buddy) (fl : list (list Z)) (order : Z)
    (r : option Z) (b' : buddy) : Prop :=
  match r with
  | None => b' = b ∧ ∀ k, order <= k <= 12 → fl !! Z.to_nat k = Some []
  | Some p => ∃ fl', inv b' fl' ∧ block_ok b p order ∧ flat fl ≡ₚ pages p order ++ flat fl' ∧
      base b' = base b ∧ end_ b' = end_ b ∧ total_pages b' = total_pages b ∧
      allocated_pages b' = u64 (allocated_pages b + 2 ^ order) ∧ writes_in (flat fl) b b'
  end.

Lemma inv_set_allocated b fl n : inv b fl → inv (set_allocated b n) fl.
Proof. intros [? ? ? ? ? ?]. by constructor. Qed.

Lemma block_ok_order b p o o' :
  block_ok b p o → 0 <= o' <= o → block_ok b p o'.
Proof.
  intros (Ho & Hp & He & Hal) Ho'. unfold block_ok.
  assert (2 ^ o' <= 2 ^ o) by (apply Z.pow_le_mono_r; lia).
  pose proof (pow2_pos o' ltac:(lia)). split_and!; try lia.
  apply Z.mod_divide; [lia |]. apply Z.mod_divide in Hal; [| lia].
  etrans; [| exact Hal]. exists (2 ^ (o - o')). rewrite <- Z.pow_add_r by lia. f_equal. lia.
Qed.

Lemma alloc_loop_spec b fl order n k :
  inv b fl → 0 <= order <= k → k + Z.of_nat n = 13 →
  (∀ j, order <= j < k → fl !! Z.to_nat j = Some []) →
  ∃ r b', alloc_loop b order (zseq k (Z.of_nat n)) = Done (r, b') ∧ alloc_post b fl order r b'.
Proof.
  revert k. induction n as [| n IH]; intros k Hinv Hk Hn Hempty.
  { rewrite zseq_nil by lia. exists None, b. split; [done |]. split; [done |].
    intros j Hj. apply Hempty. lia. }
  replace (Z.of_nat (S n)) with (1 + Z.of_nat n) by lia.
  rewrite zseq_app by lia. change (zseq k 1) with [k + 0]. rewrite Z.add_0_r.
  cbn [app alloc_loop].
  destruct (inv_lookup b fl k Hinv ltac:(lia)) as (h & l & Hh & Hl & -> & Hlink).
  cbn [mbind outcome_bind]. destruct l as [| p l]; cbn in Hlink.
  { subst h. apply IH; [done | lia | lia |]. intros j Hj.
    destruct (decide (j = k)) as [-> |]; [done |]. apply Hempty. lia. }
  destruct Hlink as [-> _].
  assert (Hblk : block_ok b p k).
  { rewrite <- (Z2Nat.id k) by lia. eapply inv_blocks; [done | done | set_solver]. }
  destruct (order <? k) eqn:Hlt; bools.
  - unfold split.
    destruct (split_loop_spec _ b fl p k order l Hinv ltac:(lia) ltac:(lia) eq_refl Hl)
      as (b' & fl' & -> & Hinv' & [? ? ? ?] & Hperm & Hw); [intros; apply Hempty; lia |].
    cbn [mbind outcome_bind fst snd].
    eexists (Some p), _. split; [reflexivity |]. exists fl'. cbn.
    split_and!; try done; [by apply inv_set_allocated | eapply block_ok_order; [done | lia] |].
    congruence.
  - assert (order = k) as -> by lia.
    destruct (pop_free_spec b fl p k l Hinv ltac:(lia) Hl) as (b' & -> & Hinv' & [? ? ? ?] & Hm).
    cbn [mbind outcome_bind fst snd unwrap].
    eexists (Some p), _. split; [reflexivity |]. eexists. cbn.
    split_and!; try done; [by apply inv_set_allocated | apply pop_free_pages; [lia | done] | |].
    + congruence.
    + intros x _. cbn. by rewrite Hm.
Qed.

Lemma alloc_pages_spec b fl order :
  inv b fl → 0 <= order <= 12 →
  ∃ r b', alloc_pages b order = Done (r, b') ∧ alloc_post b fl order r b'.
Proof.
  intros Hinv Ho. unfold alloc_pages, MAX_ORDER. destruct (12 <? order) eqn:?; bools; [lia |].
  replace (12 + 1 - order) with (Z.of_nat (Z.to_nat (13 - order))) by lia.
  apply alloc_loop_spec; [done | lia | lia | lia].
Qed.

(** ** Buddies *)

Lemma land_aligned_pow2 q o : 0 <= o → q mod 2 ^ (o + 1) = 0 → Z.land q (2 ^ o) = 0.
Proof.
  intros Ho Hq. apply Z.mod_divide in Hq as [k ->]; [| by apply Z.pow_nonzero; lia].
  apply Z.bits_inj'. intros i Hi. rewrite Z.land_spec, Z.pow2_bits_eqb, Z.bits_0 by lia.
  destruct (o =? i) eqn:E; bools; [| by rewrite andb_false_r].
  subst i. rewrite andb_true_r. apply Z.mul_pow2_bits_low. lia.
Qed.

(** The buddy of an aligned block is its neighbour, above or below, and
    clearing the bit gives the lower one of the two. *)
Lemma buddy_cases p o :
  0 <= o → 0 <= p → p mod 2 ^ o = 0 →
  (p mod 2 ^ (o + 1) = 0 ∧ Z.lxor p (2 ^ o) = p + 2 ^ o ∧ Z.ldiff p (2 ^ o) = p) ∨
  (2 ^ o <= p ∧ (p - 2 ^ o) mod 2 ^ (o + 1) = 0 ∧ Z.lxor p (2 ^ o) = p - 2 ^ o ∧
   Z.ldiff p (2 ^ o) = p - 2 ^ o).
Proof.
  intros Ho Hp Hal. pose proof (pow2_pos o Ho) as Hpos.
  assert (H2 : 2 ^ (o + 1) = 2 * 2 ^ o) by (rewrite Z.pow_add_r by lia; lia).
  apply Z.mod_divide in Hal as [k ->]; [| lia].
  destruct (Z.Even_or_Odd k) as [[j ->] | [j ->]].
  - left. assert (Hm : (2 * j * 2 ^ o) mod 2 ^ (o + 1) = 0).
    { rewrite H2. apply Z.mod_divide; [lia |]. exists j. lia. }
    pose proof (land_aligned_pow2 _ o Ho Hm) as Hland.
    split_and!; [done | symmetry; by apply Z.add_nocarry_lxor |].
    rewrite <- (Z.lor_0_r (Z.ldiff _ _)), <- Hland. apply Z.lor_ldiff_and.
  - right. set (q := 2 * j * 2 ^ o).
    assert (Hq : (2 * j + 1) * 2 ^ o = q + 2 ^ o) by (unfold q; lia). rewrite !Hq.
    assert (Hm : q mod 2 ^ (o + 1) = 0).
    { rewrite H2. apply Z.mod_divide; [lia |]. exists j. unfold q. lia. }
    pose proof (land_aligned_pow2 _ o Ho Hm) as Hland.
    assert (Hx : q + 2 ^ o = Z.lxor q (2 ^ o)) by (by apply Z.add_nocarry_lxor).
    assert (0 <= j) by nia.
    replace (q + 2 ^ o - 2 ^ o) with q by lia. split_and!; [unfold q; nia | done | |].
    + rewrite Hx, Z.lxor_assoc, Z.lxor_nilpotent. apply Z.lxor_0_r.
    + rewrite Hx. apply Z.bits_inj'. intros i Hi.
      apply (f_equal (λ z, Z.testbit z i)) in Hland.
      rewrite Z.land_spec, Z.bits_0 in Hland.
      rewrite Z.ldiff_spec, Z.lxor_spec by lia.
      by destruct (Z.testbit q i), (Z.testbit (2 ^ o) i).
Qed.

(** A block and its free buddy make a block of the next order. *)
Lemma merge_blocks b p o :
  o < 12 → block_ok b p o → block_ok b (Z.lxor p (2 ^ o)) o →
  block_ok b (Z.ldiff p (2 ^ o)) (o + 1) ∧
  pages (Z.ldiff p (2 ^ o)) (o + 1) ≡ₚ pages p o ++ pages (Z.lxor p (2 ^ o)) o.
Proof.
  intros Hlt (Ho & Hp & He & Hal) (_ & Hp' & He' & _).
  assert (H2 : 2 ^ (o + 1) = 2 * 2 ^ o) by (rewrite Z.pow_add_r by lia; lia).
  unfold block_ok.
  destruct (buddy_cases p o) as [(Hm & Hx & ->) | (Hle & Hm & Hx & ->)]; [lia | lia | done | |];
    rewrite !Hx in *; rewrite pages_halves by lia; replace (o + 1 - 1) with o by lia.
  - split; [split_and!; lia | done].
  - split; [split_and!; lia |]. rewrite Z.sub_add. apply Permutation_app_comm.
Qed.

Lemma find_node_spec fuel b target prev h l :
  linked (node_next b) h l → (length l <= fuel)%nat →
  ∃ found prev', find_node fuel b target prev h = Done (found, prev') ∧
    if found : bool then
      ∃ l1 l2, l = l1 ++ target :: l2 ∧
               prev' = match last l1 with Some q => Some q | None => prev end
    else target ∉ l.
Proof.
  revert prev h l. induction fuel as [| fuel IH]; intros prev h [| p l] Hl Hlen; cbn in Hl, Hlen.
  - subst h. exists false, prev. split; [done | set_solver].
  - lia.
  - subst h. exists false, prev. split; [done | set_solver].
  - destruct Hl as [-> Hl]. cbn [find_node]. destruct (p =? target) eqn:Hp; bools.
    + subst p. exists true, prev. split; [done |]. by exists [], l.
    + destruct (IH (Some p) _ l Hl) as (found & prev' & -> & Hf); [lia |].
      exists found, prev'. split; [done |]. destruct found; [| set_solver].
      destruct Hf as (l1 & l2 & -> & ->). exists (p :: l1), l2. split; [done |].
      rewrite last_cons. by destruct (last l1).
Qed.

Lemma linked_app nx h l1 q l2 :
  linked nx h (l1 ++ q :: l2) → linked nx (nx q) l2.
Proof.
  revert h. induction l1 as [| p l1 IH]; intros h; cbn; intros [-> H]; [done |]. by eapply IH.
Qed.

(** Unlinking the node after [r]: the link of [r] skips it. *)
Lemma linked_unlink nx nx' h l1 r q l2 :
  linked nx h (l1 ++ r :: q :: l2) → nx' r = nx q →
  (∀ x, x ∈ l1 ++ l2 → nx' x = nx x) → r ∉ l1 →
  linked nx' h (l1 ++ r :: l2).
Proof.
  revert h. induction l1 as [| p l1 IH]; intros h; cbn; intros [-> H] Hr Hx Hn.
  - destruct H as [_ H]. split; [done |]. rewrite Hr.
    eapply linked_frame; [| done]. intros; apply Hx; set_solver.
  - split; [done |]. rewrite Hx by set_solver. apply IH; set_solver.
Qed.

Lemma node_next_nonzero b q : node_next b q ≠ Some 0.
Proof. unfold node_next. destruct (_ =? 0) eqn:E; bools; naive_solver. Qed.

Lemma unlink_nodup b fl o l1 q l2 :
  inv b fl → fl !! o = Some (l1 ++ q :: l2) → NoDup (flat (<[o := l1 ++ l2]> fl)).
Proof.
  intros Hinv Ho. eapply NoDup_of_submseteq; [apply (inv_nodup _ _ Hinv) |].
  rewrite (flat_remove fl o _ (l1 ++ l2) (pages q (Z.of_nat o)) Ho).
  - by apply submseteq_inserts_l.
  - rewrite !oflat_app. cbn [oflat]. solve_Permutation.
Qed.

Lemma unlink_spec b fl o l1 q l2 :
  inv b fl → 0 <= o <= 12 → fl !! Z.to_nat o = Some (l1 ++ q :: l2) →
  ∃ b', unlink b o q (last l1) = Done b' ∧ inv b' (<[Z.to_nat o := l1 ++ l2]> fl) ∧
        same_region b b' ∧ writes_in (flat fl) b b'.
Proof.
  intros Hinv Hor Ho.
  destruct (inv_lookup b fl o Hinv Hor) as (h & l' & Hh & Hl' & Hget & Hlink).
  assert (l' = l1 ++ q :: l2) as -> by congruence.
  pose proof (unlink_nodup b fl _ l1 q l2 Hinv Ho) as Hnd.
  assert (Hblk : ∀ p, p ∈ l1 ++ l2 → block_ok b p (Z.of_nat (Z.to_nat o))).
  { intros p Hp. eapply inv_blocks; [done | done | set_solver]. }
  pose proof (list_nodup _ _ _ (inv_nodup _ _ Hinv) Ho) as Hl.
  assert (Hrange : ∀ p, p ∈ l1 ++ q :: l2 → 0 <= p <= total_pages b).
  { intros p Hp. by eapply inv_start_range. }
  destruct l1 as [| r l1 _] using rev_ind.
  - cbn [last unlink]. rewrite (aset_lists b fl) by done. cbn [mbind outcome_bind].
    eexists. split; [reflexivity |]. split; [| by split; [constructor |]].
    destruct Hlink as [-> Hlink].
    eapply (inv_update b _ fl (Z.to_nat o) _ _ (node_next b q) (-1)); try done.
    intros o' k _ Hk Hin. pose proof (inv_start_range _ _ _ _ _ Hinv Hk Hin). lia.
  - rewrite last_snoc. cbn [unlink]. rewrite <- !app_assoc in *. cbn [app] in *.
    eexists. split; [reflexivity |].
    split; [| split; [by constructor |]].
    2: { eapply writes_in_trans; [apply writes_in_refl | done | apply writes_in_link |].
         intros x ->%list_elem_of_singleton. eapply start_in_flat; [done | set_solver]. }
    pose proof (inv_geometry _ _ Hinv) as Hg.
    assert (Hr : 0 <= r <= total_pages b) by (apply Hrange; set_solver).
    apply NoDup_app in Hl as (_ & Hl1 & Hl2).
    apply NoDup_cons in Hl2 as [Hr2 _].
    eapply (inv_update b _ fl (Z.to_nat o) _ _ h r); try done.
    + cbn. by rewrite list_insert_id.
    + eapply linked_unlink; [done | | |].
      * rewrite node_next_write, decide_True by done.
        pose proof (node_next_nonzero b q). by destruct (node_next b q) as [[| |] |].
      * intros x Hx. assert (Hx' : x ∈ l1 ++ r :: q :: l2) by set_solver.
        rewrite node_next_write by auto. rewrite decide_False; [done |]. set_solver.
      * set_solver.
    + intros x Hx Hne. rewrite node_next_write by done. by rewrite decide_False.
    + intros o' k Hne Hk Hin. apply Hne.
      eapply start_unique; [apply Hinv | done | done | done | set_solver].
Qed.

(** ** Merging and freeing *)

Lemma flat_in_region b fl x : inv b fl → x ∈ flat fl → 0 <= x < total_pages b.
Proof.
  intros Hinv (o & l & p & Ho & Hp & Hx)%elem_of_flat.
  destruct (inv_blocks _ _ Hinv _ _ _ Ho Hp) as (_ & ? & ? & _).
  apply elem_of_pages in Hx. lia.
Qed.

Lemma flat_length b fl : inv b fl → Z.of_nat (length (flat fl)) <= total_pages b.
Proof.
  intros Hinv. pose proof (inv_geometry _ _ Hinv) as (_ & Ht & _).
  assert (Hs : flat fl ⊆+ zseq 0 (total_pages b)).
  { apply NoDup_submseteq; [apply Hinv |]. intros x Hx.
    apply elem_of_zseq. pose proof (flat_in_region b fl x Hinv Hx). lia. }
  apply submseteq_length in Hs. rewrite length_zseq in Hs. lia.
Qed.

Lemma oflat_length o l : 0 <= o → Z.of_nat (length (oflat o l)) = 2 ^ o * Z.of_nat (length l).
Proof.
  intros Ho. pose proof (pow2_pos o Ho). induction l as [| p l IH]; cbn [oflat length]; [lia |].
  unfold pages. rewrite length_app, length_zseq. lia.
Qed.

Lemma list_length_bound b fl o l :
  inv b fl → fl !! o = Some l → (length l <= list_fuel b)%nat.
Proof.
  intros Hinv Ho. pose proof (flat_length b fl Hinv) as Hlen.
  rewrite (flat_remove fl o l [] (oflat (Z.of_nat o) l)) in Hlen;
    [| done | by rewrite app_nil_r].
  rewrite length_app in Hlen. pose proof (oflat_length (Z.of_nat o) l ltac:(lia)).
  pose proof (pow2_pos (Z.of_nat o) ltac:(lia)). unfold list_fuel. nia.
Qed.

(** [merge_loop] only regroups pages: what it returns with what is left in the
    lists is what was there with the block it was given. *)
Lemma merge_loop_spec fuel b fl p o :
  inv b fl → block_ok b p o → Z.to_nat (12 - o) = fuel →
  (∀ x, x ∈ pages p o → x ∉ flat fl) →
  ∃ p' o' b' fl', merge_loop fuel b p o = Done (p', o', b') ∧ inv b' fl' ∧
    same_region b b' ∧ block_ok b' p' o' ∧ pages p' o' ++ flat fl' ≡ₚ pages p o ++ flat fl ∧
    flat fl' ⊆+ flat fl ∧ writes_in (flat fl) b b'.
Proof.
  revert b fl p o. induction fuel as [| fuel IH]; intros b fl p o Hinv Hblk Hfuel Hfresh;
    pose proof Hblk as (Hor & _); cbn [merge_loop]; unfold MAX_ORDER.
  { destruct (12 <=? o) eqn:?; bools; [| lia]. exists p, o, b, fl. done. }
  destruct (12 <=? o) eqn:?; bools; [lia |].
  destruct (negb (has_buddy b p o)); [by exists p, o, b, fl |].
  destruct (inv_lookup b fl o Hinv Hor) as (h & l & Hh & Hl & -> & Hlink).
  cbn [mbind outcome_bind].
  set (q := Z.lxor p (2 ^ o)).
  destruct (find_node_spec (list_fuel b) b q None h l Hlink) as (found & prev & -> & Hf);
    [by eapply list_length_bound |].
  cbn [mbind outcome_bind fst snd]. destruct found; cbn [negb]; [| by exists p, o, b, fl].
  destruct Hf as (l1 & l2 & -> & ->).
  assert (Hq : block_ok b q o).
  { rewrite <- (Z2Nat.id o) by lia. eapply inv_blocks; [done | done | set_solver]. }
  destruct (unlink_spec b fl o l1 q l2 Hinv Hor Hl) as (b1 & E & Hinv1 & Hreg1 & Hw1).
  replace (match last l1 with Some x => Some x | None => None end) with (last l1)
    by (by destruct (last l1)).
  rewrite E. cbn [mbind outcome_bind].
  destruct (merge_blocks b p o ltac:(lia) Hblk Hq) as [Hblk' Hpages']. fold q in Hpages'.
  assert (Hrem : flat fl ≡ₚ pages q o ++ flat (<[Z.to_nat o := l1 ++ l2]> fl)).
  { apply (flat_remove fl (Z.to_nat o) _ (l1 ++ l2)) with (1 := Hl).
    rewrite Z2Nat.id, !oflat_app by lia. cbn [oflat]. solve_Permutation. }
  destruct (IH b1 (<[Z.to_nat o := l1 ++ l2]> fl) (Z.ldiff p (2 ^ o)) (o + 1))
    as (p' & o' & b' & fl' & -> & Hinv' & Hreg' & Hok' & Hperm' & Hsub' & Hw'); [done | | lia | |].
  { by eapply block_ok_region. }
  { assert (Hnd : NoDup (pages (Z.ldiff p (2 ^ o)) (o + 1) ++
                         flat (<[Z.to_nat o := l1 ++ l2]> fl))).
    { rewrite Hpages', <- app_assoc, <- Hrem. apply NoDup_app.
      split_and!; [apply NoDup_zseq | done | apply Hinv]. }
    by apply NoDup_app in Hnd as (_ & ? & _). }
  exists p', o', b', fl'. split_and!; [done | done | by etrans | done | | |].
  - rewrite Hperm', Hpages', Hrem. by rewrite app_assoc.
  - etrans; [exact Hsub' |]. rewrite Hrem. by apply submseteq_inserts_l.
  - eapply writes_in_trans; [done | apply Hreg1 | done |]. intros x Hx. rewrite Hrem. set_solver.
Qed.

(** What [free_pages] promises: the free pages are those from before and those
    of the freed block; when page 0 was free before, some of them can be lost. *)
Lemma free_pages_spec b fl p o :
  inv b fl → block_ok b p o → (∀ x, x ∈ pages p o → x ∉ flat fl) →
  ∃ b' fl', free_pages b p o = Done b' ∧ inv b' fl' ∧
    flat fl' ⊆+ pages p o ++ flat fl ∧
    (0 ∉ flat fl → flat fl' ≡ₚ pages p o ++ flat fl) ∧
    base b' = base b ∧ end_ b' = end_ b ∧ total_pages b' = total_pages b ∧
    allocated_pages b' = u64 (allocated_pages b - 2 ^ o) ∧
    writes_in (pages p o ++ flat fl) b b'.
Proof.
  intros Hinv Hblk Hfresh. pose proof Hblk as (Hor & _).
  unfold free_pages, try_merge, MAX_ORDER.
  destruct (12 <? o) eqn:?; bools; [lia |].
  set (b0 := set_allocated b _).
  destruct (merge_loop_spec _ b0 fl p o (inv_set_allocated _ _ _ Hinv) Hblk eq_refl Hfresh)
    as (p' & o' & b1 & fl1 & -> & Hinv1 & [? ? ? ?] & Hblk1 & Hperm1 & Hsub1 & Hw1).
  cbn [mbind outcome_bind fst snd].
  assert (Hnd : NoDup (pages p' o' ++ flat fl1)).
  { rewrite Hperm1. apply NoDup_app. split_and!; [apply NoDup_zseq | done | apply Hinv]. }
  apply NoDup_app in Hnd as (_ & Hfresh1 & _).
  pose proof Hblk1 as (Hor1 & _).
  destruct (inv_lookup b1 fl1 o' Hinv1 Hor1) as (h & l & _ & Hl & _ & _).
  destruct (push_free_spec b1 fl1 p' o' l Hinv1 Hl Hblk1 Hfresh1)
    as (b' & -> & Hinv' & [? ? ? ?] & Hw').
  eexists b', _. split; [reflexivity |]. split; [exact Hinv' |].
  split_and!; try (cbn in *; congruence).
  - rewrite <- Hperm1. pose proof (flat_pushed fl1 _ l p' Hl) as Hs. by rewrite Z2Nat.id in Hs by lia.
  - intros Hz. rewrite <- Hperm1.
    apply push_free_pages; [lia | done |]. intros Hin. apply Hz.
    eapply elem_of_submseteq; [by eapply start_in_flat | done].
  - eapply (writes_in_trans _ [p'] b b1); [| done | done |].
    + intros x Hx. apply Hw1. intros q Hq. apply Hx. set_solver.
    + intros x ->%list_elem_of_singleton. rewrite <- Hperm1. apply elem_of_app. left.
      apply elem_of_pages. pose proof (pow2_pos o'). lia.
Qed.

(** ** Initialisation *)

(** The pages that [init] loses: with two or more blocks of the largest order,
    the link of the second block to the first (page 0) reads back as the end of
    the list. *)
Definition lost (n : Z) : Z := if n <? 8192 then 0 else 4096.

(** The state of [init_loop] after [offset] pages have been put in the lists. *)
Record init_inv (b : buddy) (fl : list (list Z)) (remaining offset order : Z) : Prop := {
  ii_inv : inv b fl;
  ii_sum : offset + remaining = total_pages b ∧ 0 <= remaining ∧ 0 <= offset;
  ii_order : 0 <= order <= 12;
  ii_align : offset mod 2 ^ order = 0;
  ii_low k : 0 <= k < order → fl !! Z.to_nat k = Some [];
  ii_cur : order < 12 → remaining < 2 ^ (order + 1) ∧
    (fl !! Z.to_nat order = Some [] ∨ remaining < 2 ^ order) ∧
    (offset < 8192 → total_pages b < 8192);
  ii_top : order = 12 → ∃ l, fl !! 12%nat = Some l ∧
    (offset = 0 → l = []) ∧ (offset = 4096 → l = [0]) ∧ (4096 < offset → 0 ∉ l);
  ii_flat : flat fl ≡ₚ zseq (lost offset) (offset - lost offset)
}.

Lemma lost_cases n : 0 <= n → (n < 8192 ∧ lost n = 0) ∨ (8192 <= n ∧ lost n = 4096).
Proof. intros. unfold lost. destruct (n <? 8192) eqn:?; bools; lia. Qed.

Lemma zseq_snoc_pages n o :
  0 <= o → 0 <= n → lost (n + 2 ^ o) = lost n →
  zseq (lost (n + 2 ^ o)) (n + 2 ^ o - lost (n + 2 ^ o)) =
  zseq (lost n) (n - lost n) ++ pages n o.
Proof.
  intros Ho Hn ->. pose proof (pow2_pos o Ho). destruct (lost_cases n Hn); unfold pages.
  - replace (n + 2 ^ o - lost n) with ((n - lost n) + 2 ^ o) by lia.
    rewrite zseq_app by lia. do 2 f_equal. lia.
  - replace (n + 2 ^ o - lost n) with ((n - lost n) + 2 ^ o) by lia.
    rewrite zseq_app by lia. do 2 f_equal. lia.
Qed.

Lemma pages_top p : pages p 12 = zseq p 4096.
Proof. reflexivity. Qed.

(** The blocks of the largest order: the second push drops the first block. *)
Lemma init_push_top fl offset l :
  fl !! 12%nat = Some l → 0 <= offset → offset mod 4096 = 0 →
  (offset = 0 → l = []) → (offset = 4096 → l = [0]) → (4096 < offset → 0 ∉ l) →
  flat fl ≡ₚ zseq (lost offset) (offset - lost offset) →
  flat (<[12%nat := pushed offset l]> fl) ≡ₚ
    zseq (lost (offset + 4096)) (offset + 4096 - lost (offset + 4096)).
Proof.
  intros Hl Hoff Hal H0 H1 H2 Hflat.
  assert (Hc : offset = 0 ∨ offset = 4096 ∨ 4096 < offset) by dlia.
  destruct Hc as [-> | [-> | Hc]].
  - rewrite H0 in * by reflexivity.
    rewrite (push_free_pages fl 12 0 [] ltac:(lia) Hl ltac:(set_solver)), Hflat, pages_top.
    change (lost (0 + 4096)) with 0. change (lost 0) with 0.
    rewrite (zseq_nil 0 (0 - 0)) by lia. rewrite app_nil_r. reflexivity.
  - rewrite H1 in * by reflexivity. cbn [pushed].
    change (lost 4096) with 0 in Hflat. change (4096 - 0) with 4096 in Hflat.
    assert (Hrest : flat (<[12%nat := []]> fl) ≡ₚ []).
    { apply (Permutation_app_inv_l (pages 0 12)).
      pose proof (pop_free_pages fl 12 0 [] ltac:(lia) Hl) as Hp.
      rewrite Hflat in Hp. rewrite app_nil_r, pages_top. symmetry. rewrite pages_top in Hp.
      exact Hp. }
    replace (<[12%nat := [4096]]> fl) with (<[12%nat := [4096]]> (<[12%nat := []]> fl))
      by apply list_insert_insert_eq.
    rewrite (flat_add (<[12%nat := []]> fl) 12 [] [4096] (pages 4096 12)).
    + rewrite Hrest, app_nil_r, pages_top. reflexivity.
    + apply list_lookup_insert_eq. by eapply lookup_lt_Some.
    + reflexivity.
  - rewrite (push_free_pages fl 12 offset l ltac:(lia) Hl (H2 Hc)).
    pose proof (zseq_snoc_pages offset 12 ltac:(lia) ltac:(lia)) as Hz.
    change (2 ^ 12) with 4096 in Hz. rewrite Hz.
    { rewrite Hflat. apply Permutation_app_comm. }
    destruct (lost_cases offset ltac:(lia)), (lost_cases (offset + 4096) ltac:(lia)); dlia.
Qed.

(** One block pushed by [init_loop]. *)
Lemma init_push b fl remaining offset order :
  init_inv b fl remaining offset order → 2 ^ order <= remaining →
  ∃ b' fl', push_free b offset order = Done b' ∧ same_region b b' ∧
    init_inv b' fl' (remaining - 2 ^ order) (offset + 2 ^ order) order.
Proof.
  intros [Hinv Hsum Hor Hal Hlow Hcur Htop Hflat] Hle.
  pose proof (pow2_pos order ltac:(lia)) as Hpos.
  assert (Hblk : block_ok b offset order) by (unfold block_ok; lia).
  assert (Hfresh : ∀ x, x ∈ pages offset order → x ∉ flat fl).
  { intros x Hx%elem_of_pages. rewrite Hflat, elem_of_zseq. lia. }
  destruct (inv_lookup b fl order Hinv Hor) as (h & l & _ & Hl & _ & _).
  destruct (push_free_spec b fl offset order l Hinv Hl Hblk Hfresh) as (b' & E & Hinv' & Hreg & _).
  pose proof (same_total _ _ Hreg) as Ht.
  exists b', (<[Z.to_nat order := pushed offset l]> fl). split_and!; [done | done |].
  assert (Hlow' : ∀ k, 0 <= k < order →
    <[Z.to_nat order := pushed offset l]> fl !! Z.to_nat k = Some []).
  { intros k Hk. rewrite lookup_insert_other by lia. by apply Hlow. }
  assert (Hal' : (offset + 2 ^ order) mod 2 ^ order = 0).
  { rewrite <- Zplus_mod_idemp_l, Hal, Z.add_0_l. apply Z.mod_same. lia. }
  destruct (decide (order = 12)) as [-> | Hne].
  - destruct (Htop eq_refl) as (l' & Hl' & H0 & H1 & H2). change (Z.to_nat 12) with 12%nat in *.
    assert (l' = l) as -> by congruence. change (2 ^ 12) with 4096 in *.
    constructor; [exact Hinv' | lia | lia | exact Hal' | exact Hlow' | lia | |].
    + intros _. exists (pushed offset l).
      split; [apply list_lookup_insert_eq; by eapply lookup_lt_Some |].
      split_and!; [lia | intros; assert (offset = 0) as -> by lia; by rewrite H0 |].
      intros Hgt. intros Hin. assert (Hc : offset = 4096 ∨ 4096 < offset) by dlia.
      destruct Hc as [-> | Hc]; [rewrite H1 in Hin by done; cbn in Hin; set_solver |].
      rewrite pushed_cons in Hin by auto. apply elem_of_cons in Hin as [? | ?]; [lia |]. by apply H2.
    + exact (init_push_top fl offset l Hl' ltac:(lia) Hal H0 H1 H2 Hflat).
  - destruct (Hcur ltac:(lia)) as (Hrem & [He | Hr] & Hsmall); [| lia].
    assert (l = []) as -> by congruence. cbn [pushed].
    rewrite Z.pow_add_r in Hrem by lia.
    constructor; [exact Hinv' | lia | lia | exact Hal' | exact Hlow' | | lia |].
    + intros _. rewrite Ht, Z.pow_add_r by lia. split_and!; [lia | right; lia | intros; apply Hsmall; lia].
    + rewrite (push_free_pages fl order offset []) by (lia || done || set_solver).
      rewrite zseq_snoc_pages; [| lia | lia |].
      { rewrite Hflat. apply Permutation_app_comm. }
      destruct (lost_cases offset ltac:(lia)), (lost_cases (offset + 2 ^ order) ltac:(lia)); lia.
Qed.

Lemma init_loop_spec fuel b fl remaining offset order :
  init_inv b fl remaining offset order → remaining + order < Z.of_nat fuel →
  ∃ b' fl', init_loop fuel b remaining offset order = Done b' ∧ inv b' fl' ∧
    same_region b b' ∧ flat fl' ≡ₚ zseq (lost (total_pages b)) (total_pages b - lost (total_pages b)).
Proof.
  revert b fl remaining offset order.
  induction fuel as [| fuel IH]; intros b fl remaining offset order Hii Hfuel;
    pose proof Hii as [Hinv Hsum Hor Hal Hlow Hcur Htop Hflat]; [lia |].
  pose proof (pow2_pos order ltac:(lia)) as Hpos.
  cbn [init_loop]. destruct (2 ^ order <=? remaining) eqn:Hle; bools.
  - destruct (init_push b fl remaining offset order Hii Hle) as (b1 & fl1 & -> & Hreg & Hii1).
    cbn [mbind outcome_bind].
    destruct (IH b1 fl1 _ _ _ Hii1) as (b' & fl' & ? & ? & ? & Hf); [lia |].
    exists b', fl'. rewrite (same_total _ _ Hreg) in Hf. split_and!; [done | done | by etrans | done].
  - destruct (0 <? order) eqn:Hgt; bools.
    + apply (IH b fl); [| lia]. pose proof (pow2_succ order Hgt) as H2.
      constructor; [done | lia | lia | | intros; apply Hlow; lia | | lia | done].
      * apply Z.mod_divide; [pose proof (pow2_pos (order - 1)); lia |].
        apply Z.mod_divide in Hal; [| lia]. etrans; [| exact Hal]. exists 2. lia.
      * intros _. replace (order - 1 + 1) with order by lia.
        split_and!; [done | left; apply Hlow; lia |]. intros Hlt.
        destruct (decide (order = 12)) as [-> |]; [| apply Hcur; lia].
        change (2 ^ 12) with 4096 in *. dlia.
    + assert (order = 0) as -> by lia. change (2 ^ 0) with 1 in *.
      assert (remaining = 0) as -> by lia. exists b, fl. split_and!; [done | done | done |].
      rewrite Z.add_0_r in Hsum. destruct Hsum as [<- _]. done.
Qed.

Lemma init_spec m bs en :
  0 <= bs <= en → en < 2 ^ 63 →
  ∃ b fl, init m bs en = Done b ∧ inv b fl ∧
    base b = bs ∧ end_ b = en ∧ total_pages b = (en - bs) / PAGE_SIZE ∧ allocated_pages b = 0 ∧
    flat fl ≡ₚ zseq (lost (total_pages b)) (total_pages b - lost (total_pages b)).
Proof.
  intros Hb He. unfold init. set (total := (en - bs) / PAGE_SIZE).
  assert (Ht : 0 <= total ∧ bs + total * PAGE_SIZE <= en).
  { unfold total, PAGE_SIZE. dlia. }
  set (b0 := Buddy _ bs en total 0 m).
  assert (Hii : init_inv b0 (replicate 13 []) total 0 12).
  { assert (Hlook : ∀ o l, replicate 13 ([] : list Z) !! o = Some l → l = []).
    { intros o l Hl. by apply lookup_replicate in Hl as [-> _]. }
    constructor; [| cbn; lia | lia | done | | lia | | done].
    - constructor; [unfold geometry; cbn; lia | done | done | | |].
      + intros o h l Hh Hl. apply Hlook in Hl as ->. by apply lookup_replicate in Hh as [-> _].
      + intros o l p Hl Hp. apply Hlook in Hl as ->. by apply not_elem_of_nil in Hp.
      + constructor.
    - intros k Hk. rewrite lookup_replicate. split; [done | lia].
    - intros _. exists []. split_and!; [done | done | lia | lia]. }
  destruct (init_loop_spec (init_fuel total) b0 _ total 0 12 Hii) as (b & fl & E & Hinv & [? ? ? ?] & Hf).
  { unfold init_fuel, MAX_ORDER. lia. }
  exists b, fl. split_and!; try done. cbn in *. congruence.
Qed.

(** ** Counting free pages *)

Lemma count_list_spec fuel b o h l :
  linked (node_next b) h l → (length l <= fuel)%nat →
  count_list fuel b o h = Done (2 ^ o * Z.of_nat (length l)).
Proof.
  revert h l. induction fuel as [| fuel IH]; intros h [| p l] Hl Hlen; cbn in Hl, Hlen; try lia.
  - subst h. cbn. f_equal. lia.
  - subst h. cbn. f_equal. lia.
  - destruct Hl as [-> Hl]. cbn [count_list]. rewrite (IH _ l Hl) by lia.
    cbn [mbind outcome_bind length]. unfold mret, outcome_ret. f_equal. lia.
Qed.

Lemma count_lists_spec b fl k n :
  inv b fl → 0 <= k → k + Z.of_nat n = 13 →
  count_lists b (zseq k (Z.of_nat n)) =
    Done (Z.of_nat (length (flat_from k (drop (Z.to_nat k) fl)))).
Proof.
  intros Hinv. revert k. induction n as [| n IH]; intros k Hk Hn.
  { rewrite zseq_nil by lia. rewrite drop_ge by (rewrite (inv_fl _ _ Hinv); lia). done. }
  replace (Z.of_nat (S n)) with (1 + Z.of_nat n) by lia.
  rewrite zseq_app by lia. change (zseq k 1) with [k + 0]. rewrite Z.add_0_r.
  cbn [app count_lists].
  destruct (inv_lookup b fl k Hinv ltac:(lia)) as (h & l & Hh & Hl & -> & Hlink).
  cbn [mbind outcome_bind].
  rewrite (count_list_spec _ b k h l) by (done || by eapply list_length_bound).
  cbn [mbind outcome_bind]. rewrite IH by lia. cbn [mbind outcome_bind].
  rewrite (drop_S fl l (Z.to_nat k) Hl). cbn [flat_from].
  replace (S (Z.to_nat k)) with (Z.to_nat (k + 1)) by lia.
  rewrite length_app. pose proof (oflat_length k l Hk).
  unfold mret, outcome_ret. f_equal. lia.
Qed.

Lemma count_free_pages_spec b fl :
  inv b fl → count_free_pages b = Done (Z.of_nat (length (flat fl))).
Proof.
  intros Hinv. unfold count_free_pages, MAX_ORDER.
  change (zrange (12 + 1)) with (zseq 0 (Z.of_nat 13)).
  by rewrite (count_lists_spec b fl 0 13 Hinv).
Qed.

(** ** Theorems *)

(** C14. [alloc_pages] on any well-formed free lists: [None] leaves the
    allocator as it was and means that no list from [order] on has a block;
    [Some p] is an aligned block of the region whose pages were all free, and
    exactly those leave the free lists. *)
Theorem alloc_pages_correct (b : buddy) (fl : list (list Z)) (order : Z) :
  inv b fl → 0 <= order <= 12 →
  ∃ r b', alloc_pages b order = Done (r, b') ∧
  match r with
  | None => b' = b ∧ ∀ k, order <= k <= 12 → fl !! Z.to_nat k = Some []
  | Some p => ∃ fl', inv b' fl' ∧ flat fl ≡ₚ pages p order ++ flat fl' ∧
      0 <= p ∧ p + 2 ^ order <= total_pages b ∧ p mod 2 ^ order = 0
  end.
Proof.
  intros Hinv Ho. destruct (alloc_pages_spec b fl order Hinv Ho) as (r & b' & E & Hpost).
  exists r, b'. split; [done |]. destruct r as [p |]; [| done].
  destruct Hpost as (fl' & ? & (? & ? & ? & ?) & ? & _). by exists fl'.
Qed.

(** Freeing a block just allocated brings back the same free pages and
    the same count, whatever was split and merged in between (page 0 being in
    use, so that no list can be headed by it). *)
Theorem alloc_free_roundtrip (b b1 : buddy) (fl : list (list Z)) (order p : Z) :
  inv b fl → 0 ∉ flat fl → 0 <= order <= 12 → fits 63 (allocated_pages b) →
  alloc_pages b order = Done (Some p, b1) →
  ∃ b2 fl2, free_pages b1 p order = Done b2 ∧ inv b2 fl2 ∧ flat fl2 ≡ₚ flat fl ∧
    allocated_pages b2 = allocated_pages b.
Proof.
  intros Hinv Hz Ho Hfit E.
  destruct (alloc_pages_spec b fl order Hinv Ho) as (r & b' & E' & Hpost).
  rewrite E' in E. simplify_eq.
  destruct Hpost as (fl1 & Hinv1 & Hblk & Hperm & _ & _ & Ht & Hall & _).
  pose proof (inv_nodup _ _ Hinv) as Hnd. rewrite Hperm in Hnd.
  apply NoDup_app in Hnd as (_ & Hfresh & _).
  destruct (free_pages_spec b1 fl1 p order Hinv1) as (b2 & fl2 & -> & Hinv2 & _ & Hex & _ & _ & _ & Hal2 & _);
    [unfold block_ok in *; by rewrite Ht | done |].
  exists b2, fl2. split_and!; [done | done | |].
  - rewrite Hperm. apply Hex. intros Hin. apply Hz. rewrite Hperm. set_solver.
  - rewrite Hal2, Hall. unfold fits, wrap in *.
    rewrite Zminus_mod_idemp_l, Z.add_simpl_r. apply Z.mod_small. lia.
Qed.

(** Freeing pages one by one through the buddy allocator. *)
Fixpoint free_all (b : buddy) (ps : list Z) : outcome buddy :=
  match ps with
  | [] => mret b
  | p :: ps' => b' ← free_pages b p 0; free_all b' ps'
  end.

Fixpoint alloc_all (n : nat) (b : buddy) : outcome buddy :=
  match n with
  | O => mret b
  | S n' => r ← alloc_pages b 0; alloc_all n' (snd r)
  end.

(** Below 32 MB pages can be lost later: on a fresh region of four pages,
    allocating all of them and freeing 0, 2, 1, 3 in that order leaves no page
    allocated and only three free; freeing 0, 1, 2, 3 leaves all four. *)
Theorem free_order_loses_page_zero :
  let start := init (λ _, 0) 2147483648 (2147483648 + 4 * PAGE_SIZE) in
  let final ps := (b ← start; b1 ← alloc_all 4 b; b2 ← free_all b1 ps;
                   n ← count_free_pages b2; mret (allocated_pages b2, n)) in
  final [0; 2; 1; 3] = Done (0, 3) ∧ final [0; 1; 2; 3] = Done (0, 4).
Proof. split; vm_compute; reflexivity. Qed.

(** ** A concrete region of sixteen pages *)

Definition ex_base : Z := 2147483648.
Definition ex_end : Z := ex_base + 16 * PAGE_SIZE.

Definition get_done {A} (d : A) (o : outcome A) : A := match o with Done a => a | _ => d end.

Definition ex_buddy : buddy :=
  get_done (Buddy [] 0 0 0 0 (λ _, 0)) (init (λ _, 0) ex_base ex_end).

(** The same sixteen pages with page 0 in use: the free lists hold the rest. *)
Definition ex_buddy1 : buddy := get_done ex_buddy (r ← alloc_pages ex_buddy 0; mret (snd r)).

Definition ex_lists : list (list Z) :=
  [[1]; [2]; [4]; [8]; []; []; []; []; []; []; []; []; []].

Lemma ex_inv : inv ex_buddy1 ex_lists.
Proof.
  constructor.
  - vm_compute. repeat split; congruence.
  - reflexivity.
  - reflexivity.
  - intros o h l Hh Hl.
    do 13 (destruct o as [| o]; [vm_compute in Hh, Hl; simplify_eq; vm_compute; done |]).
    vm_compute in Hl. done.
  - intros o l p Hl Hp. unfold block_ok.
    do 13 (destruct o as [| o];
           [vm_compute in Hl; simplify_eq; rewrite ?list_elem_of_singleton in Hp; subst;
            try (by apply not_elem_of_nil in Hp); vm_compute; repeat split; congruence |]).
    vm_compute in Hl. done.
  - apply (bool_decide_unpack _). vm_compute. exact I.
Qed.

Lemma alloc_pages_correct_witness :
  ∃ r b', alloc_pages ex_buddy1 1 = Done (r, b') ∧
  match r with
  | None => b' = ex_buddy1 ∧ ∀ k, 1 <= k <= 12 → ex_lists !! Z.to_nat k = Some []
  | Some p => ∃ fl', inv b' fl' ∧ flat ex_lists ≡ₚ pages p 1 ++ flat fl' ∧
      0 <= p ∧ p + 2 ^ 1 <= total_pages ex_buddy1 ∧ p mod 2 ^ 1 = 0
  end.
Proof. apply (alloc_pages_correct ex_buddy1 ex_lists 1 ex_inv). lia. Defined.

Definition ex_buddy2 : buddy := get_done ex_buddy1 (r ← alloc_pages ex_buddy1 0; mret (snd r)).

Lemma alloc_free_roundtrip_witness :
  ∃ b2 fl2, free_pages ex_buddy2 1 0 = Done b2 ∧ inv b2 fl2 ∧ flat fl2 ≡ₚ flat ex_lists ∧
    allocated_pages b2 = allocated_pages ex_buddy1.
Proof.
  apply (alloc_free_roundtrip ex_buddy1 ex_buddy2 ex_lists 0 1 ex_inv).
  - apply (bool_decide_unpack _). vm_compute. exact I.
  - lia.
  - vm_compute. split; congruence.
  - vm_compute. reflexivity.
Defined.
