(* ===== verification/PageAlloc.v ===== *)
(** * Ownership of physical pages (kernel/src/mem/buddy.rs)

    The allocator of [Buddy] as the rest of the kernel uses it: any number of
    clients allocate, write to and free blocks of pages, on any hart, through
    the per-hart caches.  A state [sys] pairs the allocator with the blocks
    handed out so far; [sys_step] lists what clients do, including arbitrary
    stores to the memory they hold.

    The theorems: blocks in use never overlap, and every legal request returns
    ([owned_disjoint], [requests_return]); the counters agree with the lists
    ([accounting]); on a region of 32 MB or more, initialisation loses the
    first 16 MB for good ([init_loses_first_block]). *)
From S2P Require Import Prelude Buddy.

(** ** Clients *)

Record sys : Type := Sys {
  kernel : allocator;
  owned : list (Z * Z)
}.

(** The pages of the blocks in use. *)
Definition opages (l : list (Z * Z)) : list Z := mjoin ((λ '(p, o), pages p o) <$> l).

Abbreviation sbuddy s := (ALLOCATOR (kernel s)).

Definition page_of (b : buddy) (addr : Z) : Z := (addr - base b) / PAGE_SIZE.

(** What clients do: take a page or a block, return one they hold, store to
    memory.  A store changes no word of a page of the region that is not in a
    block in use. *)
Inductive sys_step : sys → sys → Prop :=
| step_alloc_page s hart r a' :
    0 <= hart → alloc_page (kernel s) hart = Done (r, a') →
    sys_step s (Sys a' (match r with
                        | Some addr => (page_of (sbuddy s) addr, 0) :: owned s
                        | None => owned s
                        end))
| step_alloc_pages s order r a' :
    0 <= order → alloc_addr (kernel s) order = Done (r, a') →
    sys_step s (Sys a' (match r with
                        | Some addr => (page_of (sbuddy s) addr, order) :: owned s
                        | None => owned s
                        end))
| step_free s hart p o rest a' :
    0 <= hart → owned s ≡ₚ (p, o) :: rest →
    free_page (kernel s) hart (page_to_addr (sbuddy s) p) o = Done a' →
    sys_step s (Sys a' rest)
| step_store s m :
    (∀ q, 0 <= q < total_pages (sbuddy s) → q ∉ opages (owned s) →
          m (page_to_addr (sbuddy s) q) = phys (sbuddy s) (page_to_addr (sbuddy s) q)) →
    sys_step s (Sys (Allocator (set_phys (sbuddy s) m) (CPU_CACHES (kernel s))
                       (CACHE_HITS (kernel s)) (CACHE_MISSES (kernel s))) (owned s)).

(** A kernel that has initialised the allocator on [bs, en). *)
Inductive booted (bs en : Z) : sys → Prop :=
| Booted m b : init m bs en = Done b → booted bs en (Sys (boot b) []).

Definition sys_reachable (bs en : Z) (s : sys) : Prop :=
  ∃ s0, booted bs en s0 ∧ rtc sys_step s0 s.

(** ** The invariant *)

Definition cache_pages (b : buddy) (c : PerCpuPageCache) : list Z :=
  page_of b <$> take (Z.to_nat (count c)) (cached c).

Definition cpages (b : buddy) (cs : list PerCpuPageCache) : list Z :=
  mjoin (cache_pages b <$> cs).

(** The address of a page of the region. *)
Definition page_addr (b : buddy) (addr : Z) : Prop :=
  ∃ p, 0 <= p < total_pages b ∧ addr = base b + p * PAGE_SIZE.

Record cache_ok (b : buddy) (c : PerCpuPageCache) : Prop := {
  co_size : zlen (cached c) = 8;
  co_count : 0 <= count c <= 8;
  co_addrs : Forall (page_addr b) (take (Z.to_nat (count c)) (cached c))
}.

Record sys_inv (s : sys) (fl : list (list Z)) : Prop := {
  si_inv : inv (sbuddy s) fl;
  si_harts : zlen (CPU_CACHES (kernel s)) = 8;
  si_caches : Forall (cache_ok (sbuddy s)) (CPU_CACHES (kernel s));
  si_owned : Forall (λ '(p, o), block_ok (sbuddy s) p o) (owned s);
  si_nodup : NoDup (flat fl ++ cpages (sbuddy s) (CPU_CACHES (kernel s)) ++ opages (owned s));
  si_count : allocated_pages (sbuddy s) =
    Z.of_nat (length (cpages (sbuddy s) (CPU_CACHES (kernel s)))) +
    Z.of_nat (length (opages (owned s)))
}.

(** All pages that some list, cache or client accounts for. *)
Definition accounted (s : sys) (fl : list (list Z)) : list Z :=
  flat fl ++ cpages (sbuddy s) (CPU_CACHES (kernel s)) ++ opages (owned s).

(** The words of the pages [ps] are those from before. *)
Definition keeps (ps : list Z) (b b' : buddy) : Prop :=
  ∀ p x, p ∈ ps → base b + p * PAGE_SIZE <= x < base b + (p + 1) * PAGE_SIZE →
    phys b' x = phys b x.

(** ** Addresses and caches *)

Lemma page_of_addr b p : page_of b (base b + p * PAGE_SIZE) = p.
Proof.
  unfold page_of, PAGE_SIZE. replace (base b + p * 4096 - base b) with (p * 4096) by lia.
  apply Z.div_mul. lia.
Qed.

Lemma pages_0 p : pages p 0 = [p].
Proof. unfold pages. change (zseq p (2 ^ 0)) with [p + 0]. by rewrite Z.add_0_r. Qed.

Lemma opages_cons p o l : opages ((p, o) :: l) = pages p o ++ opages l.
Proof. done. Qed.

Lemma cache_ok_region b b' c : same_region b b' ∨ (base b' = base b ∧ total_pages b' = total_pages b) →
  cache_ok b c → cache_ok b' c.
Proof.
  intros Hr [? ? Ha].
  assert (Hb : base b' = base b ∧ total_pages b' = total_pages b) by (destruct Hr as [[]|]; done).
  destruct Hb as [Hb Ht]. constructor; [done | done |].
  eapply Forall_impl; [exact Ha |]. intros addr (p & Hp & ->). exists p. by rewrite Ht, Hb.
Qed.

Lemma cpages_region b b' cs : base b' = base b → cpages b' cs = cpages b cs.
Proof. intros Hb. unfold cpages, cache_pages, page_of. by rewrite Hb. Qed.

Lemma cache_pop b c :
  cache_ok b c → 0 < count c →
  ∃ addr, aget (cached c) (count c - 1) = Done addr ∧ page_addr b addr ∧
    cache_ok b (PageCache (cached c) (count c - 1)) ∧
    cache_pages b c ≡ₚ page_of b addr :: cache_pages b (PageCache (cached c) (count c - 1)).
Proof.
  intros [Hsz Hcnt Ha] Hpos.
  destruct (aget_in_range (cached c) (count c - 1)) as [addr Hget]; [lia |].
  pose proof Hget as [_ Hlook]%aget_lookup.
  assert (Htake : take (Z.to_nat (count c)) (cached c) =
                  take (Z.to_nat (count c - 1)) (cached c) ++ [addr]).
  { replace (Z.to_nat (count c)) with (S (Z.to_nat (count c - 1))) by lia.
    by apply take_S_r. }
  rewrite Htake, Forall_app, Forall_singleton in Ha. destruct Ha as [Ha1 Ha2].
  exists addr. split_and!; [done | done | |].
  - constructor; cbn; [done | lia | done].
  - unfold cache_pages. cbn [count cached]. rewrite Htake, fmap_app. cbn. solve_Permutation.
Qed.

Lemma cache_push b c addr :
  cache_ok b c → count c < 8 → page_addr b addr →
  ∃ l, aset (cached c) (count c) addr = Done l ∧
    cache_ok b (PageCache l (count c + 1)) ∧
    cache_pages b (PageCache l (count c + 1)) ≡ₚ page_of b addr :: cache_pages b c.
Proof.
  intros [Hsz Hcnt Ha] Hlt Haddr. rewrite aset_in_range by lia.
  eexists. split; [reflexivity |].
  assert (Htake : take (Z.to_nat (count c + 1)) (<[Z.to_nat (count c) := addr]> (cached c)) =
                  take (Z.to_nat (count c)) (cached c) ++ [addr]).
  { replace (Z.to_nat (count c + 1)) with (S (Z.to_nat (count c))) by lia.
    rewrite (take_S_r _ _ addr).
    - by rewrite take_insert_ge.
    - apply list_lookup_insert_eq. unfold zlen in Hsz. lia. }
  split.
  - constructor; cbn; [by rewrite zlen_insert | lia |].
    rewrite Htake. apply Forall_app. by split; [| constructor].
  - unfold cache_pages. cbn [count cached]. rewrite Htake, fmap_app. cbn. solve_Permutation.
Qed.

(** ** Operations preserve the invariant *)

Lemma writes_in_keeps b b' fl qs ps :
  inv b fl → writes_in qs b b' → (∀ q, q ∈ qs → 0 <= q < total_pages b) →
  (∀ p, p ∈ ps → p ∉ qs) → keeps ps b b'.
Proof.
  intros Hinv Hw Hq Hd p x Hp Hx. apply Hw. intros q Hin ->.
  rewrite page_to_addr_eq in Hx; [| apply Hinv | specialize (Hq q Hin); lia].
  unfold PAGE_SIZE in Hx. apply (Hd p Hp). by replace p with q by lia.
Qed.

(** The new state accounts for the same pages of the same region. *)
Record moves (s s' : sys) (fl fl' : list (list Z)) : Prop := {
  mv_inv : sys_inv s' fl';
  mv_base : base (sbuddy s') = base (sbuddy s);
  mv_end : end_ (sbuddy s') = end_ (sbuddy s);
  mv_total : total_pages (sbuddy s') = total_pages (sbuddy s);
  mv_pages : accounted s' fl' ≡ₚ accounted s fl
}.

Lemma sys_geometry s fl : sys_inv s fl → geometry (sbuddy s).
Proof. intros H. apply H. Qed.

Lemma accounted_region s fl x :
  sys_inv s fl → x ∈ accounted s fl → 0 <= x < total_pages (sbuddy s).
Proof.
  intros [Hinv _ Hc Ho _ _]. unfold accounted. rewrite !elem_of_app.
  intros [Hx | [Hx | Hx]]; [by eapply flat_in_region | |].
  - apply list_elem_of_join in Hx as (k & Hx & Hk).
    apply list_elem_of_fmap in Hk as (c & -> & Hcin).
    rewrite Forall_forall in Hc. destruct (Hc c Hcin) as [_ _ Ha].
    apply list_elem_of_fmap in Hx as (addr & -> & Haddr).
    rewrite Forall_forall in Ha. destruct (Ha addr Haddr) as (p & Hp & ->).
    by rewrite page_of_addr.
  - apply list_elem_of_join in Hx as (k & Hx & Hk).
    apply list_elem_of_fmap in Hk as ([p o] & -> & Hpo).
    rewrite Forall_forall in Ho. destruct (Ho _ Hpo) as (? & ? & ? & ?).
    apply elem_of_pages in Hx. lia.
Qed.

Lemma accounted_length s fl :
  sys_inv s fl → Z.of_nat (length (accounted s fl)) <= total_pages (sbuddy s).
Proof.
  intros Hs. pose proof (sys_geometry s fl Hs) as (_ & Ht & _).
  assert (Hsub : accounted s fl ⊆+ zseq 0 (total_pages (sbuddy s))).
  { apply NoDup_submseteq; [apply Hs |]. intros x Hx. apply elem_of_zseq.
    pose proof (accounted_region s fl x Hs Hx). lia. }
  apply submseteq_length in Hsub. rewrite length_zseq in Hsub. lia.
Qed.

(** A hart's cache, and what replacing it does to the cached pages. *)
Lemma hart_cache s fl hart :
  sys_inv s fl → 0 <= hart < 8 →
  ∃ c, aget (CPU_CACHES (kernel s)) hart = Done c ∧ cache_ok (sbuddy s) c ∧
    ∀ c', cache_ok (sbuddy s) c' →
      ∃ cs, aset (CPU_CACHES (kernel s)) hart c' = Done cs ∧ zlen cs = 8 ∧
        Forall (cache_ok (sbuddy s)) cs ∧
        cpages (sbuddy s) cs ++ cache_pages (sbuddy s) c ≡ₚ
        cpages (sbuddy s) (CPU_CACHES (kernel s)) ++ cache_pages (sbuddy s) c'.
Proof.
  intros [_ Hh Hc _ _ _] Hr.
  destruct (aget_in_range (CPU_CACHES (kernel s)) hart) as [c Hget]; [lia |].
  pose proof Hget as [_ Hlook]%aget_lookup.
  exists c. split_and!; [done | by eapply Forall_lookup_1 in Hlook |].
  intros c' Hc'. rewrite aset_in_range by lia. eexists. split_and!; [reflexivity | | |].
  - by rewrite zlen_insert.
  - by apply Forall_insert.
  - by apply join_fmap_insert.
Qed.

(** Moving a page between a cache and a client. *)
Lemma sys_inv_cache s fl cs l h m :
  sys_inv s fl → zlen cs = 8 → Forall (cache_ok (sbuddy s)) cs →
  Forall (λ '(p, o), block_ok (sbuddy s) p o) l →
  cpages (sbuddy s) cs ++ opages l ≡ₚ
    cpages (sbuddy s) (CPU_CACHES (kernel s)) ++ opages (owned s) →
  moves s (Sys (Allocator (sbuddy s) cs h m) l) fl fl.
Proof.
  intros [Hinv Hh Hc Ho Hnd Hcnt] Hlen Hcs Hl Hperm.
  assert (Hacc : accounted (Sys (Allocator (sbuddy s) cs h m) l) fl ≡ₚ accounted s fl).
  { unfold accounted. cbn. by rewrite Hperm. }
  constructor; try done. constructor; cbn [kernel owned ALLOCATOR CPU_CACHES]; try done.
  - unfold accounted in Hacc. cbn in Hacc. by rewrite Hacc.
  - rewrite Hcnt. apply Permutation_length in Hperm. rewrite !length_app in Hperm. lia.
Qed.

Lemma alloc_page_fast_ok s fl hart :
  sys_inv s fl → 0 <= hart →
  ∃ r a', alloc_page_fast (kernel s) hart = Done (r, a') ∧
    ALLOCATOR a' = sbuddy s ∧
    match r with
    | None => a' = kernel s
    | Some addr => page_addr (sbuddy s) addr ∧ ∀ h m, moves s (Sys (Allocator (ALLOCATOR a') (CPU_CACHES a') h m)
                       ((page_of (sbuddy s) addr, 0) :: owned s)) fl fl
    end.
Proof.
  intros Hs Hh. unfold alloc_page_fast, MAX_CPU_HARTS.
  destruct (8 <=? hart) eqn:?; bools; [by exists None, (kernel s) |].
  destruct (hart_cache s fl hart Hs) as (c & -> & Hc & Hset); [lia |]. cbn [mbind outcome_bind].
  destruct (0 <? count c) eqn:Hpos; bools; [| by exists None, (kernel s)].
  destruct (cache_pop _ c Hc Hpos) as (addr & Hget & Haddr & Hc' & Hperm).
  destruct (Hset _ Hc') as (cs & -> & Hlen & Hcs & Hcp). cbn [mbind outcome_bind].
  rewrite Hget. cbn [mbind outcome_bind]. eexists (Some addr), _. split; [reflexivity |].
  split; [done |]. split; [done |].
  intros h m. cbn [ALLOCATOR CPU_CACHES]. apply sys_inv_cache; try done.
  - constructor; [| apply Hs]. destruct Haddr as (p & Hp & ->). rewrite page_of_addr.
    unfold block_ok. change (2 ^ 0) with 1. rewrite Z.mod_1_r. lia.
  - rewrite opages_cons, pages_0. rewrite Hperm in Hcp.
    apply (Permutation_cancel _ _ (cache_pages (sbuddy s) (PageCache (cached c) (count c - 1)))).
    set (k := cache_pages _ (PageCache _ _)) in *.
    trans ((cpages (sbuddy s) cs ++ page_of (sbuddy s) addr :: k) ++ opages (owned s));
      [solve_Permutation |]. rewrite Hcp. solve_Permutation.
Qed.

Lemma free_page_fast_ok s fl hart p rest :
  sys_inv s fl → 0 <= hart → owned s ≡ₚ (p, 0) :: rest →
  ∃ r a', free_page_fast (kernel s) hart (page_to_addr (sbuddy s) p) = Done (r, a') ∧
    ALLOCATOR a' = sbuddy s ∧
    if r : bool then moves s (Sys a' rest) fl fl else a' = kernel s.
Proof.
  intros Hs Hh Hown. unfold free_page_fast, MAX_CPU_HARTS, CPU_CACHE_SIZE.
  destruct (8 <=? hart) eqn:?; bools; [by exists false, (kernel s) |].
  destruct (hart_cache s fl hart Hs) as (c & -> & Hc & Hset); [lia |]. cbn [mbind outcome_bind].
  destruct (count c <? 8) eqn:Hlt; bools; [| by exists false, (kernel s)].
  pose proof (si_owned _ _ Hs) as Ho. rewrite Hown in Ho.
  apply Forall_cons in Ho as [(_ & Hp & Hpe & _) Hrest]. change (2 ^ 0) with 1 in Hpe.
  rewrite page_to_addr_eq by (lia || by eapply sys_geometry).
  destruct (cache_push (sbuddy s) c (base (sbuddy s) + p * PAGE_SIZE) Hc Hlt)
    as (l & -> & Hc' & Hperm); [exists p; lia |].
  cbn [mbind outcome_bind]. rewrite page_of_addr in Hperm.
  destruct (Hset _ Hc') as (cs & -> & Hlen & Hcs & Hcp). cbn [mbind outcome_bind].
  eexists true, _. split; [reflexivity |]. split; [done |]. apply sys_inv_cache; try done.
  transitivity (cpages (sbuddy s) (CPU_CACHES (kernel s)) ++ opages ((p, 0) :: rest)).
  2: { apply Permutation_app_head. unfold opages. by rewrite Hown. }
  rewrite opages_cons, pages_0. rewrite Hperm in Hcp.
  apply (Permutation_cancel _ _ (cache_pages (sbuddy s) c)).
  set (k := cache_pages _ c) in *.
  trans ((cpages (sbuddy s) cs ++ k) ++ opages rest); [solve_Permutation |].
  rewrite Hcp. solve_Permutation.
Qed.

Lemma total_small s fl : sys_inv s fl → total_pages (sbuddy s) < 2 ^ 63.
Proof. intros Hs. destruct (sys_geometry s fl Hs) as (? & ? & ? & ?). unfold PAGE_SIZE in *. lia. Qed.

Lemma length_pages p o : 0 <= o → Z.of_nat (length (pages p o)) = 2 ^ o.
Proof. intros Ho. unfold pages. rewrite length_zseq. pose proof (pow2_pos o Ho). lia. Qed.

(** A block leaves the free lists for a client. *)
Lemma alloc_addr_ok s fl order :
  sys_inv s fl → 0 <= order →
  ∃ r a', alloc_addr (kernel s) order = Done (r, a') ∧
    match r with
    | None => a' = kernel s
    | Some addr => block_ok (sbuddy s) (page_of (sbuddy s) addr) order ∧
        addr = base (sbuddy s) + page_of (sbuddy s) addr * PAGE_SIZE ∧
        keeps (opages (owned s)) (sbuddy s) (ALLOCATOR a') ∧
        ∃ fl', moves s (Sys a' ((page_of (sbuddy s) addr, order) :: owned s)) fl fl'
    end.
Proof.
  intros Hs Ho. unfold alloc_addr.
  destruct (decide (order <= 12)) as [H12 | H12].
  2: { unfold alloc_pages, MAX_ORDER. destruct (12 <? order) eqn:?; bools; [| lia].
       cbn. eexists None, _. split; [reflexivity |]. by destruct (kernel s). }
  destruct (alloc_pages_spec (sbuddy s) fl order) as (r & b' & -> & Hpost); [apply Hs | lia |].
  cbn [mbind outcome_bind fst snd]. destruct r as [p |]; cbn [option_map].
  2: { destruct Hpost as [-> _]. eexists None, _. split; [reflexivity |]. by destruct (kernel s). }
  destruct Hpost as (fl' & Hinv' & Hblk & Hperm & Hb & He & Ht & Hall & Hw).
  pose proof Hs as [Hinv Hh Hc Hown Hnd Hcnt].
  pose proof (sys_geometry s fl Hs) as Hg.
  assert (Haddr : u64 (p * PAGE_SIZE + base b') = base (sbuddy s) + p * PAGE_SIZE).
  { rewrite Hb, Z.add_comm. apply (page_to_addr_eq (sbuddy s)); [done |].
    by eapply block_start_range. }
  eexists (Some _), _. split; [reflexivity |]. rewrite Haddr, page_of_addr.
  split_and!; [done | done | |].
  { eapply writes_in_keeps; [done | done | |].
    - intros q Hq. by eapply flat_in_region.
    - intros q Hq Hin. apply NoDup_app in Hnd as (_ & Hd & _). apply (Hd q Hin). set_solver. }
  exists fl'.
  assert (Hacc : accounted (Sys (Allocator b' (CPU_CACHES (kernel s)) (CACHE_HITS (kernel s))
                   (CACHE_MISSES (kernel s))) ((p, order) :: owned s)) fl' ≡ₚ accounted s fl).
  { unfold accounted. cbn [kernel owned ALLOCATOR CPU_CACHES].
    rewrite opages_cons, (cpages_region (sbuddy s) b'), Hperm by done. solve_Permutation. }
  constructor; try done.
  constructor; cbn [kernel owned ALLOCATOR CPU_CACHES]; try done.
  - eapply Forall_impl; [exact Hc |]. intros c. apply cache_ok_region. auto.
  - constructor; [unfold block_ok in *; by rewrite Ht |].
    eapply Forall_impl; [exact Hown |]. intros [q o]. unfold block_ok. by rewrite Ht.
  - unfold accounted in Hacc. cbn [kernel owned ALLOCATOR CPU_CACHES] in Hacc. by rewrite Hacc.
  - rewrite Hall, Hcnt, (cpages_region (sbuddy s) b'), opages_cons, length_app by done.
    pose proof (length_pages p order Ho).
    pose proof (accounted_length s fl Hs) as Hlen. pose proof (total_small s fl Hs).
    unfold accounted in Hlen. rewrite Hperm, !length_app in Hlen.
    rewrite wrap_small by (unfold fits; lia). lia.
Qed.

Lemma alloc_page_ok s fl hart :
  sys_inv s fl → 0 <= hart →
  ∃ r a', alloc_page (kernel s) hart = Done (r, a') ∧
    keeps (opages (owned s)) (sbuddy s) (ALLOCATOR a') ∧
    (∀ addr, r = Some addr → page_addr (sbuddy s) addr) ∧
    ∃ fl', moves s (Sys a' (match r with
                            | Some addr => (page_of (sbuddy s) addr, 0) :: owned s
                            | None => owned s
                            end)) fl fl'.
Proof.
  intros Hs Hh. unfold alloc_page.
  destruct (alloc_page_fast_ok s fl hart Hs Hh) as (r & a1 & -> & Hb & Hr).
  cbn [mbind outcome_bind fst snd]. destruct r as [addr |].
  { destruct Hr as [Ha Hr]. eexists (Some addr), _. split; [reflexivity |]. cbn [ALLOCATOR].
    split_and!; [by rewrite Hb | by intros ? [= <-] | exists fl; apply Hr]. }
  subst a1.
  set (s1 := Sys (Allocator (sbuddy s) (CPU_CACHES (kernel s)) (CACHE_HITS (kernel s))
               (u64 (CACHE_MISSES (kernel s) + 1))) (owned s)).
  assert (Hs1 : sys_inv s1 fl) by (destruct Hs; by constructor).
  destruct (alloc_addr_ok s1 fl 0 Hs1 ltac:(lia)) as (r & a' & E & Hr').
  change (kernel s1) with (Allocator (sbuddy s) (CPU_CACHES (kernel s)) (CACHE_HITS (kernel s))
               (u64 (CACHE_MISSES (kernel s) + 1))) in E.
  rewrite E. exists r, a'. split; [done |]. destruct r as [addr |].
  - destruct Hr' as ((_ & ? & Hp & _) & Haddr & Hk & fl' & [? ? ? ? ?]). change (2 ^ 0) with 1 in Hp.
    split_and!; [done | | exists fl'; by constructor].
    intros ? [= <-]. eexists. split; [| exact Haddr]. cbn in *. lia.
  - subst a'. split_and!; [done | done | exists fl; by constructor].
Qed.

(** What returning a block can do: all its pages are accounted for again,
    except that a free list headed by page 0 may be dropped. *)
Record returns (s s' : sys) (fl fl' : list (list Z)) : Prop := {
  rt_inv : sys_inv s' fl';
  rt_base : base (sbuddy s') = base (sbuddy s);
  rt_end : end_ (sbuddy s') = end_ (sbuddy s);
  rt_total : total_pages (sbuddy s') = total_pages (sbuddy s);
  rt_pages : accounted s' fl' ⊆+ accounted s fl;
  rt_exact : 0 ∉ flat fl → accounted s' fl' ≡ₚ accounted s fl
}.

Lemma moves_returns s s' fl fl' : moves s s' fl fl' → returns s s' fl fl'.
Proof. intros [? ? ? ? Hp]. constructor; try done. by rewrite Hp. Qed.

Lemma opages_perm l l' : l ≡ₚ l' → opages l ≡ₚ opages l'.
Proof. intros H. unfold opages. by rewrite H. Qed.

Lemma free_block_ok s fl p o rest :
  sys_inv s fl → owned s ≡ₚ (p, o) :: rest →
  ∃ b', free_pages (sbuddy s) (addr_to_page (sbuddy s) (page_to_addr (sbuddy s) p)) o = Done b' ∧
    keeps (opages rest) (sbuddy s) b' ∧
    ∃ fl', returns s (Sys (Allocator b' (CPU_CACHES (kernel s)) (CACHE_HITS (kernel s))
                       (CACHE_MISSES (kernel s))) rest) fl fl'.
Proof.
  intros Hs Hown. pose proof Hs as [Hinv Hh Hc Ho Hnd Hcnt].
  pose proof (sys_geometry s fl Hs) as Hg.
  rewrite Hown in Ho. apply Forall_cons in Ho as [Hblk Hrest].
  pose proof (block_start_range _ _ _ Hblk) as Hp.
  assert (Hpage : addr_to_page (sbuddy s) (page_to_addr (sbuddy s) p) = p).
  { rewrite page_to_addr_eq by done. unfold addr_to_page. rewrite wrap_small.
    - apply page_of_addr.
    - destruct Hg as (? & ? & ? & ?). unfold fits, PAGE_SIZE in *. lia. }
  rewrite Hpage.
  pose proof (opages_perm _ _ Hown) as Hop. rewrite opages_cons in Hop.
  assert (Hfresh : ∀ x, x ∈ pages p o → x ∉ flat fl).
  { intros x Hx Hin. apply NoDup_app in Hnd as (_ & Hd & _). apply (Hd x Hin).
    rewrite Hop. set_solver. }
  destruct (free_pages_spec (sbuddy s) fl p o Hinv Hblk Hfresh)
    as (b' & fl' & -> & Hinv' & Hsub & Hex & Hb & He & Ht & Hall & Hw).
  exists b'. split; [done |]. split.
  { eapply writes_in_keeps; [done | done | |].
    - intros q [Hq%elem_of_pages | Hq]%elem_of_app; [unfold block_ok in Hblk; lia |].
      by eapply flat_in_region.
    - intros q Hq Hin. rewrite Hop in Hnd.
      apply NoDup_app in Hnd as (_ & Hd & (_ & _ & Hnd)%NoDup_app).
      apply elem_of_app in Hin as [Hin | Hin]; [| apply (Hd q Hin); set_solver].
      apply NoDup_app in Hnd as (_ & Hd' & _). by apply (Hd' q Hin). }
  exists fl'.
  set (s' := Sys _ rest).
  assert (Hacc : accounted s' fl' ⊆+ accounted s fl).
  { unfold accounted, s'. cbn [kernel owned ALLOCATOR CPU_CACHES].
    rewrite (cpages_region (sbuddy s) b'), Hop by done.
    trans ((pages p o ++ flat fl) ++ cpages (sbuddy s) (CPU_CACHES (kernel s)) ++ opages rest).
    - by apply submseteq_skips_r.
    - apply Permutation_submseteq. solve_Permutation. }
  constructor; try done.
  - constructor; cbn [s' kernel owned ALLOCATOR CPU_CACHES]; try done.
    + eapply Forall_impl; [exact Hc |]. intros c. apply cache_ok_region. auto.
    + eapply Forall_impl; [exact Hrest |]. intros [q k]. unfold block_ok. by rewrite Ht.
    + eapply NoDup_of_submseteq; [exact Hnd | exact Hacc].
    + rewrite Hall, Hcnt, (cpages_region (sbuddy s) b'), Hop, length_app by done.
      destruct Hblk as (Hor & _).
      pose proof (length_pages p o ltac:(lia)). pose proof (pow2_pos o ltac:(lia)).
      pose proof (accounted_length s fl Hs) as Hlen. pose proof (total_small s fl Hs).
      unfold accounted in Hlen. rewrite Hop, !length_app in Hlen.
      rewrite wrap_small by (unfold fits; lia). lia.
  - intros Hz. unfold accounted, s'. cbn [kernel owned ALLOCATOR CPU_CACHES].
    rewrite (cpages_region (sbuddy s) b'), Hop, (Hex Hz) by done. solve_Permutation.
Qed.

Lemma free_page_ok s fl hart p o rest :
  sys_inv s fl → 0 <= hart → owned s ≡ₚ (p, o) :: rest →
  ∃ a', free_page (kernel s) hart (page_to_addr (sbuddy s) p) o = Done a' ∧
    keeps (opages rest) (sbuddy s) (ALLOCATOR a') ∧
    ∃ fl', returns s (Sys a' rest) fl fl'.
Proof.
  intros Hs Hh Hown. unfold free_page.
  assert (Hslow : ∃ a', (b ← free_pages (sbuddy s)
                    (addr_to_page (sbuddy s) (page_to_addr (sbuddy s) p)) o;
                  mret (Allocator b (CPU_CACHES (kernel s)) (CACHE_HITS (kernel s))
                          (CACHE_MISSES (kernel s)))) = Done a' ∧
            keeps (opages rest) (sbuddy s) (ALLOCATOR a') ∧
            ∃ fl', returns s (Sys a' rest) fl fl').
  { destruct (free_block_ok s fl p o rest Hs Hown) as (b' & -> & Hk & Hr). by eexists. }
  destruct (o =? 0) eqn:Ho; bools; [subst o |].
  - destruct (free_page_fast_ok s fl hart p rest Hs Hh Hown) as (r & a1 & -> & Hb & Hr).
    cbn [mbind outcome_bind fst snd]. destruct r.
    + exists a1. split; [done |]. split; [by rewrite Hb |]. exists fl. by apply moves_returns.
    + subst a1. exact Hslow.
  - exact Hslow.
Qed.

(** Clients' stores do not touch the links of the free lists. *)
Lemma store_ok s fl m :
  sys_inv s fl →
  (∀ q, 0 <= q < total_pages (sbuddy s) → q ∉ opages (owned s) →
        m (page_to_addr (sbuddy s) q) = phys (sbuddy s) (page_to_addr (sbuddy s) q)) →
  moves s (Sys (Allocator (set_phys (sbuddy s) m) (CPU_CACHES (kernel s))
             (CACHE_HITS (kernel s)) (CACHE_MISSES (kernel s))) (owned s)) fl fl.
Proof.
  intros Hs Hm. pose proof Hs as [[Hg Hls Hfl Hlk Hbl Hnf] Hh Hc Ho Hnd Hcnt].
  constructor; try done. constructor; try done.
  2: { eapply Forall_impl; [exact Hc |]. intros c. apply cache_ok_region. auto. }
  constructor; try done.
  intros o h l Hh' Hl. eapply linked_frame; [| by eapply Hlk].
  intros q Hq. change (node_next (set_phys (sbuddy s) m) q = node_next (sbuddy s) q).
  unfold node_next. cbn [phys set_phys].
  change (page_to_addr (set_phys (sbuddy s) m) q) with (page_to_addr (sbuddy s) q).
  rewrite Hm; [done | |].
  - pose proof (Hbl _ _ _ Hl Hq) as (? & ? & ? & _).
    pose proof (pow2_pos (Z.of_nat o)). lia.
  - intros Hin. apply NoDup_app in Hnd as (_ & Hd & _).
    apply (Hd q); [by eapply start_in_flat | set_solver].
Qed.

(** ** Reachable states *)

Lemma sys_step_ok s s' fl :
  sys_inv s fl → sys_step s s' → ∃ fl', returns s s' fl fl'.
Proof.
  intros Hs Hst. destruct Hst as [s hart r a' Hh E | s order r a' Ho E | s hart p o rest a' Hh Hown E | s m Hm].
  - destruct (alloc_page_ok s fl hart Hs Hh) as (r' & a & E' & _ & _ & fl' & Hm).
    rewrite E' in E. simplify_eq. exists fl'. by apply moves_returns.
  - destruct (alloc_addr_ok s fl order Hs Ho) as (r' & a & E' & Hr).
    rewrite E' in E. simplify_eq. destruct r as [addr |].
    + destruct Hr as (_ & _ & _ & fl' & Hm). exists fl'. by apply moves_returns.
    + subst a'. exists fl. apply moves_returns. destruct s. by constructor.
  - destruct (free_page_ok s fl hart p o rest Hs Hh Hown) as (a & E' & _ & fl' & Hr).
    rewrite E' in E. simplify_eq. by exists fl'.
  - exists fl. apply moves_returns. by apply store_ok.
Qed.

(** What holds of a booted kernel, and goes on to hold: the pages accounted
    for are at most those of the region and, when the region had two or more
    blocks of the largest order, exactly those from page 4096 on. *)
Record run_inv (bs en : Z) (s : sys) (fl : list (list Z)) : Prop := {
  ri_inv : sys_inv s fl;
  ri_base : base (sbuddy s) = bs;
  ri_total : total_pages (sbuddy s) = (en - bs) / PAGE_SIZE;
  ri_large : 8192 <= total_pages (sbuddy s) →
    accounted s fl ≡ₚ zseq 4096 (total_pages (sbuddy s) - 4096)
}.

Lemma boot_inv bs en s :
  0 <= bs <= en → en < 2 ^ 63 → booted bs en s → ∃ fl, run_inv bs en s fl.
Proof.
  intros Hb He [m b E].
  destruct (init_spec m bs en Hb He) as (b' & fl & E' & Hinv & Hbase & _ & Ht & Hal & Hflat).
  rewrite E' in E. simplify_eq. exists fl.
  assert (Hc : cpages b (CPU_CACHES (boot b)) = []) by done.
  assert (Hacc : accounted (Sys (boot b) []) fl = flat fl).
  { unfold accounted. cbn [kernel owned ALLOCATOR boot]. rewrite Hc. by rewrite app_nil_r. }
  constructor; try done.
  - constructor; cbn [kernel owned ALLOCATOR boot]; try done.
    + apply Forall_replicate. constructor; [done | done |]. constructor.
    + rewrite Hc. cbn. rewrite app_nil_r. apply Hinv.
  - cbn [kernel ALLOCATOR boot]. intros Hl. rewrite Hacc, Hflat. unfold lost.
    destruct (_ <? 8192) eqn:?; bools; [lia | done].
Qed.

Lemma run_inv_step bs en s s' fl :
  run_inv bs en s fl → sys_step s s' → ∃ fl', run_inv bs en s' fl'.
Proof.
  intros [Hs Hb Ht Hl] Hst. destruct (sys_step_ok s s' fl Hs Hst) as (fl' & [? Hb' ? Ht' ? Hex]).
  exists fl'. constructor; [done | congruence | congruence |].
  intros Hlarge. rewrite Ht' in *. rewrite Hex; [by apply Hl |].
  intros Hz. assert (Hin : 0 ∈ accounted s fl) by (unfold accounted; set_solver).
  rewrite Hl, elem_of_zseq in Hin by done. lia.
Qed.

Lemma reachable_inv bs en s :
  0 <= bs <= en → en < 2 ^ 63 → sys_reachable bs en s → ∃ fl, run_inv bs en s fl.
Proof.
  intros Hb He (s0 & Hboot & Hsteps).
  destruct (boot_inv bs en s0 Hb He Hboot) as [fl Hi]. clear Hboot.
  revert fl Hi. induction Hsteps as [s | s s1 s' Hst _ IH]; intros fl Hi; [by exists fl |].
  destruct (run_inv_step bs en s s1 fl Hi Hst) as [fl1 Hi1]. eauto.
Qed.

(** ** Theorems *)

(** C1. Blocks in use never overlap: in every state that clients can bring
    about, no page belongs to two blocks handed out, and every block lies in
    the region, aligned to its size. *)
Theorem owned_disjoint (bs en : Z) (s : sys) :
  0 <= bs <= en → en < 2 ^ 63 → sys_reachable bs en s →
  NoDup (opages (owned s)) ∧
  Forall (λ '(p, o), 0 <= p ∧ p + 2 ^ o <= (en - bs) / PAGE_SIZE ∧ p mod 2 ^ o = 0) (owned s).
Proof.
  intros Hb He Hr. destruct (reachable_inv bs en s Hb He Hr) as [fl [Hs _ Ht _]].
  destruct Hs as [_ _ _ Ho Hnd _]. split.
  - rewrite !NoDup_app in Hnd. tauto.
  - eapply Forall_impl; [exact Ho |]. intros [p o] (? & ? & ? & ?). rewrite <- Ht. lia.
Qed.

(** Requests return: in every such state an allocation of a page or of a
    block of any order ends, on any hart, and so does returning any block in
    use; none of them panics. *)
Theorem requests_return (bs en : Z) (s : sys) :
  0 <= bs <= en → en < 2 ^ 63 → sys_reachable bs en s →
  (∀ hart, 0 <= hart → ∃ r a', alloc_page (kernel s) hart = Done (r, a')) ∧
  (∀ order, 0 <= order → ∃ r a', alloc_addr (kernel s) order = Done (r, a')) ∧
  (∀ hart p o, 0 <= hart → (p, o) ∈ owned s →
     ∃ a', free_page (kernel s) hart (page_to_addr (sbuddy s) p) o = Done a').
Proof.
  intros Hb He Hr. destruct (reachable_inv bs en s Hb He Hr) as [fl [Hs _ _ _]].
  split_and!.
  - intros hart Hh. destruct (alloc_page_ok s fl hart Hs Hh) as (r & a & E & _). eauto.
  - intros order Ho. destruct (alloc_addr_ok s fl order Hs Ho) as (r & a & E & _). eauto.
  - intros hart p o Hh [rest Hrest]%elem_of_Permutation.
    destruct (free_page_ok s fl hart p o rest Hs Hh Hrest) as (a & E & _). eauto.
Qed.

(** The accounting that [check_memory_invariants] tests: the walk of
    [count_free_pages] ends, and free and allocated pages together never
    exceed the region; on a region of 8192 pages (32 MB) or more they fall
    short of it by exactly 4096 pages, for good. *)
Theorem accounting (bs en : Z) (s : sys) :
  0 <= bs <= en → en < 2 ^ 63 → sys_reachable bs en s →
  ∃ free, count_free_pages (sbuddy s) = Done free ∧
    allocated_pages (sbuddy s) + free <= total_pages (sbuddy s) ∧
    (8192 <= total_pages (sbuddy s) →
     allocated_pages (sbuddy s) + free = total_pages (sbuddy s) - 4096).
Proof.
  intros Hb He Hr. destruct (reachable_inv bs en s Hb He Hr) as [fl [Hs _ _ Hl]].
  exists (Z.of_nat (length (flat fl))). split; [apply count_free_pages_spec, Hs |].
  assert (Hsum : allocated_pages (sbuddy s) + Z.of_nat (length (flat fl)) =
                 Z.of_nat (length (accounted s fl))).
  { rewrite (si_count _ _ Hs). unfold accounted. rewrite !length_app. lia. }
  rewrite Hsum. split; [by apply accounted_length |].
  intros Hlarge. rewrite (Hl Hlarge), length_zseq. lia.
Qed.

(** The first block of the largest order is lost at initialisation: on a
    region of 8192 pages or more, [init] succeeds but leaves only the pages
    from 4096 on in the free lists, and no client is ever given one of the
    first 4096 pages. *)
Theorem init_loses_first_block (bs en : Z) (m : Z → Z) :
  0 <= bs → bs + 8192 * PAGE_SIZE <= en → en < 2 ^ 63 →
  (∃ b, init m bs en = Done b ∧ count_free_pages b = Done (total_pages b - 4096)) ∧
  (∀ s, sys_reachable bs en s → Forall (λ x, 4096 <= x) (opages (owned s))).
Proof.
  intros Hb Hlen He. unfold PAGE_SIZE in Hlen.
  assert (Hbig : 8192 <= (en - bs) / PAGE_SIZE).
  { unfold PAGE_SIZE. apply Z.div_le_lower_bound; lia. }
  split.
  - destruct (init_spec m bs en ltac:(lia) He) as (b & fl & E & Hinv & _ & _ & Ht & _ & Hflat).
    exists b. split; [done |]. rewrite (count_free_pages_spec b fl Hinv), Hflat, length_zseq.
    unfold lost. rewrite Ht. destruct (_ <? 8192) eqn:?; bools; [lia |]. f_equal. lia.
  - intros s Hr. destruct (reachable_inv bs en s ltac:(lia) He Hr) as [fl [Hs _ Ht Hl]].
    rewrite Ht in Hl. specialize (Hl Hbig). apply Forall_forall. intros x Hx.
    assert (Hin : x ∈ accounted s fl) by (unfold accounted; set_solver).
    rewrite Hl, elem_of_zseq in Hin. lia.
Qed.


(** ** A concrete kernel: sixteen pages, one page and one block of four in use,
    another page in the cache of hart 0. *)

Definition ex_sys0 : sys := Sys (boot ex_buddy) [].

Definition ex_sys1 : sys :=
  match alloc_page (kernel ex_sys0) 0 with
  | Done (Some addr, a) => Sys a ((page_of (sbuddy ex_sys0) addr, 0) :: owned ex_sys0)
  | _ => ex_sys0
  end.

Definition ex_sys2 : sys :=
  match alloc_addr (kernel ex_sys1) 2 with
  | Done (Some addr, a) => Sys a ((page_of (sbuddy ex_sys1) addr, 2) :: owned ex_sys1)
  | _ => ex_sys1
  end.

Lemma sys_step_to s s' s'' : sys_step s s'' → s' = s'' → sys_step s s'.
Proof. by intros ? ->. Qed.

Lemma ex_reachable : sys_reachable ex_base ex_end ex_sys2.
Proof.
  exists ex_sys0. split.
  - apply (Booted _ _ (λ _, 0)). vm_compute. reflexivity.
  - eapply rtc_l; [| eapply rtc_l; [| apply rtc_refl]].
    + refine (sys_step_to _ _ _ (step_alloc_page ex_sys0 0 (Some ex_base) (kernel ex_sys1) _ _) _);
        [lia | vm_compute; reflexivity | vm_compute; reflexivity].
    + refine (sys_step_to _ _ _ (step_alloc_pages ex_sys1 2 (Some (ex_base + 4 * PAGE_SIZE))
                                   (kernel ex_sys2) _ _) _);
        [lia | vm_compute; reflexivity | vm_compute; reflexivity].
Qed.

Lemma owned_disjoint_witness :
  owned ex_sys2 = [(4, 2); (0, 0)] ∧ NoDup (opages (owned ex_sys2)).
Proof.
  split; [vm_compute; reflexivity |].
  refine (proj1 (owned_disjoint ex_base ex_end ex_sys2 _ _ ex_reachable));
    unfold ex_end, ex_base, PAGE_SIZE; lia.
Defined.

Lemma requests_return_witness :
  ∃ r a', alloc_page (kernel ex_sys2) 0 = Done (r, a').
Proof.
  refine (proj1 (requests_return ex_base ex_end ex_sys2 _ _ ex_reachable) 0 _);
    unfold ex_end, ex_base, PAGE_SIZE; lia.
Defined.

Lemma accounting_witness :
  ∃ free, count_free_pages (sbuddy ex_sys2) = Done free ∧
    allocated_pages (sbuddy ex_sys2) + free <= total_pages (sbuddy ex_sys2) ∧
    (8192 <= total_pages (sbuddy ex_sys2) →
     allocated_pages (sbuddy ex_sys2) + free = total_pages (sbuddy ex_sys2) - 4096).
Proof.
  apply (accounting ex_base ex_end ex_sys2); [| | exact ex_reachable];
    unfold ex_end, ex_base, PAGE_SIZE; lia.
Defined.

Lemma init_loses_first_block_witness :
  ∃ b, init (λ _, 0) ex_base (ex_base + 8192 * PAGE_SIZE) = Done b ∧
       count_free_pages b = Done (total_pages b - 4096).
Proof.
  refine (proj1 (init_loses_first_block ex_base (ex_base + 8192 * PAGE_SIZE) (λ _, 0) _ _ _));
    unfold ex_base, PAGE_SIZE; lia.
Defined.
