(* ===== verification/Queue.v ===== *)
(** * Vector-backed FIFO queues

    The scheduler ([ThreadQueue], kernel/src/sched/mod.rs) and the IPC
    endpoints ([MessageQueue], kernel/src/ipc/endpoint.rs) carry the same
    queue: a growable vector with the index of its first live element, which
    is compacted once the dead prefix is longer than 64 and at least half of
    the vector.  [vqueue A] models both.  [contents] is the abstract FIFO, and
    the operations refine the list operations on it; [lean] bounds the dead
    prefix by the live elements. *)
From S2P Require Import Prelude.

Record vqueue (A : Type) : Type := VQueue {
  items : list A;
  head : Z;
}.
Arguments VQueue {A} _ _.
Arguments items {A} _.
Arguments head {A} _.

Section vqueue.
Context {A : Type}.
Implicit Types (q : vqueue A) (x : A).

Definition empty_queue : vqueue A := VQueue [] 0.

Definition push_back (q : vqueue A) (x : A) : vqueue A :=
  VQueue (items q ++ [x]) (head q).

(** [items.drain(0..head)], when it is due. *)
Definition compact (q : vqueue A) : vqueue A :=
  if (64 <? head q) && (zlen (items q) / 2 <=? head q)
  then VQueue (drop (Z.to_nat (head q)) (items q)) 0 else q.

Definition pop_front (q : vqueue A) : outcome (option A * vqueue A) :=
  if zlen (items q) <=? head q then Done (None, q) else
  x ← aget (items q) (head q);
  Done (Some x, compact (VQueue (items q) (head q + 1))).

Definition is_empty (q : vqueue A) : bool := zlen (items q) <=? head q.

(** [self.items[self.head..].iter()]. *)
Definition queue_iter (q : vqueue A) : outcome (list A) :=
  aslice (items q) (head q) (zlen (items q)).

(** [Vec::insert]: panics past the end. *)
Definition vec_insert (l : list A) (i : Z) (x : A) : outcome (list A) :=
  if (0 <=? i) && (i <=? zlen l)
  then Done (take (Z.to_nat i) l ++ x :: drop (Z.to_nat i) l) else Panic.

(** The scan of [insert_sorted_by_deadline] over the indices from [i] on: the
    first one whose element has a later key.  [key] dereferences the thread
    pointer. *)
Fixpoint insert_pos (key : A → outcome Z) (deadline : Z) (l : list A) (i : Z)
    (rest : nat) : outcome Z :=
  match rest with
  | O => Done (zlen l)
  | S rest' =>
      x ← aget l i;
      d ← key x;
      if deadline <? d then Done i else insert_pos key deadline l (i + 1) rest'
  end.

Definition insert_sorted_by_deadline (key : A → outcome Z) (q : vqueue A) (x : A)
    (deadline : Z) : outcome (vqueue A) :=
  p ← insert_pos key deadline (items q) (head q)
        (Z.to_nat (zlen (items q) - head q));
  l ← vec_insert (items q) p x;
  Done (VQueue l (head q)).

(** ** The abstract queue *)

Definition contents (q : vqueue A) : list A := drop (Z.to_nat (head q)) (items q).

Record queue_ok (q : vqueue A) : Prop := {
  qo_head : 0 <= head q <= zlen (items q);
  qo_lean : head q <= 64 ∨ head q < zlen (contents q);
}.

(** Where an element of key [d] goes in a queue sorted by key: behind every
    element whose key is not later. *)
Fixpoint insert_by (key : A → Z) (x : A) (l : list A) : list A :=
  match l with
  | [] => [x]
  | y :: l' => if key x <? key y then x :: l else y :: insert_by key x l'
  end.

Lemma empty_queue_ok : queue_ok empty_queue.
Proof. split; cbn; unfold zlen; cbn; lia. Qed.

Lemma zlen_contents q : queue_ok q → zlen (contents q) = zlen (items q) - head q.
Proof. intros [? _]. unfold contents, zlen in *. rewrite length_drop. lia. Qed.

Lemma push_back_spec q x :
  queue_ok q →
  queue_ok (push_back q x) ∧ contents (push_back q x) = contents q ++ [x].
Proof.
  intros Hq. assert (contents (push_back q x) = contents q ++ [x]) as Hc.
  { destruct Hq as [? _]. unfold contents; cbn. apply drop_app_le.
    unfold zlen in *; lia. }
  split; [| done]. pose proof (zlen_contents q Hq). destruct Hq as [? Hl].
  split; rewrite ?Hc; cbn; rewrite ?zlen_app; unfold zlen in *; cbn; lia.
Qed.

Lemma is_empty_spec q : queue_ok q → is_empty q = true ↔ contents q = [].
Proof.
  intros Hq. pose proof (zlen_contents q Hq) as Hz. destruct Hq as [? _].
  unfold is_empty. rewrite Z.leb_le. split; intros H'.
  - apply length_zero_iff_nil. unfold zlen in *; lia.
  - rewrite H' in Hz. unfold zlen in *; cbn in Hz; lia.
Qed.

Lemma compact_spec q :
  0 <= head q <= zlen (items q) →
  queue_ok (compact q) ∧ contents (compact q) = contents q.
Proof.
  intros Hh. unfold compact. destruct (_ && _) eqn:E.
  - split; [| done]. split; unfold contents; cbn; [| by left].
    unfold zlen; rewrite length_drop; lia.
  - split; [| done]. split; [done |].
    apply andb_false_iff in E as [? | ?]; bools; [by left |].
    right. unfold contents, zlen in *. rewrite length_drop. dlia.
Qed.

Lemma pop_front_spec q :
  queue_ok q →
  match contents q with
  | [] => pop_front q = Done (None, q)
  | x :: l => ∃ q', pop_front q = Done (Some x, q') ∧ queue_ok q' ∧ contents q' = l
  end.
Proof.
  intros Hq. pose proof (is_empty_spec q Hq) as He. unfold is_empty in He.
  unfold pop_front. destruct (contents q) as [| x l] eqn:Ec.
  - rewrite (proj2 He) by done. done.
  - destruct (_ <=? _) eqn:E; [by destruct He as [He _]; discriminate He |]. bools.
    destruct Hq as [Hh _]. unfold contents in Ec.
    assert (items q !! Z.to_nat (head q) = Some x) as Hx.
    { rewrite <-(Nat.add_0_r (Z.to_nat _)), <-lookup_drop, Ec. done. }
    rewrite (proj2 (aget_lookup _ _ x)) by (split; [lia | done]).
    cbn [mbind outcome_bind]. eexists; split; [done |].
    destruct (compact_spec (VQueue (items q) (head q + 1))) as [? ->]; [cbn; lia |].
    split; [done |]. unfold contents; cbn.
    rewrite Z2Nat.inj_add, Nat.add_comm by lia.
    by rewrite <-skipn_skipn, Ec.
Qed.

Lemma queue_iter_spec q : queue_ok q → queue_iter q = Done (contents q).
Proof.
  intros [? _]. unfold queue_iter. rewrite aslice_in_range by lia.
  f_equal. apply take_ge. unfold contents, zlen in *. rewrite length_drop. lia.
Qed.

Lemma vec_insert_app (l1 l2 : list A) x :
  vec_insert (l1 ++ l2) (zlen l1) x = Done (l1 ++ x :: l2).
Proof.
  unfold vec_insert. rewrite zlen_app.
  pose proof (zlen_nonneg l1); pose proof (zlen_nonneg l2).
  rewrite (proj2 (Z.leb_le _ _)), (proj2 (Z.leb_le _ _)) by lia. cbn [andb].
  by rewrite to_nat_zlen, take_app_length, drop_app_length.
Qed.

(** The scan finds the position at which [insert_by] puts the element. *)
Lemma insert_pos_spec (key : A → outcome Z) (k : A → Z) x (l1 l2 : list A) :
  Forall (λ y, key y = Done (k y)) l2 →
  ∃ l3 l4, l2 = l3 ++ l4 ∧ insert_by k x l2 = l3 ++ x :: l4 ∧
    insert_pos key (k x) (l1 ++ l2) (zlen l1) (length l2) = Done (zlen (l1 ++ l3)).
Proof.
  intros Hk. revert l1. induction Hk as [| y l2 Hy _ IH]; intros l1; cbn.
  - exists [], []. by rewrite app_nil_r.
  - rewrite (proj2 (aget_lookup _ _ y)); cycle 1.
    { split; [apply zlen_nonneg |]. rewrite to_nat_zlen. by apply list_lookup_middle. }
    cbn [mbind outcome_bind]. rewrite Hy. cbn [mbind outcome_bind].
    destruct (k x <? k y).
    + exists [], (y :: l2). by rewrite app_nil_r.
    + destruct (IH (l1 ++ [y])) as (l3 & l4 & -> & Hins & Hpos).
      exists (y :: l3), l4. split; [done |]. split; [by rewrite Hins |].
      rewrite zlen_app in Hpos. change (zlen [y]) with 1 in Hpos.
      by rewrite <-!app_assoc in Hpos.
Qed.

Lemma insert_sorted_spec (key : A → outcome Z) (k : A → Z) q x :
  queue_ok q → Forall (λ y, key y = Done (k y)) (contents q) →
  ∃ q', insert_sorted_by_deadline key q x (k x) = Done q' ∧ queue_ok q' ∧
    contents q' = insert_by k x (contents q).
Proof.
  intros Hq Hk. set (h := take (Z.to_nat (head q)) (items q)).
  assert (items q = h ++ contents q) as Hi by (symmetry; apply take_drop).
  assert (zlen h = head q) as Hh.
  { subst h. destruct Hq as [? _]. unfold zlen in *. rewrite length_take. lia. }
  destruct (insert_pos_spec key k x h (contents q) Hk) as (l3 & l4 & E & -> & Hp).
  unfold insert_sorted_by_deadline.
  rewrite <-zlen_contents, to_nat_zlen by done.
  rewrite Hi, <-Hh, Hp. cbn [mbind outcome_bind].
  rewrite E, app_assoc, vec_insert_app. cbn [mbind outcome_bind].
  eexists; split; [done |].
  assert (contents (VQueue ((h ++ l3) ++ x :: l4) (zlen h)) = l3 ++ x :: l4) as Hc.
  { unfold contents; cbn. rewrite to_nat_zlen, <-app_assoc. apply drop_app_length. }
  split; [| done]. destruct Hq as [Hr Hl]. split.
  - cbn. rewrite !zlen_app. pose proof (zlen_nonneg l3).
    pose proof (zlen_nonneg (x :: l4)). pose proof (zlen_nonneg h). lia.
  - rewrite Hc. cbn. rewrite Hh. rewrite E in Hl.
    rewrite zlen_app in *. unfold zlen in *; cbn. lia.
Qed.

Lemma insert_by_perm k x l : insert_by k x l ≡ₚ x :: l.
Proof.
  induction l as [| y l IH]; cbn; [done |].
  destruct (_ <? _); [done |]. rewrite IH. apply Permutation_swap.
Qed.

Lemma insert_by_sorted k x l :
  StronglySorted (λ a b, k a <= k b) l →
  StronglySorted (λ a b, k a <= k b) (insert_by k x l).
Proof.
  induction 1 as [| y l Hs IH Hy]; cbn; [by repeat constructor |].
  destruct (_ <? _) eqn:E; bools.
  - constructor; [by constructor |]. constructor; [lia |].
    eapply Forall_impl; [exact Hy |]. cbn; lia.
  - constructor; [done |]. rewrite insert_by_perm. by constructor.
Qed.

(** ** Runs of queue operations *)

Inductive qop : Type := QPush (x : A) | QPop.

Definition queue_step (q : vqueue A) (o : qop) : outcome (option A * vqueue A) :=
  match o with
  | QPush x => Done (None, push_back q x)
  | QPop => pop_front q
  end.

Fixpoint queue_run (q : vqueue A) (os : list qop) : outcome (list (option A) * vqueue A) :=
  match os with
  | [] => Done ([], q)
  | o :: os' =>
      '(r, q') ← queue_step q o;
      '(rs, q'') ← queue_run q' os';
      Done (r :: rs, q'')
  end.

(** The same operations on a plain list. *)
Definition fifo_step (l : list A) (o : qop) : option A * list A :=
  match o, l with
  | QPush x, _ => (None, l ++ [x])
  | QPop, [] => (None, [])
  | QPop, x :: l' => (Some x, l')
  end.

Fixpoint fifo_run (l : list A) (os : list qop) : list (option A) * list A :=
  match os with
  | [] => ([], l)
  | o :: os' =>
      let '(r, l') := fifo_step l o in
      let '(rs, l'') := fifo_run l' os' in (r :: rs, l'')
  end.

Lemma queue_step_refines q o :
  queue_ok q →
  ∃ r q', queue_step q o = Done (r, q') ∧ queue_ok q' ∧
    fifo_step (contents q) o = (r, contents q').
Proof.
  intros Hq. destruct o as [x |]; cbn.
  - destruct (push_back_spec q x Hq) as [? Hc]. eexists _, _. split; [done |].
    by rewrite Hc.
  - pose proof (pop_front_spec q Hq) as Hp. destruct (contents q) as [| x l] eqn:E.
    + eexists _, _. split; [done |]. by rewrite E.
    + destruct Hp as (q' & ? & ? & <-). by eexists _, _.
Qed.

Lemma queue_run_refines os : ∀ q, queue_ok q →
  ∃ rs q', queue_run q os = Done (rs, q') ∧ queue_ok q' ∧
    fifo_run (contents q) os = (rs, contents q').
Proof.
  induction os as [| o os IH]; intros q Hq; cbn [queue_run fifo_run].
  - by eexists _, _.
  - destruct (queue_step_refines q o Hq) as (r & q1 & -> & Hq1 & ->).
    destruct (IH q1 Hq1) as (rs & q2 & E & Hq2 & Ef).
    cbn [mbind outcome_bind]. rewrite E, Ef. by eexists _, _.
Qed.
End vqueue.

Arguments qop : clear implicits.

(** Starting from the empty queue, any sequence of pushes and pops on the
    vector-backed queue gives exactly the results of the same sequence on a
    first-in first-out list, never panics, and never holds more than 64 dead
    elements, or as many as live ones, in front of the live ones: its vector
    stays within twice the live length plus 64. *)
Theorem queue_refines_fifo {A : Type} (os : list (qop A)) :
  ∃ rs q, queue_run empty_queue os = Done (rs, q) ∧
    fifo_run [] os = (rs, contents q) ∧
    zlen (items q) <= 2 * zlen (contents q) + 64.
Proof.
  destruct (queue_run_refines os empty_queue empty_queue_ok) as (rs & q & Hr & Hq & Hf).
  exists rs, q. split; [done |]. split; [done |].
  pose proof (zlen_contents q Hq). destruct Hq as [? Hl]. lia.
Qed.
