(* ===== verification/Proc.v ===== *)
(** * Threads and processes

    The data of kernel/src/proc/thread.rs, proc/process.rs and the trap frame
    of trap/mod.rs, with the constructors [Thread::new], [Thread::new_idle]
    and [Process::new], and the register save and restore of
    [context_switch] (proc/switch.rs).

    A [*mut Thread] is an address, a [Z]; the threads themselves live in a
    heap [gmap Z Thread] that the scheduler and the endpoints share, so that
    two holders of a pointer see each other's writes.  [Process.thread] is
    then the address of the thread stored in the process. *)
From S2P Require Import Prelude.

Inductive ThreadState : Type := TReady | TRunning | TWaiting | TDead.
#[export] Instance ThreadState_eq_dec : EqDecision ThreadState.
Proof. solve_decision. Defined.

Inductive PreemptMode : Type := PNone | PLazy | PImmediate.
#[export] Instance PreemptMode_eq_dec : EqDecision PreemptMode.
Proof. solve_decision. Defined.

Inductive WaitTarget : Type := WEndpoint (ep : Z) | WCallReply (ep : Z).

(** The callee-saved registers and the page table root of a thread. *)
Record TaskContext : Type := MkTaskContext {
  tc_ra : Z; tc_sp : Z; tc_s0 : Z; tc_s1 : Z; tc_s2 : Z; tc_s3 : Z; tc_s4 : Z;
  tc_s5 : Z; tc_s6 : Z; tc_s7 : Z; tc_s8 : Z; tc_s9 : Z; tc_s10 : Z; tc_s11 : Z;
  tc_satp : Z;
}.
#[export] Instance TaskContext_eta : Eta TaskContext := λ c,
  MkTaskContext (tc_ra c) (tc_sp c) (tc_s0 c) (tc_s1 c) (tc_s2 c) (tc_s3 c) (tc_s4 c)
    (tc_s5 c) (tc_s6 c) (tc_s7 c) (tc_s8 c) (tc_s9 c) (tc_s10 c) (tc_s11 c) (tc_satp c).

Definition TaskContext_empty : TaskContext :=
  MkTaskContext 0 0 0 0 0 0 0 0 0 0 0 0 0 0 0.

Record TrapFrame : Type := MkTrapFrame {
  tf_ra : Z; tf_gp : Z; tf_tp : Z; tf_t0 : Z; tf_t1 : Z; tf_t2 : Z; tf_s0 : Z;
  tf_s1 : Z; tf_a0 : Z; tf_a1 : Z; tf_a2 : Z; tf_a3 : Z; tf_a4 : Z; tf_a5 : Z;
  tf_a6 : Z; tf_a7 : Z; tf_s2 : Z; tf_s3 : Z; tf_s4 : Z; tf_s5 : Z; tf_s6 : Z;
  tf_s7 : Z; tf_s8 : Z; tf_s9 : Z; tf_s10 : Z; tf_s11 : Z; tf_t3 : Z; tf_t4 : Z;
  tf_t5 : Z; tf_t6 : Z; tf_sepc : Z; tf_sstatus : Z; tf_satp : Z; tf_user_sp : Z;
  tf_stval : Z;
}.
#[export] Instance TrapFrame_eta : Eta TrapFrame := λ f,
  MkTrapFrame (tf_ra f) (tf_gp f) (tf_tp f) (tf_t0 f) (tf_t1 f) (tf_t2 f) (tf_s0 f)
    (tf_s1 f) (tf_a0 f) (tf_a1 f) (tf_a2 f) (tf_a3 f) (tf_a4 f) (tf_a5 f)
    (tf_a6 f) (tf_a7 f) (tf_s2 f) (tf_s3 f) (tf_s4 f) (tf_s5 f) (tf_s6 f)
    (tf_s7 f) (tf_s8 f) (tf_s9 f) (tf_s10 f) (tf_s11 f) (tf_t3 f) (tf_t4 f)
    (tf_t5 f) (tf_t6 f) (tf_sepc f) (tf_sstatus f) (tf_satp f) (tf_user_sp f)
    (tf_stval f).

Definition TrapFrame_default : TrapFrame :=
  MkTrapFrame 0 0 0 0 0 0 0 0 0 0 0 0 0 0 0 0 0 0 0 0 0 0 0 0 0 0 0 0 0 0 0 0 0 0 0.

Record VectorState : Type := MkVectorState {
  v_regs : list Z; vcsr : Z; vstart : Z; vxsat : Z; vxrm : Z; vtype : Z; vl : Z;
  dirty : bool;
}.

Definition VectorState_new : VectorState :=
  MkVectorState (replicate 1024 0) 0 0 0 0 0 0 false.

Record Thread : Type := MkThread {
  tid : Z;
  owner : Z;
  state : ThreadState;
  base_priority : Z;
  effective_priority : Z;
  task_ctx : TaskContext;
  trap_frame : option TrapFrame;
  kernel_stack_top : Z;
  wait_target : option WaitTarget;
  node_id : Z;
  vruntime : Z;
  deadline : Z;
  weight : Z;
  preempt_mode : PreemptMode;
  remaining_ticks : Z;
  last_cpu : Z;
  proxy_target : option Z;
  proxy_donor : option Z;
  slice_extension_enabled : bool;
  slice_extension_count : Z;
  vector_state : VectorState;
}.
#[export] Instance Thread_eta : Eta Thread := λ t,
  MkThread (tid t) (owner t) (state t) (base_priority t) (effective_priority t)
    (task_ctx t) (trap_frame t) (kernel_stack_top t) (wait_target t) (node_id t)
    (vruntime t) (deadline t) (weight t) (preempt_mode t) (remaining_ticks t)
    (last_cpu t) (proxy_target t) (proxy_donor t) (slice_extension_enabled t)
    (slice_extension_count t) (vector_state t).

(** [Thread::new]; [ret] is the address of [user_trap_return]. *)
Definition Thread_new (ret tid0 owner0 priority entry tf_sp satp_val : Z) : Thread :=
  let tf := TrapFrame_default <| tf_sepc := entry |>
              <| tf_sstatus := Z.lor (Z.shiftl 1 5) (Z.shiftl 1 18) |>
              <| tf_satp := satp_val |> in
  let ctx := TaskContext_empty <| tc_ra := ret |> <| tc_sp := tf_sp |>
               <| tc_satp := satp_val |> in
  MkThread tid0 owner0 TReady priority priority ctx (Some tf) (u64 (tf_sp + 280)) None
    0 0 0 (u32 ((priority + 1) * 8)) PLazy 1 0 None None false 0 VectorState_new.

(** [Thread::new_idle]; [kernel_satp] is the [satp] register. *)
Definition Thread_new_idle (kernel_satp : Z) : Thread :=
  MkThread 0 0 TReady 0 0 (TaskContext_empty <| tc_satp := kernel_satp |>) None 0 None
    0 0 0 8 PNone 0 0 None None false 0 VectorState_new.

Inductive ProcessState : Type := PsReady | PsRunning | PsWaiting | PsDead.
#[export] Instance ProcessState_eq_dec : EqDecision ProcessState.
Proof. solve_decision. Defined.

Record Process : Type := MkProcess {
  pid : Z;
  p_state : ProcessState;
  p_base_priority : Z;
  page_table_root : Z;
  thread : option Z;
  parent : option Z;
  cnode_id : Z;
  uid : Z;
  gid : Z;
  umask : Z;
}.
#[export] Instance Process_eta : Eta Process := λ p,
  MkProcess (pid p) (p_state p) (p_base_priority p) (page_table_root p) (thread p)
    (parent p) (cnode_id p) (uid p) (gid p) (umask p).

(** The mask 0o022 is 18. *)
Definition Process_new (pid0 priority page_table_root0 cnode_id0 uid0 gid0 : Z) : Process :=
  MkProcess pid0 PsReady priority page_table_root0 None None cnode_id0 uid0 gid0 18.

(** [procs.iter().find(|p| p.pid == pid)]. *)
Definition find_pid (procs : list Process) (p : Z) : option Process :=
  snd <$> list_find (λ q, pid q = p) procs.

(** ** The thread heap *)

Abbreviation heap := (gmap Z Thread).

(** [*t]: reading through an invalid pointer is undefined behaviour, modelled
    as a panic. *)
Definition deref (hp : heap) (t : Z) : outcome Thread := unwrap (hp !! t).

(** [*t = v]. *)
Definition store (hp : heap) (t : Z) (v : Thread) : outcome heap :=
  _ ← deref hp t; Done (<[t := v]> hp).

(** ** The context switch

    [context_switch(old, new)]: the registers [regs] of the hart go to the
    context of [old], the context of [new] goes to the registers.  The result
    is the heap and the registers the hart goes on with. *)
Definition context_switch (hp : heap) (regs : TaskContext) (old new : Z)
    : outcome (heap * TaskContext) :=
  o ← deref hp old;
  hp1 ← store hp old (o <| task_ctx := regs |>);
  n ← deref hp1 new;
  Done (hp1, task_ctx n).

Lemma deref_Some hp t th : deref hp t = Done th ↔ hp !! t = Some th.
Proof. unfold deref. destruct (hp !! t); cbn; split; intros H; by inversion H. Qed.

Lemma find_pid_Some procs p q : find_pid procs p = Some q → q ∈ procs ∧ pid q = p.
Proof.
  unfold find_pid. destruct (list_find _ procs) as [[i x] |] eqn:E; cbn; [| done].
  intros [= <-]. apply list_find_Some in E as (Hi & Hx & _).
  split; [by eapply list_elem_of_lookup_2 | done].
Qed.
