(* ===== verification/Cap.v ===== *)
(** * Capabilities

    kernel/src/cap/{types,mod,ops}.rs, the capability syscalls of
    kernel/src/syscall/cap.rs, the slot allocation of [sys_ep_create]
    (syscall/ipc.rs) and of [sys_cap_vector_enable] (syscall/proc.rs), the
    CNode creation of [spawn] and [fork_child] (proc/mod.rs), and the
    capability audit log (security/mod.rs).

    Every static is a field of [caps]; a [spin::Mutex] is a name of [cap_lock],
    and the operations take and release the locks in the order of the code, so
    that taking one twice shows as a deadlock.  The [&'static Resource] that
    [get_resource] leaks is the resource's index.  The thread that runs is
    known by the pid of its owner ([current_owner]); [current_thread] takes the
    scheduler's lock and releases it before returning.

    In every reachable state the slots name live resources with enough references
    ([reachable_caps_live]); deletion takes one reference and revocation one from
    every derived resource as well ([sys_delete_correct], [revoke_correct]); a mint
    that passes its checks deadlocks ([sys_mint_never_succeeds]). *)
From S2P Require Import Prelude Proc.

Module Cap.

(** ** Types (cap/types.rs) *)

Inductive CapType : Type := CNull | CMem | CEP | CProc | CCNode | CVector.
#[export] Instance CapType_eq_dec : EqDecision CapType.
Proof. solve_decision. Defined.

Definition RIGHT_READ : Z := 1.
Definition RIGHT_WRITE : Z := 2.
Definition RIGHT_EXEC : Z := 4.
Definition RIGHT_MAP : Z := 8.
Definition RIGHT_SEND : Z := 16.
Definition RIGHT_RECV : Z := 32.
Definition RIGHT_SPAWN : Z := 64.
Definition RIGHT_KILL : Z := 128.

Record Slot : Type := MkSlot { cap_type : CapType; rights : Z; resource_id : Z }.

Definition Slot_null : Slot := MkSlot CNull 0 0.

Inductive ResourceData : Type :=
| RNull
| RMem (phys_addr size : Z)
| REP (ep_id : Z)
| RProc (pid : Z)
| RCNode (slots : list Slot)
| RVector (pid : Z).

Record Resource : Type := MkResource {
  ref_count : Z;
  res_type : CapType;
  derivation_parent : option Z;
  derivation_children : list Z;
  data : ResourceData;
}.
#[export] Instance Resource_eta : Eta Resource := λ r,
  MkResource (ref_count r) (res_type r) (derivation_parent r) (derivation_children r) (data r).

(** ** State *)

Record caps : Type := MkCaps {
  RESOURCES : list (option Resource);
  NEXT_RESOURCE_ID : Z;
  PROCESSES : list Process;
  current_owner : option Z;
  CAP_AUDIT_LOG : list (Z * Z * Z * Z);
  CAP_AUDIT_IDX : Z;
  TICK_COUNT : Z;
}.
#[export] Instance caps_eta : Eta caps := λ c,
  MkCaps (RESOURCES c) (NEXT_RESOURCE_ID c) (PROCESSES c) (current_owner c)
    (CAP_AUDIT_LOG c) (CAP_AUDIT_IDX c) (TICK_COUNT c).

Inductive cap_lock : Type :=
| LResources | LNextId | LProcesses
| LRefCount (id : Z) | LParent (id : Z) | LChildren (id : Z) | LSlots (id : Z).
#[export] Instance cap_lock_eq_dec : EqDecision cap_lock.
Proof. solve_decision. Defined.

Abbreviation M := (cmd cap_lock caps).

(** [resources.get(id)], flattened: the resource, when the index is in range
    and the entry is occupied. *)
Definition res_at (rs : list (option Resource)) (id : Z) : option Resource :=
  if id <? 0 then None else mjoin (rs !! Z.to_nat id).

(** Access through a [&Resource]. *)
Definition the_resource (id : Z) : M Resource :=
  s ← get; lift (unwrap (res_at (RESOURCES s) id)).

Definition set_resource (id : Z) (r : option Resource) : M () :=
  s ← get;
  rs ← lift (aset (RESOURCES s) id r);
  modify (λ s, s <| RESOURCES := rs |>).

Definition slots_of (d : ResourceData) : option (list Slot) :=
  match d with RCNode s => Some s | _ => None end.

Definition set_slots (id : Z) (sl : list Slot) : M () :=
  r ← the_resource id; set_resource id (Some (r <| data := RCNode sl |>)).

(** [while v.len() <= i { v.push(x) }]. *)
Definition push_until {A} (v : list A) (i : Z) (x : A) : list A :=
  v ++ replicate (Z.to_nat (i + 1 - zlen v)) x.

(** ** Operations (cap/ops.rs) *)

Definition alloc_resource (ty : CapType) (d : ResourceData) : M Z :=
  with_lock LNextId (
    id ← gets NEXT_RESOURCE_ID;
    _ ← modify (λ s, s <| NEXT_RESOURCE_ID := u64 (id + 1) |>);
    with_lock LResources (
      _ ← modify (λ s, s <| RESOURCES := push_until (RESOURCES s) id None |>);
      _ ← set_resource id (Some (MkResource 1 ty None [] d));
      mret id)).

(** The index when the resource is live. *)
Definition get_resource (id : Z) : M (option Z) :=
  with_lock LResources (
    s ← get;
    mret (if res_at (RESOURCES s) id then Some id else None)).

Definition inc_ref (id : Z) : M () :=
  with_lock LResources (
    s ← get;
    o ← lift (aget (RESOURCES s) id);
    match o with
    | Some r =>
        with_lock (LRefCount id)
          (set_resource id (Some (r <| ref_count := u64 (ref_count r + 1) |>)))
    | None => mret ()
    end).

Definition dec_ref (id : Z) : M () :=
  with_lock LResources (
    s ← get;
    match res_at (RESOURCES s) id with
    | Some r =>
        let n := u64 (ref_count r - 1) in
        _ ← with_lock (LRefCount id) (set_resource id (Some (r <| ref_count := n |>)));
        if n =? 0 then set_resource id None else mret ()
    | None => mret ()
    end).

Definition duplicate_resource_data_inner (id : Z) : M (option ResourceData) :=
  with_lock LResources (
    s ← get;
    match res_at (RESOURCES s) id with
    | None => mret None
    | Some r =>
        _ ← inc_ref id;
        match data r with
        | RCNode sl => with_lock (LSlots id) (mret (Some (RCNode sl)))
        | d => mret (Some d)
        end
    end).

(** The checks at the start of [mint]: the source slot, when there is one that
    carries all the desired rights. *)
Definition mint_source (cnode src_idx desired : Z) : M (option Slot) :=
  s ← get;
  match res_at (RESOURCES s) cnode with
  | None => mret None
  | Some r =>
      match slots_of (data r) with
      | None => mret None
      | Some sl =>
          with_lock (LSlots cnode) (
            match sl !! Z.to_nat src_idx with
            | None => mret None
            | Some src =>
                if bool_decide (cap_type src = CNull) then mret None
                else if negb (Z.land desired (rights src) =? desired) then mret None
                else mret (Some src)
            end)
      end
  end.

Definition mint (cnode src_idx desired : Z) : M (option Slot) :=
  with_lock LResources (
    src ← mint_source cnode src_idx desired;
    match src with
    | None => mret None
    | Some src =>
        d ← duplicate_resource_data_inner (resource_id src);
        match d with
        | None => mret None
        | Some d =>
            child ← alloc_resource (cap_type src) d;
            s ← get;
            p ← lift (aget (RESOURCES s) (resource_id src));
            _ ← match p with
                | Some r =>
                    with_lock (LChildren (resource_id src))
                      (set_resource (resource_id src)
                         (Some (r <| derivation_children := derivation_children r ++ [child] |>)))
                | None => mret ()
                end;
            s ← get;
            c ← lift (aget (RESOURCES s) child);
            _ ← match c with
                | Some r =>
                    with_lock (LParent child)
                      (set_resource child
                         (Some (r <| derivation_parent := Some (resource_id src) |>)))
                | None => mret ()
                end;
            mret (Some (MkSlot (cap_type src) desired child))
        end
    end).

(** The slots of a CNode, with the errors of [copy_cap]. *)
Definition cnode_slots (id : Z) (not_found freed not_cnode : string)
    : M (result string (list Slot)) :=
  s ← get;
  mret (if zlen (RESOURCES s) <=? id then Err not_found else
        match res_at (RESOURCES s) id with
        | None => Err freed
        | Some r =>
            match slots_of (data r) with Some sl => Ok sl | None => Err not_cnode end
        end).

Definition copy_cap (src_cnode src_idx dst_cnode dst_idx : Z) : M (result string ()) :=
  with_lock LResources (
    sl ←? cnode_slots src_cnode "src cnode not found" "src cnode freed" "src not a cnode";
    src ← with_lock (LSlots src_cnode) (mret (default Slot_null (sl !! Z.to_nat src_idx)));
    if bool_decide (cap_type src = CNull) then mret (Err "src slot null"%string) else
    _ ← inc_ref (resource_id src);
    s ← get;
    if zlen (RESOURCES s) <=? dst_cnode then mret (Err "dst cnode not found"%string) else
    match res_at (RESOURCES s) dst_cnode with
    | None => mret (Err "dst cnode freed"%string)
    | Some r =>
        match slots_of (data r) with
        | Some dl =>
            _ ← with_lock (LSlots dst_cnode)
                  (set_slots dst_cnode
                     (<[Z.to_nat dst_idx := src]> (push_until dl dst_idx Slot_null)));
            mret (Ok ())
        | None => mret (Ok ())
        end
    end).

Definition move_cap (src_cnode src_idx dst_cnode dst_idx : Z) : M (result string ()) :=
  _ ←? copy_cap src_cnode src_idx dst_cnode dst_idx;
  with_lock LResources (
    r ← the_resource src_cnode;
    match slots_of (data r) with
    | Some sl =>
        _ ← with_lock (LSlots src_cnode)
              (sl' ← lift (aset sl src_idx Slot_null); set_slots src_cnode sl');
        mret (Ok ())
    | None => mret (Ok ())
    end).

Fixpoint revoke_children (rev : Z → M ()) (children : list Z) : M () :=
  match children with
  | [] => mret ()
  | c :: cs => _ ← rev c; revoke_children rev cs
  end.

Fixpoint revoke (fuel : nat) (id : Z) : M () :=
  match fuel with
  | O => lift OutOfFuel
  | S fuel' =>
      _ ← lock LResources;
      s ← get;
      o ← lift (aget (RESOURCES s) id);
      match o with
      | Some r =>
          children ← with_lock (LChildren id) (mret (derivation_children r));
          _ ← unlock LResources;
          _ ← revoke_children (revoke fuel') children;
          dec_ref id
      | None => unlock LResources
      end
  end.

Definition delete_cap (cnode slot_idx : Z) : M (result string ()) :=
  _ ← lock LResources;
  r ← cnode_slots cnode "cnode not found" "cnode freed" "not a cnode";
  match r with
  | Err e => _ ← unlock LResources; mret (Err e)
  | Ok sl =>
      _ ← lock (LSlots cnode);
      match sl !! Z.to_nat slot_idx with
      | Some x =>
          _ ← set_slots cnode (<[Z.to_nat slot_idx := Slot_null]> sl);
          _ ← unlock (LSlots cnode);
          _ ← unlock LResources;
          _ ← dec_ref (resource_id x);
          mret (Ok ())
      | None =>
          _ ← unlock (LSlots cnode);
          _ ← unlock LResources;
          mret (Err "slot out of range"%string)
      end
  end.

(** [cap::init]. *)
Definition init : M () :=
  with_lock LResources (modify (λ s, s <| RESOURCES := RESOURCES s ++ [None] |>)).

(** ** The audit log (security/mod.rs) *)

Definition cap_audit_log (pid0 operation slot : Z) : M () :=
  s ← get;
  l ← lift (aset (CAP_AUDIT_LOG s) (CAP_AUDIT_IDX s mod 256)
              (pid0, operation, slot, TICK_COUNT s));
  modify (λ s, s <| CAP_AUDIT_LOG := l |> <| CAP_AUDIT_IDX := u64 (CAP_AUDIT_IDX s + 1) |>).

(** One 24-byte record: pid, operation, slot, timestamp, little endian. *)
Definition audit_record (e : Z * Z * Z * Z) : list Z :=
  let '(p, op, slot, ts) := e in
  le_bytes 4 p ++ le_bytes 4 op ++ le_bytes 8 slot ++ le_bytes 8 ts.

Fixpoint cap_audit_read_loop (s : caps) (ids : list Z) (buf : list Z) (pos : Z)
    : outcome (Z * list Z) :=
  match ids with
  | [] => Done (pos, buf)
  | i :: ids' =>
      if zlen buf <? pos + 24 then Done (pos, buf) else
      e ← aget (CAP_AUDIT_LOG s) i;
      buf' ← asplice buf pos (audit_record e);
      cap_audit_read_loop s ids' buf' (pos + 24)
  end.

(** The bytes written and the buffer. *)
Definition cap_audit_read (s : caps) (buf : list Z) : outcome (Z * list Z) :=
  cap_audit_read_loop s (zseq 0 (Z.min (CAP_AUDIT_IDX s) 256)) buf 0.

(** ** Syscalls (syscall/cap.rs) *)

Definition caller_pid : M Z := o ← gets current_owner; mret (default 0 o).

Definition proc_cnode (p : Z) (e : string) : M (result string Z) :=
  with_lock LProcesses (
    s ← get; mret (ok_or (cnode_id <$> find_pid (PROCESSES s) p) e)).

Definition caller_cnode : M (result string Z) :=
  p ← caller_pid; proc_cnode p "no process".

(** The rights of the parent slot as [sys_mint] reads them. *)
Definition parent_rights (cnode src_idx : Z) : M (result string Z) :=
  res ← get_resource cnode;
  match res with
  | None => mret (Err "cnode gone"%string)
  | Some id =>
      r ← the_resource id;
      match slots_of (data r) with
      | Some sl =>
          with_lock (LSlots id) (
            mret (Ok (default 0 (rights <$> sl !! Z.to_nat src_idx))))
      | None => mret (Ok 0)
      end
  end.

(** [s.push(slot); s.len() - 1] on the slots of the CNode. *)
Definition append_slot (cnode : Z) (x : Slot) : M (result string Z) :=
  res ← get_resource cnode;
  match res with
  | None => mret (Err "cnode gone"%string)
  | Some id =>
      r ← the_resource id;
      match slots_of (data r) with
      | Some sl =>
          with_lock (LSlots id) (
            _ ← set_slots id (sl ++ [x]); mret (Ok (zlen (sl ++ [x]) - 1)))
      | None => mret (Err "mint: cnode resource invalid"%string)
      end
  end.

Definition sys_mint (src_idx desired : Z) : M (result string Z) :=
  cnode ←? caller_cnode;
  parent ←? parent_rights cnode src_idx;
  if negb (Z.ldiff desired parent =? 0) then
    p ← caller_pid;
    _ ← cap_audit_log p 4 src_idx;
    mret (Err "rights escalation denied"%string)
  else
    o ← mint cnode src_idx desired;
    match o with
    | None => mret (Err "mint failed"%string)
    | Some x => append_slot cnode x
    end.

Definition sys_copy (src_idx dst_pid dst_idx : Z) : M (result string Z) :=
  src ←? caller_cnode;
  dst ←? proc_cnode dst_pid "dst process not found";
  _ ←? copy_cap src src_idx dst dst_idx;
  mret (Ok 0).

Definition sys_move (src_idx dst_pid dst_idx : Z) : M (result string Z) :=
  src ←? caller_cnode;
  dst ←? proc_cnode dst_pid "dst process not found";
  _ ←? move_cap src src_idx dst dst_idx;
  mret (Ok 0).

Definition sys_delete (slot_idx : Z) : M (result string Z) :=
  cnode ←? caller_cnode;
  _ ←? delete_cap cnode slot_idx;
  mret (Ok 0).

(** The counters of [sys_cap_stats]: used slots, endpoint and memory caps. *)
Fixpoint count_caps (sl : list Slot) (used ep mem : Z) : Z * Z * Z :=
  match sl with
  | [] => (used, ep, mem)
  | x :: sl' =>
      match cap_type x with
      | CNull => count_caps sl' used ep mem
      | CEP => count_caps sl' (used + 1) (ep + 1) mem
      | CMem => count_caps sl' (used + 1) ep (mem + 1)
      | _ => count_caps sl' (used + 1) ep mem
      end
  end.

Definition pack_stats (total used ep mem : Z) : Z :=
  Z.lor (Z.lor (Z.lor (Z.land total 0xFFFF)
                      (u64 (Z.shiftl (Z.land used 0xFFFF) 16)))
               (u64 (Z.shiftl (Z.land ep 0xFFFF) 32)))
        (u64 (Z.shiftl (Z.land mem 0xFFFF) 48)).

Definition sys_cap_stats : M (result string Z) :=
  cnode ←? caller_cnode;
  res ← get_resource cnode;
  match res with
  | None => mret (Err "no cnode"%string)
  | Some id =>
      r ← the_resource id;
      match slots_of (data r) with
      | Some sl =>
          with_lock (LSlots id) (
            let '(used, ep, mem) := count_caps sl 0 0 0 in
            mret (Ok (pack_stats (zlen sl) used ep mem)))
      | None => mret (Err "not a cnode"%string)
      end
  end.

(** ** Slots handed out by other syscalls *)

(** Overwrite the first null slot. *)
Fixpoint fill_null (sl : list Slot) (x : Slot) : option (list Slot) :=
  match sl with
  | [] => None
  | y :: sl' =>
      if bool_decide (cap_type y = CNull) then Some (x :: sl')
      else cons y <$> fill_null sl' x
  end.

(** [store_ep_cap] (syscall/ipc.rs). *)
Definition store_ep_cap (ep_res_id : Z) : M bool :=
  c ← caller_cnode;
  match c with
  | Err _ => mret false
  | Ok cnode =>
      res ← get_resource cnode;
      match res with
      | None => mret false
      | Some id =>
          r ← the_resource id;
          match slots_of (data r) with
          | Some sl =>
              with_lock (LSlots id) (
                let x := MkSlot CEP (Z.lor RIGHT_SEND RIGHT_RECV) ep_res_id in
                _ ← set_slots id (default (sl ++ [x]) (fill_null sl x));
                mret true)
          | None => mret false
          end
      end
  end.

(** The capability half of [sys_ep_create]: [ep] is the identifier that
    [ipc::create_endpoint] returned. *)
Definition ep_create_cap (ep : Z) : M (result string Z) :=
  id ← alloc_resource CEP (REP ep);
  _ ← store_ep_cap id;
  mret (Ok ep).

(** [sys_cap_vector_enable] (syscall/proc.rs). *)
Definition sys_cap_vector_enable (target : Z) : M (result string Z) :=
  o ← gets current_owner;
  match o with
  | None => mret (Err "no proc"%string)
  | Some caller =>
      s ← with_lock LProcesses get;
      match find_pid (PROCESSES s) caller with
      | None => mret (Err "caller not found"%string)
      | Some c =>
          if negb (uid c =? 0) then mret (Err "permission denied: need root"%string) else
          with_lock LProcesses (
            match find_pid (PROCESSES s) target with
            | None => mret (Err "process not found"%string)
            | Some t =>
                rid ← alloc_resource CVector (RVector target);
                res ← get_resource (cnode_id t);
                match res with
                | None => mret (Err "cnode not found"%string)
                | Some id =>
                    r ← the_resource id;
                    match slots_of (data r) with
                    | Some sl =>
                        with_lock (LSlots id) (
                          match fill_null sl (MkSlot CVector RIGHT_EXEC rid) with
                          | Some sl' => _ ← set_slots id sl'; mret (Ok 0)
                          | None => mret (Err "cnode full"%string)
                          end)
                    | None => mret (Err "cnode not found"%string)
                    end
                end
            end)
      end
  end.

(** The CNode with its 16 null slots that [spawn] and [fork_child] create. *)
Definition create_cnode : M Z :=
  id ← alloc_resource CCNode (RCNode []);
  res ← get_resource id;
  id' ← lift (unwrap res);
  r ← the_resource id';
  match slots_of (data r) with
  | Some sl =>
      _ ← with_lock (LSlots id') (set_slots id' (sl ++ replicate 16 Slot_null)); mret id
  | None => mret id
  end.

(** The process [spawn] and [fork_child] put in [PROCESSES]. *)
Definition add_process (p priority root : Z) (par : option Z) : M Z :=
  cnode ← create_cnode;
  _ ← with_lock LProcesses
        (modify (λ s, s <| PROCESSES := PROCESSES s ++
           [Process_new p priority root cnode 0 0 <| parent := par |>] |>));
  mret cnode.

Definition initial : caps :=
  MkCaps [] 1 [] None (replicate 256 (0, 0, 0, 0)) 0 0.

(** ** What the operations do to the state

    Each operation, run while at most [PROCESSES] is locked, returns with the
    same locks and the state given here as a function. *)

Definition unheld (h : list cap_lock) : Prop := ∀ l, l ∈ h → l = LProcesses.

Definition put (s : caps) (id : Z) (o : option Resource) : caps :=
  s <| RESOURCES := <[Z.to_nat id := o]> (RESOURCES s) |>.

Definition dec_state (s : caps) (id : Z) : caps :=
  match res_at (RESOURCES s) id with
  | Some r =>
      let n := u64 (ref_count r - 1) in
      put s id (if n =? 0 then None else Some (r <| ref_count := n |>))
  | None => s
  end.

Definition alloc_state (s : caps) (ty : CapType) (d : ResourceData) : caps :=
  s <| NEXT_RESOURCE_ID := NEXT_RESOURCE_ID s + 1 |>
    <| RESOURCES := RESOURCES s ++ [Some (MkResource 1 ty None [] d)] |>.

(** The vector of resources has grown to the next identifier, which has room. *)
Record sized (s : caps) : Prop := {
  sz_len : zlen (RESOURCES s) = NEXT_RESOURCE_ID s;
  sz_room : 0 < NEXT_RESOURCE_ID s < 2 ^ 64 - 1;
}.

Lemma unheld_not h l : unheld h → l ≠ LProcesses → l ∉ h.
Proof. intros Hh Hl ?. by apply Hl, Hh. Qed.

Lemma unheld_nil : unheld [].
Proof. intros l Hl. by apply not_elem_of_nil in Hl. Qed.

Lemma unheld_processes : unheld [LProcesses].
Proof. intros l Hl. by apply list_elem_of_singleton in Hl. Qed.

Ltac free_lock :=
  repeat (apply not_elem_of_cons; split; [congruence |]);
  first [apply not_elem_of_nil | by apply unheld_not].

Lemma res_at_Some rs id r :
  res_at rs id = Some r ↔ 0 <= id ∧ rs !! Z.to_nat id = Some (Some r).
Proof.
  unfold res_at. destruct (id <? 0) eqn:E; bools; [split; [done | lia] |].
  destruct (rs !! Z.to_nat id) as [[x |] |]; cbn; naive_solver.
Qed.

Lemma res_at_range rs id r : res_at rs id = Some r → 0 <= id < zlen rs.
Proof. intros [? Hl%lookup_lt_Some]%res_at_Some. unfold zlen. lia. Qed.

Lemma res_at_insert rs id o :
  0 <= id < zlen rs → res_at (<[Z.to_nat id := o]> rs) id = o.
Proof.
  intros Hi. unfold res_at. destruct (id <? 0) eqn:E; bools; [lia |].
  rewrite list_lookup_insert_eq by (unfold zlen in *; lia). by destruct o.
Qed.

Lemma res_at_insert_ne rs id id' o :
  id ≠ id' → 0 <= id → res_at (<[Z.to_nat id := o]> rs) id' = res_at rs id'.
Proof.
  intros Hi ?. unfold res_at. destruct (id' <? 0) eqn:E; bools; [done |].
  by rewrite list_lookup_insert_ne by lia.
Qed.

Lemma res_at_app_l rs o id : id < zlen rs → res_at (rs ++ [o]) id = res_at rs id.
Proof.
  intros Hi. unfold res_at. destruct (id <? 0) eqn:E; bools; [done |].
  by rewrite lookup_app_l by (unfold zlen in *; lia).
Qed.

Lemma res_at_app_new rs o : res_at (rs ++ [o]) (zlen rs) = o.
Proof.
  unfold res_at. destruct (_ <? 0) eqn:E; bools; [pose proof (zlen_nonneg rs); lia |].
  rewrite to_nat_zlen, list_lookup_middle by done. by destruct o.
Qed.

Lemma res_at_ge rs id : zlen rs <= id → res_at rs id = None.
Proof.
  intros Hi. unfold res_at. destruct (_ <? 0); [done |].
  by rewrite lookup_ge_None_2 by (unfold zlen in *; lia).
Qed.

Lemma res_at_put s id id' o :
  0 <= id < zlen (RESOURCES s) →
  res_at (RESOURCES (put s id o)) id' =
    if decide (id' = id) then o else res_at (RESOURCES s) id'.
Proof.
  intros Hi. cbn. case_decide as Hd; [subst; by apply res_at_insert |].
  apply res_at_insert_ne; [congruence | lia].
Qed.

Lemma put_put s id o o' : put (put s id o) id o' = put s id o'.
Proof. unfold put; cbn. by rewrite list_insert_insert_eq. Qed.

Section runs.
Context (h : list cap_lock) (s : caps) (Hh : unheld h).

Lemma the_resource_run id h' r :
  res_at (RESOURCES s) id = Some r → the_resource id h' s = Done (r, h', s).
Proof. intros Hr. unfold the_resource, get, lift, mbind, cmd_bind. by rewrite Hr. Qed.

Lemma set_resource_run id h' o s0 :
  0 <= id < zlen (RESOURCES s0) → set_resource id o h' s0 = Done ((), h', put s0 id o).
Proof.
  intros Hi. unfold set_resource, get, lift, mbind, cmd_bind.
  by rewrite aset_in_range.
Qed.

Lemma set_slots_run id h' r sl :
  res_at (RESOURCES s) id = Some r →
  set_slots id sl h' s = Done ((), h', put s id (Some (r <| data := RCNode sl |>))).
Proof.
  intros Hr. unfold set_slots. cstep (the_resource_run id h' r Hr).
  by eapply set_resource_run, res_at_range.
Qed.

Lemma get_resource_run id :
  get_resource id h s = Done (if res_at (RESOURCES s) id then Some id else None, h, s).
Proof. apply with_lock_run; [free_lock | done]. Qed.

Lemma dec_ref_run id : dec_ref id h s = Done ((), h, dec_state s id).
Proof.
  apply with_lock_run; [free_lock |]. cpure. unfold dec_state.
  destruct (res_at (RESOURCES s) id) as [r |] eqn:Hr; [| done].
  pose proof (res_at_range _ _ _ Hr) as Hi.
  erewrite cmd_bind_Done; cycle 1.
  { apply with_lock_run; [free_lock | by apply set_resource_run]. }
  destruct (_ =? 0); [| done].
  rewrite set_resource_run, put_put; [done |]. cbn. by rewrite zlen_insert.
Qed.

Lemma alloc_resource_run ty d :
  sized s →
  alloc_resource ty d h s = Done (NEXT_RESOURCE_ID s, h, alloc_state s ty d).
Proof.
  intros [Hl Hr]. apply with_lock_run; [free_lock |]. cpure. cpure.
  rewrite wrap_small by (unfold fits; lia). apply with_lock_run; [free_lock |]. cpure.
  erewrite cmd_bind_Done; cycle 1.
  { apply set_resource_run. cbn. unfold push_until.
    rewrite zlen_app, zlen_replicate. lia. }
  unfold alloc_state, put, push_until, mret, cmd_ret; cbn.
  replace (Z.to_nat (NEXT_RESOURCE_ID s + 1 - zlen (RESOURCES s))) with 1%nat by lia.
  cbn [replicate]. rewrite <-Hl, to_nat_zlen, insert_app_r_alt, Nat.sub_diag by lia.
  done.
Qed.

Lemma cnode_slots_run id e1 e2 e3 h' r sl :
  res_at (RESOURCES s) id = Some r → slots_of (data r) = Some sl →
  cnode_slots id e1 e2 e3 h' s = Done (Ok sl, h', s).
Proof.
  intros Hr Hsl. unfold cnode_slots, get, mret, cmd_ret, mbind, cmd_bind.
  pose proof (res_at_range _ _ _ Hr). destruct (_ <=? _) eqn:E; bools; [lia |].
  by rewrite Hr, Hsl.
Qed.

Lemma cnode_slots_err id e1 e2 e3 h' :
  (∀ r, res_at (RESOURCES s) id = Some r → slots_of (data r) = None) →
  ∃ e, cnode_slots id e1 e2 e3 h' s = Done (Err e, h', s).
Proof.
  intros Hn. unfold cnode_slots, get, mret, cmd_ret, mbind, cmd_bind.
  destruct (_ <=? _); [by eexists |].
  destruct (res_at _ id) as [r |]; [| by eexists].
  rewrite (Hn r) by done. by eexists.
Qed.
End runs.

(** ** Minting, copying and moving

    [mint] and [copy_cap] hold the lock of [RESOURCES] when they call
    functions that take it again. *)

Definition slot_at (s : caps) (cnode idx : Z) : option Slot :=
  r ← res_at (RESOURCES s) cnode;
  sl ← slots_of (data r);
  sl !! Z.to_nat idx.

Definition used_slot (x : Slot) : bool := negb (bool_decide (cap_type x = CNull)).

Definition mintable (s : caps) (cnode idx desired : Z) : bool :=
  match slot_at s cnode idx with
  | Some x => used_slot x && (Z.land desired (rights x) =? desired)
  | None => false
  end.

Definition copyable (s : caps) (cnode idx : Z) : bool :=
  match slot_at s cnode idx with Some x => used_slot x | None => false end.

Lemma mint_source_run h s cnode idx desired :
  unheld h →
  mint_source cnode idx desired (LResources :: h) s =
    Done (if mintable s cnode idx desired then slot_at s cnode idx else None,
          LResources :: h, s).
Proof.
  intros Hh. unfold mint_source. cpure. unfold mintable, slot_at.
  destruct (res_at _ cnode) as [r |]; cbn [mbind option_bind]; [| done].
  destruct (slots_of (data r)) as [sl |]; cbn [mbind option_bind]; [| done].
  apply with_lock_run; [free_lock |].
  destruct (sl !! Z.to_nat idx) as [x |] eqn:Hx; [| done]. unfold used_slot.
  destruct (bool_decide _); [done |]. cbn [negb andb].
  by destruct (_ =? desired).
Qed.

Lemma mint_run h s cnode idx desired :
  unheld h →
  mint cnode idx desired h s =
    if mintable s cnode idx desired then Deadlock else Done (None, h, s).
Proof.
  intros Hh. pose proof (mint_source_run h s cnode idx desired Hh) as Hm.
  destruct (mintable s cnode idx desired) eqn:E.
  - apply with_lock_Deadlock; [free_lock |]. cstep Hm.
    unfold mintable in E. destruct (slot_at s cnode idx); [| done].
    apply cmd_bind_Deadlock, with_lock_held. apply list_elem_of_here.
  - apply with_lock_run; [free_lock |]. by cstep Hm.
Qed.

Lemma copy_cap_run h s src idx dst idx' :
  unheld h →
  if copyable s src idx then copy_cap src idx dst idx' h s = Deadlock
  else ∃ e, copy_cap src idx dst idx' h s = Done (Err e, h, s).
Proof.
  intros Hh. unfold copyable, slot_at.
  assert ((∃ e, cnode_slots src "src cnode not found" "src cnode freed"
      "src not a cnode" (LResources :: h) s = Done (Err e, LResources :: h, s)) →
      ∃ e, copy_cap src idx dst idx' h s = Done (Err e, h, s)) as Herr.
  { intros [e He]. exists e. apply with_lock_run; [free_lock |].
    by rewrite (try_bind_Done _ _ _ _ _ _ _ He). }
  destruct (res_at (RESOURCES s) src) as [r |] eqn:Hr; cbn [mbind option_bind];
    [| by apply Herr, cnode_slots_err; rewrite Hr].
  destruct (slots_of (data r)) as [sl |] eqn:Hsl; cbn [mbind option_bind];
    [| apply Herr, cnode_slots_err; rewrite Hr; naive_solver].
  pose proof (cnode_slots_run s src "src cnode not found" "src cnode freed"
    "src not a cnode" (LResources :: h) r sl Hr Hsl) as Hc.
  destruct (sl !! Z.to_nat idx) as [x |] eqn:Hx; [destruct (used_slot x) eqn:Hu |];
    [| exists "src slot null"%string; apply with_lock_run; [free_lock |] ..].
  - apply with_lock_Deadlock; [free_lock |]. rewrite (try_bind_Done _ _ _ _ _ _ _ Hc).
    erewrite cmd_bind_Done; [| apply with_lock_run; [free_lock | done]].
    rewrite Hx. cbn [default from_option id]. unfold used_slot in Hu.
    destruct (bool_decide _); [done |].
    apply cmd_bind_Deadlock, with_lock_held, list_elem_of_here.
  - rewrite (try_bind_Done _ _ _ _ _ _ _ Hc).
    erewrite cmd_bind_Done; [| apply with_lock_run; [free_lock | done]].
    rewrite Hx. cbn [default from_option id]. unfold used_slot in Hu.
    by destruct (bool_decide _).
  - rewrite (try_bind_Done _ _ _ _ _ _ _ Hc).
    erewrite cmd_bind_Done; [| apply with_lock_run; [free_lock | done]].
    by rewrite Hx.
Qed.

Lemma move_cap_run h s src idx dst idx' :
  unheld h →
  if copyable s src idx then move_cap src idx dst idx' h s = Deadlock
  else ∃ e, move_cap src idx dst idx' h s = Done (Err e, h, s).
Proof.
  intros Hh. pose proof (copy_cap_run h s src idx dst idx' Hh) as Hc.
  destruct (copyable s src idx).
  - by apply cmd_bind_Deadlock.
  - destruct Hc as [e He]. exists e. unfold move_cap.
    by rewrite (try_bind_Done _ _ _ _ _ _ _ He).
Qed.

Lemma proc_cnode_run s p e :
  proc_cnode p e [] s = Done (ok_or (cnode_id <$> find_pid (PROCESSES s) p) e, [], s).
Proof. apply with_lock_run; [free_lock | done]. Qed.

Lemma caller_cnode_run s :
  caller_cnode [] s =
    Done (ok_or (cnode_id <$> find_pid (PROCESSES s) (default 0 (current_owner s)))
            "no process"%string, [], s).
Proof. unfold caller_cnode. cpure. apply proc_cnode_run. Qed.

Lemma cap_audit_log_run h s p op slot :
  zlen (CAP_AUDIT_LOG s) = 256 →
  cap_audit_log p op slot h s =
    Done ((), h,
      s <| CAP_AUDIT_LOG := <[Z.to_nat (CAP_AUDIT_IDX s mod 256) :=
                               (p, op, slot, TICK_COUNT s)]> (CAP_AUDIT_LOG s) |>
        <| CAP_AUDIT_IDX := u64 (CAP_AUDIT_IDX s + 1) |>).
Proof.
  intros Hl. unfold cap_audit_log, get, lift, mbind, cmd_bind.
  by rewrite aset_in_range by (rewrite Hl; dlia).
Qed.

Lemma ldiff_land (d r : Z) : Z.ldiff d r = 0 ↔ Z.land d r = d.
Proof.
  split; intros H.
  - pose proof (Z.lor_ldiff_and d r) as E. by rewrite H, Z.lor_0_l in E.
  - rewrite <-H. apply Z.bits_inj'. intros n ?.
    rewrite Z.ldiff_spec, Z.land_spec, Z.bits_0.
    by destruct (Z.testbit d n), (Z.testbit r n).
Qed.

Lemma slot_at_cnode s cnode idx r sl :
  res_at (RESOURCES s) cnode = Some r → slots_of (data r) = Some sl →
  slot_at s cnode idx = sl !! Z.to_nat idx.
Proof. intros Hr Hs. unfold slot_at. rewrite Hr. cbn. by rewrite Hs. Qed.

Lemma parent_rights_run s cnode idx r sl :
  res_at (RESOURCES s) cnode = Some r → slots_of (data r) = Some sl →
  parent_rights cnode idx [] s =
    Done (Ok (default 0 (rights <$> slot_at s cnode idx)), [], s).
Proof.
  intros Hr Hs. unfold parent_rights.
  cstep (get_resource_run [] s unheld_nil cnode). rewrite Hr.
  cstep (the_resource_run s cnode [] r Hr).
  rewrite Hs, (slot_at_cnode s cnode idx r sl Hr Hs).
  apply with_lock_run; [free_lock | done].
Qed.

Lemma sys_mint_run (s : caps) (p : Process) (r : Resource)
    (sl : list Slot) (idx desired : Z) :
  find_pid (PROCESSES s) (default 0 (current_owner s)) = Some p →
  res_at (RESOURCES s) (cnode_id p) = Some r → data r = RCNode sl →
  zlen (CAP_AUDIT_LOG s) = 256 →
  let slot := default Slot_null (sl !! Z.to_nat idx) in
  sys_mint idx desired [] s =
    if negb (Z.ldiff desired (rights slot) =? 0) then
      Done (Err "rights escalation denied"%string, [],
        s <| CAP_AUDIT_LOG := <[Z.to_nat (CAP_AUDIT_IDX s mod 256) :=
               (default 0 (current_owner s), 4, idx, TICK_COUNT s)]> (CAP_AUDIT_LOG s) |>
          <| CAP_AUDIT_IDX := u64 (CAP_AUDIT_IDX s + 1) |>)
    else if used_slot slot then Deadlock
    else Done (Err "mint failed"%string, [], s).
Proof.
  intros Hp Hr Hd Hl slot. assert (slots_of (data r) = Some sl) as Hs by by rewrite Hd.
  unfold sys_mint. rewrite (try_bind_Done _ _ _ _ _ _ _ (caller_cnode_run s)), Hp.
  cbn [fmap option_fmap option_map ok_or].
  rewrite (try_bind_Done _ _ _ _ _ _ _ (parent_rights_run s _ idx r sl Hr Hs)).
  pose proof (mint_run [] s (cnode_id p) idx desired unheld_nil) as Hm.
  unfold mintable in Hm. rewrite (slot_at_cnode s _ idx r sl Hr Hs) in *.
  replace (default 0 (rights <$> sl !! Z.to_nat idx)) with (rights slot)
    by (subst slot; by destruct (sl !! Z.to_nat idx)).
  destruct (Z.ldiff desired (rights slot) =? 0) eqn:E; bools; cbn [negb].
  - apply ldiff_land in E. subst slot.
    destruct (sl !! Z.to_nat idx) as [x |]; cbn [default from_option id] in *.
    + rewrite E, Z.eqb_refl, andb_true_r in Hm.
      destruct (used_slot x); [by apply cmd_bind_Deadlock | by cstep Hm].
    + by cstep Hm.
  - cpure. by cstep (cap_audit_log_run [] s (default 0 (current_owner s)) 4 idx Hl).
Qed.

Lemma sys_copy_run (s : caps) (src_idx dst_pid dst_idx : Z) :
  (sys_copy src_idx dst_pid dst_idx [] s = Deadlock ∨
   ∃ e, sys_copy src_idx dst_pid dst_idx [] s = Done (Err e, [], s)) ∧
  (sys_move src_idx dst_pid dst_idx [] s = Deadlock ∨
   ∃ e, sys_move src_idx dst_pid dst_idx [] s = Done (Err e, [], s)) ∧
  ∀ p q, find_pid (PROCESSES s) (default 0 (current_owner s)) = Some p →
    find_pid (PROCESSES s) dst_pid = Some q → copyable s (cnode_id p) src_idx = true →
    sys_copy src_idx dst_pid dst_idx [] s = Deadlock ∧
    sys_move src_idx dst_pid dst_idx [] s = Deadlock.
Proof.
  unfold sys_copy, sys_move.
  rewrite !(try_bind_Done _ _ _ _ _ _ _ (caller_cnode_run s)).
  destruct (find_pid (PROCESSES s) (default 0 (current_owner s))) as [p |]; cbn;
    [| naive_solver].
  rewrite !(try_bind_Done _ _ _ _ _ _ _ (proc_cnode_run s dst_pid _)).
  destruct (find_pid (PROCESSES s) dst_pid) as [q |]; cbn; [| naive_solver].
  pose proof (copy_cap_run [] s (cnode_id p) src_idx (cnode_id q) dst_idx unheld_nil) as Hc.
  pose proof (move_cap_run [] s (cnode_id p) src_idx (cnode_id q) dst_idx unheld_nil) as Hm.
  destruct (copyable s (cnode_id p) src_idx) eqn:E.
  - assert (∀ m : M (result string ()), m [] s = Deadlock →
      try_bind m (λ _, mret (Ok 0)) [] s = Deadlock) as Hd
      by (intros; by apply cmd_bind_Deadlock).
    split; [by left; apply Hd |]. split; [by left; apply Hd |].
    intros p' q' [= <-] [= <-] _. split; by apply Hd.
  - destruct Hc as [e1 E1], Hm as [e2 E2].
    rewrite (try_bind_Done _ _ _ _ _ _ _ E1), (try_bind_Done _ _ _ _ _ _ _ E2).
    split; [right; by eexists |]. split; [right; by eexists |].
    intros p' q' [= <-] _ ?. congruence.
Qed.

(** ** Deleting *)

Definition delete_state (s : caps) (cnode idx : Z) (r : Resource) (sl : list Slot)
    (x : Slot) : caps :=
  dec_state (put s cnode (Some (r <| data := RCNode (<[Z.to_nat idx := Slot_null]> sl) |>)))
    (resource_id x).

Lemma delete_cap_run s cnode idx r sl :
  res_at (RESOURCES s) cnode = Some r → slots_of (data r) = Some sl →
  delete_cap cnode idx [] s =
    match sl !! Z.to_nat idx with
    | Some x => Done (Ok (), [], delete_state s cnode idx r sl x)
    | None => Done (Err "slot out of range"%string, [], s)
    end.
Proof.
  intros Hr Hs. unfold delete_cap.
  cstep (lock_free LResources [] s (not_elem_of_nil _)).
  cstep (cnode_slots_run s cnode "cnode not found" "cnode freed" "not a cnode"
           [LResources] r sl Hr Hs).
  rewrite (cmd_bind_Done _ _ _ _ _ _ _ (lock_free (LSlots cnode) [LResources] s
             ltac:(free_lock))).
  destruct (sl !! Z.to_nat idx) as [x |].
  - cstep (set_slots_run s cnode (LSlots cnode :: [LResources]) r
             (<[Z.to_nat idx := Slot_null]> sl) Hr).
    erewrite cmd_bind_Done; [| apply unlock_top; free_lock].
    erewrite cmd_bind_Done; [| apply unlock_top; free_lock].
    erewrite cmd_bind_Done; [| apply dec_ref_run, unheld_nil]. done.
  - erewrite cmd_bind_Done; [| apply unlock_top; free_lock].
    erewrite cmd_bind_Done; [| apply unlock_top; free_lock]. done.
Qed.

Lemma delete_cap_err s cnode idx :
  (∀ r, res_at (RESOURCES s) cnode = Some r → slots_of (data r) = None) →
  ∃ e, delete_cap cnode idx [] s = Done (Err e, [], s).
Proof.
  intros Hn. unfold delete_cap.
  cstep (lock_free LResources [] s (not_elem_of_nil _)).
  destruct (cnode_slots_err s cnode "cnode not found" "cnode freed" "not a cnode"
    [LResources] Hn) as [e He].
  cstep He. eexists. erewrite cmd_bind_Done; [| apply unlock_top; free_lock]. done.
Qed.

(** ** The capability invariant *)

Definition slots_in (o : option Resource) : list Slot :=
  match o with Some r => default [] (slots_of (data r)) | None => [] end.

(** All slots of all live CNodes. *)
Definition all_slots (s : caps) : list Slot := mjoin (slots_in <$> RESOURCES s).

Definition refers (id : Z) (x : Slot) : bool := used_slot x && (resource_id x =? id).

Definition refs_in (l : list Slot) (id : Z) : Z := zlen (filter (λ x, refers id x) l).

(** The slots in which a capability for the resource [id] sits. *)
Definition refs (s : caps) (id : Z) : Z := refs_in (all_slots s) id.

Record resource_ok (s : caps) (id : Z) (r : Resource) : Prop := {
  ro_count : refs s id <= ref_count r;
  ro_pos : 0 < ref_count r < 2 ^ 64;
  ro_type : res_type r = CCNode ↔ is_Some (slots_of (data r));
  ro_children : derivation_children r = [];
}.

Definition slot_ok (s : caps) (x : Slot) : Prop :=
  if used_slot x then
    cap_type x ≠ CCNode ∧
    ∃ r, res_at (RESOURCES s) (resource_id x) = Some r ∧ res_type r = cap_type x
  else resource_id x = 0.

Definition has_cnode (s : caps) (p : Process) : Prop :=
  ∃ r, res_at (RESOURCES s) (cnode_id p) = Some r ∧ res_type r = CCNode.

Record inv (s : caps) : Prop := {
  i_len : zlen (RESOURCES s) = NEXT_RESOURCE_ID s;
  i_pos : 0 < NEXT_RESOURCE_ID s;
  i_zero : res_at (RESOURCES s) 0 = None;
  i_slots : Forall (slot_ok s) (all_slots s);
  i_res : ∀ id r, res_at (RESOURCES s) id = Some r → resource_ok s id r;
  i_procs : Forall (has_cnode s) (PROCESSES s);
  i_audit : zlen (CAP_AUDIT_LOG s) = 256;
}.

Lemma refs_in_app l1 l2 id : refs_in (l1 ++ l2) id = refs_in l1 id + refs_in l2 id.
Proof. unfold refs_in. by rewrite filter_app, zlen_app. Qed.

Lemma refs_in_perm l1 l2 id : l1 ≡ₚ l2 → refs_in l1 id = refs_in l2 id.
Proof. intros Hp. unfold refs_in, zlen. by rewrite Hp. Qed.

Lemma refs_in_cons x l id :
  refs_in (x :: l) id = (if refers id x then 1 else 0) + refs_in l id.
Proof.
  unfold refs_in. destruct (refers id x) eqn:E.
  - rewrite filter_cons_True by (rewrite E; exact I). unfold zlen; cbn. lia.
  - rewrite filter_cons_False; [lia |]. rewrite E. intros [].
Qed.

Lemma refs_in_nonneg l id : 0 <= refs_in l id.
Proof. apply zlen_nonneg. Qed.

Lemma refs_in_zero l id x : refs_in l id <= 0 → x ∈ l → refers id x = false.
Proof.
  intros Hz Hx. apply not_true_is_false. intros Hr.
  assert (x ∈ filter (λ x, refers id x) l) as Hin
    by (apply list_elem_of_filter; split; [rewrite Hr; exact I | done]).
  unfold refs_in, zlen in Hz. destruct (filter _ l); cbn in Hz; [| lia].
  by apply not_elem_of_nil in Hin.
Qed.

(** Replacing the slots of one CNode. *)
Lemma all_slots_put s id o o' :
  0 <= id → RESOURCES s !! Z.to_nat id = Some o →
  all_slots (put s id o') ++ slots_in o ≡ₚ all_slots s ++ slots_in o'.
Proof. intros _ Ho. unfold all_slots, put; cbn. by apply join_fmap_insert. Qed.

Lemma all_slots_cnode s id r sl sl' :
  res_at (RESOURCES s) id = Some r → slots_of (data r) = Some sl →
  all_slots (put s id (Some (r <| data := RCNode sl' |>))) ++ sl ≡ₚ all_slots s ++ sl'.
Proof.
  intros [? Hr]%res_at_Some Hs.
  pose proof (all_slots_put s id _ (Some (r <| data := RCNode sl' |>)) ltac:(done) Hr) as Hp.
  cbn in Hp. by rewrite Hs in Hp.
Qed.

Lemma fill_null_Some sl x sl' :
  fill_null sl x = Some sl' →
  ∃ l1 y l2, sl = l1 ++ y :: l2 ∧ sl' = l1 ++ x :: l2 ∧ used_slot y = false.
Proof.
  revert sl'. induction sl as [| y sl IH]; intros sl' H; cbn in H; [done |].
  destruct (bool_decide _) eqn:E.
  - injection H as <-. exists [], y, sl. split; [done |]. split; [done |].
    unfold used_slot. by rewrite E.
  - destruct (fill_null sl x) as [l |]; [| done]. injection H as <-.
    destruct (IH l) as (l1 & y' & l2 & -> & -> & ?); [done |].
    by exists (y :: l1), y', l2.
Qed.

Definition same_types (s s' : caps) : Prop :=
  ∀ id r, res_at (RESOURCES s) id = Some r →
    ∃ r', res_at (RESOURCES s') id = Some r' ∧ res_type r' = res_type r.

Lemma slot_ok_mono s s' x : same_types s s' → slot_ok s x → slot_ok s' x.
Proof.
  intros Hs. unfold slot_ok. destruct (used_slot x); [| done].
  intros (? & r & Hr & Ht). split; [done |].
  destruct (Hs _ _ Hr) as (r' & ? & ?). exists r'. split; [done | congruence].
Qed.

Lemma has_cnode_mono s s' p : same_types s s' → has_cnode s p → has_cnode s' p.
Proof.
  intros Hs (r & Hr & Ht). destruct (Hs _ _ Hr) as (r' & ? & ?).
  exists r'. split; [done | congruence].
Qed.

(** A resource without a CNode's type has no slots. *)
Lemma no_slots s id r : resource_ok s id r → res_type r ≠ CCNode → slots_in (Some r) = [].
Proof.
  intros Ho Ht. destruct Ho as [_ _ Hty _]. cbn.
  destruct (slots_of (data r)) eqn:E; [| done]. by destruct Ht; apply Hty.
Qed.

Lemma refs_dead s id : inv s → res_at (RESOURCES s) id = None → refs s id = 0.
Proof.
  intros Hi Hn. unfold refs, refs_in.
  enough (filter (λ x, refers id x) (all_slots s) = []) as -> by done.
  destruct (filter _ _) as [| x l] eqn:E; [done |].
  assert (x ∈ filter (λ x, refers id x) (all_slots s)) as Hx
    by (rewrite E; apply list_elem_of_here).
  apply list_elem_of_filter in Hx as [Hr Hx].
  pose proof (proj1 (Forall_forall _ _) (i_slots s Hi) x Hx) as Hok.
  unfold refers in Hr. apply andb_prop_elim in Hr as [Hu%Is_true_true He%Is_true_true].
  bools. unfold slot_ok in Hok. rewrite Hu, He, Hn in Hok. naive_solver.
Qed.

Lemma alloc_inv s ty d :
  inv s → NEXT_RESOURCE_ID s < 2 ^ 64 - 1 →
  default [] (slots_of d) = [] → (ty = CCNode ↔ is_Some (slots_of d)) →
  inv (alloc_state s ty d) ∧ refs (alloc_state s ty d) (NEXT_RESOURCE_ID s) = 0 ∧
  same_types s (alloc_state s ty d) ∧
  res_at (RESOURCES (alloc_state s ty d)) (NEXT_RESOURCE_ID s) =
    Some (MkResource 1 ty None [] d).
Proof.
  intros Hi Hroom Hsl Hty. set (s' := alloc_state s ty d).
  assert (all_slots s' = all_slots s) as Ha.
  { unfold all_slots; subst s'; cbn. rewrite fmap_app, join_app. cbn.
    by rewrite Hsl, !app_nil_r. }
  assert (same_types s s') as Hsame.
  { intros id r Hr. exists r. split; [| done]. subst s'; cbn.
    rewrite res_at_app_l by by eapply res_at_range. done. }
  assert (res_at (RESOURCES s') (NEXT_RESOURCE_ID s) = Some (MkResource 1 ty None [] d))
    as Hnew by (subst s'; cbn; rewrite <-(i_len s Hi); apply res_at_app_new).
  assert (refs s' (NEXT_RESOURCE_ID s) = 0) as Hz.
  { unfold refs. rewrite Ha. apply refs_dead; [done |]. apply res_at_ge.
    rewrite (i_len s Hi). lia. }
  split; [| done]. destruct Hi as [Hl Hp H0 Hs Hr Hpr Hau]. split.
  - subst s'; cbn. by rewrite zlen_app, Hl.
  - subst s'; cbn. lia.
  - change (res_at (RESOURCES s ++ [Some (MkResource 1 ty None [] d)]) 0 = None).
    by rewrite res_at_app_l by lia.
  - rewrite Ha. eapply Forall_impl; [exact Hs |]. intros x. by apply slot_ok_mono.
  - intros id r Hid. destruct (decide (id < zlen (RESOURCES s))) as [Hlt | Hge].
    + subst s'; cbn in Hid. rewrite res_at_app_l in Hid by done. destruct (Hr id r Hid).
      split; [unfold refs; by rewrite Ha | done..].
    + assert (id = NEXT_RESOURCE_ID s) as ->.
      { apply res_at_range in Hid. subst s'; cbn in Hid. rewrite zlen_app in Hid.
        change (zlen [_]) with 1 in Hid. lia. }
      rewrite Hnew in Hid. injection Hid as <-. split; cbn; [lia | lia | done..].
  - eapply Forall_impl; [exact Hpr |]. intros x. by apply has_cnode_mono.
  - done.
Qed.

Lemma cnode_update_inv s c r sl sl' :
  inv s → res_at (RESOURCES s) c = Some r → slots_of (data r) = Some sl →
  Forall (slot_ok s) sl' →
  (∀ id q, res_at (RESOURCES s) id = Some q →
     refs s id - refs_in sl id + refs_in sl' id <= ref_count q) →
  let s' := put s c (Some (r <| data := RCNode sl' |>)) in
  inv s' ∧ same_types s s' ∧ ∀ id, refs s' id = refs s id - refs_in sl id + refs_in sl' id.
Proof.
  intros Hi Hr Hsl Hok Hcnt s'.
  pose proof (all_slots_cnode s c r sl sl' Hr Hsl) as Hperm. fold s' in Hperm.
  pose proof (res_at_range _ _ _ Hr) as Hc.
  assert (∀ id, refs s' id = refs s id - refs_in sl id + refs_in sl' id) as Hrefs.
  { intros id. pose proof (refs_in_perm _ _ id Hperm) as Hp.
    rewrite !refs_in_app in Hp. unfold refs. lia. }
  assert (same_types s s') as Hsame.
  { intros id q Hq. subst s'. rewrite res_at_put by done. case_decide; [| by eexists].
    subst id. rewrite Hr in Hq. injection Hq as <-. by eexists. }
  split; [| done]. destruct Hi as [Hl Hp H0 Hs Hres Hpr Hau]. split.
  - subst s'; cbn. by rewrite zlen_insert.
  - done.
  - subst s'. rewrite res_at_put by done. case_decide; [| done]. congruence.
  - assert (Forall (slot_ok s) (all_slots s' ++ sl)) as Hall
      by (rewrite Hperm; by apply Forall_app).
    apply Forall_app in Hall as [Hall _].
    eapply Forall_impl; [exact Hall |]. intros x. by apply slot_ok_mono.
  - intros id q Hq. subst s'. rewrite res_at_put in Hq by done. case_decide; cycle 1.
    + destruct (Hres id q Hq). split; [| done..]. rewrite Hrefs. by apply Hcnt.
    + subst id. injection Hq as <-. destruct (Hres c r Hr) as [_ ? Hty ?].
      split; cbn; [rewrite Hrefs; by apply Hcnt | done | | done].
      split; [by eexists |]. intros _. apply Hty. by rewrite Hsl.
  - eapply Forall_impl; [exact Hpr |]. intros x. by apply has_cnode_mono.
  - done.
Qed.

Lemma dec_inv s id q :
  inv s → res_at (RESOURCES s) id = Some q → res_type q ≠ CCNode →
  refs s id <= ref_count q - 1 → inv (dec_state s id).
Proof.
  intros Hi Hq Ht Hle. unfold dec_state. rewrite Hq.
  pose proof (i_res s Hi id q Hq) as Hok. pose proof (ro_pos _ _ _ Hok) as Hpos.
  rewrite wrap_small by (unfold fits; lia).
  set (o := if ref_count q - 1 =? 0 then None else Some (q <| ref_count := ref_count q - 1 |>)).
  pose proof (res_at_range _ _ _ Hq) as Hid.
  assert (all_slots (put s id o) ≡ₚ all_slots s) as Ha.
  { apply res_at_Some in Hq as [? Hq].
    pose proof (all_slots_put s id _ o ltac:(done) Hq) as Hp.
    rewrite (no_slots s id q Hok Ht) in Hp.
    replace (slots_in o) with (slots_in (Some q)) in Hp;
      [by rewrite (no_slots s id q Hok Ht), !app_nil_r in Hp |].
    subst o. destruct (_ =? 0); [by rewrite (no_slots s id q Hok Ht) | done]. }
  assert (∀ j, refs (put s id o) j = refs s j) as Hrefs
    by (intros j; unfold refs; by apply refs_in_perm).
  assert (∀ j r, res_at (RESOURCES s) j = Some r → j ≠ id ∨ o ≠ None →
    ∃ r', res_at (RESOURCES (put s id o)) j = Some r' ∧ res_type r' = res_type r) as Hsame.
  { intros j r Hj Hne. rewrite res_at_put by done. case_decide; [| by eexists]. subst j.
    assert (r = q) as -> by congruence. subst o.
    destruct (_ =? 0); [by destruct Hne | by eexists]. }
  assert (∀ x, x ∈ all_slots s → o = None → refers id x = false) as Hnone.
  { intros x Hx Ho. apply refs_in_zero with (l := all_slots s); [| done].
    subst o. destruct (_ =? 0) eqn:E; bools; [| done]. fold (refs s id). lia. }
  destruct Hi as [Hl Hp H0 Hs Hres Hpr Hau]. split.
  - cbn. by rewrite zlen_insert.
  - done.
  - rewrite res_at_put by done. case_decide; [congruence | done].
  - rewrite Ha. apply Forall_forall. intros x Hx.
    pose proof (proj1 (Forall_forall _ _) Hs x Hx) as Hxo. unfold slot_ok in *.
    destruct (used_slot x) eqn:Hu; [| done]. destruct Hxo as (? & r & Hr & ?).
    split; [done |]. destruct (Hsame _ _ Hr) as (r' & ? & ?); [| exists r'; by split; [| congruence]].
    destruct o eqn:Eo; [by right | left].
    specialize (Hnone x Hx eq_refl). unfold refers in Hnone. rewrite Hu in Hnone.
    cbn in Hnone. by bools.
  - intros j r Hj. rewrite res_at_put in Hj by done. case_decide; cycle 1.
    + destruct (Hres j r Hj). by split; [rewrite Hrefs | ..].
    + subst j. subst o. destruct (_ =? 0) eqn:E; [done |]. bools. injection Hj as <-.
      destruct Hok. split; cbn; [rewrite Hrefs | ..]; try done; lia.
  - eapply Forall_impl; [exact Hpr |]. intros p (r & Hr & Hty).
    destruct (Hsame _ _ Hr) as (r' & ? & ?); [left; congruence |].
    exists r'. split; [done | congruence].
  - done.
Qed.

Lemma refs_in_replace l1 x y l2 id :
  refs_in (l1 ++ x :: l2) id = refs_in (l1 ++ y :: l2) id -
    (if refers id y then 1 else 0) + (if refers id x then 1 else 0).
Proof. rewrite !refs_in_app, !refs_in_cons. lia. Qed.

Lemma null_not_refers x id : used_slot x = false → refers id x = false.
Proof. intros Hx. unfold refers. by rewrite Hx. Qed.

Lemma cnode_slots_ok s c r sl :
  inv s → res_at (RESOURCES s) c = Some r → slots_of (data r) = Some sl →
  Forall (slot_ok s) sl.
Proof.
  intros Hi [? Hr]%res_at_Some Hs. apply Forall_forall. intros x Hx.
  apply (proj1 (Forall_forall _ _) (i_slots s Hi)). unfold all_slots.
  apply list_elem_of_join. exists sl. split; [done |].
  apply list_elem_of_fmap. exists (Some r). cbn. rewrite Hs. split; [done |].
  by eapply list_elem_of_lookup_2.
Qed.

(** Storing a capability for a resource that has a reference to spare. *)
Lemma store_inv s c r sl sl' x q :
  inv s → res_at (RESOURCES s) c = Some r → slots_of (data r) = Some sl →
  (sl' = sl ++ [x] ∨ fill_null sl x = Some sl') →
  used_slot x = true → cap_type x ≠ CCNode →
  res_at (RESOURCES s) (resource_id x) = Some q → res_type q = cap_type x →
  refs s (resource_id x) + 1 <= ref_count q →
  inv (put s c (Some (r <| data := RCNode sl' |>))).
Proof.
  intros Hi Hr Hs Hsl' Hu Hc Hq Hty Hle.
  pose proof (cnode_slots_ok s c r sl Hi Hr Hs) as Hok.
  assert (slot_ok s x) as Hx by (unfold slot_ok; rewrite Hu; by eauto).
  assert (Forall (slot_ok s) sl' ∧
    ∀ id, refs_in sl' id = refs_in sl id + (if refers id x then 1 else 0)) as [Hok' Hrefs].
  { destruct Hsl' as [-> | (l1 & y & l2 & -> & -> & Hy)%fill_null_Some].
    - split; [by apply Forall_app; auto |]. intros id.
      rewrite refs_in_app, refs_in_cons. change (refs_in [] id) with 0. lia.
    - split.
      + apply Forall_app in Hok as [? [? ?]%Forall_cons]. apply Forall_app; auto.
      + intros id. rewrite (refs_in_replace l1 x y l2), (null_not_refers y) by done. lia. }
  apply (cnode_update_inv s c r sl sl' Hi Hr Hs Hok').
  intros id q' Hq'. rewrite Hrefs. destruct (refers id x) eqn:E.
  - unfold refers in E. bools. subst id. assert (q' = q) as -> by congruence. lia.
  - pose proof (ro_count _ _ _ (i_res s Hi id q' Hq')). lia.
Qed.

Lemma delete_inv s c idx r sl x :
  inv s → res_at (RESOURCES s) c = Some r → slots_of (data r) = Some sl →
  sl !! Z.to_nat idx = Some x → inv (delete_state s c idx r sl x).
Proof.
  intros Hi Hr Hs Hx. unfold delete_state.
  pose proof (cnode_slots_ok s c r sl Hi Hr Hs) as Hok.
  pose proof (Forall_lookup_1 _ _ _ _ Hok Hx) as Hxo.
  set (sl' := <[Z.to_nat idx := Slot_null]> sl).
  assert (∀ id, refs_in sl' id = refs_in sl id - (if refers id x then 1 else 0)) as Hrefs.
  { intros id. subst sl'. rewrite <-(take_drop_middle sl (Z.to_nat idx) x) at 2 by done.
    rewrite insert_take_drop by by eapply lookup_lt_Some.
    rewrite (refs_in_replace _ Slot_null x), (null_not_refers Slot_null) by done. lia. }
  destruct (cnode_update_inv s c r sl sl' Hi Hr Hs) as (Hi' & Hsame & Hrefs').
  { by apply Forall_insert. }
  { intros id q Hq. rewrite Hrefs. pose proof (ro_count _ _ _ (i_res s Hi id q Hq)).
    destruct (refers id x); lia. }
  unfold slot_ok in Hxo. destruct (used_slot x) eqn:Hu.
  - destruct Hxo as (Hc & q & Hq & Hty).
    assert (resource_id x ≠ c) as Hne.
    { intros E. rewrite E, Hr in Hq. injection Hq as <-. apply Hc. rewrite <-Hty.
      apply (ro_type _ _ _ (i_res s Hi c r Hr)). by rewrite Hs. }
    apply dec_inv with (q := q); [done | | congruence |].
    + rewrite res_at_put by by eapply res_at_range. by rewrite decide_False.
    + rewrite Hrefs', Hrefs. unfold refers. rewrite Hu, Z.eqb_refl. cbn.
      pose proof (ro_count _ _ _ (i_res s Hi _ q Hq)). lia.
  - rewrite Hxo. unfold dec_state. by rewrite (i_zero _ Hi').
Qed.

(** ** Every request returns and keeps the invariant *)

Lemma process_slots s p q :
  inv s → find_pid (PROCESSES s) p = Some q →
  ∃ r sl, res_at (RESOURCES s) (cnode_id q) = Some r ∧ slots_of (data r) = Some sl.
Proof.
  intros Hi [Hq _]%find_pid_Some.
  destruct (proj1 (Forall_forall _ _) (i_procs s Hi) q Hq) as (r & Hr & Ht).
  apply (ro_type _ _ _ (i_res s Hi _ r Hr)) in Ht as [sl Hsl]. by exists r, sl.
Qed.

Lemma alloc_run h s ty d :
  unheld h → inv s → NEXT_RESOURCE_ID s < 2 ^ 64 - 1 →
  alloc_resource ty d h s = Done (NEXT_RESOURCE_ID s, h, alloc_state s ty d).
Proof. intros ? [] ?. apply alloc_resource_run; [done | by split]. Qed.

Lemma store_ep_cap_run s id q :
  inv s → res_at (RESOURCES s) id = Some q → res_type q = CEP →
  refs s id + 1 <= ref_count q →
  ∃ b s', store_ep_cap id [] s = Done (b, [], s') ∧ inv s'.
Proof.
  intros Hi Hq Hty Hle. unfold store_ep_cap. cstep (caller_cnode_run s).
  destruct (find_pid _ _) as [p |] eqn:Hp; cbn [fmap option_fmap option_map ok_or];
    [| by eexists _, _].
  destruct (process_slots s _ p Hi Hp) as (r & sl & Hr & Hs).
  cstep (get_resource_run [] s unheld_nil (cnode_id p)). rewrite Hr.
  cstep (the_resource_run s _ [] r Hr). rewrite Hs. eexists _, _. split.
  - apply with_lock_run; [free_lock |].
    by cstep (set_slots_run s (cnode_id p) [LSlots (cnode_id p)] r
      (default (sl ++ [MkSlot CEP (Z.lor RIGHT_SEND RIGHT_RECV) id])
         (fill_null sl (MkSlot CEP (Z.lor RIGHT_SEND RIGHT_RECV) id))) Hr).
  - eapply (store_inv s _ r sl _ (MkSlot CEP (Z.lor RIGHT_SEND RIGHT_RECV) id) q);
      try done. destruct (fill_null _ _); [by right | by left].
Qed.

Lemma ep_create_run s ep :
  inv s → NEXT_RESOURCE_ID s < 2 ^ 64 - 1 →
  ∃ s', ep_create_cap ep [] s = Done (Ok ep, [], s') ∧ inv s'.
Proof.
  intros Hi Hroom. unfold ep_create_cap.
  cstep (alloc_run [] s CEP (REP ep) unheld_nil Hi Hroom).
  destruct (alloc_inv s CEP (REP ep) Hi Hroom) as (Hi' & Hz & _ & Hnew);
    [done | split; [done | by intros [? ?]] |].
  destruct (store_ep_cap_run _ _ _ Hi' Hnew) as (b & s' & E & ?);
    [done | rewrite Hz; cbn; lia |].
  cstep E. by exists s'.
Qed.

Lemma sys_delete_run s idx :
  inv s → ∃ r s', sys_delete idx [] s = Done (r, [], s') ∧ inv s'.
Proof.
  intros Hi. unfold sys_delete. rewrite (try_bind_Done _ _ _ _ _ _ _ (caller_cnode_run s)).
  destruct (find_pid _ _) as [p |] eqn:Hp; cbn [fmap option_fmap option_map ok_or];
    [| by eexists _, _].
  destruct (process_slots s _ p Hi Hp) as (r & sl & Hr & Hs).
  pose proof (delete_cap_run s (cnode_id p) idx r sl Hr Hs) as Hd.
  destruct (sl !! Z.to_nat idx) as [x |] eqn:Hx;
    rewrite (try_bind_Done _ _ _ _ _ _ _ Hd); eexists _, _; (split; [done |]); [| done].
  by apply delete_inv.
Qed.

Lemma vector_enable_run s target :
  inv s → NEXT_RESOURCE_ID s < 2 ^ 64 - 1 →
  ∃ r s', sys_cap_vector_enable target [] s = Done (r, [], s') ∧ inv s'.
Proof.
  intros Hi Hroom. unfold sys_cap_vector_enable. cpure.
  destruct (current_owner s) as [caller |]; [| by eexists _, _].
  erewrite cmd_bind_Done; [| apply with_lock_run; [free_lock | done]].
  destruct (find_pid (PROCESSES s) caller) as [c |]; [| by eexists _, _].
  destruct (negb _); [by eexists _, _ |].
  destruct (find_pid (PROCESSES s) target) as [t |] eqn:Ht; cycle 1.
  { eexists _, _. split; [apply with_lock_run; [free_lock | done] | done]. }
  destruct (alloc_inv s CVector (RVector target) Hi Hroom) as (Hi' & Hz & _ & Hnew);
    [done | split; [done | by intros [? ?]] |].
  destruct (process_slots (alloc_state s CVector (RVector target)) target t Hi' Ht)
    as (r & sl & Hr & Hs).
  set (x := MkSlot CVector RIGHT_EXEC (NEXT_RESOURCE_ID s)).
  eexists (match fill_null sl x with Some _ => _ | None => _ end),
    (match fill_null sl x with Some _ => _ | None => _ end). split.
  - apply with_lock_run; [free_lock |].
    cstep (alloc_run [LProcesses] s CVector (RVector target) unheld_processes Hi Hroom).
    erewrite cmd_bind_Done; [| apply get_resource_run, unheld_processes]. rewrite Hr.
    cstep (the_resource_run _ _ [LProcesses] r Hr). rewrite Hs.
    apply with_lock_run; [free_lock |]. fold x.
    destruct (fill_null sl x) as [sl' |]; [| done].
    by cstep (set_slots_run _ (cnode_id t) [LSlots (cnode_id t); LProcesses] r sl' Hr).
  - cbv beta. destruct (fill_null sl x) as [sl' |] eqn:Ef; [| done].
    eapply store_inv with (x := x); try done; [by right |]. cbn. rewrite Hz. lia.
Qed.

Lemma refs_in_nulls n id : refs_in (replicate n Slot_null) id = 0.
Proof. induction n as [| n IH]; [done |]. cbn [replicate]. by rewrite refs_in_cons, IH. Qed.

Lemma create_cnode_run s :
  inv s → NEXT_RESOURCE_ID s < 2 ^ 64 - 1 →
  ∃ s', create_cnode [] s = Done (NEXT_RESOURCE_ID s, [], s') ∧ inv s' ∧
    PROCESSES s' = PROCESSES s ∧
    ∃ r, res_at (RESOURCES s') (NEXT_RESOURCE_ID s) = Some r ∧ res_type r = CCNode.
Proof.
  intros Hi Hroom. unfold create_cnode.
  cstep (alloc_run [] s CCNode (RCNode []) unheld_nil Hi Hroom).
  destruct (alloc_inv s CCNode (RCNode []) Hi Hroom) as (Hi' & Hz & _ & Hnew);
    [done | split; [by eexists | done] |].
  erewrite cmd_bind_Done; [| apply get_resource_run, unheld_nil]. rewrite Hnew. cpure.
  cstep (the_resource_run _ _ [] _ Hnew).
  change (slots_of _) with (Some (@nil Slot)). cbv iota beta.
  erewrite cmd_bind_Done; [| apply with_lock_run; [free_lock | by apply set_slots_run]].
  eexists. split; [done |].
  destruct (cnode_update_inv _ _ _ [] (replicate 16 Slot_null) Hi' Hnew eq_refl)
    as (? & Hsame & _).
  - by apply Forall_replicate.
  - intros id q Hq. rewrite refs_in_nulls. pose proof (ro_count _ _ _ (i_res _ Hi' id q Hq)).
    change (refs_in [] id) with 0. lia.
  - split; [done |]. split; [done |]. destruct (Hsame _ _ Hnew) as (r' & ? & ?). by exists r'.
Qed.

Lemma add_process_run s p priority root par :
  inv s → NEXT_RESOURCE_ID s < 2 ^ 64 - 1 →
  ∃ c s', add_process p priority root par [] s = Done (c, [], s') ∧ inv s'.
Proof.
  intros Hi Hroom. unfold add_process.
  destruct (create_cnode_run s Hi Hroom) as (s1 & E & Hi1 & _ & Hc). cstep E.
  erewrite cmd_bind_Done; [| apply with_lock_run; [free_lock | done]].
  eexists _, _. split; [done |]. destruct Hi1 as [Hl Hp H0 Hs Hr Hpr Ha].
  split; try done.
  - intros id r Hid. by destruct (Hr id r Hid).
  - apply Forall_app. split; [done |]. by apply Forall_singleton.
Qed.

(** ** Reachable states

    What processes can do to capabilities after boot: create a process, create
    an endpoint, grant the vector capability, delete, mint, copy and move, in
    any order and interleaved with context switches and timer ticks.
    Allocations need a free identifier below the end of the address space,
    which the memory of the machine never lets them reach.  Capabilities that
    arrive from another node ([distributed::cap_receive]) are not part of the
    relation. *)

Inductive cap_step (s : caps) : caps → Prop :=
| step_spawn p priority root par c s' :
    NEXT_RESOURCE_ID s < 2 ^ 64 - 1 →
    add_process p priority root par [] s = Done (c, [], s') → cap_step s s'
| step_ep_create ep r s' :
    NEXT_RESOURCE_ID s < 2 ^ 64 - 1 →
    ep_create_cap ep [] s = Done (r, [], s') → cap_step s s'
| step_vector target r s' :
    NEXT_RESOURCE_ID s < 2 ^ 64 - 1 →
    sys_cap_vector_enable target [] s = Done (r, [], s') → cap_step s s'
| step_delete idx r s' :
    sys_delete idx [] s = Done (r, [], s') → cap_step s s'
| step_mint idx desired r s' :
    sys_mint idx desired [] s = Done (r, [], s') → cap_step s s'
| step_copy i p j r s' :
    sys_copy i p j [] s = Done (r, [], s') → cap_step s s'
| step_move i p j r s' :
    sys_move i p j [] s = Done (r, [], s') → cap_step s s'
| step_switch o : cap_step s (s <| current_owner := o |>)
| step_tick : cap_step s (s <| TICK_COUNT := u64 (TICK_COUNT s + 1) |>).

Definition booted : caps := initial <| RESOURCES := [None] |>.

Definition reachable : caps → Prop := rtc cap_step booted.

(** The invariant does not look at the fields [cap_audit_log], a context
    switch and a tick change. *)
Lemma inv_frame s s' :
  inv s → RESOURCES s' = RESOURCES s → NEXT_RESOURCE_ID s' = NEXT_RESOURCE_ID s →
  PROCESSES s' = PROCESSES s → zlen (CAP_AUDIT_LOG s') = 256 → inv s'.
Proof.
  intros [Hl Hp H0 Hs Hr Hpr Ha] E1 E2 E3 ?.
  assert (all_slots s' = all_slots s) as Eall by (unfold all_slots; by rewrite E1).
  split; rewrite ?Eall, ?E1, ?E2, ?E3; try done.
  - eapply Forall_impl; [exact Hs |]. intros x. unfold slot_ok. by rewrite E1.
  - intros id r Hid. destruct (Hr id r Hid). split; try done. unfold refs. by rewrite Eall.
  - eapply Forall_impl; [exact Hpr |]. intros x. unfold has_cnode. by rewrite E1.
Qed.

Lemma sys_mint_inv s idx desired r s' :
  inv s → sys_mint idx desired [] s = Done (r, [], s') → inv s'.
Proof.
  intros Hi. destruct (find_pid (PROCESSES s) (default 0 (current_owner s))) as [p |] eqn:Hp.
  - destruct (process_slots s _ p Hi Hp) as (q & sl & Hq & Hs).
    assert (data q = RCNode sl) as Hd by (destruct (data q); naive_solver).
    rewrite (sys_mint_run s p q sl idx desired Hp Hq Hd (i_audit s Hi)).
    destruct (negb _); [intros [= <- <-] | destruct (used_slot _); [done |]; by intros [= <- <-]].
    apply (inv_frame s); try done. cbn. rewrite zlen_insert. apply Hi.
  - unfold sys_mint. rewrite (try_bind_Done _ _ _ _ _ _ _ (caller_cnode_run s)), Hp.
    by intros [= <- <-].
Qed.

Lemma cap_step_inv s s' : inv s → cap_step s s' → inv s'.
Proof.
  intros Hi Hst. destruct Hst as
    [p pr ro pa c s' Hr E | ep r s' Hr E | t r s' Hr E | idx r s' E | idx d r s' E
    | i p j r s' E | i p j r s' E | o |].
  - destruct (add_process_run s p pr ro pa Hi Hr) as (? & ? & E' & ?). congruence.
  - destruct (ep_create_run s ep Hi Hr) as (? & E' & ?). congruence.
  - destruct (vector_enable_run s t Hi Hr) as (? & ? & E' & ?). congruence.
  - destruct (sys_delete_run s idx Hi) as (? & ? & E' & ?). congruence.
  - by eapply sys_mint_inv.
  - destruct (sys_copy_run s i p j) as ([E' | [e E']] & _); congruence.
  - destruct (sys_copy_run s i p j) as (_ & [E' | [e E']] & _); congruence.
  - apply (inv_frame s); try done. apply Hi.
  - apply (inv_frame s); try done. apply Hi.
Qed.

Lemma booted_inv : inv booted.
Proof.
  split; try done; try by constructor.
  intros id r [? Hr]%res_at_Some. cbn in Hr. by destruct (Z.to_nat id) as [| [|]].
Qed.

Lemma caps_reachable_inv s : reachable s → inv s.
Proof.
  intros Hr. unfold reachable in Hr. pose proof booted_inv as Hb.
  induction Hr as [| s1 s2 s3 Hst _ IH]; [done |]. by apply IH, (cap_step_inv s1).
Qed.

(** ** Revocation *)

(** [j] is recorded as derived from [i]. *)
Definition child (s : caps) (i j : Z) : Prop :=
  ∃ r, res_at (RESOURCES s) i = Some r ∧ j ∈ derivation_children r.

(** Derived resources have later identifiers, as [mint] allocates them. *)
Definition derived_later (s : caps) : Prop :=
  ∀ i j, child s i j → i < j < zlen (RESOURCES s).

(** The derivation records form a forest, as [mint], which allocates the one
    child it adds to a resource, makes them. *)
Record forest (s : caps) : Prop := {
  f_later : derived_later s;
  f_once : ∀ i r, res_at (RESOURCES s) i = Some r → NoDup (derivation_children r);
  f_parent : ∀ i i' j, child s i j → child s i' j → i = i';
}.

(** A resource that loses a reference. *)
Definition unref (r : Resource) : option Resource :=
  if u64 (ref_count r - 1) =? 0 then None else Some (r <| ref_count := u64 (ref_count r - 1) |>).

Lemma unref_exact r : 0 < ref_count r < 2 ^ 64 →
  unref r = if ref_count r =? 1 then None else Some (r <| ref_count := ref_count r - 1 |>).
Proof.
  intros Hc. unfold unref. rewrite wrap_small by (unfold fits; lia).
  destruct (ref_count r =? 1) eqn:E; bools; [by rewrite E |]. by rewrite (proj2 (Z.eqb_neq _ _)) by lia.
Qed.

(** One of [ds], or derived from one of them. *)
Definition below (s : caps) (ds : list Z) (j : Z) : Prop := ∃ d, d ∈ ds ∧ rtc (child s) d j.

(** Every resource below [ds] loses one reference, and no other changes. *)
Record cuts (ds : list Z) (s s' : caps) : Prop := {
  ct_len : zlen (RESOURCES s') = zlen (RESOURCES s);
  ct_below : ∀ j, below s ds j → res_at (RESOURCES s') j = res_at (RESOURCES s) j ≫= unref;
  ct_other : ∀ j, ¬ below s ds j → res_at (RESOURCES s') j = res_at (RESOURCES s) j;
  ct_kids : ∀ i r', res_at (RESOURCES s') i = Some r' →
    ∃ r, res_at (RESOURCES s) i = Some r ∧ derivation_children r = derivation_children r';
}.

Lemma below_one s id j : below s [id] j ↔ rtc (child s) id j.
Proof. split; [intros (d & ->%list_elem_of_singleton & H) | exists id; split; [by left |]]; done. Qed.

Lemma derived_later_rtc s i j : derived_later s → rtc (child s) i j → i <= j.
Proof. intros Hd. induction 1 as [| ? ? ? H%Hd]; lia. Qed.

Lemma cuts_child ds s s' i j : cuts ds s s' → child s' i j → child s i j.
Proof. intros Hc (r' & Hr & Hj). destruct (ct_kids _ _ _ Hc i r' Hr) as (r & ? & E). exists r. by rewrite E. Qed.

Lemma cuts_forest ds s s' : forest s → cuts ds s s' → forest s'.
Proof.
  intros [F1 F2 F3] Hc. split.
  - intros i j Hij. rewrite (ct_len _ _ _ Hc). by apply F1, (cuts_child ds s s').
  - intros i r' Hr. destruct (ct_kids _ _ _ Hc i r' Hr) as (r & ? & <-). by apply (F2 i).
  - intros i i' j Hi Hi'. by apply (F3 i i' j); apply (cuts_child ds s s').
Qed.

(** Two resources with a common derived one are on one line. *)
Lemma forest_line s a b j : forest s → rtc (child s) a j → rtc (child s) b j → rtc (child s) a b ∨ rtc (child s) b a.
Proof.
  intros Hf Ha. revert j Ha.
  apply (rtc_ind_r (λ j, rtc (child s) b j → rtc (child s) a b ∨ rtc (child s) b a)); [by right |]. intros j k Ha Hk IH Hb.
  apply rtc_inv_r in Hb as [-> | (k' & Hb & Hk')]; [left; by eapply rtc_r |].
  rewrite (f_parent s Hf _ _ _ Hk' Hk) in Hb. by apply IH.
Qed.

Lemma children_apart s id c d j : forest s → child s id c → child s id d → c ≠ d →
  rtc (child s) c j → ¬ rtc (child s) d j.
Proof.
  intros Hf Hc Hd Hne Hcj Hdj.
  assert (∀ a b, child s id a → child s id b → a ≠ b → ¬ rtc (child s) a b) as Hno.
  { intros a b Ha Hb Hab Hr. apply rtc_inv_r in Hr as [-> | (k & Hr & Hk)]; [done |].
    rewrite (f_parent s Hf _ _ _ Hk Hb) in Hr. apply (derived_later_rtc s _ _ (f_later s Hf)) in Hr.
    apply (f_later s Hf) in Ha. lia. }
  destruct (forest_line s c d j Hf Hcj Hdj) as [H | H]; [by apply (Hno c d) | by apply (Hno d c)].
Qed.

(** Resources that a cut does not touch keep everything below them. *)
Lemma below_kept s s1 c cs j : cuts [c] s s1 → (∀ k, below s cs k → ¬ below s [c] k) →
  below s1 cs j ↔ below s cs j.
Proof.
  intros Hc Hsep. split; intros (d & Hd & Hr); exists d; (split; [done |]).
  - eapply rtc_subrel; [| exact Hr]. intros ? ?. by apply (cuts_child [c]).
  - revert j Hr. apply (rtc_ind_r (rtc (child s1) d)); [done |]. intros k l Hr (r & Hk & Hl) IH. eapply rtc_r; [exact IH |].
    exists r. split; [| done]. rewrite (ct_other _ _ _ Hc); [done |]. apply Hsep. by exists d.
Qed.

Lemma cuts_cons c cs s s1 s2 : (∀ k, below s cs k → ¬ below s [c] k) →
  cuts [c] s s1 → cuts cs s1 s2 → cuts (c :: cs) s s2.
Proof.
  intros Hsep H1 H2. pose proof (λ j, below_kept s s1 c cs j H1 Hsep) as Hb. destruct H2 as [L2 B2 O2 K2]. split.
  - rewrite L2. apply H1.
  - intros j (d & [-> | Hd]%elem_of_cons & Hr).
    + assert (below s [c] j) as Hj by (by apply below_one). rewrite O2; [by apply H1 |].
      intros Hx%Hb. by apply (Hsep j).
    + assert (below s cs j) as Hj by (by exists d). rewrite B2 by (by apply Hb). f_equal.
      apply H1. by apply Hsep.
  - intros j Hj. rewrite O2; [apply H1 |].
    + intros Hx%below_one. apply Hj. exists c. split; [by left | done].
    + intros (d & Hd & Hr)%Hb. apply Hj. exists d. split; [by right | done].
  - intros i r' Hr. destruct (K2 i r' Hr) as (r1 & Hr1 & <-). by apply H1.
Qed.

Lemma dec_state_at s id r j :
  res_at (RESOURCES s) id = Some r →
  res_at (RESOURCES (dec_state s id)) j = if decide (j = id) then unref r else res_at (RESOURCES s) j.
Proof.
  intros Hr. unfold dec_state. rewrite Hr, res_at_put by by eapply res_at_range. done.
Qed.

(** After its children, the resource itself. *)
Lemma cuts_parent s id r s1 : forest s → res_at (RESOURCES s) id = Some r →
  cuts (derivation_children r) s s1 → cuts [id] s (dec_state s1 id).
Proof.
  intros Hf Hr H1. pose proof H1 as [L1 B1 O1 K1].
  assert (∀ d, d ∈ derivation_children r → child s id d) as Hkid by (intros d Hd; by exists r).
  assert (¬ below s (derivation_children r) id) as Hid.
  { intros (d & Hd%Hkid%(f_later s Hf) & Hrt%(derived_later_rtc s _ _ (f_later s Hf))). lia. }
  assert (res_at (RESOURCES s1) id = Some r) as Hr1 by (by rewrite O1).
  assert (∀ j, j ≠ id → below s [id] j ↔ below s (derivation_children r) j) as Hb.
  { intros j Hj. rewrite below_one. split.
    - intros Hrt. apply rtc_inv in Hrt as [-> | (d & (r' & Hr' & Hd) & Hrt)]; [done |].
      simplify_eq. by exists d.
    - intros (d & Hd & Hrt). eapply rtc_l; [by apply Hkid | done]. }
  split.
  - unfold dec_state. rewrite Hr1. cbn. by rewrite zlen_insert.
  - intros j Hj. rewrite (dec_state_at s1 id r j Hr1). case_decide as E; [subst j; by rewrite Hr |].
    apply B1. by apply Hb.
  - intros j Hj. rewrite (dec_state_at s1 id r j Hr1). case_decide as E.
    + subst j. destruct Hj. by apply below_one.
    + apply O1. by rewrite <- Hb.
  - intros j r' Hj. rewrite (dec_state_at s1 id r j Hr1) in Hj. case_decide as E; [| by apply K1].
    subst j. exists r. split; [done |]. unfold unref in Hj. destruct (_ =? 0); [done |]. by injection Hj as <-.
Qed.

Lemma revoke_children_spec fuel id : ∀ cs,
  (∀ c s0, forest s0 → 0 <= c < zlen (RESOURCES s0) → zlen (RESOURCES s0) - c < Z.of_nat fuel →
     ∃ s', revoke fuel c [] s0 = Done ((), [], s') ∧ cuts [c] s0 s') →
  ∀ s, forest s → 0 <= id → zlen (RESOURCES s) - id <= Z.of_nat fuel →
  NoDup cs → (∀ c, c ∈ cs → child s id c) →
  ∃ s', revoke_children (revoke fuel) cs [] s = Done ((), [], s') ∧ cuts cs s s'.
Proof.
  intros cs IH. induction cs as [| c cs IHcs]; intros s Hf Hid Hfuel Hnd Hcs; cbn.
  { exists s. split; [done |]. split; [done | | done | by eauto]. by intros j (d & Hd%not_elem_of_nil & _). }
  apply NoDup_cons in Hnd as [Hnin Hnd].
  assert (child s id c) as Hc by apply Hcs, list_elem_of_here.
  pose proof (f_later s Hf _ _ Hc) as Hcl.
  destruct (IH c s Hf) as (s1 & E & H1); [lia.. |]. cstep E.
  assert (∀ d, d ∈ cs → child s id d ∧ c ≠ d) as Hd.
  { intros d Hd. split; [by apply Hcs; right | by intros <-]. }
  destruct (IHcs s1) as (s2 & E2 & H2); try done.
  - by eapply cuts_forest.
  - by rewrite (ct_len _ _ _ H1).
  - intros d Hin. destruct (Hd d Hin) as [(r & Hr & Hk) _]. exists r. split; [| done].
    rewrite (ct_other _ _ _ H1); [done |]. intros Hb%below_one%derived_later_rtc; [lia | apply Hf].
  - exists s2. split; [done |]. apply (cuts_cons c cs s s1 s2); try done.
    intros k (d & Hin & Hr) Hb%below_one. destruct (Hd d Hin). by apply (children_apart s id c d k).
Qed.

Lemma revoke_spec fuel : ∀ id s,
  forest s → 0 <= id < zlen (RESOURCES s) → zlen (RESOURCES s) - id < Z.of_nat fuel →
  ∃ s', revoke fuel id [] s = Done ((), [], s') ∧ cuts [id] s s'.
Proof.
  induction fuel as [| fuel IH]; intros id s Hd Hid Hf; [lia |]. cbn [revoke].
  cstep (lock_free LResources [] s (not_elem_of_nil _)). cpure.
  destruct (aget_in_range (RESOURCES s) id Hid) as [o Ho].
  erewrite cmd_bind_Done; [| unfold lift; by rewrite Ho].
  apply aget_lookup in Ho as [? Ho].
  destruct o as [r |].
  - assert (res_at (RESOURCES s) id = Some r) as Hr by by apply res_at_Some.
    erewrite cmd_bind_Done; [| apply with_lock_run; [free_lock | done]].
    erewrite cmd_bind_Done; [| apply unlock_top, not_elem_of_nil].
    destruct (revoke_children_spec fuel id (derivation_children r) IH s) as (s1 & E & H1); try done; try lia.
    { by apply (f_once s Hd id). }
    { intros c Hc. by exists r. }
    cstep E. rewrite (dec_ref_run [] s1 unheld_nil id). eexists. split; [done |]. by apply (cuts_parent s id r).
  - exists s. rewrite unlock_top by apply not_elem_of_nil. split; [done |].
    assert (res_at (RESOURCES s) id = None) as Hn.
    { destruct (res_at _ _) as [r |] eqn:E; [| done]. apply res_at_Some in E as [_ E]. congruence. }
    split; [done | | done | by eauto]. intros j [-> | (k & (r & Hr & _) & _)]%below_one%rtc_inv; [by rewrite Hn |].
    congruence.
Qed.

Lemma delete_state_at s p r sl idx x q :
  inv s → res_at (RESOURCES s) (cnode_id p) = Some r → slots_of (data r) = Some sl →
  sl !! Z.to_nat idx = Some x → cap_type x ≠ CNull →
  res_at (RESOURCES s) (resource_id x) = Some q →
  let s' := delete_state s (cnode_id p) idx r sl x in
  slot_at s' (cnode_id p) idx = Some Slot_null ∧
  res_at (RESOURCES s') (resource_id x) =
    (if ref_count q =? 1 then None else Some (q <| ref_count := ref_count q - 1 |>)) ∧
  ∀ id, id ≠ cnode_id p → id ≠ resource_id x →
    res_at (RESOURCES s') id = res_at (RESOURCES s) id.
Proof.
  intros Hi Hr Hs Hx Hu Hq s'.
  pose proof (Forall_lookup_1 _ _ _ _ (cnode_slots_ok s _ r sl Hi Hr Hs) Hx) as Hok.
  unfold slot_ok, used_slot in Hok. rewrite bool_decide_eq_false_2 in Hok by done.
  destruct Hok as (Hc & q' & Hq' & Hty). assert (q' = q) as -> by congruence.
  assert (resource_id x ≠ cnode_id p) as Hne.
  { intros E. rewrite E, Hr in Hq. injection Hq as <-. apply Hc. rewrite <-Hty.
    apply (ro_type _ _ _ (i_res s Hi _ r Hr)). by rewrite Hs. }
  pose proof (ro_pos _ _ _ (i_res s Hi _ q Hq)) as Hpos.
  pose proof (res_at_range _ _ _ Hr) as Hrange.
  set (s1 := put s (cnode_id p) (Some (r <| data := RCNode (<[Z.to_nat idx := Slot_null]> sl) |>))).
  assert (res_at (RESOURCES s1) (resource_id x) = Some q) as Hq1
    by (subst s1; rewrite res_at_put by done; by rewrite decide_False).
  assert (∀ j, j ≠ resource_id x → res_at (RESOURCES s') j = res_at (RESOURCES s1) j) as Hj.
  { intros j Hj. subst s'. unfold delete_state. fold s1.
    by rewrite (dec_state_at s1 _ q j Hq1), decide_False. }
  split; [| split].
  - unfold slot_at. rewrite Hj by done. subst s1. rewrite res_at_put by done.
    rewrite decide_True by done. cbn. apply list_lookup_insert_eq. by eapply lookup_lt_Some.
  - subst s'. unfold delete_state. fold s1.
    rewrite (dec_state_at s1 _ q _ Hq1), decide_True by done. by apply unref_exact.
  - intros id ? ?. rewrite Hj by done. subst s1. rewrite res_at_put by done.
    by rewrite decide_False.
Qed.

(** ** Theorems *)

(** A concrete history: boot, process 7 is created and runs, and creates the
    endpoint 9; its capability sits in slot 0. *)
Definition final {A} (m : M A) (s : caps) : caps :=
  match m [] s with Done (_, _, s') => s' | _ => s end.

Definition ex_spawned : caps := final (add_process 7 32 0x80001000 None) booted.
Definition ex_running : caps := ex_spawned <| current_owner := Some 7 |>.
Definition ex_endpoint : caps := final (ep_create_cap 9) ex_running.

Definition ex_process : Process := Process_new 7 32 0x80001000 1 0 0.
Definition ex_slots : list Slot := MkSlot CEP 48 2 :: replicate 15 Slot_null.
Definition ex_cnode : Resource := MkResource 1 CCNode None [] (RCNode ex_slots).

Lemma ex_caps_reachable : reachable ex_endpoint.
Proof.
  apply rtc_l with ex_spawned.
  { eapply (step_spawn booted 7 32 0x80001000 None); [done | vm_compute; reflexivity]. }
  apply rtc_l with ex_running; [apply step_switch |].
  apply rtc_once. eapply (step_ep_create ex_running 9); [done | vm_compute; reflexivity].
Qed.

(** C4. In every reachable state the CNode of every process is live; every
    capability in a slot of a live CNode refers to a live resource of the
    capability's type, so that none dangles; and the reference count of every
    live resource covers the slots that refer to it. *)
Theorem reachable_caps_live (s : caps) :
  reachable s →
  (∀ p, p ∈ PROCESSES s → ∃ r sl, res_at (RESOURCES s) (cnode_id p) = Some r ∧
     data r = RCNode sl) ∧
  (∀ x, x ∈ all_slots s → cap_type x ≠ CNull →
     ∃ r, res_at (RESOURCES s) (resource_id x) = Some r ∧ res_type r = cap_type x) ∧
  (∀ id r, res_at (RESOURCES s) id = Some r → refs s id <= ref_count r).
Proof.
  intros Hi%caps_reachable_inv. split; [| split].
  - intros p Hp. destruct (proj1 (Forall_forall _ _) (i_procs s Hi) p Hp) as (r & Hr & Ht).
    apply (ro_type _ _ _ (i_res s Hi _ r Hr)) in Ht as [sl Hsl].
    exists r, sl. split; [done |]. by destruct (data r); simplify_eq/=.
  - intros x Hx Hn. pose proof (proj1 (Forall_forall _ _) (i_slots s Hi) x Hx) as Hok.
    unfold slot_ok, used_slot in Hok. rewrite bool_decide_eq_false_2 in Hok by done.
    by destruct Hok.
  - intros id r Hr. apply (ro_count _ _ _ (i_res s Hi id r Hr)).
Qed.

Lemma reachable_caps_live_witness :
  reachable ex_endpoint ∧ ∃ r, res_at (RESOURCES ex_endpoint) 2 = Some r ∧ res_type r = CEP.
Proof.
  split; [exact ex_caps_reachable |].
  apply (proj1 (proj2 (reachable_caps_live ex_endpoint ex_caps_reachable)) (MkSlot CEP 48 2)).
  - replace (all_slots ex_endpoint) with ex_slots by (vm_compute; reflexivity).
    apply list_elem_of_here.
  - done.
Defined.

(** From every reachable state, creating a process, creating an endpoint,
    granting the vector capability and deleting a capability return, without a
    panic or a deadlock, with every lock released. *)
Theorem cap_requests_return (s : caps) (p priority root ep target idx : Z)
    (par : option Z) :
  reachable s → NEXT_RESOURCE_ID s < 2 ^ 64 - 1 →
  (∃ c s', add_process p priority root par [] s = Done (c, [], s')) ∧
  (∃ s', ep_create_cap ep [] s = Done (Ok ep, [], s')) ∧
  (∃ r s', sys_cap_vector_enable target [] s = Done (r, [], s')) ∧
  (∃ r s', sys_delete idx [] s = Done (r, [], s')).
Proof.
  intros Hi%caps_reachable_inv Hr.
  destruct (add_process_run s p priority root par Hi Hr) as (? & ? & ? & _).
  destruct (ep_create_run s ep Hi Hr) as (? & ? & _).
  destruct (vector_enable_run s target Hi Hr) as (? & ? & ? & _).
  destruct (sys_delete_run s idx Hi) as (? & ? & ? & _).
  split_and!; eauto.
Qed.

Lemma cap_requests_return_witness :
  reachable ex_endpoint ∧ ∃ r s', sys_delete 0 [] ex_endpoint = Done (r, [], s').
Proof.
  split; [exact ex_caps_reachable |].
  apply (cap_requests_return ex_endpoint 8 32 0 10 7 0 None ex_caps_reachable).
  vm_compute; reflexivity.
Defined.

(** Deleting a capability in use: the slot becomes null, the resource it
    referred to loses one reference and is freed exactly when that was the
    last one, and no other resource changes. *)
Theorem sys_delete_correct (s : caps) (p : Process) (r q : Resource) (sl : list Slot)
    (idx : Z) (x : Slot) :
  reachable s →
  find_pid (PROCESSES s) (default 0 (current_owner s)) = Some p →
  res_at (RESOURCES s) (cnode_id p) = Some r → data r = RCNode sl →
  sl !! Z.to_nat idx = Some x → cap_type x ≠ CNull →
  res_at (RESOURCES s) (resource_id x) = Some q →
  ∃ s', sys_delete idx [] s = Done (Ok 0, [], s') ∧
    slot_at s' (cnode_id p) idx = Some Slot_null ∧
    res_at (RESOURCES s') (resource_id x) =
      (if ref_count q =? 1 then None else Some (q <| ref_count := ref_count q - 1 |>)) ∧
    ∀ id, id ≠ cnode_id p → id ≠ resource_id x →
      res_at (RESOURCES s') id = res_at (RESOURCES s) id.
Proof.
  intros Hi%caps_reachable_inv Hp Hr Hd Hx Hu Hq.
  assert (slots_of (data r) = Some sl) as Hs by (by rewrite Hd).
  destruct (delete_state_at s p r sl idx x q Hi Hr Hs Hx Hu Hq) as (H1 & H2 & H3).
  exists (delete_state s (cnode_id p) idx r sl x). split; [| done].
  unfold sys_delete. rewrite (try_bind_Done _ _ _ _ _ _ _ (caller_cnode_run s)), Hp.
  cbn [fmap option_fmap option_map ok_or].
  pose proof (delete_cap_run s (cnode_id p) idx r sl Hr Hs) as Hdel. rewrite Hx in Hdel.
  by rewrite (try_bind_Done _ _ _ _ _ _ _ Hdel).
Qed.

Lemma sys_delete_correct_witness :
  ∃ s', sys_delete 0 [] ex_endpoint = Done (Ok 0, [], s') ∧
    res_at (RESOURCES s') 2 = None.
Proof.
  destruct (sys_delete_correct ex_endpoint ex_process ex_cnode
    (MkResource 1 CEP None [] (REP 9)) ex_slots 0 (MkSlot CEP 48 2) ex_caps_reachable)
    as (s' & ? & _ & ? & _);
    [vm_compute; reflexivity .. | done | vm_compute; reflexivity |].
  exists s'. split; assumption.
Defined.

(** Minting a capability never succeeds.  For a process whose CNode is
    live, [sys_mint] refuses rights its source slot does not carry, records
    the attempt (operation 4) in the audit log and changes nothing else; a
    null or absent source slot gives an error; and every request that passes
    these checks blocks for ever, because [mint] takes the lock of [RESOURCES]
    again while it holds it. *)
Theorem sys_mint_never_succeeds (s : caps) (p : Process) (r : Resource)
    (sl : list Slot) (idx desired : Z) :
  find_pid (PROCESSES s) (default 0 (current_owner s)) = Some p →
  res_at (RESOURCES s) (cnode_id p) = Some r → data r = RCNode sl →
  zlen (CAP_AUDIT_LOG s) = 256 →
  let slot := default Slot_null (sl !! Z.to_nat idx) in
  sys_mint idx desired [] s =
    if negb (Z.ldiff desired (rights slot) =? 0) then
      Done (Err "rights escalation denied"%string, [],
        s <| CAP_AUDIT_LOG := <[Z.to_nat (CAP_AUDIT_IDX s mod 256) :=
               (default 0 (current_owner s), 4, idx, TICK_COUNT s)]> (CAP_AUDIT_LOG s) |>
          <| CAP_AUDIT_IDX := u64 (CAP_AUDIT_IDX s + 1) |>)
    else if used_slot slot then Deadlock
    else Done (Err "mint failed"%string, [], s).
Proof. apply sys_mint_run. Qed.

Lemma sys_mint_never_succeeds_witness :
  sys_mint 0 RIGHT_SEND [] ex_endpoint = Deadlock.
Proof.
  rewrite (sys_mint_never_succeeds ex_endpoint ex_process ex_cnode ex_slots 0 RIGHT_SEND);
    vm_compute; reflexivity.
Defined.

(** Copying or moving a capability never succeeds.  [sys_copy] and
    [sys_move] either report an error and leave the state as it is, or, on
    every source slot that holds a capability, block for ever, because
    [copy_cap] calls [inc_ref] while it holds the lock of [RESOURCES]. *)
Theorem sys_copy_never_succeeds (s : caps) (src_idx dst_pid dst_idx : Z) :
  (sys_copy src_idx dst_pid dst_idx [] s = Deadlock ∨
   ∃ e, sys_copy src_idx dst_pid dst_idx [] s = Done (Err e, [], s)) ∧
  (sys_move src_idx dst_pid dst_idx [] s = Deadlock ∨
   ∃ e, sys_move src_idx dst_pid dst_idx [] s = Done (Err e, [], s)) ∧
  ∀ p q, find_pid (PROCESSES s) (default 0 (current_owner s)) = Some p →
    find_pid (PROCESSES s) dst_pid = Some q → copyable s (cnode_id p) src_idx = true →
    sys_copy src_idx dst_pid dst_idx [] s = Deadlock ∧
    sys_move src_idx dst_pid dst_idx [] s = Deadlock.
Proof. apply sys_copy_run. Qed.

Lemma sys_copy_never_succeeds_witness :
  sys_copy 0 7 3 [] ex_endpoint = Deadlock.
Proof.
  apply (proj2 (proj2 (sys_copy_never_succeeds ex_endpoint 0 7 3)) ex_process ex_process);
    vm_compute; reflexivity.
Defined.

(** C37. Where the derivation records form a forest, as [mint] makes them,
    [revoke] ends, and the length of the resource vector is fuel enough.  It takes
    exactly one reference from the resource it is called on and from every live
    resource derived from it, directly or not, freeing each of them exactly when
    that was its last one, and changes no other resource. *)
Theorem revoke_correct (s : caps) (id : Z) :
  forest s → 0 <= id < zlen (RESOURCES s) →
  (∀ j r, rtc (child s) id j → res_at (RESOURCES s) j = Some r → 0 < ref_count r < 2 ^ 64) →
  ∃ s', revoke (S (length (RESOURCES s))) id [] s = Done ((), [], s') ∧
    (∀ j r, rtc (child s) id j → res_at (RESOURCES s) j = Some r →
       res_at (RESOURCES s') j =
         if ref_count r =? 1 then None else Some (r <| ref_count := ref_count r - 1 |>)) ∧
    (∀ j, res_at (RESOURCES s) j = None ∨ ¬ rtc (child s) id j →
       res_at (RESOURCES s') j = res_at (RESOURCES s) j).
Proof.
  intros Hf Hid Hc. destruct (revoke_spec (S (length (RESOURCES s))) id s Hf Hid) as (s' & E & [_ B O K]).
  { unfold zlen. lia. }
  exists s'. split; [done |]. split.
  - intros j r Hj Hr. specialize (Hc j r Hj Hr). rewrite B by (by apply below_one). rewrite Hr. by apply unref_exact.
  - intros j [Hn | Hn]; [| apply O; by rewrite below_one]. rewrite Hn.
    destruct (res_at (RESOURCES s') j) as [r' |] eqn:Ej; [| done].
    destruct (K j r' Ej) as (r & Hr & _). congruence.
Qed.

(** Resource 1 has the derived resource 2, and that one the derived resource 3;
    resource 4 is not derived. *)
Definition ex_derived : caps :=
  booted <| RESOURCES := [None; Some (MkResource 2 CMem None [2] (RMem 4096 4096));
                          Some (MkResource 1 CMem (Some 1) [3] (RMem 4096 4096));
                          Some (MkResource 5 CMem (Some 2) [] (RMem 4096 4096));
                          Some (MkResource 1 CMem None [] (RMem 8192 4096))] |>.

Lemma ex_derived_child i j : child ex_derived i j → i = 1 ∧ j = 2 ∨ i = 2 ∧ j = 3.
Proof.
  intros (r & [? Hr]%res_at_Some & Hj).
  destruct (Z.to_nat i) as [| [| [| [| [|]]]]] eqn:E; cbn in Hr; try done; injection Hr as <-; cbn in Hj;
    try (by apply not_elem_of_nil in Hj); apply list_elem_of_singleton in Hj as ->; lia.
Qed.

Lemma ex_derived_forest : forest ex_derived.
Proof.
  split.
  - intros i j [[-> ->] | [-> ->]]%ex_derived_child; by vm_compute.
  - intros i r [? Hr]%res_at_Some.
    destruct (Z.to_nat i) as [| [| [| [| [|]]]]] eqn:E; cbn in Hr; try done; injection Hr as <-; cbn;
      apply NoDup_nil || apply NoDup_singleton; done.
  - intros i i' j H%ex_derived_child H'%ex_derived_child. lia.
Qed.

(** Revoking resource 1 frees resource 2, whose last reference it takes, takes one
    from resource 3, and leaves resource 4 alone. *)
Lemma revoke_correct_witness :
  ∃ s', revoke 6 1 [] ex_derived = Done ((), [], s') ∧
    res_at (RESOURCES s') 2 = None ∧
    res_at (RESOURCES s') 3 = Some (MkResource 4 CMem (Some 2) [] (RMem 4096 4096)) ∧
    res_at (RESOURCES s') 4 = Some (MkResource 1 CMem None [] (RMem 8192 4096)).
Proof.
  destruct (revoke_correct ex_derived 1 ex_derived_forest) as (s' & E & Hb & Ho); [by vm_compute | |].
  - intros j r _ [? Hr]%res_at_Some.
    destruct (Z.to_nat j) as [| [| [| [| [|]]]]] eqn:E; cbn in Hr; try done; injection Hr as <-; cbn; lia.
  - assert (child ex_derived 1 2) as H12 by (eexists; split; [reflexivity | by left]).
    assert (child ex_derived 2 3) as H23 by (eexists; split; [reflexivity | by left]).
    exists s'. split; [exact E |]. split; [| split].
    + by apply (Hb 2 _ (rtc_once _ _ H12) eq_refl).
    + by apply (Hb 3 _ (rtc_l _ _ _ _ H12 (rtc_once _ _ H23)) eq_refl).
    + rewrite Ho; [done |]. right. intros [? | (k & [[_ ->] | [? _]]%ex_derived_child & Hr)]%rtc_inv; [done | | done].
      apply rtc_inv in Hr as [? | (k & [[? _] | [_ ->]]%ex_derived_child & Hr)]; [done | done |].
      apply rtc_inv in Hr as [? | (k & [[? _] | [? _]]%ex_derived_child & Hr)]; done.
Defined.

End Cap.
