(* ===== verification/Zicond.v ===== *)
(** * Branchless selection

    kernel/src/mem/zicond.rs and the scheduler helpers built on it
    (kernel/src/sched/mod.rs, [clamp_priority] and [compute_slice_ticks]).

    The two assembly blocks of [cmov_u64] and the probe of [init_zicond] emit
    [.insn r 0x13, 0x7, f, rd, rs1, rs2].  Major opcode 0x13 with minor opcode
    7 is the base instruction [andi], and the fields [f] and [rs2] of the word
    are its immediate: the number of the register that holds [rs2] takes part,
    its value does not.  [insn_13_7] is what a hart executes; [czero_eqz] and
    [czero_nez] are the instructions the comments intend.  The registers are
    the compiler's choice, and arguments here.  An [i64] is a [Z] in the
    signed range. *)
From S2P Require Import Prelude.

(** The flag [ZICOND_AVAILABLE] and the numbers of the registers that hold
    [cond_mask] in the two assembly blocks of [cmov_u64]. *)
Record zicond : Type := MkZicond { ZICOND_AVAILABLE : bool; reg_eqz : Z; reg_nez : Z }.

Definition insn_13_7 (funct7 rs1 reg2 : Z) : Z :=
  Z.land rs1 (u64 (to_signed 12 (Z.lor (Z.shiftl funct7 5) reg2))).

Definition czero_eqz (rs1 rs2 : Z) : Z := if rs2 =? 0 then 0 else rs1.
Definition czero_nez (rs1 rs2 : Z) : Z := if negb (rs2 =? 0) then 0 else rs1.

(** [set_zicond_available], called when the probe gives 0; [reg] holds the
    condition of the probe. *)
Definition init_zicond (reg : Z) (z : zicond) : zicond :=
  let out := insn_13_7 0x31 42 reg in
  if out =? 0 then MkZicond true (reg_eqz z) (reg_nez z) else z.

Section zicond.
Context (z : zicond).

Definition cmov_u64 (cond : bool) (a b : Z) : Z :=
  if ZICOND_AVAILABLE z then
    let result_a := insn_13_7 0x00 a (reg_eqz z) in
    let result_b := insn_13_7 0x01 b (reg_nez z) in
    Z.lor result_a result_b
  else if cond then a else b.

Definition cset_u64 (cond : bool) : Z := cmov_u64 cond 1 0.

Definition max_u64 (a b : Z) : Z := cmov_u64 (b <? a) a b.
Definition min_u64 (a b : Z) : Z := cmov_u64 (a <? b) a b.

Definition max_i64 (a b : Z) : Z := to_signed 64 (cmov_u64 (b <? a) (u64 a) (u64 b)).
Definition min_i64 (a b : Z) : Z := to_signed 64 (cmov_u64 (a <? b) (u64 a) (u64 b)).

Definition clamp_u64 (val lo hi : Z) : Z :=
  cmov_u64 (hi <? cmov_u64 (val <? lo) lo val) hi (cmov_u64 (val <? lo) lo val).

Definition clamp_i64 (val lo hi : Z) : Z :=
  to_signed 64 (clamp_u64 (u64 val) (u64 lo) (u64 hi)).

(** [val >> 63] is an arithmetic shift. *)
Definition abs_i64 (val : Z) : Z :=
  let mask := u64 (Z.shiftr val 63) in
  to_signed 64 (u64 (Z.lxor (u64 val) mask - mask)).

Definition saturating_add_u64 (a b : Z) : Z :=
  let sum := u64 (a + b) in cmov_u64 (sum <? a) (2 ^ 64 - 1) sum.

Definition saturating_sub_u64 (a b : Z) : Z :=
  let diff := u64 (a - b) in cmov_u64 (a <? diff) 0 diff.

Definition higher_priority (a b : Z) : Z := max_u64 a b.
Definition earlier_deadline (a b : Z) : Z := min_u64 a b.

Definition not_u64 (x : Z) : Z := 2 ^ 64 - 1 - x.

Definition should_select_thread (prio_a prio_b deadline_a deadline_b : Z) : bool :=
  let same_prio := prio_a =? prio_b in
  cmov_u64 same_prio deadline_a (not_u64 prio_a) <?
  cmov_u64 same_prio deadline_b (not_u64 prio_b).

(** Scheduler helpers. *)
Definition clamp_priority (prio : Z) : Z := u8 (clamp_u64 prio 0 63).

Definition compute_slice_ticks (weight : Z) : Z := 1 * 512 / cmov_u64 (weight <? 1) 1 weight.

(** The self-test of [optimize_hot_paths]. *)
Definition test_zicond_operations : bool :=
  (cmov_u64 true 42 100 =? 42) && (cmov_u64 false 42 100 =? 100) &&
  (cset_u64 true =? 1) && (cset_u64 false =? 0) &&
  (max_u64 10 20 =? 20) && (min_u64 10 20 =? 10) &&
  (max_i64 (-5) 3 =? 3) && (min_i64 (-5) 3 =? -5) &&
  (clamp_u64 50 10 30 =? 30) && (clamp_u64 5 10 30 =? 10) && (clamp_u64 20 10 30 =? 20) &&
  (abs_i64 (-42) =? 42) && (abs_i64 42 =? 42) && (abs_i64 0 =? 0) &&
  (saturating_add_u64 (2 ^ 64 - 1) 1 =? 2 ^ 64 - 1) && (saturating_add_u64 100 50 =? 150) &&
  (saturating_sub_u64 0 1 =? 0) && (saturating_sub_u64 100 50 =? 50).

Lemma cmov_spec cond a b :
  ZICOND_AVAILABLE z = false → cmov_u64 cond a b = if cond then a else b.
Proof. unfold cmov_u64. by intros ->. Qed.

Lemma to_signed_wrap x : - 2 ^ 63 <= x < 2 ^ 63 → to_signed 64 (u64 x) = x.
Proof.
  intros Hx. unfold to_signed, wrap. rewrite Zmod_mod.
  change (2 ^ (64 - 1)) with (2 ^ 63). destruct (_ <? _) eqn:E; bools; dlia.
Qed.

Lemma lxor_ones y : 0 <= y < 2 ^ 64 → Z.lxor y (Z.ones 64) = 2 ^ 64 - 1 - y.
Proof.
  intros Hy. enough (Z.lxor y (Z.ones 64) + y = Z.ones 64) as E
    by (change (Z.ones 64) with (2 ^ 64 - 1) in E at 2; lia).
  rewrite Z.add_nocarry_lxor.
  - rewrite Z.lxor_comm, <-Z.lxor_assoc, Z.lxor_nilpotent. apply Z.lxor_0_l.
  - apply Z.bits_inj'. intros n Hn. rewrite Z.land_spec, Z.lxor_spec, Z.bits_0.
    destruct (decide (n < 64)).
    + rewrite Z.ones_spec_low by lia. by destruct (Z.testbit y n).
    + assert (Z.testbit y n = false) as ->; [| by rewrite andb_false_r].
      rewrite <-(Z.mod_small y (2 ^ 64)) by lia. apply Z.mod_pow2_bits_high. lia.
Qed.

Lemma abs_i64_spec x : - 2 ^ 63 < x < 2 ^ 63 → abs_i64 x = Z.abs x.
Proof.
  intros Hx. unfold abs_i64. rewrite Z.shiftr_div_pow2 by lia.
  destruct (decide (0 <= x)).
  - replace (x / 2 ^ 63) with 0 by dlia. change (u64 0) with 0.
    rewrite Z.lxor_0_r, Z.sub_0_r. rewrite (wrap_small 64 x) by (unfold fits; lia).
    rewrite to_signed_wrap by lia. lia.
  - replace (x / 2 ^ 63) with (-1) by dlia. change (u64 (-1)) with (Z.ones 64).
    rewrite lxor_ones by apply Z.mod_pos_bound, eq_refl.
    change (Z.ones 64) with (2 ^ 64 - 1).
    replace (u64 x) with (x + 2 ^ 64) by (unfold wrap; dlia).
    replace (2 ^ 64 - 1 - (x + 2 ^ 64) - (2 ^ 64 - 1)) with (- x - 2 ^ 64) by lia.
    replace (u64 (- x - 2 ^ 64)) with (u64 (- x)) by (unfold wrap; dlia).
    rewrite to_signed_wrap by lia. lia.
Qed.
End zicond.

(** A property of the 32 registers, by evaluation. *)
Lemma registers (P : Z → bool) r : forallb P (zseq 0 32) = true → 0 <= r < 32 → P r = true.
Proof. intros H Hr. eapply forallb_forall; [exact H |]. apply list_elem_of_In, elem_of_zseq. lia. Qed.

Lemma init_zicond_id reg z : 0 <= reg < 32 → init_zicond reg z = z.
Proof.
  intros Hr. unfold init_zicond.
  by rewrite (proj1 (negb_true_iff _)
    (registers (λ r, negb (insn_13_7 0x31 42 r =? 0)) reg eq_refl Hr)).
Qed.

(** In the kernel as it boots, with the flag clear before [init_zicond] and
    whatever registers the compiler chooses, the branchless helpers compute
    what their names say: selection, maximum and minimum (unsigned and
    signed), unsigned clamping into a non-empty range, absolute value away
    from the least [i64], saturating addition and subtraction; the scheduler's
    comparison prefers the higher priority and, at equal priority, the earlier
    deadline; the clamped priority is a valid queue index; and the self-test
    succeeds. *)
Theorem branchless_equiv (reg r1 r2 a b c : Z) :
  0 <= reg < 32 → fits 64 a → fits 64 b → fits 64 c →
  let z := init_zicond reg (MkZicond false r1 r2) in
  (∀ cond, cmov_u64 z cond a b = if cond then a else b) ∧
  max_u64 z a b = Z.max a b ∧ min_u64 z a b = Z.min a b ∧
  (∀ x y, - 2 ^ 63 <= x < 2 ^ 63 → - 2 ^ 63 <= y < 2 ^ 63 →
     max_i64 z x y = Z.max x y ∧ min_i64 z x y = Z.min x y) ∧
  (b <= c → clamp_u64 z a b c = Z.max b (Z.min a c)) ∧
  (∀ x, - 2 ^ 63 < x < 2 ^ 63 → abs_i64 x = Z.abs x) ∧
  saturating_add_u64 z a b = Z.min (a + b) (2 ^ 64 - 1) ∧
  saturating_sub_u64 z a b = Z.max (a - b) 0 ∧
  (∀ da db, should_select_thread z a b da db = true ↔ b < a ∨ a = b ∧ da < db) ∧
  clamp_priority z a = Z.min a 63 ∧ test_zicond_operations z = true.
Proof.
  unfold fits. intros Hreg Ha Hb Hc. rewrite init_zicond_id by done.
  set (z := MkZicond false r1 r2).
  assert (∀ cond x y, cmov_u64 z cond x y = if cond then x else y) as Hm
    by (intros; by apply cmov_spec).
  split_and!; [intros; apply Hm | | | | | apply abs_i64_spec | | | | | done].
  - unfold max_u64. rewrite Hm. if_split; lia.
  - unfold min_u64. rewrite Hm. if_split; lia.
  - intros x y Hx Hy. unfold max_i64, min_i64. rewrite !Hm.
    split; if_split; rewrite to_signed_wrap; lia.
  - intros Hbc. unfold clamp_u64. rewrite !Hm. if_split; lia.
  - unfold saturating_add_u64. rewrite Hm. unfold wrap. if_split; dlia.
  - unfold saturating_sub_u64. rewrite Hm. unfold wrap. if_split; dlia.
  - intros da db. unfold should_select_thread, not_u64. rewrite !Hm.
    destruct (a =? b) eqn:E; bools; rewrite Z.ltb_lt; lia.
  - unfold clamp_priority, clamp_u64. rewrite !Hm.
    rewrite wrap_small by (unfold fits; if_split; lia). if_split; lia.
Qed.

Definition ex_zicond : zicond := init_zicond 11 (MkZicond false 10 11).

Lemma branchless_equiv_witness :
  fits 64 7 ∧ saturating_sub_u64 ex_zicond 7 9 = 0 ∧
  should_select_thread ex_zicond 7 9 5 4 = false.
Proof.
  assert (fits 64 7 ∧ fits 64 9) as [H7 H9] by (split; split; done).
  pose proof (branchless_equiv 11 10 11 7 9 9 ltac:(lia) H7 H9 H9) as H.
  split; [exact H7 |]. split; [apply H |]. vm_compute. reflexivity.
Defined.

(** The conditional instructions are never used, and would not work.  The
    probe emits an [andi] that leaves bit 5 of its operand, so [init_zicond]
    never sets the flag, in any register; and with the flag set [cmov_u64]
    would select neither operand, as its condition takes no part: the
    self-test of the source would fail, while the instructions its comments
    describe do make the selection. *)
Theorem zicond_never_used (reg : Z) (z : zicond) :
  0 <= reg < 32 → 0 <= reg_eqz z < 32 → 0 <= reg_nez z < 32 →
  ZICOND_AVAILABLE (init_zicond reg z) = ZICOND_AVAILABLE z ∧
  (ZICOND_AVAILABLE z = true →
   (∀ a b, cmov_u64 z true a b = cmov_u64 z false a b) ∧ test_zicond_operations z = false) ∧
  (∀ (a b : Z) (cond : bool), let m := if cond then 1 else 0 in
     Z.lor (czero_eqz a m) (czero_nez b m) = if cond then a else b).
Proof.
  intros Hr H1 H2. rewrite init_zicond_id by done. split_and!; [done | |].
  - intros Hz. assert (∀ a b, cmov_u64 z true a b = cmov_u64 z false a b) as E
      by (intros; unfold cmov_u64; by rewrite Hz).
    split; [done |]. unfold test_zicond_operations. rewrite E.
    destruct (cmov_u64 z false 42 100 =? 42) eqn:E1; [| done].
    apply Z.eqb_eq in E1. by rewrite E1.
  - intros a b []; cbn; [apply Z.lor_0_r | done].
Qed.

Lemma zicond_never_used_witness :
  test_zicond_operations (MkZicond true 10 11) = false.
Proof. by apply (zicond_never_used 12 (MkZicond true 10 11)). Defined.

(** In the booted kernel [clamp_i64] compares its arguments as unsigned
    numbers: for a negative value inside a range that reaches from it to zero
    or above, it returns the upper bound instead of the value. *)
Theorem clamp_i64_unsigned (reg r1 r2 val lo hi : Z) :
  0 <= reg < 32 → - 2 ^ 63 <= lo → lo <= val < 0 → 0 <= hi < 2 ^ 63 →
  clamp_i64 (init_zicond reg (MkZicond false r1 r2)) val lo hi = hi.
Proof.
  intros Hreg Hlo Hval Hhi. rewrite init_zicond_id by done.
  unfold clamp_i64, clamp_u64. rewrite !cmov_spec by done.
  replace (u64 val) with (val + 2 ^ 64) by (unfold wrap; dlia).
  replace (u64 lo) with (lo + 2 ^ 64) by (unfold wrap; dlia).
  rewrite (wrap_small 64 hi) by (unfold fits; lia).
  rewrite <-(to_signed_wrap hi) at 3 by lia.
  rewrite (wrap_small 64 hi) by (unfold fits; lia).
  if_split; lia || done.
Qed.

Lemma clamp_i64_unsigned_witness : clamp_i64 ex_zicond (-5) (-10) 10 = 10.
Proof. apply (clamp_i64_unsigned 11 10 11 (-5) (-10) 10); lia. Defined.
