(* ===== verification/Sched.v ===== *)
(** * The scheduler

    kernel/src/sched/mod.rs and the run queues of kernel/src/numa/mod.rs: per
    NUMA node 64 priority levels with a bitmap of the non-empty ones, each
    level a queue sorted by EEVDF deadline; picking, enqueueing, load
    balancing, preemption, time-slice extension and priority donation.  The
    kernel's own consistency check of the queues, [check_node_queues], is part
    of the model, and the invariant below implies that it always succeeds.

    Threads live in the heap [threads] (see Proc.v).  The hart that runs the
    code is an argument.  The registers exchanged by a context switch are
    modelled by [Proc.context_switch]; vector state and the counter of context
    switches are not part of the state. *)
From S2P Require Import Prelude Proc Queue Zicond.

Module Sched.

Definition MAX_NODES : Z := 8.
Definition NUM_PRIORITIES : Z := 64.
Definition BALANCE_INTERVAL : Z := 1000.
Definition BALANCE_THRESHOLD : Z := 25.
Definition SLICE_TICKS : Z := 1.
Definition WEIGHT_MAX : Z := 512.

Record NumaReadyQueues : Type := MkQueues {
  queues : list (vqueue Z);
  priority_bitmap : Z;
  thread_count : Z;
}.
#[export] Instance NumaReadyQueues_eta : Eta NumaReadyQueues := λ q,
  MkQueues (queues q) (priority_bitmap q) (thread_count q).

Definition NumaReadyQueues_new : NumaReadyQueues :=
  MkQueues (replicate 64 empty_queue) 0 0.

Record NumaNode : Type := MkNode {
  n_node_id : Z;
  cpu_mask : Z;
  memory_base : Z;
  memory_size : Z;
  free_pages : Z;
  total_pages : Z;
  local_pages : Z;
}.

Record sched : Type := MkSched {
  threads : heap;
  NODE_QUEUES : list NumaReadyQueues;
  NUMA_NODES : list NumaNode;
  NUMA_NODE_COUNT : Z;
  BALANCE_TICK : Z;
  current : option Z;
  pick_count : list Z;
  PER_CPU : list (option Z);
  PROCESSES : list Process;
}.
#[export] Instance sched_eta : Eta sched := λ s,
  MkSched (threads s) (NODE_QUEUES s) (NUMA_NODES s) (NUMA_NODE_COUNT s)
    (BALANCE_TICK s) (current s) (pick_count s) (PER_CPU s) (PROCESSES s).

Inductive sched_lock : Type := LSched | LNumaNodes | LProcesses | LNode (i : Z).
#[export] Instance sched_lock_eq_dec : EqDecision sched_lock.
Proof. solve_decision. Defined.

Abbreviation M := (cmd sched_lock sched).

Definition deref_thread (t : Z) : M Thread := s ← get; lift (deref (threads s) t).
Definition store_thread (t : Z) (th : Thread) : M () :=
  s ← get;
  hp ← lift (store (threads s) t th);
  modify (λ s, s <| threads := hp |>).

(** ** Topology (numa/mod.rs) *)

Definition default_node : NumaNode := MkNode 0 0xFF 0x80000000 (128 * 1024 * 1024) 0 0 0.

Definition register_node (id mask base size : Z) : M () :=
  with_lock LNumaNodes (
    if id <? MAX_NODES then
      s ← get;
      nodes ← lift (aset (NUMA_NODES s) id
                 (MkNode id mask base size (size / 4096) (size / 4096) 0));
      modify (λ s, s <| NUMA_NODES := nodes |>
        <| NUMA_NODE_COUNT := if NUMA_NODE_COUNT s <=? id then id + 1 else NUMA_NODE_COUNT s |>)
    else mret ()).

(** The first registered node with the bit of the hart in its mask. *)
Fixpoint hart_node_loop (nodes : list NumaNode) (hart : Z) (ids : list Z) : outcome Z :=
  match ids with
  | [] => Done 0
  | i :: ids' =>
      n ← aget nodes i;
      if Z.testbit (cpu_mask n) (hart mod 64) then Done (n_node_id n)
      else hart_node_loop nodes hart ids'
  end.

Definition hart_to_node (hart : Z) : M Z :=
  s ← get;
  with_lock LNumaNodes (
    lift (hart_node_loop (NUMA_NODES s) hart (zseq 0 (NUMA_NODE_COUNT s)))).

Fixpoint addr_node_loop (nodes : list NumaNode) (pa : Z) (ids : list Z) : outcome Z :=
  match ids with
  | [] => Done 0
  | i :: ids' =>
      n ← aget nodes i;
      if (memory_base n <=? pa) && (pa <? u64 (memory_base n + memory_size n))
      then Done (n_node_id n) else addr_node_loop nodes pa ids'
  end.

Definition addr_to_node (pa : Z) : M Z :=
  s ← get;
  with_lock LNumaNodes (
    lift (addr_node_loop (NUMA_NODES s) pa (zseq 0 (NUMA_NODE_COUNT s)))).

Definition node_cpu_mask (node : Z) : M Z :=
  with_lock LNumaNodes (
    s ← get;
    if node <? MAX_NODES then n ← lift (aget (NUMA_NODES s) node); mret (cpu_mask n)
    else mret 0).

(** ** Enqueueing *)

Definition update_eevdf_deadline (th : Thread) : Thread :=
  let w := Z.max (weight th) 1 in
  let slice := SLICE_TICKS * WEIGHT_MAX / w in
  th <| deadline := u64 (vruntime th + slice) |>.

Definition thread_deadline (hp : heap) (t : Z) : outcome Z :=
  th ← deref hp t; Done (deadline th).

Definition enqueue_eevdf (hp : heap) (t : Z) (q : NumaReadyQueues)
    : outcome NumaReadyQueues :=
  th ← deref hp t;
  let pri := effective_priority th in
  if NUM_PRIORITIES <=? pri then Done q else
  level ← aget (queues q) pri;
  level' ← insert_sorted_by_deadline (thread_deadline hp) level t (deadline th);
  qs ← aset (queues q) pri level';
  Done (MkQueues qs (Z.lor (priority_bitmap q) (Z.shiftl 1 pri))
          (u64 (thread_count q + 1))).

(** What [enqueue_thread] writes to the thread before queueing it. *)
Definition requeued (th : Thread) : Thread :=
  let th1 := if decide (state th = TRunning)
             then th <| vruntime := u64 (vruntime th + WEIGHT_MAX / Z.max (weight th) 1) |>
             else th in
  update_eevdf_deadline th1 <| state := TReady |>.

Definition numa_enqueue_thread (t : Z) : M () :=
  th ← deref_thread t;
  _ ← store_thread t (requeued th);
  let node_idx := Z.min (node_id th) (MAX_NODES - 1) in
  with_lock (LNode node_idx) (
    s ← get;
    q ← lift (aget (NODE_QUEUES s) node_idx);
    q' ← lift (enqueue_eevdf (threads s) t q);
    qs ← lift (aset (NODE_QUEUES s) node_idx q');
    modify (λ s, s <| NODE_QUEUES := qs |>)).

(** ** Picking *)

(** [u64::leading_zeros]. *)
Definition leading_zeros (x : Z) : Z := if x =? 0 then 64 else 63 - Z.log2 x.

Definition pick_next_eevdf (hp : heap) (q : NumaReadyQueues)
    : outcome (option Z * heap * NumaReadyQueues) :=
  if priority_bitmap q =? 0 then Done (None, hp, q) else
  let highest := 63 - leading_zeros (priority_bitmap q) in
  level ← aget (queues q) highest;
  '(o, level') ← pop_front level;
  qs ← aset (queues q) highest level';
  match o with
  | None => Done (None, hp, q <| queues := qs |>)
  | Some t =>
      let bm := if is_empty level'
                then Z.ldiff (priority_bitmap q) (Z.shiftl 1 highest)
                else priority_bitmap q in
      th ← deref hp t;
      Done (Some t, <[t := th <| state := TRunning |>]> hp,
            MkQueues qs bm (u64 (thread_count q - 1)))
  end.

Definition pick_next (node : Z) : M (option Z) :=
  let node_idx := Z.min node (MAX_NODES - 1) in
  with_lock (LNode node_idx) (
    s ← get;
    q ← lift (aget (NODE_QUEUES s) node_idx);
    r ← lift (pick_next_eevdf (threads s) q);
    let '(o, hp, q') := r in
    qs ← lift (aset (NODE_QUEUES s) node_idx q');
    _ ← modify (λ s, s <| threads := hp |> <| NODE_QUEUES := qs |>);
    mret o).

Definition pick_next_for_hart (hart : Z) : M (option Z) :=
  node ← hart_to_node hart; pick_next node.

(** ** Load balancing *)

(** The scan over the nodes: busiest, idlest, and their loads. *)
Fixpoint balance_scan (s : sched) (ids : list Z) (busiest idlest max_load min_load : Z)
    : M (Z * Z * Z * Z) :=
  match ids with
  | [] => mret (busiest, idlest, max_load, min_load)
  | i :: ids' =>
      load ← with_lock (LNode i) (q ← lift (aget (NODE_QUEUES s) i); mret (thread_count q));
      let '(busiest, max_load) := if max_load <? load then (i, load) else (busiest, max_load) in
      let '(idlest, min_load) := if load <? min_load then (i, load) else (idlest, min_load) in
      balance_scan s ids' busiest idlest max_load min_load
  end.

(** The body of the critical section of [try_balance]; [target] is the node
    written to the thread. *)
Definition migrate_body (busiest idlest target : Z) : M () :=
  s ← get;
  q_busy ← lift (aget (NODE_QUEUES s) busiest);
  q_idle ← lift (aget (NODE_QUEUES s) idlest);
  r ← lift (pick_next_eevdf (threads s) q_busy);
  let '(o, hp, q_busy') := r in
  match o with
  | Some t =>
      th ← lift (deref hp t);
      let hp' := <[t := th <| node_id := u8 target |> <| state := TReady |>]> hp in
      q_idle' ← lift (enqueue_eevdf hp' t q_idle);
      qs ← lift (aset (NODE_QUEUES s) busiest q_busy');
      qs' ← lift (aset qs idlest q_idle');
      modify (λ s, s <| threads := hp' |> <| NODE_QUEUES := qs' |>)
  | None =>
      qs ← lift (aset (NODE_QUEUES s) busiest q_busy');
      modify (λ s, s <| threads := hp |> <| NODE_QUEUES := qs |>)
  end.

(** Both queues are locked, the one with the lower index first. *)
Definition migrate (busiest idlest : Z) : M () :=
  let '(first, second) := if busiest <? idlest then (busiest, idlest) else (idlest, busiest) in
  with_lock (LNode first) (
    with_lock (LNode second) (
      migrate_body busiest idlest (if busiest <? idlest then second else first))).

Definition try_balance : M () :=
  tick ← gets BALANCE_TICK;
  _ ← modify (λ s, s <| BALANCE_TICK := u64 (tick + 1) |>);
  if negb (tick mod BALANCE_INTERVAL =? 0) then mret () else
  count ← gets NUMA_NODE_COUNT;
  if count <? 2 then mret () else
  s ← get;
  r ← balance_scan s (zseq 0 count) 0 0 0 (2 ^ 64 - 1);
  let '(busiest, idlest, max_load, min_load) := r in
  if u64 (u64 (max_load - min_load) * 100) <=? u64 (max_load * BALANCE_THRESHOLD)
  then mret () else migrate busiest idlest.

(** ** The scheduler (sched/mod.rs) *)

Definition dequeue_highest (hart : Z) : M (option Z) :=
  o ← pick_next_for_hart hart;
  match o with
  | None => mret None
  | Some t =>
      s ← get;
      n ← lift (aget (pick_count s) hart);
      pc ← lift (aset (pick_count s) hart (u64 (n + 1)));
      _ ← modify (λ s, s <| pick_count := pc |>);
      mret (Some t)
  end.

(** The current thread goes back to the queues if it is still running. *)
Definition requeue_current (cur : option Z) : M () :=
  match cur with
  | Some c =>
      th ← deref_thread c;
      if decide (state th = TRunning) then numa_enqueue_thread c else mret ()
  | None => mret ()
  end.

(** [schedule] up to the context switch: the thread that was current and the
    one to run next.  The caller then exchanges their registers
    ([Proc.context_switch]), starts the next one when there was no current
    one, or idles. *)
Definition schedule (hart : Z) : M (option Z * option Z) :=
  with_lock LSched (
    cur ← gets current;
    _ ← requeue_current cur;
    next ← dequeue_highest hart;
    _ ← match next with
        | Some n => th ← deref_thread n; store_thread n (th <| last_cpu := u8 hart |>)
        | None => mret ()
        end;
    _ ← modify (λ s, s <| current := next |>);
    mret (cur, next)).

Definition enqueue_thread (t : Z) : M () := with_lock LSched (numa_enqueue_thread t).

Definition current_thread : M (option Z) := with_lock LSched (gets current).

(** [start_scheduler] up to the first context switch. *)
Definition start_scheduler (idle hart : Z) : M (option Z * option Z) :=
  _ ← with_lock LSched (modify (λ s, s <| current := Some idle |>));
  schedule hart.

(** ** Preemption *)

Definition check_preempt_lazy (t : Z) : M bool :=
  th ← deref_thread t;
  mret match preempt_mode th with
       | PImmediate => true
       | PLazy => remaining_ticks th =? 0
       | PNone => false
       end.

Definition set_preempt_mode (t : Z) (mode : PreemptMode) : M () :=
  th ← deref_thread t; store_thread t (th <| preempt_mode := mode |>).

Definition preempt_of (mode : Z) : option PreemptMode :=
  if mode =? 0 then Some PNone else if mode =? 1 then Some PLazy
  else if mode =? 2 then Some PImmediate else None.

(** The processes are scanned for the first one with the pid. *)
Definition sys_sched_setpreempt (p mode : Z) : M (result string Z) :=
  match preempt_of mode with
  | None => mret (Err "invalid preempt mode"%string)
  | Some m =>
      if p =? 0 then
        cur ← current_thread;
        match cur with
        | None => mret (Err "no thread"%string)
        | Some t => _ ← set_preempt_mode t m; mret (Ok 0)
        end
      else
        with_lock LProcesses (
          s ← get;
          match q ← find_pid (PROCESSES s) p; thread q with
          | Some t => _ ← set_preempt_mode t m; mret (Ok 0)
          | None => mret (Err "pid not found"%string)
          end)
  end.

(** The tail of [timer_interrupt] (trap/mod.rs): one tick of the current
    thread's slice, and whether to reschedule. *)
Definition timer_needs_resched : M bool :=
  cur ← current_thread;
  match cur with
  | None => mret true
  | Some t =>
      th ← deref_thread t;
      _ ← (if 0 <? remaining_ticks th
           then store_thread t (th <| remaining_ticks := remaining_ticks th - 1 |>)
           else mret ());
      check_preempt_lazy t
  end.

(** ** Priority donation *)

Definition proxy_start (blocker holder : Z) : M () :=
  b ← deref_thread blocker;
  _ ← store_thread blocker (b <| proxy_target := Some holder |>);
  h ← deref_thread holder;
  _ ← store_thread holder (h <| proxy_donor := Some blocker |>);
  b ← deref_thread blocker;
  h ← deref_thread holder;
  _ ← (if effective_priority h <? effective_priority b
       then store_thread holder (h <| effective_priority := effective_priority b |>)
       else mret ());
  b ← deref_thread blocker;
  h ← deref_thread holder;
  if remaining_ticks h <? remaining_ticks b
  then store_thread holder (h <| remaining_ticks := remaining_ticks b |>)
  else mret ().

Definition proxy_end (holder : Z) : M () :=
  h ← deref_thread holder;
  _ ← match proxy_donor h with
      | Some donor => d ← deref_thread donor; store_thread donor (d <| proxy_target := None |>)
      | None => mret ()
      end;
  h ← deref_thread holder;
  store_thread holder (h <| proxy_donor := None |>
                         <| effective_priority := base_priority h |>).

Definition resolve_proxy : M (option Z) :=
  cur ← current_thread;
  match cur with
  | None => mret None
  | Some t => th ← deref_thread t; mret (if proxy_donor th then Some t else None)
  end.

(** ** Time-slice extension *)

Definition SLICE_EXTENSION_TICKS : Z := 5.
Definition SLICE_EXTENSION_MAX : Z := 3.

Definition request_slice_extension : M () :=
  cur ← current_thread;
  match cur with
  | None => mret ()
  | Some t =>
      th ← deref_thread t;
      if slice_extension_enabled th && (slice_extension_count th <? SLICE_EXTENSION_MAX)
      then store_thread t
             (th <| remaining_ticks :=
                    Z.min (remaining_ticks th + SLICE_EXTENSION_TICKS) (2 ^ 64 - 1) |>
                 <| slice_extension_count := slice_extension_count th + 1 |>)
      else mret ()
  end.

Definition sys_set_slice_ext (enable : bool) : M (result string Z) :=
  cur ← current_thread;
  match cur with
  | None => mret (Err "no thread"%string)
  | Some t =>
      th ← deref_thread t;
      let th1 := th <| slice_extension_enabled := enable |> in
      _ ← store_thread t (if enable then th1 else th1 <| slice_extension_count := 0 |>);
      mret (Ok 0)
  end.

(** [sys_sched_setparam] (syscall/proc.rs) once the new priority, the low byte
    of a user word, has been read. *)
Definition sys_sched_setparam (p new_priority : Z) : M (result string Z) :=
  with_lock LProcesses (
    s ← get;
    match list_find (λ q, pid q = p) (PROCESSES s) with
    | None => mret (Err "process not found"%string)
    | Some (i, q) =>
        _ ← modify (λ s, s <| PROCESSES :=
              <[i := q <| p_base_priority := u8 new_priority |>]> (PROCESSES s) |>);
        match thread q with
        | Some t =>
            th ← deref_thread t;
            _ ← store_thread t (th <| effective_priority := u8 new_priority |>);
            mret (Ok 0)
        | None => mret (Ok 0)
        end
    end).

(** ** Comparisons of threads *)

Definition is_higher_priority (z : zicond) (hp : heap) (a b : Z) : outcome bool :=
  ta ← deref hp a;
  tb ← deref hp b;
  Done (should_select_thread z (effective_priority ta) (effective_priority tb)
          (deadline ta) (deadline tb)).

Definition pick_higher_priority_thread (z : zicond) (hp : heap) (a b : Z) : outcome Z :=
  sel ← is_higher_priority z hp a b; Done (cmov_u64 z sel a b).

(** [eevdf_tick]. *)
Definition eevdf_tick (t : Z) : M () :=
  th ← deref_thread t;
  store_thread t (update_eevdf_deadline
    (th <| vruntime := u64 (vruntime th + WEIGHT_MAX / Z.max (weight th) 1) |>)).

(** ** The kernel's consistency check of a node's queues

    [check_level] counts the threads of one level and clears [ok] when the
    bitmap disagrees with the queue or a thread is not ready. *)

Fixpoint check_threads (hp : heap) (ts : list Z) (ok : bool) (total : Z)
    : outcome (bool * Z) :=
  match ts with
  | [] => Done (ok, total)
  | t :: ts' =>
      th ← deref hp t;
      check_threads hp ts' (if decide (state th = TReady) then ok else false)
        (u64 (total + 1))
  end.

Definition check_level (hp : heap) (q : NumaReadyQueues) (prio : Z) (ok : bool) (total : Z)
    : outcome (bool * Z) :=
  level ← aget (queues q) prio;
  let has_bit := Z.testbit (priority_bitmap q) prio in
  let empty := is_empty level in
  let ok1 := if has_bit && empty then false
             else if negb has_bit && negb empty then false else ok in
  if empty then Done (ok1, total)
  else ts ← queue_iter level; check_threads hp ts ok1 total.

Fixpoint check_levels (hp : heap) (q : NumaReadyQueues) (prios : list Z) (ok : bool)
    (total : Z) : outcome (bool * Z) :=
  match prios with
  | [] => Done (ok, total)
  | prio :: prios' =>
      r ← check_level hp q prio ok total;
      let '(ok', total') := r in
      check_levels hp q prios' ok' total'
  end.

(** The flag [ok] after the check, and the number of threads. *)
Definition check_node_queues (node : Z) (ok : bool) : M (bool * Z) :=
  let node_idx := Z.min node (MAX_NODES - 1) in
  with_lock (LNode node_idx) (
    s ← get;
    q ← lift (aget (NODE_QUEUES s) node_idx);
    lift (check_levels (threads s) q (zseq 0 64) ok 0)).

Definition initial_sched : sched :=
  MkSched ∅ (replicate 8 NumaReadyQueues_new) (replicate 8 default_node) 1 0 None
    (replicate 4 0) (replicate 4 None) [].

(** ** The invariant of a node's queues *)

Definition dl (hp : heap) (t : Z) : Z :=
  match hp !! t with Some th => deadline th | None => 0 end.

Definition level (q : NumaReadyQueues) (p : Z) : list Z :=
  match queues q !! Z.to_nat p with Some v => contents v | None => [] end.

(** All threads queued on a node. *)
Definition queued (q : NumaReadyQueues) : list Z := mjoin (contents <$> queues q).

Definition is_ready (hp : heap) (t : Z) : Prop :=
  ∃ th, hp !! t = Some th ∧ state th = TReady.

Record level_ok (hp : heap) (v : vqueue Z) : Prop := {
  lo_queue : queue_ok v;
  lo_sorted : StronglySorted (λ a b, dl hp a <= dl hp b) (contents v);
  lo_ready : Forall (is_ready hp) (contents v);
}.

Record nq_ok (hp : heap) (q : NumaReadyQueues) : Prop := {
  nq_len : length (queues q) = 64%nat;
  nq_levels : Forall (level_ok hp) (queues q);
  nq_bits : 0 <= priority_bitmap q < 2 ^ 64;
  nq_bitmap : ∀ p, 0 <= p < 64 →
    Z.testbit (priority_bitmap q) p = true ↔ level q p ≠ [];
  nq_count : thread_count q = u64 (zlen (queued q));
}.

Lemma level_lookup hp q p :
  nq_ok hp q → 0 <= p < 64 →
  ∃ v, queues q !! Z.to_nat p = Some v ∧ level_ok hp v ∧ level q p = contents v.
Proof.
  intros Hq Hp. destruct (lookup_lt_is_Some_2 (queues q) (Z.to_nat p)) as [v Hv].
  { rewrite (nq_len _ _ Hq). lia. }
  exists v. split; [done |]. split.
  - by eapply Forall_lookup_1; [apply nq_levels | exact Hv].
  - unfold level. by rewrite Hv.
Qed.

Lemma level_queued q p t : t ∈ level q p → t ∈ queued q.
Proof.
  unfold level, queued. destruct (queues q !! Z.to_nat p) as [v |] eqn:E; [| by intros ?%not_elem_of_nil].
  intros Ht. apply list_elem_of_join. exists (contents v). split; [done |].
  apply list_elem_of_fmap. exists v. split; [done |]. by eapply list_elem_of_lookup_2.
Qed.

Lemma queued_level hp q t : nq_ok hp q → t ∈ queued q → ∃ p, 0 <= p < 64 ∧ t ∈ level q p.
Proof.
  intros Hq. unfold queued. intros (l & Ht & (v & -> & Hv)%list_elem_of_fmap)%list_elem_of_join.
  apply list_elem_of_lookup in Hv as [i Hi]. exists (Z.of_nat i). split.
  - apply lookup_lt_Some in Hi. rewrite (nq_len _ _ Hq) in Hi. lia.
  - unfold level. by rewrite Nat2Z.id, Hi.
Qed.

Lemma queued_nil hp q : nq_ok hp q → priority_bitmap q = 0 ↔ queued q = [].
Proof.
  intros Hq. split.
  - intros H0. apply elem_of_nil_inv. intros t (p & Hp & Ht)%(queued_level hp q t Hq).
    assert (level q p ≠ []) as Hl by (intros E; rewrite E in Ht; by apply not_elem_of_nil in Ht).
    apply (nq_bitmap _ _ Hq p Hp) in Hl. by rewrite H0, Z.bits_0 in Hl.
  - intros Hn. apply Z.bits_inj'. intros p Hp. rewrite Z.bits_0.
    apply not_true_is_false. intros Hb. destruct (decide (p < 64)) as [Hlt | Hge].
    + apply (nq_bitmap _ _ Hq p) in Hb; [| lia]. apply Hb, elem_of_nil_inv.
      intros t Ht%level_queued. rewrite Hn in Ht. by apply not_elem_of_nil in Ht.
    + pose proof (nq_bits _ _ Hq) as Hbits.
      rewrite <-(Z.mod_small _ _ Hbits), Z.mod_pow2_bits_high in Hb; [done | lia].
Qed.

(** The queues only look at the deadlines and states of their threads. *)
Lemma sorted_heap (hp hp' : heap) l :
  (∀ t, t ∈ l → dl hp' t = dl hp t) →
  StronglySorted (λ a b, dl hp a <= dl hp b) l →
  StronglySorted (λ a b, dl hp' a <= dl hp' b) l.
Proof.
  intros Heq Hs. induction Hs as [| x l Hs IH Hx]; [constructor |].
  constructor; [apply IH; intros; by apply Heq, list_elem_of_further |].
  rewrite Forall_forall in *. intros y Hy.
  rewrite !Heq by (by apply list_elem_of_here || by apply list_elem_of_further).
  by apply Hx.
Qed.

Lemma level_ok_heap (hp hp' : heap) v :
  (∀ t, t ∈ contents v → dl hp' t = dl hp t ∧ is_ready hp' t) →
  level_ok hp v → level_ok hp' v.
Proof.
  intros Heq [Hq Hs Hr]. split; [done | |].
  - eapply sorted_heap; [| exact Hs]. intros t Ht. by apply Heq.
  - apply Forall_forall. intros t Ht. by apply Heq.
Qed.

Lemma nq_ok_heap (hp hp' : heap) q :
  (∀ t, t ∈ queued q → dl hp' t = dl hp t ∧ is_ready hp' t) → nq_ok hp q → nq_ok hp' q.
Proof.
  intros Heq [Hl Hv Hb Hm Hc]. split; try done.
  apply Forall_forall. intros v Hin. eapply level_ok_heap; cycle 1.
  - by eapply Forall_forall in Hv.
  - intros t Ht. apply Heq. apply list_elem_of_join. exists (contents v).
    split; [done |]. by apply list_elem_of_fmap_2.
Qed.

(** A heap write to a thread outside the queues. *)
Lemma nq_ok_insert (hp : heap) q t th :
  t ∉ queued q → nq_ok hp q → nq_ok (<[t := th]> hp) q.
Proof.
  intros Hn Hq. eapply nq_ok_heap; [| exact Hq]. intros t' Ht'.
  assert (t ≠ t') as Hne by (intros ->; done).
  unfold dl, is_ready. rewrite lookup_insert_ne by done. split; [done |].
  destruct (queued_level hp q t' Hq Ht') as (p & Hp & Hin).
  destruct (level_lookup hp q p Hq Hp) as (v & _ & Hv & E). rewrite E in Hin.
  by eapply Forall_forall in Hin; [| apply (lo_ready _ _ Hv)].
Qed.

Lemma testbit_one p n : 0 <= p → Z.testbit (Z.shiftl 1 p) n = (p =? n).
Proof. intros. rewrite Z.shiftl_1_l. by apply Z.pow2_bits_eqb. Qed.

Lemma level_insert q (i p : Z) v :
  0 <= i < zlen (queues q) → 0 <= p →
  level (q <| queues := <[Z.to_nat i := v]> (queues q) |>) p =
    if decide (p = i) then contents v else level q p.
Proof.
  unfold zlen. intros. unfold level; cbn. case_decide as Hd.
  - subst p. by rewrite list_lookup_insert_eq by lia.
  - by rewrite list_lookup_insert_ne by lia.
Qed.

Lemma queued_insert q (i : Z) v v' :
  queues q !! Z.to_nat i = Some v →
  mjoin (contents <$> <[Z.to_nat i := v']> (queues q)) ++ contents v ≡ₚ
    queued q ++ contents v'.
Proof. intros Hv. by apply join_fmap_insert. Qed.

(** Replacing one level, with the bitmap and the counter brought up to date. *)
Lemma nq_ok_replace hp q i v v' bm c :
  nq_ok hp q → 0 <= i < 64 → queues q !! Z.to_nat i = Some v → level_ok hp v' →
  0 <= bm < 2 ^ 64 →
  (∀ p, 0 <= p < 64 → p ≠ i → Z.testbit bm p = Z.testbit (priority_bitmap q) p) →
  (Z.testbit bm i = true ↔ contents v' ≠ []) →
  c = u64 (thread_count q + zlen (contents v') - zlen (contents v)) →
  let q' := MkQueues (<[Z.to_nat i := v']> (queues q)) bm c in
  nq_ok hp q' ∧ (∀ p, 0 <= p → level q' p = if decide (p = i) then contents v' else level q p) ∧
  queued q' ++ contents v ≡ₚ queued q ++ contents v'.
Proof.
  intros Hq Hi Hv Hv' Hbm Hother Hbit -> q'.
  assert (∀ p, 0 <= p → level q' p = if decide (p = i) then contents v' else level q p) as Hl.
  { intros p Hp. subst q'. unfold level; cbn. case_decide as Hd.
    - subst p. rewrite list_lookup_insert_eq; [done |]. by eapply lookup_lt_Some.
    - by rewrite list_lookup_insert_ne by lia. }
  assert (queued q' ++ contents v ≡ₚ queued q ++ contents v') as Hperm
    by by apply queued_insert.
  split; [| done]. destruct Hq as [Hlen Hlev Hb Hmap Hc]. split; cbn.
  - by rewrite length_insert.
  - by apply Forall_insert.
  - done.
  - intros p Hp. rewrite Hl by lia. case_decide; [by subst p |].
    rewrite Hother by done. by apply Hmap.
  - change (mjoin _) with (queued q'). rewrite Hc.
    assert (zlen (queued q') + zlen (contents v) = zlen (queued q) + zlen (contents v')) as Hz.
    { rewrite <-!zlen_app. unfold zlen. by rewrite Hperm. }
    unfold wrap. rewrite <-Z.add_sub_assoc, Zplus_mod_idemp_l.
    apply (f_equal (λ z, z mod 2 ^ 64)). lia.
Qed.

Lemma enqueue_eevdf_spec hp q t th :
  nq_ok hp q → hp !! t = Some th → state th = TReady → 0 <= effective_priority th →
  if 64 <=? effective_priority th then enqueue_eevdf hp t q = Done q else
  ∃ q', enqueue_eevdf hp t q = Done q' ∧ nq_ok hp q' ∧ queued q' ≡ₚ t :: queued q ∧
    ∀ p, 0 <= p → level q' p =
      if decide (p = effective_priority th) then insert_by (dl hp) t (level q p)
      else level q p.
Proof.
  intros Hq Ht Hst Hp. unfold enqueue_eevdf.
  rewrite (proj2 (deref_Some hp t th) Ht). cbn [mbind outcome_bind]. set (p := effective_priority th) in *.
  change NUM_PRIORITIES with 64. destruct (64 <=? p) eqn:E; bools; [done |].
  destruct (level_lookup hp q p Hq) as (v & Hv & [Hqv Hsv Hrv] & Hlev); [lia |].
  rewrite (proj2 (aget_lookup _ _ v)) by done. cbn [mbind outcome_bind].
  assert (dl hp t = deadline th) as Hdl by (unfold dl; by rewrite Ht).
  destruct (insert_sorted_spec (thread_deadline hp) (dl hp) v t Hqv) as (v' & E' & Hqv' & Hc').
  { eapply Forall_impl; [exact Hrv |]. intros x (thx & Hx & _).
    unfold thread_deadline, deref, dl. by rewrite Hx. }
  rewrite <-Hdl, E'. cbn [mbind outcome_bind].
  assert (level_ok hp v') as Hlo.
  { split; rewrite ?Hc'; [done | by apply insert_by_sorted |].
    rewrite insert_by_perm. constructor; [by exists th | done]. }
  rewrite aset_in_range by (unfold zlen; rewrite (nq_len _ _ Hq); lia).
  cbn [mbind outcome_bind]. eexists; split; [done |].
  assert (contents v' ≡ₚ t :: contents v) as Hpv by (rewrite Hc'; apply insert_by_perm).
  edestruct (nq_ok_replace hp q p v v' (Z.lor (priority_bitmap q) (Z.shiftl 1 p))
    (u64 (thread_count q + 1))) as (H1 & H2 & H3); try done.
  - pose proof (nq_bits _ _ Hq) as [? ?].
    apply lor_bound; [done |].
    rewrite Z.shiftl_1_l. split; [apply Z.pow_nonneg; lia |]. apply Z.pow_lt_mono_r; lia.
  - intros p' Hp' Hne. rewrite Z.lor_spec, testbit_one by lia.
    rewrite (proj2 (Z.eqb_neq _ _)) by congruence. apply orb_false_r.
  - rewrite Z.lor_spec, testbit_one, Z.eqb_refl, orb_true_r by lia. split; [| done].
    intros _ En. rewrite En in Hpv. by apply Permutation_nil_cons in Hpv.
  - f_equal. unfold zlen. rewrite Hpv. cbn [length]. lia.
  - split; [done |]. split.
    + apply (Permutation_cancel _ _ (contents v)). rewrite H3, Hpv. solve_Permutation.
    + intros p' Hp'. rewrite H2 by done. case_decide; [| done]. subst p'. by rewrite Hlev.
Qed.

(** What a pick from a node with threads yields: the head of the highest
    non-empty level. *)
Record picked (hp : heap) (q : NumaReadyQueues) (t : Z) (th : Thread) (hp' : heap)
    (q' : NumaReadyQueues) (p : Z) (rest : list Z) : Prop := {
  pk_level : 0 <= p < 64 ∧ level q p = t :: rest;
  pk_highest : ∀ p', p < p' < 64 → level q p' = [];
  pk_thread : hp !! t = Some th ∧ state th = TReady;
  pk_heap : hp' = <[t := th <| state := TRunning |>]> hp;
  pk_ok : nq_ok hp' q';
  pk_queued : queued q ≡ₚ t :: queued q';
  pk_levels : ∀ p', 0 <= p' → level q' p' = if decide (p' = p) then rest else level q p';
}.

Lemma log2_bitmap b : 0 < b < 2 ^ 64 → 0 <= 63 - leading_zeros b < 64 ∧
  Z.testbit b (63 - leading_zeros b) = true ∧
  ∀ p, 63 - leading_zeros b < p → Z.testbit b p = false.
Proof.
  intros Hb. unfold leading_zeros. rewrite (proj2 (Z.eqb_neq b 0)) by lia.
  replace (63 - (63 - Z.log2 b)) with (Z.log2 b) by lia.
  pose proof (Z.log2_nonneg b). pose proof (proj1 (Z.log2_lt_pow2 b 64 ltac:(lia)) ltac:(lia)).
  split; [lia |]. split; [apply Z.bit_log2; lia |].
  intros p Hp. apply Z.bits_above_log2; lia.
Qed.

Lemma pick_bitmap_bound (b : bool) x y :
  0 <= x < 2 ^ 64 → 0 <= (if b then Z.ldiff x y else x) < 2 ^ 64.
Proof.
  intros Hx. destruct b; [| done].
  destruct (Z.ldiff_le (Z.ldiff x y) x) as [? ?]; [lia | | lia].
  apply Z.bits_inj'. intros n ?. rewrite !Z.ldiff_spec, Z.bits_0.
  by destruct (Z.testbit x n), (Z.testbit y n).
Qed.

Lemma pick_next_eevdf_spec hp q :
  nq_ok hp q → NoDup (queued q) →
  (queued q = [] ∧ pick_next_eevdf hp q = Done (None, hp, q)) ∨
  ∃ t th hp' q' p rest, pick_next_eevdf hp q = Done (Some t, hp', q') ∧
    picked hp q t th hp' q' p rest.
Proof.
  intros Hq Hnd. unfold pick_next_eevdf.
  destruct (priority_bitmap q =? 0) eqn:E0; bools.
  { left. split; [by apply (queued_nil hp) | done]. }
  right. pose proof (nq_bits _ _ Hq) as Hbits.
  destruct (log2_bitmap (priority_bitmap q)) as (Hp & Hset & Habove); [lia |].
  set (p := 63 - leading_zeros (priority_bitmap q)) in *.
  destruct (level_lookup hp q p Hq Hp) as (v & Hv & Hlo & Hlev).
  rewrite (proj2 (aget_lookup _ _ v)) by (by split; [lia |]). cbn [mbind outcome_bind].
  pose proof (proj1 (nq_bitmap _ _ Hq p Hp) Hset) as Hne. rewrite Hlev in Hne.
  pose proof (pop_front_spec v (lo_queue _ _ Hlo)) as Hpop.
  destruct (contents v) as [| t rest] eqn:Ec; [done |].
  destruct Hpop as (v' & -> & Hv' & Ec'). cbn [mbind outcome_bind].
  rewrite aset_in_range by (unfold zlen; rewrite (nq_len _ _ Hq); lia).
  cbn [mbind outcome_bind]. destruct Hlo as [_ Hs Hr]. rewrite Ec in *.
  apply Forall_cons in Hr as [(th & Ht & Hst) Hr]. apply StronglySorted_inv in Hs as [Hs _].
  rewrite (proj2 (deref_Some hp t th) Ht). cbn [mbind outcome_bind].
  set (bm := if is_empty v' then Z.ldiff (priority_bitmap q) (Z.shiftl 1 p)
             else priority_bitmap q).
  assert (is_empty v' = true ↔ rest = []) as He by (rewrite <-Ec'; by apply is_empty_spec).
  destruct (nq_ok_replace hp q p v v' bm (u64 (thread_count q - 1))) as (Hok & Hls & Hperm);
    try done.
  { split; rewrite ?Ec'; done. }
  { apply pick_bitmap_bound; done. }
  { intros p' Hp' Hd. subst bm. destruct (is_empty v'); [| done].
    rewrite Z.ldiff_spec, testbit_one, (proj2 (Z.eqb_neq _ _)) by (lia || congruence).
    apply andb_true_r. }
  { subst bm. rewrite Ec'. destruct (is_empty v').
    - rewrite Z.ldiff_spec, testbit_one, Z.eqb_refl, andb_false_r by lia. naive_solver.
    - split; [| done]. intros _ Hn. by apply He in Hn. }
  { rewrite Ec, Ec'. f_equal. unfold zlen. cbn [length]. lia. }
  assert (queued q ≡ₚ t :: queued (MkQueues (<[Z.to_nat p:=v']> (queues q)) bm
    (u64 (thread_count q - 1)))) as Hq'.
  { apply (Permutation_cancel _ _ rest). rewrite <-Ec' at 1. rewrite <-Hperm, Ec.
    solve_Permutation. }
  exists t, th. eexists _, _, p, rest. split; [done |]. split; try done.
  - intros p' Hp'. destruct (level q p') eqn:El; [done |].
    pose proof (proj2 (nq_bitmap _ _ Hq p' ltac:(lia)) ltac:(by rewrite El)) as Hb.
    rewrite Habove in Hb; [done | lia].
  - apply nq_ok_insert; [| done]. rewrite Hq' in Hnd. by apply NoDup_cons in Hnd as [? _].
  - intros p' Hp'. rewrite Hls by done. by rewrite Ec'.
Qed.

(** ** The invariant of the scheduler *)

Definition all_queued (s : sched) : list Z := mjoin (queued <$> NODE_QUEUES s).

(** Thread fields of type [u8]. *)
Definition thread_ok (th : Thread) : Prop :=
  0 <= effective_priority th ∧ 0 <= node_id th ∧ 0 <= base_priority th.

Record sched_ok (s : sched) : Prop := {
  so_len : length (NODE_QUEUES s) = 8%nat;
  so_nodes : Forall (nq_ok (threads s)) (NODE_QUEUES s);
  so_nodup : NoDup (all_queued s);
  so_threads : map_Forall (λ _, thread_ok) (threads s);
  so_current : ∀ c, current s = Some c → is_Some (threads s !! c);
  so_numa : length (NUMA_NODES s) = 8%nat;
  so_count : 1 <= NUMA_NODE_COUNT s <= 8;
  so_ids : Forall (λ n, 0 <= n_node_id n) (NUMA_NODES s);
  so_picks : length (pick_count s) = 4%nat;
}.

(** The queue of a node. *)
Definition node_queue (s : sched) (i : Z) : NumaReadyQueues :=
  default NumaReadyQueues_new (NODE_QUEUES s !! Z.to_nat i).

Definition node_index (node : Z) : Z := Z.min node (MAX_NODES - 1).

Lemma node_lookup s i :
  sched_ok s → 0 <= i < 8 → NODE_QUEUES s !! Z.to_nat i = Some (node_queue s i).
Proof.
  intros Hs Hi. unfold node_queue.
  destruct (lookup_lt_is_Some_2 (NODE_QUEUES s) (Z.to_nat i)) as [q Hq];
    [rewrite (so_len _ Hs); lia |]. by rewrite Hq.
Qed.

Lemma node_index_range node : 0 <= node → 0 <= node_index node < 8.
Proof. intros. unfold node_index, MAX_NODES. lia. Qed.

Lemma node_ok s i : sched_ok s → 0 <= i < 8 → nq_ok (threads s) (node_queue s i).
Proof.
  intros Hs Hi. eapply Forall_lookup_1; [apply (so_nodes _ Hs) |]. by apply node_lookup.
Qed.

Lemma node_pieces s i :
  sched_ok s → 0 <= i < 8 →
  (queued <$> NODE_QUEUES s) !! Z.to_nat i = Some (queued (node_queue s i)).
Proof. intros Hs Hi. by rewrite list_lookup_fmap, (node_lookup s i Hs Hi). Qed.

Lemma node_nodup s i : sched_ok s → 0 <= i < 8 → NoDup (queued (node_queue s i)).
Proof.
  intros Hs Hi. eapply NoDup_join_piece; [apply (so_nodup _ Hs) |]. by apply node_pieces.
Qed.

Lemma node_queued s i t :
  sched_ok s → 0 <= i < 8 → t ∈ queued (node_queue s i) → t ∈ all_queued s.
Proof.
  intros Hs Hi Ht. apply list_elem_of_join. exists (queued (node_queue s i)).
  split; [done |]. eapply list_elem_of_lookup_2. by apply node_pieces.
Qed.

Lemma aget_node s i :
  sched_ok s → 0 <= i < 8 → aget (NODE_QUEUES s) i = Done (node_queue s i).
Proof. intros Hs Hi. apply aget_lookup. split; [lia |]. by apply node_lookup. Qed.

Lemma queued_ready s t : sched_ok s → t ∈ all_queued s → is_ready (threads s) t.
Proof.
  intros Hs (l & Ht & (q & -> & Hq)%list_elem_of_fmap)%list_elem_of_join.
  pose proof (proj1 (Forall_forall _ _) (so_nodes _ Hs) q Hq) as Hok.
  destruct (queued_level _ q t Hok Ht) as (p & Hp & Hin).
  destruct (level_lookup _ q p Hok Hp) as (v & _ & Hv & E). rewrite E in Hin.
  by eapply Forall_forall in Hin; [| apply (lo_ready _ _ Hv)].
Qed.

(** Replacing the queue of one node, after a heap write to a thread [t] that no
    other node has queued. *)
Definition set_node (s : sched) (i : Z) (hp : heap) (q : NumaReadyQueues) : sched :=
  s <| threads := hp |> <| NODE_QUEUES := <[Z.to_nat i := q]> (NODE_QUEUES s) |>.

Lemma all_queued_set_node s i hp q :
  sched_ok s → 0 <= i < 8 →
  all_queued (set_node s i hp q) ++ queued (node_queue s i) ≡ₚ all_queued s ++ queued q.
Proof.
  intros Hs Hi. unfold all_queued, set_node; cbn.
  apply join_fmap_insert. by apply node_lookup.
Qed.

Lemma set_node_ok s i t th q :
  sched_ok s → 0 <= i < 8 → thread_ok th →
  (∀ j, 0 <= j < 8 → j ≠ i → t ∉ queued (node_queue s j)) →
  nq_ok (<[t := th]> (threads s)) q → NoDup (all_queued (set_node s i (<[t := th]> (threads s)) q)) →
  sched_ok (set_node s i (<[t := th]> (threads s)) q).
Proof.
  intros Hs Hi Hth Hother Hq Hnd.
  split; cbn; try apply Hs; try done.
  - rewrite length_insert. apply Hs.
  - apply Forall_lookup. intros j q' Hj.
    assert (Z.of_nat j < 8) as Hj8.
    { apply lookup_lt_Some in Hj. rewrite length_insert, (so_len _ Hs) in Hj. lia. }
    destruct (decide (j = Z.to_nat i)) as [-> | Hne].
    + rewrite list_lookup_insert_eq in Hj; [by injection Hj as <- |].
      rewrite (so_len _ Hs). lia.
    + rewrite list_lookup_insert_ne in Hj by done.
      replace q' with (node_queue s (Z.of_nat j))
        by (unfold node_queue; by rewrite Nat2Z.id, Hj).
      apply nq_ok_insert; [apply Hother; lia | apply node_ok; [done | lia]].
  - apply map_Forall_insert_2; [done | apply Hs].
  - intros c Hc. destruct (decide (c = t)) as [-> |].
    + by rewrite lookup_insert_eq.
    + rewrite lookup_insert_ne by done. by apply Hs.
Qed.

(** ** What the operations do *)

Lemma deref_thread_run h s t th :
  threads s !! t = Some th → deref_thread t h s = Done (th, h, s).
Proof. intros Ht. unfold deref_thread, get, lift, mbind, cmd_bind, deref. by rewrite Ht. Qed.

Lemma store_thread_run h s t th th' :
  threads s !! t = Some th →
  store_thread t th' h s = Done ((), h, s <| threads := <[t := th']> (threads s) |>).
Proof.
  intros Ht. unfold store_thread, get, lift, modify, store, deref, mbind, cmd_bind.
  by rewrite Ht.
Qed.

Lemma lift_Done {A} h s (m : outcome A) a :
  m = Done a → lift (L := sched_lock) (S := sched) m h s = Done (a, h, s).
Proof. by intros ->. Qed.

Definition no_node (h : list sched_lock) : Prop := ∀ i, LNode i ∉ h.

Lemma requeued_fields th :
  effective_priority (requeued th) = effective_priority th ∧
  node_id (requeued th) = node_id th ∧ base_priority (requeued th) = base_priority th ∧
  state (requeued th) = TReady.
Proof. unfold requeued, update_eevdf_deadline. by case_decide. Qed.

(** Queueing a thread that no node has queued, after a write to it. *)
Lemma enqueued_ok s i t th :
  sched_ok s → 0 <= i < 8 → t ∉ all_queued s → thread_ok th → state th = TReady →
  let hp := <[t := th]> (threads s) in
  ∃ q', enqueue_eevdf hp t (node_queue s i) = Done q' ∧ sched_ok (set_node s i hp q') ∧
    if 64 <=? effective_priority th
    then q' = node_queue s i ∧ all_queued (set_node s i hp q') ≡ₚ all_queued s
    else all_queued (set_node s i hp q') ≡ₚ t :: all_queued s ∧
      ∀ p, 0 <= p → level q' p =
        if decide (p = effective_priority th)
        then insert_by (dl hp) t (level (node_queue s i) p)
        else level (node_queue s i) p.
Proof.
  intros Hs Hi Hn Hth Hst hp.
  assert (∀ j, 0 <= j < 8 → t ∉ queued (node_queue s j)) as Hnj
    by (intros j Hj Hin; by apply Hn, (node_queued s j)).
  pose proof (nq_ok_insert _ _ t th (Hnj i Hi) (node_ok s i Hs Hi)) as Hq. fold hp in Hq.
  pose proof (enqueue_eevdf_spec hp (node_queue s i) t th Hq ltac:(apply lookup_insert_eq)
    Hst (proj1 Hth)) as He.
  destruct (64 <=? effective_priority th) eqn:E.
  - pose proof (all_queued_set_node s i hp (node_queue s i) Hs Hi) as Hperm.
    apply Permutation_cancel in Hperm.
    exists (node_queue s i). split; [done |]. split; [| done].
    apply set_node_ok; try done; [intros; by apply Hnj |].
    fold hp. rewrite Hperm. apply Hs.
  - destruct He as (q' & Eq & Hok & Hperm & Hlev).
    pose proof (all_queued_set_node s i hp q' Hs Hi) as Hall. rewrite Hperm in Hall.
    assert (all_queued (set_node s i hp q') ≡ₚ t :: all_queued s) as Hall'.
    { apply (Permutation_cancel _ _ (queued (node_queue s i))). rewrite Hall.
      solve_Permutation. }
    exists q'. split; [done |]. split; [| done].
    apply set_node_ok; try done; [intros; by apply Hnj |].
    fold hp. rewrite Hall'. constructor; [done | apply Hs].
Qed.

Lemma numa_enqueue_run h s t th :
  sched_ok s → no_node h → threads s !! t = Some th → t ∉ all_queued s →
  let i := node_index (node_id th) in
  let hp := <[t := requeued th]> (threads s) in
  ∃ q', numa_enqueue_thread t h s = Done ((), h, set_node s i hp q') ∧
    sched_ok (set_node s i hp q') ∧
    if 64 <=? effective_priority th
    then q' = node_queue s i ∧ all_queued (set_node s i hp q') ≡ₚ all_queued s
    else all_queued (set_node s i hp q') ≡ₚ t :: all_queued s ∧
      ∀ p, 0 <= p → level q' p =
        if decide (p = effective_priority th)
        then insert_by (dl hp) t (level (node_queue s i) p)
        else level (node_queue s i) p.
Proof.
  intros Hs Hh Ht Hn i hp. destruct (so_threads _ Hs t th Ht) as (Hp & Hnode & Hbase).
  pose proof (node_index_range _ Hnode) as Hi. fold i in Hi.
  destruct (requeued_fields th) as (Ep & En & Eb & Est).
  destruct (enqueued_ok s i t (requeued th) Hs Hi Hn) as (q' & Eq & Hok & Hrest);
    [split_and!; congruence | done |]. rewrite Ep in Hrest. fold hp in Eq, Hok, Hrest.
  exists q'. split; [| done].
  unfold numa_enqueue_thread. cstep (deref_thread_run h s t th Ht).
  cstep (store_thread_run h s t th (requeued th) Ht). fold (node_index (node_id th)). fold i.
  apply with_lock_run; [apply Hh |]. cpure.
  erewrite cmd_bind_Done; [| apply lift_Done, (aget_node s i Hs Hi)]. fold hp.
  erewrite cmd_bind_Done; [| apply lift_Done, Eq].
  erewrite cmd_bind_Done; [| apply lift_Done, aset_in_range]; [done |].
  unfold zlen. cbn. rewrite (so_len _ Hs). lia.
Qed.

Lemma picked_ok s i t th hp' q' p rest :
  sched_ok s → 0 <= i < 8 → picked (threads s) (node_queue s i) t th hp' q' p rest →
  sched_ok (set_node s i hp' q') ∧ all_queued s ≡ₚ t :: all_queued (set_node s i hp' q').
Proof.
  intros Hs Hi [_ _ [Ht Hst] -> Hok Hperm _].
  assert (t ∈ queued (node_queue s i)) as Hin by (rewrite Hperm; apply list_elem_of_here).
  set (hp := <[t:=th <| state := TRunning |>]> (threads s)).
  pose proof (all_queued_set_node s i hp q' Hs Hi) as Hall. rewrite Hperm in Hall.
  assert (all_queued s ≡ₚ t :: all_queued (set_node s i hp q')) as Hp.
  { apply (Permutation_cancel _ _ (queued q')). rewrite <-Hall. solve_Permutation. }
  split; [| done]. destruct (so_threads _ Hs t th Ht) as [? ?]. apply set_node_ok; try done.
  - intros j Hj Hne.
    eapply (NoDup_join_disjoint _ (Z.to_nat i) (Z.to_nat j));
      [apply (so_nodup _ Hs) | by apply node_pieces | by apply node_pieces | lia | done].
  - pose proof (so_nodup _ Hs) as Hnd. rewrite Hp in Hnd. by apply NoDup_cons in Hnd as [_ ?].
Qed.

Lemma set_node_id s i :
  sched_ok s → 0 <= i < 8 → set_node s i (threads s) (node_queue s i) = s.
Proof.
  intros Hs Hi. unfold set_node. rewrite list_insert_id by by apply node_lookup.
  by destruct s.
Qed.

Lemma pick_next_run h s node :
  sched_ok s → no_node h → 0 <= node →
  let i := node_index node in
  (queued (node_queue s i) = [] ∧ pick_next node h s = Done (None, h, s)) ∨
  ∃ t th hp' q' p rest, picked (threads s) (node_queue s i) t th hp' q' p rest ∧
    pick_next node h s = Done (Some t, h, set_node s i hp' q').
Proof.
  intros Hs Hh Hnode i. pose proof (node_index_range _ Hnode) as Hi. fold i in Hi.
  assert (∀ o hp q', pick_next_eevdf (threads s) (node_queue s i) = Done (o, hp, q') →
    pick_next node h s = Done (o, h, set_node s i hp q')) as Hrun.
  { intros o hp q' E. unfold pick_next. fold (node_index node). fold i.
    apply with_lock_run; [apply Hh |]. cpure.
    erewrite cmd_bind_Done; [| apply lift_Done, (aget_node s i Hs Hi)].
    erewrite cmd_bind_Done; [| apply lift_Done, E]. cbv beta iota.
    erewrite cmd_bind_Done; [| apply lift_Done, aset_in_range]; [done |].
    unfold zlen. rewrite (so_len _ Hs). lia. }
  destruct (pick_next_eevdf_spec (threads s) (node_queue s i) (node_ok s i Hs Hi)
    (node_nodup s i Hs Hi)) as [[He E] | (t & th & hp' & q' & p & rest & E & Hpk)].
  - left. split; [done |]. by rewrite (Hrun _ _ _ E), set_node_id.
  - right. exists t, th, hp', q', p, rest. split; [done |]. by apply Hrun.
Qed.

Lemma update_thread_ok s t th' :
  sched_ok s → thread_ok th' →
  (t ∈ all_queued s → dl (threads s) t = deadline th' ∧ state th' = TReady) →
  sched_ok (s <| threads := <[t := th']> (threads s) |>).
Proof.
  intros Hs Hth Hq. split; cbn; try apply Hs.
  - apply Forall_forall. intros q Hin.
    pose proof (proj1 (Forall_forall _ _) (so_nodes _ Hs) q Hin) as Hok.
    destruct (decide (t ∈ queued q)) as [Ht |]; [| by apply nq_ok_insert].
    assert (t ∈ all_queued s) as Hall.
    { apply list_elem_of_join. exists (queued q). split; [done |]. by apply list_elem_of_fmap_2. }
    destruct (Hq Hall) as [Hd Hst]. eapply nq_ok_heap; [| exact Hok].
    intros t' Ht'. destruct (decide (t' = t)) as [-> | Hne].
    + unfold dl at 1, is_ready. rewrite lookup_insert_eq. split; [done | by exists th'].
    + unfold dl at 1, is_ready. rewrite lookup_insert_ne by done. split; [done |].
      apply (queued_ready s t' Hs). apply list_elem_of_join. exists (queued q).
      split; [done |]. by apply list_elem_of_fmap_2.
  - apply map_Forall_insert_2; [done | apply Hs].
  - intros c Hc. destruct (decide (c = t)) as [-> |].
    + by rewrite lookup_insert_eq.
    + rewrite lookup_insert_ne by done. by apply Hs.
Qed.

(** The node of a hart: the first registered one that lists it. *)
Definition node_of_hart (s : sched) (hart : Z) : Z :=
  match list_find (λ n, Z.testbit (cpu_mask n) (hart mod 64) = true)
          (take (Z.to_nat (NUMA_NODE_COUNT s)) (NUMA_NODES s)) with
  | Some (_, n) => n_node_id n
  | None => 0
  end.

Lemma hart_node_loop_spec nodes hart (k : nat) : ∀ n,
  (k + n <= length nodes)%nat →
  hart_node_loop nodes hart (zseq (Z.of_nat k) (Z.of_nat n)) =
    Done match list_find (λ n, Z.testbit (cpu_mask n) (hart mod 64) = true)
                 (take n (drop k nodes)) with
         | Some (_, n) => n_node_id n
         | None => 0
         end.
Proof.
  intros n. revert k. induction n as [| n IH]; intros k Hk.
  - by rewrite zseq_nil by lia.
  - rewrite zseq_cons by lia.
    replace (Z.of_nat (S n) - 1) with (Z.of_nat n) by lia.
    replace (Z.of_nat k + 1) with (Z.of_nat (S k)) by lia.
    destruct (lookup_lt_is_Some_2 nodes k) as [x Hx]; [lia |].
    cbn [hart_node_loop]. rewrite (proj2 (aget_lookup _ _ x)) by (rewrite Nat2Z.id; split; [lia | done]).
    cbn [mbind outcome_bind]. rewrite (drop_S _ x k) by done. cbn [take list_find].
    case_decide as Hd; [by rewrite Hd |].
    apply not_true_is_false in Hd. rewrite Hd, IH by lia.
    by destruct (list_find _ _) as [[? ?] |].
Qed.

Lemma hart_to_node_run h s hart :
  sched_ok s → LNumaNodes ∉ h →
  hart_to_node hart h s = Done (node_of_hart s hart, h, s) ∧ 0 <= node_of_hart s hart.
Proof.
  intros Hs Hh. pose proof (so_count _ Hs) as Hc. split.
  - unfold hart_to_node. cpure. apply with_lock_run; [done |]. apply lift_Done.
    pose proof (hart_node_loop_spec (NUMA_NODES s) hart 0 (Z.to_nat (NUMA_NODE_COUNT s))) as E.
    rewrite Z2Nat.id in E by lia. rewrite drop_0 in E. apply E.
    rewrite (so_numa _ Hs). lia.
  - unfold node_of_hart. destruct (list_find _ _) as [[i n] |] eqn:E; [| lia].
    apply list_find_Some in E as (E & _ & _). apply lookup_take_Some in E as [E _].
    by apply (Forall_lookup_1 _ _ _ _ (so_ids _ Hs) E).
Qed.

Definition set_picks (s : sched) (pc : list Z) : sched := s <| pick_count := pc |>.

Lemma set_picks_ok s pc : sched_ok s → length pc = 4%nat → sched_ok (set_picks s pc).
Proof. intros Hs ?. split; try apply Hs. done. Qed.

(** Taking a thread off the queues of the hart's node. *)
Lemma dequeue_highest_run h s hart :
  sched_ok s → no_node h → LNumaNodes ∉ h → 0 <= hart < 4 →
  let i := node_index (node_of_hart s hart) in
  (queued (node_queue s i) = [] ∧ dequeue_highest hart h s = Done (None, h, s)) ∨
  ∃ t th hp' q' p rest pc, picked (threads s) (node_queue s i) t th hp' q' p rest ∧
    length pc = 4%nat ∧
    dequeue_highest hart h s = Done (Some t, h, set_picks (set_node s i hp' q') pc).
Proof.
  intros Hs Hh Hh' Hhart i. unfold dequeue_highest, pick_next_for_hart.
  destruct (hart_to_node_run h s hart Hs Hh') as [E Hn].
  destruct (pick_next_run h s (node_of_hart s hart) Hs Hh Hn)
    as [[Hq Ep] | (t & th & hp' & q' & p & rest & Hpk & Ep)]; fold i in Ep.
  - left. split; [done |]. erewrite cmd_bind_Done; [| cstep E; exact Ep]. done.
  - right. destruct (aget_in_range (pick_count s) hart) as [n Hpc];
      [unfold zlen; rewrite (so_picks _ Hs); lia |].
    exists t, th, hp', q', p, rest, (<[Z.to_nat hart := u64 (n + 1)]> (pick_count s)).
    split; [done |]. split; [rewrite length_insert; apply Hs |].
    erewrite cmd_bind_Done; [| cstep E; exact Ep]. cbv beta iota. cpure.
    erewrite cmd_bind_Done; [| apply lift_Done, Hpc].
    erewrite cmd_bind_Done; [| apply lift_Done, aset_in_range]; [done |].
    unfold zlen; cbn. rewrite (so_picks _ Hs). lia.
Qed.

(** The thread that [schedule] puts back: the current one, when it runs and
    its priority has a level. *)
Definition put_back (s : sched) : list Z :=
  match current s with
  | Some c =>
      match threads s !! c with
      | Some th =>
          if decide (state th = TRunning) then
            if 64 <=? effective_priority th then [] else [c]
          else []
      | None => []
      end
  | None => []
  end.

Definition set_current (s : sched) (o : option Z) : sched := s <| current := o |>.

Lemma no_node_sched : no_node [LSched].
Proof. intros i. apply not_elem_of_cons. split; [done | apply not_elem_of_nil]. Qed.

Lemma requeue_current_run s :
  sched_ok s →
  ∃ s1, requeue_current (current s) [LSched] s = Done ((), [LSched], s1) ∧ sched_ok s1 ∧
    all_queued s1 ≡ₚ put_back s ++ all_queued s.
Proof.
  intros Hs. unfold requeue_current, put_back.
  destruct (current s) as [c |] eqn:Ec; [| by exists s].
  destruct (so_current _ Hs c Ec) as [th Hth]. rewrite Hth.
  cstep (deref_thread_run [LSched] s c th Hth). case_decide as Hst; [| by exists s].
  assert (c ∉ all_queued s) as Hn.
  { intros (th' & Hth' & ?)%(queued_ready s c Hs). congruence. }
  destruct (numa_enqueue_run [LSched] s c th Hs no_node_sched Hth Hn) as (q' & E & Hok & Hr).
  eexists. split; [exact E |]. split; [done |].
  destruct (64 <=? _); by destruct Hr as [? ?].
Qed.

Lemma set_current_ok s o :
  sched_ok s → (∀ c, o = Some c → is_Some (threads s !! c)) → sched_ok (set_current s o).
Proof. intros Hs Ho. split; try apply Hs. exact Ho. Qed.

Lemma schedule_run s hart :
  sched_ok s → 0 <= hart < 4 →
  ∃ next s', schedule hart [] s = Done ((current s, next), [], s') ∧ sched_ok s' ∧
    current s' = next ∧
    match next with
    | Some t => (∃ th, threads s' !! t = Some th ∧ state th = TRunning) ∧
                t :: all_queued s' ≡ₚ put_back s ++ all_queued s
    | None => all_queued s' ≡ₚ put_back s ++ all_queued s
    end.
Proof.
  intros Hs Hhart. destruct (requeue_current_run s Hs) as (s1 & E1 & Hs1 & Hq1).
  assert (LNumaNodes ∉ [LSched]) as Hnn
    by (apply not_elem_of_cons; split; [done | apply not_elem_of_nil]).
  destruct (dequeue_highest_run [LSched] s1 hart Hs1 no_node_sched Hnn Hhart)
    as [[_ E2] | (t & th & hp' & q' & p & rest & pc & Hpk & Hpc & E2)].
  - exists None, (set_current s1 None). split.
    { apply with_lock_run; [apply not_elem_of_nil |]. cpure. cstep E1. by cstep E2. }
    split; [by apply set_current_ok |]. done.
  - set (i := node_index (node_of_hart s1 hart)) in *.
    pose proof (node_index_range _ (proj2 (hart_to_node_run [LSched] s1 hart Hs1 Hnn))) as Hi.
    destruct (picked_ok s1 i t th hp' q' p rest Hs1 Hi Hpk) as [Hok Hperm].
    set (s2 := set_picks (set_node s1 i hp' q') pc) in *.
    assert (sched_ok s2) as Hs2 by by apply set_picks_ok.
    set (thr := th <| state := TRunning |>).
    assert (threads s2 !! t = Some thr) as Ht
      by (cbn; rewrite (pk_heap _ _ _ _ _ _ _ _ Hpk); apply lookup_insert_eq).
    set (th2 := thr <| last_cpu := u8 hart |>).
    exists (Some t), (set_current (s2 <| threads := <[t := th2]> (threads s2) |>) (Some t)).
    split.
    { apply with_lock_run; [apply not_elem_of_nil |]. cpure. cstep E1. cstep E2.
      erewrite cmd_bind_Done; cycle 1.
      { cstep (deref_thread_run [LSched] s2 t thr Ht).
        exact (store_thread_run [LSched] s2 t thr th2 Ht). }
      done. }
    split; [| split; [done |]].
    + apply set_current_ok; [apply update_thread_ok; [done | |] |].
      * apply (so_threads _ Hs2 t thr Ht).
      * intros Hin%(queued_ready s2 t Hs2). destruct Hin as (? & ? & ?).
        assert (state thr = TRunning) by done. congruence.
      * intros c [= <-]. cbn. by rewrite lookup_insert_eq.
    + split; [exists th2; split; [apply lookup_insert_eq | done] |].
      rewrite <-Hq1, Hperm. done.
Qed.

Lemma requeue_current_frame s s1 t :
  sched_ok s → requeue_current (current s) [LSched] s = Done ((), [LSched], s1) →
  (∀ th, threads s !! t = Some th → state th ≠ TRunning) →
  threads s1 !! t = threads s !! t.
Proof.
  intros Hs E Hst. unfold requeue_current in E.
  destruct (current s) as [c |] eqn:Ec; [| by injection E as <-].
  destruct (so_current _ Hs c Ec) as [th Hth].
  rewrite (cmd_bind_Done _ _ _ _ _ _ _ (deref_thread_run [LSched] s c th Hth)) in E.
  case_decide as Hr; [| by injection E as <-].
  assert (c ∉ all_queued s) as Hn
    by (intros (th' & Hth' & ?)%(queued_ready s c Hs); congruence).
  destruct (numa_enqueue_run [LSched] s c th Hs no_node_sched Hth Hn) as (q' & E' & _).
  rewrite E' in E. injection E as <-. cbn.
  rewrite lookup_insert_ne; [done |]. intros ->. by apply (Hst th).
Qed.

(** Rescheduling only writes to the threads that are queued and, when it runs,
    to the current one. *)
Lemma schedule_frame s hart r s' t :
  sched_ok s → 0 <= hart < 4 → schedule hart [] s = Done (r, [], s') →
  t ∉ all_queued s → (∀ th, threads s !! t = Some th → state th ≠ TRunning) →
  threads s' !! t = threads s !! t.
Proof.
  intros Hs Hhart E Hn Hst. destruct (requeue_current_run s Hs) as (s1 & E1 & Hs1 & Hq1).
  assert (threads s1 !! t = threads s !! t ∧ t ∉ all_queued s1) as [Ht1 Hn1].
  { split; [by eapply requeue_current_frame |]. rewrite Hq1. intros [Hpb | ?]%elem_of_app; [| done].
    unfold put_back in Hpb. destruct (current s) as [c |]; [| by apply not_elem_of_nil in Hpb].
    destruct (threads s !! c) as [th |] eqn:Hc; [| by apply not_elem_of_nil in Hpb].
    case_decide as Hr; [| by apply not_elem_of_nil in Hpb].
    destruct (64 <=? _); [by apply not_elem_of_nil in Hpb |].
    apply list_elem_of_singleton in Hpb as ->. by apply (Hst th). }
  assert (LNumaNodes ∉ [LSched]) as Hnn
    by (apply not_elem_of_cons; split; [done | apply not_elem_of_nil]).
  destruct (dequeue_highest_run [LSched] s1 hart Hs1 no_node_sched Hnn Hhart)
    as [[_ E2] | (n & th & hp' & q' & p & rest & pc & Hpk & Hpc & E2)].
  - unfold schedule in E. erewrite (with_lock_run LSched) in E; [| apply not_elem_of_nil |]; cycle 1.
    { cpure. cstep E1. by cstep E2. }
    injection E as _ <-. done.
  - set (i := node_index (node_of_hart s1 hart)) in *.
    pose proof (node_index_range _ (proj2 (hart_to_node_run [LSched] s1 hart Hs1 Hnn))) as Hi.
    destruct (picked_ok s1 i n th hp' q' p rest Hs1 Hi Hpk) as [_ Hperm].
    assert (n ≠ t) as Hnt.
    { intros ->. apply Hn1. rewrite Hperm. apply list_elem_of_here. }
    assert (threads (set_picks (set_node s1 i hp' q') pc) !! n = Some (th <| state := TRunning |>))
      as Hth by (cbn; rewrite (pk_heap _ _ _ _ _ _ _ _ Hpk); apply lookup_insert_eq).
    unfold schedule in E. erewrite (with_lock_run LSched) in E; [| apply not_elem_of_nil |]; cycle 1.
    { cpure. cstep E1. cstep E2. erewrite cmd_bind_Done; cycle 1.
      { cstep (deref_thread_run [LSched] _ n _ Hth).
        exact (store_thread_run [LSched] _ n _ _ Hth). }
      done. }
    injection E as _ <-. cbn. rewrite lookup_insert_ne by done.
    rewrite (pk_heap _ _ _ _ _ _ _ _ Hpk), lookup_insert_ne by done. done.
Qed.

(** ** Load balancing *)

Definition load (s : sched) (i : Z) : Z := thread_count (node_queue s i).

Lemma load_bound s i : sched_ok s → 0 <= i < 8 → 0 <= load s i < 2 ^ 64.
Proof.
  intros Hs Hi. unfold load. rewrite (nq_count _ _ (node_ok s i Hs Hi)).
  apply wrap_bound. lia.
Qed.

(** What the scan knows after some nodes: the extremes bound the loads seen and
    are taken at the recorded nodes, unless they still have their initial
    values. *)
Record scanned (s : sched) (n : Z) (seen : Z → Prop) (b i mx mn : Z) : Prop := {
  sc_range : 0 <= b < n ∧ 0 <= i < n;
  sc_max : (mx = 0 ∨ mx = load s b) ∧ ∀ j, seen j → load s j <= mx;
  sc_min : (mn = 2 ^ 64 - 1 ∨ mn = load s i) ∧ ∀ j, seen j → mn <= load s j;
}.

Lemma balance_scan_run s n ids : ∀ seen b i mx mn,
  sched_ok s → 1 <= n <= 8 → Forall (λ j, 0 <= j < n) ids → scanned s n seen b i mx mn →
  ∃ b' i' mx' mn', balance_scan s ids b i mx mn [] s = Done ((b', i', mx', mn'), [], s) ∧
    scanned s n (λ j, seen j ∨ j ∈ ids) b' i' mx' mn'.
Proof.
  induction ids as [| j ids IH]; intros seen b i mx mn Hs Hn Hids Hsc.
  - exists b, i, mx, mn. split; [done |]. destruct Hsc as [? [? ?] [? ?]].
    split; [done | |]; (split; [done |]); intros j [? | []%not_elem_of_nil]; auto.
  - apply Forall_cons in Hids as [Hj Hids]. cbn [balance_scan].
    erewrite cmd_bind_Done; cycle 1.
    { apply with_lock_run; [apply not_elem_of_nil |].
      erewrite cmd_bind_Done; [done |]. apply lift_Done, (aget_node s j Hs). lia. }
    change (thread_count (node_queue s j)) with (load s j).
    pose proof (load_bound s j Hs ltac:(lia)) as Hl.
    destruct Hsc as [[Hb Hi] [Hmx Hmx'] [Hmn Hmn']].
    edestruct (IH (λ k, seen k ∨ k = j)
      (if mx <? load s j then j else b) (if load s j <? mn then j else i)
      (if mx <? load s j then load s j else mx) (if load s j <? mn then load s j else mn)
      Hs Hn Hids) as (b' & i' & mx' & mn' & E & Hsc').
    { split.
      - split; if_split; lia.
      - split; [if_split; auto |]. intros k [Hk | ->]; [specialize (Hmx' k Hk) |]; if_split; lia.
      - split; [if_split; auto |]. intros k [Hk | ->]; [specialize (Hmn' k Hk) |]; if_split; lia. }
    exists b', i', mx', mn'. split.
    + destruct (mx <? load s j), (load s j <? mn); exact E.
    + destruct Hsc' as [? [? H1] [? H2]]. split; [done | |]; (split; [done |]);
        intros k Hk; [apply H1 | apply H2]; rewrite elem_of_cons in Hk; tauto.
Qed.

(** The migration of one thread between two different nodes. *)
Lemma migrate_body_run h s b i :
  sched_ok s → 0 <= b < 8 → 0 <= i < 8 → b ≠ i →
  ∃ s', migrate_body b i i h s = Done ((), h, s') ∧ sched_ok s' ∧
    all_queued s' ⊆+ all_queued s ∧
    ((∀ t th, t ∈ all_queued s → threads s !! t = Some th → effective_priority th < 64) →
     all_queued s' ≡ₚ all_queued s).
Proof.
  intros Hs Hb Hi Hne. unfold migrate_body. cpure.
  erewrite cmd_bind_Done; [| apply lift_Done, (aget_node s b Hs Hb)].
  erewrite cmd_bind_Done; [| apply lift_Done, (aget_node s i Hs Hi)].
  assert (∀ k, 0 <= k < 8 → 0 <= k < zlen (NODE_QUEUES s)) as Hlen
    by (intros k Hk; unfold zlen; rewrite (so_len _ Hs); lia).
  destruct (pick_next_eevdf_spec (threads s) (node_queue s b) (node_ok s b Hs Hb)
    (node_nodup s b Hs Hb)) as [[He E] | (t & th & hp' & q' & p & rest & E & Hpk)].
  - exists s. split; [| done]. erewrite cmd_bind_Done; [| apply lift_Done, E]. cbv beta iota.
    erewrite cmd_bind_Done; [| apply lift_Done, aset_in_range; auto].
    unfold modify. fold (set_node s b (threads s) (node_queue s b)). by rewrite set_node_id.
  - destruct (picked_ok s b t th hp' q' p rest Hs Hb Hpk) as [Hs1 Hp1].
    set (s1 := set_node s b hp' q') in *. destruct Hpk as [_ _ [Ht Hst] Ehp _ _ _].
    set (th1 := th <| state := TRunning |> <| node_id := u8 i |> <| state := TReady |>).
    assert (t ∉ all_queued s1) as Hn1.
    { pose proof (so_nodup _ Hs) as Hnd. rewrite Hp1 in Hnd. by apply NoDup_cons in Hnd as [? _]. }
    destruct (so_threads _ Hs t th Ht) as (Hprio & _ & Hbase).
    destruct (enqueued_ok s1 i t th1 Hs1 Hi Hn1) as (q2 & Eq & Hs2 & Hr);
      [split_and!; [done | by apply wrap_bound | done] | done |].
    assert (node_queue s1 i = node_queue s i) as Eni
      by (unfold node_queue, s1, set_node; cbn; by rewrite list_lookup_insert_ne by lia).
    rewrite Eni in Eq. exists (set_node s1 i (<[t := th1]> (threads s1)) q2). split.
    { erewrite cmd_bind_Done; [| apply lift_Done, E]. cbv beta iota.
      erewrite cmd_bind_Done; [| apply lift_Done, deref_Some; rewrite Ehp; apply lookup_insert_eq].
      fold th1. change (threads s1) with hp' in Eq.
      erewrite cmd_bind_Done; [| apply lift_Done, Eq].
      erewrite cmd_bind_Done; [| apply lift_Done, aset_in_range; auto].
      erewrite cmd_bind_Done; [| apply lift_Done, aset_in_range; rewrite zlen_insert; auto].
      done. }
    split; [done |]. change (effective_priority th1) with (effective_priority th) in Hr.
    destruct (64 <=? effective_priority th) eqn:E64; bools; destruct Hr as [Hr1 Hr2].
    + rewrite Hr2, Hp1. split; [by apply submseteq_cons |]. intros Hall.
      assert (t ∈ all_queued s) as Hin by (rewrite Hp1; apply list_elem_of_here).
      specialize (Hall t th Hin Ht). lia.
    + rewrite Hr1, Hp1. done.
Qed.

Lemma migrate_run s b i :
  sched_ok s → 0 <= b < 8 → 0 <= i < 8 → b ≠ i →
  ∃ s', migrate b i [] s = Done ((), [], s') ∧ sched_ok s' ∧
    all_queued s' ⊆+ all_queued s ∧
    ((∀ t th, t ∈ all_queued s → threads s !! t = Some th → effective_priority th < 64) →
     all_queued s' ≡ₚ all_queued s).
Proof.
  intros Hs Hb Hi Hne. unfold migrate.
  destruct (b <? i);
    [destruct (migrate_body_run [LNode i; LNode b] s b i Hs Hb Hi Hne) as (s' & E & H)
    |destruct (migrate_body_run [LNode b; LNode i] s b i Hs Hb Hi Hne) as (s' & E & H)];
    exists s'; (split; [| exact H]); apply with_lock_run; try apply not_elem_of_nil;
    (apply with_lock_run; [| exact E]); apply not_elem_of_cons;
    (split; [congruence | apply not_elem_of_nil]).
Qed.

Lemma set_tick_ok s t : sched_ok s → sched_ok (s <| BALANCE_TICK := t |>).
Proof. intros Hs. split; apply Hs. Qed.

(** The difference of the loads is taken without wrapping around, and is zero
    unless the two nodes differ. *)
Lemma scanned_all s n b i mx mn :
  sched_ok s → 1 <= n <= 8 → scanned s n (λ j, False ∨ j ∈ zseq 0 n) b i mx mn →
  0 <= mn <= mx ∧ mx < 2 ^ 64 ∧ (mn < mx → b ≠ i).
Proof.
  intros Hs Hn [[Hb Hi] [Hmx Hmx'] [Hmn Hmn']].
  pose proof (load_bound s b Hs ltac:(lia)). pose proof (load_bound s i Hs ltac:(lia)).
  pose proof (load_bound s 0 Hs ltac:(lia)).
  assert (False ∨ 0 ∈ zseq 0 n) as Hz by (right; apply elem_of_zseq; lia).
  pose proof (Hmx' 0 Hz). pose proof (Hmn' 0 Hz). split; [lia |]. split; [lia |].
  intros Hlt Hbi. subst i. lia.
Qed.

Lemma try_balance_run s0 :
  sched_ok s0 →
  ∃ s', try_balance [] s0 = Done ((), [], s') ∧ sched_ok s' ∧
    all_queued s' ⊆+ all_queued s0 ∧
    ((∀ t th, t ∈ all_queued s0 → threads s0 !! t = Some th → effective_priority th < 64) →
     all_queued s' ≡ₚ all_queued s0).
Proof.
  intros Hs0. unfold try_balance. cpure. cpure.
  set (s := s0 <| BALANCE_TICK := u64 (BALANCE_TICK s0 + 1) |>).
  assert (sched_ok s) as Hs by by apply set_tick_ok.
  destruct (negb _); [by exists s |]. cpure. pose proof (so_count _ Hs) as Hc.
  destruct (NUMA_NODE_COUNT s <? 2) eqn:E2; bools; [by exists s |]. cpure.
  destruct (balance_scan_run s (NUMA_NODE_COUNT s) (zseq 0 (NUMA_NODE_COUNT s))
    (λ _, False) 0 0 0 (2 ^ 64 - 1) Hs Hc) as (b & i & mx & mn & E & Hsc).
  { apply Forall_forall. intros j Hj%elem_of_zseq. lia. }
  { split; [lia | |]; (split; [by left | done]). }
  cstep E. cbv beta iota. destruct (scanned_all _ _ _ _ _ _ Hs Hc Hsc) as (Hm & Hmx & Hne).
  destruct (_ <=? _) eqn:Et; [by exists s |]. bools.
  destruct Hsc as [[Hb Hi] _ _]. apply (migrate_run s b i); [done | lia | lia |].
  apply Hne. destruct (decide (mn < mx)); [done |].
  replace (mx - mn) with 0 in Et by lia.
  pose proof (wrap_bound 64 (mx * BALANCE_THRESHOLD) ltac:(lia)).
  change (u64 (u64 0 * 100)) with 0 in Et. lia.
Qed.

(** ** The consistency check *)

Lemma check_threads_run hp ts ok total :
  Forall (is_ready hp) ts → fits 64 total →
  check_threads hp ts ok total = Done (ok, u64 (total + zlen ts)).
Proof.
  intros Hr. revert total. induction Hr as [| t ts (th & Ht & Hst) _ IH]; intros total Hf; cbn.
  - rewrite Z.add_0_r. by rewrite wrap_small.
  - rewrite (proj2 (deref_Some hp t th) Ht). cbn [mbind outcome_bind].
    rewrite decide_True, IH by (done || by apply wrap_bound). f_equal. f_equal.
    unfold wrap. rewrite Zplus_mod_idemp_l.
    apply (f_equal (λ z, z mod 2 ^ 64)). unfold zlen; cbn [length]. lia.
Qed.

Lemma check_level_run hp q p v ok total :
  nq_ok hp q → 0 <= p < 64 → queues q !! Z.to_nat p = Some v → fits 64 total →
  check_level hp q p ok total = Done (ok, u64 (total + zlen (contents v))).
Proof.
  intros Hq Hp Hv Hf. destruct (level_lookup hp q p Hq Hp) as (v' & Hv' & Hlo & Hlev).
  rewrite Hv in Hv'. injection Hv' as <-. unfold check_level.
  rewrite (proj2 (aget_lookup _ _ v)) by (split; [lia | done]). cbn [mbind outcome_bind].
  pose proof (is_empty_spec v (lo_queue _ _ Hlo)) as He.
  pose proof (nq_bitmap _ _ Hq p Hp) as Hb. rewrite Hlev in Hb.
  destruct (is_empty v) eqn:Ee.
  - assert (contents v = []) as Ec by by apply He. rewrite Ec in *.
    assert (Z.testbit (priority_bitmap q) p = false) as ->
      by (apply not_true_is_false; intros Ht; by apply Hb in Ht).
    cbn. rewrite Z.add_0_r. by rewrite wrap_small.
  - assert (Z.testbit (priority_bitmap q) p = true) as ->
      by (apply Hb; intros Hn; by apply He in Hn).
    cbn [andb negb]. rewrite (queue_iter_spec v (lo_queue _ _ Hlo)). cbn [mbind outcome_bind].
    by apply check_threads_run; [apply Hlo |].
Qed.

Lemma check_levels_run hp q ok (n : nat) : ∀ k total,
  nq_ok hp q → (k + n = 64)%nat → fits 64 total →
  check_levels hp q (zseq (Z.of_nat k) (Z.of_nat n)) ok total =
    Done (ok, u64 (total + zlen (mjoin (contents <$> drop k (queues q))))).
Proof.
  induction n as [| n IH]; intros k total Hq Hk Hf.
  - rewrite zseq_nil by lia. cbn. rewrite drop_ge by (rewrite (nq_len _ _ Hq); lia). cbn.
    rewrite Z.add_0_r. by rewrite wrap_small.
  - rewrite zseq_cons by lia.
    replace (Z.of_nat (S n) - 1) with (Z.of_nat n) by lia.
    replace (Z.of_nat k + 1) with (Z.of_nat (S k)) by lia.
    destruct (lookup_lt_is_Some_2 (queues q) k) as [v Hv]; [rewrite (nq_len _ _ Hq); lia |].
    cbn [check_levels]. rewrite (check_level_run hp q (Z.of_nat k) v) by
      (done || lia || by rewrite Nat2Z.id).
    cbn [mbind outcome_bind]. rewrite IH by (done || lia || by apply wrap_bound).
    rewrite (drop_S _ v k) by done. cbn [fmap list_fmap]. f_equal. f_equal.
    unfold wrap. rewrite Zplus_mod_idemp_l. apply (f_equal (λ z, z mod 2 ^ 64)).
    change (mjoin (contents v :: (contents <$> drop (S k) (queues q)))) with (contents v ++ mjoin (contents <$> drop (S k) (queues q))).
    rewrite zlen_app. lia.
Qed.

Lemma check_node_queues_run s node ok :
  sched_ok s → 0 <= node →
  check_node_queues node ok [] s =
    Done ((ok, thread_count (node_queue s (node_index node))), [], s).
Proof.
  intros Hs Hn. pose proof (node_index_range _ Hn) as Hi.
  pose proof (node_ok s _ Hs Hi) as Hq.
  unfold check_node_queues. apply with_lock_run; [apply not_elem_of_nil |]. cpure.
  erewrite cmd_bind_Done; [| apply lift_Done, (aget_node s _ Hs Hi)]. apply lift_Done.
  pose proof (check_levels_run (threads s) (node_queue s (node_index node)) ok 64 0 0 Hq) as E.
  rewrite drop_0 in E. rewrite (nq_count _ _ Hq). apply E; [done | split; done].
Qed.

(** ** Reachable states

    The scheduler's state after boot under any sequence of: queueing a thread
    that is not queued, rescheduling a hart, balancing, registering a node,
    changes of the process table, and writes of other parts of the kernel to threads, which create threads
    and change their fields, but not the deadline or the ready state of a
    queued one. *)

Inductive sched_step (s : sched) : sched → Prop :=
| ss_enqueue t th s' :
    threads s !! t = Some th → t ∉ all_queued s →
    enqueue_thread t [] s = Done ((), [], s') → sched_step s s'
| ss_schedule hart r s' :
    0 <= hart < 4 → schedule hart [] s = Done (r, [], s') → sched_step s s'
| ss_balance s' :
    try_balance [] s = Done ((), [], s') → sched_step s s'
| ss_register id mask base size s' :
    0 <= id → register_node id mask base size [] s = Done ((), [], s') → sched_step s s'
| ss_processes ps : sched_step s (s <| PROCESSES := ps |>)
| ss_write t th :
    thread_ok th →
    (t ∈ all_queued s → dl (threads s) t = deadline th ∧ state th = TReady) →
    sched_step s (s <| threads := <[t := th]> (threads s) |>).

Definition sched_reachable : sched → Prop := rtc sched_step initial_sched.

Lemma enqueue_thread_run s t th :
  sched_ok s → threads s !! t = Some th → t ∉ all_queued s →
  let i := node_index (node_id th) in
  let hp := <[t := requeued th]> (threads s) in
  ∃ q', enqueue_thread t [] s = Done ((), [], set_node s i hp q') ∧
    sched_ok (set_node s i hp q') ∧
    if 64 <=? effective_priority th
    then q' = node_queue s i ∧ all_queued (set_node s i hp q') ≡ₚ all_queued s
    else all_queued (set_node s i hp q') ≡ₚ t :: all_queued s ∧
      ∀ p, 0 <= p → level q' p =
        if decide (p = effective_priority th)
        then insert_by (dl hp) t (level (node_queue s i) p)
        else level (node_queue s i) p.
Proof.
  intros Hs Ht Hn i hp.
  destruct (numa_enqueue_run [LSched] s t th Hs no_node_sched Ht Hn) as (q' & E & Hr).
  exists q'. split; [| exact Hr]. apply with_lock_run; [apply not_elem_of_nil | exact E].
Qed.

Lemma register_node_ok s id mask base size s' :
  sched_ok s → 0 <= id → register_node id mask base size [] s = Done ((), [], s') →
  sched_ok s'.
Proof.
  intros Hs Hid E. unfold register_node in E.
  destruct (id <? MAX_NODES) eqn:E8; bools; unfold MAX_NODES in E8.
  - erewrite with_lock_run in E; [| apply not_elem_of_nil |]; cycle 1.
    { cpure. erewrite cmd_bind_Done; [| apply lift_Done, aset_in_range; unfold zlen;
        rewrite (so_numa _ Hs); lia]. done. }
    injection E as <-. split; cbn; try apply Hs.
    + rewrite length_insert. apply Hs.
    + pose proof (so_count _ Hs). if_split; lia.
    + apply Forall_insert; [apply Hs | done].
  - erewrite with_lock_run in E; [| apply not_elem_of_nil | done]. by injection E as <-.
Qed.

Lemma sched_step_ok s s' : sched_ok s → sched_step s s' → sched_ok s'.
Proof.
  intros Hs Hst. destruct Hst as [t th s' Ht Hn E | hart r s' Hh E | s' E
    | id mask base size s' Hid E | ps | t th Hth Hq].
  - destruct (enqueue_thread_run s t th Hs Ht Hn) as (q' & E' & ? & _). congruence.
  - destruct (schedule_run s hart Hs Hh) as (? & ? & E' & ? & _). congruence.
  - destruct (try_balance_run s Hs) as (? & E' & ? & _). congruence.
  - by eapply register_node_ok.
  - split; apply Hs.
  - by apply update_thread_ok.
Qed.

Lemma empty_nq_ok hp : nq_ok hp NumaReadyQueues_new.
Proof.
  split; cbn [queues priority_bitmap thread_count NumaReadyQueues_new].
  - done.
  - apply Forall_replicate. split; [apply empty_queue_ok | constructor | constructor].
  - done.
  - intros p Hp. rewrite Z.bits_0. split; [done |]. intros Hl. destruct Hl.
    unfold level. destruct (queues NumaReadyQueues_new !! Z.to_nat p) as [v |] eqn:E; [| done].
    cbn [queues NumaReadyQueues_new] in E. by apply lookup_replicate in E as [-> _].
  - done.
Qed.

Lemma initial_sched_ok : sched_ok initial_sched.
Proof.
  split; try done.
  - apply Forall_replicate, empty_nq_ok.
  - constructor.
  - by apply Forall_replicate.
Qed.

Lemma sched_reachable_ok s : sched_reachable s → sched_ok s.
Proof.
  intros Hr. unfold sched_reachable in Hr. pose proof initial_sched_ok as H0.
  induction Hr as [| s1 s2 s3 Hst _ IH]; [done |]. by apply IH, (sched_step_ok s1).
Qed.

(** ** Theorems *)

(** Two ready threads at addresses 4096 and 8192, of priorities 32 and 40, queued
    on node 0, and a third one, of priority 50, that runs. *)
Definition ex_thread (t priority : Z) : Thread :=
  Thread_new 0 t t priority 0x10000 0x90000 0.

Definition final {A} (m : M A) (s : sched) : sched :=
  match m [] s with Done (_, _, s') => s' | _ => s end.

Definition ex_threads : sched :=
  initial_sched <| threads := <[4096 := ex_thread 1 32]> ∅ |>.
Definition ex_threads2 : sched :=
  ex_threads <| threads := <[8192 := ex_thread 2 40]> (threads ex_threads) |>.
Definition ex_one : sched := final (enqueue_thread 4096) ex_threads2.
Definition ex_two : sched := final (enqueue_thread 8192) ex_one.

Lemma ex_one_reachable : sched_reachable ex_one.
Proof.
  eapply rtc_l; [apply (ss_write initial_sched 4096 (ex_thread 1 32)); [done |] |].
  { intros Hin. vm_compute in Hin. by apply not_elem_of_nil in Hin. }
  eapply rtc_l; [apply (ss_write ex_threads 8192 (ex_thread 2 40)); [done |] |].
  { intros Hin. vm_compute in Hin. by apply not_elem_of_nil in Hin. }
  apply rtc_once. eapply (ss_enqueue ex_threads2 4096 (ex_thread 1 32)).
  - vm_compute. reflexivity.
  - vm_compute. apply not_elem_of_nil.
  - vm_compute. reflexivity.
Qed.

Lemma ex_two_reachable : sched_reachable ex_two.
Proof.
  eapply rtc_r; [exact ex_one_reachable |].
  eapply (ss_enqueue ex_one 8192 (ex_thread 2 40)).
  - vm_compute. reflexivity.
  - intros Hin. vm_compute in Hin. apply list_elem_of_singleton in Hin. discriminate Hin.
  - vm_compute. reflexivity.
Qed.

(** C8. In every reachable state, the kernel's own consistency check of a node
    returns with its flag unchanged: the priority bitmap has exactly the bits
    of the non-empty levels and every queued thread is ready; and its count
    of threads is the node's load counter.  Each level is sorted by deadline,
    and no thread is queued twice. *)
Theorem queues_consistent (s : sched) (node : Z) (ok : bool) :
  sched_reachable s → 0 <= node →
  let q := node_queue s (node_index node) in
  check_node_queues node ok [] s = Done ((ok, thread_count q), [], s) ∧
  (∀ p, 0 <= p < 64 →
     StronglySorted (λ a b, dl (threads s) a <= dl (threads s) b) (level q p)) ∧
  NoDup (all_queued s).
Proof.
  intros Hs%sched_reachable_ok Hn q. split; [by apply check_node_queues_run |].
  split; [| apply Hs]. intros p Hp.
  pose proof (node_ok s _ Hs (node_index_range node Hn)) as Hq. fold q in Hq.
  destruct (level_lookup _ q p Hq Hp) as (v & _ & Hv & ->). apply Hv.
Qed.

Lemma queues_consistent_witness :
  check_node_queues 0 true [] ex_two = Done ((true, 2), [], ex_two).
Proof. apply (queues_consistent ex_two 0 true ex_two_reachable). done. Defined.

(** C36. Picking for a hart takes a thread from the highest non-empty level of
    the hart's node, one with the earliest deadline of that level, marks it
    running, and leaves all other queued threads queued; it yields none
    exactly when the node has no queued thread. *)
Theorem pick_next_correct (s : sched) (hart : Z) :
  sched_reachable s →
  let q := node_queue s (node_index (node_of_hart s hart)) in
  (queued q = [] ∧ pick_next_for_hart hart [] s = Done (None, [], s)) ∨
  ∃ t p s', pick_next_for_hart hart [] s = Done (Some t, [], s') ∧
    0 <= p < 64 ∧ t ∈ level q p ∧
    (∀ p', p < p' < 64 → level q p' = []) ∧
    (∀ t', t' ∈ level q p → dl (threads s) t <= dl (threads s) t') ∧
    (∃ th, threads s' !! t = Some th ∧ state th = TRunning) ∧
    all_queued s ≡ₚ t :: all_queued s'.
Proof.
  intros Hs%sched_reachable_ok q. unfold pick_next_for_hart.
  destruct (hart_to_node_run [] s hart Hs (not_elem_of_nil _)) as [E Hn].
  pose proof (node_index_range _ Hn) as Hi. cstep E.
  destruct (pick_next_run [] s _ Hs (λ i, not_elem_of_nil _) Hn)
    as [[Hq Ep] | (t & th & hp' & q' & p & rest & Hpk & Ep)]; [by left | right].
  destruct (picked_ok s _ t th hp' q' p rest Hs Hi Hpk) as [_ Hperm].
  destruct Hpk as [[Hp Hlev] Hhigh _ Hhp _ _ _]. fold q in Hlev, Hhigh.
  exists t, p. eexists. split; [exact Ep |]. split; [done |].
  split; [rewrite Hlev; apply list_elem_of_here |]. split; [done |]. split.
  - intros t' Ht'. pose proof (node_ok s _ Hs Hi) as Hq. fold q in Hq.
    destruct (level_lookup _ q p Hq Hp) as (v & _ & Hv & Ev).
    pose proof (lo_sorted _ _ Hv) as Hsort. rewrite <-Ev, Hlev in Hsort.
    rewrite Hlev in Ht'. apply StronglySorted_inv in Hsort as [_ Hall].
    rewrite Forall_forall in Hall.
    apply elem_of_cons in Ht' as [-> | Ht']; [lia |]. by apply Hall.
  - split; [| done]. exists (th <| state := TRunning |>). split; [| done].
    cbn. rewrite Hhp. apply lookup_insert_eq.
Qed.

Lemma pick_next_correct_witness :
  sched_reachable ex_two ∧ ∃ s', pick_next_for_hart 0 [] ex_two = Done (Some 8192, [], s').
Proof.
  split; [exact ex_two_reachable |].
  destruct (pick_next_correct ex_two 0 ex_two_reachable)
    as [[H _] | (t & p & s' & E & _)].
  - vm_compute in H. discriminate H.
  - exists s'. replace (Some 8192) with (Some t); [exact E |].
    assert (∃ s0, pick_next_for_hart 0 [] ex_two = Done (Some 8192, [], s0)) as [s0 E0]
      by (eexists; vm_compute; reflexivity).
    rewrite E0 in E. injection E as -> _. reflexivity.
Defined.

Lemma proxy_start_run s b h tb th :
  b ≠ h → threads s !! b = Some tb → threads s !! h = Some th →
  proxy_start b h [] s = Done ((), [], s <| threads :=
    <[h := th <| proxy_donor := Some b |>
      <| effective_priority := Z.max (effective_priority tb) (effective_priority th) |>
      <| remaining_ticks := Z.max (remaining_ticks tb) (remaining_ticks th) |>]>
    (<[b := tb <| proxy_target := Some h |>]> (threads s)) |>).
Proof.
  intros Hne Hb Hh. set (tb1 := tb <| proxy_target := Some h |>).
  assert (∀ (k : heap) x, <[h := x]> (<[b := tb1]> k) !! b = Some tb1) as Lb
    by (intros; by rewrite lookup_insert_ne, lookup_insert_eq).
  unfold proxy_start. cstep (deref_thread_run [] s b tb Hb).
  cstep (store_thread_run [] s b tb tb1 Hb).
  set (s1 := s <| threads := <[b := tb1]> (threads s) |>).
  assert (threads s1 !! h = Some th) as Hh1 by (cbn; by rewrite lookup_insert_ne).
  cstep (deref_thread_run [] s1 h th Hh1).
  set (th1 := th <| proxy_donor := Some b |>). cstep (store_thread_run [] s1 h th th1 Hh1).
  set (w := λ x, s <| threads := <[h := x]> (<[b := tb1]> (threads s)) |>).
  change (s1 <| threads := <[h := th1]> (threads s1) |>) with (w th1).
  assert (∀ x, threads (w x) !! b = Some tb1 ∧ threads (w x) !! h = Some x) as Hw
    by (intros x; split; [apply Lb | apply lookup_insert_eq]).
  assert (∀ x y, store_thread h y [] (w x) = Done ((), [], w y)) as Hst.
  { intros x y. rewrite (store_thread_run [] (w x) h x y) by apply Hw.
    unfold w; cbn. by rewrite insert_insert_eq. }
  cstep (deref_thread_run [] (w th1) b tb1 (proj1 (Hw th1))).
  cstep (deref_thread_run [] (w th1) h th1 (proj2 (Hw th1))).
  set (th2 := th1 <| effective_priority := Z.max (effective_priority tb) (effective_priority th) |>).
  erewrite cmd_bind_Done with (s' := w th2) (h' := []); cycle 1.
  { change (effective_priority th1) with (effective_priority th).
    change (effective_priority tb1) with (effective_priority tb).
    destruct (_ <? _) eqn:E; bools.
    - rewrite Hst. subst th2. by rewrite Z.max_l by lia.
    - subst th2. rewrite Z.max_r by lia. unfold mret, cmd_ret. by destruct th. }
  cstep (deref_thread_run [] (w th2) b tb1 (proj1 (Hw th2))).
  cstep (deref_thread_run [] (w th2) h th2 (proj2 (Hw th2))).
  change (remaining_ticks th2) with (remaining_ticks th).
  change (remaining_ticks tb1) with (remaining_ticks tb).
  destruct (_ <? _) eqn:E; bools.
  - rewrite Hst. by rewrite Z.max_l by lia.
  - rewrite Z.max_r by lia. unfold mret, cmd_ret. by destruct th.
Qed.

(** Rescheduling a hart always returns, loses no thread and invents none:
    the thread put back, when the current one is running and its priority has
    a level, and the queued ones are afterwards the next thread, which is
    marked running and recorded as current, and the queued ones. *)
Theorem schedule_conserves (s : sched) (hart : Z) :
  sched_reachable s → 0 <= hart < 4 →
  ∃ next s', schedule hart [] s = Done ((current s, next), [], s') ∧ current s' = next ∧
    option_list next ++ all_queued s' ≡ₚ put_back s ++ all_queued s ∧
    ∀ t, next = Some t → ∃ th, threads s' !! t = Some th ∧ state th = TRunning.
Proof.
  intros Hs%sched_reachable_ok Hh.
  destruct (schedule_run s hart Hs Hh) as (next & s' & E & _ & Hc & Hn).
  exists next, s'. split; [done |]. split; [done |].
  destruct next as [t |]; [| done]. destruct Hn as [Ht Hp]. split; [exact Hp |].
  by intros t' [= <-].
Qed.

Lemma schedule_conserves_witness :
  ∃ next s', schedule 1 [] ex_two = Done ((None, next), [], s') ∧ current s' = next.
Proof.
  destruct (schedule_conserves ex_two 1 ex_two_reachable) as (next & s' & E & Hc & _);
    [lia |]. exists next, s'. split; [exact E | exact Hc].
Defined.

(** Load balancing never blocks on a queue it has locked and never panics,
    whatever the loads: it locks two queues only when their loads differ.  It
    adds no thread, and, when every queued thread still has a priority with a
    level, loses none. *)
Theorem try_balance_safe (s : sched) :
  sched_reachable s →
  ∃ s', try_balance [] s = Done ((), [], s') ∧ all_queued s' ⊆+ all_queued s ∧
    ((∀ t th, t ∈ all_queued s → threads s !! t = Some th → effective_priority th < 64) →
     all_queued s' ≡ₚ all_queued s).
Proof.
  intros Hs%sched_reachable_ok.
  destruct (try_balance_run s Hs) as (s' & E & _ & H1 & H2). by exists s'.
Qed.

(** Node 1 registered beside node 0, which has both threads. *)
Definition ex_nodes : sched := final (register_node 1 0xF0 0x90000000 0x8000000) ex_two.

Lemma ex_nodes_reachable : sched_reachable ex_nodes.
Proof.
  eapply rtc_r; [exact ex_two_reachable |].
  eapply (ss_register ex_two 1 0xF0 0x90000000 0x8000000); [lia |].
  vm_compute. reflexivity.
Qed.

Lemma try_balance_safe_witness :
  ∃ s', try_balance [] ex_nodes = Done ((), [], s') ∧
    all_queued s' ⊆+ all_queued ex_nodes.
Proof.
  destruct (try_balance_safe ex_nodes ex_nodes_reachable) as (s' & ? & ? & _).
  exists s'. split; assumption.
Defined.

(** [enqueue_thread] puts a thread that is not queued into the level of
    its effective priority on its node, behind every thread of that level
    whose deadline is not later than its new one, and changes no other level;
    the new deadline follows from the virtual runtime and the weight, which a
    thread that was running is first charged for.  A thread whose priority
    has no level (64 or above) is marked ready but queued nowhere. *)
Theorem enqueue_thread_correct (s : sched) (t : Z) (th : Thread) :
  sched_reachable s → threads s !! t = Some th → t ∉ all_queued s →
  let i := node_index (node_id th) in
  ∃ s', enqueue_thread t [] s = Done ((), [], s') ∧
    threads s' = <[t := requeued th]> (threads s) ∧
    if 64 <=? effective_priority th then all_queued s' ≡ₚ all_queued s
    else all_queued s' ≡ₚ t :: all_queued s ∧
      ∀ p, 0 <= p → level (node_queue s' i) p =
        if decide (p = effective_priority th)
        then insert_by (dl (threads s')) t (level (node_queue s i) p)
        else level (node_queue s i) p.
Proof.
  intros Hs%sched_reachable_ok Ht Hn i.
  destruct (enqueue_thread_run s t th Hs Ht Hn) as (q' & E & Hok & Hr). fold i in E, Hok, Hr.
  eexists. split; [exact E |]. split; [done |].
  destruct (64 <=? _); [by destruct Hr |]. destruct Hr as [Hr1 Hr2]. split; [done |].
  intros p Hp. rewrite <-Hr2 by done. unfold node_queue, set_node; cbn.
  rewrite list_lookup_insert_eq; [done |].
  pose proof (node_index_range _ (proj1 (proj2 (so_threads _ Hs t th Ht)))) as Hi. fold i in Hi.
  rewrite (so_len _ Hs). lia.
Qed.

Lemma enqueue_thread_correct_witness :
  ∃ s', enqueue_thread 8192 [] ex_one = Done ((), [], s') ∧
    all_queued s' ≡ₚ [8192; 4096].
Proof.
  destruct (enqueue_thread_correct ex_one 8192 (ex_thread 2 40) ex_one_reachable)
    as (s' & E & _ & H).
  - vm_compute. reflexivity.
  - intros Hin. vm_compute in Hin. apply list_elem_of_singleton in Hin. discriminate Hin.
  - exists s'. split; [exact E |]. apply H.
Defined.

(** A process that is given a priority of 64 or above while it runs, which
    [sys_sched_setparam] accepts from any caller, vanishes at the next
    reschedule: its thread is neither queued nor current any more. *)
Theorem setparam_loses_thread (s : sched) (p prio hart i c : Z) (q : Process) (th : Thread) :
  sched_reachable s → 0 <= hart < 4 → 64 <= prio < 256 →
  list_find (λ q, pid q = p) (PROCESSES s) = Some (Z.to_nat i, q) → thread q = Some c →
  current s = Some c → threads s !! c = Some th → state th = TRunning →
  ∃ s1 next s2, sys_sched_setparam p prio [] s = Done (Ok 0, [], s1) ∧
    schedule hart [] s1 = Done ((Some c, next), [], s2) ∧
    c ∉ all_queued s2 ∧ current s2 ≠ Some c.
Proof.
  intros Hs%sched_reachable_ok Hh Hprio Hf Hq Hc Ht Hst.
  set (th1 := th <| effective_priority := u8 prio |>).
  set (ps := <[Z.to_nat i := q <| p_base_priority := u8 prio |>]> (PROCESSES s)).
  set (s0 := s <| PROCESSES := ps |>).
  set (s1 := s0 <| threads := <[c := th1]> (threads s0) |>).
  assert (u8 prio = prio) as Ep by (apply wrap_small; unfold fits; lia).
  assert (c ∉ all_queued s) as Hn
    by (intros (th' & Hth' & ?)%(queued_ready s c Hs); congruence).
  assert (sched_ok s0) as Hs' by (split; apply Hs).
  assert (sched_ok s1) as Hs1.
  { apply (update_thread_ok s0 c th1 Hs').
    - split; cbn; [lia |]. apply (so_threads _ Hs c th Ht).
    - intros Hin. by destruct Hn. }
  destruct (schedule_run s1 hart Hs1 Hh) as (next & s2 & E & _ & Hcur & Hr).
  assert (threads s1 !! c = Some th1) as Hth1 by apply lookup_insert_eq.
  assert (put_back s1 = []) as Hpb.
  { unfold put_back. change (current s1) with (current s). rewrite Hc, Hth1.
    rewrite decide_True by done. cbn. rewrite Ep.
    by rewrite (proj2 (Z.leb_le 64 prio)) by lia. }
  rewrite Hpb in Hr. change (all_queued s1) with (all_queued s) in Hr.
  exists s1, next, s2. split_and!.
  - apply with_lock_run; [apply not_elem_of_nil |]. cpure. rewrite Hf. cpure. rewrite Hq.
    cstep (deref_thread_run [LProcesses] s0 c th Ht).
    by cstep (store_thread_run [LProcesses] s0 c th th1 Ht).
  - rewrite E. change (current s1) with (current s). by rewrite Hc.
  - intros Hin. apply Hn. destruct next as [n |]; [destruct Hr as [_ Hr] |];
      cbn [app] in Hr; rewrite <-Hr; [by apply list_elem_of_further | done].
  - rewrite Hcur. intros ->. destruct Hr as [_ Hr]. apply Hn. cbn [app] in Hr. rewrite <-Hr.
    apply list_elem_of_here.
Qed.

(** Thread 4096 of process 1 runs on hart 0. *)
Definition ex_process : Process := Process_new 1 32 0 1 0 0 <| thread := Some 4096 |>.
Definition ex_owned : sched := ex_one <| PROCESSES := [ex_process] |>.
Definition ex_running : sched := final (schedule 0) ex_owned.

Lemma ex_running_reachable : sched_reachable ex_running.
Proof.
  eapply rtc_r; [eapply rtc_r; [exact ex_one_reachable | apply (ss_processes ex_one [ex_process])] |].
  eapply (ss_schedule ex_owned 0); [lia |]. vm_compute. reflexivity.
Qed.

Lemma setparam_loses_thread_witness :
  ∃ s1 next s2, sys_sched_setparam 1 64 [] ex_running = Done (Ok 0, [], s1) ∧
    schedule 0 [] s1 = Done ((Some 4096, next), [], s2) ∧
    4096 ∉ all_queued s2 ∧ current s2 ≠ Some 4096.
Proof.
  eapply (setparam_loses_thread ex_running 1 64 0 0 4096 ex_process);
    [exact ex_running_reachable | lia | lia | vm_compute; reflexivity ..].
Defined.

(** Donating to the holder of a lock: while the donation lasts the holder
    runs at the higher of the two priorities and with the longer of the two
    slices, and the two threads name each other; ending it returns the holder
    to its base priority and clears both links.  The donated ticks stay. *)
Theorem proxy_donation (s : sched) (b h : Z) (tb th : Thread) :
  b ≠ h → threads s !! b = Some tb → threads s !! h = Some th →
  ∃ s1 s2 tb1 th1 tb2 th2,
    proxy_start b h [] s = Done ((), [], s1) ∧ proxy_end h [] s1 = Done ((), [], s2) ∧
    threads s1 !! b = Some tb1 ∧ threads s1 !! h = Some th1 ∧
    threads s2 !! b = Some tb2 ∧ threads s2 !! h = Some th2 ∧
    proxy_target tb1 = Some h ∧ proxy_donor th1 = Some b ∧
    effective_priority th1 = Z.max (effective_priority tb) (effective_priority th) ∧
    remaining_ticks th1 = Z.max (remaining_ticks tb) (remaining_ticks th) ∧
    proxy_target tb2 = None ∧ proxy_donor th2 = None ∧
    effective_priority th2 = base_priority th ∧
    remaining_ticks th2 = Z.max (remaining_ticks tb) (remaining_ticks th).
Proof.
  intros Hne Hb Hh.
  set (tb1 := tb <| proxy_target := Some h |>).
  set (th1 := th <| proxy_donor := Some b |>
    <| effective_priority := Z.max (effective_priority tb) (effective_priority th) |>
    <| remaining_ticks := Z.max (remaining_ticks tb) (remaining_ticks th) |>).
  set (hp1 := <[h := th1]> (<[b := tb1]> (threads s))).
  set (hp2 := <[h := th1 <| proxy_donor := None |> <| effective_priority := base_priority th |>]>
    (<[b := tb1 <| proxy_target := None |>]> hp1)).
  assert (proxy_start b h [] s = Done ((), [], s <| threads := hp1 |>)) as E1
    by by apply proxy_start_run.
  assert (hp1 !! b = Some tb1 ∧ hp1 !! h = Some th1) as [Hb1 Hh1].
  { subst hp1. by rewrite lookup_insert_ne, !lookup_insert_eq. }
  exists (s <| threads := hp1 |>), (s <| threads := hp2 |>).
  exists tb1, th1, (tb1 <| proxy_target := None |>),
    (th1 <| proxy_donor := None |> <| effective_priority := base_priority th |>).
  split; [exact E1 |]. split_and!; try done.
  - unfold proxy_end.
    cstep (deref_thread_run [] (s <| threads := hp1 |>) h th1 Hh1).
    change (proxy_donor th1) with (Some b). cbv iota beta.
    erewrite cmd_bind_Done; cycle 1.
    { cstep (deref_thread_run [] (s <| threads := hp1 |>) b tb1 Hb1).
      exact (store_thread_run [] (s <| threads := hp1 |>) b tb1 _ Hb1). }
    assert (threads (s <| threads := <[b := tb1 <| proxy_target := None |>]> hp1 |>) !! h
      = Some th1) as Hh2 by (cbn; by rewrite lookup_insert_ne).
    cstep (deref_thread_run [] _ h th1 Hh2). exact (store_thread_run [] _ h th1 _ Hh2).
  - cbn. subst hp2. rewrite lookup_insert_ne by done. apply lookup_insert_eq.
  - apply lookup_insert_eq.
Qed.

Lemma proxy_donation_witness :
  ∃ s1, proxy_start 8192 4096 [] ex_two = Done ((), [], s1).
Proof.
  destruct (proxy_donation ex_two 8192 4096 (requeued (ex_thread 2 40))
    (requeued (ex_thread 1 32))) as (s1 & s2 & _ & _ & _ & _ & E & _);
    [lia | vm_compute; reflexivity | vm_compute; reflexivity |].
  exists s1. exact E.
Defined.

End Sched.
