(* ===== verification/Ipc.v ===== *)
(** * Inter-process communication

    kernel/src/ipc/{message,endpoint,mod}.rs and the syscalls of
    kernel/src/syscall/ipc.rs.  An endpoint has a queue of pending messages
    (Queue.v) and at most one waiting receiver, the address of a thread in the
    scheduler's heap; sending wakes it with priority inheritance.

    The scheduler's state (Sched.v) and the extension table (Extension.v) are
    part of the state, since sending queues the receiver and fires the
    [IPC_SEND] hook.  Their locks are taken and released inside the calls.
    The software interrupts sent to the other harts are not modelled.  User
    memory is a function from addresses to bytes. *)
From S2P Require Import Prelude Proc Queue Extension Sched.

Module Ipc.
Import Sched.

Definition MAX_PAYLOAD : Z := 64.
Definition MAX_CAP_TRANSFER : Z := 4.
Definition HOOK_IPC_SEND : Z := 4.

Inductive TransferMode : Type := TMCopy | TMMove.

Record CapTransfer : Type := MkCapTransfer {
  src_slot : Z; dst_slot : Z; mode : TransferMode }.

Record Message : Type := MkMessage {
  sender_pid : Z;
  opcode : Z;
  payload : list Z;
  payload_len : Z;
  cap_transfers : list (option CapTransfer);
}.
#[export] Instance Message_eta : Eta Message := λ m,
  MkMessage (sender_pid m) (opcode m) (payload m) (payload_len m) (cap_transfers m).

Definition Message_new (pid op : Z) : Message :=
  MkMessage pid op (replicate 64 0) 0 (replicate 4 None).

Record Endpoint : Type := MkEndpoint {
  id : Z;
  pending_senders : vqueue (Z * Message);
  waiting_receiver : option Z;
}.
#[export] Instance Endpoint_eta : Eta Endpoint := λ e,
  MkEndpoint (id e) (pending_senders e) (waiting_receiver e).

Definition Endpoint_new (i : Z) : Endpoint := MkEndpoint i empty_queue None.

Record ipc : Type := MkIpc {
  ENDPOINTS : list (option Endpoint);
  NEXT_EP_ID : Z;
  SEND_COUNT : Z;
  RECV_COUNT : Z;
  extensions : table;
  sch : sched;
}.
#[export] Instance ipc_eta : Eta ipc := λ s,
  MkIpc (ENDPOINTS s) (NEXT_EP_ID s) (SEND_COUNT s) (RECV_COUNT s) (extensions s) (sch s).

Inductive ipc_lock : Type := LEndpoints | LNextEp.
#[export] Instance ipc_lock_eq_dec : EqDecision ipc_lock.
Proof. solve_decision. Defined.

Abbreviation M := (cmd ipc_lock ipc).

(** A call into the scheduler, which holds none of its locks before or after. *)
Definition sched_call {A} (m : Sched.M A) : M A := λ h s,
  match m [] (sch s) with
  | Done (a, [], sc) => Done (a, h, s <| sch := sc |>)
  | Done _ => Deadlock
  | Panic => Panic
  | Deadlock => Deadlock
  | OutOfFuel => OutOfFuel
  end.

Definition ep_at (l : list (option Endpoint)) (ep : Z) : option Endpoint :=
  if ep <? 0 then None else mjoin (l !! Z.to_nat ep).

Definition set_endpoint (ep : Z) (e : Endpoint) : M () :=
  s ← get;
  l ← lift (aset (ENDPOINTS s) ep (Some e));
  modify (λ s, s <| ENDPOINTS := l |>).

(** ** Endpoints (ipc/mod.rs) *)

Definition create_endpoint : M Z :=
  i ← with_lock LNextEp (
    i ← gets NEXT_EP_ID;
    _ ← modify (λ s, s <| NEXT_EP_ID := u64 (i + 1) |>);
    mret i);
  with_lock LEndpoints (
    _ ← modify (λ s, s <| ENDPOINTS :=
          ENDPOINTS s ++ replicate (Z.to_nat (i + 1 - zlen (ENDPOINTS s))) None |>);
    _ ← set_endpoint i (Endpoint_new i);
    mret i).

Fixpoint create_endpoints (n : nat) : M () :=
  match n with
  | O => mret ()
  | S n' => _ ← create_endpoint; create_endpoints n'
  end.

Definition init : M () :=
  _ ← with_lock LEndpoints (modify (λ s, s <| ENDPOINTS := ENDPOINTS s ++ [None] |>));
  create_endpoints 8.

(** ** Sending and receiving (ipc/endpoint.rs) *)

(** Wake the receiver: inherit the priority, mark it ready, queue it. *)
Definition wake (receiver sender_prio : Z) : M () :=
  r ← sched_call (deref_thread receiver);
  _ ← (if effective_priority r <? sender_prio
       then sched_call (store_thread receiver (r <| effective_priority := sender_prio |>))
       else mret ());
  r ← sched_call (deref_thread receiver);
  _ ← sched_call (store_thread receiver (r <| state := TReady |>));
  sched_call (enqueue_thread receiver).

Definition current_priority : M Z :=
  cur ← sched_call current_thread;
  match cur with
  | Some t => th ← sched_call (deref_thread t); mret (effective_priority th)
  | None => mret 0
  end.

(** Queue the message, count it and fire the hook. *)
Definition post (ep sender : Z) (e : Endpoint) : M () :=
  _ ← set_endpoint ep e;
  _ ← modify (λ s, s <| SEND_COUNT := u64 (SEND_COUNT s + 1) |>);
  s ← get;
  t ← lift (run_hook (extensions s) HOOK_IPC_SEND ep sender);
  modify (λ s, s <| extensions := t |>).

(** [waiting_receiver.take()], and the wake-up of the receiver it gives. *)
Definition notify (ep : Z) (e : Endpoint) (sender_prio : Z) : M () :=
  match waiting_receiver e with
  | Some receiver =>
      _ ← set_endpoint ep (e <| waiting_receiver := None |>); wake receiver sender_prio
  | None => mret ()
  end.

Definition with_message (e : Endpoint) (sender : Z) (msg : Message) : Endpoint :=
  e <| pending_senders := push_back (pending_senders e) (sender, msg) |>.

Definition send (ep sender : Z) (msg : Message) : M (result string ()) :=
  sender_prio ← current_priority;
  with_lock LEndpoints (
    s ← get;
    match ep_at (ENDPOINTS s) ep with
    | None => mret (Err "invalid ep"%string)
    | Some e =>
        _ ← post ep sender (with_message e sender msg);
        _ ← notify ep (with_message e sender msg) sender_prio;
        mret (Ok ())
    end).

Definition recv (ep : Z) : M (result string Message) :=
  with_lock LEndpoints (
    s ← get;
    match ep_at (ENDPOINTS s) ep with
    | None => mret (Err "invalid ep"%string)
    | Some e =>
        r ← lift (pop_front (pending_senders e));
        let '(o, q) := r in
        _ ← set_endpoint ep (e <| pending_senders := q |>);
        cur ← sched_call current_thread;
        match o with
        | Some (_, msg) =>
            match cur with
            | None => mret (Err "no thread"%string)
            | Some c =>
                th ← sched_call (deref_thread c);
                _ ← sched_call (store_thread c
                      (th <| effective_priority := base_priority th |>));
                _ ← modify (λ s, s <| RECV_COUNT := u64 (RECV_COUNT s + 1) |>);
                mret (Ok msg)
            end
        | None =>
            match cur with
            | None => mret (Err "no current thread"%string)
            | Some c =>
                th ← sched_call (deref_thread c);
                _ ← sched_call (store_thread c
                      (th <| state := TWaiting |> <| wait_target := Some (WEndpoint ep) |>));
                _ ← set_endpoint ep (e <| pending_senders := q |>
                                       <| waiting_receiver := Some c |>);
                mret (Err "would block"%string)
            end
        end
    end).

(** ** Syscalls (syscall/ipc.rs) *)

Definition RIGHT_SEND : Z := 16.
Definition RIGHT_RECV : Z := 32.

(** Capability enforcement on endpoints is switched off in the source. *)
Definition check_ep_cap (ep required_rights : Z) : bool := true.

(** The copy of the payload from user memory. *)
Definition copy_payload (mem : Z → Z) (ptr len : Z) (msg : Message) : Message :=
  if negb (ptr =? 0) && (0 <? len) then
    let n := Z.min len MAX_PAYLOAD in
    msg <| payload := ((λ i, mem (u64 (ptr + i))) <$> zseq 0 n) ++
                      drop (Z.to_nat n) (payload msg) |>
        <| payload_len := n |>
  else msg.

Definition caller_pid : M Z :=
  cur ← sched_call current_thread;
  match cur with
  | Some t => th ← sched_call (deref_thread t); mret (owner th)
  | None => mret 0
  end.

Definition sys_send (mem : Z → Z) (ep op ptr len : Z) : M (result string Z) :=
  if negb (check_ep_cap ep RIGHT_SEND) then mret (Err "no send cap"%string) else
  p ← caller_pid;
  _ ←? send ep p (copy_payload mem ptr len (Message_new p op));
  mret (Ok 0).

(** What a received message does to the caller: the bytes written to the user
    buffer, from its start, and the return value. *)
Definition deliver (msg : Message) (buf_ptr buf_len : Z) : list Z * Z :=
  let len := Z.min (payload_len msg) buf_len in
  (if (0 <? len) && negb (buf_ptr =? 0) then take (Z.to_nat len) (payload msg) else [],
   Z.lor (u64 (Z.shiftl (opcode msg) 24)) (Z.land (sender_pid msg) 0x00FFFFFF)).

(** One round of the loop of [sys_recv]: the delivery, or [None] after the
    reschedule with which the caller waits for its next round. *)
Definition sys_recv_round (ep buf_ptr buf_len hart : Z) : M (option (list Z * Z)) :=
  r ← recv ep;
  match r with
  | Ok msg => mret (Some (deliver msg buf_ptr buf_len))
  | Err _ => _ ← sched_call (schedule hart); mret None
  end.

(** [sys_recv] up to the end of its first round. *)
Definition sys_recv (ep buf_ptr buf_len hart : Z) : M (result string (option (list Z * Z))) :=
  if negb (check_ep_cap ep RIGHT_RECV) then mret (Err "no recv cap"%string) else
  r ← sys_recv_round ep buf_ptr buf_len hart;
  mret (Ok r).

(** [sys_kill] (syscall/proc.rs) as far as the thread is concerned: a blocked
    thread of the process is marked dead. *)
Definition kill_thread (t : Z) : M () :=
  th ← sched_call (deref_thread t);
  if decide (state th = TWaiting) then sched_call (store_thread t (th <| state := TDead |>))
  else mret ().

Definition initial_ipc : ipc := MkIpc [] 1 0 0 initial_table initial_sched.

(** ** The invariant *)

(** The abstract view: the messages waiting at an endpoint. *)
Definition mailbox (s : ipc) (ep : Z) : option (list (Z * Message)) :=
  contents ∘ pending_senders <$> ep_at (ENDPOINTS s) ep.

(** A thread blocked on an endpoint, or killed while it was. *)
Definition parked (s : ipc) (t : Z) : Prop :=
  ∃ th, threads (sch s) !! t = Some th ∧ (state th = TWaiting ∨ state th = TDead).

Definition waits (s : ipc) (ep w : Z) : Prop :=
  ∃ e, ep_at (ENDPOINTS s) ep = Some e ∧ waiting_receiver e = Some w.

Record ipc_ok (s : ipc) : Prop := {
  io_len : zlen (ENDPOINTS s) = NEXT_EP_ID s;
  io_pos : 0 < NEXT_EP_ID s;
  io_queues : ∀ ep e, ep_at (ENDPOINTS s) ep = Some e → queue_ok (pending_senders e);
  io_ext : table_ok (extensions s);
  io_sched : sched_ok (sch s);
  io_parked : ∀ ep w, waits s ep w → parked s w;
  io_unique : ∀ ep1 ep2 w, waits s ep1 w → waits s ep2 w → ep1 = ep2;
}.

Lemma parked_not_queued s t : ipc_ok s → parked s t → t ∉ all_queued (sch s).
Proof.
  intros Hs (th & Ht & Hst) (th' & Ht' & Hr)%(queued_ready _ _ (io_sched _ Hs)).
  rewrite Ht in Ht'. injection Ht' as <-. destruct Hst; congruence.
Qed.

Lemma sched_call_run {A} (m : Sched.M A) h s a sc :
  m [] (sch s) = Done (a, [], sc) → sched_call m h s = Done (a, h, s <| sch := sc |>).
Proof. intros E. unfold sched_call. by rewrite E. Qed.

Lemma sched_call_read {A} (m : Sched.M A) h s a :
  m [] (sch s) = Done (a, [], sch s) → sched_call m h s = Done (a, h, s).
Proof. intros E. rewrite (sched_call_run m h s a _ E). by destruct s. Qed.

Lemma current_thread_run sc : current_thread [] sc = Done (current sc, [], sc).
Proof. apply with_lock_run; [apply not_elem_of_nil | done]. Qed.

Lemma deref_call h s t th :
  threads (sch s) !! t = Some th → sched_call (deref_thread t) h s = Done (th, h, s).
Proof. intros Ht. by apply sched_call_read, deref_thread_run. Qed.

Lemma store_call h s t th th' :
  threads (sch s) !! t = Some th →
  sched_call (store_thread t th') h s =
    Done ((), h, s <| sch := sch s <| threads := <[t := th']> (threads (sch s)) |> |>).
Proof. intros Ht. by eapply sched_call_run, store_thread_run. Qed.

Lemma ep_at_Some l ep e :
  ep_at l ep = Some e ↔ 0 <= ep ∧ l !! Z.to_nat ep = Some (Some e).
Proof.
  unfold ep_at. destruct (ep <? 0) eqn:E; bools; [split; [done | lia] |].
  destruct (l !! Z.to_nat ep) as [[x |] |]; cbn; naive_solver.
Qed.

Lemma ep_at_range l ep e : ep_at l ep = Some e → 0 <= ep < zlen l.
Proof. intros [? Hl%lookup_lt_Some]%ep_at_Some. unfold zlen. lia. Qed.

Lemma ep_at_insert l ep ep' e :
  0 <= ep < zlen l →
  ep_at (<[Z.to_nat ep := Some e]> l) ep' = if decide (ep' = ep) then Some e else ep_at l ep'.
Proof.
  intros Hr. unfold ep_at. unfold zlen in Hr. case_decide as Hd.
  - subst ep'. rewrite (proj2 (Z.ltb_ge ep 0)) by lia.
    by rewrite list_lookup_insert_eq by lia.
  - destruct (ep' <? 0) eqn:E; bools; [done |]. by rewrite list_lookup_insert_ne by lia.
Qed.

Definition put_ep (s : ipc) (ep : Z) (e : Endpoint) : ipc :=
  s <| ENDPOINTS := <[Z.to_nat ep := Some e]> (ENDPOINTS s) |>.

Lemma set_endpoint_run h s ep e :
  0 <= ep < zlen (ENDPOINTS s) → set_endpoint ep e h s = Done ((), h, put_ep s ep e).
Proof.
  intros Hr. unfold set_endpoint, get, lift, mbind, cmd_bind. by rewrite aset_in_range.
Qed.

Lemma put_ep_put_ep s ep e e' : put_ep (put_ep s ep e) ep e' = put_ep s ep e'.
Proof. unfold put_ep; cbn. by rewrite list_insert_insert_eq. Qed.

(** Writing an endpoint and the scheduler's state. *)
Lemma update_ok s ep e0 e sc t :
  ipc_ok s → ep_at (ENDPOINTS s) ep = Some e0 → queue_ok (pending_senders e) →
  table_ok t → sched_ok sc →
  let s' := put_ep s ep e <| extensions := t |> <| sch := sc |> in
  (∀ ep' w, waits s' ep' w → ep' ≠ ep ∧ waits s ep' w ∧ parked s' w ∨
     ep' = ep ∧ waiting_receiver e = Some w ∧ parked s' w ∧
       ∀ ep1, ep1 ≠ ep → ¬ waits s ep1 w) →
  ipc_ok s'.
Proof.
  intros Hs He Hq Ht Hsc s' Hw. pose proof (ep_at_range _ _ _ He) as Hr.
  split; try done.
  - cbn. rewrite zlen_insert. apply Hs.
  - apply Hs.
  - intros ep' e' He'. cbn in He'. rewrite ep_at_insert in He' by done.
    case_decide; [by injection He' as <- |]. by apply (io_queues _ Hs ep').
  - intros ep' w Hw'. destruct (Hw ep' w Hw') as [(_ & _ & ?) | (_ & _ & ? & _)]; done.
  - intros ep1 ep2 w H1 H2.
    destruct (Hw ep1 w H1) as [(N1 & W1 & _) | (-> & _ & _ & U1)],
      (Hw ep2 w H2) as [(N2 & W2 & _) | (-> & _ & _ & U2)]; try done.
    + by apply (io_unique _ Hs ep1 ep2 w).
    + by destruct (U2 ep1 N1).
    + by destruct (U1 ep2 N2).
Qed.

Lemma waits_put s ep e ep' w :
  0 <= ep < zlen (ENDPOINTS s) → waits (put_ep s ep e) ep' w →
  if decide (ep' = ep) then waiting_receiver e = Some w else waits s ep' w.
Proof.
  intros Hr (e' & He' & Hw). cbn in He'. rewrite ep_at_insert in He' by done.
  case_decide; [by injection He' as -> | by exists e'].
Qed.

Lemma mailbox_put s ep e ep' :
  0 <= ep < zlen (ENDPOINTS s) →
  mailbox (put_ep s ep e) ep' =
    if decide (ep' = ep) then Some (contents (pending_senders e)) else mailbox s ep'.
Proof. intros Hr. unfold mailbox; cbn. rewrite ep_at_insert by done. by case_decide. Qed.

(** ** What the operations do *)

(** The receiver as [wake] leaves it before queueing. *)
Definition boosted (th : Thread) (prio : Z) : Thread :=
  th <| effective_priority := Z.max prio (effective_priority th) |> <| state := TReady |>.

Lemma wake_run h s w th prio :
  sched_ok (sch s) → threads (sch s) !! w = Some th → w ∉ all_queued (sch s) → 0 <= prio →
  ∃ sc, wake w prio h s = Done ((), h, s <| sch := sc |>) ∧ sched_ok sc ∧
    threads sc = <[w := requeued (boosted th prio)]> (threads (sch s)) ∧
    if 64 <=? Z.max prio (effective_priority th) then all_queued sc ≡ₚ all_queued (sch s)
    else all_queued sc ≡ₚ w :: all_queued (sch s).
Proof.
  intros Hs Hw Hn Hp. unfold wake. cstep (deref_call h s w th Hw).
  set (tha := th <| effective_priority := Z.max prio (effective_priority th) |>).
  set (sca := sch s <| threads := <[w := tha]> (threads (sch s)) |>).
  set (sa := s <| sch := sca |>).
  erewrite cmd_bind_Done with (s' := sa) (h' := h); cycle 1.
  { destruct (_ <? _) eqn:E; bools.
    - rewrite (store_call h s w th _ Hw). subst sa sca tha. by rewrite Z.max_l by lia.
    - assert (tha = th) as Ea by (subst tha; rewrite Z.max_r by lia; by destruct th).
      subst sa sca. rewrite Ea, insert_id by done. by destruct s as [? ? ? ? ? []]. }
  assert (threads (sch sa) !! w = Some tha) as Ha by apply lookup_insert_eq.
  cstep (deref_call h sa w tha Ha). cstep (store_call h sa w tha (tha <| state := TReady |>) Ha).
  set (scb := sch sa <| threads := <[w := tha <| state := TReady |>]> (threads (sch sa)) |>).
  assert (thread_ok (boosted th prio)) as Hto.
  { destruct (so_threads _ Hs w th Hw) as (? & ? & ?). split_and!; cbn; [lia | done | done]. }
  assert (sched_ok sca) as Hsca.
  { apply (update_thread_ok (sch s) w tha Hs); [exact Hto | by intros ?%Hn]. }
  assert (sched_ok scb) as Hscb.
  { apply (update_thread_ok sca w (boosted th prio) Hsca); [done | by intros ?%Hn]. }
  assert (threads scb = <[w := boosted th prio]> (threads (sch s))) as Eb
    by (subst scb sa sca; cbn; by rewrite insert_insert_eq).
  destruct (enqueue_thread_run scb w (boosted th prio) Hscb) as (q' & E & Hok & Hr);
    [rewrite Eb; apply lookup_insert_eq | exact Hn |].
  eexists. split; [exact (sched_call_run _ h (sa <| sch := scb |>) () _ E) |].
  split; [done |]. split.
  - change (<[w := requeued (boosted th prio)]> (threads scb) =
      <[w := requeued (boosted th prio)]> (threads (sch s))).
    by rewrite Eb, insert_insert_eq.
  - change (effective_priority (boosted th prio))
      with (Z.max prio (effective_priority th)) in Hr.
    destruct (64 <=? _); by destruct Hr.
Qed.

Definition cur_prio (s : ipc) : Z :=
  match current (sch s) with
  | Some c => match threads (sch s) !! c with Some th => effective_priority th | None => 0 end
  | None => 0
  end.

Lemma current_priority_run h s :
  sched_ok (sch s) → current_priority h s = Done (cur_prio s, h, s) ∧ 0 <= cur_prio s.
Proof.
  intros Hs. unfold current_priority, cur_prio.
  erewrite cmd_bind_Done; [| apply sched_call_read, current_thread_run].
  destruct (current (sch s)) as [c |] eqn:Ec; [| done].
  destruct (so_current _ Hs c Ec) as [th Hth]. rewrite Hth.
  cstep (deref_call h s c th Hth). split; [done |]. apply (so_threads _ Hs c th Hth).
Qed.

(** What a send does to the receiver that waits, if there is one. *)
Definition woken (s s' : ipc) (ep : Z) (e : Endpoint) : Prop :=
  match waiting_receiver e with
  | None => sch s' = sch s
  | Some w =>
      (∀ w', ¬ waits s' ep w') ∧
      ∃ th, threads (sch s) !! w = Some th ∧
        threads (sch s') = <[w := requeued (boosted th (cur_prio s))]> (threads (sch s)) ∧
        if 64 <=? Z.max (cur_prio s) (effective_priority th)
        then all_queued (sch s') ≡ₚ all_queued (sch s)
        else all_queued (sch s') ≡ₚ w :: all_queued (sch s)
  end.

Lemma parked_other s sc w w' th :
  parked s w' → w' ≠ w → threads sc = <[w := th]> (threads (sch s)) →
  parked (s <| sch := sc |>) w'.
Proof.
  intros (th' & Ht & Hst) Hne E. exists th'. split; [| done]. cbn.
  rewrite E, lookup_insert_ne by done. done.
Qed.

Lemma post_run h s ep sender e :
  table_ok (extensions s) → 0 <= ep < zlen (ENDPOINTS s) →
  ∃ t, table_ok t ∧ post ep sender e h s = Done ((), h,
    put_ep s ep e <| SEND_COUNT := u64 (SEND_COUNT s + 1) |> <| extensions := t |>).
Proof.
  intros Hx Hr. destruct (run_hook_ok (extensions s) HOOK_IPC_SEND ep sender Hx) as (t & Et & Ht & _).
  exists t. split; [done |]. unfold post. cstep (set_endpoint_run h s ep e Hr). cpure. cpure.
  erewrite cmd_bind_Done; [| unfold lift; cbn; by rewrite Et]. done.
Qed.

Lemma put_ep_mid s ep e e' n t sc :
  put_ep (put_ep s ep e <| SEND_COUNT := n |> <| extensions := t |>) ep e' <| sch := sc |> =
  put_ep s ep e' <| extensions := t |> <| sch := sc |> <| SEND_COUNT := n |>
    <| RECV_COUNT := RECV_COUNT s |>.
Proof. unfold put_ep; cbn. by rewrite list_insert_insert_eq. Qed.

Lemma send_steps s ep sender msg e s1 s2 :
  ipc_ok s → ep_at (ENDPOINTS s) ep = Some e →
  post ep sender (with_message e sender msg) [LEndpoints] s = Done ((), [LEndpoints], s1) →
  notify ep (with_message e sender msg) (cur_prio s) [LEndpoints] s1 =
    Done ((), [LEndpoints], s2) →
  send ep sender msg [] s = Done (Ok (), [], s2).
Proof.
  intros Hs He E1 E2. unfold send.
  destruct (current_priority_run [] s (io_sched _ Hs)) as [Ec _]. cstep Ec.
  apply with_lock_run; [apply not_elem_of_nil |]. cpure. rewrite He. cstep E1. by cstep E2.
Qed.

Lemma ipc_ok_counts s n m : ipc_ok s → ipc_ok (s <| SEND_COUNT := n |> <| RECV_COUNT := m |>).
Proof. intros Hs. split; apply Hs. Qed.

(** Taking the waiting receiver [w] off its endpoint. *)
Lemma waits_cleared s ep e w ep' w' :
  ipc_ok s → 0 <= ep < zlen (ENDPOINTS s) → waits s ep w → waiting_receiver e = None →
  waits (put_ep s ep e) ep' w' → ep' ≠ ep ∧ waits s ep' w' ∧ w' ≠ w.
Proof.
  intros Hs Hr Hw He Hw'. apply waits_put in Hw'; [| done].
  case_decide; [congruence |]. split; [done |]. split; [done |].
  intros ->. by assert (ep' = ep) by by apply (io_unique _ Hs ep' ep w).
Qed.

Lemma woken_ok s ep e0 e w th sc t :
  ipc_ok s → ep_at (ENDPOINTS s) ep = Some e0 → waits s ep w →
  waiting_receiver e = None → queue_ok (pending_senders e) → table_ok t → sched_ok sc →
  threads sc = <[w := th]> (threads (sch s)) →
  ipc_ok (put_ep s ep e <| extensions := t |> <| sch := sc |>).
Proof.
  intros Hs He Hw Hn Hq Ht Hsc Hthr. apply (update_ok s ep e0 e sc t); try done.
  intros ep' w' Hw'. left.
  destruct (waits_cleared s ep e w ep' w' Hs (ep_at_range _ _ _ He) Hw Hn Hw') as (? & ? & ?).
  split; [done |]. split; [done |].
  eapply (parked_other (put_ep s ep e)); [by apply (io_parked _ Hs ep') | done | exact Hthr].
Qed.

(** Nobody waits: only the mailbox grows. *)
Lemma posted_ok s ep e0 e t :
  ipc_ok s → ep_at (ENDPOINTS s) ep = Some e0 → waiting_receiver e0 = None →
  waiting_receiver e = None → queue_ok (pending_senders e) → table_ok t →
  ipc_ok (put_ep s ep e <| extensions := t |> <| sch := sch s |>).
Proof.
  intros Hs He He0 Hn Hq Ht. apply (update_ok s ep e0 e (sch s) t); try done; [apply Hs |].
  intros ep' w' Hw'. left. assert (waits (put_ep s ep e) ep' w') as Hw2 by exact Hw'.
  apply waits_put in Hw2; [| by eapply ep_at_range]. case_decide; [congruence |].
  split; [done |]. split; [done |]. by apply (io_parked _ Hs ep').
Qed.

Lemma send_run s ep sender msg e :
  ipc_ok s → ep_at (ENDPOINTS s) ep = Some e →
  ∃ s', send ep sender msg [] s = Done (Ok (), [], s') ∧ ipc_ok s' ∧ woken s s' ep e ∧
    (∀ ep' w, waits s' ep' w → waits s ep' w) ∧
    ∀ ep', mailbox s' ep' =
      if decide (ep' = ep) then Some (contents (pending_senders e) ++ [(sender, msg)])
      else mailbox s ep'.
Proof.
  intros Hs He. pose proof (ep_at_range _ _ _ He) as Hr.
  set (e1 := with_message e sender msg).
  destruct (push_back_spec (pending_senders e) (sender, msg) (io_queues _ Hs ep e He)) as [Hq Hc].
  destruct (post_run [LEndpoints] s ep sender e1 (io_ext _ Hs) Hr) as (t & Ht & Ep).
  set (s1 := put_ep s ep e1 <| SEND_COUNT := u64 (SEND_COUNT s + 1) |> <| extensions := t |>) in Ep.
  pose proof (λ s2, send_steps s ep sender msg e s1 s2 Hs He Ep) as Hrun.
  assert (∀ e' ep', pending_senders e' = pending_senders e1 → mailbox (put_ep s ep e') ep' =
    if decide (ep' = ep) then Some (contents (pending_senders e) ++ [(sender, msg)])
    else mailbox s ep') as Hmb.
  { intros e' ep' E. rewrite mailbox_put by done. case_decide; [| done].
    rewrite E. cbn. by rewrite Hc. }
  unfold notify, woken in *. change (waiting_receiver (with_message e sender msg))
    with (waiting_receiver e) in Hrun.
  destruct (waiting_receiver e) as [w |] eqn:Ew.
  - assert (waits s ep w) as Hwait by by exists e.
    pose proof (io_parked _ Hs ep w Hwait) as Hpk.
    pose proof (parked_not_queued s w Hs Hpk) as Hnq. destruct Hpk as (th & Hth & Hst).
    set (e2 := e1 <| waiting_receiver := None |>).
    destruct (wake_run [LEndpoints] (put_ep s1 ep e2) w th (cur_prio s)) as (sc & E & Hsc & Hthr & Haq);
      [apply Hs | done | done | apply (current_priority_run [] s (io_sched _ Hs)) |].
    eexists. split.
    { apply Hrun. erewrite cmd_bind_Done; [exact E |]. apply set_endpoint_run.
      cbn. by rewrite zlen_insert. }
    pose proof (put_ep_mid s ep e1 e2 (u64 (SEND_COUNT s + 1)) t sc) as Es.
    change (put_ep s ep e1 <| SEND_COUNT := u64 (SEND_COUNT s + 1) |> <| extensions := t |>)
      with s1 in Es. rewrite Es. split; [| split; [| split]].
    + apply (ipc_ok_counts (put_ep s ep e2 <| extensions := t |> <| sch := sc |>)).
      by eapply (woken_ok s ep e e2 w).
    + split; [| by exists th]. intros w' Hw'.
      by destruct (waits_cleared s ep e2 w ep w' Hs Hr Hwait eq_refl Hw') as [? _].
    + intros ep' w' Hw'.
      by destruct (waits_cleared s ep e2 w ep' w' Hs Hr Hwait eq_refl Hw') as (_ & ? & _).
    + intros ep'. exact (Hmb e2 ep' eq_refl).
  - exists s1. split; [by apply Hrun |]. split; [| split; [done |]; split].
    + exact (ipc_ok_counts _ (u64 (SEND_COUNT s + 1)) (RECV_COUNT s)
        (posted_ok s ep e e1 t Hs He Ew Ew Hq Ht)).
    + intros ep' w' Hw'. assert (waits (put_ep s ep e1) ep' w') as Hw2 by exact Hw'.
      apply waits_put in Hw2; [| done]. case_decide; [cbn in Hw2; congruence | done].
    + intros ep'. exact (Hmb e1 ep' eq_refl).
Qed.

(** The caller of [recv]: the current thread, which runs. *)
Definition running (s : ipc) (c : Z) (th : Thread) : Prop :=
  current (sch s) = Some c ∧ threads (sch s) !! c = Some th ∧ state th = TRunning.

Definition set_thread (s : ipc) (c : Z) (th : Thread) : ipc :=
  s <| sch := sch s <| threads := <[c := th]> (threads (sch s)) |> |>.

Lemma running_not_queued s c th : ipc_ok s → running s c th → c ∉ all_queued (sch s).
Proof.
  intros Hs (_ & Ht & Hr) (th' & Ht' & Hst)%(queued_ready _ _ (io_sched _ Hs)). congruence.
Qed.

Lemma running_not_waiting s c th ep : ipc_ok s → running s c th → ¬ waits s ep c.
Proof.
  intros Hs (_ & Ht & Hr) (th' & Ht' & Hst)%(io_parked _ Hs).
  rewrite Ht in Ht'. injection Ht' as <-. destruct Hst; congruence.
Qed.

Lemma set_thread_sched_ok s c th th' :
  ipc_ok s → running s c th → thread_ok th' → sched_ok (sch (set_thread s c th')).
Proof.
  intros Hs Hc Hth. apply (update_thread_ok (sch s) c th' (io_sched _ Hs) Hth).
  by intros ?%(running_not_queued s c th Hs Hc).
Qed.

(** Everybody but the caller stays parked. *)
Lemma parked_set_thread s c th th' w ep :
  ipc_ok s → running s c th → waits s ep w → parked (set_thread s c th') w.
Proof.
  intros Hs Hc Hw. destruct (io_parked _ Hs ep w Hw) as (tw & Htw & Hst).
  exists tw. split; [| done]. cbn. rewrite lookup_insert_ne; [done |].
  intros ->. by apply (running_not_waiting s w th ep Hs Hc).
Qed.

Lemma recv_message_run s ep c th e p msg rest :
  ipc_ok s → running s c th → ep_at (ENDPOINTS s) ep = Some e →
  contents (pending_senders e) = (p, msg) :: rest →
  let th' := th <| effective_priority := base_priority th |> in
  ∃ s', recv ep [] s = Done (Ok msg, [], s') ∧ ipc_ok s' ∧
    threads (sch s') = <[c := th']> (threads (sch s)) ∧
    all_queued (sch s') = all_queued (sch s) ∧ (∀ ep' w, waits s' ep' w → waits s ep' w) ∧
    ∀ ep', mailbox s' ep' = if decide (ep' = ep) then Some rest else mailbox s ep'.
Proof.
  intros Hs Hc He Hm th'. pose proof (ep_at_range _ _ _ He) as Hr.
  pose proof (pop_front_spec _ (io_queues _ Hs ep e He)) as Hp. rewrite Hm in Hp.
  destruct Hp as (q & Ep & Hq & Eq). set (e' := e <| pending_senders := q |>).
  pose proof Hc as (Hcur & Hth & Hst).
  set (s1 := put_ep s ep e'). exists (set_thread s1 c th' <| RECV_COUNT := u64 (RECV_COUNT s + 1) |>).
  split; [| split_and!].
  - apply with_lock_run; [apply not_elem_of_nil |]. cpure. rewrite He.
    erewrite cmd_bind_Done; [| unfold lift; by rewrite Ep]. cbv beta iota.
    cstep (set_endpoint_run [LEndpoints] s ep e' Hr).
    erewrite cmd_bind_Done; [| apply sched_call_read, current_thread_run].
    change (current (sch (put_ep s ep e'))) with (current (sch s)). rewrite Hcur.
    cstep (deref_call [LEndpoints] s1 c th Hth).
    by cstep (store_call [LEndpoints] s1 c th th' Hth).
  - enough (ipc_ok (put_ep s ep e' <| extensions := extensions s |> <| sch := sch (set_thread s c th') |>))
      as Hok by exact (ipc_ok_counts _ (SEND_COUNT s) (u64 (RECV_COUNT s + 1)) Hok).
    apply (update_ok s ep e e'); try done; [apply Hs | |].
    + apply (set_thread_sched_ok s c th); [done.. |].
      destruct (so_threads _ (io_sched _ Hs) c th Hth) as (? & ? & ?). by split_and!.
    + intros ep' w Hw. assert (waits (put_ep s ep e') ep' w) as Hw2 by exact Hw.
      apply waits_put in Hw2; [| done]. case_decide.
      * right. subst ep'. assert (waits s ep w) as Hws by by exists e.
        split; [done |]. split; [done |].
        split; [exact (parked_set_thread s c th th' w ep Hs Hc Hws) |].
        intros ep1 Hne Hw1. by apply Hne, (io_unique _ Hs ep1 ep w).
      * left. split; [done |]. split; [done |].
        exact (parked_set_thread s c th th' w ep' Hs Hc Hw2).
  - done.
  - done.
  - intros ep' w Hw. assert (waits (put_ep s ep e') ep' w) as Hw2 by exact Hw.
    apply waits_put in Hw2; [| done]. case_decide; [subst ep'; by exists e | done].
  - intros ep'. transitivity (mailbox (put_ep s ep e') ep'); [done |].
    rewrite mailbox_put by done. case_decide; [| done]. cbn. by rewrite Eq.
Qed.

Lemma recv_block_run s ep c th e :
  ipc_ok s → running s c th → ep_at (ENDPOINTS s) ep = Some e →
  contents (pending_senders e) = [] →
  let th' := th <| state := TWaiting |> <| wait_target := Some (WEndpoint ep) |> in
  ∃ s', recv ep [] s = Done (Err "would block"%string, [], s') ∧ ipc_ok s' ∧
    threads (sch s') = <[c := th']> (threads (sch s)) ∧
    all_queued (sch s') = all_queued (sch s) ∧
    (∀ ep' w, waits s' ep' w → if decide (ep' = ep) then w = c else waits s ep' w) ∧
    waits s' ep c ∧ ∀ ep', mailbox s' ep' = mailbox s ep'.
Proof.
  intros Hs Hc He Hm th'. pose proof (ep_at_range _ _ _ He) as Hr.
  pose proof (pop_front_spec _ (io_queues _ Hs ep e He)) as Hp. rewrite Hm in Hp.
  set (e' := e <| waiting_receiver := Some c |>).
  pose proof Hc as (Hcur & Hth & Hst).
  assert (e <| pending_senders := pending_senders e |> = e) as Ee by by destruct e.
  exists (put_ep (set_thread s c th') ep e'). split; [| split_and!].
  - apply with_lock_run; [apply not_elem_of_nil |]. cpure. rewrite He.
    erewrite cmd_bind_Done; [| unfold lift; by rewrite Hp]. cbv beta iota. rewrite Ee.
    cstep (set_endpoint_run [LEndpoints] s ep e Hr).
    erewrite cmd_bind_Done; [| apply sched_call_read, current_thread_run].
    change (current (sch (put_ep s ep e))) with (current (sch s)). rewrite Hcur.
    cstep (deref_call [LEndpoints] (put_ep s ep e) c th Hth).
    cstep (store_call [LEndpoints] (put_ep s ep e) c th th' Hth).
    erewrite cmd_bind_Done; [| apply set_endpoint_run; cbn; by rewrite zlen_insert].
    unfold mret, cmd_ret. f_equal. f_equal. unfold put_ep, set_thread; cbn.
    by rewrite list_insert_insert_eq.
  - enough (ipc_ok (put_ep s ep e' <| extensions := extensions s |> <| sch := sch (set_thread s c th') |>))
      as Hok by exact Hok.
    apply (update_ok s ep e e'); try done; [exact (io_queues _ Hs ep e He) | apply Hs | |].
    + apply (set_thread_sched_ok s c th); [done.. |].
      destruct (so_threads _ (io_sched _ Hs) c th Hth) as (? & ? & ?). by split_and!.
    + intros ep' w Hw. assert (waits (put_ep s ep e') ep' w) as Hw2 by exact Hw.
      apply waits_put in Hw2; [| done]. case_decide.
      * right. subst ep'. injection Hw2 as <-. split; [done |]. split; [done |]. split.
        -- exists th'. split; [apply lookup_insert_eq | by left].
        -- intros ep1 _. by apply (running_not_waiting s c th).
      * left. split; [done |]. split; [done |].
        exact (parked_set_thread s c th th' w ep' Hs Hc Hw2).
  - done.
  - done.
  - intros ep' w Hw. assert (waits (put_ep s ep e') ep' w) as Hw2 by exact Hw.
    apply waits_put in Hw2; [| done]. case_decide; [cbn in Hw2; congruence | done].
  - exists e'. split; [| done]. cbn. rewrite ep_at_insert by done. by rewrite decide_True.
  - intros ep'. transitivity (mailbox (put_ep s ep e') ep'); [done |].
    rewrite mailbox_put by done. case_decide; [| done]. subst ep'.
    unfold mailbox. by rewrite He.
Qed.

Lemma send_invalid_run s ep sender msg :
  ipc_ok s → ep_at (ENDPOINTS s) ep = None →
  send ep sender msg [] s = Done (Err "invalid ep"%string, [], s).
Proof.
  intros Hs He. unfold send.
  destruct (current_priority_run [] s (io_sched _ Hs)) as [Ec _]. cstep Ec.
  apply with_lock_run; [apply not_elem_of_nil |]. cpure. by rewrite He.
Qed.

Lemma recv_invalid_run s ep :
  ep_at (ENDPOINTS s) ep = None → recv ep [] s = Done (Err "invalid ep"%string, [], s).
Proof.
  intros He. apply with_lock_run; [apply not_elem_of_nil |]. cpure. by rewrite He.
Qed.

Definition created (s : ipc) : ipc :=
  s <| NEXT_EP_ID := NEXT_EP_ID s + 1 |>
    <| ENDPOINTS := ENDPOINTS s ++ [Some (Endpoint_new (NEXT_EP_ID s))] |>.

Lemma create_endpoint_run s :
  zlen (ENDPOINTS s) = NEXT_EP_ID s → 0 < NEXT_EP_ID s < 2 ^ 64 - 1 →
  create_endpoint [] s = Done (NEXT_EP_ID s, [], created s).
Proof.
  intros Hl Hr. unfold create_endpoint.
  erewrite cmd_bind_Done; [| apply with_lock_run; [apply not_elem_of_nil | cpure; by cpure]].
  apply with_lock_run; [apply not_elem_of_nil |]. cpure.
  erewrite cmd_bind_Done; cycle 1.
  { apply set_endpoint_run. cbn. rewrite zlen_app, zlen_replicate. lia. }
  unfold mret, cmd_ret, created, put_ep; cbn. rewrite wrap_small by (unfold fits; lia).
  replace (Z.to_nat (NEXT_EP_ID s + 1 - zlen (ENDPOINTS s))) with 1%nat by lia.
  cbn [replicate]. rewrite <-Hl, to_nat_zlen, insert_app_r_alt, Nat.sub_diag by lia. done.
Qed.

Lemma ep_at_app l e ep :
  ep_at (l ++ [Some e]) ep = if decide (ep = zlen l) then Some e else ep_at l ep.
Proof.
  unfold ep_at. pose proof (zlen_nonneg l). case_decide as Hd.
  - subst ep. rewrite (proj2 (Z.ltb_ge _ 0)) by lia.
    by rewrite to_nat_zlen, list_lookup_middle.
  - destruct (ep <? 0) eqn:E; bools; [done |]. unfold zlen in *.
    destruct (decide (ep < Z.of_nat (length l))).
    + by rewrite lookup_app_l by lia.
    + rewrite !lookup_ge_None_2; [done | lia |]. rewrite length_app; cbn. lia.
Qed.

Lemma created_ok s :
  ipc_ok s →
  ipc_ok (created s) ∧ ∀ ep, mailbox (created s) ep =
    if decide (ep = NEXT_EP_ID s) then Some [] else mailbox s ep.
Proof.
  intros Hs.
  assert (∀ ep, ep_at (ENDPOINTS (created s)) ep =
    if decide (ep = NEXT_EP_ID s) then Some (Endpoint_new (NEXT_EP_ID s))
    else ep_at (ENDPOINTS s) ep) as Hat.
  { intros ep. cbn. rewrite ep_at_app, (io_len _ Hs). done. }
  assert (∀ ep w, waits (created s) ep w → waits s ep w) as Hw.
  { intros ep w (e & He & Hw). rewrite Hat in He.
    case_decide; [injection He as <-; done | by exists e]. }
  split.
  - split; try apply Hs.
    + cbn. rewrite zlen_app, (io_len _ Hs). done.
    + cbn. pose proof (io_pos _ Hs). lia.
    + intros ep e He. rewrite Hat in He. case_decide; [| by apply (io_queues _ Hs ep)].
      injection He as <-. apply empty_queue_ok.
    + intros ep w Hw'. apply (io_parked _ Hs ep w). by apply Hw.
    + intros ep1 ep2 w H1 H2. by apply (io_unique _ Hs ep1 ep2 w); apply Hw.
  - intros ep. unfold mailbox. rewrite Hat. by case_decide.
Qed.

(** ** Reachable states

    Sends and receives by the running thread, endpoint creation, rescheduling,
    the creation of threads, and kills. *)
Inductive ipc_step (s : ipc) : ipc → Prop :=
| is_send ep sender msg r s' :
    send ep sender msg [] s = Done (r, [], s') → ipc_step s s'
| is_recv c th ep r s' :
    running s c th → recv ep [] s = Done (r, [], s') → ipc_step s s'
| is_create r s' :
    NEXT_EP_ID s < 2 ^ 64 - 1 → create_endpoint [] s = Done (r, [], s') → ipc_step s s'
| is_schedule hart r s' :
    0 <= hart < 4 → sched_call (schedule hart) [] s = Done (r, [], s') → ipc_step s s'
| is_spawn t th s' :
    threads (sch s) !! t = None → thread_ok th → state th = TReady →
    sched_call (enqueue_thread t) [] (set_thread s t th) = Done ((), [], s') → ipc_step s s'
| is_kill t s' :
    kill_thread t [] s = Done ((), [], s') → ipc_step s s'.

Definition final {A} (m : M A) (s : ipc) : ipc :=
  match m [] s with Done (_, _, s') => s' | _ => s end.

Definition booted : ipc := final init initial_ipc.

Definition ipc_reachable : ipc → Prop := rtc ipc_step booted.

(** The endpoints do not change, the parked threads stay parked. *)
Lemma ipc_ok_sched s sc :
  ipc_ok s → sched_ok sc → (∀ w, parked s w → parked (s <| sch := sc |>) w) →
  ipc_ok (s <| sch := sc |>).
Proof.
  intros Hs Hsc Hp. split; try apply Hs; [done |].
  intros ep w Hw. apply Hp, (io_parked _ Hs ep w Hw).
Qed.

Lemma spawn_ok s t th s' :
  ipc_ok s → threads (sch s) !! t = None → thread_ok th → state th = TReady →
  sched_call (enqueue_thread t) [] (set_thread s t th) = Done ((), [], s') → ipc_ok s'.
Proof.
  intros Hs Hn Hth Hst E.
  assert (t ∉ all_queued (sch s)) as Hnq.
  { intros (th' & ? & _)%(queued_ready _ _ (io_sched _ Hs)). congruence. }
  assert (sched_ok (sch (set_thread s t th))) as Hsc.
  { apply (update_thread_ok (sch s) t th (io_sched _ Hs) Hth). by intros ?%Hnq. }
  destruct (enqueue_thread_run _ t th Hsc ltac:(apply lookup_insert_eq) Hnq) as (q' & E' & Hok & _).
  erewrite sched_call_run in E by exact E'. injection E as <-.
  eapply (ipc_ok_sched s); [done | exact Hok |].
  intros w (tw & Hw & ?). exists tw. split; [| done]. cbn.
  by rewrite !lookup_insert_ne by congruence.
Qed.

Lemma kill_ok s t s' : ipc_ok s → kill_thread t [] s = Done ((), [], s') → ipc_ok s'.
Proof.
  intros Hs E. unfold kill_thread in E.
  destruct (threads (sch s) !! t) as [th |] eqn:Ht; cycle 1.
  { unfold sched_call, deref_thread, get, lift, mbind, cmd_bind, deref in E. by rewrite Ht in E. }
  rewrite (cmd_bind_Done _ _ _ _ _ _ _ (deref_call [] s t th Ht)) in E.
  case_decide as Hst; [| by injection E as <-].
  rewrite (store_call [] s t th (th <| state := TDead |>) Ht) in E. injection E as <-.
  assert (parked s t) as Hp by (exists th; auto).
  apply ipc_ok_sched; [done | |].
  - apply (update_thread_ok (sch s) t _ (io_sched _ Hs)).
    + apply (so_threads _ (io_sched _ Hs) t th Ht).
    + by intros ?%(parked_not_queued s t Hs Hp).
  - intros w (tw & Hw & Hstw). destruct (decide (w = t)) as [-> | Hne].
    + exists (th <| state := TDead |>). split; [apply lookup_insert_eq | by right].
    + exists tw. split; [| done]. cbn. by rewrite lookup_insert_ne.
Qed.

Lemma ipc_step_ok s s' : ipc_ok s → ipc_step s s' → ipc_ok s'.
Proof.
  intros Hs Hst. destruct Hst as [ep sender msg r s' E | c th ep r s' Hc E | r s' Hr E
    | hart r s' Hh E | t th s' Hn Hth Hst E | t s' E].
  - destruct (ep_at (ENDPOINTS s) ep) as [e |] eqn:He.
    + destruct (send_run s ep sender msg e Hs He) as (? & E' & ? & _). congruence.
    + rewrite send_invalid_run in E by done. by injection E as _ <-.
  - destruct (ep_at (ENDPOINTS s) ep) as [e |] eqn:He.
    + destruct (contents (pending_senders e)) as [| [p msg] rest] eqn:Em.
      * destruct (recv_block_run s ep c th e Hs Hc He Em) as (? & E' & ? & _). congruence.
      * destruct (recv_message_run s ep c th e p msg rest Hs Hc He Em) as (? & E' & ? & _).
        congruence.
    + rewrite recv_invalid_run in E by done. by injection E as _ <-.
  - rewrite create_endpoint_run in E by (apply Hs || (split; [apply Hs | done])).
    injection E as _ <-. by apply created_ok.
  - destruct (schedule_run (sch s) hart (io_sched _ Hs) Hh) as (next & sc & E' & Hsc & _).
    erewrite sched_call_run in E by exact E'. injection E as _ <-.
    apply ipc_ok_sched; [done.. |]. intros w Hw. pose proof (parked_not_queued s w Hs Hw) as Hnq.
    destruct Hw as (tw & Htw & Hst). exists tw. split; [| done]. cbn.
    rewrite (schedule_frame _ _ _ _ w (io_sched _ Hs) Hh E' Hnq); [done |].
    intros tw' ?. destruct Hst; congruence.
  - by eapply spawn_ok.
  - by eapply kill_ok.
Qed.

Lemma booted_ok : ipc_ok booted.
Proof.
  assert (ipc_ok (initial_ipc <| ENDPOINTS := [None] |>)) as H0.
  { assert (∀ ep, ep_at [None] ep = None) as Hn.
    { intros ep. unfold ep_at. destruct (ep <? 0); [done |]. by destruct (Z.to_nat ep) as [| []]. }
    split; try done.
    - intros ep e He. by rewrite Hn in He.
    - apply initial_table_ok.
    - apply initial_sched_ok.
    - intros ep w (e & He & _). cbn in He. by rewrite Hn in He.
    - intros ep1 ep2 w (e & He & _). cbn in He. by rewrite Hn in He. }
  replace booted with (Nat.iter 8 created (initial_ipc <| ENDPOINTS := [None] |>))
    by (vm_compute; reflexivity).
  generalize 8%nat. intros n. induction n as [| n IH]; [done |]. by apply created_ok.
Qed.

Lemma ipc_reachable_ok s : ipc_reachable s → ipc_ok s.
Proof.
  intros Hr. unfold ipc_reachable in Hr. pose proof booted_ok as H0.
  induction Hr as [| s1 s2 s3 Hst _ IH]; [done |]. by apply IH, (ipc_step_ok s1).
Qed.

(** A thread that is parked and registered nowhere stays so. *)
Definition forgotten (s : ipc) (w : Z) : Prop := parked s w ∧ ∀ ep, ¬ waits s ep w.

Lemma parked_sch s s' w : sch s' = sch s → parked s w → parked s' w.
Proof. intros E (th & ? & ?). exists th. by rewrite E. Qed.

Lemma parked_write s s' w t th :
  threads (sch s') = <[t := th]> (threads (sch s)) → t ≠ w → parked s w → parked s' w.
Proof.
  intros E Hne (tw & ? & ?). exists tw. split; [| done]. by rewrite E, lookup_insert_ne.
Qed.

Lemma forgotten_send s ep e s' w :
  ipc_ok s → ep_at (ENDPOINTS s) ep = Some e → woken s s' ep e →
  (∀ ep' w, waits s' ep' w → waits s ep' w) → forgotten s w → forgotten s' w.
Proof.
  intros Hs He Hwk Hw [Hp Hn]. split; [| intros ep' H'; by apply (Hn ep'), Hw].
  unfold woken in Hwk. destruct (waiting_receiver e) as [v |] eqn:Ev.
  - destruct Hwk as (_ & th & _ & E & _). eapply parked_write; [exact E | | done].
    intros ->. apply (Hn ep). by exists e.
  - by apply (parked_sch s).
Qed.

Lemma spawn_frame s t th s' :
  ipc_ok s → threads (sch s) !! t = None → thread_ok th →
  sched_call (enqueue_thread t) [] (set_thread s t th) = Done ((), [], s') →
  (∀ w, t ≠ w → threads (sch s') !! w = threads (sch s) !! w) ∧
  ∀ ep w, waits s ep w ↔ waits s' ep w.
Proof.
  intros Hs Hn Hth E.
  assert (t ∉ all_queued (sch s)) as Hnq.
  { intros (th' & ? & _)%(queued_ready _ _ (io_sched _ Hs)). congruence. }
  assert (sched_ok (sch (set_thread s t th))) as Hsc.
  { apply (update_thread_ok (sch s) t th (io_sched _ Hs) Hth). by intros ?%Hnq. }
  destruct (enqueue_thread_run _ t th Hsc ltac:(apply lookup_insert_eq) Hnq) as (q' & E' & _).
  erewrite sched_call_run in E by exact E'. injection E as <-.
  split; [| done]. intros w Hw. cbn. by rewrite !lookup_insert_ne.
Qed.

Lemma kill_frame s t s' :
  kill_thread t [] s = Done ((), [], s') →
  (∀ w, parked s w → parked s' w) ∧ ∀ ep w, waits s ep w ↔ waits s' ep w.
Proof.
  intros E. unfold kill_thread in E.
  destruct (threads (sch s) !! t) as [th |] eqn:Ht; cycle 1.
  { unfold sched_call, deref_thread, get, lift, mbind, cmd_bind, deref in E. by rewrite Ht in E. }
  rewrite (cmd_bind_Done _ _ _ _ _ _ _ (deref_call [] s t th Ht)) in E.
  case_decide as Hst; [| by injection E as <-].
  rewrite (store_call [] s t th (th <| state := TDead |>) Ht) in E. injection E as <-.
  split; [| done]. intros w (tw & Hw & Hstw). destruct (decide (w = t)) as [-> | Hne].
  - exists (th <| state := TDead |>). split; [apply lookup_insert_eq | by right].
  - exists tw. split; [| done]. cbn. by rewrite lookup_insert_ne.
Qed.

Lemma forgotten_step s s' w : ipc_ok s → ipc_step s s' → forgotten s w → forgotten s' w.
Proof.
  intros Hs Hst Hf. pose proof Hf as [Hp Hn].
  destruct Hst as [ep sender msg r s' E | c th ep r s' Hc E | r s' Hr E
    | hart r s' Hh E | t th s' Hnone Hth Hst E | t s' E].
  - destruct (ep_at (ENDPOINTS s) ep) as [e |] eqn:He.
    + destruct (send_run s ep sender msg e Hs He) as (s2 & E' & _ & Hwk & Hw & _).
      rewrite E' in E. injection E as _ <-. by eapply forgotten_send.
    + rewrite send_invalid_run in E by done. by injection E as _ <-.
  - assert (c ≠ w) as Hcw.
    { intros ->. destruct Hc as (_ & Ht & ?), Hp as (tw & Htw & [?|?]); congruence. }
    destruct (ep_at (ENDPOINTS s) ep) as [e |] eqn:He;
      [| rewrite recv_invalid_run in E by done; by injection E as _ <-].
    destruct (contents (pending_senders e)) as [| [p msg] rest] eqn:Em.
    + destruct (recv_block_run s ep c th e Hs Hc He Em) as (s2 & E' & _ & Et & _ & Hw & _).
      rewrite E' in E. injection E as _ <-. split; [by eapply parked_write |].
      intros ep' H'. apply Hw in H'. case_decide; [by subst | by apply (Hn ep')].
    + destruct (recv_message_run s ep c th e p msg rest Hs Hc He Em)
        as (s2 & E' & _ & Et & _ & Hw & _).
      rewrite E' in E. injection E as _ <-. split; [by eapply parked_write |].
      intros ep' H'. by apply (Hn ep'), Hw.
  - rewrite create_endpoint_run in E by (apply Hs || (split; [apply Hs | done])).
    injection E as _ <-. split; [by apply (parked_sch s) |]. intros ep (e & He & Hw).
    cbn in He. rewrite ep_at_app in He. case_decide; [by injection He as <- |].
    by apply (Hn ep); exists e.
  - destruct (schedule_run (sch s) hart (io_sched _ Hs) Hh) as (next & sc & E' & Hsc & _).
    erewrite sched_call_run in E by exact E'. injection E as _ <-. split; [| exact Hn].
    pose proof (parked_not_queued s w Hs Hp) as Hnq. destruct Hp as (tw & Htw & Hst).
    exists tw. split; [| done]. cbn.
    rewrite (schedule_frame _ _ _ _ w (io_sched _ Hs) Hh E' Hnq); [done |].
    intros tw' ?. destruct Hst; congruence.
  - assert (t ≠ w) as Htw by (intros ->; destruct Hp as (? & ? & _); congruence).
    pose proof (spawn_frame s t th s' Hs Hnone Hth E) as (H1 & H2).
    split; [| intros ep; rewrite <-(H2 ep w); apply Hn].
    destruct Hp as (tw & Ht' & ?). exists tw. split; [| done]. by rewrite H1.
  - pose proof (kill_frame s t s' E) as (H1 & H2).
    split; [by apply H1 | intros ep; rewrite <-(H2 ep w); apply Hn].
Qed.

Lemma forgotten_forever s s' w :
  rtc ipc_step s s' → ipc_ok s → forgotten s w → ipc_ok s' ∧ forgotten s' w.
Proof.
  induction 1 as [| s1 s2 s3 Hst _ IH]; [done |]. intros Hok Hf.
  apply IH; [by eapply ipc_step_ok | by eapply forgotten_step].
Qed.

(** ** The syscalls *)

Lemma caller_pid_run s c th : running s c th → caller_pid [] s = Done (owner th, [], s).
Proof.
  intros (Hc & Ht & _). unfold caller_pid.
  erewrite cmd_bind_Done; [| apply sched_call_read, current_thread_run].
  rewrite Hc. by cstep (deref_call [] s c th Ht).
Qed.

Definition return_value (pid op : Z) : Z :=
  Z.lor (u64 (Z.shiftl op 24)) (Z.land pid 0x00FFFFFF).

Lemma return_value_fields pid op :
  0 <= op < 2 ^ 16 → 0 <= pid →
  Z.shiftr (return_value pid op) 24 = op ∧ return_value pid op mod 2 ^ 24 = pid mod 2 ^ 24.
Proof.
  intros Hop Hpid. unfold return_value. change 0x00FFFFFF with (Z.ones 24).
  rewrite Z.land_ones by lia. rewrite wrap_small, Z.shiftl_mul_pow2 by
    (unfold fits; rewrite ?Z.shiftl_mul_pow2; lia).
  pose proof (Z.mod_pos_bound pid (2 ^ 24) ltac:(lia)) as Hm.
  assert (Z.land (op * 2 ^ 24) (pid mod 2 ^ 24) = 0) as Hd.
  { apply Z.bits_inj'. intros k Hk. rewrite Z.land_spec, Z.bits_0.
    destruct (decide (k < 24)).
    - by rewrite Z.mul_pow2_bits_low by lia.
    - rewrite (fits_testbit 24 (pid mod 2 ^ 24) k) by (done || lia). apply andb_false_r. }
  rewrite <-(Z.lxor_lor _ _ Hd), <-Z.add_nocarry_lxor by done.
  rewrite Z.shiftr_div_pow2 by lia. split; dlia.
Qed.

(** The bytes a copied payload delivers. *)
Lemma deliver_copied mem pid op ptr len bptr blen :
  ptr ≠ 0 → 0 < len → bptr ≠ 0 → 0 < blen →
  deliver (copy_payload mem ptr len (Message_new pid op)) bptr blen =
    ((λ i, mem (u64 (ptr + i))) <$> zseq 0 (Z.min (Z.min len 64) blen), return_value pid op).
Proof.
  intros Hptr Hlen Hbptr Hblen. unfold deliver, copy_payload.
  rewrite (proj2 (Z.eqb_neq ptr 0)), (proj2 (Z.ltb_lt 0 len)) by done.
  cbn [negb andb payload payload_len opcode sender_pid set_field].
  change MAX_PAYLOAD with 64. rewrite (proj2 (Z.eqb_neq bptr 0)) by done. cbn [negb].
  rewrite (proj2 (Z.ltb_lt 0 _)) by lia. cbn [andb]. f_equal.
  set (n := Z.min len 64). rewrite take_app_le by (rewrite length_fmap, length_zseq; lia).
  rewrite <-fmap_take. f_equal.
  replace n with (Z.min n blen + (n - Z.min n blen)) at 2 by lia.
  rewrite zseq_app by lia. apply take_app_length'. by rewrite length_zseq.
Qed.

(** ** Theorems *)

(** A concrete history: thread 4096 of process 1 is created, runs and blocks on
    endpoint 1; thread 8192 of process 2 is created and runs. *)
Definition ex_thread (t priority : Z) : Thread :=
  Thread_new 0 t t priority 0x10000 0x90000 0.

Lemma ex_thread_ok t priority : 0 <= priority → thread_ok (ex_thread t priority).
Proof. intros. split_and!; cbn; lia. Qed.

Definition spawned (t : Z) (th : Thread) (s : ipc) : ipc :=
  final (sched_call (enqueue_thread t)) (set_thread s t th).

Definition ex_first : ipc := spawned 4096 (ex_thread 1 32) booted.
Definition ex_first_runs : ipc := final (sched_call (schedule 0)) ex_first.
Definition ex_blocked : ipc := final (recv 1) ex_first_runs.
Definition ex_idle : ipc := final (sched_call (schedule 0)) ex_blocked.
Definition ex_second : ipc := spawned 8192 (ex_thread 2 40) ex_idle.
Definition ex_waiting : ipc := final (sched_call (schedule 0)) ex_second.

Definition thread_at (s : ipc) (t : Z) : Thread :=
  default (ex_thread 0 0) (threads (sch s) !! t).

Lemma ex_first_runs_reachable : ipc_reachable ex_first_runs.
Proof.
  eapply rtc_l; [eapply (is_spawn booted 4096 (ex_thread 1 32)) |].
  { vm_compute; reflexivity. }
  { apply ex_thread_ok. lia. }
  { reflexivity. }
  { vm_compute; reflexivity. }
  apply rtc_once. eapply (is_schedule ex_first 0); [lia | vm_compute; reflexivity].
Qed.

Lemma ex_first_running : running ex_first_runs 4096 (thread_at ex_first_runs 4096).
Proof. split_and!; vm_compute; reflexivity. Qed.

Lemma ex_waiting_reachable : ipc_reachable ex_waiting.
Proof.
  unfold ipc_reachable. etrans; [exact ex_first_runs_reachable |].
  eapply rtc_l; [eapply (is_recv ex_first_runs 4096 _ 1); [exact ex_first_running |] |].
  { vm_compute; reflexivity. }
  eapply rtc_l; [eapply (is_schedule ex_blocked 0); [lia | vm_compute; reflexivity] |].
  eapply rtc_l; [eapply (is_spawn ex_idle 8192 (ex_thread 2 40)) |].
  { vm_compute; reflexivity. }
  { apply ex_thread_ok. lia. }
  { reflexivity. }
  { vm_compute; reflexivity. }
  apply rtc_once. eapply (is_schedule ex_second 0); [lia | vm_compute; reflexivity].
Qed.

Lemma ex_waiting_running : running ex_waiting 8192 (thread_at ex_waiting 8192).
Proof. split_and!; vm_compute; reflexivity. Qed.

Lemma ex_waiting_waits : waits ex_waiting 1 4096.
Proof. eexists. split; vm_compute; reflexivity. Qed.

(** C6. Sending and receiving implement first-in first-out mailboxes.  In every
    reachable state, a send to an endpoint that exists succeeds and appends
    the message to that endpoint's mailbox and to no other; a receive by the
    running thread takes the oldest message, or, when there is none, reports
    that it would block and changes no mailbox; on an endpoint that does not
    exist both report an error and change nothing. *)
Theorem ipc_refines_mailboxes (s : ipc) (ep sender c : Z) (msg : Message) (th : Thread) :
  ipc_reachable s → running s c th →
  match mailbox s ep with
  | None =>
      send ep sender msg [] s = Done (Err "invalid ep"%string, [], s) ∧
      recv ep [] s = Done (Err "invalid ep"%string, [], s)
  | Some l =>
      (∃ s', send ep sender msg [] s = Done (Ok (), [], s') ∧
         ∀ ep', mailbox s' ep' =
           if decide (ep' = ep) then Some (l ++ [(sender, msg)]) else mailbox s ep') ∧
      match l with
      | [] => ∃ s', recv ep [] s = Done (Err "would block"%string, [], s') ∧
                ∀ ep', mailbox s' ep' = mailbox s ep'
      | (_, m) :: l' => ∃ s', recv ep [] s = Done (Ok m, [], s') ∧
                ∀ ep', mailbox s' ep' = if decide (ep' = ep) then Some l' else mailbox s ep'
      end
  end.
Proof.
  intros Hs%ipc_reachable_ok Hc. unfold mailbox at 1.
  destruct (ep_at (ENDPOINTS s) ep) as [e |] eqn:He; cbn [fmap option_fmap option_map].
  - change ((contents ∘ pending_senders) e) with (contents (pending_senders e)). split.
    + destruct (send_run s ep sender msg e Hs He) as (s' & ? & _ & _ & _ & ?). by exists s'.
    + destruct (contents (pending_senders e)) as [| [p m] rest] eqn:Em.
      * destruct (recv_block_run s ep c th e Hs Hc He Em) as (s' & ? & _ & _ & _ & _ & _ & ?).
        by exists s'.
      * destruct (recv_message_run s ep c th e p m rest Hs Hc He Em)
          as (s' & ? & _ & _ & _ & _ & ?). by exists s'.
  - split; [by apply send_invalid_run | by apply recv_invalid_run].
Qed.

Lemma ipc_refines_mailboxes_witness :
  ∃ s', send 1 2 (Message_new 2 7) [] ex_waiting = Done (Ok (), [], s') ∧
    mailbox s' 1 = Some [(2, Message_new 2 7)].
Proof.
  pose proof (ipc_refines_mailboxes ex_waiting 1 2 8192 (Message_new 2 7)
    (thread_at ex_waiting 8192) ex_waiting_reachable ex_waiting_running) as H.
  replace (mailbox ex_waiting 1) with (Some (@nil (Z * Message))) in H by (vm_compute; reflexivity).
  destruct H as [(s' & E & Hm) _]. exists s'. split; [exact E |]. exact (Hm 1).
Defined.

(** A send to an endpoint with a waiting receiver wakes exactly that
    thread: it is ready, has at least the sender's priority (priority
    inheritance), is queued once, unless its priority has no level, and is no
    longer registered at the endpoint; no other thread changes. *)
Theorem send_wakes_receiver (s : ipc) (ep sender w : Z) (msg : Message) :
  ipc_reachable s → waits s ep w →
  ∃ s' th th', send ep sender msg [] s = Done (Ok (), [], s') ∧
    threads (sch s) !! w = Some th ∧ threads (sch s') !! w = Some th' ∧
    state th' = TReady ∧
    effective_priority th' = Z.max (cur_prio s) (effective_priority th) ∧
    (effective_priority th' < 64 → all_queued (sch s') ≡ₚ w :: all_queued (sch s)) ∧
    (∀ w', ¬ waits s' ep w') ∧
    ∀ t, t ≠ w → threads (sch s') !! t = threads (sch s) !! t.
Proof.
  intros Hs%ipc_reachable_ok (e & He & Hw).
  destruct (send_run s ep sender msg e Hs He) as (s' & E & _ & Hwk & _).
  unfold woken in Hwk. rewrite Hw in Hwk. destruct Hwk as (Hno & th & Hth & Et & Hq).
  destruct (requeued_fields (boosted th (cur_prio s))) as (Ep & _ & _ & Est).
  change (effective_priority (boosted th (cur_prio s)))
    with (Z.max (cur_prio s) (effective_priority th)) in Ep.
  exists s', th, (requeued (boosted th (cur_prio s))).
  split_and!; try done.
  - rewrite Et. apply lookup_insert_eq.
  - rewrite Ep. intros Hlt. by rewrite (proj2 (Z.leb_gt _ _)) in Hq by lia.
  - intros t Ht. by rewrite Et, lookup_insert_ne.
Qed.

Lemma send_wakes_receiver_witness :
  ∃ s', send 1 2 (Message_new 2 7) [] ex_waiting = Done (Ok (), [], s') ∧
    all_queued (sch s') = [4096].
Proof.
  destruct (send_wakes_receiver ex_waiting 1 2 4096 (Message_new 2 7)
    ex_waiting_reachable ex_waiting_waits) as (s' & th & th' & E & Hth & _ & _ & Ep & Hq & _).
  exists s'. split; [exact E |]. apply Permutation_singleton_r.
  change [4096] with (4096 :: all_queued (sch ex_waiting)). apply Hq. rewrite Ep.
  vm_compute in Hth. injection Hth as <-. vm_compute. reflexivity.
Defined.

(** An endpoint remembers one receiver only.  When the running thread
    receives on an empty endpoint on which another thread already waits, that
    other thread is forgotten: it stays blocked in every later state, whatever
    is sent to whichever endpoint. *)
Theorem second_receiver_strands_first (s : ipc) (ep w c : Z) (th : Thread) :
  ipc_reachable s → waits s ep w → running s c th → mailbox s ep = Some [] →
  ∃ s', recv ep [] s = Done (Err "would block"%string, [], s') ∧ ipc_step s s' ∧
    ∀ s'', rtc ipc_step s' s'' → parked s'' w ∧ w ∉ all_queued (sch s'').
Proof.
  intros Hs%ipc_reachable_ok Hw Hc Hm. pose proof Hw as (e & He & Hwe).
  unfold mailbox in Hm. rewrite He in Hm. injection Hm as Hm.
  destruct (recv_block_run s ep c th e Hs Hc He Hm) as (s' & E & Hok & Et & _ & Hw' & _ & _).
  assert (c ≠ w) as Hne by (intros ->; by apply (running_not_waiting s w th ep Hs Hc)).
  exists s'. split; [done |]. split; [by eapply is_recv |].
  assert (forgotten s' w) as Hf.
  { split; [eapply parked_write; [exact Et | done | by apply (io_parked _ Hs ep)] |].
    intros ep' Hin%Hw'. case_decide as Hd; [by subst |].
    by apply Hd, (io_unique _ Hs ep' ep w). }
  intros s'' Hr. destruct (forgotten_forever s' s'' w Hr Hok Hf) as [Hok' Hf'].
  split; [apply Hf' | apply (parked_not_queued _ w Hok'), Hf'].
Qed.

Lemma second_receiver_strands_first_witness :
  ∃ s', recv 1 [] ex_waiting = Done (Err "would block"%string, [], s') ∧
    ∀ s'', rtc ipc_step s' s'' → parked s'' 4096.
Proof.
  destruct (second_receiver_strands_first ex_waiting 1 4096 8192 _ ex_waiting_reachable
    ex_waiting_waits ex_waiting_running) as (s' & E & _ & H); [vm_compute; reflexivity |].
  exists s'. split; [exact E |]. intros s'' Hr. apply (H s'' Hr).
Defined.

(** Killing a process that is blocked in a receive does not stop it: the
    endpoint still names its thread, and the next message sent there makes the
    dead thread ready and queues it. *)
Theorem kill_undone_by_send (s : ipc) (ep sender w : Z) (msg : Message) (th : Thread) :
  ipc_reachable s → waits s ep w → threads (sch s) !! w = Some th → state th = TWaiting →
  effective_priority th < 64 → cur_prio s < 64 →
  ∃ s1 s2 th1 th2, kill_thread w [] s = Done ((), [], s1) ∧
    threads (sch s1) !! w = Some th1 ∧ state th1 = TDead ∧
    send ep sender msg [] s1 = Done (Ok (), [], s2) ∧
    threads (sch s2) !! w = Some th2 ∧ state th2 = TReady ∧ w ∈ all_queued (sch s2).
Proof.
  intros Hs%ipc_reachable_ok (e & He & Hw) Hth Hst Hp Hcp.
  set (thd := th <| state := TDead |>). set (s1 := set_thread s w thd).
  assert (kill_thread w [] s = Done ((), [], s1)) as Ek.
  { unfold kill_thread. cstep (deref_call [] s w th Hth). rewrite decide_True by done.
    exact (store_call [] s w th thd Hth). }
  pose proof (kill_ok s w s1 Hs Ek) as Hs1.
  destruct (send_run s1 ep sender msg e Hs1 He) as (s2 & E & _ & Hwk & _).
  unfold woken in Hwk. rewrite Hw in Hwk. destruct Hwk as (_ & th1 & Hth1 & Et & Hq).
  assert (th1 = thd) as ->
    by (assert (threads (sch s1) !! w = Some thd) by apply lookup_insert_eq; congruence).
  assert (cur_prio s1 < 64) as Hcp1.
  { unfold cur_prio in *. change (current (sch s1)) with (current (sch s)).
    destruct (current (sch s)) as [c |]; [| lia]. subst s1; cbn.
    destruct (decide (c = w)) as [-> | ?];
      [by rewrite lookup_insert_eq | by rewrite lookup_insert_ne]. }
  change (effective_priority thd) with (effective_priority th) in Hq.
  rewrite (proj2 (Z.leb_gt _ _)) in Hq by lia.
  exists s1, s2, thd, (requeued (boosted thd (cur_prio s1))). split_and!; try done.
  - rewrite Et. apply lookup_insert_eq.
  - rewrite Hq. apply list_elem_of_here.
Qed.

Lemma kill_undone_by_send_witness :
  ∃ s1 s2 th1 th2, kill_thread 4096 [] ex_waiting = Done ((), [], s1) ∧
    threads (sch s1) !! 4096 = Some th1 ∧ state th1 = TDead ∧
    send 1 2 (Message_new 2 7) [] s1 = Done (Ok (), [], s2) ∧
    threads (sch s2) !! 4096 = Some th2 ∧ state th2 = TReady ∧ 4096 ∈ all_queued (sch s2).
Proof.
  apply (kill_undone_by_send ex_waiting 1 2 4096 (Message_new 2 7) (thread_at ex_waiting 4096)
    ex_waiting_reachable ex_waiting_waits); vm_compute; reflexivity.
Defined.

(** A message crosses intact.  [sys_send] appends to the endpoint's mailbox
    a message that, when a receiver takes it in some later reachable state,
    fills its buffer with the first bytes of the sender's buffer, up to 64, up
    to the length sent and up to the length of the receiving buffer; the value
    returned to the receiver is the operation code above the low 24 bits of
    the sender's pid. *)
Theorem sys_send_recv_roundtrip (mem : Z → Z) (s s2 : ipc)
    (ep op ptr len bptr blen hart c c2 : Z) (th th2 : Thread) (rest : list (Z * Message)) :
  ipc_reachable s → running s c th → is_Some (mailbox s ep) →
  0 <= op < 2 ^ 16 → 0 <= owner th → ptr ≠ 0 → 0 < len → bptr ≠ 0 → 0 < blen →
  let n := Z.min (Z.min len 64) blen in
  let msg := copy_payload mem ptr len (Message_new (owner th) op) in
  ∃ s1, sys_send mem ep op ptr len [] s = Done (Ok 0, [], s1) ∧
    mailbox s1 ep = (λ l, l ++ [(owner th, msg)]) <$> mailbox s ep ∧
    (ipc_reachable s2 → running s2 c2 th2 → mailbox s2 ep = Some ((owner th, msg) :: rest) →
     ∃ v s3, sys_recv ep bptr blen hart [] s2 =
         Done (Ok (Some ((λ i, mem (u64 (ptr + i))) <$> zseq 0 n, v)), [], s3) ∧
       Z.shiftr v 24 = op ∧ v mod 2 ^ 24 = owner th mod 2 ^ 24).
Proof.
  intros Hs%ipc_reachable_ok Hc [l Hl] Hop Hown Hptr Hlen Hbptr Hblen n msg.
  destruct (ep_at (ENDPOINTS s) ep) as [e |] eqn:He;
    [| unfold mailbox in Hl; by rewrite He in Hl].
  destruct (send_run s ep (owner th) msg e Hs He) as (s1 & E & _ & _ & _ & Hm).
  exists s1. split_and!.
  - unfold sys_send. cbn [check_ep_cap negb].
    rewrite (cmd_bind_Done _ _ _ _ _ _ _ (caller_pid_run s c th Hc)).
    by rewrite (try_bind_Done _ _ _ _ _ _ _ E).
  - rewrite Hm, decide_True by done. unfold mailbox. by rewrite He.
  - intros Hs2%ipc_reachable_ok Hc2 Hm2.
    destruct (ep_at (ENDPOINTS s2) ep) as [e2 |] eqn:He2;
      [| unfold mailbox in Hm2; by rewrite He2 in Hm2].
    unfold mailbox in Hm2. rewrite He2 in Hm2. injection Hm2 as Hm2.
    destruct (recv_message_run s2 ep c2 th2 e2 _ msg rest Hs2 Hc2 He2 Hm2) as (s3 & E3 & _).
    exists (return_value (owner th) op), s3. split; [| by apply return_value_fields].
    unfold sys_recv. cbn [check_ep_cap negb]. erewrite cmd_bind_Done; [reflexivity |].
    unfold sys_recv_round. cstep E3. unfold msg. by rewrite deliver_copied by done.
Qed.

Definition ex_mem (a : Z) : Z := a mod 256.
Definition ex_sent : ipc := final (sys_send ex_mem 1 7 4100 5) ex_waiting.

Lemma ex_sent_reachable : ipc_reachable ex_sent.
Proof.
  unfold ipc_reachable. etrans; [exact ex_waiting_reachable |]. apply rtc_once.
  eapply (is_send ex_waiting 1 2 (copy_payload ex_mem 4100 5 (Message_new 2 7))).
  vm_compute; reflexivity.
Qed.

Lemma ex_sent_running : running ex_sent 8192 (thread_at ex_sent 8192).
Proof. split_and!; vm_compute; reflexivity. Qed.

(** Process 2 sends five bytes and receives three of them in a short buffer. *)
Lemma sys_send_recv_roundtrip_witness :
  ∃ v s3, sys_recv 1 12288 3 0 [] ex_sent = Done (Ok (Some ([4; 5; 6], v)), [], s3) ∧
    Z.shiftr v 24 = 7 ∧ v mod 2 ^ 24 = 2.
Proof.
  destruct (sys_send_recv_roundtrip ex_mem ex_waiting ex_sent 1 7 4100 5 12288 3
    0 8192 8192 (thread_at ex_waiting 8192) (thread_at ex_sent 8192) []
    ex_waiting_reachable ex_waiting_running) as (s1 & _ & _ & H);
    [eexists; vm_compute; reflexivity | lia | vm_compute; discriminate | lia | lia | lia | lia |].
  destruct (H ex_sent_reachable ex_sent_running) as (v & s3 & E & Hop & Hpid);
    [vm_compute; reflexivity |].
  exists v, s3. split_and!; [exact E | exact Hop | exact Hpid].
Defined.

End Ipc.
