(* ===== verification/Frames.v ===== *)
(** * Physical frames: what the memory manager relies on

    The page-table code takes frames from the allocator of mem/buddy.rs, writes
    to them and gives them back.  [FrameAllocator] are the calls it makes and
    [FrameLaws] what it relies on: blocks in use do not overlap, lie in DRAM
    and are aligned to pages, the allocator leaves their contents alone, and
    the code may store to them.  [fa_spare] counts the pages a hart can still be
    given: an allocation fails only when there is none, and takes one otherwise,
    so that clients can say how much memory a call needs.  The page tables
    (Sv39.v) are verified against this interface; the instance below discharges it
    with the buddy allocator and its per-hart caches (Buddy.v, PageAlloc.v), on a
    region of DRAM that starts at a page boundary, as [mem::init] sets it up. *)
From S2P Require Import Prelude Buddy PageAlloc.

Definition DRAM_BASE : Z := 0x80000000.
Definition DRAM_SIZE : Z := 128 * 1024 * 1024.
Definition DRAM_END : Z := DRAM_BASE + DRAM_SIZE.

(** Memory is read and written by 64-bit words, named by their address. *)
Class FrameAllocator (A : Type) : Type := {
  fa_alloc_page : A → Z → outcome (option Z * A);
  fa_alloc_pages : A → Z → outcome (option Z * A);
  fa_free_page : A → Z → Z → Z → outcome A;
  fa_mem : A → Z → Z;
  fa_store : A → (Z → Z) → A;
  fa_base : A → Z;
}.

(** The address lies in the block of order [o] at [p]. *)
Definition in_block (p o x : Z) : Prop := p <= x < p + 2 ^ o * PAGE_SIZE.

Definition in_use (bl : list (Z * Z)) (x : Z) : Prop :=
  ∃ p o, (p, o) ∈ bl ∧ in_block p o x.

(** The words of the blocks [bl] are those from before, in the same region. *)
Definition preserves `{FrameAllocator A} (bl : list (Z * Z)) (a a' : A) : Prop :=
  fa_base a' = fa_base a ∧ ∀ x, in_use bl x → fa_mem a' x = fa_mem a x.

Class FrameLaws (A : Type) `{FrameAllocator A} : Type := {
  (** The blocks in use, as address and order. *)
  fa_ok : A → list (Z * Z) → Prop;
  fa_ok_perm a bl bl' : fa_ok a bl → bl ≡ₚ bl' → fa_ok a bl';
  fa_block a bl p o : fa_ok a bl → (p, o) ∈ bl →
    0 <= o <= 12 ∧ p mod PAGE_SIZE = 0 ∧ DRAM_BASE <= p ∧ p + 2 ^ o * PAGE_SIZE <= DRAM_END ∧
    (p - fa_base a) mod (2 ^ o * PAGE_SIZE) = 0;
  fa_above a bl p o : fa_ok a bl → (p, o) ∈ bl → fa_base a <= p;
  fa_disjoint a bl p o x : fa_ok a ((p, o) :: bl) → in_block p o x → ¬ in_use bl x;
  fa_alloc_page_ok a bl hart : fa_ok a bl → 0 <= hart →
    ∃ r a', fa_alloc_page a hart = Done (r, a') ∧ preserves bl a a' ∧
      fa_ok a' (match r with Some p => (p, 0) :: bl | None => bl end);
  fa_alloc_pages_ok a bl order : fa_ok a bl → 0 <= order →
    ∃ r a', fa_alloc_pages a order = Done (r, a') ∧ preserves bl a a' ∧
      fa_ok a' (match r with Some p => (p, order) :: bl | None => bl end);
  fa_free_page_ok a bl hart p o : fa_ok a ((p, o) :: bl) → 0 <= hart →
    ∃ a', fa_free_page a hart p o = Done a' ∧ preserves bl a a' ∧ fa_ok a' bl;
  fa_store_ok a bl m : fa_ok a bl → (∀ x, ¬ in_use bl x → m x = fa_mem a x) →
    fa_ok (fa_store a m) bl;
  fa_store_mem a m : fa_mem (fa_store a m) = m;
  fa_store_base a m : fa_base (fa_store a m) = fa_base a;
  (** How many pages the hart can still be given, one at a time. *)
  fa_spare : A → Z → Z;
  fa_spare_nonneg a bl hart : fa_ok a bl → 0 <= fa_spare a hart;
  fa_alloc_spare a bl hart r a' : fa_ok a bl → 0 <= hart → fa_alloc_page a hart = Done (r, a') →
    match r with
    | Some _ => fa_spare a' hart = fa_spare a hart - 1
    | None => fa_spare a hart = 0 ∧ fa_spare a' hart = 0
    end;
  fa_store_spare a bl m hart : fa_ok a bl → (∀ x, ¬ in_use bl x → m x = fa_mem a x) →
    fa_spare (fa_store a m) hart = fa_spare a hart;
}.

(** ** The buddy allocator *)

#[export] Instance buddy_frames : FrameAllocator allocator := {
  fa_alloc_page := alloc_page;
  fa_alloc_pages := alloc_addr;
  fa_free_page := free_page;
  fa_mem a := phys (ALLOCATOR a);
  fa_store a m := Allocator (set_phys (ALLOCATOR a) m) (CPU_CACHES a) (CACHE_HITS a) (CACHE_MISSES a);
  fa_base a := base (ALLOCATOR a);
}.

(** The same block by page number. *)
Definition by_page (b : buddy) (x : Z * Z) : Z * Z := (page_of b x.1, x.2).

Definition at_page (b : buddy) (x : Z * Z) : Prop :=
  x.1 = base b + page_of b x.1 * PAGE_SIZE.

Record buddy_ok (a : allocator) (bl : list (Z * Z)) : Prop := {
  bo_inv : ∃ fl, sys_inv (Sys a (by_page (ALLOCATOR a) <$> bl)) fl;
  bo_at : Forall (at_page (ALLOCATOR a)) bl;
  bo_aligned : base (ALLOCATOR a) mod PAGE_SIZE = 0;
  bo_dram : DRAM_BASE <= base (ALLOCATOR a) ∧ end_ (ALLOCATOR a) <= DRAM_END;
}.

Lemma in_use_opages b bl x :
  Forall (at_page b) bl → (∀ p o, (p, o) ∈ bl → 0 <= o) →
  in_use bl x ↔ ∃ q, q ∈ opages (by_page b <$> bl) ∧
    base b + q * PAGE_SIZE <= x < base b + (q + 1) * PAGE_SIZE.
Proof.
  intros Hat Ho. rewrite Forall_forall in Hat. unfold in_use, opages, in_block. split.
  - intros (p & o & Hin & Hx). pose proof (Hat _ Hin) as Hp.
    unfold at_page in Hp. cbn [fst] in Hp.
    exists ((x - base b) / PAGE_SIZE). split.
    + apply list_elem_of_join. exists (pages (page_of b p) o). split.
      * apply elem_of_pages. unfold PAGE_SIZE in *. generalize dependent (page_of b p).
        generalize dependent (2 ^ o). intros k Hk q ->. dlia.
      * rewrite <-list_fmap_compose. 
        apply list_elem_of_fmap. by exists (p, o).
    + unfold PAGE_SIZE. dlia.
  - intros (q & (l & Hq & Hl)%list_elem_of_join & Hx).
    rewrite <-list_fmap_compose in Hl. apply list_elem_of_fmap in Hl as ([p o] & -> & Hin).
    cbn in Hq. apply elem_of_pages in Hq. pose proof (Hat _ Hin) as Hp.
    unfold at_page in Hp. cbn [fst] in Hp.
    exists p, o. split; [done |]. unfold PAGE_SIZE in *. set (k := 2 ^ o) in *. nia.
Qed.

Lemma block_order a fl b bl p o :
  sys_inv (Sys a (by_page b <$> bl)) fl → (p, o) ∈ bl → block_ok (ALLOCATOR a) (page_of b p) o.
Proof.
  intros Hs Hin. pose proof (si_owned _ _ Hs) as Ho. rewrite Forall_forall in Ho.
  apply (Ho (page_of b p, o)). by apply (list_elem_of_fmap_2 (by_page b) bl (p, o)).
Qed.

Lemma same_by_page b b' (bl : list (Z * Z)) : base b' = base b → by_page b' <$> bl = by_page b <$> bl.
Proof. intros E. apply list_fmap_ext. intros i x _. unfold by_page, page_of. by rewrite E. Qed.

Lemma same_at_page b b' bl :
  base b' = base b → Forall (at_page b) bl → Forall (at_page b') bl.
Proof.
  intros E H. eapply Forall_impl; [exact H |]. intros x. unfold at_page, page_of. by rewrite E.
Qed.

Lemma keeps_preserves a a' bl fl :
  sys_inv (Sys a (by_page (ALLOCATOR a) <$> bl)) fl → Forall (at_page (ALLOCATOR a)) bl →
  base (ALLOCATOR a') = base (ALLOCATOR a) →
  keeps (opages (by_page (ALLOCATOR a) <$> bl)) (ALLOCATOR a) (ALLOCATOR a') → preserves bl a a'.
Proof.
  intros Hs Hat Hb Hk. split; [done |]. intros x Hx.
  apply (in_use_opages (ALLOCATOR a)) in Hx as (q & Hq & Hx); [by apply (Hk q) | done |].
  intros p o Hin. apply (block_order _ _ _ _ _ _ Hs Hin).
Qed.

Lemma page_addr_at b addr : page_addr b addr → addr = base b + page_of b addr * PAGE_SIZE.
Proof. intros (p & _ & ->). by rewrite page_of_addr. Qed.

Lemma buddy_ok_moves a a' bl bl' fl fl' :
  buddy_ok a bl → Forall (at_page (ALLOCATOR a)) bl' →
  returns (Sys a (by_page (ALLOCATOR a) <$> bl)) (Sys a' (by_page (ALLOCATOR a) <$> bl')) fl fl' →
  buddy_ok a' bl'.
Proof.
  intros [_ _ Hal Hd] Hat [Hi Hb He _ _ _]. cbn in Hb, He. split.
  - exists fl'. by rewrite (same_by_page (ALLOCATOR a)).
  - by eapply same_at_page.
  - by rewrite Hb.
  - by rewrite Hb, He.
Qed.

Lemma buddy_block a bl p o :
  buddy_ok a bl → (p, o) ∈ bl →
  0 <= o <= 12 ∧ p mod PAGE_SIZE = 0 ∧ DRAM_BASE <= p ∧ p + 2 ^ o * PAGE_SIZE <= DRAM_END ∧
  (p - base (ALLOCATOR a)) mod (2 ^ o * PAGE_SIZE) = 0.
Proof.
  intros [[fl Hs] Hat Hal Hd] Hin.
  destruct (block_order _ _ _ _ _ _ Hs Hin) as (Ho & Hp & Ht & Hm).
  destruct (sys_geometry _ _ Hs) as (Hb & _ & He & _). cbn in Hb, He.
  rewrite Forall_forall in Hat. pose proof (Hat _ Hin) as Ep. unfold at_page in Ep. cbn in Ep.
  pose proof (pow2_pos o ltac:(lia)).
  split_and!; [lia | lia | | | |].
  - rewrite Ep, Z_mod_plus_full. done.
  - unfold PAGE_SIZE in *. lia.
  - rewrite Ep. unfold PAGE_SIZE in *. nia.
  - rewrite Ep, Z.add_simpl_l, Zmult_mod_distr_r, Hm. done.
Qed.

Lemma buddy_above a bl p o : buddy_ok a bl → (p, o) ∈ bl → base (ALLOCATOR a) <= p.
Proof.
  intros [[fl Hs] Hat Hal Hd] Hin.
  destruct (block_order _ _ _ _ _ _ Hs Hin) as (Ho & Hp & Ht & Hm).
  rewrite Forall_forall in Hat. pose proof (Hat _ Hin) as Ep. unfold at_page, PAGE_SIZE in Ep. cbn in Ep. lia.
Qed.

Lemma buddy_disjoint a bl p o x :
  buddy_ok a ((p, o) :: bl) → in_block p o x → ¬ in_use bl x.
Proof.
  intros [[fl Hs] Hat _ _] Hx Huse.
  assert (∀ q k, (q, k) ∈ (p, o) :: bl → 0 <= k) as Ho.
  { intros q k Hin. apply (block_order _ _ _ _ _ _ Hs Hin). }
  pose proof (si_nodup _ _ Hs) as Hnd. cbn [owned] in Hnd.
  apply NoDup_app in Hnd as (_ & _ & (_ & _ & Hnd)%NoDup_app).
  apply Forall_cons in Hat as [Hp Hat].
  apply (in_use_opages (ALLOCATOR a)) in Huse as (q & Hq & Hxq); [| done | set_solver].
  assert (in_use [(p, o)] x) as H1 by (exists p, o; set_solver).
  apply (in_use_opages (ALLOCATOR a)) in H1 as (q' & Hq' & Hxq');
    [| by constructor | set_solver].
  assert (q' = q) as -> by (unfold PAGE_SIZE in *; lia).
  change (q ∈ pages (page_of (ALLOCATOR a) p) o ++ []) in Hq'. rewrite app_nil_r in Hq'.
  apply NoDup_app in Hnd as (_ & Hd & _). by apply (Hd q).
Qed.

Lemma buddy_alloc_page a bl hart :
  buddy_ok a bl → 0 <= hart →
  ∃ r a', alloc_page a hart = Done (r, a') ∧ preserves bl a a' ∧
    buddy_ok a' (match r with Some p => (p, 0) :: bl | None => bl end).
Proof.
  intros Ha Hh. pose proof Ha as [[fl Hs] Hat _ _].
  destruct (alloc_page_ok _ fl hart Hs Hh) as (r & a' & E & Hk & Hr & fl' & Hm).
  exists r, a'. cbn in E, Hk, Hr. split_and!; [done | |].
  - eapply keeps_preserves; [done | done | apply Hm | done].
  - eapply buddy_ok_moves; [done | | apply moves_returns; destruct r; exact Hm].
    destruct r as [p |]; [| done]. constructor; [| done]. by apply page_addr_at, Hr.
Qed.

Lemma buddy_alloc_pages a bl order :
  buddy_ok a bl → 0 <= order →
  ∃ r a', alloc_addr a order = Done (r, a') ∧ preserves bl a a' ∧
    buddy_ok a' (match r with Some p => (p, order) :: bl | None => bl end).
Proof.
  intros Ha Ho. pose proof Ha as [[fl Hs] Hat _ _].
  destruct (alloc_addr_ok _ fl order Hs Ho) as (r & a' & E & Hr). cbn in E, Hr.
  exists r, a'. split; [done |]. destruct r as [p |]; [| by subst a'; split].
  destruct Hr as (_ & Hp & Hk & fl' & Hm). split.
  - eapply keeps_preserves; [done | done | apply Hm | done].
  - eapply buddy_ok_moves; [done | | apply moves_returns; exact Hm]. by constructor.
Qed.

Lemma buddy_free_page a bl hart p o :
  buddy_ok a ((p, o) :: bl) → 0 <= hart →
  ∃ a', free_page a hart p o = Done a' ∧ preserves bl a a' ∧ buddy_ok a' bl.
Proof.
  intros Ha Hh. pose proof Ha as [[fl Hs] Hat _ _]. apply Forall_cons in Hat as [Hp Hat].
  destruct (free_page_ok _ fl hart (page_of (ALLOCATOR a) p) o (list_fmap _ _ (by_page (ALLOCATOR a)) bl)
    Hs Hh ltac:(reflexivity)) as (a' & E & Hk & fl' & Hm).
  cbn in E, Hk. destruct (block_order _ _ _ _ p o Hs ltac:(set_solver)) as (? & ? & ? & _).
  pose proof (pow2_pos o ltac:(lia)).
  rewrite page_to_addr_eq in E; [| apply (sys_geometry _ _ Hs) | cbn in *; lia].
  unfold at_page in Hp. cbn in Hp. rewrite <-Hp in E.
  exists a'. split_and!; [done | |].
  - split; [apply Hm |]. intros x Hx.
    apply (in_use_opages (ALLOCATOR a)) in Hx as (q & Hq & Hx); [by apply (Hk q) | done |].
    intros q k Hin. eapply (block_order a fl (ALLOCATOR a) ((p, o) :: bl) q k); [done | set_solver].
  - by eapply buddy_ok_moves.
Qed.

Lemma buddy_store_moves a bl fl m :
  sys_inv (Sys a (by_page (ALLOCATOR a) <$> bl)) fl → Forall (at_page (ALLOCATOR a)) bl →
  (∀ x, ¬ in_use bl x → m x = phys (ALLOCATOR a) x) →
  moves (Sys a (by_page (ALLOCATOR a) <$> bl)) (Sys (fa_store a m) (by_page (ALLOCATOR a) <$> bl)) fl fl.
Proof.
  intros Hs Hat Hm. apply (store_ok _ fl m Hs).
  cbn [kernel owned]. intros q Hq Hnin. apply Hm. intros Hx. apply Hnin.
  apply (in_use_opages (ALLOCATOR a)) in Hx as (q' & Hq' & Hx); [| done |].
  - rewrite page_to_addr_eq in Hx; [| apply (sys_geometry _ _ Hs) | lia].
    unfold PAGE_SIZE in Hx. cbn in Hx. by replace q with q' by lia.
  - intros p o Hin. apply (block_order _ _ _ _ _ _ Hs Hin).
Qed.

Lemma buddy_store a bl m :
  buddy_ok a bl → (∀ x, ¬ in_use bl x → m x = phys (ALLOCATOR a) x) →
  buddy_ok (fa_store a m) bl.
Proof.
  intros Ha Hm. pose proof Ha as [[fl Hs] Hat _ _].
  eapply buddy_ok_moves; [done | done |]. apply moves_returns. by apply buddy_store_moves.
Qed.

Lemma buddy_ok_perm a bl bl' : buddy_ok a bl → bl ≡ₚ bl' → buddy_ok a bl'.
Proof.
  intros [[fl [Hi Hh Hc Ho Hnd Hcnt]] Hat Hal Hd] Hp. split; [| by rewrite <-Hp | done | done].
  exists fl. assert (opages (by_page (ALLOCATOR a) <$> bl) ≡ₚ opages (by_page (ALLOCATOR a) <$> bl'))
    as Hop by (apply opages_perm; by rewrite Hp).
  cbn in *. split; cbn; [done | done | done | by rewrite <-Hp | by rewrite <-Hop |].
  rewrite Hcnt. by rewrite Hop.
Qed.

(** ** Pages left *)

(** The pages in the free lists, as [count_free_pages] counts them, and those in
    the hart's cache. *)
Definition cached_for (a : allocator) (hart : Z) : Z :=
  if MAX_CPU_HARTS <=? hart then 0 else default 0 (count <$> CPU_CACHES a !! Z.to_nat hart).

Definition spare (a : allocator) (hart : Z) : Z :=
  match count_free_pages (ALLOCATOR a) with Done n => n | _ => 0 end + cached_for a hart.

Lemma spare_lists a fl hart :
  inv (ALLOCATOR a) fl → spare a hart = Z.of_nat (length (flat fl)) + cached_for a hart.
Proof. intros Hi. unfold spare. by rewrite (count_free_pages_spec _ fl Hi). Qed.

Lemma flat_none fl : (∀ k, 0 <= k < zlen fl → fl !! Z.to_nat k = Some []) → flat fl = [].
Proof.
  unfold flat. enough (∀ o, (∀ k, 0 <= k < zlen fl → fl !! Z.to_nat k = Some []) → flat_from o fl = []) by auto.
  induction fl as [| l fl IH]; intros o H; [done |]. cbn [flat_from].
  pose proof (H 0 ltac:(unfold zlen; cbn; lia)) as [= ->]. rewrite IH; [by unfold oflat |].
  intros k Hk. rewrite <-(H (k + 1)) by (unfold zlen in *; cbn; lia).
  by replace (Z.to_nat (k + 1)) with (S (Z.to_nat k)) by lia.
Qed.

Lemma cached_nonneg a fl own hart : sys_inv (Sys a own) fl → 0 <= cached_for a hart.
Proof.
  intros Hs. unfold cached_for. destruct (MAX_CPU_HARTS <=? hart); [lia |].
  destruct (CPU_CACHES a !! Z.to_nat hart) as [c |] eqn:E; [| cbn; lia].
  pose proof (si_caches _ _ Hs) as Hc. cbn in Hc. eapply Forall_lookup_1 in Hc; [| exact E]. cbn. apply Hc.
Qed.

Lemma buddy_spare_nonneg a bl hart : buddy_ok a bl → 0 <= spare a hart.
Proof.
  intros [[fl Hs] _ _ _]. rewrite (spare_lists a fl) by apply Hs. pose proof (cached_nonneg _ _ _ hart Hs). lia.
Qed.

(** The cache gives a page if it has one. *)
Lemma fast_spare a fl own hart r a' :
  sys_inv (Sys a own) fl → 0 <= hart → alloc_page_fast a hart = Done (r, a') →
  match r with
  | Some _ => ALLOCATOR a' = ALLOCATOR a ∧ cached_for a' hart = cached_for a hart - 1
  | None => a' = a ∧ cached_for a hart = 0
  end.
Proof.
  intros Hs Hh. unfold alloc_page_fast, cached_for. destruct (MAX_CPU_HARTS <=? hart) eqn:E8; [by intros [= <- <-] |].
  bools. unfold MAX_CPU_HARTS in *. destruct (hart_cache _ fl hart Hs ltac:(lia)) as (c & Hget & Hc & _). cbn in Hget.
  pose proof Hget as [_ Hl]%aget_lookup. rewrite Hget, Hl. cbn [mbind outcome_bind].
  destruct (0 <? count c) eqn:E0; bools.
  - pose proof (si_harts _ _ Hs) as H8. cbn in H8. rewrite aset_in_range by lia. cbn [mbind outcome_bind].
    destruct (aget (cached c) (count c - 1)); cbn [mbind outcome_bind]; try done. intros [= <- <-]. split; [done |]. cbn -[insert lookup].
    rewrite list_lookup_insert_eq by (unfold zlen in H8; lia). done.
  - intros [= <- <-]. split; [done |]. cbn. pose proof (co_count _ _ Hc). lia.
Qed.

Lemma buddy_alloc_spare a bl hart r a' :
  buddy_ok a bl → 0 <= hart → alloc_page a hart = Done (r, a') →
  match r with
  | Some _ => spare a' hart = spare a hart - 1
  | None => spare a hart = 0 ∧ spare a' hart = 0
  end.
Proof.
  intros [[fl Hs] _ _ _] Hh. unfold alloc_page.
  destruct (alloc_page_fast a hart) as [[r1 a1] | | |] eqn:E1; cbn [mbind outcome_bind fst snd]; try done.
  pose proof (fast_spare _ _ _ _ _ _ Hs Hh E1) as H1. destruct r1 as [page |].
  { destruct H1 as [Hb Hc]. intros [= <- <-]. rewrite !(spare_lists _ fl) by (cbn; rewrite ?Hb; apply Hs).
    change (cached_for (Allocator _ _ _ _) hart) with (cached_for a1 hart). lia. }
  destruct H1 as [-> Hc]. unfold alloc_addr. cbn [ALLOCATOR].
  destruct (alloc_pages_spec (ALLOCATOR a) fl 0) as (o & b' & -> & Hpost); [apply Hs | lia |].
  cbn [mbind outcome_bind fst snd]. intros [= <- <-]. rewrite (spare_lists a fl) by apply Hs.
  destruct o as [p |]; cbn [option_map].
  - destruct Hpost as (fl' & Hi' & _ & Hp & _). rewrite (spare_lists _ fl') by done.
    change (cached_for (Allocator _ _ _ _) hart) with (cached_for a hart).
    apply Permutation_length in Hp. rewrite pages_0, length_app in Hp. cbn in Hp. lia.
  - destruct Hpost as [-> Hnone]. rewrite (spare_lists _ fl) by apply Hs.
    change (cached_for (Allocator _ _ _ _) hart) with (cached_for a hart).
    rewrite flat_none; [cbn; lia |]. intros k Hk. apply Hnone.
    pose proof (inv_fl _ _ (si_inv _ _ Hs)). unfold zlen in Hk. lia.
Qed.

Lemma buddy_store_spare a bl m hart :
  buddy_ok a bl → (∀ x, ¬ in_use bl x → m x = phys (ALLOCATOR a) x) → spare (fa_store a m) hart = spare a hart.
Proof.
  intros [[fl Hs] Hat _ _] Hm. pose proof (mv_inv _ _ _ _ (buddy_store_moves a bl fl m Hs Hat Hm)) as Hs'.
  by rewrite !(spare_lists _ fl) by (apply Hs || apply Hs').
Qed.

#[export] Instance buddy_laws : FrameLaws allocator := {
  fa_ok := buddy_ok;
  fa_ok_perm := buddy_ok_perm;
  fa_block := buddy_block;
  fa_above := buddy_above;
  fa_disjoint := buddy_disjoint;
  fa_alloc_page_ok := buddy_alloc_page;
  fa_alloc_pages_ok := buddy_alloc_pages;
  fa_free_page_ok := buddy_free_page;
  fa_store_ok := buddy_store;
  fa_store_mem a m := eq_refl;
  fa_store_base a m := eq_refl;
  fa_spare := spare;
  fa_spare_nonneg := buddy_spare_nonneg;
  fa_alloc_spare := buddy_alloc_spare;
  fa_store_spare := buddy_store_spare;
}.

(** After [init], on a page-aligned region of DRAM, nothing is in use. *)
Lemma boot_frames_ok m bs en b :
  init m bs en = Done b → bs mod PAGE_SIZE = 0 → DRAM_BASE <= bs <= en → en <= DRAM_END →
  buddy_ok (boot b) [].
Proof.
  unfold DRAM_END, DRAM_SIZE, DRAM_BASE. intros E Hal Hb He.
  destruct (boot_inv bs en (Sys (boot b) [])) as [fl Hrun]; [lia | lia | by econstructor |].
  destruct (init_spec m bs en) as (b' & fl' & E' & _ & Hbs & Hen & _); [lia | lia |].
  rewrite E in E'. injection E' as <-. split.
  - exists fl. apply Hrun.
  - constructor.
  - cbn. by rewrite Hbs.
  - cbn. unfold DRAM_END, DRAM_SIZE, DRAM_BASE. lia.
Qed.
