(* ===== verification/Sv39.v ===== *)
(** * Sv39 page tables

    kernel/src/mem/sv39.rs: page-table entries, the walk, mapping and unmapping
    in the kernel's and in a process's table, huge pages, protection, the
    write-xor-execute sweep, ranges ([PteManager]) and sharing of pages.

    Tables live in the physical memory of the frame allocator (Frames.v), as
    64-bit words.  The code reads and writes them through [pa_to_kva] (or, before
    the MMU is on, at their physical address); the kernel maps DRAM at
    [KERNEL_VBASE] and nothing else there, so an access outside DRAM is a
    fault, here [Panic].  [translate] is the translation of the Sv39
    architecture, against which the operations are specified.  TLB fences and
    console output are not modelled. *)
From S2P Require Import Prelude Buddy Frames Proc.

Module Sv39.

(** ** Page-table entries *)

(** [(e >> k) & 1 != 0]. *)
Definition bit (e k : Z) : bool := negb (Z.land (Z.shiftr e k) 1 =? 0).

Definition is_valid (e : Z) : bool := negb (Z.land e 1 =? 0).
Definition is_leaf (e : Z) : bool := is_valid e && negb (Z.land e 14 =? 0).
Definition is_branch (e : Z) : bool := is_valid e && (Z.land e 14 =? 0).

Definition ppn (e : Z) : Z := Z.land (Z.shiftr e 10) (2 ^ 44 - 1).
Definition phys_addr (e : Z) : Z := u64 (Z.shiftl (ppn e) 12).

Definition set_ppn (e p : Z) : Z :=
  Z.lor (Z.land e 0x3FF) (u64 (Z.shiftl (Z.land p (2 ^ 44 - 1)) 10)).

Definition flag_bits (r w x u : bool) : Z :=
  Z.lor (Z.lor (Z.lor (Z.lor 1 (if r then 2 else 0)) (if w then 4 else 0))
               (if x then 8 else 0)) (if u then 16 else 0).

Definition set_flags (e : Z) (r w x u : bool) : Z :=
  Z.lor (Z.ldiff e 0xFF) (flag_bits r w x u).

Definition is_accessed (e : Z) : bool := bit e 6.
Definition set_accessed (e : Z) (a : bool) : Z := if a then Z.lor e 64 else Z.ldiff e 64.
Definition is_dirty (e : Z) : bool := bit e 7.
Definition set_dirty (e : Z) (d : bool) : Z := if d then Z.lor e 128 else Z.ldiff e 128.
Definition is_cow (e : Z) : bool := bit e 8.
Definition set_cow (e : Z) (c : bool) : Z := if c then Z.lor e 256 else Z.ldiff e 256.
Definition is_shared (e : Z) : bool := bit e 9.
Definition set_shared (e : Z) (c : bool) : Z := if c then Z.lor e 512 else Z.ldiff e 512.

Definition is_readable (e : Z) : bool := bit e 1.
Definition is_writable (e : Z) : bool := bit e 2.
Definition is_executable (e : Z) : bool := bit e 3.
Definition is_user (e : Z) : bool := bit e 4.

(** The two entries the code builds from [PTE::empty()]. *)
Definition branch_pte (page : Z) : Z :=
  set_flags (set_ppn 0 (Z.shiftr page 12)) false false false false.

Definition leaf_pte (pa : Z) (r w x u : bool) : Z :=
  set_dirty (set_accessed (set_flags (set_ppn 0 (Z.shiftr pa 12)) r w x u) true) true.

(** ** Addresses *)

Definition vpn2 (va : Z) : Z := Z.land (Z.shiftr va 30) 0x1FF.
Definition vpn1 (va : Z) : Z := Z.land (Z.shiftr va 21) 0x1FF.
Definition vpn0 (va : Z) : Z := Z.land (Z.shiftr va 12) 0x1FF.
Definition offset (va : Z) : Z := Z.land va (PAGE_SIZE - 1).
Definition page_align_down (va : Z) : Z := Z.ldiff va (PAGE_SIZE - 1).
Definition page_align_up (va : Z) : Z := Z.ldiff (u64 (va + PAGE_SIZE - 1)) (PAGE_SIZE - 1).

Definition KERNEL_VBASE : Z := 0xFFFFFFC000000000.
Definition pa_to_kva (pa : Z) : Z := u64 (pa + KERNEL_VBASE - DRAM_BASE).
Definition kva_to_pa (kva : Z) : Z := u64 (kva - KERNEL_VBASE + DRAM_BASE).

Definition make_satp_mode (mode root : Z) : Z := Z.lor (u64 (Z.shiftl mode 60)) (Z.shiftr root 12).
Definition make_satp (root : Z) : Z := make_satp_mode 8 root.

(** ** State *)

Record ThpConfig : Type := MkThp {
  enable_2m : bool; enable_1g : bool; thp_2m_threshold : Z; thp_1g_threshold : Z }.

Definition THP_DEFAULT : ThpConfig := MkThp true false 512 262144.

Section sv39.
Context {A : Type} `{FA : FrameAllocator A}.

Record vm : Type := MkVm {
  frames : A;
  ROOT_PT : option Z;
  THP_CONFIG : ThpConfig;
  THP_PROMOTIONS : Z;
  THP_SPLITS : Z;
}.
#[export] Instance vm_eta : Eta vm := λ s,
  MkVm (frames s) (ROOT_PT s) (THP_CONFIG s) (THP_PROMOTIONS s) (THP_SPLITS s).

Definition mem (s : vm) : Z → Z := fa_mem (frames s).

(** Entry [i] of the table at [page]. *)
Definition in_dram (x : Z) : bool := (DRAM_BASE <=? x) && (x <? DRAM_END).

Definition pte_at (s : vm) (page i : Z) : outcome Z :=
  let x := page + 8 * i in if in_dram x then Done (mem s x) else Panic.

Definition set_pte (s : vm) (page i e : Z) : outcome vm :=
  let x := page + 8 * i in
  if in_dram x then Done (s <| frames := fa_store (frames s) (write_word (mem s) x e) |>)
  else Panic.

(** [write_bytes(p, 0, len)]. *)
Definition zero (s : vm) (p len : Z) : outcome vm :=
  if in_dram p && (p + len <=? DRAM_END) then
    Done (s <| frames := fa_store (frames s)
                (λ x, if (p <=? x) && (x <? p + len) then 0 else mem s x) |>)
  else Panic.

(** [dst.copy_from_slice(src)] on two table pages. *)
Definition copy_page (s : vm) (dst src : Z) : outcome vm :=
  if in_dram dst && in_dram src then
    Done (s <| frames := fa_store (frames s)
                (λ x, if (dst <=? x) && (x <? dst + PAGE_SIZE) then mem s (x - dst + src)
                      else mem s x) |>)
  else Panic.

Context (hart : Z).

Definition alloc_page (s : vm) : outcome (option Z * vm) :=
  r ← fa_alloc_page (frames s) hart; Done (r.1, s <| frames := r.2 |>).
Definition alloc_pages (s : vm) (order : Z) : outcome (option Z * vm) :=
  r ← fa_alloc_pages (frames s) order; Done (r.1, s <| frames := r.2 |>).
Definition free_page (s : vm) (pa order : Z) : outcome vm :=
  a ← fa_free_page (frames s) hart pa order; Done (s <| frames := a |>).

(** ** The walk *)

(** A new, empty table below entry [i] of [page]. *)
Definition add_table (s : vm) (page i : Z) : outcome (option Z * vm) :=
  '(o, s) ← alloc_page s;
  match o with
  | None => Done (None, s)
  | Some new_page =>
      s ← zero s new_page PAGE_SIZE;
      s ← set_pte s page i (branch_pte new_page);
      Done (Some new_page, s)
  end.

(** One level of the walk: the table below entry [i] of [page]. *)
Definition descend (s : vm) (page i : Z) (alloc : bool) : outcome (option Z * vm) :=
  e ← pte_at s page i;
  if negb (is_valid e) then if negb alloc then Done (None, s) else add_table s page i
  else if is_leaf e then Done (None, s)
  else Done (Some (phys_addr e), s).

Definition walk_process_pt (s : vm) (root va : Z) (alloc : bool)
    : outcome (option (Z * Z) * vm) :=
  '(o1, s) ← descend s root (vpn2 va) alloc;
  match o1 with
  | None => Done (None, s)
  | Some l1 =>
      '(o0, s) ← descend s l1 (vpn1 va) alloc;
      Done (option_map (λ l0, (l0, vpn0 va)) o0, s)
  end.

Definition init_root_pt (s : vm) : outcome vm :=
  '(o, s) ← alloc_page s;
  l2_page ← unwrap o;
  s ← zero s l2_page PAGE_SIZE;
  Done (s <| ROOT_PT := Some l2_page |>).

(** ** The kernel's table *)

Definition walk (s : vm) (va : Z) (alloc : bool) : outcome (option (Z * Z) * vm) :=
  root ← unwrap (ROOT_PT s); walk_process_pt s root va alloc.

Definition map (s : vm) (va pa : Z) (r w x u : bool) : outcome vm :=
  '(o, s) ← walk s va true;
  '(l0, idx) ← unwrap o;
  set_pte s l0 idx (leaf_pte pa r w x u).

(** The leaf entry of a 4K page, cleared. *)
Definition clear_leaf (s : vm) (o : option (Z * Z)) : outcome (option Z * vm) :=
  match o with
  | None => Done (None, s)
  | Some (l0, idx) =>
      e ← pte_at s l0 idx;
      if is_valid e && is_leaf e then
        s ← set_pte s l0 idx 0; Done (Some (phys_addr e), s)
      else Done (None, s)
  end.

Definition unmap (s : vm) (va : Z) : outcome (option Z * vm) :=
  '(o, s) ← walk s va false; clear_leaf s o.

Definition virt_to_phys (s : vm) (va : Z) : outcome (option Z * vm) :=
  '(o, s) ← walk s va false;
  match o with
  | None => Done (None, s)
  | Some (l0, idx) =>
      e ← pte_at s l0 idx;
      Done (if is_valid e && is_leaf e then Some (Z.lor (phys_addr e) (offset va)) else None, s)
  end.

(** ** Process tables *)

(** One when the page is there and marked user. *)
Definition is_user_page_present (s : vm) (root va : Z) : outcome Z :=
  if 256 <=? vpn2 va then Done 0 else
  e2 ← pte_at s root (vpn2 va);
  if negb (is_valid e2) || is_leaf e2 then Done 0 else
  e1 ← pte_at s (phys_addr e2) (vpn1 va);
  if negb (is_valid e1) then Done 0 else
  if is_leaf e1 then Done (if is_user e1 then 1 else 0) else
  e0 ← pte_at s (phys_addr e1) (vpn0 va);
  if negb (is_valid e0) || negb (is_leaf e0) then Done 0
  else Done (if is_user e0 then 1 else 0).

(** One root entry of the kernel's table for the target: tables are copied,
    leaves and empty entries taken over. *)
Definition copy_kernel_entry (kernel_root target : Z) (s : vm) (i : Z) : outcome vm :=
  e ← pte_at s kernel_root i;
  if is_branch e then
    '(o, s) ← alloc_page s;
    new_l1 ← unwrap o;
    s ← copy_page s new_l1 (phys_addr e);
    set_pte s target i (branch_pte new_l1)
  else set_pte s target i e.

Definition copy_kernel_mappings (s : vm) (target : Z) : outcome vm :=
  kernel_root ← unwrap (ROOT_PT s);
  for_each (copy_kernel_entry kernel_root target) s (zseq 0 512).

Definition map_page (s : vm) (root va pa : Z) (r w x u : bool) : outcome (result string () * vm) :=
  '(o, s) ← walk_process_pt s root va true;
  match o with
  | None => Done (Err "map_page: walk failed"%string, s)
  | Some (l0, idx) => s ← set_pte s l0 idx (leaf_pte pa r w x u); Done (Ok (), s)
  end.

Definition map_user_page (s : vm) (root va pa : Z) (r w : bool) : outcome (result string () * vm) :=
  '(o, s) ← walk_process_pt s root va true;
  match o with
  | None => Done (Err "map_user_page: walk failed"%string, s)
  | Some (l0, idx) => s ← set_pte s l0 idx (leaf_pte pa r w false true); Done (Ok (), s)
  end.

Definition unmap_user_page (s : vm) (root va : Z) : outcome vm :=
  '(o, s) ← walk_process_pt s root va false;
  match o with
  | None => Done s
  | Some (l0, idx) => set_pte s l0 idx 0
  end.

Definition unmap_user_page_phys (s : vm) (root va : Z) : outcome (option Z * vm) :=
  '(o, s) ← walk_process_pt s root va false; clear_leaf s o.

(** ** Checks and sweeps over the user half *)

Definition count_l0 (s : vm) (l0 : Z) (n i : Z) : outcome Z :=
  e ← pte_at s l0 i; Done (if is_valid e && is_user e then n + 1 else n).

Definition count_l1 (s : vm) (l1 : Z) (n i : Z) : outcome Z :=
  e ← pte_at s l1 i;
  if negb (is_valid e) then Done n else
  if is_leaf e then Done (if is_user e then n + 1 else n) else
  for_each (count_l0 s (phys_addr e)) n (zseq 0 512).

Definition count_l2 (s : vm) (root : Z) (n i : Z) : outcome Z :=
  e ← pte_at s root i;
  if negb (is_valid e) || is_leaf e then Done n else
  for_each (count_l1 s (phys_addr e)) n (zseq 0 512).

Definition count_user_pages (s : vm) (root : Z) : outcome Z :=
  for_each (count_l2 s root) 0 (zseq 0 256).

Definition is_user_addr_valid (s : vm) (root va : Z) : outcome bool :=
  '(o, s) ← walk_process_pt s root va false;
  match o with
  | None => Done false
  | Some (l0, idx) => e ← pte_at s l0 idx; Done (is_valid e && is_user e)
  end.

(** [while page <= end_page]; [saturating_add] cannot bring [page] back. *)
Fixpoint range_valid_loop (fuel : nat) (s : vm) (root page end_page : Z) : outcome bool :=
  if end_page <? page then Done true else
  match fuel with
  | O => OutOfFuel
  | S fuel' =>
      ok ← is_user_addr_valid s root page;
      if negb ok then Done false
      else range_valid_loop fuel' s root (Z.min (page + PAGE_SIZE) (2 ^ 64 - 1)) end_page
  end.

Definition is_user_range_valid (s : vm) (root va len : Z) : outcome bool :=
  if len =? 0 then Done true else
  let start_page := page_align_down va in
  let end_ := Z.min (va + len) (2 ^ 64 - 1) in
  let end_page := page_align_down (Z.max (end_ - 1) 0) in
  range_valid_loop (Z.to_nat ((end_page - start_page) / PAGE_SIZE + 1)) s root start_page end_page.

(** The new entry when the page is user, writable and executable. *)
Definition fix_wx (e : Z) : option Z :=
  if is_user e && is_writable e && is_executable e
  then Some (set_flags e (is_readable e) (is_writable e) false (is_user e)) else None.

(** Store the fixed entry and count it. *)
Definition fix_entry (s : vm) (page i e fixed : Z) : outcome (vm * Z) :=
  match fix_wx e with
  | Some e' => s ← set_pte s page i e'; Done (s, fixed + 1)
  | None => Done (s, fixed)
  end.

Definition wx_l0 (l0 : Z) (sf : vm * Z) (i : Z) : outcome (vm * Z) :=
  let '(s, fixed) := sf in
  e ← pte_at s l0 i;
  if negb (is_valid e) then Done (s, fixed) else fix_entry s l0 i e fixed.

Definition wx_l1 (l1 : Z) (sf : vm * Z) (i : Z) : outcome (vm * Z) :=
  let '(s, fixed) := sf in
  e ← pte_at s l1 i;
  if negb (is_valid e) then Done (s, fixed) else
  if is_leaf e then fix_entry s l1 i e fixed else
  for_each (wx_l0 (phys_addr e)) (s, fixed) (zseq 0 512).

Definition wx_l2 (root : Z) (sf : vm * Z) (i : Z) : outcome (vm * Z) :=
  let '(s, fixed) := sf in
  e ← pte_at s root i;
  if negb (is_valid e) || is_leaf e then Done (s, fixed) else
  for_each (wx_l1 (phys_addr e)) (s, fixed) (zseq 0 512).

Definition force_wxorx (s : vm) (root : Z) : outcome (vm * Z) :=
  for_each (wx_l2 root) (s, 0) (zseq 0 256).

(** ** The kernel mapping *)

(** Entry [i] of the shared first-level table: two megabytes of DRAM. *)
Definition dram_entry (l1 : Z) (s : vm) (i : Z) : outcome vm :=
  let pa := DRAM_BASE + i * 0x200000 in
  e ← pte_at s l1 i;
  set_pte s l1 i
    (set_dirty (set_accessed (set_flags (set_ppn e (Z.shiftr pa 12)) true true true false) true) true).

Definition setup_kernel_mapping (s : vm) : outcome vm :=
  root ← unwrap (ROOT_PT s);
  '(o, s) ← alloc_page s;
  l1 ← unwrap o;
  s ← zero s l1 PAGE_SIZE;
  s ← set_pte s root (vpn2 KERNEL_VBASE) (branch_pte l1);
  s ← set_pte s root (vpn2 DRAM_BASE) (branch_pte l1);
  s ← for_each (dram_entry l1) s (zseq 0 64);
  '(o, s) ← alloc_page s;
  l1_mmio ← unwrap o;
  s ← zero s l1_mmio PAGE_SIZE;
  s ← set_pte s root (vpn2 0x02000000) (branch_pte l1_mmio);
  s ← set_pte s l1_mmio (vpn1 0x02000000) (leaf_pte 0x02000000 true true false false);
  s ← set_pte s l1_mmio (vpn1 0x10000000) (leaf_pte 0x10000000 true true false false);
  set_pte s l1_mmio (vpn1 0x30000000) (leaf_pte 0x30000000 true true false false).

(** ** Huge pages *)

Definition flag_r (flags : Z) : bool := negb (Z.land flags 1 =? 0).
Definition flag_w (flags : Z) : bool := negb (Z.land flags 2 =? 0).
Definition flag_x (flags : Z) : bool := negb (Z.land flags 4 =? 0).
Definition flag_u (flags : Z) : bool := negb (Z.land flags 8 =? 0).

(** The first-level table for [try_map_2m]; on failure the block goes back. *)
Definition ensure_l1 (s : vm) (root va pa : Z) : outcome (bool * vm) :=
  e2 ← pte_at s root (vpn2 va);
  if negb (is_valid e2) then
    '(o, s) ← add_table s root (vpn2 va);
    match o with
    | Some _ => Done (true, s)
    | None => s ← free_page s pa 9; Done (false, s)
    end
  else if is_leaf e2 then s ← free_page s pa 9; Done (false, s)
  else Done (true, s).

Definition try_map_2m (s : vm) (root va count_4k flags : Z) : outcome (bool * vm) :=
  if count_4k <? 512 then Done (false, s) else
  if negb (Z.land va (0x200000 - 1) =? 0) then Done (false, s) else
  '(o, s) ← alloc_pages s 9;
  match o with
  | None => Done (false, s)
  | Some pa =>
      s ← zero s pa 0x200000;
      '(ok, s) ← ensure_l1 s root va pa;
      if negb ok then Done (false, s) else
      e2 ← pte_at s root (vpn2 va);
      let l1 := phys_addr e2 in
      e1 ← pte_at s l1 (vpn1 va);
      if is_valid e1 then s ← free_page s pa 9; Done (false, s) else
      s ← set_pte s l1 (vpn1 va)
            (leaf_pte pa (flag_r flags) (flag_w flags) (flag_x flags) (flag_u flags));
      Done (true, s <| THP_PROMOTIONS := u64 (THP_PROMOTIONS s + 1) |>)
  end.

(** Entry [i] of the table that replaces the huge page with entry [e1]. *)
Definition split_pte (e1 i : Z) : Z :=
  let e := leaf_pte (phys_addr e1 + i * PAGE_SIZE)
             (is_readable e1) (is_writable e1) (is_executable e1) (is_user e1) in
  let e := if is_cow e1 then set_cow e true else e in
  if is_shared e1 then set_shared e true else e.

Definition split_large_page (s : vm) (root va : Z) : outcome (result string () * vm) :=
  e2 ← pte_at s root (vpn2 va);
  if negb (is_valid e2) then Done (Err "split: L2 not valid"%string, s) else
  if is_leaf e2 then Done (Err "split: L2 leaf (1GB) not supported"%string, s) else
  let l1 := phys_addr e2 in
  e1 ← pte_at s l1 (vpn1 va);
  if negb (is_leaf e1) then Done (Err "split: not a 2MB superpage"%string, s) else
  '(o, s) ← alloc_page s;
  match o with
  | None => Done (Err "split: OOM allocating L0 page"%string, s)
  | Some l0_page =>
      s ← for_each (λ s i, set_pte s l0_page i (split_pte e1 i)) s (zseq 0 512);
      s ← set_pte s l1 (vpn1 va) (branch_pte l0_page);
      Done (Ok (), s <| THP_SPLITS := u64 (THP_SPLITS s + 1) |>)
  end.

(** The loop of [try_promote]: present, contiguous, with the same rights. *)
Definition promotable (first : Z) (s : vm) (l0 : Z) (ok : bool) (i : Z) : outcome bool :=
  if negb ok then Done false else
  e ← pte_at s l0 i;
  Done (is_valid e && is_leaf e && (phys_addr e =? phys_addr first + i * PAGE_SIZE) &&
        Bool.eqb (is_readable e) (is_readable first) &&
        Bool.eqb (is_writable e) (is_writable first) &&
        Bool.eqb (is_executable e) (is_executable first) &&
        Bool.eqb (is_user e) (is_user first)).

Definition try_promote (s : vm) (root va : Z) : outcome (bool * vm) :=
  if negb (Z.land va (0x200000 - 1) =? 0) then Done (false, s) else
  e2 ← pte_at s root (vpn2 va);
  if negb (is_valid e2) || is_leaf e2 then Done (false, s) else
  let l1 := phys_addr e2 in
  e1 ← pte_at s l1 (vpn1 va);
  if is_leaf e1 then Done (false, s) else
  let l0 := phys_addr e1 in
  first ← pte_at s l0 0;
  if negb (is_valid first) || negb (is_leaf first) then Done (false, s) else
  if negb (Z.land (phys_addr first) (0x200000 - 1) =? 0) then Done (false, s) else
  ok ← for_each (promotable first s l0) true (zseq 0 512);
  if negb ok then Done (false, s) else
  s ← set_pte s l1 (vpn1 va)
        (leaf_pte (phys_addr first) (is_readable first) (is_writable first)
           (is_executable first) (is_user first));
  s ← free_page s l0 0;
  Done (true, s <| THP_PROMOTIONS := u64 (THP_PROMOTIONS s + 1) |>).

(** ** Ranges ([PteManager]) *)

(** One 4K page of [map_range]. *)
Definition map_range_page (s : vm) (root page_va flags : Z) : outcome (result string () * vm) :=
  '(o, s) ← alloc_page s;
  match o with
  | None => Done (Err "PteManager map_range: OOM"%string, s)
  | Some pa =>
      s ← zero s pa PAGE_SIZE;
      map_page s root page_va pa (flag_r flags) (flag_w flags) (flag_x flags) (flag_u flags)
  end.

(** [while page_va < end]; every pass advances by a page at least. *)
Fixpoint map_range_loop (fuel : nat) (s : vm) (root page_va end_ flags : Z) (use_2m : bool)
    : outcome (result string () * vm) :=
  if negb (page_va <? end_) then Done (Ok (), s) else
  match fuel with
  | O => OutOfFuel
  | S fuel' =>
      '(huge, s) ← (if use_2m && (Z.land page_va (0x200000 - 1) =? 0) &&
                        (0x200000 <=? end_ - page_va)
                     then try_map_2m s root page_va 512 flags else Done (false, s));
      if huge : bool then
        map_range_loop fuel' s root (u64 (page_va + 0x200000)) end_ flags use_2m
      else
        '(r, s) ← map_range_page s root page_va flags;
        match r with
        | Err e => Done (Err e, s)
        | Ok _ => map_range_loop fuel' s root (u64 (page_va + PAGE_SIZE)) end_ flags use_2m
        end
  end.

Definition pages_between (start end_ : Z) : Z := u64 (end_ - start) / PAGE_SIZE.

Definition map_range (s : vm) (root va len flags : Z) : outcome (result string () * vm) :=
  let start := page_align_down va in
  let end_ := page_align_up (u64 (va + len)) in
  let total_pages := pages_between start end_ in
  let use_2m := enable_2m (THP_CONFIG s) && (thp_2m_threshold (THP_CONFIG s) <=? total_pages) in
  map_range_loop (Z.to_nat total_pages) s root start end_ flags use_2m.

Fixpoint unmap_range_loop (fuel : nat) (s : vm) (root page_va end_ : Z) : outcome vm :=
  if negb (page_va <? end_) then Done s else
  match fuel with
  | O => OutOfFuel
  | S fuel' =>
      '(o, s) ← unmap_user_page_phys s root page_va;
      s ← match o with Some pa => free_page s pa 0 | None => Done s end;
      unmap_range_loop fuel' s root (u64 (page_va + PAGE_SIZE)) end_
  end.

Definition unmap_range (s : vm) (root va len : Z) : outcome (result string () * vm) :=
  let start := page_align_down va in
  let end_ := page_align_up (u64 (va + len)) in
  s ← unmap_range_loop (Z.to_nat (pages_between start end_)) s root start end_;
  Done (Ok (), s).

Definition protect_page (s : vm) (root page_va flags : Z) : outcome vm :=
  '(o, s) ← walk_process_pt s root page_va false;
  match o with
  | None => Done s
  | Some (l0, idx) =>
      e ← pte_at s l0 idx;
      if is_valid e
      then set_pte s l0 idx
             (set_flags e (flag_r flags) (flag_w flags) (flag_x flags) (flag_u flags))
      else Done s
  end.

Fixpoint protect_range_loop (fuel : nat) (s : vm) (root page_va end_ flags : Z) : outcome vm :=
  if negb (page_va <? end_) then Done s else
  match fuel with
  | O => OutOfFuel
  | S fuel' =>
      s ← protect_page s root page_va flags;
      protect_range_loop fuel' s root (u64 (page_va + PAGE_SIZE)) end_ flags
  end.

Definition protect_range (s : vm) (root va len flags : Z) : outcome (result string () * vm) :=
  let start := page_align_down va in
  let end_ := page_align_up (u64 (va + len)) in
  s ← protect_range_loop (Z.to_nat (pages_between start end_)) s root start end_ flags;
  Done (Ok (), s).

Definition is_mapped (s : vm) (root va : Z) : outcome bool :=
  '(o, s) ← walk_process_pt s root va false;
  match o with
  | None => Done false
  | Some (l0, idx) => e ← pte_at s l0 idx; Done (is_valid e && is_leaf e)
  end.

Definition VA_LIMIT : Z := 0x3FFFFFF000.

(** The inner loop: how many free pages from [page_va] on, and where it stops. *)
Fixpoint count_free_loop (fuel : nat) (s : vm) (root needed free_count page_va : Z)
    : outcome (Z * Z) :=
  if (free_count <? needed) && (page_va <? VA_LIMIT) then
    match fuel with
    | O => OutOfFuel
    | S fuel' =>
        m ← is_mapped s root page_va;
        if m : bool then Done (free_count, page_va)
        else count_free_loop fuel' s root needed (free_count + 1) (page_va + PAGE_SIZE)
    end
  else Done (free_count, page_va).

Definition va_fuel (candidate : Z) : nat := Z.to_nat ((VA_LIMIT - candidate) / PAGE_SIZE + 1).

Fixpoint find_free_loop (fuel : nat) (s : vm) (root needed candidate : Z) : outcome (option Z) :=
  if candidate <? VA_LIMIT then
    match fuel with
    | O => OutOfFuel
    | S fuel' =>
        '(free_count, page_va) ← count_free_loop (Z.to_nat needed) s root needed 0 candidate;
        if needed <=? free_count then Done (Some candidate)
        else find_free_loop fuel' s root needed (page_align_up (page_va + 1))
    end
  else Done None.

Definition find_free_va (s : vm) (root size : Z) : outcome (option Z) :=
  let pages_needed := u64 (size + PAGE_SIZE - 1) / PAGE_SIZE in
  if pages_needed =? 0 then Done None
  else find_free_loop (va_fuel 0x10000) s root pages_needed 0x10000.

(** ** Sharing pages *)

(** The frame behind a mapped 4K page, with the errors of the two callers. *)
Definition source_frame (s : vm) (root va : Z) (unmapped not_leaf : string)
    : outcome (result string Z * vm) :=
  '(o, s) ← walk_process_pt s root va false;
  match o with
  | None => Done (Err unmapped, s)
  | Some (l0, idx) =>
      e ← pte_at s l0 idx;
      Done (if negb (is_valid e) || negb (is_leaf e) then Err not_leaf else Ok (phys_addr e), s)
  end.

Definition process_roots (procs : list Process) (src dst : Z) : result string (Z * Z) :=
  match find_pid procs src with
  | None => Err "src process not found"%string
  | Some p =>
      match find_pid procs dst with
      | None => Err "dst process not found"%string
      | Some q => Ok (page_table_root p, page_table_root q)
      end
  end.

Definition share_page (procs : list Process) (s : vm) (src_pid dst_pid src_va dst_va : Z)
    : outcome (result string () * vm) :=
  match process_roots procs src_pid dst_pid with
  | Err e => Done (Err e, s)
  | Ok (src_root, dst_root) =>
      '(r, s) ← source_frame s src_root src_va "src_va not mapped" "src_va not a valid mapped page";
      match r with
      | Err e => Done (Err e, s)
      | Ok phys => map_user_page s dst_root dst_va phys true true
      end
  end.

Fixpoint splice_loop (fuel : nat) (s : vm) (src_root dst_root src_va dst_va off end_ : Z)
    : outcome (result string () * vm) :=
  if negb (off <? end_) then Done (Ok (), s) else
  match fuel with
  | O => OutOfFuel
  | S fuel' =>
      '(r, s) ← source_frame s src_root (page_align_down (u64 (src_va + off)))
                   "src page not mapped" "src page not a valid leaf";
      match r with
      | Err e => Done (Err e, s)
      | Ok phys =>
          '(r, s) ← map_user_page s dst_root (page_align_down (u64 (dst_va + off))) phys true true;
          match r with
          | Err e => Done (Err e, s)
          | Ok _ => splice_loop fuel' s src_root dst_root src_va dst_va (u64 (off + PAGE_SIZE)) end_
          end
      end
  end.

Definition splice_pages (procs : list Process) (s : vm)
    (src_pid dst_pid src_va off dst_va len : Z) : outcome (result string () * vm) :=
  match process_roots procs src_pid dst_pid with
  | Err e => Done (Err e, s)
  | Ok (src_root, dst_root) =>
      splice_loop (Z.to_nat (u64 (off + len - off) / PAGE_SIZE + 1)) s src_root dst_root
        src_va dst_va off (u64 (off + len))
  end.

(** ** The architecture's translation *)

(** The leaf entry the walk of the hardware ends at, with its level. *)
Definition hw_leaf (m : Z → Z) (root va : Z) : option (Z * Z) :=
  let e2 := m (root + 8 * vpn2 va) in
  if negb (is_valid e2) then None else if is_leaf e2 then Some (2, e2) else
  let e1 := m (phys_addr e2 + 8 * vpn1 va) in
  if negb (is_valid e1) then None else if is_leaf e1 then Some (1, e1) else
  let e0 := m (phys_addr e1 + 8 * vpn0 va) in
  if is_leaf e0 then Some (0, e0) else None.

(** Bits 63 to 39 of an address repeat bit 38. *)
Definition canonical (va : Z) : bool :=
  ((0 <=? va) && (va <? 2 ^ 38)) || ((2 ^ 64 - 2 ^ 38 <=? va) && (va <? 2 ^ 64)).

(** The physical address and the entry that grants the access; a fault on a
    huge page that is not aligned to its size, and on a page that is writable
    but not readable. *)
Definition translate (m : Z → Z) (root va : Z) : option (Z * Z) :=
  if negb (canonical va) then None else
  match hw_leaf m root va with
  | None => None
  | Some (k, e) =>
      let size := 2 ^ (12 + 9 * k) in
      if (phys_addr e mod size =? 0) && negb (is_writable e && negb (is_readable e))
      then Some (phys_addr e + va mod size, e) else None
  end.
End sv39.

(** ** Entries as numbers *)

Lemma bit_testbit e k : 0 <= k → bit e k = Z.testbit e k.
Proof.
  intros Hk. unfold bit. change 1 with (Z.ones 1). rewrite Z.land_ones by lia.
  rewrite Z.testbit_odd, Zmod_odd. by destruct (Z.odd _).
Qed.

Lemma is_valid_bit e : is_valid e = Z.testbit e 0.
Proof. rewrite <-bit_testbit by lia. unfold bit, is_valid. by rewrite Z.shiftr_0_r. Qed.

(** Only the low bits of an entry say whether it is a leaf. *)
Lemma land_mod16 e k : 0 <= k < 16 → Z.land e k = Z.land (e mod 16) k.
Proof.
  intros Hk. change 16 with (2 ^ 4). rewrite <-Z.land_ones, <-Z.land_assoc by lia.
  f_equal. rewrite Z.land_comm, Z.land_ones by lia. symmetry. by apply Z.mod_small.
Qed.

Lemma testbit_mod16 e k : 0 <= k < 4 → Z.testbit (e mod 16) k = Z.testbit e k.
Proof. intros Hk. change 16 with (2 ^ 4). by rewrite Z.mod_pow2_bits_low by lia. Qed.

Ltac low_bits e :=
  let f := fresh "f" in let Hf := fresh "Hf" in
  pose proof (Z.mod_pos_bound e 16 ltac:(lia)) as Hf; set (f := e mod 16) in *;
  assert (f = 0 ∨ f = 1 ∨ f = 2 ∨ f = 3 ∨ f = 4 ∨ f = 5 ∨ f = 6 ∨ f = 7 ∨
          f = 8 ∨ f = 9 ∨ f = 10 ∨ f = 11 ∨ f = 12 ∨ f = 13 ∨ f = 14 ∨ f = 15) by lia;
  clearbody f; destruct_or!; subst f; try reflexivity.

Lemma is_leaf_bits e :
  is_leaf e = Z.testbit e 0 && (Z.testbit e 1 || Z.testbit e 2 || Z.testbit e 3).
Proof.
  unfold is_leaf, is_valid. rewrite !(land_mod16 e) by lia.
  rewrite <-!(testbit_mod16 e) by lia. low_bits e.
Qed.

Lemma is_branch_bits e :
  is_branch e = Z.testbit e 0 && negb (Z.testbit e 1 || Z.testbit e 2 || Z.testbit e 3).
Proof.
  unfold is_branch, is_valid. rewrite !(land_mod16 e) by lia.
  rewrite <-!(testbit_mod16 e) by lia. low_bits e.
Qed.

Lemma branch_or_leaf e : is_branch e = is_valid e && negb (is_leaf e).
Proof. unfold is_branch, is_leaf. destruct (is_valid e), (_ =? 0); done. Qed.

Lemma phys_addr_eq e : phys_addr e = (e / 1024) mod 2 ^ 44 * 4096.
Proof.
  unfold phys_addr, ppn. change (2 ^ 44 - 1) with (Z.ones 44).
  rewrite Z.land_ones, Z.shiftr_div_pow2, Z.shiftl_mul_pow2 by lia.
  change (2 ^ 10) with 1024. change (2 ^ 12) with 4096.
  apply wrap_small. unfold fits. pose proof (Z.mod_pos_bound (e / 1024) (2 ^ 44) ltac:(lia)). lia.
Qed.

Lemma flag_bits_bound r w x u : 0 <= flag_bits r w x u < 32.
Proof. destruct r, w, x, u; vm_compute; split; done || discriminate. Qed.

Lemma set_ppn_0 q : 0 <= q < 2 ^ 44 → set_ppn 0 q = q * 1024.
Proof.
  intros Hq. unfold set_ppn. rewrite Z.land_0_l, Z.lor_0_l.
  change (2 ^ 44 - 1) with (Z.ones 44). rewrite Z.land_ones, Z.shiftl_mul_pow2 by lia.
  rewrite (Z.mod_small q) by lia. apply wrap_small. unfold fits. lia.
Qed.

Lemma ldiff_low e k : 0 <= k → Z.ldiff e (2 ^ k - 1) = e / 2 ^ k * 2 ^ k.
Proof.
  intros Hk. replace (2 ^ k - 1) with (Z.ones k) by (rewrite Z.ones_equiv; lia).
  by rewrite Z.ldiff_ones_r, Z.shiftr_div_pow2, Z.shiftl_mul_pow2 by lia.
Qed.

Lemma set_flags_eq e r w x u :
  set_flags e r w x u = e / 256 * 256 + flag_bits r w x u.
Proof.
  unfold set_flags. change 0xFF with (2 ^ 8 - 1). rewrite (ldiff_low e 8) by lia.
  change (2 ^ 8) with 256.
  pose proof (flag_bits_bound r w x u).
  apply (lor_low _ _ 8); [lia | | lia]. by rewrite Z.mod_mul.
Qed.

(** An entry with frame number [q] and low ten bits [f]. *)
Definition made (q f : Z) : Z := q * 1024 + f.

Lemma made_bit q f k : 0 <= f < 1024 → 0 <= k < 10 → Z.testbit (made q f) k = Z.testbit f k.
Proof.
  intros Hf Hk. unfold made. rewrite <-(Z.mod_pow2_bits_low (q * 1024 + f) 10 k) by lia.
  change (2 ^ 10) with 1024. by rewrite Z.add_comm, Z_mod_plus_full, Z.mod_small.
Qed.

Lemma made_phys q f : 0 <= q < 2 ^ 44 → 0 <= f < 1024 → phys_addr (made q f) = q * 4096.
Proof.
  intros Hq Hf. rewrite phys_addr_eq. unfold made.
  rewrite Z.div_add_l, (Z.div_small f), Z.add_0_r, Z.mod_small by lia. done.
Qed.

Lemma made_leaf q f : 0 <= f < 1024 → is_leaf (made q f) = is_leaf f.
Proof. intros Hf. rewrite !is_leaf_bits, !made_bit by (done || lia). done. Qed.

Lemma made_branch q f : 0 <= f < 1024 → is_branch (made q f) = is_branch f.
Proof. intros Hf. rewrite !is_branch_bits, !made_bit by (done || lia). done. Qed.

(** Addresses of frames: page-aligned, below 2^56. *)
Definition frame_addr (p : Z) : Prop := p mod 4096 = 0 ∧ 0 <= p < 2 ^ 56.

Lemma frame_number p : frame_addr p → 0 <= p / 4096 < 2 ^ 44 ∧ p / 4096 * 4096 = p.
Proof. unfold frame_addr. intros [? ?]. split; dlia. Qed.

Lemma branch_pte_made p : frame_addr p → branch_pte p = made (p / 4096) 1.
Proof.
  intros [Hq _]%frame_number. unfold branch_pte, made.
  rewrite Z.shiftr_div_pow2 by lia. change (2 ^ 12) with 4096.
  rewrite set_ppn_0, set_flags_eq by lia. change (flag_bits _ _ _ _) with 1. f_equal.
  replace (p / 4096 * 1024) with (p / 4096 * 4 * 256) by lia. by rewrite Z.div_mul.
Qed.

Lemma leaf_pte_made p r w x u :
  frame_addr p → leaf_pte p r w x u = made (p / 4096) (flag_bits r w x u + 192).
Proof.
  intros [Hq _]%frame_number. unfold leaf_pte, made, set_dirty, set_accessed.
  rewrite Z.shiftr_div_pow2 by lia. change (2 ^ 12) with 4096.
  rewrite set_ppn_0, set_flags_eq by lia.
  replace (p / 4096 * 1024) with (p / 4096 * 4 * 256) by lia. rewrite Z.div_mul by lia.
  pose proof (flag_bits_bound r w x u). set (f := flag_bits r w x u) in *.
  rewrite <-Z.lor_assoc. change (Z.lor 64 128) with 192.
  rewrite <-(lor_low _ f 8), <-Z.lor_assoc; [| lia | by rewrite Z.mod_mul | lia].
  rewrite (Z.lor_comm f), (lor_low 192 f 6); [| lia | done | lia].
  rewrite (lor_low _ _ 8); [lia | lia | by rewrite Z.mod_mul | lia].
Qed.

Lemma branch_pte_spec p :
  frame_addr p → is_branch (branch_pte p) = true ∧ phys_addr (branch_pte p) = p.
Proof.
  intros Hp. rewrite branch_pte_made by done. apply frame_number in Hp as [Hq Hp].
  by rewrite made_branch, made_phys by lia.
Qed.

(** What a leaf entry of the code says. *)
Record leaf_says (e p : Z) (r w x u : bool) : Prop := {
  ls_leaf : is_leaf e = r || w || x;
  ls_branch : is_branch e = negb (r || w || x);
  ls_phys : phys_addr e = p;
  ls_r : is_readable e = r;
  ls_w : is_writable e = w;
  ls_x : is_executable e = x;
  ls_u : is_user e = u;
}.

Lemma leaf_pte_spec p r w x u : frame_addr p → leaf_says (leaf_pte p r w x u) p r w x u.
Proof.
  intros Hp. rewrite leaf_pte_made by done. apply frame_number in Hp as [Hq Hp].
  pose proof (flag_bits_bound r w x u).
  split; unfold is_readable, is_writable, is_executable, is_user; rewrite ?bit_testbit by lia;
    rewrite ?made_leaf, ?made_branch, ?made_phys, ?made_bit by lia;
    try done; destruct r, w, x, u; done.
Qed.

Lemma valid_0 : is_valid 0 = false.
Proof. done. Qed.

(** ** Indices *)

Lemma land_511 x : Z.land x 0x1FF = x mod 512.
Proof. change 0x1FF with (Z.ones 9). by rewrite Z.land_ones by lia. Qed.

Lemma vpn2_eq va : vpn2 va = va / 2 ^ 30 mod 512.
Proof. unfold vpn2. by rewrite land_511, Z.shiftr_div_pow2 by lia. Qed.
Lemma vpn1_eq va : vpn1 va = va / 2 ^ 21 mod 512.
Proof. unfold vpn1. by rewrite land_511, Z.shiftr_div_pow2 by lia. Qed.
Lemma vpn0_eq va : vpn0 va = va / 2 ^ 12 mod 512.
Proof. unfold vpn0. by rewrite land_511, Z.shiftr_div_pow2 by lia. Qed.

Lemma vpn_bounds va : 0 <= vpn2 va < 512 ∧ 0 <= vpn1 va < 512 ∧ 0 <= vpn0 va < 512.
Proof. rewrite vpn2_eq, vpn1_eq, vpn0_eq. split_and!; apply Z.mod_pos_bound; lia. Qed.

(** Two canonical addresses with the same indices lie in the same page. *)
Lemma same_page va va' :
  canonical va = true → canonical va' = true →
  vpn2 va = vpn2 va' → vpn1 va = vpn1 va' → vpn0 va = vpn0 va' → va / 4096 = va' / 4096.
Proof.
  unfold canonical. rewrite !vpn2_eq, !vpn1_eq, !vpn0_eq. intros H H' E2 E1 E0.
  apply orb_true_iff in H, H'. rewrite !andb_true_iff, !Z.leb_le, !Z.ltb_lt in H, H'. dlia.
Qed.

(** ** Tables as trees *)

Definition child (m : Z → Z) (p i : Z) : option Z :=
  let e := m (p + 8 * i) in if is_branch e then Some (phys_addr e) else None.

(** The table that the indices [π] lead to from the root. *)
Fixpoint table (m : Z → Z) (p : Z) (π : list Z) : option Z :=
  match π with [] => Some p | i :: π' => q ← child m p i; table m q π' end.

Definition indices (π : list Z) : Prop := Forall (λ i, 0 <= i < 512) π.
Definition path (π : list Z) : Prop := (length π <= 2)%nat ∧ indices π.

Definition vpath (va : Z) : list Z := [vpn2 va; vpn1 va; vpn0 va].

Lemma vpath_indices va : indices (vpath va).
Proof. destruct (vpn_bounds va) as (? & ? & ?). unfold indices, vpath. by rewrite !Forall_cons. Qed.

Lemma table_app m r π ρ : table m r (π ++ ρ) = (p ← table m r π; table m p ρ).
Proof.
  revert r. induction π as [| i π IH]; intros r; [done |]. cbn.
  destruct (child m r i); [apply IH | done].
Qed.

Lemma table_snoc m r π i : table m r (π ++ [i]) = (p ← table m r π; child m p i).
Proof. rewrite table_app. destruct (table m r π); [| done]. cbn. by destruct (child m z i). Qed.

(** The entries on the way along [π] are the same. *)
Definition same_entries (m m' : Z → Z) (r : Z) (π : list Z) : Prop :=
  ∀ ρ j σ q, π = ρ ++ j :: σ → table m r ρ = Some q → m' (q + 8 * j) = m (q + 8 * j).

Lemma same_entries_step m m' r i q π :
  same_entries m m' r (i :: π) → child m r i = Some q → same_entries m m' q π.
Proof. intros H Hc ρ j σ p -> Hp. apply (H (i :: ρ) j σ); [done |]. cbn. by rewrite Hc. Qed.

Lemma table_same m m' r π : same_entries m m' r π → table m' r π = table m r π.
Proof.
  revert r. induction π as [| i π IH]; intros r Hs; [done |]. cbn.
  assert (child m' r i = child m r i) as E.
  { unfold child. by rewrite (Hs [] i π r eq_refl eq_refl). }
  rewrite E. destruct (child m r i) eqn:Hc; [| done]. cbn.
  by apply IH, (same_entries_step _ _ _ _ _ _ Hs).
Qed.

(** The walk of the hardware by tables. *)
Lemma hw_leaf_same m m' r va :
  same_entries m m' r (vpath va) → hw_leaf m' r va = hw_leaf m r va.
Proof.
  intros Hs. unfold hw_leaf. rewrite (Hs [] _ _ r eq_refl eq_refl).
  destruct (is_valid (m (r + 8 * vpn2 va))) eqn:V2; cbn; [| done].
  destruct (is_leaf (m (r + 8 * vpn2 va))) eqn:L2; [done |].
  assert (child m r (vpn2 va) = Some (phys_addr (m (r + 8 * vpn2 va)))) as H1.
  { unfold child. by rewrite branch_or_leaf, V2, L2. }
  set (p1 := phys_addr _) in *.
  rewrite (Hs [vpn2 va] _ [vpn0 va] p1 eq_refl) by (cbn; by rewrite H1).
  destruct (is_valid (m (p1 + 8 * vpn1 va))) eqn:V1; cbn; [| done].
  destruct (is_leaf (m (p1 + 8 * vpn1 va))) eqn:L1; [done |].
  rewrite (Hs [vpn2 va; vpn1 va] _ [] _ eq_refl); [done |].
  cbn. rewrite H1. cbn. unfold child. by rewrite branch_or_leaf, V1, L1.
Qed.

(** The walk ends at leaves only. *)
Lemma hw_leaf_is_leaf m r va k e : hw_leaf m r va = Some (k, e) → is_leaf e = true.
Proof.
  unfold hw_leaf. destruct (is_valid (m (r + 8 * vpn2 va))); cbn; [| done].
  destruct (is_leaf (m (r + 8 * vpn2 va))) eqn:?; [by intros [= _ <-] |].
  set (p := phys_addr _). destruct (is_valid (m (p + 8 * vpn1 va))); cbn; [| done].
  destruct (is_leaf (m (p + 8 * vpn1 va))) eqn:?; [by intros [= _ <-] |].
  destruct (is_leaf (m (_ + 8 * vpn0 va))) eqn:?; [by intros [= _ <-] | done].
Qed.

Section laws.
Context {A : Type} `{FL : FrameLaws A} (hart : Z).
Hypothesis hart_ok : 0 <= hart.

(** The address spaces with the given roots: every table is a page in use, and
    no page is a table twice, in one address space or in two. *)
Record spaces_ok (s : vm) (bl : list (Z * Z)) (roots : list Z) : Prop := {
  so_frames : fa_ok (frames s) bl;
  so_inj r r' π π' p : r ∈ roots → r' ∈ roots → path π → path π' →
    table (mem s) r π = Some p → table (mem s) r' π' = Some p → r = r' ∧ π = π';
  so_owned r π p : r ∈ roots → path π → table (mem s) r π = Some p → (p, 0) ∈ bl;
}.

Lemma page_facts s bl p :
  fa_ok (frames s) bl → (p, 0) ∈ bl →
  frame_addr p ∧ ∀ i, 0 <= i < 512 → in_dram (p + 8 * i) = true ∧ in_use bl (p + 8 * i).
Proof.
  intros Hf Hp. destruct (fa_block _ _ _ _ Hf Hp) as (_ & Hm & Hd & He & _).
  change (2 ^ 0) with 1 in He. unfold PAGE_SIZE, DRAM_END, DRAM_SIZE, DRAM_BASE in *.
  split; [split; [done | lia] |]. intros i Hi. split.
  - unfold in_dram. rewrite andb_true_iff, Z.leb_le, Z.ltb_lt.
    unfold DRAM_END, DRAM_SIZE, DRAM_BASE. lia.
  - exists p, 0. split; [done |]. unfold in_block, PAGE_SIZE. change (2 ^ 0) with 1. lia.
Qed.

(** Words of different pages, or of different entries, differ. *)
Lemma same_word p q i j :
  frame_addr p → frame_addr q → 0 <= i < 512 → 0 <= j < 512 →
  q + 8 * j = p + 8 * i → q = p ∧ j = i.
Proof. unfold frame_addr. intros [Hp _] [Hq _] Hi Hj E. dlia. Qed.

Lemma fresh_page s bl p q :
  fa_ok (frames s) ((q, 0) :: bl) → (p, 0) ∈ bl → p ≠ q.
Proof.
  intros Hf Hp ->. eapply (fa_disjoint _ bl q 0 q); [done | |].
  - unfold in_block, PAGE_SIZE. change (2 ^ 0) with 1. lia.
  - exists q, 0. split; [done |]. unfold in_block, PAGE_SIZE. change (2 ^ 0) with 1. lia.
Qed.

(** Of the words in use, only entry [i] of [p] changes. *)
Definition updates (bl : list (Z * Z)) (m m' : Z → Z) (p i : Z) : Prop :=
  ∀ x, in_use bl x → x ≠ p + 8 * i → m' x = m x.

Section update.
Context (s : @vm A) (bl : list (Z * Z)) (roots : list Z) (m' : Z → Z) (r0 p i : Z) (π0 : list Z).
Hypothesis Hok : spaces_ok s bl roots.
Hypothesis Hr0 : r0 ∈ roots.
Hypothesis Hπ0 : path π0.
Hypothesis Hp : table (mem s) r0 π0 = Some p.
Hypothesis Hi : 0 <= i < 512.
Hypothesis Hup : updates bl (mem s) m' p i.

Lemma update_same_entries r π :
  r ∈ roots → (length π <= 3)%nat → indices π →
  ¬ (r = r0 ∧ (π0 ++ [i]) `prefix_of` π) → same_entries (mem s) m' r π.
Proof.
  intros Hr Hlen Hind Hnot ρ j σ q -> Hq.
  rewrite length_app in Hlen. cbn in Hlen.
  apply Forall_app in Hind as [Hρ [Hj _]%Forall_cons].
  assert (path ρ) as Hpρ by (split; [lia | done]).
  pose proof (so_owned _ _ _ Hok _ _ _ Hr Hpρ Hq) as Hqo.
  pose proof (so_owned _ _ _ Hok _ _ _ Hr0 Hπ0 Hp) as Hpo.
  destruct (page_facts _ _ _ (so_frames _ _ _ Hok) Hqo) as [Hqf Hqw].
  destruct (page_facts _ _ _ (so_frames _ _ _ Hok) Hpo) as [Hpf _].
  apply Hup; [by apply Hqw |]. intros E.
  destruct (same_word p q i j Hpf Hqf Hi Hj E) as [-> ->].
  destruct (so_inj _ _ _ Hok _ _ _ _ _ Hr Hr0 Hpρ Hπ0 Hq Hp) as [-> ->].
  apply Hnot. split; [done |]. exists σ. by rewrite <-app_assoc.
Qed.

Lemma update_table r π :
  r ∈ roots → path π → ¬ (r = r0 ∧ (π0 ++ [i]) `prefix_of` π) →
  table m' r π = table (mem s) r π.
Proof.
  intros Hr [Hlen Hind] Hnot. apply table_same, update_same_entries; [done | lia | done | done].
Qed.

Lemma update_hw_leaf r va :
  r ∈ roots → ¬ (r = r0 ∧ (π0 ++ [i]) `prefix_of` vpath va) →
  hw_leaf m' r va = hw_leaf (mem s) r va.
Proof.
  intros Hr Hnot. apply hw_leaf_same, update_same_entries;
    [done | cbn; lia | apply vpath_indices | done].
Qed.

(** The table of the changed entry is where it was. *)
Lemma update_here : table m' r0 π0 = Some p.
Proof.
  rewrite update_table; [done | done | done |]. intros [_ [σ E]].
  apply (f_equal length) in E. rewrite !length_app in E. cbn in E. lia.
Qed.

Lemma update_entry : table m' r0 (π0 ++ [i]) = child m' p i.
Proof. by rewrite table_snoc, update_here. Qed.
End update.

(** ** The walk of the hardware, level by level *)

(** [π] leads to the table of entry [i] on the way to [va]. *)
Lemma hw_leaf_stops m r va π i σ p :
  vpath va = π ++ i :: σ → table m r π = Some p →
  let e := m (p + 8 * i) in
  is_valid e = false ∨ is_leaf e = true ∨ σ = [] →
  hw_leaf m r va = if is_leaf e then Some (Z.of_nat (length σ), e) else None.
Proof.
  intros Hv Ht e Hstop. unfold vpath in Hv.
  assert (∀ x, is_valid x = false → is_leaf x = false) as Hvl.
  { intros x Hx. unfold is_leaf. by rewrite Hx. }
  assert (∀ x q, (if is_branch x then Some (phys_addr x) else None) = Some q →
            is_valid x = true ∧ is_leaf x = false ∧ phys_addr x = q) as Hb.
  { intros x q. rewrite branch_or_leaf. destruct (is_valid x), (is_leaf x); cbn; naive_solver. }
  unfold hw_leaf. destruct π as [| a [| b [| c [| d π]]]]; simplify_eq/=.
  - fold e.
    destruct (is_valid e) eqn:V; [| by rewrite (Hvl e V)]. cbn.
    destruct (is_leaf e); [done |]. naive_solver.
  - destruct (child m r (vpn2 va)) as [q |] eqn:Hc; [| done]. injection Ht as ->.
    apply Hb in Hc as (-> & -> & ->). cbn. fold e.
    destruct (is_valid e) eqn:V; [| by rewrite (Hvl e V)]. cbn.
    destruct (is_leaf e); [done |]. naive_solver.
  - destruct (child m r (vpn2 va)) as [q |] eqn:Hc; [| done]. cbn in Ht.
    destruct (child m q (vpn1 va)) as [q' |] eqn:Hc'; [| done]. injection Ht as ->.
    apply Hb in Hc as (-> & -> & ->). apply Hb in Hc' as (-> & -> & ->). done.
Qed.

(** ** Primitive operations *)

Definition stored (s : @vm A) (m : Z → Z) : vm := s <| frames := fa_store (frames s) m |>.

Lemma mem_stored s m : mem (stored s m) = m.
Proof. apply fa_store_mem. Qed.

Lemma stored_ok s bl m :
  fa_ok (frames s) bl → (∀ x, ¬ in_use bl x → m x = mem s x) → fa_ok (frames (stored s m)) bl.
Proof. intros Hf Hm. by apply (fa_store_ok (frames s)). Qed.

Lemma pte_at_run s bl p i :
  fa_ok (frames s) bl → (p, 0) ∈ bl → 0 <= i < 512 → pte_at s p i = Done (mem s (p + 8 * i)).
Proof.
  intros Hf Hp Hi. destruct (page_facts _ _ _ Hf Hp) as [_ Hw]. unfold pte_at.
  by rewrite (proj1 (Hw i Hi)).
Qed.

Lemma set_pte_run s bl p i e :
  fa_ok (frames s) bl → (p, 0) ∈ bl → 0 <= i < 512 →
  set_pte s p i e = Done (stored s (write_word (mem s) (p + 8 * i) e)) ∧
  fa_ok (frames (stored s (write_word (mem s) (p + 8 * i) e))) bl.
Proof.
  intros Hf Hp Hi. destruct (page_facts _ _ _ Hf Hp) as [_ Hw]. destruct (Hw i Hi) as [Hd Hu].
  unfold set_pte. rewrite Hd. split; [done |]. apply stored_ok; [done |].
  intros x Hx. unfold write_word. destruct (x =? _) eqn:E; bools; [by subst | done].
Qed.

Lemma write_word_eq (m : Z → Z) x v : write_word m x v x = v.
Proof. unfold write_word. by rewrite Z.eqb_refl. Qed.

Lemma write_word_ne (m : Z → Z) x y v : y ≠ x → write_word m x v y = m y.
Proof. intros Hne. unfold write_word. by rewrite (proj2 (Z.eqb_neq y x)). Qed.

(** Clearing a block in use. *)
Definition cleared (m : Z → Z) (p len : Z) : Z → Z :=
  λ x, if (p <=? x) && (x <? p + len) then 0 else m x.

Lemma cleared_in m p len x : p <= x < p + len → cleared m p len x = 0.
Proof. intros Hx. unfold cleared. by rewrite (proj2 (Z.leb_le _ _)), (proj2 (Z.ltb_lt _ _)) by lia. Qed.

Lemma cleared_out m p len x : ¬ (p <= x < p + len) → cleared m p len x = m x.
Proof.
  intros Hx. unfold cleared. destruct (p <=? x) eqn:E1, (x <? p + len) eqn:E2; bools; [lia | done..].
Qed.

Lemma zero_run s bl p o :
  fa_ok (frames s) bl → (p, o) ∈ bl →
  zero s p (2 ^ o * PAGE_SIZE) = Done (stored s (cleared (mem s) p (2 ^ o * PAGE_SIZE))) ∧
  fa_ok (frames (stored s (cleared (mem s) p (2 ^ o * PAGE_SIZE)))) bl.
Proof.
  intros Hf Hp. destruct (fa_block _ _ _ _ Hf Hp) as (Ho & _ & Hd & He & _).
  pose proof (pow2_pos o ltac:(lia)). unfold zero, in_dram.
  rewrite (proj2 (Z.leb_le _ _) Hd), (proj2 (Z.ltb_lt p DRAM_END)), (proj2 (Z.leb_le _ _) He)
    by (unfold PAGE_SIZE in *; lia).
  split; [done |]. apply stored_ok; [done |]. intros x Hx. apply cleared_out. intros Hin.
  apply Hx. by exists p, o.
Qed.

(** [s'] is [s] with other frames and memory. *)
Definition same_rest (s s' : @vm A) : Prop := s' = s <| frames := frames s' |>.

Lemma same_rest_trans s1 s2 s3 : same_rest s1 s2 → same_rest s2 s3 → same_rest s1 s3.
Proof. unfold same_rest. intros H1 H2. rewrite H2, H1. by destruct s1. Qed.

Lemma same_rest_stored s m : same_rest s (stored s m).
Proof. by destruct s. Qed.

Lemma alloc_page_run s bl :
  fa_ok (frames s) bl →
  ∃ o s', alloc_page hart s = Done (o, s') ∧ same_rest s s' ∧
    (∀ x, in_use bl x → mem s' x = mem s x) ∧ fa_base (frames s') = fa_base (frames s) ∧
    fa_ok (frames s') (match o with Some p => (p, 0) :: bl | None => bl end).
Proof.
  intros Hf. destruct (fa_alloc_page_ok _ _ hart Hf hart_ok) as (o & a & E & [Hb Hm] & Ha).
  exists o, (s <| frames := a |>). split_and!; try done.
  unfold alloc_page. by rewrite E.
Qed.

(** ** Pages left *)

(** How many pages the hart can still be given. *)
Definition free_frames (s : @vm A) : Z := fa_spare (frames s) hart.

Lemma alloc_page_spare s bl o s' :
  fa_ok (frames s) bl → alloc_page hart s = Done (o, s') →
  match o with
  | Some _ => free_frames s' = free_frames s - 1
  | None => free_frames s = 0 ∧ free_frames s' = 0
  end.
Proof.
  intros Hf. unfold alloc_page. destruct (fa_alloc_page (frames s) hart) as [[r a] | | |] eqn:E; try done.
  intros [= <- <-]. exact (fa_alloc_spare _ _ _ _ _ Hf hart_ok E).
Qed.

Lemma stored_spare s bl m :
  fa_ok (frames s) bl → (∀ x, ¬ in_use bl x → m x = mem s x) → free_frames (stored s m) = free_frames s.
Proof. intros Hf Hm. by apply (fa_store_spare _ bl). Qed.

Lemma set_pte_spare s bl p i e s' :
  fa_ok (frames s) bl → (p, 0) ∈ bl → 0 <= i < 512 → set_pte s p i e = Done s' → free_frames s' = free_frames s.
Proof.
  intros Hf Hp Hi E. destruct (set_pte_run s bl p i e Hf Hp Hi) as [E' _]. rewrite E in E'. injection E' as ->.
  apply (stored_spare s bl); [done |]. intros x Hx. apply write_word_ne. intros ->. apply Hx.
  by apply (page_facts _ _ _ Hf Hp).
Qed.

Lemma zero_spare s bl p s' :
  fa_ok (frames s) bl → (p, 0) ∈ bl → zero s p PAGE_SIZE = Done s' → free_frames s' = free_frames s.
Proof.
  intros Hf Hp E. destruct (zero_run s bl p 0 Hf Hp) as [E' _]. change (2 ^ 0 * PAGE_SIZE) with PAGE_SIZE in E'.
  rewrite E in E'. injection E' as ->. apply (stored_spare s bl); [done |]. intros x Hx. apply cleared_out.
  intros Hin. apply Hx. exists p, 0. split; [done |]. unfold in_block. change (2 ^ 0) with 1. lia.
Qed.

Lemma free_frames_nonneg s bl : fa_ok (frames s) bl → 0 <= free_frames s.
Proof. apply fa_spare_nonneg. Qed.

(** ** New tables *)

(** A word of a table of one of the address spaces. *)
Definition table_word (m : Z → Z) (roots : list Z) (x : Z) : Prop :=
  ∃ r π p, r ∈ roots ∧ path π ∧ table m r π = Some p ∧ in_block p 0 x.

(** [s'] has the tables [k] more, and otherwise the same tables, translations
    and data as [s]. *)
Record grown (s : vm) (bl : list (Z * Z)) (roots : list Z) (s' : vm) (k : list (Z * Z)) : Prop := {
  gr_ok : spaces_ok s' (k ++ bl) roots;
  gr_rest : same_rest s s';
  gr_base : fa_base (frames s') = fa_base (frames s);
  gr_leaf r va : r ∈ roots → hw_leaf (mem s') r va = hw_leaf (mem s) r va;
  gr_table r π p : r ∈ roots → path π → table (mem s) r π = Some p → table (mem s') r π = Some p;
  gr_new r π p : r ∈ roots → path π → table (mem s') r π = Some p →
    table (mem s) r π = Some p ∨ (p, 0) ∈ k;
  gr_data x : in_use bl x → mem s' x = mem s x ∨ table_word (mem s) roots x;
  gr_spare : free_frames s' = free_frames s - zlen k;
}.

Lemma in_use_app k bl x : in_use (k ++ bl) x ↔ in_use k x ∨ in_use bl x.
Proof. unfold in_use. setoid_rewrite elem_of_app. naive_solver. Qed.

(** Blocks in use do not overlap, by two parts of their list. *)
Lemma blocks_apart (a : A) k bl x : fa_ok a (k ++ bl) → in_use k x → ¬ in_use bl x.
Proof.
  intros Hf (p & o & Hp & Hx) Hbl. apply list_elem_of_split in Hp as (k1 & k2 & ->).
  eapply (fa_disjoint a (k1 ++ k2 ++ bl) p o x); [| done | rewrite !in_use_app; auto].
  eapply fa_ok_perm; [exact Hf |]. rewrite <-app_assoc. cbn. solve_Permutation.
Qed.

Lemma grown_refl s bl roots : spaces_ok s bl roots → grown s bl roots s [].
Proof. intros Hs. split; try done; [by destruct s | auto | auto | unfold zlen; cbn; lia]. Qed.

Lemma grown_trans s1 s2 s3 bl roots k k' :
  grown s1 bl roots s2 k → grown s2 (k ++ bl) roots s3 k' → grown s1 bl roots s3 (k' ++ k).
Proof.
  intros G1 G2. split.
  - rewrite <-app_assoc. apply G2.
  - eapply same_rest_trans; [apply G1 | apply G2].
  - by rewrite (gr_base _ _ _ _ _ G2), (gr_base _ _ _ _ _ G1).
  - intros r va Hr. by rewrite (gr_leaf _ _ _ _ _ G2), (gr_leaf _ _ _ _ _ G1).
  - intros r π p Hr Hπ Hp. apply (gr_table _ _ _ _ _ G2), (gr_table _ _ _ _ _ G1); done.
  - intros r π p Hr Hπ Hp. rewrite elem_of_app.
    destruct (gr_new _ _ _ _ _ G2 r π p Hr Hπ Hp) as [Hp2 |]; [| auto].
    destruct (gr_new _ _ _ _ _ G1 r π p Hr Hπ Hp2); auto.
  - intros x Hx. destruct (gr_data _ _ _ _ _ G2 x) as [-> | (r & π & p & Hr & Hπ & Hp & Hpx)].
    + apply in_use_app. auto.
    + by apply G1.
    + destruct (gr_new _ _ _ _ _ G1 r π p Hr Hπ Hp) as [Hp1 | Hk]; [right; by exists r, π, p |].
      destruct (blocks_apart (frames s2) k bl x); [apply G1 | by exists p, 0 | done].
  - rewrite (gr_spare _ _ _ _ _ G2), (gr_spare _ _ _ _ _ G1). unfold zlen. rewrite length_app. lia.
Qed.

Section install.
Context (s s' : @vm A) (bl : list (Z * Z)) (roots : list Z) (r0 p q i : Z) (π0 : list Z).
Hypothesis Hok : spaces_ok s bl roots.
Hypothesis Hr0 : r0 ∈ roots.
Hypothesis Hlen : (length π0 <= 1)%nat.
Hypothesis Hind : indices π0.
Hypothesis Hp : table (mem s) r0 π0 = Some p.
Hypothesis Hi : 0 <= i < 512.
Hypothesis Hnone : is_branch (mem s (p + 8 * i)) = false.
Hypothesis Hf : fa_ok (frames s') ((q, 0) :: bl).
Hypothesis Hup : updates bl (mem s) (mem s') p i.
Hypothesis He : mem s' (p + 8 * i) = branch_pte q.
(** The new table is a last-level one, or has no tables below it. *)
Hypothesis Hq : length π0 = 1%nat ∨ ∀ j, 0 <= j < 512 → is_branch (mem s' (q + 8 * j)) = false.

Lemma new_frame : frame_addr q.
Proof. eapply (page_facts s'); [exact Hf | set_solver]. Qed.

Lemma path0 : path π0.
Proof. split; [lia | done]. Qed.

Lemma install_table r π :
  r ∈ roots → path π →
  table (mem s') r π = if decide (r = r0 ∧ π = π0 ++ [i]) then Some q else table (mem s) r π.
Proof.
  intros Hr Hπ. pose proof path0 as Hπ0.
  destruct (decide (r = r0 ∧ (π0 ++ [i]) `prefix_of` π)) as [[-> [σ ->]] | Hnot].
  2: { rewrite decide_False by (intros [-> ->]; by apply Hnot).
       by apply (update_table s bl roots (mem s') r0 p i π0). }
  assert (table (mem s') r0 (π0 ++ [i]) = Some q) as E.
  { rewrite (update_entry s bl roots (mem s') r0 p i π0) by done. unfold child. rewrite He.
    destruct (branch_pte_spec q new_frame) as [-> ->]. done. }
  destruct σ as [| j σ].
  { rewrite app_nil_r, decide_True by done. done. }
  destruct Hπ as [Hl Hin]. rewrite !length_app in Hl. cbn in Hl.
  destruct σ; [| cbn in Hl; lia]. destruct Hq as [? | Hz]; [lia |].
  rewrite decide_False by (intros [_ E']; apply (f_equal length) in E'; rewrite !length_app in E'; cbn in E'; lia).
  apply Forall_app in Hin as [_ [Hj _]%Forall_cons].
  rewrite (table_snoc (mem s')), E, !table_snoc, Hp. cbn. unfold child. by rewrite (Hz j Hj), Hnone.
Qed.

Lemma install_spaces : spaces_ok s' ((q, 0) :: bl) roots.
Proof.
  assert (∀ r π, r ∈ roots → path π → table (mem s) r π = Some q → False) as Hfresh.
  { intros r π Hr Hπ Hpq. apply (fresh_page s' bl q q); [done | | done].
    by eapply (so_owned s bl roots). }
  split; [done | |].
  - intros r r' π π' x Hr Hr' Hπ Hπ'. rewrite !install_table by done.
    case_decide as D1; case_decide as D2.
    + destruct D1 as [-> ->], D2 as [-> ->]. done.
    + intros [= <-] Hx. by destruct (Hfresh r' π').
    + intros Hx [= <-]. by destruct (Hfresh r π).
    + by apply (so_inj _ _ _ Hok).
  - intros r π x Hr Hπ. rewrite install_table by done.
    case_decide; [intros [= <-]; set_solver |]. intros Hx.
    pose proof (so_owned _ _ _ Hok r π x Hr Hπ Hx). set_solver.
Qed.
End install.

(** ** The walk *)

(** Nothing the walks read has changed. *)
Lemma tables_quiet (m m' : Z → Z) roots :
  (∀ x, table_word m roots x → m' x = m x) →
  ∀ r π, r ∈ roots → (length π <= 3)%nat → indices π → same_entries m m' r π.
Proof.
  intros Hm r π Hr Hl Hπ ρ j σ x -> Hx. rewrite length_app in Hl. cbn in Hl.
  apply Forall_app in Hπ as [Hρ [Hj _]%Forall_cons]. apply Hm. exists r, ρ, x.
  split_and!; [done | split; [lia | done] | done |]. unfold in_block, PAGE_SIZE. change (2 ^ 0) with 1. lia.
Qed.

Lemma table_word_in_use s bl roots x :
  spaces_ok s bl roots → table_word (mem s) roots x → in_use bl x.
Proof. intros Hok (r & π & p & Hr & Hπ & Hp & Hx). exists p, 0. split; [by eapply (so_owned _ _ _ Hok) | done]. Qed.

(** Nothing in use has changed. *)
Lemma quiet_entries s bl roots m' :
  spaces_ok s bl roots → (∀ x, in_use bl x → m' x = mem s x) →
  ∀ r π, r ∈ roots → (length π <= 3)%nat → indices π → same_entries (mem s) m' r π.
Proof. intros Hok Hm. apply tables_quiet. intros x Hx. apply Hm. by eapply table_word_in_use. Qed.

(** The same tables in a memory that keeps their words. *)
Lemma spaces_quiet s s' bl k roots :
  spaces_ok s bl roots → fa_ok (frames s') (k ++ bl) →
  (∀ x, table_word (mem s) roots x → mem s' x = mem s x) →
  spaces_ok s' (k ++ bl) roots ∧
  (∀ r π, r ∈ roots → path π → table (mem s') r π = table (mem s) r π) ∧
  ∀ r va, r ∈ roots → hw_leaf (mem s') r va = hw_leaf (mem s) r va.
Proof.
  intros Hok Hf Hm. pose proof (tables_quiet (mem s) (mem s') roots Hm) as Hsame.
  assert (∀ r π, r ∈ roots → path π → table (mem s') r π = table (mem s) r π) as Ht.
  { intros r π Hr' [? ?]. apply table_same, Hsame; [done | lia | done]. }
  split_and!; [| done |].
  - split; [done | |].
    + intros r r' π π' x H1 H2 Hπ Hπ'. rewrite !Ht by done. by apply (so_inj _ _ _ Hok).
    + intros r π x H1 Hπ. rewrite Ht by done. intros Hx. apply elem_of_app. right.
      by eapply (so_owned _ _ _ Hok).
  - intros r va Hr'. apply hw_leaf_same, Hsame; [done | cbn; lia | apply vpath_indices].
Qed.

Lemma grown_quiet s s' bl roots :
  spaces_ok s bl roots → fa_ok (frames s') bl → same_rest s s' →
  fa_base (frames s') = fa_base (frames s) → (∀ x, in_use bl x → mem s' x = mem s x) →
  free_frames s' = free_frames s → grown s bl roots s' [].
Proof.
  intros Hok Hf Hr Hb Hm Hfr. destruct (spaces_quiet s s' bl [] roots Hok Hf) as (Hok' & Ht & Hl).
  { intros x Hx. apply Hm. by eapply table_word_in_use. }
  split; cbn [app]; try done.
  - intros r π x H1 Hπ. by rewrite Ht.
  - intros r π x H1 Hπ. rewrite Ht by done. auto.
  - intros x Hx. left. by apply Hm.
  - rewrite Hfr. unfold zlen. cbn. lia.
Qed.

Section level.
Context (s : @vm A) (bl : list (Z * Z)) (roots : list Z) (r0 p i : Z) (π0 : list Z).
Hypothesis Hok : spaces_ok s bl roots.
Hypothesis Hr0 : r0 ∈ roots.
Hypothesis Hlen : (length π0 <= 1)%nat.
Hypothesis Hind : indices π0.
Hypothesis Hp : table (mem s) r0 π0 = Some p.
Hypothesis Hi : 0 <= i < 512.

Lemma level_owned : (p, 0) ∈ bl.
Proof. eapply (so_owned _ _ _ Hok r0 π0); [done | split; [lia | done] | done]. Qed.

(** An empty table below an invalid entry translates nothing. *)
Lemma empty_table_leaf m' q r va :
  is_valid (mem s (p + 8 * i)) = false → updates bl (mem s) m' p i →
  table m' r0 (π0 ++ [i]) = Some q → (∀ j, 0 <= j < 512 → m' (q + 8 * j) = 0) →
  r ∈ roots → hw_leaf m' r va = hw_leaf (mem s) r va.
Proof.
  intros Hv Hup Hq Hz Hr.
  destruct (decide (r = r0 ∧ (π0 ++ [i]) `prefix_of` vpath va)) as [[-> [σ Hσ]] | Hnot].
  2: { apply (update_hw_leaf s bl roots m' r0 p i π0); try done. split; [lia | done]. }
  assert (is_leaf (mem s (p + 8 * i)) = false) as Hl by (unfold is_leaf; by rewrite Hv).
  rewrite (hw_leaf_stops (mem s) r0 va π0 i σ p); [| by rewrite Hσ, <-app_assoc | done | by left].
  rewrite Hl. destruct σ as [| j σ].
  { apply (f_equal length) in Hσ. rewrite !length_app in Hσ. cbn in Hσ. lia. }
  assert (0 <= j < 512) as Hj.
  { pose proof (vpath_indices va) as Hvi. rewrite Hσ in Hvi.
    apply Forall_app in Hvi as [_ [? _]%Forall_cons]. done. }
  rewrite (hw_leaf_stops m' r0 va (π0 ++ [i]) j σ q);
    [by rewrite (Hz j Hj) | done | done | left; by rewrite (Hz j Hj)].
Qed.

(** What [add_table] writes: the new page, and the entry. *)
Lemma add_table_writes :
  ∃ o s', add_table hart s p i = Done (o, s') ∧ same_rest s s' ∧
    fa_base (frames s') = fa_base (frames s) ∧
    match o with
    | None => (free_frames s = 0 ∧ free_frames s' = 0) ∧ fa_ok (frames s') bl ∧
        ∀ x, in_use bl x → mem s' x = mem s x
    | Some q => free_frames s' = free_frames s - 1 ∧
        fa_ok (frames s') ((q, 0) :: bl) ∧ updates bl (mem s) (mem s') p i ∧
        mem s' (p + 8 * i) = branch_pte q ∧ ∀ j, 0 <= j < 512 → mem s' (q + 8 * j) = 0
    end.
Proof.
  pose proof level_owned as Hpo. pose proof (so_frames _ _ _ Hok) as Hf.
  destruct (alloc_page_run s bl Hf) as (o & s1 & E1 & R1 & M1 & B1 & F1).
  pose proof (alloc_page_spare s bl o s1 Hf E1) as S1.
  unfold add_table. rewrite E1. cbn [mbind outcome_bind].
  destruct o as [q |]; [| by exists None, s1].
  assert ((q, 0) ∈ (q, 0) :: bl) as Hq0 by set_solver.
  destruct (zero_run s1 _ q 0 F1 Hq0) as [E2 F2].
  replace (2 ^ 0 * PAGE_SIZE) with PAGE_SIZE in E2, F2 by done.
  rewrite E2. cbn [mbind outcome_bind]. set (s2 := stored s1 _) in *.
  destruct (set_pte_run s2 _ p i (branch_pte q) F2 ltac:(set_solver) Hi) as [E3 F3].
  rewrite E3. cbn [mbind outcome_bind]. set (s3 := stored s2 _) in *.
  pose proof (zero_spare s1 _ q s2 F1 Hq0 E2) as S2.
  pose proof (set_pte_spare s2 _ p i (branch_pte q) s3 F2 ltac:(set_solver) Hi E3) as S3.
  assert (mem s3 = write_word (cleared (mem s1) q PAGE_SIZE) (p + 8 * i) (branch_pte q)) as M3.
  { unfold s3. rewrite mem_stored. unfold s2. by rewrite mem_stored. }
  assert (p ≠ q) as Hpq by by eapply fresh_page.
  destruct (page_facts _ _ _ Hf Hpo) as [Hpf _]. destruct (page_facts _ _ _ F1 Hq0) as [Hqf _].
  exists (Some q), s3. rewrite M3. split_and!; try done.
  - eapply same_rest_trans; [exact R1 |]. eapply same_rest_trans; apply same_rest_stored.
  - unfold s3, s2. cbn. by rewrite !fa_store_base.
  - lia.
  - intros x Hx Hne. rewrite write_word_ne by done. rewrite cleared_out; [by apply M1 |].
    intros Hin. apply (fa_disjoint _ bl q 0 x F1); [| done].
    unfold in_block. change (2 ^ 0) with 1. lia.
  - apply write_word_eq.
  - intros j Hj. rewrite write_word_ne.
    + apply cleared_in. unfold PAGE_SIZE. lia.
    + intros E. by destruct (same_word p q i j Hpf Hqf Hi Hj E).
Qed.

Lemma add_table_run :
  is_valid (mem s (p + 8 * i)) = false →
  ∃ o s' k, add_table hart s p i = Done (o, s') ∧ grown s bl roots s' k ∧
    match o with
    | Some q => table (mem s') r0 (π0 ++ [i]) = Some q ∧ zlen k = 1
    | None => free_frames s = 0
    end.
Proof.
  intros Hv. destruct add_table_writes as (o & s' & E & Hr & Hb & Ho).
  destruct o as [q |].
  2: { destruct Ho as ([? ?] & ? & ?). exists None, s', []. split_and!; [done | | done].
       apply grown_quiet; [done.. | congruence]. }
  destruct Ho as (Hs1 & Hf & Hup & He & Hz).
  assert (is_branch (mem s (p + 8 * i)) = false) as Hnb by (rewrite branch_or_leaf, Hv; done).
  assert (length π0 = 1%nat ∨ ∀ j, 0 <= j < 512 → is_branch (mem s' (q + 8 * j)) = false) as Hq.
  { right. intros j Hj. by rewrite Hz. }
  assert (∀ r π, r ∈ roots → path π → table (mem s') r π =
            if decide (r = r0 ∧ π = π0 ++ [i]) then Some q else table (mem s) r π) as Ht.
  { intros r π. by apply (install_table s s' bl roots r0 p q i π0). }
  assert (table (mem s) r0 (π0 ++ [i]) = None) as Hnone.
  { rewrite table_snoc, Hp. cbn. unfold child. by rewrite Hnb. }
  assert (table (mem s') r0 (π0 ++ [i]) = Some q) as Hnew.
  { rewrite Ht; [by rewrite decide_True | done |]. split; [rewrite length_app; cbn; lia |].
    apply Forall_app. split; [done |]. by apply Forall_singleton. }
  exists (Some q), s', [(q, 0)]. split_and!; [done | | done | done]. split; cbn [app]; try done.
  - by apply (install_spaces s s' bl roots r0 p q i π0).
  - intros r va. by apply (empty_table_leaf (mem s') q).
  - intros r π x Hr' Hπ Hx. rewrite Ht, decide_False; try done.
    intros [-> ->]. by rewrite Hnone in Hx.
  - intros r π x Hr' Hπ. rewrite Ht by done. case_decide; [intros [= <-]; right; set_solver | auto].
  - intros x Hx. destruct (decide (x = p + 8 * i)) as [-> | Hne]; [right | left; by apply Hup].
    exists r0, π0, p. split_and!; try done; [split; [lia | done] |].
    unfold in_block, PAGE_SIZE. change (2 ^ 0) with 1. lia.
Qed.

Lemma descend_run alloc :
  ∃ o s' k, descend hart s p i alloc = Done (o, s') ∧ grown s bl roots s' k ∧
    (alloc = false → s' = s ∧ k = [] ∧ o = table (mem s) r0 (π0 ++ [i])) ∧
    match o with
    | Some q => table (mem s') r0 (π0 ++ [i]) = Some q ∧
        zlen k = if table (mem s) r0 (π0 ++ [i]) then 0 else 1
    | None => table (mem s) r0 (π0 ++ [i]) = None ∧
        (alloc = true → is_leaf (mem s (p + 8 * i)) = true ∨ free_frames s = 0)
    end.
Proof.
  unfold descend. rewrite (pte_at_run s bl) by (apply Hok || apply level_owned || done).
  cbn [mbind outcome_bind].
  assert (table (mem s) r0 (π0 ++ [i]) = child (mem s) p i) as E by by rewrite table_snoc, Hp.
  unfold child in E. rewrite branch_or_leaf in E.
  pose proof (grown_refl s bl roots Hok) as Hrefl.
  destruct (is_valid (mem s (p + 8 * i))) eqn:V; cbn [negb andb] in *.
  - destruct (is_leaf (mem s (p + 8 * i))); cbn [negb] in E; eexists _, s, [];
      (split; [reflexivity |]); split_and!; auto. by rewrite E.
  - destruct alloc; cbn [negb]; [| exists None, s, []; by split_and!].
    destruct (add_table_run V) as (o & s' & k & Ea & G & Ho). exists o, s', k.
    split_and!; [done | done | done |]. rewrite E. destruct o; auto.
Qed.
End level.

(** How many tables are missing on the way to the last-level entry. *)
Definition missing (m : Z → Z) (root va : Z) : Z :=
  match table m root [vpn2 va] with
  | None => 2
  | Some _ => match table m root [vpn2 va; vpn1 va] with None => 1 | Some _ => 0 end
  end.

Lemma missing_two m root va : 0 <= missing m root va <= 2.
Proof. unfold missing. destruct (table m root [vpn2 va]), (table m root [vpn2 va; vpn1 va]); lia. Qed.

(** Why an address can have no last-level table: it lies in a huge page, or
    fewer pages are left than tables are missing. *)
Definition no_room (s : vm) (root va : Z) : Prop :=
  (∃ l e, 0 < l ∧ hw_leaf (mem s) root va = Some (l, e)) ∨ free_frames s < missing (mem s) root va.

(** After the first level: a new first-level table is empty, an old one as it was. *)
Lemma new_table_empty s bl roots root va s1 k1 l1 :
  grown s bl roots s1 k1 → root ∈ roots → table (mem s1) root [vpn2 va] = Some l1 →
  zlen k1 = (if table (mem s) root [vpn2 va] then 0 else 1) →
  table (mem s1) root [vpn2 va; vpn1 va] =
    if table (mem s) root [vpn2 va] then table (mem s) root [vpn2 va; vpn1 va] else None.
Proof.
  intros G Hr T1 K1. destruct (vpn_bounds va) as (H2 & H1 & _).
  assert (path [vpn2 va]) as P1 by (split; [cbn; lia | by apply Forall_singleton]).
  assert (path [vpn2 va; vpn1 va]) as P2
    by (split; [cbn; lia | by apply Forall_cons; split; [| apply Forall_singleton]]).
  destruct (table (mem s1) root [vpn2 va; vpn1 va]) as [l |] eqn:E.
  - destruct (table (mem s) root [vpn2 va]) eqn:E2.
    + destruct k1; [| unfold zlen in K1; cbn in K1; lia].
      destruct (gr_new _ _ _ _ _ G _ _ _ Hr P2 E) as [-> | []%not_elem_of_nil]. done.
    + destruct (gr_new _ _ _ _ _ G _ _ _ Hr P1 T1) as [? | I1]; [congruence |].
      destruct (gr_new _ _ _ _ _ G _ _ _ Hr P2 E) as [Ht | I2].
      { change [vpn2 va; vpn1 va] with ([vpn2 va] ++ [vpn1 va]) in Ht. by rewrite table_snoc, E2 in Ht. }
      destruct k1 as [| x [| y k1]]; try (unfold zlen in K1; cbn in K1; lia).
      apply list_elem_of_singleton in I1, I2. assert (l = l1) as -> by congruence.
      by destruct (so_inj _ _ _ (gr_ok _ _ _ _ _ G) root root _ _ l1 Hr Hr P2 P1 E T1).
  - destruct (table (mem s) root [vpn2 va]); [| done].
    destruct (table (mem s) root [vpn2 va; vpn1 va]) as [l |] eqn:E'; [| done].
    apply (gr_table _ _ _ _ _ G) in E'; [congruence | done | done].
Qed.

(** The whole walk: the last-level table of the address, made if need be. *)
Lemma walk_run s bl roots root va alloc :
  spaces_ok s bl roots → root ∈ roots →
  ∃ o s' k, walk_process_pt hart s root va alloc = Done (o, s') ∧ grown s bl roots s' k ∧
    (alloc = false → s' = s ∧ k = []) ∧
    match o with
    | Some (l0, idx) => table (mem s') root [vpn2 va; vpn1 va] = Some l0 ∧ idx = vpn0 va ∧
        zlen k = missing (mem s) root va
    | None => table (mem s) root [vpn2 va; vpn1 va] = None ∧ (alloc = true → no_room s root va)
    end.
Proof.
  intros Hok Hr. destruct (vpn_bounds va) as (H2 & H1 & _). unfold walk_process_pt.
  destruct (descend_run s bl roots root root (vpn2 va) [] Hok Hr ltac:(cbn; lia)
              (Forall_nil_2 _) eq_refl H2 alloc) as (o1 & s1 & k1 & -> & G1 & A1 & T1).
  cbn [mbind outcome_bind app] in *. destruct o1 as [l1 |].
  2: { destruct T1 as [T1 L1]. exists None, s1, k1.
       split_and!; try done; [intros Ha; by destruct (A1 Ha) as (? & ? & _) | |].
       - cbn in *. by destruct (child (mem s) root (vpn2 va)).
       - intros Ha. destruct (L1 Ha) as [Hl | Hn]; [left | right].
         + rewrite (hw_leaf_stops (mem s) root va [] (vpn2 va) [vpn1 va; vpn0 va] root) by auto.
           rewrite Hl. eexists _, _. split; [| reflexivity]. cbn. lia.
         + unfold missing. rewrite T1, Hn. lia. }
  destruct T1 as [T1 K1]. assert (indices [vpn2 va]) as Hi by by apply Forall_singleton.
  destruct (descend_run s1 (k1 ++ bl) roots root l1 (vpn1 va) [vpn2 va] (gr_ok _ _ _ _ _ G1) Hr
              ltac:(cbn; lia) Hi T1 H1 alloc) as (o0 & s2 & k2 & -> & G2 & A2 & T2).
  cbn [mbind outcome_bind app] in *.
  assert (∀ l, table (mem s) root [vpn2 va; vpn1 va] = Some l → table (mem s1) root [vpn2 va; vpn1 va] = Some l) as Hold.
  { intros l. apply (gr_table _ _ _ _ _ G1); [done |]. split; [cbn; lia |].
    by apply Forall_cons; split; [| apply Forall_singleton]. }
  exists (option_map (λ l0, (l0, vpn0 va)) o0), s2, (k2 ++ k1). split; [done |].
  split; [by eapply grown_trans |]. split.
  - intros Ha. destruct (A1 Ha) as (-> & -> & _), (A2 Ha) as (-> & -> & _). done.
  - destruct o0 as [l0 |]; cbn [option_map].
    + destruct T2 as [T2 K2]. split_and!; [done | done |]. unfold zlen in *. rewrite length_app, Nat2Z.inj_add, K1, K2.
      pose proof (new_table_empty s bl roots root va s1 k1 l1 G1 Hr T1 K1) as Hnew. unfold missing.
      destruct (table (mem s) root [vpn2 va]); rewrite Hnew; [| done].
      by destruct (table (mem s) root [vpn2 va; vpn1 va]).
    + destruct T2 as [T2 L2].
      assert (table (mem s) root [vpn2 va; vpn1 va] = None) as Hnone
        by (destruct (table (mem s) root [vpn2 va; vpn1 va]) eqn:E; [rewrite (Hold _ eq_refl) in T2 |]; done).
      split; [done |].
      intros Ha. destruct (L2 Ha) as [Hl | Hn]; [left | right].
      * rewrite <-(gr_leaf _ _ _ _ _ G1) by done.
        rewrite (hw_leaf_stops (mem s1) root va [vpn2 va] (vpn1 va) [vpn0 va] l1) by auto.
        rewrite Hl. eexists _, _. split; [| reflexivity]. cbn. lia.
      * rewrite (gr_spare _ _ _ _ _ G1), K1 in Hn. unfold missing. rewrite Hnone.
        destruct (table (mem s) root [vpn2 va]); lia.
Qed.

(** ** Writing an entry that is not a pointer *)

(** Entry [i] of the table at [π0] becomes [e], and no table changes. *)
Record rewritten (s : vm) (bl : list (Z * Z)) (roots : list Z) (r0 : Z) (π0 : list Z)
    (p i e : Z) (s' : vm) : Prop := {
  rw_ok : spaces_ok s' bl roots;
  rw_rest : same_rest s s';
  rw_base : fa_base (frames s') = fa_base (frames s);
  rw_spare : free_frames s' = free_frames s;
  rw_mem : mem s' = write_word (mem s) (p + 8 * i) e;
  rw_table r π : r ∈ roots → path π → table (mem s') r π = table (mem s) r π;
  rw_leaf r va : r ∈ roots → hw_leaf (mem s') r va =
    if decide (r = r0 ∧ (π0 ++ [i]) `prefix_of` vpath va)
    then (if is_leaf e then Some (2 - Z.of_nat (length π0), e) else None)
    else hw_leaf (mem s) r va;
}.

Lemma set_entry_run s bl roots r0 π0 p i e :
  spaces_ok s bl roots → r0 ∈ roots → path π0 → table (mem s) r0 π0 = Some p → 0 <= i < 512 →
  length π0 = 2%nat ∨ is_branch (mem s (p + 8 * i)) = false ∧ is_branch e = false →
  ∃ s', set_pte s p i e = Done s' ∧ rewritten s bl roots r0 π0 p i e s'.
Proof.
  intros Hok Hr0 Hπ0 Hp Hi Hor.
  pose proof (so_owned _ _ _ Hok _ _ _ Hr0 Hπ0 Hp) as Hpo.
  destruct (set_pte_run s bl p i e (so_frames _ _ _ Hok) Hpo Hi) as [E F].
  set (s' := stored s _) in *. exists s'. split; [done |].
  assert (mem s' = write_word (mem s) (p + 8 * i) e) as M by apply mem_stored.
  assert (updates bl (mem s) (mem s') p i) as Hup.
  { intros x _ Hne. by rewrite M, write_word_ne. }
  assert (mem s' (p + 8 * i) = e) as He by (rewrite M; apply write_word_eq).
  assert (table (mem s') r0 π0 = Some p) as Hp'
    by by apply (update_here s bl roots (mem s') r0 p i π0).
  assert (∀ r π, r ∈ roots → path π → table (mem s') r π = table (mem s) r π) as Ht.
  { intros r π Hr Hπ. destruct (decide (r = r0 ∧ (π0 ++ [i]) `prefix_of` π)) as [[-> [σ ->]] |];
      [| by apply (update_table s bl roots (mem s') r0 p i π0)].
    destruct Hor as [Hl | [Hb Hb']].
    - destruct Hπ as [Hl' _]. rewrite !length_app in Hl'. cbn in Hl'. lia.
    - rewrite !(table_app _ _ (π0 ++ [i])), !table_snoc, Hp, Hp'. cbn. unfold child.
      by rewrite He, Hb, Hb'. }
  split; [| apply same_rest_stored | apply fa_store_base | exact (set_pte_spare s bl p i e s' (so_frames _ _ _ Hok) Hpo Hi E) | done | done |].
  - split; [done | |].
    + intros r r' π π' x Hr Hr' Hπ Hπ'. rewrite !Ht by done. by apply (so_inj _ _ _ Hok).
    + intros r π x Hr Hπ. rewrite Ht by done. by apply (so_owned _ _ _ Hok).
  - intros r va Hr. case_decide as D; [| by apply (update_hw_leaf s bl roots (mem s') r0 p i π0)].
    destruct D as [-> [σ Hσ]].
    assert (length σ = 2 - length π0)%nat as Hlσ.
    { apply (f_equal length) in Hσ. rewrite !length_app in Hσ. cbn in Hσ. lia. }
    rewrite (hw_leaf_stops (mem s') r0 va π0 i σ p); [| by rewrite Hσ, <-app_assoc | done |].
    + rewrite He, Hlσ. destruct Hπ0 as [? _]. by replace (Z.of_nat (2 - length π0))
        with (2 - Z.of_nat (length π0)) by lia.
    + rewrite He. destruct Hor as [Hl | [_ Hb]].
      * right; right. apply length_zero_iff_nil. lia.
      * rewrite branch_or_leaf in Hb. destruct (is_valid e), (is_leaf e); naive_solver.
Qed.

(** The path of a 4K page. *)
Lemma vpath_last va va' :
  ([vpn2 va; vpn1 va] ++ [vpn0 va]) `prefix_of` vpath va' ↔ vpath va' = vpath va.
Proof.
  unfold vpath. split.
  - intros [[| ? ?] E]; cbn in E; [done | simplify_eq].
  - intros ->. by exists [].
Qed.

Lemma path_last va : path [vpn2 va; vpn1 va].
Proof.
  destruct (vpn_bounds va) as (? & ? & _). split; [cbn; lia |]. unfold indices.
  by rewrite !Forall_cons.
Qed.

Lemma vpath_div va va' : va' / 4096 = va / 4096 → vpath va' = vpath va.
Proof.
  intros E. unfold vpath. rewrite !vpn2_eq, !vpn1_eq, !vpn0_eq.
  change (2 ^ 30) with (4096 * 2 ^ 18). change (2 ^ 21) with (4096 * 2 ^ 9).
  change (2 ^ 12) with 4096. rewrite <-!Z.div_div by lia. by rewrite E.
Qed.

Lemma vpath_page va va' :
  canonical va = true → canonical va' = true → vpath va' = vpath va ↔ va' / 4096 = va / 4096.
Proof.
  intros Hc Hc'. split.
  - unfold vpath. intros [= H2 H1 H0]. by apply same_page.
  - apply vpath_div.
Qed.

Lemma vpath_page_iff (P Q : Prop) va va' :
  canonical va = true → canonical va' = true →
  (P ∧ vpath va' = vpath va ∧ Q) ↔ (P ∧ va' / 4096 = va / 4096 ∧ Q).
Proof. intros Hc Hc'. by rewrite (vpath_page va va' Hc Hc'). Qed.

(** Above a last-level table there is no huge page. *)
Lemma table_no_huge m r va l0 l e :
  table m r [vpn2 va; vpn1 va] = Some l0 → hw_leaf m r va = Some (l, e) → l = 0.
Proof.
  intros Ht. rewrite (hw_leaf_stops m r va [vpn2 va; vpn1 va] (vpn0 va) [] l0) by auto.
  destruct (is_leaf _); [| done]. by intros [= <- _].
Qed.

(** Mapping a 4K page, at the level of the hardware's walk. *)
Lemma map_page_run s bl roots root va pa r w x u :
  spaces_ok s bl roots → root ∈ roots →
  ∃ res s' k, map_page hart s root va pa r w x u = Done (res, s') ∧
    spaces_ok s' (k ++ bl) roots ∧ same_rest s s' ∧
    (∀ y, in_use bl y → mem s' y = mem s y ∨ table_word (mem s) roots y) ∧
    (∀ r π p, r ∈ roots → path π → table (mem s') r π = Some p →
       table (mem s) r π = Some p ∨ (p, 0) ∈ k) ∧
    (free_frames s' = free_frames s - zlen k ∧
     match res with
     | Ok _ => zlen k = missing (mem s) root va ∧ ¬ no_room s root va
     | Err _ => no_room s root va
     end) ∧
    let e := leaf_pte pa r w x u in
    ∀ r' va', r' ∈ roots → hw_leaf (mem s') r' va' =
      match res with
      | Ok _ => if decide (r' = root ∧ vpath va' = vpath va)
                then (if is_leaf e then Some (0, e) else None) else hw_leaf (mem s) r' va'
      | Err _ => hw_leaf (mem s) r' va'
      end.
Proof.
  intros Hok Hr. unfold map_page.
  destruct (walk_run s bl roots root va true Hok Hr) as (o & s1 & k & -> & G & _ & Ho).
  cbn [mbind outcome_bind]. destruct o as [[l0 idx] |].
  2: { eexists _, s1, k. split; [reflexivity |]. split_and!; try apply G. by apply Ho. }
  destruct Ho as (Ht & -> & Hmiss). destruct (vpn_bounds va) as (_ & _ & H0).
  destruct (set_entry_run s1 (k ++ bl) roots root _ l0 (vpn0 va) (leaf_pte pa r w x u)
              (gr_ok _ _ _ _ _ G) Hr (path_last va) Ht H0 ltac:(by left)) as (s2 & -> & R).
  cbn [mbind outcome_bind]. eexists _, s2, k. split; [reflexivity |]. split_and!.
  - apply R.
  - eapply same_rest_trans; [apply G | apply R].
  - intros y Hy. destruct (gr_data _ _ _ _ _ G y Hy) as [E | ?]; [| by right].
    destruct (decide (y = l0 + 8 * vpn0 va)) as [-> | Hne].
    + destruct (gr_new _ _ _ _ _ G _ _ _ Hr (path_last va) Ht) as [Ht' | Hk].
      * right. exists root, [vpn2 va; vpn1 va], l0. split_and!; [done | apply path_last | done |].
        unfold in_block, PAGE_SIZE. change (2 ^ 0) with 1. lia.
      * destruct (blocks_apart (frames s1) k bl (l0 + 8 * vpn0 va)); [apply G | | done].
        exists l0, 0. split; [done |]. unfold in_block, PAGE_SIZE. change (2 ^ 0) with 1. lia.
    + left. by rewrite (rw_mem _ _ _ _ _ _ _ _ _ R), write_word_ne.
  - intros r' π p Hr' Hπ. rewrite (rw_table _ _ _ _ _ _ _ _ _ R) by done. by apply G.
  - rewrite (rw_spare _ _ _ _ _ _ _ _ _ R). apply G.
  - done.
  - intros [(l & e & Hl & E) | Hlt].
    + rewrite <-(gr_leaf _ _ _ _ _ G) in E by done. apply (table_no_huge _ _ _ _ _ _ Ht) in E. lia.
    + pose proof (free_frames_nonneg s1 _ (so_frames _ _ _ (gr_ok _ _ _ _ _ G))) as Hnn.
      rewrite (gr_spare _ _ _ _ _ G) in Hnn. lia.
  - intros r' va' Hr'. rewrite (rw_leaf _ _ _ _ _ _ _ _ _ R), (gr_leaf _ _ _ _ _ G) by done.
    change (2 - Z.of_nat (length [vpn2 va; vpn1 va])) with 0.
    by apply decide_ext; rewrite vpath_last.
Qed.

(** ** Unmapping *)

Lemma hw_leaf_4k m r va e :
  hw_leaf m r va = Some (0, e) →
  is_leaf e = true ∧ ∃ l0, table m r [vpn2 va; vpn1 va] = Some l0 ∧ e = m (l0 + 8 * vpn0 va).
Proof.
  unfold hw_leaf. cbn. unfold child. rewrite branch_or_leaf.
  destruct (is_valid (m (r + 8 * vpn2 va))) eqn:?; cbn; [| done].
  destruct (is_leaf (m (r + 8 * vpn2 va))) eqn:?; cbn; [done |].
  set (p1 := phys_addr _). rewrite branch_or_leaf.
  destruct (is_valid (m (p1 + 8 * vpn1 va))) eqn:?; cbn; [| done].
  destruct (is_leaf (m (p1 + 8 * vpn1 va))) eqn:?; cbn; [done |].
  destruct (is_leaf (m (_ + 8 * vpn0 va))) eqn:E; [| done].
  intros [= <-]. split; [done |]. by eexists.
Qed.

Lemma hw_leaf_2m m r va e :
  hw_leaf m r va = Some (1, e) →
  is_leaf e = true ∧ ∃ l1, table m r [vpn2 va] = Some l1 ∧ e = m (l1 + 8 * vpn1 va).
Proof.
  unfold hw_leaf. cbn. unfold child. rewrite branch_or_leaf.
  destruct (is_valid (m (r + 8 * vpn2 va))) eqn:?; cbn; [| done].
  destruct (is_leaf (m (r + 8 * vpn2 va))) eqn:?; cbn; [done |].
  set (p1 := phys_addr _).
  destruct (is_valid (m (p1 + 8 * vpn1 va))) eqn:?; cbn; [| done].
  destruct (is_leaf (m (p1 + 8 * vpn1 va))) eqn:?; cbn;
    [| by destruct (is_leaf (m (_ + 8 * vpn0 va)))].
  intros [= <-]. split; [done |]. by eexists.
Qed.

(** The frame of a 4K page. *)
Definition frame_4k (m : Z → Z) (r va : Z) : option Z :=
  match hw_leaf m r va with Some (0, e) => Some (phys_addr e) | _ => None end.

Lemma frame_4k_table m r va l0 :
  table m r [vpn2 va; vpn1 va] = Some l0 →
  let e := m (l0 + 8 * vpn0 va) in
  frame_4k m r va = (if is_leaf e then Some (phys_addr e) else None) ∧
  (is_leaf e = false → hw_leaf m r va = None).
Proof.
  intros Ht e.
  pose proof (hw_leaf_stops m r va [vpn2 va; vpn1 va] (vpn0 va) [] l0 eq_refl Ht) as E.
  cbn in E. fold e in E. unfold frame_4k. rewrite E by auto. by destruct (is_leaf e).
Qed.

Lemma unmap_run s bl roots root va :
  spaces_ok s bl roots → root ∈ roots →
  ∃ s', unmap_user_page_phys hart s root va = Done (frame_4k (mem s) root va, s') ∧
    spaces_ok s' bl roots ∧ same_rest s s' ∧
    (∀ y, in_use bl y → mem s' y = mem s y ∨ table_word (mem s) roots y) ∧
    ∀ r va', r ∈ roots → hw_leaf (mem s') r va' =
      if decide (r = root ∧ vpath va' = vpath va ∧ is_Some (frame_4k (mem s) root va))
      then None else hw_leaf (mem s) r va'.
Proof.
  intros Hok Hr. unfold unmap_user_page_phys.
  destruct (walk_run s bl roots root va false Hok Hr) as (o & s1 & k & -> & G & Hsame & Ho).
  destruct (Hsame eq_refl) as [-> ->]. clear Hsame. cbn [mbind outcome_bind]. unfold clear_leaf.
  destruct o as [[l0 idx] |].
  2: { assert (frame_4k (mem s) root va = None) as E.
       { unfold frame_4k. destruct (hw_leaf (mem s) root va) as [[k e] |] eqn:E; [| done].
         destruct k; [| done..]. apply hw_leaf_4k in E as (_ & l0 & E & _).
         destruct Ho as [Ho _]. congruence. }
       rewrite E. exists s. split_and!; try done; [by destruct s | auto |].
       intros r va' _. rewrite decide_False; [done |]. by intros (_ & _ & []). }
  destruct Ho as (Ht & -> & _). destruct (vpn_bounds va) as (_ & _ & H0).
  pose proof (so_owned _ _ _ Hok _ _ _ Hr (path_last va) Ht) as Hl0.
  rewrite (pte_at_run s bl) by (apply Hok || done). cbn [mbind outcome_bind].
  destruct (frame_4k_table _ _ _ _ Ht) as [-> Hnl].
  set (e := mem s (l0 + 8 * vpn0 va)) in *.
  replace (is_valid e && is_leaf e) with (is_leaf e)
    by (unfold is_leaf; by destruct (is_valid e)).
  destruct (is_leaf e) eqn:El.
  2: { exists s. split_and!; try done; [by destruct s | auto |].
       intros r va' _. rewrite decide_False; [done |]. by intros (_ & _ & []). }
  destruct (set_entry_run s bl roots root _ l0 (vpn0 va) 0 Hok Hr (path_last va) Ht H0
              ltac:(by left)) as (s2 & -> & R).
  cbn [mbind outcome_bind]. exists s2. split_and!; try apply R; [done | |].
  - intros y Hy. rewrite (rw_mem _ _ _ _ _ _ _ _ _ R).
    destruct (decide (y = l0 + 8 * vpn0 va)) as [-> | Hne]; [right | left; by rewrite write_word_ne].
    exists root, [vpn2 va; vpn1 va], l0. split_and!; [done | apply path_last | done |].
    unfold in_block, PAGE_SIZE. change (2 ^ 0) with 1. lia.
  - intros r va' Hr'. rewrite (rw_leaf _ _ _ _ _ _ _ _ _ R) by done. cbn [is_leaf].
    apply decide_ext. rewrite vpath_last. split; [intros [? ?]; eauto | by intros (? & ? & _)].
Qed.

(** ** New address spaces *)

(** A cleared page is an empty address space beside those there are. *)
Lemma new_root s s' bl roots q :
  spaces_ok s bl roots → fa_ok (frames s') ((q, 0) :: bl) →
  (∀ x, in_use bl x → mem s' x = mem s x) → (∀ i, 0 <= i < 512 → mem s' (q + 8 * i) = 0) →
  q ∉ roots ∧ spaces_ok s' ((q, 0) :: bl) (q :: roots) ∧
  (∀ va, hw_leaf (mem s') q va = None) ∧
  ∀ r va, r ∈ roots → hw_leaf (mem s') r va = hw_leaf (mem s) r va.
Proof.
  intros Hok Hf Hm Hz. pose proof (quiet_entries s bl roots (mem s') Hok Hm) as Hsame.
  assert (∀ r π, r ∈ roots → path π → table (mem s') r π = table (mem s) r π) as Ht.
  { intros r π Hr [? ?]. apply table_same, Hsame; [done | lia | done]. }
  assert (∀ π x, path π → table (mem s') q π = Some x → π = [] ∧ x = q) as Hnew.
  { intros [| i π] x [_ Hπ]; [by intros [= <-] |]. apply Forall_cons in Hπ as [Hi _].
    cbn. unfold child. by rewrite (Hz i Hi). }
  assert (∀ r π, r ∈ roots → path π → table (mem s') r π ≠ Some q) as Hnq.
  { intros r π Hr Hπ Hx. rewrite Ht in Hx by done.
    apply (fresh_page s' bl q q Hf); [by apply (so_owned _ _ _ Hok r π q) | done]. }
  split_and!.
  - intros Hin. apply (Hnq q []); [done | | done]. split; [cbn; lia | constructor].
  - split; [done | |].
    + intros r r' π π' x [-> | Hr]%elem_of_cons [-> | Hr']%elem_of_cons Hπ Hπ' Hx Hx'.
      * apply Hnew in Hx as [-> _]; [| done]. by apply Hnew in Hx' as [-> _].
      * apply Hnew in Hx as [-> ->]; [| done]. by destruct (Hnq r' π').
      * apply Hnew in Hx' as [-> ->]; [| done]. by destruct (Hnq r π).
      * rewrite Ht in Hx, Hx' by done. by apply (so_inj _ _ _ Hok _ _ _ _ x).
    + intros r π x [-> | Hr]%elem_of_cons Hπ Hx; apply elem_of_cons.
      * apply Hnew in Hx as [-> ->]; [by left | done].
      * rewrite Ht in Hx by done. right. by apply (so_owned _ _ _ Hok r π x).
  - intros va. destruct (vpn_bounds va) as (H2 & _ & _).
    rewrite (hw_leaf_stops (mem s') q va [] (vpn2 va) [vpn1 va; vpn0 va] q eq_refl eq_refl);
      rewrite (Hz _ H2); auto.
  - intros r va Hr. apply hw_leaf_same, Hsame; [done | cbn; lia | apply vpath_indices].
Qed.

(** [init_root_pt] gives an empty root. *)
Lemma init_root_run s bl roots :
  spaces_ok s bl roots →
  init_root_pt hart s = Panic ∨
  ∃ s' q, init_root_pt hart s = Done s' ∧ ROOT_PT s' = Some q ∧ q ∉ roots ∧
    spaces_ok s' ((q, 0) :: bl) (q :: roots) ∧
    (∀ va, hw_leaf (mem s') q va = None) ∧
    ∀ r va, r ∈ roots → hw_leaf (mem s') r va = hw_leaf (mem s) r va.
Proof.
  intros Hok. unfold init_root_pt.
  destruct (alloc_page_run s bl (so_frames _ _ _ Hok)) as (o & s1 & -> & R1 & M1 & B1 & F1).
  cbn [mbind outcome_bind]. destruct o as [q |]; [right | by left]. cbn [unwrap mbind outcome_bind].
  assert ((q, 0) ∈ (q, 0) :: bl) as Hq0 by set_solver.
  destruct (zero_run s1 _ q 0 F1 Hq0) as [E2 F2].
  replace (2 ^ 0 * PAGE_SIZE) with PAGE_SIZE in E2, F2 by done.
  rewrite E2. cbn [mbind outcome_bind]. set (s2 := stored s1 _) in *.
  assert (mem s2 = cleared (mem s1) q PAGE_SIZE) as M2 by apply mem_stored.
  set (s3 := s2 <| ROOT_PT := Some q |>). exists s3, q. split; [done |]. split; [done |].
  assert (mem s3 = cleared (mem s1) q PAGE_SIZE) as M3 by exact M2.
  apply (new_root s s3 bl roots q Hok F2); rewrite M3.
  - intros x Hx. rewrite cleared_out; [by apply M1 |]. intros Hin.
    apply (fa_disjoint _ bl q 0 x F1); [| done]. unfold in_block. change (2 ^ 0) with 1. lia.
  - intros i Hi. apply cleared_in. unfold PAGE_SIZE. lia.
Qed.

(** ** Translations *)

Definition rights (e : Z) : bool * bool * bool * bool :=
  (is_readable e, is_writable e, is_executable e, is_user e).

(** The rights the architecture accepts in a leaf. *)
Definition usable (r w x : bool) : bool := (r || w || x) && negb (w && negb r).

Lemma translate_same m m' r va :
  hw_leaf m' r va = hw_leaf m r va → translate m' r va = translate m r va.
Proof. unfold translate. by intros ->. Qed.

Lemma translate_none m r va : hw_leaf m r va = None → translate m r va = None.
Proof. unfold translate. intros ->. by destruct (negb _). Qed.

(** Translation through a leaf that the code wrote. *)
Lemma translate_leaf m r va k e p rd w x u :
  canonical va = true → hw_leaf m r va = Some (k, e) → leaf_says e p rd w x u →
  p mod 2 ^ (12 + 9 * k) = 0 →
  translate m r va =
    if negb (w && negb rd) then Some (p + va mod 2 ^ (12 + 9 * k), e) else None.
Proof.
  intros Hc Hl [_ _ Hp Hr Hw _ _] Hal. unfold translate. rewrite Hc, Hl. cbn [negb].
  rewrite Hp, Hr, Hw, Hal. by cbn [Z.eqb andb].
Qed.

(** C3. Mapping a page maps that page and nothing else.  In any set of address
    spaces, [map_page] returns; when it succeeds, every address of the page is
    translated to the same offset of the given frame with exactly the given
    rights, provided the architecture accepts them, and every other address,
    of this or of another address space, is translated as before.  It fails
    exactly when the page lies in a huge page or the hart can be given fewer pages
    than tables are missing on the way to the entry, and then no translation
    changes.  A success takes exactly as many pages as tables were missing.  Either
    way the address spaces stay disjoint trees, and no data in use is written. *)
Theorem map_page_correct (s : @vm A) (bl : list (Z * Z)) (roots : list Z)
    (root va pa : Z) (r w x u : bool) :
  spaces_ok s bl roots → root ∈ roots → canonical va = true → frame_addr pa →
  ∃ res s' k, map_page hart s root va pa r w x u = Done (res, s') ∧
    spaces_ok s' (k ++ bl) roots ∧
    (∀ y, in_use bl y → ¬ table_word (mem s) roots y → mem s' y = mem s y) ∧
    match res with
    | Ok _ =>
        (∀ va', canonical va' = true → va' / 4096 = va / 4096 →
           if usable r w x
           then ∃ e, translate (mem s') root va' = Some (pa + va' mod 4096, e) ∧
                     rights e = (r, w, x, u)
           else translate (mem s') root va' = None) ∧
        (∀ r' va', r' ∈ roots → r' ≠ root ∨ va' / 4096 ≠ va / 4096 →
           translate (mem s') r' va' = translate (mem s) r' va') ∧
        ¬ no_room s root va ∧ free_frames s' = free_frames s - missing (mem s) root va
    | Err _ => no_room s root va ∧
        ∀ r' va', r' ∈ roots → translate (mem s') r' va' = translate (mem s) r' va'
    end.
Proof.
  intros Hok Hr Hc Hpa.
  destruct (map_page_run s bl roots root va pa r w x u Hok Hr)
    as (res & s' & k & E & Hok' & _ & Hd & _ & [Hfree Hres] & Hl). cbn zeta in Hl.
  exists res, s', k. split_and!; [done | done | intros y Hy Hn; by destruct (Hd y Hy) |].
  destruct res as [[] | e]; [| split; [done | intros; by apply translate_same, Hl]].
  destruct Hres as [Hk Hroom].
  pose proof (leaf_pte_spec pa r w x u Hpa) as Hs. set (e := leaf_pte pa r w x u) in *. split; [| split; [| by rewrite Hfree, Hk]].
  - intros va' Hc' Hpg. pose proof (proj2 (vpath_page va va' Hc Hc') Hpg) as Hv.
    specialize (Hl root va' Hr). rewrite decide_True, (ls_leaf _ _ _ _ _ _ Hs) in Hl by done.
    unfold usable. destruct (r || w || x); cbn [andb]; [| by apply translate_none].
    pose proof (translate_leaf _ _ _ _ _ _ _ _ _ _ Hc' Hl Hs (proj1 Hpa)) as Ht.
    destruct (negb (w && negb r)); [| done]. exists e. split; [done |].
    unfold rights. by rewrite (ls_r _ _ _ _ _ _ Hs), (ls_w _ _ _ _ _ _ Hs),
      (ls_x _ _ _ _ _ _ Hs), (ls_u _ _ _ _ _ _ Hs).
  - intros r' va' Hr' Hne. destruct (canonical va') eqn:Hc'.
    + apply translate_same. rewrite Hl, decide_False; [done | | done].
      intros [-> Hv%vpath_page]; [by destruct Hne | done | done].
    + unfold translate. by rewrite Hc'.
Qed.

(** Unmapping takes back exactly one page, and undoes mapping.
    [unmap_user_page_phys] returns the frame of a mapped 4K page, or nothing for
    an address without one; then the addresses of the page are not translated
    any more and all others are as before.  In particular, unmapping a page
    right after mapping it where nothing was mapped returns the frame and
    brings back every translation. *)
Theorem map_unmap_roundtrip (s s1 : @vm A) (bl : list (Z * Z)) (roots : list Z)
    (root va pa : Z) (r w x u : bool) :
  spaces_ok s bl roots → root ∈ roots → canonical va = true → frame_addr pa →
  (∃ s', unmap_user_page_phys hart s root va = Done (frame_4k (mem s) root va, s') ∧
     spaces_ok s' bl roots ∧
     ∀ r' va', r' ∈ roots → translate (mem s') r' va' =
       if decide (r' = root ∧ va' / 4096 = va / 4096 ∧ is_Some (frame_4k (mem s) root va))
       then None else translate (mem s) r' va') ∧
  (usable r w x = true → hw_leaf (mem s) root va = None →
   map_page hart s root va pa r w x u = Done (Ok (), s1) →
   ∃ s2, unmap_user_page_phys hart s1 root va = Done (Some pa, s2) ∧
     ∀ r' va', r' ∈ roots → translate (mem s2) r' va' = translate (mem s) r' va').
Proof.
  intros Hok Hr Hc Hpa. split.
  - destruct (unmap_run s bl roots root va Hok Hr) as (s' & E & Hok' & _ & _ & Hl).
    exists s'. split_and!; [done | done |]. intros r' va' Hr'. destruct (canonical va') eqn:Hc'.
    + specialize (Hl r' va' Hr').
      pose proof (vpath_page_iff (r' = root) (is_Some (frame_4k (mem s) root va)) _ _ Hc Hc') as Hi.
      case_decide as D1; case_decide as D2; [by apply translate_none | by destruct D2; apply Hi
        | by destruct D1; apply Hi | by apply translate_same].
    + unfold translate. rewrite Hc'. by case_decide.
  - intros Hus Hn Em.
    destruct (map_page_run s bl roots root va pa r w x u Hok Hr)
      as (res & s' & k' & E & Hok' & _ & _ & _ & _ & Hl). cbn zeta in Hl.
    rewrite Em in E. injection E as <- <-.
    pose proof (leaf_pte_spec pa r w x u Hpa) as Hs.
    assert (frame_4k (mem s1) root va = Some pa) as Hf.
    { unfold frame_4k. rewrite Hl, decide_True by done. rewrite (ls_leaf _ _ _ _ _ _ Hs).
      unfold usable in Hus. destruct (r || w || x); [| done]. by rewrite (ls_phys _ _ _ _ _ _ Hs). }
    destruct (unmap_run s1 _ roots root va Hok' Hr) as (s2 & E2 & _ & _ & _ & Hl2).
    rewrite Hf in E2, Hl2. exists s2. split; [done |]. intros r' va' Hr'.
    apply translate_same. rewrite Hl2 by done. case_decide as D.
    + destruct D as (-> & Hv & _). rewrite <-Hn. unfold hw_leaf, vpath in *.
      by injection Hv as -> -> ->.
    + rewrite Hl by done. rewrite decide_False; [done |]. intros [-> Hv]. by destruct D.
Qed.

(** ** The check of user memory *)

(** What [is_user_addr_valid] looks at: the last-level entry, if there is one. *)
Definition user_entry (m : Z → Z) (r va : Z) : bool :=
  match table m r [vpn2 va; vpn1 va] with
  | Some l0 => let e := m (l0 + 8 * vpn0 va) in is_valid e && is_user e
  | None => false
  end.

Lemma user_addr_run s bl roots root va :
  spaces_ok s bl roots → root ∈ roots →
  is_user_addr_valid hart s root va = Done (user_entry (mem s) root va).
Proof.
  intros Hok Hr. unfold is_user_addr_valid, user_entry.
  destruct (walk_run s bl roots root va false Hok Hr) as (o & s1 & k & -> & _ & Hsame & Ho).
  destruct (Hsame eq_refl) as [-> _]. cbn [mbind outcome_bind].
  destruct o as [[l0 idx] |]; [destruct Ho as (Ht & -> & _) | by destruct Ho as [-> _]].
  pose proof (so_owned _ _ _ Hok _ _ _ Hr (path_last va) Ht) as Hl0.
  destruct (vpn_bounds va) as (_ & _ & H0).
  rewrite Ht, (pte_at_run s bl) by (apply Hok || done). done.
Qed.

Lemma user_entry_page m r va : user_entry m r (va / 4096 * 4096) = user_entry m r va.
Proof.
  assert (vpath (va / 4096 * 4096) = vpath va) as E by (apply vpath_div; by rewrite Z.div_mul).
  unfold vpath in E. injection E as E2 E1 E0. unfold user_entry. by rewrite E2, E1, E0.
Qed.

(** A user entry never stands for a supervisor page. *)
Lemma user_entry_leaf m r va k e :
  user_entry m r va = true → hw_leaf m r va = Some (k, e) → k = 0 ∧ is_user e = true.
Proof.
  unfold user_entry. destruct (table m r [vpn2 va; vpn1 va]) as [l0 |] eqn:Ht; [| done].
  intros [_ Hu]%andb_true_iff.
  rewrite (hw_leaf_stops m r va [vpn2 va; vpn1 va] (vpn0 va) [] l0 eq_refl Ht) by auto.
  destruct (is_leaf _); [| done]. by intros [= <- <-].
Qed.

(** The loop over the last [n] pages up to [end_page]. *)
Lemma range_loop_run s bl roots root end_page n page :
  spaces_ok s bl roots → root ∈ roots → 0 <= end_page < 2 ^ 64 → end_page mod 4096 = 0 →
  (n = 0%nat ∧ end_page < page) ∨ (0 <= page ∧ page = end_page + 4096 - Z.of_nat n * 4096) →
  range_valid_loop hart n s root page end_page =
    Done (forallb (λ q, user_entry (mem s) root (q * 4096))
            (zseq (end_page / 4096 + 1 - Z.of_nat n) (Z.of_nat n))).
Proof.
  intros Hok Hr He Hal. revert page. induction n as [| n IH]; intros page Hp.
  { cbn. destruct (end_page <? page) eqn:E; bools; [done | lia]. }
  destruct Hp as [[? _] | [Hp0 Hp]]; [done |]. cbn [range_valid_loop].
  destruct (end_page <? page) eqn:E; bools; [lia |].
  rewrite (user_addr_run s bl roots) by done. cbn [mbind outcome_bind].
  rewrite zseq_cons by lia. cbn [forallb].
  replace ((end_page / 4096 + 1 - Z.of_nat (S n)) * 4096) with page by dlia.
  destruct (user_entry (mem s) root page); cbn [negb andb]; [| done].
  rewrite IH.
  - f_equal. f_equal. f_equal; lia.
  - unfold PAGE_SIZE. destruct n; [left; dlia | right; lia].
Qed.

Lemma page_align_down_eq va : page_align_down va = va / 4096 * 4096.
Proof. unfold page_align_down. apply (ldiff_low va 12). lia. Qed.

(** The last byte that [is_user_range_valid] checks lies before this address. *)
Definition range_end (va len : Z) : Z := Z.min (va + len) (2 ^ 64 - 1).

Lemma range_check_run s bl roots root va len :
  spaces_ok s bl roots → root ∈ roots → fits 64 va → fits 64 len → va < 2 ^ 64 - 1 →
  ∃ b, is_user_range_valid hart s root va len = Done b ∧
    (b = true ↔ ∀ x, va <= x < range_end va len → user_entry (mem s) root x = true).
Proof.
  unfold fits. intros Hok Hr Hv Hl Hlast. unfold is_user_range_valid.
  destruct (len =? 0) eqn:E0; bools.
  { exists true. split; [done |]. split; [| done]. unfold range_end. lia. }
  rewrite !page_align_down_eq. fold (range_end va len).
  assert (va < range_end va len) by (unfold range_end; lia).
  rewrite (Z.max_l (range_end va len - 1) 0) by lia.
  set (last := range_end va len - 1) in *.
  assert (0 <= last < 2 ^ 64 ∧ va <= last) as [Hlb Hvl] by (unfold last, range_end; lia).
  rewrite (range_loop_run s bl roots) by (done || (try right; unfold PAGE_SIZE; dlia)).
  eexists. split; [reflexivity |]. rewrite forallb_forall. split.
  - intros Hall x Hx. rewrite <-user_entry_page. apply Hall. apply list_elem_of_In, elem_of_zseq.
    unfold PAGE_SIZE. dlia.
  - intros Hall q Hq%list_elem_of_In%elem_of_zseq.
    destruct (decide (q * 4096 < va)).
    + replace (q * 4096) with (va / 4096 * 4096) by (unfold PAGE_SIZE in Hq; dlia).
      rewrite user_entry_page. apply Hall. lia.
    + apply Hall. unfold PAGE_SIZE in Hq. dlia.
Qed.

(** C26. The check of user memory is exact about what it looks at.
    [is_user_range_valid] returns; it accepts a range exactly when every byte of
    it (up to the top of the address space, where the end saturates) has a
    last-level entry that is valid and marked user.  So a range it accepts
    contains no byte that is translated to a supervisor page, and it accepts
    every range whose bytes all lie in readable 4K user pages. *)
Theorem range_check_exact (s : @vm A) (bl : list (Z * Z)) (roots : list Z) (root va len : Z) :
  spaces_ok s bl roots → root ∈ roots → fits 64 va → fits 64 len → va < 2 ^ 64 - 1 →
  ∃ b, is_user_range_valid hart s root va len = Done b ∧
    (b = true ↔ ∀ x, va <= x < range_end va len → user_entry (mem s) root x = true) ∧
    (b = true → ∀ x pa e, va <= x < range_end va len →
       translate (mem s) root x = Some (pa, e) → is_user e = true) ∧
    ((∀ x, va <= x < range_end va len →
       ∃ e, hw_leaf (mem s) root x = Some (0, e) ∧ is_user e = true) → b = true).
Proof.
  intros Hok Hr Hv Hl Hlast.
  destruct (range_check_run s bl roots root va len) as (b & E & Hb); try done.
  exists b. split_and!; [done | done | |].
  - intros Hbt x pa e Hx Ht. pose proof (proj1 Hb Hbt x Hx) as Hu. unfold translate in Ht.
    destruct (negb (canonical x)); [done |].
    destruct (hw_leaf (mem s) root x) as [[k e'] |] eqn:El; [| done].
    destruct (_ && _); [| done]. injection Ht as _ <-. by eapply user_entry_leaf.
  - intros Hall. apply Hb. intros x Hx. destruct (Hall x Hx) as (e & El & Hu).
    apply hw_leaf_4k in El as (Hle & l0 & Ht & ->). unfold user_entry. rewrite Ht, Hu.
    unfold is_leaf in Hle. by apply andb_true_iff in Hle as [-> _].
Qed.

(** ** Write xor execute *)

(** What the sweep makes of an entry, and of a leaf: gigapages are skipped. *)
Definition no_wx (e : Z) : Z := default e (fix_wx e).
Definition no_wx_leaf (l : Z * Z) : Z * Z := (l.1, if l.1 =? 2 then l.2 else no_wx l.2).

Lemma set_flags_says e r w x u :
  leaf_says (set_flags e r w x u) (phys_addr e) r w x u.
Proof.
  rewrite set_flags_eq. pose proof (flag_bits_bound r w x u) as Hf.
  set (f := flag_bits r w x u) in *.
  assert (e / 256 * 256 + f = made (e / 1024) ((e / 256) mod 4 * 256 + f)) as ->
    by (unfold made; dlia).
  assert (0 <= (e / 256) mod 4 * 256 + f < 1024) as Hb by dlia.
  assert (∀ k, 0 <= k < 8 → Z.testbit ((e / 256) mod 4 * 256 + f) k = Z.testbit f k) as Hk.
  { intros k Hk. rewrite <-(Z.mod_pow2_bits_low _ 8 k) by lia. change (2 ^ 8) with 256.
    by rewrite Z.add_comm, Z_mod_plus_full, Z.mod_small by lia. }
  assert (phys_addr (made (e / 1024) ((e / 256) mod 4 * 256 + f)) = phys_addr e) as Hp.
  { rewrite !phys_addr_eq. unfold made. by rewrite Z.div_add_l, (Z.div_small (_ + f)), Z.add_0_r by lia. }
  split; unfold is_readable, is_writable, is_executable, is_user; try done;
    rewrite ?bit_testbit, ?is_leaf_bits, ?is_branch_bits, ?made_bit, ?Hk by lia;
    unfold f; by destruct r, w, x, u.
Qed.

Lemma leaf_valid e : is_leaf e = true → is_valid e = true.
Proof. unfold is_leaf. by destruct (is_valid e). Qed.

Lemma writable_leaf e : is_valid e = true → is_writable e = true → is_leaf e = true.
Proof.
  unfold is_writable. rewrite is_leaf_bits, is_valid_bit, bit_testbit by lia. intros -> ->.
  by destruct (Z.testbit e 1).
Qed.

Lemma fix_wx_some e e' :
  fix_wx e = Some e' →
  is_user e = true ∧ is_writable e = true ∧ is_executable e = true ∧
  leaf_says e' (phys_addr e) (is_readable e) true false true.
Proof.
  unfold fix_wx. destruct (is_user e) eqn:U, (is_writable e) eqn:W, (is_executable e) eqn:X;
    cbn; try done.
  intros [= <-]. split_and!; [done..|]. apply set_flags_says.
Qed.

(** The sweep keeps the frame and all rights but that to execute. *)
Lemma no_wx_says e :
  is_leaf e = true →
  leaf_says (no_wx e) (phys_addr e) (is_readable e) (is_writable e)
    (is_executable e && negb (is_user e && is_writable e)) (is_user e).
Proof.
  intros Hl. unfold no_wx. destruct (fix_wx e) as [e' |] eqn:E; cbn [from_option id].
  - apply fix_wx_some in E as (-> & -> & -> & Hs). exact Hs.
  - unfold fix_wx in E.
    replace (is_executable e && negb (is_user e && is_writable e)) with (is_executable e)
      by (destruct (is_user e), (is_writable e), (is_executable e); done).
    split; try done; rewrite ?branch_or_leaf, ?(leaf_valid e Hl), ?Hl; unfold is_readable,
      is_writable, is_executable; rewrite !bit_testbit by lia; rewrite is_leaf_bits in Hl;
      apply andb_true_iff in Hl as [_ ->]; done.
Qed.

Lemma no_wx_idem e : no_wx (no_wx e) = no_wx e.
Proof.
  unfold no_wx. destruct (fix_wx e) as [e' |] eqn:E; cbn [from_option id]; [| by rewrite E].
  apply fix_wx_some in E as (_ & _ & _ & Hs). unfold fix_wx.
  by rewrite (ls_x _ _ _ _ _ _ Hs), andb_false_r.
Qed.

Lemma no_wx_leaf_idem l : no_wx_leaf (no_wx_leaf l) = no_wx_leaf l.
Proof. destruct l as [k e]. unfold no_wx_leaf. cbn. by destruct (k =? 2); rewrite ?no_wx_idem. Qed.

(** [s] is [s0] with the sweep done for the addresses of [D] at least, and
    only in the user half of one address space. *)
Record swept (s0 : vm) (bl : list (Z * Z)) (roots : list Z) (root : Z) (D : Z → Prop) (s : vm) : Prop := {
  sw_ok : spaces_ok s bl roots;
  sw_rest : same_rest s0 s;
  sw_table r π : r ∈ roots → path π → table (mem s) r π = table (mem s0) r π;
  sw_leaf r va : r ∈ roots → hw_leaf (mem s) r va = hw_leaf (mem s0) r va ∨
    r = root ∧ vpn2 va < 256 ∧ hw_leaf (mem s) r va = no_wx_leaf <$> hw_leaf (mem s0) r va;
  sw_done va : D va → vpn2 va < 256 ∧ hw_leaf (mem s) root va = no_wx_leaf <$> hw_leaf (mem s0) root va;
  sw_data x : ¬ table_word (mem s0) roots x → mem s x = mem s0 x;
}.

Section sweep.
Context (s0 : @vm A) (bl : list (Z * Z)) (roots : list Z) (root : Z).
Hypothesis Hroot : root ∈ roots.

Lemma swept_weaken D D' s :
  swept s0 bl roots root D s → (∀ va, D' va → D va) → swept s0 bl roots root D' s.
Proof. intros Hs HD. destruct Hs. split; try done. auto. Qed.

Lemma swept_refl : spaces_ok s0 bl roots → swept s0 bl roots root (λ _, False) s0.
Proof. intros Hok. split; try done; [by destruct s0 | auto]. Qed.

(** One more part [P] of the address space. *)
Lemma swept_step D (P : Z → Prop) s s' :
  swept s0 bl roots root D s → spaces_ok s' bl roots → same_rest s s' →
  (∀ r π, r ∈ roots → path π → table (mem s') r π = table (mem s) r π) →
  (∀ va, P va → vpn2 va < 256) →
  (∀ r va, r ∈ roots → (r = root ∧ P va) ∧ hw_leaf (mem s') r va = no_wx_leaf <$> hw_leaf (mem s) r va
     ∨ ¬ (r = root ∧ P va) ∧ hw_leaf (mem s') r va = hw_leaf (mem s) r va) →
  (∀ x, ¬ table_word (mem s0) roots x → mem s' x = mem s x) →
  swept s0 bl roots root (λ va, D va ∨ P va) s'.
Proof.
  intros Hs Hok Hr Ht HP Hl Hx.
  assert (∀ r va, r ∈ roots → hw_leaf (mem s') r va = no_wx_leaf <$> hw_leaf (mem s) r va →
            hw_leaf (mem s) r va = no_wx_leaf <$> hw_leaf (mem s0) r va ∨
            hw_leaf (mem s) r va = hw_leaf (mem s0) r va →
            hw_leaf (mem s') r va = no_wx_leaf <$> hw_leaf (mem s0) r va) as Hidem.
  { intros r va _ -> [-> | ->]; [| done]. rewrite <-option_fmap_compose.
    apply option_fmap_ext. intros l. apply no_wx_leaf_idem. }
  split; [done | | | | |].
  - eapply same_rest_trans; [apply Hs | done].
  - intros r π Hr' Hπ. rewrite Ht by done. by apply Hs.
  - intros r va Hr'. pose proof (sw_leaf _ _ _ _ _ _ Hs r va Hr') as Hor.
    destruct (Hl r va Hr') as [[[-> HPva] E] | [_ ->]]; [right | done].
    split_and!; [done | by apply HP |]. apply Hidem; [done | done |]. destruct Hor as [| (_ & _ & ?)]; auto.
  - intros va HD. pose proof (sw_leaf _ _ _ _ _ _ Hs root va Hroot) as Hor.
    destruct (Hl root va Hroot) as [[[_ HPva] E] | [Hn ->]].
    + split; [by apply HP |]. apply Hidem; [done | done |]. destruct Hor as [| (_ & _ & ?)]; auto.
    + destruct HD as [HD | HD]; [by apply (sw_done _ _ _ _ _ _ Hs) | by destruct Hn].
  - intros x Hn. rewrite Hx by done. by apply Hs.
Qed.

(** Nothing to do where the leaves are fixed points. *)
Lemma swept_skip D (P : Z → Prop) s :
  swept s0 bl roots root D s → (∀ va, P va → vpn2 va < 256) → (∀ va, Decision (P va)) →
  (∀ va, P va → no_wx_leaf <$> hw_leaf (mem s) root va = hw_leaf (mem s) root va) →
  swept s0 bl roots root (λ va, D va ∨ P va) s.
Proof.
  intros Hs HP Hdec Hl. apply (swept_step D P s s); try done; [apply Hs | by destruct s |].
  intros r va Hr. destruct (decide (r = root)) as [-> |]; [| right; naive_solver].
  destruct (Hdec va); [left; by rewrite Hl | right; naive_solver].
Qed.

(** The entry at the end of the walk, fixed. *)
Lemma fix_entry_run D s n π p i :
  swept s0 bl roots root D s → path π → table (mem s0) root π = Some p → 0 <= i < 512 →
  (∃ a π', π = a :: π' ∧ a < 256) →
  let e := mem s (p + 8 * i) in
  is_valid e = true → length π = 2%nat ∨ is_leaf e = true →
  ∃ s' n', fix_entry s p i e n = Done (s', n') ∧
    swept s0 bl roots root (λ va, D va ∨ (π ++ [i]) `prefix_of` vpath va) s'.
Proof.
  intros Hs Hπ Hp Hi (a & π' & -> & Ha) e Hv Hend.
  assert (table (mem s) root (a :: π') = Some p) as Hp' by by rewrite (sw_table _ _ _ _ _ _ Hs).
  assert (∀ va, ((a :: π') ++ [i]) `prefix_of` vpath va → vpn2 va < 256) as HP.
  { intros va [σ E]. unfold vpath in E. by injection E as -> _. }
  assert (∀ va, ((a :: π') ++ [i]) `prefix_of` vpath va → hw_leaf (mem s) root va =
            if is_leaf e then Some (1 - Z.of_nat (length π'), e) else None) as Hcur.
  { intros va [σ E]. pose proof (f_equal length E) as El. rewrite !length_app in El. cbn in El.
    rewrite (hw_leaf_stops (mem s) root va (a :: π') i σ p); [| by rewrite E, <-app_assoc | done |].
    - fold e. destruct (is_leaf e); [| done]. do 2 f_equal. lia.
    - fold e. right. destruct Hend as [Hl | ?]; [right | by left]. cbn in Hl.
      apply length_zero_iff_nil. lia. }
  assert ((1 - Z.of_nat (length π') =? 2) = false) as Hk by (apply Z.eqb_neq; lia).
  unfold fix_entry. destruct (fix_wx e) as [e' |] eqn:E.
  - pose proof (fix_wx_some _ _ E) as (_ & Hw & _ & Hs').
    pose proof (writable_leaf e Hv Hw) as Hl.
    destruct (set_entry_run s bl roots root (a :: π') p i e' (sw_ok _ _ _ _ _ _ Hs) Hroot Hπ Hp' Hi)
      as (s' & -> & R).
    { right. fold e. rewrite (ls_branch _ _ _ _ _ _ Hs'), branch_or_leaf, Hl, andb_false_r.
      split; [done |]. by destruct (is_readable e). }
    cbn [mbind outcome_bind]. eexists s', _. split; [reflexivity |].
    apply (swept_step D _ s s'); try apply R; try done.
    2: { intros x Hx. rewrite (rw_mem _ _ _ _ _ _ _ _ _ R). apply write_word_ne. intros ->. apply Hx.
         exists root, (a :: π'), p. split_and!; try done. unfold in_block, PAGE_SIZE. change (2 ^ 0) with 1. lia. }
    intros r va Hr. rewrite (rw_leaf _ _ _ _ _ _ _ _ _ R) by done.
    case_decide as Dd; [left; split; [done |] | by right]. destruct Dd as [-> Hpre].
    rewrite (Hcur va Hpre), Hl, (ls_leaf _ _ _ _ _ _ Hs'). cbn [fmap option_fmap option_map].
    unfold no_wx_leaf, no_wx. cbn [fst snd]. rewrite Hk, E. cbn [from_option id].
    rewrite orb_true_r. cbn [orb length]. do 2 f_equal. lia.
  - eexists s, n. split; [done |]. apply swept_skip; try done; [intros; apply _ |].
    intros va Hpre. rewrite (Hcur va Hpre). destruct (is_leaf e); [| done]. cbn.
    unfold no_wx_leaf, no_wx. cbn [fst snd]. by rewrite Hk, E.
Qed.

Lemma prefix_3 a b c va :
  [a; b; c] `prefix_of` vpath va ↔ vpn2 va = a ∧ vpn1 va = b ∧ vpn0 va = c.
Proof.
  unfold vpath. split.
  - intros [σ E]. by injection E as -> -> ->.
  - intros (-> & -> & ->). by exists [].
Qed.

Lemma prefix_2 a b va : [a; b] `prefix_of` vpath va ↔ vpn2 va = a ∧ vpn1 va = b.
Proof.
  unfold vpath. split.
  - intros [σ E]. by injection E as -> ->.
  - intros (-> & ->). by exists [vpn0 va].
Qed.

Lemma path_1 a : 0 <= a < 512 → path [a].
Proof. intros Ha. split; [cbn; lia |]. by apply Forall_singleton. Qed.

Lemma path_2 a b : 0 <= a < 512 → 0 <= b < 512 → path [a; b].
Proof. intros Ha Hb. split; [cbn; lia |]. unfold indices. by rewrite !Forall_cons. Qed.

(** An entry that is not valid ends the walk with nothing. *)
Lemma hw_leaf_invalid m r va π i p :
  (π ++ [i]) `prefix_of` vpath va → table m r π = Some p → is_valid (m (p + 8 * i)) = false →
  hw_leaf m r va = None.
Proof.
  intros [σ E] Hp Hv.
  rewrite (hw_leaf_stops m r va π i σ p); [| by rewrite E, <-app_assoc | done | by left].
  unfold is_leaf. by rewrite Hv.
Qed.

Lemma wx_l0_run a b l0 D s n i :
  swept s0 bl roots root D s → 0 <= a < 256 → 0 <= b < 512 → 0 <= i < 512 →
  table (mem s0) root [a; b] = Some l0 →
  ∃ s' n', wx_l0 l0 (s, n) i = Done (s', n') ∧
    swept s0 bl roots root (λ va, D va ∨ [a; b; i] `prefix_of` vpath va) s'.
Proof.
  intros Hs Ha Hb Hi Ht. pose proof (path_2 a b ltac:(lia) Hb) as Hπ.
  assert (table (mem s) root [a; b] = Some l0) as Ht' by by rewrite (sw_table _ _ _ _ _ _ Hs).
  pose proof (so_owned _ _ _ (sw_ok _ _ _ _ _ _ Hs) _ _ _ Hroot Hπ Ht') as Hl0.
  unfold wx_l0. rewrite (pte_at_run s bl) by (apply (sw_ok _ _ _ _ _ _ Hs) || done).
  cbn [mbind outcome_bind]. destruct (is_valid (mem s (l0 + 8 * i))) eqn:V; cbn [negb].
  - apply (fix_entry_run D s n [a; b] l0 i); try done; [| by left]. exists a, [b]. split; [done | lia].
  - exists s, n. split; [done |]. apply swept_skip; try done; [| intros; apply _ |].
    + intros va Hp%prefix_3. lia.
    + intros va Hp. by rewrite (hw_leaf_invalid _ _ _ [a; b] i l0).
Qed.

(** A whole last-level table. *)
Lemma wx_table_run a b l0 D s n :
  swept s0 bl roots root D s → 0 <= a < 256 → 0 <= b < 512 → table (mem s0) root [a; b] = Some l0 →
  ∃ s' n', for_each (wx_l0 l0) (s, n) (zseq 0 512) = Done (s', n') ∧
    swept s0 bl roots root (λ va, D va ∨ [a; b] `prefix_of` vpath va) s'.
Proof.
  intros Hs Ha Hb Ht.
  set (I i (sf : vm * Z) := swept s0 bl roots root
         (λ va, D va ∨ ∃ c, 0 <= c < i ∧ [a; b; c] `prefix_of` vpath va) sf.1).
  destruct (for_each_inv I (wx_l0 l0) 0 512 (s, n)) as ([s' n'] & E & HI); [lia | | |].
  - eapply swept_weaken; [exact Hs |]. intros va [? | (c & ? & _)]; [done | lia].
  - intros i [t k] Hi HI. unfold I in HI. cbn [fst] in HI.
    destruct (wx_l0_run a b l0 _ t k i HI Ha Hb ltac:(lia) Ht) as (t' & k' & E & HI').
    exists (t', k'). split; [done |]. eapply swept_weaken; [exact HI' |].
    intros va [? | (c & Hc & ?)]; [tauto |]. destruct (decide (c = i)) as [-> |]; [by right |].
    left. right. exists c. split; [lia | done].
  - exists s', n'. split; [done |]. eapply swept_weaken; [exact HI |].
    intros va [? | Hp%prefix_2]; [by left | right]. exists (vpn0 va).
    rewrite prefix_3. split; [apply vpn_bounds | tauto].
Qed.

Lemma wx_l1_run a l1 D s n b :
  swept s0 bl roots root D s → 0 <= a < 256 → 0 <= b < 512 → table (mem s0) root [a] = Some l1 →
  ∃ s' n', wx_l1 l1 (s, n) b = Done (s', n') ∧
    swept s0 bl roots root (λ va, D va ∨ [a; b] `prefix_of` vpath va) s'.
Proof.
  intros Hs Ha Hb Ht. pose proof (path_1 a ltac:(lia)) as Hπ.
  assert (table (mem s) root [a] = Some l1) as Ht' by by rewrite (sw_table _ _ _ _ _ _ Hs).
  pose proof (so_owned _ _ _ (sw_ok _ _ _ _ _ _ Hs) _ _ _ Hroot Hπ Ht') as Hl1.
  unfold wx_l1. rewrite (pte_at_run s bl) by (apply (sw_ok _ _ _ _ _ _ Hs) || done).
  cbn [mbind outcome_bind]. set (e := mem s (l1 + 8 * b)) in *.
  destruct (is_valid e) eqn:V; cbn [negb].
  2: { exists s, n. split; [done |]. apply swept_skip; try done; [| intros; apply _ |].
       - intros va Hp%prefix_2. lia.
       - intros va Hp. by rewrite (hw_leaf_invalid _ _ _ [a] b l1). }
  destruct (is_leaf e) eqn:L.
  - apply (fix_entry_run D s n [a] l1 b); try done; [| by right]. exists a, []. split; [done | lia].
  - apply (wx_table_run a b); try done.
    rewrite <-(sw_table _ _ _ _ _ _ Hs) by (done || apply path_2; lia).
    change [a; b] with ([a] ++ [b]). rewrite table_snoc, Ht'. cbn. unfold child.
    fold e. by rewrite branch_or_leaf, V, L.
Qed.

Lemma wx_l2_run D s n a :
  swept s0 bl roots root D s → 0 <= a < 256 →
  ∃ s' n', wx_l2 root (s, n) a = Done (s', n') ∧
    swept s0 bl roots root (λ va, D va ∨ vpn2 va = a) s'.
Proof.
  intros Hs Ha. pose proof (sw_ok _ _ _ _ _ _ Hs) as Hok.
  pose proof (so_owned _ _ _ Hok root [] root Hroot ltac:(split; [cbn; lia | constructor]) eq_refl) as Hr.
  unfold wx_l2. rewrite (pte_at_run s bl) by (apply Hok || done || lia).
  cbn [mbind outcome_bind]. set (e := mem s (root + 8 * a)) in *.
  destruct (negb (is_valid e) || is_leaf e) eqn:C.
  { exists s, n. split; [done |]. apply swept_skip; try done; [lia | intros; apply _ |].
    intros va Hp. rewrite (hw_leaf_stops (mem s) root va [] a [vpn1 va; vpn0 va] root);
      [| by rewrite <-Hp | done |]; fold e.
    - by destruct (is_leaf e).
    - destruct (is_valid e), (is_leaf e); auto. }
  apply orb_false_iff in C as [V%negb_false_iff L].
  assert (table (mem s0) root [a] = Some (phys_addr e)) as Ht.
  { rewrite <-(sw_table _ _ _ _ _ _ Hs) by (done || apply path_1; lia). cbn. unfold child. fold e.
    by rewrite branch_or_leaf, V, L. }
  set (I i (sf : vm * Z) := swept s0 bl roots root
         (λ va, D va ∨ ∃ b, 0 <= b < i ∧ [a; b] `prefix_of` vpath va) sf.1).
  destruct (for_each_inv I (wx_l1 (phys_addr e)) 0 512 (s, n)) as ([s' n'] & E & HI); [lia | | |].
  - eapply swept_weaken; [exact Hs |]. intros va [? | (c & ? & _)]; [done | lia].
  - intros i [t k] Hi HI. unfold I in HI. cbn [fst] in HI.
    destruct (wx_l1_run a _ _ t k i HI Ha ltac:(lia) Ht) as (t' & k' & E & HI').
    exists (t', k'). split; [done |]. eapply swept_weaken; [exact HI' |].
    intros va [? | (c & Hc & ?)]; [tauto |]. destruct (decide (c = i)) as [-> |]; [by right |].
    left. right. exists c. split; [lia | done].
  - exists s', n'. split; [done |]. eapply swept_weaken; [exact HI |].
    intros va [? | Hp]; [by left | right]. exists (vpn1 va).
    rewrite prefix_2. split; [apply vpn_bounds | done].
Qed.

Lemma force_wxorx_run :
  spaces_ok s0 bl roots →
  ∃ s' n, force_wxorx s0 root = Done (s', n) ∧ swept s0 bl roots root (λ va, vpn2 va < 256) s'.
Proof.
  intros Hok. unfold force_wxorx.
  set (I i (sf : vm * Z) := swept s0 bl roots root (λ va, 0 <= vpn2 va < i) sf.1).
  destruct (for_each_inv I (wx_l2 root) 0 256 (s0, 0)) as ([s' n] & E & HI); [lia | | |].
  - eapply swept_weaken; [by apply swept_refl |]. cbn. lia.
  - intros i [t k] Hi HI. unfold I in HI. cbn [fst] in HI.
    destruct (wx_l2_run _ t k i HI ltac:(lia)) as (t' & k' & E & HI').
    exists (t', k'). split; [done |]. eapply swept_weaken; [exact HI' |]. cbn. lia.
  - exists s', n. split; [done |]. eapply swept_weaken; [exact HI |].
    intros va Hva. destruct (vpn_bounds va). cbn. lia.
Qed.
End sweep.

Lemma canonical_half va : canonical va = true → vpn2 va < 256 ↔ va < 2 ^ 38.
Proof.
  unfold canonical. rewrite vpn2_eq, orb_true_iff, !andb_true_iff, !Z.leb_le, !Z.ltb_lt. dlia.
Qed.

(** The same translation, but where [P] holds a page that was user, writable
    and executable may have lost the right to execute. *)
Definition only_less_x (P : Prop) (t t' : option (Z * Z)) : Prop :=
  match t, t' with
  | Some (pa, e), Some (pa', e') =>
      pa' = pa ∧ is_readable e' = is_readable e ∧ is_writable e' = is_writable e ∧
      is_user e' = is_user e ∧
      (is_executable e' = is_executable e ∨
       P ∧ is_user e && is_writable e && is_executable e = true ∧ is_executable e' = false)
  | None, None => True
  | _, _ => False
  end.

Lemma swept_translate s s' bl roots root D r va :
  swept s bl roots root D s' → r ∈ roots → canonical va = true →
  only_less_x (r = root ∧ va < 2 ^ 38) (translate (mem s) r va) (translate (mem s') r va).
Proof.
  intros Hs Hr Hc. unfold only_less_x.
  destruct (sw_leaf _ _ _ _ _ _ Hs r va Hr) as [El | (-> & Hva & El)].
  - rewrite (translate_same _ _ _ _ El). destruct (translate (mem s) r va) as [[pa e] |]; auto 10.
  - apply (canonical_half va Hc) in Hva. unfold translate. rewrite Hc, El. cbn [negb].
    destruct (hw_leaf (mem s) root va) as [[k e] |] eqn:E0; [| done]. cbn [fmap option_fmap option_map].
    unfold no_wx_leaf. cbn [fst snd].
    destruct (k =? 2) eqn:Ek; [destruct (_ && _); auto 10 |].
    destruct (no_wx_says e (hw_leaf_is_leaf _ _ _ _ _ E0)) as [_ _ Hp Hrd Hw Hx Hu].
    rewrite Hp, Hrd, Hw. destruct (phys_addr e mod _ =? 0), (negb (is_writable e && _)); cbn [andb]; try done.
    split_and!; try done. rewrite Hx.
    destruct (is_user e), (is_writable e), (is_executable e); auto 10.
Qed.

(** C27. Write xor execute.  [force_wxorx] returns; afterwards no page of the
    user half of the address space, gigapages apart, is at once user, writable
    and executable.  Every address still translates to the same physical address
    and with the same rights, except that pages of that half which were user,
    writable and executable are no longer executable; other address spaces are
    as they were. *)
Theorem force_wxorx_correct (s : @vm A) (bl : list (Z * Z)) (roots : list Z) (root : Z) :
  spaces_ok s bl roots → root ∈ roots →
  ∃ s' n, force_wxorx s root = Done (s', n) ∧ spaces_ok s' bl roots ∧
    (∀ va k e, canonical va = true → va < 2 ^ 38 → hw_leaf (mem s') root va = Some (k, e) → k ≠ 2 →
       is_user e && is_writable e && is_executable e = false) ∧
    ∀ r va, r ∈ roots → canonical va = true →
      only_less_x (r = root ∧ va < 2 ^ 38) (translate (mem s) r va) (translate (mem s') r va).
Proof.
  intros Hok Hr. destruct (force_wxorx_run s bl roots root Hr Hok) as (s' & n & E & Hs).
  exists s', n. split; [done |]. split; [apply Hs |]. split.
  - intros va k e Hc Hva Hl Hk. apply (canonical_half va Hc) in Hva.
    destruct (sw_done _ _ _ _ _ _ Hs va Hva) as [_ Hd]. rewrite Hl in Hd.
    destruct (hw_leaf (mem s) root va) as [[k0 e0] |] eqn:E0; [| done]. cbn in Hd.
    unfold no_wx_leaf in Hd. cbn [fst snd] in Hd. injection Hd as -> ->.
    rewrite (proj2 (Z.eqb_neq k0 2) Hk).
    destruct (no_wx_says e0 (hw_leaf_is_leaf _ _ _ _ _ E0)) as [_ _ _ _ -> -> ->].
    destruct (is_user e0), (is_writable e0), (is_executable e0); done.
  - intros r va Hr' Hc. by eapply swept_translate.
Qed.

(** ** Pages by their contents *)

(** The entries of the table at [p] are given by [f]. *)
Definition holds (m : Z → Z) (p : Z) (f : Z → Z) : Prop := ∀ i, 0 <= i < 512 → m (p + 8 * i) = f i.

(** Different pages in use, with known entries, and [n] pages left. *)
Record contents (s : vm) (bl : list (Z * Z)) (c : list (Z * (Z → Z))) (n : Z) : Prop := {
  co_frames : fa_ok (frames s) bl;
  co_spare : free_frames s = n;
  co_nodup : NoDup (fst <$> c);
  co_page : Forall (λ x, (x.1, 0) ∈ bl ∧ holds (mem s) x.1 x.2) c;
}.

Definition entry (f : Z → Z) (i e : Z) : Z → Z := λ j, if j =? i then e else f j.

Lemma contents_perm s bl c c' n : contents s bl c n → c ≡ₚ c' → contents s bl c' n.
Proof. intros [Hf Hs Hn Hc] Hp. split; [done | done | by rewrite <-Hp | by rewrite <-Hp]. Qed.

Lemma contents_head s bl p f c n i :
  contents s bl ((p, f) :: c) n → 0 <= i < 512 → pte_at s p i = Done (f i).
Proof.
  intros [Hf _ _ [[Hp Hh] _]%Forall_cons] Hi. cbn in Hp, Hh.
  rewrite (pte_at_run s bl) by done. by rewrite Hh.
Qed.

Lemma contents_set s bl p f c n i e :
  contents s bl ((p, f) :: c) n → 0 <= i < 512 →
  ∃ s', set_pte s p i e = Done s' ∧ contents s' bl ((p, entry f i e) :: c) n.
Proof.
  intros [Hf Hs Hn Hc] Hi. pose proof Hc as [[Hp Hh] Hrest]%Forall_cons. cbn in Hp, Hh.
  destruct (set_pte_run s bl p i e Hf Hp Hi) as [E F]. set (s' := stored s _) in *.
  assert (mem s' = write_word (mem s) (p + 8 * i) e) as M by apply mem_stored.
  exists s'. split; [done |]. cbn in Hn. apply NoDup_cons in Hn as [Hnin Hn]. split; [done | | |].
  - rewrite <-Hs. by apply (set_pte_spare s bl p i e).
  - cbn. by apply NoDup_cons.
  - apply Forall_cons. split.
    + split; [done |]. cbn. intros j Hj. rewrite M. unfold entry. destruct (j =? i) eqn:Ej; bools.
      * subst. apply write_word_eq.
      * rewrite write_word_ne by lia. by apply Hh.
    + rewrite Forall_forall in Hrest |- *. intros [q g] Hin. destruct (Hrest _ Hin) as [Hq Hg].
      split; [done |]. cbn in *. intros j Hj. rewrite M, write_word_ne; [by apply Hg |].
      destruct (page_facts _ _ _ Hf Hp) as [Hpf _], (page_facts _ _ _ Hf Hq) as [Hqf _].
      intros Eq. destruct (same_word p q i j Hpf Hqf Hi Hj Eq) as [-> _].
      apply Hnin. by apply (list_elem_of_fmap_2 fst c (p, g)).
Qed.

(** A new page, cleared. *)
Lemma contents_new s bl c n :
  contents s bl c n →
  ∃ o s', alloc_page hart s = Done (o, s') ∧
    match o with
    | None => n = 0
    | Some q => ∃ s'', zero s' q PAGE_SIZE = Done s'' ∧ contents s'' ((q, 0) :: bl) ((q, λ _, 0) :: c) (n - 1)
    end.
Proof.
  intros [Hf Hs Hn Hc]. destruct (alloc_page_run s bl Hf) as (o & s1 & E1 & _ & M1 & _ & F1).
  pose proof (alloc_page_spare s bl o s1 Hf E1) as S1.
  exists o, s1. split; [done |]. destruct o as [q |]; [| destruct S1; congruence].
  assert ((q, 0) ∈ (q, 0) :: bl) as Hq0 by set_solver.
  destruct (zero_run s1 _ q 0 F1 Hq0) as [E2 F2].
  replace (2 ^ 0 * PAGE_SIZE) with PAGE_SIZE in E2, F2 by done. set (s2 := stored s1 _) in *.
  assert (mem s2 = cleared (mem s1) q PAGE_SIZE) as M2 by apply mem_stored.
  exists s2. split; [done |]. rewrite Forall_forall in Hc. split; [done | | |].
  - rewrite (zero_spare s1 _ q s2 F1 Hq0 E2), S1, Hs. done.
  - cbn. apply NoDup_cons. split; [| done]. intros ([p f] & -> & Hin)%list_elem_of_fmap.
    destruct (Hc _ Hin) as [Hp _]. by apply (fresh_page s1 bl p p).
  - apply Forall_cons. split.
    + split; [done |]. intros i Hi. rewrite M2. apply cleared_in. unfold PAGE_SIZE. cbn. lia.
    + apply Forall_forall. intros [p f] Hin. destruct (Hc _ Hin) as [Hp Hh]. cbn in *.
      split; [set_solver |]. intros i Hi. rewrite M2.
      destruct (page_facts _ _ _ Hf Hp) as [_ Hw]. destruct (Hw i Hi) as [_ Hu].
      rewrite cleared_out; [rewrite M1 by done; by apply Hh |]. intros Hin'.
      apply (fa_disjoint _ bl q 0 _ F1) in Hu; [done |]. unfold in_block. change (2 ^ 0) with 1. lia.
Qed.

(** One page's contents may be described by another function. *)
Lemma contents_ext s bl p f g c n :
  contents s bl ((p, f) :: c) n → (∀ i, 0 <= i < 512 → f i = g i) → contents s bl ((p, g) :: c) n.
Proof.
  intros [? ? Hn [[? Hh] ?]%Forall_cons] He. split; [done | done | done |]. constructor; [| done].
  split; [done |]. cbn in *. intros j Hj. by rewrite <-He, Hh.
Qed.

(** The first [n] entries of a page, one by one. *)
Lemma contents_fill (g : @vm A → Z → outcome vm) (f' : Z → Z) s bl p f c left n :
  contents s bl ((p, f) :: c) left → 0 <= n <= 512 →
  (∀ t i, 0 <= i < n → pte_at t p i = Done (f i) → g t i = set_pte t p i (f' i)) →
  ∃ s', for_each g s (zseq 0 n) = Done s' ∧
    contents s' bl ((p, λ j, if j <? n then f' j else f j) :: c) left.
Proof.
  intros Hs Hn Hg.
  set (I i t := contents t bl ((p, λ j, if j <? i then f' j else f j) :: c) left).
  apply (for_each_inv I); [lia | |].
  - eapply contents_ext; [exact Hs |]. intros j Hj. destruct (j <? 0) eqn:E; bools; [lia | done].
  - intros i t Hi HI. rewrite Hg; [| lia |].
    + destruct (contents_set t bl p _ c _ i (f' i) HI ltac:(lia)) as (t' & E & Ht').
      exists t'. split; [done |]. eapply contents_ext; [exact Ht' |]. intros j Hj. unfold entry.
      destruct (j =? i) eqn:E1, (j <? i) eqn:E2, (j <? i + 1) eqn:E3; bools; (lia || congruence || done).
    + rewrite (contents_head t bl p _ c _ i HI) by lia. by rewrite Z.ltb_irrefl.
Qed.

(** ** The kernel mapping *)

(** The three tables [setup_kernel_mapping] leaves. *)
Definition kernel_root (l1 mmio i : Z) : Z :=
  if i =? 0 then branch_pte mmio else if (i =? 2) || (i =? 256) then branch_pte l1 else 0.
Definition kernel_l1 (i : Z) : Z :=
  if i <? 64 then leaf_pte (DRAM_BASE + i * 2 ^ 21) true true true false else 0.
Definition kernel_mmio (i : Z) : Z :=
  if (i =? 16) || (i =? 128) || (i =? 384) then leaf_pte (i * 2 ^ 21) true true false false else 0.

Lemma setup_run s bl root n :
  ROOT_PT s = Some root → contents s bl [(root, λ _, 0)] n →
  setup_kernel_mapping hart s = Panic ∧ n < 2 ∨
  ∃ s' l1 mmio, setup_kernel_mapping hart s = Done s' ∧
    contents s' ((mmio, 0) :: (l1, 0) :: bl)
      [(root, kernel_root l1 mmio); (l1, kernel_l1); (mmio, kernel_mmio)] (n - 2).
Proof.
  intros Hroot Hs. unfold setup_kernel_mapping. rewrite Hroot. cbn [unwrap mbind outcome_bind].
  destruct (contents_new s bl _ _ Hs) as (o & s1 & E1 & Ho). rewrite E1. cbn [mbind outcome_bind].
  destruct o as [l1 |].
  2: { left. split; [done | lia]. }
  destruct Ho as (s2 & E2 & H2). cbn [unwrap mbind outcome_bind].
  rewrite E2. cbn [mbind outcome_bind].
  change (vpn2 KERNEL_VBASE) with 256. change (vpn2 DRAM_BASE) with 2.
  apply (contents_perm _ _ _ [(root, λ _, 0); (l1, λ _, 0)]) in H2; [| solve_Permutation].
  destruct (contents_set _ _ _ _ _ _ 256 (branch_pte l1) H2 ltac:(lia)) as (s3 & -> & H3).
  cbn [mbind outcome_bind].
  destruct (contents_set _ _ _ _ _ _ 2 (branch_pte l1) H3 ltac:(lia)) as (s4 & -> & H4).
  cbn [mbind outcome_bind]. set (fr := entry _ 2 _) in *.
  apply (contents_perm _ _ _ [(l1, λ _, 0); (root, fr)]) in H4; [| solve_Permutation].
  destruct (contents_fill (dram_entry l1) (λ i, leaf_pte (DRAM_BASE + i * 2 ^ 21) true true true false)
              _ _ _ _ _ _ 64 H4 ltac:(lia)) as (s5 & -> & H5).
  { intros t i _ Ht. unfold dram_entry. rewrite Ht. done. }
  cbn [mbind outcome_bind].
  destruct (contents_new _ _ _ _ H5) as (o & s6 & E6 & Ho). rewrite E6. cbn [mbind outcome_bind].
  destruct o as [mmio |]; [right |].
  2: { left. split; [done | lia]. }
  destruct Ho as (s7 & E7 & H7).
  cbn [unwrap mbind outcome_bind]. rewrite E7. cbn [mbind outcome_bind].
  change (vpn2 0x02000000) with 0. change (vpn1 0x02000000) with 16.
  change (vpn1 0x10000000) with 128. change (vpn1 0x30000000) with 384.
  set (fl := λ j, if j <? 64 then _ else _) in H7.
  apply (contents_perm _ _ _ [(root, fr); (mmio, λ _, 0); (l1, fl)]) in H7; [| solve_Permutation].
  destruct (contents_set _ _ _ _ _ _ 0 (branch_pte mmio) H7 ltac:(lia)) as (s8 & -> & H8).
  cbn [mbind outcome_bind]. set (fr' := entry fr 0 _) in *.
  apply (contents_perm _ _ _ [(mmio, λ _, 0); (root, fr'); (l1, fl)]) in H8; [| solve_Permutation].
  destruct (contents_set _ _ _ _ _ _ 16 (leaf_pte 0x02000000 true true false false) H8 ltac:(lia))
    as (s9 & -> & H9). cbn [mbind outcome_bind].
  destruct (contents_set _ _ _ _ _ _ 128 (leaf_pte 0x10000000 true true false false) H9 ltac:(lia))
    as (s10 & -> & H10). cbn [mbind outcome_bind].
  destruct (contents_set _ _ _ _ _ _ 384 (leaf_pte 0x30000000 true true false false) H10 ltac:(lia))
    as (s11 & -> & H11).
  exists s11, l1, mmio. split; [done |]. replace (n - 2) with (n - 1 - 1) by lia.
  apply (contents_ext _ _ _ _ kernel_mmio) in H11.
  2: { intros i Hi. unfold entry, kernel_mmio. destruct (i =? 384) eqn:Ei; bools; [by subst |].
       destruct (i =? 128) eqn:Ei'; bools; [by subst |]. destruct (i =? 16) eqn:Ej; bools; [by subst | done]. }
  apply (contents_perm _ _ _ [(root, fr'); (l1, fl); (mmio, kernel_mmio)]) in H11; [| solve_Permutation].
  eapply contents_ext; [exact H11 |]. intros i Hi. unfold fr', fr, entry, kernel_root.
  destruct (i =? 0), (i =? 2), (i =? 256); done.
Qed.

(** The walk of the hardware in the kernel's tables. *)
Definition kernel_leaf (va : Z) : option (Z * Z) :=
  if vpn2 va =? 0 then
    if (vpn1 va =? 16) || (vpn1 va =? 128) || (vpn1 va =? 384) then Some (1, kernel_mmio (vpn1 va))
    else None
  else if (vpn2 va =? 2) || (vpn2 va =? 256) then
    if vpn1 va <? 64 then Some (1, kernel_l1 (vpn1 va)) else None
  else None.

Lemma kernel_hw_leaf s bl root l1 mmio n va :
  contents s bl [(root, kernel_root l1 mmio); (l1, kernel_l1); (mmio, kernel_mmio)] n →
  hw_leaf (mem s) root va = kernel_leaf va.
Proof.
  intros [Hf _ _ Hc]. unfold kernel_leaf. rewrite !Forall_cons in Hc. cbn in Hc.
  destruct Hc as ([_ Hr] & [Hl Hh] & [Hm Hhm] & _).
  apply (page_facts _ _ _ Hf) in Hl as [Hl _]. apply (page_facts _ _ _ Hf) in Hm as [Hm _].
  destruct (vpn_bounds va) as (B2 & B1 & _).
  assert (∀ p e1, frame_addr p → mem s (root + 8 * vpn2 va) = branch_pte p →
            mem s (p + 8 * vpn1 va) = e1 → is_leaf e1 = true ∨ e1 = 0 →
            hw_leaf (mem s) root va = if is_leaf e1 then Some (1, e1) else None) as Hgo.
  { intros p e1 Hp E2 E1 Hor. destruct (branch_pte_spec p Hp) as [Hb Hpa].
    rewrite (hw_leaf_stops (mem s) root va [vpn2 va] (vpn1 va) [vpn0 va] p); [by rewrite E1 | done | |].
    - cbn. unfold child. by rewrite E2, Hb, Hpa.
    - rewrite E1. destruct Hor as [-> | ->]; auto. }
  specialize (Hr _ B2). specialize (Hh _ B1). specialize (Hhm _ B1). unfold kernel_root in Hr.
  assert (∀ b x, b = 0 ∨ b = DRAM_BASE → is_leaf (leaf_pte (b + vpn1 va * 2 ^ 21) true true x false) = true) as Hle.
  { intros b x Hb.
    assert (frame_addr (b + vpn1 va * 2 ^ 21)) as Hfa by (unfold frame_addr, DRAM_BASE in *; dlia).
    by rewrite (ls_leaf _ _ _ _ _ _ (leaf_pte_spec _ true true x false Hfa)). }
  destruct (vpn2 va =? 0) eqn:E0; bools.
  - pose proof (Hle 0 false ltac:(auto)) as Hl0. rewrite Z.add_0_l in Hl0.
    rewrite (Hgo mmio _ Hm Hr Hhm); unfold kernel_mmio;
      (destruct (_ || _ || _); [rewrite Hl0; auto | auto]).
  - destruct ((vpn2 va =? 2) || (vpn2 va =? 256)) eqn:E2.
    + pose proof (Hle DRAM_BASE true ltac:(auto)) as Hl0. rewrite (Hgo l1 _ Hl Hr Hh); unfold kernel_l1;
        (destruct (vpn1 va <? 64); [rewrite Hl0; auto | auto]).
    + rewrite (hw_leaf_stops (mem s) root va [] (vpn2 va) [vpn1 va; vpn0 va] root eq_refl eq_refl);
        rewrite Hr; auto.
Qed.

(** What the kernel's table is meant to map: DRAM at [KERNEL_VBASE] and at its
    own address, and two megabytes each of CLINT, UART and VirtIO, and PCI
    configuration space, these not executable. *)
Definition kernel_window (va : Z) : option (Z * bool) :=
  if (KERNEL_VBASE <=? va) && (va <? KERNEL_VBASE + DRAM_SIZE) then Some (kva_to_pa va, true)
  else if (DRAM_BASE <=? va) && (va <? DRAM_END) then Some (va, true)
  else if (va / 2 ^ 21 =? 16) || (va / 2 ^ 21 =? 128) || (va / 2 ^ 21 =? 384) then Some (va, false)
  else None.

(** The same by indices. *)
Lemma kernel_window_vpn va :
  canonical va = true →
  kernel_window va =
    if vpn2 va =? 0 then
      if (vpn1 va =? 16) || (vpn1 va =? 128) || (vpn1 va =? 384)
      then Some (vpn1 va * 2 ^ 21 + va mod 2 ^ 21, false) else None
    else if (vpn2 va =? 2) || (vpn2 va =? 256) then
      if vpn1 va <? 64 then Some (DRAM_BASE + vpn1 va * 2 ^ 21 + va mod 2 ^ 21, true) else None
    else None.
Proof.
  unfold canonical. rewrite orb_true_iff, !andb_true_iff, !Z.leb_le, !Z.ltb_lt, vpn2_eq, vpn1_eq.
  intros Hc. unfold kernel_window, kva_to_pa, KERNEL_VBASE, DRAM_END, DRAM_SIZE, DRAM_BASE in *.
  set (a := va / 2 ^ 30 mod 512). set (b := va / 2 ^ 21 mod 512). set (o := va mod 2 ^ 21).
  assert (0 <= a < 512 ∧ 0 <= b < 512 ∧ 0 <= o < 2 ^ 21) as (Ha & Hb & Ho) by (unfold a, b, o; dlia).
  assert (0 <= va < 2 ^ 38 ∧ va = a * 2 ^ 30 + b * 2 ^ 21 + o ∨
          2 ^ 64 - 2 ^ 38 <= va < 2 ^ 64 ∧ va = 2 ^ 64 - 2 ^ 39 + a * 2 ^ 30 + b * 2 ^ 21 + o) as Hva
    by (unfold a, b, o; dlia).
  assert (va / 2 ^ 21 = (va - o) / 2 ^ 21) as Hq by (unfold o; dlia).
  clearbody a b o. set (q := va / 2 ^ 21) in *. assert (q * 2 ^ 21 = va - o) by dlia. clearbody q.
  unfold wrap. destruct (0xFFFFFFC000000000 <=? va) eqn:K1; bools; cbn [andb].
  - destruct (va <? 0xFFFFFFC000000000 + 128 * 1024 * 1024) eqn:K2; bools.
    + rewrite Z.mod_small by lia. repeat (if_split; bools; try lia). f_equal. f_equal. lia.
    + repeat (if_split; bools; try lia); done.
  - repeat (if_split; bools; try lia); try done; f_equal; f_equal; lia.
Qed.

(** Address [va] is translated as the kernel relies on. *)
Definition maps_kernel (m : Z → Z) (root va : Z) : Prop :=
  match kernel_window va with
  | Some (pa, x) => ∃ e, translate m root va = Some (pa, e) ∧ rights e = (true, true, x, false)
  | None => translate m root va = None
  end.

Lemma kernel_leaf_maps m root va :
  canonical va = true → hw_leaf m root va = kernel_leaf va → maps_kernel m root va.
Proof.
  intros Hc El. unfold maps_kernel. rewrite (kernel_window_vpn va Hc). destruct (vpn_bounds va) as (_ & B1 & _).
  assert (∀ p x, p mod 2 ^ 21 = 0 → frame_addr p →
            hw_leaf m root va = Some (1, leaf_pte p true true x false) →
            ∃ e, translate m root va = Some (p + va mod 2 ^ 21, e) ∧ rights e = (true, true, x, false)) as Hgo.
  { intros p x Hal Hp Hl. pose proof (leaf_pte_spec p true true x false Hp) as Hs'.
    rewrite (translate_leaf _ _ _ _ _ _ _ _ _ _ Hc Hl Hs' Hal). eexists. split; [done |].
    destruct Hs' as [_ _ _ Er Ew Ex Eu]. unfold rights. by rewrite Er, Ew, Ex, Eu. }
  unfold kernel_leaf, kernel_mmio, kernel_l1 in El. destruct (vpn2 va =? 0).
  - destruct (_ || _ || _); [| by apply translate_none]. apply Hgo; [dlia | split; dlia | done].
  - destruct (_ || _); [| by apply translate_none]. destruct (vpn1 va <? 64); [| by apply translate_none].
    unfold DRAM_BASE in *. apply Hgo; [dlia | split; dlia | done].
Qed.

(** The kernel's address space.  On an empty root table
    [setup_kernel_mapping] fails only when fewer than two pages are left; otherwise, every
    canonical address is translated exactly as the kernel relies on: DRAM at
    [KERNEL_VBASE] (so that [pa_to_kva] is an address of the given frame) and at
    its physical address, both readable, writable and executable; the three
    device windows at their physical addresses, readable and writable; all for
    the supervisor only; and nothing else. *)
Theorem kernel_mapping_exact (s : @vm A) (bl : list (Z * Z)) (root : Z) :
  fa_ok (frames s) bl → (root, 0) ∈ bl → ROOT_PT s = Some root →
  (∀ i, 0 <= i < 512 → mem s (root + 8 * i) = 0) →
  setup_kernel_mapping hart s = Panic ∧ free_frames s < 2 ∨
  ∃ s', setup_kernel_mapping hart s = Done s' ∧
    ∀ va, canonical va = true → maps_kernel (mem s') root va.
Proof.
  intros Hf Hr Hroot Hz.
  destruct (setup_run s bl root (free_frames s) Hroot) as [? | (s' & l1 & mmio & E & Hs)]; [| by left | right].
  { split; [done | done | apply NoDup_singleton |]. by apply Forall_singleton. }
  exists s'. split; [done |]. intros va Hc. apply kernel_leaf_maps; [done |].
  by apply (kernel_hw_leaf s' _ _ _ _ _ va Hs).
Qed.

(** ** Kernel mappings for a process *)

(** The entry of the new root for entry [e] of the kernel's, with table [q]. *)
Definition copied_entry (e q : Z) : Z := if is_branch e then branch_pte q else e.

Lemma filter_ext_in {B} (P Q : B → Prop) `{∀ x, Decision (P x)} `{∀ x, Decision (Q x)} (l : list B) :
  (∀ x, x ∈ l → P x ↔ Q x) → filter P l = filter Q l.
Proof.
  induction l as [| x l IH]; intros Hx; [done |]. rewrite !filter_cons, IH by set_solver.
  specialize (Hx x ltac:(set_solver)). repeat case_decide; naive_solver.
Qed.

(** How many of the first [n] entries of a table point to tables. *)
Definition branches (m : Z → Z) (p n : Z) : Z :=
  zlen (filter (λ i, is_branch (m (p + 8 * i)) = true) (zseq 0 n)).

Lemma branches_next m p i :
  0 <= i → branches m p (i + 1) = branches m p i + Z.b2z (is_branch (m (p + 8 * i))).
Proof.
  intros Hi. unfold branches. rewrite (zseq_app 0 i 1), filter_app by lia. unfold zlen. rewrite length_app.
  change (zseq (0 + i) 1) with [i + 0]. rewrite Z.add_0_r, filter_cons, filter_nil. destruct (is_branch _) eqn:E; case_decide; try congruence; cbn; lia.
Qed.

Lemma branches_le m p i n : 0 <= i <= n → branches m p i <= branches m p n.
Proof.
  intros Hi. replace n with (i + (n - i)) by lia. unfold branches. rewrite (zseq_app 0 i), filter_app by lia.
  unfold zlen. rewrite length_app. lia.
Qed.

(** The first [i] entries of the kernel's root [kr] have been copied to
    [target], the tables below them to the pages [q]. *)
Record copied (s0 : vm) (bl : list (Z * Z)) (kr target : Z) (q : Z → Z) (i : Z) (s : vm)
    (k : list (Z * Z)) : Prop := {
  cp_frames : fa_ok (frames s) (k ++ bl);
  cp_same x : in_use bl x → ¬ in_block target 0 x → mem s x = mem s0 x;
  cp_entry j : 0 <= j < i → mem s (target + 8 * j) = copied_entry (mem s0 (kr + 8 * j)) (q j);
  cp_page j : 0 <= j < i → is_branch (mem s0 (kr + 8 * j)) = true → (q j, 0) ∈ k ∧
    ∀ m, 0 <= m < 512 → mem s (q j + 8 * m) = mem s0 (phys_addr (mem s0 (kr + 8 * j)) + 8 * m);
  cp_inj j j' : 0 <= j < i → 0 <= j' < i → is_branch (mem s0 (kr + 8 * j)) = true →
    is_branch (mem s0 (kr + 8 * j')) = true → q j = q j' → j = j';
  cp_spare : free_frames s = free_frames s0 - branches (mem s0) kr i;
}.

Section copy.
Context (s0 : @vm A) (bl : list (Z * Z)) (kr target : Z).
Hypothesis Hkr : (kr, 0) ∈ bl.
Hypothesis Htg : (target, 0) ∈ bl.
Hypothesis Hne : kr ≠ target.
Hypothesis Hf0 : fa_ok (frames s0) bl.
(** The tables below the kernel's root are pages in use, and not the target. *)
Hypothesis Hch : ∀ i, 0 <= i < 512 → is_branch (mem s0 (kr + 8 * i)) = true →
  (phys_addr (mem s0 (kr + 8 * i)), 0) ∈ bl ∧ phys_addr (mem s0 (kr + 8 * i)) ≠ target.

Lemma in_page_word p i : 0 <= i < 512 → in_block p 0 (p + 8 * i).
Proof. unfold in_block, PAGE_SIZE. change (2 ^ 0) with 1. lia. Qed.

(** Words of another page in use are not in the page. *)
Lemma not_in_page a blk p p' i :
  fa_ok a blk → (p, 0) ∈ blk → (p', 0) ∈ blk → p ≠ p' → 0 <= i < 512 → ¬ in_block p' 0 (p + 8 * i).
Proof.
  intros Hf Hp Hp' Hn Hi. destruct (fa_block _ _ _ _ Hf Hp) as (_ & Hm & _), (fa_block _ _ _ _ Hf Hp') as (_ & Hm' & _).
  unfold in_block, PAGE_SIZE in *. change (2 ^ 0) with 1. intros Hb. apply Hn. dlia.
Qed.

Lemma copied_kr q i s k j :
  copied s0 bl kr target q i s k → 0 <= j < 512 → mem s (kr + 8 * j) = mem s0 (kr + 8 * j).
Proof.
  intros C Hj. apply (cp_same _ _ _ _ _ _ _ _ C).
  - exists kr, 0. split; [done | by apply in_page_word].
  - by apply (not_in_page (frames s0) bl).
Qed.

(** One more entry. *)
Lemma copied_step q i s k qi kn s' :
  copied s0 bl kr target q i s k → 0 <= i < 512 →
  fa_ok (frames s') (kn ++ k ++ bl) →
  (∀ x, in_use (k ++ bl) x → x ≠ target + 8 * i → mem s' x = mem s x) →
  mem s' (target + 8 * i) = copied_entry (mem s0 (kr + 8 * i)) qi →
  (is_branch (mem s0 (kr + 8 * i)) = true → kn = [(qi, 0)] ∧
     ∀ m, 0 <= m < 512 → mem s' (qi + 8 * m) = mem s0 (phys_addr (mem s0 (kr + 8 * i)) + 8 * m)) →
  free_frames s' = free_frames s - Z.b2z (is_branch (mem s0 (kr + 8 * i))) →
  copied s0 bl kr target (λ j, if j =? i then qi else q j) (i + 1) s' (kn ++ k).
Proof.
  intros C Hi Hf Hx He Hb Hs. destruct (fa_block _ _ _ _ Hf0 Htg) as (_ & Hal & _). unfold PAGE_SIZE in Hal.
  assert (∀ p m, (p, 0) ∈ k → 0 <= m < 512 → mem s' (p + 8 * m) = mem s (p + 8 * m)) as Hk.
  { intros p m Hp Hm. apply Hx.
    - exists p, 0. split; [apply elem_of_app; by left | by apply in_page_word].
    - intros E. apply (blocks_apart (frames s) k bl (p + 8 * m) (cp_frames _ _ _ _ _ _ _ _ C)).
      + exists p, 0. split; [done | by apply in_page_word].
      + rewrite E. exists target, 0. split; [done | by apply in_page_word]. }
  split.
  - rewrite <-app_assoc. exact Hf.
  - intros x Hu Hn. rewrite Hx; [by apply C | apply in_use_app; by right |]. intros ->.
    apply Hn. by apply in_page_word.
  - intros j Hj. destruct (j =? i) eqn:E; bools; [by subst |]. rewrite Hx; [apply C; lia | | lia].
    exists target, 0. split; [apply elem_of_app; by right | apply in_page_word; lia].
  - intros j Hj Hbr. destruct (j =? i) eqn:E; bools.
    + subst. destruct (Hb Hbr) as [-> Hc]. split; [apply elem_of_app; left; by apply list_elem_of_singleton | done].
    + destruct (cp_page _ _ _ _ _ _ _ _ C j ltac:(lia) Hbr) as [Hq Hc].
      split; [apply elem_of_app; by right |]. intros m Hm. rewrite Hk by done. by apply Hc.
  - assert (∀ j, 0 <= j < i → is_branch (mem s0 (kr + 8 * j)) = true →
              is_branch (mem s0 (kr + 8 * i)) = true → q j ≠ qi) as Hnew.
    { intros j Hj Hbr Hbi <-. destruct (Hb Hbi) as [-> _].
      destruct (cp_page _ _ _ _ _ _ _ _ C j Hj Hbr) as [Hq _].
      apply (fa_disjoint _ (k ++ bl) (q j) 0 (q j + 8 * 0) Hf); [by apply in_page_word |].
      exists (q j), 0. split; [apply elem_of_app; by left | by apply in_page_word]. }
    intros j j' Hj Hj' Hbr Hbr'. destruct (j =? i) eqn:E, (j' =? i) eqn:E'; bools; [lia | | | apply C; (done || lia)].
    + intros Eq. subst j. by destruct (Hnew j' ltac:(lia) Hbr' Hbr).
    + intros Eq. subst j'. by destruct (Hnew j ltac:(lia) Hbr Hbr').
  - rewrite Hs, (cp_spare _ _ _ _ _ _ _ _ C), branches_next by lia. lia.
Qed.

Lemma copy_page_run (s : @vm A) blk dst src :
  fa_ok (frames s) blk → (dst, 0) ∈ blk → (src, 0) ∈ blk → dst ≠ src →
  ∃ s', copy_page s dst src = Done s' ∧ (fa_ok (frames s') blk ∧ free_frames s' = free_frames s) ∧
    (∀ m, 0 <= m < 512 → mem s' (dst + 8 * m) = mem s (src + 8 * m)) ∧
    ∀ x, ¬ in_block dst 0 x → mem s' x = mem s x.
Proof.
  intros Hf Hd Hs Hn. destruct (page_facts _ _ _ Hf Hd) as [_ Hdw], (page_facts _ _ _ Hf Hs) as [_ Hsw].
  destruct (Hdw 0 ltac:(lia)) as [Hd0 _], (Hsw 0 ltac:(lia)) as [Hs0 _]. rewrite Z.add_0_r in Hd0, Hs0.
  unfold copy_page. rewrite Hd0, Hs0. cbn [andb].
  set (m' := λ x, if (dst <=? x) && (x <? dst + PAGE_SIZE) then mem s (x - dst + src) else mem s x).
  set (s' := stored s m'). exists s'.
  assert (mem s' = m') as M by apply mem_stored.
  assert (∀ x, ¬ in_block dst 0 x → m' x = mem s x) as Hout.
  { intros x Hx. unfold in_block, PAGE_SIZE in Hx. change (2 ^ 0) with 1 in Hx. unfold m', PAGE_SIZE.
    destruct (dst <=? x) eqn:E1, (x <? dst + 4096) eqn:E2; bools; (lia || done). }
  split_and!; [done | | | | by rewrite M].
  - apply stored_ok; [done |]. intros x Hx. apply Hout. intros Hb. apply Hx. by exists dst, 0.
  - apply (stored_spare s blk); [done |]. intros x Hx. apply Hout. intros Hb. apply Hx. by exists dst, 0.
  - intros m Hm. rewrite M. unfold m', PAGE_SIZE.
    rewrite (proj2 (Z.leb_le _ _)), (proj2 (Z.ltb_lt _ _)) by lia. cbn [andb]. f_equal. lia.
Qed.

Lemma copy_entry_run q i s k :
  copied s0 bl kr target q i s k → 0 <= i < 512 →
  copy_kernel_entry hart kr target s i = Panic ∧ free_frames s0 < branches (mem s0) kr 512 ∨
  ∃ q' s' k', copy_kernel_entry hart kr target s i = Done s' ∧ copied s0 bl kr target q' (i + 1) s' k'.
Proof.
  intros C Hi. pose proof (cp_frames _ _ _ _ _ _ _ _ C) as Hf.
  assert (∀ p, (p, 0) ∈ bl → (p, 0) ∈ k ++ bl) as Hin by (intros p Hp; apply elem_of_app; by right).
  unfold copy_kernel_entry. rewrite (pte_at_run s (k ++ bl)) by auto. cbn [mbind outcome_bind].
  rewrite (copied_kr _ _ _ _ _ C Hi). set (e := mem s0 (kr + 8 * i)) in *.
  destruct (is_branch e) eqn:Hb.
  - destruct (Hch i Hi Hb) as [Hc Hct]. fold e in Hc, Hct.
    destruct (alloc_page_run s _ Hf) as (o & s1 & E1 & _ & M1 & _ & F1). rewrite E1. cbn [mbind outcome_bind].
    destruct o as [p |]; cbn [unwrap mbind outcome_bind].
    2: { left. split; [done |]. destruct (alloc_page_spare s _ _ _ Hf E1) as [S1 _].
         rewrite (cp_spare _ _ _ _ _ _ _ _ C) in S1. pose proof (branches_next (mem s0) kr i ltac:(lia)) as Hn.
         fold e in Hn. rewrite Hb in Hn. cbn in Hn. pose proof (branches_le (mem s0) kr (i + 1) 512). lia. }
    pose proof (alloc_page_spare s _ _ _ Hf E1) as S1. cbn in S1.
    right. assert (∀ b, (b, 0) ∈ k ++ bl → b ≠ p) as Hfr by (intros b Hb'; by apply (fresh_page s1 (k ++ bl))).
    assert ((p, 0) ∈ (p, 0) :: k ++ bl) as Hpp by (apply elem_of_cons; by left).
    assert (∀ b, (b, 0) ∈ bl → (b, 0) ∈ (p, 0) :: k ++ bl) as Hin' by (intros b Hb'; apply elem_of_cons; auto).
    destruct (copy_page_run s1 _ p (phys_addr e) F1 Hpp (Hin' _ Hc)) as (s2 & -> & [F2 S2] & C2 & O2).
    { intros E. by apply (Hfr (phys_addr e)); [apply Hin |]. }
    cbn [mbind outcome_bind].
    destruct (set_pte_run s2 _ target i (branch_pte p) F2 (Hin' _ Htg) Hi) as [E3 F3]. rewrite E3.
    set (s3 := stored s2 _) in *. pose proof (set_pte_spare s2 _ target i _ s3 F2 (Hin' _ Htg) Hi E3) as S3. assert (mem s3 = write_word (mem s2) (target + 8 * i) (branch_pte p)) as M3 by apply mem_stored.
    exists (λ j, if j =? i then p else q j), s3, ([(p, 0)] ++ k). split; [done |].
    apply (copied_step q i s k p [(p, 0)] s3 C Hi F3).
    + intros x Hu Hx. rewrite M3, write_word_ne by done. rewrite O2; [by apply M1 |].
      intros Hb'. by apply (fa_disjoint _ (k ++ bl) p 0 x F1).
    + rewrite M3, write_word_eq. unfold copied_entry. fold e. by rewrite Hb.
    + intros _. split; [done |]. intros m Hm. fold e. rewrite M3, write_word_ne.
      * rewrite C2 by done. rewrite M1 by (exists (phys_addr e), 0; (split; [by apply Hin | by apply in_page_word])).
        apply (cp_same _ _ _ _ _ _ _ _ C); [exists (phys_addr e), 0; split; [done | by apply in_page_word] |].
        by apply (not_in_page (frames s0) bl).
      * intros E. apply (not_in_page (frames s1) _ p target m F1 Hpp (Hin' _ Htg)); [| done |].
        -- intros ->. by apply (Hfr target); [apply Hin |].
        -- rewrite E. by apply in_page_word.
    + fold e. rewrite Hb. cbn. lia.
  - right. destruct (set_pte_run s _ target i e Hf (Hin _ Htg) Hi) as [E3 F3]. rewrite E3.
    set (s3 := stored s _) in *. pose proof (set_pte_spare s _ target i _ s3 Hf (Hin _ Htg) Hi E3) as S3. assert (mem s3 = write_word (mem s) (target + 8 * i) e) as M3 by apply mem_stored.
    exists (λ j, if j =? i then 0 else q j), s3, ([] ++ k). split; [done |].
    apply (copied_step q i s k 0 [] s3 C Hi F3).
    + intros x Hu Hx. by rewrite M3, write_word_ne.
    + rewrite M3, write_word_eq. unfold copied_entry. fold e. by rewrite Hb.
    + fold e. by rewrite Hb.
    + fold e. rewrite Hb. cbn. lia.
Qed.

Lemma copied_table q s k π p :
  copied s0 bl kr target q 512 s k →
  (∀ j m, 0 <= j < 512 → 0 <= m < 512 → is_branch (mem s0 (kr + 8 * j)) = true →
     is_branch (mem s0 (phys_addr (mem s0 (kr + 8 * j)) + 8 * m)) = false) →
  path π → table (mem s) target π = Some p →
  π = [] ∧ p = target ∨
  ∃ j, π = [j] ∧ 0 <= j < 512 ∧ is_branch (mem s0 (kr + 8 * j)) = true ∧ p = q j.
Proof.
  intros C Hflat [Hlen Hind] Ht. destruct π as [| j π]; [left; by injection Ht | right].
  apply Forall_cons in Hind as [Hj Hind]. cbn in Ht. unfold child in Ht.
  rewrite (cp_entry _ _ _ _ _ _ _ _ C j Hj) in Ht. unfold copied_entry in Ht.
  destruct (is_branch (mem s0 (kr + 8 * j))) eqn:Hb; [| by rewrite Hb in Ht].
  destruct (cp_page _ _ _ _ _ _ _ _ C j Hj Hb) as [Hq Hc].
  destruct (page_facts _ _ _ (cp_frames _ _ _ _ _ _ _ _ C) (proj2 (elem_of_app _ _ _) (or_introl Hq))) as [Hfa _].
  destruct (branch_pte_spec (q j) Hfa) as [Hbr Hph]. rewrite Hbr, Hph in Ht. cbn in Ht.
  exists j. destruct π as [| m π]; [by injection Ht |].
  apply Forall_cons in Hind as [Hm _]. cbn in Ht. unfold child in Ht. rewrite (Hc m Hm), (Hflat j m Hj Hm Hb) in Ht. done.
Qed.

Lemma copied_space q s k :
  copied s0 bl kr target q 512 s k →
  (∀ j m, 0 <= j < 512 → 0 <= m < 512 → is_branch (mem s0 (kr + 8 * j)) = true →
     is_branch (mem s0 (phys_addr (mem s0 (kr + 8 * j)) + 8 * m)) = false) →
  spaces_ok s (k ++ bl) [target] ∧ ∀ va, hw_leaf (mem s) target va = hw_leaf (mem s0) kr va.
Proof.
  intros C Hflat. pose proof (cp_frames _ _ _ _ _ _ _ _ C) as Hf.
  assert (∀ j, 0 <= j < 512 → is_branch (mem s0 (kr + 8 * j)) = true → (q j, 0) ∈ k ++ bl ∧ q j ≠ target) as Hq.
  { intros j Hj Hb. destruct (cp_page _ _ _ _ _ _ _ _ C j Hj Hb) as [Hq _]. split; [apply elem_of_app; by left |].
    intros E. apply (blocks_apart (frames s) k bl (q j + 8 * 0) Hf); exists (q j), 0;
      (split; [done || by rewrite E | by apply in_page_word]). }
  split; [split; [done | |] |].
  - intros r r' π π' p ->%list_elem_of_singleton ->%list_elem_of_singleton Hπ Hπ' Ht Ht'.
    split; [done |].
    destruct (copied_table _ _ _ _ _ C Hflat Hπ Ht) as [[-> ->] | (j & -> & Hj & Hb & ->)],
      (copied_table _ _ _ _ _ C Hflat Hπ' Ht') as [[-> E] | (j' & -> & Hj' & Hb' & E)].
    + done.
    + by destruct (Hq j' Hj' Hb').
    + by destruct (Hq j Hj Hb).
    + by rewrite (cp_inj _ _ _ _ _ _ _ _ C j j').
  - intros r π p ->%list_elem_of_singleton Hπ Ht.
    destruct (copied_table _ _ _ _ _ C Hflat Hπ Ht) as [[-> ->] | (j & -> & Hj & Hb & ->)];
      [apply elem_of_app; by right | by apply Hq].
  - intros va. destruct (vpn_bounds va) as (B2 & B1 & _). unfold hw_leaf.
    rewrite (cp_entry _ _ _ _ _ _ _ _ C _ B2). unfold copied_entry. set (e := mem s0 (kr + 8 * vpn2 va)).
    destruct (is_branch e) eqn:Hb.
    + destruct (cp_page _ _ _ _ _ _ _ _ C _ B2 Hb) as [_ Hc]. destruct (Hq _ B2 Hb) as [Hqb _].
      destruct (page_facts _ _ _ Hf Hqb) as [Hfa _]. destruct (branch_pte_spec _ Hfa) as [Hbr Hph].
      pose proof Hbr as Hbr'. rewrite branch_or_leaf in Hbr'. apply andb_true_iff in Hbr' as [Hv Hl%negb_true_iff].
      pose proof Hb as Hb'. rewrite branch_or_leaf in Hb'. apply andb_true_iff in Hb' as [Hv' Hl'%negb_true_iff].
      rewrite Hv, Hl, Hv', Hl', Hph, (Hc _ B1). cbn [negb]. fold e. set (e1 := mem s0 (phys_addr e + 8 * vpn1 va)).
      pose proof (Hflat _ _ B2 B1 Hb) as Hn. fold e in Hn. fold e1 in Hn. rewrite branch_or_leaf in Hn.
      by destruct (is_valid e1), (is_leaf e1).
    + rewrite branch_or_leaf in Hb. by destruct (is_valid e), (is_leaf e).
Qed.
End copy.

(** A loop that may stop with a panic, for a reason [P]. *)
Lemma for_each_or {S} (I : Z → S → Prop) (P : Prop) (f : S → Z → outcome S) a n s :
  0 <= n → I a s →
  (∀ i s, a <= i < a + n → I i s → f s i = Panic ∧ P ∨ ∃ s', f s i = Done s' ∧ I (i + 1) s') →
  for_each f s (zseq a n) = Panic ∧ P ∨ ∃ s', for_each f s (zseq a n) = Done s' ∧ I (a + n) s'.
Proof.
  intros Hn. revert a s. remember (Z.to_nat n) as k eqn:Hk. revert n Hn Hk.
  induction k as [| k IH]; intros n Hn Hk a s Hs Hstep.
  - right. replace n with 0 by lia. exists s. by rewrite Z.add_0_r.
  - rewrite zseq_cons by lia. cbn [for_each].
    destruct (Hstep a s ltac:(lia) Hs) as [[-> ?] | (s1 & -> & H1)]; [by left |]. cbn [mbind outcome_bind].
    destruct (IH (n - 1) ltac:(lia) ltac:(lia) (a + 1) s1 H1) as [[-> ?] | (s' & -> & H')].
    + intros i t Hi. apply Hstep. lia.
    + by left.
    + right. exists s'. split; [done |]. by replace (a + n) with (a + 1 + (n - 1)) by lia.
Qed.

(** The kernel's root has three entries that point to tables. *)
Lemma kernel_branches (s : @vm A) bl kr l1 mmio n :
  contents s bl [(kr, kernel_root l1 mmio); (l1, kernel_l1); (mmio, kernel_mmio)] n →
  branches (mem s) kr 512 = 3.
Proof.
  intros [Hf _ _ Hp]. rewrite !Forall_cons in Hp. cbn in Hp. destruct Hp as ([_ Hkc] & [Hl1 _] & [Hmm _] & _).
  destruct (page_facts _ _ _ Hf Hl1) as [[? _]%branch_pte_spec _], (page_facts _ _ _ Hf Hmm) as [[? _]%branch_pte_spec _].
  unfold branches. rewrite (filter_ext_in _ (λ i, (i =? 0) || (i =? 2) || (i =? 256) = true)); [by vm_compute |].
  intros i Hi%elem_of_zseq. rewrite (Hkc i) by lia. unfold kernel_root.
  destruct (i =? 0); cbn [orb]; [done |]. by destruct ((i =? 2) || (i =? 256)).
Qed.

Lemma copy_kernel_run (s : @vm A) (bl : list (Z * Z)) (kr l1 mmio n target : Z) :
  contents s bl [(kr, kernel_root l1 mmio); (l1, kernel_l1); (mmio, kernel_mmio)] n →
  ROOT_PT s = Some kr → (target, 0) ∈ bl → target ∉ [kr; l1; mmio] →
  copy_kernel_mappings hart s target = Panic ∧ n < 3 ∨
  ∃ s' k, copy_kernel_mappings hart s target = Done s' ∧ spaces_ok s' (k ++ bl) [target] ∧
    ∀ va, hw_leaf (mem s') target va = kernel_leaf va.
Proof.
  intros Hc Hroot Ht Hn. unfold copy_kernel_mappings. rewrite Hroot. cbn [unwrap mbind outcome_bind].
  rewrite <-(co_spare _ _ _ _ Hc), <-(kernel_branches _ _ _ _ _ _ Hc).
  pose proof Hc as [Hf _ _ Hp]. rewrite !Forall_cons in Hp. cbn in Hp.
  destruct Hp as ([Hkr Hkc] & [Hl1 Hlc] & [Hmm Hmc] & _). rewrite !not_elem_of_cons in Hn.
  destruct Hn as (Hn1 & Hn2 & Hn3 & _).
  assert (∀ i, 0 <= i < 512 → is_branch (mem s (kr + 8 * i)) = true →
            phys_addr (mem s (kr + 8 * i)) = l1 ∨ phys_addr (mem s (kr + 8 * i)) = mmio) as Hch.
  { intros i Hi. rewrite (Hkc i Hi). unfold kernel_root. intros Hb.
    destruct (page_facts _ _ _ Hf Hl1) as [Hf1 _], (page_facts _ _ _ Hf Hmm) as [Hf2 _].
    destruct (i =? 0); [right; by apply branch_pte_spec |].
    destruct (_ || _); [left; by apply branch_pte_spec | done]. }
  destruct (for_each_or (λ i t, ∃ q k, copied s bl kr target q i t k) (free_frames s < branches (mem s) kr 512)
              (copy_kernel_entry hart kr target) 0 512 s) as [? | (s' & E & q & k & C)]; [lia | | | by left | right].
  - exists (λ _, 0), []. split; try lia; try done. change (branches (mem s) kr 0) with 0. lia.
  - intros i t Hi (q & k & C). destruct (copy_entry_run s bl kr target Hkr Ht ltac:(done) Hf) with q i t k
      as [? | (q' & t' & k' & E & C')]; try done; [| by left | right; exists t'; eauto].
    intros j Hj Hb. destruct (Hch j Hj Hb) as [-> | ->]; done.
  - exists s', k. split; [done |].
    destruct (copied_space s bl kr target Ht q s' k C) as [Hok Hl].
    + intros j m Hj Hm Hb. destruct (Hch j Hj Hb) as [-> | ->]; [rewrite (Hlc m Hm) | rewrite (Hmc m Hm)];
        unfold kernel_l1, kernel_mmio.
      * destruct (m <? 64); [| done].
        rewrite (ls_branch _ _ _ _ _ _ (leaf_pte_spec (DRAM_BASE + m * 2 ^ 21) true true true false
          ltac:(unfold frame_addr, DRAM_BASE; dlia))). done.
      * destruct (_ || _ || _); [| done].
        rewrite (ls_branch _ _ _ _ _ _ (leaf_pte_spec (m * 2 ^ 21) true true false false
          ltac:(unfold frame_addr; dlia))). done.
    + split; [done |]. intros va. rewrite Hl. by apply (kernel_hw_leaf s _ _ _ _ _ va Hc).
Qed.

(** A new process starts with the kernel's mappings and no others.
    [copy_kernel_mappings] on the tables of [setup_kernel_mapping] fails only when
    fewer than three pages are left; otherwise the target is the root of an address space of its
    own, disjoint from all other tables, in which every canonical address is
    translated as in the kernel's. *)
Theorem copy_kernel_mappings_exact (s : @vm A) (bl : list (Z * Z)) (kr l1 mmio n target : Z) :
  contents s bl [(kr, kernel_root l1 mmio); (l1, kernel_l1); (mmio, kernel_mmio)] n →
  ROOT_PT s = Some kr → (target, 0) ∈ bl → target ∉ [kr; l1; mmio] →
  copy_kernel_mappings hart s target = Panic ∧ n < 3 ∨
  ∃ s' k, copy_kernel_mappings hart s target = Done s' ∧ spaces_ok s' (k ++ bl) [target] ∧
    ∀ va, canonical va = true → maps_kernel (mem s') target va.
Proof.
  intros Hc Hroot Ht Hn.
  destruct (copy_kernel_run s bl kr l1 mmio n target Hc Hroot Ht Hn) as [? | (s' & k & E & Hok & Hl)];
    [by left | right]. exists s', k. split_and!; [done | done |]. intros va Hcv. by apply kernel_leaf_maps.
Qed.

(** ** Huge pages from the buddy allocator *)

Lemma alloc_pages_run s bl order :
  fa_ok (frames s) bl → 0 <= order →
  ∃ o s', alloc_pages s order = Done (o, s') ∧ fa_base (frames s') = fa_base (frames s) ∧
    (∀ x, in_use bl x → mem s' x = mem s x) ∧
    fa_ok (frames s') (match o with Some p => (p, order) :: bl | None => bl end).
Proof.
  intros Hf Ho. destruct (fa_alloc_pages_ok _ _ order Hf Ho) as (o & a & E & [Hb Hm] & Ha).
  exists o, (s <| frames := a |>). split_and!; try done. unfold alloc_pages. by rewrite E.
Qed.

(** When [ensure_l1] succeeds, there is a first-level table. *)
Lemma ensure_l1_run s bl roots root va pa s' :
  spaces_ok s bl roots → root ∈ roots → ensure_l1 hart s root va pa = Done (true, s') →
  ∃ k l1, grown s bl roots s' k ∧ table (mem s') root [vpn2 va] = Some l1.
Proof.
  intros Hok Hr. destruct (vpn_bounds va) as (B2 & _ & _).
  pose proof (so_owned _ _ _ Hok root [] root Hr ltac:(split; [cbn; lia | constructor]) eq_refl) as Ho.
  unfold ensure_l1. rewrite (pte_at_run s bl) by (apply Hok || done). cbn [mbind outcome_bind].
  set (e := mem s (root + 8 * vpn2 va)). destruct (is_valid e) eqn:V; cbn [negb].
  - destruct (is_leaf e) eqn:L; [intros E; by inv_bind |]. intros [= <-]. exists [], (phys_addr e).
    split; [by apply grown_refl |]. cbn. unfold child. fold e. by rewrite branch_or_leaf, V, L.
  - destruct (add_table_run s bl roots root root (vpn2 va) [] Hok Hr ltac:(cbn; lia)
                (Forall_nil_2 _) eq_refl B2 V) as (o & s1 & k & -> & G & Hq).
    cbn [mbind outcome_bind]. destruct o as [q |]; [| intros E; by inv_bind]. intros [= <-]. destruct Hq as [Hq _]. eauto.
Qed.

Lemma prefix_2m va va' :
  canonical va = true → canonical va' = true → va' / 2 ^ 21 = va / 2 ^ 21 ↔
  ([vpn2 va] ++ [vpn1 va]) `prefix_of` vpath va'.
Proof.
  unfold canonical. intros Hc Hc'. rewrite (prefix_2 (vpn2 va) (vpn1 va) va').
  rewrite !vpn2_eq, !vpn1_eq. rewrite orb_true_iff, !andb_true_iff, !Z.leb_le, !Z.ltb_lt in Hc, Hc'.
  split; [| dlia]. intros E. change (2 ^ 30) with (2 ^ 21 * 2 ^ 9). rewrite <-!Z.div_div by lia.
  by rewrite E.
Qed.

Lemma try_map_2m_run s bl roots root va count_4k flags s' :
  spaces_ok s bl roots → root ∈ roots → flag_r flags || flag_w flags || flag_x flags = true →
  try_map_2m hart s root va count_4k flags = Done (true, s') →
  ∃ pa, frame_addr pa ∧ (pa - fa_base (frames s)) mod 2 ^ 21 = 0 ∧
    ∀ r va', r ∈ roots → hw_leaf (mem s') r va' =
      if decide (r = root ∧ ([vpn2 va] ++ [vpn1 va]) `prefix_of` vpath va')
      then Some (1, leaf_pte pa (flag_r flags) (flag_w flags) (flag_x flags) (flag_u flags))
      else hw_leaf (mem s) r va'.
Proof.
  intros Hok Hr Hus E. unfold try_map_2m in E.
  destruct (count_4k <? 512); [done |]. destruct (negb _); [done |].
  destruct (alloc_pages_run s bl 9 (so_frames _ _ _ Hok) ltac:(lia)) as (o & s1 & E1 & B1 & M1 & F1).
  rewrite E1 in E. cbn [mbind outcome_bind] in E. destruct o as [pa |]; [| done].
  assert ((pa, 9) ∈ (pa, 9) :: bl) as Hin by (apply elem_of_cons; by left).
  destruct (fa_block _ _ _ _ F1 Hin) as (_ & Hpm & Hpd & Hpe & Hpb).
  destruct (zero_run s1 _ pa 9 F1 Hin) as [E2 F2]. change (2 ^ 9 * PAGE_SIZE) with 0x200000 in *.
  rewrite E2 in E. cbn [mbind outcome_bind] in E. set (s2 := stored s1 _) in *.
  destruct (spaces_quiet s s2 bl [(pa, 9)] roots Hok F2) as (Hok2 & _ & Hl2).
  { intros x Hx%(table_word_in_use s bl roots); [| done]. unfold s2. rewrite mem_stored, cleared_out; [by apply M1 |]. intros Hi.
    by apply (fa_disjoint _ bl pa 9 x F1). }
  destruct (ensure_l1 hart s2 root va pa) as [[[|] s3] | | |] eqn:E3; try done.
  destruct (ensure_l1_run _ _ _ _ _ _ _ Hok2 Hr E3) as (k & l1 & G & Ht).
  cbn [mbind outcome_bind negb] in E. destruct (vpn_bounds va) as (B2 & B1' & _).
  pose proof (gr_ok _ _ _ _ _ G) as Hok3.
  pose proof (so_owned _ _ _ Hok3 root [] root Hr ltac:(split; [cbn; lia | constructor]) eq_refl) as Hro.
  pose proof (so_owned _ _ _ Hok3 root _ _ Hr (path_1 _ B2) Ht) as Hlo.
  rewrite (pte_at_run s3 _ root) in E by (apply Hok3 || done). cbn [mbind outcome_bind] in E.
  assert (phys_addr (mem s3 (root + 8 * vpn2 va)) = l1) as Hl1.
  { cbn in Ht. unfold child in Ht. destruct (is_branch _); [by injection Ht | done]. }
  rewrite Hl1, (pte_at_run s3 _ l1) in E by (apply Hok3 || done). cbn [mbind outcome_bind] in E.
  destruct (is_valid (mem s3 (l1 + 8 * vpn1 va))) eqn:V1; [by inv_bind |].
  assert (frame_addr pa) as Hpa.
  { unfold frame_addr, PAGE_SIZE, DRAM_END, DRAM_SIZE, DRAM_BASE in *. lia. }
  pose proof (leaf_pte_spec pa (flag_r flags) (flag_w flags) (flag_x flags) (flag_u flags) Hpa) as Hs.
  destruct (set_entry_run s3 _ roots root [vpn2 va] l1 (vpn1 va)
    (leaf_pte pa (flag_r flags) (flag_w flags) (flag_x flags) (flag_u flags)) Hok3 Hr (path_1 _ B2) Ht B1')
    as (s4 & E4 & R).
  { right. by rewrite branch_or_leaf, V1, (ls_branch _ _ _ _ _ _ Hs), Hus. }
  rewrite E4 in E. cbn [mbind outcome_bind] in E. injection E as <-.
  exists pa. split_and!; [done | by rewrite <-B1 |]. intros r va' Hr'.
  change (mem (s4 <| THP_PROMOTIONS := _ |>)) with (mem s4).
  rewrite (rw_leaf _ _ _ _ _ _ _ _ _ R), (gr_leaf _ _ _ _ _ G), Hl2 by done.
  by rewrite (ls_leaf _ _ _ _ _ _ Hs), Hus.
Qed.

(** Huge pages depend on where the allocator's region starts.  Blocks of
    the buddy allocator are aligned relative to the region's base.  So when
    [try_map_2m] reports success, the two megabytes are translated to the block
    with the rights of the flags if the base is a multiple of 2 MB, and
    otherwise every access to them faults, for the entry is a misaligned
    superpage; all other translations are as before. *)
Theorem huge_pages_need_aligned_base (s s' : @vm A) (bl : list (Z * Z)) (roots : list Z)
    (root va count_4k flags : Z) :
  spaces_ok s bl roots → root ∈ roots → canonical va = true →
  usable (flag_r flags) (flag_w flags) (flag_x flags) = true →
  try_map_2m hart s root va count_4k flags = Done (true, s') →
  ∃ pa, (pa - fa_base (frames s)) mod 2 ^ 21 = 0 ∧
    ∀ r' va', r' ∈ roots → canonical va' = true →
      if decide (r' = root ∧ va' / 2 ^ 21 = va / 2 ^ 21) then
        if decide (fa_base (frames s) mod 2 ^ 21 = 0)
        then ∃ e, translate (mem s') root va' = Some (pa + va' mod 2 ^ 21, e) ∧
                  rights e = (flag_r flags, flag_w flags, flag_x flags, flag_u flags)
        else translate (mem s') root va' = None
      else translate (mem s') r' va' = translate (mem s) r' va'.
Proof.
  intros Hok Hr Hc Hus E. unfold usable in Hus. apply andb_true_iff in Hus as [Hus Hwr].
  destruct (try_map_2m_run s bl roots root va count_4k flags s' Hok Hr Hus E) as (pa & Hpa & Hb & Hl).
  exists pa. split; [done |]. intros r' va' Hr' Hc'.
  pose proof (prefix_2m va va' Hc Hc') as Hi.
  pose proof (leaf_pte_spec pa (flag_r flags) (flag_w flags) (flag_x flags) (flag_u flags) Hpa) as Hs.
  case_decide as D.
  - destruct D as [-> D]. case_decide as Da; specialize (Hl root va' Hr'); rewrite decide_True in Hl by tauto.
    + rewrite (translate_leaf _ _ _ _ _ _ _ _ _ _ Hc' Hl Hs) by (change (2 ^ (12 + 9 * 1)) with (2 ^ 21); dlia).
      rewrite Hwr. eexists. split; [reflexivity |]. destruct Hs as [_ _ _ Er Ew Ex Eu]. unfold rights.
      by rewrite Er, Ew, Ex, Eu.
    + unfold translate. rewrite Hc', Hl, (ls_phys _ _ _ _ _ _ Hs). cbn [negb].
      change (2 ^ (12 + 9 * 1)) with (2 ^ 21). rewrite (proj2 (Z.eqb_neq (pa mod 2 ^ 21) 0)) by dlia. done.
  - apply translate_same. by rewrite Hl, decide_False by tauto.
Qed.
End laws.

(** ** An example *)

(** Six megabytes that do not start at a multiple of two. *)
Definition ex_base : Z := 0x80801000.
Definition ex_end : Z := 0x80E01000.
Definition ex_buddy : buddy := get_done (Buddy [] 0 0 0 0 (λ _, 0)) (init (λ _, 0) ex_base ex_end).
Definition ex_vm0 : @vm allocator := MkVm (boot ex_buddy) None THP_DEFAULT 0 0.
Definition ex_vm : @vm allocator := get_done ex_vm0 (init_root_pt 0 ex_vm0).
Definition ex_root : Z := default 0 (ROOT_PT ex_vm).

(** A user page, and the same page also executable. *)
Definition ex_mapped (x : bool) : vm :=
  match map_page 0 ex_vm ex_root 0x10000 0x80C00000 true true x true with
  | Done (_, s) => s
  | _ => ex_vm
  end.

Lemma ex_spaces : spaces_ok ex_vm [(ex_root, 0)] [ex_root].
Proof.
  assert (buddy_ok (boot ex_buddy) []) as Hb.
  { apply (boot_frames_ok (λ _, 0) ex_base ex_end); vm_compute; (reflexivity || (try split; congruence)). }
  assert (spaces_ok ex_vm0 [] []) as H0 by (split; [exact Hb | set_solver | set_solver]).
  destruct (init_root_run 0 ltac:(lia) ex_vm0 [] [] H0) as [E | (s' & q & E & Hq & _ & Hok & _)].
  - assert (match init_root_pt 0 ex_vm0 with Done _ => true | _ => false end = true) as Ho
      by (vm_compute; reflexivity).
    by rewrite E in Ho.
  - unfold ex_root, ex_vm. rewrite E. cbn. by rewrite Hq.
Qed.

Lemma ex_root_in : ex_root ∈ [ex_root].
Proof. apply elem_of_cons. by left. Qed.

Lemma ex_mapped_spaces x :
  ∃ k, spaces_ok (ex_mapped x) (k ++ [(ex_root, 0)]) [ex_root].
Proof.
  destruct (map_page_run 0 ltac:(lia) ex_vm _ _ ex_root 0x10000 0x80C00000 true true x true
              ex_spaces ex_root_in) as (res & s' & k & E & Hok & _).
  exists k. unfold ex_mapped. by rewrite E.
Qed.

Lemma map_page_correct_witness :
  ∃ s' e, map_page 0 ex_vm ex_root 0x10000 0x80C00000 true true false true = Done (Ok (), s') ∧
    translate (mem s') ex_root 0x10008 = Some (0x80C00008, e) ∧ rights e = (true, true, false, true).
Proof.
  destruct (map_page_correct 0 ltac:(lia) ex_vm [(ex_root, 0)] [ex_root] ex_root 0x10000 0x80C00000
              true true false true ex_spaces ex_root_in eq_refl
              ltac:(vm_compute; split; [reflexivity | split; congruence]))
    as (res & s' & k & E & _ & _ & Hres).
  assert (match map_page 0 ex_vm ex_root 0x10000 0x80C00000 true true false true with
          | Done (Ok _, _) => true | _ => false end = true) as Ho by (vm_compute; reflexivity).
  rewrite E in Ho. destruct res as [[] | ?]; [| discriminate].
  destruct Hres as [Hres _]. destruct (Hres 0x10008 eq_refl eq_refl) as (e & Ht & He).
  exists s', e. split; [exact E | split; [exact Ht | exact He]].
Defined.

Lemma map_unmap_roundtrip_witness :
  ∃ s2, unmap_user_page_phys 0 (ex_mapped false) ex_root 0x10000 = Done (Some 0x80C00000, s2) ∧
    translate (mem s2) ex_root 0x10008 = translate (mem ex_vm) ex_root 0x10008.
Proof.
  destruct (map_unmap_roundtrip 0 ltac:(lia) ex_vm (ex_mapped false) [(ex_root, 0)] [ex_root] ex_root
              0x10000 0x80C00000 true true false true ex_spaces ex_root_in eq_refl
              ltac:(vm_compute; split; [reflexivity | split; congruence])) as [_ Hr].
  destruct (map_page_run 0 ltac:(lia) ex_vm _ _ ex_root 0x10000 0x80C00000 true true false true
              ex_spaces ex_root_in) as (res & s' & k & E & _).
  assert (match map_page 0 ex_vm ex_root 0x10000 0x80C00000 true true false true with
          | Done (Ok _, _) => true | _ => false end = true) as Ho by (vm_compute; reflexivity).
  rewrite E in Ho. destruct res as [[] | ?]; [| discriminate].
  assert (ex_mapped false = s') as Es by (unfold ex_mapped; rewrite E; reflexivity).
  rewrite Es in Hr |- *. destruct (Hr eq_refl) as (s2 & E2 & H2).
  - vm_compute. reflexivity.
  - exact E.
  - exists s2. split; [exact E2 |]. apply H2. exact ex_root_in.
Defined.

(** The last two bytes of the page are accepted, one more is not. *)
Lemma range_check_exact_witness :
  is_user_range_valid 0 (ex_mapped false) ex_root 0x10FFE 2 = Done true ∧
  is_user_range_valid 0 (ex_mapped false) ex_root 0x10FFE 3 = Done false ∧
  user_entry (mem (ex_mapped false)) ex_root 0x11000 = false.
Proof.
  destruct (ex_mapped_spaces false) as [k Hok].
  destruct (range_check_exact 0 ltac:(lia) (ex_mapped false) _ _ ex_root 0x10FFE 3 Hok ex_root_in)
    as (b & E & Hb & _); [vm_compute; split; congruence .. | vm_compute; reflexivity |].
  assert (user_entry (mem (ex_mapped false)) ex_root 0x11000 = false) as Hu by (vm_compute; reflexivity).
  split; [vm_compute; reflexivity |]. split; [| exact Hu]. rewrite E. destruct b; [| reflexivity].
  exfalso. rewrite (proj1 Hb eq_refl 0x11000) in Hu; [discriminate |]. vm_compute. split; congruence.
Defined.

Lemma force_wxorx_correct_witness :
  ∃ s' n, force_wxorx (ex_mapped true) ex_root = Done (s', n) ∧
    match translate (mem s') ex_root 0x10008 with
    | Some (pa, e) => pa = 0x80C00008 ∧ is_writable e = true
    | None => False
    end.
Proof.
  destruct (ex_mapped_spaces true) as [k Hok].
  destruct (force_wxorx_correct 0 (ex_mapped true) _ _ ex_root Hok ex_root_in)
    as (s' & n & E & _ & _ & Ht).
  exists s', n. split; [exact E |]. specialize (Ht ex_root 0x10008 ex_root_in eq_refl).
  assert (match translate (mem (ex_mapped true)) ex_root 0x10008 with
          | Some (pa, e) => (pa =? 0x80C00008) && is_writable e | None => false end = true) as Hp
    by (vm_compute; reflexivity).
  destruct (translate (mem (ex_mapped true)) ex_root 0x10008) as [[pa e] |]; [| discriminate].
  apply andb_true_iff in Hp as [Hp Hw]. apply Z.eqb_eq in Hp.
  destruct (translate (mem s') ex_root 0x10008) as [[pa' e'] |]; [| exact Ht].
  destruct Ht as (-> & _ & -> & _). split; assumption.
Defined.

Lemma ex_root_empty : Forall (λ i, mem ex_vm (ex_root + 8 * i) = 0) (zseq 0 512).
Proof. apply (bool_decide_unpack _). vm_compute. exact I. Qed.

(** What the kernel sees of a frame after booting on the example. *)
Lemma kernel_mapping_exact_witness :
  ∃ s' e, setup_kernel_mapping 0 ex_vm = Done s' ∧
    translate (mem s') ex_root (pa_to_kva 0x80200008) = Some (0x80200008, e) ∧
    rights e = (true, true, true, false).
Proof.
  destruct (kernel_mapping_exact 0 ltac:(lia) ex_vm [(ex_root, 0)] ex_root (so_frames _ _ _ ex_spaces))
    as [[E _] | (s' & E & Ht)].
  - apply elem_of_cons. by left.
  - vm_compute. reflexivity.
  - intros i Hi. apply (proj1 (Forall_forall _ _) ex_root_empty), elem_of_zseq. lia.
  - assert (match setup_kernel_mapping 0 ex_vm with Done _ => true | _ => false end = true) as Ho
      by (vm_compute; reflexivity).
    rewrite E in Ho. discriminate.
  - destruct (Ht (pa_to_kva 0x80200008) eq_refl) as (e & He & Hr). exists s', e.
    split; [exact E | split; [exact He | exact Hr]].
Defined.

(** A page for the root of a process, after booting on the example. *)
Definition ex_kernel : @vm allocator := get_done ex_vm (setup_kernel_mapping 0 ex_vm).
Definition ex_process : Z * @vm allocator :=
  get_done (0, ex_kernel) ('(o, s) ← alloc_page 0 ex_kernel; p ← unwrap o; s ← zero s p PAGE_SIZE; Done (p, s)).

Lemma ex_process_ready :
  ∃ bl kr l1 mmio n, contents 0 ex_process.2 bl [(kr, kernel_root l1 mmio); (l1, kernel_l1); (mmio, kernel_mmio)] n ∧
    ROOT_PT ex_process.2 = Some kr ∧ (ex_process.1, 0) ∈ bl ∧ ex_process.1 ∉ [kr; l1; mmio].
Proof.
  destruct (setup_run 0 ltac:(lia) ex_vm [(ex_root, 0)] ex_root (free_frames 0 ex_vm)) as [[E _] | (s1 & l1 & mmio & E & Hs)].
  - vm_compute. reflexivity.
  - split; [apply ex_spaces | reflexivity | apply NoDup_singleton |]. apply Forall_singleton. split; [apply elem_of_cons; by left |].
    intros i Hi. apply (proj1 (Forall_forall _ _) ex_root_empty), elem_of_zseq. lia.
  - assert (match setup_kernel_mapping 0 ex_vm with Done _ => true | _ => false end = true) as Ho by (vm_compute; reflexivity).
    by rewrite E in Ho.
  - assert (ex_kernel = s1) as Ek by (unfold ex_kernel; by rewrite E).
    assert (ROOT_PT ex_process.2 = Some ex_root) as Hr by (vm_compute; reflexivity).
    destruct (contents_new 0 ltac:(lia) s1 _ _ _ Hs) as (o & s2 & Ea & Ho).
    assert (match alloc_page 0 ex_kernel with Done (Some _, _) => true | _ => false end = true) as Hsome
      by (vm_compute; reflexivity).
    rewrite Ek, Ea in Hsome. destruct o as [p |]; [| discriminate Hsome]. destruct Ho as (s3 & Ez & Hc).
    assert (ex_process = (p, s3)) as Ep
      by (unfold ex_process; rewrite Ek, Ea; cbn [mbind outcome_bind unwrap]; by rewrite Ez).
    rewrite Ep in Hr |- *. exists ((p, 0) :: (mmio, 0) :: (l1, 0) :: [(ex_root, 0)]), ex_root, l1, mmio, (free_frames 0 s3).
    destruct Hc as [Hf _ Hn Hc]. apply Forall_cons in Hc as [_ Hc]. cbn in Hn. apply NoDup_cons in Hn as [Hnin Hn].
    split; [split; [exact Hf | reflexivity | exact Hn | exact Hc] |]. split; [exact Hr |].
    split; [apply elem_of_cons; by left | exact Hnin].
Qed.

Lemma copy_kernel_mappings_exact_witness :
  ∃ s' e, copy_kernel_mappings 0 ex_process.2 ex_process.1 = Done s' ∧
    translate (mem s') ex_process.1 0x80200000 = Some (0x80200000, e) ∧ rights e = (true, true, true, false).
Proof.
  destruct ex_process_ready as (bl & kr & l1 & mmio & n & Hc & Hr & Ht & Hn).
  destruct (copy_kernel_mappings_exact 0 ltac:(lia) ex_process.2 bl kr l1 mmio n ex_process.1 Hc Hr Ht Hn)
    as [[E _] | (s' & k & E & _ & Hm)].
  - assert (match copy_kernel_mappings 0 ex_process.2 ex_process.1 with Done _ => true | _ => false end = true) as Ho
      by (vm_compute; reflexivity).
    rewrite E in Ho. discriminate Ho.
  - destruct (Hm 0x80200000 eq_refl) as (e & He & Hrt). exists s', e. split; [exact E | split; [exact He | exact Hrt]].
Defined.

Lemma huge_pages_need_aligned_base_witness :
  ∃ s', try_map_2m 0 ex_vm ex_root 0x200000 512 11 = Done (true, s') ∧
    translate (mem s') ex_root 0x200000 = None.
Proof.
  assert (match try_map_2m 0 ex_vm ex_root 0x200000 512 11 with Done (b, _) => b | _ => false end = true)
    as Ho by (vm_compute; reflexivity).
  destruct (try_map_2m 0 ex_vm ex_root 0x200000 512 11) as [[[|] s'] | | |] eqn:E; [| discriminate Ho ..].
  exists s'. split; [reflexivity |].
  destruct (huge_pages_need_aligned_base 0 ltac:(lia) ex_vm s' _ _ ex_root 0x200000 512 11 ex_spaces
              ex_root_in eq_refl eq_refl E) as (pa & _ & Ht).
  specialize (Ht ex_root 0x200000 ex_root_in eq_refl).
  destruct (decide (ex_root = ex_root ∧ _)) as [_ | Hn]; [| destruct Hn; split; reflexivity].
  destruct (decide _) as [Hb |]; [| assumption]. vm_compute in Hb. discriminate.
Defined.
End Sv39.
