(* ===== verification/Elf.v ===== *)
(** * The ELF loader

    kernel/src/proc/elf.rs: [load_elf] reads the headers of a program, gives
    every page of its segments a frame, copies the file into the frames, adds a
    stack page and lets the write-xor-execute sweep run.  It has a page-table
    walk of its own, [walk_pt], which does not stop at huge pages.

    The image is a list of bytes.  The code reads headers through a cast of a
    pointer into the slice; a read that leaves the slice is undefined in the
    language and [Panic] here.  Frames hold bytes in little-endian 64-bit words,
    as physical memory does in Sv39.v.  Console output is not modelled;
    [load_elf_transactional] is in Tx.v.

    The theorems: a well-formed image is loaded byte for byte, with zeroes where
    the file ends and with its rights ([load_elf_correct]); a segment that lies
    in a huge page, such as the kernel's own mapping of DRAM, makes the loader
    write entries into the memory behind that page ([map_into_huge_page]). *)
From S2P Require Import Prelude Buddy Frames Proc Sv39.
Import Sv39.

Module Elf.

(** ** Bytes in memory *)

Definition read_byte (m : Z → Z) (a : Z) : Z := m (a - a mod 8) / 2 ^ (8 * (a mod 8)) mod 256.

Definition write_byte (m : Z → Z) (a b : Z) : Z → Z :=
  write_word m (a - a mod 8) (m (a - a mod 8) + (b - read_byte m a) * 2 ^ (8 * (a mod 8))).

Fixpoint write_list (m : Z → Z) (a : Z) (bs : list Z) : Z → Z :=
  match bs with
  | [] => m
  | b :: bs' => write_list (write_byte m a b) (a + 1) bs'
  end.

(** ** Headers *)

Record Elf64Header : Type := MkHeader {
  ident : list Z;
  e_machine : Z;
  e_entry : Z;
  e_phoff : Z;
  e_phentsize : Z;
  e_phnum : Z;
}.

Record Elf64Phdr : Type := MkPhdr {
  p_type : Z;
  p_flags : Z;
  p_offset : Z;
  p_vaddr : Z;
  p_filesz : Z;
  p_memsz : Z;
}.

Definition HEADER_SIZE : Z := 64.
Definition PHDR_SIZE : Z := 56.
Definition PT_LOAD : Z := 1.
Definition PF_X : Z := 1.
Definition PF_W : Z := 2.
Definition PF_R : Z := 4.
Definition EM_RISCV : Z := 243.
Definition ELF_MAGIC : list Z := [127; 69; 76; 70].

(** The little-endian field of [n] bytes at [off]. *)
Definition field (data : list Z) (off : Z) (n : nat) : Z :=
  of_le_bytes (take n (drop (Z.to_nat off) data)).

(** [&*(ptr as *const Elf64Header)], where the slice is long enough. *)
Definition read_header (data : list Z) : Elf64Header :=
  MkHeader (take 16 data) (field data 18 2) (field data 24 8) (field data 32 8)
    (field data 54 2) (field data 56 2).

(** [&*(ptr.add(off) as *const Elf64Phdr)]. *)
Definition phdr_at (data : list Z) (off : Z) : Elf64Phdr :=
  MkPhdr (field data off 4) (field data (off + 4) 4) (field data (off + 8) 8)
    (field data (off + 16) 8) (field data (off + 32) 8) (field data (off + 40) 8).

Definition read_phdr (data : list Z) (off : Z) : outcome Elf64Phdr :=
  if off + PHDR_SIZE <=? zlen data then Done (phdr_at data off) else Panic.

(** The checks before the first program header. *)
Definition check_header (data : list Z) : option Elf64Header :=
  if zlen data <? HEADER_SIZE then None else
  let h := read_header data in
  if negb (bool_decide (take 4 (ident h) = ELF_MAGIC)) then None else
  if negb (e_machine h =? EM_RISCV) then None else
  if zlen data <? u64 (e_phoff h + e_phnum h * e_phentsize h) then None else Some h.

Definition seg_r (p : Elf64Phdr) : bool := negb (Z.land (p_flags p) PF_R =? 0).
Definition seg_w (p : Elf64Phdr) : bool := negb (Z.land (p_flags p) PF_W =? 0).
Definition seg_x (p : Elf64Phdr) : bool := negb (Z.land (p_flags p) PF_X =? 0).
Definition seg_start (p : Elf64Phdr) : Z := page_align_down (p_vaddr p).
Definition seg_end (p : Elf64Phdr) : Z := page_align_up (u64 (p_vaddr p + p_memsz p)).

(** The addresses of [(start..end).step_by(PAGE_SIZE)], both page-aligned. *)
Definition page_steps (start end_ : Z) : list Z :=
  (λ k, start + k * PAGE_SIZE) <$> zseq 0 ((end_ - start) / PAGE_SIZE).

Definition STACK_BOTTOM : Z := 0x3FFFFFF000.

Section elf.
Context {A : Type} `{FA : FrameAllocator A} (hart : Z).

(** ** The loader's own walk *)

(** One level: a valid entry is taken as a pointer to a table. *)
Definition descend_pt (s : vm) (page i : Z) (alloc : bool) : outcome (option Z * vm) :=
  e ← pte_at s page i;
  if negb (is_valid e) then if negb alloc then Done (None, s) else add_table hart s page i
  else Done (Some (phys_addr e), s).

Definition walk_pt (s : vm) (root va : Z) (alloc : bool) : outcome (option (Z * Z) * vm) :=
  '(o1, s) ← descend_pt s root (vpn2 va) alloc;
  match o1 with
  | None => Done (None, s)
  | Some l1 =>
      '(o0, s) ← descend_pt s l1 (vpn1 va) alloc;
      Done (option_map (λ l0, (l0, vpn0 va)) o0, s)
  end.

Definition map_into_pt (s : vm) (root va pa : Z) (r w x u : bool) : outcome vm :=
  '(o, s) ← walk_pt s root va true;
  '(l0, idx) ← unwrap o;
  set_pte s l0 idx (leaf_pte pa r w x u).

Definition virt_to_phys_in_pt (s : vm) (root va : Z) : outcome (option Z) :=
  '(o, s) ← walk_pt s root va false;
  match o with
  | None => Done None
  | Some (l0, idx) =>
      e ← pte_at s l0 idx;
      Done (if is_valid e && is_leaf e then Some (Z.lor (phys_addr e) (offset va)) else None)
  end.

(** [copy_nonoverlapping] into the frame at [dst]. *)
Definition copy_in (s : vm) (dst : Z) (bs : list Z) : outcome vm :=
  if in_dram dst && (dst + zlen bs <=? DRAM_END)
  then Done (s <| frames := fa_store (frames s) (write_list (mem s) dst bs) |>)
  else Panic.

(** ** Segments *)

Definition load_page (root : Z) (r w x : bool) (s : vm) (page_va : Z) : outcome vm :=
  '(o, s) ← alloc_page hart s;
  phys ← unwrap o;
  s ← zero s phys PAGE_SIZE;
  map_into_pt s root page_va phys r w x true.

(** [while remaining > 0]; every pass but the first starts at a page. *)
Fixpoint copy_loop (fuel : nat) (s : vm) (root : Z) (data : list Z)
    (offset vaddr copy_va remaining : Z) : outcome vm :=
  if remaining <=? 0 then Done s else
  match fuel with
  | O => OutOfFuel
  | S fuel' =>
      let page_off := Z.land copy_va (PAGE_SIZE - 1) in
      let chunk := Z.min remaining (PAGE_SIZE - page_off) in
      o ← virt_to_phys_in_pt s root copy_va;
      phys ← unwrap o;
      src ← aslice data (u64 (offset + u64 (copy_va - vaddr)))
              (u64 (offset + u64 (copy_va - vaddr)) + chunk);
      s ← copy_in s phys src;
      copy_loop fuel' s root data offset vaddr (u64 (copy_va + chunk)) (remaining - chunk)
  end.

Definition load_segment (data : list Z) (root : Z) (s : vm) (p : Elf64Phdr) : outcome vm :=
  if negb (p_type p =? PT_LOAD) then Done s else
  if p_memsz p =? 0 then Done s else
  s ← for_each (load_page root (seg_r p) (seg_w p) (seg_x p)) s (page_steps (seg_start p) (seg_end p));
  if (0 <? p_filesz p) && (u64 (p_offset p + p_filesz p) <=? zlen data)
  then copy_loop (Z.to_nat (p_filesz p / PAGE_SIZE + 2)) s root data (p_offset p) (p_vaddr p)
         (p_vaddr p) (p_filesz p)
  else Done s.

Definition load_phdr (data : list Z) (h : Elf64Header) (root : Z) (s : vm) (i : Z) : outcome vm :=
  p ← read_phdr data (e_phoff h + i * e_phentsize h);
  load_segment data root s p.

Definition load_stack (s : vm) (root : Z) : outcome (bool * vm) :=
  '(o, s) ← alloc_page hart s;
  match o with
  | None => Done (false, s)
  | Some stack_phys =>
      s ← zero s stack_phys PAGE_SIZE;
      s ← map_into_pt s root STACK_BOTTOM stack_phys true true false true;
      Done (true, s)
  end.

Definition load_elf (s : vm) (data : list Z) (root : Z) : outcome (option (Z * Z) * vm) :=
  match check_header data with
  | None => Done (None, s)
  | Some h =>
      s ← for_each (load_phdr data h root) s (zseq 0 (e_phnum h));
      '(ok, s) ← load_stack s root;
      if negb ok then Done (None, s) else
      '(s, _) ← force_wxorx s root;
      Done (Some (e_entry h, STACK_BOTTOM + PAGE_SIZE - 16), s)
  end.

(** A device page for a user process. *)
Definition map_phys_to_user (s : vm) (root phys : Z) : outcome (Z * vm) :=
  let va := 0x40000000 + Z.land phys 0xFFF in
  s ← map_into_pt s root va phys true true false true;
  Done (va, s).
End elf.

(** ** Bytes *)

Lemma byte_update v b i j :
  0 <= i < 8 → 0 <= j < 8 → is_byte b →
  (v + (b - v / 2 ^ (8 * i) mod 256) * 2 ^ (8 * i)) / 2 ^ (8 * j) mod 256 =
    if decide (i = j) then b else v / 2 ^ (8 * j) mod 256.
Proof.
  unfold is_byte. intros Hi Hj Hb. set (q := v / 2 ^ (8 * i)).
  assert (0 < 2 ^ (8 * i)) as Hpi by (apply pow2_pos; lia).
  assert (0 < 2 ^ (8 * j)) as Hpj by (apply pow2_pos; lia).
  pose proof (Z.div_mod q 256 ltac:(lia)) as Hq. pose proof (Z.mod_pos_bound q 256 ltac:(lia)) as HB.
  assert (q + (b - q mod 256) = b + q / 256 * 256) as Hq' by lia.
  destruct (Z.lt_trichotomy i j) as [Hlt | [<- | Hgt]].
  - rewrite decide_False by lia. f_equal.
    replace (8 * j) with (8 * i + (8 + 8 * (j - i - 1))) by lia.
    rewrite Z.pow_add_r, <-!Z.div_div by (lia || (apply pow2_pos; lia)). rewrite Z.div_add by lia.
    fold q. rewrite Hq', Z.pow_add_r, <-!Z.div_div by (lia || (apply pow2_pos; lia)).
    change (2 ^ 8) with 256. rewrite Z.div_add, (Z.div_small b) by lia. done.
  - rewrite decide_True by done. rewrite Z.div_add by lia. fold q. rewrite Hq', Z_mod_plus_full.
    by apply Z.mod_small.
  - rewrite decide_False by lia.
    replace (2 ^ (8 * i)) with (2 ^ (8 * (i - j - 1)) * 256 * 2 ^ (8 * j)) at 1.
    + rewrite !Z.mul_assoc, Z.div_add by lia. apply Z_mod_plus_full.
    + change 256 with (2 ^ 8). rewrite <-!Z.pow_add_r by lia. f_equal. lia.
Qed.

Lemma read_write_byte m a b x :
  is_byte b → read_byte (write_byte m a b) x = if decide (x = a) then b else read_byte m x.
Proof.
  intros Hb. unfold write_byte, read_byte.
  destruct (decide (x - x mod 8 = a - a mod 8)) as [E | E].
  - rewrite E, write_word_eq, byte_update by (done || dlia).
    destruct (decide (a mod 8 = x mod 8)); [rewrite decide_True by lia | rewrite decide_False by congruence]; done.
  - rewrite decide_False by congruence. by rewrite write_word_ne.
Qed.

Lemma read_write_list bs m a x :
  Forall is_byte bs →
  read_byte (write_list m a bs) x =
    match bs !! Z.to_nat (x - a) with
    | Some b => if decide (a <= x) then b else read_byte m x
    | None => read_byte m x
    end.
Proof.
  revert m a. induction bs as [| b bs IH]; intros m a Hbs; [done |].
  apply Forall_cons in Hbs as [Hb Hbs]. cbn [write_list]. rewrite IH, read_write_byte by done.
  destruct (decide (x = a)) as [-> | Hne].
  - replace (Z.to_nat (a - a)) with 0%nat by lia. change ((b :: bs) !! 0%nat) with (Some b).
    destruct (bs !! _); repeat case_decide; (lia || done).
  - destruct (decide (a <= x)) as [Hle | Hgt].
    + replace (Z.to_nat (x - a)) with (S (Z.to_nat (x - (a + 1)))) by lia.
      change ((b :: bs) !! S ?n) with (bs !! n). destruct (bs !! _); repeat case_decide; (lia || done).
    + destruct (bs !! _), ((b :: bs) !! _); repeat case_decide; (lia || done).
Qed.

(** Only the words of the bytes change. *)
Lemma write_list_out bs m a y :
  (∀ k, 0 <= k < zlen bs → y ≠ a + k - (a + k) mod 8) → write_list m a bs y = m y.
Proof.
  revert m a. induction bs as [| b bs IH]; intros m a Hy; [done |]. cbn [write_list].
  change (b :: bs) with ([b] ++ bs) in Hy. rewrite zlen_app in Hy. change (zlen [b]) with 1 in Hy.
  pose proof (zlen_nonneg bs). rewrite IH.
  - unfold write_byte. apply write_word_ne. specialize (Hy 0 ltac:(lia)). by rewrite Z.add_0_r in Hy.
  - intros k Hk. specialize (Hy (k + 1) ltac:(lia)). by replace (a + 1 + k) with (a + (k + 1)) by lia.
Qed.

(** The bytes of a file from [off] on. *)
Definition file_bytes (data : list Z) (off n : Z) : list Z := take (Z.to_nat n) (drop (Z.to_nat off) data).

Lemma file_bytes_len data off n : 0 <= off → 0 <= n → off + n <= zlen data → zlen (file_bytes data off n) = n.
Proof. unfold file_bytes, zlen. intros. rewrite length_take, length_drop. lia. Qed.

Lemma file_bytes_split data off n k :
  0 <= off → 0 <= k <= n →
  file_bytes data off n = file_bytes data off k ++ file_bytes data (off + k) (n - k).
Proof.
  intros Ho Hk. unfold file_bytes. replace (Z.to_nat (off + k)) with (Z.to_nat off + Z.to_nat k)%nat by lia.
  rewrite <-drop_drop. replace (Z.to_nat n) with (Z.to_nat k + Z.to_nat (n - k))%nat by lia.
  by rewrite take_take_drop.
Qed.

Lemma file_bytes_bytes data off n : Forall is_byte data → Forall is_byte (file_bytes data off n).
Proof. intros Hd. by apply Forall_take, Forall_drop. Qed.

(** ** Well-formed segments *)

Definition loadable (p : Elf64Phdr) : bool := (p_type p =? PT_LOAD) && negb (p_memsz p =? 0).

(** The page numbers of a segment. *)
Definition seg_pages (p : Elf64Phdr) : list Z :=
  zseq (p_vaddr p / 4096) ((p_vaddr p + p_memsz p + 4095) / 4096 - p_vaddr p / 4096).

(** A segment below the stack page, readable, whose bytes are in the file. *)
Record seg_ok (data : list Z) (p : Elf64Phdr) : Prop := {
  sg_addr : 0 <= p_vaddr p ∧ 0 < p_memsz p ∧ p_vaddr p + p_memsz p <= STACK_BOTTOM;
  sg_file : 0 <= p_filesz p <= p_memsz p ∧ 0 <= p_offset p ∧ p_offset p + p_filesz p <= zlen data;
  sg_read : seg_r p = true;
}.

Definition seg_bytes (data : list Z) (p : Elf64Phdr) : list Z := file_bytes data (p_offset p) (p_filesz p).

Lemma page_align_up_eq va : 0 <= va → va + 4095 < 2 ^ 64 → page_align_up va = (va + 4095) / 4096 * 4096.
Proof.
  intros H0 H1. unfold page_align_up, PAGE_SIZE. replace (va + 4096 - 1) with (va + 4095) by lia.
  rewrite wrap_small by (unfold fits; lia). apply (ldiff_low _ 12). lia.
Qed.

Lemma zseq_shift a n : zseq a n = (λ k, a + k) <$> zseq 0 n.
Proof. unfold zseq. rewrite <-list_fmap_compose. apply list_fmap_ext. intros i x _. cbn. lia. Qed.

Lemma seg_steps data p :
  seg_ok data p → page_steps (seg_start p) (seg_end p) = (λ v, v * 4096) <$> seg_pages p.
Proof.
  intros [Ha _ _]. unfold STACK_BOTTOM in Ha. unfold page_steps, seg_start, seg_end, seg_pages.
  rewrite page_align_down_eq, wrap_small by (unfold fits; lia).
  rewrite page_align_up_eq by lia. rewrite (zseq_shift (p_vaddr p / 4096)), <-list_fmap_compose.
  set (a := p_vaddr p / 4096). set (b := (p_vaddr p + p_memsz p + 4095) / 4096).
  replace ((b * 4096 - a * 4096) / PAGE_SIZE) with (b - a)
    by (unfold PAGE_SIZE; rewrite <-Z.mul_sub_distr_r, Z.div_mul; lia).
  apply list_fmap_ext. intros i x _. unfold PAGE_SIZE. cbn. lia.
Qed.

Lemma seg_pages_of data p va :
  seg_ok data p → p_vaddr p <= va < p_vaddr p + p_memsz p → va / 4096 ∈ seg_pages p.
Proof. intros [Ha _ _] Hva. apply elem_of_zseq. dlia. Qed.

Abbreviation pages_of segs := (mjoin (seg_pages <$> segs)).

Section laws.
Context {A : Type} `{FL : FrameLaws A} (hart : Z).
Hypothesis hart_ok : 0 <= hart.

(** ** The two walks *)

Lemma descend_pt_eq (s : @vm A) bl p i alloc :
  fa_ok (frames s) bl → (p, 0) ∈ bl → 0 <= i < 512 → is_leaf (mem s (p + 8 * i)) = false →
  descend_pt hart s p i alloc = descend hart s p i alloc.
Proof.
  intros Hf Hp Hi Hl. unfold descend_pt, descend. rewrite (pte_at_run s bl) by done.
  cbn [mbind outcome_bind]. by rewrite Hl.
Qed.

(** No huge page on the way. *)
Definition small (m : Z → Z) (root va : Z) : Prop := ∀ l e, hw_leaf m root va = Some (l, e) → l = 0.

Lemma walk_pt_eq (s : @vm A) bl roots root va alloc :
  spaces_ok s bl roots → root ∈ roots → small (mem s) root va →
  walk_pt hart s root va alloc = walk_process_pt hart s root va alloc.
Proof.
  intros Hok Hr Hs. destruct (vpn_bounds va) as (B2 & B1 & _). unfold walk_pt, walk_process_pt.
  pose proof (so_owned _ _ _ Hok root [] root Hr ltac:(split; [cbn; lia | constructor]) eq_refl) as Ho.
  assert (∀ t r π i σ p, vpath va = π ++ i :: σ → table (mem t) r π = Some p → σ ≠ [] →
            (∀ l e, hw_leaf (mem t) r va = Some (l, e) → l = 0) → is_leaf (mem t (p + 8 * i)) = false) as Hno.
  { intros t r π i σ p Hv Ht Hσ Hsm. destruct (is_leaf (mem t (p + 8 * i))) eqn:El; [| done].
    pose proof (hw_leaf_stops (mem t) r va π i σ p Hv Ht ltac:(auto)) as E. rewrite El in E.
    apply Hsm in E. by destruct σ. }
  rewrite (descend_pt_eq s bl) by (apply Hok || done || by eapply (Hno s root [])).
  destruct (descend_run hart hart_ok s bl roots root root (vpn2 va) [] Hok Hr ltac:(cbn; lia)
              (Forall_nil_2 _) eq_refl B2 alloc) as (o1 & s1 & k1 & -> & G1 & _ & T1).
  cbn [mbind outcome_bind app] in *. destruct o1 as [l1 |]; [destruct T1 as [T1 _] | done].
  pose proof (gr_ok _ _ _ _ _ _ G1) as Hok1.
  rewrite (descend_pt_eq s1 (k1 ++ bl)); [done | apply Hok1 | | done |].
  - eapply (so_owned _ _ _ Hok1 root [vpn2 va]); [done | by apply path_1 | done].
  - eapply (Hno s1 root [vpn2 va] _ [vpn0 va]); [done | done | done |].
    intros l e. rewrite (gr_leaf _ _ _ _ _ _ G1) by done. apply Hs.
Qed.

Lemma map_into_eq (s : @vm A) bl roots root va pa r w x u :
  spaces_ok s bl roots → root ∈ roots → small (mem s) root va →
  map_into_pt hart s root va pa r w x u =
    ('(res, s') ← map_page hart s root va pa r w x u;
     match res with Ok _ => Done s' | Err _ => Panic end).
Proof.
  intros Hok Hr Hs. unfold map_into_pt, map_page. rewrite (walk_pt_eq s bl roots) by done.
  destruct (walk_process_pt hart s root va true) as [[[[l0 idx] |] s1] | | |]; try done.
  cbn [mbind outcome_bind unwrap]. by destruct (set_pte s1 l0 idx _).
Qed.

Lemma virt_to_phys_run (s : @vm A) bl roots root va e :
  spaces_ok s bl roots → root ∈ roots → hw_leaf (mem s) root va = Some (0, e) →
  virt_to_phys_in_pt hart s root va = Done (Some (phys_addr e + va mod 4096)).
Proof.
  intros Hok Hr Hl. unfold virt_to_phys_in_pt. rewrite (walk_pt_eq s bl roots);
    [| done | done | intros l e' E; rewrite Hl in E; by injection E].
  destruct (walk_run hart hart_ok s bl roots root va false Hok Hr) as (o & s1 & k & -> & _ & Hsame & Ho).
  destruct (Hsame eq_refl) as [-> _]. cbn [mbind outcome_bind].
  apply hw_leaf_4k in Hl as (He & l0 & Ht & ->).
  destruct o as [[l0' idx] |]; [destruct Ho as (Ht' & -> & _) | destruct Ho; congruence].
  rewrite Ht in Ht'. injection Ht' as <-. destruct (vpn_bounds va) as (_ & _ & B0).
  pose proof (so_owned _ _ _ Hok _ _ _ Hr (path_last va) Ht) as Hl0.
  rewrite (pte_at_run s bl) by (apply Hok || done). cbn [mbind outcome_bind].
  rewrite (leaf_valid _ He), He. cbn [andb]. do 2 f_equal. unfold offset.
  change (PAGE_SIZE - 1) with (Z.ones 12). rewrite Z.land_ones by lia. change (2 ^ 12) with 4096.
  apply (lor_low _ _ 12); [lia | | dlia]. rewrite phys_addr_eq. change (2 ^ 12) with 4096. by rewrite Z.mod_mul.
Qed.

(** ** The image so far *)

(** A page of the program: its number, its frame and its rights. *)
Record page : Type := MkPage { pg_vpn : Z; pg_frame : Z; pg_r : bool; pg_w : bool; pg_x : bool }.

#[export] Instance page_eq_dec : EqDecision page.
Proof. solve_decision. Defined.

Definition page_entry (g : page) : Z := leaf_pte (pg_frame g) (pg_r g) (pg_w g) (pg_x g) true.

(** From [s0], the pages [pgs] have been added to an address space, with the
    bytes [img], using the blocks [k]: for each page its frame and two tables at most. *)
Record loaded (s0 : vm) (bl : list (Z * Z)) (roots : list Z) (root : Z)
    (pgs : list page) (img : Z → Z) (s : vm) (k : list (Z * Z)) : Prop := {
  ld_ok : spaces_ok s (k ++ bl) roots;
  ld_leaf g : g ∈ pgs → hw_leaf (mem s) root (pg_vpn g * 4096) = Some (0, page_entry g);
  ld_frame g : g ∈ pgs → (pg_frame g, 0) ∈ k;
  ld_data g r π : g ∈ pgs → r ∈ roots → path π → table (mem s) r π ≠ Some (pg_frame g);
  ld_frames : NoDup (pg_frame <$> pgs);
  ld_pages : NoDup (pg_vpn <$> pgs);
  ld_user : Forall (λ g, 0 <= pg_vpn g < 2 ^ 26 ∧ pg_r g = true) pgs;
  ld_bytes g o : g ∈ pgs → 0 <= o < 4096 →
    read_byte (mem s) (pg_frame g + o) = img (pg_vpn g * 4096 + o);
  ld_other r va : r ∈ roots → canonical va = true → r ≠ root ∨ va / 4096 ∉ pg_vpn <$> pgs →
    hw_leaf (mem s) r va = hw_leaf (mem s0) r va;
  ld_tables r π p : r ∈ roots → path π → table (mem s) r π = Some p →
    table (mem s0) r π = Some p ∨ (p, 0) ∈ k;
  ld_kept y : in_use bl y → ¬ table_word (mem s0) roots y → mem s y = mem s0 y;
  ld_spare : free_frames hart s0 - 3 * zlen pgs <= free_frames hart s;
}.

Section image.
Context (s0 : @vm A) (bl : list (Z * Z)) (roots : list Z) (root : Z).
Hypothesis Hroot : root ∈ roots.

Lemma loaded_start : spaces_ok s0 bl roots → loaded s0 bl roots root [] (λ _, 0) s0 [].
Proof.
  intros Hok. split; try done; try (intros; by set_solver); try constructor. unfold zlen. cbn. lia.
Qed.

Lemma user_canonical v : 0 <= v < 2 ^ 26 → canonical (v * 4096) = true ∧ v * 4096 / 4096 = v.
Proof.
  intros Hv. split; [| by rewrite Z.div_mul]. unfold canonical.
  apply orb_true_iff. left. apply andb_true_iff. rewrite Z.leb_le, Z.ltb_lt. lia.
Qed.

(** A frame is not a table, and a fresh one neither. *)
Lemma fresh_not_table (s s1 : @vm A) p blk r π :
  spaces_ok s blk roots → fa_ok (frames s1) ((p, 0) :: blk) → r ∈ roots → path π →
  table (mem s) r π ≠ Some p.
Proof.
  intros Hok Hf Hr Hπ Ht. pose proof (so_owned _ _ _ Hok _ _ _ Hr Hπ Ht) as Hin.
  by apply (fresh_page s1 blk p p).
Qed.

(** What [load_page] does before it maps: a cleared frame, nothing else. *)
Lemma new_frame_run (s : @vm A) blk :
  spaces_ok s blk roots →
  ∃ o s1, alloc_page hart s = Done (o, s1) ∧
    match o with
    | None => free_frames hart s = 0
    | Some p => ∃ s2, zero s1 p PAGE_SIZE = Done s2 ∧ free_frames hart s2 = free_frames hart s - 1 ∧
        spaces_ok s2 ((p, 0) :: blk) roots ∧
        (∀ x, in_use blk x → mem s2 x = mem s x) ∧ (∀ x, in_block p 0 x → mem s2 x = 0) ∧
        (∀ r π, r ∈ roots → path π → table (mem s2) r π = table (mem s) r π) ∧
        (∀ r va, r ∈ roots → hw_leaf (mem s2) r va = hw_leaf (mem s) r va) ∧
        (∀ r π, r ∈ roots → path π → table (mem s2) r π ≠ Some p)
    end.
Proof.
  intros Hok. destruct (alloc_page_run hart hart_ok s blk (so_frames _ _ _ Hok)) as (o & s1 & E1 & _ & M1 & _ & F1).
  pose proof (alloc_page_spare hart hart_ok s blk o s1 (so_frames _ _ _ Hok) E1) as S1.
  exists o, s1. split; [done |]. destruct o as [p |]; [| apply S1].
  assert ((p, 0) ∈ (p, 0) :: blk) as Hin by (apply elem_of_cons; by left).
  destruct (zero_run s1 _ p 0 F1 Hin) as [E2 F2].
  replace (2 ^ 0 * PAGE_SIZE) with PAGE_SIZE in E2, F2 by done. set (s2 := stored s1 _) in *.
  assert (mem s2 = cleared (mem s1) p PAGE_SIZE) as M2 by apply mem_stored.
  assert (∀ x, in_use blk x → mem s2 x = mem s x) as Hk.
  { intros x Hx. rewrite M2, cleared_out; [by apply M1 |]. intros Hi.
    apply (fa_disjoint _ blk p 0 x F1); [| done]. unfold in_block. change (2 ^ 0) with 1. lia. }
  destruct (spaces_quiet s s2 blk [(p, 0)] roots Hok F2) as (Hok2 & Ht & Hl).
  { intros x Hx. apply Hk. by eapply table_word_in_use. }
  exists s2. split_and!; try done.
  - by rewrite (zero_spare hart s1 _ p s2 F1 Hin E2).
  - intros x Hx. rewrite M2. apply cleared_in. unfold in_block in Hx. change (2 ^ 0) with 1 in Hx. lia.
  - intros r π Hr Hπ. rewrite Ht by done. by apply (fresh_not_table s s1 p blk).
Qed.

Lemma in_page f x : in_block f 0 x ↔ f <= x < f + 4096.
Proof. unfold in_block, PAGE_SIZE. change (2 ^ 0) with 1. lia. Qed.

(** Words of a page that is no table are no words of tables. *)
Lemma data_word (s : @vm A) blk f x :
  spaces_ok s blk roots → (f, 0) ∈ blk → (∀ r π, r ∈ roots → path π → table (mem s) r π ≠ Some f) →
  in_block f 0 x → ¬ table_word (mem s) roots x.
Proof.
  intros Hok Hf Hn Hx (r & π & p & Hr & Hπ & Hp & Hpx).
  pose proof (so_owned _ _ _ Hok _ _ _ Hr Hπ Hp) as Hpo.
  destruct (page_facts _ _ _ (so_frames _ _ _ Hok) Hf) as [[Hfa _] _].
  destruct (page_facts _ _ _ (so_frames _ _ _ Hok) Hpo) as [[Hpa _] _].
  rewrite in_page in Hx, Hpx. apply (Hn r π Hr Hπ). rewrite Hp. f_equal. dlia.
Qed.

Lemma read_byte_same m m' f o :
  f mod 4096 = 0 → 0 <= o < 4096 → (∀ x, in_block f 0 x → m' x = m x) →
  read_byte m' (f + o) = read_byte m (f + o).
Proof. intros Hf Ho Hm. unfold read_byte. rewrite Hm; [done |]. apply in_page. dlia. Qed.

Lemma frame_aligned (s : @vm A) blk f : spaces_ok s blk roots → (f, 0) ∈ blk → frame_addr f.
Proof. intros Hok Hf. by apply (page_facts _ _ _ (so_frames _ _ _ Hok)). Qed.

(** Pages of two parts of the list of blocks in use are different. *)
Lemma parts_differ (a : A) k1 k2 p q : fa_ok a (k1 ++ k2) → (p, 0) ∈ k1 → (q, 0) ∈ k2 → p ≠ q.
Proof.
  intros Hf Hp Hq ->. apply (blocks_apart a k1 k2 q Hf); exists q, 0; (split; [done |]); apply in_page; lia.
Qed.

(** The mapping of a fresh frame, seen from the pages there are. *)
Lemma map_fresh_run (s2 : @vm A) blk p v w x :
  spaces_ok s2 ((p, 0) :: blk) roots → 0 <= v < 2 ^ 26 → small (mem s2) root (v * 4096) →
  (∀ r π, r ∈ roots → path π → table (mem s2) r π ≠ Some p) →
  map_into_pt hart s2 root (v * 4096) p true w x true = Panic ∧ free_frames hart s2 < 2 ∨
  ∃ s' k, map_into_pt hart s2 root (v * 4096) p true w x true = Done s' ∧
    free_frames hart s2 - 2 <= free_frames hart s' ∧ spaces_ok s' (k ++ (p, 0) :: blk) roots ∧
    (∀ f, (f, 0) ∈ (p, 0) :: blk → (∀ r π, r ∈ roots → path π → table (mem s2) r π ≠ Some f) →
       (∀ y, in_block f 0 y → mem s' y = mem s2 y) ∧
       ∀ r π, r ∈ roots → path π → table (mem s') r π ≠ Some f) ∧
    (∀ y, in_use ((p, 0) :: blk) y → mem s' y = mem s2 y ∨ table_word (mem s2) roots y) ∧
    (∀ r π q, r ∈ roots → path π → table (mem s') r π = Some q → table (mem s2) r π = Some q ∨ (q, 0) ∈ k) ∧
    hw_leaf (mem s') root (v * 4096) = Some (0, leaf_pte p true w x true) ∧
    ∀ r va, r ∈ roots → canonical va = true → r ≠ root ∨ va / 4096 ≠ v →
      hw_leaf (mem s') r va = hw_leaf (mem s2) r va.
Proof.
  intros Hok Hv Hs Hp. destruct (user_canonical v Hv) as [Hc Hdiv].
  assert ((p, 0) ∈ (p, 0) :: blk) as Hin by (apply elem_of_cons; by left).
  rewrite (map_into_eq s2 ((p, 0) :: blk) roots) by done.
  destruct (map_page_run hart hart_ok s2 _ roots root (v * 4096) p true w x true Hok Hroot)
    as (res & s' & k & -> & Hok' & _ & Hd & Ht & [Hfree Hres] & Hl). cbn [mbind outcome_bind]. cbn zeta in Hl.
  pose proof (missing_two (mem s2) root (v * 4096)) as Hm.
  destruct res as [[] | e].
  2: { left. split; [done |]. destruct Hres as [(l & e' & Hl0 & E) | Hlt]; [apply Hs in E; lia | lia]. }
  right. exists s', k. split_and!; try done; [lia | |..].
  - intros f Hf Hnt. split.
    + intros y Hy. destruct (Hd y) as [? | Htw]; [by exists f, 0 | done |].
      by destruct (data_word s2 _ f y Hok Hf Hnt Hy).
    + intros r π Hr Hπ E. destruct (Ht r π f Hr Hπ E) as [E' | Hk]; [by apply (Hnt r π) |].
      by apply (parts_differ (frames s') k ((p, 0) :: blk) f f (so_frames _ _ _ Hok')).
  - rewrite Hl, decide_True by done.
    by rewrite (ls_leaf _ _ _ _ _ _ (leaf_pte_spec p true w x true (frame_aligned _ _ _ Hok Hin))).
  - intros r va Hr Hcv Hne. rewrite Hl, decide_False; [done | | done].
    intros [-> E%(vpath_page _ _ Hc Hcv)]. destruct Hne as [? | Hne]; [done |]. by rewrite E, Hdiv in Hne.
Qed.

(** What [load_page] does: a cleared frame [p] behind page [v], and tables [kn];
    pages that are no tables keep their contents and stay so. *)
Record page_added (s : vm) (blk : list (Z * Z)) (v : Z) (w x : bool) (p : Z) (s' : vm)
    (kn : list (Z * Z)) : Prop := {
  pa_ok : spaces_ok s' (kn ++ (p, 0) :: blk) roots;
  pa_zero y : in_block p 0 y → mem s' y = 0;
  pa_new r π : r ∈ roots → path π → table (mem s') r π ≠ Some p;
  pa_fresh : (p, 0) ∉ blk;
  pa_data f : (f, 0) ∈ blk → (∀ r π, r ∈ roots → path π → table (mem s) r π ≠ Some f) →
    (∀ y, in_block f 0 y → mem s' y = mem s y) ∧
    ∀ r π, r ∈ roots → path π → table (mem s') r π ≠ Some f;
  pa_words y : in_use blk y → mem s' y = mem s y ∨ table_word (mem s) roots y;
  pa_tables r π q : r ∈ roots → path π → table (mem s') r π = Some q →
    table (mem s) r π = Some q ∨ (q, 0) ∈ kn;
  pa_leaf : hw_leaf (mem s') root (v * 4096) = Some (0, leaf_pte p true w x true);
  pa_other r va : r ∈ roots → canonical va = true → r ≠ root ∨ va / 4096 ≠ v →
    hw_leaf (mem s') r va = hw_leaf (mem s) r va;
  pa_spare : free_frames hart s - 3 <= free_frames hart s';
}.

Lemma page_added_run (s : @vm A) blk v w x :
  spaces_ok s blk roots → 0 <= v < 2 ^ 26 → small (mem s) root (v * 4096) →
  load_page hart root true w x s (v * 4096) = Panic ∧ free_frames hart s < 3 ∨
  ∃ p s' kn, load_page hart root true w x s (v * 4096) = Done s' ∧ page_added s blk v w x p s' kn.
Proof.
  intros Hok Hv Hsm. unfold load_page.
  destruct (new_frame_run s blk Hok) as (o & s1 & E1 & Ho). rewrite E1. cbn [mbind outcome_bind].
  destruct o as [p |]; cbn [unwrap mbind outcome_bind].
  2: { left. split; [done | lia]. }
  destruct Ho as (s2 & -> & S2 & Hok2 & M2 & Z2 & T2 & L2 & Np). cbn [mbind outcome_bind].
  assert ((p, 0) ∈ (p, 0) :: blk) as Hin by (apply elem_of_cons; by left).
  assert (∀ y, table_word (mem s2) roots y → table_word (mem s) roots y) as Htw.
  { intros y (r & π & q & Hr & Hπ & Hq & Hy). exists r, π, q. rewrite <-T2 by done. done. }
  destruct (map_fresh_run s2 blk p v w x Hok2 Hv) as [[-> Hst] | (s' & k' & -> & S' & Hok' & Hd & Hw & Ht & Hl & Hlo)];
    [intros l e; rewrite L2 by done; apply Hsm | done | left; split; [done | lia] | right].
  exists p, s', k'. split; [done |]. split; try done.
  - intros y Hy. rewrite (proj1 (Hd p Hin Np) y Hy). by apply Z2.
  - apply (Hd p Hin Np).
  - intros Hp. by apply (parts_differ (frames s2) [(p, 0)] blk p p (so_frames _ _ _ Hok2));
      [apply list_elem_of_singleton |..].
  - intros f Hf Hnt. destruct (Hd f) as [Hy Hn]; [apply elem_of_cons; by right | |].
    + intros r π Hr Hπ. rewrite T2 by done. by apply Hnt.
    + split; [| done]. intros y Hb. rewrite Hy by done. apply M2. by exists f, 0.
  - intros y Hy. destruct (Hw y) as [-> | ?]; [| left; by apply M2 | right; by apply Htw].
    destruct Hy as (b & ob & Hb & Hby). exists b, ob. split; [| done]. apply elem_of_cons. by right.
  - intros r π q Hr Hπ E. rewrite <-T2 by done. by apply Ht.
  - intros r va Hr Hc Hne. rewrite Hlo by done. by apply L2.
  - lia.
Qed.

(** One more page of the image. *)
Lemma loaded_add pgs img s k v w x p s' kn :
  loaded s0 bl roots root pgs img s k → 0 <= v < 2 ^ 26 → v ∉ pg_vpn <$> pgs →
  (∀ o, 0 <= o < 4096 → img (v * 4096 + o) = 0) → page_added s (k ++ bl) v w x p s' kn →
  loaded s0 bl roots root (MkPage v p true w x :: pgs) img s' (kn ++ (p, 0) :: k).
Proof.
  intros L Hv Hnv Hz N. destruct (user_canonical v Hv) as [Hc Hdiv].
  assert (∀ g, g ∈ pgs → (pg_frame g, 0) ∈ k ++ bl) as Hgb.
  { intros g Hg. apply elem_of_app. left. by apply (ld_frame _ _ _ _ _ _ _ _ L). }
  assert (∀ f, (f, 0) ∈ (p, 0) :: k ++ bl → f mod 4096 = 0) as Hal.
  { intros f Hf. eapply (frame_aligned s'); [apply N |]. apply elem_of_app. by right. }
  assert (∀ g, g ∈ pgs → (∀ y, in_block (pg_frame g) 0 y → mem s' y = mem s y) ∧
            ∀ r π, r ∈ roots → path π → table (mem s') r π ≠ Some (pg_frame g)) as Hold.
  { intros g Hg. apply (pa_data _ _ _ _ _ _ _ _ N); [by apply Hgb |].
    intros r π. by apply (ld_data _ _ _ _ _ _ _ _ L). }
  split.
  - rewrite <-app_assoc. apply N.
  - intros g [-> | Hg]%elem_of_cons; [apply N |].
    pose proof (proj1 (Forall_forall _ _) (ld_user _ _ _ _ _ _ _ _ L) g Hg) as [Hgv _].
    destruct (user_canonical (pg_vpn g) Hgv) as [Hgc Hgd].
    rewrite (pa_other _ _ _ _ _ _ _ _ N); [by apply L | done | done |]. right. rewrite Hgd.
    intros Eg. apply Hnv. rewrite <-Eg. by apply list_elem_of_fmap_2.
  - intros g [-> | Hg]%elem_of_cons; apply elem_of_app; right; apply elem_of_cons; [by left |].
    right. by apply (ld_frame _ _ _ _ _ _ _ _ L).
  - intros g r π [-> | Hg]%elem_of_cons Hr Hπ; [by apply N | by apply Hold].
  - cbn. apply NoDup_cons. split; [| apply L]. intros (g & Eg & Hg)%list_elem_of_fmap.
    apply (pa_fresh _ _ _ _ _ _ _ _ N). rewrite Eg. by apply Hgb.
  - cbn. apply NoDup_cons. split; [done | apply L].
  - apply Forall_cons. split; [done | apply L].
  - intros g off [-> | Hg]%elem_of_cons Hoff; cbn [pg_frame pg_vpn].
    + rewrite (read_byte_same (λ _, 0)); [by rewrite Hz | apply Hal, elem_of_cons; by left | done | apply N].
    + rewrite (read_byte_same (mem s)); [by apply (ld_bytes _ _ _ _ _ _ _ _ L) | | done | by apply Hold].
      apply Hal, elem_of_cons. right. by apply Hgb.
  - intros r va Hr Hcv Hne. cbn [fmap list_fmap pg_vpn] in Hne.
    assert (∀ P : Prop, (P → va / 4096 ∈ v :: (pg_vpn <$> pgs)) → r ≠ root ∨ ¬ P) as Hor by tauto.
    rewrite (pa_other _ _ _ _ _ _ _ _ N); [apply L; [done | done |] | done | done |];
      apply Hor; intros E; apply elem_of_cons; auto.
  - intros r π q Hr Hπ E. rewrite elem_of_app, elem_of_cons.
    destruct (pa_tables _ _ _ _ _ _ _ _ N r π q Hr Hπ E) as [E' | ?]; [| auto].
    destruct (ld_tables _ _ _ _ _ _ _ _ L r π q Hr Hπ E'); auto.
  - intros y Hy Hnt.
    destruct (pa_words _ _ _ _ _ _ _ _ N y) as [-> | (r & π & q & Hr & Hπ & Hq & Hqy)].
    + apply in_use_app. by right.
    + by apply L.
    + destruct (ld_tables _ _ _ _ _ _ _ _ L r π q Hr Hπ Hq) as [Hq0 | Hqk].
      * destruct Hnt. by exists r, π, q.
      * destruct (blocks_apart (frames s) k bl y); [apply L | by exists q, 0 | done].
  - pose proof (ld_spare _ _ _ _ _ _ _ _ L). pose proof (pa_spare _ _ _ _ _ _ _ _ N). unfold zlen in *. cbn [length]. lia.
Qed.

(** The pages of a segment. *)
Lemma load_pages_run vs pgs img s k w x :
  loaded s0 bl roots root pgs img s k → NoDup vs →
  (∀ v, v ∈ vs → 0 <= v < 2 ^ 26 ∧ v ∉ pg_vpn <$> pgs ∧ small (mem s0) root (v * 4096) ∧
     ∀ o, 0 <= o < 4096 → img (v * 4096 + o) = 0) →
  for_each (load_page hart root true w x) s ((λ v, v * 4096) <$> vs) = Panic ∧
    free_frames hart s0 < 3 * (zlen pgs + zlen vs) ∨
  ∃ ps s' k', for_each (load_page hart root true w x) s ((λ v, v * 4096) <$> vs) = Done s' ∧
    loaded s0 bl roots root (ps ++ pgs) img s' k' ∧ pg_vpn <$> ps ≡ₚ vs ∧
    Forall (λ g, pg_w g = w ∧ pg_x g = x) ps.
Proof.
  revert pgs s k. induction vs as [| v vs IH]; intros pgs s k L Hnd Hvs.
  { right. by exists [], s, k. }
  apply NoDup_cons in Hnd as [Hnin Hnd].
  destruct (Hvs v ltac:(apply elem_of_cons; by left)) as (Hv & Hnv & Hsm & Hz).
  destruct (user_canonical v Hv) as [Hc Hdiv].
  cbn [fmap list_fmap for_each].
  destruct (page_added_run s (k ++ bl) v w x (ld_ok _ _ _ _ _ _ _ _ L) Hv) as [[-> Hst] | (p & s1 & kn & -> & N)].
  - intros l e E. rewrite (ld_other _ _ _ _ _ _ _ _ L) in E by (done || right; by rewrite Hdiv). by apply Hsm in E.
  - left. split; [done |]. pose proof (ld_spare _ _ _ _ _ _ _ _ L). unfold zlen in *. cbn [length]. lia.
  - cbn [mbind outcome_bind]. pose proof (loaded_add _ _ _ _ _ _ _ _ _ _ L Hv Hnv Hz N) as L1.
    destruct (IH _ _ _ L1 Hnd) as [[-> Hst] | (ps & s' & k' & -> & L' & Hp & Hf)].
    + intros v' Hv'. destruct (Hvs v' ltac:(apply elem_of_cons; by right)) as (? & ? & ? & ?).
      split; [done |]. split; [| by split]. cbn. intros [-> | ?]%elem_of_cons; done.
    + left. split; [done |]. unfold zlen in *. cbn [length] in *. lia.
    + right. exists (ps ++ [MkPage v p true w x]), s', k'. split_and!; [done | | |].
      * by rewrite <-app_assoc.
      * rewrite fmap_app, Hp. cbn. by rewrite Permutation_app_comm.
      * apply Forall_app. split; [done |]. by apply Forall_singleton.
Qed.

(** [bs] from address [a] on, [img] elsewhere. *)
Definition overlay (img : Z → Z) (a : Z) (bs : list Z) : Z → Z := λ va,
  match bs !! Z.to_nat (va - a) with
  | Some b => if decide (a <= va) then b else img va
  | None => img va
  end.

Lemma overlay_app img a bs bs' va :
  overlay (overlay img a bs) (a + zlen bs) bs' va = overlay img a (bs ++ bs') va.
Proof.
  unfold overlay, zlen. destruct (decide (a <= va)) as [Hle | Hgt].
  - destruct (decide (va - a < Z.of_nat (length bs))) as [Hlt | Hge].
    + rewrite lookup_app_l by lia. destruct (bs' !! _); repeat case_decide; (lia || done).
    + rewrite (lookup_ge_None_2 bs) by lia. rewrite lookup_app_r by lia.
      replace (Z.to_nat (va - a) - length bs)%nat with (Z.to_nat (va - (a + Z.of_nat (length bs)))) by lia.
      destruct (bs' !! _); repeat case_decide; (lia || done).
  - destruct (bs' !! _), (bs !! _), ((bs ++ bs') !! _); repeat case_decide; (lia || done).
Qed.

Lemma overlay_in img a bs va : a <= va → overlay img a bs va = default (img va) (bs !! Z.to_nat (va - a)).
Proof. intros Hle. unfold overlay. destruct (bs !! _); [| done]. by case_decide. Qed.

Lemma overlay_out img a bs va : ¬ (a <= va < a + zlen bs) → overlay img a bs va = img va.
Proof.
  unfold overlay, zlen. intros Hn. destruct (bs !! _) eqn:E; [| done]. case_decide; [| done].
  apply lookup_lt_Some in E. lia.
Qed.

Lemma read_overlay m a bs x :
  Forall is_byte bs → read_byte (write_list m a bs) x = overlay (read_byte m) a bs x.
Proof. apply read_write_list. Qed.

(** Moving image and address together. *)
Lemma overlay_shift f g a b o bs off :
  f (a + off) = g (b + off) → overlay f (a + o) bs (a + off) = overlay g (b + o) bs (b + off).
Proof.
  intros E. unfold overlay. replace (a + off - (a + o)) with (b + off - (b + o)) by lia.
  destruct (bs !! _); [| done]. repeat case_decide; (lia || done).
Qed.

Lemma loaded_ext pgs img img' s k :
  loaded s0 bl roots root pgs img s k →
  (∀ g o, g ∈ pgs → 0 <= o < 4096 → img' (pg_vpn g * 4096 + o) = img (pg_vpn g * 4096 + o)) →
  loaded s0 bl roots root pgs img' s k.
Proof. intros L He. destruct L. split; try done. intros g o Hg Ho. rewrite He by done. auto. Qed.

(** Two pages of the image with the same number or frame are the same. *)
Lemma same_page_of pgs img s k g g' :
  loaded s0 bl roots root pgs img s k → g ∈ pgs → g' ∈ pgs →
  pg_vpn g = pg_vpn g' ∨ pg_frame g = pg_frame g' → g = g'.
Proof.
  intros L Hg Hg' E. apply list_elem_of_lookup in Hg as [i Hi], Hg' as [j Hj].
  assert (i = j) as ->; [| congruence].
  destruct E as [E | E]; [apply (NoDup_lookup _ i j (pg_vpn g) (ld_pages _ _ _ _ _ _ _ _ L))
                         | apply (NoDup_lookup _ i j (pg_frame g) (ld_frames _ _ _ _ _ _ _ _ L))];
    rewrite list_lookup_fmap, ?Hi, ?Hj; cbn; congruence.
Qed.

(** Copying into one page. *)
Lemma copy_in_run pgs img s k g o bs :
  loaded s0 bl roots root pgs img s k → g ∈ pgs → 0 <= o → o + zlen bs <= 4096 → 0 < zlen bs →
  Forall is_byte bs →
  ∃ s', copy_in s (pg_frame g + o) bs = Done s' ∧
    loaded s0 bl roots root pgs (overlay img (pg_vpn g * 4096 + o) bs) s' k.
Proof.
  intros L Hg Ho Hlen Hpos Hbs. pose proof (ld_ok _ _ _ _ _ _ _ _ L) as Hok.
  pose proof (ld_frame _ _ _ _ _ _ _ _ L g Hg) as Hgk.
  assert ((pg_frame g, 0) ∈ k ++ bl) as Hgb by (apply elem_of_app; by left).
  destruct (fa_block _ _ _ _ (so_frames _ _ _ Hok) Hgb) as (_ & Hal & Hlo & Hhi & _).
  unfold PAGE_SIZE in Hal, Hhi. change (2 ^ 0 * 4096) with 4096 in Hhi.
  unfold copy_in, in_dram. rewrite (proj2 (Z.leb_le _ _)), (proj2 (Z.ltb_lt _ _)), (proj2 (Z.leb_le _ _)) by lia.
  cbn [andb]. set (m' := write_list (mem s) (pg_frame g + o) bs).
  change (s <| frames := fa_store (frames s) m' |>) with (stored s m'). set (s' := stored s m').
  assert (mem s' = m') as M by apply mem_stored.
  assert (∀ y, ¬ in_block (pg_frame g) 0 y → mem s' y = mem s y) as Hout.
  { intros y Hy. rewrite M. apply write_list_out. intros i Hi ->. apply Hy, in_page. dlia. }
  assert (∀ y, table_word (mem s) roots y → mem s' y = mem s y) as Htw.
  { intros y Hy. apply Hout. intros Hb. apply (data_word s (k ++ bl) (pg_frame g) y) in Hy; try done.
    intros r π. by apply (ld_data _ _ _ _ _ _ _ _ L). }
  assert (fa_ok (frames s') ([] ++ k ++ bl)) as Hf'.
  { apply stored_ok; [apply Hok |]. intros y Hy. rewrite <-M. apply Hout. intros Hb. apply Hy. by exists (pg_frame g), 0. }
  destruct (spaces_quiet s s' (k ++ bl) [] roots Hok Hf' Htw) as (Hok' & Ht & Hl).
  exists s'. split; [done |].
  assert (∀ g', g' ∈ pgs → pg_vpn g' = pg_vpn g ∨ pg_frame g' = pg_frame g → g' = g) as Hsame
    by (intros g' Hg'; by eapply same_page_of).
  assert (∀ g', g' ∈ pgs → (pg_frame g', 0) ∈ k ++ bl) as Hin.
  { intros g' Hg'. apply elem_of_app. left. by apply (ld_frame _ _ _ _ _ _ _ _ L). }
  destruct L as [_ Lleaf Lfr Ldat Lnd Lpg Lus Lby Lot Ltab Lke Lsp].
  split; try done.
  - intros g' Hg'. rewrite Hl by done. by apply Lleaf.
  - intros g' r π Hg' Hr Hπ. rewrite Ht by done. by apply Ldat.
  - intros g' off Hg' Hoff. destruct (decide (g' = g)) as [-> | Hne].
    + rewrite M. unfold m'. rewrite read_overlay by done. by apply overlay_shift, Lby.
    + assert (pg_vpn g' ≠ pg_vpn g ∧ pg_frame g' ≠ pg_frame g) as [Hvn Hfn]
        by (split; intros E; apply Hne, Hsame; auto).
      destruct (fa_block _ _ _ _ (so_frames _ _ _ Hok) (Hin g' Hg')) as (_ & Hal' & _).
      unfold PAGE_SIZE in Hal'. rewrite (read_byte_same (mem s)); [| done | done |].
      * rewrite overlay_out by lia. by apply Lby.
      * intros y Hy. apply Hout. rewrite in_page in *. dlia.
  - intros r va Hr. rewrite Hl by done. by apply Lot.
  - intros r π q Hr Hπ. rewrite Ht by done. by apply Ltab.
  - intros y Hy Hn. rewrite Hout; [by apply Lke |]. intros Hb.
    destruct (blocks_apart (frames s) k bl y); [apply Hok | by exists (pg_frame g), 0 | done].
  - replace (free_frames hart s') with (free_frames hart s); [done |]. symmetry.
    apply (stored_spare hart s (k ++ bl)); [apply Hok |]. intros y Hy. rewrite <-M. apply Hout.
    intros Hb. apply Hy. by exists (pg_frame g), 0.
Qed.

Lemma copy_loop_run n pgs img s k data off vaddr c rem :
  loaded s0 bl roots root pgs img s k → Forall is_byte data →
  0 <= vaddr <= c → c + rem <= 2 ^ 38 → 0 <= rem → 0 <= off → off + (c - vaddr) + rem <= zlen data →
  zlen data < 2 ^ 63 → (∀ va, c <= va < c + rem → va / 4096 ∈ pg_vpn <$> pgs) →
  rem = 0 ∨ rem + c mod 4096 <= Z.of_nat n * 4096 →
  ∃ s', copy_loop hart n s root data off vaddr c rem = Done s' ∧
    loaded s0 bl roots root pgs (overlay img c (file_bytes data (off + (c - vaddr)) rem)) s' k.
Proof.
  intros L Hd Hv Hc Hr Ho Hlen Hbig. revert img s c rem L Hv Hc Hr Hlen.
  induction n as [| n IH]; intros img s c rem L Hv Hc Hr Hlen Hpg Hn; cbn [copy_loop];
    (destruct (rem <=? 0) eqn:E0; bools;
     [assert (rem = 0) as -> by lia; exists s; split; [done |]; eapply loaded_ext; [done |];
      intros g o _ _; apply overlay_out; rewrite file_bytes_len; lia |]); [dlia |].
  change (PAGE_SIZE - 1) with (Z.ones 12). rewrite Z.land_ones by lia. change (2 ^ 12) with 4096.
  set (chunk := Z.min rem (PAGE_SIZE - c mod 4096)).
  assert (0 < chunk <= rem ∧ c mod 4096 + chunk <= 4096) as [Hch Hfit]
    by (unfold chunk, PAGE_SIZE; dlia).
  pose proof (Hpg c ltac:(lia)) as (g & Hgv & Hg)%list_elem_of_fmap.
  pose proof (proj1 (Forall_forall _ _) (ld_user _ _ _ _ _ _ _ _ L) g Hg) as [Hgu _].
  assert (hw_leaf (mem s) root c = Some (0, page_entry g)) as Hleaf.
  { rewrite <-(ld_leaf _ _ _ _ _ _ _ _ L g Hg). unfold hw_leaf.
    assert (vpath c = vpath (pg_vpn g * 4096)) as Ev by (apply vpath_div; rewrite Z.div_mul by lia; done).
    unfold vpath in Ev. by injection Ev as -> -> ->. }
  pose proof (frame_aligned s (k ++ bl) (pg_frame g) (ld_ok _ _ _ _ _ _ _ _ L)
    ltac:(apply elem_of_app; left; by apply (ld_frame _ _ _ _ _ _ _ _ L))) as Hfa.
  rewrite (virt_to_phys_run s (k ++ bl) roots root c (page_entry g) (ld_ok _ _ _ _ _ _ _ _ L) Hroot Hleaf).
  unfold page_entry. rewrite (ls_phys _ _ _ _ _ _ (leaf_pte_spec _ _ _ _ _ Hfa)).
  cbn [mbind outcome_bind unwrap].
  rewrite (wrap_small 64 (c - vaddr)), (wrap_small 64 (off + (c - vaddr))) by (unfold fits; lia).
  rewrite aslice_in_range by lia. cbn [mbind outcome_bind].
  replace (off + (c - vaddr) + chunk - (off + (c - vaddr))) with chunk by lia.
  fold (file_bytes data (off + (c - vaddr)) chunk). set (bs := file_bytes data _ chunk).
  assert (zlen bs = chunk) as Hbl by (apply file_bytes_len; lia).
  destruct (copy_in_run pgs img s k g (c mod 4096) bs L Hg ltac:(dlia) ltac:(lia) ltac:(lia)
              (file_bytes_bytes _ _ _ Hd)) as (s1 & -> & L1). cbn [mbind outcome_bind].
  rewrite (wrap_small 64 (c + chunk)) by (unfold fits; lia).
  replace (pg_vpn g * 4096 + c mod 4096) with c in L1 by dlia.
  destruct (IH _ s1 (c + chunk) (rem - chunk) L1) as (s' & -> & L'); try lia.
  - intros va Hva. apply Hpg. lia.
  - destruct (decide (chunk = rem)); [left; lia | right]. unfold chunk, PAGE_SIZE in *. dlia.
  - exists s'. split; [done |]. eapply loaded_ext; [exact L' |]. intros g' o _ _.
    rewrite (file_bytes_split data _ rem chunk) by lia. fold bs.
    replace (off + (c + chunk - vaddr)) with (off + (c - vaddr) + chunk) by lia.
    rewrite <-Hbl at 1 3. rewrite <-Hbl at 2. by rewrite overlay_app, Hbl.
Qed.

(** ** Loading segments *)

Lemma load_segment_run data p pgs img s k :
  loaded s0 bl roots root pgs img s k → Forall is_byte data → zlen data < 2 ^ 63 →
  loadable p = true → seg_ok data p →
  (∀ v, v ∈ seg_pages p → 0 <= v < 2 ^ 26 ∧ v ∉ pg_vpn <$> pgs ∧ small (mem s0) root (v * 4096) ∧
     ∀ o, 0 <= o < 4096 → img (v * 4096 + o) = 0) →
  load_segment hart data root s p = Panic ∧ free_frames hart s0 < 3 * (zlen pgs + zlen (seg_pages p)) ∨
  ∃ ps s' k', load_segment hart data root s p = Done s' ∧
    loaded s0 bl roots root (ps ++ pgs) (overlay img (p_vaddr p) (seg_bytes data p)) s' k' ∧
    pg_vpn <$> ps ≡ₚ seg_pages p ∧ Forall (λ g, pg_w g = seg_w p ∧ pg_x g = seg_x p) ps.
Proof.
  intros L Hd Hbig Hld Hsg Hvs. pose proof Hsg as [Ha Hf Hr]. unfold STACK_BOTTOM in Ha.
  apply andb_true_iff in Hld as [Ht Hm]. unfold load_segment. rewrite Ht, Hr.
  apply negb_true_iff in Hm. rewrite Hm. cbn [negb]. rewrite (seg_steps data p Hsg).
  destruct (load_pages_run (seg_pages p) pgs img s k (seg_w p) (seg_x p) L (NoDup_zseq _ _) Hvs)
    as [[-> Hst] | (ps & s1 & k1 & -> & L1 & Hp & Hrt)]; [by left | right].
  cbn [mbind outcome_bind]. rewrite wrap_small by (unfold fits; lia).
  rewrite (proj2 (Z.leb_le (p_offset p + p_filesz p) (zlen data))) by lia. rewrite andb_true_r.
  assert (∀ va, p_vaddr p <= va < p_vaddr p + p_filesz p → va / 4096 ∈ pg_vpn <$> ps ++ pgs) as Hpg.
  { intros va Hva. rewrite fmap_app, elem_of_app, Hp. left. eapply seg_pages_of; [done | lia]. }
  destruct (0 <? p_filesz p) eqn:E0; bools.
  - destruct (copy_loop_run (Z.to_nat (p_filesz p / PAGE_SIZE + 2)) _ _ _ _ data (p_offset p) (p_vaddr p)
                (p_vaddr p) (p_filesz p) L1 Hd) as (s' & E & L'); try (done || lia).
    { right. unfold PAGE_SIZE. dlia. }
    exists ps, s', k1. split_and!; try done. rewrite Z.sub_diag, Z.add_0_r in L'. exact L'.
  - exists ps, s1, k1. split_and!; try done. eapply loaded_ext; [exact L1 |]. intros g o _ _.
    apply overlay_out. unfold seg_bytes. rewrite file_bytes_len; lia.
Qed.

(** The bytes of the segments, the later ones on top. *)
Fixpoint elf_image (data : list Z) (segs : list Elf64Phdr) (img : Z → Z) : Z → Z :=
  match segs with
  | [] => img
  | p :: segs' => elf_image data segs' (overlay img (p_vaddr p) (seg_bytes data p))
  end.

Lemma overlay_pages data p img va :
  seg_ok data p → va / 4096 ∉ seg_pages p → overlay img (p_vaddr p) (seg_bytes data p) va = img va.
Proof.
  intros Hsg Hva. apply overlay_out. unfold seg_bytes. destruct Hsg as [Ha Hf Hr].
  rewrite file_bytes_len by lia. intros Hin. apply Hva. eapply seg_pages_of; [by split | lia].
Qed.

Lemma elf_image_out data segs img va :
  Forall (seg_ok data) segs → va / 4096 ∉ pages_of segs → elf_image data segs img va = img va.
Proof.
  revert img. induction segs as [| p segs IH]; intros img Hs Hva; [done |].
  apply Forall_cons in Hs as [Hp Hs]. cbn in Hva. rewrite elem_of_app in Hva.
  cbn [elf_image]. rewrite IH by tauto. apply (overlay_pages _ _ _ _ Hp). tauto.
Qed.

(** The byte a segment has at an offset. *)
Definition seg_byte (data : list Z) (p : Elf64Phdr) (i : Z) : Z :=
  if i <? p_filesz p then default 0 (data !! Z.to_nat (p_offset p + i)) else 0.

Lemma elf_image_in data segs img p i :
  Forall (seg_ok data) segs → NoDup (pages_of segs) → p ∈ segs → 0 <= i < p_memsz p →
  (∀ va, va / 4096 ∈ pages_of segs → img va = 0) →
  elf_image data segs img (p_vaddr p + i) = seg_byte data p i.
Proof.
  revert img. induction segs as [| q segs IH]; intros img Hs Hnd Hp Hi Hz; [by apply elem_of_nil in Hp |].
  apply Forall_cons in Hs as [Hq Hs]. cbn in Hnd, Hz. apply NoDup_app in Hnd as (_ & Hdis & Hnd).
  cbn [elf_image]. apply elem_of_cons in Hp as [-> | Hp].
  - assert ((p_vaddr q + i) / 4096 ∈ seg_pages q) as Hin by (eapply seg_pages_of; [done | lia]).
    rewrite elf_image_out by (done || by apply Hdis). unfold seg_byte, seg_bytes, file_bytes.
    destruct Hq as [Ha Hf _]. rewrite overlay_in by lia.
    replace (p_vaddr q + i - p_vaddr q) with i by lia. destruct (i <? p_filesz q) eqn:E; bools.
    + rewrite lookup_take_lt by lia. rewrite lookup_drop.
      replace (Z.to_nat (p_offset q) + Z.to_nat i)%nat with (Z.to_nat (p_offset q + i)) by lia.
      by destruct (lookup_lt_is_Some_2 data (Z.to_nat (p_offset q + i)) ltac:(unfold zlen in *; lia)) as [b ->].
    + rewrite lookup_take_ge by lia. cbn. apply Hz. apply elem_of_app. by left.
  - apply IH; try done. intros va Hva. rewrite (overlay_pages _ _ _ _ Hq).
    + apply Hz. apply elem_of_app. by right.
    + intros Hin. by apply (Hdis (va / 4096)).
Qed.

Lemma pages_of_cons p segs : pages_of (p :: segs) = seg_pages p ++ pages_of segs.
Proof. done. Qed.

Lemma load_phdrs_run data h ids pgs img s k :
  let segs := filter loadable ((λ i, phdr_at data (e_phoff h + i * e_phentsize h)) <$> ids) in
  loaded s0 bl roots root pgs img s k → Forall is_byte data → zlen data < 2 ^ 63 →
  (∀ i, i ∈ ids → e_phoff h + i * e_phentsize h + PHDR_SIZE <= zlen data) →
  Forall (seg_ok data) segs → NoDup (pages_of segs) →
  (∀ v, v ∈ pages_of segs → 0 <= v < 2 ^ 26 ∧ v ∉ pg_vpn <$> pgs ∧ small (mem s0) root (v * 4096) ∧
     ∀ o, 0 <= o < 4096 → img (v * 4096 + o) = 0) →
  for_each (load_phdr hart data h root) s ids = Panic ∧ free_frames hart s0 < 3 * (zlen pgs + zlen (pages_of segs)) ∨
  ∃ ps s' k', for_each (load_phdr hart data h root) s ids = Done s' ∧
    loaded s0 bl roots root (ps ++ pgs) (elf_image data segs img) s' k' ∧
    pg_vpn <$> ps ≡ₚ pages_of segs ∧
    ∀ p v, p ∈ segs → v ∈ seg_pages p → ∃ g, g ∈ ps ∧ pg_vpn g = v ∧ pg_w g = seg_w p ∧ pg_x g = seg_x p.
Proof.
  revert pgs img s k. induction ids as [| i ids IH]; intros pgs img s k segs L Hd Hbig Hrd Hok Hnd Hvs.
  { right. exists [], s, k. split_and!; try done. intros p v Hp. by apply elem_of_nil in Hp. }
  set (p := phdr_at data (e_phoff h + i * e_phentsize h)) in *. cbn [for_each].
  assert (load_phdr hart data h root s i = load_segment hart data root s p) as ->.
  { unfold load_phdr, read_phdr.
    by rewrite (proj2 (Z.leb_le _ _) (Hrd i ltac:(apply elem_of_cons; by left))). }
  set (tl := filter loadable ((λ i, phdr_at data (e_phoff h + i * e_phentsize h)) <$> ids)) in *.
  assert (∀ j, j ∈ ids → e_phoff h + j * e_phentsize h + PHDR_SIZE <= zlen data) as Hrd'.
  { intros j Hj. apply Hrd, elem_of_cons. by right. }
  destruct (loadable p) eqn:Hld.
  2: { assert (segs = tl) as -> by (unfold segs; rewrite fmap_cons, filter_cons_False by (fold p; rewrite Hld; by intros []); done).
       replace (load_segment hart data root s p) with (Done s).
       - cbn [mbind outcome_bind]. by apply (IH pgs img s k).
       - unfold load_segment, loadable in *. destruct (p_type p =? PT_LOAD); [| done].
         by destruct (p_memsz p =? 0). }
  assert (segs = p :: tl) as Esegs by (unfold segs; rewrite fmap_cons, filter_cons_True by (fold p; by rewrite Hld); done).
  clearbody segs. subst segs. cbn in Hnd, Hvs. apply NoDup_app in Hnd as (_ & Hdis & Hnd).
  apply Forall_cons in Hok as [Hp Hok].
  destruct (load_segment_run data p pgs img s k L Hd Hbig Hld Hp) as [[-> Hst] | (ps & s1 & k1 & -> & L1 & Hpp & Hrt)].
  { intros v Hv. apply Hvs, elem_of_app. by left. }
  { left. split; [done |]. rewrite pages_of_cons. unfold zlen in *. rewrite length_app. lia. }
  cbn [mbind outcome_bind].
  destruct (IH _ _ _ _ L1 Hd Hbig Hrd' Hok Hnd) as [[-> Hst] | (ps' & s' & k' & -> & L' & Hpp' & Hex)].
  - intros v Hv. destruct (Hvs v ltac:(apply elem_of_app; by right)) as (Hv1 & Hv2 & Hv3 & Hv4).
    assert (v ∉ seg_pages p) as Hvp by (intros Hin; by apply (Hdis v)).
    split; [done |]. split; [| split; [done |]].
    + rewrite fmap_app, elem_of_app, Hpp. tauto.
    + intros o Ho. rewrite (overlay_pages _ _ _ _ Hp); [by apply Hv4 |].
      by replace ((v * 4096 + o) / 4096) with v by dlia.
  - left. split; [done |]. rewrite pages_of_cons. apply Permutation_length in Hpp. rewrite length_fmap in Hpp.
    unfold zlen in *. rewrite length_app in Hst |- *. lia.
  - right. exists (ps' ++ ps), s', k'. split; [done |]. split; [by rewrite <-app_assoc |]. split.
    + rewrite fmap_app, Hpp, Hpp'. cbn. by rewrite Permutation_app_comm.
    + intros q v [-> | Hq]%elem_of_cons Hv.
      * rewrite <-Hpp in Hv. apply list_elem_of_fmap in Hv as (g & -> & Hg). exists g.
        rewrite Forall_forall in Hrt. destruct (Hrt g Hg). split_and!; try done. apply elem_of_app. by right.
      * destruct (Hex q v Hq Hv) as (g & Hg & ?). exists g. split; [apply elem_of_app; by left | done].
Qed.

(** ** The whole program *)

Lemma load_stack_eq (s : @vm A) :
  match load_page hart root true true false s STACK_BOTTOM with
  | Done s' => load_stack hart s root = Done (true, s')
  | Panic => load_stack hart s root = Panic ∨ ∃ s', load_stack hart s root = Done (false, s')
  | _ => True
  end.
Proof.
  unfold load_page, load_stack.
  destruct (alloc_page hart s) as [[[p |] s1] | | |]; cbn [mbind outcome_bind unwrap]; try done; [| eauto | auto].
  destruct (zero s1 p PAGE_SIZE) as [s2 | | |]; cbn [mbind outcome_bind]; auto.
  destruct (map_into_pt hart s2 root STACK_BOTTOM p true true false true) as [s3 | | |]; cbn; auto.
Qed.

(** What a program sees at an address: the byte and the rights. *)
Definition user_byte (m : Z → Z) (va b : Z) (w x : bool) : Prop :=
  ∃ pa e, translate m root va = Some (pa, e) ∧ read_byte m pa = b ∧ rights e = (true, w, x, true).

(** After the sweep, a page of the image is there with its bytes. *)
Lemma swept_page pgs img s k s' D g o :
  loaded s0 bl roots root pgs img s k → swept s (k ++ bl) roots root D s' →
  (∀ va, vpn2 va < 256 → D va) → g ∈ pgs → 0 <= o < 4096 →
  user_byte (mem s') (pg_vpn g * 4096 + o) (img (pg_vpn g * 4096 + o)) (pg_w g)
    (pg_x g && negb (pg_w g)).
Proof.
  intros L Sw HD Hg Ho. pose proof (ld_ok _ _ _ _ _ _ _ _ L) as Hok.
  pose proof (proj1 (Forall_forall _ _) (ld_user _ _ _ _ _ _ _ _ L) g Hg) as [Hgv Hgr].
  pose proof (ld_frame _ _ _ _ _ _ _ _ L g Hg) as Hgk.
  assert ((pg_frame g, 0) ∈ k ++ bl) as Hgb by (apply elem_of_app; by left).
  pose proof (frame_aligned s _ _ Hok Hgb) as Hfa.
  set (va := pg_vpn g * 4096 + o).
  assert (va / 4096 = pg_vpn g) as Hdiv by (unfold va; dlia).
  assert (canonical va = true) as Hc.
  { unfold canonical. apply orb_true_iff. left. apply andb_true_iff. rewrite Z.leb_le, Z.ltb_lt. unfold va. lia. }
  assert (hw_leaf (mem s) root va = Some (0, page_entry g)) as Hl.
  { rewrite <-(ld_leaf _ _ _ _ _ _ _ _ L g Hg). unfold hw_leaf.
    assert (vpath va = vpath (pg_vpn g * 4096)) as Ev by (apply vpath_div; by rewrite Z.div_mul).
    unfold vpath in Ev. by injection Ev as -> -> ->. }
  assert (vpn2 va < 256) as H2 by (apply (canonical_half va Hc); unfold va; lia).
  destruct (sw_done _ _ _ _ _ _ Sw va (HD va H2)) as [_ Hl']. rewrite Hl in Hl'. cbn in Hl'.
  pose proof (leaf_pte_spec (pg_frame g) (pg_r g) (pg_w g) (pg_x g) true Hfa) as Hs. fold (page_entry g) in Hs.
  pose proof (ls_leaf _ _ _ _ _ _ Hs) as Hle. rewrite Hgr in Hle.
  pose proof (no_wx_says (page_entry g) Hle) as Hn.
  destruct Hs as [_ _ Ep Er Ew Ex Eu]. rewrite Ep, Er, Ew, Ex, Eu, Hgr in Hn. cbn [andb] in Hn.
  exists (pg_frame g + o), (no_wx (page_entry g)). split_and!.
  - unfold no_wx_leaf in Hl'. cbn [fst snd Z.eqb] in Hl'.
    rewrite (translate_leaf _ _ _ _ _ _ _ _ _ _ Hc Hl' Hn) by apply Hfa.
    rewrite andb_false_r. cbn [negb]. change (2 ^ (12 + 9 * 0)) with 4096. do 3 f_equal. unfold va. dlia.
  - rewrite (read_byte_same (mem s)); [by apply (ld_bytes _ _ _ _ _ _ _ _ L) | apply Hfa | done |].
    intros y Hy. apply (sw_data _ _ _ _ _ _ Sw). apply (data_word s (k ++ bl) (pg_frame g)); try done.
    intros r π. by apply (ld_data _ _ _ _ _ _ _ _ L).
  - destruct Hn as [_ _ _ Hr Hw Hx Hu]. unfold rights. by rewrite Hr, Hw, Hx, Hu.
Qed.

Lemma header_fields data h :
  Forall is_byte data → check_header data = Some h →
  0 <= e_phoff h ∧ 0 <= e_phentsize h ∧ 0 <= e_phnum h.
Proof.
  intros Hd. unfold check_header. repeat (case_match; try done). intros [= <-].
  assert (∀ off n, 0 <= field data off n) as Hf.
  { intros off n. unfold field. apply of_le_bytes_bound. by apply Forall_take, Forall_drop. }
  cbn. split_and!; apply Hf.
Qed.

Definition phdrs (data : list Z) (h : Elf64Header) : list Elf64Phdr :=
  (λ i, phdr_at data (e_phoff h + i * e_phentsize h)) <$> zseq 0 (e_phnum h).

(** The loader up to the sweep. *)
Lemma load_all_run data h :
  let segs := filter loadable (phdrs data h) in
  spaces_ok s0 bl roots → Forall is_byte data → zlen data < 2 ^ 63 → check_header data = Some h →
  PHDR_SIZE <= e_phentsize h → e_phoff h + e_phnum h * e_phentsize h <= zlen data →
  Forall (seg_ok data) segs → NoDup (pages_of segs) →
  (∀ v, v ∈ pages_of segs ∨ v * 4096 = STACK_BOTTOM → small (mem s0) root (v * 4096)) →
  (load_elf hart s0 data root = Panic ∨ ∃ s', load_elf hart s0 data root = Done (None, s')) ∧
    free_frames hart s0 < 3 * (zlen (pages_of segs) + 1) ∨
  ∃ pgs s k s' D, load_elf hart s0 data root = Done (Some (e_entry h, 0x3FFFFFFFF0), s') ∧
    loaded s0 bl roots root pgs (elf_image data segs (λ _, 0)) s k ∧
    swept s (k ++ bl) roots root D s' ∧ (∀ va, vpn2 va < 256 → D va) ∧
    (∀ p v, p ∈ segs → v ∈ seg_pages p → ∃ g, g ∈ pgs ∧ pg_vpn g = v ∧ pg_w g = seg_w p ∧ pg_x g = seg_x p) ∧
    (∃ g, g ∈ pgs ∧ pg_vpn g = 2 ^ 26 - 1 ∧ pg_w g = true ∧ pg_x g = false) ∧
    pg_vpn <$> pgs ≡ₚ (2 ^ 26 - 1) :: pages_of segs.
Proof.
  intros segs Hok Hd Hbig Hh Hent Hfit Hsg Hnd Hsm.
  destruct (header_fields data h Hd Hh) as (Ho & Hes & Hn). unfold load_elf. rewrite Hh.
  assert (∀ v, v ∈ pages_of segs → 0 <= v < 2 ^ 26 - 1) as Hpv.
  { intros v (l & Hv & (p & -> & Hp)%list_elem_of_fmap)%list_elem_of_join.
    rewrite Forall_forall in Hsg. destruct (Hsg p Hp) as [Ha _ _]. apply elem_of_zseq in Hv.
    unfold STACK_BOTTOM in Ha. dlia. }
  destruct (load_phdrs_run data h (zseq 0 (e_phnum h)) [] (λ _, 0) s0 [] (loaded_start Hok) Hd Hbig)
    as [[-> Hst] | (ps & s1 & k1 & -> & L1 & Hpp & Hex)]; try done.
  - intros i Hi%elem_of_zseq.
    assert ((i + 1) * e_phentsize h <= e_phnum h * e_phentsize h) by (apply Z.mul_le_mono_nonneg_r; lia).
    lia.
  - intros v Hv. pose proof (Hpv v Hv). split; [lia |]. split; [by apply not_elem_of_nil |]. split; [| done].
    apply Hsm. by left.
  - left. split; [by left |]. fold (phdrs data h) in Hst. fold segs in Hst. unfold zlen in *. cbn [length] in Hst. lia.
  - cbn [mbind outcome_bind]. pose proof (load_stack_eq s1) as Hse.
    change STACK_BOTTOM with ((2 ^ 26 - 1) * 4096) in Hse at 1.
    rewrite app_nil_r in L1. fold (phdrs data h) in Hpp. fold segs in Hpp, L1, Hex.
    assert (2 ^ 26 - 1 ∉ pg_vpn <$> ps) as Hnp by (rewrite Hpp; intros Hin%Hpv; lia).
    assert (canonical ((2 ^ 26 - 1) * 4096) = true ∧ (2 ^ 26 - 1) * 4096 / 4096 = 2 ^ 26 - 1) as [Hcs Hds] by done.
    destruct (page_added_run s1 (k1 ++ bl) (2 ^ 26 - 1) true false (ld_ok _ _ _ _ _ _ _ _ L1))
      as [[E Hst] | (p & s2 & kn & E & N)]; [lia | | |].
    + intros l e El. rewrite (ld_other _ _ _ _ _ _ _ _ L1) in El by (done || right; by rewrite Hds).
      revert El. apply Hsm. by right.
    + rewrite E in Hse. left. split; [| pose proof (ld_spare _ _ _ _ _ _ _ _ L1); apply Permutation_length in Hpp;
        rewrite length_fmap in Hpp; unfold zlen in *; lia].
      destruct Hse as [-> | [s' ->]]; [by left | right]. by eexists.
    + rewrite E in Hse. rewrite Hse. cbn [mbind outcome_bind negb].
      pose proof (loaded_add _ _ _ _ (2 ^ 26 - 1) _ _ _ _ _ L1 ltac:(lia) Hnp
        ltac:(intros o Hoo; apply elf_image_out; [done |]; intros Hin%Hpv; dlia) N) as L2.
      destruct (force_wxorx_run hart s2 (((kn ++ (p, 0) :: k1)) ++ bl) roots root Hroot (ld_ok _ _ _ _ _ _ _ _ L2))
        as (s3 & n & -> & Sw). cbn [mbind outcome_bind].
      right. eexists _, s2, _, s3, _. split; [reflexivity |]. split; [exact L2 |]. split; [exact Sw |].
      split; [done |]. split; [| split].
      * intros q v Hq Hv. destruct (Hex q v Hq Hv) as (g & Hg & Hg'). exists g. split; [| done].
        apply elem_of_cons. by right.
      * eexists. split; [apply elem_of_cons; by left |]. done.
      * cbn. by rewrite Hpp.
Qed.
End image.

(** C7. A well-formed program is loaded byte for byte.  Given an address space
    with no huge page where the program or its stack goes, and a program whose
    headers lie in the file and whose segments are readable, lie below the stack
    page and share no page, [load_elf] succeeds whenever the hart can be given
    three pages for each page of the program and for the stack: one to hold it and
    two for tables.  When it does not fail it returns the entry point and the initial stack pointer, and then
    every address of every segment holds the byte of the file, or zero behind
    the bytes of the file, with the rights of the segment, except that no page is
    both writable and executable; the stack page is zero, readable and writable.
    Other address spaces are translated as before, and no data of the memory that
    was in use is written. *)
Theorem load_elf_correct (s : @vm A) (bl : list (Z * Z)) (roots : list Z) (root : Z)
    (data : list Z) (h : Elf64Header) :
  let segs := filter loadable (phdrs data h) in
  spaces_ok s bl roots → root ∈ roots → Forall is_byte data → zlen data < 2 ^ 63 →
  check_header data = Some h → PHDR_SIZE <= e_phentsize h →
  e_phoff h + e_phnum h * e_phentsize h <= zlen data →
  Forall (seg_ok data) segs → NoDup (pages_of segs) →
  (∀ v, v ∈ pages_of segs ∨ v * 4096 = STACK_BOTTOM → small (mem s) root (v * 4096)) →
  (load_elf hart s data root = Panic ∨ ∃ s', load_elf hart s data root = Done (None, s')) ∧
    free_frames hart s < 3 * (zlen (pages_of segs) + 1) ∨
  ∃ s' k, load_elf hart s data root = Done (Some (e_entry h, 0x3FFFFFFFF0), s') ∧
    spaces_ok s' (k ++ bl) roots ∧
    (∀ p i, p ∈ segs → 0 <= i < p_memsz p →
       user_byte root (mem s') (p_vaddr p + i) (seg_byte data p i) (seg_w p) (seg_x p && negb (seg_w p))) ∧
    (∀ i, 0 <= i < 4096 → user_byte root (mem s') (STACK_BOTTOM + i) 0 true false) ∧
    (∀ r va, r ∈ roots → r ≠ root → canonical va = true →
       translate (mem s') r va = translate (mem s) r va) ∧
    ∀ y, in_use bl y → ¬ table_word (mem s) roots y → mem s' y = mem s y.
Proof.
  intros segs Hok Hr Hd Hbig Hh Hent Hfit Hsg Hnd Hsm.
  destruct (load_all_run s bl roots root Hr data h Hok Hd Hbig Hh Hent Hfit Hsg Hnd Hsm)
    as [? | (pgs & s1 & k & s' & D & E & L & Sw & HD & Hex & (gs & Hgs & Evs & Ews & Exs) & Hpp)]; [by left | right].
  fold segs in L, Hex, Hpp. pose proof (ld_ok _ _ _ _ _ _ _ _ L) as Hok1.
  exists s', k. split; [done |]. split; [apply Sw |]. split; [| split; [| split]].
  - intros p i Hp Hi. pose proof (proj1 (Forall_forall _ _) Hsg p Hp) as Hpo.
    destruct (Hex p ((p_vaddr p + i) / 4096) Hp) as (g & Hg & Ev & <- & <-).
    { eapply seg_pages_of; [done | lia]. }
    rewrite <-(elf_image_in data segs (λ _, 0) p i) by done.
    replace (p_vaddr p + i) with (pg_vpn g * 4096 + (p_vaddr p + i) mod 4096) by (rewrite Ev; dlia).
    by apply (swept_page s bl roots root pgs _ s1 k s' D g _ L Sw HD Hg (Z.mod_pos_bound _ 4096 ltac:(lia))).
  - intros i Hi. pose proof (swept_page s bl roots root pgs _ s1 k s' D gs i L Sw HD Hgs Hi) as Hb.
    rewrite Evs, Ews, Exs in Hb. cbn [andb] in Hb.
    change ((2 ^ 26 - 1) * 4096) with STACK_BOTTOM in Hb. rewrite elf_image_out in Hb; [done | done |].
    intros Hin. pose proof (ld_pages _ _ _ _ _ _ _ _ L) as Hnp. rewrite Hpp in Hnp.
    apply NoDup_cons in Hnp as [Hnp _]. apply Hnp.
    by replace (2 ^ 26 - 1) with ((STACK_BOTTOM + i) / 4096) by (unfold STACK_BOTTOM; dlia).
  - intros r va Hr' Hne Hc. apply translate_same.
    destruct (sw_leaf _ _ _ _ _ _ Sw r va Hr') as [-> | (? & _)]; [| done].
    apply (ld_other _ _ _ _ _ _ _ _ L); auto.
  - intros y Hy Hn. rewrite (sw_data _ _ _ _ _ _ Sw); [by apply L |].
    intros (r & π & q & Hr' & Hπ & Hq & Hqy).
    destruct (ld_tables _ _ _ _ _ _ _ _ L r π q Hr' Hπ Hq) as [Hq0 | Hqk].
    + apply Hn. by exists r, π, q.
    + destruct (blocks_apart (frames s1) k bl y); [apply Hok1 | by exists q, 0 | done].
Qed.

(** The loader's walk takes a huge page for a table.  At an address inside a
    2 MB page, whose entry the address space shares with the kernel or with a
    device, [map_into_pt] returns normally, maps nothing (every translation of
    the address is as before), and stores the new entry into the memory that the
    huge page maps. *)
Theorem map_into_huge_page (s : @vm A) (bl : list (Z * Z)) (roots : list Z) (root va pa e : Z)
    (r w x u : bool) :
  spaces_ok s bl roots → root ∈ roots → hw_leaf (mem s) root va = Some (1, e) →
  let victim := phys_addr e + 8 * vpn0 va in
  in_dram victim = true → ¬ table_word (mem s) roots victim →
  ∃ s', map_into_pt hart s root va pa r w x u = Done s' ∧
    mem s' victim = leaf_pte pa r w x u ∧
    (∀ y, y ≠ victim → mem s' y = mem s y) ∧
    ∀ r' va', r' ∈ roots → translate (mem s') r' va' = translate (mem s) r' va'.
Proof.
  intros Hok Hr Hl victim Hv Hnt. destruct (vpn_bounds va) as (B2 & B1 & B0).
  destruct (hw_leaf_2m (mem s) root va e Hl) as (He & l1 & Ht & Ee).
  pose proof (so_owned _ _ _ Hok root [] root Hr ltac:(split; [cbn; lia | constructor]) eq_refl) as Hro.
  pose proof (so_owned _ _ _ Hok root _ _ Hr (path_1 _ B2) Ht) as Hlo.
  assert (walk_pt hart s root va true = Done (Some (phys_addr e, vpn0 va), s)) as Hw.
  { unfold walk_pt, descend_pt. cbn in Ht. unfold child in Ht.
    destruct (is_branch (mem s (root + 8 * vpn2 va))) eqn:Eb; [| done]. cbn in Ht. injection Ht as Ht.
    rewrite branch_or_leaf in Eb. apply andb_true_iff in Eb as [Ev _].
    rewrite (pte_at_run s bl) by (apply Hok || done). cbn [mbind outcome_bind]. rewrite Ev, Ht. cbn [negb mbind outcome_bind].
    rewrite (pte_at_run s bl) by (apply Hok || done). cbn [mbind outcome_bind].
    by rewrite <-Ee, (leaf_valid e He). }
  unfold map_into_pt. rewrite Hw. cbn [mbind outcome_bind unwrap]. unfold set_pte. fold victim. rewrite Hv.
  set (s' := stored s (write_word (mem s) victim (leaf_pte pa r w x u))).
  assert (mem s' = write_word (mem s) victim (leaf_pte pa r w x u)) as M by apply mem_stored.
  exists s'. split; [done |]. rewrite M. split; [apply write_word_eq |].
  assert (∀ y, y ≠ victim → write_word (mem s) victim (leaf_pte pa r w x u) y = mem s y) as Hne
    by (intros y Hy; by apply write_word_ne).
  split; [done |]. intros r' va' Hr'. apply translate_same, hw_leaf_same.
  apply (tables_quiet (mem s) _ roots); [| done | cbn; lia | apply vpath_indices].
  intros y Hy. apply Hne. by intros ->.
Qed.
End laws.

(** ** Examples *)

(** A program with one segment of two pages, of which the file has four bytes,
    at a given address. *)
Definition ex_elf (vaddr : Z) : list Z :=
  ELF_MAGIC ++ replicate 12 0 ++ le_bytes 2 2 ++ le_bytes 2 EM_RISCV ++ le_bytes 4 1 ++
  le_bytes 8 vaddr ++ le_bytes 8 64 ++ replicate 14 0 ++ le_bytes 2 56 ++ le_bytes 2 1 ++ replicate 6 0 ++
  le_bytes 4 1 ++ le_bytes 4 5 ++ le_bytes 8 120 ++ le_bytes 8 vaddr ++ le_bytes 8 vaddr ++
  le_bytes 8 4 ++ le_bytes 8 8192 ++ le_bytes 8 4096 ++ [0x13; 0x05; 0xA0; 0x02].

Definition ex_header (vaddr : Z) : Elf64Header := read_header (ex_elf vaddr).

Lemma load_elf_correct_witness :
  ∃ s', load_elf 0 ex_vm (ex_elf 0x10000) ex_root = Done (Some (0x10000, 0x3FFFFFFFF0), s') ∧
    user_byte ex_root (mem s') 0x10002 0xA0 false true ∧ user_byte ex_root (mem s') 0x11FFF 0 false true.
Proof.
  destruct (load_elf_correct 0 ltac:(lia) ex_vm [(ex_root, 0)] [ex_root] ex_root (ex_elf 0x10000)
              (ex_header 0x10000)) as [[Hf _] | (s' & k & E & _ & Hseg & _)].
  - exact ex_spaces.
  - exact ex_root_in.
  - apply (bool_decide_unpack _). vm_compute. exact I.
  - vm_compute. reflexivity.
  - vm_compute. reflexivity.
  - vm_compute. congruence.
  - vm_compute. congruence.
  - apply Forall_singleton. split; vm_compute; intuition congruence.
  - apply (bool_decide_unpack _). vm_compute. exact I.
  - intros v Hv l e. assert (v = 16 ∨ v = 17 ∨ v = 2 ^ 26 - 1) as [-> | [-> | ->]].
    + destruct Hv as [Hv | Hv]; [| right; right; unfold STACK_BOTTOM in Hv; lia].
      replace (pages_of (filter loadable (phdrs (ex_elf 0x10000) (ex_header 0x10000)))) with [16; 17] in Hv
        by (vm_compute; reflexivity).
      rewrite !elem_of_cons, elem_of_nil in Hv. lia.
    + vm_compute. discriminate.
    + vm_compute. discriminate.
    + vm_compute. discriminate.
  - assert (match load_elf 0 ex_vm (ex_elf 0x10000) ex_root with Done (Some _, _) => true | _ => false end = true)
      as Ho by (vm_compute; reflexivity).
    destruct Hf as [Hf | [s' Hf]]; rewrite Hf in Ho; discriminate Ho.
  - exists s'. split; [exact E |].
    split; [apply (Hseg (phdr_at (ex_elf 0x10000) 64) 2) | apply (Hseg (phdr_at (ex_elf 0x10000) 64) 0x1FFF)];
      (apply elem_of_cons; left; reflexivity) || (vm_compute; intuition congruence).
Defined.

(** The first process of the example, with the kernel's mappings. *)
Definition ex_proc : @vm allocator :=
  get_done ex_process.2 (copy_kernel_mappings 0 ex_process.2 ex_process.1).

Lemma ex_proc_space :
  ∃ bl, spaces_ok ex_proc bl [ex_process.1] ∧ ∀ va, hw_leaf (mem ex_proc) ex_process.1 va = kernel_leaf va.
Proof.
  destruct ex_process_ready as (bl & kr & l1 & mmio & n & Hc & Hr & Ht & Hn).
  destruct (copy_kernel_run 0 ltac:(lia) ex_process.2 bl kr l1 mmio n ex_process.1 Hc Hr Ht Hn)
    as [[E _] | (s' & k & E & Hok & Hl)].
  - assert (match copy_kernel_mappings 0 ex_process.2 ex_process.1 with Done _ => true | _ => false end = true) as Ho
      by (vm_compute; reflexivity).
    by rewrite E in Ho.
  - assert (ex_proc = s') as -> by (unfold ex_proc; rewrite E; reflexivity).
    exists (k ++ bl). split; [exact Hok | exact Hl].
Qed.

(** A segment at 0x80203000 makes the loader write into the kernel's memory. *)
Lemma map_into_huge_page_witness :
  ∃ s', map_into_pt 0 ex_proc ex_process.1 0x80203000 0x80C00000 true true false true = Done s' ∧
    mem s' 0x80200018 = leaf_pte 0x80C00000 true true false true.
Proof.
  destruct ex_proc_space as (bl & Hok & Hl).
  destruct (map_into_huge_page 0 ex_proc bl [ex_process.1] ex_process.1 0x80203000 0x80C00000
              (leaf_pte 0x80200000 true true true false) true true false true Hok) as (s' & E & Hm & _).
  - apply elem_of_cons. left. reflexivity.
  - rewrite Hl. vm_compute. reflexivity.
  - vm_compute. reflexivity.
  - intros (r & π & p & Hr & Hπ & Hp & Hx).
    pose proof (fa_above _ _ _ _ (so_frames _ _ _ Hok) (so_owned _ _ _ Hok r π p Hr Hπ Hp)) as Hb.
    assert (fa_base (frames ex_proc) = 0x80801000) as Eb by (vm_compute; reflexivity). rewrite Eb in Hb.
    rewrite in_page in Hx. change (phys_addr _ + 8 * vpn0 _) with 0x80200018 in Hx. lia.
  - exists s'. split; [exact E | exact Hm].
Defined.
End Elf.
