(* ===== verification/Heap.v ===== *)
(** * The kernel heap

    kernel/src/mem/heap.rs: a bump allocator over one region.  Every block gets
    an eight-byte canary on either side; [dealloc] reads the canaries back and
    stops the hart when one has changed.  Nothing is ever given back, so a block
    stays its owner's for good.

    Memory is a function from addresses to bytes.  [idle_loop], which never
    returns, is [Deadlock].  The heap's mutex guards each call as a whole and is
    left out.

    The theorems: blocks handed out stay apart, with their canaries, whatever
    their owners write inside them, and can then be given back without stopping
    the hart ([heap_blocks_apart]); a block whose layout asks for sixteen-byte
    alignment never has it ([alloc_misaligned]). *)
From S2P Require Import Prelude.

Module Heap.

(** ** Bytes *)

(** [n] bytes from [a]. *)
Definition bytes_at (m : Z → Z) (a n : Z) : list Z := m <$> zseq a n.

Definition poke (m : Z → Z) (a : Z) (bs : list Z) : Z → Z := λ x,
  if (a <=? x) && (x <? a + zlen bs) then default 0 (bs !! Z.to_nat (x - a)) else m x.

(** [ptr.write_bytes(v, n)]. *)
Definition fill (m : Z → Z) (a n v : Z) : Z → Z := λ x,
  if (a <=? x) && (x <? a + n) then v else m x.

(** [copy_nonoverlapping(src, dst, n)]. *)
Definition blit (m : Z → Z) (src dst n : Z) : Z → Z := λ x,
  if (dst <=? x) && (x <? dst + n) then m (src + (x - dst)) else m x.

Definition read_u64 (m : Z → Z) (a : Z) : Z := of_le_bytes (bytes_at m a 8).
Definition write_u64 (m : Z → Z) (a v : Z) : Z → Z := poke m a (le_bytes 8 v).

(** ** The allocator *)

Definition HEAP_CANARY : Z := 0xDEADBEEFCAFEBABE.

Record BumpAllocator : Type := MkBump {
  next : Z;
  end_ : Z;
  allocations : Z;
}.
#[export] Instance eta_bump : Eta BumpAllocator := λ b, MkBump (next b) (end_ b) (allocations b).

Record heap : Type := MkHeap {
  bump : BumpAllocator;
  bytes : Z → Z;
}.
#[export] Instance eta_heap : Eta heap := λ h, MkHeap (bump h) (bytes h).

Definition new_bump : BumpAllocator := MkBump 0 0 0.

Definition init_range (h : heap) (start stop : Z) : heap :=
  h <| bump := bump h <| next := start |> <| end_ := stop |> |>.

(** The pointer [alloc] returns, or the null pointer. *)
Definition alloc (h : heap) (size align : Z) : outcome (Z * heap) :=
  let aligned := Z.ldiff (u64 (u64 (next (bump h) + align) - 1)) (align - 1) in
  let payload := u64 (aligned + 8) in
  if 2 ^ 64 <=? payload + size then Panic else
  let payload_end := payload + size in
  let total_end := u64 (payload_end + 8) in
  if end_ (bump h) <? total_end then Done (0, h) else
  let m := write_u64 (bytes h) aligned HEAP_CANARY in
  let m := write_u64 m payload_end HEAP_CANARY in
  Done (payload, MkHeap (MkBump total_end (end_ (bump h)) (u64 (allocations (bump h) + 1))) m).

(** The provided method [GlobalAlloc::alloc_zeroed]. *)
Definition alloc_zeroed (h : heap) (size align : Z) : outcome (Z * heap) :=
  '(ptr, h) ← alloc h size align;
  if ptr =? 0 then Done (0, h) else Done (ptr, h <| bytes := fill (bytes h) ptr size 0 |>).

Definition dealloc (h : heap) (ptr size : Z) : outcome heap :=
  let before := read_u64 (bytes h) (ptr - 8) in
  let after := read_u64 (bytes h) (ptr + size) in
  if negb (before =? HEAP_CANARY) || negb (after =? HEAP_CANARY) then Deadlock
  else Done (h <| bump := bump h <| allocations := u64 (allocations (bump h) - 1) |> |>).

(** ** Reading and writing bytes *)

Lemma bytes_at_ext m m' a n :
  (∀ x, a <= x < a + n → m x = m' x) → bytes_at m a n = bytes_at m' a n.
Proof.
  intros Hm. unfold bytes_at. apply list_fmap_ext. intros i x Hx. apply Hm.
  by apply elem_of_zseq, (list_elem_of_lookup_2 _ i).
Qed.

Lemma poke_out m a bs x : x < a ∨ a + zlen bs <= x → poke m a bs x = m x.
Proof. intros Hx. unfold poke. destruct (_ && _) eqn:E; bools; [lia | done]. Qed.

Lemma poke_in m a bs x :
  a <= x < a + zlen bs → poke m a bs x = default 0 (bs !! Z.to_nat (x - a)).
Proof.
  intros Hx. unfold poke.
  destruct (a <=? x) eqn:?, (x <? a + zlen bs) eqn:?; bools; done || lia.
Qed.

Lemma fill_out m a n v x : x < a ∨ a + n <= x → fill m a n v x = m x.
Proof. intros Hx. unfold fill. destruct (_ && _) eqn:E; bools; [lia | done]. Qed.

Lemma fill_in m a n v x : a <= x < a + n → fill m a n v x = v.
Proof.
  intros Hx. unfold fill. destruct (a <=? x) eqn:?, (x <? a + n) eqn:?; bools; done || lia.
Qed.

Lemma blit_out m src dst n x : x < dst ∨ dst + n <= x → blit m src dst n x = m x.
Proof. intros Hx. unfold blit. destruct (_ && _) eqn:E; bools; [lia | done]. Qed.

Lemma blit_in m src dst n x : dst <= x < dst + n → blit m src dst n x = m (src + (x - dst)).
Proof.
  intros Hx. unfold blit. destruct (dst <=? x) eqn:?, (x <? dst + n) eqn:?; bools; done || lia.
Qed.

Lemma bytes_at_poke m a bs : bytes_at (poke m a bs) a (zlen bs) = bs.
Proof.
  apply list_eq. intros i. unfold bytes_at, zseq.
  rewrite <- list_fmap_compose, list_lookup_fmap, to_nat_zlen.
  destruct (decide (i < length bs)%nat) as [Hi | Hi].
  - rewrite lookup_seq_lt by done. cbn. unfold compose.
    rewrite poke_in by (unfold zlen; lia).
    replace (Z.to_nat (a + Z.of_nat i - a)) with i by lia.
    by destruct (lookup_lt_is_Some_2 bs i Hi) as [x ->].
  - rewrite lookup_seq_ge, lookup_ge_None_2 by lia. done.
Qed.

Lemma read_u64_ext m m' a :
  (∀ x, a <= x < a + 8 → m x = m' x) → read_u64 m a = read_u64 m' a.
Proof. intros Hm. unfold read_u64. by rewrite (bytes_at_ext m m'). Qed.

Lemma read_write_u64 m a v : fits 64 v → read_u64 (write_u64 m a v) a = v.
Proof.
  intros Hv. unfold read_u64, write_u64.
  change 8 with (zlen (le_bytes 8 v)). rewrite bytes_at_poke, of_le_bytes_le_bytes.
  by apply Z.mod_small.
Qed.

Lemma write_u64_out m a v x : x < a ∨ a + 8 <= x → write_u64 m a v x = m x.
Proof. intros Hx. by apply poke_out. Qed.

Lemma canary_fits : fits 64 HEAP_CANARY.
Proof. unfold fits, HEAP_CANARY. lia. Qed.

(** ** Blocks *)

(** The canaries around the block of [n] bytes at [p]. *)
Definition canaried (m : Z → Z) (p n : Z) : Prop :=
  read_u64 m (p - 8) = HEAP_CANARY ∧ read_u64 m (p + n) = HEAP_CANARY.

(** The blocks [bs], in the order they were handed out from [lo] on. *)
Record heap_ok (lo : Z) (bs : list (Z * Z)) (h : heap) : Prop := {
  ho_bounds : 0 <= lo <= next (bump h) ∧ next (bump h) <= end_ (bump h) < 2 ^ 63;
  ho_block p n : (p, n) ∈ bs →
    0 <= n ∧ lo + 8 <= p ∧ p + n + 8 <= next (bump h) ∧ canaried (bytes h) p n;
  ho_apart i j p n q k :
    bs !! i = Some (p, n) → bs !! j = Some (q, k) → (i < j)%nat → p + n + 8 <= q - 8;
}.

(** Rounding up to a power of two. *)
Lemma round_up x k : 0 <= k → x <= Z.ldiff (x + 2 ^ k - 1) (2 ^ k - 1) < x + 2 ^ k ∧
  Z.ldiff (x + 2 ^ k - 1) (2 ^ k - 1) mod 2 ^ k = 0.
Proof.
  intros Hk. replace (2 ^ k - 1) with (Z.ones k) by (rewrite Z.ones_equiv; lia).
  rewrite Z.ldiff_ones_r, Z.shiftl_mul_pow2, Z.shiftr_div_pow2 by done.
  pose proof (Z.pow_pos_nonneg 2 k ltac:(lia) Hk). split.
  - pose proof (Z.div_mod (x + 2 ^ k - 1) (2 ^ k) ltac:(lia)).
    pose proof (Z.mod_pos_bound (x + 2 ^ k - 1) (2 ^ k) ltac:(lia)). lia.
  - by apply Z_mod_mult.
Qed.

(** [alloc] where nothing wraps around. *)
Lemma alloc_cases lo bs h size k :
  heap_ok lo bs h → 0 <= size < 2 ^ 62 → 0 <= k <= 12 →
  ∃ aligned, next (bump h) <= aligned < next (bump h) + 2 ^ k ∧ aligned mod 2 ^ k = 0 ∧
    alloc h size (2 ^ k) =
      if end_ (bump h) <? aligned + 16 + size then Done (0, h) else
      Done (aligned + 8, MkHeap
        (MkBump (aligned + 16 + size) (end_ (bump h)) (u64 (allocations (bump h) + 1)))
        (write_u64 (write_u64 (bytes h) aligned HEAP_CANARY) (aligned + 8 + size) HEAP_CANARY)).
Proof.
  intros [Hb _ _] Hs Hk. destruct (round_up (next (bump h)) k) as [Ha Hm]; [lia |].
  assert (1 <= 2 ^ k <= 2 ^ 12) as Hp.
  { split; [pose proof (Z.pow_pos_nonneg 2 k); lia | apply Z.pow_le_mono_r; lia]. }
  exists (Z.ldiff (next (bump h) + 2 ^ k - 1) (2 ^ k - 1)). split_and!; [lia.. | done |].
  unfold alloc. rewrite (wrap_small 64 (next _ + _)) by (unfold fits; lia).
  rewrite (wrap_small 64 (_ - 1)) by (unfold fits; lia).
  set (al := Z.ldiff _ _) in *.
  rewrite (wrap_small 64 (al + 8)) by (unfold fits; lia).
  destruct (2 ^ 64 <=? _) eqn:E; bools; [lia |].
  rewrite (wrap_small 64 (al + 8 + size + 8)) by (unfold fits; lia).
  by replace (al + 8 + size + 8) with (al + 16 + size) by lia.
Qed.

(** What changes only outside the blocks and their canaries keeps them. *)
Lemma canaried_ext m m' p n :
  (∀ x, p - 8 <= x < p ∨ p + n <= x < p + n + 8 → m' x = m x) →
  canaried m p n → canaried m' p n.
Proof.
  intros Hm [H1 H2]. split; [rewrite <- H1 | rewrite <- H2];
    apply read_u64_ext; intros x Hx; apply Hm; lia.
Qed.

Lemma heap_ok_bytes lo bs h m :
  heap_ok lo bs h →
  (∀ p n, (p, n) ∈ bs → canaried (bytes h) p n → canaried m p n) →
  heap_ok lo bs (h <| bytes := m |>).
Proof.
  intros [Hb Hbl Ha] Hm. split; cbn; [done | | done].
  intros p n Hin. destruct (Hbl p n Hin) as (? & ? & ? & ?). eauto.
Qed.

Lemma allocs_apart lo bs h p n q k :
  heap_ok lo bs h → (p, n) ∈ bs → (q, k) ∈ bs →
  (p, n) = (q, k) ∨ p + n + 8 <= q - 8 ∨ q + k + 8 <= p - 8.
Proof.
  intros [_ _ Ha] [i Hi]%list_elem_of_lookup [j Hj]%list_elem_of_lookup.
  destruct (lt_eq_lt_dec i j) as [[Hij | ->] | Hij]; [eauto | left; congruence | eauto].
Qed.

(** A write inside one block keeps the canaries of all. *)
Lemma heap_ok_write lo bs h p n m :
  heap_ok lo bs h → (p, n) ∈ bs →
  (∀ x, x < p ∨ p + n <= x → m x = bytes h x) →
  heap_ok lo bs (h <| bytes := m |>).
Proof.
  intros Hok Hin Hm. apply heap_ok_bytes; [done |]. intros q k Hq. apply canaried_ext.
  intros x Hx. apply Hm. pose proof (allocs_apart lo bs h p n q k Hok Hin Hq) as Hpq.
  destruct (ho_block _ _ _ Hok q k Hq) as (? & ? & ? & _), (ho_block _ _ _ Hok p n Hin) as (? & _).
  destruct Hpq as [[= -> ->] | ?]; lia.
Qed.

(** A block handed out: behind all others, canaried, the rest of memory below
    [next] as before. *)
Lemma alloc_ok lo bs h size k p h' :
  heap_ok lo bs h → 0 <= size < 2 ^ 62 → 0 <= k <= 12 →
  alloc h size (2 ^ k) = Done (p, h') → p ≠ 0 →
  heap_ok lo (bs ++ [(p, size)]) h' ∧ next (bump h) + 8 <= p ∧ (p - 8) mod 2 ^ k = 0 ∧
  p + size + 8 = next (bump h') ∧ end_ (bump h') = end_ (bump h) ∧
  (∀ x, x < next (bump h) ∨ end_ (bump h) <= x → bytes h' x = bytes h x).
Proof.
  intros Hok Hs Hk Ha Hp.
  destruct (alloc_cases lo bs h size k Hok Hs Hk) as (al & Hal & Hmod & Heq).
  rewrite Heq in Ha. destruct (_ <? _) eqn:E; bools; [congruence |]. injection Ha as <- <-.
  destruct Hok as [Hb Hbl Hap]. cbn [bump bytes next end_].
  assert (∀ x, x < al ∨ al + 16 + size <= x →
    write_u64 (write_u64 (bytes h) al HEAP_CANARY) (al + 8 + size) HEAP_CANARY x = bytes h x) as Hout.
  { intros x Hx. by rewrite !write_u64_out by lia. }
  split_and!; [| lia | by replace (al + 8 - 8) with al by lia | lia | done |
    intros x Hx; apply Hout; lia].
  split; cbn [bump bytes next end_]; [lia | |].
  - intros q n [Hq | Hq%list_elem_of_singleton]%elem_of_app.
    + destruct (Hbl q n Hq) as (? & ? & ? & Hc). split_and!; [lia.. |].
      eapply canaried_ext, Hc. intros x Hx. apply Hout. lia.
    + injection Hq as -> ->. split_and!; [lia.. |]. split.
      * replace (al + 8 - 8) with al by lia.
        transitivity (read_u64 (write_u64 (bytes h) al HEAP_CANARY) al);
          [| apply read_write_u64, canary_fits].
        apply read_u64_ext. intros x Hx. by rewrite write_u64_out by lia.
      * apply read_write_u64, canary_fits.
  - intros i j q n r l Hi Hj Hij.
    apply lookup_lt_Some in Hj as Hjl. rewrite length_app in Hjl. cbn in Hjl.
    rewrite lookup_app_l in Hi by lia.
    destruct (decide (j < length bs)%nat).
    + rewrite lookup_app_l in Hj by lia. eauto.
    + rewrite lookup_app_r in Hj by lia. replace (j - length bs)%nat with 0%nat in Hj by lia.
      injection Hj as <- <-. apply list_elem_of_lookup_2, Hbl in Hi. lia.
Qed.

Lemma dealloc_ok lo bs h p n :
  heap_ok lo bs h → (p, n) ∈ bs →
  dealloc h p n = Done (h <| bump := bump h <| allocations := u64 (allocations (bump h) - 1) |> |>).
Proof.
  intros [_ Hbl _] Hin. destruct (Hbl p n Hin) as (_ & _ & _ & H1 & H2).
  unfold dealloc. by rewrite H1, H2.
Qed.

(** ** Owners of blocks *)

(** What the heap over [lo..hi) can come to when every owner writes only inside
    its block and gives it back with the layout it asked for. *)
Inductive used (lo hi : Z) : list (Z * Z) → heap → Prop :=
| used_init m : used lo hi [] (init_range (MkHeap new_bump m) lo hi)
| used_alloc bs h size k p h' :
    used lo hi bs h → 0 <= size < 2 ^ 62 → 0 <= k <= 12 →
    alloc_zeroed h size (2 ^ k) = Done (p, h') → p ≠ 0 → used lo hi (bs ++ [(p, size)]) h'
| used_write bs h p n a v :
    used lo hi bs h → (p, n) ∈ bs → p <= a → a + zlen v <= p + n →
    used lo hi bs (h <| bytes := poke (bytes h) a v |>)
| used_free bs h p n h' :
    used lo hi bs h → (p, n) ∈ bs → dealloc h p n = Done h' → used lo hi bs h'.

(** [alloc_zeroed] is [alloc] and the block is zero. *)
Lemma alloc_zeroed_ok lo bs h size k p h' :
  heap_ok lo bs h → 0 <= size < 2 ^ 62 → 0 <= k <= 12 →
  alloc_zeroed h size (2 ^ k) = Done (p, h') → p ≠ 0 →
  heap_ok lo (bs ++ [(p, size)]) h' ∧ next (bump h) + 8 <= p ∧ (p - 8) mod 2 ^ k = 0 ∧
  p + size + 8 = next (bump h') ∧ end_ (bump h') = end_ (bump h) ∧
  (∀ x, p <= x < p + size → bytes h' x = 0) ∧
  (∀ x, x < next (bump h) ∨ end_ (bump h) <= x → bytes h' x = bytes h x).
Proof.
  intros Hok Hs Hk Ha Hp. unfold alloc_zeroed in Ha. inv_bind. destruct a as [q h1].
  destruct (q =? 0) eqn:Eq; bools; inv_bind; injection Ha as <- <-; [done |].
  destruct (alloc_ok lo bs h size k q h1) as (Hok1 & Hq & Hm & Hn & He & Hout); [done.. |].
  split_and!; [| done..| |]; cbn [set_field bump bytes].
  - apply (heap_ok_write _ _ h1 q size); [done | set_solver |]. apply fill_out.
  - intros x Hx. by apply fill_in.
  - intros x Hx. rewrite fill_out; [by apply Hout |].
    pose proof (ho_bounds _ _ _ Hok1). lia.
Qed.

Lemma used_ok lo hi bs h : 0 <= lo <= hi → hi < 2 ^ 63 → used lo hi bs h → heap_ok lo bs h.
Proof.
  intros Hlo Hhi. induction 1 as [m | bs h size k p h' _ IH Hs Hk Ha Hp |
    bs h p n a v _ IH Hin Ha Hv | bs h p n h' _ IH Hin Hf].
  - split; cbn; [lia | set_solver | done].
  - by apply (alloc_zeroed_ok lo bs h size k p h').
  - apply (heap_ok_write _ _ h p n); [done.. |]. intros x Hx. apply poke_out. lia.
  - rewrite (dealloc_ok lo bs h p n IH Hin) in Hf. inv_bind. destruct IH as [? ? ?]. by split.
Qed.

Lemma used_end lo hi bs h : 0 <= lo <= hi → hi < 2 ^ 63 → used lo hi bs h → end_ (bump h) = hi.
Proof.
  intros Hlo Hhi. induction 1 as [| bs h size k p h' Hu IH Hs Hk Ha Hp | | bs h p n h' Hu IH Hin Hf];
    [done | | done |].
  - rewrite <- IH. apply (used_ok lo hi) in Hu; [| done..].
    by destruct (alloc_zeroed_ok lo bs h size k p h') as (_ & _ & _ & _ & ? & _).
  - rewrite (dealloc_ok lo bs h p n) in Hf by (done || by apply (used_ok lo hi)). by inv_bind.
Qed.

(** However the heap is used, as long as owners stay inside their blocks:
    blocks lie in the region, never touch one another, hold zeroes when handed
    out, and [dealloc] with the block's own layout finds both canaries and
    returns. *)
Theorem heap_blocks_apart lo hi bs h i j p n q k :
  0 <= lo <= hi → hi < 2 ^ 63 → used lo hi bs h →
  bs !! i = Some (p, n) → bs !! j = Some (q, k) →
  (lo <= p ∧ p + n <= hi) ∧ (i ≠ j → p + n < q ∨ q + k < p) ∧
  (∃ h', dealloc h p n = Done h') ∧
  (∀ size l r h', 0 <= size < 2 ^ 62 → 0 <= l <= 12 → alloc_zeroed h size (2 ^ l) = Done (r, h') →
    r ≠ 0 → (∀ x, r <= x < r + size → bytes h' x = 0) ∧
    (∀ x, p <= x < p + n → bytes h' x = bytes h x)).
Proof.
  intros Hlo Hhi Hu Hi Hj. pose proof (used_ok lo hi bs h Hlo Hhi Hu) as Hok.
  pose proof (used_end lo hi bs h Hlo Hhi Hu) as Hend.
  destruct (ho_block _ _ _ Hok p n) as (? & ? & ? & _); [by eapply list_elem_of_lookup_2 |].
  destruct (ho_block _ _ _ Hok q k) as (? & ? & ? & _); [by eapply list_elem_of_lookup_2 |].
  pose proof (ho_bounds _ _ _ Hok). split_and!; [lia.. | | |].
  - intros Hij. destruct (decide (i < j)%nat) as [Hlt | Hge].
    + pose proof (ho_apart _ _ _ Hok i j _ _ _ _ Hi Hj Hlt). lia.
    + pose proof (ho_apart _ _ _ Hok j i _ _ _ _ Hj Hi ltac:(lia)). lia.
  - eexists. eapply dealloc_ok; [done | by eapply list_elem_of_lookup_2].
  - intros size l r h' Hs Hl Ha Hr.
    destruct (alloc_zeroed_ok lo bs h size l r h') as (_ & _ & _ & _ & _ & Hz & Hout); [done.. |].
    split; [done |]. intros x Hx. apply Hout. lia.
Qed.

(** A layout with sixteen-byte alignment, such as the one of the linear
    memories of the WASM runtime, gets a pointer that is eight past a multiple
    of sixteen: the canary in front of the block takes the aligned place. *)
Theorem alloc_misaligned lo hi bs h size p h' :
  0 <= lo <= hi → hi < 2 ^ 63 → used lo hi bs h → 0 <= size < 2 ^ 62 →
  alloc h size 16 = Done (p, h') → p ≠ 0 → p mod 16 = 8.
Proof.
  intros Hlo Hhi Hu Hs Ha Hp. pose proof (used_ok lo hi bs h Hlo Hhi Hu) as Hok.
  destruct (alloc_ok lo bs h size 4 p h') as (_ & _ & Hm & _); [done | done | lia | done | done |].
  change (2 ^ 4) with 16 in Hm. dlia.
Qed.

(** ** Examples *)

Definition ex_heap0 : heap := init_range (MkHeap new_bump (λ _, 0)) 0x1000 0x9000.
Definition ex_heap1 : heap :=
  match alloc_zeroed ex_heap0 64 (2 ^ 4) with Done (_, h) => h | _ => ex_heap0 end.
Definition ex_heap2 : heap :=
  match alloc_zeroed ex_heap1 32 (2 ^ 4) with Done (_, h) => h | _ => ex_heap1 end.

Lemma ex_heap_used : used 0x1000 0x9000 [(0x1008, 64); (0x1058, 32)] ex_heap2.
Proof.
  change [(0x1008, 64); (0x1058, 32)] with (([] ++ [(0x1008, 64)]) ++ [(0x1058, 32)]).
  eapply (used_alloc _ _ _ ex_heap1 32 4); [| lia | lia | reflexivity | done].
  eapply (used_alloc _ _ _ ex_heap0 64 4); [| lia | lia | reflexivity | done].
  apply used_init.
Qed.

Lemma heap_blocks_apart_witness : 0x1008 + 64 < 0x1058 ∨ 0x1058 + 32 < 0x1008.
Proof.
  by apply (heap_blocks_apart 0x1000 0x9000 _ ex_heap2 0 1 0x1008 64 0x1058 32
    ltac:(lia) ltac:(lia) ex_heap_used).
Defined.

Lemma alloc_misaligned_witness : 0x1088 mod 16 = 8.
Proof.
  eapply (alloc_misaligned 0x1000 0x9000 _ ex_heap2 8 0x1088 _ ltac:(lia) ltac:(lia)
    ex_heap_used); [lia | reflexivity | done].
Defined.

End Heap.
