(* ===== verification/Hostcall.v ===== *)
(** * What a WASM module can import

    kernel/src/wasm/hostcall.rs, the table that turns import names into system
    calls, and kernel/src/wasm/wasi.rs, the native functions behind the WASI
    names.

    A name is an array of 32 bytes, ended by a zero.  A native function is a
    constructor of [HostFunc], run by [call_host]; it sees its arguments and the
    kernel's memory, as the [fn(&[i64]) -> i64] of the code does.  Characters it
    sends to the console are collected in the order they are sent.  A raw access
    to an address that is not memory would fault; [bytes] has no such addresses.

    The theorems: a lookup by function name returns the first entry that has the
    name as a prefix, so that the import send is served by the system call
    sendto ([lookup_takes_first_prefix]); the table of native functions is full
    before the registration ends ([wasi_init_drops_functions]). *)
From Stdlib Require Import Ascii String.
From S2P Require Import Prelude Heap.
Import Heap.

Module Hostcall.

(** ** Names *)

Definition bytes_of (s : string) : list Z :=
  (λ c, Z.of_N (N_of_ascii c)) <$> String.list_ascii_of_string s.

Definition empty_name : list Z := replicate 32 0.

(** [for i in 0..n { dst[i] = src[i]; } dst[n] = 0], [n] being at most 31. *)
Definition set_name (dst src : list Z) : list Z :=
  let n := (length src `min` 31)%nat in take n src ++ 0 :: drop (S n) dst.

(** ** The table of system calls *)

Definition MAX_SYSCALL_ENTRIES : Z := 256.

Record WasmSyscallEntry : Type := MkSyscallEntry {
  module_name : list Z;
  function_name : list Z;
  syscall_nr : Z;
}.

Record WasmSyscallTable : Type := MkSyscallTable {
  entries : list WasmSyscallEntry;
  count : Z;
}.
#[export] Instance eta_syscall_table : Eta WasmSyscallTable :=
  λ t, MkSyscallTable (entries t) (count t).

Definition empty_entry : WasmSyscallEntry := MkSyscallEntry empty_name empty_name 0.

Definition new_table : WasmSyscallTable :=
  MkSyscallTable (replicate (Z.to_nat MAX_SYSCALL_ENTRIES) empty_entry) 0.

Definition register (t : WasmSyscallTable) (module func : list Z) (nr : Z)
    : outcome WasmSyscallTable :=
  if MAX_SYSCALL_ENTRIES <=? count t then Done t else
  e ← aget (entries t) (count t);
  es ← aset (entries t) (count t)
         (MkSyscallEntry (set_name (module_name e) module) (set_name (function_name e) func) nr);
  Done (MkSyscallTable es (count t + 1)).

(** The loop of [name_matches]. *)
Fixpoint name_loop (stored input : list Z) : bool :=
  match input, stored with
  | [], _ => true
  | _, [] => true
  | c :: input', d :: stored' =>
      if negb (d =? c) then false else if d =? 0 then false else name_loop stored' input'
  end.

Definition name_matches (stored input : list Z) : bool :=
  match input with
  | [] | 0 :: _ => bool_decide (stored !! 0%nat = Some 0)
  | _ => name_loop stored input
  end.

Definition lookup (t : WasmSyscallTable) (module func : list Z) : option Z :=
  syscall_nr <$> List.find
    (λ e, name_matches (module_name e) module && name_matches (function_name e) func)
    (take (Z.to_nat (count t)) (entries t)).

Definition lookup_by_func (t : WasmSyscallTable) (func : list Z) : option Z :=
  syscall_nr <$> List.find (λ e, name_matches (function_name e) func)
    (take (Z.to_nat (count t)) (entries t)).

(** [name_to_slice]: up to the first zero. *)
Fixpoint name_to_slice (name : list Z) : list Z :=
  match name with
  | [] => []
  | c :: name' => if c =? 0 then [] else c :: name_to_slice name'
  end.

(** The calls of [register_default_set]: module, function, system call. *)
Definition default_set : list (string * string * Z) :=
  [("tros:io", "fd_read", 51); ("tros:io", "fd_write", 52); ("tros:io", "fd_close", 53);
   ("tros:io", "fd_seek", 55); ("tros:io", "fd_open", 50); ("tros:io", "fd_stat", 54);
   ("tros:io", "fd_dup", 56); ("tros:io", "fd_sync", 121); ("tros:io", "fd_truncate", 82);
   ("tros:io", "fd_ioctl", 74); ("tros:io", "fd_fcntl", 73); ("tros:fs", "getcwd", 57);
   ("tros:fs", "chdir", 80); ("tros:fs", "mkdir", 76); ("tros:fs", "rmdir", 77);
   ("tros:fs", "unlink", 78); ("tros:fs", "rename", 79); ("tros:fs", "access", 81);
   ("tros:fs", "getdents", 75); ("tros:fs", "chmod", 62); ("tros:proc", "exit", 0);
   ("tros:proc", "getpid", 5); ("tros:proc", "getppid", 65); ("tros:proc", "gettid", 66);
   ("tros:proc", "spawn", 3); ("tros:proc", "fork", 4); ("tros:proc", "exec", 7);
   ("tros:proc", "kill", 42); ("tros:proc", "waitpid", 64); ("tros:proc", "signal", 63);
   ("tros:proc", "yield", 6); ("tros:mem", "mmap", 83); ("tros:mem", "munmap", 84);
   ("tros:mem", "mprotect", 85); ("tros:mem", "brk", 86); ("tros:mem", "shm_map", 25);
   ("tros:clock", "time_get", 68); ("tros:clock", "nanosleep", 67); ("tros:clock", "uptime", 46);
   ("tros:net", "socket", 90); ("tros:net", "bind", 91); ("tros:net", "listen", 92);
   ("tros:net", "accept", 93); ("tros:net", "connect", 94); ("tros:net", "sendto", 95);
   ("tros:net", "recvfrom", 96); ("tros:ipc", "ep_create", 10); ("tros:ipc", "send", 11);
   ("tros:ipc", "recv", 12); ("tros:ipc", "call", 13); ("tros:ipc", "reply", 14);
   ("tros:cap", "mint", 30); ("tros:cap", "copy_cap", 31); ("tros:cap", "move_cap", 32);
   ("tros:cap", "delete_cap", 33); ("tros:sys", "sysinfo", 71); ("tros:sys", "getuid", 60);
   ("tros:sys", "setuid", 61); ("tros:sys", "umask", 69); ("tros:sys", "reboot", 122);
   ("tros:sys", "proclist", 41); ("tros:sys", "meminfo", 43); ("tros:res", "times", 116);
   ("tros:res", "getrusage", 117); ("tros:ns", "unshare", 110); ("tros:ns", "sethostname", 111);
   ("tros:ns", "gethostname", 112); ("tros:aio", "pipe", 72); ("tros:aio", "epoll_create", 100);
   ("tros:aio", "epoll_ctl", 101); ("tros:aio", "epoll_wait", 102); ("tros:aio", "io_uring_setup", 140)]%string.

Fixpoint register_all (t : WasmSyscallTable) (l : list (string * string * Z))
    : outcome WasmSyscallTable :=
  match l with
  | [] => Done t
  | (m, f, nr) :: l' => t ← register t (bytes_of m) (bytes_of f) nr; register_all t l'
  end.

Definition register_default_set (t : WasmSyscallTable) : outcome WasmSyscallTable :=
  register_all t default_set.

(** ** Native functions *)

Definition WASI_ESUCCESS : Z := 0.
Definition WASI_EINVAL : Z := 28.
Definition WASI_ENOSYS : Z := 52.

(** What native functions and the interpreter share with the kernel. *)
Record world : Type := MkWorld {
  kheap : heap;
  console : list Z;
  tick_count : Z;
}.
#[export] Instance eta_world : Eta world := λ w, MkWorld (kheap w) (console w) (tick_count w).

Definition kmem (w : world) : Z → Z := bytes (kheap w).
Definition set_kmem (w : world) (m : Z → Z) : world :=
  w <| kheap := kheap w <| bytes := m |> |>.

Definition as_i32 (x : Z) : Z := to_signed 32 x.
Definition as_u32 (x : Z) : Z := wrap 32 x.

Inductive HostFunc : Type :=
| fd_write | fd_read | fd_close | fd_seek | random_get | clock_time_get | proc_exit
| success.

(** One iovec of [fd_write]. *)
Definition write_iovec (w : world) (fd iovs_addr total i : Z) : world * Z :=
  let iov_base := iovs_addr + i * 8 in
  let buf_ptr := of_le_bytes (bytes_at (kmem w) iov_base 4) in
  let buf_len := of_le_bytes (bytes_at (kmem w) (iov_base + 4) 4) in
  if buf_len =? 0 then (w, total) else
  if (fd =? 1) || (fd =? 2)
  then (w <| console := console w ++ bytes_at (kmem w) buf_ptr (Z.min buf_len 512) |>,
        wrap 32 (total + buf_len))
  else (w, total).

Fixpoint write_iovecs (w : world) (fd iovs_addr total i : Z) (n : nat) : world * Z :=
  match n with
  | O => (w, total)
  | S n' =>
      let '(w, total) := write_iovec w fd iovs_addr total i in
      write_iovecs w fd iovs_addr total (i + 1) n'
  end.

Definition host_fd_write (args : list Z) (w : world) : outcome (Z * world) :=
  match args with
  | a0 :: a1 :: a2 :: a3 :: _ =>
      let fd := as_i32 a0 in
      let iovs_addr := as_u32 a1 in
      let iovs_len := as_i32 a2 in
      let nwritten_addr := as_u32 a3 in
      if (iovs_len <=? 0) || (iovs_addr =? 0) then Done (WASI_EINVAL, w) else
      let '(w, total) := write_iovecs w fd iovs_addr 0 0 (Z.to_nat iovs_len) in
      if nwritten_addr =? 0 then Done (WASI_ESUCCESS, w) else
      Done (WASI_ESUCCESS, set_kmem w (poke (kmem w) nwritten_addr (le_bytes 4 total)))
  | _ => Done (WASI_EINVAL, w)
  end.

Definition host_fd_read (args : list Z) (w : world) : outcome (Z * world) :=
  match args with
  | _ :: _ :: _ :: a3 :: _ =>
      let nread_addr := as_u32 a3 in
      if nread_addr =? 0 then Done (WASI_ESUCCESS, w) else
      Done (WASI_ESUCCESS, set_kmem w (poke (kmem w) nread_addr [0; 0; 0; 0]))
  | _ => Done (WASI_EINVAL, w)
  end.

Definition host_fd_close (args : list Z) (w : world) : outcome (Z * world) :=
  _ ← aget args 0; Done (WASI_ESUCCESS, w).

Definition host_fd_seek (args : list Z) (w : world) : outcome (Z * world) :=
  if zlen args <? 4 then Done (WASI_EINVAL, w) else Done (WASI_ENOSYS, w).

Definition xorshift (state : Z) : Z :=
  let state := Z.lxor state (wrap 32 (Z.shiftl state 13)) in
  let state := Z.lxor state (Z.shiftr state 17) in
  Z.lxor state (wrap 32 (Z.shiftl state 5)).

Fixpoint random_bytes (state : Z) (n : nat) : list Z :=
  match n with
  | O => []
  | S n' => let state := xorshift state in state mod 256 :: random_bytes state n'
  end.

Definition host_random_get (args : list Z) (w : world) : outcome (Z * world) :=
  match args with
  | a0 :: a1 :: _ =>
      let buf_addr := as_u32 a0 in
      let len := u64 a1 in
      if (buf_addr =? 0) || (len =? 0) then Done (WASI_EINVAL, w) else
      let bs := random_bytes 123456789 (Z.to_nat (Z.min len 1024)) in
      Done (WASI_ESUCCESS, set_kmem w (poke (kmem w) buf_addr bs))
  | _ => Done (WASI_EINVAL, w)
  end.

Definition host_clock_time_get (args : list Z) (w : world) : outcome (Z * world) :=
  match args with
  | _ :: _ :: a2 :: _ =>
      let time_addr := as_u32 a2 in
      if time_addr =? 0 then Done (WASI_ESUCCESS, w) else
      let nanos := u64 (tick_count w * 10000000) in
      Done (WASI_ESUCCESS, set_kmem w (poke (kmem w) time_addr (le_bytes 8 nanos)))
  | _ => Done (WASI_EINVAL, w)
  end.

Definition host_proc_exit (args : list Z) (w : world) : outcome (Z * world) :=
  match args with [] => Done (0, w) | a0 :: _ => Done (a0, w) end.

Definition call_host (f : HostFunc) (args : list Z) (w : world) : outcome (Z * world) :=
  match f with
  | fd_write => host_fd_write args w
  | fd_read => host_fd_read args w
  | fd_close => host_fd_close args w
  | fd_seek => host_fd_seek args w
  | random_get => host_random_get args w
  | clock_time_get => host_clock_time_get args w
  | proc_exit => host_proc_exit args w
  | success => Done (WASI_ESUCCESS, w)
  end.

(** ** The table of native functions *)

Definition MAX_HOST_FUNCS : Z := 16.

Record HostFuncEntry : Type := MkHostFunc {
  host_name : list Z;
  host_name_len : Z;
  host_func : option HostFunc;
}.

Record host_table : Type := MkHostTable {
  host_funcs : list HostFuncEntry;
  host_func_count : Z;
}.

Definition new_host_table : host_table :=
  MkHostTable (replicate (Z.to_nat MAX_HOST_FUNCS) (MkHostFunc empty_name 0 None)) 0.

Definition wasm_register_host_func (t : host_table) (name : list Z) (f : HostFunc)
    : outcome (bool * host_table) :=
  if MAX_HOST_FUNCS <=? host_func_count t then Done (false, t) else
  e ← aget (host_funcs t) (host_func_count t);
  es ← aset (host_funcs t) (host_func_count t)
         (MkHostFunc (set_name (host_name e) name) (Z.min (zlen name) 31) (Some f));
  Done (true, MkHostTable es (host_func_count t + 1)).

(** The calls of [wasi_init]. *)
Definition wasi_functions : list (string * HostFunc) :=
  [("fd_write", fd_write); ("fd_read", fd_read); ("fd_close", fd_close); ("fd_seek", fd_seek);
   ("random_get", random_get); ("clock_time_get", clock_time_get); ("proc_exit", proc_exit);
   ("environ_get", success); ("environ_sizes_get", success); ("args_get", success);
   ("args_sizes_get", success); ("fd_prestat_get", success); ("fd_prestat_dir_name", success);
   ("path_open", success); ("path_readlink", success); ("path_filestat_get", success);
   ("path_filestat_set_times", success); ("path_create_directory", success);
   ("path_remove_directory", success); ("path_unlink_file", success); ("path_rename", success);
   ("path_symlink", success); ("path_link", success)]%string.

(** Returns what each registration returned. *)
Fixpoint register_host_funcs (t : host_table) (l : list (string * HostFunc))
    : outcome (list bool * host_table) :=
  match l with
  | [] => Done ([], t)
  | (n, f) :: l' =>
      '(ok, t) ← wasm_register_host_func t (bytes_of n) f;
      '(oks, t) ← register_host_funcs t l';
      Done (ok :: oks, t)
  end.

Definition wasi_init (t : host_table) : outcome (list bool * host_table) :=
  register_host_funcs t wasi_functions.

(** The search of the call instruction: the two names agree up to a zero. *)
Fixpoint names_equal (stored name : list Z) : bool :=
  match stored, name with
  | d :: stored', c :: name' =>
      if negb (d =? c) then false else if d =? 0 then true else names_equal stored' name'
  | _, _ => true
  end.

Definition find_host (t : host_table) (name : list Z) : option HostFunc :=
  e ← List.find (λ e, names_equal (host_name e) name)
        (take (Z.to_nat (host_func_count t)) (host_funcs t));
  host_func e.

(** ** Lookups *)

(** A name that fits in 31 bytes and has no zero. *)
Definition name_ok (n : list Z) : bool :=
  (zlen n <=? 31) && forallb (λ c, negb (c =? 0)) n.

Lemma set_name_ok dst n : name_ok n = true → ∃ r, set_name dst n = n ++ 0 :: r.
Proof.
  unfold name_ok, zlen. intros H. bools. unfold set_name.
  replace (length n `min` 31)%nat with (length n) by lia. rewrite firstn_all. eauto.
Qed.

Lemma name_loop_prefix g r f :
  forallb (λ c, negb (c =? 0)) g = true → forallb (λ c, negb (c =? 0)) f = true →
  name_loop (g ++ 0 :: r) f = bool_decide (f `prefix_of` g).
Proof.
  revert g. induction f as [| c f IH]; intros g Hg Hf.
  - rewrite bool_decide_eq_true_2 by apply prefix_nil. by destruct g.
  - cbn in Hf. bools. destruct g as [| d g]; cbn.
    + rewrite bool_decide_eq_false_2 by (intros ?%prefix_nil_inv; done).
      by destruct c.
    + cbn in Hg. bools. destruct (d =? c) eqn:E; bools; cbn.
      * subst d. rewrite (proj2 (Z.eqb_neq c 0)), IH by done.
        apply bool_decide_ext. split; [apply prefix_cons | apply prefix_cons_inv_2].
      * rewrite bool_decide_eq_false_2; [done |]. intros ?%prefix_cons_inv_1. congruence.
Qed.

(** The entry that registering [x] leaves. *)
Definition holds (e : WasmSyscallEntry) (x : string * string * Z) : Prop :=
  let '(_, g, nr) := x in (∃ r, function_name e = bytes_of g ++ 0 :: r) ∧ syscall_nr e = nr.

Lemma register_holds t es rest m g nr :
  entries t = es ++ rest → count t = zlen es → 0 < zlen rest → zlen (es ++ rest) = 256 →
  name_ok (bytes_of g) = true →
  ∃ e rest' t', register t (bytes_of m) (bytes_of g) nr = Done t' ∧ entries t' = (es ++ [e]) ++ rest' ∧
    count t' = zlen (es ++ [e]) ∧ S (length rest') = length rest ∧ holds e (m, g, nr).
Proof.
  intros He Hc Hr Hl Hg. unfold register. rewrite He, Hc. rewrite zlen_app in Hl.
  destruct (_ <=? _) eqn:E; bools; [unfold MAX_SYSCALL_ENTRIES in *; lia |].
  destruct rest as [| x rest]; [done |].
  assert (aget (es ++ x :: rest) (zlen es) = Done x) as Hx.
  { apply aget_lookup. split; [apply zlen_nonneg |]. rewrite to_nat_zlen. by apply list_lookup_middle. }
  rewrite Hx. cbn [mbind outcome_bind].
  rewrite aset_in_range by (rewrite zlen_app; pose proof (zlen_nonneg es); lia).
  cbn [mbind outcome_bind]. rewrite to_nat_zlen.
  eexists _, rest, _. split; [reflexivity |]. cbn [entries count]. split_and!.
  - rewrite insert_app_r_alt, Nat.sub_diag by lia. by rewrite <- app_assoc.
  - rewrite zlen_app. done.
  - done.
  - split; [| done]. by apply set_name_ok.
Qed.

Lemma register_all_holds l : ∀ t es rest t',
  entries t = es ++ rest → count t = zlen es → zlen (es ++ rest) = 256 →
  zlen l <= zlen rest → forallb (λ '(_, g, _), name_ok (bytes_of g)) l = true →
  register_all t l = Done t' →
  ∃ es', take (Z.to_nat (count t')) (entries t') = es ++ es' ∧ Forall2 holds es' l.
Proof.
  induction l as [| [[m g] nr] l IH]; intros t es rest t' He Hc Hz Hl Hok Ht.
  - cbn in Ht. inv_bind. exists []. rewrite He, Hc, to_nat_zlen, take_app_length, app_nil_r. done.
  - cbn in Hok. bools.
    assert (0 < zlen rest) by (unfold zlen in *; cbn in Hl; lia).
    destruct (register_holds t es rest m g nr) as (e & rest' & t1 & Hr & He1 & Hc1 & Hl1 & Hh);
      [done.. |].
    cbn [register_all] in Ht. rewrite Hr in Ht. cbn [mbind outcome_bind] in Ht.
    destruct (IH t1 (es ++ [e]) rest' t') as (es' & Hes & Hf); [done | done | | | done | done |].
    + unfold zlen in *. rewrite !length_app in *. cbn in *. lia.
    + unfold zlen in *. cbn in Hl. lia.
    + exists (e :: es'). split; [by rewrite Hes, <- app_assoc | by constructor].
Qed.

(** [lookup_by_func], which the call instruction uses for every import that
    is not a native function, returns the first registered entry that has the
    given name as a prefix.  With the default table the import send reaches the
    system call sendto (95), which is registered before it, and not send (11). *)
Theorem lookup_takes_first_prefix l t f :
  zlen l <= MAX_SYSCALL_ENTRIES → forallb (λ '(_, g, _), name_ok (bytes_of g)) l = true →
  register_all new_table l = Done t → f ≠ [] → forallb (λ c, negb (c =? 0)) f = true →
  lookup_by_func t f =
    snd <$> List.find (λ '(_, g, _), bool_decide (f `prefix_of` bytes_of g)) l.
Proof.
  intros Hl Hok Ht Hf Hz.
  destruct (register_all_holds l new_table [] (entries new_table) t) as (es & Hes & Hh); [done.. |].
  unfold lookup_by_func. rewrite Hes. clear Hes Ht Hl. cbn [app].
  induction Hh as [| e [[m g] nr] es l [[r Hn] Hs] Hh IH]; [done |]. cbn in Hok. bools.
  assert (name_matches (function_name e) f = bool_decide (f `prefix_of` bytes_of g)) as Hm.
  { rewrite <- (name_loop_prefix _ r), <- Hn; [| unfold name_ok in *; by bools | done].
    destruct f as [| [| c | c] f]; done. }
  cbn [List.find]. rewrite Hm. destruct (bool_decide _); [by cbn; rewrite Hs | by apply IH].
Qed.

(** The registration of the WASI functions runs into the end of the table: seven
    of the 23 names are refused, and nobody looks at the result. *)
Lemma wasi_init_drops_functions :
  fst <$> match wasi_init new_host_table with Done x => Some x | _ => None end =
    Some (replicate 16 true ++ replicate 7 false).
Proof. vm_compute. reflexivity. Qed.

(** ** Examples *)

Definition default_table : WasmSyscallTable :=
  match register_default_set new_table with Done t => t | _ => new_table end.

Lemma lookup_takes_first_prefix_witness :
  lookup_by_func default_table (bytes_of "send") = Some 95 ∧
  lookup default_table (bytes_of "tros:ipc") (bytes_of "send") = Some 11.
Proof.
  split; [| by vm_compute].
  rewrite (lookup_takes_first_prefix default_set); by vm_compute.
Defined.

End Hostcall.
