(* ===== verification/Wasm.v ===== *)
(** * The WASM runtime: modules and their sections

    kernel/src/wasm/mod.rs up to the interpreter: LEB128 numbers, the parsers of
    the sections, the table of modules with loading, unloading, reloading and
    listing, linear memory, and the searches for the end of a block.

    The bytecode of a module is a list of 4096 bytes.  [find_matching_end] and
    the section loops run on fuel that is never short; the readers of LEB128
    numbers follow the list.  Shifts that are too wide are taken modulo the
    width, as release builds do.

    Interp.v has the instructions, WasmSafe.v and WasmExec.v the theorems on
    running them. *)
From Stdlib Require Import String.
From S2P Require Import Prelude Heap Hostcall.
Import Heap.
Export Hostcall.

Module Wasm.

Definition MAX_WASM_MODULES : Z := 8.
Definition MAX_WASM_SIZE : Z := 4096.
Definition MEM_PAGE_SIZE : Z := 65536.
Definition MAX_MEM_PAGES : Z := 4.
Definition VALUE_STACK_SIZE : Z := 256.
Definition CALL_STACK_SIZE : Z := 32.
Definition MAX_LOCALS : Z := 16.
Definition CYCLE_BUDGET : Z := 10000.
Definition MAX_FUNCTIONS : Z := 64.
Definition MAX_TYPES : Z := 16.
Definition MAX_EXPORTS : Z := 32.
Definition MAX_IMPORTS : Z := 16.

(** ** State *)

Record WasmPerfStats : Type := MkPerf {
  invocations : Z;
  total_cycles : Z;
  avg_cycles : Z;
  max_cycles : Z;
  syscall_forward_count : Z;
}.
#[export] Instance eta_perf : Eta WasmPerfStats := λ p,
  MkPerf (invocations p) (total_cycles p) (avg_cycles p) (max_cycles p) (syscall_forward_count p).

Definition new_perf : WasmPerfStats := MkPerf 0 0 0 0 0.

Definition record_invocation (p : WasmPerfStats) (cycles : Z) : WasmPerfStats :=
  let n := u64 (invocations p + 1) in
  let total := u64 (total_cycles p + cycles) in
  MkPerf n total (if 0 <? n then total / n else 0)
    (if max_cycles p <? cycles then cycles else max_cycles p) (syscall_forward_count p).

Record WasmModule : Type := MkModule {
  name : list Z;
  pid : Z;
  bytecode : list Z;
  bc_len : Z;
  loaded : bool;
  num_types : Z;
  type_params : list Z;
  type_results : list Z;
  num_imports : Z;
  import_names : list (list Z);
  import_types : list Z;
  num_functions : Z;
  func_types : list Z;
  code_offsets : list Z;
  code_sizes : list Z;
  num_locals : list Z;
  num_exports : Z;
  export_names : list (list Z);
  export_funcs : list Z;
  mem_ptr : Z;
  mem_pages : Z;
  mem_max_pages : Z;
}.
#[export] Instance eta_module : Eta WasmModule := λ m,
  MkModule (name m) (pid m) (bytecode m) (bc_len m) (loaded m) (num_types m) (type_params m)
    (type_results m) (num_imports m) (import_names m) (import_types m) (num_functions m)
    (func_types m) (code_offsets m) (code_sizes m) (num_locals m) (num_exports m)
    (export_names m) (export_funcs m) (mem_ptr m) (mem_pages m) (mem_max_pages m).

Definition zeros (n : Z) : list Z := replicate (Z.to_nat n) 0.
Definition no_names (n : Z) : list (list Z) := replicate (Z.to_nat n) empty_name.

Definition empty_module : WasmModule :=
  MkModule empty_name 0 (zeros MAX_WASM_SIZE) 0 false 0 (zeros MAX_TYPES) (zeros MAX_TYPES)
    0 (no_names MAX_IMPORTS) (zeros MAX_IMPORTS) 0 (zeros MAX_FUNCTIONS) (zeros MAX_FUNCTIONS)
    (zeros MAX_FUNCTIONS) (zeros MAX_FUNCTIONS) 0 (no_names MAX_EXPORTS) (zeros MAX_EXPORTS) 0 0 0.

(** The statics of the runtime, and the kernel memory behind them. *)
Record runtime : Type := MkRuntime {
  modules : list WasmModule;
  wasm_count : Z;
  perf_stats : list WasmPerfStats;
  hosts : host_table;
  syscalls : WasmSyscallTable;
  kworld : world;
}.
#[export] Instance eta_runtime : Eta runtime := λ r,
  MkRuntime (modules r) (wasm_count r) (perf_stats r) (hosts r) (syscalls r) (kworld r).

Definition rheap (r : runtime) : heap := kheap (kworld r).
Definition set_heap (r : runtime) (h : heap) : runtime :=
  r <| kworld := kworld r <| kheap := h |> |>.
Definition set_module (r : runtime) (id : Z) (m : WasmModule) : outcome runtime :=
  ms ← aset (modules r) id m; Done (r <| modules := ms |>).

(** ** LEB128 *)

(** The rest of the buffer from the current offset; the result carries the
    offset behind the number. *)
Fixpoint leb_u (rest : list Z) (offset result shift : Z) : outcome (Z * Z) :=
  match rest with
  | [] => Panic
  | byte :: rest' =>
      let result := Z.lor result (wrap 32 (Z.shiftl (Z.land byte 127) (shift mod 32))) in
      if Z.land byte 128 =? 0 then Done (result, offset + 1)
      else leb_u rest' (offset + 1) result (shift + 7)
  end.

Definition leb128_u (buf : list Z) (offset : Z) : outcome (Z * Z) :=
  leb_u (drop (Z.to_nat offset) buf) offset 0 0.

(** [leb128_s] and [leb128_s64] at their widths [w]. *)
Fixpoint leb_s (w : Z) (rest : list Z) (offset result shift : Z) : outcome (Z * Z) :=
  match rest with
  | [] => Panic
  | byte :: rest' =>
      let result := Z.lor result (to_signed w (Z.shiftl (Z.land byte 127) (shift mod w))) in
      let shift := shift + 7 in
      if Z.land byte 128 =? 0 then
        Done (if (shift <? w) && negb (Z.land byte 64 =? 0)
              then Z.lor result (Z.shiftl (-1) shift) else result, offset + 1)
      else leb_s w rest' (offset + 1) result shift
  end.

Definition leb128_s (buf : list Z) (offset : Z) : outcome (Z * Z) :=
  leb_s 32 (drop (Z.to_nat offset) buf) offset 0 0.
Definition leb128_s64 (buf : list Z) (offset : Z) : outcome (Z * Z) :=
  leb_s 64 (drop (Z.to_nat offset) buf) offset 0 0.

(** ** Sections *)

(** [for j in 0..n { dst[j] = bc[start + j]; } dst[n] = 0] with [n = len.min(31)]. *)
Definition read_name (bc dst : list Z) (start len : Z) : outcome (list Z) :=
  let n := Z.min len 31 in
  if n =? 0 then Done (set_name dst []) else
  src ← aslice bc start (start + n); Done (set_name dst src).

Definition as_u8 (x : Z) : Z := wrap 8 x.

Fixpoint type_loop (n : nat) (bc : list Z) (end_ : Z) (m : WasmModule) (offset count : Z)
    : outcome WasmModule :=
  match n with
  | O => Done (m <| num_types := count |>)
  | S n' =>
      if end_ <=? offset then Done (m <| num_types := count |>) else
      func_type ← aget bc offset;
      if negb (func_type =? 0x60) then Done (m <| num_types := count |>) else
      '(nparams, offset) ← leb128_u bc (offset + 1);
      ps ← aset (type_params m) count (as_u8 nparams);
      let m := m <| type_params := ps |> in
      '(nresults, offset) ← leb128_u bc (offset + as_u8 nparams);
      rs ← aset (type_results m) count (as_u8 nresults);
      let m := m <| type_results := rs |> in
      type_loop n' bc end_ m (offset + as_u8 nresults) (count + 1)
  end.

Definition parse_type_section (m : WasmModule) (bc : list Z) (offset size : Z) : outcome WasmModule :=
  type_loop (Z.to_nat MAX_TYPES) bc (offset + size) m offset 0.

Definition import_entry (bc : list Z) (m : WasmModule) (offset count : Z)
    : outcome (WasmModule * Z) :=
  '(mod_len, offset) ← leb128_u bc offset;
  '(field_len, offset) ← leb128_u bc (offset + mod_len);
  old ← aget (import_names m) count;
  new ← read_name bc old offset field_len;
  names ← aset (import_names m) count new;
  let m := m <| import_names := names |> in
  let offset := offset + field_len in
  kind ← aget bc offset;
  if kind =? 0 then
    '(type_idx, offset) ← leb128_u bc (offset + 1);
    ts ← aset (import_types m) count (as_u8 type_idx);
    Done (m <| import_types := ts |>, offset)
  else Done (m, offset + 1).

Fixpoint import_loop (n : nat) (bc : list Z) (end_ : Z) (m : WasmModule) (offset count : Z)
    : outcome WasmModule :=
  match n with
  | O => Done (m <| num_imports := count |>)
  | S n' =>
      if end_ <=? offset then Done (m <| num_imports := count |>) else
      '(m, offset) ← import_entry bc m offset count;
      import_loop n' bc end_ m offset (count + 1)
  end.

Definition parse_import_section (m : WasmModule) (bc : list Z) (offset size : Z)
    : outcome WasmModule :=
  import_loop (Z.to_nat MAX_IMPORTS) bc (offset + size) m offset 0.

Fixpoint function_loop (n : nat) (bc : list Z) (end_ : Z) (m : WasmModule) (offset count : Z)
    : outcome WasmModule :=
  match n with
  | O => Done (m <| num_functions := count |>)
  | S n' =>
      if end_ <=? offset then Done (m <| num_functions := count |>) else
      '(type_idx, offset) ← leb128_u bc offset;
      ts ← aset (func_types m) count (as_u8 type_idx);
      function_loop n' bc end_ (m <| func_types := ts |>) offset (count + 1)
  end.

Definition parse_function_section (m : WasmModule) (bc : list Z) (offset size : Z)
    : outcome WasmModule :=
  function_loop (Z.to_nat MAX_FUNCTIONS) bc (offset + size) m offset 0.

Definition export_entry (bc : list Z) (m : WasmModule) (offset count : Z)
    : outcome (WasmModule * Z) :=
  '(name_len, offset) ← leb128_u bc offset;
  old ← aget (export_names m) count;
  new ← read_name bc old offset name_len;
  names ← aset (export_names m) count new;
  let m := m <| export_names := names |> in
  let offset := offset + name_len in
  _ ← aget bc offset;
  '(idx, offset) ← leb128_u bc (offset + 1);
  fs ← aset (export_funcs m) count (as_u8 idx);
  Done (m <| export_funcs := fs |>, offset).

Fixpoint export_loop (n : nat) (bc : list Z) (end_ : Z) (m : WasmModule) (offset count : Z)
    : outcome WasmModule :=
  match n with
  | O => Done (m <| num_exports := count |>)
  | S n' =>
      if end_ <=? offset then Done (m <| num_exports := count |>) else
      '(m, offset) ← export_entry bc m offset count;
      export_loop n' bc end_ m offset (count + 1)
  end.

Definition parse_export_section (m : WasmModule) (bc : list Z) (offset size : Z)
    : outcome WasmModule :=
  export_loop (Z.to_nat MAX_EXPORTS) bc (offset + size) m offset 0.

(** [for _ in 0..num_locals_decls]: each pass reads bytes, so the length of the
    bytecode bounds the passes that do not panic. *)
Fixpoint local_decls (fuel : nat) (bc : list Z) (decls offset total : Z) : outcome (Z * Z) :=
  if decls <=? 0 then Done (total, offset) else
  match fuel with
  | O => OutOfFuel
  | S fuel' =>
      '(count, offset) ← leb128_u bc offset;
      _ ← aget bc offset;
      local_decls fuel' bc (decls - 1) (offset + 1) (Z.min 255 (total + as_u8 count))
  end.

Definition code_entry (bc : list Z) (end_ : Z) (m : WasmModule) (offset func_idx : Z)
    : outcome (WasmModule * Z) :=
  '(body_size, offset) ← leb128_u bc offset;
  let body_start := offset in
  '(decls, offset) ← leb128_u bc offset;
  '(total_locals, code_start) ← local_decls (S (length bc)) bc decls offset 0;
  offs ← aset (code_offsets m) func_idx code_start;
  ls ← aset (num_locals m) func_idx total_locals;
  ss ← aset (code_sizes m) func_idx (u64 (Z.min end_ (body_start + body_size) - code_start));
  Done (m <| code_offsets := offs |> <| num_locals := ls |> <| code_sizes := ss |>,
        Z.min end_ (body_start + body_size)).

Fixpoint code_loop (n : nat) (bc : list Z) (end_ : Z) (m : WasmModule) (offset func_idx : Z)
    : outcome WasmModule :=
  match n with
  | O => Done m
  | S n' =>
      if end_ <=? offset then Done m else
      '(m, offset) ← code_entry bc end_ m offset func_idx;
      code_loop n' bc end_ m offset (func_idx + 1)
  end.

Definition parse_code_section (m : WasmModule) (bc : list Z) (offset size : Z)
    : outcome WasmModule :=
  code_loop (Z.to_nat MAX_FUNCTIONS) bc (offset + size) m offset 0.

Definition parse_section (m : WasmModule) (id offset size : Z) : outcome WasmModule :=
  let bc := bytecode m in
  if id =? 1 then parse_type_section m bc offset size else
  if id =? 2 then parse_import_section m bc offset size else
  if id =? 3 then parse_function_section m bc offset size else
  if id =? 7 then parse_export_section m bc offset size else
  if id =? 10 then parse_code_section m bc offset size else Done m.

(** Each section takes at least two bytes. *)
Fixpoint parse_loop (fuel : nat) (m : WasmModule) (offset : Z) : outcome WasmModule :=
  if bc_len m <=? offset then Done m else
  match fuel with
  | O => OutOfFuel
  | S fuel' =>
      section_id ← aget (bytecode m) offset;
      '(section_size, offset) ← leb128_u (bytecode m) (offset + 1);
      m ← parse_section m section_id offset section_size;
      parse_loop fuel' m (offset + section_size)
  end.

Definition parse_module (m : WasmModule) : outcome WasmModule :=
  parse_loop (S (length (bytecode m))) m 8.

(** ** Linear memory *)

Definition alloc_module_memory (h : heap) (m : WasmModule) : outcome (bool * WasmModule * heap) :=
  '(ptr, h) ← alloc_zeroed h MEM_PAGE_SIZE 16;
  if ptr =? 0 then Done (false, m, h) else
  Done (true, m <| mem_ptr := ptr |> <| mem_pages := 1 |> <| mem_max_pages := MAX_MEM_PAGES |>, h).

Definition free_module_memory (h : heap) (m : WasmModule) : outcome (WasmModule * heap) :=
  if mem_ptr m =? 0 then Done (m, h) else
  h ← dealloc h (mem_ptr m) MEM_PAGE_SIZE;
  Done (m <| mem_ptr := 0 |> <| mem_pages := 0 |>, h).

(** ** The ends of blocks *)

(** [skip_leb128]: behind the first byte without its top bit, or one past the
    end of the buffer. *)
Fixpoint skip_rest (rest : list Z) (pc : Z) : Z :=
  match rest with
  | [] => pc + 1
  | b :: rest' => if Z.land b 128 =? 0 then pc + 1 else skip_rest rest' (pc + 1)
  end.

Definition skip_leb128 (bc : list Z) (pc : Z) : Z := skip_rest (drop (Z.to_nat pc) bc) pc.

Definition opens (op : Z) : bool := (op =? 0x02) || (op =? 0x03) || (op =? 0x04).
Definition one_leb (op : Z) : bool :=
  (op =? 0x0C) || (op =? 0x0D) || (op =? 0x10) || (op =? 0x20) || (op =? 0x21) ||
  (op =? 0x41) || (op =? 0x42).
Definition two_lebs (op : Z) : bool :=
  (op =? 0x28) || (op =? 0x29) || ((0x2C <=? op) && (op <=? 0x37)) ||
  ((0x3A <=? op) && (op <=? 0x3E)).

(** The instructions of the scan that leave the depth alone. *)
Definition skip_insn (bc : list Z) (pc op : Z) : Z :=
  if one_leb op then skip_leb128 bc (pc + 1)
  else if two_lebs op then skip_leb128 bc (skip_leb128 bc (pc + 1))
  else if (op =? 0x3F) || (op =? 0x40) then pc + 2
  else pc + 1.

Fixpoint end_loop (fuel : nat) (bc : list Z) (pc depth : Z) : outcome (result string Z) :=
  match bc !! Z.to_nat pc with
  | None => Done (Err "find_end: end not found"%string)
  | Some op =>
      match fuel with
      | O => OutOfFuel
      | S fuel' =>
          if opens op then end_loop fuel' bc (pc + 2) (depth + 1)
          else if op =? 0x0B then
            if depth - 1 =? 0 then Done (Ok (pc + 1)) else end_loop fuel' bc (pc + 1) (depth - 1)
          else end_loop fuel' bc (skip_insn bc pc op) depth
      end
  end.

Definition find_matching_end (bc : list Z) (pc : Z) : outcome (result string Z) :=
  if zlen bc <=? pc then Done (Err "find_end: pc OOB"%string)
  else end_loop (length bc) bc (pc + 2) 1.

Fixpoint if_loop (fuel : nat) (bc : list Z) (pc depth else_pc : Z)
    : outcome (result string (Z * Z)) :=
  match bc !! Z.to_nat pc with
  | None => Done (Err "if_else_end: end not found"%string)
  | Some op =>
      match fuel with
      | O => OutOfFuel
      | S fuel' =>
          if opens op then if_loop fuel' bc (pc + 2) (depth + 1) else_pc
          else if op =? 0x05 then
            if_loop fuel' bc (pc + 1) depth
              (if (depth =? 1) && (else_pc =? 0) then pc else else_pc)
          else if op =? 0x0B then
            if depth - 1 =? 0 then Done (Ok (else_pc, pc + 1))
            else if_loop fuel' bc (pc + 1) (depth - 1) else_pc
          else if_loop fuel' bc (skip_insn bc pc op) depth else_pc
      end
  end.

Definition find_if_else_end (bc : list Z) (pc : Z) : outcome (result string (Z * Z)) :=
  if zlen bc <=? pc then Done (Err "if_else_end: pc OOB"%string)
  else if_loop (length bc) bc (pc + 2) 1 0.

(** ** Modules *)

Definition wasm_validate (bc : list Z) : bool :=
  bool_decide (take 8 bc = [0x00; 0x61; 0x73; 0x6D; 0x01; 0x00; 0x00; 0x00]).

(** [for i in 0..len { dst[i] = src[i]; }]. *)
Definition overwrite (dst src : list Z) : list Z := src ++ drop (length src) dst.

Definition is_loaded (r : runtime) (id : Z) : option WasmModule :=
  if (id <? 0) || (MAX_WASM_MODULES <=? id) then None else
  m ← modules r !! Z.to_nat id; if loaded m then Some m else None.

Definition wasm_load (r : runtime) (owner : Z) (nm bc : list Z) : outcome (option Z * runtime) :=
  if negb (wasm_validate bc) then Done (None, r) else
  if MAX_WASM_MODULES <=? wasm_count r then Done (None, r) else
  let id := wasm_count r in
  m ← aget (modules r) id;
  let code := take (Z.to_nat MAX_WASM_SIZE) bc in
  let m := m <| name := set_name (name m) nm |> <| bytecode := overwrite (bytecode m) code |>
             <| bc_len := zlen code |> <| pid := owner |> <| loaded := true |> in
  m ← parse_module m;
  '(ok, m, h) ← alloc_module_memory (rheap r) m;
  let r := set_heap r h in
  if negb ok then r ← set_module r id (m <| loaded := false |>); Done (None, r) else
  r ← set_module r id m;
  Done (Some id, r <| wasm_count := wasm_count r + 1 |>).

Definition wasm_unload (r : runtime) (id : Z) : outcome (bool * runtime) :=
  match is_loaded r id with
  | None => Done (false, r)
  | Some m =>
      '(m, h) ← free_module_memory (rheap r) m;
      r ← set_module (set_heap r h) id (m <| loaded := false |> <| bc_len := 0 |>);
      Done (true, r)
  end.

(** The records of [wasm_list]: as many of the loaded modules as fit. *)
Fixpoint list_loop (ms : list WasmModule) (room : Z) : list Z :=
  match ms with
  | [] => []
  | m :: ms' =>
      if loaded m && (36 <=? room) then le_bytes 4 (pid m) ++ name m ++ list_loop ms' (room - 36)
      else list_loop ms' room
  end.

Definition wasm_list (r : runtime) (room : Z) : list Z :=
  list_loop (take (Z.to_nat (wasm_count r)) (modules r)) room.

(** The slice [src[offset..offset + len]] panics when the sum has wrapped. *)
Definition wasm_memory_read (r : runtime) (id offset len : Z) : outcome (result string (list Z)) :=
  match is_loaded r id with
  | None => Done (Err "invalid module"%string)
  | Some m =>
      let mem_size := mem_pages m * MEM_PAGE_SIZE in
      if mem_size <? u64 (offset + len) then Done (Err "memory read out of bounds"%string) else
      if mem_ptr m =? 0 then Done (Err "no memory allocated"%string) else
      if u64 (offset + len) <? offset then Panic else
      Done (Ok (bytes_at (bytes (rheap r)) (mem_ptr m + offset) len))
  end.

Definition wasm_memory_write (r : runtime) (id offset : Z) (data : list Z)
    : outcome (result string () * runtime) :=
  match is_loaded r id with
  | None => Done (Err "invalid module"%string, r)
  | Some m =>
      let mem_size := mem_pages m * MEM_PAGE_SIZE in
      if mem_size <? u64 (offset + zlen data)
      then Done (Err "memory write out of bounds"%string, r) else
      if mem_ptr m =? 0 then Done (Err "no memory allocated"%string, r) else
      if u64 (offset + zlen data) <? offset then Panic else
      Done (Ok (),
        set_heap r (rheap r <| bytes := poke (bytes (rheap r)) (mem_ptr m + offset) data |>))
  end.

(** The comparison of a wanted name with an entry of the export table. *)
Fixpoint export_loop_name (ename wanted : list Z) : outcome bool :=
  match wanted, ename with
  | [], _ => Done true
  | _, [] => Panic
  | c :: wanted', d :: ename' =>
      if negb (d =? c) then Done false else if c =? 0 then Done true
      else export_loop_name ename' wanted'
  end.

Definition export_matches (ename wanted : list Z) : outcome bool :=
  ok ← export_loop_name ename wanted;
  if ok && (zlen wanted <? 32) then
    c ← aget ename (zlen wanted);
    Done (negb (negb (c =? 0) && existsb (λ d, negb (d =? 0)) (drop (length wanted) ename)))
  else Done ok.

Fixpoint find_export_loop (n : nat) (m : WasmModule) (wanted : list Z) (i : Z) : outcome (option Z) :=
  match n with
  | O => Done None
  | S n' =>
      ename ← aget (export_names m) i;
      ok ← export_matches ename wanted;
      if (ok : bool) then f ← aget (export_funcs m) i; Done (Some f)
      else find_export_loop n' m wanted (i + 1)
  end.

Definition find_export (m : WasmModule) (wanted : list Z) : outcome (option Z) :=
  find_export_loop (Z.to_nat (num_exports m)) m wanted 0.

Definition is_module_loaded (r : runtime) (id : Z) : bool :=
  match is_loaded r id with Some _ => true | None => false end.

(** The fields [wasm_hot_reload] clears before it parses again. *)
Definition reset_sections (m : WasmModule) : WasmModule :=
  m <| num_types := 0 |> <| type_params := zeros MAX_TYPES |> <| type_results := zeros MAX_TYPES |>
    <| num_imports := 0 |> <| import_names := no_names MAX_IMPORTS |>
    <| import_types := zeros MAX_IMPORTS |> <| num_functions := 0 |>
    <| func_types := zeros MAX_FUNCTIONS |> <| code_offsets := zeros MAX_FUNCTIONS |>
    <| code_sizes := zeros MAX_FUNCTIONS |> <| num_locals := zeros MAX_FUNCTIONS |>
    <| num_exports := 0 |> <| export_names := no_names MAX_EXPORTS |>
    <| export_funcs := zeros MAX_EXPORTS |>.

Definition set_perf (r : runtime) (id : Z) (p : WasmPerfStats) : outcome runtime :=
  ps ← aset (perf_stats r) id p; Done (r <| perf_stats := ps |>).

Definition wasm_hot_reload (r : runtime) (id : Z) (bc : list Z)
    : outcome (result string () * runtime) :=
  match is_loaded r id with
  | None => Done (Err "invalid module id"%string, r)
  | Some m =>
      if negb (wasm_validate bc)
      then Done (Err "invalid magic/version in new bytecode"%string, r) else
      if MAX_WASM_SIZE <? zlen bc then Done (Err "new bytecode exceeds maximum size"%string, r) else
      let m := reset_sections m in
      m ← parse_module (m <| bytecode := overwrite (bytecode m) bc |> <| bc_len := zlen bc |>);
      r ← set_module r id m;
      r ← set_perf r id new_perf;
      Done (Ok (), r)
  end.

Definition wasm_perf_stats (r : runtime) (id : Z) : outcome (option WasmPerfStats) :=
  if is_module_loaded r id then p ← aget (perf_stats r) id; Done (Some p) else Done None.

Definition wasm_reset_perf_stats (r : runtime) (id : Z) : outcome (bool * runtime) :=
  if is_module_loaded r id then r ← set_perf r id new_perf; Done (true, r) else Done (false, r).

(** ** System calls

    The caller's memory is read before: [nm] is the 32 bytes at the name, [bc]
    the 4096 bytes at the bytecode pointer. *)

Definition sys_wasm_load (r : runtime) (owner : Z) (nm bc : list Z)
    : outcome (result string Z * runtime) :=
  '(o, r) ← wasm_load r owner nm bc; Done (ok_or o "load failed"%string, r).

Definition sys_wasm_unload (r : runtime) (id : Z) : outcome (result string Z * runtime) :=
  '(ok, r) ← wasm_unload r id;
  Done (if (ok : bool) then Ok 0 else Err "unload failed"%string, r).

(** The 256 bytes that go to the caller's buffer. *)
Definition sys_wasm_mem_read (r : runtime) (id offset buf_ptr : Z)
    : outcome (result string (list Z)) :=
  if buf_ptr =? 0 then Done (Err "null buf"%string) else wasm_memory_read r id offset 256.

Definition sys_wasm_mem_write (r : runtime) (id offset data_ptr : Z) (data : list Z)
    : outcome (result string Z * runtime) :=
  if data_ptr =? 0 then Done (Err "null data"%string, r) else
  if 256 <? zlen data then Done (Err "data too large"%string, r) else
  '(res, r) ← wasm_memory_write r id offset data;
  Done (match res with Ok _ => Ok (zlen data) | Err e => Err e end, r).

Definition initial_runtime (h : heap) (hs : host_table) (t : WasmSyscallTable) : runtime :=
  MkRuntime (replicate (Z.to_nat MAX_WASM_MODULES) empty_module) 0
    (replicate (Z.to_nat MAX_WASM_MODULES) new_perf) hs t (MkWorld h [] 0).
End Wasm.
