(* ===== verification/Interp.v ===== *)
(** * The WASM interpreter

    [wasm_execute] of kernel/src/wasm/mod.rs, one definition per instruction and
    one table, [opcodes], for the match on the opcode.

    [ex] threads the statics of the runtime and the three stacks of one run; an
    [Err] ends the run and keeps the statics.  An instruction says with [next]
    whether the loop goes on at another place, ends, or starts over without
    storing the place ([continue]).  The loop counts down the cycle budget, so it
    needs no fuel of its own.

    Values are 64-bit signed integers.  [module_ref] is read afresh wherever the
    code reads it, since growing the memory changes the module behind it.  The
    system calls an import can reach are an argument, [syscall_dispatch]. *)
From Stdlib Require Import String.
From S2P Require Import Prelude Heap Hostcall Wasm.
Import Heap Wasm.

Module Interp.

(** ** Machine *)

Definition CTRL_FUNC : Z := 0.
Definition CTRL_BLOCK : Z := 1.
Definition CTRL_LOOP : Z := 2.
Definition CTRL_IF : Z := 3.

Record Frame : Type := MkFrame {
  func_idx : Z;
  pc : Z;
  frame_sp : Z;
  locals : list Z;
}.
#[export] Instance eta_frame : Eta Frame := λ f,
  MkFrame (func_idx f) (pc f) (frame_sp f) (locals f).

Record CtrlFrame : Type := MkCtrl {
  kind : Z;
  pc_cont : Z;
  ctrl_sp : Z;
}.

Record machine : Type := MkMachine {
  value_stack : list Z;
  sp : Z;
  call_stack : list Frame;
  fp : Z;
  ctrl_stack : list CtrlFrame;
  cp : Z;
}.
#[export] Instance eta_machine : Eta machine := λ m,
  MkMachine (value_stack m) (sp m) (call_stack m) (fp m) (ctrl_stack m) (cp m).

Inductive next : Type :=
| Jump (pc : Z)
| Stop
| Again.

(** ** The monad of instructions *)

Definition ex (A : Type) : Type := runtime → machine → outcome (result string A * runtime * machine).

#[export] Instance ex_ret : MRet ex := λ A a r s, Done (Ok a, r, s).
#[export] Instance ex_bind : MBind ex := λ A B f m r s,
  match m r s with
  | Done (Ok a, r', s') => f a r' s'
  | Done (Err e, r', s') => Done (Err e, r', s')
  | Panic => Panic
  | Deadlock => Deadlock
  | OutOfFuel => OutOfFuel
  end.

Definition fail {A} (e : string) : ex A := λ r s, Done (Err e, r, s).
Definition run {A} (o : outcome A) : ex A := λ r s,
  match o with
  | Done a => Done (Ok a, r, s)
  | Panic => Panic
  | Deadlock => Deadlock
  | OutOfFuel => OutOfFuel
  end.
(** The operator [?]. *)
Definition try {A} (o : outcome (result string A)) : ex A :=
  x ← run o; match x with Ok a => mret a | Err e => fail e end.
Definition here {A} (f : machine → A) : ex A := λ r s, Done (Ok (f s), r, s).
Definition there {A} (f : runtime → A) : ex A := λ r s, Done (Ok (f r), r, s).
Definition put (f : machine → machine) : ex () := λ r s, Done (Ok (), r, f s).
Definition put_runtime (r' : runtime) : ex () := λ r s, Done (Ok (), r', s).

(** ** Stacks *)

Definition vget (i : Z) : ex Z := vs ← here value_stack; run (aget vs i).
Definition vset (i v : Z) : ex () :=
  vs ← here value_stack; vs ← run (aset vs i v); put (λ s, s <| value_stack := vs |>).
Definition set_sp (i : Z) : ex () := put (λ s, s <| sp := i |>).

(** [value_stack[sp] = v; sp += 1]. *)
Definition push (v : Z) : ex () := n ← here sp; _ ← vset n v; set_sp (n + 1).
Definition push_checked (v : Z) : ex () :=
  n ← here sp;
  if VALUE_STACK_SIZE <=? n then fail "value stack overflow" else push v.

Definition top_frame : ex Frame := fs ← here call_stack; i ← here fp; run (aget fs i).
Definition set_frame (f : Frame) : ex () :=
  fs ← here call_stack; i ← here fp; fs ← run (aset fs i f);
  put (λ s, s <| call_stack := fs |>).

Definition push_ctrl (k cont : Z) : ex () :=
  n ← here cp;
  if CALL_STACK_SIZE <=? n then fail "ctrl stack overflow" else
  cs ← here ctrl_stack; v ← here sp;
  cs ← run (aset cs n (MkCtrl k cont v));
  put (λ s, s <| ctrl_stack := cs |> <| cp := n + 1 |>).

Section interp.
Variable syscall_dispatch : Z → list Z → Z → runtime → outcome (Z * runtime).
Variable id : Z.

Definition module_ref : ex WasmModule := ms ← there modules; run (aget ms id).

Definition handler : Type := list Z → Z → ex next.

Definition unsigned (bc : list Z) (at_ : Z) : ex (Z * Z) := run (leb128_u bc at_).

(** ** Control flow *)

Definition unreachable : handler := λ _ _, fail "unreachable".
Definition nop : handler := λ _ pc, mret (Jump (pc + 1)).

Definition block : handler := λ bc pc,
  if zlen bc <=? pc + 1 then fail "block: OOB" else
  cont ← try (find_matching_end bc pc);
  _ ← push_ctrl CTRL_BLOCK cont;
  mret (Jump (pc + 2)).

Definition loop : handler := λ bc pc,
  if zlen bc <=? pc + 1 then fail "loop: OOB" else
  _ ← push_ctrl CTRL_LOOP (pc + 2);
  mret (Jump (pc + 2)).

Definition if_ : handler := λ bc pc,
  if zlen bc <=? pc + 1 then fail "if: OOB" else
  n ← here sp;
  if n =? 0 then fail "if: empty stack" else
  cond ← vget (n - 1);
  _ ← set_sp (n - 1);
  '(else_pc, end_pc) ← try (find_if_else_end bc pc);
  if negb (as_i32 cond =? 0) then _ ← push_ctrl CTRL_IF end_pc; mret (Jump (pc + 2)) else
  if 0 <? else_pc then _ ← push_ctrl CTRL_IF end_pc; mret (Jump (else_pc + 1))
  else mret (Jump end_pc).

Definition else_ : handler := λ bc pc,
  target ← try (find_matching_end bc pc); mret (Jump target).

Definition end_block : handler := λ bc pc,
  n ← here cp;
  if n =? 0 then mret Stop else
  cs ← here ctrl_stack;
  entry ← run (aget cs (n - 1));
  _ ← put (λ s, s <| cp := n - 1 |>);
  if kind entry =? CTRL_FUNC then mret Stop else
  if kind entry =? CTRL_LOOP then mret (Jump (pc + 1)) else
  if (kind entry =? CTRL_BLOCK) || (kind entry =? CTRL_IF) then mret (Jump (pc_cont entry))
  else mret (Jump (pc + 1)).

(** The jump of [br] and of a taken [br_if]. *)
Definition branch (what : string) (label : Z) : ex next :=
  n ← here cp;
  if n <=? label then fail (what ++ ": label out of range") else
  let target_idx := n - 1 - label in
  cs ← here ctrl_stack;
  target ← run (aget cs target_idx);
  if kind target =? CTRL_LOOP then
    _ ← put (λ s, s <| cp := target_idx + 1 |>); mret (Jump (pc_cont target))
  else
    _ ← put (λ s, s <| cp := target_idx |> <| sp := ctrl_sp target |>);
    mret (Jump (pc_cont target)).

Definition br : handler := λ bc pc, '(label, _) ← unsigned bc (pc + 1); branch "br" label.

Definition br_if : handler := λ bc pc,
  '(label, new_pc) ← unsigned bc (pc + 1);
  n ← here sp;
  if n =? 0 then fail "br_if: empty stack" else
  cond ← vget (n - 1);
  _ ← set_sp (n - 1);
  if negb (as_i32 cond =? 0) then branch "br_if" label else mret (Jump new_pc).

(** ** Calls *)

Definition types_at (l : list Z) (i : Z) : Z := default 0 (l !! Z.to_nat i).

(** [value_stack[sp - n + i]] for [i] below [k], [k] being at most [n]. *)
Definition take_args (n k : Z) : ex (list Z) :=
  vs ← here value_stack; i ← here sp; run (aslice vs (i - n) (i - n + k)).

(** A native function, or the system call of that name. *)
Definition call_import (m : WasmModule) (import_name args : list Z) : ex Z :=
  hs ← there hosts;
  match find_host hs import_name with
  | Some f =>
      w ← there kworld;
      '(res, w) ← run (call_host f args w);
      r ← there (λ r, r <| kworld := w |>);
      _ ← put_runtime r;
      mret res
  | None =>
      t ← there syscalls;
      match lookup_by_func t (name_to_slice import_name) with
      | None => fail "host function not found"
      | Some nr =>
          r ← there (λ r, r);
          let padded := take 6 ((λ a, u64 a) <$> args) in
          '(res, r) ← run (syscall_dispatch nr (padded ++ zeros (6 - zlen padded)) (pid m) r);
          p ← run (aget (perf_stats r) id);
          r ← run (set_perf r id
                (p <| syscall_forward_count := u64 (syscall_forward_count p + 1) |>));
          _ ← put_runtime r;
          mret (to_signed 64 res)
      end
  end.

Definition call_host_func (m : WasmModule) (idx new_pc : Z) : ex next :=
  type_idx ← run (aget (import_types m) idx);
  let nparams := types_at (type_params m) type_idx in
  let nresults := types_at (type_results m) type_idx in
  n ← here sp;
  if n <? nparams then fail "call: not enough args" else
  args ← take_args nparams (Z.min nparams MAX_LOCALS);
  _ ← set_sp (n - nparams);
  import_name ← run (aget (import_names m) idx);
  res ← call_import m import_name args;
  if 0 <? nresults then _ ← push_checked res; mret (Jump new_pc) else mret (Jump new_pc).

Definition call_defined (m : WasmModule) (idx new_pc : Z) : ex next :=
  if num_functions m <=? idx then fail "call: func index OOB" else
  ft_idx ← run (aget (func_types m) idx);
  let nparams := types_at (type_params m) ft_idx in
  n ← here sp;
  if n <? nparams then fail "call: not enough args on stack" else
  f ← top_frame;
  _ ← set_frame (f <| pc := new_pc |>);
  i ← here fp;
  _ ← put (λ s, s <| fp := i + 1 |>);
  if CALL_STACK_SIZE <=? i + 1 then fail "call stack overflow" else
  start ← run (aget (code_offsets m) idx);
  args ← take_args nparams (Z.min nparams MAX_LOCALS);
  _ ← set_frame (MkFrame idx start (n - nparams)
                   (args ++ zeros (MAX_LOCALS - Z.min nparams MAX_LOCALS)));
  _ ← set_sp (n - nparams);
  _ ← push_ctrl CTRL_FUNC 0;
  mret (Jump start).

Definition call : handler := λ bc pc,
  '(idx, new_pc) ← unsigned bc (pc + 1);
  m ← module_ref;
  if idx <? num_imports m then call_host_func m idx new_pc
  else call_defined m (idx - num_imports m) new_pc.

(** [while cp > 0 && ctrl_stack[cp - 1].kind != CTRL_FUNC { cp -= 1; }]. *)
Fixpoint unwind (cs : list CtrlFrame) (n : nat) : outcome Z :=
  match n with
  | O => Done 0
  | S n' => c ← aget cs (Z.of_nat n'); if kind c =? CTRL_FUNC then Done (Z.of_nat n) else unwind cs n'
  end.

Definition return_ : handler := λ bc _,
  n ← here sp;
  f ← top_frame;
  ret_val ← (if frame_sp f <? n then vget (n - 1) else mret 0);
  cs ← here ctrl_stack;
  c ← here cp;
  c ← run (unwind cs (Z.to_nat c));
  _ ← put (λ s, s <| cp := if 0 <? c then c - 1 else c |>);
  i ← here fp;
  if i =? 0 then fail "return from main function" else
  _ ← put (λ s, s <| fp := i - 1 |> <| sp := frame_sp f |>);
  _ ← push ret_val;
  g ← top_frame;
  mret (Jump (pc g)).

(** ** Locals and constants *)

Definition local_get : handler := λ bc pc,
  '(idx, new_pc) ← unsigned bc (pc + 1);
  if MAX_LOCALS <=? idx then fail "local.get: index OOB" else
  f ← top_frame;
  v ← run (aget (locals f) idx);
  _ ← push_checked v;
  mret (Jump new_pc).

Definition local_write (f : Frame) (idx v : Z) : ex () :=
  ls ← run (aset (locals f) idx v); set_frame (f <| locals := ls |>).

Definition local_set : handler := λ bc pc,
  '(idx, new_pc) ← unsigned bc (pc + 1);
  if MAX_LOCALS <=? idx then fail "local.set: index OOB" else
  n ← here sp;
  if n =? 0 then fail "local.set: empty stack" else
  _ ← set_sp (n - 1);
  v ← vget (n - 1);
  f ← top_frame;
  _ ← local_write f idx v;
  mret (Jump new_pc).

Definition local_tee : handler := λ bc pc,
  '(idx, new_pc) ← unsigned bc (pc + 1);
  if MAX_LOCALS <=? idx then fail "local.tee: index OOB" else
  n ← here sp;
  if n =? 0 then fail "local.tee: empty stack" else
  v ← vget (n - 1);
  f ← top_frame;
  _ ← local_write f idx v;
  mret (Jump new_pc).

Definition i32_const : handler := λ bc pc,
  '(v, new_pc) ← run (leb128_s bc (pc + 1)); _ ← push_checked v; mret (Jump new_pc).
Definition i64_const : handler := λ bc pc,
  '(v, new_pc) ← run (leb128_s64 bc (pc + 1)); _ ← push_checked v; mret (Jump new_pc).

(** ** Numbers *)

(** The shape of the instructions with one operand. *)
Definition unop (what : string) (f : Z → Z) : handler := λ _ pc,
  n ← here sp;
  if n =? 0 then fail (what ++ ": empty stack") else
  v ← vget (n - 1);
  _ ← vset (n - 1) (f v);
  mret (Jump (pc + 1)).

(** The shape of those with two, which can fail. *)
Definition binop (what : string) (f : Z → Z → result string Z) : handler := λ _ pc,
  n ← here sp;
  if n <? 2 then fail (what ++ ": need 2 operands") else
  a ← vget (n - 2);
  b ← vget (n - 1);
  match f a b with
  | Err e => fail (what ++ e)
  | Ok v => _ ← vset (n - 2) v; _ ← set_sp (n - 1); mret (Jump (pc + 1))
  end.

Definition pure (f : Z → Z → Z) (a b : Z) : result string Z := Ok (f a b).
Definition test (f : Z → Z → bool) (a b : Z) : result string Z := Ok (if f a b then 1 else 0).

Definition i32_wrap_i64 : handler := unop "i32.wrap_i64" as_i32.
Definition i64_extend_i32_s : handler := unop "i64.extend_i32_s" as_i32.
Definition i64_extend_i32_u : handler := unop "i64.extend_i32_u" as_u32.
Definition i32_eqz : handler := unop "i32.eqz" (λ v, if as_i32 v =? 0 then 1 else 0).

Definition i32_eq : handler := binop "i32.eq" (test (λ a b, as_i32 a =? as_i32 b)).
Definition i32_ne : handler := binop "i32.ne" (test (λ a b, negb (as_i32 a =? as_i32 b))).
Definition i32_lt_s : handler := binop "i32.lt_s" (test (λ a b, as_i32 a <? as_i32 b)).
Definition i32_lt_u : handler := binop "i32.lt_u" (test (λ a b, as_u32 a <? as_u32 b)).
Definition i32_gt_s : handler := binop "i32.gt_s" (test (λ a b, as_i32 b <? as_i32 a)).
Definition i32_gt_u : handler := binop "i32.gt_u" (test (λ a b, as_u32 b <? as_u32 a)).
Definition i32_le_s : handler := binop "i32.le_s" (test (λ a b, as_i32 a <=? as_i32 b)).
Definition i32_le_u : handler := binop "i32.le_u" (test (λ a b, as_u32 a <=? as_u32 b)).
Definition i32_ge_s : handler := binop "i32.ge_s" (test (λ a b, as_i32 b <=? as_i32 a)).
Definition i32_ge_u : handler := binop "i32.ge_u" (test (λ a b, as_u32 b <=? as_u32 a)).

Definition i32_add : handler := binop "i32.add" (pure (λ a b, as_i32 (as_i32 a + as_i32 b))).
Definition i32_sub : handler := binop "i32.sub" (pure (λ a b, as_i32 (as_i32 a - as_i32 b))).
Definition i32_mul : handler := binop "i32.mul" (pure (λ a b, as_i32 (as_i32 a * as_i32 b))).

Definition i32_div_s : handler := binop "i32.div_s" (λ a b,
  let rhs := as_i32 b in
  if rhs =? 0 then Err ": divide by zero"%string else
  if (as_i32 a =? - 2 ^ 31) && (rhs =? -1) then Err ": overflow"%string else
  Ok (as_i32 a ÷ rhs)).
Definition i32_div_u : handler := binop "i32.div_u" (λ a b,
  let rhs := as_u32 b in
  if rhs =? 0 then Err ": divide by zero"%string else Ok (as_u32 a / rhs)).
Definition i32_rem_s : handler := binop "i32.rem_s" (λ a b,
  let rhs := as_i32 b in
  if rhs =? 0 then Err ": divide by zero"%string else
  if (as_i32 a =? - 2 ^ 31) && (rhs =? -1) then Ok 0 else Ok (Z.rem (as_i32 a) rhs)).
Definition i32_rem_u : handler := binop "i32.rem_u" (λ a b,
  let rhs := as_u32 b in
  if rhs =? 0 then Err ": divide by zero"%string else Ok (as_u32 a mod rhs)).

Definition i32_and : handler := binop "i32.and" (pure (λ a b, Z.land (as_i32 a) (as_i32 b))).
Definition i32_or : handler := binop "i32.or" (pure (λ a b, Z.lor (as_i32 a) (as_i32 b))).
Definition i32_xor : handler := binop "i32.xor" (pure (λ a b, Z.lxor (as_i32 a) (as_i32 b))).

Definition shift_of (b : Z) : Z := Z.land (as_u32 b) 31.
Definition i32_shl : handler :=
  binop "i32.shl" (pure (λ a b, wrap 32 (Z.shiftl (as_u32 a) (shift_of b)))).
Definition i32_shr_s : handler :=
  binop "i32.shr_s" (pure (λ a b, Z.shiftr (as_i32 a) (shift_of b))).
Definition i32_shr_u : handler :=
  binop "i32.shr_u" (pure (λ a b, Z.shiftr (as_u32 a) (shift_of b))).
Definition i32_rotl : handler := binop "i32.rotl" (pure (λ a b,
  Z.lor (wrap 32 (Z.shiftl (as_u32 a) (shift_of b))) (Z.shiftr (as_u32 a) (32 - shift_of b)))).
Definition i32_rotr : handler := binop "i32.rotr" (pure (λ a b,
  Z.lor (Z.shiftr (as_u32 a) (shift_of b)) (wrap 32 (Z.shiftl (as_u32 a) (32 - shift_of b))))).

(** ** Memory *)

(** The address behind the bounds check, for an access of [n] bytes. *)
Definition effective (what : string) (addr offset n : Z) : ex Z :=
  m ← module_ref;
  let ea := addr + offset in
  if mem_pages m * MEM_PAGE_SIZE <? ea + n then fail (what ++ ": OOB") else
  if mem_ptr m =? 0 then fail (what ++ ": no memory") else
  mret (mem_ptr m + ea).

Definition load (what : string) (n : Z) (conv : Z → Z) : handler := λ bc pc,
  '(_, new_pc) ← unsigned bc (pc + 1);
  '(offset, new_pc) ← unsigned bc new_pc;
  k ← here sp;
  if k =? 0 then fail (what ++ ": empty stack") else
  v ← vget (k - 1);
  _ ← set_sp (k - 1);
  a ← effective what (as_u32 v) offset n;
  mem ← there (λ r, bytes (rheap r));
  _ ← push_checked (conv (of_le_bytes (bytes_at mem a n)));
  mret (Jump new_pc).

Definition store (what : string) (n : Z) : handler := λ bc pc,
  '(_, new_pc) ← unsigned bc (pc + 1);
  '(offset, new_pc) ← unsigned bc new_pc;
  k ← here sp;
  if k <? 2 then fail (what ++ ": need 2 operands") else
  addr ← vget (k - 2);
  v ← vget (k - 1);
  _ ← set_sp (k - 2);
  a ← effective what (as_u32 addr) offset n;
  r ← there (λ r, set_heap r
        (rheap r <| bytes := poke (bytes (rheap r)) a (le_bytes (Z.to_nat n) v) |>));
  _ ← put_runtime r;
  mret (Jump new_pc).

Definition i32_load : handler := load "i32.load" 4 (λ v, v).
Definition i64_load : handler := load "i64.load" 8 (to_signed 64).
Definition i32_load8_s : handler := load "i32.load8_s" 1 (to_signed 8).
Definition i32_load8_u : handler := load "i32.load8_u" 1 (λ v, v).
Definition i32_load16_s : handler := load "i32.load16_s" 2 (to_signed 16).
Definition i32_load16_u : handler := load "i32.load16_u" 2 (λ v, v).
Definition i64_load8_s : handler := load "i64.load8_s" 1 (to_signed 8).
Definition i64_load8_u : handler := load "i64.load8_u" 1 (λ v, v).
Definition i64_load16_s : handler := load "i64.load16_s" 2 (to_signed 16).
Definition i64_load16_u : handler := load "i64.load16_u" 2 (λ v, v).
Definition i64_load32_s : handler := load "i64.load32_s" 4 (to_signed 32).
Definition i64_load32_u : handler := load "i64.load32_u" 4 (λ v, v).

Definition i32_store : handler := store "i32.store" 4.
Definition i64_store : handler := store "i64.store" 8.
Definition i32_store8 : handler := store "i32.store8" 1.
Definition i32_store16 : handler := store "i32.store16" 2.
Definition i64_store8 : handler := store "i64.store8" 1.
Definition i64_store16 : handler := store "i64.store16" 2.
Definition i64_store32 : handler := store "i64.store32" 4.

Definition memory_size : handler := λ _ pc,
  m ← module_ref; _ ← push_checked (mem_pages m); mret (Jump (pc + 2)).

(** [Layout::from_size_align(size, 16)] fails when rounding up passes [isize]. *)
Definition layout_ok (size : Z) : bool := size <=? 2 ^ 63 - 16.

(** The new block, with the old content: a copy that is longer than the block is
    undefined in the language and [Panic] here. *)
Definition move_memory (m : WasmModule) (h : heap) (new_mem new_size : Z) : outcome heap :=
  if mem_ptr m =? 0 then Done h else
  let old_size := mem_pages m * MEM_PAGE_SIZE in
  if new_size <? old_size then Panic else
  dealloc (h <| bytes := blit (bytes h) (mem_ptr m) new_mem old_size |>) (mem_ptr m) old_size.

Definition grow_by (m : WasmModule) (new_pages : Z) : ex bool :=
  let new_size := u64 (new_pages * MEM_PAGE_SIZE) in
  if negb (layout_ok new_size) then _ ← push (-1); mret false else
  r ← there (λ r, r);
  '(new_mem, h) ← run (alloc_zeroed (rheap r) new_size 16);
  if new_mem =? 0 then _ ← put_runtime (set_heap r h); _ ← push (-1); mret true else
  if negb (mem_ptr m =? 0) && negb (layout_ok (mem_pages m * MEM_PAGE_SIZE))
  then _ ← push (mem_pages m); mret false else
  h ← run (move_memory m h new_mem new_size);
  r ← run (set_module (set_heap r h) id (m <| mem_ptr := new_mem |> <| mem_pages := new_pages |>));
  _ ← put_runtime r;
  _ ← push (mem_pages m);
  mret true.

Definition memory_grow : handler := λ _ pc,
  n ← here sp;
  if n =? 0 then fail "memory.grow: empty stack" else
  v ← vget (n - 1);
  _ ← set_sp (n - 1);
  m ← module_ref;
  let request := u64 v in
  if request =? 0 then _ ← push (mem_pages m); mret (Jump (pc + 2)) else
  if u64 (mem_pages m + request) <=? mem_max_pages m then
    stored ← grow_by m (u64 (mem_pages m + request));
    if stored : bool then mret (Jump (pc + 2)) else mret Again
  else _ ← push (-1); mret (Jump (pc + 2)).

Definition select : handler := λ _ pc,
  n ← here sp;
  if n <? 3 then fail "select: need 3 operands" else
  cond ← vget (n - 1);
  val2 ← vget (n - 2);
  val1 ← vget (n - 3);
  _ ← set_sp (n - 2);
  _ ← push (if negb (as_i32 cond =? 0) then val1 else val2);
  mret (Jump (pc + 1)).

(** ** The loop *)

Definition opcodes : list (Z * handler) :=
  [(0x00, unreachable); (0x01, nop); (0x02, block); (0x03, loop); (0x04, if_); (0x05, else_);
   (0x0B, end_block); (0x0C, br); (0x0D, br_if); (0x0F, return_); (0x10, call); (0x1B, select);
   (0x20, local_get); (0x21, local_set); (0x22, local_tee); (0x41, i32_const); (0x42, i64_const);
   (0xA7, i32_wrap_i64); (0xAC, i64_extend_i32_s); (0xAD, i64_extend_i32_u); (0x45, i32_eqz);
   (0x46, i32_eq); (0x47, i32_ne); (0x48, i32_lt_s); (0x49, i32_lt_u); (0x4A, i32_gt_s);
   (0x4B, i32_gt_u); (0x4C, i32_le_s); (0x4D, i32_le_u); (0x4E, i32_ge_s); (0x4F, i32_ge_u);
   (0x6A, i32_add); (0x6B, i32_sub); (0x6C, i32_mul); (0x6D, i32_div_s); (0x6E, i32_div_u);
   (0x6F, i32_rem_s); (0x70, i32_rem_u); (0x71, i32_and); (0x72, i32_or); (0x73, i32_xor);
   (0x74, i32_shl); (0x75, i32_shr_s); (0x76, i32_shr_u); (0x77, i32_rotl); (0x78, i32_rotr);
   (0x28, i32_load); (0x29, i64_load); (0x2C, i32_load8_s); (0x2D, i32_load8_u);
   (0x2E, i32_load16_s); (0x2F, i32_load16_u); (0x30, i64_load8_s); (0x31, i64_load8_u);
   (0x32, i64_load16_s); (0x33, i64_load16_u); (0x34, i64_load32_s); (0x35, i64_load32_u);
   (0x36, i32_store); (0x37, i64_store); (0x3A, i32_store8); (0x3B, i32_store16);
   (0x3C, i64_store8); (0x3D, i64_store16); (0x3E, i64_store32); (0x3F, memory_size);
   (0x40, memory_grow)].

Definition instruction (op : Z) : handler :=
  match List.find (λ x, x.1 =? op) opcodes with
  | Some (_, h) => h
  | None => λ _ _, fail "unknown opcode"
  end.

(** The program counter is past the bytecode. *)
Definition fall_off : ex next :=
  i ← here fp;
  if i =? 0 then mret Stop else
  f ← top_frame;
  n ← here sp;
  ret_val ← (if frame_sp f <? n then vget (n - 1) else mret 0);
  _ ← put (λ s, s <| sp := frame_sp f |> <| fp := i - 1 |>);
  _ ← push ret_val;
  if i - 1 =? 0 then mret Stop else mret Again.

Definition step : ex next :=
  f ← top_frame;
  m ← module_ref;
  bc ← run (aslice (bytecode m) 0 (bc_len m));
  if zlen bc <=? pc f then fall_off else
  opcode ← run (aget bc (pc f));
  instruction opcode bc (pc f).

(** [call_stack[fp].pc = new_pc]. *)
Definition goto (new_pc : Z) : ex () := f ← top_frame; set_frame (f <| pc := new_pc |>).

(** [n] cycles are left.  Returns the cycles that were left at the end. *)
Fixpoint exec_loop (n : nat) : ex nat :=
  match n with
  | O => fail "cycle budget exceeded"
  | S n' =>
      x ← step;
      match x with
      | Stop => mret n'
      | Again => exec_loop n'
      | Jump new_pc => _ ← goto new_pc; exec_loop n'
      end
  end.

Definition start_machine (def_idx nparams : Z) (start : Z) (args : list Z)
    : machine :=
  let used := take (Z.to_nat (Z.min nparams MAX_LOCALS)) args in
  let frame := MkFrame def_idx start 0 (used ++ zeros (MAX_LOCALS - zlen used)) in
  MkMachine (args ++ zeros (VALUE_STACK_SIZE - zlen args)) (zlen args)
    (frame :: replicate (Z.to_nat CALL_STACK_SIZE - 1) (MkFrame 0 0 0 (zeros MAX_LOCALS))) 0
    (MkCtrl CTRL_FUNC 0 0 :: replicate (Z.to_nat CALL_STACK_SIZE - 1) (MkCtrl 0 0 0)) 1.

(** From the start machine to the result; the count of cycles goes to the
    statistics. *)
Definition run_machine (r : runtime) (s : machine) : outcome (result string Z * runtime) :=
  '(res, r, s) ← exec_loop (Z.to_nat CYCLE_BUDGET) r s;
  match res with
  | Err e => Done (Err e, r)
  | Ok rest =>
      p ← aget (perf_stats r) id;
      r ← set_perf r id (record_invocation p (CYCLE_BUDGET - Z.of_nat rest));
      v ← (if 0 <? sp s then aget (value_stack s) (sp s - 1) else Done 0);
      Done (Ok (as_i32 v), r)
  end.

Definition wasm_execute (r : runtime) (function_name args : list Z)
    : outcome (result string Z * runtime) :=
  match is_loaded r id with
  | None => Done (Err "invalid module id"%string, r)
  | Some m =>
      o ← find_export m function_name;
      match o with
      | None => Done (Err "export not found"%string, r)
      | Some idx =>
          if idx <? num_imports m
          then Done (Err "cannot execute imported function directly"%string, r) else
          let def_idx := idx - num_imports m in
          if num_functions m <=? def_idx
          then Done (Err "function index out of range"%string, r) else
          if VALUE_STACK_SIZE <? zlen args then Done (Err "value stack overflow"%string, r) else
          type_idx ← aget (func_types m) def_idx;
          start ← aget (code_offsets m) def_idx;
          run_machine r (start_machine def_idx (types_at (type_params m) type_idx) start args)
      end
  end.

Definition wasm_call_export (r : runtime) (function_name : list Z) : outcome (result string Z * runtime) :=
  wasm_execute r function_name [].
End interp.
End Interp.
