(* ===== verification/WasmSafe.v ===== *)
(** * Running a module is safe

    The invariants of the WASM runtime and what they give: a run of a module
    without imports ends, and whatever its bytecode does, it changes no byte of
    the kernel outside its own linear memory and unused heap ([execute_ok]).  The
    three ways in which bytecode still makes the interpreter panic are spelled out
    by [hazard]. *)
From Stdlib Require Import String.
From S2P Require Import Prelude Heap Hostcall Wasm Interp.
Import Heap Wasm Interp.

Module WasmSafe.

(** ** Values *)

Definition is_i64 (v : Z) : Prop := - 2 ^ 63 <= v < 2 ^ 63.

Lemma as_i32_bound v : - 2 ^ 31 <= as_i32 v < 2 ^ 31.
Proof. by apply (to_signed_bound 32). Qed.

Lemma as_u32_bound v : 0 <= as_u32 v < 2 ^ 32.
Proof. by apply (wrap_bound 32). Qed.

(** Bits of a signed number of [w + 1] bits, from its sign on. *)
Lemma sign_bits w x n : 0 <= w → - 2 ^ w <= x < 2 ^ w → w <= n → Z.testbit x n = Z.testbit x w.
Proof.
  intros Hw Hx Hn. assert (∀ k, w <= k → Z.testbit x k = Z.testbit (x / 2 ^ w) (k - w)) as Hk.
  { intros k Hk. rewrite Z.div_pow2_bits by lia. f_equal. lia. }
  rewrite (Hk n), (Hk w) by lia. pose proof (Z.pow_pos_nonneg 2 w ltac:(lia) Hw).
  destruct (decide (0 <= x)).
  - by rewrite Z.div_small, !Z.bits_0 by lia.
  - replace (x / 2 ^ w) with (-1) by (apply (Z.div_unique _ _ _ (x + 2 ^ w)); lia).
    by rewrite !Z.bits_m1 by lia.
Qed.

Lemma sign_bits_bound w x :
  0 <= w → (∀ n, w <= n → Z.testbit x n = Z.testbit x w) → - 2 ^ w <= x < 2 ^ w.
Proof.
  intros Hw Hx. pose proof (Z.pow_pos_nonneg 2 w ltac:(lia) Hw) as Hp.
  pose proof (Z.div_mod x (2 ^ w) ltac:(lia)) as Hd.
  pose proof (Z.mod_pos_bound x (2 ^ w) Hp) as Hm.
  assert (x / 2 ^ w = 0 ∨ x / 2 ^ w = -1) as [E | E]; [| rewrite E in Hd; lia..].
  rewrite <- Z.shiftr_div_pow2 by lia. destruct (Z.testbit x w) eqn:E; [right | left].
  - apply Z.bits_inj'. intros n Hn. rewrite Z.shiftr_spec, Z.bits_m1, Hx by lia. done.
  - apply Z.bits_inj'. intros n Hn. rewrite Z.shiftr_spec, Z.bits_0, Hx by lia. done.
Qed.

Lemma signed_bitop w f g a b :
  0 <= w → (∀ n, 0 <= n → Z.testbit (f a b) n = g (Z.testbit a n) (Z.testbit b n)) →
  - 2 ^ w <= a < 2 ^ w → - 2 ^ w <= b < 2 ^ w → - 2 ^ w <= f a b < 2 ^ w.
Proof.
  intros Hw Hf Ha Hb. apply sign_bits_bound; [done |]. intros n Hn.
  rewrite !Hf, (sign_bits w a n), (sign_bits w b n) by lia. done.
Qed.

Lemma signed_lor w a b :
  0 <= w → - 2 ^ w <= a < 2 ^ w → - 2 ^ w <= b < 2 ^ w → - 2 ^ w <= Z.lor a b < 2 ^ w.
Proof. intros Hw. apply (signed_bitop w _ orb); [done |]. intros n _. apply Z.lor_spec. Qed.

Lemma shift_of_bound b : 0 <= shift_of b < 32.
Proof.
  unfold shift_of. change 31 with (Z.ones 5). rewrite Z.land_ones by lia. dlia.
Qed.

Lemma shiftr_shrinks x n : 0 <= n → (0 <= x → 0 <= Z.shiftr x n <= x) ∧
  (x < 0 → x <= Z.shiftr x n < 0).
Proof.
  intros Hn. rewrite Z.shiftr_div_pow2 by done. pose proof (Z.pow_pos_nonneg 2 n ltac:(lia) Hn).
  split; intros Hx.
  - split; [apply Z.div_pos; lia |]. apply Z.div_le_upper_bound; nia.
  - split; [apply Z.div_le_lower_bound; nia | apply Z.div_lt_upper_bound; lia].
Qed.

(** The results of an instruction with two operands. *)
Definition range_ok (f : Z → Z → result string Z) : Prop :=
  ∀ a b v, f a b = Ok v → - 2 ^ 31 <= v < 2 ^ 32.

Lemma range_i64 v : - 2 ^ 31 <= v < 2 ^ 32 → is_i64 v.
Proof. unfold is_i64. lia. Qed.

Lemma test_range f : range_ok (test f).
Proof. intros a b v [= <-]. destruct (f a b); lia. Qed.

Lemma pure_range f : (∀ a b, - 2 ^ 31 <= f a b < 2 ^ 32) → range_ok (pure f).
Proof. intros Hf a b v [= <-]. apply Hf. Qed.

Lemma lor_u32 a b : 0 <= a < 2 ^ 32 → 0 <= b < 2 ^ 32 → 0 <= Z.lor a b < 2 ^ 32.
Proof. intros. by apply (lor_bound 32). Qed.

Lemma shiftr_u32 a n : 0 <= n → 0 <= Z.shiftr (as_u32 a) n < 2 ^ 32.
Proof.
  intros Hn. pose proof (as_u32_bound a). destruct (shiftr_shrinks (as_u32 a) n Hn) as [H1 _]. lia.
Qed.

Lemma wrap_u32 x : 0 <= wrap 32 x < 2 ^ 32.
Proof. by apply wrap_bound. Qed.

Lemma i32_in_range x : - 2 ^ 31 <= x < 2 ^ 31 → - 2 ^ 31 <= x < 2 ^ 32.
Proof. lia. Qed.

Lemma u32_in_range x : 0 <= x < 2 ^ 32 → - 2 ^ 31 <= x < 2 ^ 32.
Proof. lia. Qed.

(** The results of the numeric instructions. *)

Lemma quot_bound a b : b ≠ 0 → Z.abs (a ÷ b) <= Z.abs a.
Proof.
  intros Hb. rewrite <- Z.quot_abs, Z.quot_div_nonneg by lia. apply Z.div_le_upper_bound; nia.
Qed.

Lemma rem_bound a b : b ≠ 0 → Z.abs (Z.rem a b) <= Z.abs a.
Proof.
  intros Hb. rewrite <- Z.rem_abs, Z.rem_mod_nonneg by lia. apply Z.mod_le; lia.
Qed.

Lemma i32_div_s_range a b v :
  (let rhs := as_i32 b in
   if rhs =? 0 then Err ": divide by zero"%string else
   if (as_i32 a =? - 2 ^ 31) && (rhs =? -1) then Err ": overflow"%string else
   Ok (as_i32 a ÷ rhs)) = Ok v → - 2 ^ 31 <= v < 2 ^ 32.
Proof.
  cbn zeta. pose proof (as_i32_bound a). intros Hv. case_match; [done |]. bools.
  case_match; [done |]. injection Hv as <-.
  pose proof (quot_bound (as_i32 a) (as_i32 b) ltac:(done)). lia.
Qed.

Lemma i32_rem_s_range a b v :
  (let rhs := as_i32 b in
   if rhs =? 0 then Err ": divide by zero"%string else
   if (as_i32 a =? - 2 ^ 31) && (rhs =? -1) then Ok 0 else Ok (Z.rem (as_i32 a) rhs)) = Ok v →
  - 2 ^ 31 <= v < 2 ^ 32.
Proof.
  cbn zeta. pose proof (as_i32_bound a). intros Hv. case_match; [done |]. bools.
  case_match; injection Hv as <-; [lia |].
  pose proof (rem_bound (as_i32 a) (as_i32 b) ltac:(done)). lia.
Qed.

Lemma u32_div_range f a b v :
  (∀ x y, 0 < y → 0 <= x → 0 <= f x y <= x) →
  (let rhs := as_u32 b in
   if rhs =? 0 then Err ": divide by zero"%string else Ok (f (as_u32 a) rhs)) = Ok v →
  - 2 ^ 31 <= v < 2 ^ 32.
Proof.
  intros Hf. cbn zeta. pose proof (as_u32_bound a). pose proof (as_u32_bound b). intros Hv.
  case_match; [done |]. bools. injection Hv as <-.
  pose proof (Hf (as_u32 a) (as_u32 b) ltac:(lia) ltac:(lia)). lia.
Qed.

Lemma i32_shr_range a b : - 2 ^ 31 <= Z.shiftr (as_i32 a) (shift_of b) < 2 ^ 31.
Proof.
  pose proof (as_i32_bound a). pose proof (shift_of_bound b).
  destruct (shiftr_shrinks (as_i32 a) (shift_of b) ltac:(lia)) as [H1 H2].
  destruct (decide (0 <= as_i32 a)); [specialize (H1 ltac:(lia)) | specialize (H2 ltac:(lia))]; lia.
Qed.

Ltac i32_bits f := apply i32_in_range, (signed_bitop 31 _ f);
  [lia | intros ? ?; first [apply Z.land_spec | apply Z.lor_spec | apply Z.lxor_spec] |
   apply as_i32_bound | apply as_i32_bound].

Ltac num :=
  first
  [ apply test_range
  | apply pure_range; intros ? ?;
    first [ apply i32_in_range, as_i32_bound | i32_bits andb | i32_bits orb | i32_bits xorb
          | apply u32_in_range, wrap_u32 | apply i32_in_range, i32_shr_range
          | apply u32_in_range, shiftr_u32, shift_of_bound
          | apply u32_in_range, lor_u32; first [apply wrap_u32 | apply shiftr_u32;
              match goal with |- context [shift_of ?b] => pose proof (shift_of_bound b); lia end] ]
  | intros ? ? ?; apply i32_div_s_range
  | intros ? ? ?; apply i32_rem_s_range
  | intros ? ? ?; apply u32_div_range; intros; split;
    [first [apply Z.div_pos | apply Z.mod_pos_bound]; lia |
     first [apply Z.div_le_upper_bound; nia | apply Z.mod_le; lia]] ].

(** ** LEB128 *)

(** No byte ends the number. *)
Definition unterminated (rest : list Z) : bool :=
  forallb (λ b, negb (Z.land b 128 =? 0)) rest.

Lemma skip_rest_bound rest n : n < skip_rest rest n <= n + 1 + zlen rest.
Proof.
  revert n. induction rest as [| b rest IH]; intros n; cbn [skip_rest]; [unfold zlen; cbn; lia |].
  specialize (IH (n + 1)). unfold zlen in *. cbn [length]. destruct (_ =? 0); lia.
Qed.

Lemma leb_u_cases rest : ∀ off res sh, 0 <= res < 2 ^ 32 →
  if unterminated rest then leb_u rest off res sh = Panic else
  ∃ v, leb_u rest off res sh = Done (v, skip_rest rest off) ∧ 0 <= v < 2 ^ 32 ∧
    skip_rest rest off <= off + zlen rest.
Proof.
  induction rest as [| b rest IH]; intros off res sh Hres; [done |].
  cbn [unterminated forallb leb_u skip_rest].
  pose proof (lor_u32 res (wrap 32 (Z.shiftl (Z.land b 127) (sh mod 32))) Hres (wrap_u32 _)) as Hv.
  destruct (Z.land b 128 =? 0) eqn:E; cbn [negb andb].
  - eexists. split_and!; [reflexivity | apply Hv.. |]. unfold zlen. cbn [length]. lia.
  - specialize (IH (off + 1) _ (sh + 7) Hv). fold (unterminated rest).
    destruct (unterminated rest); [done |]. destruct IH as (v & ? & ? & ?).
    exists v. split_and!; [done | lia.. |]. unfold zlen in *. cbn [length]. lia.
Qed.

Lemma leb_s_cases w rest : 1 <= w → ∀ off res sh,
  0 <= sh → - 2 ^ (w - 1) <= res < 2 ^ (w - 1) →
  if unterminated rest then leb_s w rest off res sh = Panic else
  ∃ v, leb_s w rest off res sh = Done (v, skip_rest rest off) ∧
    - 2 ^ (w - 1) <= v < 2 ^ (w - 1) ∧ skip_rest rest off <= off + zlen rest.
Proof.
  intros Hw. induction rest as [| b rest IH]; intros off res sh Hsh Hres; [done |].
  cbn [unterminated forallb leb_s skip_rest].
  pose proof (signed_lor (w - 1) res (to_signed w (Z.shiftl (Z.land b 127) (sh mod w)))
    ltac:(lia) Hres (to_signed_bound w _ ltac:(lia))) as Hv.
  destruct (Z.land b 128 =? 0) eqn:E; cbn [negb andb].
  - eexists. split_and!; [reflexivity | | | unfold zlen; cbn; lia];
      (destruct (_ && _) eqn:Es; [| lia]); bools;
      apply (signed_lor (w - 1)); [lia | done | | lia | done |];
      rewrite Z.shiftl_mul_pow2 by lia;
      pose proof (Z.pow_le_mono_r 2 (sh + 7) (w - 1) ltac:(lia) ltac:(lia));
      pose proof (Z.pow_pos_nonneg 2 (sh + 7) ltac:(lia) ltac:(lia)); lia.
  - specialize (IH (off + 1) _ (sh + 7) ltac:(lia) Hv). fold (unterminated rest).
    destruct (unterminated rest); [done |]. destruct IH as (v & ? & ? & ?).
    exists v. split_and!; [done | lia.. |]. unfold zlen in *. cbn [length]. lia.
Qed.

(** A number at [at_] runs past the end. *)
Definition truncated (bc : list Z) (at_ : Z) : bool := unterminated (drop (Z.to_nat at_) bc).

Lemma leb128_u_cases bc at_ :
  0 <= at_ →
  if truncated bc at_ then leb128_u bc at_ = Panic else
  ∃ v, leb128_u bc at_ = Done (v, skip_leb128 bc at_) ∧ 0 <= v < 2 ^ 32 ∧
    at_ < skip_leb128 bc at_ <= zlen bc.
Proof.
  intros Hat. unfold truncated, leb128_u, skip_leb128.
  pose proof (leb_u_cases (drop (Z.to_nat at_) bc) at_ 0 0 ltac:(lia)) as H.
  destruct (unterminated _) eqn:E; [done |]. destruct H as (v & Hv & Hb & Hs).
  exists v. split_and!; [done | lia.. | |].
  - apply skip_rest_bound.
  - assert (Z.to_nat at_ < length bc)%nat as Hl.
    { apply Nat.nle_gt. intros Hle. by rewrite skipn_all2 in E. }
    unfold zlen in *. rewrite length_drop in Hs. lia.
Qed.

Lemma leb128_s_cases (buf : list Z) (at_ : Z) (w : Z) :
  0 <= at_ → 1 <= w <= 64 →
  if truncated buf at_ then leb_s w (drop (Z.to_nat at_) buf) at_ 0 0 = Panic else
  ∃ v, leb_s w (drop (Z.to_nat at_) buf) at_ 0 0 = Done (v, skip_leb128 buf at_) ∧ is_i64 v ∧
    0 <= skip_leb128 buf at_.
Proof.
  intros Hat Hw. unfold truncated, skip_leb128.
  pose proof (Z.pow_pos_nonneg 2 (w - 1) ltac:(lia) ltac:(lia)).
  pose proof (Z.pow_le_mono_r 2 (w - 1) 63 ltac:(lia) ltac:(lia)).
  pose proof (leb_s_cases w (drop (Z.to_nat at_) buf) ltac:(lia) at_ 0 0 ltac:(lia) ltac:(lia)) as Hc.
  destruct (unterminated _); [done |]. destruct Hc as (v & ? & ? & ?).
  pose proof (skip_rest_bound (drop (Z.to_nat at_) buf) at_).
  exists v. unfold is_i64. split_and!; [done | lia..].
Qed.

(** ** Ends of blocks are found, or reported missing *)

Lemma skip_leb128_gt bc n : n < skip_leb128 bc n.
Proof. apply skip_rest_bound. Qed.

Lemma skip_insn_gt bc n op : n < skip_insn bc n op.
Proof.
  unfold skip_insn. pose proof (skip_leb128_gt bc (n + 1)).
  pose proof (skip_leb128_gt bc (skip_leb128 bc (n + 1))). if_split; lia.
Qed.

(** The answer is a place in the code. *)
Definition pc_ok (x : result string Z) : Prop := match x with Ok p => 0 <= p | Err _ => True end.
Definition pcs_ok (x : result string (Z * Z)) : Prop :=
  match x with Ok (p, q) => 0 <= p ∧ 0 <= q | Err _ => True end.

Lemma end_loop_total bc fuel : ∀ n depth,
  0 <= n → zlen bc <= Z.of_nat fuel + n → ∃ x, end_loop fuel bc n depth = Done x ∧ pc_ok x.
Proof.
  induction fuel as [| fuel IH]; intros n depth Hn Hl; cbn [end_loop];
    destruct (bc !! Z.to_nat n) as [op |] eqn:Hop; [| by eexists | | by eexists].
  - apply lookup_lt_Some in Hop. unfold zlen in Hl. lia.
  - pose proof (skip_insn_gt bc n op). if_split; try (apply IH; lia).
    eexists. split; [done |]. cbn. lia.
Qed.

Lemma if_loop_total bc fuel : ∀ n depth e,
  0 <= n → 0 <= e → zlen bc <= Z.of_nat fuel + n → ∃ x, if_loop fuel bc n depth e = Done x ∧ pcs_ok x.
Proof.
  induction fuel as [| fuel IH]; intros n depth e Hn He Hl; cbn [if_loop];
    destruct (bc !! Z.to_nat n) as [op |] eqn:Hop; [| by eexists | | by eexists].
  - apply lookup_lt_Some in Hop. unfold zlen in Hl. lia.
  - pose proof (skip_insn_gt bc n op). if_split; try (apply IH; lia).
    eexists. split; [done |]. cbn. lia.
Qed.

Lemma find_matching_end_total bc n :
  0 <= n → ∃ x, find_matching_end bc n = Done x ∧ pc_ok x.
Proof.
  intros Hn. unfold find_matching_end. if_split; [by eexists |]. apply end_loop_total; unfold zlen; lia.
Qed.

Lemma find_if_else_end_total bc n :
  0 <= n → ∃ x, find_if_else_end bc n = Done x ∧ pcs_ok x.
Proof.
  intros Hn. unfold find_if_else_end. if_split; [by eexists |]. apply if_loop_total; unfold zlen; lia.
Qed.

(** ** Well-formed modules and machines *)

Record module_ok (m : WasmModule) : Prop := {
  mo_code : zlen (bytecode m) = MAX_WASM_SIZE ∧ Forall is_byte (bytecode m);
  mo_len : 0 <= bc_len m <= MAX_WASM_SIZE;
  mo_name : zlen (name m) = 32;
  mo_types : zlen (type_params m) = MAX_TYPES ∧ Forall is_byte (type_params m) ∧
    zlen (type_results m) = MAX_TYPES ∧ Forall is_byte (type_results m);
  mo_imports : 0 <= num_imports m <= MAX_IMPORTS ∧ zlen (import_names m) = MAX_IMPORTS ∧
    zlen (import_types m) = MAX_IMPORTS ∧ Forall is_byte (import_types m);
  mo_funcs : 0 <= num_functions m <= MAX_FUNCTIONS ∧ zlen (func_types m) = MAX_FUNCTIONS ∧
    Forall is_byte (func_types m);
  mo_offsets : zlen (code_offsets m) = MAX_FUNCTIONS ∧ Forall (λ o, 0 <= o) (code_offsets m) ∧
    zlen (code_sizes m) = MAX_FUNCTIONS ∧ zlen (num_locals m) = MAX_FUNCTIONS;
  mo_exports : 0 <= num_exports m <= MAX_EXPORTS ∧ zlen (export_names m) = MAX_EXPORTS ∧
    Forall (λ n, zlen n = 32 ∧ n !! 31%nat = Some 0) (export_names m) ∧
    zlen (export_funcs m) = MAX_EXPORTS ∧ Forall is_byte (export_funcs m);
}.

Definition frame_ok (f : Frame) : Prop :=
  0 <= pc f ∧ 0 <= frame_sp f <= VALUE_STACK_SIZE ∧ zlen (locals f) = MAX_LOCALS ∧
  Forall is_i64 (locals f).

Definition ctrl_ok (c : CtrlFrame) : Prop :=
  0 <= pc_cont c ∧ 0 <= ctrl_sp c <= VALUE_STACK_SIZE.

(** The types of the three stacks. *)
Record machine_ok (s : machine) : Prop := {
  ms_values : zlen (value_stack s) = VALUE_STACK_SIZE ∧ Forall is_i64 (value_stack s);
  ms_sp : 0 <= sp s <= VALUE_STACK_SIZE;
  ms_frames : zlen (call_stack s) = CALL_STACK_SIZE ∧ Forall frame_ok (call_stack s);
  ms_fp : 0 <= fp s < CALL_STACK_SIZE;
  ms_ctrls : zlen (ctrl_stack s) = CALL_STACK_SIZE ∧ Forall ctrl_ok (ctrl_stack s);
  ms_cp : 0 <= cp s <= CALL_STACK_SIZE;
}.

(** ** Weakest preconditions

    [wp m P E Q r s]: from [r] and [s], [m] returns into [Q], fails into [E],
    panics only where [P], and does nothing else. *)

Definition wp {A} (m : ex A) (P : Prop) (E : runtime → Prop) (Q : A → runtime → machine → Prop)
    (r : runtime) (s : machine) : Prop :=
  match m r s with
  | Done (Ok a, r', s') => Q a r' s'
  | Done (Err _, r', _) => E r'
  | Panic => P
  | _ => False
  end.

Section wp.
Context {P : Prop} {E : runtime → Prop}.

Lemma wp_bind {A B} (m : ex A) (f : A → ex B) Q r s :
  wp m P E (λ a r' s', wp (f a) P E Q r' s') r s → wp (m ≫= f) P E Q r s.
Proof. unfold wp, mbind, ex_bind. by destruct (m r s) as [[[[a | e] r'] s'] | | |]. Qed.

Lemma wp_mono {A} (m : ex A) (Q Q' : A → runtime → machine → Prop) r s :
  (∀ a r' s', Q a r' s' → Q' a r' s') → wp m P E Q r s → wp m P E Q' r s.
Proof. intros HQ. unfold wp. destruct (m r s) as [[[[a | e] r'] s'] | | |]; auto. Qed.

Lemma wp_run {A} (o : outcome A) a (Q : A → runtime → machine → Prop) r s :
  o = Done a → Q a r s → wp (run o) P E Q r s.
Proof. by intros ->. Qed.

Lemma wp_panic {A} (Q : A → runtime → machine → Prop) r s : P → wp (run Panic) P E Q r s.
Proof. done. Qed.
End wp.

(** ** The stacks *)

Lemma Forall_aget {A} (R : A → Prop) (l : list A) i :
  Forall R l → 0 <= i < zlen l → ∃ x, aget l i = Done x ∧ R x.
Proof.
  intros HR Hi. destruct (aget_in_range l i Hi) as [x Hx]. exists x. split; [done |].
  apply aget_lookup in Hx as [_ Hx]. by eapply Forall_lookup_1.
Qed.

Lemma set_sp_ok s n : machine_ok s → 0 <= n <= VALUE_STACK_SIZE → machine_ok (s <| sp := n |>).
Proof. intros [] ?. by split. Qed.
Lemma set_cp_ok s n : machine_ok s → 0 <= n <= CALL_STACK_SIZE → machine_ok (s <| cp := n |>).
Proof. intros [] ?. by split. Qed.
Lemma set_fp_ok s n : machine_ok s → 0 <= n < CALL_STACK_SIZE → machine_ok (s <| fp := n |>).
Proof. intros [] ?. by split. Qed.

Section stacks.
Context {P : Prop} {E : runtime → Prop}.
Implicit Types (r : runtime) (s : machine).

Lemma wp_ret {A} (a : A) (Q : A → runtime → machine → Prop) r s : Q a r s → wp (mret a) P E Q r s.
Proof. done. Qed.
Lemma wp_fail {A} e (Q : A → runtime → machine → Prop) r s : E r → wp (fail e) P E Q r s.
Proof. done. Qed.
Lemma wp_here {A} f (Q : A → runtime → machine → Prop) r s : Q (f s) r s → wp (here f) P E Q r s.
Proof. done. Qed.
Lemma wp_there {A} f (Q : A → runtime → machine → Prop) r s : Q (f r) r s → wp (there f) P E Q r s.
Proof. done. Qed.
Lemma wp_put f (Q : () → runtime → machine → Prop) r s : Q () r (f s) → wp (put f) P E Q r s.
Proof. done. Qed.
Lemma wp_put_runtime r' (Q : () → runtime → machine → Prop) r s :
  Q () r' s → wp (put_runtime r') P E Q r s.
Proof. done. Qed.
Lemma wp_set_sp n (Q : () → runtime → machine → Prop) r s :
  Q () r (s <| sp := n |>) → wp (set_sp n) P E Q r s.
Proof. done. Qed.

Lemma wp_aget {A} (R : A → Prop) l i (Q : A → runtime → machine → Prop) r s :
  Forall R l → 0 <= i < zlen l → (∀ x, R x → Q x r s) → wp (run (aget l i)) P E Q r s.
Proof. intros HR Hi HQ. destruct (Forall_aget R l i HR Hi) as (x & Hx & ?). eauto using wp_run. Qed.

Lemma wp_vget i (Q : Z → runtime → machine → Prop) r s :
  machine_ok s → 0 <= i < VALUE_STACK_SIZE →
  (∀ v, is_i64 v → value_stack s !! Z.to_nat i = Some v → Q v r s) → wp (vget i) P E Q r s.
Proof.
  intros [[Hl Hv] _ _ _ _ _] Hi HQ. destruct (Forall_aget _ _ i Hv) as (v & Hx & Hr); [lia |].
  apply wp_bind, wp_here. eapply wp_run; [exact Hx |]. apply HQ; [done |].
  by apply aget_lookup in Hx as [_ ?].
Qed.

Lemma wp_vset i v (Q : () → runtime → machine → Prop) r s :
  machine_ok s → 0 <= i < VALUE_STACK_SIZE → is_i64 v →
  (∀ vs, machine_ok (s <| value_stack := vs |>) → Q () r (s <| value_stack := vs |>)) →
  wp (vset i v) P E Q r s.
Proof.
  intros [[Hl Hf] ? ? ? ? ?] Hi Hv HQ. apply wp_bind, wp_here, wp_bind.
  eapply wp_run; [apply aset_in_range; lia |]. apply wp_put, HQ.
  split; [| done..]. cbn. rewrite zlen_insert. split; [done | by apply Forall_insert].
Qed.

Lemma wp_push v (Q : () → runtime → machine → Prop) r s :
  machine_ok s → is_i64 v → (sp s = VALUE_STACK_SIZE → P) →
  (∀ vs, let s' := s <| value_stack := vs |> <| sp := sp s + 1 |> in machine_ok s' → Q () r s') →
  wp (push v) P E Q r s.
Proof.
  intros Hs Hv HP HQ. pose proof (ms_sp s Hs) as Hsp. apply wp_bind, wp_here, wp_bind.
  destruct (decide (sp s = VALUE_STACK_SIZE)) as [Heq | Hne].
  - apply wp_bind, wp_here, wp_bind. unfold aset.
    destruct (_ && _) eqn:Hb; bools; [| by apply wp_panic, HP].
    destruct (ms_values s Hs). lia.
  - apply wp_vset; [done | lia | done |]. intros vs Hok. apply wp_set_sp, HQ.
    apply (set_sp_ok _ (sp s + 1) Hok). lia.
Qed.

Lemma wp_push_checked v (Q : () → runtime → machine → Prop) r s :
  machine_ok s → E r → is_i64 v → (∀ s', machine_ok s' → Q () r s') → wp (push_checked v) P E Q r s.
Proof.
  intros Hs HE Hv HQ. apply wp_bind, wp_here. destruct (_ <=? _) eqn:Hb; bools; [by apply wp_fail |].
  apply wp_push; [done | done | lia |]. intros vs s' Hok. by apply HQ.
Qed.

Lemma wp_top_frame (Q : Frame → runtime → machine → Prop) r s :
  machine_ok s →
  (∀ f, frame_ok f → call_stack s !! Z.to_nat (fp s) = Some f → Q f r s) → wp top_frame P E Q r s.
Proof.
  intros [_ _ [Hl Hf] Hp _ _] HQ. apply wp_bind, wp_here, wp_bind, wp_here.
  destruct (Forall_aget frame_ok (call_stack s) (fp s) Hf) as (f & Hx & Hok); [lia |].
  eapply wp_run; [exact Hx |]. apply HQ; [done |]. by apply aget_lookup in Hx as [_ ?].
Qed.

Lemma wp_set_frame f (Q : () → runtime → machine → Prop) r s :
  machine_ok s → frame_ok f →
  (∀ fs, machine_ok (s <| call_stack := fs |>) → Q () r (s <| call_stack := fs |>)) →
  wp (set_frame f) P E Q r s.
Proof.
  intros [? ? [Hl Hf] ? ? ?] Hok HQ. apply wp_bind, wp_here, wp_bind, wp_here, wp_bind.
  eapply wp_run; [apply aset_in_range; lia |]. apply wp_put, HQ.
  split; [done | done | | done..]. cbn. rewrite zlen_insert. split; [done | by apply Forall_insert].
Qed.

Lemma wp_push_ctrl k cont (Q : () → runtime → machine → Prop) r s :
  machine_ok s → E r → 0 <= cont → (∀ s', machine_ok s' → Q () r s') →
  wp (push_ctrl k cont) P E Q r s.
Proof.
  intros [? Hsp ? ? [Hl Hf] Hc] HE Hcont HQ. apply wp_bind, wp_here.
  destruct (_ <=? _) eqn:Hb; bools; [by apply wp_fail |].
  apply wp_bind, wp_here, wp_bind, wp_here, wp_bind.
  eapply wp_run; [apply aset_in_range; lia |]. apply wp_put, HQ.
  split; [done.. | | cbn; lia]. cbn. rewrite zlen_insert. split; [done | by apply Forall_insert].
Qed.

Lemma wp_unsigned bc at_ (Q : Z * Z → runtime → machine → Prop) r s :
  0 <= at_ → (truncated bc at_ = true → P) →
  (∀ v, truncated bc at_ = false → 0 <= v < 2 ^ 32 → at_ < skip_leb128 bc at_ →
    Q (v, skip_leb128 bc at_) r s) →
  wp (unsigned bc at_) P E Q r s.
Proof.
  intros Hat HP HQ. unfold unsigned. pose proof (leb128_u_cases bc at_ Hat) as Hc.
  destruct (truncated bc at_).
  - rewrite Hc. by apply wp_panic, HP.
  - destruct Hc as (v & Hv & ? & ?). eapply wp_run; [exact Hv |]. apply HQ; [done.. | lia].
Qed.

Lemma wp_try {A} (o : outcome (result string A)) (R : result string A → Prop)
    (Q : A → runtime → machine → Prop) r s :
  E r → (∃ x, o = Done x ∧ R x) → (∀ a, R (Ok a) → Q a r s) → wp (try o) P E Q r s.
Proof.
  intros HE (x & -> & HR) HQ. apply wp_bind. eapply wp_run; [done |].
  destruct x as [a | e]; [by apply wp_ret, HQ | by apply wp_fail].
Qed.
End stacks.

(** ** What makes the interpreter panic *)

(** An immediate of the instruction runs past the end of the bytecode. *)
Definition truncated_insn (bc : list Z) (at_ op : Z) : bool :=
  if two_lebs op then truncated bc (at_ + 1) || truncated bc (skip_leb128 bc (at_ + 1))
  else (one_leb op || (op =? 0x22)) && truncated bc (at_ + 1).

(** The function was called with a full value stack, which leaves no room for
    the value it returns. *)
Definition full_return (s : machine) : bool :=
  (0 <? fp s) && match call_stack s !! Z.to_nat (fp s) with
                 | Some f => frame_sp f =? VALUE_STACK_SIZE
                 | None => false
                 end.

(** The pages asked for wrap around to fewer than there are. *)
Definition grow_wraps (m : WasmModule) (s : machine) : bool :=
  (0 <? sp s) && match value_stack s !! Z.to_nat (sp s - 1) with
                 | Some v => u64 (mem_pages m + u64 v) <? mem_pages m
                 | None => false
                 end.

Definition insn_hazard (m : WasmModule) (s : machine) (bc : list Z) (at_ op : Z) : bool :=
  truncated_insn bc at_ op || ((op =? 0x0F) && full_return s) || ((op =? 0x40) && grow_wraps m s).

Definition hazard (id : Z) (r : runtime) (s : machine) : bool :=
  match modules r !! Z.to_nat id, call_stack s !! Z.to_nat (fp s) with
  | Some m, Some f =>
      let bc := take (Z.to_nat (bc_len m)) (bytecode m) in
      match bc !! Z.to_nat (pc f) with
      | Some op => insn_hazard m s bc (pc f) op
      | None => full_return s
      end
  | _, _ => false
  end.

(** ** One run of one module *)

Section run.
Variable dispatch : Z → list Z → Z → runtime → outcome (Z * runtime).
Variables (id : Z) (r0 : runtime) (m0 : WasmModule) (lo : Z) (bs0 : list (Z * Z)).
Hypothesis Hid : 0 <= id.
Hypothesis Hm0 : modules r0 !! Z.to_nat id = Some m0.
Hypothesis Hm0_ok : module_ok m0.
Hypothesis Hclosed : num_imports m0 = 0.
Hypothesis Hmax : mem_max_pages m0 = MAX_MEM_PAGES.

(** Addresses of the module's memory at the start of the run, and of the heap
    that was not handed out then. *)
Definition mine (x : Z) : Prop :=
  mem_ptr m0 <= x < mem_ptr m0 + mem_pages m0 * MEM_PAGE_SIZE.
Definition fresh (x : Z) : Prop :=
  Heap.next (bump (rheap r0)) <= x < end_ (bump (rheap r0)).

Record view (p k : Z) (bs : list (Z * Z)) (h : heap) : Prop := {
  vw_heap : heap_ok lo bs h;
  vw_block : (p, k * MEM_PAGE_SIZE) ∈ bs;
  vw_pages : 1 <= k <= MAX_MEM_PAGES;
  vw_kept : bs0 ⊆ bs;
  vw_bytes x : is_byte (bytes h x);
  vw_own x : p <= x < p + k * MEM_PAGE_SIZE → mine x ∨ fresh x;
  vw_next : Heap.next (bump (rheap r0)) <= Heap.next (bump h);
  vw_end : end_ (bump h) = end_ (bump (rheap r0));
  vw_frame x : ¬ mine x → ¬ fresh x → bytes h x = bytes (rheap r0) x;
}.

Definition state (p k : Z) (h : heap) : runtime :=
  set_heap (r0 <| modules := <[Z.to_nat id := m0 <| mem_ptr := p |> <| mem_pages := k |>]>
                               (modules r0) |>) h.

Definition good (r : runtime) : Prop := ∃ p k bs h, r = state p k h ∧ view p k bs h.

Definition next_ok (x : next) : Prop := match x with Jump p => 0 <= p | _ => True end.

Definition post (x : next) (r : runtime) (s : machine) : Prop := good r ∧ machine_ok s ∧ next_ok x.

Lemma state_module p k h :
  modules (state p k h) !! Z.to_nat id = Some (m0 <| mem_ptr := p |> <| mem_pages := k |>).
Proof. cbn. apply list_lookup_insert_eq. by eapply lookup_lt_Some. Qed.

Lemma wp_module_ref P E (Q : WasmModule → runtime → machine → Prop) p k h s :
  Q (m0 <| mem_ptr := p |> <| mem_pages := k |>) (state p k h) s →
  wp (module_ref id) P E Q (state p k h) s.
Proof.
  intros HQ. apply wp_bind, wp_there. eapply wp_run, HQ. apply aget_lookup.
  split; [done | apply state_module].
Qed.

(** A handler that keeps the invariant, whatever its operands. *)
Definition handler_ok (op : Z) (h : handler) : Prop := ∀ r s m bc at_,
  good r → machine_ok s → modules r !! Z.to_nat id = Some m → 0 <= at_ →
  wp (h bc at_) (insn_hazard m s bc at_ op = true) good post r s.

Lemma post_intro x r s : good r → machine_ok s → next_ok x → post x r s.
Proof. done. Qed.

(** ** Instructions that leave the runtime alone *)

Ltac range := cbn [sp fp cp set_field] in *; unfold VALUE_STACK_SIZE, CALL_STACK_SIZE, MAX_LOCALS in *; lia.
Ltac mok := first [assumption | apply set_sp_ok; [mok | range] | apply set_cp_ok; [mok | range] |
  apply set_fp_ok; [mok | range]].
Ltac finish := apply post_intro; [assumption | mok | first [exact I | cbn; lia | assumption]].

(** One step through a handler. *)
Ltac w1 :=
  lazymatch goal with
  | |- wp (mbind _ _) _ _ _ _ _ => apply wp_bind
  | |- wp (mret _) _ _ _ _ _ => apply wp_ret
  | |- wp (fail _) _ _ _ _ _ => apply wp_fail; assumption
  | |- wp (here _) _ _ _ _ _ => apply wp_here
  | |- wp (there _) _ _ _ _ _ => apply wp_there
  | |- wp (set_sp _) _ _ _ _ _ => apply wp_set_sp
  | |- wp (put _) _ _ _ _ _ => apply wp_put
  | |- wp (if ?b then _ else _) _ _ _ _ _ => destruct b eqn:?; bools
  | |- wp (vget _) _ _ _ _ _ => apply wp_vget; [mok | range | intros ? ? ?]
  | |- wp (vset _ _) _ _ _ _ _ => apply wp_vset; [mok | range | | intros ? ?]
  | |- wp (push_checked _) _ _ _ _ _ => apply wp_push_checked; [mok | assumption | | intros ? ?]
  | |- wp (push_ctrl _ _) _ _ _ _ _ => apply wp_push_ctrl; [mok | assumption | | intros ? ?]
  | |- wp top_frame _ _ _ _ _ => apply wp_top_frame; [mok |
      let H := fresh "Hf" in intros ? H ?; pose proof H as (? & ? & ? & ?)]
  | |- wp (set_frame _) _ _ _ _ _ => apply wp_set_frame; [mok | | intros ? ?]
  | |- wp (unsigned _ _) _ _ _ _ _ => apply wp_unsigned; [lia | | intros ? ? ? ?]
  | |- post _ _ _ => finish
  end; cbn beta iota.
Ltac wsteps := repeat w1.

(** Start on a handler. *)
Ltac whandler :=
  let Hs := fresh "Hs" in
  intros r s m bc at_ Hg Hs Hm Hat;
  pose proof (ms_sp s Hs); pose proof (ms_cp s Hs); pose proof (ms_fp s Hs).

Lemma unreachable_ok op : handler_ok op unreachable.
Proof. whandler. by apply wp_fail. Qed.

Lemma nop_ok op : handler_ok op nop.
Proof. whandler. unfold nop. wsteps. Qed.

Lemma block_ok op : handler_ok op block.
Proof.
  whandler. unfold block. wsteps.
  apply (wp_try _ pc_ok); [done | by apply find_matching_end_total |]. intros c Hc. wsteps. done.
Qed.

Lemma loop_ok op : handler_ok op loop.
Proof. whandler. unfold loop. wsteps. lia. Qed.

Lemma if_ok op : handler_ok op if_.
Proof.
  whandler. unfold if_. wsteps.
  apply (wp_try _ pcs_ok); [done | by apply find_if_else_end_total |].
  intros [e n] [He Hn]. wsteps; done.
Qed.

Lemma else_ok op : handler_ok op else_.
Proof.
  whandler. unfold else_. wsteps.
  apply (wp_try _ pc_ok); [done | by apply find_matching_end_total |]. intros c Hc. wsteps.
Qed.

Lemma ctrl_at s i : machine_ok s → 0 <= i < CALL_STACK_SIZE →
  ∃ c, aget (ctrl_stack s) i = Done c ∧ ctrl_ok c.
Proof. intros [_ _ _ _ [Hl Hf] _] Hi. apply Forall_aget; [done | lia]. Qed.

Lemma end_block_ok op : handler_ok op end_block.
Proof.
  whandler. unfold end_block. wsteps.
  destruct (ctrl_at s (cp s - 1) Hs) as (c & Hc & [? ?]); [range |].
  eapply wp_run; [exact Hc |]. wsteps.
Qed.

Lemma branch_ok P what label r s :
  good r → machine_ok s → 0 <= label → wp (branch what label) P good post r s.
Proof.
  intros Hg Hs Hl. pose proof (ms_cp s Hs). unfold branch. wsteps.
  destruct (ctrl_at s (cp s - 1 - label) Hs) as (c & Hc & [? ?]); [lia |].
  eapply wp_run; [exact Hc |]. wsteps.
Qed.

(** The hazard of an instruction with one immediate. *)
Lemma truncated_one m s bc at_ op :
  one_leb op || (op =? 0x22) = true → two_lebs op = false →
  truncated bc (at_ + 1) = true → insn_hazard m s bc at_ op = true.
Proof. intros H1 H2 Ht. unfold insn_hazard, truncated_insn. by rewrite H1, H2, Ht. Qed.

Lemma br_ok : handler_ok 0x0C br.
Proof.
  whandler. unfold br. wsteps; [by apply truncated_one |]. by apply branch_ok; [| | lia].
Qed.

Lemma br_if_ok : handler_ok 0x0D br_if.
Proof.
  whandler. unfold br_if. wsteps; [by apply truncated_one |]. by apply branch_ok; [| mok | lia].
Qed.

Lemma locals_at f i : frame_ok f → 0 <= i < MAX_LOCALS → ∃ v, aget (locals f) i = Done v ∧ is_i64 v.
Proof. intros (_ & _ & Hl & Hv) Hi. apply Forall_aget; [done | lia]. Qed.

Lemma local_get_ok : handler_ok 0x20 local_get.
Proof.
  whandler. unfold local_get. wsteps; [by apply truncated_one |].
  edestruct locals_at as (x & Hx & ?); [done | | eapply wp_run; [exact Hx |]]; [lia |]. by wsteps.
Qed.

Lemma local_write_ok P f idx v r s (Q : () → runtime → machine → Prop) :
  machine_ok s → frame_ok f → 0 <= idx < MAX_LOCALS → is_i64 v →
  (∀ s', machine_ok s' → Q () r s') → wp (local_write f idx v) P good Q r s.
Proof.
  intros Hs (? & ? & Hl & Hf) Hi Hv HQ. apply wp_bind.
  eapply wp_run; [apply aset_in_range; lia |]. apply wp_set_frame; [done | | auto].
  unfold frame_ok. cbn. rewrite zlen_insert. split_and!; [lia.. | by apply Forall_insert].
Qed.

Lemma local_set_ok : handler_ok 0x21 local_set.
Proof.
  whandler. unfold local_set. wsteps; [by apply truncated_one |].
  apply local_write_ok; [mok | done | lia | done |]. intros s' Hs'. wsteps.
Qed.

Lemma local_tee_ok : handler_ok 0x22 local_tee.
Proof.
  whandler. unfold local_tee. wsteps; [by apply truncated_one |].
  apply local_write_ok; [mok | done | lia | done |]. intros s' Hs'. wsteps.
Qed.

(** A constant of either width. *)
Lemma const_ok P w bc at_ r s :
  good r → machine_ok s → 0 <= at_ → 1 <= w <= 64 → (truncated bc (at_ + 1) = true → P) →
  wp ('(v, new_pc) ← run (leb_s w (drop (Z.to_nat (at_ + 1)) bc) (at_ + 1) 0 0);
      _ ← push_checked v; mret (Jump new_pc)) P good post r s.
Proof.
  intros Hg Hs Hat Hw HP. pose proof (leb128_s_cases bc (at_ + 1) w ltac:(lia) Hw) as Hc.
  wsteps. destruct (truncated bc (at_ + 1)).
  - rewrite Hc. by apply wp_panic, HP.
  - destruct Hc as (v & Hv & ? & ?). eapply wp_run; [exact Hv |]. cbn beta iota. by wsteps.
Qed.

Lemma i32_const_ok : handler_ok 0x41 i32_const.
Proof. whandler. apply const_ok; [done.. | lia |]. by apply truncated_one. Qed.
Lemma i64_const_ok : handler_ok 0x42 i64_const.
Proof. whandler. apply const_ok; [done.. | lia |]. by apply truncated_one. Qed.

Lemma unop_ok op what f : (∀ v, - 2 ^ 31 <= f v < 2 ^ 32) → handler_ok op (unop what f).
Proof. intros Hf. whandler. unfold unop. wsteps. by apply range_i64. Qed.

Lemma binop_ok op what f : range_ok f → handler_ok op (binop what f).
Proof.
  intros Hf. whandler. unfold binop. wsteps. destruct (f _ _) as [x | e] eqn:E; wsteps.
  by eapply range_i64, Hf.
Qed.

Lemma select_ok op : handler_ok op select.
Proof.
  whandler. unfold select. wsteps. apply wp_push; [mok | by destruct (negb _) | range |].
  intros vs s' Hs'. wsteps.
Qed.

(** ** Calls and returns *)

Lemma unwind_total s n : machine_ok s → Z.of_nat n <= CALL_STACK_SIZE →
  ∃ c, unwind (ctrl_stack s) n = Done c ∧ 0 <= c <= Z.of_nat n.
Proof.
  intros Hs. induction n as [| n IH]; intros Hn; cbn [unwind]; [by exists 0 |].
  destruct (ctrl_at s (Z.of_nat n) Hs) as (c & Hc & _); [lia |].
  rewrite Hc. cbn [mbind outcome_bind]. destruct (_ =? _); [eexists; split; [done | lia] |].
  destruct IH as (c' & ? & ?); [lia |]. exists c'. split; [done | lia].
Qed.

(** The value of a function that ends, onto the caller's stack. *)
Lemma hand_back P f v r s (Q : () → runtime → machine → Prop) :
  machine_ok s → frame_ok f → is_i64 v → sp s = frame_sp f →
  (frame_sp f = VALUE_STACK_SIZE → P) → (∀ s', machine_ok s' → Q () r s') →
  wp (push v) P good Q r s.
Proof.
  intros Hs Hf Hv Hsp HP HQ. apply wp_push; [done | done | by rewrite Hsp |]. intros vs s' Hs'. auto.
Qed.

Lemma full_return_at f s :
  0 < fp s → call_stack s !! Z.to_nat (fp s) = Some f → frame_sp f = VALUE_STACK_SIZE →
  full_return s = true.
Proof. intros H1 H2 H3. unfold full_return. rewrite H2, H3. by apply Z.ltb_lt in H1 as ->. Qed.

Lemma is_i64_0 : is_i64 0.
Proof. unfold is_i64. lia. Qed.

(** Its value: the top of the stack, or zero. *)
Lemma result_value P f r s (Q : Z → runtime → machine → Prop) :
  machine_ok s → frame_ok f → (∀ v, is_i64 v → Q v r s) →
  wp (if frame_sp f <? sp s then vget (sp s - 1) else mret 0) P good Q r s.
Proof.
  intros Hs (? & ? & ? & ?) HQ. pose proof (ms_sp s Hs). wsteps; [auto |]. apply HQ, is_i64_0.
Qed.

Lemma return_ok : handler_ok 0x0F return_.
Proof.
  whandler. unfold return_. do 5 w1. apply result_value; [done | done |]. intros v Hv.
  destruct (unwind_total s (Z.to_nat (cp s)) Hs) as (c & Hc & Hb); [lia |].
  do 5 w1. eapply wp_run; [exact Hc |]. cbn beta. wsteps.
  eapply hand_back; [ | exact Hf | done | done | | intros s' Hs'; wsteps].
  - destruct (0 <? c) eqn:?; bools; mok.
  - intros Hfull. unfold insn_hazard. rewrite (full_return_at f s); [| cbn in *; lia | done..].
    by destruct (truncated_insn _ _ _).
Qed.

Lemma fall_off_ok P r s :
  good r → machine_ok s → (full_return s = true → P) → wp fall_off P good post r s.
Proof.
  intros Hg Hs HP. pose proof (ms_sp s Hs). pose proof (ms_fp s Hs). unfold fall_off. wsteps.
  all: eapply hand_back; [mok | exact Hf | done || apply is_i64_0 | done | |
    intros s' Hs'; wsteps].
  all: intros Hfull; eapply HP, full_return_at; [lia | done..].
Qed.

Lemma wp_take_args P n k (Q : list Z → runtime → machine → Prop) r s :
  machine_ok s → 0 <= k <= n → n <= sp s →
  (∀ l, zlen l = k → Forall is_i64 l → Q l r s) → wp (take_args n k) P good Q r s.
Proof.
  intros Hs Hk Hn HQ. pose proof (ms_sp s Hs). destruct (ms_values s Hs) as [Hl Hv].
  apply wp_bind, wp_here, wp_bind, wp_here.
  eapply wp_run; [apply aslice_in_range; lia |]. apply HQ.
  - unfold zlen in *. rewrite length_take, length_drop. lia.
  - by apply Forall_take, Forall_drop.
Qed.

Lemma types_at_byte l i : Forall is_byte l → 0 <= types_at l i < 256.
Proof.
  intros Hl. unfold types_at. destruct (l !! Z.to_nat i) as [b |] eqn:E; [| cbn; lia].
  apply (Forall_lookup_1 _ _ _ _ Hl E).
Qed.

Lemma zeros_i64 n : Forall is_i64 (zeros n).
Proof. apply Forall_replicate, is_i64_0. Qed.

Lemma zlen_zeros n : 0 <= n → zlen (zeros n) = n.
Proof. intros. unfold zeros. rewrite zlen_replicate. lia. Qed.

Lemma call_defined_ok P m r idx new_pc s :
  module_ok m → good r → machine_ok s → 0 <= idx → 0 <= new_pc →
  wp (call_defined m idx new_pc) P good post r s.
Proof.
  intros [_ _ _ (_ & Htp & _ & _) _ (Hnf & Hfl & Hft) (Hcl & Hco & _) _] Hg Hs Hi Hpc.
  pose proof (ms_sp s Hs). pose proof (ms_fp s Hs).
  unfold call_defined. wsteps. apply (wp_aget is_byte); [done | lia |]. intros ft Hb.
  pose proof (types_at_byte (type_params m) ft Htp) as Hnp. wsteps.
  { unfold frame_ok. cbn. split_and!; (done || lia). }
  apply (wp_aget (λ o, 0 <= o)); [done | lia |]. intros start Hstart. w1.
  apply wp_take_args; [mok | cbn; unfold MAX_LOCALS; lia | cbn; lia |]. intros args Hlen Hargs.
  wsteps; [| lia].
  unfold frame_ok. cbn. rewrite zlen_app, zlen_zeros by (unfold MAX_LOCALS; lia).
  split_and!; [lia.. |]. apply Forall_app_2; [done | apply zeros_i64].
Qed.

Lemma state_module_ok p k : module_ok (m0 <| mem_ptr := p |> <| mem_pages := k |>).
Proof. destruct Hm0_ok. by split. Qed.

Lemma call_ok : handler_ok 0x10 (call dispatch id).
Proof.
  whandler. unfold call. wsteps; [by apply truncated_one |].
  pose proof Hg as (p & k & bs & h & -> & Hv). apply wp_module_ref. cbn beta.
  change (num_imports (m0 <| mem_ptr := p |> <| mem_pages := k |>)) with (num_imports m0). rewrite Hclosed.
  destruct (_ <? _) eqn:Hlt; bools; [lia |].
  apply call_defined_ok; [apply state_module_ok | done | done | lia | lia].
Qed.

(** ** Memory *)

(** What changes only inside the module's own block. *)
Lemma view_write p k bs h m :
  view p k bs h → (∀ x, x < p ∨ p + k * MEM_PAGE_SIZE <= x → m x = bytes h x) →
  (∀ x, is_byte (m x)) → view p k bs (h <| bytes := m |>).
Proof.
  intros [Hh Hb Hk Hkept Hby Hown Hn He Hf] Hm Hmb. split; cbn; try done.
  - by eapply heap_ok_write.
  - intros x H1 H2. rewrite Hm; [by apply Hf |].
    destruct (decide (p <= x < p + k * MEM_PAGE_SIZE)) as [Hx | Hx]; [| lia].
    by destruct (Hown x Hx).
Qed.

Lemma poke_bytes m a bs x : (∀ y, is_byte (m y)) → Forall is_byte bs → is_byte (poke m a bs x).
Proof.
  intros Hm Hbs. unfold poke. destruct (_ && _); [| done].
  destruct (bs !! _) as [b |] eqn:E; [by apply (Forall_lookup_1 _ _ _ _ Hbs E) |].
  unfold is_byte. cbn. lia.
Qed.

Lemma bytes_at_bytes m a n : (∀ x, is_byte (m x)) → Forall is_byte (bytes_at m a n).
Proof. intros Hm. unfold bytes_at. apply Forall_fmap, Forall_true. intros x. apply Hm. Qed.

Lemma zlen_bytes_at m a n : 0 <= n → zlen (bytes_at m a n) = n.
Proof. intros. unfold bytes_at, zlen. rewrite length_fmap, length_zseq. lia. Qed.

Lemma wp_effective P what addr offset n p k bs h s (Q : Z → runtime → machine → Prop) :
  view p k bs h → 0 <= addr → 0 <= offset →
  (∀ a, p <= a → a + n <= p + k * MEM_PAGE_SIZE → Q a (state p k h) s) →
  wp (effective id what addr offset n) P good Q (state p k h) s.
Proof.
  intros Hv Ha Ho HQ. assert (good (state p k h)) as Hg by (by eexists _, _, _, _).
  unfold effective. apply wp_bind, wp_module_ref. cbn beta zeta.
  w1; [w1 |]. w1; [w1 |]. w1. cbn in *. apply HQ; lia.
Qed.

(** The hazards of an instruction with two immediates. *)
Lemma truncated_fst m s bc at_ op :
  two_lebs op = true → truncated bc (at_ + 1) = true → insn_hazard m s bc at_ op = true.
Proof. intros H1 Ht. unfold insn_hazard, truncated_insn. by rewrite H1, Ht. Qed.

Lemma truncated_snd m s bc at_ op :
  two_lebs op = true → truncated bc (skip_leb128 bc (at_ + 1)) = true →
  insn_hazard m s bc at_ op = true.
Proof. intros H1 Ht. unfold insn_hazard, truncated_insn. rewrite H1, Ht. by rewrite orb_true_r. Qed.

Lemma load_ok op what n conv :
  two_lebs op = true → 0 <= n → (∀ v, 0 <= v < 2 ^ (8 * n) → is_i64 (conv v)) →
  handler_ok op (load id what n conv).
Proof.
  intros Hop Hn Hc. whandler. unfold load.
  wsteps; [by apply truncated_fst | by apply truncated_snd |].
  pose proof Hg as (p & k & bs & h & -> & Hv).
  eapply wp_effective; [done | apply as_u32_bound | lia |]. intros a Ha1 Ha2.
  pose proof (of_le_bytes_bound (bytes_at (bytes h) a n)
    (bytes_at_bytes _ _ _ (vw_bytes _ _ _ _ Hv))) as Hb.
  rewrite zlen_bytes_at in Hb by done. wsteps. by apply Hc.
Qed.

Lemma store_insn_ok op what n : two_lebs op = true → 0 <= n → handler_ok op (store id what n).
Proof.
  intros Hop Hn. whandler. unfold store.
  wsteps; [by apply truncated_fst | by apply truncated_snd |].
  pose proof Hg as (p & k & bs & h & -> & Hv).
  eapply wp_effective; [done | apply as_u32_bound | lia |]. intros a Ha1 Ha2.
  do 3 w1. apply wp_put_runtime. cbn beta. w1. apply post_intro; [| mok | cbn; lia].
  eexists p, k, bs, _. split; [reflexivity |]. apply view_write; [done | |].
  - intros x Hx. apply poke_out. unfold zlen. rewrite length_le_bytes. lia.
  - intros x. apply poke_bytes; [apply Hv | apply le_bytes_bytes].
Qed.

Lemma memory_size_ok op : handler_ok op (memory_size id).
Proof.
  whandler. unfold memory_size. pose proof Hg as (p & k & bs & h & -> & Hv).
  apply wp_bind, wp_module_ref. cbn beta. wsteps. destruct Hv as [_ _ Hk _ _ _ _ _ _].
  unfold is_i64, MAX_MEM_PAGES in *. cbn. lia.
Qed.

Lemma alloc_zeroed_total bs h size :
  heap_ok lo bs h → 0 <= size < 2 ^ 62 →
  ∃ q h', alloc_zeroed h size 16 = Done (q, h') ∧ (q = 0 → h' = h).
Proof.
  intros Hh Hs. destruct (alloc_cases lo bs h size 4 Hh Hs ltac:(lia)) as (al & Hal & _ & Heq).
  unfold alloc_zeroed. change 16 with (2 ^ 4). rewrite Heq.
  destruct (_ <? _); cbn [mbind outcome_bind]; [by eexists _, _ |].
  pose proof (ho_bounds _ _ _ Hh). destruct (_ =? 0) eqn:E; bools; [lia |].
  eexists _, _. split; [reflexivity | lia].
Qed.

Lemma alloc_zeroed_bytes h size align q h' :
  (∀ x, is_byte (bytes h x)) → alloc_zeroed h size align = Done (q, h') → ∀ x, is_byte (bytes h' x).
Proof.
  intros Hb Ha x. unfold alloc_zeroed in Ha. inv_bind. destruct a as [p h1].
  assert (∀ y, is_byte (bytes h1 y)) as H1.
  { clear Ha. unfold alloc in E. case_match; [done |]. case_match; injection E as <- <-; [done |].
    intros y. apply poke_bytes; [intros z; apply poke_bytes |]; (done || apply le_bytes_bytes). }
  case_match; inv_bind; injection Ha as <- <-; [done |]. cbn. unfold fill.
  case_match; [unfold is_byte; lia | done].
Qed.

(** The memory moves to a larger block, with its content. *)
Lemma view_grow p k bs h k' q h1 :
  view p k bs h → k <= k' <= MAX_MEM_PAGES →
  alloc_zeroed h (k' * MEM_PAGE_SIZE) 16 = Done (q, h1) → q ≠ 0 →
  ∃ h2, dealloc (h1 <| bytes := blit (bytes h1) p q (k * MEM_PAGE_SIZE) |>) p (k * MEM_PAGE_SIZE)
          = Done h2 ∧
    view q k' (bs ++ [(q, k' * MEM_PAGE_SIZE)]) h2 ∧
    (∀ i, 0 <= i < k * MEM_PAGE_SIZE → bytes h2 (q + i) = bytes h (p + i)).
Proof.
  intros Hv Hk Ha Hq. destruct Hv as [Hh Hb Hkp Hkept Hby Hown Hn He Hf].
  pose proof (alloc_zeroed_bytes _ _ _ _ _ Hby Ha) as Hby1.
  destruct (alloc_zeroed_ok lo bs h (k' * MEM_PAGE_SIZE) 4 q h1) as
    (Hh1 & Hq1 & _ & Hn1 & He1 & _ & Hf1); [done | unfold MAX_MEM_PAGES, MEM_PAGE_SIZE in *; lia |
      lia | done | done |].
  pose proof (ho_bounds _ _ _ Hh1) as Hbd. destruct (ho_block _ _ _ Hh _ _ Hb) as (? & ? & ? & _).
  set (m := blit (bytes h1) p q (k * MEM_PAGE_SIZE)).
  assert (heap_ok lo (bs ++ [(q, k' * MEM_PAGE_SIZE)]) (h1 <| bytes := m |>)) as Hh2.
  { apply (heap_ok_write _ _ _ q (k' * MEM_PAGE_SIZE)); [done | set_solver |]. intros x Hx. apply blit_out.
    unfold MEM_PAGE_SIZE in *. lia. }
  eexists. split_and!; [apply (dealloc_ok lo _ _ p _ Hh2); set_solver | |].
  - split; cbn.
    + destruct Hh2 as [? ? ?]. by split.
    + set_solver.
    + unfold MAX_MEM_PAGES in *. lia.
    + set_solver.
    + intros x. unfold m, blit. by case_match.
    + intros x Hx. right. unfold fresh. lia.
    + unfold MEM_PAGE_SIZE in *. lia.
    + lia.
    + intros x Hmine Hfresh. assert (x < Heap.next (bump (rheap r0)) ∨ end_ (bump (rheap r0)) <= x) as Hx.
      { unfold fresh in Hfresh. lia. }
      unfold m. rewrite blit_out, Hf1, Hf by (done || unfold MEM_PAGE_SIZE in *; lia). done.
  - intros i Hi. cbn. unfold m. rewrite blit_in by lia.
    replace (p + (q + i - q)) with (p + i) by lia. apply Hf1. lia.
Qed.

Lemma state_update p k h p' k' h' :
  set_module (set_heap (state p k h) h') id
    (m0 <| mem_ptr := p |> <| mem_pages := k |> <| mem_ptr := p' |> <| mem_pages := k' |>) =
  Done (state p' k' h').
Proof.
  unfold set_module. rewrite aset_in_range.
  - cbn. unfold state, set_heap. cbn. by rewrite list_insert_insert_eq.
  - cbn. rewrite zlen_insert. split; [done |]. apply lookup_lt_Some in Hm0. unfold zlen. lia.
Qed.

Lemma pages_i64 k : 0 <= k <= MAX_MEM_PAGES → is_i64 k.
Proof. unfold is_i64, MAX_MEM_PAGES. lia. Qed.

Lemma wp_push_room P v (Q : () → runtime → machine → Prop) r s :
  machine_ok s → is_i64 v → sp s < VALUE_STACK_SIZE → (∀ s', machine_ok s' → Q () r s') →
  wp (push v) P good Q r s.
Proof. intros Hs Hv Hsp HQ. apply wp_push; [done | done | lia |]. auto. Qed.

Lemma grow_by_ok P p k bs h k' s :
  view p k bs h → machine_ok s → sp s < VALUE_STACK_SIZE → 0 <= k' <= MAX_MEM_PAGES →
  (k' < k → P) →
  wp (grow_by id (m0 <| mem_ptr := p |> <| mem_pages := k |>) k') P good
    (λ _ r' s', good r' ∧ machine_ok s') (state p k h) s.
Proof.
  intros Hv Hs Hsp Hk HP. pose proof Hv as [Hh Hb Hkp _ _ _ _ _ _].
  assert (good (state p k h)) as Hg by (by eexists _, _, _, _).
  destruct (ho_block _ _ _ Hh _ _ Hb) as (? & ? & ? & _). pose proof (ho_bounds _ _ _ Hh).
  unfold grow_by. rewrite (wrap_small 64)
    by (unfold fits, MAX_MEM_PAGES, MEM_PAGE_SIZE in *; lia).
  destruct (layout_ok (k' * _)) eqn:E; cbn [negb].
  2: { unfold layout_ok, MAX_MEM_PAGES, MEM_PAGE_SIZE in *. bools. lia. }
  destruct (alloc_zeroed_total bs h (k' * MEM_PAGE_SIZE) Hh) as (q & h1 & Ha & Hnull);
    [unfold MAX_MEM_PAGES, MEM_PAGE_SIZE in *; lia |].
  do 3 w1. eapply wp_run; [exact Ha |]. cbn beta iota. destruct (q =? 0) eqn:Eq; bools.
  - w1. apply wp_put_runtime. rewrite (Hnull Eq). w1.
    apply wp_push_room; [done | unfold is_i64; lia | done |]. intros s' Hs'. by apply wp_ret.
  - cbn [mem_ptr mem_pages set_field]. w1.
    { exfalso. unfold layout_ok, MAX_MEM_PAGES, MEM_PAGE_SIZE in *. bools. lia. }
    w1. unfold move_memory. cbn [mem_ptr mem_pages set_field].
    destruct (p =? 0) eqn:Ep; bools; [lia |]. destruct (_ <? _) eqn:El; bools.
    { apply wp_panic, HP. unfold MEM_PAGE_SIZE in *. lia. }
    destruct (view_grow p k bs h k' q h1 Hv) as (h2 & Hd & Hv2 & _);
      [unfold MEM_PAGE_SIZE in *; lia | done | done |].
    eapply wp_run; [exact Hd |]. w1. eapply wp_run; [apply (state_update p k h) |].
    w1. apply wp_put_runtime. w1.
    apply wp_push_room; [done | apply pages_i64; lia | done |]. intros s' Hs'.
    apply wp_ret. split; [| done]. by eexists _, _, _, _.
Qed.

Lemma memory_grow_ok : handler_ok 0x40 (memory_grow id).
Proof.
  whandler. pose proof Hg as (p & k & bs & h & -> & Hv). pose proof (vw_pages _ _ _ _ Hv).
  rewrite state_module in Hm. injection Hm as <-.
  unfold memory_grow. wsteps. rename H4 into Hv1. apply wp_module_ref. cbn beta zeta. cbn [mem_pages mem_max_pages mem_ptr set_field].
  assert (∀ x, is_i64 x → wp (_ ← push x; mret (Jump (at_ + 2)))
    (insn_hazard (m0 <| mem_ptr := p |> <| mem_pages := k |>) s bc at_ 64 = true) good post
    (state p k h) (s <| sp := sp s - 1 |>)) as Hpush.
  { intros x Hx. w1. apply wp_push_room; [mok | done | range |]. intros s' Hs'. wsteps. }
  w1; [by apply Hpush, pages_i64; lia |]. w1; [| apply Hpush; unfold is_i64; lia].
  w1. eapply wp_mono, grow_by_ok; [| done | mok | range | |].
  - intros b r' s' [Hg' Hs']. cbn beta. destruct b; wsteps.
  - pose proof (wrap_bound 64 (k + u64 v) ltac:(lia)). rewrite Hmax in *. lia.
  - intros Hlt. unfold insn_hazard, grow_wraps. rewrite Hv1. cbn [mem_pages set_field].
    apply Z.ltb_lt in Hlt as ->. rewrite (proj2 (Z.ltb_lt 0 (sp s))) by lia.
    by destruct (truncated_insn _ _ _).
Qed.

(** ** Every instruction *)

Lemma signed_i64 w v : 0 < w <= 64 → is_i64 (to_signed w v).
Proof.
  intros Hw. pose proof (to_signed_bound w v ltac:(lia)).
  pose proof (Z.pow_le_mono_r 2 (w - 1) 63 ltac:(lia) ltac:(lia)). unfold is_i64. lia.
Qed.

(** An entry of the table, by the shape of its handler. *)
Ltac entry_ok :=
  lazymatch goal with
  | |- handler_ok _ unreachable => apply unreachable_ok
  | |- handler_ok _ nop => apply nop_ok
  | |- handler_ok _ block => apply block_ok
  | |- handler_ok _ loop => apply loop_ok
  | |- handler_ok _ if_ => apply if_ok
  | |- handler_ok _ else_ => apply else_ok
  | |- handler_ok _ end_block => apply end_block_ok
  | |- handler_ok _ br => apply br_ok
  | |- handler_ok _ br_if => apply br_if_ok
  | |- handler_ok _ return_ => apply return_ok
  | |- handler_ok _ (call _ _) => apply call_ok
  | |- handler_ok _ select => apply select_ok
  | |- handler_ok _ local_get => apply local_get_ok
  | |- handler_ok _ local_set => apply local_set_ok
  | |- handler_ok _ local_tee => apply local_tee_ok
  | |- handler_ok _ i32_const => apply i32_const_ok
  | |- handler_ok _ i64_const => apply i64_const_ok
  | |- handler_ok _ (memory_size _) => apply memory_size_ok
  | |- handler_ok _ (memory_grow _) => apply memory_grow_ok
  | |- handler_ok _ (unop _ _) => apply unop_ok; intros ?;
      first [apply i32_in_range, as_i32_bound | apply u32_in_range, as_u32_bound | case_match; lia]
  | |- handler_ok _ (binop _ _) => apply binop_ok; num
  | |- handler_ok _ (load _ _ _ _) => apply load_ok; [done | lia |]; intros ? ?;
      first [apply signed_i64; lia | unfold is_i64; lia]
  | |- handler_ok _ (store _ _ _) => apply store_insn_ok; [done | lia]
  | |- handler_ok _ (?h _) => unfold h; entry_ok
  | |- handler_ok _ ?h => unfold h; entry_ok
  end.

Lemma opcodes_ok : Forall (λ x, handler_ok x.1 x.2) (opcodes dispatch id).
Proof.
  unfold opcodes. repeat (apply Forall_cons; split; [cbn [fst snd]; entry_ok |]).
  apply Forall_nil_2.
Qed.

(** ** The loop *)

Lemma instruction_ok op : handler_ok op (instruction dispatch id op).
Proof.
  unfold instruction. destruct (List.find _ _) as [[o h] |] eqn:E.
  - apply find_some in E as [Hin Heq]. cbn in Heq. bools. subst o.
    pose proof opcodes_ok as Hall. rewrite Forall_forall in Hall.
    by apply (Hall (op, h)), list_elem_of_In.
  - intros r s m bc at_ Hg _ _ _. by apply wp_fail.
Qed.

Lemma step_ok r s :
  good r → machine_ok s → wp (step dispatch id) (hazard id r s = true) good post r s.
Proof.
  intros Hg Hs. unfold step. wsteps. pose proof Hg as (p & k & bs & h & -> & Hv).
  apply wp_module_ref. cbn beta. w1.
  destruct Hm0_ok as [[Hlen _] Hbc _ _ _ _ _ _].
  eapply wp_run; [apply aslice_in_range; cbn; lia |]. cbn beta.
  unfold hazard. rewrite state_module. rewrite H. cbn [bytecode bc_len set_field].
  rewrite Z.sub_0_r, drop_0. set (bc := take _ _). w1.
  - rewrite lookup_ge_None_2 by (unfold zlen in *; lia). by apply fall_off_ok.
  - w1. destruct (aget_in_range bc (pc f)) as [op Hop]; [lia |].
    eapply wp_run; [exact Hop |]. apply aget_lookup in Hop as [_ Hop]. rewrite Hop.
    by apply instruction_ok; [| | apply state_module |].
Qed.

(** The states at the start of the cycles of a run. *)
Inductive reaches (r : runtime) (s : machine) : runtime → machine → Prop :=
| reach_start : reaches r s r s
| reach_again r1 s1 r2 s2 :
    reaches r s r1 s1 → step dispatch id r1 s1 = Done (Ok Again, r2, s2) → reaches r s r2 s2
| reach_jump r1 s1 p r2 s2 r3 s3 :
    reaches r s r1 s1 → step dispatch id r1 s1 = Done (Ok (Jump p), r2, s2) →
    goto p r2 s2 = Done (Ok (), r3, s3) →
    reaches r s r3 s3.

Lemma goto_run p r s :
  machine_ok s → 0 <= p → ∃ s', goto p r s = Done (Ok (), r, s') ∧ machine_ok s'.
Proof.
  intros Hs Hp.
  assert (wp (goto p) False (λ _, False) (λ _ r' s', r' = r ∧ machine_ok s') r s) as Hwp.
  { unfold goto. wsteps; [| done]. unfold frame_ok. cbn. split_and!; (done || lia). }
  unfold wp in Hwp. destruct (goto p r s) as [[[[[] | e] r1] s1] | | |]; try done.
  destruct Hwp as [-> ?]. eauto.
Qed.

Lemma exec_loop_ok rS sS n : ∀ r s,
  reaches rS sS r s → good r → machine_ok s →
  wp (exec_loop dispatch id n) (∃ r' s', reaches rS sS r' s' ∧ hazard id r' s' = true) good
    (λ _ r' s', good r' ∧ machine_ok s') r s.
Proof.
  induction n as [| n IH]; intros r s Hr Hg Hs; cbn [exec_loop]; [by apply wp_fail |].
  pose proof (step_ok r s Hg Hs) as Hstep. apply wp_bind. unfold wp at 1. unfold wp in Hstep.
  destruct (step dispatch id r s) as [[[[x | e] r1] s1] | | |] eqn:E; [| done.. | by eauto | done | done].
  destruct Hstep as (Hg1 & Hs1 & Hx). destruct x as [p | |].
  - destruct (goto_run p r1 s1 Hs1 Hx) as (s2 & Hgo & Hs2). apply wp_bind. unfold wp at 1.
    rewrite Hgo. apply IH; [by eapply reach_jump | done | done].
  - by apply wp_ret.
  - apply IH; [| done | done]. by eapply reach_again.
Qed.

(** ** From the call to its result *)

Lemma replicate_ok {A} (R : A → Prop) n x : R x → Forall R (replicate n x).
Proof. intros. by apply Forall_replicate. Qed.

Lemma start_machine_ok def nparams start args :
  0 <= start → zlen args <= VALUE_STACK_SIZE → Forall is_i64 args →
  machine_ok (start_machine def nparams start args).
Proof.
  intros Hst Hl Ha. unfold VALUE_STACK_SIZE in *. pose proof (zlen_nonneg args).
  assert (∀ n, zlen (take (Z.to_nat (Z.min n MAX_LOCALS)) args) <= MAX_LOCALS) as Htake.
  { intros n. unfold zlen, MAX_LOCALS. rewrite length_take. lia. }
  split; cbn [value_stack sp call_stack fp ctrl_stack cp start_machine].
  - rewrite zlen_app, zlen_zeros by (unfold VALUE_STACK_SIZE; lia).
    split; [unfold VALUE_STACK_SIZE; lia | by apply Forall_app_2, zeros_i64].
  - unfold VALUE_STACK_SIZE. lia.
  - split; [done |]. apply Forall_cons. split.
    + unfold frame_ok, VALUE_STACK_SIZE. cbn [pc frame_sp locals]. rewrite zlen_app, zlen_zeros by (specialize (Htake nparams); lia).
      split_and!; [lia.. |]. apply Forall_app_2; [by apply Forall_take | apply zeros_i64].
    + apply replicate_ok. unfold frame_ok, VALUE_STACK_SIZE. cbn [pc frame_sp locals].
      split_and!; [lia.. | done | apply zeros_i64].
  - unfold CALL_STACK_SIZE. lia.
  - split; [done |]. apply Forall_cons. split; [| apply replicate_ok];
      unfold ctrl_ok, VALUE_STACK_SIZE; cbn; lia.
  - unfold CALL_STACK_SIZE. lia.
Qed.

(** A run ends with a result or an error and with the invariant, or it panics
    in a state it has reached that is a hazard. *)
Lemma run_machine_ok s :
  good r0 → machine_ok s → id < zlen (perf_stats r0) →
  match run_machine dispatch id r0 s with
  | Done (_, r') => ∃ r1 ps, good r1 ∧ r' = r1 <| perf_stats := ps |> ∧
                      zlen ps = zlen (perf_stats r0)
  | Panic => ∃ r' s', reaches r0 s r' s' ∧ hazard id r' s' = true
  | _ => False
  end.
Proof.
  intros Hg Hs Hp. unfold run_machine. generalize (Z.to_nat CYCLE_BUDGET) as budget. intros budget.
  pose proof (exec_loop_ok r0 s budget r0 s (reach_start r0 s) Hg Hs) as Hw.
  unfold wp in Hw.
  destruct (exec_loop dispatch id budget r0 s) as [[[[k | e] r1] s1] | | |]; cbn [mbind outcome_bind];
    [| | done..].
  - destruct Hw as [Hg1 Hs1]. pose proof Hg1 as (p & n & bs & h & -> & Hv).
    change (perf_stats (state p n h)) with (perf_stats r0).
    destruct (aget_in_range (perf_stats r0) id) as [st Hst]; [lia |]. rewrite Hst.
    cbn [mbind outcome_bind]. unfold set_perf.
    change (perf_stats (state p n h)) with (perf_stats r0). rewrite aset_in_range by lia.
    cbn [mbind outcome_bind].
    assert (∃ v, (if 0 <? sp s1 then aget (value_stack s1) (sp s1 - 1) else Done 0) = Done v) as
      [v Hvv].
    { destruct (0 <? sp s1) eqn:Esp; bools; [| by eexists].
      apply aget_in_range. destruct (ms_values s1 Hs1), (ms_sp s1 Hs1). lia. }
    rewrite Hvv. cbn [mbind outcome_bind]. eexists _, _. split_and!; [done | done |].
    by rewrite zlen_insert.
  - exists r1, (perf_stats r1). split_and!; [done | by destruct r1 |].
    by destruct Hw as (? & ? & ? & ? & -> & ?).
Qed.

End run.

(** ** The invariant of the runtime *)

Record runtime_ok (lo : Z) (bs : list (Z * Z)) (r : runtime) : Prop := {
  ro_len : zlen (modules r) = MAX_WASM_MODULES;
  ro_modules : Forall module_ok (modules r);
  ro_count : 0 <= wasm_count r <= MAX_WASM_MODULES;
  ro_perf : zlen (perf_stats r) = MAX_WASM_MODULES;
  ro_heap : heap_ok lo bs (rheap r);
  ro_bytes x : is_byte (bytes (rheap r) x);
  ro_memory i m : modules r !! i = Some m → loaded m = true →
    mem_max_pages m = MAX_MEM_PAGES ∧ 1 <= mem_pages m <= MAX_MEM_PAGES ∧
    (mem_ptr m, mem_pages m * MEM_PAGE_SIZE) ∈ bs;
  ro_apart i j m n : modules r !! i = Some m → modules r !! j = Some n →
    loaded m = true → loaded n = true → i ≠ j → mem_ptr m ≠ mem_ptr n;
  ro_unused i m : modules r !! i = Some m → wasm_count r <= Z.of_nat i → loaded m = false;
}.

Lemma is_loaded_Some r id m :
  is_loaded r id = Some m →
  0 <= id < MAX_WASM_MODULES ∧ modules r !! Z.to_nat id = Some m ∧ loaded m = true.
Proof.
  unfold is_loaded. intros H. case_match; [done |]. bools.
  apply bind_Some in H as (x & Hx & H). case_match; [| done]. by injection H as <-.
Qed.

Lemma export_loop_name_total ename wanted :
  last ename = Some 0 → ∃ b, export_loop_name ename wanted = Done b.
Proof.
  revert wanted. induction ename as [| d ename IH]; intros wanted Hl; [done |].
  destruct wanted as [| c wanted]; cbn [export_loop_name]; [by eexists |].
  destruct (d =? c) eqn:E; cbn [negb]; [| by eexists]. bools. subst d.
  destruct (c =? 0) eqn:Ec; [by eexists |]. bools. apply IH.
  destruct ename; [cbn in Hl; congruence | done].
Qed.

Lemma export_matches_total ename wanted :
  zlen ename = 32 → ename !! 31%nat = Some 0 → ∃ b, export_matches ename wanted = Done b.
Proof.
  intros Hl H0. destruct (export_loop_name_total ename wanted) as [b Hb].
  { rewrite last_lookup. replace (length ename) with 32%nat by (unfold zlen in Hl; lia). done. }
  unfold export_matches. rewrite Hb. cbn [mbind outcome_bind].
  destruct (b && _) eqn:E; [| by eexists]. bools.
  destruct (aget_in_range ename (zlen wanted)) as [c Hc]; [pose proof (zlen_nonneg wanted); lia |].
  rewrite Hc. by eexists.
Qed.

Lemma find_export_total m wanted :
  module_ok m → ∃ o, find_export m wanted = Done o ∧ (∀ f, o = Some f → 0 <= f).
Proof.
  intros [_ _ _ _ _ _ _ (Hn & Hnl & Hnames & Hfl & Hfs)]. unfold find_export.
  assert (∀ n i, 0 <= i → i + Z.of_nat n <= MAX_EXPORTS →
    ∃ o, find_export_loop n m wanted i = Done o ∧ (∀ f, o = Some f → 0 <= f)) as Hloop.
  { induction n as [| n IH]; intros i Hi Hb; cbn [find_export_loop]; [by eexists |].
    destruct (Forall_aget _ _ i Hnames) as (e & He & Hel & He0); [lia |]. rewrite He.
    cbn [mbind outcome_bind]. destruct (export_matches_total e wanted Hel He0) as [b ->].
    cbn [mbind outcome_bind]. destruct b; [| apply IH; lia].
    destruct (Forall_aget _ _ i Hfs) as (f & Hf & Hfb); [lia |]. rewrite Hf.
    eexists. split; [done |]. intros ? [= <-]. apply Hfb. }
  apply Hloop; lia.
Qed.

Lemma good_start lo bs r id m :
  runtime_ok lo bs r → is_loaded r id = Some m → good id r m lo bs r.
Proof.
  intros Hr (Hid & Hm & Hl)%is_loaded_Some.
  destruct (ro_memory _ _ _ Hr _ _ Hm Hl) as (? & ? & ?).
  exists (mem_ptr m), (mem_pages m), bs, (rheap r). split.
  - unfold state, set_heap. replace (m <| mem_ptr := _ |> <| mem_pages := _ |>) with m
      by (by destruct m). rewrite list_insert_id by done. by destruct r as [? ? ? ? ? []].
  - split; try done; [apply Hr | apply Hr | by left].
Qed.

Lemma good_runtime_ok lo bs r id m r1 ps :
  runtime_ok lo bs r → is_loaded r id = Some m → good id r m lo bs r1 →
  zlen ps = MAX_WASM_MODULES → ∃ bs', runtime_ok lo bs' (r1 <| perf_stats := ps |>).
Proof.
  intros Hr Hid (p & k & bs' & h & -> & Hv) Hps.
  apply is_loaded_Some in Hid as (Hid & Hm & Hl).
  pose proof (lookup_lt_Some _ _ _ Hm) as Hlt.
  destruct (ro_memory _ _ _ Hr _ _ Hm Hl) as (Hmax & Hpg & Hin).
  assert (Forall module_ok (modules r)) as Hok by apply Hr.
  assert (∀ j n, modules r !! j = Some n → loaded n = true → j ≠ Z.to_nat id → p ≠ mem_ptr n) as Hne.
  { intros j n Hj Hln Hji ->. destruct (ro_memory _ _ _ Hr _ _ Hj Hln) as (_ & ? & Hjn).
    destruct (ho_block _ _ _ (ro_heap _ _ _ Hr) _ _ Hjn) as (_ & _ & ? & _).
    pose proof (vw_pages _ _ _ _ _ _ _ _ Hv).
    destruct (vw_own _ _ _ _ _ _ _ _ Hv (mem_ptr n)) as [Hmine | Hfresh];
      [unfold MEM_PAGE_SIZE; lia | |].
    - destruct (allocs_apart _ _ _ _ _ _ _ (ro_heap _ _ _ Hr) Hin Hjn) as [[= Heq _] | Hap].
      + by apply (ro_apart _ _ _ Hr _ _ _ _ Hj Hm Hln Hl Hji).
      + unfold mine, MEM_PAGE_SIZE in *. lia.
    - unfold fresh, MEM_PAGE_SIZE in *. lia. }
  exists bs'. destruct Hr as [Hlen _ Hcount _ _ _ Hmem Hapart Hunused].
  split; cbn [state set_heap modules wasm_count perf_stats kworld kheap rheap set_field].
  - by rewrite zlen_insert.
  - apply Forall_insert; [done |].
    destruct (Forall_lookup_1 _ _ _ _ Hok Hm) as [? ? ? ? ? ? ? ?]. by split.
  - done.
  - done.
  - apply Hv.
  - apply Hv.
  - intros i n [(<- & <- & _) | [Hi Hn]]%list_lookup_insert_Some Hln.
    + cbn. split_and!; [done | apply Hv.. ].
    + destruct (Hmem i n Hn Hln) as (? & ? & ?). split_and!; [done | lia | lia |].
      by apply (vw_kept _ _ _ _ _ _ _ _ Hv).
  - intros i j a b [(<- & <- & _) | [Hi Ha]]%list_lookup_insert_Some
      [(<- & <- & _) | [Hj Hb]]%list_lookup_insert_Some Hla Hlb Hij; [done | | |].
    + cbn. by apply (Hne j b).
    + cbn. intros Heq. by apply (Hne i a).
    + by apply (Hapart i j a b).
  - intros i n [(<- & <- & _) | [Hi Hn]]%list_lookup_insert_Some Hc.
    + by rewrite (Hunused _ _ Hm Hc) in Hl.
    + by apply (Hunused i n).
Qed.

(** A run that ends, with what it leaves, or the hazard it panics at. *)
Lemma execute_ok dispatch lo bs r id m fname args :
  runtime_ok lo bs r → is_loaded r id = Some m → num_imports m = 0 → Forall is_i64 args →
  match wasm_execute dispatch id r fname args with
  | Done (_, r') =>
      (∃ bs', runtime_ok lo bs' r') ∧
      (∀ x, ¬ mine m x → ¬ fresh r x → bytes (rheap r') x = bytes (rheap r) x) ∧
      (∀ j, j ≠ Z.to_nat id → modules r' !! j = modules r !! j)
  | Panic => ∃ def nparams start r' s',
      reaches dispatch id r (start_machine def nparams start args) r' s' ∧ hazard id r' s' = true
  | _ => False
  end.
Proof.
  intros Hr Hid Hclosed Hargs. pose proof Hid as (Hrange & Hm & Hl)%is_loaded_Some.
  assert ((∃ bs', runtime_ok lo bs' r) ∧
    (∀ x, ¬ mine m x → ¬ fresh r x → bytes (rheap r) x = bytes (rheap r) x) ∧
    (∀ j, j ≠ Z.to_nat id → modules r !! j = modules r !! j)) as Hsame by eauto.
  assert (module_ok m) as Hok by (eapply Forall_lookup_1; [apply Hr | done]).
  destruct (ro_memory _ _ _ Hr _ _ Hm Hl) as (Hmax & _ & _).
  unfold wasm_execute. rewrite Hid.
  destruct (find_export_total m fname Hok) as (o & Ho & Hpos). rewrite Ho. cbn [mbind outcome_bind].
  destruct o as [idx |]; [| done]. specialize (Hpos idx eq_refl). rewrite Hclosed.
  destruct (idx <? 0) eqn:E1; [done |]. destruct (_ <=? _) eqn:E2; [done |].
  destruct (VALUE_STACK_SIZE <? zlen args) eqn:E3; [done |]. bools.
  pose proof Hok as [_ _ _ _ _ (Hnf & Hfl & Hft) (Hcl & Hco & _) _].
  destruct (Forall_aget _ _ (idx - 0) Hft) as (ti & Hti & _); [lia |].
  destruct (Forall_aget _ _ (idx - 0) Hco) as (start & Hst & Hst0); [lia |].
  rewrite Hti, Hst. cbn [mbind outcome_bind].
  pose proof (run_machine_ok dispatch id r m lo bs ltac:(lia) Hm Hok Hclosed Hmax
    (start_machine (idx - 0) (types_at (type_params m) ti) start args)
    (good_start lo bs r id m Hr Hid) (start_machine_ok _ _ _ _ Hst0 E3 Hargs)) as Hrun.
  rewrite (ro_perf _ _ _ Hr) in Hrun. specialize (Hrun ltac:(lia)).
  destruct (run_machine _ _ _ _) as [[res r'] | | |]; [| by eauto 10 | done..].
  destruct Hrun as (r1 & ps & Hg & -> & Hps). split_and!.
  - by eapply good_runtime_ok.
  - intros x H1 H2. destruct Hg as (p & k & bs' & h & -> & Hv). by apply (vw_frame _ _ _ _ _ _ _ _ Hv).
  - intros j Hj. destruct Hg as (p & k & bs' & h & -> & Hv). cbn. by apply list_lookup_insert_ne.
Qed.

End WasmSafe.
