(* ===== verification/WasmTable.v ===== *)
(** * The table of WASM modules

    Loading, unloading, reloading and the memory interface of
    kernel/src/wasm/mod.rs, over the invariant of WasmSafe.v: every sequence of
    calls keeps it, so that the linear memories of loaded modules are separate
    blocks of the heap ([reachable_memories_apart]), and a run of a module without
    imports is confined to its own ([wasm_execute_confined]) and keeps its stacks
    well typed ([step_well_typed]).  The reads and writes from
    outside are characterised on every input, with the offsets that make them
    panic ([memory_read_exact]); a file whose zero padding has an odd length
    makes the section parser panic ([odd_padding_panics]); a module that has
    grown its memory stops the hart when it is unloaded ([unload_exact]). *)
From Stdlib Require Import String.
From S2P Require Import Prelude Heap Hostcall Wasm Interp WasmSafe.
Import Heap Wasm Interp WasmSafe.

Module WasmTable.

(** ** Parsing *)

(** Returns into [R] or panics. *)
Definition may {A} (R : A → Prop) (o : outcome A) : Prop :=
  match o with Done a => R a | Panic => True | _ => False end.

Lemma may_bind {A B} (R : A → Prop) (S : B → Prop) (o : outcome A) (f : A → outcome B) :
  may R o → (∀ a, R a → may S (f a)) → may S (o ≫= f).
Proof. destruct o; cbn; auto. Qed.

Lemma may_mono {A} (R S : A → Prop) (o : outcome A) : (∀ a, R a → S a) → may R o → may S o.
Proof. destruct o; cbn; auto. Qed.

Lemma may_aget {A} (l : list A) i : may (λ x, 0 <= i < zlen l ∧ l !! Z.to_nat i = Some x) (aget l i).
Proof.
  destruct (aget l i) eqn:E; cbn; try done.
  - split; [by eapply aget_done_range | by apply aget_lookup in E as [_ ?]].
  - unfold aget in E. by repeat case_match.
  - unfold aget in E. by repeat case_match.
Qed.

Lemma may_aset {A} (l : list A) i x : may (λ l', 0 <= i < zlen l ∧ l' = <[Z.to_nat i := x]> l) (aset l i x).
Proof.
  destruct (aset l i x) eqn:E; cbn; [by apply aset_done in E | done | unfold aset in E; by case_match..].
Qed.

Lemma may_leb bc at_ : 0 <= at_ →
  may (λ '(v, at'), 0 <= v < 2 ^ 32 ∧ at_ < at' <= zlen bc) (leb128_u bc at_).
Proof.
  intros Hat. pose proof (leb128_u_cases bc at_ Hat) as Hc. destruct (truncated bc at_).
  - by rewrite Hc.
  - destruct Hc as (v & -> & ? & ?). done.
Qed.

(** What parsing leaves alone. *)
Definition same_slot (m m' : WasmModule) : Prop :=
  name m' = name m ∧ pid m' = pid m ∧ bytecode m' = bytecode m ∧ bc_len m' = bc_len m ∧
  loaded m' = loaded m ∧ mem_ptr m' = mem_ptr m ∧ mem_pages m' = mem_pages m ∧
  mem_max_pages m' = mem_max_pages m.

Definition parsed (m : WasmModule) (m' : WasmModule) : Prop := module_ok m' ∧ same_slot m m'.
Definition parsed_to (m : WasmModule) (x : WasmModule * Z) : Prop := parsed m x.1 ∧ 0 <= x.2.

Lemma parsed_trans m m1 m2 : parsed m m1 → parsed m1 m2 → parsed m m2.
Proof.
  intros [_ H1] [Hok H2]. split; [done |]. unfold same_slot in *. destruct_and!. split_and!; congruence.
Qed.

Lemma as_u8_byte v : is_byte (as_u8 v).
Proof. by apply (wrap_bound 8). Qed.

Lemma insert_bytes l (i : nat) v : Forall is_byte l → Forall is_byte (<[i := as_u8 v]> l).
Proof. intros. apply Forall_insert; [done | apply as_u8_byte]. Qed.

Lemma parsed_step m m1 (o : outcome WasmModule) :
  parsed m m1 → (module_ok m1 → may (parsed m1) o) → may (parsed m) o.
Proof.
  intros H1 Ho. eapply may_mono; [| apply Ho, H1]. intros m2. by apply parsed_trans.
Qed.

Ltac fields := split_and!; first [done | lia | by apply insert_bytes].

Lemma type_loop_ok bc e n : ∀ m off count,
  module_ok m → 0 <= off → 0 <= count → may (parsed m) (type_loop n bc e m off count).
Proof.
  induction n as [| n IH]; intros m off count Hm Ho Hc; cbn [type_loop].
  - cbn. destruct Hm. by split.
  - case_match; [cbn; destruct Hm; by split |].
    eapply may_bind; [apply may_aget |]. intros ft Hft. cbn beta.
    case_match; [cbn; destruct Hm; by split |].
    eapply may_bind; [apply may_leb; lia |]. intros [np off1] [? ?]. cbn beta iota.
    eapply may_bind; [apply may_aset |]. intros ps [? ->]. cbn beta zeta.
    pose proof (as_u8_byte np).
    eapply may_bind; [apply may_leb; unfold is_byte in *; lia |]. intros [nr off2] [? ?]. cbn beta iota.
    eapply may_bind; [apply may_aset |]. intros rs [? ->]. cbn beta zeta.
    pose proof (as_u8_byte nr).
    eapply parsed_step; [| intros Hm1; apply IH; [done | unfold is_byte in *; lia | lia]].
    destruct Hm as [? ? ? (? & ? & ? & ?) ? ? ? ?]. split; [| done]. split; try done.
    cbn. rewrite !zlen_insert. fields.
Qed.

(** A name of the tables keeps its length and its last zero. *)
Lemma set_name_32 dst src :
  zlen dst = 32 → dst !! 31%nat = Some 0 →
  zlen (set_name dst src) = 32 ∧ set_name dst src !! 31%nat = Some 0.
Proof.
  unfold zlen, set_name. intros Hd H0. set (n := (length src `min` 31)%nat).
  assert (length (take n src) = n) as Hl by (rewrite length_take; lia). split.
  - rewrite length_app. cbn. rewrite length_drop. lia.
  - destruct (decide (n = 31%nat)) as [Hn | Hn].
    + rewrite lookup_app_r by lia. replace (31 - length _)%nat with 0%nat by lia. done.
    + rewrite lookup_app_r by lia. replace (31 - length _)%nat with (S (30 - n)) by lia.
      transitivity (drop (S n) dst !! (30 - n)%nat); [done |]. rewrite lookup_drop. replace (S n + (30 - n))%nat with 31%nat by lia. done.
Qed.

Lemma may_read_name bc dst start len :
  0 <= start → 0 <= len → may (λ l, ∃ src, l = set_name dst src) (read_name bc dst start len).
Proof.
  intros Hs Hl. unfold read_name. case_match; [by exists [] |].
  unfold aslice. case_match; cbn; eauto.
Qed.

Lemma import_entry_ok bc m off count :
  module_ok m → 0 <= off → may (parsed_to m) (import_entry bc m off count).
Proof.
  intros Hm Ho. unfold import_entry.
  eapply may_bind; [by apply may_leb |]. intros [ml off1] [? ?]. cbn beta iota.
  eapply may_bind; [apply may_leb; lia |]. intros [fl off2] [? ?]. cbn beta iota.
  eapply may_bind; [apply may_aget |]. intros old [? Hold]. cbn beta.
  eapply may_bind; [apply may_read_name; lia |]. intros new [src ->]. cbn beta.
  eapply may_bind; [apply may_aset |]. intros names [? ->]. cbn beta zeta.
  eapply may_bind; [apply may_aget |]. intros kd Hk. cbn beta.
  destruct Hm as [? ? ? ? (? & ? & ? & ?) ? ? ?]. case_match.
  - eapply may_bind; [apply may_leb; lia |]. intros [ti off3] [? ?]. cbn beta iota.
    eapply may_bind; [apply may_aset |]. intros ts [? ->]. cbn beta. cbn.
    split; cbn; [| lia]. split; [| done]. split; try done. cbn. rewrite !zlen_insert.
    fields.
  - split; cbn; [| lia]. split; [| done]. split; try done. cbn. rewrite zlen_insert. fields.
Qed.

Lemma import_loop_ok bc e n : ∀ m off count,
  module_ok m → 0 <= off → 0 <= count → count + Z.of_nat n <= MAX_IMPORTS →
  may (parsed m) (import_loop n bc e m off count).
Proof.
  induction n as [| n IH]; intros m off count Hm Ho Hc Hn; cbn [import_loop].
  - cbn. destruct Hm as [? ? ? ? (? & ? & ? & ?) ? ? ?]. split; [| done]. split; try done. cbn. fields.
  - case_match.
    { cbn. destruct Hm as [? ? ? ? (? & ? & ? & ?) ? ? ?]. split; [| done]. split; try done. cbn. fields. }
    eapply may_bind; [by apply import_entry_ok |]. intros [m1 off1] [Hp ?]. cbn beta iota in *.
    eapply parsed_step; [exact Hp | intros Hm1; apply IH; [done | done | lia | lia]].
Qed.

Lemma function_loop_ok bc e n : ∀ m off count,
  module_ok m → 0 <= off → 0 <= count → count + Z.of_nat n <= MAX_FUNCTIONS →
  may (parsed m) (function_loop n bc e m off count).
Proof.
  induction n as [| n IH]; intros m off count Hm Ho Hc Hn; cbn [function_loop].
  - cbn. destruct Hm as [? ? ? ? ? (? & ? & ?) ? ?]. split; [| done]. split; try done. cbn. fields.
  - case_match.
    { cbn. destruct Hm as [? ? ? ? ? (? & ? & ?) ? ?]. split; [| done]. split; try done. cbn. fields. }
    eapply may_bind; [by apply may_leb |]. intros [ti off1] [? ?]. cbn beta iota.
    eapply may_bind; [apply may_aset |]. intros ts [? ->]. cbn beta.
    eapply parsed_step; [| intros Hm1; apply IH; [done | lia | lia | lia]].
    destruct Hm as [? ? ? ? ? (? & ? & ?) ? ?]. split; [| done]. split; try done.
    cbn. rewrite zlen_insert. fields.
Qed.

Lemma export_entry_ok bc m off count :
  module_ok m → 0 <= off → may (parsed_to m) (export_entry bc m off count).
Proof.
  intros Hm Ho. unfold export_entry.
  eapply may_bind; [by apply may_leb |]. intros [nl off1] [? ?]. cbn beta iota.
  eapply may_bind; [apply may_aget |]. intros old [? Hold]. cbn beta.
  eapply may_bind; [apply may_read_name; lia |]. intros new [src ->]. cbn beta.
  eapply may_bind; [apply may_aset |]. intros names [? ->]. cbn beta zeta.
  eapply may_bind; [apply may_aget |]. intros kd Hk. cbn beta.
  eapply may_bind; [apply may_leb; lia |]. intros [ti off3] [? ?]. cbn beta iota.
  eapply may_bind; [apply may_aset |]. intros ts [? ->]. cbn beta. cbn.
  destruct Hm as [? ? ? ? ? ? ? (? & ? & Hn & ? & ?)].
  destruct (Forall_lookup_1 _ _ _ _ Hn Hold) as [? ?].
  split; cbn; [| lia]. split; [| done]. split; try done. cbn. rewrite !zlen_insert.
  split_and!; try first [done | lia | by apply insert_bytes].
  apply Forall_insert; [done |]. by apply set_name_32.
Qed.

Lemma export_loop_ok bc e n : ∀ m off count,
  module_ok m → 0 <= off → 0 <= count → count + Z.of_nat n <= MAX_EXPORTS →
  may (parsed m) (export_loop n bc e m off count).
Proof.
  induction n as [| n IH]; intros m off count Hm Ho Hc Hn; cbn [export_loop].
  - cbn. destruct Hm as [? ? ? ? ? ? ? (? & ? & ? & ? & ?)]. split; [| done]. split; try done. cbn. fields.
  - case_match.
    { cbn. destruct Hm as [? ? ? ? ? ? ? (? & ? & ? & ? & ?)]. split; [| done]. split; try done. cbn. fields. }
    eapply may_bind; [by apply export_entry_ok |]. intros [m1 off1] [Hp ?]. cbn beta iota in *.
    eapply parsed_step; [exact Hp | intros Hm1; apply IH; [done | done | lia | lia]].
Qed.

Lemma local_decls_ok bc fuel : ∀ decls off total,
  0 <= off <= zlen bc → zlen bc - off < Z.of_nat fuel →
  may (λ '(_, off'), 0 <= off') (local_decls fuel bc decls off total).
Proof.
  induction fuel as [| fuel IH]; intros decls off total Ho Hf; cbn [local_decls];
    (case_match; [cbn; lia |]); [lia |].
  eapply may_bind; [apply may_leb; lia |]. intros [c off1] [? ?]. cbn beta iota.
  eapply may_bind; [apply may_aget |]. intros ty [? _]. cbn beta. apply IH; lia.
Qed.

Lemma code_entry_ok bc e m off idx :
  module_ok m → 0 <= off → 0 <= e → may (parsed_to m) (code_entry bc e m off idx).
Proof.
  intros Hm Ho He. unfold code_entry.
  eapply may_bind; [by apply may_leb |]. intros [bsz off1] [? ?]. cbn beta iota zeta.
  eapply may_bind; [apply may_leb; lia |]. intros [decls off2] [? ?]. cbn beta iota.
  eapply may_bind; [apply local_decls_ok; unfold zlen in *; lia |]. intros [tl cs] Hcs.
  cbn beta iota in *.
  eapply may_bind; [apply may_aset |]. intros offs [? ->]. cbn beta.
  eapply may_bind; [apply may_aset |]. intros ls [? ->]. cbn beta.
  eapply may_bind; [apply may_aset |]. intros ss [? ->]. cbn beta. cbn.
  destruct Hm as [? ? ? ? ? ? (? & ? & ? & ?) ?]. split; cbn; [| lia]. split; [| done].
  split; try done. cbn. rewrite !zlen_insert. split_and!; try done. by apply Forall_insert.
Qed.

Lemma code_loop_ok bc e n : ∀ m off idx,
  module_ok m → 0 <= off → 0 <= e → may (parsed m) (code_loop n bc e m off idx).
Proof.
  induction n as [| n IH]; intros m off idx Hm Ho He; cbn [code_loop]; [by split |].
  case_match; [by split |].
  eapply may_bind; [by apply code_entry_ok |]. intros [m1 off1] [Hp ?]. cbn beta iota in *.
  eapply parsed_step; [exact Hp | intros Hm1; by apply IH].
Qed.

Lemma parse_section_ok m sid off size :
  module_ok m → 0 <= off → 0 <= size → may (parsed m) (parse_section m sid off size).
Proof.
  intros Hm Ho Hs. unfold parse_section. repeat case_match.
  - by apply type_loop_ok.
  - by apply import_loop_ok.
  - by apply function_loop_ok.
  - by apply export_loop_ok.
  - apply code_loop_ok; [done | done | lia].
  - by split.
Qed.

Lemma parse_loop_ok fuel : ∀ m off,
  module_ok m → 0 <= off → bc_len m - off < Z.of_nat fuel → may (parsed m) (parse_loop fuel m off).
Proof.
  induction fuel as [| fuel IH]; intros m off Hm Ho Hf; cbn [parse_loop];
    (case_match; [by split | bools]); [lia |].
  eapply may_bind; [apply may_aget |]. intros sid [? _]. cbn beta.
  eapply may_bind; [apply may_leb; lia |]. intros [size off1] [? ?]. cbn beta iota.
  eapply may_bind; [apply parse_section_ok; [done | lia | lia] |]. intros m1 Hp. cbn beta.
  eapply parsed_step; [exact Hp |]. intros Hm1. apply IH; [done | lia |].
  destruct Hp as [_ (_ & _ & _ & -> & _)]. lia.
Qed.

Lemma parse_module_ok m : module_ok m → may (parsed m) (parse_module m).
Proof.
  intros Hm. apply parse_loop_ok; [done | lia |]. destruct (mo_code m Hm), (mo_len m Hm).
  unfold zlen in *. lia.
Qed.

(** ** Operations on the table of modules *)

Lemma overwrite_ok dst src :
  zlen dst = MAX_WASM_SIZE → zlen src <= MAX_WASM_SIZE → Forall is_byte dst → Forall is_byte src →
  zlen (overwrite dst src) = MAX_WASM_SIZE ∧ Forall is_byte (overwrite dst src).
Proof.
  intros Hd Hs Hdb Hsb. unfold overwrite. split.
  - unfold zlen in *. rewrite length_app, length_drop. lia.
  - apply Forall_app_2; [done | by apply Forall_drop].
Qed.

(** The module of slot [id] replaced, with the heap and the blocks: what has to
    be shown for the invariant to hold again. *)
Lemma replace_module lo bs bs' r id m m' h c ps :
  runtime_ok lo bs r → 0 <= id → modules r !! Z.to_nat id = Some m → module_ok m' →
  heap_ok lo bs' h → bs ⊆ bs' → (∀ x, is_byte (bytes h x)) →
  (loaded m' = true → mem_max_pages m' = MAX_MEM_PAGES ∧ 1 <= mem_pages m' <= MAX_MEM_PAGES ∧
    (mem_ptr m', mem_pages m' * MEM_PAGE_SIZE) ∈ bs' ∧ id < c ∧
    ∀ j n, modules r !! j = Some n → loaded n = true → j ≠ Z.to_nat id → mem_ptr m' ≠ mem_ptr n) →
  wasm_count r <= c <= MAX_WASM_MODULES → zlen ps = MAX_WASM_MODULES →
  runtime_ok lo bs' (set_heap (r <| modules := <[Z.to_nat id := m']> (modules r) |>
    <| wasm_count := c |> <| perf_stats := ps |>) h).
Proof.
  intros Hr Hid Hm Hm' Hh Hbs Hb Hload Hc Hps. destruct Hr as [Hl Hok Hcnt _ _ _ Hmem Hap Hun].
  split; cbn [modules wasm_count perf_stats kworld kheap rheap set_heap set_field].
  - by rewrite zlen_insert.
  - by apply Forall_insert.
  - lia.
  - done.
  - done.
  - done.
  - intros i n [(<- & <- & _) | [Hi Hn]]%list_lookup_insert_Some Hln.
    + destruct (Hload Hln) as (? & ? & ? & _). done.
    + destruct (Hmem i n Hn Hln) as (? & ? & ?). split_and!; [done | lia | lia | by apply Hbs].
  - intros i j a b [(<- & <- & _) | [Hi Ha]]%list_lookup_insert_Some
      [(<- & <- & _) | [Hj Hb']]%list_lookup_insert_Some Hla Hlb Hij; [done | | |].
    + destruct (Hload Hla) as (_ & _ & _ & _ & Hne). by apply (Hne j b).
    + destruct (Hload Hlb) as (_ & _ & _ & _ & Hne). intros Heq. by apply (Hne i a).
    + by apply (Hap i j a b).
  - intros i n [(<- & <- & _) | [Hi Hn]]%list_lookup_insert_Some Hci.
    + destruct (loaded m') eqn:E; [| done]. destruct (Hload eq_refl) as (_ & _ & _ & ? & _). lia.
    + apply (Hun i n Hn). lia.
Qed.

Lemma set_name_len dst src : zlen dst = 32 → zlen (set_name dst src) = 32.
Proof.
  unfold zlen, set_name. intros Hd. rewrite length_app. cbn. rewrite length_take, length_drop. lia.
Qed.

(** Blocks handed out from now on differ from all pointers of loaded modules. *)
Lemma fresh_pointer lo bs r q j n :
  runtime_ok lo bs r → Heap.next (bump (rheap r)) <= q → modules r !! j = Some n →
  loaded n = true → q ≠ mem_ptr n.
Proof.
  intros Hr Hq Hj Hl ->. destruct (ro_memory _ _ _ Hr _ _ Hj Hl) as (_ & ? & Hin).
  destruct (ho_block _ _ _ (ro_heap _ _ _ Hr) _ _ Hin) as (? & _ & ? & _). lia.
Qed.

Lemma wasm_load_ok lo bs r owner nm bc :
  runtime_ok lo bs r → Forall is_byte bc →
  may (λ '(_, r'), ∃ bs', runtime_ok lo bs' r') (wasm_load r owner nm bc).
Proof.
  intros Hr Hbc. unfold wasm_load. case_match; [by eexists |]. case_match; [by eexists |]. bools.
  pose proof (ro_count _ _ _ Hr) as Hcnt. pose proof (ro_len _ _ _ Hr) as Hlen.
  eapply may_bind; [apply may_aget |]. intros m [Hid Hm]. cbn beta zeta.
  assert (module_ok m) as Hmok by (eapply Forall_lookup_1; [apply Hr | done]).
  set (code := take _ bc). set (m1 := m <| name := _ |> <| bytecode := _ |> <| bc_len := _ |>
    <| pid := _ |> <| loaded := _ |>).
  assert (zlen code <= MAX_WASM_SIZE) as Hcode.
  { unfold code, zlen. rewrite length_take. unfold MAX_WASM_SIZE. lia. }
  assert (module_ok m1) as Hm1.
  { destruct Hmok as [[Hl Hb] ? ? ? ? ? ? ?]. split; try done; cbn.
    - apply overwrite_ok; [done | done | done |]. by apply Forall_take.
    - pose proof (zlen_nonneg code). done.
    - by apply set_name_len. }
  eapply may_bind; [by apply parse_module_ok |]. intros m2 [Hm2 Hsame]. cbn beta.
  unfold alloc_module_memory.
  destruct (alloc_zeroed_total lo bs (rheap r) MEM_PAGE_SIZE (ro_heap _ _ _ Hr)) as
    (q & h & Ha & Hnull); [unfold MEM_PAGE_SIZE; lia |]. rewrite Ha. cbn [mbind outcome_bind].
  destruct (q =? 0) eqn:Eq; bools; cbn [mbind outcome_bind negb]; unfold set_module;
    rewrite aset_in_range by (cbn; lia); cbn [mbind outcome_bind may].
  - exists bs. rewrite (Hnull Eq).
    apply (replace_module lo bs bs r _ m _ _ (wasm_count r) (perf_stats r)); try done; try lia.
    + destruct Hm2. by split.
    + apply Hr.
    + apply Hr.
    + apply Hr.
  - destruct (alloc_zeroed_ok lo bs (rheap r) MEM_PAGE_SIZE 4 q h) as (Hh & Hq & _);
      [apply Hr | unfold MEM_PAGE_SIZE; lia | lia | done | done |].
    exists (bs ++ [(q, MEM_PAGE_SIZE)]).
    apply (replace_module lo bs _ r _ m _ _ (wasm_count r + 1) (perf_stats r)); try done; try lia.
    + destruct Hm2. by split.
    + set_solver.
    + eapply alloc_zeroed_bytes; [apply Hr | done].
    + intros _. cbn. split_and!; [done | lia | unfold MAX_MEM_PAGES; lia | set_solver | lia |].
      intros j n Hj Hl _. eapply fresh_pointer; [done | lia | done | done].
    + apply Hr.
Qed.

Lemma dealloc_done lo bs h p n h' :
  heap_ok lo bs h → dealloc h p n = Done h' → heap_ok lo bs h' ∧ bytes h' = bytes h.
Proof.
  intros [? ? ?] Hd. unfold dealloc in Hd. case_match; [done |]. inv_bind. split; [by split | done].
Qed.

Lemma wasm_unload_ok lo bs r id b r' :
  runtime_ok lo bs r → wasm_unload r id = Done (b, r') → ∃ bs', runtime_ok lo bs' r'.
Proof.
  intros Hr Hu. pose proof (ro_count _ _ _ Hr). unfold wasm_unload in Hu. destruct (is_loaded r id) as [m |] eqn:Hid.
  2: { inv_bind. injection Hu as <- <-. eauto. }
  apply is_loaded_Some in Hid as (Hid & Hm & Hl). apply bind_Done in Hu as ([m1 h] & Hf & Hu).
  cbn beta iota in Hu. apply bind_Done in Hu as (r1 & Hs & Hu). inv_bind. injection Hu as <- <-.
  unfold set_module in Hs. rewrite aset_in_range in Hs by (cbn; rewrite (ro_len _ _ _ Hr); lia).
  cbn [mbind outcome_bind] in Hs. inv_bind.
  assert (module_ok m) as Hmok by (eapply Forall_lookup_1; [apply Hr | done]).
  exists bs. unfold free_module_memory in Hf. case_match.
  - inv_bind. injection Hf as <- <-.
    apply (replace_module lo bs bs r _ m _ _ (wasm_count r) (perf_stats r)); try done; try lia;
      try apply Hr.
    destruct Hmok as [? ? ? ? ? ? ? ?]. by split.
  - apply bind_Done in Hf as (h1 & Hd & Hf). inv_bind. injection Hf as <- <-.
    destruct (dealloc_done lo bs _ _ _ _ (ro_heap _ _ _ Hr) Hd) as [Hh1 Hb1].
    apply (replace_module lo bs bs r _ m _ _ (wasm_count r) (perf_stats r)); try done; try lia;
      try apply Hr.
    + destruct Hmok as [? ? ? ? ? ? ? ?]. by split.
    + rewrite Hb1. apply Hr.
Qed.

Lemma zeros_bytes n : Forall is_byte (zeros n).
Proof. apply Forall_replicate. unfold is_byte. lia. Qed.

Lemma wasm_hot_reload_ok lo bs r id bc x r' :
  runtime_ok lo bs r → Forall is_byte bc → wasm_hot_reload r id bc = Done (x, r') →
  ∃ bs', runtime_ok lo bs' r'.
Proof.
  intros Hr Hbc Hu. pose proof (ro_count _ _ _ Hr). unfold wasm_hot_reload in Hu. destruct (is_loaded r id) as [m |] eqn:Hid.
  2: { inv_bind. injection Hu as <- <-. eauto. }
  apply is_loaded_Some in Hid as (Hid & Hm & Hl).
  case_match; [inv_bind; injection Hu as <- <-; eauto |].
  case_match; [inv_bind; injection Hu as <- <-; eauto |]. bools.
  apply bind_Done in Hu as (m1 & Hp & Hu). apply bind_Done in Hu as (r1 & Hs & Hu).
  apply bind_Done in Hu as (r2 & Hpf & Hu). inv_bind. injection Hu as <- <-.
  assert (module_ok m) as Hmok by (eapply Forall_lookup_1; [apply Hr | done]).
  set (m0 := reset_sections m <| bytecode := _ |> <| bc_len := _ |>) in Hp.
  assert (module_ok m0) as Hm0.
  { destruct Hmok as [[Hbl Hbb] ? ? ? ? ? ? ?]. split; cbn; try done.
    - by apply overwrite_ok.
    - pose proof (zlen_nonneg bc). done.
    - split_and!; try done; apply (zeros_bytes 16).
    - split_and!; try done; apply (zeros_bytes 16).
    - split_and!; try done; apply (zeros_bytes 64).
    - split_and!; try done. apply (Forall_replicate (λ o, 0 <= o) 64%nat 0). lia.
    - split_and!; try done; [| apply (zeros_bytes 32)].
      apply (Forall_replicate (λ n, zlen n = 32 ∧ n !! 31%nat = Some 0) 32%nat). done. }
  pose proof (parse_module_ok m0 Hm0) as Hpm. rewrite Hp in Hpm. destruct Hpm as [Hm1 Hsame].
  unfold set_module in Hs. rewrite aset_in_range in Hs by (rewrite (ro_len _ _ _ Hr); lia).
  cbn [mbind outcome_bind] in Hs. inv_bind. unfold set_perf in Hpf.
  rewrite aset_in_range in Hpf by (cbn; rewrite (ro_perf _ _ _ Hr); lia).
  cbn [mbind outcome_bind] in Hpf. inv_bind.
  destruct (ro_memory _ _ _ Hr _ _ Hm Hl) as (Hmax & Hpg & Hin).
  destruct Hsame as (_ & _ & _ & _ & _ & Hptr & Hpages & Hmx). cbn in Hptr, Hpages, Hmx.
  exists bs. replace (r <| modules := _ |> <| perf_stats := _ |>) with
    (set_heap (r <| modules := <[Z.to_nat id := m1]> (modules r) |> <| wasm_count := wasm_count r |>
      <| perf_stats := <[Z.to_nat id := new_perf]> (perf_stats r) |>) (rheap r))
    by (by destruct r as [? ? ? ? ? []]).
  apply (replace_module lo bs bs r _ m); try done; try lia; try apply Hr.
  - intros _. rewrite Hptr, Hpages, Hmx. split_and!; [done | lia | lia | done | |].
    + destruct (Z.le_gt_cases (wasm_count r) id) as [Hle | ?]; [| lia].
      rewrite (ro_unused _ _ _ Hr _ _ Hm) in Hl by lia. done.
    + intros j n Hj Hln Hne Heq. by apply (ro_apart _ _ _ Hr j (Z.to_nat id) n m).
  - rewrite zlen_insert. apply Hr.
Qed.

(** ** The memory interface *)

Lemma wasm_memory_write_ok lo bs r id off data x r' :
  runtime_ok lo bs r → 0 <= off < 2 ^ 64 → zlen data < 2 ^ 64 → Forall is_byte data →
  wasm_memory_write r id off data = Done (x, r') → ∃ bs', runtime_ok lo bs' r'.
Proof.
  intros Hr Hoff Hlen Hd Hw. pose proof (ro_count _ _ _ Hr). unfold wasm_memory_write in Hw.
  destruct (is_loaded r id) as [m |] eqn:Hid; [| inv_bind; injection Hw as <- <-; eauto].
  apply is_loaded_Some in Hid as (Hid & Hm & Hl). pose proof (zlen_nonneg data).
  destruct (ro_memory _ _ _ Hr _ _ Hm Hl) as (Hmax & Hpg & Hin).
  destruct (_ <? _) eqn:E1 in Hw; [inv_bind; injection Hw as <- <-; eauto |].
  destruct (_ =? _) eqn:E2 in Hw; [inv_bind; injection Hw as <- <-; eauto |].
  destruct (_ <? off) eqn:E3 in Hw; [done |]. inv_bind. injection Hw as <- <-. bools.
  assert (u64 (off + zlen data) = off + zlen data) as Hsum.
  { unfold wrap in *. destruct (Z.lt_ge_cases (off + zlen data) (2 ^ 64)); [by apply Z.mod_small; lia |].
    assert ((off + zlen data) mod 2 ^ 64 = off + zlen data - 2 ^ 64); [| lia].
    rewrite <- (Z_mod_plus_full _ (-1)). rewrite Z.mod_small by lia. lia. }
  rewrite Hsum in E1. exists bs.
  destruct Hr as [? ? ? ? Hh Hb ? ? ?]. split; cbn; try done.
  - apply (heap_ok_write _ _ (rheap r) _ _ _ Hh Hin). intros y Hy. apply poke_out. lia.
  - intros y. by apply poke_bytes.
Qed.

(** ** Every use of the interface *)

(** One call of the interface; a function runs only in a module without
    imports. *)
Inductive uses (dispatch : Z → list Z → Z → runtime → outcome (Z * runtime))
    : runtime → runtime → Prop :=
| uses_load r owner nm bc o r' :
    Forall is_byte bc → wasm_load r owner nm bc = Done (o, r') → uses dispatch r r'
| uses_unload r id b r' : wasm_unload r id = Done (b, r') → uses dispatch r r'
| uses_reload r id bc x r' :
    Forall is_byte bc → wasm_hot_reload r id bc = Done (x, r') → uses dispatch r r'
| uses_write r id off data x r' :
    0 <= off < 2 ^ 64 → zlen data < 2 ^ 64 → Forall is_byte data →
    wasm_memory_write r id off data = Done (x, r') → uses dispatch r r'
| uses_execute r id m fname args x r' :
    is_loaded r id = Some m → num_imports m = 0 → Forall is_i64 args →
    wasm_execute dispatch id r fname args = Done (x, r') → uses dispatch r r'.

Lemma uses_ok dispatch lo r r' :
  uses dispatch r r' → (∃ bs, runtime_ok lo bs r) → ∃ bs, runtime_ok lo bs r'.
Proof.
  intros Hu [bs Hr].
  destruct Hu as [r owner nm bc o r' Hb Hx | r id b r' Hx | r id bc x r' Hb Hx |
    r id off data x r' H1 H2 H3 Hx | r id m fname args x r' H1 H2 H3 Hx].
  - pose proof (wasm_load_ok lo bs r owner nm bc Hr Hb) as Hm. by rewrite Hx in Hm.
  - by eapply wasm_unload_ok.
  - by eapply wasm_hot_reload_ok.
  - by eapply wasm_memory_write_ok.
  - pose proof (WasmSafe.execute_ok dispatch lo bs r id m fname args Hr H1 H2 H3) as Hm.
    rewrite Hx in Hm. by destruct Hm as (? & _).
Qed.

Definition boot_heap (m : Z → Z) (lo hi : Z) : heap := init_range (MkHeap new_bump m) lo hi.

Lemma boot_ok m lo hi hs t :
  0 <= lo <= hi → hi < 2 ^ 63 → (∀ x, is_byte (m x)) →
  runtime_ok lo [] (initial_runtime (boot_heap m lo hi) hs t).
Proof.
  intros Hlo Hhi Hm.
  assert (module_ok empty_module) as Hem.
  { split; try done; cbn; split_and!; try done;
      try apply (zeros_bytes 16); try apply (zeros_bytes 64); try apply (zeros_bytes 32);
      try apply (zeros_bytes 4096); try (apply Forall_replicate; first [done | lia]). }
  split; cbn; try done.
  - by apply (Forall_replicate module_ok 8%nat).
  - split; cbn; [lia | set_solver | done].
  - intros i n Hn. change (replicate (Z.to_nat MAX_WASM_MODULES) empty_module !! i = Some n) in Hn.
    by apply lookup_replicate in Hn as [-> _].
  - intros i j a b Ha. change (replicate (Z.to_nat MAX_WASM_MODULES) empty_module !! i = Some a) in Ha.
    by apply lookup_replicate in Ha as [-> _].
  - intros i n Hn. change (replicate (Z.to_nat MAX_WASM_MODULES) empty_module !! i = Some n) in Hn.
    by apply lookup_replicate in Hn as [-> _].
Qed.

(** C24. Whatever sequence of loads, unloads, reloads, outside writes and runs of
    modules without imports the runtime goes through after boot, its tables stay
    well formed: every loaded module has a memory of one to four pages inside the
    heap, and the memories of two loaded modules do not overlap. *)
Theorem reachable_memories_apart dispatch m lo hi hs t r :
  0 <= lo <= hi → hi < 2 ^ 63 → (∀ x, is_byte (m x)) →
  rtc (uses dispatch) (initial_runtime (boot_heap m lo hi) hs t) r →
  Forall module_ok (modules r) ∧
  ∀ i j a b, is_loaded r i = Some a → is_loaded r j = Some b →
    1 <= mem_pages a <= MAX_MEM_PAGES ∧ lo <= mem_ptr a ∧
    mem_ptr a + mem_pages a * MEM_PAGE_SIZE <= end_ (bump (rheap r)) ∧
    (i ≠ j → mem_ptr a + mem_pages a * MEM_PAGE_SIZE < mem_ptr b ∨
             mem_ptr b + mem_pages b * MEM_PAGE_SIZE < mem_ptr a).
Proof.
  intros Hlo Hhi Hm Hrtc. assert (∃ bs, runtime_ok lo bs r) as [bs Hr].
  { assert (∃ bs, runtime_ok lo bs (initial_runtime (boot_heap m lo hi) hs t)) as Hb
      by (exists []; by apply boot_ok).
    induction Hrtc as [| x y z Hu _ IH]; [done |]. by apply IH, (uses_ok dispatch lo x y). }
  split; [apply Hr |]. intros i j a b (Hi & Ha & Hla)%is_loaded_Some (Hj & Hb & Hlb)%is_loaded_Some.
  destruct (ro_memory _ _ _ Hr _ _ Ha Hla) as (_ & ? & Hain).
  destruct (ro_memory _ _ _ Hr _ _ Hb Hlb) as (_ & ? & Hbin).
  pose proof (ro_heap _ _ _ Hr) as Hh. pose proof (ho_bounds _ _ _ Hh).
  destruct (ho_block _ _ _ Hh _ _ Hain) as (? & ? & ? & _). split_and!; [lia.. |].
  intros Hij. destruct (allocs_apart _ _ _ _ _ _ _ Hh Hain Hbin) as [[= Heq _] | Hap]; [| lia].
  by eapply (ro_apart _ _ _ Hr (Z.to_nat i) (Z.to_nat j) a b) in Heq; [| | | | | lia].
Qed.

(** C5. Running an exported function of a module without imports.  The run always
    ends: with a value or an error, when it keeps the invariant of the runtime,
    changes no byte of kernel memory but those of the module's own linear memory
    and of heap that was not handed out, and changes no other module; or with a
    panic, and then in a state of the run in which an immediate is cut off by the
    end of the bytecode, a function returns that was called with a full value
    stack, or memory.grow is asked for a number of pages that wraps around. *)
Theorem wasm_execute_confined dispatch lo bs r id m fname args :
  runtime_ok lo bs r → is_loaded r id = Some m → num_imports m = 0 → Forall is_i64 args →
  match wasm_execute dispatch id r fname args with
  | Done (_, r') =>
      (∃ bs', runtime_ok lo bs' r') ∧
      (∀ x, ¬ mine m x → ¬ fresh r x → bytes (rheap r') x = bytes (rheap r) x) ∧
      (∀ j, j ≠ Z.to_nat id → modules r' !! j = modules r !! j)
  | Panic => ∃ def nparams start r' s',
      reaches dispatch id r (start_machine def nparams start args) r' s' ∧ hazard id r' s' = true
  | _ => False
  end.
Proof. apply execute_ok. Qed.

(** C25. Type preservation and progress of the interpreter, for a module without
    imports.  From well-typed stacks (their lengths, their pointers in range, 64-bit
    values, frames with sixteen locals) one cycle is never stuck: it leaves
    well-typed stacks and a place that is not negative, or ends the run with an
    error, and keeps the invariant of the runtime; it panics only in the three
    situations of [hazard]. *)
Theorem step_well_typed dispatch lo bs r id m s :
  runtime_ok lo bs r → is_loaded r id = Some m → num_imports m = 0 → machine_ok s →
  match step dispatch id r s with
  | Done (Ok x, r', s') => (∃ bs', runtime_ok lo bs' r') ∧ machine_ok s' ∧ next_ok x
  | Done (Err _, r', _) => ∃ bs', runtime_ok lo bs' r'
  | Panic => hazard id r s = true
  | _ => False
  end.
Proof.
  intros Hr Hid Hclosed Hs. pose proof Hid as (Hrange & Hm & Hl)%is_loaded_Some.
  assert (module_ok m) as Hok by (eapply Forall_lookup_1; [apply Hr | done]).
  destruct (ro_memory _ _ _ Hr _ _ Hm Hl) as (Hmax & _ & _).
  pose proof (step_ok dispatch id r m lo bs ltac:(lia) Hm Hok Hclosed Hmax r s
    (good_start lo bs r id m Hr Hid) Hs) as Hstep.
  assert (∀ r', good id r m lo bs r' → ∃ bs', runtime_ok lo bs' r') as Hgood.
  { intros r' Hg. replace r' with (r' <| perf_stats := perf_stats r' |>) by (by destruct r').
    eapply good_runtime_ok; [done | done | done |].
    destruct Hg as (p & k & bs' & h & -> & _). apply Hr. }
  unfold wp, post in Hstep. destruct (step _ _ _ _) as [[[[x | e] r'] s'] | | |]; naive_solver.
Qed.

(** ** The memory interface, case by case *)

Lemma mem_ptr_pos lo bs r id m :
  runtime_ok lo bs r → is_loaded r id = Some m →
  0 < mem_ptr m ∧ 1 <= mem_pages m <= MAX_MEM_PAGES ∧
  (mem_ptr m, mem_pages m * MEM_PAGE_SIZE) ∈ bs.
Proof.
  intros Hr (Hi & Hm & Hl)%is_loaded_Some.
  destruct (ro_memory _ _ _ Hr _ _ Hm Hl) as (_ & ? & Hin).
  destruct (ho_block _ _ _ (ro_heap _ _ _ Hr) _ _ Hin) as (_ & ? & _).
  pose proof (ho_bounds _ _ _ (ro_heap _ _ _ Hr)). split_and!; (done || lia).
Qed.

(** The sum of an offset and a length of at most a page, in 64 bits. *)
Lemma wrapped_sum off len :
  0 <= off < 2 ^ 64 → 0 <= len <= MEM_PAGE_SIZE →
  u64 (off + len) = if 2 ^ 64 <=? off + len then off + len - 2 ^ 64 else off + len.
Proof.
  intros Ho Hl. unfold wrap, MEM_PAGE_SIZE in *. case_match; bools.
  - rewrite <- (Z_mod_plus_full _ (-1)). rewrite Z.mod_small by lia. lia.
  - by rewrite Z.mod_small by lia.
Qed.

Lemma memory_read_cases lo bs r id m off len :
  runtime_ok lo bs r → is_loaded r id = Some m → 0 <= off < 2 ^ 64 → 0 <= len <= MEM_PAGE_SIZE →
  wasm_memory_read r id off len =
    if off + len <=? mem_pages m * MEM_PAGE_SIZE
    then Done (Ok (bytes_at (bytes (rheap r)) (mem_ptr m + off) len))
    else if 2 ^ 64 <=? off + len then Panic
    else Done (Err "memory read out of bounds"%string).
Proof.
  intros Hr Hid Ho Hl. destruct (mem_ptr_pos lo bs r id m Hr Hid) as (Hp & Hpg & _).
  unfold wasm_memory_read. rewrite Hid, wrapped_sum by done.
  unfold MEM_PAGE_SIZE, MAX_MEM_PAGES in *.
  repeat (case_match; bools; try lia); done.
Qed.

(** Reading a loaded module's memory from outside, for any offset and any
    length up to a page: the bytes of the memory if the range lies inside it, an
    error if it does not, and a panic of the kernel if the end of the range wraps
    around to zero, which an offset passed by the caller can make it do. *)
Theorem memory_read_exact lo bs r id m off len :
  runtime_ok lo bs r → is_loaded r id = Some m → 0 <= off < 2 ^ 64 → 0 <= len <= MEM_PAGE_SIZE →
  wasm_memory_read r id off len =
    if off + len <=? mem_pages m * MEM_PAGE_SIZE
    then Done (Ok (bytes_at (bytes (rheap r)) (mem_ptr m + off) len))
    else if 2 ^ 64 <=? off + len then Panic
    else Done (Err "memory read out of bounds"%string).
Proof. apply memory_read_cases. Qed.

Lemma bytes_at_poke_out m a bs b n :
  b + n <= a ∨ a + zlen bs <= b → bytes_at (poke m a bs) b n = bytes_at m b n.
Proof. intros H. apply bytes_at_ext. intros x Hx. apply poke_out. lia. Qed.

(** A write inside a loaded module's memory succeeds; reading the range back
    gives the bytes written, and reads of any other module give what they gave
    before. *)
Theorem memory_write_read lo bs r id m off data :
  runtime_ok lo bs r → is_loaded r id = Some m → 0 <= off → zlen data <= MEM_PAGE_SIZE →
  off + zlen data <= mem_pages m * MEM_PAGE_SIZE → Forall is_byte data →
  ∃ r', wasm_memory_write r id off data = Done (Ok (), r') ∧
    wasm_memory_read r' id off (zlen data) = Done (Ok data) ∧
    ∀ j o n, j ≠ id → 0 <= o < 2 ^ 64 → 0 <= n <= MEM_PAGE_SIZE →
      wasm_memory_read r' j o n = wasm_memory_read r j o n.
Proof.
  intros Hr Hid Ho Hd Hsz Hb. destruct (mem_ptr_pos lo bs r id m Hr Hid) as (Hp & Hpg & Hin).
  pose proof (zlen_nonneg data). unfold MAX_MEM_PAGES in Hpg.
  assert (0 <= off < 2 ^ 64) as Ho64 by (unfold MEM_PAGE_SIZE in *; lia).
  set (r' := set_heap r (rheap r <| bytes := poke (bytes (rheap r)) (mem_ptr m + off) data |>)).
  assert (wasm_memory_write r id off data = Done (Ok (), r')) as Hw.
  { unfold wasm_memory_write. rewrite Hid, wrapped_sum by done. unfold MEM_PAGE_SIZE in *.
    repeat (case_match; bools; try lia); done. }
  destruct (wasm_memory_write_ok lo bs r id off data (Ok ()) r') as [bs' Hr'];
    [done | lia | unfold MEM_PAGE_SIZE in *; lia | done | done |].
  exists r'. split_and!; [done | |].
  - rewrite (memory_read_cases lo bs' r' id m) by done.
    destruct (_ <=? _) eqn:E; bools; [| lia]. f_equal. f_equal. apply bytes_at_poke.
  - intros j o n Hj Ho' Hn. destruct (is_loaded r j) as [mj |] eqn:Hidj.
    + rewrite (memory_read_cases lo bs' r' j mj), (memory_read_cases lo bs r j mj) by done.
      destruct (_ <=? _) eqn:E; bools; [| done]. f_equal. f_equal. apply bytes_at_poke_out.
      destruct (mem_ptr_pos lo bs r j mj Hr Hidj) as (_ & _ & Hinj).
      apply is_loaded_Some in Hid as (? & Hm & Hl), Hidj as (? & Hmj & Hlj).
      destruct (allocs_apart _ _ _ _ _ _ _ (ro_heap _ _ _ Hr) Hin Hinj) as [[= Heq _] | Hap].
      * by apply (ro_apart _ _ _ Hr (Z.to_nat id) (Z.to_nat j) m mj) in Heq; [| | | | | lia].
      * lia.
    + unfold wasm_memory_read. by change (is_loaded r' j) with (is_loaded r j); rewrite Hidj.
Qed.

(** ** Padding *)

Lemma leb128_u_zero bc off :
  0 <= off → bc !! Z.to_nat off = Some 0 → leb128_u bc off = Done (0, off + 1).
Proof. intros Ho Hb. unfold leb128_u. by rewrite (drop_S bc 0 _ Hb). Qed.

(** [sys_wasm_load] always hands over 4096 bytes.  Where a file ends before
    that and zeroes follow, the parser goes on, two zeroes at a time; if their
    number is odd it reads the size of a section past the end of the array and
    the kernel panics. *)
Theorem odd_padding_panics m fuel off :
  zlen (bytecode m) = MAX_WASM_SIZE → bc_len m = MAX_WASM_SIZE → 0 <= off <= MAX_WASM_SIZE →
  (∀ i, off <= i < MAX_WASM_SIZE → bytecode m !! Z.to_nat i = Some 0) →
  MAX_WASM_SIZE - off < Z.of_nat fuel →
  parse_loop fuel m off = if Z.even (MAX_WASM_SIZE - off) then Done m else Panic.
Proof.
  intros Hl Hbc. revert off. induction fuel as [| fuel IH]; intros off Ho Hz Hf; [lia |].
  cbn [parse_loop]. rewrite Hbc. destruct (_ <=? _) eqn:E; bools.
  - by replace (MAX_WASM_SIZE - off) with 0 by lia.
  - assert (aget (bytecode m) off = Done 0) as -> by (apply aget_lookup; split; [lia | apply Hz; lia]).
    cbn [mbind outcome_bind]. destruct (decide (off + 1 = MAX_WASM_SIZE)) as [He | He].
    + unfold leb128_u. rewrite skipn_all2 by (unfold zlen in Hl; lia). cbn.
      by replace (MAX_WASM_SIZE - off) with 1 by lia.
    + rewrite leb128_u_zero by (lia || apply Hz; lia). cbn [mbind outcome_bind].
      unfold parse_section. cbn [Z.eqb]. cbn [mbind outcome_bind]. rewrite Z.add_0_r.
      rewrite IH; [| lia | intros i Hi; apply Hz; lia | lia].
      replace (MAX_WASM_SIZE - off) with (Z.succ (Z.succ (MAX_WASM_SIZE - (off + 1 + 1)))) by lia.
      by rewrite Z.even_succ_succ.
Qed.

(** ** Unloading *)

(** A module whose memory is still the one page it was loaded with is
    unloaded.  One that has grown is given back with the layout of one page: the
    heap looks for its canary in the middle of the block, and unless the module
    has written the canary's value there, the hart stops for good. *)
Theorem unload_exact lo bs r id m :
  runtime_ok lo bs r → is_loaded r id = Some m →
  (mem_pages m = 1 → ∃ r', wasm_unload r id = Done (true, r') ∧ is_loaded r' id = None) ∧
  (1 < mem_pages m → read_u64 (bytes (rheap r)) (mem_ptr m + MEM_PAGE_SIZE) ≠ HEAP_CANARY →
   wasm_unload r id = Deadlock).
Proof.
  intros Hr Hid. destruct (mem_ptr_pos lo bs r id m Hr Hid) as (Hp & Hpg & Hin).
  unfold wasm_unload, free_module_memory. rewrite Hid. rewrite (proj2 (Z.eqb_neq _ 0)) by lia.
  split.
  - intros H1. rewrite H1, Z.mul_1_l in Hin.
    rewrite (dealloc_ok lo bs _ _ _ (ro_heap _ _ _ Hr) Hin). cbn [mbind outcome_bind].
    apply is_loaded_Some in Hid as (Hi & Hm & Hl). unfold set_module.
    rewrite aset_in_range by (cbn; rewrite (ro_len _ _ _ Hr); lia). cbn [mbind outcome_bind].
    eexists. split; [reflexivity |]. unfold is_loaded. case_match; [done |]. cbn.
    rewrite list_lookup_insert_eq; [done |]. by eapply lookup_lt_Some.
  - intros _ Hc. unfold dealloc. rewrite (proj2 (Z.eqb_neq _ _) Hc). by rewrite orb_true_r.
Qed.

(** ** Examples *)

(** The system calls, not reached by a module without imports. *)
Definition no_dispatch (_ : Z) (_ : list Z) (_ : Z) (r : runtime) : outcome (Z * runtime) := Done (0, r).

Definition ex_lo : Z := 0x80400000.
Definition ex_boot : runtime :=
  initial_runtime (boot_heap (λ _, 0) ex_lo 0x80800000) new_host_table new_table.

Definition ex_section (id : Z) (body : list Z) : list Z := id :: zlen body :: body.

(** One type without parameters and with a result, one function of it for each
    body, the first one exported as main. *)
Definition ex_file (bodies : list (list Z)) : list Z :=
  [0x00; 0x61; 0x73; 0x6D; 0x01; 0x00; 0x00; 0x00] ++ ex_section 1 [0x60; 0; 1; 0x7F] ++
  ex_section 3 (replicate (length bodies) 0) ++ ex_section 7 (4 :: bytes_of "main" ++ [0; 0]) ++
  ex_section 10 (mjoin ((λ c, zlen c + 1 :: 0 :: c) <$> bodies)).

Definition load_into (r : runtime) (bc : list Z) : runtime :=
  match wasm_load r 1 (bytes_of "ex") bc with Done (_, r) => r | _ => r end.
Definition run_in (r : runtime) (id : Z) : runtime :=
  match wasm_execute no_dispatch id r (bytes_of "main") [] with Done (_, r) => r | _ => r end.
Definition the_module (r : runtime) (id : Z) : WasmModule := default empty_module (is_loaded r id).

(** Store 42 at 0 and grow the memory by a page. *)
Definition ex_code : list Z :=
  [0x41; 0; 0x41; 42; 0x36; 2; 0; 0x41; 1; 0x40; 0; 0x0B; 0x0B].
Definition ex_rt1 : runtime := load_into (load_into ex_boot (ex_file [ex_code])) (ex_file [ex_code]).
Definition ex_rt2 : runtime := run_in ex_rt1 0.

Lemma ex_boot_ok : runtime_ok ex_lo [] ex_boot.
Proof. apply boot_ok; [done | done |]. intros x. unfold is_byte. lia. Qed.

Lemma load_into_ok lo r bc :
  (∃ bs, runtime_ok lo bs r) → Forall is_byte bc → ∃ bs, runtime_ok lo bs (load_into r bc).
Proof.
  intros [bs Hr] Hb. pose proof (wasm_load_ok lo bs r 1 (bytes_of "ex") bc Hr Hb) as Hm.
  unfold load_into. destruct (wasm_load _ _ _ _) as [[o r'] | | |]; by eauto.
Qed.

Lemma ex_file_bytes : Forall is_byte (ex_file [ex_code]).
Proof. apply (bool_decide_unpack _). by vm_compute. Qed.

Lemma ex_rt1_ok : ∃ bs, runtime_ok ex_lo bs ex_rt1.
Proof. unfold ex_rt1. eauto using load_into_ok, ex_boot_ok, ex_file_bytes. Qed.

Lemma loaded_module r id : is_module_loaded r id = true → is_loaded r id = Some (the_module r id).
Proof. unfold is_module_loaded, the_module. by destruct (is_loaded r id). Qed.

Lemma ex_rt1_loaded id : id = 0 ∨ id = 1 → is_loaded ex_rt1 id = Some (the_module ex_rt1 id).
Proof. intros [-> | ->]; apply loaded_module; by vm_compute. Qed.

Lemma ex_closed : num_imports (the_module ex_rt1 0) = 0.
Proof. by vm_compute. Qed.

Definition finishes {A} (o : outcome A) : bool := match o with Done _ => true | _ => false end.

Lemma ex_run : finishes (wasm_execute no_dispatch 0 ex_rt1 (bytes_of "main") []) = true.
Proof. by vm_compute. Qed.

Lemma ex_rt2_ok : ∃ bs, runtime_ok ex_lo bs ex_rt2.
Proof.
  destruct ex_rt1_ok as [bs Hr].
  pose proof (execute_ok no_dispatch ex_lo bs ex_rt1 0 _ (bytes_of "main") [] Hr
    (ex_rt1_loaded 0 (or_introl eq_refl)) ex_closed ltac:(done)) as H.
  unfold ex_rt2, run_in. destruct (wasm_execute _ _ _ _ _) as [[x r'] | | |]; [apply H | eauto..].
Qed.

Lemma wasm_execute_confined_witness :
  bytes (rheap ex_rt2) (mem_ptr (the_module ex_rt1 1)) =
  bytes (rheap ex_rt1) (mem_ptr (the_module ex_rt1 1)).
Proof.
  destruct ex_rt1_ok as [bs Hr].
  pose proof (wasm_execute_confined no_dispatch ex_lo bs ex_rt1 0 _ (bytes_of "main") [] Hr
    (ex_rt1_loaded 0 (or_introl eq_refl)) ex_closed ltac:(constructor)) as H.
  unfold ex_rt2, run_in. pose proof ex_run as Hrun.
  destruct (wasm_execute _ _ _ _ _) as [[x r'] | | |]; [| discriminate Hrun..].
  destruct H as (_ & Hframe & _). apply Hframe.
  - assert ((mem_ptr (the_module ex_rt1 0) + mem_pages (the_module ex_rt1 0) * MEM_PAGE_SIZE <=?
      mem_ptr (the_module ex_rt1 1)) = true) as E by (vm_compute; reflexivity).
    bools. unfold mine. lia.
  - assert ((mem_ptr (the_module ex_rt1 1) <? Heap.next (bump (rheap ex_rt1))) = true) as E
      by (vm_compute; reflexivity).
    bools. unfold fresh. lia.
Defined.

Lemma step_well_typed_witness :
  match step no_dispatch 0 ex_rt1 (start_machine 0 0 (default 0 (code_offsets (the_module ex_rt1 0) !! 0%nat)) [])
  with Done (Ok x, _, s') => machine_ok s' | _ => False end.
Proof.
  destruct ex_rt1_ok as [bs Hr].
  set (start := default 0 _). assert ((0 <=? start) = true) as Hst by (by vm_compute). bools.
  pose proof (step_well_typed no_dispatch ex_lo bs ex_rt1 0 _ (start_machine 0 0 start []) Hr
    (ex_rt1_loaded 0 (or_introl eq_refl)) ex_closed
    (start_machine_ok 0 0 start [] Hst ltac:(done) ltac:(constructor))) as H.
  assert (match step no_dispatch 0 ex_rt1 (start_machine 0 0 start []) with
    Done (Ok _, _, _) => true | _ => false end = true) as Hok by (vm_compute; reflexivity).
  destruct (step _ _ _ _) as [[[[x | e] r'] s'] | | |]; [apply H | discriminate Hok..].
Defined.

Lemma ex_uses : rtc (uses no_dispatch) ex_boot ex_rt1.
Proof.
  assert (∀ r bc, Forall is_byte bc → finishes (wasm_load r 1 (bytes_of "ex") bc) = true →
    uses no_dispatch r (load_into r bc)) as Hload.
  { intros r bc Hb Hf. unfold load_into. destruct (wasm_load _ _ _ _) as [[o r'] | | |] eqn:E;
      [by eapply uses_load | discriminate Hf..]. }
  eapply rtc_l; [| eapply rtc_l; [| apply rtc_refl]];
    (apply Hload; [exact ex_file_bytes | vm_compute; reflexivity]).
Qed.

Lemma reachable_memories_apart_witness :
  mem_ptr (the_module ex_rt1 0) + mem_pages (the_module ex_rt1 0) * MEM_PAGE_SIZE <
    mem_ptr (the_module ex_rt1 1) ∨
  mem_ptr (the_module ex_rt1 1) + mem_pages (the_module ex_rt1 1) * MEM_PAGE_SIZE <
    mem_ptr (the_module ex_rt1 0).
Proof.
  apply (reachable_memories_apart no_dispatch (λ _, 0) ex_lo 0x80800000 new_host_table new_table
    ex_rt1 ltac:(unfold ex_lo; lia) ltac:(lia) ltac:(intros x; unfold is_byte; lia) ex_uses)
    with (i := 0) (j := 1).
  - apply ex_rt1_loaded. by left.
  - apply ex_rt1_loaded. by right.
  - lia.
Defined.

Lemma memory_read_exact_witness : wasm_memory_read ex_rt1 0 (2 ^ 64 - 256) 256 = Panic.
Proof.
  destruct ex_rt1_ok as [bs Hr].
  rewrite (memory_read_exact ex_lo bs ex_rt1 0 _ (2 ^ 64 - 256) 256 Hr
    (ex_rt1_loaded 0 (or_introl eq_refl)) ltac:(lia) ltac:(unfold MEM_PAGE_SIZE; lia)).
  assert ((2 ^ 64 - 256 + 256 <=? mem_pages (the_module ex_rt1 0) * MEM_PAGE_SIZE) = false) as ->
    by (vm_compute; reflexivity).
  reflexivity.
Defined.

Lemma memory_write_read_witness :
  ∃ r', wasm_memory_write ex_rt1 0 100 [1; 2; 3] = Done (Ok (), r') ∧
    wasm_memory_read r' 0 100 3 = Done (Ok [1; 2; 3]).
Proof.
  destruct ex_rt1_ok as [bs Hr].
  destruct (memory_write_read ex_lo bs ex_rt1 0 _ 100 [1; 2; 3] Hr
    (ex_rt1_loaded 0 (or_introl eq_refl))) as (r' & H1 & H2 & _).
  - lia.
  - unfold zlen, MEM_PAGE_SIZE. cbn. lia.
  - apply Z.leb_le. vm_compute. reflexivity.
  - repeat constructor; unfold is_byte; lia.
  - exists r'. split; [exact H1 | exact H2].
Defined.

(** A file of 34 bytes, loaded through the system call with 4062 zeroes behind
    it, and the same with one more byte of code. *)
Definition ex_padded (code : list Z) : list Z :=
  let f := ex_file [code] in f ++ zeros (MAX_WASM_SIZE - zlen f).

Definition ex_odd : WasmModule :=
  empty_module <| bytecode := zeros MAX_WASM_SIZE |> <| bc_len := MAX_WASM_SIZE |>.

Lemma odd_padding_panics_witness :
  parse_loop 5000 ex_odd 35 = Panic ∧
  finishes (sys_wasm_load ex_boot 1 (bytes_of "even") (ex_padded [0x0B; 0x0B])) = true ∧
  sys_wasm_load ex_boot 1 (bytes_of "odd") (ex_padded [0x0B]) = Panic.
Proof.
  split_and!.
  - rewrite (odd_padding_panics ex_odd 5000 35).
    + reflexivity.
    + reflexivity.
    + reflexivity.
    + unfold MAX_WASM_SIZE. lia.
    + intros i Hi. change (bytecode ex_odd) with (zeros MAX_WASM_SIZE).
      apply lookup_replicate. unfold MAX_WASM_SIZE in *. split; [reflexivity | lia].
    + unfold MAX_WASM_SIZE. lia.
  - vm_compute. reflexivity.
  - vm_compute. reflexivity.
Defined.

Lemma ex_rt2_loaded : is_loaded ex_rt2 0 = Some (the_module ex_rt2 0).
Proof. apply loaded_module. by vm_compute. Qed.

Lemma unload_exact_witness :
  wasm_unload ex_rt2 0 = Deadlock ∧ ∃ r', wasm_unload ex_rt1 0 = Done (true, r').
Proof.
  split.
  - destruct ex_rt2_ok as [bs Hr].
    apply (unload_exact ex_lo bs ex_rt2 0 _ Hr ex_rt2_loaded).
    + apply Z.ltb_lt. vm_compute. reflexivity.
    + apply Z.eqb_neq. vm_compute. reflexivity.
  - destruct ex_rt1_ok as [bs Hr].
    destruct (unload_exact ex_lo bs ex_rt1 0 _ Hr (ex_rt1_loaded 0 (or_introl eq_refl)))
      as [H _].
    destruct H as (r' & Hu & _); [vm_compute; reflexivity |]. exists r'. exact Hu.
Defined.
End WasmTable.
