(* ===== verification/WasmExec.v ===== *)
(** * What WASM code computes

    Functional correctness of the interpreter against the instructions of the
    WebAssembly specification.  [arith] gives the numeric instructions their
    specified meaning on unsigned 32-bit numbers; [compile] turns an expression
    over constants, locals and these instructions into bytecode.

    The theorems: LEB128 numbers are read back as they are written
    ([leb128_roundtrip]); each numeric instruction computes its specified function
    and traps where it should ([numeric_correct]); a compiled expression evaluates
    to its value ([expression_correct]); the end of a block is found where the
    block ends, and the [else] of an [if], as long as there is no local.tee
    ([find_end_correct]); a call of a function never comes back, its caller's code
    is not run any further ([call_never_returns]). *)
From Stdlib Require Import String.
From S2P Require Import Prelude Heap Hostcall Wasm Interp WasmSafe WasmTable.
Import Heap Wasm Interp WasmSafe WasmTable.

Module WasmExec.

(** ** LEB128 *)

(** The encodings, at most ten bytes long. *)
Fixpoint uleb (fuel : nat) (n : Z) : list Z :=
  match fuel with
  | O => []
  | S fuel' => if n <? 128 then [n] else (n mod 128 + 128) :: uleb fuel' (n / 128)
  end.

Fixpoint sleb (fuel : nat) (n : Z) : list Z :=
  match fuel with
  | O => []
  | S fuel' =>
      if (-64 <=? n) && (n <? 64) then [n mod 128]
      else (n mod 128 + 128) :: sleb fuel' (n / 128)
  end.

Lemma lor_shifted a b k : 0 <= k → 0 <= a < 2 ^ k → Z.lor a (b * 2 ^ k) = a + b * 2 ^ k.
Proof. intros. rewrite Z.lor_comm, (lor_low _ _ k), Z.add_comm by (done || apply Z_mod_mult). done. Qed.

Lemma land_127 b : Z.land b 127 = b mod 128.
Proof. change 127 with (Z.ones 7). by rewrite Z.land_ones by lia. Qed.

(** The continuation bit. *)
Lemma last_byte n : 0 <= n < 128 → Z.land n 128 =? 0 = true.
Proof.
  intros Hn. apply Z.eqb_eq, Z.bits_inj'. intros i Hi. rewrite Z.land_spec, Z.bits_0.
  destruct (decide (i = 7)) as [-> | Hne].
  - by rewrite (fits_testbit 7 n 7) by done.
  - change 128 with (2 ^ 7). by rewrite Z.pow2_bits_false, andb_false_r by lia.
Qed.

Lemma more_byte n : 0 <= n < 128 → Z.land (n + 128) 128 =? 0 = false.
Proof.
  intros Hn. apply Z.eqb_neq. intros H0.
  assert (Z.testbit (Z.land (n + 128) 128) 7 = true) as Ht; [| by rewrite H0 in Ht].
  rewrite Z.land_spec. apply andb_true_iff. split; [| done].
  change 7 with (0 + 7). rewrite <- Z.div_pow2_bits by lia.
  replace ((n + 128) / 2 ^ 7) with 1 by dlia. done.
Qed.

Lemma leb_u_reads fuel : ∀ n off res sh post,
  0 <= n < 2 ^ (7 * Z.of_nat fuel) → 0 <= sh < 32 → n * 2 ^ sh < 2 ^ 32 → 0 <= res < 2 ^ sh →
  (0 < fuel)%nat →
  leb_u (uleb fuel n ++ post) off res sh = Done (res + n * 2 ^ sh, off + zlen (uleb fuel n)).
Proof.
  induction fuel as [| fuel IH]; intros n off res sh post Hn Hsh Hw Hres Hf; [lia |].
  cbn [uleb]. pose proof (Z.pow_pos_nonneg 2 sh ltac:(lia) ltac:(lia)) as Hp.
  assert (∀ v, 0 <= v <= n → Z.lor res (wrap 32 (Z.shiftl v (sh mod 32))) = res + v * 2 ^ sh) as Hlor.
  { intros v Hv. rewrite (Z.mod_small sh), Z.shiftl_mul_pow2 by lia.
    rewrite wrap_small by (unfold fits; nia). apply lor_shifted; lia. }
  destruct (n <? 128) eqn:E; bools; cbn [app leb_u].
  - rewrite land_127, last_byte, (Z.mod_small n), Hlor by lia. done.
  - pose proof (Z.mod_pos_bound n 128 ltac:(lia)) as Hm.
    rewrite land_127, more_byte by lia.
    replace ((n mod 128 + 128) mod 128) with (n mod 128) by dlia. rewrite Hlor by dlia.
    assert (sh + 7 < 32) as Hsh'.
    { apply (Z.pow_lt_mono_r_iff 2); [lia | lia |]. rewrite Z.pow_add_r by lia. lia. }
    assert (1 <= n / 128) by dlia. destruct fuel as [| fuel]; [cbn in Hn; lia |].
    rewrite IH; [| | lia | | | lia].
    + rewrite Z.pow_add_r by lia. f_equal. f_equal; [| unfold zlen; cbn [length]; lia].
      rewrite (Z.div_mod n 128) at 3 by lia. lia.
    + replace (7 * Z.of_nat (S (S fuel))) with (7 + 7 * Z.of_nat (S fuel)) in Hn by lia.
      rewrite Z.pow_add_r in Hn by lia. split; [dlia |]. apply Z.div_lt_upper_bound; lia.
    + rewrite Z.pow_add_r by lia. pose proof (Z.mul_div_le n 128 ltac:(lia)). nia.
    + rewrite Z.pow_add_r by lia. nia.
Qed.

Lemma bit_6 n : -64 <= n < 64 → negb (Z.land (n mod 128) 64 =? 0) = (n <? 0).
Proof.
  intros Hn. assert (Z.land (n mod 128) 64 = if n <? 0 then 64 else 0) as ->; [| by case_match].
  apply Z.bits_inj'. intros i Hi. rewrite Z.land_spec. change 64 with (2 ^ 6).
  rewrite Z.pow2_bits_eqb by lia. destruct (6 =? i) eqn:Ei; bools.
  - subst i. rewrite andb_true_r, <- (Z.add_0_l 6), <- Z.div_pow2_bits by lia.
    destruct (n <? 0) eqn:E; bools.
    + replace (n mod 128 / 2 ^ 6) with 1 by dlia. done.
    + replace (n mod 128 / 2 ^ 6) with 0 by dlia. done.
  - rewrite andb_false_r. destruct (n <? 0); [| by rewrite Z.bits_0].
    by rewrite Z.pow2_bits_false by lia.
Qed.

Lemma to_signed_id w x : 0 < w → - 2 ^ (w - 1) <= x < 2 ^ (w - 1) → to_signed w x = x.
Proof.
  intros Hw Hx. assert (2 ^ w = 2 * 2 ^ (w - 1)) as Hp.
  { rewrite <- Z.pow_succ_r by lia. f_equal. lia. }
  unfold to_signed, wrap. destruct (Z.lt_ge_cases x 0).
  - replace (x mod 2 ^ w) with (x + 2 ^ w)
      by (rewrite <- (Z_mod_plus_full x 1), Z.mod_small; lia).
    case_match; bools; lia.
  - rewrite Z.mod_small by lia. case_match; bools; lia.
Qed.

Lemma to_signed_cong w x y : x mod 2 ^ w = y mod 2 ^ w → to_signed w x = to_signed w y.
Proof. intros H. unfold to_signed, wrap. by rewrite H. Qed.

(** The last byte, with its sign. *)
Lemma leb_s_last w n res sh :
  -64 <= n < 64 → 0 <= sh < w → - 2 ^ (w - 1 - sh) <= n < 2 ^ (w - 1 - sh) → 0 <= res < 2 ^ sh →
  (let result := Z.lor res (to_signed w (Z.shiftl (Z.land (n mod 128) 127) (sh mod w))) in
   if (sh + 7 <? w) && negb (Z.land (n mod 128) 64 =? 0)
   then Z.lor result (Z.shiftl (-1) (sh + 7)) else result) = res + n * 2 ^ sh.
Proof.
  intros Hn Hsh Hr Hres. rewrite land_127, bit_6, Z.mod_mod, (Z.mod_small sh) by lia.
  rewrite Z.shiftl_mul_pow2 by lia. pose proof (Z.pow_pos_nonneg 2 sh ltac:(lia) ltac:(lia)) as Hp.
  assert (2 ^ (w - 1) = 2 ^ (w - 1 - sh) * 2 ^ sh) as Hw.
  { rewrite <- Z.pow_add_r by lia. f_equal. lia. }
  cbn zeta. destruct (sh + 7 <? w) eqn:E; bools; cbn [andb].
  - assert (2 ^ (sh + 7) <= 2 ^ (w - 1)) by (apply Z.pow_le_mono_r; lia).
    rewrite Z.pow_add_r in * by lia. pose proof (Z.mod_pos_bound n 128 ltac:(lia)).
    rewrite to_signed_id, lor_shifted by (lia || nia).
    destruct (n <? 0) eqn:En; bools.
    + rewrite Z.shiftl_mul_pow2, lor_shifted by (rewrite ?Z.pow_add_r by lia; lia || nia).
      rewrite Z.pow_add_r by lia. replace (n mod 128) with (n + 128) by dlia. lia.
    + replace (n mod 128) with n by dlia. done.
  - rewrite (to_signed_cong w _ (n * 2 ^ sh)).
    + rewrite to_signed_id, lor_shifted by (lia || nia). done.
    + replace (2 ^ w) with (2 ^ (w - sh) * 2 ^ sh) by (rewrite <- Z.pow_add_r by lia; f_equal; lia).
      rewrite !Zmult_mod_distr_r. f_equal.
      assert ((2 ^ (w - sh) | 128)) as Hdiv.
      { exists (2 ^ (7 - (w - sh))). rewrite <- Z.pow_add_r by lia. change 128 with (2 ^ 7).
        f_equal. lia. }
      by apply Z.mod_mod_divide.
Qed.

Lemma leb_s_reads w fuel : ∀ n off res sh post,
  (0 < fuel)%nat → w <= sh + 7 * Z.of_nat fuel → 0 <= sh < w →
  - 2 ^ (w - 1 - sh) <= n < 2 ^ (w - 1 - sh) → 0 <= res < 2 ^ sh →
  leb_s w (sleb fuel n ++ post) off res sh = Done (res + n * 2 ^ sh, off + zlen (sleb fuel n)).
Proof.
  induction fuel as [| fuel IH]; intros n off res sh post Hf Hlen Hsh Hn Hres; [lia |].
  cbn [sleb]. pose proof (Z.pow_pos_nonneg 2 sh ltac:(lia) ltac:(lia)) as Hp.
  pose proof (Z.mod_pos_bound n 128 ltac:(lia)) as Hm.
  destruct ((-64 <=? n) && (n <? 64)) eqn:E; cbn [app leb_s].
  - bools. rewrite last_byte by lia. by rewrite leb_s_last by lia.
  - assert (7 <= w - 1 - sh) as Hk.
    { apply Z.nlt_ge. intros Hlt. assert (2 ^ (w - 1 - sh) <= 2 ^ 6) by (apply Z.pow_le_mono_r; lia).
      apply andb_false_iff in E as [E | E]; bools; lia. }
    rewrite more_byte, land_127 by lia.
    replace ((n mod 128 + 128) mod 128) with (n mod 128) by dlia.
    rewrite (Z.mod_small sh), Z.shiftl_mul_pow2 by lia.
    assert (2 ^ (sh + 7) <= 2 ^ (w - 1)) as Hle by (apply Z.pow_le_mono_r; lia).
    rewrite Z.pow_add_r in Hle by lia. rewrite to_signed_id, lor_shifted by (lia || nia).
    assert (2 ^ (w - 1 - sh) = 128 * 2 ^ (w - 1 - (sh + 7))) as Hpow.
    { change 128 with (2 ^ 7). rewrite <- Z.pow_add_r by lia. f_equal. lia. }
    rewrite IH; [| lia | lia | lia | | ].
    + rewrite Z.pow_add_r by lia. f_equal. f_equal; [| unfold zlen; cbn [length]; lia].
      rewrite (Z.div_mod n 128) at 3 by lia. lia.
    + split; [apply Z.div_le_lower_bound; lia | apply Z.div_lt_upper_bound; lia].
    + rewrite Z.pow_add_r by lia. nia.
Qed.

Lemma drop_zlen {A} (l k : list A) : drop (Z.to_nat (zlen l)) (l ++ k) = k.
Proof. rewrite to_nat_zlen. apply drop_app_length. Qed.

Lemma leb128_u_reads pre n post :
  0 <= n < 2 ^ 32 → leb128_u (pre ++ uleb 5 n ++ post) (zlen pre) = Done (n, zlen pre + zlen (uleb 5 n)).
Proof.
  intros Hn. unfold leb128_u. rewrite drop_zlen.
  rewrite leb_u_reads; [f_equal; f_equal; lia | cbn; lia | lia | lia | lia | lia].
Qed.

Lemma leb128_s_reads pre n post :
  - 2 ^ 31 <= n < 2 ^ 31 →
  leb128_s (pre ++ sleb 5 n ++ post) (zlen pre) = Done (n, zlen pre + zlen (sleb 5 n)).
Proof.
  intros Hn. unfold leb128_s. rewrite drop_zlen.
  rewrite leb_s_reads; [f_equal; f_equal; lia | lia | cbn; lia | lia | cbn; lia | lia].
Qed.

(** The three readers of LEB128 numbers give back what was encoded, wherever
    in the bytecode it stands, and leave the offset behind it: every unsigned
    32-bit number, every signed 32-bit number and every signed 64-bit number. *)
Theorem leb128_roundtrip pre post :
  (∀ n, 0 <= n < 2 ^ 32 →
    leb128_u (pre ++ uleb 5 n ++ post) (zlen pre) = Done (n, zlen pre + zlen (uleb 5 n))) ∧
  (∀ n, - 2 ^ 31 <= n < 2 ^ 31 →
    leb128_s (pre ++ sleb 5 n ++ post) (zlen pre) = Done (n, zlen pre + zlen (sleb 5 n))) ∧
  (∀ n, - 2 ^ 63 <= n < 2 ^ 63 →
    leb128_s64 (pre ++ sleb 10 n ++ post) (zlen pre) = Done (n, zlen pre + zlen (sleb 10 n))).
Proof.
  split_and!; [intros; by apply leb128_u_reads | intros; by apply leb128_s_reads |].
  intros n Hn. unfold leb128_s64. rewrite drop_zlen.
  rewrite leb_s_reads; [f_equal; f_equal; lia | lia | cbn; lia | lia | cbn; lia | lia].
Qed.

(** ** Numeric instructions *)

Inductive arith : Type :=
| Eq | Ne | LtS | LtU | GtS | GtU | LeS | LeU | GeS | GeU
| Add | Sub | Mul | DivS | DivU | RemS | RemU | And | Or | Xor | Shl | ShrS | ShrU | Rotl | Rotr.

Definition opcode (o : arith) : Z :=
  match o with
  | Eq => 0x46 | Ne => 0x47 | LtS => 0x48 | LtU => 0x49 | GtS => 0x4A | GtU => 0x4B
  | LeS => 0x4C | LeU => 0x4D | GeS => 0x4E | GeU => 0x4F
  | Add => 0x6A | Sub => 0x6B | Mul => 0x6C | DivS => 0x6D | DivU => 0x6E | RemS => 0x6F
  | RemU => 0x70 | And => 0x71 | Or => 0x72 | Xor => 0x73 | Shl => 0x74 | ShrS => 0x75
  | ShrU => 0x76 | Rotl => 0x77 | Rotr => 0x78
  end.

(** The two's complement reading of an unsigned 32-bit number. *)
Definition signed (a : Z) : Z := if a <? 2 ^ 31 then a else a - 2 ^ 32.

Definition truth (b : bool) : option Z := Some (if b then 1 else 0).

(** The operators of the specification, on unsigned 32-bit numbers; [None] is a
    trap. *)
Definition spec (o : arith) (a b : Z) : option Z :=
  match o with
  | Eq => truth (a =? b) | Ne => truth (negb (a =? b))
  | LtS => truth (signed a <? signed b) | LtU => truth (a <? b)
  | GtS => truth (signed b <? signed a) | GtU => truth (b <? a)
  | LeS => truth (signed a <=? signed b) | LeU => truth (a <=? b)
  | GeS => truth (signed b <=? signed a) | GeU => truth (b <=? a)
  | Add => Some ((a + b) mod 2 ^ 32) | Sub => Some ((a - b) mod 2 ^ 32)
  | Mul => Some ((a * b) mod 2 ^ 32)
  | DivS => if b =? 0 then None else
            if (signed a =? - 2 ^ 31) && (signed b =? -1) then None else
            Some ((signed a ÷ signed b) mod 2 ^ 32)
  | DivU => if b =? 0 then None else Some (a / b)
  | RemS => if b =? 0 then None else Some (Z.rem (signed a) (signed b) mod 2 ^ 32)
  | RemU => if b =? 0 then None else Some (a mod b)
  | And => Some (Z.land a b) | Or => Some (Z.lor a b) | Xor => Some (Z.lxor a b)
  | Shl => Some (a * 2 ^ (b mod 32) mod 2 ^ 32)
  | ShrS => Some (signed a / 2 ^ (b mod 32) mod 2 ^ 32)
  | ShrU => Some (a / 2 ^ (b mod 32))
  | Rotl => Some (a * 2 ^ (b mod 32) mod 2 ^ 32 + a / 2 ^ (32 - b mod 32))
  | Rotr => Some (a / 2 ^ (b mod 32) + a * 2 ^ (32 - b mod 32) mod 2 ^ 32)
  end.

Lemma u32_of_i32 x : as_u32 (as_i32 x) = as_u32 x.
Proof.
  unfold as_u32, as_i32, to_signed, wrap. case_match; [by apply Z.mod_mod |].
  replace (x mod 2 ^ 32 - 2 ^ 32) with (x mod 2 ^ 32 + -1 * 2 ^ 32) by lia.
  rewrite Z_mod_plus_full. by apply Z.mod_mod.
Qed.

Lemma signed_u32 x : signed (as_u32 x) = as_i32 x.
Proof. done. Qed.

Lemma i32_eqb a b : (as_i32 a =? as_i32 b) = (as_u32 a =? as_u32 b).
Proof.
  destruct (as_u32 a =? as_u32 b) eqn:E; bools.
  - apply Z.eqb_eq. unfold as_i32, to_signed. by change (wrap 32) with as_u32; rewrite E.
  - apply Z.eqb_neq. intros H. apply E. by rewrite <- (u32_of_i32 a), <- (u32_of_i32 b), H.
Qed.

Lemma i32_zero b : (as_i32 b =? 0) = (as_u32 b =? 0).
Proof. change 0 with (as_i32 0) at 1. change 0 with (as_u32 0) at 2. apply i32_eqb. Qed.

(** [f] is [o] on the values the stack holds. *)
Definition agrees (f : Z → Z → result string Z) (o : arith) : Prop := ∀ a b,
  match f a b, spec o (as_u32 a) (as_u32 b) with
  | Ok x, Some v => as_u32 x = v
  | Err _, None => True
  | _, _ => False
  end.

Lemma u32_small x : 0 <= x < 2 ^ 32 → as_u32 x = x.
Proof. intros. by apply wrap_small. Qed.

Lemma agrees_test f o :
  (∀ a b, spec o (as_u32 a) (as_u32 b) = truth (f a b)) → agrees (test f) o.
Proof. intros H a b. unfold test. rewrite H. unfold truth. by destruct (f a b). Qed.

Lemma agrees_arith f g o :
  (∀ a b, spec o a b = Some (g a b mod 2 ^ 32)) →
  (∀ a b, (f a b) mod 2 ^ 32 = g (as_u32 a) (as_u32 b) mod 2 ^ 32) → agrees (pure f) o.
Proof. intros Hs Hf a b. unfold pure. rewrite Hs. apply Hf. Qed.

(** Sums, differences and products only depend on the remainders. *)
Lemma ring_mod f a b :
  (∀ x y x' y', x mod 2 ^ 32 = x' mod 2 ^ 32 → y mod 2 ^ 32 = y' mod 2 ^ 32 →
    f x y mod 2 ^ 32 = f x' y' mod 2 ^ 32) →
  as_i32 (f (as_i32 a) (as_i32 b)) mod 2 ^ 32 = f (as_u32 a) (as_u32 b) mod 2 ^ 32.
Proof.
  intros Hf. change (as_u32 (as_i32 (f (as_i32 a) (as_i32 b))) = f (as_u32 a) (as_u32 b) mod 2 ^ 32).
  rewrite u32_of_i32. apply Hf; rewrite <- u32_of_i32;
    by rewrite <- ?(u32_of_i32 a), <- ?(u32_of_i32 b); unfold as_u32, wrap; rewrite ?Z.mod_mod.
Qed.

Lemma u32_bits f g a b :
  (∀ x y n, 0 <= n → Z.testbit (f x y) n = g (Z.testbit x n) (Z.testbit y n)) →
  g false false = false → as_u32 (f (as_i32 a) (as_i32 b)) = f (as_u32 a) (as_u32 b).
Proof.
  intros Hf Hg. apply Z.bits_inj'. intros n Hn. rewrite Hf by done.
  destruct (Z.lt_ge_cases n 32).
  - unfold as_u32, wrap. rewrite !Z.mod_pow2_bits_low, Hf by lia.
    rewrite <- (Z.mod_pow2_bits_low (as_i32 a) 32), <- (Z.mod_pow2_bits_low (as_i32 b) 32) by lia.
    change (as_i32 a mod 2 ^ 32) with (as_u32 (as_i32 a)).
    change (as_i32 b mod 2 ^ 32) with (as_u32 (as_i32 b)). rewrite !u32_of_i32.
    unfold as_u32, wrap. by rewrite !Z.mod_pow2_bits_low by lia.
  - unfold as_u32, wrap. rewrite !Z.mod_pow2_bits_high by lia. by rewrite Hg.
Qed.

Lemma shift_of_mod b : shift_of b = as_u32 b mod 32.
Proof. unfold shift_of. change 31 with (Z.ones 5). by rewrite Z.land_ones by lia. Qed.

Lemma u32_div a n : 0 <= n → 0 <= as_u32 a / 2 ^ n < 2 ^ 32.
Proof.
  intros Hn. pose proof (shiftr_u32 a n Hn) as H. by rewrite Z.shiftr_div_pow2 in H.
Qed.

(** The two halves of a rotation do not meet. *)
Lemma rot_sum a k :
  0 <= k < 32 →
  as_u32 (Z.lor (wrap 32 (Z.shiftl (as_u32 a) k)) (Z.shiftr (as_u32 a) (32 - k))) =
    as_u32 a * 2 ^ k mod 2 ^ 32 + as_u32 a / 2 ^ (32 - k).
Proof.
  intros Hk. pose proof (as_u32_bound a) as Ha.
  rewrite Z.shiftl_mul_pow2, Z.shiftr_div_pow2 by lia.
  assert (2 ^ 32 = 2 ^ (32 - k) * 2 ^ k) as Hp by (rewrite <- Z.pow_add_r by lia; f_equal; lia).
  unfold wrap at 1. rewrite Hp at 1. rewrite Zmult_mod_distr_r, Z.lor_comm.
  pose proof (Z.pow_pos_nonneg 2 (32 - k) ltac:(lia) ltac:(lia)).
  assert (0 <= as_u32 a / 2 ^ (32 - k) < 2 ^ k) as Hd.
  { split; [apply Z.div_pos; lia | apply Z.div_lt_upper_bound; lia]. }
  pose proof (Z.mod_pos_bound (as_u32 a) (2 ^ (32 - k)) ltac:(lia)).
  rewrite lor_shifted by lia. rewrite u32_small by nia.
  rewrite Hp, Zmult_mod_distr_r. lia.
Qed.

Lemma agrees_shl : agrees (pure (λ a b, wrap 32 (Z.shiftl (as_u32 a) (shift_of b)))) Shl.
Proof.
  intros a b. cbn. pose proof (shift_of_bound b). rewrite Z.shiftl_mul_pow2, <- shift_of_mod by lia.
  by apply u32_small, wrap_u32.
Qed.

Lemma agrees_rotl : agrees (pure (λ a b,
  Z.lor (wrap 32 (Z.shiftl (as_u32 a) (shift_of b))) (Z.shiftr (as_u32 a) (32 - shift_of b)))) Rotl.
Proof. intros a b. cbn. rewrite <- shift_of_mod. apply rot_sum, shift_of_bound. Qed.

Lemma agrees_rotr : agrees (pure (λ a b,
  Z.lor (Z.shiftr (as_u32 a) (shift_of b)) (wrap 32 (Z.shiftl (as_u32 a) (32 - shift_of b))))) Rotr.
Proof.
  intros a b. cbn. pose proof (shift_of_bound b). rewrite <- shift_of_mod, Z.lor_comm.
  destruct (decide (shift_of b = 0)) as [-> | Hne].
  - rewrite Z.shiftl_mul_pow2, Z.shiftr_0_r by lia. unfold wrap. rewrite Z_mod_mult, Z.lor_0_l.
    rewrite Z.div_1_r, u32_small by apply as_u32_bound. lia.
  - replace (shift_of b) with (32 - (32 - shift_of b)) at 2 by lia. rewrite rot_sum by lia.
    replace (32 - (32 - shift_of b)) with (shift_of b) by lia. lia.
Qed.

Lemma agrees_shr_s : agrees (pure (λ a b, Z.shiftr (as_i32 a) (shift_of b))) ShrS.
Proof.
  intros a b. cbn. pose proof (shift_of_bound b).
  by rewrite Z.shiftr_div_pow2, <- shift_of_mod, signed_u32 by lia.
Qed.

Lemma agrees_shr_u : agrees (pure (λ a b, Z.shiftr (as_u32 a) (shift_of b))) ShrU.
Proof.
  intros a b. cbn. pose proof (shift_of_bound b).
  rewrite Z.shiftr_div_pow2, <- shift_of_mod by lia. apply u32_small, u32_div. lia.
Qed.

Lemma agrees_div_s : agrees (λ a b,
  let rhs := as_i32 b in
  if rhs =? 0 then Err ": divide by zero"%string else
  if (as_i32 a =? - 2 ^ 31) && (rhs =? -1) then Err ": overflow"%string else
  Ok (as_i32 a ÷ rhs)) DivS.
Proof.
  intros a b. unfold spec. cbn zeta. rewrite i32_zero, !signed_u32.
  destruct (as_u32 b =? 0); [done |]. by destruct (_ && _).
Qed.

Lemma agrees_rem_s : agrees (λ a b,
  let rhs := as_i32 b in
  if rhs =? 0 then Err ": divide by zero"%string else
  if (as_i32 a =? - 2 ^ 31) && (rhs =? -1) then Ok 0 else Ok (Z.rem (as_i32 a) rhs)) RemS.
Proof.
  intros a b. unfold spec. cbn zeta. rewrite i32_zero, !signed_u32.
  destruct (as_u32 b =? 0); [done |]. destruct (_ && _) eqn:E; [| done]. bools.
  replace (as_i32 b) with (- (1)) by done. by rewrite Z.rem_opp_r, Z.rem_1_r by lia.
Qed.

Lemma agrees_div_u : agrees (λ a b,
  let rhs := as_u32 b in
  if rhs =? 0 then Err ": divide by zero"%string else Ok (as_u32 a / rhs)) DivU.
Proof.
  intros a b. cbn. destruct (as_u32 b =? 0) eqn:E; [done |]. bools. apply u32_small.
  pose proof (as_u32_bound a). pose proof (as_u32_bound b).
  split; [apply Z.div_pos; lia | apply Z.div_lt_upper_bound; nia].
Qed.

Lemma agrees_rem_u : agrees (λ a b,
  let rhs := as_u32 b in
  if rhs =? 0 then Err ": divide by zero"%string else Ok (as_u32 a mod rhs)) RemU.
Proof.
  intros a b. cbn. destruct (as_u32 b =? 0) eqn:E; [done |]. bools. apply u32_small.
  pose proof (as_u32_bound a). pose proof (as_u32_bound b).
  pose proof (Z.mod_pos_bound (as_u32 a) (as_u32 b) ltac:(lia)). lia.
Qed.

Section exec.
Variable dispatch : Z → list Z → Z → runtime → outcome (Z * runtime).
Variable id : Z.

(** Each numeric opcode runs [binop] on a function that agrees with the
    specification. *)
Lemma numeric_op o :
  ∃ what f, instruction dispatch id (opcode o) = binop what f ∧ agrees f o ∧ range_ok f.
Proof.
  destruct o; eexists _, _; (split; [reflexivity | split]); try num;
    try (apply agrees_test; intros a b; cbn; rewrite ?signed_u32, ?i32_eqb; done).
  - apply (agrees_arith _ Z.add); [done |]. intros a b. apply ring_mod.
    intros x y x' y' Hx Hy. by rewrite Z.add_mod, Hx, Hy, <- Z.add_mod by lia.
  - apply (agrees_arith _ Z.sub); [done |]. intros a b. apply ring_mod.
    intros x y x' y' Hx Hy. by rewrite Zminus_mod, Hx, Hy, <- Zminus_mod.
  - apply (agrees_arith _ Z.mul); [done |]. intros a b. apply ring_mod.
    intros x y x' y' Hx Hy. by rewrite Z.mul_mod, Hx, Hy, <- Z.mul_mod by lia.
  - apply agrees_div_s.
  - apply agrees_div_u.
  - apply agrees_rem_s.
  - apply agrees_rem_u.
  - intros a b. cbn. apply (u32_bits Z.land andb); [intros; apply Z.land_spec | done].
  - intros a b. cbn. apply (u32_bits Z.lor orb); [intros; apply Z.lor_spec | done].
  - intros a b. cbn. apply (u32_bits Z.lxor xorb); [intros; apply Z.lxor_spec | done].
  - apply agrees_shl.
  - apply agrees_shr_s.
  - apply agrees_shr_u.
  - apply agrees_rotl.
  - apply agrees_rotr.
Qed.

(** The operands, and the stack with the result in their place. *)
Lemma binop_run what f bc at_ r s a b :
  zlen (value_stack s) = VALUE_STACK_SIZE → 2 <= sp s →
  value_stack s !! Z.to_nat (sp s - 2) = Some a → value_stack s !! Z.to_nat (sp s - 1) = Some b →
  binop what f bc at_ r s =
    match f a b with
    | Ok v => Done (Ok (Jump (at_ + 1)), r,
        s <| value_stack := <[Z.to_nat (sp s - 2) := v]> (value_stack s) |> <| sp := sp s - 1 |>)
    | Err e => Done (Err (what ++ e)%string, r, s)
    end.
Proof.
  intros Hl Hsp Ha Hb. unfold binop, vget, vset, here, put, run, set_sp, mbind, ex_bind, mret, ex_ret.
  destruct (sp s <? 2) eqn:E; bools; [lia |].
  assert (aget (value_stack s) (sp s - 2) = Done a) as -> by (apply aget_lookup; split; [lia | done]).
  assert (aget (value_stack s) (sp s - 1) = Done b) as -> by (apply aget_lookup; split; [lia | done]).
  destruct (f a b) as [v | e]; [| done].
  rewrite aset_in_range; [done |]. apply lookup_lt_Some in Ha. unfold zlen. lia.
Qed.

(** Every numeric instruction with two operands pops them, and either pushes
    a value whose low 32 bits are the result the WebAssembly specification gives
    for the low 32 bits of the operands, or fails exactly where the specification
    traps: on division by zero and on the one signed division that overflows. *)
Theorem numeric_correct o bc at_ r s a b :
  zlen (value_stack s) = VALUE_STACK_SIZE → 2 <= sp s →
  value_stack s !! Z.to_nat (sp s - 2) = Some a → value_stack s !! Z.to_nat (sp s - 1) = Some b →
  match spec o (as_u32 a) (as_u32 b) with
  | Some v => ∃ x, as_u32 x = v ∧ instruction dispatch id (opcode o) bc at_ r s =
      Done (Ok (Jump (at_ + 1)), r,
        s <| value_stack := <[Z.to_nat (sp s - 2) := x]> (value_stack s) |> <| sp := sp s - 1 |>)
  | None => ∃ e, instruction dispatch id (opcode o) bc at_ r s = Done (Err e, r, s)
  end.
Proof.
  intros Hl Hsp Ha Hb. destruct (numeric_op o) as (what & f & -> & Hf & _).
  rewrite (binop_run _ _ _ _ _ _ a b) by done. specialize (Hf a b).
  destruct (f a b), (spec o _ _); naive_solver.
Qed.

(** ** Expressions *)

Inductive expr : Type :=
| Const (n : Z)
| Local (i : Z)
| Eqz (e : expr)
| Bin (o : arith) (e1 e2 : expr).

Fixpoint compile (e : expr) : list Z :=
  match e with
  | Const n => 0x41 :: sleb 5 n
  | Local i => 0x20 :: uleb 5 i
  | Eqz e => compile e ++ [0x45]
  | Bin o e1 e2 => compile e1 ++ compile e2 ++ [opcode o]
  end.

(** Constants are signed 32-bit numbers, locals are among the sixteen. *)
Fixpoint expr_ok (e : expr) : bool :=
  match e with
  | Const n => (- 2 ^ 31 <=? n) && (n <? 2 ^ 31)
  | Local i => (0 <=? i) && (i <? MAX_LOCALS)
  | Eqz e => expr_ok e
  | Bin _ e1 e2 => expr_ok e1 && expr_ok e2
  end.

Fixpoint eval (ls : list Z) (e : expr) : option Z :=
  match e with
  | Const n => Some (as_u32 n)
  | Local i => as_u32 <$> ls !! Z.to_nat i
  | Eqz e => v ← eval ls e; truth (v =? 0)
  | Bin o e1 e2 => a ← eval ls e1; b ← eval ls e2; spec o a b
  end.

(** The instructions, and the stack they need. *)
Fixpoint size (e : expr) : nat :=
  match e with
  | Const _ | Local _ => 1
  | Eqz e => size e + 1
  | Bin _ e1 e2 => size e1 + (size e2 + 1)
  end.

Fixpoint depth (e : expr) : Z :=
  match e with
  | Const _ | Local _ => 1
  | Eqz e => depth e
  | Bin _ e1 e2 => Z.max (depth e1) (1 + depth e2)
  end.

Lemma depth_pos e : 1 <= depth e.
Proof. induction e; cbn; lia. Qed.

(** The code [c] stands at [p]. *)
Definition code_at (bc : list Z) (p : Z) (c : list Z) : Prop :=
  ∃ pre post, bc = pre ++ c ++ post ∧ p = zlen pre.

Lemma code_at_app bc p c d : code_at bc p (c ++ d) → code_at bc p c ∧ code_at bc (p + zlen c) d.
Proof.
  intros (pre & post & -> & ->). split.
  - exists pre, (d ++ post). by rewrite <- app_assoc.
  - exists (pre ++ c), post. by rewrite zlen_app, <- !app_assoc.
Qed.

Lemma code_at_lookup bc p op c : code_at bc p (op :: c) → 0 <= p ∧ bc !! Z.to_nat p = Some op.
Proof.
  intros (pre & post & -> & ->). split; [apply zlen_nonneg |]. rewrite to_nat_zlen.
  by apply list_lookup_middle.
Qed.

(** ** Running code *)

Variables (r : runtime) (m : WasmModule).
Hypothesis Hid : 0 <= id.
Hypothesis Hm : modules r !! Z.to_nat id = Some m.
Hypothesis Hlen : 0 <= bc_len m <= zlen (bytecode m).

Definition code : list Z := take (Z.to_nat (bc_len m)) (bytecode m).

(** The frame on top, and room for values. *)
Definition top (s : machine) (f : Frame) : Prop :=
  0 <= fp s ∧ call_stack s !! Z.to_nat (fp s) = Some f ∧
  zlen (value_stack s) = VALUE_STACK_SIZE ∧ 0 <= sp s.

Lemma step_at s f op :
  top s f → 0 <= pc f → code !! Z.to_nat (pc f) = Some op →
  step dispatch id r s = instruction dispatch id op code (pc f) r s.
Proof.
  intros (Hfp & Hf & _) Hpc Hop.
  assert (aget (call_stack s) (fp s) = Done f) as Hgf by (by apply aget_lookup).
  assert (aget (modules r) id = Done m) as Hgm by (by apply aget_lookup).
  assert (aget code (pc f) = Done op) as Hgo by (by apply aget_lookup).
  unfold step, top_frame, module_ref, here, there, run, mbind, ex_bind. rewrite Hgf, Hgm.
  rewrite aslice_in_range by lia. rewrite Z.sub_0_r, drop_0. fold code.
  destruct (zlen code <=? pc f) eqn:E; bools; [| by rewrite Hgo].
  apply lookup_lt_Some in Hop. unfold zlen in E. lia.
Qed.

(** Cycles that lead from one state to another, whatever budget is left. *)
Definition runs (n : nat) (s s' : machine) : Prop :=
  ∀ k, exec_loop dispatch id (n + k) r s = exec_loop dispatch id k r s'.

(** Cycles that end in an error. *)
Definition fails (n : nat) (s : machine) : Prop :=
  ∃ e s', ∀ k, exec_loop dispatch id (n + k) r s = Done (Err e, r, s').

Lemma runs_trans n n' s s1 s2 : runs n s s1 → runs n' s1 s2 → runs (n + n') s s2.
Proof. intros H1 H2 k. by rewrite <- Nat.add_assoc, H1, H2. Qed.

Lemma runs_fails n n' s s1 : runs n s s1 → fails n' s1 → fails (n + n') s.
Proof. intros H1 (e & s' & H2). exists e, s'. intros k. by rewrite <- Nat.add_assoc, H1. Qed.

Lemma fails_more n n' s : fails n s → fails (n + n') s.
Proof. intros (e & s' & H). exists e, s'. intros k. by rewrite <- Nat.add_assoc. Qed.

(** One instruction that jumps. *)
Lemma run_one s f op p s1 :
  top s f → 0 <= pc f → code !! Z.to_nat (pc f) = Some op →
  instruction dispatch id op code (pc f) r s = Done (Ok (Jump p), r, s1) →
  fp s1 = fp s → call_stack s1 = call_stack s →
  runs 1 s (s1 <| call_stack := <[Z.to_nat (fp s) := f <| pc := p |>]> (call_stack s) |>).
Proof.
  intros Ht Hpc Hop Hi Hfp Hcs k. change (1 + k)%nat with (S k). cbn [exec_loop].
  unfold mbind at 1, ex_bind at 1. rewrite (step_at s f op), Hi by done.
  destruct Ht as (H0 & Hf & _).
  assert (aget (call_stack s) (fp s) = Done f) as Hgf by (by apply aget_lookup).
  unfold goto, top_frame, set_frame, here, put, run, mbind, ex_bind. rewrite Hcs, Hfp, Hgf, Hcs, Hfp.
  rewrite aset_in_range; [done |]. by apply aget_done_range in Hgf.
Qed.

Lemma fail_one s f op e s1 :
  top s f → 0 <= pc f → code !! Z.to_nat (pc f) = Some op →
  instruction dispatch id op code (pc f) r s = Done (Err e, r, s1) → fails 1 s.
Proof.
  intros Ht Hpc Hop Hi. exists e, s1. intros k. change (1 + k)%nat with (S k). cbn [exec_loop].
  unfold mbind, ex_bind. by rewrite (step_at s f op), Hi.
Qed.

(** One value more on the stack of [s], the place moved on; what lies below is
    as it was. *)
Definition pushed (s : machine) (f : Frame) (x p : Z) (s' : machine) : Prop :=
  ∃ vs, s' = s <| value_stack := vs |> <| sp := sp s + 1 |>
               <| call_stack := <[Z.to_nat (fp s) := f <| pc := p |>]> (call_stack s) |> ∧
    zlen vs = VALUE_STACK_SIZE ∧ vs !! Z.to_nat (sp s) = Some x ∧
    ∀ i, (i < Z.to_nat (sp s))%nat → vs !! i = value_stack s !! i.

Lemma pushed_top s f x p s' : top s f → pushed s f x p s' → top s' (f <| pc := p |>).
Proof.
  intros (Hfp & Hf & Hl & Hsp) (vs & -> & Hvs & _ & _). split_and!; cbn; [done | | done | lia].
  apply list_lookup_insert_eq. by eapply lookup_lt_Some.
Qed.

Lemma push_checked_run v s :
  zlen (value_stack s) = VALUE_STACK_SIZE → 0 <= sp s < VALUE_STACK_SIZE →
  push_checked v r s = Done (Ok (), r,
    s <| value_stack := <[Z.to_nat (sp s) := v]> (value_stack s) |> <| sp := sp s + 1 |>).
Proof.
  intros Hl Hsp. unfold push_checked, push, vset, set_sp, here, put, run, mbind, ex_bind.
  destruct (VALUE_STACK_SIZE <=? sp s) eqn:E; bools; [lia |]. by rewrite aset_in_range by lia.
Qed.

(** An instruction that pushes a constant or a local. *)
Lemma push_pushes s f op v p :
  top s f → sp s < VALUE_STACK_SIZE → 0 <= pc f → code !! Z.to_nat (pc f) = Some op →
  instruction dispatch id op code (pc f) r s = (_ ← push_checked v; mret (Jump p)) r s →
  ∃ s', pushed s f v p s' ∧ runs 1 s s'.
Proof.
  intros Ht Hroom Hpc Hop Hi. pose proof Ht as (_ & _ & Hl & Hsp).
  unfold mbind, ex_bind in Hi. rewrite push_checked_run in Hi by lia.
  eexists. split; [| by eapply run_one].
  exists (<[Z.to_nat (sp s) := v]> (value_stack s)). split_and!; [done | | |].
  - by rewrite zlen_insert.
  - apply list_lookup_insert_eq. unfold zlen in Hl. lia.
  - intros i Hi'. by rewrite list_lookup_insert_ne by lia.
Qed.

(** An instruction that puts another value in place of the top one. *)
Lemma replaces_pushes s f s1 p1 x op y p :
  top s f → pushed s f x p1 s1 → 0 <= p1 → code !! Z.to_nat p1 = Some op →
  instruction dispatch id op code p1 r s1 = Done (Ok (Jump p), r,
    s1 <| value_stack := <[Z.to_nat (sp s) := y]> (value_stack s1) |>) →
  ∃ s', pushed s f y p s' ∧ runs 1 s1 s'.
Proof.
  intros Ht Hp Hp1 Hop Hi. pose proof (pushed_top _ _ _ _ _ Ht Hp) as Ht1.
  pose proof (run_one _ _ _ _ _ Ht1 Hp1 Hop Hi eq_refl eq_refl) as Hr.
  destruct Hp as (vs & -> & Hvs & Hx & Hlow). eexists. split; [| exact Hr].
  exists (<[Z.to_nat (sp s) := y]> vs). split_and!.
  - cbn. by rewrite list_insert_insert_eq.
  - by rewrite zlen_insert.
  - apply list_lookup_insert_eq. by eapply lookup_lt_Some.
  - intros i Hi'. by rewrite list_lookup_insert_ne, Hlow by lia.
Qed.

(** Two values pushed one after the other and then taken by an instruction. *)
Lemma pushed_twice s f s1 s2 x1 x2 p1 p2 what g bc at_ :
  top s f → pushed s f x1 p1 s1 → pushed s1 (f <| pc := p1 |>) x2 p2 s2 →
  binop what g bc at_ r s2 =
    match g x1 x2 with
    | Ok v => Done (Ok (Jump (at_ + 1)), r,
        s2 <| value_stack := <[Z.to_nat (sp s) := v]> (value_stack s2) |> <| sp := sp s + 1 |>)
    | Err e => Done (Err (what ++ e)%string, r, s2)
    end.
Proof.
  intros (_ & _ & _ & Hsp) (vs1 & -> & Hvs1 & Hx1 & Hlow1) (vs2 & -> & Hvs2 & Hx2 & Hlow2).
  cbn in Hlow2, Hx2. rewrite (binop_run _ _ _ _ _ _ x1 x2); cbn.
  - by replace (sp s + 1 + 1 - 2) with (sp s) by lia; replace (sp s + 1 + 1 - 1) with (sp s + 1) by lia.
  - done.
  - lia.
  - replace (sp s + 1 + 1 - 2) with (sp s) by lia. by rewrite Hlow2 by lia.
  - by replace (sp s + 1 + 1 - 1) with (sp s + 1) by lia.
Qed.

Lemma binop_pushes s f s1 s2 x1 x2 p1 p2 op what g y :
  top s f → pushed s f x1 p1 s1 → pushed s1 (f <| pc := p1 |>) x2 p2 s2 →
  0 <= p2 → code !! Z.to_nat p2 = Some op →
  instruction dispatch id op = binop what g → g x1 x2 = Ok y →
  ∃ s', pushed s f y (p2 + 1) s' ∧ runs 1 s2 s'.
Proof.
  intros Ht H1 H2 Hp2 Hop Hi Hg. pose proof (pushed_top _ _ _ _ _ Ht H1) as Ht1.
  pose proof (pushed_top _ _ _ _ _ Ht1 H2) as Ht2.
  pose proof (pushed_twice s f s1 s2 x1 x2 p1 p2 what g code p2 Ht H1 H2) as Hb.
  rewrite Hg, <- Hi in Hb. pose proof (run_one _ _ _ _ _ Ht2 Hp2 Hop Hb eq_refl eq_refl) as Hr.
  destruct Ht as (_ & _ & _ & Hsp).
  destruct H1 as (vs1 & -> & Hvs1 & Hx1 & Hlow1). destruct H2 as (vs2 & -> & Hvs2 & Hx2 & Hlow2).
  cbn in Hlow2. eexists. split; [| exact Hr].
  exists (<[Z.to_nat (sp s) := y]> vs2). cbn. rewrite !list_insert_insert_eq.
  split_and!; [done | by rewrite zlen_insert | |].
  - apply list_lookup_insert_eq. apply lookup_lt_Some in Hx1. unfold zlen in *. lia.
  - intros i Hi'. by rewrite list_lookup_insert_ne, Hlow2, Hlow1 by lia.
Qed.

Lemma binop_fails s f s1 s2 x1 x2 p1 p2 op what g e :
  top s f → pushed s f x1 p1 s1 → pushed s1 (f <| pc := p1 |>) x2 p2 s2 →
  0 <= p2 → code !! Z.to_nat p2 = Some op →
  instruction dispatch id op = binop what g → g x1 x2 = Err e → fails 1 s2.
Proof.
  intros Ht H1 H2 Hp2 Hop Hi Hg. pose proof (pushed_top _ _ _ _ _ Ht H1) as Ht1.
  pose proof (pushed_top _ _ _ _ _ Ht1 H2) as Ht2.
  eapply fail_one; [exact Ht2 | done | exact Hop |].
  rewrite Hi, (pushed_twice s f s1 s2 x1 x2 p1 p2) by done. by rewrite Hg.
Qed.

(** The code of an expression at the place of the frame pushes its value, or
    fails where the expression traps. *)
Definition computes (e : expr) (s : machine) (f : Frame) : Prop :=
  match eval (locals f) e with
  | Some v => ∃ x s', as_u32 x = v ∧ pushed s f x (pc f + zlen (compile e)) s' ∧ runs (size e) s s'
  | None => fails (size e) s
  end.

Lemma compute_const n s f :
  expr_ok (Const n) → top s f → code_at code (pc f) (compile (Const n)) →
  sp s < VALUE_STACK_SIZE → computes (Const n) s f.
Proof.
  intros Hok Ht Hc Hroom. cbn in Hok. apply Is_true_true in Hok. bools.
  pose proof (code_at_lookup _ _ _ _ Hc) as [Hpc Hop].
  destruct (push_pushes s f 0x41 n (pc f + zlen (compile (Const n))) Ht Hroom Hpc Hop)
    as (s' & Hs' & Hr); [| by exists n, s'].
  destruct Hc as (pre & post & Hcode & Hp). cbn [compile] in Hcode.
  change (instruction dispatch id 0x41) with i32_const. unfold i32_const.
  replace code with ((pre ++ [0x41]) ++ sleb 5 n ++ post) by (by rewrite Hcode, <- app_assoc).
  rewrite Hp. replace (zlen pre + 1) with (zlen (pre ++ [0x41])) by (by rewrite zlen_app).
  unfold run, mbind, ex_bind. rewrite leb128_s_reads by lia.
  rewrite zlen_app. cbn [compile]. change (zlen (0x41 :: sleb 5 n)) with (zlen ([0x41] ++ sleb 5 n)).
  by rewrite zlen_app, Z.add_assoc.
Qed.

Lemma compute_local i s f :
  expr_ok (Local i) → top s f → code_at code (pc f) (compile (Local i)) →
  sp s < VALUE_STACK_SIZE → zlen (locals f) = MAX_LOCALS → computes (Local i) s f.
Proof.
  intros Hok Ht Hc Hroom Hls. cbn in Hok. apply Is_true_true in Hok. bools.
  pose proof (code_at_lookup _ _ _ _ Hc) as [Hpc Hop].
  destruct (lookup_lt_is_Some_2 (locals f) (Z.to_nat i)) as [x Hx]; [unfold zlen in Hls; lia |].
  unfold computes. cbn [eval]. rewrite Hx. cbn [fmap option_fmap option_map].
  destruct (push_pushes s f 0x20 x (pc f + zlen (compile (Local i))) Ht Hroom Hpc Hop)
    as (s' & Hs' & Hr); [| by exists x, s'].
  destruct Ht as (Hfp & Hf & _). destruct Hc as (pre & post & Hcode & Hp). cbn [compile] in Hcode.
  change (instruction dispatch id 0x20) with local_get. unfold local_get, unsigned.
  replace code with ((pre ++ [0x20]) ++ uleb 5 i ++ post) by (by rewrite Hcode, <- app_assoc).
  rewrite Hp. replace (zlen pre + 1) with (zlen (pre ++ [0x20])) by (by rewrite zlen_app).
  assert (aget (call_stack s) (fp s) = Done f) as Hgf by (by apply aget_lookup).
  assert (aget (locals f) i = Done x) as Hgx by (apply aget_lookup; split; [lia | done]).
  unfold top_frame, here, run, mbind, ex_bind.
  rewrite leb128_u_reads by (unfold MAX_LOCALS in *; lia).
  destruct (MAX_LOCALS <=? i) eqn:E; bools; [lia |]. rewrite Hgf, Hgx.
  rewrite zlen_app. cbn [compile]. change (zlen (0x20 :: uleb 5 i)) with (zlen ([0x20] ++ uleb 5 i)).
  by rewrite zlen_app, Z.add_assoc.
Qed.

Lemma unop_run what f bc at_ s x :
  1 <= sp s → value_stack s !! Z.to_nat (sp s - 1) = Some x →
  unop what f bc at_ r s = Done (Ok (Jump (at_ + 1)), r,
    s <| value_stack := <[Z.to_nat (sp s - 1) := f x]> (value_stack s) |>).
Proof.
  intros Hsp Hx. unfold unop, vget, vset, here, put, run, mbind, ex_bind, mret, ex_ret.
  destruct (sp s =? 0) eqn:E; bools; [lia |].
  assert (aget (value_stack s) (sp s - 1) = Done x) as -> by (apply aget_lookup; split; [lia | done]).
  rewrite aset_in_range; [done |]. apply lookup_lt_Some in Hx. unfold zlen. lia.
Qed.

Lemma compute_eqz s f x p s1 :
  top s f → pushed s f x p s1 → 0 <= p → code !! Z.to_nat p = Some 0x45 →
  ∃ y s', as_u32 y = (if as_u32 x =? 0 then 1 else 0) ∧ pushed s f y (p + 1) s' ∧ runs 1 s1 s'.
Proof.
  intros Ht Hp Hp0 Hop. exists (if as_u32 x =? 0 then 1 else 0).
  destruct (replaces_pushes s f s1 p x 0x45 (if as_u32 x =? 0 then 1 else 0) (p + 1))
    as (s' & Hs' & Hr); [done | done | done | done | | exists s'; split; [by case_match | done]].
  destruct Ht as (_ & _ & _ & Hsp). destruct Hp as (vs & -> & Hvs & Hx & _).
  change (instruction dispatch id 0x45) with i32_eqz. unfold i32_eqz.
  assert (sp s + 1 - 1 = sp s) as He by lia.
  rewrite (unop_run _ _ _ _ _ x); cbn; [by rewrite He, i32_zero | lia | by rewrite He].
Qed.

Lemma pc_moves bc (f : Frame) c : code_at bc (pc f) c → 0 <= pc f + zlen c.
Proof. intros (pre & post & _ & ->). pose proof (zlen_nonneg pre). pose proof (zlen_nonneg c). lia. Qed.

Lemma compile_computes e : ∀ s f,
  expr_ok e → top s f → zlen (locals f) = MAX_LOCALS → code_at code (pc f) (compile e) →
  sp s + depth e <= VALUE_STACK_SIZE → computes e s f.
Proof.
  induction e as [n | i | e IH | o e1 IH1 e2 IH2]; intros s f Hok Ht Hls Hc Hd.
  - apply compute_const; cbn in *; (done || lia).
  - apply compute_local; cbn in *; (done || lia).
  - cbn [compile] in Hc. apply code_at_app in Hc as [Hc Hop%code_at_lookup].
    specialize (IH s f Hok Ht Hls Hc Hd). unfold computes in *. cbn [eval size compile].
    destruct (eval (locals f) e) as [v |]; cbn; [| by apply fails_more].
    destruct IH as (x & s1 & <- & H1 & R1).
    destruct (compute_eqz s f x (pc f + zlen (compile e)) s1) as (y & s' & Hy & H2 & R2);
      [done | done | by apply Hop | by apply Hop |].
    exists y, s'. rewrite zlen_app, Z.add_assoc. split_and!; [done | done |].
    by eapply runs_trans.
  - cbn [compile] in Hc. apply code_at_app in Hc as [Hc1 Hc].
    apply code_at_app in Hc as [Hc2 Hop%code_at_lookup]. destruct Hop as [Hpos Hop].
    cbn [expr_ok] in Hok. apply andb_True in Hok as [Hok1 Hok2]. cbn [depth] in Hd.
    specialize (IH1 s f Hok1 Ht Hls Hc1 ltac:(lia)). unfold computes in *. cbn [eval size compile].
    destruct (eval (locals f) e1) as [a |]; cbn [mbind option_bind]; [| by apply fails_more].
    destruct IH1 as (x1 & s1 & <- & H1 & R1).
    pose proof (pushed_top _ _ _ _ _ Ht H1) as Ht1.
    assert (sp s1 = sp s + 1) as Hsp1 by (by destruct H1 as (vs & -> & _)).
    specialize (IH2 s1 _ Hok2 Ht1 Hls Hc2 ltac:(lia)). change (eval _ e2) with (eval (locals f) e2) in IH2.
    destruct (eval (locals f) e2) as [b |]; cbn [mbind option_bind];
      [| eapply runs_fails; [done | by apply fails_more]].
    destruct IH2 as (x2 & s2 & <- & H2 & R2).
    destruct (numeric_op o) as (what & g & Hg & Hag & _). specialize (Hag x1 x2).
    destruct (g x1 x2) as [y | err] eqn:Hy, (spec o (as_u32 x1) (as_u32 x2)) as [v |] eqn:Hv;
      try done.
    + destruct (binop_pushes s f s1 s2 x1 x2 _ _ _ what g y Ht H1 H2 Hpos Hop Hg Hy)
        as (s' & H3 & R3).
      exists y, s'. rewrite !zlen_app, !Z.add_assoc. split_and!; [done | done |].
      eapply runs_trans; [exact R1 |]. by eapply runs_trans; [exact R2 |].
    + eapply runs_fails; [done |]. eapply runs_fails; [done |].
      by apply (binop_fails s f s1 s2 x1 x2 _ _ _ what g err Ht H1 H2 Hpos Hop Hg Hy).
Qed.

(** The [end] of a function: its control frame is popped and the run is over. *)
Lemma end_stops s f c k :
  top s f → 0 <= pc f → code !! Z.to_nat (pc f) = Some 0x0B →
  1 <= cp s → ctrl_stack s !! Z.to_nat (cp s - 1) = Some c → kind c = CTRL_FUNC →
  exec_loop dispatch id (S k) r s = Done (Ok k, r, s <| cp := cp s - 1 |>).
Proof.
  intros Ht Hpc Hop Hcp Hc Hk. cbn [exec_loop]. unfold mbind, ex_bind.
  rewrite (step_at s f 0x0B) by done. change (instruction dispatch id 0x0B) with end_block.
  unfold end_block, here, put, run, mbind, ex_bind, mret, ex_ret.
  destruct (cp s =? 0) eqn:E; bools; [lia |].
  assert (aget (ctrl_stack s) (cp s - 1) = Done c) as -> by (apply aget_lookup; split; [lia | done]).
  by rewrite Hk.
Qed.

(** An expression and the end of its function. *)
Lemma function_ends e s f c :
  expr_ok e → top s f → zlen (locals f) = MAX_LOCALS →
  (∃ rest, code_at code (pc f) (compile e ++ 0x0B :: rest)) →
  sp s + depth e <= VALUE_STACK_SIZE →
  1 <= cp s → ctrl_stack s !! Z.to_nat (cp s - 1) = Some c → kind c = CTRL_FUNC →
  match eval (locals f) e with
  | Some v => ∃ x s', as_u32 x = v ∧ sp s' = sp s + 1 ∧ value_stack s' !! Z.to_nat (sp s) = Some x ∧
      ∀ k, exec_loop dispatch id (size e + S k) r s = Done (Ok k, r, s')
  | None => ∃ msg s', ∀ k, exec_loop dispatch id (size e + S k) r s = Done (Err msg, r, s')
  end.
Proof.
  intros Hok Ht Hls [rest Hc] Hd Hcp Hctrl Hk. apply code_at_app in Hc as [Hc [Hpos Hop]%code_at_lookup].
  pose proof (compile_computes e s f Hok Ht Hls Hc Hd) as H. unfold computes in H.
  destruct (eval (locals f) e) as [v |].
  - destruct H as (x & s1 & Hx & H1 & R1). pose proof (pushed_top _ _ _ _ _ Ht H1) as Ht1.
    exists x, (s1 <| cp := cp s - 1 |>). destruct H1 as (vs & -> & Hvs & Hxv & _).
    split_and!; [done | done | done |]. intros k. rewrite R1.
    exact (end_stops _ _ c k Ht1 Hpos Hop Hcp Hctrl Hk).
  - destruct H as (msg & s' & H). exists msg, s'. intros k. apply H.
Qed.

(** ** Calls *)

(** Where a function of a module starts, and how many parameters it has. *)
Definition start_of (m : WasmModule) (def : Z) : Z := default 0 (code_offsets m !! Z.to_nat def).
Definition params_of (m : WasmModule) (def : Z) : Z :=
  types_at (type_params m) (default 0 (func_types m !! Z.to_nat def)).

Lemma function_entries def :
  module_ok m → 0 <= def < num_functions m →
  aget (func_types m) def = Done (default 0 (func_types m !! Z.to_nat def)) ∧
  aget (code_offsets m) def = Done (start_of m def).
Proof.
  intros Hok Hdef. pose proof (mo_funcs _ Hok) as (Hnf & Hft & Hftb).
  pose proof (mo_offsets _ Hok) as (Hof & _). split.
  - destruct (aget_in_range (func_types m) def) as [x Hx]; [lia |].
    rewrite Hx. apply aget_lookup in Hx as [_ Hx]. by rewrite Hx.
  - destruct (aget_in_range (code_offsets m) def) as [x Hx]; [lia |].
    rewrite Hx. apply aget_lookup in Hx as [_ Hx]. unfold start_of. by rewrite Hx.
Qed.

(** Reduces the updates of a state. *)
Ltac machine_step := cbn -[aget aset aslice zeros Z.leb CALL_STACK_SIZE MAX_LOCALS exec_loop start_of].

(** The state after the call of a function with one parameter. *)
Definition called (s : machine) (f : Frame) (def x back : Z) : machine :=
  s <| call_stack := <[Z.to_nat (fp s + 1) := MkFrame def (start_of m def) (sp s - 1) (x :: zeros 15)]>
                       (<[Z.to_nat (fp s) := f <| pc := back |>]> (call_stack s)) |>
    <| fp := fp s + 1 |> <| sp := sp s - 1 |>
    <| ctrl_stack := <[Z.to_nat (cp s) := MkCtrl CTRL_FUNC 0 (sp s - 1)]> (ctrl_stack s) |>
    <| cp := cp s + 1 |>.

Lemma call_defined_run s f def back x :
  module_ok m → 0 <= def < num_functions m → params_of m def = 1 →
  top s f → 1 <= sp s → value_stack s !! Z.to_nat (sp s - 1) = Some x →
  fp s + 1 < CALL_STACK_SIZE → zlen (call_stack s) = CALL_STACK_SIZE →
  0 <= cp s < CALL_STACK_SIZE → zlen (ctrl_stack s) = CALL_STACK_SIZE →
  call_defined m def back r s = Done (Ok (Jump (start_of m def)), r, called s f def x back).
Proof.
  intros Hok Hdef Hpar (Hfp & Hf & Hl & Hsp0) Hsp Hx Hfp' Hcl Hcp Hcs.
  destruct (function_entries def Hok Hdef) as [H1 H2]. unfold params_of in Hpar.
  unfold call_defined, push_ctrl, set_frame, set_sp, take_args, top_frame, here, put, run.
  unfold mbind, ex_bind, mret, ex_ret.
  destruct (num_functions m <=? def) eqn:E; bools; [lia |]. rewrite H1, Hpar.
  destruct (sp s <? 1) eqn:E1; bools; [lia |].
  assert (aget (call_stack s) (fp s) = Done f) as -> by (by apply aget_lookup).
  rewrite aset_in_range by lia. machine_step.

  destruct (CALL_STACK_SIZE <=? fp s + 1) eqn:E2; bools; [lia |]. rewrite H2.
  machine_step.
  assert (aslice (value_stack s) (sp s - 1) (sp s - 1 + 1 `min` MAX_LOCALS) = Done [x]) as ->.
  { change (1 `min` MAX_LOCALS) with 1. apply lookup_lt_Some in Hx as Hlt.
    rewrite aslice_in_range by (unfold zlen in *; lia).
    replace (Z.to_nat (sp s - 1 + 1 - (sp s - 1))) with 1%nat by lia.
    by rewrite (drop_S _ _ _ Hx). }
  machine_step.
  rewrite aset_in_range by (rewrite zlen_insert; lia).
  machine_step.
  destruct (CALL_STACK_SIZE <=? cp s) eqn:E3; bools; [lia |].
  machine_step.
  rewrite aset_in_range by lia. done.
Qed.

(** The call of a function with one parameter, from the code after its argument. *)
Lemma call_runs s f idx x rest :
  module_ok m → num_imports m <= idx < num_imports m + num_functions m → idx < 2 ^ 32 →
  params_of m (idx - num_imports m) = 1 →
  top s f → code_at code (pc f) (0x10 :: uleb 5 idx ++ rest) →
  1 <= sp s → value_stack s !! Z.to_nat (sp s - 1) = Some x →
  fp s + 1 < CALL_STACK_SIZE → zlen (call_stack s) = CALL_STACK_SIZE →
  0 <= cp s < CALL_STACK_SIZE → zlen (ctrl_stack s) = CALL_STACK_SIZE →
  runs 1 s (called s f (idx - num_imports m) x (pc f + 1 + zlen (uleb 5 idx))).
Proof.
  intros Hok Hidx Hidx' Hpar Ht Hc Hsp Hx Hfp Hcl Hcp Hcs k. change (1 + k)%nat with (S k).
  pose proof (code_at_lookup _ _ _ _ Hc) as [Hpc Hop]. cbn [exec_loop].
  unfold mbind at 1, ex_bind at 1. rewrite (step_at s f 0x10) by done.
  change (instruction dispatch id 0x10) with (call dispatch id).
  pose proof (mo_imports _ Hok) as [Him _]. destruct Hc as (pre & post & Hcode & Hp).
  assert (leb128_u code (pc f + 1) = Done (idx, pc f + 1 + zlen (uleb 5 idx))) as Hleb.
  { replace (pc f + 1) with (zlen (pre ++ [0x10])) by (by rewrite zlen_app, Hp).
    replace code with ((pre ++ [0x10]) ++ uleb 5 idx ++ rest ++ post)
      by (by rewrite Hcode, <- app_assoc; cbn; rewrite <- app_assoc).
    apply leb128_u_reads. lia. }
  assert (aget (modules r) id = Done m) as Hgm by (by apply aget_lookup).
  unfold call, unsigned, module_ref, there, run, mbind at 1, ex_bind at 1. rewrite Hleb.
  unfold mbind at 1 2, ex_bind at 1 2. rewrite Hgm.
  destruct (idx <? num_imports m) eqn:E; bools; [lia |].
  rewrite (call_defined_run s f _ _ x) by (done || lia).
  assert (fp s + 1 < zlen (call_stack s)) as Hlt by lia. destruct Ht as (Hfp0 & _).
  unfold goto, top_frame, set_frame, here, put, run, called, mbind, ex_bind.
  machine_step.
  rewrite aget_insert_eq by (rewrite zlen_insert; lia). machine_step.
  rewrite aset_in_range by (rewrite !zlen_insert; lia).
  machine_step. by rewrite list_insert_insert_eq.
Qed.

End exec.

(** ** Running an export *)

(** The module of a slot and the number of the function it exports by a name. *)
Definition exported (r : runtime) (id : Z) (fname : list Z) : option (WasmModule * Z) :=
  m ← is_loaded r id;
  match find_export m fname with
  | Done (Some i) =>
      if (num_imports m <=? i) && (i - num_imports m <? num_functions m)
      then Some (m, i - num_imports m) else None
  | _ => None
  end.

(** The locals a function starts with. *)
Definition frame_locals (nparams : Z) (args : list Z) : list Z :=
  let used := take (Z.to_nat (Z.min nparams MAX_LOCALS)) args in used ++ zeros (MAX_LOCALS - zlen used).

Lemma frame_locals_len n args : zlen (frame_locals n args) = MAX_LOCALS.
Proof.
  unfold frame_locals. rewrite zlen_app, zlen_zeros; [lia |].
  unfold zlen. rewrite length_take. unfold MAX_LOCALS. lia.
Qed.

Lemma exported_Some lo bs r id fname m def :
  runtime_ok lo bs r → exported r id fname = Some (m, def) →
  is_loaded r id = Some m ∧ module_ok m ∧ 0 <= def < num_functions m ∧
  aget (func_types m) def = Done (default 0 (func_types m !! Z.to_nat def)) ∧
  aget (code_offsets m) def = Done (start_of m def) ∧
  ∀ dispatch args, zlen args <= VALUE_STACK_SIZE →
    wasm_execute dispatch id r fname args =
    run_machine dispatch id r (start_machine def (params_of m def) (start_of m def) args).
Proof.
  intros Hr He. unfold exported in He. destruct (is_loaded r id) as [m' |] eqn:Hid; [| done].
  cbn in He. destruct (find_export m' fname) as [[i |] | | |] eqn:Hf; try done.
  destruct (num_imports m' <=? i) eqn:E1, (i - num_imports m' <? num_functions m') eqn:E2; try done.
  injection He as -> <-. bools. pose proof Hid as (Hrange & Hm & Hl)%is_loaded_Some.
  assert (module_ok m) as Hok by (eapply Forall_lookup_1; [apply Hr | done]).
  destruct (function_entries m (i - num_imports m) Hok ltac:(lia)) as [H1 H2].
  split_and!; [done | done | lia | lia | done | done |]. intros dispatch args Hargs.
  unfold wasm_execute. rewrite Hid, Hf. cbn [mbind outcome_bind].
  destruct (i <? num_imports m) eqn:E3; bools; [lia |].
  destruct (num_functions m <=? i - num_imports m) eqn:E4; bools; [lia |].
  destruct (VALUE_STACK_SIZE <? zlen args) eqn:E5; bools; [lia |].
  rewrite H1, H2. done.
Qed.

Lemma start_top def n start args :
  zlen args <= VALUE_STACK_SIZE →
  top (start_machine def n start args) (MkFrame def start 0 (frame_locals n args)).
Proof.
  intros Ha. split_and!; cbn; [done | done | | apply zlen_nonneg].
  pose proof (zlen_nonneg args). rewrite zlen_app, zlen_zeros by lia. lia.
Qed.

(** What a run that ends gives back. *)
Lemma run_machine_ends dispatch lo bs r id s n s' x :
  runtime_ok lo bs r → 0 <= id < MAX_WASM_MODULES → Z.of_nat n < CYCLE_BUDGET →
  (∀ k, exec_loop dispatch id (n + S k) r s = Done (Ok k, r, s')) →
  0 < sp s' → value_stack s' !! Z.to_nat (sp s' - 1) = Some x →
  ∃ p, perf_stats r !! Z.to_nat id = Some p ∧
    run_machine dispatch id r s = Done (Ok (as_i32 x),
      r <| perf_stats := <[Z.to_nat id := record_invocation p (Z.of_nat n + 1)]> (perf_stats r) |>).
Proof.
  intros Hr Hid Hn He Hsp Hx. pose proof (ro_perf _ _ _ Hr) as Hps.
  destruct (aget_in_range (perf_stats r) id) as [p Hp]; [lia |].
  exists p. apply aget_lookup in Hp as Hp'. split; [by apply Hp' |]. unfold run_machine.
  assert (Z.to_nat CYCLE_BUDGET = n + S (Z.to_nat (CYCLE_BUDGET - 1 - Z.of_nat n)))%nat as -> by lia.
  rewrite He. cbn [mbind outcome_bind]. rewrite Hp. cbn [mbind outcome_bind]. unfold set_perf.
  rewrite aset_in_range by lia. cbn [mbind outcome_bind].
  destruct (0 <? sp s') eqn:E; bools; [| lia].
  assert (aget (value_stack s') (sp s' - 1) = Done x) as -> by (apply aget_lookup; split; [lia | done]).
  cbn [mbind outcome_bind].
  by replace (CYCLE_BUDGET - Z.of_nat (Z.to_nat (CYCLE_BUDGET - 1 - Z.of_nat n))) with (Z.of_nat n + 1)
    by lia.
Qed.

Lemma run_machine_fails dispatch r id s n e s' :
  Z.of_nat n < CYCLE_BUDGET →
  (∀ k, exec_loop dispatch id (n + S k) r s = Done (Err e, r, s')) →
  run_machine dispatch id r s = Done (Err e, r).
Proof.
  intros Hn He. unfold run_machine.
  assert (Z.to_nat CYCLE_BUDGET = n + S (Z.to_nat (CYCLE_BUDGET - 1 - Z.of_nat n)))%nat as -> by lia.
  by rewrite He.
Qed.

Lemma i32_of_u32 x : as_i32 (as_u32 x) = as_i32 x.
Proof. unfold as_i32. apply to_signed_cong. unfold as_u32, wrap. by rewrite Z.mod_mod. Qed.

(** C10. Compiler correctness of the interpreter for expressions: running an export
    whose code is that of an expression over constants, locals and the 26 numeric
    instructions gives the value of the expression as a signed 32-bit number, and
    counts one cycle per instruction; where the expression traps the run fails and
    changes nothing.  The expression has to fit the stack of 256 values, besides
    the arguments, and the budget of 10000 cycles. *)
Theorem expression_correct dispatch lo bs r id m def fname args e rest :
  runtime_ok lo bs r → exported r id fname = Some (m, def) →
  code_at (code m) (start_of m def) (compile e ++ 0x0B :: rest) → expr_ok e →
  zlen args + depth e <= VALUE_STACK_SIZE → Z.of_nat (size e) < CYCLE_BUDGET →
  match eval (frame_locals (params_of m def) args) e with
  | Some v => ∃ p, perf_stats r !! Z.to_nat id = Some p ∧
      wasm_execute dispatch id r fname args = Done (Ok (as_i32 v),
        r <| perf_stats := <[Z.to_nat id := record_invocation p (Z.of_nat (size e) + 1)]> (perf_stats r) |>)
  | None => ∃ msg, wasm_execute dispatch id r fname args = Done (Err msg, r)
  end.
Proof.
  intros Hr Hex Hc Hok Hd Hsz. pose proof (depth_pos e).
  destruct (exported_Some _ _ _ _ _ _ _ Hr Hex) as (Hid & Hmod & _ & _ & _ & Hrun).
  rewrite Hrun by lia. apply is_loaded_Some in Hid as (Hid & Hm & _).
  pose proof (mo_len _ Hmod). pose proof (mo_code _ Hmod) as [Hcl _].
  pose proof (start_top def (params_of m def) (start_of m def) args ltac:(lia)) as Ht.
  pose proof (function_ends dispatch id r m ltac:(lia) Hm ltac:(lia) e _ _ (MkCtrl CTRL_FUNC 0 0) Hok Ht
    (frame_locals_len _ _) (ex_intro _ rest Hc) Hd ltac:(done) eq_refl eq_refl) as Hf.
  cbn [locals] in Hf. destruct (eval _ e) as [v |].
  - destruct Hf as (x & s' & <- & Hsp & Hx & He). rewrite i32_of_u32.
    pose proof (zlen_nonneg args). cbn [sp start_machine] in Hsp, Hx.
    apply (run_machine_ends dispatch lo bs r id _ (size e) s'); try done; [lia |].
    by replace (sp s' - 1) with (zlen args) by lia.
  - destruct Hf as (msg & s' & He). exists msg. by apply (run_machine_fails _ _ _ _ (size e) _ s').
Qed.

(** Only the low 32 bits of the locals matter. *)
Lemma eval_u32 ls e : eval (as_u32 <$> ls) e = eval ls e.
Proof.
  induction e as [n | i | e IH | o e1 IH1 e2 IH2]; cbn; [done | | by rewrite IH | by rewrite IH1, IH2].
  rewrite list_lookup_fmap. destruct (ls !! Z.to_nat i); [| done]. cbn. f_equal.
  unfold as_u32, wrap. by rewrite Z.mod_mod.
Qed.

Lemma called_top m s f def x back :
  top s f → 1 <= sp s → fp s + 1 < zlen (call_stack s) →
  top (called m s f def x back) (MkFrame def (start_of m def) (sp s - 1) (x :: zeros 15)).
Proof.
  intros (Hfp & Hf & Hl & _) Hsp Hlt. split_and!; cbn -[zeros]; [lia | | done | lia].
  apply list_lookup_insert_eq. rewrite length_insert. unfold zlen in Hlt. lia.
Qed.

(** Room on the call stacks. *)
Definition can_call (s : machine) : Prop :=
  fp s + 1 < CALL_STACK_SIZE ∧ zlen (call_stack s) = CALL_STACK_SIZE ∧
  0 <= cp s < CALL_STACK_SIZE ∧ zlen (ctrl_stack s) = CALL_STACK_SIZE.

(** From the call to the end of the run. *)
Lemma call_ends dispatch id r m s f x idx e after rest v :
  0 <= id → modules r !! Z.to_nat id = Some m → module_ok m →
  num_imports m <= idx < num_imports m + num_functions m → params_of m (idx - num_imports m) = 1 →
  top s f → can_call s → 1 <= sp s → value_stack s !! Z.to_nat (sp s - 1) = Some x →
  code_at (code m) (pc f) (0x10 :: uleb 5 idx ++ after) →
  code_at (code m) (start_of m (idx - num_imports m)) (compile e ++ 0x0B :: rest) →
  expr_ok e → sp s - 1 + depth e <= VALUE_STACK_SIZE → eval (as_u32 x :: zeros 15) e = Some v →
  ∃ y s', as_u32 y = v ∧ sp s' = sp s ∧ value_stack s' !! Z.to_nat (sp s - 1) = Some y ∧
    ∀ k, exec_loop dispatch id (1 + size e + S k) r s = Done (Ok k, r, s').
Proof.
  intros Hid Hm Hok Hidx Hpar Ht (Hfp & Hcl & Hcp & Hcs) Hsp Hx Hcall Hc He Hd Hv.
  pose proof (mo_len _ Hok) as Hlen. pose proof (mo_code _ Hok) as [Hcl' _].
  pose proof (mo_imports _ Hok) as [Hni _]. pose proof (mo_funcs _ Hok) as [Hnf _].
  pose proof (call_runs dispatch id r m Hid Hm ltac:(lia) s f idx x after Hok Hidx
    ltac:(unfold MAX_IMPORTS, MAX_FUNCTIONS in *; lia) Hpar Ht Hcall Hsp Hx Hfp Hcl Hcp Hcs) as R.
  set (back := pc f + 1 + _) in R.
  pose proof (called_top m s f (idx - num_imports m) x back Ht Hsp ltac:(lia)) as Ht'.
  assert (ctrl_stack (called m s f (idx - num_imports m) x back) !! Z.to_nat (cp s + 1 - 1) =
    Some (MkCtrl CTRL_FUNC 0 (sp s - 1))) as Hctrl.
  { rewrite Z.add_simpl_r. apply list_lookup_insert_eq. unfold zlen in Hcs. lia. }
  pose proof (function_ends dispatch id r m Hid Hm ltac:(lia) e _ _ _ He Ht' eq_refl
    (ex_intro _ rest Hc) ltac:(cbn; lia) ltac:(cbn; lia) Hctrl eq_refl) as Hf.
  cbn [locals] in Hf. rewrite <- eval_u32 in Hf.
  change (as_u32 <$> x :: zeros 15) with (as_u32 x :: zeros 15) in Hf. rewrite Hv in Hf.
  destruct Hf as (y & s' & Hy & Hsp' & Hyv & Hends). cbn in Hsp', Hyv.
  exists y, s'. split_and!; [done | lia | done |]. intros k.
  rewrite <- Nat.add_assoc, R. apply Hends.
Qed.

(** A call of a function of the module never comes back: the [end] of the
    called function ends the whole run.  An export that computes [e1] and calls a
    function of one parameter with it, whose code is that of [e2], gives the value
    of [e2] whatever code follows the call; WebAssembly goes on with that code. *)
Theorem call_never_returns dispatch lo bs r id m def fname args e1 e2 idx v1 v2 after rest :
  runtime_ok lo bs r → exported r id fname = Some (m, def) →
  code_at (code m) (start_of m def) (compile e1 ++ 0x10 :: uleb 5 idx ++ after) →
  num_imports m <= idx < num_imports m + num_functions m → params_of m (idx - num_imports m) = 1 →
  code_at (code m) (start_of m (idx - num_imports m)) (compile e2 ++ 0x0B :: rest) →
  expr_ok e1 → expr_ok e2 →
  zlen args + depth e1 <= VALUE_STACK_SIZE → zlen args + depth e2 <= VALUE_STACK_SIZE →
  Z.of_nat (size e1 + 1 + size e2) < CYCLE_BUDGET →
  eval (frame_locals (params_of m def) args) e1 = Some v1 → eval (v1 :: zeros 15) e2 = Some v2 →
  ∃ p, perf_stats r !! Z.to_nat id = Some p ∧
    wasm_execute dispatch id r fname args = Done (Ok (as_i32 v2), r <| perf_stats :=
      <[Z.to_nat id := record_invocation p (Z.of_nat (size e1 + 1 + size e2) + 1)]> (perf_stats r) |>).
Proof.
  intros Hr Hex Hc1 Hidx Hpar Hc2 Hok1 Hok2 Hd1 Hd2 Hsz Hv1 Hv2.
  pose proof (depth_pos e1). pose proof (zlen_nonneg args).
  destruct (exported_Some _ _ _ _ _ _ _ Hr Hex) as (Hid & Hmod & _ & _ & _ & Hrun).
  rewrite Hrun by lia. apply is_loaded_Some in Hid as (Hid & Hm & _).
  pose proof (mo_len _ Hmod). pose proof (mo_code _ Hmod) as [Hcl _].
  pose proof (start_top def (params_of m def) (start_of m def) args ltac:(lia)) as Ht.
  apply code_at_app in Hc1 as [Hc1 Hcall].
  pose proof (compile_computes dispatch id r m ltac:(lia) Hm ltac:(lia) e1 _ _ Hok1 Ht
    (frame_locals_len _ _) Hc1 Hd1) as Hf. unfold computes in Hf. cbn [locals] in Hf.
  rewrite Hv1 in Hf. destruct Hf as (x1 & s1 & <- & Hp & R1).
  pose proof (pushed_top _ _ _ _ _ Ht Hp) as Ht1.
  destruct Hp as (vs & Hs1 & Hvs & Hxs & _).
  assert (sp s1 = zlen args + 1) as Hsp1 by (by rewrite Hs1).
  destruct (call_ends dispatch id r m s1 _ x1 idx e2 after rest v2 ltac:(lia) Hm Hmod Hidx Hpar Ht1)
    as (y & s' & <- & Hsp & Hy & He); [by rewrite Hs1 | lia | | done | done | done | lia | done |].
  { rewrite Hsp1, Z.add_simpl_r. by rewrite Hs1. }
  rewrite i32_of_u32.
  apply (run_machine_ends dispatch lo bs r id _ (size e1 + 1 + size e2) s'); try done.
  - intros k. replace (size e1 + 1 + size e2 + S k)%nat with (size e1 + (1 + size e2 + S k))%nat by lia.
    by rewrite R1.
  - lia.
  - by rewrite Hsp.
Qed.

(** ** Structured code *)

(** Straight code, blocks and conditionals.  An instruction has its immediates
    with it. *)
Inductive tree : Type :=
| Nil
| Insn (op : Z) (imm : list Z) (next : tree)
| Block (op ty : Z) (body next : tree)
| IfElse (ty : Z) (yes no next : tree).

Fixpoint flatten (t : tree) : list Z :=
  match t with
  | Nil => []
  | Insn op imm next => op :: imm ++ flatten next
  | Block op ty body next => op :: ty :: flatten body ++ 0x0B :: flatten next
  | IfElse ty yes no next => 0x04 :: ty :: flatten yes ++ 0x05 :: flatten no ++ 0x0B :: flatten next
  end.

(** A number in LEB128: only the last byte is without its top bit. *)
Fixpoint is_leb (l : list Z) : bool :=
  match l with
  | [] => false
  | b :: l' => if Z.land b 128 =? 0 then match l' with [] => true | _ => false end else is_leb l'
  end.

(** The immediates of the instructions, local.tee left out. *)
Definition insn_ok (op : Z) (imm : list Z) : Prop :=
  opens op = false ∧ op ≠ 0x05 ∧ op ≠ 0x0B ∧ op ≠ 0x22 ∧
  if one_leb op then is_leb imm = true
  else if two_lebs op then ∃ a b, imm = a ++ b ∧ is_leb a = true ∧ is_leb b = true
  else if (op =? 0x3F) || (op =? 0x40) then zlen imm = 1 else imm = [].

Fixpoint tree_ok (t : tree) : Prop :=
  match t with
  | Nil => True
  | Insn op imm next => insn_ok op imm ∧ tree_ok next
  | Block op _ body next => opens op = true ∧ tree_ok body ∧ tree_ok next
  | IfElse _ yes no next => tree_ok yes ∧ tree_ok no ∧ tree_ok next
  end.

Fixpoint count (t : tree) : nat :=
  match t with
  | Nil => 0
  | Insn _ _ next => S (count next)
  | Block _ _ body next => S (count body + S (count next))
  | IfElse _ yes no next => S (count yes + S (count no + S (count next)))
  end.

Lemma count_length t : (count t <= length (flatten t))%nat.
Proof.
  induction t; cbn; rewrite ?length_app; cbn; rewrite ?length_app; cbn; lia.
Qed.

Lemma zlen_cons {A} (x : A) l : zlen (x :: l) = 1 + zlen l.
Proof. unfold zlen. cbn. lia. Qed.

Lemma code_at_cons bc p op c : code_at bc p (op :: c) → code_at bc (p + 1) c.
Proof. intros H. by apply (code_at_app bc p [op] c) in H as [_ H]. Qed.

Lemma skip_rest_leb l rest : ∀ p, is_leb l = true → skip_rest (l ++ rest) p = p + zlen l.
Proof.
  induction l as [| b l IH]; intros p Hl; [done |]. cbn in *.
  rewrite zlen_cons. destruct (Z.land b 128 =? 0); [destruct l; [done | done] |].
  rewrite IH by done. lia.
Qed.

Lemma skip_leb128_at bc p l rest :
  code_at bc p (l ++ rest) → is_leb l = true → skip_leb128 bc p = p + zlen l.
Proof.
  intros (pre & post & -> & ->) Hl. unfold skip_leb128. rewrite drop_zlen, <- app_assoc.
  by apply skip_rest_leb.
Qed.

Lemma skip_insn_at bc p op imm rest :
  code_at bc p (op :: imm ++ rest) → insn_ok op imm → skip_insn bc p op = p + 1 + zlen imm.
Proof.
  intros Hc%code_at_cons (_ & _ & _ & _ & Himm). unfold skip_insn.
  destruct (one_leb op); [by eapply skip_leb128_at |]. destruct (two_lebs op).
  - destruct Himm as (a & b & -> & Ha & Hb). rewrite <- app_assoc in Hc.
    rewrite (skip_leb128_at bc (p + 1) a (b ++ rest)) by done.
    apply code_at_app in Hc as [_ Hc]. rewrite (skip_leb128_at bc _ b rest) by done.
    rewrite zlen_app. lia.
  - destruct (_ || _); [lia |]. subst. unfold zlen. cbn. lia.
Qed.

(** A scan for the end of a block, by what it does at each opcode. *)
Section scan.
Context {A : Type} (bc : list Z) (scan : nat → Z → Z → A).
Hypothesis scan_open : ∀ k p d op, bc !! Z.to_nat p = Some op → opens op = true →
  scan (S k) p d = scan k (p + 2) (d + 1).
Hypothesis scan_else : ∀ k p d, bc !! Z.to_nat p = Some 0x05 → 2 <= d →
  scan (S k) p d = scan k (p + 1) d.
Hypothesis scan_end : ∀ k p d, bc !! Z.to_nat p = Some 0x0B → 2 <= d →
  scan (S k) p d = scan k (p + 1) (d - 1).
Hypothesis scan_skip : ∀ k p d op, bc !! Z.to_nat p = Some op →
  opens op = false → op ≠ 0x05 → op ≠ 0x0B → scan (S k) p d = scan k (skip_insn bc p op) d.

(** Whole code is passed over, whatever the depth. *)
Lemma scan_tree t : ∀ p d k rest,
  tree_ok t → code_at bc p (flatten t ++ rest) → 1 <= d →
  scan (count t + k)%nat p d = scan k (p + zlen (flatten t)) d ∧ code_at bc (p + zlen (flatten t)) rest.
Proof.
  induction t as [| op imm next IH | op ty body IHb next IHn | ty yes IHy no IHo next IHn];
    intros p d k rest Hok Hc Hd; (split; [| by apply code_at_app in Hc as [_ Hc]]).
  - cbn. by rewrite Z.add_0_r.
  - destruct Hok as [Hi Hn]. cbn [flatten app count Nat.add] in *. rewrite <- app_assoc in Hc.
    pose proof (code_at_lookup _ _ _ _ Hc) as [_ Hop].
    pose proof Hi as (Ho & Helse & Hend & _).
    rewrite (scan_skip _ p d op Hop), (skip_insn_at bc p op imm (flatten next ++ rest)) by done.
    apply code_at_cons, code_at_app in Hc as [_ Hc].
    destruct (IH _ d k rest Hn Hc Hd) as [-> _]. rewrite zlen_cons, zlen_app. f_equal. lia.
  - destruct Hok as (Ho & Hb & Hn). cbn [flatten app count Nat.add] in *.
    rewrite <- app_assoc in Hc. cbn [app] in Hc. pose proof (code_at_lookup _ _ _ _ Hc) as [_ Hop].
    rewrite (scan_open _ p d op Hop Ho). apply code_at_cons, code_at_cons in Hc.
    rewrite <- Z.add_assoc in Hc. change (1 + 1) with 2 in Hc. rewrite <- Nat.add_assoc.
    destruct (IHb _ (d + 1) (S (count next) + k)%nat _ Hb Hc ltac:(lia)) as [-> He].
    pose proof (code_at_lookup _ _ _ _ He) as [_ Hend]. cbn [Nat.add].
    rewrite (scan_end _ _ _ Hend) by lia. apply code_at_cons in He.
    rewrite Z.add_simpl_r. destruct (IHn _ d k rest Hn He Hd) as [-> _].
    rewrite !zlen_cons, zlen_app, zlen_cons. f_equal. lia.
  - destruct Hok as (Hy & Ho & Hn). cbn [flatten app count Nat.add] in *.
    rewrite <- !app_assoc in Hc. cbn [app] in Hc. pose proof (code_at_lookup _ _ _ _ Hc) as [_ Hop].
    rewrite (scan_open _ p d _ Hop eq_refl). apply code_at_cons, code_at_cons in Hc.
    rewrite <- Z.add_assoc in Hc. change (1 + 1) with 2 in Hc. rewrite <- Nat.add_assoc.
    destruct (IHy _ (d + 1) (S (count no + S (count next)) + k)%nat _ Hy Hc ltac:(lia)) as [-> He].
    pose proof (code_at_lookup _ _ _ _ He) as [_ Hels]. cbn [Nat.add].
    rewrite (scan_else _ _ _ Hels) by lia. apply code_at_cons in He.
    rewrite <- app_assoc, <- ?Nat.add_assoc in *. cbn [app] in He.
    destruct (IHo _ (d + 1) (S (count next) + k)%nat _ Ho He ltac:(lia)) as [-> He'].
    pose proof (code_at_lookup _ _ _ _ He') as [_ Hend]. cbn [Nat.add].
    rewrite (scan_end _ _ _ Hend) by lia. apply code_at_cons in He'.
    rewrite Z.add_simpl_r. destruct (IHn _ d k rest Hn He' Hd) as [-> _].
    rewrite !zlen_cons, zlen_app, zlen_cons, zlen_app, zlen_cons. f_equal. lia.
Qed.
End scan.

Lemma end_loop_tree bc t p d k rest :
  tree_ok t → code_at bc p (flatten t ++ rest) → 1 <= d →
  end_loop (count t + k) bc p d = end_loop k bc (p + zlen (flatten t)) d ∧
  code_at bc (p + zlen (flatten t)) rest.
Proof.
  apply (scan_tree bc (λ k p d, end_loop k bc p d)); clear; intros k p d.
  - intros op H Ho. cbn. by rewrite H, Ho.
  - intros H Hd. cbn. by rewrite H.
  - intros H Hd. cbn. rewrite H. cbn. destruct (d - 1 =? 0) eqn:E; bools; [lia | done].
  - intros op H Ho H5 HB. cbn. rewrite H, Ho. destruct (op =? 0x0B) eqn:E; bools; done.
Qed.

Lemma if_loop_tree bc e t p d k rest :
  tree_ok t → code_at bc p (flatten t ++ rest) → 1 <= d →
  if_loop (count t + k) bc p d e = if_loop k bc (p + zlen (flatten t)) d e ∧
  code_at bc (p + zlen (flatten t)) rest.
Proof.
  apply (scan_tree bc (λ k p d, if_loop k bc p d e)); clear; intros k p d.
  - intros op H Ho. cbn. by rewrite H, Ho.
  - intros H Hd. cbn. rewrite H. cbn. destruct (d =? 1) eqn:E; bools; [lia | done].
  - intros H Hd. cbn. rewrite H. cbn. destruct (d - 1 =? 0) eqn:E; bools; [lia | done].
  - intros op H Ho H5 HB. cbn. rewrite H, Ho.
    destruct (op =? 0x05) eqn:E5, (op =? 0x0B) eqn:EB; bools; done.
Qed.

(** Enough steps for all of the code behind a place. *)
Lemma code_at_room bc p c : code_at bc p c → ∃ k, length bc = (length c + k)%nat.
Proof. intros (pre & post & -> & _). rewrite !length_app. exists (length pre + length post)%nat. lia. Qed.

(** The scans for the end of a block find it: from the opcode of a block, the
    place behind the [end] that belongs to it, over all code nested in between;
    from an [if], also its own [else], or 0 where it has none.  The code is any
    well-formed nesting without local.tee, whose immediate the scans do not skip. *)
Theorem find_end_correct bc p op ty yes no rest :
  opens op = true → tree_ok yes → tree_ok no →
  (code_at bc p (op :: ty :: flatten yes ++ 0x0B :: rest) →
    find_matching_end bc p = Done (Ok (p + 2 + zlen (flatten yes) + 1)) ∧
    find_if_else_end bc p = Done (Ok (0, p + 2 + zlen (flatten yes) + 1))) ∧
  (code_at bc p (op :: ty :: flatten yes ++ 0x05 :: flatten no ++ 0x0B :: rest) →
    find_if_else_end bc p =
      Done (Ok (p + 2 + zlen (flatten yes), p + 2 + zlen (flatten yes) + 1 + zlen (flatten no) + 1))).
Proof.
  intros Ho Hy Hn. unfold find_matching_end, find_if_else_end.
  pose proof (count_length yes). pose proof (count_length no).
  assert (∀ c, code_at bc p (op :: ty :: c) →
    zlen bc <=? p = false ∧ code_at bc (p + 2) c ∧ (length c < length bc)%nat ∧ 0 <= p) as Hcode.
  { intros c Hc. pose proof (code_at_lookup _ _ _ _ Hc) as [? Hlt%lookup_lt_Some].
    pose proof (code_at_room _ _ _ Hc) as [k Hk]. cbn in Hk. split_and!; [| | lia | done].
    - apply Z.leb_gt. unfold zlen. lia.
    - apply code_at_cons, code_at_cons in Hc. by rewrite <- Z.add_assoc in Hc. }
  split; intros (-> & Hc & Hl & Hp)%Hcode; rewrite length_app in Hl; cbn in Hl.
  - assert (length bc = count yes + S (length bc - count yes - 1))%nat as -> by lia.
    destruct (end_loop_tree bc yes (p + 2) 1 (S (length bc - count yes - 1)) _ Hy Hc ltac:(lia)) as [-> He].
    destruct (if_loop_tree bc 0 yes (p + 2) 1 (S (length bc - count yes - 1)) _ Hy Hc ltac:(lia)) as [-> _].
    apply code_at_lookup in He as [_ He]. cbn. by rewrite He.
  - rewrite length_app in Hl. cbn in Hl.
    assert (length bc = count yes + S (count no + S (length bc - count yes - count no - 2)))%nat as -> by lia.
    set (k := (length bc - _ - _ - _)%nat).
    destruct (if_loop_tree bc 0 yes (p + 2) 1 (S (count no + S k)) _ Hy Hc ltac:(lia)) as [-> He].
    pose proof (code_at_lookup _ _ _ _ He) as [_ Hop]. cbn [if_loop]. rewrite Hop. cbn [opens orb].
    cbn -[if_loop]. apply code_at_cons in He.
    destruct (if_loop_tree bc (p + 2 + zlen (flatten yes)) no _ 1 (S k) _ Hn He ltac:(lia)) as [-> He'].
    apply code_at_lookup in He' as [_ He']. cbn. by rewrite He'.
Qed.

(** ** Examples *)

Lemma leb128_roundtrip_witness : leb128_s [0x41; 0xC0; 0xBB; 0x78; 0x0B] 1 = Done (-123456, 4).
Proof. exact (proj1 (proj2 (leb128_roundtrip [0x41] [0x0B])) (-123456) ltac:(lia)). Defined.

Definition ex_machine : machine :=
  MkMachine ([7; -2] ++ zeros 254) 2 [MkFrame 0 0 0 (zeros 16)] 0 [MkCtrl CTRL_FUNC 0 0] 1.

Lemma numeric_correct_witness :
  ∃ x, as_u32 x = 4294967293 ∧ instruction no_dispatch 0 (opcode DivS) [] 0 ex_boot ex_machine =
    Done (Ok (Jump 1), ex_boot,
      ex_machine <| value_stack := <[0%nat := x]> (value_stack ex_machine) |> <| sp := 1 |>).
Proof. exact (numeric_correct no_dispatch 0 DivS [] 0 ex_boot ex_machine 7 (-2) eq_refl ltac:(cbn; lia) eq_refl eq_refl). Defined.

Lemma code_at_decide bc p c :
  (0 <=? p) && bool_decide (take (length c) (drop (Z.to_nat p) bc) = c) &&
  (Z.to_nat p <=? length bc)%nat = true → code_at bc p c.
Proof.
  intros [[Hp Hc%bool_decide_eq_true]%andb_true_iff Hl%Nat.leb_le]%andb_true_iff. bools.
  exists (take (Z.to_nat p) bc), (drop (length c) (drop (Z.to_nat p) bc)). split.
  - rewrite <- Hc at 1. by rewrite (take_drop (length c)), take_drop.
  - unfold zlen. rewrite length_take. lia.
Qed.

Lemma exported_decide r id fname def :
  is_module_loaded r id = true → snd <$> exported r id fname = Some def →
  exported r id fname = Some (the_module r id, def).
Proof.
  intros Hl He. unfold exported in *. rewrite (loaded_module r id Hl) in *. cbn in *.
  repeat case_match; by simplify_eq/=.
Qed.

(** (20 - 6) * local 0 and 7 / (local 1 - 0), without parameters. *)
Definition ex_expr : expr := Bin Mul (Bin Sub (Const 20) (Const 6)) (Eqz (Local 0)).
Definition ex_trap : expr := Bin DivS (Const 7) (Local 1).

Definition ex_rt_of (bodies : list (list Z)) : runtime := load_into ex_boot (ex_file bodies).

Lemma ex_rt_of_ok bodies :
  bool_decide (Forall is_byte (ex_file bodies)) = true → ∃ bs, runtime_ok ex_lo bs (ex_rt_of bodies).
Proof. intros H%bool_decide_eq_true. eauto using load_into_ok, ex_boot_ok. Qed.

Definition ex_bodies (e : expr) : list (list Z) := [compile e ++ [0x0B]].

Lemma expression_correct_witness :
  (∃ r', wasm_execute no_dispatch 0 (ex_rt_of (ex_bodies ex_expr)) (bytes_of "main") [] = Done (Ok 14, r')) ∧
  (∃ msg, wasm_execute no_dispatch 0 (ex_rt_of (ex_bodies ex_trap)) (bytes_of "main") [] =
    Done (Err msg, ex_rt_of (ex_bodies ex_trap))).
Proof.
  split.
  - destruct (ex_rt_of_ok (ex_bodies ex_expr)) as [bs Hr]; [by vm_compute |].
    destruct (expression_correct no_dispatch ex_lo bs _ 0 (the_module (ex_rt_of (ex_bodies ex_expr)) 0) 0
      (bytes_of "main") [] ex_expr [] Hr) as (p & _ & H).
    + apply exported_decide; by vm_compute.
    + apply code_at_decide. by vm_compute.
    + done.
    + done.
    + done.
    + eexists. exact H.
  - destruct (ex_rt_of_ok (ex_bodies ex_trap)) as [bs Hr]; [by vm_compute |].
    apply (expression_correct no_dispatch ex_lo bs _ 0 (the_module (ex_rt_of (ex_bodies ex_trap)) 0) 0
      (bytes_of "main") [] ex_trap [] Hr).
    + apply exported_decide; by vm_compute.
    + apply code_at_decide. by vm_compute.
    + done.
    + done.
    + done.
Defined.

(** [main] is f (40) + 2, and f is the identity. *)
Definition ex_call_file : list Z :=
  [0x00; 0x61; 0x73; 0x6D; 0x01; 0x00; 0x00; 0x00] ++
  ex_section 1 [0x60; 0; 1; 0x7F; 0x60; 1; 0x7F; 1; 0x7F] ++ ex_section 3 [0; 1] ++
  ex_section 7 (4 :: bytes_of "main" ++ [0; 0]) ++
  ex_section 10 ([9; 0] ++ compile (Const 40) ++ [0x10; 1] ++ compile (Const 2) ++ [0x6A; 0x0B] ++
                 [4; 0] ++ compile (Local 0) ++ [0x0B]).
Definition ex_call_rt : runtime := load_into ex_boot ex_call_file.

Lemma call_never_returns_witness :
  ∃ r', wasm_execute no_dispatch 0 ex_call_rt (bytes_of "main") [] = Done (Ok 40, r').
Proof.
  assert (∃ bs, runtime_ok ex_lo bs ex_call_rt) as [bs Hr].
  { apply load_into_ok; [exists []; apply ex_boot_ok |]. apply (bool_decide_unpack _). by vm_compute. }
  destruct (call_never_returns no_dispatch ex_lo bs ex_call_rt 0 (the_module ex_call_rt 0) 0
    (bytes_of "main") [] (Const 40) (Local 0) 1 40 40 [0x41; 2; 0x6A; 0x0B] [] Hr) as (p & _ & H).
  - apply exported_decide; by vm_compute.
  - apply code_at_decide. by vm_compute.
  - assert (num_imports (the_module ex_call_rt 0) = 0) as -> by (by vm_compute).
    assert (num_functions (the_module ex_call_rt 0) = 2) as -> by (by vm_compute). lia.
  - by vm_compute.
  - apply code_at_decide. by vm_compute.
  - done.
  - done.
  - done.
  - done.
  - done.
  - done.
  - done.
  - eexists. exact H.
Defined.

(** if (nop) else (block i32.const 11 end) end; the constant looks like an end. *)
Lemma find_end_correct_witness :
  find_if_else_end [0x04; 0x40; 0x01; 0x05; 0x02; 0x40; 0x41; 0x0B; 0x0B; 0x0B; 0x01] 0 = Done (Ok (3, 10)).
Proof.
  refine (proj2 (find_end_correct [0x04; 0x40; 0x01; 0x05; 0x02; 0x40; 0x41; 0x0B; 0x0B; 0x0B; 0x01] 0
    0x04 0x40 (Insn 0x01 [] Nil) (Block 0x02 0x40 (Insn 0x41 [0x0B] Nil) Nil) [0x01] eq_refl _ _) _).
  - cbn. unfold insn_ok. by split_and!.
  - cbn. unfold insn_ok. by split_and!.
  - by exists [], [].
Defined.
End WasmExec.
