(* ===== verification/Words.v ===== *)
(** * 32-bit words and byte arrays

    What the ciphers and hashes of kernel/src/crypto use of the language:
    conversions between words and their big-endian bytes, rotations, and slices
    cut into chunks. *)
From S2P Require Import Prelude.

(** [u32::from_be_bytes]. *)
Definition from_be_bytes (b0 b1 b2 b3 : Z) : Z := b0 * 2 ^ 24 + b1 * 2 ^ 16 + b2 * 2 ^ 8 + b3.

(** [(w >> (24 - i * 8)) as u8]. *)
Definition byte_of (w i : Z) : Z := w / 2 ^ (24 - 8 * i) mod 256.

Definition to_be_bytes (w : Z) : list Z := [byte_of w 0; byte_of w 1; byte_of w 2; byte_of w 3].

(** The [i]th word of an array of bytes. *)
Definition be_word (l : list Z) (i : nat) : Z :=
  from_be_bytes (l !!! (4 * i)%nat) (l !!! (4 * i + 1)%nat) (l !!! (4 * i + 2)%nat) (l !!! (4 * i + 3)%nat).

(** [(w << n) | (w >> (32 - n))]. *)
Definition rotate_left (w n : Z) : Z := Z.lor (wrap 32 (Z.shiftl w n)) (Z.shiftr w (32 - n)).

Definition xor_bytes (a b : list Z) : list Z := zip_with Z.lxor a b.

(** [l.chunks(n)]. *)
Fixpoint chunks_of (fuel : nat) {A} (n : nat) (l : list A) : list (list A) :=
  match fuel, l with
  | S fuel', _ :: _ => take n l :: chunks_of fuel' n (drop n l)
  | _, _ => []
  end.
Definition chunks {A} (n : nat) (l : list A) : list (list A) := chunks_of (length l) n l.

(** ** Words *)

Lemma byte_of_byte w i : is_byte (byte_of w i).
Proof. apply Z.mod_pos_bound. lia. Qed.

Lemma to_be_bytes_bytes w : Forall is_byte (to_be_bytes w).
Proof. repeat constructor; apply byte_of_byte. Qed.

Lemma from_be_fits b0 b1 b2 b3 :
  is_byte b0 → is_byte b1 → is_byte b2 → is_byte b3 → fits 32 (from_be_bytes b0 b1 b2 b3).
Proof. unfold is_byte, fits, from_be_bytes. lia. Qed.

Lemma byte_of_from_be b0 b1 b2 b3 :
  is_byte b0 → is_byte b1 → is_byte b2 → is_byte b3 →
  to_be_bytes (from_be_bytes b0 b1 b2 b3) = [b0; b1; b2; b3].
Proof.
  unfold is_byte, from_be_bytes, to_be_bytes, byte_of. intros H0 H1 H2 H3.
  cbn -[Z.pow Z.mul Z.add Z.div Z.modulo]. repeat f_equal; dlia.
Qed.

Lemma from_be_to_be w :
  fits 32 w → from_be_bytes (byte_of w 0) (byte_of w 1) (byte_of w 2) (byte_of w 3) = w.
Proof.
  unfold fits, from_be_bytes, byte_of. intros H. cbn -[Z.pow Z.mul Z.add Z.div Z.modulo]. dlia.
Qed.

Lemma bits_fits w x : 0 <= w → (∀ n, w <= n → Z.testbit x n = false) → fits w x.
Proof.
  intros Hw Hx. assert (x = x mod 2 ^ w) as ->; [| by apply wrap_bound].
  apply Z.bits_inj'. intros n Hn. destruct (decide (n < w)).
  - by rewrite Z.mod_pow2_bits_low by lia.
  - by rewrite Z.mod_pow2_bits_high, Hx by lia.
Qed.

Lemma lxor_fits w x y : 0 <= w → fits w x → fits w y → fits w (Z.lxor x y).
Proof.
  intros Hw Hx Hy. apply bits_fits; [done |]. intros n Hn.
  by rewrite Z.lxor_spec, (fits_testbit w x), (fits_testbit w y).
Qed.

Lemma lxor_byte x y : is_byte x → is_byte y → is_byte (Z.lxor x y).
Proof. apply (lxor_fits 8). lia. Qed.

Lemma lxor_cancel a k : Z.lxor (Z.lxor a k) k = a.
Proof. by rewrite Z.lxor_assoc, Z.lxor_nilpotent, Z.lxor_0_r. Qed.

(** A rotation, bit by bit. *)
Lemma rotate_left_spec w k n :
  fits 32 w → 0 < k < 32 → 0 <= n < 32 →
  Z.testbit (rotate_left w k) n = Z.testbit w ((n - k) mod 32).
Proof.
  intros Hw Hk Hn. unfold rotate_left, wrap.
  rewrite Z.lor_spec, Z.mod_pow2_bits_low, Z.shiftl_spec, Z.shiftr_spec by lia.
  destruct (Z.lt_ge_cases n k).
  - rewrite Z.testbit_neg_r by lia. cbn. f_equal.
    rewrite <- (Z_mod_plus_full (n - k) 1), Z.mod_small; lia.
  - rewrite (fits_testbit 32 w (n + (32 - k))), orb_false_r by (done || lia).
    by rewrite Z.mod_small by lia.
Qed.

Lemma rotate_left_fits w k : fits 32 w → 0 < k < 32 → fits 32 (rotate_left w k).
Proof.
  intros Hw Hk. apply lor_bound; [by apply wrap_bound |]. unfold fits in *.
  rewrite Z.shiftr_div_pow2 by lia. pose proof (Z.pow_pos_nonneg 2 (32 - k)).
  split; [apply Z.div_pos; lia | apply Z.div_lt_upper_bound; nia].
Qed.

Lemma rotate_left_back w k : fits 32 w → 0 < k < 32 → rotate_left (rotate_left w k) (32 - k) = w.
Proof.
  intros Hw Hk. pose proof (rotate_left_fits w k Hw Hk) as Hr.
  apply Z.bits_inj'. intros n Hn. destruct (Z.lt_ge_cases n 32).
  - rewrite rotate_left_spec by (done || lia).
    rewrite rotate_left_spec by (done || lia || (apply Z.mod_pos_bound; lia)).
    f_equal. rewrite Zminus_mod_idemp_l. replace (n - (32 - k) - k) with (n + -1 * 32) by lia.
    rewrite Z_mod_plus_full. apply Z.mod_small. lia.
  - rewrite (fits_testbit 32 w), (fits_testbit 32 (rotate_left _ _)) by (done || lia || apply rotate_left_fits; done || lia).
    done.
Qed.

(** A lookup in a table of 256 bytes. *)
Lemma table_byte (t : list Z) w i : Forall is_byte t → zlen t = 256 → is_byte (t !!! Z.to_nat (byte_of w i)).
Proof.
  intros Ht Hl. pose proof (byte_of_byte w i) as Hb. unfold is_byte, zlen in *.
  destruct (lookup_lt_is_Some_2 t (Z.to_nat (byte_of w i)) ltac:(lia)) as [b E].
  rewrite (list_lookup_total_correct _ _ _ E). by eapply Forall_lookup_1 in Ht.
Qed.

(** ** Chunks *)

Lemma chunks_of_join {A} fuel n (l : list A) :
  (0 < n)%nat → (length l <= fuel)%nat → mjoin (chunks_of fuel n l) = l.
Proof.
  intros Hn. revert l. induction fuel as [| fuel IH]; intros [| x l] Hl; cbn in *; try done; [lia |].
  rewrite IH; [apply (take_drop n (x :: l)) |]. rewrite length_drop. cbn. lia.
Qed.

Lemma chunks_join {A} n (l : list A) : (0 < n)%nat → mjoin (chunks n l) = l.
Proof. intros. by apply chunks_of_join. Qed.

Lemma chunks_app {A} n (l k : list A) :
  (0 < n)%nat → length l = n → chunks n (l ++ k) = l :: chunks n k.
Proof.
  intros Hn Hl. assert (∀ f f' (k : list A), (length k <= f)%nat → (length k <= f')%nat →
    chunks_of f n k = chunks_of f' n k) as Hfuel.
  { clear -Hn. induction f as [| f IH]; intros [| f'] [| x k] H1 H2; cbn in *; try done; try lia.
    f_equal. apply IH; rewrite length_drop; cbn; lia. }
  unfold chunks. destruct l as [| x l]; cbn in *; [lia |]. f_equal.
  - rewrite <- Hl. cbn. f_equal. rewrite take_app_length'; done.
  - destruct n as [| n]; [lia |]. cbn. injection Hl as Hl. rewrite drop_app_length' by done.
    apply Hfuel; [rewrite length_app; lia | done].
Qed.
