(* ===== verification/Aes.v ===== *)
(** * AES

    kernel/src/crypto/aes.rs: the block cipher with its key schedule, and the
    counter, GCM and CBC modes.

    The state of a block is four words.  Round keys are read from an array of 60
    words, so [encrypt_block] and [decrypt_block] can in principle panic; a
    context whose arrays have their declared lengths never does ([ctx_ok]).

    The theorems: setting up a key panics, for every key ([key_setup_panics]),
    because [sub_word] indexes the S-box with whole words; a context is only had
    by other means, and for any context GCM decrypts what it encrypted and accepts
    exactly the tag it would have made ([gcm_exact]), while the words of a block
    never mix ([words_independent]).  Decryption of a block is the inverse of
    encryption for the round keys in reverse order ([decrypt_inverts_plain_keys]),
    which are not those the key schedule makes
    ([scheduled_keys_do_not_decrypt]); CBC then gives back what it was given, up to
    the padding ([cbc_roundtrip]).  The tables are those of the standard
    ([sbox_correct]). *)
From Stdlib Require Import Btauto.
From S2P Require Import Prelude Words.

Module Aes.

(** ** Tables *)

Definition SBOX : list Z :=
  [0x63; 0x7c; 0x77; 0x7b; 0xf2; 0x6b; 0x6f; 0xc5; 0x30; 0x01; 0x67; 0x2b; 0xfe; 0xd7; 0xab; 0x76;
   0xca; 0x82; 0xc9; 0x7d; 0xfa; 0x59; 0x47; 0xf0; 0xad; 0xd4; 0xa2; 0xaf; 0x9c; 0xa4; 0x72; 0xc0;
   0xb7; 0xfd; 0x93; 0x26; 0x36; 0x3f; 0xf7; 0xcc; 0x34; 0xa5; 0xe5; 0xf1; 0x71; 0xd8; 0x31; 0x15;
   0x04; 0xc7; 0x23; 0xc3; 0x18; 0x96; 0x05; 0x9a; 0x07; 0x12; 0x80; 0xe2; 0xeb; 0x27; 0xb2; 0x75;
   0x09; 0x83; 0x2c; 0x1a; 0x1b; 0x6e; 0x5a; 0xa0; 0x52; 0x3b; 0xd6; 0xb3; 0x29; 0xe3; 0x2f; 0x84;
   0x53; 0xd1; 0x00; 0xed; 0x20; 0xfc; 0xb1; 0x5b; 0x6a; 0xcb; 0xbe; 0x39; 0x4a; 0x4c; 0x58; 0xcf;
   0xd0; 0xef; 0xaa; 0xfb; 0x43; 0x4d; 0x33; 0x85; 0x45; 0xf9; 0x02; 0x7f; 0x50; 0x3c; 0x9f; 0xa8;
   0x51; 0xa3; 0x40; 0x8f; 0x92; 0x9d; 0x38; 0xf5; 0xbc; 0xb6; 0xda; 0x21; 0x10; 0xff; 0xf3; 0xd2;
   0xcd; 0x0c; 0x13; 0xec; 0x5f; 0x97; 0x44; 0x17; 0xc4; 0xa7; 0x7e; 0x3d; 0x64; 0x5d; 0x19; 0x73;
   0x60; 0x81; 0x4f; 0xdc; 0x22; 0x2a; 0x90; 0x88; 0x46; 0xee; 0xb8; 0x14; 0xde; 0x5e; 0x0b; 0xdb;
   0xe0; 0x32; 0x3a; 0x0a; 0x49; 0x06; 0x24; 0x5c; 0xc2; 0xd3; 0xac; 0x62; 0x91; 0x95; 0xe4; 0x79;
   0xe7; 0xc8; 0x37; 0x6d; 0x8d; 0xd5; 0x4e; 0xa9; 0x6c; 0x56; 0xf4; 0xea; 0x65; 0x7a; 0xae; 0x08;
   0xba; 0x78; 0x25; 0x2e; 0x1c; 0xa6; 0xb4; 0xc6; 0xe8; 0xdd; 0x74; 0x1f; 0x4b; 0xbd; 0x8b; 0x8a;
   0x70; 0x3e; 0xb5; 0x66; 0x48; 0x03; 0xf6; 0x0e; 0x61; 0x35; 0x57; 0xb9; 0x86; 0xc1; 0x1d; 0x9e;
   0xe1; 0xf8; 0x98; 0x11; 0x69; 0xd9; 0x8e; 0x94; 0x9b; 0x1e; 0x87; 0xe9; 0xce; 0x55; 0x28; 0xdf;
   0x8c; 0xa1; 0x89; 0x0d; 0xbf; 0xe6; 0x42; 0x68; 0x41; 0x99; 0x2d; 0x0f; 0xb0; 0x54; 0xbb; 0x16].

Definition INV_SBOX : list Z :=
  [0x52; 0x09; 0x6a; 0xd5; 0x30; 0x36; 0xa5; 0x38; 0xbf; 0x40; 0xa3; 0x9e; 0x81; 0xf3; 0xd7; 0xfb;
   0x7c; 0xe3; 0x39; 0x82; 0x9b; 0x2f; 0xff; 0x87; 0x34; 0x8e; 0x43; 0x44; 0xc4; 0xde; 0xe9; 0xcb;
   0x54; 0x7b; 0x94; 0x32; 0xa6; 0xc2; 0x23; 0x3d; 0xee; 0x4c; 0x95; 0x0b; 0x42; 0xfa; 0xc3; 0x4e;
   0x08; 0x2e; 0xa1; 0x66; 0x28; 0xd9; 0x24; 0xb2; 0x76; 0x5b; 0xa2; 0x49; 0x6d; 0x8b; 0xd1; 0x25;
   0x72; 0xf8; 0xf6; 0x64; 0x86; 0x68; 0x98; 0x16; 0xd4; 0xa4; 0x5c; 0xcc; 0x5d; 0x65; 0xb6; 0x92;
   0x6c; 0x70; 0x48; 0x50; 0xfd; 0xed; 0xb9; 0xda; 0x5e; 0x15; 0x46; 0x57; 0xa7; 0x8d; 0x9d; 0x84;
   0x90; 0xd8; 0xab; 0x00; 0x8c; 0xbc; 0xd3; 0x0a; 0xf7; 0xe4; 0x58; 0x05; 0xb8; 0xb3; 0x45; 0x06;
   0xd0; 0x2c; 0x1e; 0x8f; 0xca; 0x3f; 0x0f; 0x02; 0xc1; 0xaf; 0xbd; 0x03; 0x01; 0x13; 0x8a; 0x6b;
   0x3a; 0x91; 0x11; 0x41; 0x4f; 0x67; 0xdc; 0xea; 0x97; 0xf2; 0xcf; 0xce; 0xf0; 0xb4; 0xe6; 0x73;
   0x96; 0xac; 0x74; 0x22; 0xe7; 0xad; 0x35; 0x85; 0xe2; 0xf9; 0x37; 0xe8; 0x1c; 0x75; 0xdf; 0x6e;
   0x47; 0xf1; 0x1a; 0x71; 0x1d; 0x29; 0xc5; 0x89; 0x6f; 0xb7; 0x62; 0x0e; 0xaa; 0x18; 0xbe; 0x1b;
   0xfc; 0x56; 0x3e; 0x4b; 0xc6; 0xd2; 0x79; 0x20; 0x9a; 0xdb; 0xc0; 0xfe; 0x78; 0xcd; 0x5a; 0xf4;
   0x1f; 0xdd; 0xa8; 0x33; 0x88; 0x07; 0xc7; 0x31; 0xb1; 0x12; 0x10; 0x59; 0x27; 0x80; 0xec; 0x5f;
   0x60; 0x51; 0x7f; 0xa9; 0x19; 0xb5; 0x4a; 0x0d; 0x2d; 0xe5; 0x7a; 0x9f; 0x93; 0xc9; 0x9c; 0xef;
   0xa0; 0xe0; 0x3b; 0x4d; 0xae; 0x2a; 0xf5; 0xb0; 0xc8; 0xeb; 0xbb; 0x3c; 0x83; 0x53; 0x99; 0x61;
   0x17; 0x2b; 0x04; 0x7e; 0xba; 0x77; 0xd6; 0x26; 0xe1; 0x69; 0x14; 0x63; 0x55; 0x21; 0x0c; 0x7d].

Definition RCON : list Z := [0; 0x01; 0x02; 0x04; 0x08; 0x10; 0x20; 0x40; 0x80; 0x1b; 0x36].

(** ** Key schedule *)

(** The indices are shifted words, not bytes of them. *)
Definition sub_word (w : Z) : outcome Z :=
  b0 ← aget SBOX (Z.shiftr w 24);
  b1 ← aget SBOX (Z.shiftr w 16);
  b2 ← aget SBOX (Z.shiftr w 8);
  b3 ← aget SBOX w;
  Done (from_be_bytes b0 b1 b2 b3).

Definition rot_word (w : Z) : Z := rotate_left w 8.

Record AesContext : Type := MkAes {
  rounds : Z;
  round_keys : list Z;
  inv_round_keys : list Z;
}.

(** ** Columns *)

(** One step of [gf_mul]: [x <<= 1], reduced. *)
Definition xtime (x : Z) : Z :=
  let y := wrap 8 (Z.shiftl x 1) in if Z.land x 0x80 =? 0 then y else Z.lxor y 0x1b.

Fixpoint gf_loop (n : nat) (result x y : Z) : Z :=
  match n with
  | O => result
  | S n' => gf_loop n' (if Z.land y 1 =? 0 then result else Z.lxor result x) (xtime x) (Z.shiftr y 1)
  end.
Definition gf_mul (a b : Z) : Z := gf_loop 8 0 a b.

Definition mix_word (w : Z) : Z :=
  let s0 := byte_of w 0 in let s1 := byte_of w 1 in let s2 := byte_of w 2 in let s3 := byte_of w 3 in
  from_be_bytes
    (Z.lxor (Z.lxor (Z.lxor (gf_mul s0 2) (gf_mul s1 3)) s2) s3)
    (Z.lxor (Z.lxor (Z.lxor s0 (gf_mul s1 2)) (gf_mul s2 3)) s3)
    (Z.lxor (Z.lxor (Z.lxor s0 s1) (gf_mul s2 2)) (gf_mul s3 3))
    (Z.lxor (Z.lxor (Z.lxor (gf_mul s0 3) s1) s2) (gf_mul s3 2)).

Definition inv_mix_word (w : Z) : Z :=
  let s0 := byte_of w 0 in let s1 := byte_of w 1 in let s2 := byte_of w 2 in let s3 := byte_of w 3 in
  from_be_bytes
    (Z.lxor (Z.lxor (Z.lxor (gf_mul s0 14) (gf_mul s1 11)) (gf_mul s2 13)) (gf_mul s3 9))
    (Z.lxor (Z.lxor (Z.lxor (gf_mul s0 9) (gf_mul s1 14)) (gf_mul s2 11)) (gf_mul s3 13))
    (Z.lxor (Z.lxor (Z.lxor (gf_mul s0 13) (gf_mul s1 9)) (gf_mul s2 14)) (gf_mul s3 11))
    (Z.lxor (Z.lxor (Z.lxor (gf_mul s0 11) (gf_mul s1 13)) (gf_mul s2 9)) (gf_mul s3 14)).

(** ** States *)

Record state : Type := MkState { s0 : Z; s1 : Z; s2 : Z; s3 : Z }.

Definition each (f : Z → Z) (s : state) : state := MkState (f (s0 s)) (f (s1 s)) (f (s2 s)) (f (s3 s)).

Definition load_block (block : list Z) : state :=
  MkState (be_word block 0) (be_word block 1) (be_word block 2) (be_word block 3).
Definition store_block (s : state) : list Z :=
  to_be_bytes (s0 s) ++ to_be_bytes (s1 s) ++ to_be_bytes (s2 s) ++ to_be_bytes (s3 s).

(** [for c in 0..4 { s[c] ^= keys[rk + c]; }]. *)
Definition add_round_key (keys : list Z) (rk : Z) (s : state) : outcome state :=
  k0 ← aget keys rk;
  k1 ← aget keys (rk + 1);
  k2 ← aget keys (rk + 2);
  k3 ← aget keys (rk + 3);
  Done (MkState (Z.lxor (s0 s) k0) (Z.lxor (s1 s) k1) (Z.lxor (s2 s) k2) (Z.lxor (s3 s) k3)).

Definition sub_bytes (table : list Z) (w : Z) : Z :=
  from_be_bytes (table !!! Z.to_nat (byte_of w 0)) (table !!! Z.to_nat (byte_of w 1))
    (table !!! Z.to_nat (byte_of w 2)) (table !!! Z.to_nat (byte_of w 3)).

(** The rotations of the four words, and the opposite ones. *)
Definition shift_rows (s : state) : state :=
  MkState (s0 s) (rotate_left (s1 s) 8) (rotate_left (s2 s) 16) (rotate_left (s3 s) 24).
Definition inv_shift_rows (s : state) : state :=
  MkState (s0 s) (rotate_left (s1 s) 24) (rotate_left (s2 s) 16) (rotate_left (s3 s) 8).

Definition mix_columns : state → state := each mix_word.
Definition inv_mix_columns : state → state := each inv_mix_word.

(** ** Setting up a key *)

(** One word of the expansion with [nk] words of key. *)
Definition expand_word (nk : Z) (rk : list Z) (i : Z) : outcome (list Z) :=
  t ← aget rk (i - 1);
  t ← (if i mod nk =? 0 then
         w ← sub_word (rot_word t); c ← aget RCON (i / nk); Done (Z.lxor w c)
       else if (nk =? 8) && (i mod nk =? 4) then sub_word t
       else Done t);
  old ← aget rk (i - nk);
  aset rk i (Z.lxor old t).

(** The four decryption keys of one round, out of [n]. *)
Definition inv_keys (n : Z) (rk inv : list Z) (i : Z) : outcome (list Z) :=
  ws ← aslice rk (i * 4) (i * 4 + 4);
  asplice inv ((n - i) * 4) (if (i =? 0) || (i =? n) then ws else inv_mix_word <$> ws).

Definition empty_keys : list Z := replicate 60 0.

(** [expand_key_128] and [expand_key_256] after the words of the key are in place. *)
Definition expand_key (nk : Z) (ctx : AesContext) : outcome AesContext :=
  rk ← for_each (expand_word nk) (round_keys ctx) (zseq nk (4 * rounds ctx + 4 - nk));
  inv ← for_each (inv_keys (rounds ctx) rk) (inv_round_keys ctx) (zseq 0 (rounds ctx + 1));
  Done (MkAes (rounds ctx) rk inv).

Definition expand_key_128 : AesContext → outcome AesContext := expand_key 4.
Definition expand_key_256 : AesContext → outcome AesContext := expand_key 8.

Definition key_words (nk : nat) (key : list Z) : list Z :=
  (be_word key <$> seq 0 nk) ++ drop nk empty_keys.

Definition new_128 (key : list Z) : outcome AesContext :=
  expand_key_128 (MkAes 10 (key_words 4 key) empty_keys).
Definition new_256 (key : list Z) : outcome AesContext :=
  expand_key_256 (MkAes 14 (key_words 8 key) empty_keys).

(** ** Blocks *)

Definition encrypt_round (keys : list Z) (s : state) (round : Z) : outcome state :=
  add_round_key keys (round * 4) (mix_columns (shift_rows (each (sub_bytes SBOX) s))).

Definition encrypt_block (ctx : AesContext) (block : list Z) : outcome (list Z) :=
  s ← add_round_key (round_keys ctx) 0 (load_block block);
  s ← for_each (encrypt_round (round_keys ctx)) s (zseq 1 (rounds ctx - 1));
  s ← add_round_key (round_keys ctx) (rounds ctx * 4) (shift_rows (each (sub_bytes SBOX) s));
  Done (store_block s).

Definition decrypt_round (keys : list Z) (s : state) (round : Z) : outcome state :=
  s ← add_round_key keys (round * 4) (each (sub_bytes INV_SBOX) (inv_shift_rows s));
  Done (inv_mix_columns s).

Definition decrypt_block (ctx : AesContext) (block : list Z) : outcome (list Z) :=
  s ← add_round_key (inv_round_keys ctx) 0 (load_block block);
  s ← for_each (decrypt_round (inv_round_keys ctx)) s (zseq 1 (rounds ctx - 1));
  s ← add_round_key (inv_round_keys ctx) (rounds ctx * 4)
        (each (sub_bytes INV_SBOX) (inv_shift_rows s));
  Done (store_block s).

(** ** Counter mode *)

Definition counter_block (nonce : list Z) (counter : Z) : list Z := nonce ++ to_be_bytes counter.

(** The slice is cut into chunks of 16 bytes, the last one maybe shorter. *)
Fixpoint ctr_loop (ctx : AesContext) (nonce : list Z) (counter : Z) (cs : list (list Z))
    : outcome (list Z) :=
  match cs with
  | [] => Done []
  | c :: cs' =>
      keystream ← encrypt_block ctx (counter_block nonce counter);
      rest ← ctr_loop ctx nonce (wrap 32 (counter + 1)) cs';
      Done (xor_bytes c keystream ++ rest)
  end.

Definition encrypt_ctr (ctx : AesContext) (plaintext nonce : list Z) : outcome (list Z) :=
  ctr_loop ctx nonce 1 (chunks 16 plaintext).
Definition decrypt_ctr (ctx : AesContext) (ciphertext nonce : list Z) : outcome (list Z) :=
  encrypt_ctr ctx ciphertext nonce.

(** ** GCM *)

(** The halving step of [gf128_mul]: the 16 bytes shifted right by a bit. *)
Fixpoint shift_bytes (carry : Z) (v : list Z) : list Z :=
  match v with
  | [] => []
  | b :: v' => Z.lor (Z.shiftr b 1) (wrap 8 (Z.shiftl carry 7)) :: shift_bytes b v'
  end.
Definition halve (v : list Z) : list Z :=
  let lsb := Z.land (v !!! 15%nat) 1 in
  let v := shift_bytes 0 v in
  if lsb =? 0 then v else
  match v with [] => [] | b :: v' => Z.lxor b 0xe1 :: v' end.

Fixpoint gf128_loop (x idxs z v : list Z) : list Z :=
  match idxs with
  | [] => z
  | i :: idxs' =>
      let bit := Z.land (Z.shiftr (x !!! Z.to_nat (i / 8)) (7 - i mod 8)) 1 in
      gf128_loop x idxs' (if bit =? 0 then z else xor_bytes z v) (halve v)
  end.
Definition gf128_mul (x y : list Z) : list Z := gf128_loop x (zseq 0 128) (replicate 16 0) y.

(** [block[..len].copy_from_slice(chunk)] on a zeroed block. *)
Definition padded (chunk : list Z) : list Z := chunk ++ replicate (16 - length chunk) 0.

Definition ghash_chunk (h y chunk : list Z) : list Z := gf128_mul (xor_bytes y (padded chunk)) h.

Definition be_bytes_64 (x : Z) : list Z := reverse (le_bytes 8 (u64 x)).

Definition ghash_authentication (h_words : list Z) (ciphertext aad : list Z) : list Z :=
  let h := h_words ≫= to_be_bytes in
  let y := foldl (ghash_chunk h) (replicate 16 0) (chunks 16 aad) in
  let y := foldl (ghash_chunk h) y (chunks 16 ciphertext) in
  let len_block := be_bytes_64 (zlen aad * 8) ++ be_bytes_64 (zlen ciphertext * 8) in
  gf128_mul (xor_bytes y len_block) h.

(** The first four round keys, that is the key, serve as hash key; the mask is
    the block with counter 1. *)
Definition gcm_tag (ctx : AesContext) (ciphertext nonce aad : list Z) : outcome (list Z) :=
  h ← aslice (round_keys ctx) 0 4;
  let tag := ghash_authentication h ciphertext aad in
  tag_mask ← encrypt_block ctx (nonce ++ [0; 0; 0; 1]);
  Done (xor_bytes tag tag_mask).

Definition encrypt_gcm (ctx : AesContext) (plaintext nonce aad : list Z)
    : outcome (list Z * list Z) :=
  ciphertext ← encrypt_ctr ctx plaintext nonce;
  tag ← gcm_tag ctx ciphertext nonce aad;
  Done (ciphertext, tag).

Definition decrypt_gcm (ctx : AesContext) (ciphertext nonce aad tag : list Z)
    : outcome (option (list Z)) :=
  expected ← gcm_tag ctx ciphertext nonce aad;
  let diff := foldl Z.lor 0 (xor_bytes tag expected) in
  if negb (diff =? 0) then Done None else
  p ← encrypt_ctr ctx ciphertext nonce; Done (Some p).

(** ** CBC *)

Definition cbc_block (chunk : list Z) : list Z :=
  chunk ++ replicate (16 - length chunk) (16 - zlen chunk).

Fixpoint encrypt_cbc_loop (ctx : AesContext) (prev : list Z) (cs : list (list Z)) : outcome (list Z) :=
  match cs with
  | [] => Done []
  | c :: cs' =>
      encrypted ← encrypt_block ctx (xor_bytes (cbc_block c) prev);
      rest ← encrypt_cbc_loop ctx encrypted cs';
      Done (encrypted ++ rest)
  end.
Definition encrypt_cbc (ctx : AesContext) (data iv : list Z) : outcome (list Z) :=
  encrypt_cbc_loop ctx iv (chunks 16 data).

Fixpoint decrypt_cbc_loop (ctx : AesContext) (prev : list Z) (cs : list (list Z)) : outcome (list Z) :=
  match cs with
  | [] => Done []
  | c :: cs' =>
      if zlen c <? 16 then Done [] else
      decrypted ← decrypt_block ctx c;
      rest ← decrypt_cbc_loop ctx c cs';
      Done (xor_bytes decrypted prev ++ rest)
  end.

(** The padding is taken off when the end of the data looks like padding. *)
Definition strip_padding (result : list Z) : list Z :=
  match last result with
  | Some pad =>
      if (0 <? pad) && (pad <=? 16) && (pad <=? zlen result) &&
         forallb (λ b, b =? pad) (drop (Z.to_nat (zlen result - pad)) result)
      then take (Z.to_nat (zlen result - pad)) result else result
  | None => result
  end.
Definition decrypt_cbc (ctx : AesContext) (data iv : list Z) : outcome (list Z) :=
  result ← decrypt_cbc_loop ctx iv (chunks 16 data); Done (strip_padding result).

(** ** Setting up a key always panics *)

Lemma sbox_bytes : Forall is_byte SBOX ∧ Forall is_byte INV_SBOX ∧ zlen SBOX = 256 ∧ zlen INV_SBOX = 256.
Proof. split_and!; [| | done | done]; apply (bool_decide_unpack _); by vm_compute. Qed.

Lemma aget_sbox i b : aget SBOX i = Done b → 0 <= i < 256 ∧ is_byte b.
Proof.
  intros H. pose proof (aget_done_range _ _ _ H) as Hr. split; [done |].
  apply aget_lookup in H as [_ H]. exact (Forall_lookup_1 _ _ _ _ (proj1 sbox_bytes) H).
Qed.

(** Only words below 256 have an entry, and then the three upper bytes of the
    result are that of 0. *)
Lemma sub_word_done w v : sub_word w = Done v → w < 256 ∧ Z.testbit v 8 = true ∧ fits 32 v.
Proof.
  intros H. unfold sub_word in H. inv_bind.
  apply aget_sbox in E2 as [Hw Hb]. rewrite Z.shiftr_div_pow2 in * by lia.
  rewrite Z.div_small in * by (unfold is_byte in *; lia).
  repeat match goal with E : aget SBOX 0 = Done _ |- _ => injection E as <- end.
  split_and!; [lia | | apply from_be_fits; done || (unfold is_byte; lia)].
  unfold from_be_bytes. change 8 with (0 + 8). rewrite <- Z.div_pow2_bits by lia.
  replace ((99 * 2 ^ 24 + 99 * 2 ^ 16 + 99 * 2 ^ (0 + 8) + a2) / 2 ^ 8) with 6513507
    by (unfold is_byte in Hb; dlia).
  done.
Qed.

Lemma rot_word_small w : fits 32 w → rot_word w < 256 → Z.testbit w 8 = false.
Proof.
  intros Hw Hr. pose proof (rotate_left_fits w 8 Hw ltac:(lia)) as Hf.
  pose proof (rotate_left_spec w 8 16 Hw ltac:(lia) ltac:(lia)) as H.
  change ((16 - 8) mod 32) with 8 in H. rewrite <- H. unfold fits in Hf.
  apply (fits_testbit 8); [unfold fits, rot_word in *; lia | lia].
Qed.

(** Bit 8 of the words of an expansion, where none of its steps has panicked. *)
Definition bit (rk : list Z) (i : Z) : bool := Z.testbit (rk !!! Z.to_nat i) 8.

Definition subbed (nk i : Z) : bool := (i mod nk =? 0) || (nk =? 8) && (i mod nk =? 4).

Definition link (nk : Z) (rk : list Z) (i : Z) : Prop :=
  bit rk i = xorb (bit rk (i - nk)) (if subbed nk i then true else bit rk (i - 1)) ∧
  (i mod nk = 0 → bit rk (i - 1) = false).

Lemma rcon_done i c : aget RCON i = Done c → fits 32 c ∧ Z.testbit c 8 = false.
Proof.
  intros [_ H]%aget_lookup.
  assert (Forall (λ c, fits 32 c ∧ Z.testbit c 8 = false) RCON) as Hall.
  { repeat constructor; (unfold fits; lia) || done. }
  by eapply Forall_lookup_1 in Hall.
Qed.

Lemma expand_word_done nk rk i rk' :
  0 < nk → Forall (fits 32) rk → expand_word nk rk i = Done rk' →
  ∃ v, 0 < i < zlen rk ∧ nk <= i ∧ rk' = <[Z.to_nat i := v]> rk ∧ fits 32 v ∧
    Z.testbit v 8 = xorb (bit rk (i - nk)) (if subbed nk i then true else bit rk (i - 1)) ∧
    (i mod nk = 0 → bit rk (i - 1) = false).
Proof.
  intros Hnk Hrk H. unfold expand_word in H. inv_bind.
  apply aget_lookup in E as [Hi E]. apply aget_lookup in E1 as [Hi' E1].
  apply aset_done in H as [Hr ->]. exists (Z.lxor a1 a0).
  assert (fits 32 a ∧ fits 32 a1) as [Ha Ha1] by (split; by eapply Forall_lookup_1).
  assert (fits 32 a0 ∧ Z.testbit a0 8 = (if subbed nk i then true else bit rk (i - 1)) ∧
    (i mod nk = 0 → bit rk (i - 1) = false)) as (Ha0 & Hbit & Hzero).
  { unfold bit, subbed. rewrite !(list_lookup_total_correct _ _ _ E).
    destruct (i mod nk =? 0) eqn:Em; bools.
    - inv_bind. apply sub_word_done in E2 as (Hlt & Hb & Hf). apply rcon_done in E3 as [Hc Hcb].
      split_and!; [by apply lxor_fits | by rewrite Z.lxor_spec, Hb, Hcb |].
      intros _. by apply rot_word_small.
    - cbn [orb]. destruct ((nk =? 8) && (i mod nk =? 4)).
      + apply sub_word_done in E0 as (? & Hb & Hf). by split_and!.
      + injection E0 as <-. by split_and!. }
  split_and!; [lia | lia | lia | done | apply lxor_fits; done | | done].
  rewrite Z.lxor_spec, Hbit. unfold bit. by rewrite (list_lookup_total_correct _ _ _ E1).
Qed.

Lemma expand_links nk n rk rk' :
  0 < nk → 0 <= n → Forall (fits 32) rk → for_each (expand_word nk) rk (zseq nk n) = Done rk' →
  ∀ i, nk <= i < nk + n → link nk rk' i.
Proof.
  intros Hnk Hn Hrk H.
  pose (I := λ i rk, Forall (fits 32) rk ∧ ∀ j, nk <= j < i → link nk rk j).
  apply (for_each_done I) in H; [by apply H | done | split; [done | lia] |].
  clear rk rk' Hrk H. intros i rk rk' Hi H [Hrk Hlinks].
  apply expand_word_done in H as (v & Hr & _ & -> & Hv & Hbit & Hzero); [| done | done].
  assert (∀ j, j ≠ i → 0 <= j → bit (<[Z.to_nat i := v]> rk) j = bit rk j) as Hne.
  { intros j Hj Hj0. unfold bit. by rewrite list_lookup_total_insert_ne by lia. }
  split; [by apply Forall_insert |]. intros j Hj. unfold link.
  destruct (decide (j = i)) as [-> | Hji].
  - rewrite (Hne (i - nk)), (Hne (i - 1)) by lia. split; [| done]. rewrite <- Hbit. unfold bit.
    rewrite list_lookup_total_insert_eq; [done |]. unfold zlen in Hr. lia.
  - rewrite !Hne by lia. apply Hlinks. lia.
Qed.

Lemma key_words_fits nk key :
  length key = (4 * nk)%nat → Forall is_byte key → Forall (fits 32) (key_words nk key).
Proof.
  intros Hl Hb. apply Forall_app_2.
  - apply Forall_fmap, Forall_forall. intros i [_ Hi]%elem_of_seq.
    assert (∀ j, (j < 4 * nk)%nat → is_byte (key !!! j)) as Hk.
    { intros j Hj. destruct (lookup_lt_is_Some_2 key j ltac:(lia)) as [b Hkb].
      rewrite (list_lookup_total_correct _ _ _ Hkb). by eapply Forall_lookup_1. }
    apply from_be_fits; apply Hk; lia.
  - apply Forall_drop, Forall_replicate. unfold fits. lia.
Qed.

(** Four words, each the exclusive or of its old value and the one before it, and
    the first one flipped: after four rounds the last one is flipped. *)
Lemma four_rounds (b : Z → Z → bool) :
  (∀ k, 1 <= k <= 4 →
    b k 0 = xorb (b (k - 1) 0) true ∧ b k 1 = xorb (b (k - 1) 1) (b k 0) ∧
    b k 2 = xorb (b (k - 1) 2) (b k 1) ∧ b k 3 = xorb (b (k - 1) 3) (b k 2)) →
  b 4 3 = negb (b 0 3).
Proof.
  intros H.
  destruct (H 1 ltac:(lia)) as (H10 & H11 & H12 & H13), (H 2 ltac:(lia)) as (H20 & H21 & H22 & H23),
    (H 3 ltac:(lia)) as (H30 & H31 & H32 & H33), (H 4 ltac:(lia)) as (H40 & H41 & H42 & H43).
  change (1 - 1) with 0 in *. change (2 - 1) with 1 in *. change (3 - 1) with 2 in *.
  change (4 - 1) with 3 in *. rewrite H43, H33, H23, H13, H42, H32, H22, H12, H41, H31, H21, H11, H40, H30, H20, H10.
  by destruct (b 0 0), (b 0 1), (b 0 2), (b 0 3).
Qed.

Lemma links_128 rk : (∀ i, 4 <= i < 44 → link 4 rk i) → False.
Proof.
  intros H. assert (bit rk 19 = negb (bit rk 3)) as Hflip.
  { apply (four_rounds (λ k j, bit rk (4 * k + j))). intros k Hk.
    assert (k = 1 ∨ k = 2 ∨ k = 3 ∨ k = 4) as [-> | [-> | [-> | ->]]] by lia;
      split_and!; apply H; lia. }
  destruct (H 4 ltac:(lia)) as [_ Z3], (H 20 ltac:(lia)) as [_ Z19].
  specialize (Z3 eq_refl). specialize (Z19 eq_refl).
  change (bit rk 3 = false) in Z3. change (bit rk 19 = false) in Z19. by rewrite Z19, Z3 in Hflip.
Qed.

Lemma links_256 rk : (∀ i, 8 <= i < 60 → link 8 rk i) → False.
Proof.
  intros H. assert (bit rk 39 = negb (bit rk 7)) as Hflip.
  { apply (four_rounds (λ k j, bit rk (8 * k + 4 + j))). intros k Hk.
    assert (k = 1 ∨ k = 2 ∨ k = 3 ∨ k = 4) as [-> | [-> | [-> | ->]]] by lia;
      split_and!; apply H; lia. }
  destruct (H 8 ltac:(lia)) as [_ Z7], (H 40 ltac:(lia)) as [_ Z39].
  specialize (Z7 eq_refl). specialize (Z39 eq_refl).
  change (bit rk 7 = false) in Z7. change (bit rk 39 = false) in Z39. by rewrite Z39, Z7 in Hflip.
Qed.

(** The steps of the key schedule return or panic, nothing else. *)
Definition settles {A} (m : outcome A) : Prop := m = Panic ∨ ∃ a, m = Done a.

Lemma settles_aget {A} (l : list A) i : settles (aget l i).
Proof. unfold aget. destruct (_ <? _); [by left |]. destruct (_ !! _); [right; eauto | by left]. Qed.

Lemma done_bind {A B} (m : outcome A) (f : A → outcome B) :
  settles m → (∀ a, settles (f a)) → settles (m ≫= f).
Proof. intros [-> | [a ->]] Hf; [by left | apply Hf]. Qed.

Lemma settles_for_each {S} (f : S → Z → outcome S) ids :
  (∀ s i, settles (f s i)) → ∀ s, settles (for_each f s ids).
Proof.
  intros Hf. induction ids as [| i ids IH]; intros s; cbn; [right; eauto |].
  by apply done_bind.
Qed.

Lemma settles_sub_word w : settles (sub_word w).
Proof. repeat (apply done_bind; [apply settles_aget |]; intros ?). right; eauto. Qed.

Lemma settles_expand_word nk rk i : settles (expand_word nk rk i).
Proof.
  apply done_bind; [apply settles_aget |]. intros t. apply done_bind.
  - repeat case_match; [| apply settles_sub_word | right; eauto].
    apply done_bind; [apply settles_sub_word |]. intros w.
    apply done_bind; [apply settles_aget | right; eauto].
  - intros t'. apply done_bind; [apply settles_aget |]. intros old. unfold aset.
    case_match; [right; eauto | by left].
Qed.

Lemma expand_panics nk ctx :
  0 < nk → 0 <= 4 * rounds ctx + 4 - nk → Forall (fits 32) (round_keys ctx) →
  (∀ rk, (∀ i, nk <= i < 4 * rounds ctx + 4 → link nk rk i) → False) → expand_key nk ctx = Panic.
Proof.
  intros Hnk Hn Hrk Hno. unfold expand_key.
  destruct (settles_for_each (expand_word nk) (zseq nk (4 * rounds ctx + 4 - nk))
    (settles_expand_word nk) (round_keys ctx)) as [-> | [rk E]]; [done |].
  destruct (Hno rk). intros i Hi. apply (expand_links nk _ _ _ Hnk Hn Hrk E). lia.
Qed.

Lemma setup_panics key :
  Forall is_byte key →
  (length key = 16%nat → new_128 key = Panic) ∧ (length key = 32%nat → new_256 key = Panic).
Proof.
  intros Hb. split; intros Hl; apply expand_panics; try done; try (by apply key_words_fits).
  - intros rk H. by apply (links_128 rk).
  - intros rk H. by apply (links_256 rk).
Qed.

(** No key can be set up: [new_128] panics for every key of 16 bytes and
    [new_256] for every key of 32.  The S-box is indexed with shifted words, so
    only words below 256 have an entry, and no key keeps all the words the
    schedule looks up that small. *)
Theorem key_setup_panics key :
  Forall is_byte key →
  (length key = 16%nat → new_128 key = Panic) ∧ (length key = 32%nat → new_256 key = Panic).
Proof. apply setup_panics. Qed.

Lemma key_setup_panics_witness : new_128 (replicate 16 0) = Panic.
Proof.
  refine (proj1 (key_setup_panics (replicate 16 0) _) eq_refl). apply Forall_replicate. unfold is_byte. lia.
Defined.

(** ** Blocks, word by word *)

(** Arrays of their declared lengths, with words in them. *)
Definition ctx_ok (ctx : AesContext) : Prop :=
  1 <= rounds ctx <= 14 ∧ zlen (round_keys ctx) = 60 ∧ zlen (inv_round_keys ctx) = 60 ∧
  Forall (fits 32) (round_keys ctx) ∧ Forall (fits 32) (inv_round_keys ctx).

Definition key_at (keys : list Z) (i : Z) : Z := keys !!! Z.to_nat i.

(** The four words of a state with their numbers. *)
Definition imap4 (f : Z → Z → Z) (s : state) : state :=
  MkState (f 0 (s0 s)) (f 1 (s1 s)) (f 2 (s2 s)) (f 3 (s3 s)).

Lemma aget_key keys i : zlen keys = 60 → 0 <= i < 60 → aget keys i = Done (key_at keys i).
Proof.
  intros Hl Hi. destruct (aget_in_range keys i) as [k Hk]; [lia |]. rewrite Hk.
  apply aget_lookup in Hk as [_ Hk]. unfold key_at. by rewrite (list_lookup_total_correct _ _ _ Hk).
Qed.

Lemma add_round_key_run keys rk s :
  zlen keys = 60 → 0 <= rk <= 56 →
  add_round_key keys rk s = Done (imap4 (λ c w, Z.lxor w (key_at keys (rk + c))) s).
Proof.
  intros Hl Hrk. unfold add_round_key. rewrite !aget_key by lia. cbn [mbind outcome_bind].
  unfold imap4. by rewrite Z.add_0_r.
Qed.

Definition rot (c w : Z) : Z := if c =? 0 then w else rotate_left w (8 * c).
Definition unrot (c w : Z) : Z := if c =? 0 then w else rotate_left w (32 - 8 * c).

(** Each round on the word with number [c]. *)
Definition enc_word (keys : list Z) (c : Z) (round w : Z) : Z :=
  Z.lxor (mix_word (rot c (sub_bytes SBOX w))) (key_at keys (round * 4 + c)).
Definition dec_word (keys : list Z) (c : Z) (round w : Z) : Z :=
  inv_mix_word (Z.lxor (sub_bytes INV_SBOX (unrot c w)) (key_at keys (round * 4 + c))).

(** The whole cipher on one word. *)
Definition encrypt_word (ctx : AesContext) (c w : Z) : Z :=
  let w := Z.lxor w (key_at (round_keys ctx) c) in
  let w := foldl (λ w round, enc_word (round_keys ctx) c round w) w (zseq 1 (rounds ctx - 1)) in
  Z.lxor (rot c (sub_bytes SBOX w)) (key_at (round_keys ctx) (rounds ctx * 4 + c)).
Definition decrypt_word (ctx : AesContext) (c w : Z) : Z :=
  let w := Z.lxor w (key_at (inv_round_keys ctx) c) in
  let w := foldl (λ w round, dec_word (inv_round_keys ctx) c round w) w (zseq 1 (rounds ctx - 1)) in
  Z.lxor (sub_bytes INV_SBOX (unrot c w)) (key_at (inv_round_keys ctx) (rounds ctx * 4 + c)).

Lemma for_each_words f g n s :
  (∀ s i, 1 <= i < 1 + n → f s i = Done (imap4 (λ c w, g c i w) s)) → 0 <= n →
  for_each f s (zseq 1 n) = Done (imap4 (λ c w, foldl (λ w i, g c i w) w (zseq 1 n)) s).
Proof.
  intros Hf Hn. assert (∀ ids, Forall (λ i, 1 <= i < 1 + n) ids → ∀ s,
    for_each f s ids = Done (imap4 (λ c w, foldl (λ w i, g c i w) w ids) s)) as Hall.
  { induction 1 as [| i ids Hi _ IH]; intros t; cbn; [by destruct t |]. rewrite Hf by done. apply IH. }
  apply Hall, Forall_forall. intros i Hi. by apply elem_of_zseq.
Qed.

#[local] Opaque mix_word inv_mix_word sub_bytes rotate_left.

Lemma shift_rows_rot s : shift_rows s = imap4 rot s.
Proof. done. Qed.

Lemma inv_shift_rows_unrot s : inv_shift_rows s = imap4 unrot s.
Proof. done. Qed.

Lemma each_imap4 f g s : each f (imap4 g s) = imap4 (λ c w, f (g c w)) s.
Proof. done. Qed.

Lemma imap4_each f g s : imap4 f (each g s) = imap4 (λ c w, f c (g w)) s.
Proof. done. Qed.

Lemma imap4_imap4 f g s : imap4 f (imap4 g s) = imap4 (λ c w, f c (g c w)) s.
Proof. done. Qed.

Ltac by_words :=
  rewrite ?shift_rows_rot, ?inv_shift_rows_unrot;
  repeat (rewrite imap4_each || rewrite each_imap4 || rewrite imap4_imap4).

Lemma encrypt_round_words keys s i :
  zlen keys = 60 → 0 <= i <= 14 →
  encrypt_round keys s i = Done (imap4 (λ c w, enc_word keys c i w) s).
Proof.
  intros Hl Hi. unfold encrypt_round, mix_columns. rewrite add_round_key_run by lia.
  by by_words.
Qed.

Lemma decrypt_round_words keys s i :
  zlen keys = 60 → 0 <= i <= 14 →
  decrypt_round keys s i = Done (imap4 (λ c w, dec_word keys c i w) s).
Proof.
  intros Hl Hi. unfold decrypt_round, inv_mix_columns. rewrite add_round_key_run by lia.
  cbn [mbind outcome_bind]. by by_words.
Qed.

Lemma encrypt_block_words ctx block :
  ctx_ok ctx → encrypt_block ctx block = Done (store_block (imap4 (encrypt_word ctx) (load_block block))).
Proof.
  intros (Hr & Hk & _). unfold encrypt_block. rewrite add_round_key_run by lia. cbn [mbind outcome_bind].
  rewrite (for_each_words _ (enc_word (round_keys ctx)))
    by (lia || (intros; apply encrypt_round_words; lia)).
  cbn [mbind outcome_bind]. rewrite add_round_key_run by lia. cbn [mbind outcome_bind].
  by by_words.
Qed.

Lemma decrypt_block_words ctx block :
  ctx_ok ctx → decrypt_block ctx block = Done (store_block (imap4 (decrypt_word ctx) (load_block block))).
Proof.
  intros (Hr & _ & Hk & _). unfold decrypt_block. rewrite add_round_key_run by lia. cbn [mbind outcome_bind].
  rewrite (for_each_words _ (dec_word (inv_round_keys ctx)))
    by (lia || (intros; apply decrypt_round_words; lia)).
  cbn [mbind outcome_bind]. rewrite add_round_key_run by lia. cbn [mbind outcome_bind].
  by by_words.
Qed.

Lemma length_store s : length (store_block s) = 16%nat.
Proof. done. Qed.

(** The cipher works on the four words of a block one by one: a word of the
    ciphertext depends on the word of the plaintext at the same place and on
    nothing else of it.  Two blocks that agree in a word have ciphertexts that
    agree in it. *)
Theorem words_independent ctx b1 b2 out1 out2 (i : nat) :
  ctx_ok ctx → (i < 4)%nat → encrypt_block ctx b1 = Done out1 → encrypt_block ctx b2 = Done out2 →
  be_word b1 i = be_word b2 i → take 4 (drop (4 * i) out1) = take 4 (drop (4 * i) out2).
Proof.
  intros Hctx Hi H1 H2 Heq. rewrite encrypt_block_words in H1, H2 by done.
  injection H1 as <-. injection H2 as <-.
  destruct i as [| [| [| [| i]]]]; [| | | | lia]; cbn in Heq |- *; by rewrite Heq.
Qed.

(** ** Counter mode and GCM *)

Definition encrypted (ctx : AesContext) (block : list Z) : list Z :=
  store_block (imap4 (encrypt_word ctx) (load_block block)).

(** [n] blocks of keystream. *)
Fixpoint stream (ctx : AesContext) (nonce : list Z) (counter : Z) (n : nat) : list Z :=
  match n with
  | O => []
  | S n' => encrypted ctx (counter_block nonce counter) ++ stream ctx nonce (wrap 32 (counter + 1)) n'
  end.

Lemma length_stream ctx nonce n : ∀ counter, length (stream ctx nonce counter n) = (16 * n)%nat.
Proof.
  induction n as [| n IH]; intros counter; [done |]. cbn [stream].
  rewrite length_app, IH. unfold encrypted. rewrite length_store. lia.
Qed.

Lemma xor_bytes_short p b r : (length p <= length b)%nat → xor_bytes p (b ++ r) = xor_bytes p b.
Proof.
  revert b. induction p as [| x p IH]; intros [| y b] Hl; cbn in *; try done; [lia |].
  f_equal. apply IH. lia.
Qed.

Lemma xor_bytes_split p b r :
  length b = 16%nat → xor_bytes p (b ++ r) = xor_bytes (take 16 p) b ++ xor_bytes (drop 16 p) r.
Proof.
  intros Hb. destruct (le_lt_dec 16 (length p)) as [Hp | Hp].
  - unfold xor_bytes. rewrite <- (take_drop 16 p) at 1. apply zip_with_app. rewrite length_take. lia.
  - rewrite (drop_ge p), take_ge, xor_bytes_short by lia. cbn. by rewrite app_nil_r.
Qed.

Lemma ctr_loop_stream ctx nonce :
  ctx_ok ctx → ∀ fuel p counter, (length p <= fuel)%nat →
  ctr_loop ctx nonce counter (chunks_of fuel 16 p) = Done (xor_bytes p (stream ctx nonce counter fuel)).
Proof.
  intros Hctx. induction fuel as [| fuel IH]; intros [| x p] counter Hl; try done.
  cbn [chunks_of ctr_loop stream]. rewrite encrypt_block_words by done. cbn [mbind outcome_bind].
  rewrite IH by (rewrite length_drop; cbn in *; lia). cbn [mbind outcome_bind].
  by rewrite xor_bytes_split.
Qed.

Lemma encrypt_ctr_stream ctx p nonce :
  ctx_ok ctx → encrypt_ctr ctx p nonce = Done (xor_bytes p (stream ctx nonce 1 (length p))).
Proof. intros. by apply ctr_loop_stream. Qed.

Lemma xor_bytes_twice p k : (length p <= length k)%nat → xor_bytes (xor_bytes p k) k = p.
Proof.
  revert k. induction p as [| x p IH]; intros [| y k] Hl; cbn in *; try done; [lia |].
  rewrite lxor_cancel. f_equal. apply IH. lia.
Qed.

Lemma length_xor_bytes p k : (length p <= length k)%nat → length (xor_bytes p k) = length p.
Proof. intros. unfold xor_bytes. rewrite length_zip_with. lia. Qed.

(** Comparing tags without leaving early. *)
Lemma diff_zero a : ∀ b, length a = length b →
  (foldl Z.lor 0 (xor_bytes a b) =? 0) = bool_decide (a = b).
Proof.
  assert (∀ b acc, length a = length b →
    foldl Z.lor acc (xor_bytes a b) = 0 ↔ acc = 0 ∧ a = b) as H.
  { induction a as [| x a IH]; intros [| y b] acc Hl; cbn in *; try done; [naive_solver |].
    rewrite IH by lia. rewrite Z.lor_eq_0_iff, Z.lxor_eq_0_iff. naive_solver. }
  intros b Hl. destruct (_ =? 0) eqn:E; bools; symmetry.
  - apply bool_decide_true. by apply (H b 0 Hl) in E as [_ E].
  - apply bool_decide_false. intros Heq. apply E, (H b 0 Hl). done.
Qed.

Lemma length_shift_bytes v : ∀ c, length (shift_bytes c v) = length v.
Proof. induction v as [| b v IH]; intros c; cbn; [done | by rewrite IH]. Qed.

Lemma length_gf128_mul x y : length y = 16%nat → length (gf128_mul x y) = 16%nat.
Proof.
  intros Hy. unfold gf128_mul. assert (length (replicate 16 0) = 16%nat) as Hz by done. revert Hz Hy.
  generalize (replicate 16 0) as z, y as v. clear y. induction (zseq 0 128) as [| i idxs IH]; [done |].
  intros z v Hz Hv. cbn [gf128_loop]. apply IH.
  - case_match; [done |]. rewrite length_xor_bytes; lia.
  - unfold halve. pose proof (length_shift_bytes v 0). destruct (_ =? 0); [lia |].
    destruct (shift_bytes 0 v); cbn in *; lia.
Qed.

Lemma gcm_tag_total ctx c nonce aad :
  ctx_ok ctx → ∃ h tag, aslice (round_keys ctx) 0 4 = Done h ∧ length tag = 16%nat ∧
    gcm_tag ctx c nonce aad = Done tag ∧
    tag = xor_bytes (ghash_authentication h c aad) (encrypted ctx (nonce ++ [0; 0; 0; 1])).
Proof.
  intros Hctx. pose proof Hctx as (_ & Hk & _). unfold gcm_tag.
  rewrite aslice_in_range by lia. eexists _, _. split; [done |]. cbn [mbind outcome_bind].
  rewrite encrypt_block_words by done. split; [| done].
  set (h := take _ _). rewrite length_xor_bytes; unfold ghash_authentication; rewrite length_gf128_mul; try done.
  all: subst h; destruct (round_keys ctx) as [| ? [| ? [| ? [| ? l]]]]; unfold zlen in Hk; cbn in Hk; try lia; done.
Qed.

Lemma gcm_opens ctx plaintext nonce aad :
  ctx_ok ctx →
  ∃ c tag, encrypt_gcm ctx plaintext nonce aad = Done (c, tag) ∧
    length c = length plaintext ∧ length tag = 16%nat ∧
    decrypt_gcm ctx c nonce aad tag = Done (Some plaintext) ∧
    ∀ t, length t = 16%nat → t ≠ tag → decrypt_gcm ctx c nonce aad t = Done None.
Proof.
  intros Hctx. set (k := stream ctx nonce 1 (length plaintext)).
  assert (length plaintext <= length k)%nat as Hk by (unfold k; rewrite length_stream; lia).
  set (c := xor_bytes plaintext k). destruct (gcm_tag_total ctx c nonce aad Hctx) as (h & tag & _ & Htag & Et & _).
  assert (length c = length plaintext) as Hlc by (by apply length_xor_bytes).
  exists c, tag. unfold encrypt_gcm, decrypt_gcm. rewrite !encrypt_ctr_stream by done.
  rewrite Hlc. fold k c. cbn [mbind outcome_bind]. rewrite Et. cbn [mbind outcome_bind].
  split_and!; [done | done | done | |].
  - rewrite diff_zero, bool_decide_true by done. cbn [negb mbind outcome_bind].
    unfold c. by rewrite xor_bytes_twice.
  - intros t Ht Hne. rewrite diff_zero, bool_decide_false by (congruence || done). done.
Qed.

(** C33. Authenticated encryption with any context of the declared shape: GCM
    encryption succeeds with a ciphertext as long as the plaintext and a tag of 16
    bytes; decrypting with that tag gives the plaintext back, and decrypting with
    any other tag is refused. *)
Theorem gcm_exact ctx plaintext nonce aad :
  ctx_ok ctx →
  ∃ c tag, encrypt_gcm ctx plaintext nonce aad = Done (c, tag) ∧
    length c = length plaintext ∧ length tag = 16%nat ∧
    decrypt_gcm ctx c nonce aad tag = Done (Some plaintext) ∧
    ∀ t, length t = 16%nat → t ≠ tag → decrypt_gcm ctx c nonce aad t = Done None.
Proof. apply gcm_opens. Qed.

(** ** Tables and columns *)

(** The S-box of the standard: the inverse in the field, by its power 254, and an
    affine map of its bits. *)
Definition gf_inv (x : Z) : Z :=
  let x2 := gf_mul x x in let x4 := gf_mul x2 x2 in let x8 := gf_mul x4 x4 in
  let x16 := gf_mul x8 x8 in let x32 := gf_mul x16 x16 in let x64 := gf_mul x32 x32 in
  let x128 := gf_mul x64 x64 in
  gf_mul x2 (gf_mul x4 (gf_mul x8 (gf_mul x16 (gf_mul x32 (gf_mul x64 x128))))).
Definition rotate_byte (b n : Z) : Z := Z.lor (wrap 8 (Z.shiftl b n)) (Z.shiftr b (8 - n)).
Definition affine (b : Z) : Z :=
  Z.lxor b (Z.lxor (rotate_byte b 1) (Z.lxor (rotate_byte b 2)
    (Z.lxor (rotate_byte b 3) (Z.lxor (rotate_byte b 4) 0x63)))).

Lemma all_bytes (P : Z → bool) : forallb P (zseq 0 256) = true → ∀ x, is_byte x → P x = true.
Proof. intros H x Hx. rewrite forallb_forall in H. apply H, list_elem_of_In, elem_of_zseq. unfold is_byte in Hx. lia. Qed.

Definition sbox_check (x : Z) : bool :=
  ((x =? 0) || (gf_mul x (gf_inv x) =? 1)) && (SBOX !!! Z.to_nat x =? affine (gf_inv x)) &&
  (INV_SBOX !!! Z.to_nat (SBOX !!! Z.to_nat x) =? x) && (SBOX !!! Z.to_nat (INV_SBOX !!! Z.to_nat x) =? x).

Lemma sbox_checked : forallb sbox_check (zseq 0 256) = true.
Proof. vm_compute. reflexivity. Qed.

Lemma sbox_facts x :
  is_byte x →
  (x ≠ 0 → gf_mul x (gf_inv x) = 1) ∧ SBOX !!! Z.to_nat x = affine (gf_inv x) ∧
  INV_SBOX !!! Z.to_nat (SBOX !!! Z.to_nat x) = x ∧ SBOX !!! Z.to_nat (INV_SBOX !!! Z.to_nat x) = x.
Proof.
  intros Hx. pose proof (all_bytes _ sbox_checked x Hx) as H. unfold sbox_check in H.
  rewrite !andb_true_iff, orb_true_iff, !Z.eqb_eq in H. naive_solver.
Qed.

(** The tables are those of the standard: the S-box is the affine map of the
    field inverse, which [gf_mul] computes, and the inverse table undoes it. *)
Theorem sbox_correct x :
  is_byte x →
  (x ≠ 0 → gf_mul x (gf_inv x) = 1) ∧ SBOX !!! Z.to_nat x = affine (gf_inv x) ∧
  INV_SBOX !!! Z.to_nat (SBOX !!! Z.to_nat x) = x ∧ SBOX !!! Z.to_nat (INV_SBOX !!! Z.to_nat x) = x.
Proof. apply sbox_facts. Qed.

Lemma sbox_correct_witness : SBOX !!! Z.to_nat 83 = affine (gf_inv 83).
Proof. refine (proj1 (proj2 (sbox_correct 83 _))). unfold is_byte. lia. Defined.

Lemma xtime_byte x : is_byte x → is_byte (xtime x).
Proof.
  intros Hx. unfold xtime. pose proof (wrap_bound 8 (Z.shiftl x 1) ltac:(lia)).
  destruct (_ =? 0); [done |]. apply lxor_byte; [done | unfold is_byte; lia].
Qed.

Lemma land_128 x : (Z.land x 128 =? 0) = negb (Z.testbit x 7).
Proof.
  change 128 with (2 ^ 7). destruct (Z.testbit x 7) eqn:E; cbn [negb].
  - apply Z.eqb_neq. intros H. assert (Z.testbit (Z.land x (2 ^ 7)) 7 = true) as Ht.
    { rewrite Z.land_spec, E. done. }
    by rewrite H in Ht.
  - apply Z.eqb_eq, Z.bits_inj'. intros n Hn. rewrite Z.land_spec, Z.pow2_bits_eqb, Z.bits_0 by lia.
    destruct (7 =? n) eqn:En; bools; [by subst; rewrite E | by rewrite andb_false_r].
Qed.

Lemma xtime_bits x n :
  0 <= n → Z.testbit (xtime x) n =
    xorb ((n <? 8) && Z.testbit x (n - 1)) (Z.testbit x 7 && Z.testbit 0x1b n).
Proof.
  intros Hn. unfold xtime. rewrite land_128. destruct (Z.testbit x 7); cbn [negb andb].
  - rewrite Z.lxor_spec. f_equal. unfold wrap. destruct (n <? 8) eqn:E; bools.
    + by rewrite Z.mod_pow2_bits_low, Z.shiftl_spec by lia.
    + by rewrite Z.mod_pow2_bits_high by lia.
  - rewrite xorb_false_r. unfold wrap. destruct (n <? 8) eqn:E; bools.
    + by rewrite Z.mod_pow2_bits_low, Z.shiftl_spec by lia.
    + by rewrite Z.mod_pow2_bits_high by lia.
Qed.

Lemma xtime_lxor x y : xtime (Z.lxor x y) = Z.lxor (xtime x) (xtime y).
Proof.
  apply Z.bits_inj'. intros n Hn. rewrite Z.lxor_spec, !xtime_bits, !Z.lxor_spec by done.
  destruct (n <? 8), (Z.testbit x (n - 1)), (Z.testbit y (n - 1)), (Z.testbit x 7), (Z.testbit y 7),
    (Z.testbit 27 n); done.
Qed.

(** Products by the constants of the two matrices. *)
Ltac gf_const := unfold gf_mul; cbn -[xtime Z.lxor]; by rewrite !Z.lxor_0_l.

Lemma gf_mul_2 x : gf_mul x 2 = xtime x.
Proof. gf_const. Qed.

Lemma gf_mul_3 x : gf_mul x 3 = Z.lxor x (xtime x).
Proof. gf_const. Qed.

Lemma gf_mul_9 x : gf_mul x 9 = Z.lxor x (xtime (xtime (xtime x))).
Proof. gf_const. Qed.

Lemma gf_mul_11 x : gf_mul x 11 = Z.lxor (Z.lxor x (xtime x)) (xtime (xtime (xtime x))).
Proof. gf_const. Qed.

Lemma gf_mul_13 x : gf_mul x 13 = Z.lxor (Z.lxor x (xtime (xtime x))) (xtime (xtime (xtime x))).
Proof. gf_const. Qed.

Lemma gf_mul_14 x : gf_mul x 14 = Z.lxor (Z.lxor (xtime x) (xtime (xtime x))) (xtime (xtime (xtime x))).
Proof. gf_const. Qed.

#[local] Opaque gf_mul.

Ltac gf_consts := rewrite ?gf_mul_2, ?gf_mul_3, ?gf_mul_9, ?gf_mul_11, ?gf_mul_13, ?gf_mul_14.

#[local] Transparent mix_word inv_mix_word sub_bytes.

Lemma gf_byte x : is_byte x →
  is_byte (gf_mul x 2) ∧ is_byte (gf_mul x 3) ∧ is_byte (gf_mul x 9) ∧ is_byte (gf_mul x 11) ∧
  is_byte (gf_mul x 13) ∧ is_byte (gf_mul x 14).
Proof.
  intros Hx. gf_consts. split_and!; repeat (apply lxor_byte || apply xtime_byte || done).
Qed.

Ltac bytes :=
  repeat match goal with
  | |- is_byte (Z.lxor _ _) => apply lxor_byte
  | |- is_byte (byte_of _ _) => apply byte_of_byte
  | |- is_byte (gf_mul _ _) => apply gf_byte, byte_of_byte
  end.

Lemma mix_word_fits w : fits 32 (mix_word w).
Proof. apply from_be_fits; bytes. Qed.

(** Reads the four bytes of a word that was put together from bytes. *)
Lemma bytes_of_word b0 b1 b2 b3 :
  is_byte b0 → is_byte b1 → is_byte b2 → is_byte b3 →
  byte_of (from_be_bytes b0 b1 b2 b3) 0 = b0 ∧ byte_of (from_be_bytes b0 b1 b2 b3) 1 = b1 ∧
  byte_of (from_be_bytes b0 b1 b2 b3) 2 = b2 ∧ byte_of (from_be_bytes b0 b1 b2 b3) 3 = b3.
Proof.
  intros H0 H1 H2 H3. pose proof (byte_of_from_be b0 b1 b2 b3 H0 H1 H2 H3) as H.
  unfold to_be_bytes in H. by injection H as -> -> -> ->.
Qed.

(** The two matrices are inverse to each other. *)
Lemma inv_mix_mix w : fits 32 w → inv_mix_word (mix_word w) = w.
Proof.
  intros Hw. rewrite <- (from_be_to_be w Hw) at 2. unfold inv_mix_word, mix_word.
  edestruct bytes_of_word as (-> & -> & -> & ->); [bytes .. |].
  generalize (byte_of w 0) as a, (byte_of w 1) as b, (byte_of w 2) as c, (byte_of w 3) as d.
  intros a b c d.
  f_equal; gf_consts; rewrite !xtime_lxor; apply Z.bits_inj'; intros n _; rewrite !Z.lxor_spec; btauto.
Qed.

Lemma sub_bytes_fits w : fits 32 (sub_bytes SBOX w).
Proof. apply from_be_fits; apply table_byte; apply sbox_bytes. Qed.

Lemma inv_sub_sub w : fits 32 w → sub_bytes INV_SBOX (sub_bytes SBOX w) = w.
Proof.
  intros Hw. rewrite <- (from_be_to_be w Hw) at 2. unfold sub_bytes.
  edestruct (bytes_of_word (SBOX !!! Z.to_nat (byte_of w 0))) as (-> & -> & -> & ->);
    [apply table_byte; apply sbox_bytes .. |].
  f_equal; apply sbox_facts, byte_of_byte.
Qed.

Lemma unrot_rot c w : 0 <= c < 4 → fits 32 w → unrot c (rot c w) = w.
Proof.
  intros Hc Hw. unfold rot, unrot. destruct (c =? 0) eqn:E; bools; [done |].
  apply rotate_left_back; [done | lia].
Qed.

Lemma rot_fits c w : 0 <= c < 4 → fits 32 w → fits 32 (rot c w).
Proof.
  intros Hc Hw. unfold rot. destruct (c =? 0) eqn:E; bools; [done |]. apply rotate_left_fits; [done | lia].
Qed.

#[local] Opaque mix_word inv_mix_word sub_bytes rot unrot.

Lemma key_fits keys i : zlen keys = 60 → Forall (fits 32) keys → 0 <= i < 60 → fits 32 (key_at keys i).
Proof.
  intros Hl Hk Hi. pose proof (aget_key keys i Hl Hi) as [_ H]%aget_lookup. by eapply Forall_lookup_1 in Hk.
Qed.

(** The state of one word after [i] rounds. *)
Definition after (ctx : AesContext) (c w : Z) (i : Z) : Z :=
  foldl (λ w round, enc_word (round_keys ctx) c round w) (Z.lxor w (key_at (round_keys ctx) c)) (zseq 1 i).

Lemma zseq_snoc a n : 0 <= n → zseq a (n + 1) = zseq a n ++ [a + n].
Proof.
  intros Hn. rewrite zseq_app by lia. rewrite (zseq_cons (a + n)) by lia. by rewrite (zseq_nil (a + n + 1)).
Qed.

Lemma after_S ctx c w i :
  0 <= i → after ctx c w (i + 1) = enc_word (round_keys ctx) c (1 + i) (after ctx c w i).
Proof. intros Hi. unfold after. by rewrite zseq_snoc, foldl_app by done. Qed.

Lemma after_fits ctx c w i :
  ctx_ok ctx → 0 <= c < 4 → fits 32 w → 0 <= i < rounds ctx → fits 32 (after ctx c w i).
Proof.
  intros (Hr & Hl & _ & Hk & _) Hc Hw Hi. destruct (decide (i = 0)) as [-> | Hne].
  - apply lxor_fits; [lia | done | by apply key_fits; [| | lia]].
  - replace i with (i - 1 + 1) by lia. rewrite after_S by lia.
    apply lxor_fits; [lia | apply mix_word_fits | apply key_fits; done || lia].
Qed.

(** Decryption keys that are the round keys backwards, and nothing else. *)
Definition plain_keys (ctx : AesContext) : Prop := ∀ i c, 0 <= i <= rounds ctx → 0 <= c < 4 →
  key_at (inv_round_keys ctx) (i * 4 + c) = key_at (round_keys ctx) ((rounds ctx - i) * 4 + c).

Lemma undo ctx c w i :
  ctx_ok ctx → plain_keys ctx → 0 <= c < 4 → fits 32 w → 0 <= i < rounds ctx →
  foldl (λ w round, dec_word (inv_round_keys ctx) c round w)
    (rot c (sub_bytes SBOX (after ctx c w (rounds ctx - 1)))) (zseq 1 i) =
  rot c (sub_bytes SBOX (after ctx c w (rounds ctx - 1 - i))).
Proof.
  intros Hctx Hp Hc Hw [H0 Hi]. pose proof Hctx as (Hr & _). revert Hi.
  rewrite <- (Z2Nat.id i H0). induction (Z.to_nat i) as [| n IH]; intros Hi.
  - cbn. by rewrite Z.sub_0_r.
  - rewrite Nat2Z.inj_succ, <- Z.add_1_r in *. rewrite zseq_snoc, foldl_app by lia. cbn [foldl].
    rewrite IH by lia. unfold dec_word.
    rewrite unrot_rot, inv_sub_sub by (done || apply sub_bytes_fits || apply after_fits; done || lia).
    replace (rounds ctx - 1 - Z.of_nat n) with (rounds ctx - 1 - (Z.of_nat n + 1) + 1) by lia.
    rewrite after_S by lia. unfold enc_word. rewrite Hp by lia.
    replace (rounds ctx - (1 + Z.of_nat n)) with (1 + (rounds ctx - 1 - (Z.of_nat n + 1))) by lia.
    rewrite lxor_cancel. apply inv_mix_mix, rot_fits, sub_bytes_fits. done.
Qed.

Lemma decrypt_encrypt_word ctx c w :
  ctx_ok ctx → plain_keys ctx → 0 <= c < 4 → fits 32 w → decrypt_word ctx c (encrypt_word ctx c w) = w.
Proof.
  intros Hctx Hp Hc Hw. pose proof Hctx as (Hr & _). unfold decrypt_word, encrypt_word.
  pose proof (Hp 0 c ltac:(lia) Hc) as Hp0. rewrite Z.mul_0_l, Z.add_0_l, Z.sub_0_r in Hp0.
  rewrite Hp0, lxor_cancel. fold (after ctx c w (rounds ctx - 1)). rewrite undo by (done || lia).
  rewrite Z.sub_diag, Hp, Z.sub_diag by lia.
  rewrite unrot_rot, inv_sub_sub by (done || apply sub_bytes_fits || apply after_fits; done || lia).
  apply lxor_cancel.
Qed.

Lemma load_store s : fits 32 (s0 s) → fits 32 (s1 s) → fits 32 (s2 s) → fits 32 (s3 s) → load_block (store_block s) = s.
Proof.
  intros H0 H1 H2 H3. destruct s as [a b c d]. cbn in *. unfold load_block, store_block, be_word. cbn -[byte_of].
  by rewrite !from_be_to_be.
Qed.

Lemma store_load b : length b = 16%nat → Forall is_byte b → store_block (load_block b) = b.
Proof.
  intros Hl Hb. do 16 (destruct b as [| ? b]; [done |]). destruct b; [| done].
  repeat (apply Forall_cons in Hb as [? Hb]). unfold store_block, load_block. cbn -[to_be_bytes].
  unfold be_word. cbn -[to_be_bytes]. by rewrite !byte_of_from_be.
Qed.

Lemma encrypt_word_fits ctx c w : ctx_ok ctx → 0 <= c < 4 → fits 32 (encrypt_word ctx c w).
Proof.
  intros (Hr & Hl & _ & Hk & _) Hc. unfold encrypt_word.
  apply lxor_fits; [lia | apply rot_fits; [done | apply sub_bytes_fits] | apply key_fits; done || lia].
Qed.

Lemma decrypt_encrypt_block ctx block :
  ctx_ok ctx → plain_keys ctx → length block = 16%nat → Forall is_byte block →
  decrypt_block ctx (encrypted ctx block) = Done block.
Proof.
  intros Hctx Hp Hl Hb. rewrite decrypt_block_words by done. unfold encrypted.
  rewrite load_store by (apply encrypt_word_fits; done || lia). rewrite imap4_imap4. f_equal.
  rewrite <- (store_load block Hl Hb) at 2. f_equal.
  assert (∀ i, (i < 4)%nat → fits 32 (be_word block i)) as Hw.
  { intros i Hi. do 16 (destruct block as [| ? block]; [done |]). destruct block; [| done].
    repeat (apply Forall_cons in Hb as [? Hb]).
    destruct i as [| [| [| [| i]]]]; [| | | | lia]; by apply from_be_fits. }
  unfold load_block, imap4. cbn [s0 s1 s2 s3].
  rewrite !decrypt_encrypt_word by (done || lia || apply Hw; lia). done.
Qed.

(** Decryption of a block undoes encryption for every context whose
    decryption keys are the round keys in reverse order.  The key schedule stores
    the inverse mixed columns of the middle ones instead, although [decrypt_block]
    mixes after adding the key. *)
Theorem decrypt_inverts_plain_keys ctx block :
  ctx_ok ctx → plain_keys ctx → length block = 16%nat → Forall is_byte block →
  ∃ c, encrypt_block ctx block = Done c ∧ decrypt_block ctx c = Done block.
Proof.
  intros Hctx Hp Hl Hb. exists (encrypted ctx block).
  split; [by apply encrypt_block_words | by apply decrypt_encrypt_block].
Qed.

(** ** CBC *)

Lemma encrypted_bytes ctx block : length (encrypted ctx block) = 16%nat ∧ Forall is_byte (encrypted ctx block).
Proof.
  split; [apply length_store |]. unfold encrypted, store_block.
  repeat apply Forall_app_2; apply to_be_bytes_bytes.
Qed.

(** The blocks of a ciphertext, each with the one before it. *)
Fixpoint cbc_blocks (ctx : AesContext) (prev : list Z) (cs : list (list Z)) : list (list Z) :=
  match cs with
  | [] => []
  | c :: cs' => let e := encrypted ctx (xor_bytes (cbc_block c) prev) in e :: cbc_blocks ctx e cs'
  end.

Lemma encrypt_cbc_blocks ctx cs : ctx_ok ctx → ∀ prev,
  encrypt_cbc_loop ctx prev cs = Done (mjoin (cbc_blocks ctx prev cs)).
Proof.
  intros Hctx. induction cs as [| c cs IH]; intros prev; [done |]. cbn [encrypt_cbc_loop cbc_blocks].
  rewrite encrypt_block_words by done. cbn [mbind outcome_bind]. by rewrite IH.
Qed.

Lemma chunks_blocks ctx cs : ∀ prev, chunks 16 (mjoin (cbc_blocks ctx prev cs)) = cbc_blocks ctx prev cs.
Proof.
  induction cs as [| c cs IH]; intros prev; [done |]. cbn [cbc_blocks]. cbn zeta.
  change (mjoin (?e :: ?l)) with (e ++ mjoin l).
  rewrite chunks_app by (lia || apply encrypted_bytes). by rewrite IH.
Qed.

Lemma decrypt_cbc_blocks ctx cs : ctx_ok ctx → plain_keys ctx → ∀ prev,
  length prev = 16%nat → Forall is_byte prev →
  Forall (λ c, (length c <= 16)%nat ∧ Forall is_byte c) cs →
  decrypt_cbc_loop ctx prev (cbc_blocks ctx prev cs) = Done (mjoin (cbc_block <$> cs)).
Proof.
  intros Hctx Hp. induction cs as [| c cs IH]; intros prev Hl Hb Hcs; [done |].
  apply Forall_cons in Hcs as [[Hcl Hcb] Hcs]. cbn [cbc_blocks]. cbn zeta.
  set (e := encrypted _ _). destruct (encrypted_bytes ctx (xor_bytes (cbc_block c) prev)) as [Hel Heb].
  fold e in Hel, Heb. cbn [decrypt_cbc_loop]. destruct (zlen e <? 16) eqn:E; [unfold zlen in E; bools; lia |].
  assert (length (cbc_block c) = 16%nat) as Hbl.
  { unfold cbc_block. rewrite length_app, length_replicate. lia. }
  assert (Forall is_byte (cbc_block c)) as Hbb.
  { apply Forall_app_2; [done |]. apply Forall_replicate. unfold is_byte, zlen. lia. }
  assert (decrypt_block ctx e = Done (xor_bytes (cbc_block c) prev)) as ->.
  { apply decrypt_encrypt_block; [done | done | rewrite length_xor_bytes; lia |].
    apply Forall_lookup_2. intros i x H. apply lookup_zip_with_Some in H as (a & b & -> & Ha & Hb').
    apply lxor_byte; [by eapply Forall_lookup_1 in Hbb | by eapply Forall_lookup_1 in Hb]. }
  cbn [mbind outcome_bind]. rewrite IH by done. cbn [mbind outcome_bind].
  by rewrite xor_bytes_twice by lia.
Qed.

(** The padding of the last chunk, and nothing when it is full. *)
Definition padding (n : nat) : list Z :=
  if (n mod 16 =? 0)%nat then [] else replicate (16 - n mod 16) (16 - Z.of_nat (n mod 16)).

Lemma join_padded data : mjoin (cbc_block <$> chunks 16 data) = data ++ padding (length data).
Proof.
  remember (length data) as n eqn:Hn. revert data Hn.
  induction (lt_wf n) as [n _ IH]. intros data Hn. destruct (le_lt_dec 16 n) as [Hge | Hlt].
  - rewrite <- (take_drop 16 data) at 1. rewrite chunks_app by (lia || rewrite length_take; lia).
    rewrite fmap_cons. change (mjoin (?e :: ?l)) with (e ++ mjoin l).
    rewrite (IH (n - 16)%nat ltac:(lia) (drop 16 data)) by (rewrite length_drop; lia).
    unfold cbc_block. rewrite length_take, Nat.min_l, Nat.sub_diag by lia. cbn [replicate].
    rewrite app_nil_r, app_assoc, take_drop. f_equal. unfold padding.
    replace (n mod 16)%nat with ((n - 16) mod 16)%nat; [done |].
    rewrite <- (Nat.Div0.mod_add (n - 16) 1 16). f_equal. lia.
  - destruct data as [| x data]; [by subst |]. unfold chunks. cbn [length chunks_of].
    rewrite drop_ge, take_ge by (cbn in *; lia). destruct (length data) eqn:E; cbn [chunks_of fmap list_fmap mjoin list_join];
      rewrite app_nil_r; unfold cbc_block, padding, zlen; cbn [length] in *; rewrite Nat.mod_small by lia; subst n;
      rewrite E; done.
Qed.

Lemma strip_padded data n :
  (0 < n < 16)%nat → strip_padding (data ++ replicate n (Z.of_nat n)) = data.
Proof.
  intros Hn. unfold strip_padding.
  assert (last (data ++ replicate n (Z.of_nat n)) = Some (Z.of_nat n)) as ->.
  { destruct n as [| n]; [lia |]. rewrite replicate_S_end, app_assoc. apply last_snoc. }
  assert (zlen (data ++ replicate n (Z.of_nat n)) - Z.of_nat n = zlen data) as ->.
  { rewrite zlen_app, zlen_replicate. lia. }
  rewrite to_nat_zlen, take_app_length, drop_app_length.
  rewrite (proj2 (forallb_forall _ _)).
  - rewrite zlen_app, zlen_replicate. pose proof (zlen_nonneg data).
    destruct (0 <? Z.of_nat n) eqn:E1, (Z.of_nat n <=? 16) eqn:E2, (Z.of_nat n <=? zlen data + Z.of_nat n) eqn:E3;
      bools; done || lia.
  - intros x Hx%list_elem_of_In%elem_of_replicate. apply Z.eqb_eq. naive_solver.
Qed.

Lemma chunks_ok n (data : list Z) :
  Forall is_byte data → Forall (λ c, (length c <= n)%nat ∧ Forall is_byte c) (chunks n data).
Proof.
  unfold chunks. generalize (length data) as fuel. intros fuel. revert data.
  induction fuel as [| fuel IH]; intros [| x l] Hb; cbn [chunks_of]; try constructor.
  - rewrite length_take. split; [lia | by apply Forall_take].
  - by apply IH, Forall_drop.
Qed.

(** CBC with keys as in the theorem before: data that ends in a partial block
    comes back as it was.  A full last block gets no padding, and what comes back
    has lost its end whenever that looks like padding, as a last byte of 1 does. *)
Theorem cbc_roundtrip ctx data iv :
  ctx_ok ctx → plain_keys ctx → length iv = 16%nat → Forall is_byte iv → Forall is_byte data →
  ∃ c, encrypt_cbc ctx data iv = Done c ∧
    decrypt_cbc ctx c iv = Done (if (length data mod 16 =? 0)%nat then strip_padding data else data).
Proof.
  intros Hctx Hp Hl Hiv Hdata. unfold encrypt_cbc, decrypt_cbc. rewrite encrypt_cbc_blocks by done.
  eexists. split; [done |]. rewrite chunks_blocks, decrypt_cbc_blocks by (done || by apply chunks_ok).
  cbn [mbind outcome_bind]. rewrite join_padded. unfold padding.
  pose proof (Nat.mod_upper_bound (length data) 16 ltac:(lia)) as Hm.
  destruct (length data mod 16 =? 0)%nat eqn:E; [by rewrite app_nil_r |]. apply Nat.eqb_neq in E.
  replace (16 - Z.of_nat (length data mod 16)) with (Z.of_nat (16 - length data mod 16)) by lia.
  rewrite strip_padded by lia. done.
Qed.

(** ** Examples *)

Definition ex_keys : list Z := (λ i, i * 0x1234567 mod 2 ^ 32) <$> zseq 1 60.

(** Ten rounds; the decryption keys in reverse order, and as the schedule makes
    them. *)
Definition ex_plain : AesContext :=
  MkAes 10 ex_keys ((λ i, key_at ex_keys ((10 - i / 4) * 4 + i mod 4)) <$> zseq 0 44 ++ zseq 44 16).
Definition ex_scheduled : AesContext :=
  match for_each (inv_keys 10 ex_keys) empty_keys (zseq 0 11) with
  | Done inv => MkAes 10 ex_keys inv
  | _ => ex_plain
  end.

Definition ex_block : list Z := zseq 1 16.

(** With the decryption keys of the schedule a block does not come back. *)
Example scheduled_keys_do_not_decrypt :
  match encrypt_block ex_scheduled ex_block ≫= decrypt_block ex_scheduled with
  | Done b => bool_decide (b = ex_block)
  | _ => true
  end = false.
Proof. vm_compute. reflexivity. Qed.

Lemma ex_plain_ok : ctx_ok ex_plain ∧ plain_keys ex_plain.
Proof.
  split; [split_and!; try done; apply (bool_decide_unpack _); by vm_compute |].
  intros i c Hi Hc. cbn in Hi.
  assert (Forall (λ i, Forall (λ c, key_at (inv_round_keys ex_plain) (i * 4 + c) =
    key_at (round_keys ex_plain) ((rounds ex_plain - i) * 4 + c)) (zseq 0 4)) (zseq 0 11)) as H.
  { apply (bool_decide_unpack _). by vm_compute. }
  rewrite Forall_forall in H. specialize (H i ltac:(apply elem_of_zseq; lia)).
  rewrite Forall_forall in H. apply H, elem_of_zseq. lia.
Qed.

Lemma words_independent_witness :
  ∃ out1 out2, encrypt_block ex_plain ex_block = Done out1 ∧
    encrypt_block ex_plain (take 4 ex_block ++ zseq 100 12) = Done out2 ∧ take 4 out1 = take 4 out2.
Proof.
  destruct ex_plain_ok as [Hok _]. eexists _, _.
  split; [by apply encrypt_block_words |]. split; [by apply encrypt_block_words |].
  by apply (words_independent ex_plain ex_block (take 4 ex_block ++ zseq 100 12) _ _ 0 Hok ltac:(lia));
    try apply encrypt_block_words.
Defined.

Lemma gcm_exact_witness :
  ∃ c tag, encrypt_gcm ex_plain (zseq 0 20) (zseq 0 12) [7] = Done (c, tag) ∧
    decrypt_gcm ex_plain c (zseq 0 12) [7] tag = Done (Some (zseq 0 20)).
Proof.
  destruct ex_plain_ok as [Hok _].
  destruct (gcm_exact ex_plain (zseq 0 20) (zseq 0 12) [7] Hok) as (c & tag & H1 & _ & _ & H2 & _). eauto.
Defined.

Lemma ex_bytes a n : 0 <= a → a + n <= 256 → Forall is_byte (zseq a n).
Proof. intros. apply Forall_forall. intros x Hx%elem_of_zseq. unfold is_byte. lia. Qed.

Lemma decrypt_inverts_plain_keys_witness :
  ∃ c, encrypt_block ex_plain ex_block = Done c ∧ decrypt_block ex_plain c = Done ex_block.
Proof.
  destruct ex_plain_ok as [Hok Hp]. apply (decrypt_inverts_plain_keys ex_plain ex_block Hok Hp); [done |].
  by apply ex_bytes.
Defined.

(** Sixteen bytes that end in 1 lose the last one. *)
Lemma cbc_roundtrip_witness :
  ∃ c, encrypt_cbc ex_plain (zseq 0 15 ++ [1]) ex_block = Done c ∧
    decrypt_cbc ex_plain c ex_block = Done (zseq 0 15).
Proof.
  destruct ex_plain_ok as [Hok Hp].
  apply (cbc_roundtrip ex_plain (zseq 0 15 ++ [1]) ex_block Hok Hp); [done | by apply ex_bytes |].
  apply Forall_app_2; [by apply ex_bytes |]. repeat constructor; lia.
Defined.
End Aes.
