(* ===== verification/Sm.v ===== *)
(** * SM3 and SM4

    kernel/src/crypto/sm.rs: the hash with its streaming interface and HMAC, and
    the block cipher with its modes.

    The theorems: hashing in pieces gives what hashing the whole message at once
    gives, whatever the pieces, and that is the padded message folded with the
    compression function ([sm3_streaming]); the compression function leaves out
    the rotation of the round constant, so its result is not SM3
    ([sm3_vector_differs]); SM4 decrypts what it encrypted under every key
    ([sm4_roundtrip]), and agrees with the published test vector
    ([sm4_vector]). *)
From S2P Require Import Prelude Words.

Module Sm.

(** ** SM3 *)

Record Sm3 : Type := MkSm3 {
  state : list Z;
  buf : list Z;
  buf_len : Z;
  total_len : Z;
}.
#[export] Instance eta_sm3 : Eta Sm3 := λ s, MkSm3 (state s) (buf s) (buf_len s) (total_len s).

Definition IV : list Z :=
  [0x7380166f; 0x4914b2b9; 0x172442d7; 0xda8a0600; 0xa96f30bc; 0x163138aa; 0xe38dee4d; 0xb0fb0e4e].

Definition add32 (x y : Z) : Z := wrap 32 (x + y).
Definition not32 (x : Z) : Z := 2 ^ 32 - 1 - x.

Definition t (j : Z) : Z := if j <? 16 then 0x79cc4519 else 0x7a879d8a.
Definition ff (j x y z : Z) : Z :=
  if j <? 16 then Z.lxor (Z.lxor x y) z else Z.lor (Z.lor (Z.land x y) (Z.land x z)) (Z.land y z).
Definition gg (j x y z : Z) : Z :=
  if j <? 16 then Z.lxor (Z.lxor x y) z else Z.lor (Z.land x y) (Z.land (not32 x) z).
Definition p0 (x : Z) : Z := Z.lxor (Z.lxor x (rotate_left x 9)) (rotate_left x 17).
Definition p1 (x : Z) : Z := Z.lxor (Z.lxor x (rotate_left x 15)) (rotate_left x 23).

(** The words [w[16..68]], each from those before it. *)
Definition expand_w (w : list Z) (i : Z) : list Z :=
  let at_ k := w !!! Z.to_nat (i - k) in
  w ++ [Z.lxor (Z.lxor (p1 (Z.lxor (Z.lxor (at_ 16) (at_ 9)) (rotate_left (at_ 3) 15)))
          (rotate_left (at_ 13) 7)) (at_ 6)].

Definition message_words (block : list Z) : list Z :=
  foldl expand_w (be_word block <$> seq 0 16) (zseq 16 52).

(** The eight working variables. *)
Record vars : Type := MkVars { va : Z; vb : Z; vc : Z; vd : Z; ve : Z; vf : Z; vg : Z; vh : Z }.

Definition sm3_round (w : list Z) (v : vars) (j : Z) : vars :=
  let wj := w !!! Z.to_nat j in
  let wpj := Z.lxor wj (w !!! Z.to_nat (j + 4)) in
  let ss1 := rotate_left (add32 (add32 (rotate_left (va v) 12) (ve v)) (t j)) 7 in
  let ss2 := Z.lxor ss1 (rotate_left (va v) 12) in
  let tt1 := add32 (add32 (add32 (ff j (va v) (vb v) (vc v)) (vd v)) ss2) wpj in
  let tt2 := add32 (add32 (add32 (gg j (ve v) (vf v) (vg v)) (vh v)) ss1) wj in
  MkVars tt1 (va v) (rotate_left (vb v) 9) (vc v) (p0 tt2) (ve v) (rotate_left (vf v) 19) (vg v).

Definition compress (st block : list Z) : list Z :=
  let w := message_words block in
  let at_ k := st !!! k in
  let v := foldl (sm3_round w)
    (MkVars (at_ 0%nat) (at_ 1%nat) (at_ 2%nat) (at_ 3%nat) (at_ 4%nat) (at_ 5%nat) (at_ 6%nat) (at_ 7%nat))
    (zseq 0 64) in
  zip_with Z.lxor st [va v; vb v; vc v; vd v; ve v; vf v; vg v; vh v].

Definition compress_block (s : Sm3) : Sm3 := s <| state := compress (state s) (buf s) |>.

Definition new : Sm3 := MkSm3 IV (replicate 64 0) 0 0.

(** [while offset + 64 <= len], on the rest of the data. *)
Fixpoint update_blocks (fuel : nat) (s : Sm3) (data : list Z) : Sm3 * list Z :=
  match fuel with
  | O => (s, data)
  | S fuel' =>
      if 64 <=? zlen data
      then update_blocks fuel' (compress_block (s <| buf := take 64 data |>)) (drop 64 data)
      else (s, data)
  end.

(** A partly filled buffer takes what it can; the data that is left comes back. *)
Definition fill_buffer (s : Sm3) (data : list Z) : outcome (Sm3 * list Z) :=
  if buf_len s <=? 0 then Done (s, data) else
  let tk := Z.min (64 - buf_len s) (zlen data) in
  b ← asplice (buf s) (buf_len s) (take (Z.to_nat tk) data);
  let s := s <| buf := b |> <| buf_len := buf_len s + tk |> in
  Done (if buf_len s =? 64 then (compress_block s) <| buf_len := 0 |> else s, drop (Z.to_nat tk) data).

Definition update (s : Sm3) (data : list Z) : outcome Sm3 :=
  let s := s <| total_len := u64 (total_len s + zlen data) |> in
  '(s, rest) ← fill_buffer s data;
  let '(s, rest) := update_blocks (length rest) s rest in
  if zlen rest =? 0 then Done s else
  b ← asplice (buf s) 0 rest; Done (s <| buf := b |> <| buf_len := zlen rest |>).

(** [for i in from..to_ { buf[i] = 0; }]. *)
Definition zero_fill (b : list Z) (from to_ : Z) : outcome (list Z) :=
  if to_ <=? from then Done b else asplice b from (replicate (Z.to_nat (to_ - from)) 0).

Definition finalize (s : Sm3) : outcome (list Z) :=
  let bit_len := u64 (total_len s * 8) in
  b ← aset (buf s) (buf_len s) 0x80;
  let s := s <| buf := b |> <| buf_len := buf_len s + 1 |> in
  s ← (if 56 <? buf_len s then
         b ← zero_fill (buf s) (buf_len s) 64;
         Done ((compress_block (s <| buf := b |>)) <| buf_len := 0 |>)
       else Done s);
  b ← zero_fill (buf s) (buf_len s) 56;
  b ← asplice b 56 (reverse (le_bytes 8 bit_len));
  Done (state (compress_block (s <| buf := b |>)) ≫= to_be_bytes).

Definition digest (data : list Z) : outcome (list Z) := s ← update new data; finalize s.

Definition hmac (key data : list Z) : outcome (list Z) :=
  k ← (if 64 <? zlen key then digest key else Done key);
  let k := k ++ replicate (64 - length k) 0 in
  inner ← update new ((λ b, Z.lxor b 0x36) <$> k);
  inner ← update inner data;
  ih ← finalize inner;
  outer ← update new ((λ b, Z.lxor b 0x5C) <$> k);
  outer ← update outer ih;
  finalize outer.

(** ** SM4 *)

Definition SM4_SBOX : list Z :=
  [0xd6; 0x90; 0xe9; 0xfe; 0xcc; 0xe1; 0x3d; 0xb7; 0x16; 0xb6; 0x14; 0xc2; 0x28; 0xfb; 0x2c; 0x05;
   0x2b; 0x67; 0x9a; 0x76; 0x2a; 0xbe; 0x04; 0xc3; 0xaa; 0x44; 0x13; 0x26; 0x49; 0x86; 0x06; 0x99;
   0x9c; 0x42; 0x50; 0xf4; 0x91; 0xef; 0x98; 0x7a; 0x33; 0x54; 0x0b; 0x43; 0xed; 0xcf; 0xac; 0x62;
   0xe4; 0xb3; 0x1c; 0xa9; 0xc9; 0x08; 0xe8; 0x95; 0x80; 0xdf; 0x94; 0xfa; 0x75; 0x8f; 0x3f; 0xa6;
   0x47; 0x07; 0xa7; 0xfc; 0xf3; 0x73; 0x17; 0xba; 0x83; 0x59; 0x3c; 0x19; 0xe6; 0x85; 0x4f; 0xa8;
   0x68; 0x6b; 0x81; 0xb2; 0x71; 0x64; 0xda; 0x8b; 0xf8; 0xeb; 0x0f; 0x4b; 0x70; 0x56; 0x9d; 0x35;
   0x1e; 0x24; 0x0e; 0x5e; 0x63; 0x58; 0xd1; 0xa2; 0x25; 0x22; 0x7c; 0x3b; 0x01; 0x21; 0x78; 0x87;
   0xd4; 0x00; 0x46; 0x57; 0x9f; 0xd3; 0x27; 0x52; 0x4c; 0x36; 0x02; 0xe7; 0xa0; 0xc4; 0xc8; 0x9e;
   0xea; 0xbf; 0x8a; 0xd2; 0x40; 0xc7; 0x38; 0xb5; 0xa3; 0xf7; 0xf2; 0xce; 0xf9; 0x61; 0x15; 0xa1;
   0xe0; 0xae; 0x5d; 0xa4; 0x9b; 0x34; 0x1a; 0x55; 0xad; 0x93; 0x32; 0x30; 0xf5; 0x8c; 0xb1; 0xe3;
   0x1d; 0xf6; 0xe2; 0x2e; 0x82; 0x66; 0xca; 0x60; 0xc0; 0x29; 0x23; 0xab; 0x0d; 0x53; 0x4e; 0x6f;
   0xd5; 0xdb; 0x37; 0x45; 0xde; 0xfd; 0x8e; 0x2f; 0x03; 0xff; 0x6a; 0x72; 0x6d; 0x6c; 0x5b; 0x51;
   0x8d; 0x1b; 0xaf; 0x92; 0xbb; 0xdd; 0xbc; 0x7f; 0x11; 0xd9; 0x5c; 0x41; 0x1f; 0x10; 0x5a; 0xd8;
   0x0a; 0xc1; 0x31; 0x88; 0xa5; 0xcd; 0x7b; 0xbd; 0x2d; 0x74; 0xd0; 0x12; 0xb8; 0xe5; 0xb4; 0xb0;
   0x89; 0x69; 0x97; 0x4a; 0x0c; 0x96; 0x77; 0x7e; 0x65; 0xb9; 0xf1; 0x09; 0xc5; 0x6e; 0xc6; 0x84;
   0x18; 0xf0; 0x7d; 0xec; 0x3a; 0xdc; 0x4d; 0x20; 0x79; 0xee; 0x5f; 0x3e; 0xd7; 0xcb; 0x39; 0x48].

Definition SM4_FK : list Z := [0xa3b1bac6; 0x56aa3350; 0x677d9197; 0xb27022dc].
Definition SM4_CK : list Z :=
  [0x00070e15; 0x1c232a31; 0x383f464d; 0x545b6269; 0x70777e85; 0x8c939aa1; 0xa8afb6bd; 0xc4cbd2d9;
   0xe0e7eef5; 0xfc030a11; 0x181f262d; 0x343b4249; 0x50575e65; 0x6c737a81; 0x888f969d; 0xa4abb2b9;
   0xc0c7ced5; 0xdce3eaf1; 0xf8ff060d; 0x141b2229; 0x30373e45; 0x4c535a61; 0x686f767d; 0x848b9299;
   0xa0a7aeb5; 0xbcc3cad1; 0xd8dfe6ed; 0xf4fb0209; 0x10171e25; 0x2c333a41; 0x484f565d; 0x646b7279].

Definition sm4_l (b : Z) : Z :=
  Z.lxor (Z.lxor (Z.lxor (Z.lxor b (rotate_left b 2)) (rotate_left b 10)) (rotate_left b 18)) (rotate_left b 24).
Definition sm4_lp (b : Z) : Z := Z.lxor (Z.lxor b (rotate_left b 13)) (rotate_left b 23).

Definition sm4_tau (w : Z) : Z :=
  let at_ i := SM4_SBOX !!! Z.to_nat (byte_of w i) in from_be_bytes (at_ 0) (at_ 1) (at_ 2) (at_ 3).
Definition sm4_t (w : Z) : Z := sm4_l (sm4_tau w).
Definition sm4_tp (w : Z) : Z := sm4_lp (sm4_tau w).

Definition quad : Type := Z * Z * Z * Z.

(** One word of the key schedule; the last four are kept, the others pushed. *)
Definition key_step (s : quad * list Z) (ck : Z) : quad * list Z :=
  let '((k0, k1, k2, k3), rk) := s in
  let k := Z.lxor k0 (sm4_tp (Z.lxor (Z.lxor (Z.lxor k1 k2) k3) ck)) in
  ((k1, k2, k3, k), rk ++ [k]).

Definition load4 (b : list Z) : quad := (be_word b 0, be_word b 1, be_word b 2, be_word b 3).

Definition sm4_new (key : list Z) : list Z :=
  let '(m0, m1, m2, m3) := load4 key in
  let fk i := SM4_FK !!! i in
  snd (foldl key_step
    ((Z.lxor m0 (fk 0%nat), Z.lxor m1 (fk 1%nat), Z.lxor m2 (fk 2%nat), Z.lxor m3 (fk 3%nat)), []) SM4_CK).

Definition sm4_round (x : quad) (rk : Z) : quad :=
  let '(x0, x1, x2, x3) := x in
  (x1, x2, x3, Z.lxor x0 (sm4_t (Z.lxor (Z.lxor (Z.lxor x1 x2) x3) rk))).

Definition store_reversed (x : quad) : list Z :=
  let '(x0, x1, x2, x3) := x in to_be_bytes x3 ++ to_be_bytes x2 ++ to_be_bytes x1 ++ to_be_bytes x0.

Definition sm4_encrypt_block (rk : list Z) (block : list Z) : list Z :=
  store_reversed (foldl sm4_round (load4 block) rk).
Definition sm4_decrypt_block (rk : list Z) (block : list Z) : list Z :=
  store_reversed (foldl sm4_round (load4 block) (reverse rk)).

Fixpoint sm4_ctr_loop (rk nonce : list Z) (counter : Z) (cs : list (list Z)) : list Z :=
  match cs with
  | [] => []
  | c :: cs' =>
      xor_bytes c (sm4_encrypt_block rk (nonce ++ to_be_bytes counter)) ++
      sm4_ctr_loop rk nonce (wrap 32 (counter + 1)) cs'
  end.
Definition sm4_encrypt_ctr (rk data nonce : list Z) : list Z := sm4_ctr_loop rk nonce 1 (chunks 16 data).

Fixpoint sm4_cbc_loop (rk prev : list Z) (cs : list (list Z)) : list Z :=
  match cs with
  | [] => []
  | c :: cs' =>
      let enc := sm4_encrypt_block rk
        (xor_bytes (c ++ replicate (16 - length c) (16 - zlen c)) prev) in
      enc ++ sm4_cbc_loop rk enc cs'
  end.
Definition sm4_encrypt_cbc (rk data iv : list Z) : list Z := sm4_cbc_loop rk iv (chunks 16 data).

(** ** SM4 decrypts *)

Definition quad_fits (x : quad) : Prop :=
  let '(x0, x1, x2, x3) := x in fits 32 x0 ∧ fits 32 x1 ∧ fits 32 x2 ∧ fits 32 x3.

Definition rev4 (x : quad) : quad := let '(x0, x1, x2, x3) := x in (x3, x2, x1, x0).

Lemma sm4_sbox_bytes : Forall is_byte SM4_SBOX ∧ zlen SM4_SBOX = 256.
Proof. split; [| done]. apply (bool_decide_unpack _). by vm_compute. Qed.

Lemma sm4_tau_fits w : fits 32 (sm4_tau w).
Proof.
  destruct sm4_sbox_bytes as [Ht Hl]. apply from_be_fits; by apply table_byte.
Qed.

Lemma sm4_t_fits w : fits 32 (sm4_t w).
Proof.
  pose proof (sm4_tau_fits w). unfold sm4_t, sm4_l.
  repeat apply lxor_fits; try lia; try done; apply rotate_left_fits; done || lia.
Qed.

Lemma sm4_round_fits x k : quad_fits x → quad_fits (sm4_round x k).
Proof.
  destruct x as [[[x0 x1] x2] x3]. intros (H0 & H1 & H2 & H3). cbn. split_and!; try done.
  apply lxor_fits; [lia | done | apply sm4_t_fits].
Qed.

(** A round with the same key undoes itself on the reversed state. *)
Lemma sm4_round_back x k : sm4_round (rev4 (sm4_round x k)) k = rev4 x.
Proof.
  destruct x as [[[x0 x1] x2] x3]. cbn -[sm4_t]. do 2 f_equal.
  replace (Z.lxor (Z.lxor x3 x2) x1) with (Z.lxor (Z.lxor x1 x2) x3); [apply lxor_cancel |].
  by rewrite (Z.lxor_comm x3 x2), (Z.lxor_comm x1 x2), !Z.lxor_assoc, (Z.lxor_comm x1 x3).
Qed.

Lemma sm4_rounds_back rk : ∀ x, foldl sm4_round (rev4 (foldl sm4_round x rk)) (reverse rk) = rev4 x.
Proof.
  induction rk as [| k rk IH]; intros x; [done |]. rewrite reverse_cons, foldl_app. cbn [foldl].
  rewrite IH. apply sm4_round_back.
Qed.

Lemma sm4_rounds_fits rk : ∀ x, quad_fits x → quad_fits (foldl sm4_round x rk).
Proof. induction rk as [| k rk IH]; intros x Hx; [done |]. by apply IH, sm4_round_fits. Qed.

Lemma load_stored x : quad_fits x → load4 (store_reversed x) = rev4 x.
Proof.
  destruct x as [[[x0 x1] x2] x3]. intros (H0 & H1 & H2 & H3).
  unfold load4, store_reversed, be_word. cbn -[byte_of]. by rewrite !from_be_to_be.
Qed.

Lemma store_loaded b : length b = 16%nat → Forall is_byte b → quad_fits (load4 b) ∧ store_reversed (rev4 (load4 b)) = b.
Proof.
  intros Hl Hb. do 16 (destruct b as [| ? b]; [done |]). destruct b; [| done].
  repeat (apply Forall_cons in Hb as [? Hb]). unfold load4, be_word. cbn -[to_be_bytes fits].
  split; [split_and!; by apply from_be_fits | by rewrite !byte_of_from_be].
Qed.

(** SM4: under every key, decrypting an encrypted block gives the block back. *)
Theorem sm4_roundtrip key block :
  length block = 16%nat → Forall is_byte block →
  sm4_decrypt_block (sm4_new key) (sm4_encrypt_block (sm4_new key) block) = block.
Proof.
  intros Hl Hb. destruct (store_loaded block Hl Hb) as [Hf Hs].
  unfold sm4_decrypt_block, sm4_encrypt_block.
  by rewrite load_stored, sm4_rounds_back by by apply sm4_rounds_fits.
Qed.

Definition ex_block : list Z :=
  [0x01; 0x23; 0x45; 0x67; 0x89; 0xab; 0xcd; 0xef; 0xfe; 0xdc; 0xba; 0x98; 0x76; 0x54; 0x32; 0x10].

Lemma sm4_roundtrip_witness :
  sm4_decrypt_block (sm4_new ex_block) (sm4_encrypt_block (sm4_new ex_block) ex_block) = ex_block.
Proof. apply (sm4_roundtrip ex_block ex_block); [done | repeat constructor; lia]. Defined.

(** The example of the standard. *)
Example sm4_vector :
  sm4_encrypt_block (sm4_new ex_block) ex_block =
  [0x68; 0x1e; 0xdf; 0x34; 0xd2; 0x06; 0x96; 0x5e; 0x86; 0xb3; 0xe9; 0x4f; 0x53; 0x6e; 0x42; 0x46].
Proof. vm_compute. reflexivity. Qed.

(** ** SM3 hashes a message in any pieces *)

(** The message with its padding, and what the standard does with it. *)
Definition padded (m : list Z) : list Z :=
  let r := (length m mod 64)%nat in
  m ++ 0x80 :: replicate (if (r <=? 55)%nat then 55 - r else 119 - r) 0 ++
  reverse (le_bytes 8 (u64 (zlen m * 8))).

Definition sm3 (m : list Z) : list Z := foldl compress IV (chunks 64 (padded m)) ≫= to_be_bytes.

(** The full blocks of a message are hashed and the rest is in the buffer. *)
Record holds (s : Sm3) (full rest : list Z) : Prop := Holds {
  holds_full : (length full mod 64 = 0)%nat;
  holds_rest : (length rest < 64)%nat;
  holds_state : state s = foldl compress IV (chunks 64 full);
  holds_size : length (buf s) = 64%nat;
  holds_buf : take (length rest) (buf s) = rest;
  holds_len : buf_len s = zlen rest;
}.

Definition hashed (s : Sm3) (m : list Z) : Prop :=
  ∃ full rest, m = full ++ rest ∧ holds s full rest ∧ total_len s = u64 (zlen m).

Lemma chunks_full (full k : list Z) : (length full mod 64 = 0)%nat → chunks 64 (full ++ k) = chunks 64 full ++ chunks 64 k.
Proof.
  remember (length full) as n eqn:Hn. revert full Hn. induction (lt_wf n) as [n _ IH]. intros full Hn Hm.
  destruct (le_lt_dec 64 n) as [Hge | Hlt].
  - assert (∃ a b, full = a ++ b ∧ length a = 64%nat) as (a & b & -> & Ha).
    { exists (take 64 full), (drop 64 full). rewrite take_drop, length_take. split; [done | lia]. }
    rewrite length_app in Hn. rewrite <- app_assoc, (chunks_app 64 a (b ++ k)), (chunks_app 64 a b) by (done || lia).
    cbn [app]. f_equal.
    apply (IH (n - 64)%nat ltac:(lia) b ltac:(lia)).
    rewrite <- (Nat.Div0.mod_add (n - 64) 1 64). by replace (n - 64 + 1 * 64)%nat with n by lia.
  - rewrite Nat.mod_small in Hm by done. destruct full; [done | cbn in Hn; lia].
Qed.

Lemma update_blocks_spec fuel : ∀ s data,
  (length data <= fuel)%nat → length (buf s) = 64%nat →
  ∃ s' blocks rest, update_blocks fuel s data = (s', rest) ∧ data = blocks ++ rest ∧
    (length blocks mod 64 = 0)%nat ∧ (length rest < 64)%nat ∧ length (buf s') = 64%nat ∧
    state s' = foldl compress (state s) (chunks 64 blocks) ∧
    buf_len s' = buf_len s ∧ total_len s' = total_len s ∧ (blocks = [] → s' = s).
Proof.
  induction fuel as [| fuel IH]; intros s data Hl Hb; cbn [update_blocks].
  { exists s, [], []. destruct data; [| cbn in Hl; lia]. split_and!; done || (cbn; lia). }
  destruct (64 <=? zlen data) eqn:E; bools; unfold zlen in E.
  - destruct (IH (compress_block (s <| buf := take 64 data |>)) (drop 64 data))
      as (s' & bs & rest & Eq & Hd & Hm & Hr & Hb' & Hs & Hbl & Ht & _);
      [rewrite length_drop; lia | cbn; rewrite length_take; lia |].
    exists s', (take 64 data ++ bs), rest. rewrite Eq, <- app_assoc, <- Hd, take_drop, length_app.
    assert (length (take 64 data) = 64%nat) as Ht64 by (rewrite length_take; lia).
    split_and!; try done.
    + rewrite Ht64, Nat.add_comm. replace (length bs + 64)%nat with (length bs + 1 * 64)%nat by lia.
      by rewrite Nat.Div0.mod_add.
    + by rewrite chunks_app by (done || lia).
    + intros H%app_nil. destruct H as [H _]. rewrite H in Ht64. done.
  - exists s, [], data. split_and!; try done. lia.
Qed.

Lemma splice_here (b pre data : list Z) :
  take (length pre) b = pre → (length pre + length data <= length b)%nat →
  ∃ b', asplice b (zlen pre) data = Done b' ∧ length b' = length b ∧
    take (length (pre ++ data)) b' = pre ++ data.
Proof.
  intros Hp Hl. rewrite asplice_in_range by (unfold zlen; lia). eexists. split; [done |].
  rewrite to_nat_zlen, Hp. split.
  - rewrite !length_app, length_drop. unfold zlen. lia.
  - rewrite app_assoc, take_app_length. done.
Qed.

Lemma full_block full b : (length full mod 64 = 0)%nat → length b = 64%nat →
  (length (full ++ b) mod 64 = 0)%nat ∧
  foldl compress IV (chunks 64 (full ++ b)) = compress (foldl compress IV (chunks 64 full)) b.
Proof.
  intros Hm Hb. split.
  - by rewrite length_app, Hb, <- Nat.Div0.add_mod_idemp_l, Hm.
  - rewrite chunks_full, foldl_app by done. 
    pose proof (chunks_app 64 b [] ltac:(lia) Hb) as E. rewrite app_nil_r in E. by rewrite E.
Qed.

Lemma fill_holds s full rest data :
  holds s full rest →
  ∃ s' lft full' rest', fill_buffer s data = Done (s', lft) ∧
    (full ++ rest) ++ data = (full' ++ rest') ++ lft ∧ holds s' full' rest' ∧
    total_len s' = total_len s ∧ (rest' = [] ∨ lft = []).
Proof.
  intros [Hm Hr Hst Hb Htk Hbl]. unfold fill_buffer. rewrite Hbl.
  destruct (zlen rest <=? 0) eqn:E; bools.
  { assert (rest = []) as -> by (destruct rest; [done | unfold zlen in E; cbn in E; lia]).
    exists s, data, full, []. split_and!; done || (by left) || (constructor; done || (cbn; lia)). }
  set (tk := Z.min _ _).
  destruct (splice_here (buf s) rest (take (Z.to_nat tk) data) Htk) as (b & -> & Hlb & Htb).
  { rewrite length_take. unfold tk, zlen. lia. }
  cbn [mbind outcome_bind]. set (piece := take (Z.to_nat tk) data) in *.
  assert (zlen (rest ++ piece) = zlen rest + tk) as Hz.
  { rewrite zlen_app. unfold piece, zlen at 2. rewrite length_take. unfold tk, zlen. lia. }
  assert (∀ k, (k ++ rest) ++ data = (k ++ rest ++ piece) ++ drop (Z.to_nat tk) data) as Hsplit.
  { intros k. rewrite <- !app_assoc. do 2 f_equal. symmetry. apply take_drop. }
  destruct (buf_len _ =? 64) eqn:E64; cbn in E64; bools.
  - assert (length (rest ++ piece) = 64%nat) as H64 by (unfold zlen in *; lia).
    destruct (full_block full (rest ++ piece) Hm H64) as [Hm' Hc].
    eexists _, _, (full ++ rest ++ piece), []. split; [done |]. rewrite app_nil_r.
    split_and!; [apply Hsplit | | done | by left].
    constructor; try done; [cbn; lia | | cbn; lia]. rewrite Hc, <- Hst. cbn. f_equal.
    by rewrite <- Htb, H64, take_ge by lia.
  - eexists _, _, full, (rest ++ piece). split; [done |].
    assert (zlen rest + tk < 64) by (unfold tk, zlen in *; lia).
    split_and!; [apply Hsplit | | done |].
    + constructor; done || (cbn; unfold zlen in *; lia).
    + right. apply drop_ge. unfold tk, zlen in *. lia.
Qed.

Lemma update_hashed s m data : hashed s m → ∃ s', update s data = Done s' ∧ hashed s' (m ++ data).
Proof.
  intros (full & rest & -> & H & Hlen). unfold update. set (s1 := s <| total_len := _ |>).
  assert (total_len s1 = u64 (zlen ((full ++ rest) ++ data))) as Ht1.
  { cbn. rewrite Hlen, (zlen_app (full ++ rest)). unfold wrap. by rewrite Zplus_mod_idemp_l. }
  assert (holds s1 full rest) as H1 by (by destruct H).
  destruct (fill_holds s1 full rest data H1) as (s2 & lft & full2 & rest2 & -> & Heq & H2 & Ht2 & Hor).
  cbn [mbind outcome_bind]. pose proof H2 as [Hm2 Hr2 Hst2 Hb2 Htk2 Hbl2].
  destruct (update_blocks_spec (length lft) s2 lft ltac:(lia) Hb2)
    as (s3 & blocks & left3 & -> & -> & Hm3 & Hr3 & Hb3 & Hst3 & Hbl3 & Ht3 & Hsame).
  assert (∀ s' full' rest', (full ++ rest) ++ data = full' ++ rest' → holds s' full' rest' →
    total_len s' = total_len s3 → hashed s' ((full ++ rest) ++ data)) as Hdone.
  { intros s' full' rest' E Hh Ht. exists full', rest'. split_and!; [done | done | congruence]. }
  destruct (zlen left3 =? 0) eqn:E; bools.
  - assert (left3 = []) as -> by (destruct left3; [done | unfold zlen in E; cbn in E; lia]).
    rewrite app_nil_r in *. eexists. split; [done |]. destruct Hor as [-> | ->].
    + apply (Hdone _ (full2 ++ blocks) []); [by rewrite Heq, !app_nil_r | | done].
      rewrite app_nil_r in *.
      constructor; [| cbn; lia | | done | done | by rewrite Hbl3].
      * by rewrite length_app, <- Nat.Div0.add_mod_idemp_l, Hm2.
      * by rewrite Hst3, Hst2, chunks_full, foldl_app.
    + rewrite (Hsame eq_refl). apply (Hdone _ full2 rest2); [by rewrite Heq, app_nil_r | done | by rewrite <- Hsame].
  - destruct Hor as [-> | H0]; [| apply app_nil in H0 as [_ ->]; done].
    destruct (splice_here (buf s3) [] left3 eq_refl) as (b & Eb & Hlb & Htb); [cbn; lia |].
    change (zlen []) with 0 in Eb. rewrite Eb. eexists. split; [done |].
    apply (Hdone _ (full2 ++ blocks) left3); [by rewrite Heq, app_nil_r, app_assoc | | done].
    constructor; [| done | | cbn; lia | done | done].
    + by rewrite length_app, <- Nat.Div0.add_mod_idemp_l, Hm2.
    + cbn. by rewrite Hst3, Hst2, chunks_full, foldl_app.
Qed.

Lemma aset_here (b pre : list Z) v :
  take (length pre) b = pre → (length pre < length b)%nat →
  ∃ b', aset b (zlen pre) v = Done b' ∧ length b' = length b ∧
    take (length (pre ++ [v])) b' = pre ++ [v].
Proof.
  intros Hp Hl. rewrite aset_in_range by (unfold zlen; lia). eexists. split; [done |].
  rewrite to_nat_zlen, length_insert. split; [done |].
  rewrite length_app. cbn [length]. rewrite Nat.add_1_r.
  rewrite (take_S_r _ _ v) by (apply list_lookup_insert_eq; lia). by rewrite take_insert_ge, Hp by lia.
Qed.

Lemma zero_fill_here (b pre : list Z) n :
  take (length pre) b = pre → (length pre <= n)%nat → (n <= length b)%nat →
  ∃ b', zero_fill b (zlen pre) (Z.of_nat n) = Done b' ∧ length b' = length b ∧
    take n b' = pre ++ replicate (n - length pre) 0.
Proof.
  intros Hp Hl Hn. unfold zero_fill. destruct (Z.of_nat n <=? zlen pre) eqn:E; bools.
  - unfold zlen in E. assert (n = length pre) as -> by lia. exists b.
    by rewrite Nat.sub_diag, app_nil_r.
  - replace (Z.to_nat (Z.of_nat n - zlen pre)) with (n - length pre)%nat by (unfold zlen; lia).
    destruct (splice_here b pre (replicate (n - length pre) 0) Hp) as (b' & -> & Hlb & Ht);
      [rewrite length_replicate; lia |].
    exists b'. split_and!; [done | done |]. rewrite <- Ht, length_app, length_replicate. f_equal. lia.
Qed.

Lemma whole_block (b w : list Z) : length b = length w → take (length w) b = w → b = w.
Proof. intros Hl <-. by rewrite take_ge by lia. Qed.

#[local] Opaque compress zero_fill.

#[local] Ltac len := repeat (rewrite length_app || rewrite length_replicate || rewrite length_cons); cbn [length]; lia.

Lemma last_block {B} (b pre bits : list Z) (k : list Z → outcome B) :
  length b = 64%nat → length bits = 8%nat → take (length pre) b = pre → (length pre <= 56)%nat →
  (b1 ← zero_fill b (zlen pre) 56; b2 ← asplice b1 56 bits; k b2) =
  k (pre ++ replicate (56 - length pre) 0 ++ bits).
Proof.
  intros Hb Hbits Hp Hl.
  destruct (zero_fill_here b pre 56 Hp Hl ltac:(lia)) as (b1 & E1 & Hl1 & Ht1).
  change (Z.of_nat 56) with 56 in E1. rewrite E1. cbn [mbind outcome_bind].
  assert (length (pre ++ replicate (56 - length pre) 0) = 56%nat) as H56
    by (rewrite length_app, length_replicate; lia).
  destruct (splice_here b1 (pre ++ replicate (56 - length pre) 0) bits) as (b2 & E2 & Hl2 & Ht2);
    [by rewrite H56 | lia |].
  assert (zlen (pre ++ replicate (56 - length pre) 0) = 56) as Hz by (unfold zlen; lia).
  rewrite Hz in E2. rewrite E2. cbn [mbind outcome_bind]. f_equal. rewrite (app_assoc pre).
  apply whole_block; [rewrite length_app; lia | done].
Qed.

(** The last blocks: the length goes to the end of the block that has room for it. *)
Lemma finalize_hashed s m : hashed s m → finalize s = Done (sm3 m).
Proof.
  intros (full & rest & -> & [Hm Hr Hst Hb Htk Hbl] & Hlen). unfold finalize, sm3, padded. rewrite Hlen.
  replace (length (full ++ rest) mod 64)%nat with (length rest).
  2: { rewrite length_app, <- Nat.Div0.add_mod_idemp_l, Hm, Nat.mod_small by done. done. }
  replace (u64 (u64 (zlen (full ++ rest)) * 8)) with (u64 (zlen (full ++ rest) * 8))
    by (unfold wrap; by rewrite Zmult_mod_idemp_l).
  set (bits := reverse (le_bytes 8 _)). assert (length bits = 8%nat) as Hbits.
  { unfold bits. rewrite length_reverse. apply length_le_bytes. }
  clearbody bits. rewrite Hbl, <- app_assoc.
  destruct (aset_here (buf s) rest 0x80 Htk ltac:(lia)) as (b1 & -> & Hl1 & Ht1).
  cbn [mbind outcome_bind]. assert (zlen rest + 1 = zlen (rest ++ [0x80])) as Hz by (by rewrite zlen_app).
  assert (length (rest ++ [0x80]) = S (length rest)) as Hlr by (rewrite length_app; cbn; lia).
  destruct (length rest <=? 55)%nat eqn:E.
  - apply Nat.leb_le in E. destruct (56 <? _) eqn:E1; cbn in E1; bools; [unfold zlen in E1; lia |].
    cbn [mbind outcome_bind buf buf_len]. rewrite Hz.
    rewrite (last_block b1 (rest ++ [0x80]) bits) by (done || lia). do 2 f_equal. cbn.
    rewrite Hlr, <- app_assoc. cbn [app]. set (blk := rest ++ _ :: _).
    assert (length blk = 64%nat) as Hblk by (unfold blk; len).
    by rewrite (proj2 (full_block full blk Hm Hblk)), Hst.
  - apply Nat.leb_gt in E. destruct (56 <? _) eqn:E1; cbn in E1; bools; [| unfold zlen in E1; lia].
    cbn [buf buf_len]. cbn. rewrite Hz.
    destruct (zero_fill_here b1 (rest ++ [0x80]) 64 Ht1 ltac:(lia) ltac:(lia)) as (b2 & E2 & Hl2 & Ht2).
    change (Z.of_nat 64) with 64 in E2. rewrite E2. cbn [mbind outcome_bind buf buf_len]. cbn.
    change 0 with (zlen (@nil Z)) at 1. rewrite (last_block b2 [] bits) by (done || lia || (cbn; lia)). do 2 f_equal. cbn.
    rewrite take_ge in Ht2 by lia. subst b2.
    assert (full ++ rest ++ 0x80 :: replicate (119 - length rest) 0 ++ bits =
      (full ++ (rest ++ [0x80]) ++ replicate (64 - S (length rest)) 0) ++ replicate 56 0 ++ bits) as ->.
    { rewrite <- !app_assoc. cbn [app]. do 3 f_equal. rewrite app_assoc, <- replicate_add. do 2 f_equal. lia. }
    rewrite Hlr in *. destruct (full_block full ((rest ++ [0x80]) ++ replicate (64 - S (length rest)) 0) Hm ltac:(len)) as [Hm1 Hc1].
    by rewrite (proj2 (full_block _ (replicate 56 0 ++ bits) Hm1 ltac:(len))), Hc1, Hst.
Qed.

(** A caller that feeds a message piece by piece. *)
Fixpoint update_all (s : Sm3) (pieces : list (list Z)) : outcome Sm3 :=
  match pieces with
  | [] => Done s
  | p :: pieces' => s ← update s p; update_all s pieces'
  end.

Lemma new_hashed : hashed new [].
Proof. exists [], []. split_and!; [done | constructor; done || (cbn; lia) | done]. Qed.

Lemma update_all_hashed pieces : ∀ s m,
  hashed s m → ∃ s', update_all s pieces = Done s' ∧ hashed s' (m ++ mjoin pieces).
Proof.
  induction pieces as [| p pieces IH]; intros s m H; cbn [update_all].
  - exists s. split; [done |]. change (mjoin []) with (@nil Z). by rewrite app_nil_r.
  - destruct (update_hashed s m p H) as (s1 & -> & H1). cbn [mbind outcome_bind].
    destruct (IH s1 _ H1) as (s2 & -> & H2). exists s2. split; [done |].
    change (mjoin (p :: pieces)) with (p ++ mjoin pieces). by rewrite app_assoc.
Qed.

Lemma streamed pieces : (s ← update_all new pieces; finalize s) = Done (sm3 (mjoin pieces)).
Proof.
  destruct (update_all_hashed pieces new [] new_hashed) as (s & -> & H). by apply finalize_hashed.
Qed.

Lemma digest_sm3 m : digest m = Done (sm3 m).
Proof.
  destruct (update_hashed new [] m new_hashed) as (s & E & H). unfold digest. rewrite E.
  by apply finalize_hashed.
Qed.

Lemma two_updates {B} a b (k : list Z → outcome B) :
  (s ← update new a; s ← update s b; h ← finalize s; k h) = k (sm3 (a ++ b)).
Proof.
  destruct (update_hashed new [] a new_hashed) as (s1 & -> & H1).
  destruct (update_hashed s1 _ b H1) as (s2 & E2 & H2). cbn [mbind outcome_bind].
  rewrite E2. cbn [mbind outcome_bind]. by rewrite (finalize_hashed s2 _ H2).
Qed.

Lemma outcome_bind_done {A} (o : outcome A) : (x ← o; Done x) = o.
Proof. by destruct o. Qed.

(** HMAC over the hash, as RFC 2104 writes it. *)
Definition hmac_sm3 (key m : list Z) : list Z :=
  let k := if 64 <? zlen key then sm3 key else key in
  let k := k ++ replicate (64 - length k) 0 in
  sm3 (((λ b, Z.lxor b 0x5c) <$> k) ++ sm3 (((λ b, Z.lxor b 0x36) <$> k) ++ m)).

(** C34. [Sm3] hashes any message, of any length, without panicking and
    independently of how it is cut: feeding the pieces to [update] one after
    the other and finalizing gives the hash of their concatenation, which is
    the compression function folded over the padded message; [digest] is the
    case of one piece, and [hmac] is HMAC over that hash for every key length. *)
Theorem sm3_streaming (pieces : list (list Z)) (key m : list Z) :
  (s ← update_all new pieces; finalize s) = Done (sm3 (mjoin pieces)) ∧
  digest m = Done (sm3 m) ∧ hmac key m = Done (hmac_sm3 key m).
Proof.
  split; [apply streamed |]. split; [apply digest_sm3 |].
  unfold hmac, hmac_sm3.
  assert ((if 64 <? zlen key then digest key else Done key) = Done (if 64 <? zlen key then sm3 key else key)) as ->
    by (destruct (64 <? zlen key); [apply digest_sm3 | done]).
  cbn [mbind outcome_bind]. set (k := _ ++ replicate _ _).
  rewrite two_updates. rewrite <- (two_updates ((λ b, Z.lxor b 0x5c) <$> k) _ Done).
  destruct (update new _) as [o1 | | |]; [| done..]. cbn [mbind outcome_bind].
  destruct (update o1 _) as [o2 | | |]; [| done..]. cbn [mbind outcome_bind]. by rewrite outcome_bind_done.
Qed.

(** The digest of the standard's first example starts with 66c7f0f4; this one
    does not, since the constant of round [j] is not rotated by [j]. *)
Example sm3_vector_differs :
  (d ← digest [0x61; 0x62; 0x63]; Done (take 4 d)) = Done [74; 224; 50; 89].
Proof. vm_compute. reflexivity. Qed.
End Sm.
