(* ===== verification/Storage.v ===== *)
(** * The random generator and sealed storage

    kernel/src/crypto/sha.rs (the hashes, which return zeros),
    kernel/src/crypto/entropy.rs (the generator) and
    kernel/src/security/secure_storage.rs (blobs sealed to an enclave).

    The generator and the storage use AES through [Cipher], the operations of
    crypto/aes.rs they call; [CipherLaws] is what they rely on, and [aes_cipher]
    is the implementation.  What the cipher promises once a key is set up is
    proved for AES ([aes_laws]); that a key can be set up is [KeySetup], which AES
    does not have.

    The theorems: with a working key setup the storage gives back what was sealed
    to the enclave that sealed it and to no other, and leaves the other blobs alone
    ([seal_then_unseal]), and the generator returns the cipher's output on
    successive counter values ([generator_output]); with the key setup of the code,
    every request for random bytes panics and nothing is ever sealed
    ([nothing_is_sealed]).  Deleting a blob renumbers the ones after it and changes
    nothing else ([delete_spec]). *)
From S2P Require Import Prelude Words Aes.

Module Storage.

(** ** What is used of AES *)

Class Cipher : Type := MkCipher {
  context : Type;
  setup_128 : list Z → outcome context;
  setup_256 : list Z → outcome context;
  block_of : context → list Z → outcome (list Z);
  seal_gcm : context → list Z → list Z → list Z → outcome (list Z * list Z);
  open_gcm : context → list Z → list Z → list Z → list Z → outcome (option (list Z));
}.

#[export] Instance aes_cipher : Cipher :=
  MkCipher Aes.AesContext Aes.new_128 Aes.new_256 Aes.encrypt_block Aes.encrypt_gcm Aes.decrypt_gcm.

(** ** crypto/sha.rs *)

Definition Sha256_digest (input : list Z) : list Z := replicate 32 0.

(** ** crypto/entropy.rs *)

Definition POOL_SIZE : Z := 8.

Record CryptoEntropy : Type := MkEntropy {
  seed_pool : list Z;
  pool_index : Z;
  reseed_counter : Z;
  drbg_key : list Z;
  drbg_value : list Z;
  zkr_detected : bool;
}.
#[export] Instance eta_entropy : Eta CryptoEntropy := λ r,
  MkEntropy (seed_pool r) (pool_index r) (reseed_counter r) (drbg_key r) (drbg_value r) (zkr_detected r).

(** What [rdtime] and [rdcycle] read. *)
Record clock : Type := MkClock { tick : Z; cycle : Z }.

(** [seed.wrapping_mul(...).wrapping_add(1)] for each word of the pool. *)
Fixpoint stir (n : nat) (i seed t : Z) : list Z :=
  match n with
  | O => []
  | S n' =>
      let seed := u64 (seed * 6364136223846793005 + 1) in
      Z.lxor seed (u64 (t + i)) :: stir n' (i + 1) seed t
  end.
Definition clock_words (c : clock) : list Z :=
  stir (Z.to_nat POOL_SIZE) 0 (Z.lxor (u64 (tick c * 0x9E3779B97F4A7C15)) (cycle c)) (tick c).

Definition pool_bytes (pool : list Z) : list Z := pool ≫= le_bytes 8.

Definition drbg_initialize (e : CryptoEntropy) : CryptoEntropy :=
  let input := pool_bytes (seed_pool e) in
  let hash := Sha256_digest input in
  e <| drbg_key := hash |> <| drbg_value := xor_bytes (drop 16 hash) (take 16 input) |>
    <| reseed_counter := 1 |>.

(** One read of the seed register, xored into its 16 bits of the pool. *)
Definition usable (v : Z) : bool := negb (v =? 2 ^ 64 - 1) && negb (v =? 0).
Definition harvest (seed_csr : Z → Z) (pool : list Z) (i : Z) : outcome (list Z) :=
  let v := seed_csr i in
  if usable v && (Z.land (Z.shiftr v 30) 3 =? 0) then
    w ← aget pool (i / 4);
    aset pool (i / 4) (Z.lxor w (Z.shiftl (Z.land v 0xFFFF) (i mod 4 * 16)))
  else Done pool.

Definition init (probe : Z) (seed_csr : Z → Z) (c : clock) : outcome CryptoEntropy :=
  let e := MkEntropy (replicate 8 0) 0 0 (replicate 32 0) (replicate 16 0) (usable probe) in
  pool ← (if zkr_detected e then for_each (harvest seed_csr) (seed_pool e) (zseq 0 (POOL_SIZE * 4))
          else Done (clock_words c));
  Done (drbg_initialize (e <| seed_pool := pool |>)).

Definition reseed (c : clock) (e : CryptoEntropy) : CryptoEntropy :=
  let pool := xor_bytes (seed_pool e) (clock_words c) in
  let hash := Sha256_digest (pool_bytes pool ++ drbg_key e ++ drbg_value e) in
  e <| seed_pool := pool |> <| drbg_key := xor_bytes (drbg_key e) hash |>
    <| drbg_value := xor_bytes (drbg_value e) (drop 16 hash) |> <| reseed_counter := 1 |>.

(** The counter block plus one, last byte first. *)
Fixpoint carry_in (carry : Z) (l : list Z) : list Z :=
  match l with
  | [] => []
  | b :: l' =>
      let val := b + carry in
      wrap 8 val :: if Z.shiftr val 8 =? 0 then l' else carry_in (Z.shiftr val 8) l'
  end.
Definition next_block (block : list Z) : list Z := reverse (carry_in 1 (reverse block)).

Section entropy.
Context `{Cipher}.

Fixpoint generate_loop (fuel : nat) (ctx : context) (request : Z) (res block : list Z) (counter : Z)
    : outcome (list Z * list Z * Z) :=
  match fuel with
  | O => OutOfFuel
  | S fuel' =>
      if zlen res <? request then
        encrypted ← block_of ctx block;
        chunk ← aslice encrypted 0 (Z.min (request - zlen res) 16);
        generate_loop fuel' ctx request (res ++ chunk) (next_block block) (u64 (counter + 1))
      else Done (res, block, counter)
  end.

Definition drbg_generate (c : clock) (e : CryptoEntropy) (len : Z) : outcome (CryptoEntropy * list Z) :=
  let request := Z.min len 64000 in
  let e := if 1000000 <? reseed_counter e then reseed c e else e in
  ctx ← setup_256 (drbg_key e);
  '(res, block, counter) ←
    generate_loop (S (Z.to_nat request)) ctx request [] (drbg_value e) (reseed_counter e);
  updated ← block_of ctx block;
  Done (e <| reseed_counter := counter |> <| drbg_value := block |>
          <| drbg_key := xor_bytes (take 16 (drbg_key e)) updated ++ drop 16 (drbg_key e) |>, res).

Definition random_bytes (c : clock) (e : CryptoEntropy) (buf : list Z) : outcome (CryptoEntropy * list Z) :=
  '(e, data) ← drbg_generate c e (zlen buf);
  let len := Z.min (zlen data) (zlen buf) in
  buf ← asplice buf 0 (take (Z.to_nat len) data);
  Done (e, buf).

Definition random_u64 (c : clock) (e : CryptoEntropy) : outcome (CryptoEntropy * Z) :=
  '(e, buf) ← random_bytes c e (replicate 8 0); Done (e, of_le_bytes buf).
Definition random_u32 (c : clock) (e : CryptoEntropy) : outcome (CryptoEntropy * Z) :=
  '(e, buf) ← random_bytes c e (replicate 4 0); Done (e, of_le_bytes buf).

End entropy.

(** ** security/secure_storage.rs *)

Definition MAX_SEALED_BLOBS : Z := 64.
Definition SEALED_DATA_SIZE : Z := 256.

Record SealedBlob : Type := MkBlob {
  b_enclave_id : Z;
  b_measurement : list Z;
  b_data : list Z;
  b_data_len : Z;
  b_iv : list Z;
  b_tag : list Z;
  creation_time : Z;
  access_count : Z;
}.
#[export] Instance eta_blob : Eta SealedBlob := λ r,
  MkBlob (b_enclave_id r) (b_measurement r) (b_data r) (b_data_len r) (b_iv r) (b_tag r)
    (creation_time r) (access_count r).

(** The storage, with the static buffer that [unseal] decrypts into. *)
Record SecureStorage : Type := MkStorage {
  sealed_data : list SealedBlob;
  count : Z;
  DECRYPT_BUF : list Z;
}.
#[export] Instance eta_storage : Eta SecureStorage := λ r,
  MkStorage (sealed_data r) (count r) (DECRYPT_BUF r).

(** What is read of security/tee.rs's [ApTeeEnclave]. *)
Record ApTeeEnclave : Type := MkEnclave { enclave_id : Z; measurement : list Z }.

Definition zero_blob : SealedBlob :=
  MkBlob 0 (replicate 64 0) (replicate 256 0) 0 (replicate 16 0) (replicate 16 0) 0 0.
Definition new : SecureStorage :=
  MkStorage (replicate (Z.to_nat MAX_SEALED_BLOBS) zero_blob) 0 (replicate 256 0).

(** The bytes of "TEE-SEALING-v1". *)
Definition domain : list Z := [84; 69; 69; 45; 83; 69; 65; 76; 73; 78; 71; 45; 118; 49].
Definition derive_sealing_key (m iv : list Z) : list Z := Sha256_digest (m ++ iv ++ domain).

Inductive seal_error : Type := StorageFull | InvalidLength.

Section storage.
Context `{Cipher}.

Definition seal (c : clock) (tick_count : Z) (e : CryptoEntropy) (s : SecureStorage)
    (enclave : ApTeeEnclave) (data : list Z)
    : outcome (CryptoEntropy * SecureStorage * result seal_error Z) :=
  if MAX_SEALED_BLOBS <=? count s then Done (e, s, Err StorageFull) else
  if (zlen data =? 0) || (SEALED_DATA_SIZE <? zlen data) then Done (e, s, Err InvalidLength) else
  let idx := count s in
  blob ← aget (sealed_data s) idx;
  '(e, iv) ← random_bytes c e (b_iv blob);
  let sealing_key := derive_sealing_key (measurement enclave) iv in
  key ← aslice sealing_key 0 16;
  aes ← setup_128 key;
  nonce ← aslice iv 0 12;
  '(ct, tag) ← seal_gcm aes data nonce (measurement enclave);
  let data_len := Z.min (zlen ct) SEALED_DATA_SIZE in
  payload ← asplice (b_data blob) 0 (take (Z.to_nat data_len) ct);
  let blob := MkBlob (enclave_id enclave) (measurement enclave) payload data_len iv tag tick_count 0 in
  blobs ← aset (sealed_data s) idx blob;
  Done (e, s <| sealed_data := blobs |> <| count := count s + 1 |>, Ok idx).

Definition unseal (s : SecureStorage) (enclave : ApTeeEnclave) (blob_id : Z)
    : outcome (SecureStorage * option (list Z)) :=
  if count s <=? blob_id then Done (s, None) else
  blob ← aget (sealed_data s) blob_id;
  if negb (bool_decide (b_measurement blob = measurement enclave)) then Done (s, None) else
  if negb (b_enclave_id blob =? enclave_id enclave) then Done (s, None) else
  let sealing_key := derive_sealing_key (measurement enclave) (b_iv blob) in
  key ← aslice sealing_key 0 16;
  aes ← setup_128 key;
  nonce ← aslice (b_iv blob) 0 12;
  ciphertext ← aslice (b_data blob) 0 (Z.min (b_data_len blob) SEALED_DATA_SIZE);
  plain ← open_gcm aes ciphertext nonce (measurement enclave) (b_tag blob);
  match plain with
  | None => Done (s, None)
  | Some plaintext =>
      let len := Z.min (zlen plaintext) SEALED_DATA_SIZE in
      buf ← asplice (replicate 256 0) 0 (take (Z.to_nat len) plaintext);
      blobs ← aset (sealed_data s) blob_id (blob <| access_count := u64 (access_count blob + 1) |>);
      out ← aslice buf 0 len;
      Done (s <| sealed_data := blobs |> <| DECRYPT_BUF := buf |>, Some out)
  end.

End storage.

(** [self.sealed_data[i] = self.sealed_data[i + 1]]. *)
Definition shift_down (blobs : list SealedBlob) (i : Z) : outcome (list SealedBlob) :=
  b ← aget blobs (i + 1); aset blobs i b.

Definition delete (s : SecureStorage) (blob_id : Z) : outcome SecureStorage :=
  if count s <=? blob_id then Done s else
  blobs ← for_each shift_down (sealed_data s) (zseq blob_id (count s - 1 - blob_id));
  Done (s <| sealed_data := blobs |> <| count := count s - 1 |>).

Definition list_for_enclave (s : SecureStorage) (id : Z) : outcome (list Z) :=
  for_each (λ ids i, b ← aget (sealed_data s) i;
    Done (if b_enclave_id b =? id then ids ++ [i] else ids)) [] (zseq 0 (count s)).

Definition verify_binding (s : SecureStorage) (blob_id : Z) (m : list Z) : outcome bool :=
  if count s <=? blob_id then Done false else
  b ← aget (sealed_data s) blob_id; Done (bool_decide (b_measurement b = m)).


(** ** What a cipher promises *)

Class CipherLaws `{Cipher} : Type := {
  good : context → Prop;
  block_law : ∀ ctx b, good ctx → ∃ out, block_of ctx b = Done out ∧ length out = 16%nat ∧ Forall is_byte out;
  gcm_law : ∀ ctx plaintext nonce aad, good ctx →
    ∃ c tag, seal_gcm ctx plaintext nonce aad = Done (c, tag) ∧
      length c = length plaintext ∧ length tag = 16%nat ∧
      open_gcm ctx c nonce aad tag = Done (Some plaintext) ∧
      ∀ t, length t = 16%nat → t ≠ tag → open_gcm ctx c nonce aad t = Done None;
}.

(** Keys of the right length can be set up. *)
Class KeySetup `{CipherLaws} : Prop := {
  setup_128_law : ∀ k, length k = 16%nat → ∃ ctx, setup_128 k = Done ctx ∧ good ctx;
  setup_256_law : ∀ k, length k = 32%nat → ∃ ctx, setup_256 k = Done ctx ∧ good ctx;
}.

#[export] Instance aes_laws : CipherLaws.
Proof.
  refine {| good := Aes.ctx_ok |}.
  - intros ctx b Hc. eexists. split; [by apply Aes.encrypt_block_words |].
    split; [apply Aes.length_store |]. unfold Aes.store_block. repeat (apply Forall_app; split); apply to_be_bytes_bytes.
  - intros. by apply Aes.gcm_opens.
Defined.

(** ** The counter *)

Definition be_number (l : list Z) : Z := of_le_bytes (reverse l).

Lemma carry_in_spec l : ∀ carry, 0 <= carry <= 1 → Forall is_byte l →
  of_le_bytes (carry_in carry l) = (of_le_bytes l + carry) mod 2 ^ (8 * zlen l) ∧
  Forall is_byte (carry_in carry l) ∧ length (carry_in carry l) = length l.
Proof.
  induction l as [| b l IH]; intros carry Hc Hl.
  - cbn. split; [| done]. by rewrite Z.mod_1_r.
  - apply Forall_cons in Hl as [Hb Hl]. unfold is_byte in Hb. cbn [carry_in of_le_bytes].
    pose proof (of_le_bytes_bound l Hl) as Hbd.
    replace (8 * zlen (b :: l)) with (8 + 8 * zlen l) by (unfold zlen; cbn [length]; lia).
    rewrite Z.pow_add_r by (unfold zlen; lia). change (2 ^ 8) with 256.
    rewrite Z.shiftr_div_pow2 by done. change (2 ^ 8) with 256. unfold wrap. change (2 ^ 8) with 256.
    set (M := 2 ^ (8 * zlen l)) in *. assert (0 < M) by (apply Z.pow_pos_nonneg; unfold zlen; lia). clearbody M.
    assert (is_byte ((b + carry) mod 256)) by (unfold is_byte; dlia).
    destruct ((b + carry) / 256 =? 0) eqn:E; bools.
    + split_and!; [| by constructor | done]. rewrite (Z.mod_small (b + _ + carry)); dlia.
    + destruct (IH ((b + carry) / 256)) as (IH1 & IH2 & IH3); [dlia | done |].
      split_and!; [| by constructor | by cbn; rewrite IH3]. rewrite IH1.
      replace (b + 256 * of_le_bytes l + carry) with
        ((b + carry) mod 256 + 256 * (of_le_bytes l + (b + carry) / 256)) by dlia.
      clear IH IH1. set (q := of_le_bytes l + _). assert (0 <= (b + carry) mod 256 < 256) as Hr by dlia.
      set (r := (b + carry) mod 256) in *. clearbody q r. rewrite Z.rem_mul_r by lia.
      replace ((r + 256 * q) mod 256) with r by dlia. by replace ((r + 256 * q) / 256) with q by dlia.
Qed.

(** The block after [b] holds the next number, modulo 2^128. *)
Lemma next_block_spec b : Forall is_byte b →
  be_number (next_block b) = (be_number b + 1) mod 2 ^ (8 * zlen b) ∧
  Forall is_byte (next_block b) ∧ length (next_block b) = length b.
Proof.
  intros Hb. unfold be_number, next_block. rewrite reverse_involutive, length_reverse.
  destruct (carry_in_spec (reverse b) 1 ltac:(lia)) as (H1 & H2 & H3); [by apply Forall_reverse |].
  rewrite H3, length_reverse. unfold zlen in *. rewrite length_reverse in H1.
  split_and!; [done | by apply Forall_reverse | done].
Qed.

(** ** The generator with a working cipher *)

Record entropy_ok (e : CryptoEntropy) : Prop := EntropyOk {
  pool_size : length (seed_pool e) = 8%nat;
  key_size : length (drbg_key e) = 32%nat;
  value_size : length (drbg_value e) = 16%nat;
  key_bytes : Forall is_byte (drbg_key e);
  value_bytes : Forall is_byte (drbg_value e);
}.

Lemma xor_zeros l n : (length l <= n)%nat → xor_bytes l (replicate n 0) = l.
Proof.
  revert n. induction l as [| b l IH]; intros [| n] Hl; cbn in *; try done; [lia |].
  rewrite Z.lxor_0_r. f_equal. apply IH. lia.
Qed.

Lemma length_stir n : ∀ i seed t, length (stir n i seed t) = n.
Proof. induction n as [| n IH]; intros; cbn; [done |]. by rewrite IH. Qed.

Lemma reseed_ok c e : entropy_ok e → entropy_ok (reseed c e) ∧
  drbg_key (reseed c e) = drbg_key e ∧ drbg_value (reseed c e) = drbg_value e.
Proof.
  intros [H1 H2 H3 H4 H5].
  assert (drbg_key (reseed c e) = drbg_key e) as E1 by (apply (xor_zeros _ 32); lia).
  assert (drbg_value (reseed c e) = drbg_value e) as E2 by (apply (xor_zeros _ 16); lia).
  split; [| done]. split; rewrite ?E1, ?E2; try done.
  cbn. unfold xor_bytes, clock_words. rewrite length_zip_with, length_stir. rewrite H1. done.
Qed.

Section generator.
Context `{KeySetup}.

(** The output of the cipher on [n] successive counter values. *)
Fixpoint blocks (ctx : context) (v : list Z) (n : nat) : list Z :=
  match n with
  | O => []
  | S n' => match block_of ctx v with Done out => out | _ => [] end ++ blocks ctx (next_block v) n'
  end.

Lemma generate_loop_spec fuel ctx request : good ctx → ∀ res block counter need,
  need = Z.to_nat (request - zlen res) → (need < fuel)%nat →
  generate_loop fuel ctx request res block counter =
    Done (res ++ take need (blocks ctx block ((need + 15) / 16)),
      Nat.iter ((need + 15) / 16) next_block block,
      if (need =? 0)%nat then counter else u64 (counter + Z.of_nat ((need + 15) / 16))).
Proof.
  intros Hg. induction fuel as [| fuel IH]; intros res block counter need Hn Hf; [lia |].
  cbn [generate_loop]. destruct (zlen res <? request) eqn:E; bools.
  2: { replace need with 0%nat by lia. cbn. by rewrite app_nil_r. }
  destruct (block_law ctx block Hg) as (out & Eo & Hlo & _). rewrite Eo. cbn [mbind outcome_bind].
  rewrite aslice_in_range by (unfold zlen in *; lia). cbn [mbind outcome_bind].
  rewrite Z.sub_0_r. change (drop (Z.to_nat 0) out) with out.
  set (k := Z.to_nat (Z.min (request - zlen res) 16)).
  assert (k = Nat.min need 16) as Hk by (unfold k; lia).
  rewrite (IH _ _ _ (need - k)%nat); [| rewrite zlen_app; unfold zlen at 2; rewrite length_take; lia | lia].
  assert ((need + 15) / 16 = S ((need - k + 15) / 16))%nat as ->.
  { rewrite Hk. destruct (le_lt_dec need 16).
    - replace (need - need `min` 16)%nat with 0%nat by lia.
      change ((0 + 15) / 16)%nat with 0%nat. symmetry. apply (Nat.div_unique _ _ _ (need - 1)); lia.
    - replace (need + 15)%nat with ((need - 16 + 15) + 1 * 16)%nat by lia.
      rewrite Nat.div_add by done. replace (need - need `min` 16)%nat with (need - 16)%nat by lia. lia. }
  cbn [blocks]. rewrite Eo. do 2 f_equal; [f_equal |].
  - rewrite <- app_assoc. f_equal. rewrite take_app, Hlo. f_equal.
    + destruct (le_lt_dec need 16); [by replace k with need by lia | rewrite !take_ge by lia; done].
    + destruct (le_lt_dec need 16).
      * by replace (need - k)%nat with (need - 16)%nat by lia.
      * by replace k with 16%nat by lia.
  - by rewrite Nat.iter_succ_r.
  - destruct (need - k =? 0)%nat eqn:E0, (need =? 0)%nat eqn:E1;
      rewrite ?Nat.eqb_eq, ?Nat.eqb_neq in *; try lia.
    + by rewrite E0.
    + unfold wrap. rewrite Zplus_mod_idemp_l. f_equal. lia.
Qed.

(** The generator after any reseeding that is due. *)
Definition due (c : clock) (e : CryptoEntropy) : CryptoEntropy :=
  if 1000000 <? reseed_counter e then reseed c e else e.

Lemma due_ok c e : entropy_ok e → entropy_ok (due c e) ∧
  drbg_key (due c e) = drbg_key e ∧ drbg_value (due c e) = drbg_value e.
Proof. intros. unfold due. destruct (_ <? _); [by apply reseed_ok | done]. Qed.

Lemma iter_next_block n v : Forall is_byte v → length v = 16%nat →
  be_number (Nat.iter n next_block v) = (be_number v + Z.of_nat n) mod 2 ^ 128 ∧
  Forall is_byte (Nat.iter n next_block v) ∧ length (Nat.iter n next_block v) = 16%nat.
Proof.
  intros Hb Hl. induction n as [| n (IH1 & IH2 & IH3)].
  - cbn. split; [| done]. rewrite Z.add_0_r, Z.mod_small; [done |].
    pose proof (of_le_bytes_bound (reverse v)) as Hv. unfold zlen in Hv. rewrite length_reverse, Hl in Hv.
    apply Hv. by apply Forall_reverse.
  - rewrite Nat.iter_succ. destruct (next_block_spec _ IH2) as (H1' & H2' & H3').
    rewrite H1', H3', IH1. unfold zlen. rewrite IH3. change (8 * Z.of_nat 16) with 128.
    split_and!; [| done | done]. rewrite Zplus_mod_idemp_l. f_equal. lia.
Qed.

Lemma length_blocks ctx n : good ctx → ∀ v, length (blocks ctx v n) = (16 * n)%nat.
Proof.
  intros Hg. induction n as [| n IH]; intros v; [done |]. cbn [blocks].
  destruct (block_law ctx v Hg) as (out & -> & Hl & _). rewrite length_app, IH. lia.
Qed.

Lemma xor_bytes_bytes a b : Forall is_byte a → Forall is_byte b → Forall is_byte (xor_bytes a b).
Proof.
  intros Ha. revert b. induction Ha as [| x a Hx Ha IH]; intros b [| y b' Hy Hb]; try constructor.
  - by apply lxor_byte.
  - by apply IH.
Qed.

Lemma generates c e len : entropy_ok e → 0 <= len →
  ∃ ctx e' res, setup_256 (drbg_key e) = Done ctx ∧ good ctx ∧
    drbg_generate c e len = Done (e', res) ∧ entropy_ok e' ∧
    let n := Z.to_nat ((Z.min len 64000 + 15) / 16) in
    res = take (Z.to_nat (Z.min len 64000)) (blocks ctx (drbg_value e) n) ∧
    zlen res = Z.min len 64000 ∧
    be_number (drbg_value e') = (be_number (drbg_value e) + Z.of_nat n) mod 2 ^ 128.
Proof.
  intros He Hlen. destruct (due_ok c e He) as ([Hp Hk Hv Hkb Hvb] & Ek & Ev). unfold drbg_generate.
  fold (due c e). set (d := due c e) in *. rewrite <- Ek, <- Ev.
  destruct (setup_256_law (drbg_key d) Hk) as (ctx & -> & Hg). cbn [mbind outcome_bind].
  set (req := Z.min len 64000). set (n := Z.to_nat ((req + 15) / 16)).
  assert (((Z.to_nat req + 15) / 16)%nat = n) as Hn.
  { unfold n. rewrite Z2Nat.inj_div, Z2Nat.inj_add by lia. done. }
  rewrite (generate_loop_spec _ ctx req Hg _ _ _ (Z.to_nat req));
    [| by rewrite Z.sub_0_r | lia]. rewrite Hn. cbn [mbind outcome_bind app].
  destruct (iter_next_block n (drbg_value d) Hvb Hv) as (I1 & I2 & I3).
  destruct (block_law ctx (Nat.iter n next_block (drbg_value d)) Hg) as (up & -> & Hlu & Hbu).
  exists ctx. eexists _, _. split_and!; try done.
  - split; cbn; try done.
    + rewrite length_app, Aes.length_xor_bytes by (rewrite length_take; lia).
      rewrite length_take, length_drop. lia.
    + apply Forall_app. split; [apply xor_bytes_bytes; [by apply Forall_take | done] | by apply Forall_drop].
  - unfold zlen. rewrite length_take, length_blocks by done. unfold n. dlia.
Qed.


Lemma random_bytes_ok c e buf : entropy_ok e → zlen buf <= 64000 →
  ∃ ctx e' buf', setup_256 (drbg_key e) = Done ctx ∧
    random_bytes c e buf = Done (e', buf') ∧ entropy_ok e' ∧ length buf' = length buf ∧
    buf' = take (length buf) (blocks ctx (drbg_value e) ((length buf + 15) / 16)).
Proof.
  intros He Hb. destruct (generates c e (zlen buf) He ltac:(unfold zlen; lia))
    as (ctx & e' & res & Ec & Hg & Er & He' & Hres & Hz & _).
  exists ctx, e', res. unfold random_bytes. rewrite Er. cbn [mbind outcome_bind].
  assert (zlen res = zlen buf) as Hzl by lia. rewrite Hzl, Z.min_id.
  rewrite take_ge, asplice_in_range by (unfold zlen in *; lia). cbn [mbind outcome_bind].
  assert (length res = length buf) as Hl by (unfold zlen in Hzl; lia).
  rewrite drop_ge by (unfold zlen in *; lia). change (take (Z.to_nat 0) buf) with (@nil Z).
  rewrite app_nil_r. split_and!; try done. rewrite Hres at 1.
  replace (Z.min (zlen buf) 64000) with (zlen buf) by lia. unfold zlen. f_equal; [lia |]. f_equal.
  rewrite Z2Nat.inj_div, Z2Nat.inj_add by lia. by rewrite Nat2Z.id.
Qed.

(** The generator with a cipher whose keys can be set up: a request for up to
    64000 bytes fills the whole buffer with the cipher's output on successive
    values of the counter, and leaves the generator with the counter advanced by
    the number of blocks it used, modulo 2^128, so that no value serves two
    requests before the counter wraps. *)
Theorem generator_output c e buf : entropy_ok e → zlen buf <= 64000 →
  ∃ ctx e' buf', setup_256 (drbg_key e) = Done ctx ∧
    random_bytes c e buf = Done (e', buf') ∧ entropy_ok e' ∧ length buf' = length buf ∧
    buf' = take (length buf) (blocks ctx (drbg_value e) ((length buf + 15) / 16)) ∧
    be_number (drbg_value e') = (be_number (drbg_value e) + (zlen buf + 15) / 16) mod 2 ^ 128.
Proof.
  intros He Hb. destruct (random_bytes_ok c e buf He Hb) as (ctx & e' & buf' & Ec & Eb & Hok & Hl & Hb').
  exists ctx, e', buf'. split_and!; try done.
  destruct (generates c e (zlen buf) He ltac:(unfold zlen; lia))
    as (ctx2 & e2 & res & _ & _ & Er & _ & _ & _ & Hn).
  unfold random_bytes in Eb. rewrite Er in Eb. cbn [mbind outcome_bind] in Eb. apply bind_Done in Eb as (b & _ & [= <- _]). rewrite Hn.
  do 2 f_equal. replace (Z.min (zlen buf) 64000) with (zlen buf) by lia. rewrite Z2Nat.id; [done |].
  apply Z.div_pos; unfold zlen; lia.
Qed.

(** ** The storage with a working cipher *)

Lemma aslice_take (l : list Z) n : 0 <= n <= zlen l → aslice l 0 n = Done (take (Z.to_nat n) l).
Proof. intros. rewrite aslice_in_range by lia. by rewrite Z.sub_0_r. Qed.

Record blob_ok (b : SealedBlob) : Prop := BlobOk {
  iv_size : length (b_iv b) = 16%nat;
  data_size : length (b_data b) = 256%nat;
  tag_size : length (b_tag b) = 16%nat;
  data_bound : 0 <= b_data_len b <= SEALED_DATA_SIZE;
}.

Record storage_ok (s : SecureStorage) : Prop := StorageOk {
  blobs_size : zlen (sealed_data s) = MAX_SEALED_BLOBS;
  count_bound : 0 <= count s <= MAX_SEALED_BLOBS;
  blobs_ok : Forall blob_ok (sealed_data s);
}.

(** What [unseal] needs to find in the slot of a blob. *)
Definition sealed (enclave : ApTeeEnclave) (data : list Z) (b : SealedBlob) : Prop :=
  b_enclave_id b = enclave_id enclave ∧ b_measurement b = measurement enclave ∧
  blob_ok b ∧ b_data_len b = zlen data ∧
  ∃ ctx, setup_128 (take 16 (derive_sealing_key (measurement enclave) (b_iv b))) = Done ctx ∧
    open_gcm ctx (take (length data) (b_data b)) (take 12 (b_iv b)) (measurement enclave) (b_tag b) =
    Done (Some data).

Lemma seal_ok c t e s enclave data :
  entropy_ok e → storage_ok s → count s < MAX_SEALED_BLOBS → 0 < zlen data <= SEALED_DATA_SIZE →
  ∃ e' b, seal c t e s enclave data =
      Done (e', s <| sealed_data := <[Z.to_nat (count s) := b]> (sealed_data s) |>
                  <| count := count s + 1 |>, Ok (count s)) ∧
    entropy_ok e' ∧ sealed enclave data b ∧ access_count b = 0.
Proof.
  intros He [Hsz Hc Hok] Hlt Hd. unfold seal.
  destruct (MAX_SEALED_BLOBS <=? count s) eqn:E1; bools; [lia |].
  destruct ((zlen data =? 0) || (SEALED_DATA_SIZE <? zlen data)) eqn:E2; bools; try lia.
  destruct (aget_in_range (sealed_data s) (count s) ltac:(lia)) as (old & Eold). rewrite Eold.
  cbn [mbind outcome_bind]. apply aget_lookup in Eold as [_ Hold].
  assert (blob_ok old) as [Hiv Hda _ _] by (by eapply Forall_lookup_1).
  destruct (random_bytes_ok c e (b_iv old) He) as (cx & e' & iv & _ & -> & He' & Hliv & _);
    [unfold zlen; lia |]. cbn [mbind outcome_bind]. rewrite Hiv in Hliv.
  set (key := derive_sealing_key _ _). assert (length key = 32%nat) as Hkey by done.
  rewrite (aslice_take key 16) by (unfold zlen; lia). cbn [mbind outcome_bind].
  change (Z.to_nat 16) with 16%nat.
  destruct (setup_128_law (take 16 key)) as (ctx & Ectx & Hg); [by rewrite length_take, Hkey |].
  rewrite Ectx. cbn [mbind outcome_bind].
  rewrite (aslice_take iv 12) by (unfold zlen; lia). cbn [mbind outcome_bind].
  change (Z.to_nat 12) with 12%nat.
  destruct (gcm_law ctx data (take 12 iv) (measurement enclave) Hg) as (ct & tag & -> & Hlc & Hlt' & Hopen & _).
  cbn [mbind outcome_bind]. assert (zlen ct = zlen data) as Hzc by (unfold zlen; lia).
  rewrite Hzc, Z.min_l, take_ge by (unfold zlen, SEALED_DATA_SIZE in *; lia).
  rewrite asplice_in_range by (unfold zlen, SEALED_DATA_SIZE in *; lia). cbn [mbind outcome_bind].
  rewrite aset_in_range by lia. cbn [mbind outcome_bind].
  eexists e', _. split; [done |]. split; [done |]. split; [| done].
  split_and!; try done.
  - split; cbn [b_iv b_data b_tag b_data_len]; try done; [| lia].
    rewrite !length_app, length_drop, Hzc. change (length (take (Z.to_nat 0) (b_data old))) with 0%nat. unfold zlen, SEALED_DATA_SIZE in *. lia.
  - exists ctx. split; [done |]. cbn [b_data b_iv b_tag]. change (take (Z.to_nat 0) _) with (@nil Z).
    by rewrite app_nil_l, <- Hlc, take_app_length.
Qed.

Lemma unseal_ok s enclave data i b :
  storage_ok s → 0 <= i < count s → sealed_data s !! Z.to_nat i = Some b → sealed enclave data b →
  zlen data <= SEALED_DATA_SIZE →
  unseal s enclave i =
  Done (s <| sealed_data := <[Z.to_nat i := b <| access_count := u64 (access_count b + 1) |>]> (sealed_data s) |>
          <| DECRYPT_BUF := data ++ replicate (256 - length data) 0 |>, Some data).
Proof.
  intros [Hsz Hc Hok] Hi Hb (Hid & Hm & [Hiv Hda Htag Hlen] & Hdl & ctx & Ectx & Hopen) Hd.
  unfold unseal. destruct (count s <=? i) eqn:E; bools; [lia |].
  rewrite (proj2 (aget_lookup _ _ b)) by (split; [lia | done]). cbn [mbind outcome_bind].
  rewrite bool_decide_true by done. rewrite Hid, Z.eqb_refl. cbn [negb].
  set (key := derive_sealing_key _ _) in *. assert (length key = 32%nat) as Hkey by done.
  rewrite (aslice_take key 16) by (unfold zlen; lia). cbn [mbind outcome_bind].
  change (Z.to_nat 16) with 16%nat. rewrite Ectx. cbn [mbind outcome_bind].
  rewrite (aslice_take (b_iv b) 12) by (unfold zlen; lia). cbn [mbind outcome_bind].
  change (Z.to_nat 12) with 12%nat. rewrite Hdl, !Z.min_l by done.
  rewrite (aslice_take (b_data b)) by (unfold zlen, SEALED_DATA_SIZE in *; lia). cbn [mbind outcome_bind].
  rewrite to_nat_zlen, Hopen. cbn [mbind outcome_bind].
  rewrite Z.min_l, to_nat_zlen, take_ge by (done || lia).
  rewrite asplice_in_range by (unfold zlen, SEALED_DATA_SIZE in *; rewrite ?length_replicate; lia).
  cbn [mbind outcome_bind]. rewrite aset_in_range by (unfold zlen in *; lia). cbn [mbind outcome_bind].
  change (take (Z.to_nat 0) (replicate 256 0)) with (@nil Z). rewrite Z.add_0_l, to_nat_zlen, drop_replicate.
  rewrite app_nil_l, aslice_take by (rewrite zlen_app; unfold zlen; lia).
  by rewrite to_nat_zlen, take_app_length.
Qed.

Lemma unseal_other s enclave i b :
  storage_ok s → 0 <= i < count s → sealed_data s !! Z.to_nat i = Some b →
  b_measurement b ≠ measurement enclave ∨ b_enclave_id b ≠ enclave_id enclave →
  unseal s enclave i = Done (s, None).
Proof.
  intros [Hsz Hc Hok] Hi Hb Hne. unfold unseal. destruct (count s <=? i) eqn:E; bools; [lia |].
  rewrite (proj2 (aget_lookup _ _ b)) by (split; [lia | done]). cbn [mbind outcome_bind].
  case_bool_decide; [| done]. cbn [negb]. destruct (b_enclave_id b =? enclave_id enclave) eqn:E1; bools; [| done].
  destruct Hne; congruence.
Qed.

(** Sealed storage with a cipher whose keys can be set up.  With a free slot
    and data of 1 to 256 bytes, sealing succeeds and returns the next blob number;
    the earlier blobs are unchanged.  Unsealing that blob as the same enclave
    gives exactly the data and counts the access; an enclave with another
    measurement or another number gets nothing and changes nothing.  Without a
    free slot, or with data of another length, sealing fails and changes nothing. *)
Theorem seal_then_unseal c t e s enclave data :
  entropy_ok e → storage_ok s →
  if (count s <? MAX_SEALED_BLOBS) && (0 <? zlen data) && (zlen data <=? SEALED_DATA_SIZE) then
    ∃ e' s', seal c t e s enclave data = Done (e', s', Ok (count s)) ∧
      entropy_ok e' ∧ storage_ok s' ∧ count s' = count s + 1 ∧
      (∀ i, i ≠ count s → 0 <= i → sealed_data s' !! Z.to_nat i = sealed_data s !! Z.to_nat i) ∧
      (∃ s'', unseal s' enclave (count s) = Done (s'', Some data) ∧
         access_count <$> sealed_data s'' !! Z.to_nat (count s) = Some 1) ∧
      ∀ other, measurement other ≠ measurement enclave ∨ enclave_id other ≠ enclave_id enclave →
        unseal s' other (count s) = Done (s', None)
  else ∃ err, seal c t e s enclave data = Done (e, s, Err err).
Proof.
  intros He Hs. pose proof Hs as [Hsz Hc Hok].
  destruct ((count s <? MAX_SEALED_BLOBS) && (0 <? zlen data) && (zlen data <=? SEALED_DATA_SIZE)) eqn:E.
  - bools. destruct (seal_ok c t e s enclave data He Hs) as (e' & b & Es & He' & Hsl & Ha); [lia | lia |].
    set (s' := _ <| count := _ |>) in Es. pose proof Hsl as (Hid & Hm & Hb & _).
    assert (Z.to_nat (count s) < length (sealed_data s))%nat as Hlt by (unfold zlen in *; lia).
    assert (storage_ok s') as Hs'.
    { split; cbn; [unfold zlen in *; by rewrite length_insert | lia | by apply Forall_insert]. }
    assert (sealed_data s' !! Z.to_nat (count s) = Some b) as Hlk by (by apply list_lookup_insert_eq).
    exists e', s'. split; [done |]. split; [done |]. split; [done |]. split; [done |]. split.
    { intros i Hne Hi. apply list_lookup_insert_ne. lia. }
    split.
    + eexists. split; [apply (unseal_ok _ _ _ _ b); try done; cbn; lia |].
      cbn. rewrite list_lookup_insert_eq by (rewrite length_insert; lia). cbn. by rewrite Ha.
    + intros other Hne. apply (unseal_other _ _ _ b); try done; [cbn; lia |].
      rewrite Hm, Hid. destruct Hne; [left | right]; congruence.
  - unfold seal. destruct (MAX_SEALED_BLOBS <=? count s) eqn:E1; [by eexists |].
    destruct ((zlen data =? 0) || (SEALED_DATA_SIZE <? zlen data)) eqn:E2; [by eexists |].
    destruct (count s <? _) eqn:E3, (0 <? zlen data) eqn:E4, (zlen data <=? _) eqn:E5; try done; clear E;
      bools; unfold zlen in *; lia.
Qed.

End generator.

(** ** With the key setup of the code *)

Lemma random_bytes_panics c e buf : entropy_ok e → random_bytes c e buf = Panic.
Proof.
  intros He. destruct (due_ok c e He) as (_ & Ek & _). destruct He as [_ Hk _ Hkb _].
  unfold random_bytes, drbg_generate. fold (due c e). rewrite Ek.
  cbn [setup_256 aes_cipher]. by rewrite (proj2 (Aes.setup_panics (drbg_key e) Hkb) Hk).
Qed.

Lemma seal_err c t e s enclave data e' s' r : entropy_ok e →
  seal c t e s enclave data = Done (e', s', r) → e' = e ∧ s' = s ∧ ∃ err, r = Err err.
Proof.
  intros He. unfold seal. destruct (_ <=? _); [intros [= <- <- <-]; eauto |].
  destruct (_ || _); [intros [= <- <- <-]; eauto |].
  intros (blob & _ & Hk)%bind_Done. by rewrite random_bytes_panics in Hk.
Qed.

Lemma delete_empty s i : count s = 0 → 0 <= i → delete s i = Done s.
Proof. intros Hc Hi. unfold delete. destruct (_ <=? _) eqn:E; bools; [done | lia]. Qed.
Lemma unseal_empty s enclave i : count s = 0 → 0 <= i → unseal s enclave i = Done (s, None).
Proof. intros Hc Hi. unfold unseal. destruct (_ <=? _) eqn:E; bools; [done | lia]. Qed.

Lemma harvest_ok csr pool i : 0 <= i < 32 → length pool = 8%nat →
  ∃ pool', harvest csr pool i = Done pool' ∧ length pool' = 8%nat.
Proof.
  intros Hi Hl. unfold harvest. destruct (_ && _); [| eauto].
  destruct (aget_in_range pool (i / 4)) as [w ->]; [unfold zlen; dlia |]. cbn [mbind outcome_bind].
  rewrite aset_in_range by (unfold zlen; dlia). eexists. split; [done |]. by rewrite length_insert.
Qed.

Lemma pool_bytes_size pool : length (pool_bytes pool) = (8 * length pool)%nat.
Proof.
  unfold pool_bytes. induction pool as [| w pool IH]; [done |]. rewrite bind_cons, length_app, length_le_bytes, IH.
  cbn [length]. lia.
Qed.
Lemma pool_bytes_bytes pool : Forall is_byte (pool_bytes pool).
Proof.
  unfold pool_bytes. induction pool as [| w pool IH]; [done |]. rewrite bind_cons.
  apply Forall_app. split; [apply le_bytes_bytes | done].
Qed.

Lemma drbg_initialize_ok e : length (seed_pool e) = 8%nat → entropy_ok (drbg_initialize e).
Proof.
  intros Hl. assert (∀ n, Forall is_byte (replicate n 0)) as Hz
    by (intros; apply Forall_replicate; unfold is_byte; lia).
  assert (drbg_value (drbg_initialize e) = xor_bytes (replicate 16 0) (take 16 (pool_bytes (seed_pool e)))) as Ev
    by done.
  split; rewrite ?Ev; [done | done | | apply (Hz 32%nat) |].
  - rewrite Aes.length_xor_bytes; [done |]. rewrite length_replicate, length_take, pool_bytes_size. lia.
  - apply xor_bytes_bytes; [done | apply Forall_take, pool_bytes_bytes].
Qed.

Lemma init_ok probe csr c : ∃ e, init probe csr c = Done e ∧ entropy_ok e.
Proof.
  unfold init. cbn [zkr_detected seed_pool].
  assert (∃ pool, (if usable probe then for_each (harvest csr) (replicate 8 0) (zseq 0 (POOL_SIZE * 4))
    else Done (clock_words c)) = Done pool ∧ length pool = 8%nat) as (pool & -> & Hl).
  { destruct (usable probe).
    - destruct (for_each_inv (λ _ p, length p = 8%nat) (harvest csr) 0 (POOL_SIZE * 4) (replicate 8 0))
        as (p & ? & ?); eauto; [done | intros; by apply harvest_ok].
    - eexists. split; [done |]. apply length_stir. }
  eexists. split; [done |]. by apply drbg_initialize_ok.
Qed.

(** What a running kernel does with the generator and the storage: the calls that
    return. *)
Inductive use : CryptoEntropy * SecureStorage → CryptoEntropy * SecureStorage → Prop :=
| use_random c e e' s buf buf' : random_bytes c e buf = Done (e', buf') → use (e, s) (e', s)
| use_reseed c e s : use (e, s) (reseed c e, s)
| use_seal c t e e' s s' enclave data r :
    seal c t e s enclave data = Done (e', s', r) → use (e, s) (e', s')
| use_unseal e s s' enclave i r : 0 <= i → unseal s enclave i = Done (s', r) → use (e, s) (e, s')
| use_delete e s s' i : 0 <= i → delete s i = Done s' → use (e, s) (e, s').

Lemma use_inv es es' : use es es' → entropy_ok es.1 ∧ es.2 = new → entropy_ok es'.1 ∧ es'.2 = new.
Proof.
  intros Hu [He Hn]. destruct Hu as [c e e' s buf buf' Hr | c e s | c t e e' s s' enclave data r Hr
    | e s s' enclave i r Hi Hr | e s s' i Hi Hr]; cbn [fst snd] in *; subst s.
  - by rewrite random_bytes_panics in Hr.
  - by destruct (reseed_ok c e He).
  - by apply seal_err in Hr as (-> & -> & _).
  - rewrite unseal_empty in Hr by done. by injection Hr as <-.
  - rewrite delete_empty in Hr by done. by injection Hr as <-.
Qed.

(** C28. Nothing is ever sealed.  Initialisation succeeds whatever the hardware
    answers; from then on, whatever calls are made, every request for random bytes
    panics, sealing panics whenever its arguments are valid and the storage stays
    the empty one of the boot. *)
Theorem nothing_is_sealed probe csr c0 e0 e s :
  init probe csr c0 = Done e0 → rtc use (e0, new) (e, s) →
  s = new ∧ ∀ c t buf enclave data,
    random_bytes c e buf = Panic ∧
    (0 < zlen data <= SEALED_DATA_SIZE → seal c t e s enclave data = Panic) ∧
    ∀ i, 0 <= i → unseal s enclave i = Done (s, None).
Proof.
  intros H0 Hr. destruct (init_ok probe csr c0) as (e1 & E1 & He). rewrite H0 in E1. injection E1 as <-.
  assert (entropy_ok e ∧ s = new) as [Hok ->].
  { apply (rtc_ind_r (λ es, entropy_ok es.1 ∧ es.2 = new) (e0, new)) in Hr; [done | done |].
    intros y z _ Hyz. by apply use_inv. }
  split; [done |]. intros c t buf enclave data. split; [by apply random_bytes_panics |]. split.
  - intros Hd. unfold seal. change (count new) with 0. cbn [Z.leb Z.compare MAX_SEALED_BLOBS].
    destruct ((zlen data =? 0) || (SEALED_DATA_SIZE <? zlen data)) eqn:E; bools; try lia.
    change (aget (sealed_data new) 0) with (Done zero_blob). cbn [mbind outcome_bind].
    by rewrite random_bytes_panics.
  - intros i Hi. by apply unseal_empty.
Qed.

(** ** Deleting *)

Lemma shift_loop blobs i k : 0 <= i → 0 <= k → i + k < zlen blobs →
  ∃ bl, for_each shift_down blobs (zseq i k) = Done bl ∧ length bl = length blobs ∧
    ∀ j, 0 <= j → bl !! Z.to_nat j = blobs !! Z.to_nat (if (i <=? j) && (j <? i + k) then j + 1 else j).
Proof.
  intros Hi Hk Hz.
  destruct (for_each_inv (λ n bl, length bl = length blobs ∧ ∀ j, 0 <= j →
    bl !! Z.to_nat j = blobs !! Z.to_nat (if (i <=? j) && (j <? n) then j + 1 else j))
    shift_down i k blobs Hk) as (bl & E & Hl & H); [| | by exists bl].
  - split; [done |]. intros j Hj. by replace ((i <=? j) && (j <? i)) with false by lia.
  - intros n bl Hn [Hl H]. unfold shift_down.
    destruct (aget_in_range bl (n + 1) ltac:(unfold zlen in *; lia)) as [b Eb]. rewrite Eb.
    cbn [mbind outcome_bind]. rewrite aset_in_range by (unfold zlen in *; lia).
    eexists. split; [done |]. rewrite length_insert. split; [done |]. intros j Hj.
    apply aget_lookup in Eb as [_ Eb]. rewrite H in Eb by lia.
    replace ((i <=? n + 1) && (n + 1 <? n)) with false in Eb by lia.
    destruct (decide (j = n)) as [-> | Hne].
    + rewrite list_lookup_insert_eq by (unfold zlen in *; lia).
      by replace ((i <=? n) && (n <? n + 1)) with true by lia.
    + rewrite list_lookup_insert_ne by lia. rewrite H by done.
      by replace ((i <=? j) && (j <? n + 1)) with ((i <=? j) && (j <? n)) by lia.
Qed.

(** Deleting blob [i]: the blobs before it keep their numbers and those after
    it move down by one, in their order; a number that is not in use changes
    nothing.  The call never panics. *)
Theorem delete_spec s i :
  storage_ok s → 0 <= i →
  ∃ s', delete s i = Done s' ∧
    if i <? count s then count s' = count s - 1 ∧
      ∀ j, 0 <= j < count s - 1 →
        sealed_data s' !! Z.to_nat j = sealed_data s !! Z.to_nat (if j <? i then j else j + 1)
    else s' = s.
Proof.
  intros [Hsz Hc _] Hi. unfold delete. destruct (count s <=? i) eqn:E; bools.
  { exists s. by replace (i <? count s) with false by lia. }
  replace (i <? count s) with true by lia.
  destruct (shift_loop (sealed_data s) i (count s - 1 - i)) as (bl & -> & _ & H); [lia.. |].
  eexists. split; [done |]. split; [done |]. intros j Hj. cbn. rewrite H by lia.
  destruct (j <? i) eqn:E1; bools.
  - by replace ((i <=? j) && (j <? i + (count s - 1 - i))) with false by lia.
  - by replace ((i <=? j) && (j <? i + (count s - 1 - i))) with true by lia.
Qed.

(** ** Witnesses *)

(** A cipher that has the laws and sets up every key: AES under a fixed context. *)
Definition ex_cipher : Cipher :=
  MkCipher Aes.AesContext (λ _, Done Aes.ex_plain) (λ _, Done Aes.ex_plain)
    Aes.encrypt_block Aes.encrypt_gcm Aes.decrypt_gcm.
Definition ex_laws : @CipherLaws ex_cipher := {|
  good := (Aes.ctx_ok : @context ex_cipher → Prop);
  block_law := @block_law aes_cipher aes_laws;
  gcm_law := @gcm_law aes_cipher aes_laws |}.
Lemma ex_setup : @KeySetup ex_cipher ex_laws.
Proof. split; intros; eexists; (split; [done | apply Aes.ex_plain_ok]). Qed.

Definition ex_clock : clock := MkClock 5 7.
Definition ex_entropy : CryptoEntropy :=
  drbg_initialize (MkEntropy (clock_words ex_clock) 0 0 [] [] false).
Definition ex_enclave : ApTeeEnclave := MkEnclave 1 (replicate 64 9).

Lemma ex_entropy_ok : entropy_ok ex_entropy.
Proof. by apply drbg_initialize_ok. Qed.
Lemma new_ok : storage_ok new.
Proof. split; [done | done |]. apply Forall_replicate. by split. Qed.

Lemma generator_output_witness :
  ∃ e' buf', @random_bytes ex_cipher ex_clock ex_entropy (replicate 40 0) = Done (e', buf') ∧
    length buf' = 40%nat.
Proof.
  destruct (@generator_output ex_cipher ex_laws ex_setup ex_clock ex_entropy (replicate 40 0) ex_entropy_ok)
    as (ctx & e' & buf' & _ & H & _ & Hl & _); [done | eauto].
Defined.

Lemma seal_then_unseal_witness :
  ∃ e' s', @seal ex_cipher ex_clock 3 ex_entropy new ex_enclave [1; 2; 3] = Done (e', s', Ok 0) ∧
    ∃ s'', @unseal ex_cipher s' ex_enclave 0 = Done (s'', Some [1; 2; 3]).
Proof.
  destruct (@seal_then_unseal ex_cipher ex_laws ex_setup ex_clock 3 ex_entropy new ex_enclave [1; 2; 3]
    ex_entropy_ok new_ok) as (e' & s' & H & _ & _ & _ & _ & (s'' & Hu & _) & _).
  exists e', s'. split; [done |]. by exists s''.
Defined.

Lemma nothing_is_sealed_witness :
  ∃ e0, init 0 (λ _, 0) ex_clock = Done e0 ∧
    seal ex_clock 3 e0 new ex_enclave [1; 2; 3] = Panic.
Proof.
  destruct (init_ok 0 (λ _, 0) ex_clock) as (e0 & E0 & _). exists e0. split; [done |].
  refine (proj1 (proj2 (proj2 (nothing_is_sealed 0 (λ _, 0) ex_clock e0 e0 new E0 (rtc_refl _ _))
    ex_clock 3 [] ex_enclave [1; 2; 3])) _). done.
Defined.

Lemma delete_spec_witness : ∃ s', delete (new <| count := 3 |>) 1 = Done s' ∧ count s' = 2.
Proof.
  destruct (delete_spec (new <| count := 3 |>) 1) as (s' & E & H & _); [| done | eauto].
  by destruct new_ok; split.
Defined.
End Storage.
