(* ===== verification/Lock.v ===== *)
(** * Spin locks

    kernel/src/sync.rs ([SpinLock]) and kernel/src/numa/mcs.rs ([McsLock]), as the
    interleaved steps of any number of harts.

    A hart inside [lock] or [unlock] is at a program counter; a step of the hart
    is one access to shared memory (an atomic operation, or a read or write of a
    queue node) with the local work up to the next one.  A node is named by the
    hart that owns it, so the pointers of mcs.rs are numbers.  Memory is
    sequentially consistent: the orderings of the source (Acquire, Release,
    AcqRel) are not weakened further.  The two spin loops of mcs.rs test plain
    fields behind an exclusive reference, so the compiler may load them on every
    turn or only once; [SpinReads] is the choice it made, and the theorems say what
    holds for which.

    The spin lock: [spin_lock_correct].  The MCS lock serves the harts in the
    order of their swaps on the tail, one at a time, for either choice
    ([mcs_fifo]); it never gets stuck if the loops load again, and a hart that has
    to wait never gets the lock if they do not ([mcs_drains]).

    [Mutex] is what a lock promises a client: at most one holder, and a holder
    stays one until it releases.  Both locks are instances ([spin_mutex],
    [mcs_mutex]), so a client that increments a shared counter under either of them
    loses no increment ([no_lost_update]). *)
From stdpp Require Import functions.
From S2P Require Import Prelude.

Module Lock.

(** ** What a lock promises *)

(** [lstep i] is one step of hart [i], a call of [lock] or [unlock] included. *)
Class Mutex : Type := MkMutex {
  lstate : Type;
  lstart : lstate;
  lstep : nat → lstate → lstate → Prop;
  holding : lstate → nat → Prop;
}.

Inductive lreach `{Mutex} : lstate → Prop :=
| lreach_start : lreach lstart
| lreach_step i s s' : lreach s → lstep i s s' → lreach s'.

Class MutexLaws `{Mutex} : Prop := {
  law_start i : ¬ holding lstart i;
  law_exclusive s i j : lreach s → holding s i → holding s j → i = j;
  law_stable s s' i j : lreach s → lstep i s s' → i ≠ j → (holding s j ↔ holding s' j);
}.

(** ** sync.rs: [SpinLock] *)

(** [Trying d]: about to attempt the exchange, with [delay = d]. *)
Inductive spin_pc : Type := SpinIdle | Trying (delay : Z) | SpinHeld.

Record SpinLock : Type := MkSpin { flag : bool; spin_pcs : nat → spin_pc }.
#[export] Instance eta_spin : Eta SpinLock := λ r, MkSpin (flag r) (spin_pcs r).

Definition spin_new : SpinLock := MkSpin false (λ _, SpinIdle).

(** [compare_exchange(false, true)]: whether it succeeded, and the flag after. *)
Definition compare_exchange (f : bool) : bool * bool := if f then (false, true) else (true, true).

(** [delay.saturating_mul(2).min(1024)]. *)
Definition backoff (delay : Z) : Z := Z.min (Z.min (delay * 2) (2 ^ 32 - 1)) 1024.

(** One turn of the loop of [lock]. *)
Definition spin_try (s : SpinLock) (i : nat) (delay : Z) : SpinLock :=
  let '(ok, f) := compare_exchange (flag s) in
  s <| flag := f |> <| spin_pcs := <[i := if ok then SpinHeld else Trying (backoff delay)]> (spin_pcs s) |>.

Definition spin_unlock (s : SpinLock) (i : nat) : SpinLock :=
  s <| flag := false |> <| spin_pcs := <[i := SpinIdle]> (spin_pcs s) |>.

Definition spin_try_lock (s : SpinLock) (i : nat) : SpinLock * bool :=
  let '(ok, f) := compare_exchange (flag s) in
  (s <| flag := f |> <| spin_pcs := <[i := if ok then SpinHeld else SpinIdle]> (spin_pcs s) |>, ok).

Inductive spin_step (i : nat) (s : SpinLock) : SpinLock → Prop :=
| spin_call : spin_pcs s i = SpinIdle →
    spin_step i s (s <| spin_pcs := <[i := Trying 1]> (spin_pcs s) |>)
| spin_attempt delay : spin_pcs s i = Trying delay → spin_step i s (spin_try s i delay)
| spin_quick : spin_pcs s i = SpinIdle → spin_step i s (spin_try_lock s i).1
| spin_release : spin_pcs s i = SpinHeld → spin_step i s (spin_unlock s i).

#[export] Instance spin_lock : Mutex := MkMutex SpinLock spin_new spin_step (λ s i, spin_pcs s i = SpinHeld).

(** ** numa/mcs.rs: [McsLock] *)

(** Whether each turn of the loops [while node.locked] and
    [while node.next.is_null()] loads the field again, or the value loaded first is
    tested for ever. *)
Class SpinReads : Type := reloads : bool.

(** Where a hart is; [Held] is between [lock] and [unlock].  A hart in [Link p]
    has found the predecessor [p]; one in [SpinStale] or [AwaitStale] loops on a
    value loaded once. *)
Inductive mcs_pc : Type :=
| Idle
| ClearNext | SetLocked | Swap | Link (prev : nat) | Spin
| Held
| ReadNext | TryEmpty | AwaitNext | PassOn
| SpinStale | AwaitStale.
#[export] Instance mcs_pc_eq : EqDecision mcs_pc.
Proof. solve_decision. Defined.

Record McsLock : Type := MkMcs {
  tail : option nat;
  next : nat → option nat;
  locked : nat → bool;
  pcs : nat → mcs_pc;
}.
#[export] Instance eta_mcs : Eta McsLock := λ r, MkMcs (tail r) (next r) (locked r) (pcs r).

Definition mcs_new : McsLock := MkMcs None (λ _, None) (λ _, false) (λ _, Idle).

Section mcs.
Context {R : SpinReads}.

Definition goto (s : McsLock) (i : nat) (pc : mcs_pc) : McsLock := s <| pcs := <[i := pc]> (pcs s) |>.

(** One access of hart [i] inside [lock] or [unlock]. *)
Definition mcs_run (s : McsLock) (i : nat) : McsLock :=
  match pcs s i with
  | Idle | Held => s
  | ClearNext => goto (s <| next := <[i := None]> (next s) |>) i SetLocked
  | SetLocked => goto (s <| locked := <[i := true]> (locked s) |>) i Swap
  | Swap =>
      let prev := tail s in
      goto (s <| tail := Some i |>) i (match prev with None => Held | Some p => Link p end)
  | Link p => goto (s <| next := <[p := Some i]> (next s) |>) i Spin
  | Spin => if locked s i then (if reloads then s else goto s i SpinStale) else goto s i Held
  | SpinStale | AwaitStale => s
  | ReadNext => goto s i (match next s i with None => TryEmpty | Some _ => PassOn end)
  | TryEmpty =>
      if decide (tail s = Some i) then goto (s <| tail := None |>) i Idle else goto s i AwaitNext
  | AwaitNext =>
      match next s i with
      | None => if reloads then s else goto s i AwaitStale
      | Some _ => goto s i PassOn
      end
  | PassOn =>
      match next s i with
      | Some n => goto (s <| locked := <[n := false]> (locked s) |>) i Idle
      | None => s
      end
  end.

Inductive mcs_step (i : nat) (s : McsLock) : McsLock → Prop :=
| mcs_lock : pcs s i = Idle → mcs_step i s (goto s i ClearNext)
| mcs_unlock : pcs s i = Held → mcs_step i s (goto s i ReadNext)
| mcs_access : pcs s i ≠ Idle → pcs s i ≠ Held → mcs_step i s (mcs_run s i).

#[export] Instance mcs_lock_impl : Mutex :=
  MkMutex McsLock mcs_new mcs_step (λ s i, pcs s i = Held).
End mcs.

(** ** The spin lock *)

(** The flag is set exactly when some hart holds the lock, which is one hart. *)
Record spin_inv (s : SpinLock) : Prop := SpinInv {
  spin_one i j : spin_pcs s i = SpinHeld → spin_pcs s j = SpinHeld → i = j;
  spin_set i : spin_pcs s i = SpinHeld → flag s = true;
  spin_delay i d : spin_pcs s i = Trying d → 1 <= d <= 1024;
}.

Lemma backoff_bound d : 1 <= d <= 1024 → 1 <= backoff d <= 1024.
Proof. unfold backoff. lia. Qed.

(** Every case of a function updated at one hart. *)
Ltac upd :=
  repeat match goal with
  | H : context [<[?i := _]> _ ?j] |- _ =>
      destruct (decide (i = j)) as [? | ?];
      [subst; rewrite fn_lookup_insert in H | rewrite fn_lookup_insert_ne in H by congruence]
  | |- context [<[?i := _]> _ ?j] =>
      destruct (decide (i = j)) as [? | ?];
      [subst; rewrite fn_lookup_insert | rewrite fn_lookup_insert_ne by congruence]
  end.

Lemma spin_step_inv i s s' : spin_step i s s' → spin_inv s → spin_inv s'.
Proof.
  intros Hs [H1 H2 H3].
  assert (∀ x, flag s = false → spin_pcs s x = SpinHeld → False) as H4 by (intros x Hf Hx; rewrite (H2 x Hx) in Hf; done).
  destruct Hs as [Hi | d Hi | Hi | Hi]; unfold spin_try, spin_try_lock, compare_exchange, spin_unlock;
    destruct (flag s) eqn:Ef; (split; cbn; [intros a b Ha Hb | intros a Ha | intros a e Ha]); upd; simplify_eq;
    try done; try lia; try (by apply backoff_bound; eauto); try (by eauto); exfalso; eauto.
Qed.

Lemma spin_reach_inv s : @lreach spin_lock s → spin_inv s.
Proof.
  intros H. induction H as [| i s s' _ IH Hs]; [by split | by apply (spin_step_inv i s s')].
Qed.

(** The flag is not left set. *)
Lemma spin_held s : @lreach spin_lock s → flag s = true → ∃ i, spin_pcs s i = SpinHeld.
Proof.
  intros Hr. induction Hr as [| i s s' _ IH Hs]; [done |].
  assert (∀ j pc, spin_pcs s j = SpinHeld → spin_pcs s i ≠ SpinHeld → <[i := pc]> (spin_pcs s) j = SpinHeld) as Hk
    by (intros j pc Hj Hi; rewrite fn_lookup_insert_ne; congruence).
  destruct Hs as [Hi | d Hi | Hi | Hi]; unfold spin_try, spin_try_lock, compare_exchange, spin_unlock; cbn -[insert].
  - intros [j Hj]%IH. exists j. apply Hk; congruence.
  - destruct (flag s); cbn -[insert]; intros _; [| exists i; apply fn_lookup_insert].
    destruct (IH eq_refl) as [j Hj]. exists j. apply Hk; congruence.
  - destruct (flag s); cbn -[insert]; intros _; [| exists i; apply fn_lookup_insert].
    destruct (IH eq_refl) as [j Hj]. exists j. apply Hk; congruence.
  - done.
Qed.

(** C16. The spin lock.  In every interleaving of any number of harts that call
    [lock], [try_lock] and, when they hold it, [unlock]: at most one hart holds the
    lock, the flag is set exactly while some hart does, an attempt of [lock] or
    [try_lock] succeeds exactly when nobody holds it and then makes the caller the
    holder, a release frees it, and the delay between attempts stays between 1 and
    1024 pauses. *)
Theorem spin_lock_correct (s : SpinLock) :
  @lreach spin_lock s →
  (∀ i j, spin_pcs s i = SpinHeld → spin_pcs s j = SpinHeld → i = j) ∧
  (flag s = true ↔ ∃ i, spin_pcs s i = SpinHeld) ∧
  (∀ i d, spin_pcs s i = Trying d → 1 <= d <= 1024 ∧
     (spin_pcs (spin_try s i d) i = SpinHeld ↔ ∀ j, spin_pcs s j ≠ SpinHeld)) ∧
  (∀ i, spin_pcs s i = SpinIdle →
     ((spin_try_lock s i).2 = true ↔ ∀ j, spin_pcs s j ≠ SpinHeld) ∧
     ((spin_try_lock s i).2 = true ↔ spin_pcs (spin_try_lock s i).1 i = SpinHeld)) ∧
  (∀ i j, spin_pcs s i = SpinHeld → spin_pcs (spin_unlock s i) j ≠ SpinHeld).
Proof.
  intros Hr. pose proof (spin_reach_inv s Hr) as [H1 H2 H3].
  assert (flag s = true ↔ ∃ i, spin_pcs s i = SpinHeld) as Hf by (split; [by apply spin_held | intros [i Hi]; by apply (H2 i)]).
  assert (flag s = false ↔ ∀ j, spin_pcs s j ≠ SpinHeld) as Hn.
  { split; [intros Ef j Hj; rewrite (H2 j Hj) in Ef; done |]. intros Hn. destruct (flag s); [| done].
    destruct (proj1 Hf eq_refl) as [i Hi]. by destruct (Hn i). }
  split; [done |]. split; [done |]. split; [| split].
  - intros i d Hi. split; [by apply (H3 i) |]. rewrite <-Hn. unfold spin_try, compare_exchange.
    destruct (flag s); cbn -[insert]; rewrite fn_lookup_insert; done.
  - intros i Hi. rewrite <-Hn. unfold spin_try_lock, compare_exchange.
    destruct (flag s); cbn -[insert]; rewrite fn_lookup_insert; done.
  - intros i j Hi. cbn -[insert]. destruct (decide (i = j)) as [<- | Hne]; [by rewrite fn_lookup_insert |].
    rewrite fn_lookup_insert_ne by done. intros Hj. by apply Hne, H1.
Qed.

#[export] Instance spin_mutex : @MutexLaws spin_lock.
Proof.
  split.
  - done.
  - intros s i j Hr. by apply (spin_one s (spin_reach_inv s Hr)).
  - cbn. intros s s' i j _ Hs Hne. destruct Hs; cbn; unfold spin_try, spin_try_lock, compare_exchange, spin_unlock;
      destruct (flag s); cbn; by rewrite fn_lookup_insert_ne.
Qed.

(** ** The MCS lock *)

(** Past the swap and not yet gone. *)
Definition queued (pc : mcs_pc) : bool :=
  match pc with Idle | ClearNext | SetLocked | Swap => false | _ => true end.

(** In charge of the lock: it holds it or is handing it on. *)
Definition serving (pc : mcs_pc) : bool :=
  match pc with Held | ReadNext | TryEmpty | AwaitNext | PassOn | AwaitStale => true | _ => false end.

(** In the loop of [lock]. *)
Definition spinning (pc : mcs_pc) : bool := match pc with Spin | SpinStale => true | _ => false end.

(** [i] stands right behind [p]. *)
Definition behind (q : list nat) (p i : nat) : Prop := ∃ k, q !! k = Some p ∧ q !! S k = Some i.

(** The queue [q] of harts in the order of their swaps: the head has the lock, or
    has been given it; every other hart waits behind its predecessor, linked to it
    or about to be. *)
Record mcs_inv (s : McsLock) (q : list nat) : Prop := McsInv {
  q_nodup : NoDup q;
  q_member i : i ∈ q ↔ queued (pcs s i) = true;
  q_tail : tail s = last q;
  q_head i : head q = Some i → serving (pcs s i) = true ∨ spinning (pcs s i) = true ∧ locked s i = false;
  q_wait p i : behind q p i → locked s i = true ∧
    (pcs s i = Link p ∧ next s p = None ∨ spinning (pcs s i) = true ∧ next s p = Some i);
  q_last i : last q = Some i → next s i = None;
  q_fresh i : pcs s i = SetLocked ∨ pcs s i = Swap → next s i = None;
  q_armed i : pcs s i = Swap → locked s i = true;
  q_await i : pcs s i = AwaitNext → last q ≠ Some i;
  q_pass i : pcs s i = PassOn → next s i ≠ None;
}.

Lemma behind_app q j p i :
  behind (q ++ [j]) p i ↔ behind q p i ∨ last q = Some p ∧ i = j.
Proof.
  unfold behind. split.
  - intros (k & Hp & Hi). destruct (decide (S k < length q)%nat) as [Hlt | Hge].
    + left. exists k. by rewrite !lookup_app_l in * by lia.
    + right. assert (S k = length q) as Hk.
      { apply lookup_lt_Some in Hi. rewrite length_app in Hi. cbn in Hi. lia. }
      rewrite list_lookup_middle in Hi by done. rewrite lookup_app_l in Hp by lia.
      rewrite last_lookup, <- Hk. split; [done | congruence].
  - intros [(k & Hp & Hi) | [Hl ->]].
    + exists k. split; by apply lookup_app_l_Some.
    + rewrite last_lookup in Hl. exists (pred (length q)). split; [by apply lookup_app_l_Some |].
      apply list_lookup_middle. destruct q; [done | cbn; lia].
Qed.

Lemma behind_cons x q p i : behind q p i → behind (x :: q) p i.
Proof. intros (k & Hp & Hi). by exists (S k). Qed.

Lemma behind_in q p i : behind q p i → p ∈ q ∧ i ∈ q ∧ (NoDup q → head q ≠ Some i ∧ last q ≠ Some p ∧ p ≠ i).
Proof.
  intros (k & Hp & Hi). split; [by eapply list_elem_of_lookup_2 |]. split; [by eapply list_elem_of_lookup_2 |].
  intros Hnd. split_and!.
  - rewrite head_lookup. intros H0. pose proof (NoDup_lookup q 0 (S k) i Hnd H0 Hi). lia.
  - rewrite last_lookup. intros Hl. pose proof (NoDup_lookup q _ _ p Hnd Hp Hl). apply lookup_lt_Some in Hi. lia.
  - intros <-. pose proof (NoDup_lookup q k (S k) p Hnd Hp Hi). lia.
Qed.

(** What a step does to the queue. *)
Definition queue_after (s : McsLock) (q : list nat) (i : nat) : list nat :=
  match pcs s i with
  | Swap => q ++ [i]
  | TryEmpty => if decide (tail s = Some i) then [] else q
  | PassOn => drop 1 q
  | _ => q
  end.

Section mcs_laws.
Context {R : SpinReads}.

(** A hart that goes on spinning, but on the value it has loaded. *)
Lemma stale_inv s q i pc :
  mcs_inv s q → queued pc = queued (pcs s i) → serving pc = serving (pcs s i) → spinning pc = spinning (pcs s i) →
  pc = SpinStale ∨ pc = AwaitStale → (∀ p, pcs s i ≠ Link p) → mcs_inv (goto s i pc) q.
Proof.
  intros [I1 I2 I3 I4 I5 I6 I7 I8 I9 I10] Hq Hs Hp Hpc Hl. split; cbn; try done.
  - intros j. rewrite I2. upd; [by rewrite Hq | done].
  - intros j Hj. specialize (I4 j Hj). upd; [by rewrite Hs, Hp | done].
  - intros p j Hb. destruct (I5 p j Hb) as (H1 & H2). split; [done |]. upd; [| done].
    rewrite Hp. destruct H2 as [[E _] | ?]; [by apply Hl in E | by right].
  - intros j Hj. upd; [by destruct Hpc as [-> | ->], Hj | auto].
  - intros j Hj. upd; [by destruct Hpc as [-> | ->] | auto].
  - intros j Hj. upd; [by destruct Hpc as [-> | ->] | auto].
  - intros j Hj. upd; [by destruct Hpc as [-> | ->] | auto].
Qed.

(** A move of one hart that is neither the swap nor a departure. *)
Lemma mcs_goto_inv s q i pc :
  mcs_inv s q → queued pc = queued (pcs s i) → (∀ p, pc ≠ Link p) → spinning (pcs s i) = false ∨ serving pc = true →
  (∀ p, pcs s i ≠ Link p) →
  (serving (pcs s i) = true ∨ head q = Some i → serving pc = true) →
  (spinning (pcs s i) = true → locked s i = false) →
  (pc = SetLocked ∨ pc = Swap → next s i = None) → (pc = Swap → locked s i = true) →
  (pc = AwaitNext → last q ≠ Some i) → (pc = PassOn → next s i ≠ None) →
  mcs_inv (goto s i pc) q.
Proof.
  intros [I1 I2 I3 I4 I5 I6 I7 I8 I9 I10] Hq Hl Hs Hl' Hsv Hlk Hf Ha Hw Hp.
  split; cbn; try done.
  - intros j. rewrite I2. upd; [by rewrite Hq | done].
  - intros j Hj. destruct (decide (i = j)) as [<- | Hne].
    + left. rewrite fn_lookup_insert. by apply Hsv; right.
    + rewrite fn_lookup_insert_ne by done. by apply I4.
  - intros p j Hb. destruct (I5 p j Hb) as (H1 & H2). split; [done |].
    destruct (decide (i = j)) as [<- | Hne]; [| by rewrite fn_lookup_insert_ne].
    exfalso. destruct H2 as [[E _] | [E _]]; [by apply (Hl' p) | rewrite Hlk in H1; done].
  - intros j Hj. upd; auto.
  - intros j Hj. upd; auto.
  - intros j Hj. upd; auto.
  - intros j Hj. upd; auto.
Qed.

Lemma in_queue q i : i ∈ q → head q = Some i ∨ ∃ p, behind q p i.
Proof.
  intros [[| k] Hk]%list_elem_of_lookup; [left; by rewrite head_lookup |].
  right. destruct (lookup_lt_is_Some_2 q k) as [p Hp]; [apply lookup_lt_Some in Hk; lia |]. by exists p, k.
Qed.

Lemma serving_head s q i : mcs_inv s q → serving (pcs s i) = true → head q = Some i.
Proof.
  intros I Hs. destruct (in_queue q i) as [| [p Hb]]; [| done |].
  - apply (q_member _ _ I). by destruct (pcs s i).
  - destruct (q_wait _ _ I p i Hb) as (_ & [[E _] | [E _]]); [by rewrite E in Hs | by destruct (pcs s i)].
Qed.

Lemma swap_inv s q i : mcs_inv s q → pcs s i = Swap → mcs_inv (mcs_run s i) (q ++ [i]).
Proof.
  intros I Hi. pose proof I as [I1 I2 I3 I4 I5 I6 I7 I8 I9 I10]. unfold mcs_run. rewrite Hi.
  assert (i ∉ q) as Hn by (rewrite I2, Hi; done).
  assert (∀ j, j ∈ q → i ≠ j) as Hne by (intros j Hj ->; done).
  split; cbn.
  - apply NoDup_app. split_and!; [done | | apply NoDup_singleton].
    intros x Hx ->%list_elem_of_singleton. done.
  - intros j. rewrite list.elem_of_app, list_elem_of_singleton, I2. upd.
    + split; [| auto]. by destruct (tail s).
    + naive_solver.
  - by rewrite last_snoc.
  - intros j Hj. destruct q as [| x q]; cbn in Hj; injection Hj as <-.
    + left. rewrite fn_lookup_insert, I3. done.
    + rewrite fn_lookup_insert_ne by (apply Hne; left). by apply I4.
  - intros p j [Hb | [Hl ->]]%behind_app.
    + destruct (behind_in _ _ _ Hb) as (_ & Hj & _). rewrite fn_lookup_insert_ne by (by apply Hne). by apply I5.
    + rewrite fn_lookup_insert, I3, Hl. split; [by apply I8 | left; split; [done | by apply I6]].
  - intros j. rewrite last_snoc. intros [= <-]. apply I7. auto.
  - intros j Hj. upd; [by destruct (tail s), Hj | by apply I7].
  - intros j Hj. upd; [by destruct (tail s) | by apply I8].
  - intros j Hj. rewrite last_snoc. upd; [by destruct (tail s) | congruence].
  - intros j Hj. upd; [by destruct (tail s) | by apply I10].
Qed.

Lemma link_inv s q i p : mcs_inv s q → pcs s i = Link p → mcs_inv (mcs_run s i) q.
Proof.
  intros I Hi. pose proof I as [I1 I2 I3 I4 I5 I6 I7 I8 I9 I10]. unfold mcs_run. rewrite Hi.
  assert (behind q p i ∧ next s p = None) as [Hb Hp].
  { destruct (in_queue q i) as [Hh | [p' Hb]]; [apply I2; by rewrite Hi | |].
    - apply I4 in Hh as [Hh | [Hh _]]; by rewrite Hi in Hh.
    - destruct (I5 p' i Hb) as (_ & [[E Hn] | [E _]]); rewrite Hi in E; [| done]. injection E as <-. done. }
  destruct (behind_in _ _ _ Hb) as (Hpq & Hiq & Hnd). destruct (Hnd I1) as (Hh & Hl & Hpi).
  assert (∀ j, behind q p j → j = i) as Huniq.
  { intros j (k & Hk & Hj). destruct Hb as (k' & Hk' & Hi').
    pose proof (NoDup_lookup q k k' p I1 Hk Hk') as ->. congruence. }
  split; cbn; try done.
  - intros j. rewrite I2. upd; [by rewrite Hi | done].
  - intros j Hj. rewrite fn_lookup_insert_ne by congruence. by apply I4.
  - intros p' j Hb'. destruct (I5 p' j Hb') as (H1 & H2). split; [done |].
    destruct (decide (p = p')) as [<- | Hne].
    + rewrite (Huniq j Hb'), !fn_lookup_insert. by right.
    + rewrite (fn_lookup_insert_ne (next s)) by done. destruct (decide (i = j)) as [<- | Hij].
      * exfalso. destruct H2 as [[E _] | [E _]]; rewrite Hi in E; [congruence | done].
      * by rewrite fn_lookup_insert_ne.
  - intros j Hj. rewrite fn_lookup_insert_ne by congruence. by apply I6.
  - intros j Hj. destruct (decide (i = j)) as [<- | Hne]; [rewrite fn_lookup_insert in Hj; by destruct Hj |].
    rewrite fn_lookup_insert_ne in Hj by done. destruct (decide (p = j)) as [<- | Hpj].
    + exfalso. apply I2 in Hpq. destruct Hj as [E | E]; by rewrite E in Hpq.
    + rewrite fn_lookup_insert_ne by done. by apply I7.
  - intros j Hj. upd; [done | by apply I8].
  - intros j Hj. upd; [done | by apply I9].
  - intros j Hj. upd; try done. by apply I10.
Qed.

Lemma sole (q : list nat) i : NoDup q → head q = Some i → last q = Some i → q = [i].
Proof.
  intros Hnd Hh Hl. destruct q as [| x [| y q]]; cbn in Hh; [done | by injection Hh as -> |]. injection Hh as ->.
  exfalso. apply list.NoDup_cons in Hnd as [Hn _]. apply Hn. rewrite last_cons_cons in Hl.
  by apply last_Some_elem_of in Hl.
Qed.

Lemma try_empty_inv s q i : mcs_inv s q → pcs s i = TryEmpty → tail s = Some i → mcs_inv (mcs_run s i) [].
Proof.
  intros I Hi Ht. pose proof (serving_head s q i I ltac:(by rewrite Hi)) as Hh.
  pose proof I as [I1 I2 I3 I4 I5 I6 I7 I8 I9 I10]. unfold mcs_run. rewrite Hi, decide_True by done.
  assert (q = [i]) as -> by (apply sole; congruence).
  assert (∀ j, i ≠ j → queued (pcs s j) = false) as Hout.
  { intros j Hne. destruct (queued (pcs s j)) eqn:E; [| done]. apply I2 in E. apply list_elem_of_singleton in E. done. }
  split; cbn; try done.
  - constructor.
  - intros j. split; [by intros ?%not_elem_of_nil |]. upd; [done |]. by rewrite Hout.
  - intros p j (k & Hk & _). done.
  - intros j Hj. upd; [by destruct Hj | by apply I7].
  - intros j Hj. upd; [done | by apply I8].
  - intros j Hj. upd; [done |]. specialize (Hout j). rewrite Hj in Hout. by discriminate Hout.
Qed.

Lemma pass_on_inv s q i : mcs_inv s q → pcs s i = PassOn → mcs_inv (mcs_run s i) (drop 1 q).
Proof.
  intros I Hi. pose proof (serving_head s q i I ltac:(by rewrite Hi)) as Hh.
  pose proof I as [I1 I2 I3 I4 I5 I6 I7 I8 I9 I10]. unfold mcs_run. rewrite Hi.
  destruct (next s i) as [n |] eqn:En; [| by apply I10 in Hi].
  destruct q as [| x q]; [done |]. cbn in Hh. injection Hh as ->. cbn [drop].
  apply list.NoDup_cons in I1 as [Hiq I1].
  destruct q as [| n' q].
  { assert (next s i = None) by (by apply I6). congruence. }
  assert (behind (i :: n' :: q) i n') as Hb by (by exists 0%nat).
  destruct (I5 i n' Hb) as (Hln & [[_ E] | [Hpn E]]); [congruence |].
  assert (n' = n) as -> by congruence.
  assert (i ≠ n) as Hin by (intros ->; apply Hiq; left).
  split; cbn; try done.
  - intros j. split.
    + intros Hj. assert (i ≠ j) by (intros ->; done). rewrite fn_lookup_insert_ne by done.
      apply I2. by right.
    + upd; [done |]. intros Hq. apply I2 in Hq. by apply list.elem_of_cons in Hq as [-> | Hq].
  - intros j [= <-]. right. by rewrite fn_lookup_insert, fn_lookup_insert_ne.
  - intros p j Hbj. destruct (behind_in _ _ _ Hbj) as (_ & Hj & Hnd). destruct (Hnd I1) as (Hnj & _).
    assert (i ≠ j) by (intros ->; done). assert (n ≠ j) by (intros ->; by apply Hnj).
    rewrite !fn_lookup_insert_ne by done.
    by apply I5, behind_cons.
  - intros j Hj. upd; [by destruct Hj | by apply I7].
  - intros j Hj. upd; try done; [| by apply I8].
    exfalso. by rewrite Hj in Hpn.
  - intros j Hj. upd; [done |]. by apply I9 in Hj.
  - intros j Hj. upd; [done | by apply I10].
Qed.

Lemma clear_next_inv s q i : mcs_inv s q → pcs s i = ClearNext → mcs_inv (mcs_run s i) q.
Proof.
  intros I Hi. unfold mcs_run. rewrite Hi. pose proof I as [I1 I2 I3 I4 I5 I6 I7 I8 I9 I10].
  assert (i ∉ q) as Hn by (rewrite I2, Hi; done).
  assert (∀ j, j ∈ q → i ≠ j) as Hne by (intros j Hj ->; done).
  split; cbn; try done.
  - intros j. rewrite I2. upd; [by rewrite Hi | done].
  - intros j Hj. rewrite fn_lookup_insert_ne; [by apply I4 |]. apply Hne. by apply head_Some_elem_of.
  - intros p j Hb. destruct (behind_in _ _ _ Hb) as (Hp & Hj & _).
    rewrite !fn_lookup_insert_ne by (by apply Hne). by apply I5.
  - intros j Hj. upd; try done; by apply I6.
  - intros j Hj. upd; try done; by apply I7.
  - intros j Hj. upd; try done; by apply I8.
  - intros j Hj. upd; try done; by apply I9.
  - intros j Hj. upd; try done; by apply I10.
Qed.

Lemma set_locked_inv s q i : mcs_inv s q → pcs s i = SetLocked → mcs_inv (mcs_run s i) q.
Proof.
  intros I Hi. unfold mcs_run. rewrite Hi. pose proof I as [I1 I2 I3 I4 I5 I6 I7 I8 I9 I10].
  assert (i ∉ q) as Hn by (rewrite I2, Hi; done).
  assert (∀ j, j ∈ q → i ≠ j) as Hne by (intros j Hj ->; done).
  split; cbn; try done.
  - intros j. rewrite I2. upd; [by rewrite Hi | done].
  - intros j Hj. rewrite !fn_lookup_insert_ne; [by apply I4 | apply Hne; by apply head_Some_elem_of..].
  - intros p j Hb. destruct (behind_in _ _ _ Hb) as (Hp & Hj & _).
    rewrite !fn_lookup_insert_ne by (by apply Hne). by apply I5.
  - intros j Hj. upd; try done; apply I7; auto.
  - intros j Hj. upd; try done; by apply I8.
  - intros j Hj. upd; try done; by apply I9.
  - intros j Hj. upd; try done; by apply I10.
Qed.

(** The conditions of [mcs_goto_inv] for a hart at a known place. *)
#[local] Ltac plain Hi :=
  apply mcs_goto_inv; rewrite ?Hi; try done; try (by left); try (by right); try (by intros [? | ?]).

Lemma mcs_step_inv i s s' q : mcs_step i s s' → mcs_inv s q → mcs_inv s' (queue_after s q i).
Proof.
  intros Hs I. unfold queue_after. destruct Hs as [Hi | Hi | Hn1 Hn2].
  - rewrite Hi. plain Hi.
    intros [? | Hh]; [done |]. exfalso. destruct (q_head _ _ I i Hh) as [E | [E _]]; by rewrite Hi in E.
  - rewrite Hi. plain Hi.
  - destruct (pcs s i) as [| | | | p | | | | | | | |] eqn:Hi; try done.
    + by apply clear_next_inv.
    + by apply set_locked_inv.
    + by apply swap_inv.
    + by apply (link_inv s q i p).
    + unfold mcs_run. rewrite Hi. destruct (locked s i) eqn:El; [| plain Hi].
      destruct reloads; [done |]. apply stale_inv; rewrite ?Hi; auto.
    + unfold mcs_run. rewrite Hi. destruct (next s i) eqn:En.
      * plain Hi; by rewrite En.
      * plain Hi.
    + destruct (decide (tail s = Some i)) as [Ht | Ht]; [by apply (try_empty_inv s q) |].
      unfold mcs_run. rewrite Hi, decide_False by done.
      plain Hi.
      intros _. by rewrite <- (q_tail _ _ I).
    + unfold mcs_run. rewrite Hi. destruct (next s i) eqn:En; [plain Hi; by rewrite En |].
      destruct reloads; [done |]. apply stale_inv; rewrite ?Hi; auto.
    + by apply pass_on_inv.
    + unfold mcs_run. by rewrite Hi.
    + unfold mcs_run. by rewrite Hi.
Qed.

Lemma mcs_start_inv : mcs_inv mcs_new [].
Proof.
  split; cbn; try done.
  - constructor.
  - intros i. split; [by intros ?%not_elem_of_nil | done].
  - intros p i (k & Hk & _). done.
Qed.

Lemma mcs_reach_inv s : @lreach mcs_lock_impl s → ∃ q, mcs_inv s q.
Proof.
  intros H. induction H as [| i s s' _ [q IH] Hs]; [exists []; apply mcs_start_inv |].
  eexists. by apply (mcs_step_inv i s s' q).
Qed.

(** A step of one hart leaves the program counters of the others alone. *)
Lemma mcs_step_other i j s s' : mcs_step i s s' → i ≠ j → pcs s' j = pcs s j.
Proof.
  intros [Hi | Hi | _ _] Hne; cbn; [by rewrite fn_lookup_insert_ne.. |].
  unfold mcs_run. repeat case_match; cbn; try done; by rewrite fn_lookup_insert_ne.
Qed.

#[export] Instance mcs_mutex : @MutexLaws mcs_lock_impl.
Proof.
  split.
  - done.
  - cbn. intros s i j Hr Hi Hj. destruct (mcs_reach_inv s Hr) as [q I].
    pose proof (serving_head s q i I ltac:(by rewrite Hi)) as H1.
    pose proof (serving_head s q j I ltac:(by rewrite Hj)) as H2. congruence.
  - cbn. intros s s' i j _ Hs Hne. by rewrite (mcs_step_other i j s s').
Qed.

(** ** First come, first served *)

(** A run with the harts that have swapped, in order, and those that have been
    given the lock, in order. *)
Inductive mcs_trace : McsLock → list nat → list nat → Prop :=
| trace_start : mcs_trace mcs_new [] []
| trace_step i s s' arrived served :
    mcs_trace s arrived served → mcs_step i s s' →
    mcs_trace s'
      (arrived ++ match pcs s i with Swap => [i] | _ => [] end)
      (served ++ match pcs s i, pcs s' i with Held, _ => [] | _, Held => [i] | _, _ => [] end).

(** The harts that still wait: all of the queue, or all behind a hart that has
    the lock. *)
Definition waiting (s : McsLock) (q : list nat) : list nat :=
  match head q with
  | Some h => if serving (pcs s h) then drop 1 q else q
  | None => q
  end.

Lemma waiting_same s s' q i :
  serving (pcs s' i) = serving (pcs s i) → (∀ j, i ≠ j → pcs s' j = pcs s j) → waiting s' q = waiting s q.
Proof.
  intros Hi Ho. unfold waiting. destruct (head q) as [h |]; [| done].
  destruct (decide (i = h)) as [<- | Hne]; [by rewrite Hi | by rewrite Ho].
Qed.

(** Where one access takes a hart. *)
Definition pc_after (s : McsLock) (i : nat) : mcs_pc :=
  match pcs s i with
  | ClearNext => SetLocked
  | SetLocked => Swap
  | Swap => match tail s with None => Held | Some p => Link p end
  | Link _ => Spin
  | Spin => if locked s i then (if reloads then Spin else SpinStale) else Held
  | ReadNext => match next s i with None => TryEmpty | Some _ => PassOn end
  | TryEmpty => if decide (tail s = Some i) then Idle else AwaitNext
  | AwaitNext => match next s i with None => if reloads then AwaitNext else AwaitStale | Some _ => PassOn end
  | PassOn => match next s i with None => PassOn | Some _ => Idle end
  | pc => pc
  end.

Lemma run_pc s i : pcs (mcs_run s i) i = pc_after s i.
Proof.
  unfold mcs_run, pc_after. repeat case_match; cbn; rewrite ?fn_lookup_insert; congruence.
Qed.

Lemma waiting_step i s s' q : mcs_inv s q → mcs_step i s s' →
  waiting s q ++ match pcs s i with Swap => [i] | _ => [] end =
  match pcs s i, pcs s' i with Held, _ => [] | _, Held => [i] | _, _ => [] end ++ waiting s' (queue_after s q i).
Proof.
  intros I Hs. pose proof (λ j, mcs_step_other i j s s' Hs) as Ho. unfold queue_after.
  assert (serving (pcs s' i) = serving (pcs s i) → waiting s q ++ [] = [] ++ waiting s' q) as Hsame.
  { intros Hsv. rewrite app_nil_r. symmetry. by apply (waiting_same s s' q i). }
  destruct Hs as [Hi | Hi | Hn1 Hn2].
  - assert (pcs (goto s i ClearNext) i = ClearNext) as E by apply fn_lookup_insert. rewrite E, Hi in *. auto.
  - assert (pcs (goto s i ReadNext) i = ReadNext) as E by apply fn_lookup_insert. rewrite E, Hi in *. auto.
  - rewrite run_pc in *. pose proof I as [I1 I2 I3 I4 I5 I6 I7 I8 I9 I10]. unfold pc_after in *.
    destruct (pcs s i) as [| | | | p | | | | | | | |] eqn:Hi; auto; try done.
    + rewrite I3. unfold waiting. destruct q as [| h q].
      * cbn. rewrite run_pc. unfold pc_after. rewrite Hi, I3. done.
      * destruct (last (h :: q)) eqn:El; [| by apply last_None in El]. cbn [head app].
        rewrite Ho; [| intros <-; assert (i ∈ i :: q) as Hin by left; apply I2 in Hin; by rewrite Hi in Hin].
        by destruct (serving (pcs s h)).
    + destruct (locked s i) eqn:El; [destruct reloads; auto |].
      assert (head q = Some i) as Hh.
      { destruct (in_queue q i) as [| [p Hb]]; [apply I2; by rewrite Hi | done |].
        destruct (I5 p i Hb) as [E _]. congruence. }
      unfold waiting. rewrite Hh, Hi, run_pc. unfold pc_after. rewrite Hi, El. cbn.
      destruct q; [done |]. cbn in Hh. injection Hh as ->. by rewrite app_nil_r.
    + destruct (next s i); auto.
    + pose proof (serving_head s q i I ltac:(by rewrite Hi)) as Hh.
      destruct (decide (tail s = Some i)) as [Ht |]; [| auto].
      assert (q = [i]) as -> by (apply sole; congruence). unfold waiting. cbn. by rewrite Hi.
    + destruct (next s i); [auto | destruct reloads; auto].
    + pose proof (serving_head s q i I ltac:(by rewrite Hi)) as Hh.
      destruct (next s i) as [n |] eqn:En; [| by apply I10 in Hi].
      destruct q as [| x [| m q]]; [done | |]; cbn in Hh; injection Hh as ->.
      { assert (next s i = None) by (by apply I6). congruence. }
      assert (behind (i :: m :: q) i m) as Hb by (by exists 0%nat).
      destruct (I5 i m Hb) as (_ & [[_ E] | [E _]]); [congruence |].
      destruct (proj2 (proj2 (behind_in _ _ _ Hb)) I1) as (_ & _ & Him).
      assert (serving (pcs s m) = false) as Em by (by destruct (pcs s m)).
      unfold waiting. cbn. rewrite Hi, Ho, Em by done. cbn. by rewrite app_nil_r.
Qed.

Lemma waiting_member s q i : mcs_inv s q →
  i ∈ waiting s q ↔ queued (pcs s i) = true ∧ serving (pcs s i) = false.
Proof.
  intros I. rewrite <- (q_member _ _ I). unfold waiting.
  assert (∀ j, serving (pcs s j) = true → head q = Some j) as Hs by (intros; by apply (serving_head s q)).
  destruct (head q) as [h |] eqn:Hh.
  - destruct (serving (pcs s h)) eqn:E.
    + destruct q as [| x q]; [done |]. cbn in Hh. injection Hh as ->. cbn [drop].
      pose proof (q_nodup _ _ I) as Hnd. apply list.NoDup_cons in Hnd as [Hn _]. split.
      * intros Hi. split; [by right |]. destruct (serving (pcs s i)) eqn:Ei; [| done].
        apply Hs in Ei. injection Ei as ->. done.
      * intros [Hi Ei]. apply list.elem_of_cons in Hi as [-> |]; [congruence | done].
    + split; [| by intros [? _]]. intros Hi. split; [done |]. destruct (serving (pcs s i)) eqn:Ei; [| done].
      pose proof (Hs i Ei) as [= ->]. congruence.
  - split; [| by intros [? _]]. intros Hi. split; [done |]. destruct (serving (pcs s i)) eqn:Ei; [| done].
    by apply Hs in Ei.
Qed.

(** C9. The MCS lock serves the harts in the order in which they swapped
    themselves onto the tail: in every run, with any number of harts interleaved in
    any way, the harts that have been given the lock are the first ones of those
    that swapped, in the same order, and the rest are exactly the harts that are
    waiting in [lock] behind their swap.  No two harts hold the lock, and a hart
    passing the lock on always has a successor to pass it to.  This is so whether
    or not the spin loops load their field again. *)
Theorem mcs_fifo s arrived served : mcs_trace s arrived served →
  ∃ w, arrived = served ++ w ∧
    (∀ i, i ∈ w ↔ spinning (pcs s i) = true ∨ ∃ p, pcs s i = Link p) ∧
    (∀ i j, pcs s i = Held → pcs s j = Held → i = j) ∧
    ∀ i, pcs s i = PassOn → next s i ≠ None.
Proof.
  intros H. assert (∃ q, mcs_inv s q ∧ arrived = served ++ waiting s q) as (q & I & ->).
  { induction H as [| i s s' a v _ (q & I & ->) Hs]; [exists []; split; [apply mcs_start_inv | done] |].
    exists (queue_after s q i). split; [by apply (mcs_step_inv i s s') |].
    rewrite <- !app_assoc. f_equal. by apply waiting_step. }
  exists (waiting s q). split; [done |]. split; [| split; [| apply (q_pass _ _ I)]].
  - intros i. rewrite waiting_member by done. destruct (pcs s i); naive_solver.
  - intros i j Hi Hj. pose proof (serving_head s q i I ltac:(by rewrite Hi)).
    pose proof (serving_head s q j I ltac:(by rewrite Hj)). congruence.
Qed.

(** ** Nobody waits for ever *)

(** How many accesses a hart has left at most, not counting reads repeated in a
    spin loop. *)
Definition weight (pc : mcs_pc) : nat :=
  match pc with
  | Idle => 0 | PassOn => 1 | AwaitNext => 2 | TryEmpty => 3 | ReadNext => 4 | Held => 5
  | Spin | SpinStale => 6 | AwaitStale => 2 | Link _ => 7 | Swap => 8 | SetLocked => 9 | ClearNext => 10
  end.

Definition work (n : nat) (s : McsLock) : nat := sum_list_with (λ i, weight (pcs s i)) (seq 0 n).

Lemma sum_same (f g : nat → nat) l : (∀ x, x ∈ l → f x = g x) → sum_list_with f l = sum_list_with g l.
Proof.
  induction l as [| x l IH]; intros H; [done |]. cbn. rewrite (H x) by left. rewrite IH; [done |].
  intros y Hy. apply H. by right.
Qed.

Lemma work_less n s s' i :
  (i < n)%nat → (∀ j, i ≠ j → pcs s' j = pcs s j) → (weight (pcs s' i) < weight (pcs s i))%nat →
  (work n s' < work n s)%nat.
Proof.
  intros Hi Ho Hw. unfold work. replace n with (i + S (n - S i))%nat by lia.
  rewrite !seq_app, !sum_list_with_app. cbn [seq sum_list_with].
  rewrite (sum_same (λ j, weight (pcs s' j)) (λ j, weight (pcs s j)) (seq 0 i)).
  2: { intros x [_ Hx]%elem_of_seq. rewrite Ho; [done | lia]. }
  rewrite (sum_same (λ j, weight (pcs s' j)) (λ j, weight (pcs s j)) (seq _ (n - S i))).
  2: { intros x [Hx _]%elem_of_seq. rewrite Ho; [done | lia]. }
  cbn [Nat.add]. lia.
Qed.

(** A step that is not a new call of [lock] brings its hart nearer to the end, or
    is a read in a spin loop that found nothing new. *)
Lemma step_weight i s s' : reloads = true → mcs_step i s s' → pcs s i ≠ Idle →
  s' = s ∨ (weight (pcs s' i) < weight (pcs s i))%nat.
Proof.
  intros HR [Hi | Hi | Hn1 Hn2] Hne; [done | right; rewrite Hi; unfold goto; cbn; rewrite fn_lookup_insert; cbn; lia |].
  rewrite run_pc. unfold pc_after, mcs_run. rewrite HR.
  destruct (pcs s i) as [| | | | p | | | | | | | |] eqn:Hi; try done; repeat case_match; auto; right; cbn; lia.
Qed.

(** If the loops load again, no hart loops on an old value. *)
Lemma no_stale s i : reloads = true → @lreach mcs_lock_impl s → pcs s i ≠ SpinStale ∧ pcs s i ≠ AwaitStale.
Proof.
  intros HR Hs. induction Hs as [| j s s' _ IH Hs]; [done |]. destruct (decide (j = i)) as [-> | Hne].
  - destruct Hs as [? | ? | _ _]; [cbn; by rewrite fn_lookup_insert.. |].
    rewrite run_pc. unfold pc_after. rewrite HR. destruct (pcs s i); repeat case_match; naive_solver.
  - by rewrite (mcs_step_other j i s s' Hs Hne).
Qed.

(** Some hart can take such a step. *)
Lemma some_moves s q i : reloads = true → @lreach mcs_lock_impl s → mcs_inv s q → pcs s i ≠ Idle →
  ∃ j s', pcs s j ≠ Idle ∧ mcs_step j s s' ∧ (weight (pcs s' j) < weight (pcs s j))%nat.
Proof.
  intros HR Hr I Hi. pose proof (λ j, no_stale s j HR Hr) as Hns.
  assert (∀ j, pcs s j ≠ Idle → pcs s j ≠ Held → (weight (pc_after s j) < weight (pcs s j))%nat →
    ∃ j s', pcs s j ≠ Idle ∧ mcs_step j s s' ∧ (weight (pcs s' j) < weight (pcs s j))%nat) as Hrun.
  { intros j H1 H2 H3. exists j, (mcs_run s j). rewrite run_pc. split_and!; [done | by apply mcs_access | done]. }
  destruct (queued (pcs s i)) eqn:Eq.
  2: { apply (Hrun i); [done | |]; unfold pc_after; destruct (pcs s i); try done; cbn; repeat case_match; cbn; lia. }
  apply (q_member _ _ I) in Eq. destruct (head q) as [h |] eqn:Hh.
  2: { apply head_None in Hh. subst. by apply not_elem_of_nil in Eq. }
  destruct (q_head _ _ I h Hh) as [Hs | [Hs Hl]].
  2: { assert (pcs s h = Spin) as Ep by (specialize (Hns h); destruct (pcs s h); naive_solver).
       apply (Hrun h); rewrite Ep; try done. unfold pc_after. rewrite Ep, Hl. cbn. lia. }
  destruct (pcs s h) eqn:Ep; try done; try (by destruct (Hns h)).
  - exists h, (goto s h ReadNext). rewrite Ep. unfold goto; cbn; rewrite fn_lookup_insert; cbn.
    split_and!; [done | by apply mcs_unlock | lia].
  - apply (Hrun h); rewrite Ep; try done. unfold pc_after. rewrite Ep. destruct (next s h); cbn; lia.
  - apply (Hrun h); rewrite Ep; try done. unfold pc_after. rewrite Ep. case_decide; cbn; lia.
  - destruct (next s h) as [m |] eqn:En.
    { apply (Hrun h); rewrite Ep; try done. unfold pc_after. rewrite Ep, En. cbn. lia. }
    pose proof (q_await _ _ I h Ep) as Hlast. destruct q as [| x [| m q]]; [done | |]; cbn in Hh; injection Hh as ->.
    { done. }
    destruct (q_wait _ _ I h m) as (_ & [[Em _] | [_ Em]]); [by exists 0%nat | | congruence].
    apply (Hrun m); rewrite Em; try done. unfold pc_after. rewrite Em. cbn. lia.
  - pose proof (q_pass _ _ I h Ep) as Hn. destruct (next s h) as [m |] eqn:En; [| done].
    apply (Hrun h); rewrite Ep; try done. unfold pc_after. rewrite Ep, En. cbn. lia.
Qed.

(** A run without new calls of [lock]. *)
Definition moves (s s' : McsLock) : Prop := ∃ i, pcs s i ≠ Idle ∧ mcs_step i s s'.

Lemma moves_bound n s s' : reloads = true → (∀ i, (n <= i)%nat → pcs s i = Idle) → moves s s' →
  (s' = s ∨ (work n s' < work n s)%nat) ∧ ∀ i, (n <= i)%nat → pcs s' i = Idle.
Proof.
  intros HR Hn (i & Hi & Hs). assert (i < n)%nat as Hlt.
  { destruct (decide (i < n)%nat); [done |]. rewrite Hn in Hi by lia. done. }
  pose proof (λ j, mcs_step_other i j s s' Hs) as Ho. split.
  - destruct (step_weight i s s' HR Hs Hi) as [-> | Hw]; [by left | right; by apply (work_less n s s' i)].
  - intros j Hj. rewrite Ho by lia. by apply Hn.
Qed.

Definition any_step (s s' : McsLock) : Prop := ∃ i, mcs_step i s s'.

(** A hart that loops on an old value does so for ever. *)
Lemma stale_stays s s' i : pcs s i = SpinStale → rtc any_step s s' → pcs s' i = SpinStale.
Proof.
  intros Hi Hs. induction Hs as [| s s1 s' (j & Hj) _ IH]; [done |]. apply IH.
  destruct (decide (j = i)) as [-> | Hne]; [| by rewrite (mcs_step_other j i s s1 Hj Hne)].
  destruct Hj as [? | ? | _ _]; [congruence.. |]. unfold mcs_run. by rewrite Hi.
Qed.

(** The number of accesses left. *)
Lemma work_bound n s : (work n s <= 10 * n)%nat.
Proof.
  unfold work. induction n as [| n IH]; [done |]. rewrite seq_S, sum_list_with_app. cbn [sum_list_with Nat.add].
  assert (weight (pcs s n) <= 10)%nat by (destruct (pcs s n); cbn; lia). lia.
Qed.

Lemma work_goes_down n s i :
  reloads = true → @lreach mcs_lock_impl s → (∀ i, (n <= i)%nat → pcs s i = Idle) → pcs s i ≠ Idle →
  ∃ s', @lreach mcs_lock_impl s' ∧ moves s s' ∧ (work n s' < work n s)%nat.
Proof.
  intros HR Hr Hn Hi. destruct (mcs_reach_inv s Hr) as [q I].
  destruct (some_moves s q i HR Hr I Hi) as (j & s' & Hj & Hs & Hw). exists s'.
  split; [by apply (lreach_step j s s') |]. split; [by exists j |].
  apply (work_less n s s' j); [| intros k; by apply mcs_step_other | done].
  destruct (decide (j < n)%nat); [done |]. rewrite Hn in Hj by lia. done.
Qed.

Lemma all_leave n s :
  reloads = true → @lreach mcs_lock_impl s → (∀ i, (n <= i)%nat → pcs s i = Idle) →
  ∃ s', rtc moves s s' ∧ ∀ i, pcs s' i = Idle.
Proof.
  intros HR. remember (work n s) as w eqn:Ew. revert s Ew. induction (lt_wf w) as [w _ IH]. intros s -> Hr Hn.
  destruct (decide (Forall (λ i, pcs s i = Idle) (seq 0 n))) as [Hall | Hsome].
  - exists s. split; [done |]. intros i. destruct (decide (i < n)%nat); [| apply Hn; lia].
    rewrite Forall_forall in Hall. apply Hall. apply elem_of_seq. lia.
  - apply not_Forall_Exists in Hsome; [| apply _]. apply Exists_exists in Hsome as (i & _ & Hi).
    destruct (work_goes_down n s i HR Hr Hn Hi) as (s1 & Hr1 & Hm & Hw).
    destruct (IH _ Hw s1 eq_refl Hr1) as (s2 & Hr2 & Hi2); [by apply (moves_bound n s s1 HR Hn) |].
    exists s2. split; [by eapply rtc_l | done].
Qed.

(** C15. Whether a hart can wait for ever in the MCS lock depends on the loads in
    its spin loops.  If every turn of a loop loads the field again: take any
    reachable state of [n] harts, and let the harts finish their critical sections
    without starting new ones.  Every step either repeats a read of a spin loop or
    uses up one of at most 10 accesses per hart, as long as some hart is inside
    the lock there is a step of the second kind, and so all harts can leave.  If
    the field is loaded once, which the plain reads of the source allow: a hart
    that finds itself not yet served at its first look stays in [lock] for ever,
    whatever the others do. *)
Theorem mcs_drains n s :
  @lreach mcs_lock_impl s → (∀ i, (n <= i)%nat → pcs s i = Idle) →
  if reloads
  then (work n s <= 10 * n)%nat ∧
       (∀ s', moves s s' → s' = s ∨ (work n s' < work n s)%nat) ∧
       (∀ i, pcs s i ≠ Idle → ∃ s', moves s s' ∧ (work n s' < work n s)%nat) ∧
       ∃ s', rtc moves s s' ∧ ∀ i, pcs s' i = Idle
  else ∀ i s', pcs s i = Spin → locked s i = true → rtc any_step (mcs_run s i) s' → pcs s' i = SpinStale.
Proof.
  intros Hr Hn. destruct reloads eqn:HR.
  - split; [apply work_bound |]. split; [intros s' Hm; by apply (moves_bound n s s' HR Hn) |].
    split; [| by apply (all_leave n)].
    intros i Hi. destruct (work_goes_down n s i HR Hr Hn Hi) as (s' & _ & ? & ?). eauto.
  - intros i s' Hi Hl. apply stale_stays. rewrite run_pc. unfold pc_after. by rewrite Hi, Hl, HR.
Qed.
End mcs_laws.

(** ** A client of any lock *)

(** Harts that take the lock, read a shared counter, write it back incremented and
    release the lock.  [Before]: nothing read yet; [Read v]; [After]: written. *)
Inductive phase : Type := Before | Read (v : Z) | After.

Section client.
Context `{MutexLaws}.

Record client : Type := MkClient {
  lock_of : lstate;
  counter : Z;
  phases : nat → phase;
  written : nat;
}.

Inductive client_step (i : nat) (c : client) : client → Prop :=
| client_wait l' : ¬ holding (lock_of c) i → lstep i (lock_of c) l' →
    client_step i c (MkClient l' (counter c) (phases c) (written c))
| client_read : holding (lock_of c) i → phases c i = Before →
    client_step i c (MkClient (lock_of c) (counter c) (<[i := Read (counter c)]> (phases c)) (written c))
| client_write v : holding (lock_of c) i → phases c i = Read v →
    client_step i c (MkClient (lock_of c) (v + 1) (<[i := After]> (phases c)) (S (written c)))
| client_release l' : holding (lock_of c) i → phases c i = After → lstep i (lock_of c) l' →
    client_step i c (MkClient l' (counter c) (<[i := Before]> (phases c)) (written c)).

Inductive client_reach : client → Prop :=
| client_start : client_reach (MkClient lstart 0 (λ _, Before) 0)
| client_more i c c' : client_reach c → client_step i c c' → client_reach c'.

Record client_inv (c : client) : Prop := ClientInv {
  inv_lock : lreach (lock_of c);
  inv_holds i : phases c i ≠ Before → holding (lock_of c) i;
  inv_read i v : phases c i = Read v → v = counter c;
  inv_count : counter c = Z.of_nat (written c);
}.

Lemma client_step_inv i c c' : client_step i c c' → client_inv c → client_inv c'.
Proof.
  intros Hs [I1 I2 I3 I4].
  assert (∀ l' j, lstep i (lock_of c) l' → i ≠ j → phases c j ≠ Before → holding l' j) as Hst.
  { intros l' j Hl Hne Hj. apply (law_stable (lock_of c) l' i j I1 Hl Hne). by apply I2. }
  destruct Hs as [l' Hn Hl | Hh Hp | v Hh Hp | l' Hh Hp Hl]; split; cbn; try done.
  - by apply (lreach_step i (lock_of c)).
  - intros j Hj. apply Hst; try done. intros ->. by apply Hn, I2.
  - intros j Hj. upd; [done | by apply I2].
  - intros j w Hj. upd; [by injection Hj | by apply (I3 j)].
  - intros j Hj. upd; [done | by apply I2].
  - intros j w Hj. upd; [done |]. exfalso. assert (holding (lock_of c) j) as Hj' by (apply I2; congruence).
    by pose proof (law_exclusive _ i j I1 Hh Hj').
  - apply I3 in Hp. lia.
  - by apply (lreach_step i (lock_of c)).
  - intros j Hj. upd; [done |]. by apply Hst.
  - intros j w Hj. upd; [done | by apply (I3 j)].
Qed.

Lemma client_counts c : client_reach c → counter c = Z.of_nat (written c).
Proof.
  intros Hr. apply inv_count. induction Hr as [| i c c' _ IH Hs]; [| by apply (client_step_inv i c c')].
  split; cbn; try done. constructor.
Qed.
End client.

(** Under the spin lock and under the MCS lock alike, harts that increment a
    shared counter inside their critical sections lose no increment, whatever their
    number and interleaving. *)
Theorem no_lost_update :
  (∀ c, @client_reach spin_lock c → counter c = Z.of_nat (written c)) ∧
  ∀ (R : SpinReads) c, @client_reach mcs_lock_impl c → counter c = Z.of_nat (written c).
Proof. split; [| intros R]; apply client_counts. Qed.

(** ** Witnesses *)

(** Hart 0 takes the lock, hart 1 queues behind it. *)
Section examples.
Context {R : SpinReads}.

Fixpoint run_all (s : McsLock) (l : list nat) : McsLock :=
  match l with [] => s | i :: l' => run_all (mcs_run s i) l' end.
Definition ex_contended : McsLock :=
  let s := goto (goto mcs_new 0 ClearNext) 1 ClearNext in run_all s [0; 0; 0; 1; 1; 1; 1]%nat.

Lemma run_all_reach l : ∀ s, @lreach mcs_lock_impl s → @lreach mcs_lock_impl (run_all s l).
Proof.
  induction l as [| i l IH]; intros s Hs; [done |]. cbn. apply IH.
  destruct (decide (pcs s i = Idle ∨ pcs s i = Held)) as [Hd | Hd].
  - unfold mcs_run. by destruct Hd as [-> | ->].
  - apply (lreach_step i s); [done |]. apply mcs_access; tauto.
Qed.

Lemma ex_reach : @lreach mcs_lock_impl ex_contended.
Proof.
  apply run_all_reach. apply (@lreach_step mcs_lock_impl 1%nat (goto mcs_new 0 ClearNext)); [| by apply mcs_lock].
  apply (@lreach_step mcs_lock_impl 0%nat mcs_new); [constructor | by apply mcs_lock].
Qed.

Lemma trace_of s : @lreach mcs_lock_impl s → ∃ a v, mcs_trace s a v.
Proof.
  intros H. induction H as [| i s s' _ (a & v & IH) Hs]; [eexists _, _; constructor |].
  eexists _, _. by eapply trace_step.
Qed.
End examples.

Definition loads_again : SpinReads := true.
Definition loads_once : SpinReads := false.

Lemma mcs_fifo_witness :
  pcs (@ex_contended loads_once) 0 = Held ∧ pcs (@ex_contended loads_once) 1 = Spin ∧
  ∃ a v w, @mcs_trace loads_once (@ex_contended loads_once) a v ∧ a = v ++ w ∧ (1%nat ∈ w).
Proof.
  split; [done |]. split; [done |].
  destruct (trace_of (R := loads_once) _ (@ex_reach loads_once)) as (a & v & Ht).
  destruct (mcs_fifo (R := loads_once) _ a v Ht) as (w & E & Hw & _). exists a, v, w.
  split; [done |]. split; [done |]. apply Hw. by left.
Defined.

(** With hart 1 waiting, all harts leave if it loads again, and it stays for ever if not. *)
Lemma mcs_drains_witness :
  (∃ s', rtc (@moves loads_again) (@ex_contended loads_again) s' ∧ ∀ i, pcs s' i = Idle) ∧
  ∀ s', rtc (@any_step loads_once) (@mcs_run loads_once (@ex_contended loads_once) 1) s' → pcs s' 1 = SpinStale.
Proof.
  split.
  - refine (proj2 (proj2 (proj2 (mcs_drains (R := loads_again) 2 _ (@ex_reach loads_again) _)))).
    intros [| [| i]] Hi; [lia | lia | done].
  - intros s'. refine (mcs_drains (R := loads_once) 2 _ (@ex_reach loads_once) _ 1%nat s' eq_refl eq_refl).
    intros [| [| i]] Hi; [lia | lia | done].
Defined.

(** Hart 0 holds the spin lock and hart 1 has tried once. *)
Definition ex_taken : SpinLock := (spin_try_lock spin_new 0).1.
Definition ex_called : SpinLock := ex_taken <| spin_pcs := <[1%nat := Trying 1]> (spin_pcs ex_taken) |>.
Definition ex_spin : SpinLock := spin_try ex_called 1 1.

Lemma ex_spin_reach : @lreach spin_lock ex_spin.
Proof.
  apply (@lreach_step spin_lock 1%nat ex_called); [| by apply spin_attempt].
  apply (@lreach_step spin_lock 1%nat ex_taken); [| by apply spin_call].
  apply (@lreach_step spin_lock 0%nat spin_new); [constructor | by apply spin_quick].
Qed.

Lemma spin_lock_correct_witness :
  flag ex_spin = true ∧ spin_pcs ex_spin 1 = Trying 2 ∧ (spin_try_lock ex_spin 2).2 = false ∧
  ¬ ∀ j, spin_pcs ex_spin j ≠ SpinHeld.
Proof.
  destruct (spin_lock_correct ex_spin ex_spin_reach) as (_ & _ & _ & Ht & _).
  split; [reflexivity |]. split; [reflexivity |]. split; [reflexivity |].
  rewrite <-(proj1 (Ht 2%nat eq_refl)). discriminate.
Defined.

(** Hart 0 takes the spin lock and increments. *)
Lemma ex_client : ∃ c, @client_reach spin_lock c ∧ written c = 1%nat.
Proof.
  eexists. split.
  { eapply (@client_more spin_lock 0%nat); [eapply (@client_more spin_lock 0%nat);
    [eapply (@client_more spin_lock 0%nat); [apply client_start |] |] |].
  - apply (@client_wait spin_lock 0%nat); [done |]. by apply spin_quick.
  - by apply (@client_read spin_lock 0%nat).
  - by eapply (@client_write spin_lock 0%nat). }
  done.
Qed.

Lemma no_lost_update_witness : ∃ c, @client_reach spin_lock c ∧ counter c = 1.
Proof.
  destruct ex_client as (c & Hc & Hw). exists c. split; [done |].
  by rewrite (proj1 no_lost_update c Hc), Hw.
Defined.
End Lock.
