(* ===== verification/Rcu.v ===== *)
(** * Grace periods

    numa/percpu.rs and numa/rcu.rs: counters with one cell per hart, and the grace
    period built on them.

    Readers and one writer interleave at each access to a cell, with sequentially
    consistent memory.  [rcu_read_lock] and [rcu_read_unlock] are one access each;
    [synchronize_rcu] reads the eight cells one after the other, adds them up, and
    starts again unless the sum is zero.  The hart of each access is part of the event:
    a thread that moves between harts inside a critical section unlocks on another cell
    than it locked on.  [old] is not in the source: it marks the readers that were
    inside when the writer started to wait.

    [grace_period]: if no reader moves while it is inside, the writer returns only when
    every reader it has to wait for has left, although it never sees all cells at one
    time.  [synchronize_returns]: with no reader left it returns after at most 18
    accesses.  [migration_breaks_rcu]: one reader that moves lets the writer return while
    another one is still inside.  [writer_waits_for_new]: readers that come later keep
    the writer waiting for ever. *)
From S2P Require Import Prelude.
Open Scope list_scope.

Module Rcu.

Definition MAX_HARTS : Z := 8.

(** ** Counters *)

(** A [PerCpuCounter] is the list of its cells. *)
Definition PerCpuCounter_new : list Z := replicate 8 0.

Definition inc (c : list Z) (hart : Z) : outcome (list Z) :=
  v ← aget c hart; aset c hart (u64 (v + 1)).
Definition dec (c : list Z) (hart : Z) : outcome (list Z) :=
  v ← aget c hart; aset c hart (u64 (v - 1)).
Definition per_hart (c : list Z) (hart : Z) : outcome Z := aget c hart.

(** [read] when nothing happens in between. *)
Definition read (c : list Z) : Z := foldl (λ sum v, u64 (sum + v)) 0 c.
Definition reset (c : list Z) : list Z := replicate 8 0.

(** ** Readers and the writer *)

(** The hart on which a reader locked, and whether the writer waits for it. *)
Record reader : Type := MkReader { inside : option Z; old : bool }.

(** [Summing i sum]: the loop of [read] is about to load cell [i]. *)
Inductive writer_at : Type := Idle | Summing (i sum : Z) | Finished.

Record rcu : Type := MkRcu { RCU_READERS : list Z; readers : list reader; writer : writer_at }.
#[export] Instance rcu_eta : Eta rcu := λ s, MkRcu (RCU_READERS s) (readers s) (writer s).

Definition rcu_start (n : nat) : rcu := MkRcu PerCpuCounter_new (replicate n (MkReader None false)) Idle.

Definition rcu_read_lock (s : rcu) (r : nat) (hart : Z) : outcome rcu :=
  c ← inc (RCU_READERS s) hart;
  mret (s <| RCU_READERS := c |> <| readers := <[r := MkReader (Some hart) false]> (readers s) |>).

Definition rcu_read_unlock (s : rcu) (r : nat) (hart : Z) : outcome rcu :=
  c ← dec (RCU_READERS s) hart;
  mret (s <| RCU_READERS := c |> <| readers := <[r := MkReader None false]> (readers s) |>).

(** The call of [synchronize_rcu]. *)
Definition synchronize_start (s : rcu) : rcu :=
  s <| readers := (λ r, MkReader (inside r) (bool_decide (is_Some (inside r)))) <$> readers s |>
    <| writer := Summing 0 0 |>.

(** One access of the writer: load a cell, or decide after the last one. *)
Definition synchronize_step (s : rcu) : outcome rcu :=
  match writer s with
  | Summing i sum =>
      if i <? MAX_HARTS then v ← per_hart (RCU_READERS s) i; mret (s <| writer := Summing (i + 1) (u64 (sum + v)) |>)
      else mret (s <| writer := if sum =? 0 then Finished else Summing 0 0 |>)
  | _ => mret s
  end.

Definition rcu_reader_count (s : rcu) : Z := read (RCU_READERS s).

Inductive event : Type := Lock (r : nat) (hart : Z) | Unlock (r : nat) (hart : Z) | Start | Access.

(** Whether an event can happen: a reader locks when outside and unlocks when inside, on
    a hart that exists, and the writer starts to wait when it is not waiting. *)
Definition enabled (s : rcu) (e : event) : Prop :=
  match e with
  | Lock r h => (∃ o, readers s !! r = Some (MkReader None o)) ∧ 0 <= h < MAX_HARTS
  | Unlock r h => (∃ h0 o, readers s !! r = Some (MkReader (Some h0) o)) ∧ 0 <= h < MAX_HARTS
  | Start => writer s = Idle ∨ writer s = Finished
  | Access => True
  end.

Definition rcu_step (s : rcu) (e : event) : outcome rcu :=
  match e with
  | Lock r h => rcu_read_lock s r h
  | Unlock r h => rcu_read_unlock s r h
  | Start => mret (synchronize_start s)
  | Access => synchronize_step s
  end.

(** The reader unlocks where it locked. *)
Definition stays (s : rcu) (e : event) : Prop :=
  match e with Unlock r h => ∃ o, readers s !! r = Some (MkReader (Some h) o) | _ => True end.

Inductive rcu_reach (allowed : rcu → event → Prop) (n : nat) : rcu → Prop :=
| rcu_init : rcu_reach allowed n (rcu_start n)
| rcu_next s e s' :
    rcu_reach allowed n s → enabled s e → allowed s e → rcu_step s e = Done s' → rcu_reach allowed n s'.

(** ** The invariant *)

(** Readers that satisfy [p]. *)
Fixpoint count (p : reader → bool) (l : list reader) : Z :=
  match l with [] => 0 | r :: l => Z.b2z (p r) + count p l end.

Definition on_hart (h : Z) (r : reader) : bool := bool_decide (inside r = Some h).
Definition old_below (i : Z) (r : reader) : bool :=
  old r && match inside r with Some h => h <? i | None => false end.

Record rcu_ok (n : nat) (s : rcu) : Prop := {
  ro_readers : length (readers s) = n;
  ro_harts : Forall (λ r, match inside r with Some h => 0 <= h < 8 | None => old r = false end) (readers s);
  ro_cells : length (RCU_READERS s) = 8%nat ∧ ∀ h v, RCU_READERS s !! Z.to_nat h = Some v → 0 <= h → v = count (on_hart h) (readers s);
  ro_writer : match writer s with
              | Summing i sum => 0 <= i <= 8 ∧ count (old_below i) (readers s) <= sum <= i * Z.of_nat n
              | Idle => True
              | Finished => Forall (λ r, old r = false) (readers s)
              end;
}.

Lemma count_bound p l : 0 <= count p l <= Z.of_nat (length l).
Proof. induction l as [| r l IH]; cbn -[Z.of_nat]; [lia |]. destruct (p r); cbn [Z.b2z]; lia. Qed.

Lemma count_insert p l i r r0 :
  l !! i = Some r0 → count p (<[i := r]> l) = count p l - Z.b2z (p r0) + Z.b2z (p r).
Proof.
  revert i. induction l as [| x l IH]; intros [| i] E; try done.
  - injection E as ->. change (<[0%nat := r]> (r0 :: l)) with (r :: l). cbn [count]. lia.
  - change (<[S i := r]> (x :: l)) with (x :: <[i := r]> l). cbn [count]. rewrite (IH i) by done. lia.
Qed.

Lemma count_le (p q : reader → bool) l : (∀ r, r ∈ l → p r = true → q r = true) → count p l <= count q l.
Proof.
  induction l as [| r l IH]; intros H; cbn; [lia |]. assert (count p l <= count q l) by (apply IH; set_solver).
  specialize (H r ltac:(set_solver)). destruct (p r), (q r); cbn in *; try lia; by specialize (H eq_refl).
Qed.

Lemma count_none p l : count p l = 0 ↔ Forall (λ r, p r = false) l.
Proof.
  induction l as [| r l IH]; cbn; [done |]. pose proof (count_bound p l). rewrite Forall_cons, <-IH.
  destruct (p r); cbn [Z.b2z]; [| naive_solver lia]. split; [lia | by intros [? _]].
Qed.

(** ** Every event preserves it *)

Section small.
Context (n : nat) (Hsmall : 8 * Z.of_nat n < 2 ^ 64).

Lemma cell_at s h :
  rcu_ok n s → 0 <= h < 8 → aget (RCU_READERS s) h = Done (count (on_hart h) (readers s)).
Proof.
  intros [_ _ [Hl Hc] _] Hh. destruct (lookup_lt_is_Some_2 (RCU_READERS s) (Z.to_nat h)) as [v E]; [lia |].
  apply aget_lookup. split; [lia |]. by rewrite E, (Hc h v E) by lia.
Qed.

(** A reader that is outside before or after, and is not marked after. *)
Lemma reader_step s r r0 r1 h d :
  rcu_ok n s → readers s !! r = Some r0 → 0 <= h < 8 → old r1 = false →
  (∀ h', Z.b2z (on_hart h' r1) - Z.b2z (on_hart h' r0) = if h' =? h then d else 0) →
  match inside r1 with Some h1 => 0 <= h1 < 8 | None => True end →
  ∃ c, aset (RCU_READERS s) h (u64 (count (on_hart h) (readers s) + d)) = Done c ∧
       rcu_ok n (s <| RCU_READERS := c |> <| readers := <[r := r1]> (readers s) |>).
Proof.
  intros Hok Er Hh Ho Hd Hin. pose proof Hok as [Hn Hharts [Hl Hc] Hw].
  assert (∀ h', count (on_hart h') (<[r := r1]> (readers s)) = count (on_hart h') (readers s) + if h' =? h then d else 0) as Hcount.
  { intros h'. rewrite (count_insert _ _ _ _ _ Er). specialize (Hd h'). lia. }
  rewrite aset_in_range by (unfold zlen; lia). eexists. split; [reflexivity |].
  assert (∀ i, count (old_below i) (<[r := r1]> (readers s)) <= count (old_below i) (readers s)) as Hold.
  { intros i. rewrite (count_insert _ _ _ _ _ Er). unfold old_below at 3. rewrite Ho. cbn [andb Z.b2z].
    destruct (old_below i r0); cbn; lia. }
  split; cbn -[insert lookup count wrap].
  - by rewrite length_insert.
  - apply Forall_insert; [done |]. by destruct (inside r1).
  - split; [by rewrite length_insert |]. intros h' v E H0. rewrite Hcount. destruct (h' =? h) eqn:Eh; bools.
    + subst h'. rewrite list_lookup_insert_eq in E by lia. injection E as <-. apply wrap_small. unfold fits.
      pose proof (count_bound (on_hart h) (<[r := r1]> (readers s))) as Hb. rewrite Hcount, Z.eqb_refl, length_insert in Hb. lia.
    + rewrite list_lookup_insert_ne in E by lia. rewrite (Hc h' v E H0). lia.
  - destruct (writer s) as [| i sum |]; [done | |].
    + specialize (Hold i). lia.
    + by apply Forall_insert.
Qed.

Lemma lock_ok s r h : rcu_ok n s → enabled s (Lock r h) → ∃ s', rcu_read_lock s r h = Done s' ∧ rcu_ok n s'.
Proof.
  intros Hok [[o Er] Hh]. unfold MAX_HARTS in Hh. unfold rcu_read_lock, inc. rewrite cell_at by done. cbn [mbind outcome_bind].
  destruct (reader_step s r _ (MkReader (Some h) false) h 1 Hok Er Hh) as (c & -> & Hok'); [done | | done |].
  - intros h'. unfold on_hart. cbn. rewrite (bool_decide_false (None = Some h')) by done.
    destruct (h' =? h) eqn:E; bools; [by rewrite bool_decide_true by congruence | by rewrite bool_decide_false by congruence].
  - eexists. split; [reflexivity | exact Hok'].
Qed.

Lemma unlock_ok s r h o :
  rcu_ok n s → readers s !! r = Some (MkReader (Some h) o) → 0 <= h < 8 → ∃ s', rcu_read_unlock s r h = Done s' ∧ rcu_ok n s'.
Proof.
  intros Hok Er Hh. unfold rcu_read_unlock, dec. rewrite cell_at by done. cbn [mbind outcome_bind].
  destruct (reader_step s r _ (MkReader None false) h (-1) Hok Er Hh) as (c & E & Hok'); [done | | done |].
  - intros h'. unfold on_hart. cbn. rewrite (bool_decide_false (None = Some h')) by done.
    destruct (h' =? h) eqn:E; bools; [by rewrite bool_decide_true by congruence | by rewrite bool_decide_false by congruence].
  - change (count (on_hart h) (readers s) - 1) with (count (on_hart h) (readers s) + -1). rewrite E. eexists. split; [reflexivity | exact Hok'].
Qed.

Lemma count_map p f l : (∀ r, p (f r) = p r) → count p (f <$> l) = count p l.
Proof. intros H. induction l as [| r l IH]; [done |]. rewrite fmap_cons. cbn [count]. by rewrite H, IH. Qed.

Lemma start_ok s : rcu_ok n s → rcu_ok n (synchronize_start s).
Proof.
  intros [Hn Hharts [Hl Hc] Hw]. unfold synchronize_start. split; cbn -[fmap lookup count].
  - by rewrite length_fmap.
  - apply Forall_fmap. eapply Forall_impl; [exact Hharts |]. intros r Hr. cbn in *. destruct (inside r); [done |].
    by apply bool_decide_false; intros [? ?].
  - split; [done |]. intros h v E H0. rewrite (Hc h v E H0). symmetry. by apply count_map.
  - split; [lia |]. match goal with |- count ?p ?l <= _ <= _ => assert (count p l = 0) as -> by
      (apply count_none, Forall_fmap; eapply Forall_impl; [exact Hharts |]; intros r Hr; unfold old_below; cbn in *;
       destruct (inside r); [rewrite (proj2 (Z.ltb_ge _ _)) by lia; apply andb_false_r | apply andb_false_r]) end. lia.
Qed.

Lemma access_ok s : rcu_ok n s → ∃ s', synchronize_step s = Done s' ∧ rcu_ok n s'.
Proof.
  intros Hok. pose proof Hok as [Hn Hharts [Hl Hc] Hw]. unfold synchronize_step. destruct (writer s) as [| i sum |] eqn:Ew.
  - by exists s.
  - destruct (i <? MAX_HARTS) eqn:E; unfold MAX_HARTS in E; bools.
    + unfold per_hart. rewrite cell_at by (done || lia). cbn [mbind outcome_bind]. eexists. split; [reflexivity |].
      split; [done | done | done |]. cbn -[count wrap Z.mul].
      pose proof (count_bound (on_hart i) (readers s)) as Hb. rewrite Hn in Hb.
      pose proof (count_bound (old_below i) (readers s)) as Hb0.
      assert ((i + 1) * Z.of_nat n <= 8 * Z.of_nat n) by (apply Z.mul_le_mono_nonneg_r; lia).
      rewrite wrap_small by (unfold fits; lia). split; [lia |]. split; [| lia].
      assert (count (old_below (i + 1)) (readers s) <= count (old_below i) (readers s) + count (on_hart i) (readers s)); [| lia].
      clear. induction (readers s) as [| r l IH]; cbn [count]; [lia |]. unfold old_below at 1 3, on_hart at 1.
      destruct (old r), (inside r) as [h |]; cbn [andb Z.b2z]; try (rewrite bool_decide_false by done; cbn [Z.b2z]; lia).
      * destruct (h <? i + 1) eqn:E1, (h <? i) eqn:E2; bools; cbn [Z.b2z]; try lia;
          try (rewrite bool_decide_true by (f_equal; lia); cbn [Z.b2z]; lia); destruct (bool_decide _); cbn [Z.b2z]; lia.
      * destruct (bool_decide _); cbn [Z.b2z]; lia.
    + eexists. split; [reflexivity |]. split; [done | done | done |]. cbn -[count].
      destruct (sum =? 0) eqn:Es; bools.
      * assert (count (old_below i) (readers s) = 0) as H0%count_none by (pose proof (count_bound (old_below i) (readers s)); lia).
        apply Forall_forall. intros r Hr. rewrite Forall_forall in H0. specialize (H0 r Hr).
        rewrite Forall_forall in Hharts. specialize (Hharts r Hr). unfold old_below in H0.
        destruct (inside r) as [h |]; [| done]. rewrite (proj2 (Z.ltb_lt _ _)) in H0 by lia. by destruct (old r).
      * split; [lia |]. assert (count (old_below 0) (readers s) = 0) as ->; [| lia].
        apply count_none. eapply Forall_impl; [exact Hharts |]. intros r Hr. unfold old_below. cbn in Hr.
        destruct (inside r); [| apply andb_false_r]. rewrite (proj2 (Z.ltb_ge _ _)) by lia. apply andb_false_r.
  - by exists s.
Qed.

Lemma rcu_step_ok s e : rcu_ok n s → enabled s e → stays s e → ∃ s', rcu_step s e = Done s' ∧ rcu_ok n s'.
Proof.
  intros Hok He Hs. destruct e as [r h | r h | |]; cbn [rcu_step].
  - by apply lock_ok.
  - destruct Hs as [o Er], He as [_ Hh]. by eapply unlock_ok.
  - eexists. split; [reflexivity |]. by apply start_ok.
  - by apply access_ok.
Qed.

Lemma rcu_start_ok : rcu_ok n (rcu_start n).
Proof.
  split; cbn -[replicate count].
  - apply length_replicate.
  - by apply Forall_replicate.
  - split; [done |]. intros h v E _. apply lookup_replicate in E as [-> _]. symmetry. apply count_none. by apply Forall_replicate.
  - done.
Qed.

Lemma rcu_reach_ok s : rcu_reach stays n s → rcu_ok n s.
Proof.
  induction 1 as [| s e s' _ IH He Hs E]; [apply rcu_start_ok |].
  destruct (rcu_step_ok s e IH He Hs) as (s1 & E1 & Hok). rewrite E in E1. by injection E1 as <-.
Qed.
End small.

(** C17. The grace period is safe when readers stay on their hart.
    In every interleaving of any number of readers and a writer in which a reader
    unlocks on the hart it locked on: every event that can happen returns, and when
    [synchronize_rcu] has returned, every reader that was inside when it was called has
    left.  The cells are read one by one while readers come and go. *)
Theorem grace_period (n : nat) (s : rcu) :
  8 * Z.of_nat n < 2 ^ 64 → rcu_reach stays n s →
  (∀ e, enabled s e → stays s e → ∃ s', rcu_step s e = Done s') ∧
  (writer s = Finished → ∀ r rd, readers s !! r = Some rd → old rd = false).
Proof.
  intros Hn Hs. pose proof (rcu_reach_ok n Hn s Hs) as Hok. split.
  - intros e He Hst. destruct (rcu_step_ok n Hn s e Hok He Hst) as (s' & E & _). eauto.
  - intros Hw r rd Er. destruct Hok as [_ _ _ Hok]. rewrite Hw in Hok. by eapply Forall_lookup_1 in Hok.
Qed.

(** ** Runs *)

(** The events can happen in this order. *)
Fixpoint follows (allowed : rcu → event → Prop) (s : rcu) (es : list event) : Prop :=
  match es with
  | [] => True
  | e :: es => enabled s e ∧ allowed s e ∧ match rcu_step s e with Done s' => follows allowed s' es | _ => False end
  end.

Fixpoint run (s : rcu) (es : list event) : outcome rcu :=
  match es with [] => mret s | e :: es => s' ← rcu_step s e; run s' es end.

Lemma run_app s es1 es2 : run s (es1 ++ es2) = (s' ← run s es1; run s' es2).
Proof.
  revert s. induction es1 as [| e es1 IH]; intros s; [done |]. cbn [app run].
  destruct (rcu_step s e); cbn [mbind outcome_bind]; [apply IH | done..].
Qed.

Lemma follows_app allowed s es1 es2 s' :
  follows allowed s es1 → run s es1 = Done s' → follows allowed s' es2 → follows allowed s (es1 ++ es2).
Proof.
  revert s. induction es1 as [| e es1 IH]; intros s H1 E H2; [by injection E as -> |]. cbn [app follows run] in *.
  destruct H1 as (He & Ha & H1). destruct (rcu_step s e); try done. cbn [mbind outcome_bind] in E. eauto.
Qed.

Lemma run_reach allowed n s es s' :
  rcu_reach allowed n s → follows allowed s es → run s es = Done s' → rcu_reach allowed n s'.
Proof.
  revert s. induction es as [| e es IH]; intros s Hs Hf E; [by injection E as <- |]. cbn [follows run] in *.
  destruct Hf as (He & Ha & Hf). destruct (rcu_step s e) as [s1 | | |] eqn:Es; try done. cbn [mbind outcome_bind] in E.
  eapply IH; [| done | done]. by eapply rcu_next.
Qed.

(** Decides [follows] of a closed run. *)
Ltac runs := vm_compute; repeat match goal with |- _ ∧ _ => split | |- ∃ _, _ => eexists end;
  first [exact I | reflexivity | discriminate | (left; reflexivity) | (right; reflexivity)].

Definition an_overlap : list event :=
  [Lock 0 1; Start; Access; Lock 1 0; Access; Unlock 0 1] ++ replicate 7 Access ++ [Unlock 1 0] ++ replicate 9 Access.

Lemma grace_period_witness : ∃ s,
  run (rcu_start 2) an_overlap = Done s ∧ writer s = Finished ∧ ∀ r rd, readers s !! r = Some rd → old rd = false.
Proof.
  eexists. split; [vm_compute; reflexivity |]. split; [reflexivity |].
  match goal with |- ∀ r rd, readers ?s !! r = _ → _ => apply (grace_period 2 s); [reflexivity | | reflexivity] end.
  eapply (run_reach _ _ (rcu_start 2) an_overlap); [apply rcu_init | runs | vm_compute; reflexivity].
Defined.

(** A reader that locks on hart 0 and unlocks on hart 1, while another is inside on hart 1. *)
Definition a_migration : list event := [Lock 0 1; Start; Access; Lock 1 0; Unlock 1 1] ++ replicate 8 Access.

(** The grace period is not safe when a reader changes hart.
    A reader is inside on hart 1 when the writer starts to wait; another one locks on
    hart 0 behind the writer's loop and unlocks on hart 1 before it.  The loads add up
    to zero and [synchronize_rcu] returns, with the first reader still inside. *)
Theorem migration_breaks_rcu :
  ∃ s, rcu_reach (λ _ _, True) 2 s ∧ writer s = Finished ∧ readers s !! 0%nat = Some (MkReader (Some 1) true) ∧
       RCU_READERS s = [1; 0; 0; 0; 0; 0; 0; 0].
Proof.
  eexists. split; [| split; [| split]].
  - eapply (run_reach _ _ (rcu_start 2) a_migration); [apply rcu_init | runs | vm_compute; reflexivity].
  - reflexivity.
  - reflexivity.
  - reflexivity.
Qed.

(** ** How long the writer waits *)

Lemma load_zero s i sum :
  (∀ h, 0 <= h < 8 → aget (RCU_READERS s) h = Done 0) → fits 64 sum → 0 <= i < 8 →
  synchronize_step (s <| writer := Summing i sum |>) = Done (s <| writer := Summing (i + 1) sum |>).
Proof.
  intros Hz Hsum Hi. unfold synchronize_step. cbn -[Z.add Z.ltb per_hart wrap mbind].
  rewrite (proj2 (Z.ltb_lt _ _)) by (unfold MAX_HARTS; lia). unfold per_hart. rewrite Hz by done.
  cbn [mbind outcome_bind]. by rewrite Z.add_0_r, wrap_small.
Qed.

Lemma scan_zero s j sum :
  (∀ h, 0 <= h < 8 → aget (RCU_READERS s) h = Done 0) → fits 64 sum → (j <= 8)%nat →
  run (s <| writer := Summing (8 - Z.of_nat j) sum |>) (replicate j Access) = Done (s <| writer := Summing 8 sum |>).
Proof.
  intros Hz Hsum. induction j as [| j IH]; intros Hj; [done |]. rewrite replicate_S. cbn [run rcu_step].
  rewrite load_zero by (done || lia). cbn [mbind outcome_bind].
  replace (8 - Z.of_nat (S j) + 1) with (8 - Z.of_nat j) by lia. apply IH. lia.
Qed.

Lemma decide_sum s sum :
  synchronize_step (s <| writer := Summing 8 sum |>) = Done (s <| writer := if sum =? 0 then Finished else Summing 0 0 |>).
Proof. reflexivity. Qed.

Lemma scan_finishes s :
  (∀ h, 0 <= h < 8 → aget (RCU_READERS s) h = Done 0) →
  run (s <| writer := Summing 0 0 |>) (replicate 9 Access) = Done (s <| writer := Finished |>).
Proof.
  intros Hz. change (replicate 9 Access) with (replicate 8 Access ++ [Access]). rewrite run_app.
  change 0 with (8 - Z.of_nat 8) at 1. rewrite (scan_zero s 8 0 Hz) by (unfold fits; lia). cbn [mbind outcome_bind run rcu_step]. by rewrite decide_sum.
Qed.

Lemma no_reader_zero n s :
  rcu_ok n s → Forall (λ r, inside r = None) (readers s) → ∀ h, 0 <= h < 8 → aget (RCU_READERS s) h = Done 0.
Proof.
  intros Hok Hr h Hh. rewrite (cell_at n s h Hok Hh). f_equal. apply count_none. eapply Forall_impl; [exact Hr |].
  intros r E. cbn in E. unfold on_hart. rewrite E. by apply bool_decide_false.
Qed.

(** The writer returns once the readers are gone.
    Wherever it is in its loop and whatever it has already added up: with no reader
    inside, at most eighteen accesses end [synchronize_rcu], one round that may be spoilt
    by what was seen before and one that is not. *)
Theorem synchronize_returns (n : nat) (s : rcu) (i sum : Z) :
  8 * Z.of_nat n < 2 ^ 64 → rcu_reach stays n s → writer s = Summing i sum → Forall (λ r, inside r = None) (readers s) →
  ∃ k, (k <= 18)%nat ∧ run s (replicate k Access) = Done (s <| writer := Finished |>).
Proof.
  intros Hn Hs Hw Hr. pose proof (rcu_reach_ok n Hn s Hs) as Hok. pose proof (no_reader_zero n s Hok Hr) as Hz.
  destruct Hok as [_ _ _ Hok]. rewrite Hw in Hok. destruct Hok as [Hi Hsum].
  assert (fits 64 sum) as Hf.
  { pose proof (count_bound (old_below i) (readers s)). unfold fits.
    assert (i * Z.of_nat n <= 8 * Z.of_nat n) by (apply Z.mul_le_mono_nonneg_r; lia). lia. }
  pose proof (scan_zero s (Z.to_nat (8 - i)) sum Hz Hf ltac:(lia)) as Hscan.
  replace (8 - Z.of_nat (Z.to_nat (8 - i))) with i in Hscan by lia.
  replace (s <| writer := Summing i sum |>) with s in Hscan by (destruct s; cbn in *; congruence).
  exists (Z.to_nat (8 - i) + (1 + if decide (sum = 0%Z) then 0 else 9))%nat. split; [destruct (decide _); lia |].
  rewrite replicate_add, run_app, Hscan. cbn [mbind outcome_bind]. rewrite replicate_add, run_app.
  cbn [replicate run rcu_step]. rewrite decide_sum. cbn [mbind outcome_bind mret outcome_ret].
  destruct (decide (sum = 0)) as [-> | E]; [done |]. rewrite (proj2 (Z.eqb_neq _ _) E). by apply scan_finishes.
Qed.

(** The reader is seen on hart 2 and has left when the writer is half way. *)
Definition a_late_leave : list event := [Lock 0 2; Start; Access; Access; Access; Access; Unlock 0 2].

Lemma synchronize_returns_witness : ∃ s k,
  run (rcu_start 1) a_late_leave = Done s ∧ writer s = Summing 4 1 ∧ (k <= 18)%nat ∧
  run s (replicate k Access) = Done (s <| writer := Finished |>).
Proof.
  eexists (MkRcu _ _ _).
  match goal with |- ∃ k, ?A ∧ _ => assert A as E by (vm_compute; reflexivity) end.
  destruct (synchronize_returns 1 (MkRcu (replicate 8 0) [MkReader None false] (Summing 4 1)) 4 1) as (k & Hk & E').
  - reflexivity.
  - eapply (run_reach _ _ (rcu_start 1) a_late_leave); [apply rcu_init | runs | vm_compute; reflexivity].
  - reflexivity.
  - by repeat constructor.
  - exists k. exact (conj E (conj eq_refl (conj Hk E'))).
Defined.

(** One round of the writer in which reader [b] comes in before reader [a] leaves. *)
Definition a_handover (a b : nat) : list event := [Access; Lock b 0; Unlock a 0] ++ replicate 8 Access.

Fixpoint handovers (k a b : nat) : list event :=
  match k with O => [] | S k => a_handover a b ++ handovers k b a end.

(** Reader 0 or reader 1 is inside on hart 0, and came after the writer began to wait. *)
Definition taking_turns (a : nat) : rcu :=
  MkRcu [1; 0; 0; 0; 0; 0; 0; 0]
    (<[a := MkReader (Some 0) false]> (replicate 2 (MkReader None false))) (Summing 0 0).

Lemma handover_step a b :
  (a, b) = (0, 1)%nat ∨ (a, b) = (1, 0)%nat →
  follows stays (taking_turns a) (a_handover a b) ∧ run (taking_turns a) (a_handover a b) = Done (taking_turns b).
Proof. intros [[= -> ->] | [= -> ->]]; (split; [runs | reflexivity]). Qed.

Lemma handovers_step k a b :
  (a, b) = (0, 1)%nat ∨ (a, b) = (1, 0)%nat →
  follows stays (taking_turns a) (handovers k a b) ∧
  ∃ c, run (taking_turns a) (handovers k a b) = Done (taking_turns c).
Proof.
  revert a b. induction k as [| k IH]; intros a b Hab; [by split; [| exists a] |].
  destruct (handover_step a b Hab) as [Hf E], (IH b a) as [Hf' [c E']]; [naive_solver |]. cbn [handovers]. split.
  - by eapply follows_app.
  - exists c. by rewrite run_app, E.
Qed.

(** The writer waits for readers that came later.
    No reader is inside when the writer starts to wait.  For every [k] there is a run
    of [k] further rounds of its loop, with readers that each leave within one round,
    after which it is still waiting: nothing bounds the wait. *)
Theorem writer_waits_for_new (k : nat) :
  ∃ c, follows stays (rcu_start 2) ([Start; Lock 0 0] ++ handovers k 0 1) ∧
       run (rcu_start 2) ([Start; Lock 0 0] ++ handovers k 0 1) = Done (taking_turns c).
Proof.
  destruct (handovers_step k 0 1) as [Hf [c E]]; [by left |]. exists c. split.
  - eapply follows_app; [runs | reflexivity | exact Hf].
  - rewrite run_app. exact E.
Qed.

(** The loop of the writer with no reader in between is [read]. *)
Lemma read_alone s :
  length (RCU_READERS s) = 8%nat →
  run (s <| writer := Summing 0 0 |>) (replicate 9 Access) =
  Done (s <| writer := if rcu_reader_count s =? 0 then Finished else Summing 0 0 |>).
Proof.
  destruct s as [c rs w]. cbn [RCU_READERS]. intros H. do 8 (destruct c as [| ? c]; [done |]). destruct c; [| done].
  unfold rcu_reader_count, read. cbn -[wrap Z.add Z.eqb]. reflexivity.
Qed.

End Rcu.
