(* ===== verification/Fs.v ===== *)
(** * The file system service

    services/fs/src/main.rs: a user-level server with sixteen file slots in
    memory, mirrored to a disk.  A client sends a message of 64 bytes (reply
    endpoint, path, data) and gets an answer on its endpoint.

    The service is a state machine: [serve] is one turn of its loop.  Its answers
    are collected in [replies].  The disk of the kernel's driver is a map from
    sector numbers to sectors; a call that fails returns [usize::MAX], which the
    service takes for success, and moves no data.  What the calls behind /proc
    return is [sysinfo], an input.

    The theorems: on the paths it stores, the service is a map from paths to
    contents of up to 64 bytes ([fs_refines_map]), and what it saves is what it
    loads, for names that fit their table entry ([save_load]).  A message that announces more
    data than it has room for stops the service ([long_write_panics]); a new file
    replaces the first one when all slots are in use ([full_table_overwrites]); a
    new file made by an append starts with the contents of a deleted one
    ([append_after_delete]). *)
From Stdlib Require Import Ascii String.
From S2P Require Import Prelude.
Open Scope list_scope.

Module Fs.

Definition SLOT_SIZE : Z := 64.
Definition MAX_FILES : Z := 16.
Definition MAX_PATH : Z := 32.
Definition FILE_DATA_BASE : Z := 16.

Record FileSlot : Type := MkSlot {
  path : list Z;
  path_len : Z;
  data : list Z;
  data_len : Z;
  is_dir : bool;
  used : bool;
  dirty : bool;
  disk_sector : Z;
}.
#[export] Instance eta_slot : Eta FileSlot := λ r,
  MkSlot (path r) (path_len r) (data r) (data_len r) (is_dir r) (used r) (dirty r) (disk_sector r).

Definition FileSlot_new : FileSlot := MkSlot (replicate 32 0) 0 (replicate 64 0) 0 false false false 0.

(** ** The disk *)

Record disk : Type := MkDisk { broken : bool; sector_at : Z → list Z }.

Definition disk_read (d : disk) (sector : Z) (buf : list Z) : list Z :=
  if broken d then buf else sector_at d sector.
Definition disk_write (d : disk) (sector : Z) (bytes : list Z) : disk :=
  if broken d then d
  else MkDisk false (λ s, if s =? sector then take 512 bytes ++ replicate (512 - length bytes) 0 else sector_at d s).

(** ** Byte strings *)

Definition str (s : string) : list Z := (λ c, Z.of_N (N_of_ascii c)) <$> list_ascii_of_string s.

(** [for j in 0..n { dst[at_ + j] = src[j]; }]. *)
Definition copy_bytes (dst : list Z) (at_ : Z) (src : list Z) (n : Z) : outcome (list Z) :=
  if n <=? 0 then Done dst else bytes ← aslice src 0 n; asplice dst at_ bytes.

(** ** Slots *)

Definition matches (p : list Z) (s : FileSlot) : bool :=
  used s && (path_len s =? zlen p) && bool_decide (take (length p) (path s) = p).

Fixpoint index_where (f : FileSlot → bool) (l : list FileSlot) (i : Z) : option Z :=
  match l with
  | [] => None
  | s :: l' => if f s then Some i else index_where f l' (i + 1)
  end.

Definition find_slot (slots : list FileSlot) (p : list Z) : option Z := index_where (matches p) slots 0.

Definition taken_sector (slots : list FileSlot) (sec : Z) : bool :=
  existsb (λ s, used s && (0 <? disk_sector s) && (disk_sector s =? sec)) slots.
Definition alloc_disk_sector (slots : list FileSlot) : Z :=
  match List.find (λ s, negb (taken_sector slots s)) (zseq FILE_DATA_BASE (128 - FILE_DATA_BASE)) with
  | Some s => s
  | None => FILE_DATA_BASE
  end.

Definition make_slot (slots : list FileSlot) (p : list Z) (dir : bool) : outcome (list FileSlot * Z) :=
  match index_where (λ s, negb (used s)) slots 0 with
  | None => Done (slots, 0)
  | Some i =>
      s ← aget slots i;
      let plen := Z.min (zlen p) MAX_PATH in
      new_path ← copy_bytes (path s) 0 p plen;
      let s := s <| used := true |> <| is_dir := dir |> <| path_len := plen |> <| path := new_path |> in
      slots ← aset slots i s;
      let s := s <| disk_sector := alloc_disk_sector slots |> <| dirty := true |> in
      slots ← aset slots i s;
      Done (slots, i)
  end.

Definition make_file (slots : list FileSlot) (p bytes : list Z) : outcome (list FileSlot * Z) :=
  '(slots, idx) ← make_slot slots p false;
  s ← aget slots idx;
  let dlen := Z.min (zlen bytes) SLOT_SIZE in
  new_data ← copy_bytes (data s) 0 bytes dlen;
  slots ← aset slots idx (s <| data_len := dlen |> <| data := new_data |> <| dirty := true |>);
  Done (slots, idx).

(** ** Persistence *)

Definition magic : list Z := str "TRAINOS2".

(** One entry of the file table: the slot it fills, its data read from the disk. *)
Definition load_entry (d : disk) (ft : list Z) (slots : list FileSlot) (i : Z) : outcome (list FileSlot) :=
  let off := i * 16 in
  name_len ← aget ft off;
  if (name_len =? 0) || (MAX_PATH <? name_len) then Done slots else
  dlen ← aget ft (off + 1);
  lo ← aget ft (off + 2);
  hi ← aget ft (off + 3);
  let sec := Z.lor lo (Z.shiftl hi 8) in
  s ← aget slots i;
  name ← aslice ft (off + 4) (off + 4 + name_len);
  new_path ← asplice (path s) 0 name;
  last_byte ← aget new_path (name_len - 1);
  let s := s <| used := true |> <| path_len := name_len |> <| path := new_path |> <| data_len := dlen |>
             <| disk_sector := sec |> <| is_dir := last_byte =? 47 |> in
  s ← (if (0 <? dlen) && (0 <? sec) then
         let data_buf := disk_read d sec (replicate 512 0) in
         new_data ← copy_bytes (data s) 0 data_buf (Z.min dlen SLOT_SIZE);
         Done (s <| data := new_data |>)
       else Done s);
  aset slots i s.

Definition load_from_disk (d : disk) (slots : list FileSlot) : outcome (list FileSlot * bool) :=
  let sb := disk_read d 0 (replicate 512 0) in
  if negb (bool_decide (take 8 sb = magic)) then Done (slots, false) else
  let ft := disk_read d 1 (replicate 512 0) in
  slots ← for_each (load_entry d ft) slots (zseq 0 MAX_FILES);
  Done (slots, true).

Definition superblock (slots : list FileSlot) : list Z :=
  let count := zlen (List.filter used slots) in
  magic ++ [3; 0; 0; 0; wrap 8 count; wrap 8 (Z.shiftr count 8)] ++ replicate 498 0.

Definition save_entry (slots : list FileSlot) (ft : list Z) (i : Z) : outcome (list Z) :=
  s ← aget slots i;
  if negb (used s) then Done ft else
  let off := i * 16 in
  ft ← asplice ft off [wrap 8 (path_len s); wrap 8 (data_len s); wrap 8 (disk_sector s);
                       wrap 8 (Z.shiftr (disk_sector s) 8)];
  copy_bytes ft (off + 4) (path s) (path_len s).

Definition flush_slot (st : list FileSlot * disk) (i : Z) : outcome (list FileSlot * disk) :=
  let '(slots, d) := st in
  s ← aget slots i;
  if used s && dirty s && (0 <? disk_sector s) then
    slots ← aset slots i (s <| dirty := false |>);
    Done (slots, disk_write d (disk_sector s) (data s))
  else Done (slots, d).

Definition save_to_disk (slots : list FileSlot) (d : disk) : outcome (list FileSlot * disk) :=
  let d := disk_write d 0 (superblock slots) in
  ft ← for_each (save_entry slots) (replicate 512 0) (zseq 0 MAX_FILES);
  let d := disk_write d 1 ft in
  for_each flush_slot (slots, d) (zseq 0 MAX_FILES).

(** ** /proc *)

Record sysinfo : Type := MkInfo {
  uptime_ms : Z;
  meminfo : Z;
  perf_stats : Z * Z * Z;
  proclist : list Z * Z;
  getpid : Z;
}.

Definition path_match (a b : list Z) : bool :=
  let len := Nat.min (List.length a) (List.length b) in bool_decide (take len a = take len b).

Fixpoint digits (fuel : nat) (n : Z) (acc : list Z) : list Z :=
  match fuel with
  | O => acc
  | S fuel' =>
      let acc := (48 + wrap 8 (n - n / 10 * 10)) :: acc in
      if n / 10 =? 0 then acc else digits fuel' (n / 10) acc
  end.
Definition fmt_num (n : Z) (buf : list Z) (off : Z) : outcome (list Z * Z) :=
  let ds := if n =? 0 then [48] else digits 20 n [] in
  buf ← asplice buf off ds; Done (buf, off + zlen ds).

Definition zeros : list Z := replicate 64 0.

Definition proc_read (info : sysinfo) (p : list Z) : outcome (option (list Z)) :=
  if path_match p (str "/proc/uptime" ++ [0]) then
    '(r, _) ← fmt_num (uptime_ms info) zeros 0; Done (Some r)
  else if path_match p (str "/proc/meminfo" ++ [0]) then
    let s := str "allocated_pages: " in
    r ← asplice zeros 0 s;
    '(r, _) ← fmt_num (meminfo info) r (zlen s); Done (Some r)
  else if path_match p (str "/proc/perf" ++ [0]) then
    let '(sends, recvs, ctx) := perf_stats info in
    r ← asplice zeros 0 (str "sends=");
    '(r, rlen) ← fmt_num sends r 6;
    r ← aset r rlen 32;
    r ← asplice r (rlen + 1) (str "recvs=");
    '(r, rlen) ← fmt_num recvs r (rlen + 7);
    r ← aset r rlen 32;
    r ← asplice r (rlen + 1) (str "ctx=");
    '(r, _) ← fmt_num ctx r (rlen + 5);
    Done (Some r)
  else if path_match p (str "/proc/version" ++ [0]) then
    r ← asplice zeros 0 (str "TrainOS V20.0 -- Microkernel OS"); Done (Some r)
  else if path_match p (str "/proc/proc" ++ [0]) then
    let '(buf, count) := proclist info in
    r ← copy_bytes zeros 0 buf (Z.min (u64 (count * 6)) SLOT_SIZE); Done (Some r)
  else if path_match p (str "/proc/self" ++ [0]) then
    '(r, _) ← fmt_num (getpid info) zeros 0; Done (Some r)
  else Done None.

(** ** The service *)

Record service : Type := MkService {
  slots : list FileSlot;
  store : disk;
  op_count : Z;
  replies : list (Z * list Z);
}.
#[export] Instance eta_service : Eta service := λ r, MkService (slots r) (store r) (op_count r) (replies r).

Definition reply (st : service) (ep : Z) (bytes : list Z) : service :=
  st <| replies := replies st ++ [(ep, bytes)] |>.

Definition welcome : list Z := str "Welcome to TrainOS V20.0 -- a microkernel OS for RISC-V".

Definition init_vfs (slots : list FileSlot) : outcome (list FileSlot) :=
  if existsb used slots then Done slots else
  '(slots, _) ← make_slot slots (str "/" ++ [0]) true;
  '(slots, _) ← make_slot slots (str "/proc" ++ [0]) true;
  '(slots, _) ← make_slot slots (str "/home" ++ [0]) true;
  '(slots, _) ← make_slot slots (str "/etc" ++ [0]) true;
  '(slots, _) ← make_slot slots (str "/tmp" ++ [0]) true;
  '(slots, _) ← make_file slots (str "/welcome.txt" ++ [0]) welcome;
  Done slots.

Definition start (d : disk) : outcome service :=
  '(slots, _) ← load_from_disk d (replicate (Z.to_nat MAX_FILES) FileSlot_new);
  slots ← init_vfs slots;
  Done (MkService slots d 0 []).

Definition ENOENT : list Z := str "ENOENT".
Definition OK : list Z := str "OK".

(** [SLOTS[idx].data], filled up with zeros. *)
Definition slot_bytes (s : FileSlot) : list Z :=
  let len := Z.to_nat (Z.min (data_len s) SLOT_SIZE) in take len (data s) ++ replicate (64 - len) 0.

Definition op_read (info : sysinfo) (st : service) (ep : Z) (p : list Z) : outcome service :=
  found ← (if 5 <=? zlen p then
             r ← proc_read info p;
             match r with
             | Some bytes => Done (Some bytes)
             | None =>
                 match find_slot (slots st) p with
                 | Some idx => s ← aget (slots st) idx; Done (Some (slot_bytes s))
                 | None => Done None
                 end
             end
           else Done None);
  Done (reply st ep (match found with Some bytes => bytes | None => ENOENT end)).

(** The data of a message, after its path: the length it announces, and the bytes,
    none if they do not fit. *)
Definition message_data (buf p : list Z) : outcome (Z * list Z) :=
  let data_off := 3 + zlen p in
  announced ← (if data_off <? 64 then aget buf data_off else Done 0);
  let data_start := data_off + 1 in
  let dlen := Z.min announced SLOT_SIZE in
  bytes ← (if data_start + dlen <=? 64 then aslice buf data_start (data_start + dlen) else Done []);
  Done (dlen, bytes).

Definition find_or_make (slots : list FileSlot) (p : list Z) : outcome (list FileSlot * Z) :=
  match find_slot slots p with
  | Some idx => Done (slots, idx)
  | None => make_slot slots p false
  end.

Definition op_write (st : service) (ep : Z) (buf p : list Z) : outcome service :=
  '(dlen, bytes) ← message_data buf p;
  '(sl, idx) ← find_or_make (slots st) p;
  s ← aget sl idx;
  new_data ← copy_bytes (data s) 0 bytes dlen;
  sl ← aset sl idx (s <| data_len := dlen |> <| data := new_data |> <| dirty := true |>);
  Done (reply (st <| slots := sl |>) ep OK).

Definition op_append (st : service) (ep : Z) (buf p : list Z) : outcome service :=
  '(dlen, bytes) ← message_data buf p;
  '(sl, idx) ← find_or_make (slots st) p;
  s ← aget sl idx;
  let cur_len := data_len s in
  let new_len := Z.min (u64 (cur_len + dlen)) SLOT_SIZE in
  new_data ← copy_bytes (data s) cur_len bytes (u64 (new_len - cur_len));
  sl ← aset sl idx (s <| data := new_data |> <| data_len := new_len |> <| dirty := true |>);
  Done (reply (st <| slots := sl |>) ep OK).

Definition op_delete (st : service) (ep : Z) (p : list Z) : outcome service :=
  match find_slot (slots st) p with
  | Some idx =>
      s ← aget (slots st) idx;
      sl ← aset (slots st) idx (s <| used := false |>);
      Done (reply (st <| slots := sl |>) ep OK)
  | None => Done (reply st ep OK)
  end.

Definition starts_with (s prefix : list Z) : bool :=
  (zlen prefix <=? zlen s) && bool_decide (take (length prefix) s = prefix).
Definition contains_slash (s : list Z) : bool := existsb (Z.eqb 47) s.

(** One slot of a listing: the rest of its path and a newline, when there is room. *)
Definition list_slot (dir_path listing : list Z) (s : FileSlot) : list Z :=
  if negb (used s) then listing else
  let p := take (Z.to_nat (path_len s)) (path s) in
  if (zlen dir_path <? path_len s) && starts_with p dir_path then
    let rest := drop (length dir_path) p in
    if negb (contains_slash rest) && (zlen listing + zlen rest + 1 <=? 64) then listing ++ rest ++ [10]
    else listing
  else listing.

Definition op_list (st : service) (ep : Z) (p : list Z) : service :=
  reply st ep (foldl (list_slot p) [] (slots st)).

Definition op_stat (st : service) (ep : Z) (p : list Z) : outcome service :=
  match find_slot (slots st) p with
  | Some idx =>
      s ← aget (slots st) idx;
      Done (reply st ep [wrap 8 (data_len s); if is_dir s then 1 else 0])
  | None => Done (reply st ep ENOENT)
  end.

(** The path of a message. *)
Definition message_path (buf : list Z) : outcome (list Z) :=
  n ← aget buf 2; aslice buf 3 (3 + Z.min n MAX_PATH).

(** One turn of the loop, for a message that was received. *)
Definition serve (info : sysinfo) (st : service) (opcode : Z) (buf : list Z) : outcome service :=
  lo ← aget buf 0; hi ← aget buf 1;
  let reply_ep := Z.lor lo (Z.shiftl hi 8) in
  p ← message_path buf;
  st ← (match opcode with
        | 2 => op_read info st reply_ep p
        | 3 => op_write st reply_ep buf p
        | 4 => op_append st reply_ep buf p
        | 5 => op_delete st reply_ep p
        | 6 => Done (op_list st reply_ep p)
        | 7 => op_stat st reply_ep p
        | _ => Done st
        end);
  let st := st <| op_count := u64 (op_count st + 1) |> in
  if Z.land (op_count st) 0xF =? 0 then
    '(sl, d) ← save_to_disk (slots st) (store st);
    Done (st <| slots := sl |> <| store := d |>)
  else Done st.

(** ** The table of slots *)

Record slot_ok (s : FileSlot) : Prop := SlotOk {
  path_size : length (path s) = 32%nat;
  path_bound : 0 <= path_len s <= MAX_PATH;
  data_size : length (data s) = 64%nat;
  data_bound : 0 <= data_len s <= SLOT_SIZE;
}.

(** No path is stored twice, and no sector is used twice. *)
Record slots_ok (sl : list FileSlot) : Prop := SlotsOk {
  table_size : zlen sl = MAX_FILES;
  each_ok : Forall slot_ok sl;
  unique_path i j s t p : sl !! i = Some s → sl !! j = Some t →
    matches p s = true → matches p t = true → i = j;
  sector_range i s : sl !! i = Some s → used s = true → FILE_DATA_BASE <= disk_sector s < 128;
  unique_sector i j s t : sl !! i = Some s → sl !! j = Some t → used s = true → used t = true →
    disk_sector s = disk_sector t → i = j;
}.

Definition bytes_of (s : FileSlot) : list Z := take (Z.to_nat (data_len s)) (data s).

(** What the table says about a path. *)
Definition content (sl : list FileSlot) (p : list Z) : option (list Z) :=
  match find_slot sl p with
  | Some i => bytes_of <$> sl !! Z.to_nat i
  | None => None
  end.

Lemma index_where_spec f l : ∀ i,
  match index_where f l i with
  | Some k => i <= k ∧ ∃ s, l !! Z.to_nat (k - i) = Some s ∧ f s = true
  | None => ∀ n s, l !! n = Some s → f s = false
  end.
Proof.
  induction l as [| x l IH]; intros i; cbn [index_where]; [done |].
  destruct (f x) eqn:E; [split; [lia |]; exists x; by rewrite Z.sub_diag |].
  specialize (IH (i + 1)). destruct (index_where f l (i + 1)) as [k |].
  - destruct IH as (Hk & s & Hs & Hf). split; [lia |]. exists s.
    replace (Z.to_nat (k - i)) with (S (Z.to_nat (k - (i + 1)))) by lia. done.
  - intros [| n] s Hs; cbn in Hs; [congruence | by apply (IH n)].
Qed.

Lemma find_slot_some sl p k : find_slot sl p = Some k →
  0 <= k ∧ ∃ s, sl !! Z.to_nat k = Some s ∧ matches p s = true.
Proof. unfold find_slot. intros E. pose proof (index_where_spec (matches p) sl 0) as H. rewrite E, Z.sub_0_r in H. done. Qed.

Lemma find_slot_none sl p : find_slot sl p = None → ∀ n s, sl !! n = Some s → matches p s = false.
Proof. unfold find_slot. intros E. pose proof (index_where_spec (matches p) sl 0) as H. by rewrite E in H. Qed.

Lemma find_slot_at sl p i s : slots_ok sl → sl !! i = Some s → matches p s = true → find_slot sl p = Some (Z.of_nat i).
Proof.
  intros H Hs Hm. destruct (find_slot sl p) as [k |] eqn:E.
  - apply find_slot_some in E as (Hk & t & Ht & Hmt). f_equal.
    pose proof (unique_path sl H _ _ _ _ p Ht Hs Hmt Hm). lia.
  - rewrite (find_slot_none sl p E i s Hs) in Hm. done.
Qed.

Lemma content_at sl p i s : slots_ok sl → sl !! i = Some s → matches p s = true → content sl p = Some (bytes_of s).
Proof. intros H Hs Hm. unfold content. by rewrite (find_slot_at sl p i s), Nat2Z.id, Hs. Qed.

Lemma content_absent sl p : (∀ n s, sl !! n = Some s → matches p s = false) → content sl p = None.
Proof.
  intros H. unfold content. destruct (find_slot sl p) as [k |] eqn:E; [| done].
  apply find_slot_some in E as (_ & s & Hs & Hm). by rewrite (H _ _ Hs) in Hm.
Qed.

(** One slot replaced: the path it stores now, the path it stored before, and all
    other paths. *)
Lemma content_update sl i s s' p : slots_ok sl → slots_ok (<[i := s']> sl) → sl !! i = Some s →
  content (<[i := s']> sl) p =
  if matches p s' then Some (bytes_of s') else if matches p s then None else content sl p.
Proof.
  intros H H' Hs. assert (i < length sl)%nat as Hi by (by eapply lookup_lt_Some).
  destruct (matches p s') eqn:E'.
  { apply (content_at _ p i s'); [done | by apply list_lookup_insert_eq | done]. }
  destruct (matches p s) eqn:E.
  - apply content_absent. intros n t Ht. destruct (decide (i = n)) as [<- | Hne].
    + rewrite list_lookup_insert_eq in Ht by done. congruence.
    + rewrite list_lookup_insert_ne in Ht by done. destruct (matches p t) eqn:Et; [| done].
      by pose proof (unique_path sl H _ _ _ _ p Hs Ht E Et).
  - destruct (find_slot sl p) as [k |] eqn:Ek.
    + apply find_slot_some in Ek as (Hk & t & Ht & Hmt).
      rewrite (content_at sl p _ t H Ht Hmt). apply (content_at _ p (Z.to_nat k) t); [done | | done].
      rewrite list_lookup_insert_ne; [done |]. intros ->. congruence.
    + rewrite (content_absent sl p (find_slot_none sl p Ek)). apply content_absent.
      intros n t Ht. destruct (decide (i = n)) as [<- | Hne].
      * rewrite list_lookup_insert_eq in Ht by done. congruence.
      * rewrite list_lookup_insert_ne in Ht by done. by apply (find_slot_none sl p Ek n).
Qed.

Lemma matches_spec p s : matches p s = true ↔
  used s = true ∧ path_len s = zlen p ∧ take (length p) (path s) = p.
Proof. unfold matches. rewrite !andb_true_iff, Z.eqb_eq, bool_decide_eq_true. tauto. Qed.

(** A slot stores one path. *)
Lemma matches_path p s : slot_ok s → matches p s = true → p = take (Z.to_nat (path_len s)) (path s).
Proof. intros H (_ & Hl & Hp)%matches_spec. rewrite Hl, to_nat_zlen. done. Qed.

(** Replacing a slot by one with the same path and sector, or by an unused one. *)
Lemma slots_ok_update sl i s s' : slots_ok sl → sl !! i = Some s → slot_ok s' →
  (used s' = true → used s = true ∧ path s' = path s ∧ path_len s' = path_len s ∧ disk_sector s' = disk_sector s) →
  slots_ok (<[i := s']> sl).
Proof.
  intros H Hs Hok Hsame. assert (i < length sl)%nat as Hi by (by eapply lookup_lt_Some).
  assert (∀ n t, <[i := s']> sl !! n = Some t → ∃ t0, sl !! n = Some t0 ∧
    (used t = true → used t0 = true ∧ disk_sector t = disk_sector t0 ∧ ∀ p, matches p t = matches p t0)) as Hback.
  { intros n t Ht. destruct (decide (i = n)) as [<- | Hne].
    - rewrite list_lookup_insert_eq in Ht by done. injection Ht as <-. exists s. split; [done |].
      intros Hu. destruct (Hsame Hu) as (H1 & H2 & H3 & H4). split_and!; [done | done |].
      intros p. unfold matches. by rewrite H2, H3, Hu, H1.
    - rewrite list_lookup_insert_ne in Ht by done. by exists t. }
  split.
  - unfold zlen. rewrite length_insert. apply H.
  - apply Forall_insert; [apply H | done].
  - intros n m t u p Ht Hu Hmt Hmu.
    apply Hback in Ht as (t0 & Ht0 & Ht1). apply Hback in Hu as (u0 & Hu0 & Hu1).
    assert (used t = true) as Hut by (by apply matches_spec in Hmt as [? _]).
    assert (used u = true) as Huu by (by apply matches_spec in Hmu as [? _]).
    apply (unique_path sl H n m t0 u0 p); try done; [by rewrite <- (proj2 (proj2 (Ht1 Hut))) | by rewrite <- (proj2 (proj2 (Hu1 Huu)))].
  - intros n t Ht Hu. apply Hback in Ht as (t0 & Ht0 & Ht1). destruct (Ht1 Hu) as (Hu0 & -> & _).
    by apply (sector_range sl H n).
  - intros n m t u Ht Hu Hut Huu Heq.
    apply Hback in Ht as (t0 & Ht0 & Ht1). apply Hback in Hu as (u0 & Hu0 & Hu1).
    destruct (Ht1 Hut) as (Ha & Hb & _). destruct (Hu1 Huu) as (Hc & Hd & _).
    apply (unique_sector sl H n m t0 u0); try done. congruence.
Qed.

(** ** New slots *)

Lemma slot_at sl i s : slots_ok sl → sl !! i = Some s → slot_ok s.
Proof. intros H Hs. exact (Forall_lookup_1 _ sl i s (each_ok sl H) Hs). Qed.

Lemma taken_spec sl sec : taken_sector sl sec = true ↔
  ∃ n s, sl !! n = Some s ∧ used s = true ∧ 0 < disk_sector s ∧ disk_sector s = sec.
Proof.
  unfold taken_sector. rewrite existsb_exists. split.
  - intros (s & Hin & Hs). apply list_elem_of_In, list_elem_of_lookup in Hin as [n Hn].
    exists n, s. bools. done.
  - intros (n & s & Hn & H1 & H2 & <-). exists s. split; [apply list_elem_of_In; by eapply list_elem_of_lookup_2 |].
    rewrite H1, Z.eqb_refl. cbn. lia.
Qed.

(** With at most sixteen slots there is always a sector left. *)
Lemma alloc_fresh sl : zlen sl <= MAX_FILES →
  FILE_DATA_BASE <= alloc_disk_sector sl < 128 ∧ taken_sector sl (alloc_disk_sector sl) = false.
Proof.
  intros Hl. unfold alloc_disk_sector. destruct (List.find _ _) as [s |] eqn:E.
  - apply find_some in E as [Hin Hs]. apply list_elem_of_In, elem_of_zseq in Hin.
    unfold FILE_DATA_BASE in *. split; [lia |]. by apply negb_true_iff.
  - exfalso.
    assert (List.NoDup (zseq FILE_DATA_BASE (128 - FILE_DATA_BASE))) as Hnd by (apply NoDup_ListNoDup, NoDup_zseq).
    apply (NoDup_incl_length (l' := disk_sector <$> sl)) in Hnd.
    + rewrite length_zseq, length_fmap in Hnd. unfold zlen, MAX_FILES, FILE_DATA_BASE in *. lia.
    + intros x Hx. apply find_none with (x := x) in E; [| done]. apply negb_false_iff, taken_spec in E.
      destruct E as (n & s & Hn & _ & _ & <-). apply list_elem_of_In, list_elem_of_fmap.
      exists s. split; [done |]. by eapply list_elem_of_lookup_2.
Qed.

(** The slot [make_slot] fills. *)
Definition filled (s : FileSlot) (p : list Z) (dir : bool) (sec : Z) : FileSlot :=
  s <| used := true |> <| is_dir := dir |> <| path_len := zlen p |> <| path := p ++ drop (length p) (path s) |>
    <| disk_sector := sec |> <| dirty := true |>.

Lemma copy_prefix (dst src : list Z) n : 0 <= n <= zlen src → n <= zlen dst →
  copy_bytes dst 0 src n = Done (take (Z.to_nat n) src ++ drop (Z.to_nat n) dst).
Proof.
  intros Hn Hd. unfold copy_bytes. destruct (n <=? 0) eqn:E; bools; [by replace n with 0 by lia |].
  rewrite aslice_in_range by lia. cbn [mbind outcome_bind]. rewrite Z.sub_0_r.
  change (drop (Z.to_nat 0) src) with src.
  rewrite asplice_in_range by (unfold zlen in *; rewrite ?length_take; lia). f_equal.
  change (take (Z.to_nat 0) dst) with (@nil Z). cbn [app]. do 2 f_equal. unfold zlen in *. rewrite length_take. lia.
Qed.

Lemma make_slot_full sl p dir : (∀ n s, sl !! n = Some s → used s = true) → make_slot sl p dir = Done (sl, 0).
Proof.
  intros H. unfold make_slot. pose proof (index_where_spec (λ s, negb (used s)) sl 0) as Hi.
  destruct (index_where _ _ _) as [k |]; [| done]. destruct Hi as (_ & s & Hs & Hu). by rewrite (H _ _ Hs) in Hu.
Qed.

Lemma filled_ok s p dir sec : slot_ok s → zlen p <= MAX_PATH → slot_ok (filled s p dir sec).
Proof.
  intros [H1 H2 H3 H4] Hp. split; cbn; try done.
  - rewrite length_app, length_drop. unfold zlen, MAX_PATH in *. lia.
  - unfold zlen in *. lia.
Qed.

Lemma filled_matches s p dir sec q : matches q (filled s p dir sec) = bool_decide (q = p).
Proof.
  apply eq_bool_prop_intro. rewrite bool_decide_spec, Is_true_true, matches_spec. cbn. split.
  - intros (_ & Hl & Ht). assert (length q = length p) as E by (unfold zlen in Hl; lia).
    by rewrite E, take_app_length in Ht.
  - intros ->. by rewrite take_app_length.
Qed.

Lemma slots_ok_new sl i s p dir sec :
  slots_ok sl → sl !! i = Some s → used s = false → zlen p <= MAX_PATH →
  (∀ n t, sl !! n = Some t → matches p t = false) →
  FILE_DATA_BASE <= sec < 128 → (∀ n t, n ≠ i → sl !! n = Some t → used t = true → disk_sector t ≠ sec) →
  slots_ok (<[i := filled s p dir sec]> sl).
Proof.
  intros H Hs Hu Hp Hnew Hsec Hfresh. assert (i < length sl)%nat as Hi by (by eapply lookup_lt_Some).
  assert (∀ n t, <[i := filled s p dir sec]> sl !! n = Some t →
    n = i ∧ t = filled s p dir sec ∨ n ≠ i ∧ sl !! n = Some t) as Hback.
  { intros n t Ht. destruct (decide (i = n)) as [<- | Hne].
    - rewrite list_lookup_insert_eq in Ht by done. left. split; congruence.
    - rewrite list_lookup_insert_ne in Ht by done. right. split; [done | done]. }
  split.
  - unfold zlen. rewrite length_insert. apply H.
  - apply Forall_insert; [apply H |]. apply filled_ok; [| done]. by apply (slot_at sl i).
  - intros n m t u q Ht Hu' Hmt Hmu.
    apply Hback in Ht as [[-> ->] | [Hn Ht]]; apply Hback in Hu' as [[-> ->] | [Hm Hu']]; try done.
    + rewrite filled_matches in Hmt. apply bool_decide_eq_true in Hmt as ->. by rewrite (Hnew _ _ Hu') in Hmu.
    + rewrite filled_matches in Hmu. apply bool_decide_eq_true in Hmu as ->. by rewrite (Hnew _ _ Ht) in Hmt.
    + by apply (unique_path sl H n m t u q).
  - intros n t Ht Hut. apply Hback in Ht as [[-> ->] | [Hn Ht]]; [done | by apply (sector_range sl H n)].
  - intros n m t u Ht Hu' Hut Huu Heq.
    apply Hback in Ht as [[-> ->] | [Hn Ht]]; apply Hback in Hu' as [[-> ->] | [Hm Hu']]; try done.
    + by apply Hfresh in Hu'.
    + by apply Hfresh in Ht.
    + by apply (unique_sector sl H n m t u).
Qed.

Lemma make_slot_at sl p dir k s :
  slots_ok sl → zlen p <= MAX_PATH → (∀ n t, sl !! n = Some t → matches p t = false) →
  index_where (λ s, negb (used s)) sl 0 = Some k → sl !! Z.to_nat k = Some s → 0 <= k → used s = false →
  ∃ sec, make_slot sl p dir = Done (<[Z.to_nat k := filled s p dir sec]> sl, k) ∧
    slots_ok (<[Z.to_nat k := filled s p dir sec]> sl).
Proof.
  intros H Hp Hnew Hidx Hs Hk Hu. unfold make_slot. rewrite Hidx.
  rewrite (proj2 (aget_lookup _ _ s)) by done. cbn [mbind outcome_bind].
  assert (slot_ok s) as Hok by (by apply (slot_at sl (Z.to_nat k))).
  rewrite Z.min_l by done.
  rewrite copy_prefix by (destruct Hok; unfold zlen, MAX_PATH in *; lia). rewrite to_nat_zlen, firstn_all.
  cbn [mbind outcome_bind].
  assert (0 <= k < zlen sl) as Hkl by (apply lookup_lt_Some in Hs; unfold zlen; lia).
  rewrite aset_in_range by done. cbn [mbind outcome_bind].
  set (s1 := s <| used := true |> <| is_dir := dir |> <| path_len := _ |> <| path := _ |>).
  set (sec := alloc_disk_sector (<[Z.to_nat k := s1]> sl)).
  rewrite aset_in_range by (unfold zlen in *; by rewrite length_insert). cbn [mbind outcome_bind].
  rewrite list_insert_insert_eq.
  destruct (alloc_fresh (<[Z.to_nat k := s1]> sl)) as [Hr Hf].
  { unfold zlen. rewrite length_insert. pose proof (table_size sl H). unfold zlen in *. lia. }
  exists sec. split; [done |].
  apply slots_ok_new; try done. intros n t Hne Ht Hut Heq.
  assert (taken_sector (<[Z.to_nat k := s1]> sl) sec = true) as Hx; [| fold sec in Hf; congruence].
  apply taken_spec. exists n, t. rewrite list_lookup_insert_ne by done.
  pose proof (sector_range sl H n t Ht Hut). unfold FILE_DATA_BASE in *. split_and!; [done | done | lia | done].
Qed.

Lemma make_slot_spec sl p dir n0 s0 :
  slots_ok sl → zlen p <= MAX_PATH → (∀ n t, sl !! n = Some t → matches p t = false) →
  sl !! n0 = Some s0 → used s0 = false →
  ∃ i s sec, sl !! i = Some s ∧ used s = false ∧
    make_slot sl p dir = Done (<[i := filled s p dir sec]> sl, Z.of_nat i) ∧
    slots_ok (<[i := filled s p dir sec]> sl).
Proof.
  intros H Hp Hnew Hn0 Hu0. pose proof (index_where_spec (λ s, negb (used s)) sl 0) as Hi.
  destruct (index_where _ _ _) as [k |] eqn:Ek; [| pose proof (Hi _ _ Hn0) as E; by rewrite Hu0 in E].
  destruct Hi as (Hk & s & Hs & Hu). rewrite Z.sub_0_r in Hs. apply negb_true_iff in Hu.
  destruct (make_slot_at sl p dir k s) as (sec & E & H1); try done.
  exists (Z.to_nat k), s, sec. rewrite Z2Nat.id by done. done.
Qed.

(** ** The specification: a map from paths to contents *)

Inductive request : Type :=
| Read (p : list Z) | Write (p d : list Z) | Append (p d : list Z) | Delete (p : list Z).

Definition opcode (r : request) : Z :=
  match r with Read _ => 2 | Write _ _ => 3 | Append _ _ => 4 | Delete _ => 5 end.
Definition path_of (r : request) : list Z :=
  match r with Read p | Write p _ | Append p _ | Delete p => p end.
Definition payload (r : request) : list Z :=
  match r with Write _ d | Append _ d => zlen d :: d | _ => [] end.

(** The message that asks for [r]; whatever is behind it in the buffer does not
    matter. *)
Definition encodes (r : request) (ep : Z) (buf : list Z) : Prop :=
  0 <= ep < 65536 ∧ length buf = 64%nat ∧ zlen (path_of r) <= MAX_PATH ∧
  ∃ rest, buf = [ep mod 256; ep / 256; zlen (path_of r)] ++ path_of r ++ payload r ++ rest.

Notation files := (gmap (list Z) (list Z)).

Definition fill (d : list Z) : list Z := d ++ replicate (64 - length d) 0.

(** The files and the answer after a request. *)
Definition spec (m : files) (r : request) : files * list Z :=
  match r with
  | Read p => (m, match m !! p with Some d => fill d | None => ENOENT end)
  | Write p d => (<[p := d]> m, OK)
  | Append p d => (<[p := take 64 (match m !! p with Some old => old | None => [] end ++ d)]> m, OK)
  | Delete p => (base.delete p m, OK)
  end.

Definition proc_paths : list (list Z) :=
  (λ s, str s ++ [0]) <$> ["/proc/uptime"; "/proc/meminfo"; "/proc/perf"; "/proc/version"; "/proc/proc";
                           "/proc/self"]%string.

(** The requests the map describes: reads of paths of at least five bytes that are
    not taken for one under /proc, writes to a file that exists or for which there
    is a slot, and appends to a file that exists. *)
Definition valid (m : files) (r : request) : Prop :=
  match r with
  | Read p => 5 <= zlen p ∧ Forall (λ q, path_match p q = false) proc_paths
  | Write p _ => m !! p ≠ None ∨ (size m < 16)%nat
  | Append p _ => m !! p ≠ None
  | Delete _ => True
  end.

Definition represents (sl : list FileSlot) (m : files) : Prop := ∀ p, content sl p = m !! p.

(** The disk holds the data of the slots that are not marked dirty. *)
Definition synced (sl : list FileSlot) (d : disk) : Prop :=
  (∀ sec, length (sector_at d sec) = 512%nat) ∧
  (broken d = false → ∀ n s, sl !! n = Some s → used s = true → dirty s = false →
    take 64 (sector_at d (disk_sector s)) = data s).

Record fs_inv (st : service) : Prop := FsInv {
  inv_slots : slots_ok (slots st);
  inv_synced : synced (slots st) (store st);
}.

(** ** Messages *)

Lemma message_lookup (a rest : list Z) x i : zlen a = i → aget (a ++ x :: rest) i = Done x.
Proof.
  intros <-. apply aget_lookup. split; [unfold zlen; lia |]. rewrite to_nat_zlen. by apply list_lookup_middle.
Qed.

Lemma message_slice (a b c : list Z) i j : zlen a = i → i + zlen b = j → aslice (a ++ b ++ c) i j = Done b.
Proof.
  intros <- <-. rewrite aslice_in_range by (rewrite ?zlen_app; unfold zlen; lia).
  replace (zlen a + zlen b - zlen a) with (zlen b) by lia. by rewrite !to_nat_zlen, drop_app_length, take_app_length.
Qed.

Lemma encoded_path r ep buf : encodes r ep buf → message_path buf = Done (path_of r).
Proof.
  intros (_ & _ & Hp & rest & ->). unfold message_path.
  change (aget _ 2) with (Done (zlen (path_of r))). cbn [mbind outcome_bind].
  rewrite Z.min_l by done. by apply (message_slice [ep mod 256; ep / 256; zlen (path_of r)]).
Qed.

Lemma two_bytes x : 0 <= x → Z.lor (x mod 256) (Z.shiftl (x / 256) 8) = x.
Proof.
  intros Hx. rewrite Z.lor_comm, Z.shiftl_mul_pow2, (lor_low _ _ 8)
    by (lia || apply Z_mod_mult || by apply Z.mod_pos_bound). change (2 ^ 8) with 256. dlia.
Qed.

Lemma encoded_endpoint r ep buf : encodes r ep buf →
  ∃ lo hi, aget buf 0 = Done lo ∧ aget buf 1 = Done hi ∧ Z.lor lo (Z.shiftl hi 8) = ep.
Proof.
  intros (He & _ & _ & rest & ->). exists (ep mod 256), (ep / 256). split; [done |]. split; [done |].
  apply two_bytes. lia.
Qed.

Lemma encoded_data r ep buf d : encodes r ep buf → payload r = zlen d :: d →
  message_data buf (path_of r) = Done (zlen d, d).
Proof.
  intros (_ & Hl & Hp & rest & Hb) Hpay. rewrite Hpay in Hb. unfold message_data, MAX_PATH in *.
  destruct (3 + zlen (path_of r) <? 64) eqn:E; bools; [| lia].
  assert (buf = ([ep mod 256; ep / 256; zlen (path_of r)] ++ path_of r) ++ zlen d :: d ++ rest) as Hb1
    by (by rewrite Hb, <- app_assoc).
  rewrite Hb1 at 1. rewrite message_lookup by (by rewrite zlen_app). cbn [mbind outcome_bind].
  assert (4 + zlen (path_of r) + zlen d <= 64) as Hfit.
  { apply (f_equal (λ l, Z.of_nat (length l))) in Hb. rewrite Hl, !length_app in Hb. cbn [length] in Hb.
    unfold zlen. lia. }
  unfold SLOT_SIZE. rewrite Z.min_l by (unfold zlen in *; lia).
  destruct (3 + zlen (path_of r) + 1 + zlen d <=? 64) eqn:E2; bools; [| lia].
  replace (([ep mod 256; ep / 256; zlen (path_of r)] ++ path_of r) ++ zlen d :: d ++ rest) with
    (([ep mod 256; ep / 256; zlen (path_of r)] ++ path_of r ++ [zlen d]) ++ d ++ rest) in Hb1
    by (by rewrite <- !app_assoc).
  rewrite Hb1, message_slice; [done | | lia]. rewrite !zlen_app. change (zlen [zlen d]) with 1.
  change (zlen [ep mod 256; ep / 256; zlen (path_of r)]) with 3. lia.
Qed.

(** ** The operations *)

Definition own_path (s : FileSlot) : list Z := take (Z.to_nat (path_len s)) (path s).

Lemma matches_own s : slot_ok s → used s = true → matches (own_path s) s = true.
Proof.
  intros [H1 H2 _ _] Hu. apply matches_spec. unfold own_path.
  assert (length (take (Z.to_nat (path_len s)) (path s)) = Z.to_nat (path_len s)) as Hl
    by (rewrite length_take; unfold MAX_PATH in *; lia).
  split_and!; [done | unfold zlen; rewrite Hl; lia | by rewrite Hl].
Qed.

Lemma free_slot sl m : slots_ok sl → represents sl m → (size m < 16)%nat →
  ∃ n s, sl !! n = Some s ∧ used s = false.
Proof.
  intros H Hm Hsz. destruct (decide (Forall (λ s, used s = true) sl)) as [Hall | Hsome].
  - exfalso. rewrite Forall_lookup in Hall.
    assert (NoDup (own_path <$> sl)) as Hnd.
    { apply NoDup_alt. intros i j p Hi Hj. apply list_lookup_fmap_Some in Hi as (s & -> & Hs).
      apply list_lookup_fmap_Some in Hj as (t & Hp & Ht).
      apply (unique_path sl H i j s t (own_path s)); try done; [| rewrite Hp];
        apply matches_own; eauto using slot_at. }
    assert (list_to_set (own_path <$> sl) ⊆@{gset (list Z)} dom m) as Hsub.
    { intros p Hp. apply elem_of_list_to_set, list_elem_of_fmap in Hp as (s & -> & Hs).
      apply list_elem_of_lookup in Hs as [n Hn]. apply elem_of_dom.
      rewrite <- Hm, (content_at sl _ n s); [by eexists | done | done |]. apply matches_own; eauto using slot_at. }
    apply subseteq_size in Hsub. rewrite size_list_to_set, length_fmap, size_dom in Hsub by done.
    pose proof (table_size sl H). unfold zlen, MAX_FILES in *. lia.
  - apply not_Forall_Exists in Hsome; [| apply _]. apply Exists_exists in Hsome as (s & Hs & Hu).
    apply list_elem_of_lookup in Hs as [n Hn]. exists n, s. split; [done |]. by apply not_true_is_false.
Qed.

Lemma find_or_make_spec sl p :
  slots_ok sl → zlen p <= MAX_PATH →
  content sl p ≠ None ∨ (∃ n s, sl !! n = Some s ∧ used s = false) →
  ∃ sl1 i s, find_or_make sl p = Done (sl1, Z.of_nat i) ∧ slots_ok sl1 ∧ sl1 !! i = Some s ∧
    matches p s = true ∧ (∀ q, q ≠ p → content sl1 q = content sl q) ∧
    (content sl p ≠ None → sl1 = sl) ∧
    (∀ n t, n ≠ i → sl1 !! n = Some t → sl !! n = Some t).
Proof.
  intros H Hp Hor. unfold find_or_make. destruct (find_slot sl p) as [k |] eqn:Ek.
  - apply find_slot_some in Ek as (Hk & s & Hs & Hm). exists sl, (Z.to_nat k), s.
    rewrite Z2Nat.id by done. done.
  - pose proof (find_slot_none sl p Ek) as Habs.
    destruct Hor as [Hc | (n0 & s0 & Hn0 & Hu0)]; [by rewrite content_absent in Hc |].
    destruct (make_slot_spec sl p false n0 s0 H Hp Habs Hn0 Hu0) as (i & s & sec & Hs & Hu & E & H1).
    assert (i < length sl)%nat as Hi by (by eapply lookup_lt_Some).
    exists (<[i := filled s p false sec]> sl), i, (filled s p false sec). split; [done |]. split; [done |].
    split; [by apply list_lookup_insert_eq |]. split; [rewrite filled_matches; by apply bool_decide_eq_true |].
    split; [| split].
    + intros q Hq. rewrite (content_update sl i s) by done. rewrite filled_matches, bool_decide_false by done.
      unfold matches at 1. by rewrite Hu.
    + intros Hc. by rewrite content_absent in Hc.
    + intros n t Hne Ht. by rewrite list_lookup_insert_ne in Ht by done.
Qed.

(** Storing [d] in a slot that has a path: what a write and an append end with. *)
Lemma store_slot st sl1 i s p d dl nd m :
  slots_ok sl1 → sl1 !! i = Some s → matches p s = true →
  length nd = 64%nat → 0 <= dl <= SLOT_SIZE → take (Z.to_nat dl) nd = d →
  (∀ q, q ≠ p → content sl1 q = m !! q) →
  (∀ n t, n ≠ i → sl1 !! n = Some t → slots st !! n = Some t) → synced (slots st) (store st) →
  let s' := s <| data_len := dl |> <| data := nd |> <| dirty := true |> in
  slots_ok (<[i := s']> sl1) ∧ represents (<[i := s']> sl1) (<[p := d]> m) ∧
  synced (<[i := s']> sl1) (store st).
Proof.
  intros H1 Hs Hm Hnd Hdl Hd Hq Hback [Hsz Hsync] s'.
  assert (slots_ok (<[i := s']> sl1)) as H2.
  { apply (slots_ok_update sl1 i s); try done. destruct (slot_at sl1 i s H1 Hs). by split. }
  assert (∀ q, matches q s' = matches q s) as Hms by done.
  split; [done |]. split.
  - intros q. rewrite (content_update sl1 i s) by done. rewrite Hms. destruct (decide (q = p)) as [-> | Hne].
    + rewrite Hm, lookup_insert_eq. unfold bytes_of. cbn. by rewrite Hd.
    + rewrite lookup_insert_ne by done. destruct (matches q s) eqn:E; [| by apply Hq].
      exfalso. apply Hne. pose proof (slot_at sl1 i s H1 Hs) as Hok.
      by rewrite (matches_path q s Hok E), (matches_path p s Hok Hm).
  - split; [done |]. intros Hb n t Ht Hu Hdt. destruct (decide (i = n)) as [<- | Hne].
    + rewrite list_lookup_insert_eq in Ht by (by eapply lookup_lt_Some). by injection Ht as <-.
    + rewrite list_lookup_insert_ne in Ht by done. apply (Hsync Hb n t); try done. by apply Hback.
Qed.

Definition stores (st : service) (ep : Z) (m : files) (res : outcome service) : Prop :=
  ∃ sl, res = Done (reply (st <| slots := sl |>) ep OK) ∧ slots_ok sl ∧ represents sl m ∧ synced sl (store st).

Lemma op_write_ok st m ep buf p d :
  fs_inv st → represents (slots st) m → zlen p <= MAX_PATH → zlen d <= SLOT_SIZE →
  message_data buf p = Done (zlen d, d) → m !! p ≠ None ∨ (size m < 16)%nat →
  stores st ep (<[p := d]> m) (op_write st ep buf p).
Proof.
  intros [H Hsync] Hm Hp Hd Hmsg Hv. unfold op_write. rewrite Hmsg. cbn [mbind outcome_bind].
  destruct (find_or_make_spec (slots st) p H Hp) as (sl1 & i & s & -> & H1 & Hs & Hms & Hq & _ & Hback).
  { destruct Hv as [Hv | Hv]; [left; by rewrite Hm | right; by apply (free_slot _ m)]. }
  cbn [mbind outcome_bind]. rewrite (proj2 (aget_lookup _ _ s)) by (split; [lia | by rewrite Nat2Z.id]).
  cbn [mbind outcome_bind]. pose proof (slot_at sl1 i s H1 Hs) as [Hps Hpb Hds Hdb].
  rewrite copy_prefix by (unfold zlen, SLOT_SIZE in *; lia). rewrite to_nat_zlen, firstn_all. cbn [mbind outcome_bind].
  apply lookup_lt_Some in Hs as Hi. rewrite aset_in_range by (unfold zlen; lia). rewrite Nat2Z.id.
  eexists. split; [done |].
  apply (store_slot st sl1 i s p d (zlen d) (d ++ drop (length d) (data s)) m); try done.
  - rewrite length_app, length_drop. unfold zlen, SLOT_SIZE in *. lia.
  - unfold zlen in *. lia.
  - by rewrite to_nat_zlen, take_app_length.
  - intros q Hne. by rewrite Hq, Hm.
Qed.

Lemma copy_at (dst src : list Z) at_ n : 0 <= at_ → 0 <= n <= zlen src → at_ + n <= zlen dst →
  copy_bytes dst at_ src n = Done (take (Z.to_nat at_) dst ++ take (Z.to_nat n) src ++ drop (Z.to_nat (at_ + n)) dst).
Proof.
  intros Ha Hn Hd. unfold copy_bytes. destruct (n <=? 0) eqn:E; bools.
  - replace n with 0 by lia. rewrite Z.add_0_r. change (take (Z.to_nat 0) src) with (@nil Z). by rewrite app_nil_l, take_drop.
  - rewrite aslice_in_range by lia. cbn [mbind outcome_bind]. rewrite Z.sub_0_r.
    change (drop (Z.to_nat 0) src) with src.
    assert (zlen (take (Z.to_nat n) src) = n) as Hl by (unfold zlen in *; rewrite length_take; lia).
    rewrite asplice_in_range by lia. by rewrite Hl.
Qed.

(** An append to the slot that was found or made. *)
Lemma append_result st ep buf p d sl1 i s :
  message_data buf p = Done (zlen d, d) → zlen d <= SLOT_SIZE →
  find_or_make (slots st) p = Done (sl1, Z.of_nat i) → slots_ok sl1 → sl1 !! i = Some s →
  ∃ dl nd, length nd = 64%nat ∧ 0 <= dl <= SLOT_SIZE ∧ take (Z.to_nat dl) nd = take 64 (bytes_of s ++ d) ∧
    op_append st ep buf p =
    Done (reply (st <| slots := <[i := s <| data_len := dl |> <| data := nd |> <| dirty := true |>]> sl1 |>) ep OK).
Proof.
  intros Hmsg Hd Hf H1 Hs. unfold op_append. rewrite Hmsg. cbn [mbind outcome_bind]. rewrite Hf.
  cbn [mbind outcome_bind]. rewrite (proj2 (aget_lookup _ _ s)) by (split; [lia | by rewrite Nat2Z.id]).
  cbn [mbind outcome_bind]. pose proof (slot_at sl1 i s H1 Hs) as [Hps Hpb Hds Hdb].
  unfold SLOT_SIZE in *. set (cur := data_len s) in *.
  assert (length (bytes_of s) = Z.to_nat cur) as Hlo by (unfold bytes_of; rewrite length_take; lia).
  assert (u64 (cur + zlen d) = cur + zlen d) as -> by (apply wrap_small; unfold fits, zlen in *; lia).
  set (new := Z.min (cur + zlen d) 64).
  assert (u64 (new - cur) = new - cur) as -> by (apply wrap_small; unfold fits, zlen in *; lia).
  rewrite copy_at by (unfold zlen in *; lia). cbn [mbind outcome_bind].
  apply lookup_lt_Some in Hs as Hi. rewrite aset_in_range by (unfold zlen; lia). rewrite Nat2Z.id.
  set (nd := _ ++ _ ++ _).
  assert (nd = (bytes_of s ++ take (Z.to_nat (new - cur)) d) ++ drop (Z.to_nat (cur + (new - cur))) (data s)) as Hnd
    by (unfold nd; by rewrite <- app_assoc).
  assert (length (bytes_of s ++ take (Z.to_nat (new - cur)) d) = Z.to_nat new) as Hln
    by (rewrite length_app, length_take; unfold zlen in *; lia).
  exists new, nd. split_and!.
  - rewrite Hnd, length_app, Hln, length_drop. lia.
  - unfold zlen in *. lia.
  - unfold zlen in *. lia.
  - rewrite Hnd, take_app_le, take_ge by lia. rewrite take_app. f_equal; [by rewrite take_ge by lia |].
    rewrite Hlo. destruct (Z.le_gt_cases (cur + zlen d) 64) as [Hle | Hgt].
    + rewrite !take_ge by (unfold zlen in *; lia). done.
    + f_equal. lia.
  - by destruct s.
Qed.

Lemma op_append_ok st m ep buf p d old :
  fs_inv st → represents (slots st) m → zlen p <= MAX_PATH → zlen d <= SLOT_SIZE →
  message_data buf p = Done (zlen d, d) → m !! p = Some old →
  stores st ep (<[p := take 64 (old ++ d)]> m) (op_append st ep buf p).
Proof.
  intros [H Hsync] Hm Hp Hd Hmsg Hv.
  assert (content (slots st) p = Some old) as Hc by (by rewrite Hm).
  destruct (find_or_make_spec (slots st) p H Hp) as (sl1 & i & s & Ef & H1 & Hs & Hms & Hq & Hsame & Hback);
    [left; by rewrite Hc |].
  rewrite Hsame in * by (by rewrite Hc). rewrite (content_at _ p i s) in Hc by done. injection Hc as <-.
  destruct (append_result st ep buf p d (slots st) i s Hmsg Hd Ef H1 Hs) as (dl & nd & Hl & Hb & Ht & ->).
  eexists. split; [done |]. by apply (store_slot st (slots st) i s p _ dl nd m).
Qed.

Lemma op_delete_ok st m ep p : fs_inv st → represents (slots st) m →
  stores st ep (base.delete p m) (op_delete st ep p).
Proof.
  intros [H Hsync] Hm. unfold op_delete. destruct (find_slot (slots st) p) as [k |] eqn:Ek.
  - apply find_slot_some in Ek as (Hk & s & Hs & Hms). rewrite (proj2 (aget_lookup _ _ s)) by done.
    cbn [mbind outcome_bind]. apply lookup_lt_Some in Hs as Hi. rewrite aset_in_range by (unfold zlen; lia).
    set (s' := s <| used := false |>). set (i := Z.to_nat k) in *.
    assert (slots_ok (<[i := s']> (slots st))) as H2.
    { apply (slots_ok_update _ i s); try done. by destruct (slot_at _ i s H Hs). }
    eexists. split; [done |]. split; [done |]. split.
    + intros q. rewrite (content_update _ i s) by done. unfold matches at 1. cbn [used s' andb].
      destruct (decide (q = p)) as [-> | Hne]; [by rewrite Hms, lookup_delete_eq |].
      rewrite lookup_delete_ne by done. destruct (matches q s) eqn:E; [| apply Hm].
      exfalso. apply Hne. pose proof (slot_at _ i s H Hs) as Hok.
      by rewrite (matches_path q s Hok E), (matches_path p s Hok Hms).
    + destruct Hsync as [Hsz Hsync]. split; [done |]. intros Hb n t Ht Hu Hdt.
      destruct (decide (i = n)) as [<- | Hne].
      * rewrite list_lookup_insert_eq in Ht by done. by injection Ht as <-.
      * rewrite list_lookup_insert_ne in Ht by done. by apply (Hsync Hb n t).
  - exists (slots st). split; [by destruct st |]. split; [done |]. split; [| done].
    intros q. rewrite Hm. destruct (decide (q = p)) as [-> | Hne]; [| by rewrite lookup_delete_ne].
    rewrite lookup_delete_eq, <- Hm. apply content_absent. by apply find_slot_none.
Qed.

Lemma proc_read_none info p : Forall (λ q, path_match p q = false) proc_paths → proc_read info p = Done None.
Proof.
  unfold proc_paths. cbn [fmap list_fmap]. intros H. apply Forall_cons in H as [H1 H].
  apply Forall_cons in H as [H2 H]. apply Forall_cons in H as [H3 H]. apply Forall_cons in H as [H4 H].
  apply Forall_cons in H as [H5 H]. apply Forall_cons in H as [H6 _].
  unfold proc_read. by rewrite H1, H2, H3, H4, H5, H6.
Qed.

Lemma op_read_ok info st m ep p : fs_inv st → represents (slots st) m → valid m (Read p) →
  op_read info st ep p = Done (reply st ep (spec m (Read p)).2).
Proof.
  intros [H _] Hm [Hp Hproc]. unfold op_read. destruct (5 <=? zlen p) eqn:E; bools; [| lia].
  rewrite proc_read_none by done. cbn [mbind outcome_bind spec snd]. rewrite <- Hm. unfold content.
  destruct (find_slot (slots st) p) as [k |] eqn:Ek; [| done].
  apply find_slot_some in Ek as (Hk & s & Hs & _). rewrite (proj2 (aget_lookup _ _ s)) by done.
  rewrite Hs. cbn. do 2 f_equal. unfold slot_bytes, fill, bytes_of. destruct (slot_at _ _ s H Hs) as [_ _ Hds Hdb].
  rewrite Z.min_l by lia. f_equal. f_equal. rewrite length_take. unfold SLOT_SIZE in *. lia.
Qed.

(** ** Saving *)

Definition clean (s : FileSlot) : FileSlot := if used s then s <| dirty := false |> else s.

Lemma save_entry_done sl ft i : slots_ok sl → 0 <= i < 16 → length ft = 512%nat →
  ∃ ft', save_entry sl ft i = Done ft' ∧ length ft' = 512%nat.
Proof.
  intros H Hi Hl. unfold save_entry. pose proof (table_size sl H) as Hz. unfold MAX_FILES in Hz.
  destruct (aget_in_range sl i ltac:(lia)) as [s Hs]. rewrite Hs. cbn [mbind outcome_bind].
  destruct (used s); cbn [negb]; [| eauto]. apply aget_lookup in Hs as [_ Hs].
  destruct (slot_at sl _ s H Hs) as [H1 H2 _ _]. unfold MAX_PATH in *.
  rewrite asplice_in_range by (unfold zlen; cbn [length]; lia). cbn [mbind outcome_bind].
  rewrite copy_at.
  - eexists. split; [done |]. rewrite !length_app, !length_take, !length_drop, !length_app, !length_take, !length_drop.
    unfold zlen. cbn [length]. lia.
  - lia.
  - unfold zlen. lia.
  - unfold zlen. rewrite !length_app, length_take, length_drop. unfold zlen. cbn [length]. lia.
Qed.

Lemma insert_middle {A} (l1 l2 : list A) x y i : length l1 = i → <[i := y]> (l1 ++ x :: l2) = l1 ++ y :: l2.
Proof. intros <-. rewrite insert_app_r_alt by lia. by rewrite Nat.sub_diag. Qed.

(** What the loop over the dirty slots has done before slot [i]. *)
Record flushed (sl : list FileSlot) (d : disk) (i : Z) (st : list FileSlot * disk) : Prop := Flushed {
  fl_slots : st.1 = (clean <$> take (Z.to_nat i) sl) ++ drop (Z.to_nat i) sl;
  fl_broken : broken st.2 = broken d;
  fl_size sec : length (sector_at st.2 sec) = 512%nat;
  fl_low sec : sec < FILE_DATA_BASE → sector_at st.2 sec = sector_at d sec;
  fl_data : broken d = false → ∀ n s, sl !! n = Some s → used s = true →
    Z.of_nat n < i ∨ dirty s = false → take 64 (sector_at st.2 (disk_sector s)) = data s;
}.

Lemma disk_write_size d sec bytes : (∀ x, length (sector_at d x) = 512%nat) →
  ∀ x, length (sector_at (disk_write d sec bytes) x) = 512%nat.
Proof.
  intros H x. unfold disk_write. destruct (broken d); [done |]. cbn.
  destruct (x =? sec); [| done]. rewrite length_app, length_take, length_replicate. lia.
Qed.

Lemma flush_step sl d i st : slots_ok sl → 0 <= i < 16 → flushed sl d i st →
  ∃ st', flush_slot st i = Done st' ∧ flushed sl d (i + 1) st'.
Proof.
  intros H Hi [F1 F2 F3 F4 F5]. destruct st as [cur e]. cbn [fst snd] in *. unfold flush_slot.
  pose proof (table_size sl H) as Hz. unfold MAX_FILES in Hz.
  destruct (lookup_lt_is_Some_2 sl (Z.to_nat i)) as [s Hs]; [unfold zlen in Hz; lia |].
  set (k := Z.to_nat i) in *.
  assert (length (clean <$> take k sl) = k) as Hlk by (rewrite length_fmap, length_take; unfold zlen in Hz; lia).
  rewrite (drop_S _ _ _ Hs) in F1.
  rewrite (proj2 (aget_lookup _ _ s)) by (split; [lia |]; fold k; rewrite F1; by apply list_lookup_middle).
  cbn [mbind outcome_bind].
  assert (take (Z.to_nat (i + 1)) sl = take k sl ++ [s]) as Htk
    by (replace (Z.to_nat (i + 1)) with (S k) by lia; by apply take_S_r).
  assert ((clean <$> take (Z.to_nat (i + 1)) sl) ++ drop (Z.to_nat (i + 1)) sl =
    (clean <$> take k sl) ++ clean s :: drop (S k) sl) as Hnext.
  { rewrite Htk, fmap_app, <- app_assoc. replace (Z.to_nat (i + 1)) with (S k) by lia. done. }
  destruct (used s && dirty s && (0 <? disk_sector s)) eqn:E.
  - apply andb_true_iff in E as [E Esec]. apply andb_true_iff in E as [Eu Ed]. rewrite aset_in_range.
    2: { rewrite F1. unfold zlen. rewrite length_app, Hlk. cbn [length]. lia. }
    cbn [mbind outcome_bind]. eexists. split; [done |]. split; cbn [fst snd].
    + rewrite Hnext, F1. fold k. rewrite insert_middle by done. do 2 f_equal. unfold clean. by rewrite Eu.
    + unfold disk_write. destruct (broken e) eqn:Eb; cbn; congruence.
    + by apply disk_write_size.
    + intros sec Hsec. rewrite <- F4 by done. unfold disk_write. destruct (broken e); [done |]. cbn.
      pose proof (sector_range sl H k s Hs Eu). by replace (sec =? disk_sector s) with false by lia.
    + intros Hb n t Ht Hu Hor. unfold disk_write. rewrite F2, Hb. cbn.
      destruct (disk_sector t =? disk_sector s) eqn:Es; bools.
      * assert (n = k) as -> by (by apply (unique_sector sl H n k t s)).
        assert (t = s) as -> by congruence. destruct (slot_at sl k s H Hs) as [_ _ Hds _].
        rewrite (take_ge (data s)) by lia. by rewrite take_app_le, take_ge by lia.
      * apply (F5 Hb n t Ht Hu). destruct Hor as [Hlt | Hdt]; [| by right]. left.
        destruct (decide (n = k)) as [-> |]; [| lia]. congruence.
  - eexists. split; [done |]. split; cbn [fst snd]; try done.
    + rewrite Hnext, F1. do 2 f_equal. unfold clean. destruct (used s) eqn:Eu; [| done].
      pose proof (sector_range sl H k s Hs Eu) as Hr. unfold FILE_DATA_BASE in Hr.
      destruct (dirty s) eqn:Ed; [cbn in E; lia |]. destruct s; cbn in *. by rewrite Ed.
    + intros Hb n t Ht Hu Hor. apply (F5 Hb n t Ht Hu). destruct Hor as [Hlt | Hdt]; [| by right].
      destruct (decide (n = k)) as [-> |]; [| left; lia]. right. assert (t = s) as -> by congruence.
      pose proof (sector_range sl H k s Hs Hu) as Hr. unfold FILE_DATA_BASE in Hr.
      rewrite Hu in E. destruct (dirty s); [cbn in E; lia | done].
Qed.

Lemma index_where_fmap f (g : FileSlot → FileSlot) l : (∀ s, s ∈ l → f (g s) = f s) → ∀ i,
  index_where f (g <$> l) i = index_where f l i.
Proof.
  induction l as [| s l IH]; intros H i; [done |]. cbn. rewrite H by left. destruct (f s); [done |].
  apply IH. intros t Ht. apply H. by right.
Qed.

(** A change of the slots that keeps paths and bytes keeps the contents. *)
Lemma content_fmap g sl p :
  (∀ s, s ∈ sl → matches p (g s) = matches p s ∧ (used s = true → bytes_of (g s) = bytes_of s)) →
  content (g <$> sl) p = content sl p.
Proof.
  intros H. unfold content, find_slot. rewrite index_where_fmap by (intros; by apply H).
  destruct (index_where (matches p) sl 0) as [k |] eqn:E; [| done].
  assert (find_slot sl p = Some k) as (Hk & s & Hs & Hm)%find_slot_some by done.
  rewrite list_lookup_fmap, Hs. cbn. f_equal. apply H; [by eapply list_elem_of_lookup_2 |].
  by apply matches_spec in Hm as [? _].
Qed.

Lemma clean_ok sl : slots_ok sl → slots_ok (clean <$> sl).
Proof.
  intros H. assert (∀ n t, (clean <$> sl) !! n = Some t → ∃ s, sl !! n = Some s ∧ used t = used s ∧
    disk_sector t = disk_sector s ∧ ∀ p, matches p t = matches p s) as Hback.
  { intros n t Ht. apply list_lookup_fmap_Some in Ht as (s & -> & Hs). exists s. split; [done |].
    unfold clean. destruct (used s) eqn:E; [| done]. by destruct s. }
  split.
  - unfold zlen. rewrite length_fmap. apply H.
  - apply Forall_fmap, (Forall_impl _ _ _ (each_ok sl H)). intros s [H1 H2 H3 H4]. unfold compose, clean.
    destruct (used s); by split.
  - intros i j s t p Hi Hj Hs Ht. apply Hback in Hi as (s0 & Hi & _ & _ & Es). apply Hback in Hj as (t0 & Hj & _ & _ & Et).
    rewrite Es in Hs. rewrite Et in Ht. by apply (unique_path sl H i j s0 t0 p).
  - intros i s Hi Hu. apply Hback in Hi as (s0 & Hi & Eu & -> & _). apply (sector_range sl H i); [done | congruence].
  - intros i j s t Hi Hj Hs Ht Heq. apply Hback in Hi as (s0 & Hi & Eu & Ed & _).
    apply Hback in Hj as (t0 & Hj & Eu' & Ed' & _). apply (unique_sector sl H i j s0 t0); congruence.
Qed.

Lemma disk_write_broken d sec bytes : broken (disk_write d sec bytes) = broken d.
Proof. unfold disk_write. by destruct (broken d) eqn:E. Qed.

Lemma save_flushes sl d : slots_ok sl → synced sl d →
  ∃ ft d', for_each (save_entry sl) (replicate 512 0) (zseq 0 MAX_FILES) = Done ft ∧ length ft = 512%nat ∧
    save_to_disk sl d = Done (clean <$> sl, d') ∧
    flushed sl (disk_write (disk_write d 0 (superblock sl)) 1 ft) 16 (clean <$> sl, d').
Proof.
  intros H [Hsz Hsync].
  destruct (for_each_inv (λ _ ft, length ft = 512%nat) (save_entry sl) 0 MAX_FILES (replicate 512 0)) as (ft & Eft & Hft);
    [done | done | intros; by apply save_entry_done |].
  exists ft. unfold save_to_disk. rewrite Eft. cbn [mbind outcome_bind].
  set (d1 := disk_write (disk_write d 0 (superblock sl)) 1 ft).
  destruct (for_each_inv (flushed sl d1) flush_slot 0 16 (sl, d1)) as (st & Est & Hst).
  - done.
  - split; cbn [fst snd]; try done.
    + by apply disk_write_size, disk_write_size.
    + intros Hb n s Hs Hu Hor. destruct Hor as [? | Hd]; [lia |].
      assert (broken d = false) as Hbd by (unfold d1 in Hb; by rewrite !disk_write_broken in Hb).
      rewrite <- (Hsync Hbd n s Hs Hu Hd). f_equal. pose proof (sector_range sl H n s Hs Hu) as Hr.
      unfold FILE_DATA_BASE in Hr. unfold d1, disk_write. rewrite Hbd. cbn.
      replace (disk_sector s =? 1) with false by lia. by replace (disk_sector s =? 0) with false by lia.
  - intros i st Hi Hst. by apply flush_step.
  - destruct st as [sl' d']. pose proof (fl_slots _ _ _ _ Hst) as E. cbn [fst] in E.
    pose proof (table_size sl H) as Hz. unfold zlen, MAX_FILES in Hz.
    rewrite take_ge, drop_ge, app_nil_r in E by (cbn; lia). subst sl'.
    exists d'. done.
Qed.

Lemma save_ok sl d : slots_ok sl → synced sl d →
  ∃ d', save_to_disk sl d = Done (clean <$> sl, d') ∧ slots_ok (clean <$> sl) ∧ synced (clean <$> sl) d' ∧
    ∀ p, content (clean <$> sl) p = content sl p.
Proof.
  intros H Hsync. destruct (save_flushes sl d H Hsync) as (ft & d' & _ & _ & E & [_ F2 F3 F4 F5]). cbn [fst snd] in *.
  exists d'. split; [done |]. split; [by apply clean_ok |]. split.
  - split; [done |]. intros Hb n t Ht Hu _. apply list_lookup_fmap_Some in Ht as (s & -> & Hs).
    assert (used s = true) as Hus by (unfold clean in Hu; destruct (used s) eqn:Eu; congruence).
    pose proof (table_size sl H) as Hz. apply lookup_lt_Some in Hs as Hn. unfold zlen, MAX_FILES in Hz.
    unfold clean. rewrite Hus. cbn. apply (F5 ltac:(congruence) n s); [done | done | left; lia].
  - intros p. apply content_fmap. intros s _. unfold clean. destruct (used s) eqn:E1; [| done]. by destruct s.
Qed.

(** ** The service is a map *)

Lemma encoded_fits r ep buf d : encodes r ep buf → payload r = zlen d :: d → zlen d <= SLOT_SIZE.
Proof.
  intros (_ & Hl & _ & rest & Hb) Hpay. rewrite Hpay in Hb.
  apply (f_equal (λ l, Z.of_nat (length l))) in Hb. rewrite Hl, !length_app in Hb. cbn [length] in Hb.
  unfold zlen, SLOT_SIZE. lia.
Qed.

(** C11. The service keeps a map from paths to contents: for every request the map
    describes, in every state the service can be in, serving it answers as the map
    does and leaves the service with the updated map, whatever else is in the
    message buffer, the periodic save included. *)
Theorem fs_refines_map info st m r ep buf :
  fs_inv st → represents (slots st) m → encodes r ep buf → valid m r →
  ∃ st', serve info st (opcode r) buf = Done st' ∧ fs_inv st' ∧
    represents (slots st') (spec m r).1 ∧ replies st' = replies st ++ [(ep, (spec m r).2)].
Proof.
  intros Hi Hm He Hv. destruct (encoded_endpoint r ep buf He) as (lo & hi & E1 & E2 & E3).
  pose proof (encoded_path r ep buf He) as E4. pose proof He as (_ & _ & Hp & _).
  assert (∃ sl, (match opcode r with
    | 2 => op_read info st ep (path_of r) | 3 => op_write st ep buf (path_of r)
    | 4 => op_append st ep buf (path_of r) | 5 => op_delete st ep (path_of r)
    | 6 => Done (op_list st ep (path_of r)) | 7 => op_stat st ep (path_of r) | _ => Done st end) =
    Done (reply (st <| slots := sl |>) ep (spec m r).2) ∧ slots_ok sl ∧ represents sl (spec m r).1 ∧
    synced sl (store st)) as (sl & Eop & Hsl & Hrep & Hsy).
  { destruct r as [p | p d | p d | p]; cbn [opcode path_of] in *.
    - exists (slots st). rewrite (op_read_ok info st m ep p) by done. destruct Hi. by destruct st.
    - apply op_write_ok; try done; [| by apply (encoded_data (Write p d) ep)]. by apply (encoded_fits (Write p d) ep buf).
    - destruct (m !! p) as [old |] eqn:Eo; [| by apply Hv in Eo]. cbn [spec fst snd]. rewrite Eo.
      apply op_append_ok; try done; [| by apply (encoded_data (Append p d) ep)]. by apply (encoded_fits (Append p d) ep buf).
    - by apply op_delete_ok. }
  unfold serve. rewrite E1, E2, E4. cbn [mbind outcome_bind]. rewrite E3, Eop. cbn [mbind outcome_bind].
  set (st1 := _ <| op_count := _ |>). destruct (Z.land (op_count st1) 15 =? 0).
  - destruct (save_ok sl (store st) Hsl Hsy) as (d' & Esave & H1 & H2 & H3).
    change (slots st1) with sl. change (store st1) with (store st). rewrite Esave. cbn [mbind outcome_bind].
    eexists. split; [done |]. split; [by split |]. split; [| done]. intros p. cbn. by rewrite H3.
  - eexists. split; [done |]. by split; [split |].
Qed.

(** ** Saving and loading *)

(** The twelve bytes a table entry has for a name. *)
Definition field (s : FileSlot) : list Z :=
  take 12 (own_path s) ++ replicate (12 - Z.to_nat (path_len s)) 0.

(** An entry of the file table. *)
Definition entry (s : FileSlot) : list Z :=
  if used s then [path_len s; data_len s; disk_sector s; 0] ++ field s else replicate 16 0.

(** A name whose bytes behind the twelfth leave the next entry as it is: at most
    twelve bytes, or twelve and a zero. *)
Definition name_ok (s : FileSlot) : Prop :=
  1 <= path_len s <= 12 ∨ path_len s = 13 ∧ path s !! 12%nat = Some 0.

(** The names that fit: a thirteenth zero byte is shared with the entry of the
    next slot, which has to be free. *)
Definition names_fit (sl : list FileSlot) : Prop :=
  ∀ n s, sl !! n = Some s → used s = true →
    name_ok s ∧ (path_len s = 13 → ∀ t, sl !! S n = Some t → used t = false).

Lemma length_own_path s : slot_ok s → length (own_path s) = Z.to_nat (path_len s).
Proof. intros [H1 H2 _ _]. unfold own_path. rewrite length_take. unfold MAX_PATH in *. lia. Qed.

Lemma length_entry s : slot_ok s → length (entry s) = 16%nat.
Proof.
  intros H. unfold entry, field. destruct (used s) eqn:E; [| done].
  rewrite !length_app, length_take, length_own_path, length_replicate by done. destruct H as [_ H2 _ _]. cbn [length].
  lia.
Qed.

Lemma length_entries sl : Forall slot_ok sl → length (mjoin (entry <$> sl)) = (16 * length sl)%nat.
Proof.
  intros H. induction H as [| s sl Hs H IH]; [done |].
  change (mjoin (entry <$> s :: sl)) with (entry s ++ mjoin (entry <$> sl)).
  rewrite length_app, (length_entry s), IH by done. cbn. lia.
Qed.

(** The whole name, when what is behind the entry starts with a zero. *)
Lemma field_name s post : slot_ok s → name_ok s → (path_len s = 13 → post !! 0%nat = Some 0) →
  field s ++ post = own_path s ++ drop (Z.to_nat (path_len s)) (field s ++ post).
Proof.
  intros Hok Hn Hp. pose proof (length_own_path s Hok) as Hl. unfold field. destruct Hn as [Hn | [Hn Hz]].
  - rewrite take_ge, <- !app_assoc by lia. f_equal. rewrite drop_app_ge, Hl, Nat.sub_diag by lia. done.
  - destruct post as [| z post]; [by specialize (Hp Hn) |]. specialize (Hp Hn). injection Hp as ->.
    rewrite Hn. cbn [replicate Nat.sub Z.to_nat]. change (12 - Pos.to_nat 13)%nat with 0%nat. cbn [replicate].
    rewrite app_nil_r. assert (own_path s = take 12 (own_path s) ++ [0]) as E.
    { rewrite <- take_S_r; [by rewrite take_ge by lia |]. unfold own_path. rewrite lookup_take_lt by lia. done. }
    rewrite E at 2. rewrite <- app_assoc. f_equal. cbn [app]. f_equal.
    rewrite drop_app_ge by (rewrite length_take; lia). rewrite length_take, Hl, Hn. done.
Qed.

Lemma save_entry_exact sl i s pre n :
  slots_ok sl → sl !! Z.to_nat i = Some s → 0 <= i → zlen pre = i * 16 → (16 < n)%nat →
  (used s = true → name_ok s) →
  save_entry sl (pre ++ replicate n 0) i = Done (pre ++ entry s ++ replicate (n - 16) 0).
Proof.
  intros H Hs Hi Hpre Hn Hp. unfold save_entry.
  rewrite (proj2 (aget_lookup _ _ s)) by done. cbn [mbind outcome_bind]. unfold entry.
  destruct (used s) eqn:Hu; cbn [negb].
  2: { rewrite <- replicate_add. do 3 f_equal. lia. }
  specialize (Hp eq_refl). pose proof (slot_at sl _ s H Hs) as Hok. pose proof Hok as [H1 H2 H3 H4].
  assert (path_len s <= 13) as Hp13 by (destruct Hp; lia).
  pose proof (sector_range sl H _ s Hs Hu) as Hr. unfold FILE_DATA_BASE, MAX_PATH, SLOT_SIZE in *.
  rewrite !(wrap_small 8 (path_len s)), (wrap_small 8 (data_len s)), (wrap_small 8 (disk_sector s)) by (unfold fits; lia).
  replace (wrap 8 (Z.shiftr (disk_sector s) 8)) with 0.
  2: { rewrite Z.shiftr_div_pow2 by lia. change (2 ^ 8) with 256. by rewrite Z.div_small by lia. }
  set (hdr := [path_len s; data_len s; disk_sector s; 0]).
  assert (asplice (pre ++ replicate n 0) (i * 16) hdr = Done ((pre ++ hdr) ++ replicate (n - 4) 0)) as ->.
  { rewrite asplice_in_range by (rewrite ?zlen_app; unfold zlen in *; rewrite ?length_replicate; cbn [length hdr]; lia).
    f_equal. rewrite <- Hpre, to_nat_zlen, take_app_length, <- app_assoc. do 2 f_equal.
    replace (Z.to_nat (zlen pre + zlen hdr)) with (length pre + 4)%nat by (unfold zlen; cbn [length hdr]; lia).
    by rewrite drop_app_add, drop_replicate. }
  cbn [mbind outcome_bind].
  rewrite copy_at by (rewrite ?zlen_app; unfold zlen in *; rewrite ?length_replicate; cbn [length hdr]; lia).
  f_equal. replace (Z.to_nat (i * 16 + 4)) with (length (pre ++ hdr)) by (rewrite length_app; unfold zlen in *; cbn [length hdr]; lia).
  rewrite take_app_length, <- !app_assoc. do 2 f_equal. fold (own_path s).
  replace (Z.to_nat (i * 16 + 4 + path_len s)) with (length (pre ++ hdr) + Z.to_nat (path_len s))%nat
    by (rewrite length_app; unfold zlen in *; cbn [length hdr]; lia).
  rewrite (app_assoc pre hdr), drop_app_add, drop_replicate.
  rewrite (field_name s) by (done || (intros _; by apply lookup_replicate_2; lia)). f_equal. unfold field.
  rewrite <- app_assoc, <- replicate_add, drop_app, drop_replicate, length_take, length_own_path by done.
  rewrite drop_ge by (rewrite length_take, length_own_path by done; lia). cbn [app]. f_equal. lia.
Qed.

Lemma entry_split sl i s : sl !! i = Some s →
  mjoin (entry <$> sl) = mjoin (entry <$> take i sl) ++ entry s ++ mjoin (entry <$> drop (S i) sl).
Proof.
  intros Hs. rewrite <- (take_drop_middle sl i s Hs) at 1. rewrite fmap_app, join_app. done.
Qed.

Lemma table_exact sl : slots_ok sl → names_fit sl →
  for_each (save_entry sl) (replicate 512 0) (zseq 0 MAX_FILES) = Done (mjoin (entry <$> sl) ++ replicate 256 0).
Proof.
  intros H Hn. pose proof (table_size sl H) as Hz. unfold zlen, MAX_FILES in Hz.
  assert (∀ k, Forall slot_ok (take k sl)) as Hok by (intros; apply Forall_take, H).
  destruct (for_each_inv (λ i ft, ft = mjoin (entry <$> take (Z.to_nat i) sl) ++ replicate (512 - Z.to_nat (16 * i)) 0)
    (save_entry sl) 0 MAX_FILES (replicate 512 0)) as (ft & -> & ->); [done | done | |].
  - intros i ft Hi ->. unfold MAX_FILES in Hi.
    destruct (lookup_lt_is_Some_2 sl (Z.to_nat i)) as [s Hs]; [lia |].
    rewrite (save_entry_exact sl i s); try done.
    + eexists. split; [done |]. replace (Z.to_nat (i + 1)) with (S (Z.to_nat i)) by lia.
      rewrite (take_S_r _ _ s) by done. rewrite fmap_app, join_app, <- app_assoc. f_equal.
      change (mjoin (entry <$> [s])) with (entry s ++ []). rewrite app_nil_r. do 2 f_equal. lia.
    + lia.
    + unfold zlen. rewrite length_entries, length_take by done. lia.
    + lia.
    + intros Hu. by apply (Hn (Z.to_nat i)).
  - rewrite take_ge by (unfold MAX_FILES; cbn; lia). done.
Qed.

(** The slot that loading makes of a saved one. *)
Definition loaded (s : FileSlot) : FileSlot :=
  if used s then
    MkSlot (own_path s ++ replicate (32 - Z.to_nat (path_len s)) 0) (path_len s)
      (bytes_of s ++ replicate (64 - Z.to_nat (data_len s)) 0) (data_len s)
      (bool_decide (last (own_path s) = Some 47)) true false (disk_sector s)
  else FileSlot_new.

Lemma aget_middle (pre e post : list Z) i k x :
  zlen pre = i → 0 <= k → e !! Z.to_nat k = Some x → aget (pre ++ e ++ post) (i + k) = Done x.
Proof.
  intros <- Hk Hx. apply aget_lookup. split; [unfold zlen; lia |].
  replace (Z.to_nat (zlen pre + k)) with (length pre + Z.to_nat k)%nat by (unfold zlen; lia).
  rewrite lookup_app_r by lia. replace (length pre + Z.to_nat k - length pre)%nat with (Z.to_nat k) by lia.
  by apply lookup_app_l_Some.
Qed.

Lemma load_entry_exact d pre post sl i s :
  zlen pre = i * 16 → 0 <= i → sl !! Z.to_nat i = Some FileSlot_new → slot_ok s →
  (used s = true → name_ok s ∧ (path_len s = 13 → post !! 0%nat = Some 0) ∧ FILE_DATA_BASE <= disk_sector s < 128 ∧
     take 64 (sector_at d (disk_sector s)) = data s) →
  broken d = false →
  load_entry d (pre ++ entry s ++ post) sl i = Done (<[Z.to_nat i := loaded s]> sl).
Proof.
  intros Hpre Hi Hs Hok Hu Hb. unfold load_entry. apply lookup_lt_Some in Hs as Hlt.
  unfold entry, loaded. destruct (used s) eqn:E.
  2: { rewrite <- (Z.add_0_r (i * 16)), (aget_middle _ _ _ _ 0 0) by done. cbn.
       by rewrite list_insert_id. }
  destruct (Hu eq_refl) as (Hnm & Hz & Hsec & Hdat). clear Hu. pose proof Hok as [H1 H2 H3 H4].
  assert (1 <= path_len s <= 13) as Hp by (destruct Hnm; lia).
  unfold FILE_DATA_BASE, MAX_PATH, SLOT_SIZE in *.
  pose proof (length_own_path s Hok) as Hlo.
  set (hdr := [path_len s; data_len s; disk_sector s; 0]). rewrite <- app_assoc.
  rewrite (field_name s post) by done. set (rest := own_path s ++ _).
  replace (i * 16) with (i * 16 + 0) at 1 by lia.
  rewrite (aget_middle pre hdr rest (i * 16) 0 (path_len s)) by done. cbn [mbind outcome_bind].
  replace ((path_len s =? 0) || (32 <? path_len s)) with false by lia.
  rewrite (aget_middle pre hdr rest (i * 16) 1 (data_len s)) by done. cbn [mbind outcome_bind].
  rewrite (aget_middle pre hdr rest (i * 16) 2 (disk_sector s)) by done. cbn [mbind outcome_bind].
  rewrite (aget_middle pre hdr rest (i * 16) 3 0) by done. cbn [mbind outcome_bind].
  rewrite Z.shiftl_0_l, Z.lor_0_r. rewrite (proj2 (aget_lookup _ _ FileSlot_new)) by done. cbn [mbind outcome_bind].
  rewrite (app_assoc pre hdr). unfold rest.
  rewrite message_slice by (rewrite ?zlen_app; unfold zlen in *; rewrite ?Hlo; cbn [length hdr]; lia).
  cbn [mbind outcome_bind].
  assert (asplice (path FileSlot_new) 0 (own_path s) = Done (own_path s ++ replicate (32 - Z.to_nat (path_len s)) 0)) as ->.
  { rewrite asplice_in_range by (unfold zlen; rewrite ?Hlo; cbn; lia). f_equal.
    change (take (Z.to_nat 0) (path FileSlot_new)) with (@nil Z). cbn [app]. f_equal.
    change (path FileSlot_new) with (replicate 32 0). rewrite drop_replicate. f_equal. unfold zlen. lia. }
  cbn [mbind outcome_bind].
  destruct (lookup_lt_is_Some_2 (own_path s) (Z.to_nat (path_len s - 1))) as [x Hx]; [lia |].
  rewrite (proj2 (aget_lookup _ _ x)) by (split; [lia |]; by apply lookup_app_l_Some). cbn [mbind outcome_bind].
  assert (last (own_path s) = Some x) as Hlast.
  { rewrite last_lookup, Hlo. rewrite <- Hx. f_equal. lia. }
  rewrite Hlast. replace (bool_decide (Some x = Some 47)) with (x =? 47)
    by (destruct (x =? 47) eqn:Ex; bools; symmetry; [by apply bool_decide_eq_true; f_equal | apply bool_decide_eq_false; congruence]).
  assert (length (bytes_of s) = Z.to_nat (data_len s)) as Hlb by (unfold bytes_of; rewrite length_take; lia).
  destruct ((0 <? data_len s) && (0 <? disk_sector s)) eqn:Ed; bools.
  - unfold disk_read. rewrite Hb. assert (64 <= length (sector_at d (disk_sector s)))%nat as Hls.
    { apply (f_equal length) in Hdat. rewrite length_take in Hdat. lia. }
    rewrite copy_prefix by (unfold zlen; cbn; lia). cbn [mbind outcome_bind].
    rewrite aset_in_range by (unfold zlen; lia). do 2 f_equal. cbn. rewrite Z.min_l by lia. do 2 f_equal.
    + unfold bytes_of. rewrite <- Hdat, take_take. f_equal. lia.
    + etrans; [| apply drop_replicate]. done.
  - cbn [mbind outcome_bind]. rewrite aset_in_range by (unfold zlen; lia). do 2 f_equal.
    assert (data_len s = 0) as Hd0 by (destruct (0 <? data_len s) eqn:E1; cbn in Ed; bools; lia).
    unfold bytes_of. rewrite Hd0. done.
Qed.

Lemma loaded_same sl s p : slots_ok sl → s ∈ sl →
  matches p (loaded s) = matches p s ∧ (used s = true → bytes_of (loaded s) = bytes_of s).
Proof.
  intros H Hs. apply list_elem_of_lookup in Hs as [n Hn]. pose proof (slot_at sl n s H Hn) as Hok.
  pose proof (length_own_path s Hok) as Hlo. destruct Hok as [H1 H2 H3 H4].
  unfold loaded. destruct (used s) eqn:E; [| unfold matches; by rewrite E]. split.
  - unfold matches. rewrite E. cbn. destruct (path_len s =? zlen p) eqn:Ep; [| done]. bools. cbn.
    apply bool_decide_ext. rewrite take_app_le, take_ge by (unfold zlen in *; lia).
    unfold own_path. by rewrite Ep, to_nat_zlen.
  - intros _. unfold bytes_of at 1. cbn. unfold SLOT_SIZE in *.
    rewrite take_app_le, take_ge; [done | |]; unfold bytes_of; rewrite length_take; lia.
Qed.

Lemma superblock_magic sl : take 8 (take 512 (superblock sl) ++ replicate (512 - length (superblock sl)) 0) = magic.
Proof. done. Qed.

(** Behind the last used entry, and behind one whose successor is free, the table
    goes on with a zero. *)
Lemma zero_behind sl k : (∀ t, sl !! S k = Some t → used t = false) →
  (mjoin (entry <$> drop (S k) sl) ++ replicate 256 0) !! 0%nat = Some 0.
Proof.
  intros Hn. destruct (sl !! S k) as [t |] eqn:E.
  - rewrite (drop_S sl t) by done.
    change (mjoin (entry <$> t :: ?l)) with (entry t ++ mjoin (entry <$> l)).
    unfold entry at 1. by rewrite (Hn t eq_refl).
  - rewrite drop_ge by (by apply lookup_ge_None). done.
Qed.

Lemma load_table d sl : slots_ok sl → names_fit sl → broken d = false →
  (∀ n s, sl !! n = Some s → used s = true → take 64 (sector_at d (disk_sector s)) = data s) →
  for_each (load_entry d (mjoin (entry <$> sl) ++ replicate 256 0)) (replicate 16 FileSlot_new) (zseq 0 MAX_FILES) =
  Done (loaded <$> sl).
Proof.
  intros H Hn Hb Hdat. pose proof (table_size sl H) as Hz. unfold zlen, MAX_FILES in Hz.
  destruct (for_each_inv (λ i l, l = (loaded <$> take (Z.to_nat i) sl) ++ replicate (16 - Z.to_nat i) FileSlot_new)
    (load_entry d (mjoin (entry <$> sl) ++ replicate 256 0)) 0 MAX_FILES (replicate 16 FileSlot_new))
    as (l & -> & ->); [done | done | |].
  - intros i l Hi ->. unfold MAX_FILES in Hi. set (k := Z.to_nat i).
    destruct (lookup_lt_is_Some_2 sl k) as [s Hs]; [lia |].
    assert (length (loaded <$> take k sl) = k) as Hlk by (rewrite length_fmap, length_take; lia).
    replace (16 - k)%nat with (S (15 - k)) by lia. cbn [replicate].
    rewrite (entry_split sl k s Hs), <- !app_assoc. rewrite (load_entry_exact d _ _ _ i s).
    + fold k. rewrite insert_middle by done. eexists. split; [done |].
      replace (Z.to_nat (i + 1)) with (S k) by lia. rewrite (take_S_r _ _ s) by done.
      by rewrite fmap_app, <- app_assoc.
    + unfold zlen. rewrite length_entries, length_take; [lia | apply Forall_take, H].
    + lia.
    + fold k. by apply list_lookup_middle.
    + by apply (slot_at sl k).
    + intros Hu. destruct (Hn k s Hs Hu) as [Hnm Hnx]. split; [done |].
      split; [intros H13; apply zero_behind; by apply Hnx |]. split; [by apply (sector_range sl H k) | by apply (Hdat k)].
    + done.
  - rewrite take_ge by (unfold MAX_FILES; cbn; lia). cbn. by rewrite app_nil_r.
Qed.

(** C35. What the service saves it loads.  In every state the service can be in,
    with a working disk and names that fit their table entry (1 to 12 bytes, or 12 and
    a zero in front of a free slot, as the table made at boot has them), saving
    returns, and a service that starts with empty slots from that disk has exactly
    the same files with the same contents. *)
Theorem save_load sl d :
  slots_ok sl → synced sl d → names_fit sl → broken d = false →
  ∃ sl' d' sl2, save_to_disk sl d = Done (sl', d') ∧
    load_from_disk d' (replicate 16 FileSlot_new) = Done (sl2, true) ∧
    ∀ p, content sl2 p = content sl p ∧ content sl' p = content sl p.
Proof.
  intros H Hsync Hn Hb. destruct (save_flushes sl d H Hsync) as (ft & d' & Eft & Hlft & Es & [_ F2 F3 F4 F5]).
  cbn [fst snd] in *. rewrite (table_exact sl H Hn) in Eft. injection Eft as <-.
  rewrite !disk_write_broken in F2. exists (clean <$> sl), d', (loaded <$> sl). split; [done |]. split.
  - unfold load_from_disk, disk_read. rewrite F2, Hb, !F4 by (unfold FILE_DATA_BASE; lia).
    unfold disk_write. rewrite Hb. cbn [broken sector_at Z.eqb Pos.eqb].
    rewrite superblock_magic, bool_decide_true by done. cbn [negb].
    rewrite take_ge, Hlft, Nat.sub_diag, app_nil_r by lia.
    rewrite load_table; [done | done | done | congruence |]. intros n s Hs Hu.
    apply (F5 ltac:(by rewrite !disk_write_broken) n s Hs Hu). left. pose proof (table_size sl H) as Hz.
    apply lookup_lt_Some in Hs. unfold zlen, MAX_FILES in Hz. lia.
  - intros p. split; apply content_fmap; intros s Hs; [by apply (loaded_same sl) |].
    unfold clean. destruct (used s) eqn:E1; [| done]. by destruct s.
Qed.

(** ** Where the service is not a map *)

Lemma find_or_make_done sl p : slots_ok sl → zlen p <= MAX_PATH →
  ∃ sl1 i, find_or_make sl p = Done (sl1, Z.of_nat i) ∧ (i < length sl1)%nat ∧ slots_ok sl1.
Proof.
  intros H Hp. destruct (decide (Exists (λ s, used s = false) sl)) as [Hex | Hall].
  - apply Exists_exists in Hex as (s & Hs & Hu). apply list_elem_of_lookup in Hs as [n Hn].
    destruct (find_or_make_spec sl p H Hp) as (sl1 & i & s1 & E & H1 & Hs1 & _); [right; eauto |].
    exists sl1, i. split; [done |]. split; [by eapply lookup_lt_Some | done].
  - unfold find_or_make. destruct (find_slot sl p) as [k |] eqn:Ek.
    + apply find_slot_some in Ek as (Hk & s & Hs & _). exists sl, (Z.to_nat k).
      rewrite Z2Nat.id by done. split; [done |]. split; [by eapply lookup_lt_Some | done].
    + exists sl, 0%nat. rewrite make_slot_full.
      * split; [done |]. split; [| done]. pose proof (table_size sl H). unfold zlen, MAX_FILES in *. lia.
      * intros n s Hs. destruct (used s) eqn:E; [done |]. exfalso. apply Hall, Exists_exists.
        exists s. split; [by eapply list_elem_of_lookup_2 | done].
Qed.

(** A write or an append whose length byte announces more data than the
    message has room for stops the service, in every state: the data is replaced by
    an empty slice, and the copy indexes it. *)
Theorem long_write_panics info st lo hi p n rest op :
  fs_inv st → zlen p <= MAX_PATH → 60 - zlen p < n <= 255 → op = 3 ∨ op = 4 ∧ content (slots st) p = Some [] →
  length ([lo; hi; zlen p] ++ p ++ n :: rest) = 64%nat →
  serve info st op ([lo; hi; zlen p] ++ p ++ n :: rest) = Panic.
Proof.
  intros [H _] Hp Hn Hop Hl. set (buf := _ ++ _). unfold serve.
  change (aget buf 0) with (Done lo). change (aget buf 1) with (Done hi). cbn [mbind outcome_bind].
  assert (message_path buf = Done p) as ->.
  { unfold message_path. change (aget buf 2) with (Done (zlen p)). cbn [mbind outcome_bind].
    rewrite Z.min_l by done. by apply (message_slice [lo; hi; zlen p]). }
  cbn [mbind outcome_bind].
  assert (message_data buf p = Done (Z.min n 64, [])) as Hmsg.
  { unfold message_data, SLOT_SIZE, MAX_PATH in *. destruct (3 + zlen p <? 64) eqn:E; bools; [| lia].
    assert (buf = ([lo; hi; zlen p] ++ p) ++ n :: rest) as -> by (unfold buf; by rewrite <- app_assoc).
    rewrite message_lookup by (by rewrite zlen_app). cbn [mbind outcome_bind].
    destruct (3 + zlen p + 1 + Z.min n 64 <=? 64) eqn:E2; bools; [unfold zlen in *; lia | done]. }
  assert (1 <= Z.min n 64) as Hpos by (unfold zlen, MAX_PATH in *; lia).
  assert (∀ dst at_ k, 1 <= k → copy_bytes dst at_ [] k = Panic) as Hcopy.
  { intros dst at_ k Hk. unfold copy_bytes. destruct (k <=? 0) eqn:E; bools; [lia |].
    unfold aslice. replace (k <=? zlen (@nil Z)) with false by (change (zlen (@nil Z)) with 0; lia). by rewrite andb_false_r. }
  destruct Hop as [-> | [-> Hc]].
  - unfold op_write. rewrite Hmsg. cbn [mbind outcome_bind].
    destruct (find_or_make_done (slots st) p H Hp) as (sl1 & i & -> & Hi & H1). cbn [mbind outcome_bind].
    destruct (aget_in_range sl1 (Z.of_nat i)) as [s ->]; [unfold zlen; lia |]. cbn [mbind outcome_bind].
    by rewrite Hcopy.
  - unfold op_append. rewrite Hmsg. cbn [mbind outcome_bind].
    destruct (find_or_make_spec (slots st) p H Hp) as (sl1 & i & s & -> & H1 & Hs & Hms & _ & Hsame & _);
      [left; by rewrite Hc |].
    rewrite Hsame in * by (by rewrite Hc). rewrite (content_at _ p i s) in Hc by done.
    cbn [mbind outcome_bind]. rewrite (proj2 (aget_lookup _ _ s)) by (split; [lia | by rewrite Nat2Z.id]).
    cbn [mbind outcome_bind]. pose proof (slot_at _ i s H Hs) as [_ _ Hds Hdb]. unfold SLOT_SIZE in *.
    assert (data_len s = 0) as ->.
    { injection Hc as Hc. apply (f_equal length) in Hc. unfold bytes_of in Hc. rewrite length_take in Hc. cbn in Hc. lia. }
    rewrite Z.add_0_l, Z.sub_0_r, (wrap_small 64 (Z.min n 64)) by (unfold fits; lia).
    rewrite wrap_small by (unfold fits; lia). by rewrite Hcopy by lia.
Qed.

(** When all sixteen slots are in use, writing a new file replaces the
    contents of the first one and reports success; the new file does not exist. *)
Theorem full_table_overwrites st ep buf p d s0 :
  fs_inv st → zlen p <= MAX_PATH → zlen d <= SLOT_SIZE → message_data buf p = Done (zlen d, d) →
  (∀ n s, slots st !! n = Some s → used s = true) → content (slots st) p = None →
  slots st !! 0%nat = Some s0 →
  ∃ sl, op_write st ep buf p = Done (reply (st <| slots := sl |>) ep OK) ∧
    content sl p = None ∧ content sl (own_path s0) = Some d.
Proof.
  intros [H Hsync] Hp Hd Hmsg Hfull Hc H0.
  assert (find_slot (slots st) p = None) as Hf.
  { unfold content in Hc. destruct (find_slot (slots st) p) as [k |] eqn:E; [| done].
    apply find_slot_some in E as (_ & s & Hs & _). by rewrite Hs in Hc. }
  pose proof (slot_at _ _ s0 H H0) as Hok. pose proof Hok as [Hps Hpb Hds Hdb].
  pose proof (matches_own s0 Hok (Hfull _ _ H0)) as Hm0.
  unfold op_write, find_or_make. rewrite Hmsg, Hf, make_slot_full by done. cbn [mbind outcome_bind].
  rewrite (proj2 (aget_lookup _ 0 s0)) by done. cbn [mbind outcome_bind].
  rewrite copy_prefix by (unfold zlen, SLOT_SIZE in *; lia). rewrite to_nat_zlen, firstn_all. cbn [mbind outcome_bind].
  apply lookup_lt_Some in H0 as Hlt. rewrite aset_in_range by (unfold zlen; lia).
  eexists. split; [done |]. change (Z.to_nat 0) with 0%nat.
  set (s' := s0 <| data_len := _ |> <| data := _ |> <| dirty := _ |>).
  assert (slot_ok s') as Hok'.
  { split; cbn; try done; [rewrite length_app, length_drop |]; unfold zlen, SLOT_SIZE in *; lia. }
  assert (slots_ok (<[0%nat := s']> (slots st))) as H1 by (by apply (slots_ok_update _ 0 s0)).
  assert (∀ q, matches q s' = matches q s0) as Hms by done. split.
  - rewrite (content_update _ 0 s0) by done. rewrite Hms.
    by rewrite (find_slot_none _ p Hf 0%nat s0).
  - rewrite (content_update _ 0 s0) by done. rewrite Hms, Hm0. unfold bytes_of. cbn.
    by rewrite to_nat_zlen, take_app_length.
Qed.

(** A file that an append creates starts with what the last file in its slot
    held: neither deleting a file nor making a new one clears its data. *)
Theorem append_after_delete st ep buf p d i s :
  fs_inv st → zlen p <= MAX_PATH → zlen d <= SLOT_SIZE → message_data buf p = Done (zlen d, d) →
  content (slots st) p = None → index_where (λ s, negb (used s)) (slots st) 0 = Some i →
  slots st !! Z.to_nat i = Some s →
  ∃ sl, op_append st ep buf p = Done (reply (st <| slots := sl |>) ep OK) ∧
    content sl p = Some (take 64 (bytes_of s ++ d)).
Proof.
  intros [H Hsync] Hp Hd Hmsg Hc Hidx Hs.
  assert (find_slot (slots st) p = None) as Hf.
  { unfold content in Hc. destruct (find_slot (slots st) p) as [k |] eqn:E; [| done].
    apply find_slot_some in E as (_ & t & Ht & _). by rewrite Ht in Hc. }
  pose proof (index_where_spec (λ s, negb (used s)) (slots st) 0) as Hix. rewrite Hidx, Z.sub_0_r in Hix.
  destruct Hix as (Hi & t & Ht & Hu). assert (t = s) as -> by congruence. apply negb_true_iff in Hu.
  destruct (make_slot_at (slots st) p false i s) as (sec & Em & H1); try done; [by apply find_slot_none |].
  set (s1 := filled s p false sec) in *. apply lookup_lt_Some in Hs as Hlt.
  assert (<[Z.to_nat i := s1]> (slots st) !! Z.to_nat i = Some s1) as Hs1 by (by apply list_lookup_insert_eq).
  destruct (append_result st ep buf p d (<[Z.to_nat i := s1]> (slots st)) (Z.to_nat i) s1 Hmsg Hd) as (dl & nd & Hl & Hb & Htk & ->); try done.
  { unfold find_or_make. by rewrite Hf, Em, Z2Nat.id. }
  eexists. split; [done |]. change (bytes_of s1) with (bytes_of s) in Htk.
  set (s2 := s1 <| data_len := _ |> <| data := _ |> <| dirty := _ |>).
  assert (slots_ok (<[Z.to_nat i := s2]> (<[Z.to_nat i := s1]> (slots st)))) as H2.
  { apply (slots_ok_update _ (Z.to_nat i) s1); try done. destruct (slot_at _ (Z.to_nat i) s1 H1 Hs1). by split. }
  rewrite (content_update _ (Z.to_nat i) s1) by done. change (matches p s2) with (matches p s1).
  unfold s1 at 1. rewrite filled_matches, bool_decide_true by done. f_equal. exact Htk.
Qed.

(** A file whose path has fewer than five bytes can be written but never read:
    a read of it is answered as if it did not exist. *)
Theorem short_paths_unreadable info st ep p : zlen p < 5 → op_read info st ep p = Done (reply st ep ENOENT).
Proof. intros Hp. unfold op_read. by replace (5 <=? zlen p) with false by lia. Qed.

(** ** Witnesses *)

Definition ex_disk : disk := MkDisk false (λ _, replicate 512 0).
Definition ex_service : service := MkService (replicate 16 FileSlot_new) ex_disk 0 [].
Definition ex_info : sysinfo := MkInfo 1 2 (3, 4, 5) ([], 0) 6.

Lemma empty_ok : slots_ok (replicate 16 FileSlot_new).
Proof.
  assert (∀ n s, replicate 16 FileSlot_new !! n = Some s → s = FileSlot_new) as Hn
    by (intros n s Hs; by apply lookup_replicate in Hs as [-> _]).
  split; [done | by apply Forall_replicate | | |].
  - intros i j s t p Hs Ht Hm. apply Hn in Hs as ->. done.
  - intros i s Hs Hu. apply Hn in Hs as ->. done.
  - intros i j s t Hs Ht Hm. apply Hn in Hs as ->. done.
Qed.

Lemma ex_fs_inv : fs_inv ex_service.
Proof.
  split; [apply empty_ok |]. split; [done |].
  intros _ n s Hs. apply lookup_replicate in Hs as [-> _]. done.
Qed.

Lemma ex_represents : represents (slots ex_service) (∅ : files).
Proof.
  intros p. rewrite lookup_empty. apply content_absent. intros n s Hs.
  apply lookup_replicate in Hs as [-> _]. done.
Qed.

Definition ex_path : list Z := str "/data".
Definition ex_buf : list Z := [7; 0; 5] ++ ex_path ++ [3; 1; 2; 3] ++ replicate 52 0.

Lemma fs_refines_map_witness :
  ∃ st', serve ex_info ex_service 3 ex_buf = Done st' ∧ content (slots st') ex_path = Some [1; 2; 3].
Proof.
  destruct (fs_refines_map ex_info ex_service ∅ (Write ex_path [1; 2; 3]) 7 ex_buf ex_fs_inv ex_represents)
    as (st' & E & _ & Hr & _).
  - split; [lia |]. split; [done |]. split; [done |]. by exists (replicate 52 0).
  - right. rewrite map_size_empty. lia.
  - exists st'. split; [done |]. rewrite Hr. apply lookup_insert_eq.
Defined.

(** The table the service makes when it starts on an empty disk. *)
Definition boot_slots : list FileSlot :=
  match start ex_disk with Done st => slots st | _ => [] end.

Lemma make_slot_keeps sl p dir sl' i : slots_ok sl → make_slot sl p dir = Done (sl', i) →
  (zlen p <=? MAX_PATH) && forallb (λ t, negb (matches p t)) sl && existsb (λ t, negb (used t)) sl = true →
  slots_ok sl'.
Proof.
  intros H E [[Hp Hf]%andb_prop Hx]%andb_prop. bools. apply existsb_exists in Hx as (t & Ht & Hu).
  apply list_elem_of_In, list_elem_of_lookup in Ht as [n Hn]. apply negb_true_iff in Hu.
  destruct (make_slot_spec sl p dir n t) as (k & s & sec & _ & _ & E' & Hok); try done; [| rewrite E in E'; by injection E' as -> _].
  intros m u Hm. apply negb_true_iff. rewrite forallb_forall in Hf. apply Hf.
  by eapply list_elem_of_In, list_elem_of_lookup_2.
Qed.

Lemma boot_slots_ok : slots_ok boot_slots.
Proof.
  pose proof (make_slot_keeps (replicate 16 FileSlot_new) (str "/" ++ [0]) true _ _ empty_ok eq_refl eq_refl) as H1.
  pose proof (make_slot_keeps _ (str "/proc" ++ [0]) true _ _ H1 eq_refl eq_refl) as H2.
  pose proof (make_slot_keeps _ (str "/home" ++ [0]) true _ _ H2 eq_refl eq_refl) as H3.
  pose proof (make_slot_keeps _ (str "/etc" ++ [0]) true _ _ H3 eq_refl eq_refl) as H4.
  pose proof (make_slot_keeps _ (str "/tmp" ++ [0]) true _ _ H4 eq_refl eq_refl) as H5.
  pose proof (make_slot_keeps _ (str "/welcome.txt" ++ [0]) false _ _ H5 eq_refl eq_refl) as H6.
  clear - H6. vm_compute in H6.
  pose proof (slots_ok_update _ 5 _ (default FileSlot_new (boot_slots !! 5%nat)) H6 eq_refl) as H7.
  vm_compute in H7. vm_compute.
  apply H7; repeat split; vm_compute; congruence.
Qed.

Lemma boot_names_fit : names_fit boot_slots.
Proof.
  intros n s Hs Hu. do 6 (destruct n as [| n]; [vm_compute in Hs; injection Hs as <-;
    split; [vm_compute; (left; split; congruence) || by right | intros H13 t Ht; vm_compute in H13, Ht; first [congruence | by injection Ht as <-]] |]).
  change (replicate 10 FileSlot_new !! n = Some s) in Hs. by apply lookup_replicate in Hs as [-> _].
Qed.

(** The welcome file made at boot, with its thirteen-byte name, comes back. *)
Lemma save_load_witness :
  ∃ sl' d' sl2, save_to_disk boot_slots ex_disk = Done (sl', d') ∧
    load_from_disk d' (replicate 16 FileSlot_new) = Done (sl2, true) ∧
    content sl2 (str "/welcome.txt" ++ [0]) = Some welcome.
Proof.
  destruct (save_load boot_slots ex_disk boot_slots_ok) as (sl' & d' & sl2 & H1 & H2 & H3);
    [| apply boot_names_fit | done |].
  - split; [done |]. intros _ n s Hs Hu Hd. exfalso.
    do 6 (destruct n as [| n]; [vm_compute in Hs; by injection Hs as <- |]).
    change (replicate 10 FileSlot_new !! n = Some s) in Hs. by apply lookup_replicate in Hs as [-> _].
  - exists sl', d', sl2. split; [done |]. split; [done |]. by rewrite (proj1 (H3 _)).
Defined.

Lemma long_write_panics_witness :
  serve ex_info ex_service 3 ([7; 0; 5] ++ ex_path ++ 56 :: replicate 55 0) = Panic.
Proof. apply (long_write_panics ex_info ex_service 7 0 ex_path 56 (replicate 55 0) 3 ex_fs_inv); [done | done | by left | done]. Defined.

(** All slots in use. *)
Definition ex_full : list FileSlot :=
  (λ i, FileSlot_new <| used := true |> <| path_len := 1 |> <| path := (100 + i) :: replicate 31 0 |>
          <| disk_sector := 16 + i |>) <$> zseq 0 16.

Lemma ex_full_ok : slots_ok ex_full.
Proof.
  assert (∀ n s, ex_full !! n = Some s → 0 <= Z.of_nat n < 16 ∧
    s = FileSlot_new <| used := true |> <| path_len := 1 |> <| path := (100 + Z.of_nat n) :: replicate 31 0 |>
          <| disk_sector := 16 + Z.of_nat n |>) as Hn.
  { intros n s Hs. unfold ex_full in Hs. apply list_lookup_fmap_Some in Hs as (x & -> & Hx).
    unfold zseq in Hx. apply list_lookup_fmap_Some in Hx as (k & -> & Hk). apply lookup_seq in Hk as [-> Hk].
    cbn in Hk. split; [lia | done]. }
  split; [done | | | |].
  - apply Forall_lookup. intros n s [_ ->]%Hn. split; cbn; unfold MAX_PATH, SLOT_SIZE; lia || done.
  - intros i j s t p [_ ->]%Hn [_ ->]%Hn (_ & _ & Hp)%matches_spec (_ & Hl & Hq)%matches_spec. cbn in *.
    destruct p as [| x [| y p]]; cbn in *; try (unfold zlen in Hl; cbn in Hl; lia). injection Hp. injection Hq. lia.
  - intros i s [Hi ->]%Hn _. cbn. unfold FILE_DATA_BASE. lia.
  - intros i j s t [_ ->]%Hn [_ ->]%Hn _ _. cbn. lia.
Qed.

Definition ex_full_service : service := MkService ex_full (MkDisk true (λ _, replicate 512 0)) 0 [].
Lemma ex_full_inv : fs_inv ex_full_service.
Proof. split; [apply ex_full_ok |]. done. Qed.

Lemma full_table_overwrites_witness :
  ∃ sl, op_write ex_full_service 7 ex_buf ex_path = Done (reply (ex_full_service <| slots := sl |>) 7 OK) ∧
    content sl ex_path = None ∧ content sl [100] = Some [1; 2; 3].
Proof.
  destruct (full_table_overwrites ex_full_service 7 ex_buf ex_path [1; 2; 3]
    (FileSlot_new <| used := true |> <| path_len := 1 |> <| path := 100 :: replicate 31 0 |> <| disk_sector := 16 |>)
    ex_full_inv) as (sl & H1 & H2 & H3); try done.
  - intros n s Hs. cbn in Hs. apply list_lookup_fmap_Some in Hs as (x & -> & _). done.
  - by exists sl.
Defined.

(** The first slot held a file that was deleted. *)
Definition ex_stale : FileSlot := FileSlot_new <| data_len := 2 |> <| data := [8; 9] ++ replicate 62 0 |>.
Definition ex_deleted : service := ex_service <| slots := <[0%nat := ex_stale]> (slots ex_service) |>.
Lemma ex_deleted_inv : fs_inv ex_deleted.
Proof.
  split.
  - apply (slots_ok_update _ 0 FileSlot_new); [apply empty_ok | done | split; cbn; unfold MAX_PATH, SLOT_SIZE; lia || done | done].
  - split; [done |]. intros _ [| n] s Hs Hu; [by injection Hs as <- |].
    assert (replicate 15 FileSlot_new !! n = Some s) as Hs' by done. apply lookup_replicate in Hs' as [-> _]. done.
Qed.

Lemma append_after_delete_witness :
  ∃ sl, op_append ex_deleted 7 ex_buf ex_path = Done (reply (ex_deleted <| slots := sl |>) 7 OK) ∧
    content sl ex_path = Some [8; 9; 1; 2; 3].
Proof. apply (append_after_delete ex_deleted 7 ex_buf ex_path [1; 2; 3] 0 ex_stale ex_deleted_inv); done. Defined.

Lemma short_paths_unreadable_witness :
  op_read ex_info ex_service 7 (str "/tmp") = Done (reply ex_service 7 ENOENT).
Proof. apply (short_paths_unreadable ex_info ex_service 7 (str "/tmp")). done. Defined.
End Fs.
