(* ===== verification/Wire.v ===== *)
(** * The wire format between nodes

    distributed/protocol.rs: packets with a two-byte magic number and
    little-endian fields.  A writer takes the buffer it fills and returns it with
    the number of bytes written, or with [None] and the buffer as it was; a
    parser takes the bytes received.

    [wire_roundtrip] states that each of the eight kinds of packet with a fixed
    layout is read back by its own parser and refused by all others, also when
    bytes follow, and that no parser accepts a packet cut short.
    [proclist_roundtrip] is the same for the list of processes, whose names are
    cut at 48 bytes. *)
From S2P Require Import Prelude.
Open Scope list_scope.

Module Wire.

Definition MAGIC_PING : Z := 0xD1A0.
Definition MAGIC_PONG : Z := 0xD1A1.
Definition MAGIC_DATA : Z := 0xD1A2.
Definition MAGIC_CAP : Z := 0xD1A3.
Definition MAGIC_MEM_ALLOC_REQ : Z := 0xD1B0.
Definition MAGIC_MEM_ALLOC_RESP : Z := 0xD1B1.
Definition MAGIC_MEM_FREE : Z := 0xD1B2.
Definition MAGIC_PROCLIST_REQ : Z := 0xD1C0.
Definition MAGIC_PROCLIST_RESP : Z := 0xD1C1.
Definition MAX_WIRE_PAYLOAD : Z := 59.

(** [buf[0..n]] assigned byte by byte, after the check that it has [n] bytes. *)
Definition fill (buf bytes : list Z) : list Z := bytes ++ drop (length bytes) buf.

(** [uN::from_le_bytes] of [n] bytes at [i], after the check that they are there. *)
Definition le_at (buf : list Z) (i n : nat) : Z := of_le_bytes (take n (drop i buf)).

Definition byte_at (buf : list Z) (i : nat) : Z := default 0 (buf !! i).

Definition bytes_at (buf : list Z) (i : nat) (n : Z) : list Z := take (Z.to_nat n) (drop i buf).

(** ** Node discovery *)

Definition write_ping (buf : list Z) (node_id : Z) : list Z * option Z :=
  if zlen buf <? 6 then (buf, None)
  else (fill buf (le_bytes 2 MAGIC_PING ++ le_bytes 4 node_id), Some 6).

Definition write_pong (buf : list Z) (node_id : Z) : list Z * option Z :=
  if zlen buf <? 6 then (buf, None)
  else (fill buf (le_bytes 2 MAGIC_PONG ++ le_bytes 4 node_id), Some 6).

Definition parse_ping (buf : list Z) : option Z :=
  if zlen buf <? 6 then None
  else if negb (le_at buf 0 2 =? MAGIC_PING) then None
  else Some (le_at buf 2 4).

Definition parse_pong (buf : list Z) : option Z :=
  if zlen buf <? 6 then None
  else if negb (le_at buf 0 2 =? MAGIC_PONG) then None
  else Some (le_at buf 2 4).

(** ** Messages *)

Definition write_data (buf : list Z) (src_node remote_ep : Z) (payload : list Z)
    : list Z * option Z :=
  let plen := zlen payload in
  if MAX_WIRE_PAYLOAD <? plen then (buf, None)
  else
    let total := 6 + plen in
    if zlen buf <? total then (buf, None)
    else (fill buf (le_bytes 2 MAGIC_DATA ++ [src_node] ++ le_bytes 2 remote_ep
                    ++ [u8 plen] ++ payload), Some total).

Definition parse_data (buf : list Z) : option (Z * Z * list Z) :=
  if zlen buf <? 6 then None
  else if negb (le_at buf 0 2 =? MAGIC_DATA) then None
  else
    let plen := byte_at buf 5 in
    if zlen buf <? 6 + plen then None
    else Some (byte_at buf 2, le_at buf 3 2, bytes_at buf 6 plen).

(** ** Capabilities *)

Definition write_cap (buf : list Z) (src_node cap_type rights slot : Z) (resource_data : list Z)
    : list Z * option Z :=
  if zlen buf <? 73 then (buf, None)
  else (fill buf (le_bytes 2 MAGIC_CAP ++ [src_node; cap_type; rights] ++ le_bytes 4 slot
                  ++ resource_data), Some 73).

Definition parse_cap (buf : list Z) : option (Z * Z * Z * Z * list Z) :=
  if zlen buf <? 73 then None
  else if negb (le_at buf 0 2 =? MAGIC_CAP) then None
  else Some (byte_at buf 2, byte_at buf 3, byte_at buf 4, le_at buf 5 4, bytes_at buf 9 64).

(** ** Remote memory *)

Definition write_mem_alloc_req (buf : list Z) (requester num_pages : Z) : list Z * option Z :=
  if zlen buf <? 4 then (buf, None)
  else (fill buf (le_bytes 2 MAGIC_MEM_ALLOC_REQ ++ [requester; num_pages]), Some 4).

Definition parse_mem_alloc_req (buf : list Z) : option (Z * Z) :=
  if zlen buf <? 4 then None
  else if negb (le_at buf 0 2 =? MAGIC_MEM_ALLOC_REQ) then None
  else Some (byte_at buf 2, byte_at buf 3).

Definition write_mem_alloc_resp (buf : list Z) (requester : Z) (handles : list Z)
    : list Z * option Z :=
  let num := zlen handles in
  if 16 <? num then (buf, None)
  else
    let total := 4 + num * 4 in
    if zlen buf <? total then (buf, None)
    else (fill buf (le_bytes 2 MAGIC_MEM_ALLOC_RESP ++ [requester; u8 num]
                    ++ mjoin (le_bytes 4 <$> handles)), Some total).

Definition parse_mem_alloc_resp (buf : list Z) : option (Z * list Z) :=
  if zlen buf <? 4 then None
  else if negb (le_at buf 0 2 =? MAGIC_MEM_ALLOC_RESP) then None
  else
    let num := byte_at buf 3 in
    if zlen buf <? 4 + num * 4 then None
    else Some (byte_at buf 2, bytes_at buf 4 (num * 4)).

Definition write_mem_free (buf : list Z) (requester handle : Z) : list Z * option Z :=
  if zlen buf <? 7 then (buf, None)
  else (fill buf (le_bytes 2 MAGIC_MEM_FREE ++ [requester] ++ le_bytes 4 handle), Some 7).

Definition parse_mem_free (buf : list Z) : option (Z * Z) :=
  if zlen buf <? 7 then None
  else if negb (le_at buf 0 2 =? MAGIC_MEM_FREE) then None
  else Some (byte_at buf 2, le_at buf 3 4).

(** ** Process lists *)

Definition write_proclist_req (buf : list Z) (requester : Z) : list Z * option Z :=
  if zlen buf <? 3 then (buf, None)
  else (fill buf (le_bytes 2 MAGIC_PROCLIST_REQ ++ [requester]), Some 3).

Definition parse_proclist_req (buf : list Z) : option Z :=
  if zlen buf <? 3 then None
  else if negb (le_at buf 0 2 =? MAGIC_PROCLIST_REQ) then None
  else Some (byte_at buf 2).

(** A process to report: pid, state and name. *)
Definition proc_entry (e : Z * Z * list Z) : list Z :=
  let '(pid, state, name) := e in
  let nlen := Z.min (zlen name) 48 in
  le_bytes 4 pid ++ [state; u8 nlen] ++ take (Z.to_nat nlen) name.

(** The loop over the entries; it stops at the first that does not fit. *)
Fixpoint write_entries (buf : list Z) (pos : Z) (entries : list (Z * Z * list Z))
    : outcome (list Z * option Z) :=
  match entries with
  | [] => mret (buf, Some pos)
  | e :: entries' =>
      let entry_size := 6 + Z.min (zlen (snd e)) 48 in
      if zlen buf <? pos + entry_size then mret (buf, None)
      else buf' ← asplice buf pos (proc_entry e); write_entries buf' (pos + entry_size) entries'
  end.

(** The header is written last, whatever the length of the buffer. *)
Definition write_proclist_resp (buf : list Z) (entries : list (Z * Z * list Z))
    : outcome (list Z * option Z) :=
  let count := zlen entries in
  if 64 <? count then mret (buf, None)
  else
    r ← write_entries buf 4 entries;
    match r with
    | (buf', Some pos) =>
        buf'' ← asplice buf' 0 (le_bytes 2 MAGIC_PROCLIST_RESP ++ le_bytes 2 count);
        mret (buf'', Some pos)
    | (buf', None) => mret (buf', None)
    end.

Record RemoteProcEntry : Type := MkProcEntry {
  pid : Z;
  state : Z;
  name : list Z;
  name_len : Z;
}.

Definition parse_entry (buf : list Z) (pos : Z) : option (RemoteProcEntry * Z) :=
  if zlen buf <? pos + 6 then None
  else
    let p := Z.to_nat pos in
    let nlen := byte_at buf (p + 5) in
    if zlen buf <? pos + 6 + nlen then None
    else
      let copy_len := Z.min nlen 48 in
      let nm := bytes_at buf (p + 6) copy_len in
      Some (MkProcEntry (le_at buf p 4) (byte_at buf (p + 4))
              (nm ++ replicate (48 - length nm) 0) copy_len, pos + 6 + nlen).

Fixpoint parse_entries (n : nat) (buf : list Z) (pos : Z) (i : nat) (out : list RemoteProcEntry)
    : list RemoteProcEntry * bool :=
  match n with
  | O => (out, true)
  | S n' =>
      match parse_entry buf pos with
      | None => (out, false)
      | Some (e, pos') => parse_entries n' buf pos' (S i) (<[i := e]> out)
      end
  end.

Definition parse_proclist_resp (buf : list Z) (out : list RemoteProcEntry)
    : list RemoteProcEntry * option Z :=
  if zlen buf <? 4 then (out, None)
  else if negb (le_at buf 0 2 =? MAGIC_PROCLIST_RESP) then (out, None)
  else
    let count := le_at buf 2 2 in
    if zlen out <? count then (out, None)
    else
      let '(out', ok) := parse_entries (Z.to_nat count) buf 4 0 out in
      (out', if ok : bool then Some count else None).

(** ** Packets

    The packets with a fixed layout, their bytes, and the parsers side by side:
    [parse_all] lists what any of them makes of a buffer. *)

Inductive packet : Type :=
| Ping (node_id : Z)
| Pong (node_id : Z)
| Data (src_node remote_ep : Z) (payload : list Z)
| CapTransfer (src_node cap_type rights slot : Z) (resource_data : list Z)
| MemAllocReq (requester num_pages : Z)
| MemAllocResp (requester : Z) (handles : list Z)
| MemFree (requester handle : Z)
| ProclistReq (requester : Z).

Definition packet_ok (p : packet) : Prop :=
  match p with
  | Ping n | Pong n => fits 32 n
  | Data src ep pl => is_byte src ∧ fits 16 ep ∧ Forall is_byte pl ∧ zlen pl <= MAX_WIRE_PAYLOAD
  | CapTransfer src ct r sl d =>
      is_byte src ∧ is_byte ct ∧ is_byte r ∧ fits 32 sl ∧ Forall is_byte d ∧ length d = 64%nat
  | MemAllocReq r n => is_byte r ∧ is_byte n
  | MemAllocResp r hs => is_byte r ∧ Forall (fits 32) hs ∧ zlen hs <= 16
  | MemFree r h => is_byte r ∧ fits 32 h
  | ProclistReq r => is_byte r
  end.

Definition write_packet (buf : list Z) (p : packet) : list Z * option Z :=
  match p with
  | Ping n => write_ping buf n
  | Pong n => write_pong buf n
  | Data src ep pl => write_data buf src ep pl
  | CapTransfer src ct r sl d => write_cap buf src ct r sl d
  | MemAllocReq r n => write_mem_alloc_req buf r n
  | MemAllocResp r hs => write_mem_alloc_resp buf r hs
  | MemFree r h => write_mem_free buf r h
  | ProclistReq r => write_proclist_req buf r
  end.

Definition magic_of (p : packet) : Z :=
  match p with
  | Ping _ => MAGIC_PING
  | Pong _ => MAGIC_PONG
  | Data _ _ _ => MAGIC_DATA
  | CapTransfer _ _ _ _ _ => MAGIC_CAP
  | MemAllocReq _ _ => MAGIC_MEM_ALLOC_REQ
  | MemAllocResp _ _ => MAGIC_MEM_ALLOC_RESP
  | MemFree _ _ => MAGIC_MEM_FREE
  | ProclistReq _ => MAGIC_PROCLIST_REQ
  end.

(** The bytes after the magic number. *)
Definition body (p : packet) : list Z :=
  match p with
  | Ping n | Pong n => le_bytes 4 n
  | Data src ep pl => [src] ++ le_bytes 2 ep ++ [zlen pl] ++ pl
  | CapTransfer src ct r sl d => [src; ct; r] ++ le_bytes 4 sl ++ d
  | MemAllocReq r n => [r; n]
  | MemAllocResp r hs => [r; zlen hs] ++ mjoin (le_bytes 4 <$> hs)
  | MemFree r h => [r] ++ le_bytes 4 h
  | ProclistReq r => [r]
  end.

Definition packet_bytes (p : packet) : list Z := le_bytes 2 (magic_of p) ++ body p.

(** The handles in the bytes that [parse_mem_alloc_resp] returns. *)
Fixpoint handles_of (n : nat) (l : list Z) : list Z :=
  match n with
  | O => []
  | S n' => of_le_bytes (take 4 l) :: handles_of n' (drop 4 l)
  end.

Definition parse_all (buf : list Z) : list packet :=
  option_list (Ping <$> parse_ping buf) ++
  option_list (Pong <$> parse_pong buf) ++
  option_list ((λ '(src, ep, pl), Data src ep pl) <$> parse_data buf) ++
  option_list ((λ '(src, ct, r, sl, d), CapTransfer src ct r sl d) <$> parse_cap buf) ++
  option_list ((λ '(r, n), MemAllocReq r n) <$> parse_mem_alloc_req buf) ++
  option_list ((λ '(r, hs), MemAllocResp r (handles_of (length hs / 4) hs))
                 <$> parse_mem_alloc_resp buf) ++
  option_list ((λ '(r, h), MemFree r h) <$> parse_mem_free buf) ++
  option_list (ProclistReq <$> parse_proclist_req buf).

Definition parse_own (p : packet) (buf : list Z) : list packet :=
  match p with
  | Ping _ => option_list (Ping <$> parse_ping buf)
  | Pong _ => option_list (Pong <$> parse_pong buf)
  | Data _ _ _ => option_list ((λ '(src, ep, pl), Data src ep pl) <$> parse_data buf)
  | CapTransfer _ _ _ _ _ =>
      option_list ((λ '(src, ct, r, sl, d), CapTransfer src ct r sl d) <$> parse_cap buf)
  | MemAllocReq _ _ => option_list ((λ '(r, n), MemAllocReq r n) <$> parse_mem_alloc_req buf)
  | MemAllocResp _ _ =>
      option_list ((λ '(r, hs), MemAllocResp r (handles_of (length hs / 4) hs))
                     <$> parse_mem_alloc_resp buf)
  | MemFree _ _ => option_list ((λ '(r, h), MemFree r h) <$> parse_mem_free buf)
  | ProclistReq _ => option_list (ProclistReq <$> parse_proclist_req buf)
  end.

Ltac parsers :=
  unfold parse_all, parse_ping, parse_pong, parse_data, parse_cap, parse_mem_alloc_req,
    parse_mem_alloc_resp, parse_mem_free, parse_proclist_req.

(** The magic number leaves one parser. *)
Lemma parse_all_magic p buf : le_at buf 0 2 = magic_of p → parse_all buf = parse_own p buf.
Proof.
  intros E. unfold parse_own. parsers. rewrite E.
  destruct p; cbn [magic_of]; cbv [MAGIC_PING MAGIC_PONG MAGIC_DATA MAGIC_CAP MAGIC_MEM_ALLOC_REQ
    MAGIC_MEM_ALLOC_RESP MAGIC_MEM_FREE MAGIC_PROCLIST_REQ]; cbn [Z.eqb Pos.eqb negb];
    repeat (rewrite ?app_nil_r; case_match); cbn [option_list fmap option_fmap option_map app];
    rewrite ?app_nil_r; done.
Qed.

Lemma parse_all_short buf : zlen buf < 3 → parse_all buf = [].
Proof. intros. parsers. repeat (rewrite (proj2 (Z.ltb_lt _ _)) by lia). done. Qed.

Lemma le_at_field pre n x post i :
  length pre = i → fits (8 * Z.of_nat n) x → le_at (pre ++ le_bytes n x ++ post) i n = x.
Proof.
  intros <- Hx. unfold le_at. rewrite drop_app_length, take_app_length' by (by rewrite length_le_bytes).
  rewrite of_le_bytes_le_bytes. by apply Z.mod_small.
Qed.

Lemma bytes_at_field pre l post i n :
  length pre = i → zlen l = n → bytes_at (pre ++ l ++ post) i n = l.
Proof.
  intros <- <-. unfold bytes_at. rewrite drop_app_length, to_nat_zlen. apply take_app_length.
Qed.

Lemma length_handles hs : length (mjoin (le_bytes 4 <$> hs)) = (4 * length hs)%nat.
Proof.
  induction hs as [| h hs IH]; [done |].
  change (mjoin (le_bytes 4 <$> h :: hs)) with (le_bytes 4 h ++ mjoin (le_bytes 4 <$> hs)).
  rewrite length_app, length_le_bytes, IH. cbn [length]. lia.
Qed.

Lemma handles_of_bytes hs :
  Forall (fits 32) hs → handles_of (length hs) (mjoin (le_bytes 4 <$> hs)) = hs.
Proof.
  induction 1 as [| h hs Hh _ IH]; [done |].
  change (mjoin (le_bytes 4 <$> h :: hs)) with (le_bytes 4 h ++ mjoin (le_bytes 4 <$> hs)).
  cbn [length handles_of]. rewrite take_app_length', drop_app_length' by (by rewrite length_le_bytes).
  rewrite of_le_bytes_le_bytes, IH. by rewrite Z.mod_small.
Qed.

Lemma zlen_packet p : packet_ok p → zlen (packet_bytes p) =
  match p with
  | Ping _ | Pong _ => 6
  | Data _ _ pl => 6 + zlen pl
  | CapTransfer _ _ _ _ _ => 73
  | MemAllocReq _ _ => 4
  | MemAllocResp _ hs => 4 + zlen hs * 4
  | MemFree _ _ => 7
  | ProclistReq _ => 3
  end.
Proof.
  unfold packet_ok, packet_bytes, body, zlen. intros Hp.
  destruct p; cbn [app]; rewrite ?length_app; cbn [length];
    rewrite ?length_app, ?length_le_bytes, ?length_handles; cbn [length]; lia.
Qed.

(** Writing succeeds exactly when the packet fits. *)
Lemma write_packet_spec p buf : packet_ok p →
  write_packet buf p = if zlen buf <? zlen (packet_bytes p) then (buf, None)
                       else (fill buf (packet_bytes p), Some (zlen (packet_bytes p))).
Proof.
  intros Hp. rewrite zlen_packet by done.
  destruct p; cbn [write_packet] in *; try reflexivity;
    unfold write_data, write_mem_alloc_resp, packet_ok in *; destruct_and!.
  - rewrite (proj2 (Z.ltb_ge _ _)) by lia. unfold packet_bytes, body.
    rewrite wrap_small; [done |]. pose proof (zlen_nonneg payload). unfold fits, MAX_WIRE_PAYLOAD in *. lia.
  - rewrite (proj2 (Z.ltb_ge _ _)) by lia. unfold packet_bytes, body.
    rewrite wrap_small; [done |]. pose proof (zlen_nonneg handles). unfold fits in *. lia.
Qed.

Lemma magic_at p rest : le_at (packet_bytes p ++ rest) 0 2 = magic_of p.
Proof.
  unfold packet_bytes. rewrite <-app_assoc. apply (le_at_field []); [done |].
  by destruct p.
Qed.

Lemma accepted {A B} (f : A → B) a b : f a = b → option_list (f <$> Some a) = [b].
Proof. by intros <-. Qed.

Lemma parse_own_accepts p rest : packet_ok p → parse_own p (packet_bytes p ++ rest) = [p].
Proof.
  intros Hp. pose proof (zlen_packet p Hp) as Hl. pose proof (zlen_nonneg rest) as Hr.
  pose proof (magic_at p rest) as Hm. pose proof (zlen_app (packet_bytes p) rest) as Ha.
  assert (0 <= match p with Data _ _ pl => zlen pl | MemAllocResp _ hs => zlen hs | _ => 0 end)
    by (destruct p; auto with kernel; lia).
  destruct p as [n | n | src ep pl | src ct r sl d | r n | r hs | r h | r];
    cbn [parse_own packet_ok magic_of] in *; parsers; rewrite Hm, Z.eqb_refl;
    cbn [negb]; destruct_and?; rewrite (proj2 (Z.ltb_ge _ _)) by lia.
  - apply accepted. f_equal. by apply (le_at_field [_; _] 4).
  - apply accepted. f_equal. by apply (le_at_field [_; _] 4).
  - change (byte_at _ 5) with (zlen pl). rewrite (proj2 (Z.ltb_ge _ _)) by lia.
    apply accepted. f_equal.
    + by apply (le_at_field [_; _; _] 2).
    + by apply (bytes_at_field [_; _; _; _; _; _]).
  - apply accepted. f_equal.
    + by apply (le_at_field [_; _; _; _; _] 4 sl (d ++ rest)).
    + apply (bytes_at_field [_; _; _; _; _; _; _; _; _] d rest); [done | unfold zlen; lia].
  - done.
  - change (byte_at _ 3) with (zlen hs). rewrite (proj2 (Z.ltb_ge _ _)) by lia.
    assert (bytes_at (packet_bytes (MemAllocResp r hs) ++ rest) 4 (zlen hs * 4)
            = mjoin (le_bytes 4 <$> hs)) as ->.
    { apply (bytes_at_field [_; _; _; _]); [done |]. unfold zlen. rewrite length_handles. lia. }
    apply accepted. f_equal.
    rewrite length_handles, (Nat.mul_comm 4), Nat.div_mul by done. by apply handles_of_bytes.
  - apply accepted. f_equal. by apply (le_at_field [_; _; _] 4).
  - done.
Qed.

Lemma parse_own_cut p k :
  packet_ok p → (k < length (packet_bytes p))%nat → parse_own p (take k (packet_bytes p)) = [].
Proof.
  intros Hp Hk. pose proof (zlen_packet p Hp) as Hl.
  assert (zlen (take k (packet_bytes p)) = Z.of_nat k) as Hz
    by (unfold zlen; rewrite length_take; lia).
  assert (∀ i, (i < k)%nat → byte_at (take k (packet_bytes p)) i = byte_at (packet_bytes p) i)
    as Hb by (intros; unfold byte_at; by rewrite lookup_take_lt by lia).
  unfold zlen in Hl. destruct p as [n | n | src ep pl | src ct r sl d | r n | r hs | r h | r];
    cbn [parse_own packet_ok] in *; parsers; rewrite Hz; destruct_and?;
    try (rewrite (proj2 (Z.ltb_lt _ _)) by lia; done).
  - destruct (_ <? 6) eqn:E6; [done |]. destruct (negb _); [done |]. bools.
    rewrite Hb by lia. change (byte_at _ 5) with (zlen pl).
    rewrite (proj2 (Z.ltb_lt _ _)) by (unfold zlen; lia). done.
  - destruct (_ <? 4) eqn:E4; [done |]. destruct (negb _); [done |]. bools.
    rewrite Hb by lia. change (byte_at _ 3) with (zlen hs).
    rewrite (proj2 (Z.ltb_lt _ _)) by (unfold zlen; lia). done.
Qed.

Lemma parse_all_cut p k :
  packet_ok p → (k < length (packet_bytes p))%nat → parse_all (take k (packet_bytes p)) = [].
Proof.
  intros Hp Hk. destruct (decide (k < 3)%nat).
  - apply parse_all_short. unfold zlen. rewrite length_take. lia.
  - rewrite (parse_all_magic p); [by apply parse_own_cut |].
    rewrite <-(magic_at p []), app_nil_r. unfold le_at. rewrite !drop_0, take_take. f_equal. f_equal. lia.
Qed.

(** C23. Every packet of the eight fixed kinds survives the wire.  A writer
    succeeds exactly when the packet fits in the buffer, changes only the bytes
    of the packet, and leaves the buffer alone otherwise; what it wrote, followed
    by any bytes, is accepted by its own parser, which returns the fields
    written, and by no other; cut short anywhere, it is accepted by none. *)
Theorem wire_roundtrip (p : packet) (buf : list Z) :
  packet_ok p →
  ∃ n, n = zlen (packet_bytes p) ∧
    if zlen buf <? n then write_packet buf p = (buf, None)
    else ∃ buf', write_packet buf p = (buf', Some n) ∧ length buf' = length buf ∧
      drop (Z.to_nat n) buf' = drop (Z.to_nat n) buf ∧
      (∀ rest, parse_all (take (Z.to_nat n) buf' ++ rest) = [p]) ∧
      ∀ k, Z.of_nat k < n → parse_all (take k buf') = [].
Proof.
  intros Hp. exists (zlen (packet_bytes p)). split; [done |]. rewrite write_packet_spec by done.
  destruct (_ <? _) eqn:E; [done |]. bools. eexists. split; [done |]. unfold fill, zlen in *.
  rewrite !Nat2Z.id. split_and!.
  - rewrite length_app, length_drop. lia.
  - by rewrite drop_app_length.
  - intros rest. rewrite take_app_length, (parse_all_magic p) by apply magic_at.
    by apply parse_own_accepts.
  - intros k Hk. rewrite take_app_le by lia. apply parse_all_cut; [done | lia].
Qed.

Lemma wire_roundtrip_witness :
  packet_ok (Data 3 0x1234 [7; 8; 9]) ∧
  parse_all (take 9 (fst (write_packet (replicate 72 255) (Data 3 0x1234 [7; 8; 9])))) =
    [Data 3 0x1234 [7; 8; 9]].
Proof.
  assert (packet_ok (Data 3 0x1234 [7; 8; 9])) as Hp.
  { unfold packet_ok, is_byte, fits, MAX_WIRE_PAYLOAD, zlen. cbn.
    split_and!; try lia. repeat constructor; lia. }
  split; [exact Hp |].
  destruct (wire_roundtrip (Data 3 0x1234 [7; 8; 9]) (replicate 72 255) Hp)
    as (n & -> & buf' & E & _ & _ & H & _).
  rewrite E, <-(app_nil_r (take _ _)). exact (H []).
Defined.

(** ** Lists of processes *)

Definition entry_ok (e : Z * Z * list Z) : Prop :=
  let '(p, st, nm) := e in fits 32 p ∧ is_byte st ∧ Forall is_byte nm.

(** What arrives: the name is cut and padded to 48 bytes. *)
Definition received (e : Z * Z * list Z) : RemoteProcEntry :=
  let '(p, st, nm) := e in
  MkProcEntry p st (take 48 nm ++ replicate (48 - length nm) 0) (Z.min (zlen nm) 48).

Definition entries_bytes (es : list (Z * Z * list Z)) : list Z := mjoin (proc_entry <$> es).

Lemma zlen_proc_entry e : zlen (proc_entry e) = 6 + Z.min (zlen (snd e)) 48.
Proof.
  destruct e as [[p st] nm]. unfold proc_entry, zlen. cbn [snd].
  rewrite !length_app, length_le_bytes, length_take. cbn [length]. lia.
Qed.

Lemma entries_bytes_cons e es : entries_bytes (e :: es) = proc_entry e ++ entries_bytes es.
Proof. done. Qed.

Lemma write_entries_run es : ∀ pre mid post,
  length mid = length (entries_bytes es) →
  write_entries (pre ++ mid ++ post) (zlen pre) es =
    Done (pre ++ entries_bytes es ++ post, Some (zlen pre + zlen (entries_bytes es))).
Proof.
  induction es as [| e es IH]; intros pre mid post Hm.
  - destruct mid; [| done]. cbn. do 3 f_equal. unfold zlen. cbn. lia.
  - rewrite entries_bytes_cons in *. rewrite length_app in Hm. cbn [write_entries].
    rewrite <-zlen_proc_entry. set (b := proc_entry e) in *.
    rewrite <-(take_drop (length b) mid), <-(app_assoc (take _ _)).
    assert (length (take (length b) mid) = length b) as Ht by (rewrite length_take; lia).
    rewrite (proj2 (Z.ltb_ge _ _)) by (unfold zlen; rewrite !length_app; lia).
    rewrite asplice_in_range by (unfold zlen; rewrite ?length_app; lia).
    cbn [mbind outcome_bind]. rewrite to_nat_zlen, take_app_length.
    rewrite drop_app_ge by (unfold zlen; lia).
    replace (Z.to_nat (zlen pre + zlen b) - length pre)%nat with (length b) by (unfold zlen; lia).
    rewrite drop_app_length' by done.
    rewrite app_assoc, <-(zlen_app pre b), IH by (rewrite length_drop; lia).
    rewrite <-!app_assoc, !zlen_app. do 3 f_equal. lia.
Qed.

Lemma write_entries_short es : ∀ buf pos, 0 <= pos → es ≠ [] →
  zlen buf < pos + zlen (entries_bytes es) → ∃ buf', write_entries buf pos es = Done (buf', None).
Proof.
  induction es as [| e es IH]; intros buf pos Hp Hne Hs; [done |].
  rewrite entries_bytes_cons, zlen_app in Hs. cbn [write_entries]. rewrite <-zlen_proc_entry.
  destruct (_ <? _) eqn:E; [by eexists |]. bools. pose proof (zlen_nonneg (proc_entry e)).
  rewrite asplice_in_range by lia. cbn [mbind outcome_bind]. apply IH; [lia | |].
  - intros ->. unfold zlen in *. cbn in Hs. lia.
  - rewrite !zlen_app. unfold zlen in *. rewrite length_take, length_drop. lia.
Qed.

Lemma parse_entry_run pre e post : entry_ok e →
  parse_entry (pre ++ proc_entry e ++ post) (zlen pre) =
    Some (received e, zlen pre + zlen (proc_entry e)).
Proof.
  destruct e as [[p st] nm]. intros (Hp & Hst & Hnm). unfold parse_entry.
  pose proof (zlen_proc_entry (p, st, nm)) as Hl. cbn [snd] in Hl.
  pose proof (zlen_nonneg nm). pose proof (zlen_nonneg post).
  rewrite !zlen_app, (proj2 (Z.ltb_ge _ _)) by lia. rewrite to_nat_zlen.
  assert (u8 (Z.min (zlen nm) 48) = Z.min (zlen nm) 48) as Hu
    by (apply wrap_small; unfold fits; lia).
  assert (byte_at (pre ++ proc_entry (p, st, nm) ++ post) (length pre + 5)
          = Z.min (zlen nm) 48) as ->.
  { unfold byte_at. rewrite lookup_app_r by lia. replace (_ - _)%nat with 5%nat by lia. exact Hu. }
  rewrite (proj2 (Z.ltb_ge _ _)) by lia. do 2 f_equal; [| lia].
  unfold received. f_equal.
  - unfold proc_entry. rewrite <-(app_assoc (le_bytes 4 p)). by apply le_at_field.
  - unfold byte_at. rewrite lookup_app_r by lia. by replace (_ - _)%nat with 4%nat by lia.
  - rewrite Z.min_l by lia.
    assert (bytes_at (pre ++ proc_entry (p, st, nm) ++ post) (length pre + 6) (Z.min (zlen nm) 48)
            = take 48 nm) as ->.
    + unfold proc_entry.
      replace (take (Z.to_nat (Z.min (zlen nm) 48)) nm) with (take 48 nm).
      * rewrite <-!app_assoc, (app_assoc pre), (app_assoc (_ ++ _)).
        apply bytes_at_field; [rewrite !length_app, length_le_bytes; cbn; lia |].
        unfold zlen. rewrite length_take. lia.
      * unfold zlen. destruct (decide (length nm <= 48)%nat).
        -- rewrite Z.min_l, Nat2Z.id, !take_ge by lia. done.
        -- by rewrite Z.min_r by lia.
    + rewrite length_take. do 2 f_equal. lia.
  - lia.
Qed.

Lemma parse_entries_run es : Forall entry_ok es → ∀ pre post done out,
  (length es <= length out)%nat →
  parse_entries (length es) (pre ++ entries_bytes es ++ post) (zlen pre) (length done) (done ++ out) =
    (done ++ (received <$> es) ++ drop (length es) out, true).
Proof.
  induction 1 as [| e es He _ IH]; intros pre post dn out Hl; [done |].
  destruct out as [| o out]; [cbn in Hl; lia |].
  rewrite entries_bytes_cons, <-(app_assoc (proc_entry e)).
  cbn [length parse_entries]. rewrite parse_entry_run by done.
  rewrite insert_app_r_alt by lia. rewrite Nat.sub_diag. cbn [insert list_insert].
  rewrite app_assoc, <-zlen_app, cons_middle, (app_assoc dn [received e]).
  replace (S (length dn)) with (length (dn ++ [received e])) by (rewrite length_app; cbn; lia).
  cbn [length] in Hl. rewrite IH by lia. by rewrite <-app_assoc.
Qed.

Definition list_header (es : list (Z * Z * list Z)) : list Z :=
  le_bytes 2 MAGIC_PROCLIST_RESP ++ le_bytes 2 (zlen es).

Lemma write_proclist_run es buf :
  zlen es <= 64 → 4 + zlen (entries_bytes es) <= zlen buf →
  ∃ tl, write_proclist_resp buf es =
    Done (list_header es ++ entries_bytes es ++ tl, Some (4 + zlen (entries_bytes es))).
Proof.
  intros E64 En. unfold write_proclist_resp. rewrite (proj2 (Z.ltb_ge _ _)) by done.
  set (k := length (entries_bytes es)). exists (drop k (drop 4 buf)).
  rewrite <-(take_drop 4 buf), <-(take_drop k (drop 4 buf)) at 1. unfold zlen in En.
  assert (length (take 4 buf) = 4%nat) as H4 by (rewrite length_take; lia).
  replace 4 with (zlen (take 4 buf)) by (unfold zlen; lia).
  rewrite write_entries_run by (rewrite length_take, length_drop; lia). cbn [mbind outcome_bind].
  rewrite asplice_in_range
    by (unfold zlen; rewrite ?length_app, ?length_le_bytes; lia).
  cbn [mbind outcome_bind]. change (take (Z.to_nat 0) _) with (@nil Z).
  change (Z.to_nat (0 + _)) with 4%nat. by rewrite drop_app_length' by done.
Qed.

Lemma parse_proclist_run es out rest : Forall entry_ok es → zlen es <= 64 →
  parse_proclist_resp (list_header es ++ entries_bytes es ++ rest) out =
    if zlen out <? zlen es then (out, None)
    else ((received <$> es) ++ drop (length es) out, Some (zlen es)).
Proof.
  intros Hes E64. unfold parse_proclist_resp. pose proof (zlen_nonneg es).
  pose proof (zlen_nonneg rest). pose proof (zlen_nonneg (entries_bytes es)).
  assert (zlen (list_header es) = 4) as H4 by done.
  rewrite (proj2 (Z.ltb_ge _ _)) by (rewrite !zlen_app; lia).
  assert (le_at (list_header es ++ entries_bytes es ++ rest) 0 2 = MAGIC_PROCLIST_RESP) as -> by done.
  assert (le_at (list_header es ++ entries_bytes es ++ rest) 2 2 = zlen es) as ->.
  { unfold list_header. rewrite <-app_assoc. apply le_at_field; [done | unfold fits; lia]. }
  rewrite Z.eqb_refl. cbn [negb].
  destruct (_ <? _) eqn:Eo; [done |]. bools. rewrite to_nat_zlen.
  pose proof (parse_entries_run es Hes (list_header es) rest [] out ltac:(unfold zlen in *; lia)) as Hp.
  rewrite H4 in Hp. cbn [length app] in Hp. by rewrite Hp.
Qed.

(** A list of processes survives the wire.  Up to 64 entries are written
    when the buffer has room for all; otherwise nothing is reported written,
    except that an empty list makes the writer panic on a buffer of fewer than
    four bytes, since it checks the length only per entry.  What was written,
    followed by any bytes, parses into a caller's array with room for it as the
    same entries in order, with names cut and padded to 48 bytes, and leaves the
    rest of the array alone. *)
Theorem proclist_roundtrip (es : list (Z * Z * list Z)) (buf : list Z) (out : list RemoteProcEntry) :
  Forall entry_ok es →
  let n := 4 + zlen (entries_bytes es) in
  if 64 <? zlen es then write_proclist_resp buf es = Done (buf, None)
  else if zlen buf <? n then
    if bool_decide (es = []) then write_proclist_resp buf es = Panic
    else ∃ buf', write_proclist_resp buf es = Done (buf', None)
  else ∃ buf', write_proclist_resp buf es = Done (buf', Some n) ∧
    ∀ rest, parse_proclist_resp (take (Z.to_nat n) buf' ++ rest) out =
      if zlen out <? zlen es then (out, None)
      else ((received <$> es) ++ drop (length es) out, Some (zlen es)).
Proof.
  intros Hes n. destruct (64 <? zlen es) eqn:E64.
  { unfold write_proclist_resp. by rewrite E64. }
  destruct (zlen buf <? n) eqn:En; bools.
  - unfold write_proclist_resp. rewrite (proj2 (Z.ltb_ge _ _)) by done. case_bool_decide as Hn.
    + subst es. cbn [write_entries mbind outcome_bind mret outcome_ret]. unfold asplice.
      rewrite (proj2 (Z.leb_gt (0 + _) _)), andb_false_r; [done | exact En].
    + destruct (write_entries_short es buf 4) as [b ->]; [lia | done | lia |]. by exists b.
  - destruct (write_proclist_run es buf E64 En) as [tl ->]. eexists. split; [done |]. intros rest.
    rewrite app_assoc, take_app_length', <-app_assoc; [by apply parse_proclist_run |].
    rewrite length_app. subst n. unfold zlen. cbn [length list_header le_bytes app]. lia.
Qed.

Definition ex_proc : Z * Z * list Z := (7, 1, [112; 114; 111; 99]).
Definition no_entry : RemoteProcEntry := MkProcEntry 0 0 (replicate 48 0) 0.

Lemma proclist_roundtrip_witness :
  entry_ok ex_proc ∧ ∃ buf', write_proclist_resp (replicate 64 0) [ex_proc] = Done (buf', Some 14) ∧
    parse_proclist_resp (take 14 buf') [no_entry; no_entry] = ([received ex_proc; no_entry], Some 1).
Proof.
  assert (entry_ok ex_proc) as Hok
    by (split_and!; unfold fits, is_byte; try lia; repeat constructor; lia).
  split; [exact Hok |].
  destruct (proclist_roundtrip [ex_proc] (replicate 64 0) [no_entry; no_entry]
    (Forall_cons_2 _ _ _ Hok (Forall_nil_2 _))) as (buf' & E & H).
  exists buf'. split; [exact E |]. rewrite <-(app_nil_r (take _ _)). exact (H []).
Defined.
End Wire.
