(* ===== verification/Pool.v ===== *)
(** * The remote memory pool

    distributed/memory.rs: pages handed to other nodes are pages of this kernel's
    allocator ([Buddy]), tracked per node in a table of 256 entries.  A handle
    packs the node and the page number.

    [pool_accounting]: in every reachable state the pages in use and the pages
    available of a node add up to what the node was given, less what failed
    requests took.  [decode_encode]: handles decode to what they encode.
    [table_fills_up]: entries are never reused, so a node serves 256 requests in
    its life, and every request after that costs it pages.  [free_returns_one_page]:
    freeing a block of several pages returns one of them.  [migrate_frees_any_page]:
    migration frees the page the caller names, whoever it belongs to. *)
From Stdlib Require Import String.
From S2P Require Import Prelude Buddy PageAlloc.
Open Scope list_scope.

Module Pool.

Definition MAX_REMOTE_PAGES : Z := 256.
Definition MAX_POOL_NODES : Z := 8.

(** ** Handles *)

Definition encode_handle (node_id phys : Z) : Z :=
  Z.lor (u64 (Z.shiftl node_id 56)) (Z.land (Z.shiftr phys 12) 0xFFFFFFFFFFFFFF).

Definition decode_handle (handle : Z) : Z * Z :=
  (u8 (Z.shiftr handle 56), u64 (Z.shiftl (Z.land handle 0xFFFFFFFFFFFFFF) 12)).

(** ** Pools *)

Record RemotePageMeta : Type := MkMeta {
  handle : Z;
  meta_node : Z;
  size : Z;
  in_use : bool;
}.
#[export] Instance RemotePageMeta_eta : Eta RemotePageMeta := λ m,
  MkMeta (handle m) (meta_node m) (size m) (in_use m).

Record NodeMemoryPool : Type := MkPool {
  node_id : Z;
  available_pages : Z;
  pages : list RemotePageMeta;
  page_count : Z;
}.
#[export] Instance NodeMemoryPool_eta : Eta NodeMemoryPool := λ p,
  MkPool (node_id p) (available_pages p) (pages p) (page_count p).

Definition NodeMemoryPool_new (node : Z) : NodeMemoryPool :=
  MkPool node 4096 (replicate 256 (MkMeta 0 0 0 false)) 0.

Definition track_page (p : NodeMemoryPool) (h sz : Z) : outcome (bool * NodeMemoryPool) :=
  if MAX_REMOTE_PAGES <=? page_count p then mret (false, p)
  else
    pgs ← aset (pages p) (page_count p) (MkMeta h (node_id p) sz true);
    mret (true, p <| pages := pgs |> <| page_count := page_count p + 1 |>).

Fixpoint release_loop (p : NodeMemoryPool) (h : Z) (ids : list Z) : outcome (bool * NodeMemoryPool) :=
  match ids with
  | [] => mret (false, p)
  | i :: ids' =>
      m ← aget (pages p) i;
      if (handle m =? h) && in_use m then
        pgs ← aset (pages p) i (m <| in_use := false |>);
        mret (true, p <| pages := pgs |>
                      <| available_pages := u64 (available_pages p + size m) |>)
      else release_loop p h ids'
  end.

Definition release_page (p : NodeMemoryPool) (h : Z) : outcome (bool * NodeMemoryPool) :=
  release_loop p h (zseq 0 (page_count p)).

Definition used_pages (p : NodeMemoryPool) : outcome Z :=
  for_each (λ n i, m ← aget (pages p) i; mret (if in_use m then u64 (n + size m) else n))
    0 (zseq 0 (page_count p)).

Record RemoteMemPool : Type := MkMemPool {
  per_node : list NodeMemoryPool;
  node_count : Z;
}.
#[export] Instance RemoteMemPool_eta : Eta RemoteMemPool := λ r,
  MkMemPool (per_node r) (node_count r).

Definition RemoteMemPool_new : RemoteMemPool :=
  MkMemPool (NodeMemoryPool_new <$> zseq 0 8) 0.

(** [for i in 0..n { if f(l[i]) { return i } }]. *)
Fixpoint search {A} (f : A → bool) (l : list A) (ids : list Z) : outcome (option Z) :=
  match ids with
  | [] => mret None
  | i :: ids' => x ← aget l i; if f x then mret (Some i) else search f l ids'
  end.

Definition pool_index (r : RemoteMemPool) (node : Z) : outcome (option Z) :=
  search (λ p, node_id p =? node) (per_node r) (zseq 0 (node_count r)).

Definition register_node (r : RemoteMemPool) (node : Z) : outcome (bool * RemoteMemPool) :=
  if MAX_POOL_NODES <=? node_count r then mret (false, r)
  else if MAX_POOL_NODES <=? node then mret (false, r)
  else
    i ← pool_index r node;
    match i with
    | Some _ => mret (true, r)
    | None =>
        pn ← (if negb (node =? node_count r)
              then aset (per_node r) (node_count r) (NodeMemoryPool_new node)
              else mret (per_node r));
        mret (true, r <| per_node := pn |> <| node_count := node_count r + 1 |>)
    end.

(** [get_pool], and what is done through the reference it returns. *)
Definition with_pool {A} (r : RemoteMemPool) (node : Z) (none : A)
    (f : NodeMemoryPool → outcome (A * NodeMemoryPool)) : outcome (A * RemoteMemPool) :=
  i ← pool_index r node;
  match i with
  | None => mret (none, r)
  | Some i =>
      p ← aget (per_node r) i;
      a ← f p;
      pn ← aset (per_node r) i (snd a);
      mret (fst a, r <| per_node := pn |>)
  end.

(** The pages are taken off before the entry is known to fit. *)
Definition track_remote_page (r : RemoteMemPool) (node h sz : Z) : outcome (bool * RemoteMemPool) :=
  with_pool r node false (λ p,
    if sz <=? available_pages p
    then track_page (p <| available_pages := available_pages p - sz |>) h sz
    else mret (false, p)).

Definition release_remote_page (r : RemoteMemPool) (h : Z) : outcome (bool * RemoteMemPool) :=
  with_pool r (fst (decode_handle h)) false (λ p, release_page p h).

Definition available_for_node (r : RemoteMemPool) (node : Z) : outcome Z :=
  i ← pool_index r node;
  match i with
  | None => mret 0
  | Some i => p ← aget (per_node r) i; mret (available_pages p)
  end.

Definition set_available_pages (r : RemoteMemPool) (node n : Z) : outcome RemoteMemPool :=
  x ← with_pool r node () (λ p, mret ((), p <| available_pages := n |>));
  mret (snd x).

(** ** The kernel's calls *)

Record rmem : Type := MkRmem { POOL : RemoteMemPool; buddies : allocator }.
#[export] Instance rmem_eta : Eta rmem := λ s, MkRmem (POOL s) (buddies s).

Definition init (s : rmem) : outcome rmem :=
  x ← register_node (POOL s) 0;
  r ← set_available_pages (snd x) 0
        (u64 (total_pages (ALLOCATOR (buddies s)) - allocated_pages (ALLOCATOR (buddies s))));
  mret (s <| POOL := r |>).

Definition register_mem_node (s : rmem) (node : Z) : outcome (bool * rmem) :=
  x ← register_node (POOL s) node; mret (fst x, s <| POOL := snd x |>).

(** [while size < n]; five doublings reach 16. *)
Fixpoint order_loop (fuel : nat) (n size order : Z) : outcome Z :=
  if size <? n then
    match fuel with
    | O => OutOfFuel
    | S fuel' => order_loop fuel' n (u64 (Z.shiftl size 1)) (order + 1)
    end
  else mret order.

Definition pages_to_order (n : Z) : outcome Z := order_loop 5 n 1 0.

Definition remote_alloc_pages (s : rmem) (hart node num_pages : Z) : outcome (option Z * rmem) :=
  if (num_pages =? 0) || (16 <? num_pages) then mret (None, s)
  else
    order ← pages_to_order num_pages;
    x ← alloc_addr (buddies s) order;
    let '(a, b) := x in
    match a with
    | None => mret (None, s <| buddies := b |>)
    | Some phys =>
        t ← track_remote_page (POOL s) node (encode_handle node phys) (2 ^ order);
        if fst t : bool then mret (Some phys, MkRmem (snd t) b)
        else
          b' ← free_page b hart phys order;
          mret (None, MkRmem (snd t) b')
    end.

Definition remote_alloc_page (s : rmem) (hart node : Z) : outcome (option Z * rmem) :=
  remote_alloc_pages s hart node 1.

Definition remote_free_page (s : rmem) (hart h : Z) : outcome (bool * rmem) :=
  x ← release_remote_page (POOL s) h;
  if fst x : bool then
    b ← free_page (buddies s) hart (snd (decode_handle h)) 0;
    mret (true, MkRmem (snd x) b)
  else mret (false, s <| POOL := snd x |>).

(** [copy_nonoverlapping] of one page. *)
Definition copy_page (b : buddy) (from to : Z) : buddy :=
  set_phys b (λ a, if (to <=? a) && (a <? to + 4096) then phys b (a - to + from) else phys b a).

Definition migrate_page_local (s : rmem) (hart pa from_node to_node : Z)
    : outcome (result string Z * rmem) :=
  if (pa =? 0) || negb (Z.land pa 0xFFF =? 0) then mret (Err "invalid physical address"%string, s)
  else if from_node =? to_node then mret (Err "same node"%string, s)
  else
    x ← remote_alloc_page s hart to_node;
    match x with
    | (None, s') => mret (Err "OOM on target"%string, s')
    | (Some new, s') =>
        let b := buddies s' in
        let b1 := Allocator (copy_page (ALLOCATOR b) pa new) (CPU_CACHES b) (CACHE_HITS b)
                    (CACHE_MISSES b) in
        y ← release_remote_page (POOL s') (encode_handle from_node pa);
        b2 ← free_page b1 hart pa 0;
        mret (Ok new, MkRmem (snd y) b2)
    end.

Definition get_available_pages (s : rmem) (node : Z) : outcome Z :=
  available_for_node (POOL s) node.

(** ** Lemmas *)

Lemma search_spec {A} (f : A → bool) (l : list A) ids :
  Forall (λ i, 0 <= i < zlen l) ids →
  (∃ i x, search f l ids = Done (Some i) ∧ i ∈ ids ∧ l !! Z.to_nat i = Some x ∧ f x = true) ∨
  (search f l ids = Done None ∧ ∀ i x, i ∈ ids → l !! Z.to_nat i = Some x → f x = false).
Proof.
  induction 1 as [| i ids Hi _ IH]; cbn [search].
  - right. split; [done |]. intros ? ? []%not_elem_of_nil.
  - destruct (aget_in_range l i Hi) as [x Ex]. rewrite Ex. cbn [mbind outcome_bind].
    apply aget_lookup in Ex as [? Ex].
    destruct (f x) eqn:Ef.
    + left. exists i, x. split_and!; try done. by apply list_elem_of_here.
    + destruct IH as [(j & y & ? & ? & ? & ?) | [? Hn]].
      * left. exists j, y. split_and!; try done. by apply list_elem_of_further.
      * right. split; [done |]. intros j y [-> | Hj]%elem_of_cons Hy; [congruence | eauto].
Qed.

(** The sum of [f] over a list. *)
Fixpoint zsum {A} (f : A → Z) (l : list A) : Z :=
  match l with [] => 0 | x :: l' => f x + zsum f l' end.

Lemma zsum_insert {A} (f : A → Z) (l : list A) i x y :
  l !! i = Some x → zsum f (<[i := y]> l) = zsum f l - f x + f y.
Proof.
  revert i. induction l as [| z l IH]; intros [| i] E; try done; cbn in E.
  - injection E as ->. cbn. lia.
  - change (<[S i := y]> (z :: l)) with (z :: <[i := y]> l). cbn [zsum]. rewrite (IH i E). lia.
Qed.

Lemma zsum_app {A} (f : A → Z) (l k : list A) : zsum f (l ++ k) = zsum f l + zsum f k.
Proof. induction l as [| x l IH]; cbn [app zsum]; lia. Qed.

Lemma zsum_bound {A} (f : A → Z) (l : list A) b :
  Forall (λ x, 0 <= f x <= b) l → 0 <= zsum f l <= b * zlen l.
Proof. unfold zlen. induction 1; cbn [zsum length]; lia. Qed.

(** What an entry of the table holds, and all of them together. *)
Definition weight (m : RemotePageMeta) : Z := if in_use m then size m else 0.

Definition tracked (p : NodeMemoryPool) : list RemotePageMeta :=
  take (Z.to_nat (page_count p)) (pages p).

Definition used (p : NodeMemoryPool) : Z := zsum weight (tracked p).

Record pool_ok (q : Z) (p : NodeMemoryPool) : Prop := {
  po_len : zlen (pages p) = 256;
  po_count : 0 <= page_count p <= 256;
  po_avail : 0 <= available_pages p;
  po_sizes : Forall (λ m, 0 <= size m <= 16) (tracked p);
  po_quota : fits 64 q;
  po_sum : available_pages p + used p <= q;
  po_exact : page_count p < 256 → available_pages p + used p = q;
}.

Lemma weight_bound m : 0 <= size m <= 16 → 0 <= weight m <= 16.
Proof. unfold weight. destruct (in_use m); lia. Qed.

Lemma used_bound q p : pool_ok q p → 0 <= used p <= 16 * 256.
Proof.
  intros Hp. pose proof (zsum_bound weight (tracked p) 16) as Hb.
  assert (zlen (tracked p) <= 256) by (unfold tracked, zlen; rewrite length_take;
    pose proof (po_len _ _ Hp); unfold zlen in *; lia).
  unfold used. destruct Hb; [| lia].
  eapply Forall_impl; [apply (po_sizes _ _ Hp) |]. intros m. apply weight_bound.
Qed.

Lemma fresh_pool_ok node : pool_ok 4096 (NodeMemoryPool_new node).
Proof. split; try done; cbn; lia. Qed.

Lemma tracked_push p m :
  zlen (pages p) = 256 → 0 <= page_count p < 256 →
  tracked (p <| pages := <[Z.to_nat (page_count p) := m]> (pages p) |>
             <| page_count := page_count p + 1 |>) = tracked p ++ [m].
Proof.
  intros Hl Hc. unfold tracked. cbn. replace (Z.to_nat (page_count p + 1)) with (S (Z.to_nat (page_count p))) by lia.
  unfold zlen in Hl. erewrite take_S_r by (apply list_lookup_insert_eq; lia).
  by rewrite take_insert_ge by lia.
Qed.

(** Tracking an entry: it is taken unless the table is full, and the pages are
    taken either way. *)
Lemma track_ok q p h sz :
  pool_ok q p → 0 <= sz <= 16 → sz <= available_pages p →
  ∃ b p', track_page (p <| available_pages := available_pages p - sz |>) h sz = Done (b, p') ∧
    pool_ok q p' ∧ node_id p' = node_id p ∧ b = (page_count p <? 256) ∧
    available_pages p' = available_pages p - sz ∧
    page_count p' = (if b then page_count p + 1 else page_count p) ∧
    used p' = (if b then used p + sz else used p) ∧
    tracked p' = (if b then tracked p ++ [MkMeta h (node_id p) sz true] else tracked p).
Proof.
  intros Hp Hsz Ha. unfold track_page. cbn [page_count pages node_id set_field].
  pose proof (po_len _ _ Hp) as Hl. pose proof (po_count _ _ Hp) as Hc. pose proof (po_sum _ _ Hp).
  unfold MAX_REMOTE_PAGES. destruct (256 <=? page_count p) eqn:E; bools.
  - eexists _, _. split; [done |]. rewrite (proj2 (Z.ltb_ge _ _)) by done. cbn.
    split_and!; try done. destruct Hp. split; cbn; try done; unfold used, tracked in *; cbn in *; lia.
  - rewrite aset_in_range by lia. cbn [mbind outcome_bind].
    eexists _, _. split; [done |]. rewrite (proj2 (Z.ltb_lt _ _)) by done.
    set (m := MkMeta h (node_id p) sz true).
    set (p1 := p <| available_pages := available_pages p - sz |>).
    assert (0 <= page_count p1 < 256) as Hc1 by (cbn; lia).
    pose proof (tracked_push p1 m Hl Hc1) as Ht.
    change (tracked p1 ++ [m]) with (tracked p ++ [m]) in Ht. cbn in Ht. subst p1.
    split; [| split_and!; try done; unfold used; cbn; rewrite Ht, zsum_app; cbn; lia].
    pose proof (po_exact _ _ Hp). pose proof (po_sizes _ _ Hp).
    split; cbn; try done; try lia; unfold used; cbn; rewrite ?Ht.
    + rewrite zlen_insert. done.
    + apply Forall_app. split; [done |]. repeat constructor; cbn; lia.
    + by destruct Hp.
    + rewrite zsum_app. cbn. unfold used in *. lia.
    + intros. rewrite zsum_app. cbn. unfold used in *. lia.
Qed.

(** The pool after entry [i], which is [m], was released. *)
Definition release_at (p : NodeMemoryPool) (i : Z) (m : RemotePageMeta) : NodeMemoryPool :=
  p <| pages := <[Z.to_nat i := m <| in_use := false |>]> (pages p) |>
    <| available_pages := available_pages p + size m |>.

Lemma tracked_release p i m :
  0 <= i < page_count p →
  tracked (release_at p i m) = <[Z.to_nat i := m <| in_use := false |>]> (tracked p).
Proof. intros. unfold tracked. cbn. by rewrite take_insert_lt by lia. Qed.

Lemma tracked_lookup p i m :
  0 <= i < page_count p → pages p !! Z.to_nat i = Some m → tracked p !! Z.to_nat i = Some m.
Proof. intros. unfold tracked. by rewrite lookup_take_lt by lia. Qed.

(** The first entry in use with the handle, if there is one, is released. *)
Definition released (p : NodeMemoryPool) (h : Z) (b : bool) (p' : NodeMemoryPool) : Prop :=
  if b then ∃ i m, tracked p !! i = Some m ∧ handle m = h ∧ in_use m = true ∧
    available_pages p' = available_pages p + size m ∧ used p' = used p - size m ∧
    tracked p' = <[i := m <| in_use := false |>]> (tracked p)
  else p' = p ∧ ∀ m, m ∈ tracked p → handle m = h → in_use m = false.

Lemma release_loop_ok q p h ids :
  pool_ok q p → Forall (λ i, 0 <= i < page_count p) ids →
  (∃ i m p', release_loop p h ids = Done (true, p') ∧ 0 <= i < page_count p ∧
     pages p !! Z.to_nat i = Some m ∧ handle m = h ∧ in_use m = true ∧
     p' = release_at p i m) ∨
  (release_loop p h ids = Done (false, p) ∧
     ∀ i m, i ∈ ids → pages p !! Z.to_nat i = Some m → handle m = h → in_use m = false).
Proof.
  intros Hp. pose proof (po_len _ _ Hp). pose proof (po_count _ _ Hp).
  induction 1 as [| i ids Hi _ IH]; cbn [release_loop].
  { right. split; [done |]. intros ? ? []%not_elem_of_nil. }
  destruct (aget_in_range (pages p) i ltac:(lia)) as [m Em]. rewrite Em. cbn [mbind outcome_bind].
  apply aget_lookup in Em as [_ Em]. destruct (handle m =? h) eqn:Eh; cbn [andb]; bools.
  1: destruct (in_use m) eqn:Eu.
  - left. rewrite aset_in_range by lia. cbn [mbind outcome_bind].
    eexists i, m, _. split_and!; try done; try lia. unfold mret, outcome_ret.
    rewrite wrap_small; [done |]. pose proof (used_bound _ _ Hp).
    assert (size m <= used p).
    { unfold used. pose proof (zsum_insert weight (tracked p) (Z.to_nat i) m (MkMeta 0 0 0 false)
        (tracked_lookup _ _ _ Hi Em)) as E. unfold weight at 3 4 in E. rewrite Eu in E. cbn in E.
      pose proof (zsum_bound weight (<[Z.to_nat i := MkMeta 0 0 0 false]> (tracked p)) 16) as Hb.
      destruct Hb; [| lia]. apply Forall_insert; [| cbn; lia].
      eapply Forall_impl; [apply (po_sizes _ _ Hp) |]. intros. by apply weight_bound. }
    pose proof (Forall_lookup_1 _ _ _ _ (po_sizes _ _ Hp) (tracked_lookup _ _ _ Hi Em)) as Hs.
    cbn in Hs. destruct Hp. unfold fits in *. lia.
  - destruct IH as [? | [? Hn]]; [by left | right]. split; [done |].
    intros j x [-> | Hj]%elem_of_cons Hx Hh; [congruence | eauto].
  - destruct IH as [? | [? Hn]]; [by left | right]. split; [done |].
    intros j x [-> | Hj]%elem_of_cons Hx Hh; [congruence | eauto].
Qed.

Lemma release_ok q p h :
  pool_ok q p →
  ∃ b p', release_page p h = Done (b, p') ∧ pool_ok q p' ∧ node_id p' = node_id p ∧
    page_count p' = page_count p ∧ released p h b p'.
Proof.
  intros Hp. pose proof (po_count _ _ Hp) as Hc.
  destruct (release_loop_ok q p h (zseq 0 (page_count p)) Hp) as [(i & m & p' & E & Hi & Em & Hh & Hu & ->) | [E Hn]].
  { apply Forall_forall. intros i ?%elem_of_zseq. lia. }
  - eexists true, _. split; [exact E |]. pose proof (tracked_lookup _ _ _ Hi Em) as Et.
    pose proof (tracked_release p i m Hi) as Ht.
    pose proof (Forall_lookup_1 _ _ _ _ (po_sizes _ _ Hp) Et) as Hs. cbn in Hs.
    assert (used (release_at p i m) = used p - size m) as Hused.
    { unfold used. rewrite Ht, (zsum_insert _ _ _ _ _ Et). unfold weight. rewrite Hu. cbn. lia. }
    assert (available_pages (release_at p i m) = available_pages p + size m) as Ha by done.
    split; [| split_and!; try done].
    + destruct Hp. split; try done; rewrite ?Ha, ?Hused; try lia.
      * cbn. by rewrite zlen_insert.
      * rewrite Ht. by apply Forall_insert.
      * intros Hlt. change (page_count (release_at p i m)) with (page_count p) in Hlt. lia.
    + exists (Z.to_nat i), m. split_and!; try done.
  - exists false, p. split_and!; try done. split; [done |]. intros m (i & Hm)%list_elem_of_lookup Hh.
    unfold tracked in Hm. apply lookup_take_Some in Hm as [Hm Hi].
    apply (Hn (Z.of_nat i)); [apply elem_of_zseq; lia | by rewrite Nat2Z.id | done].
Qed.

(** ** The pools together

    [q0] is what node 0, this node, was given; other nodes are assumed to have
    4096 pages. *)

Definition quota (q0 node : Z) : Z := if node =? 0 then q0 else 4096.

Definition active (r : RemoteMemPool) (i : Z) (p : NodeMemoryPool) : Prop :=
  0 <= i < node_count r ∧ per_node r !! Z.to_nat i = Some p.

Definition has_pool (r : RemoteMemPool) (node : Z) (p : NodeMemoryPool) : Prop :=
  ∃ i, active r i p ∧ node_id p = node.

Record pools_ok (q0 : Z) (r : RemoteMemPool) : Prop := {
  ro_len : zlen (per_node r) = 8;
  ro_count : 0 <= node_count r <= 8;
  ro_active : ∀ i p, active r i p → pool_ok (quota q0 (node_id p)) p;
  ro_ids : ∀ i j p p', active r i p → active r j p' → node_id p = node_id p' → i = j;
  ro_rest : ∀ i, node_count r <= i < 8 → per_node r !! Z.to_nat i = Some (NodeMemoryPool_new i);
}.

Lemma has_pool_unique q0 r node p p' :
  pools_ok q0 r → has_pool r node p → has_pool r node p' → p = p'.
Proof.
  intros Hr (i & [? Hi] & E) (j & [? Hj] & E').
  assert (i = j) as <- by (apply (ro_ids _ _ Hr i j p p'); [done | done | congruence]). congruence.
Qed.

Lemma pool_index_spec q0 r node :
  pools_ok q0 r →
  (∃ i p, pool_index r node = Done (Some i) ∧ active r i p ∧ node_id p = node) ∨
  (pool_index r node = Done None ∧ ∀ p, ¬ has_pool r node p).
Proof.
  intros Hr. pose proof (ro_count _ _ Hr). pose proof (ro_len _ _ Hr).
  destruct (search_spec (λ p, node_id p =? node) (per_node r) (zseq 0 (node_count r)))
    as [(i & p & E & Hi & Hp & Hf) | [E Hn]].
  - apply Forall_forall. intros i ?%elem_of_zseq. lia.
  - left. exists i, p. apply elem_of_zseq in Hi. bools. split_and!; try done; lia.
  - right. split; [done |]. intros p (i & [Hi Hp] & Hid).
    assert (i ∈ zseq 0 (node_count r)) as Hz by (apply elem_of_zseq; lia).
    specialize (Hn i p Hz Hp). bools. done.
Qed.

(** Changing one pool. *)
Lemma update_pools q0 r i p p' :
  pools_ok q0 r → active r i p → pool_ok (quota q0 (node_id p)) p' → node_id p' = node_id p →
  pools_ok q0 (r <| per_node := <[Z.to_nat i := p']> (per_node r) |>) ∧
  (∀ node x, has_pool (r <| per_node := <[Z.to_nat i := p']> (per_node r) |>) node x ↔
     if node =? node_id p then x = p' else has_pool r node x).
Proof.
  intros Hr [Hi Hp] Hok Hid. pose proof (ro_len _ _ Hr) as Hl. pose proof (ro_count _ _ Hr) as Hc.
  unfold zlen in Hl. set (r' := r <| per_node := _ |>).
  assert (active r' i p') as Ai by (split; [done |]; cbn; apply list_lookup_insert_eq; lia).
  assert (∀ j x, j ≠ i → active r' j x ↔ active r j x) as Aj.
  { intros j x Hne. unfold active. cbn. rewrite (and_comm (0 <= j < _)), (and_comm (0 <= j < _) (_ = _)).
    split; (intros [Hx ?]; split; [| done]); rewrite list_lookup_insert_ne in * by lia; done. }
  assert (∀ j x, active r' j x → j ≠ i → node_id x ≠ node_id p) as Hne.
  { intros j x Hx Hj E. apply Hj, (ro_ids _ _ Hr j i x p); [by apply Aj | done | done]. }
  assert (∀ x, active r' i x → x = p') as Ui
    by (intros x [_ Hx]; destruct Ai as [_ Hy]; congruence).
  split.
  - split; [cbn; rewrite zlen_insert; exact (ro_len _ _ Hr) | done | | |].
    + intros j x Hx. destruct (decide (j = i)) as [-> | Hj].
      * apply Ui in Hx as ->. by rewrite Hid.
      * apply (ro_active _ _ Hr j). by apply Aj.
    + intros j k x y Hx Hy E. destruct (decide (j = i)) as [-> | Hj], (decide (k = i)) as [-> | Hk]; [done | | |].
      * apply Ui in Hx as ->. destruct (Hne k y Hy Hk). congruence.
      * apply Ui in Hy as ->. destruct (Hne j x Hx Hj). congruence.
      * apply (ro_ids _ _ Hr j k x y); [by apply Aj | by apply Aj | done].
    + intros j Hj. cbn in *. rewrite list_lookup_insert_ne by lia. by apply (ro_rest _ _ Hr).
  - intros node x. destruct (node =? node_id p) eqn:E; bools.
    + subst node. split.
      * intros (j & Hx & Ex). destruct (decide (j = i)) as [-> | Hj]; [by apply Ui |].
        by destruct (Hne j x Hx Hj).
      * intros ->. by exists i.
    + split; intros (j & Hx & Ex).
      * exists j. split; [| done]. apply Aj; [| done]. intros ->. apply Ui in Hx as ->. congruence.
      * exists j. split; [| done]. apply Aj; [| done]. intros ->. destruct Hx as [_ Hx]. congruence.
Qed.

Lemma with_pool_ok {A} q0 r node (none : A) f (R : NodeMemoryPool → A → NodeMemoryPool → Prop) :
  pools_ok q0 r →
  (∀ p, pool_ok (quota q0 node) p → node_id p = node →
     ∃ a p', f p = Done (a, p') ∧ pool_ok (quota q0 node) p' ∧ node_id p' = node ∧ R p a p') →
  ∃ a r', with_pool r node none f = Done (a, r') ∧ pools_ok q0 r' ∧ node_count r' = node_count r ∧
    ((∃ p p', has_pool r node p ∧ has_pool r' node p' ∧ R p a p') ∨
     ((∀ p, ¬ has_pool r node p) ∧ a = none ∧ r' = r)) ∧
    ∀ n p, n ≠ node → has_pool r' n p ↔ has_pool r n p.
Proof.
  intros Hr Hf. unfold with_pool. destruct (pool_index_spec q0 r node Hr) as [(i & p & -> & Ha & Hid) | [-> Hn]];
    cbn [mbind outcome_bind].
  - destruct (Hf p) as (a & p' & E & Hok & Hid' & HR); [| done |].
    { rewrite <-Hid. by eapply ro_active. }
    rewrite (proj2 (aget_lookup _ _ _)) by (destruct Ha; split; [lia | done]). cbn [mbind outcome_bind].
    rewrite E. cbn [mbind outcome_bind fst snd]. pose proof (ro_len _ _ Hr). pose proof (ro_count _ _ Hr).
    rewrite aset_in_range by (destruct Ha; lia). cbn [mbind outcome_bind].
    destruct (update_pools q0 r i p p' Hr Ha) as [Hr' Hp']; [by rewrite Hid | congruence |].
    eexists _, _. split; [done |]. split; [exact Hr' |]. split; [done |]. split.
    + left. exists p, p'. split; [by exists i |]. split; [| done].
      apply Hp'. by rewrite Hid, Z.eqb_refl.
    + intros n x Hne. rewrite Hp', Hid. by rewrite (proj2 (Z.eqb_neq _ _)).
  - eexists _, _. split; [done |]. split_and!; try done. by right.
Qed.

(** Tracking: refused without enough pages, and when the table is full, after
    the pages were taken. *)
Definition tracks (h sz : Z) (p : NodeMemoryPool) (b : bool) (p' : NodeMemoryPool) : Prop :=
  if available_pages p <? sz then b = false ∧ p' = p
  else b = (page_count p <? 256) ∧ available_pages p' = available_pages p - sz ∧
    page_count p' = (if b then page_count p + 1 else page_count p) ∧
    used p' = (if b then used p + sz else used p) ∧
    tracked p' = (if b then tracked p ++ [MkMeta h (node_id p) sz true] else tracked p).

Lemma track_remote_ok q0 r node h sz :
  pools_ok q0 r → 0 <= sz <= 16 →
  ∃ b r', track_remote_page r node h sz = Done (b, r') ∧ pools_ok q0 r' ∧
    node_count r' = node_count r ∧
    ((∃ p p', has_pool r node p ∧ has_pool r' node p' ∧ tracks h sz p b p') ∨
     ((∀ p, ¬ has_pool r node p) ∧ b = false ∧ r' = r)) ∧
    ∀ n p, n ≠ node → has_pool r' n p ↔ has_pool r n p.
Proof.
  intros Hr Hsz. apply with_pool_ok; [done |]. intros p Hp Hid. unfold tracks.
  rewrite Z.leb_antisym. destruct (available_pages p <? sz) eqn:E; cbn [negb]; bools.
  - by exists false, p.
  - destruct (track_ok _ p h sz Hp Hsz E) as (b & p' & ? & ? & ? & ? & ? & ? & ? & ?).
    exists b, p'. split_and!; congruence.
Qed.

Lemma release_remote_ok q0 r h :
  pools_ok q0 r →
  ∃ b r', release_remote_page r h = Done (b, r') ∧ pools_ok q0 r' ∧ node_count r' = node_count r ∧
    ((∃ p p', has_pool r (fst (decode_handle h)) p ∧ has_pool r' (fst (decode_handle h)) p' ∧
        page_count p' = page_count p ∧ released p h b p') ∨
     ((∀ p, ¬ has_pool r (fst (decode_handle h)) p) ∧ b = false ∧ r' = r)) ∧
    ∀ n p, n ≠ fst (decode_handle h) → has_pool r' n p ↔ has_pool r n p.
Proof.
  intros Hr. apply with_pool_ok; [done |]. intros p Hp Hid.
  destruct (release_ok _ p h Hp) as (b & p' & ? & ? & ? & ? & ?).
  exists b, p'. split_and!; congruence.
Qed.

Lemma active_grow q0 r pn p i x :
  pools_ok q0 r → node_count r < 8 →
  pn = <[Z.to_nat (node_count r) := p]> (per_node r) →
  active (r <| per_node := pn |> <| node_count := node_count r + 1 |>) i x ↔
    active r i x ∨ (i = node_count r ∧ x = p).
Proof.
  intros Hr Hc ->. pose proof (ro_len _ _ Hr). pose proof (ro_count _ _ Hr). unfold active, zlen in *. cbn.
  split.
  - intros [Hi Hx]. destruct (decide (i = node_count r)) as [-> | Hne].
    + rewrite list_lookup_insert_eq in Hx by lia. right. split; congruence.
    + rewrite list_lookup_insert_ne in Hx by lia. left. split; [lia | done].
  - intros [[Hi Hx] | [-> ->]]; (split; [lia |]).
    + by rewrite list_lookup_insert_ne by lia.
    + apply list_lookup_insert_eq. lia.
Qed.

(** A registered node has a pool; the others keep theirs. *)
Lemma pool_register_ok q0 r node :
  pools_ok q0 r → (node = 0 → q0 = 4096 ∨ ∃ p, has_pool r 0 p) →
  ∃ b r', register_node r node = Done (b, r') ∧ pools_ok q0 r' ∧
    (∀ n p, has_pool r n p → has_pool r' n p) ∧
    (∀ n p, has_pool r' n p → has_pool r n p ∨ (n = node ∧ p = NodeMemoryPool_new node)) ∧
    (b = true → ∃ p, has_pool r' node p).
Proof.
  intros Hr H0. pose proof (ro_len _ _ Hr) as Hl. pose proof (ro_count _ _ Hr) as Hc.
  unfold register_node, MAX_POOL_NODES.
  destruct (8 <=? node_count r) eqn:E8; [eexists _, _; split; [done |]; naive_solver |].
  destruct (8 <=? node) eqn:En; [eexists _, _; split; [done |]; naive_solver |]. bools.
  destruct (pool_index_spec q0 r node Hr) as [(i & p & -> & Ha & Hid) | [-> Hn]]; cbn [mbind outcome_bind].
  { eexists _, _. split; [done |]. split_and!; try done; [naive_solver |]. intros _. exists p. by exists i. }
  set (p := NodeMemoryPool_new node).
  assert ((if negb (node =? node_count r) then aset (per_node r) (node_count r) p else mret (per_node r))
          = Done (<[Z.to_nat (node_count r) := p]> (per_node r))) as ->.
  { destruct (node =? node_count r) eqn:E; cbn [negb]; bools.
    - unfold mret, outcome_ret. rewrite list_insert_id; [done |]. subst p. rewrite E. apply (ro_rest _ _ Hr). lia.
    - by rewrite aset_in_range by lia. }
  cbn [mbind outcome_bind]. eexists _, _. split; [reflexivity |].
  pose proof (λ i x, active_grow q0 r _ p i x Hr E8 eq_refl) as Hg.
  set (r' := r <| per_node := _ |> <| node_count := _ |>) in *.
  assert (∀ n x, has_pool r' n x ↔ has_pool r n x ∨ (n = node ∧ x = p)) as Hp.
  { intros n x. split.
    - intros (i & [Hi | [-> ->]]%Hg & Hid); [left; by exists i | by right].
    - intros [(i & Hi & Hid) | [-> ->]]; eexists; (split; [apply Hg; eauto | done]). }
  split; [| split_and!; [naive_solver | naive_solver | intros _; exists p; apply Hp; by right]].
  split.
  - cbn. by rewrite zlen_insert.
  - cbn. lia.
  - intros i x [Hi | [-> ->]]%Hg; [by eapply ro_active |]. cbn [node_id p NodeMemoryPool_new].
    unfold quota. destruct (node =? 0) eqn:E0; [| apply fresh_pool_ok]. bools. subst node.
    destruct H0 as [-> | [y Hy]]; [done | apply fresh_pool_ok | by destruct (Hn y)].
  - intros i j x y [Hi | [-> ->]]%Hg [Hj | [-> ->]]%Hg E; [by eapply ro_ids | | | done].
    + destruct (Hn x). exists i. by split.
    + destruct (Hn y). exists j. by split.
  - intros i Hi. cbn in Hi |- *. rewrite list_lookup_insert_ne by lia. apply (ro_rest _ _ Hr). lia.
Qed.

(** ** Reachable states *)

Inductive pool_step (s : rmem) : rmem → Prop :=
| do_register node b s' :
    is_byte node → register_mem_node s node = Done (b, s') → pool_step s s'
| do_alloc hart node n r s' :
    is_byte node → fits 64 n → remote_alloc_pages s hart node n = Done (r, s') → pool_step s s'
| do_free hart h b s' :
    fits 64 h → remote_free_page s hart h = Done (b, s') → pool_step s s'
| do_migrate hart pa from_node to_node r s' :
    migrate_page_local s hart pa from_node to_node = Done (r, s') → pool_step s s'
| do_other b :
    pool_step s (s <| buddies := b |>).

Definition pool_inv (q0 : Z) (s : rmem) : Prop :=
  pools_ok q0 (POOL s) ∧ ∃ p, has_pool (POOL s) 0 p.

(** The pools after [init] with [q] free pages. *)
Definition fresh_pools (q : Z) : RemoteMemPool :=
  MkMemPool (NodeMemoryPool_new 0 <| available_pages := q |> :: (NodeMemoryPool_new <$> zseq 1 7)) 1.

Definition free_pages_at (s : rmem) : Z :=
  u64 (total_pages (ALLOCATOR (buddies s)) - allocated_pages (ALLOCATOR (buddies s))).

Lemma init_run s : POOL s = RemoteMemPool_new → init s = Done (s <| POOL := fresh_pools (free_pages_at s) |>).
Proof. intros E. unfold init. rewrite E. reflexivity. Qed.

Lemma fresh_ok q : fits 64 q → pools_ok q (fresh_pools q) ∧ ∃ p, has_pool (fresh_pools q) 0 p.
Proof.
  intros Hq. split; [| eexists; exists 0; by split].
  assert (∀ i p, active (fresh_pools q) i p →
    i = 0 ∧ p = NodeMemoryPool_new 0 <| available_pages := q |>) as Hu.
  { intros i p [Hi Hp]. cbn in Hi. assert (i = 0) as -> by lia. split; [done |]. by injection Hp. }
  split; [done | cbn; lia | | |].
  - intros i p [-> ->]%Hu. change (quota q _) with q.
    assert (used (NodeMemoryPool_new 0 <| available_pages := q |>) = 0) as Hz by done.
    split; rewrite ?Hz; try done; cbn [available_pages page_count set_field]; unfold fits in *; lia.
  - intros i j p p' [-> _]%Hu [-> _]%Hu. done.
  - intros i Hi. cbn in Hi. cbn [per_node fresh_pools].
    replace (Z.to_nat i) with (S (Z.to_nat (i - 1))) by lia.
    rewrite lookup_cons_ne_0 by done. cbn [pred]. rewrite list_lookup_fmap.
    assert (zseq 1 7 !! Z.to_nat (i - 1) = Some i) as ->; [| done].
    unfold zseq. rewrite list_lookup_fmap, lookup_seq_lt by lia. cbn. f_equal. lia.
Qed.

Lemma pages_to_order_spec n :
  0 < n <= 16 → ∃ o, pages_to_order n = Done o ∧ 0 <= o <= 4 ∧ n <= 2 ^ o < 2 * n.
Proof.
  intros Hn. assert (n ∈ zseq 1 16) as Hin by (apply elem_of_zseq; lia).
  clear Hn. revert n Hin. apply Forall_forall. unfold zseq. cbn [fmap list_fmap seq Z.to_nat].
  vm_compute list_fmap.
  repeat constructor; eexists; (split; [reflexivity |]); cbn; lia.
Qed.

Lemma order_size o : 0 <= o <= 4 → 0 <= 2 ^ o <= 16.
Proof. intros. split; [lia |]. change 16 with (2 ^ 4). apply Z.pow_le_mono_r; lia. Qed.

(** The pool of [node] after a request: taken from, or as it was. *)
Lemma alloc_step q0 s hart node n r s' :
  pools_ok q0 (POOL s) → fits 64 n → remote_alloc_pages s hart node n = Done (r, s') →
  pools_ok q0 (POOL s') ∧
  ((POOL s' = POOL s ∧ r = None ∧
    ((n = 0 ∨ 16 < n) ∨ ∃ o b, pages_to_order n = Done o ∧ alloc_addr (buddies s) o = Done (None, b))) ∨
   ∃ o phys b, pages_to_order n = Done o ∧ 0 <= o <= 4 ∧
     alloc_addr (buddies s) o = Done (Some phys, b) ∧
     track_remote_page (POOL s) node (encode_handle node phys) (2 ^ o) = Done (bool_decide (is_Some r), POOL s') ∧
     (is_Some r → r = Some phys ∧ buddies s' = b)).
Proof.
  intros Hr Hn E. unfold remote_alloc_pages in E. unfold fits in Hn.
  destruct (_ || _) eqn:E0.
  { injection E as <- <-. apply orb_true_iff in E0. split; [done |]. left. split_and!; try done.
    left. destruct E0; bools; lia. }
  bools. destruct (pages_to_order_spec n) as (o & Eo & Ho & _); [lia |]. rewrite Eo in E. cbn [mbind outcome_bind] in E.
  destruct (alloc_addr (buddies s) o) as [[a b] | | |] eqn:Ea; try done. cbn [mbind outcome_bind] in E.
  destruct a as [phys |]; [| injection E as <- <-; split; [done |]; left; split_and!; eauto].
  pose proof (order_size o Ho) as Hs.
  destruct (track_remote_ok q0 (POOL s) node (encode_handle node phys) (2 ^ o) Hr Hs)
    as (t & r' & Et & Hok & _). rewrite Et in E. cbn [mbind outcome_bind fst snd] in E.
  destruct t.
  - injection E as <- <-. split; [done |]. right. exists o, phys, b. split_and!; try done; try lia.
  - destruct (free_page b hart phys o) as [b' | | |]; try done. injection E as <- <-.
    split; [done |]. right. exists o, phys, b. split_and!; try done; try lia.
Qed.

(** Pools stay, and their tables only grow. *)
Definition grows (r r' : RemoteMemPool) : Prop :=
  ∀ node p, has_pool r node p → ∃ p', has_pool r' node p' ∧ page_count p <= page_count p'.

Lemma grows_refl r : grows r r.
Proof. intros node p Hp. exists p. by split. Qed.

Lemma grows_more r1 r2 r3 : grows r1 r2 → grows r2 r3 → grows r1 r3.
Proof.
  intros H12 H23 node p (p2 & (p3 & ? & ?)%H23 & ?)%H12. exists p3. split; [done | lia].
Qed.

Lemma grows_update q0 r r' node :
  pools_ok q0 r →
  ((∃ p p', has_pool r node p ∧ has_pool r' node p' ∧ page_count p <= page_count p') ∨ r' = r) →
  (∀ n p, n ≠ node → has_pool r' n p ↔ has_pool r n p) → grows r r'.
Proof.
  intros Hr [(p & p' & Hp & Hp' & Hc) | ->] Ho; [| apply grows_refl]. intros n x Hx.
  destruct (decide (n = node)) as [-> | Hne].
  - rewrite (has_pool_unique _ _ _ _ _ Hr Hx Hp). by exists p'.
  - exists x. split; [by apply Ho | done].
Qed.

Lemma alloc_grows q0 s hart node n r s' :
  pools_ok q0 (POOL s) → fits 64 n → remote_alloc_pages s hart node n = Done (r, s') →
  pools_ok q0 (POOL s') ∧ grows (POOL s) (POOL s').
Proof.
  intros Hr Hn E. destruct (alloc_step q0 s hart node n r s' Hr Hn E)
    as [Hr' [[-> _] | (o & phys & b & _ & Ho & _ & Et & _)]]; [by split; [| apply grows_refl] |].
  split; [done |]. destruct (track_remote_ok q0 (POOL s) node (encode_handle node phys) (2 ^ o) Hr
    (order_size o Ho)) as (t & r1 & Et' & _ & _ & Hc & Hother).
  rewrite Et in Et'. injection Et' as <- <-. eapply grows_update; [done | | done].
  destruct Hc as [(p & p' & ? & ? & Ht) | (_ & _ & ->)]; [left | by right]. exists p, p'.
  split_and!; try done. unfold tracks in Ht. destruct (_ <? _); [by destruct Ht as [_ ->] |].
  destruct Ht as (_ & _ & -> & _). destruct (bool_decide _); lia.
Qed.

Lemma release_grows q0 r h b r' :
  pools_ok q0 r → release_remote_page r h = Done (b, r') → pools_ok q0 r' ∧ grows r r'.
Proof.
  intros Hr E. destruct (release_remote_ok q0 r h Hr) as (b' & r1 & E' & Hok & _ & Hc & Hother).
  rewrite E in E'. injection E' as <- <-. split; [done |]. eapply grows_update; [done | | done].
  destruct Hc as [(p & p' & ? & ? & ? & _) | (_ & _ & ->)]; [left | by right].
  exists p, p'. split_and!; try done. lia.
Qed.

Lemma pool_step_ok q0 s s' :
  pool_inv q0 s → pool_step s s' → pools_ok q0 (POOL s') ∧ grows (POOL s) (POOL s').
Proof.
  intros [Hr H0] [node b t Hn E | hart node n r t Hn Hf E | hart h b t Hf E | hart pa f d r t E | b].
  - unfold register_mem_node in E. destruct (pool_register_ok q0 (POOL s) node Hr) as (b' & r' & E' & Hok & Hk & _);
      [intros; by right |]. rewrite E' in E. injection E as <- <-. split; [done |].
    intros n p Hp. exists p. split; [by apply Hk | lia].
  - by eapply alloc_grows.
  - unfold remote_free_page in E. destruct (release_remote_page (POOL s) h) as [[bb r'] | | |] eqn:Er; try done.
    destruct (release_grows q0 _ _ _ _ Hr Er) as [? ?]. cbn [mbind outcome_bind fst snd] in E.
    destruct bb; [| by injection E as <- <-].
    destruct (free_page _ hart _ 0) as [b2 | | |]; try done. by injection E as <- <-.
  - unfold migrate_page_local in E. destruct (_ || _); [injection E as <- <-; by split; [| apply grows_refl] |].
    destruct (f =? d); [injection E as <- <-; by split; [| apply grows_refl] |].
    unfold remote_alloc_page in E.
    destruct (remote_alloc_pages s hart d 1) as [[[new |] t1] | | |] eqn:Ea; try done; cbn [mbind outcome_bind] in E.
    + destruct (alloc_grows q0 s hart d 1 _ _ Hr ltac:(done) Ea) as [Hr1 Hg1].
      destruct (release_remote_page (POOL t1) (encode_handle f pa)) as [[bb r'] | | |] eqn:Er; try done.
      cbn [mbind outcome_bind] in E. destruct (free_page _ hart pa 0) as [b2 | | |]; try done.
      injection E as <- <-. destruct (release_grows _ _ _ _ _ Hr1 Er) as [? Hg2].
      split; [done | by eapply grows_more].
    + injection E as <- <-. by apply (alloc_grows q0 s hart d 1 None).
  - split; [done | apply grows_refl].
Qed.

Lemma steps_ok q0 s s' :
  pool_inv q0 s → rtc pool_step s s' → pool_inv q0 s' ∧ grows (POOL s) (POOL s').
Proof.
  intros Hs Hst. induction Hst as [s | s t u Hstep _ IH]; [by split; [| apply grows_refl] |].
  destruct (pool_step_ok q0 s t Hs Hstep) as [Ht Hg]. destruct Hs as [_ [p0 Hp0]].
  destruct (Hg 0 p0 Hp0) as (p1 & Hp1 & _).
  destruct IH as [? ?]; [by split; [| eexists] |]. split; [done | by eapply grows_more].
Qed.

(** ** What the calls report *)

Lemma used_pages_run q p : pool_ok q p → used_pages p = Done (used p).
Proof.
  intros Hp. pose proof (po_len _ _ Hp). pose proof (po_count _ _ Hp) as Hc. unfold zlen in *.
  destruct (for_each_inv (λ i n, n = zsum weight (take (Z.to_nat i) (pages p)))
    (λ n i, m ← aget (pages p) i; mret (if in_use m then u64 (n + size m) else n))
    0 (page_count p) 0) as (u & E & ->); [lia | done | | exact E].
  intros i n Hi ->. destruct (lookup_lt_is_Some_2 (pages p) (Z.to_nat i)) as [m Em]; [lia |].
  rewrite (proj2 (aget_lookup _ _ _)) by (split; [lia | done]). eexists. split; [reflexivity |].
  replace (Z.to_nat (i + 1)) with (S (Z.to_nat i)) by lia.
  rewrite (take_S_r _ _ m Em), zsum_app. cbn [zsum]. change (weight m) with (if in_use m then size m else 0).
  pose proof (zsum_bound weight (take (Z.to_nat i) (pages p)) 16) as Hb.
  pose proof (po_sizes _ _ Hp) as Hs. unfold tracked in Hs.
  pose proof (Forall_lookup_1 _ _ _ _ Hs (tracked_lookup p i m Hi Em)) as Hm. cbn in Hm.
  destruct Hb.
  { replace (Z.to_nat i) with (Z.to_nat i `min` Z.to_nat (page_count p))%nat by lia.
    rewrite <-take_take. apply Forall_take. eapply Forall_impl; [exact Hs |]. intros. by apply weight_bound. }
  assert (zlen (take (Z.to_nat i) (pages p)) <= 256) by (unfold zlen; rewrite length_take; lia).
  destruct (in_use m); [| lia]. rewrite wrap_small; unfold fits; lia.
Qed.

Lemma available_run q0 r node p :
  pools_ok q0 r → has_pool r node p → available_for_node r node = Done (available_pages p).
Proof.
  intros Hr Hp. unfold available_for_node.
  destruct (pool_index_spec q0 r node Hr) as [(i & p' & -> & Ha & Hid) | [_ Hn]]; [| by destruct (Hn p)].
  cbn [mbind outcome_bind]. assert (p' = p) as -> by (eapply has_pool_unique; [done | by exists i | done]).
  destruct Ha. by rewrite (proj2 (aget_lookup _ _ _)) by (split; [lia | done]).
Qed.

(** Pages of the pool are accounted for.  After initialisation and any
    sequence of registrations, requests, releases and migrations, with any use of
    the page allocator in between, each node has one pool; the pages it reports as
    available and those it reports as in use never exceed what the node was given
    (4096, or for node 0 the pages that were free), and they add up to exactly
    that as long as its table of 256 entries is not full. *)
Theorem pool_accounting (s0 s1 s : rmem) (node : Z) (p : NodeMemoryPool) :
  POOL s0 = RemoteMemPool_new → init s0 = Done s1 → rtc pool_step s1 s →
  has_pool (POOL s) node p →
  ∃ avail u, get_available_pages s node = Done avail ∧ used_pages p = Done u ∧
    0 <= avail ∧ 0 <= u ∧ avail + u <= quota (free_pages_at s0) node ∧
    (page_count p < 256 → avail + u = quota (free_pages_at s0) node) ∧
    ∀ p', has_pool (POOL s) node p' → p' = p.
Proof.
  intros E0 E1 Hst Hp. rewrite (init_run s0 E0) in E1. injection E1 as <-.
  assert (fits 64 (free_pages_at s0)) as Hq by (apply wrap_bound; lia).
  destruct (steps_ok (free_pages_at s0) (MkRmem (fresh_pools (free_pages_at s0)) (buddies s0)) s
    ltac:(exact (fresh_ok _ Hq)) Hst) as [[Hr _] _].
  destruct Hp as (i & Hi & Hid). pose proof (ro_active _ _ Hr i p Hi) as Hok. rewrite Hid in Hok.
  assert (has_pool (POOL s) node p) as Hp by (by exists i).
  exists (available_pages p), (used p). pose proof (used_bound _ _ Hok).
  split_and!; [by eapply available_run | by eapply used_pages_run | apply Hok | lia | apply Hok | apply Hok |].
  intros p' Hp'. by eapply has_pool_unique.
Qed.

Definition ex_rmem : rmem := MkRmem RemoteMemPool_new (boot ex_buddy).
Definition ex_pool1 : rmem :=
  match remote_alloc_pages (get_done ex_rmem (init ex_rmem)) 0 0 3 with
  | Done (_, s) => s
  | _ => ex_rmem
  end.

Lemma ex_pool1_step : pool_step (get_done ex_rmem (init ex_rmem)) ex_pool1.
Proof.
  apply (do_alloc _ 0 0 3 (Some 2147483648)); [done | done |]. vm_compute. reflexivity.
Qed.

Lemma pool_accounting_witness :
  ∃ p avail u, has_pool (POOL ex_pool1) 0 p ∧ get_available_pages ex_pool1 0 = Done avail ∧
    used_pages p = Done u ∧ avail + u = 16.
Proof.
  destruct (per_node (POOL ex_pool1)) as [| p l] eqn:Ep; [vm_compute in Ep; discriminate Ep |].
  assert (has_pool (POOL ex_pool1) 0 p) as Hp.
  { exists 0. split; [split; [vm_compute; split; done || discriminate | rewrite Ep; reflexivity] |].
    assert (node_id <$> head (per_node (POOL ex_pool1)) = Some 0) as E by (vm_compute; reflexivity).
    rewrite Ep in E. by injection E. }
  destruct (pool_accounting ex_rmem (get_done ex_rmem (init ex_rmem)) ex_pool1 0 p) as
    (avail & u & Ha & Hu & _ & _ & _ & Hx & _);
    [reflexivity | vm_compute; reflexivity | apply rtc_once, ex_pool1_step | exact Hp |].
  exists p, avail, u. split; [exact Hp |]. split; [exact Ha |]. split; [exact Hu |]. apply Hx.
  assert (page_count <$> head (per_node (POOL ex_pool1)) = Some 1) as E by (vm_compute; reflexivity).
  rewrite Ep in E. injection E as ->. done.
Defined.

(** A handle gives back the node and the address of the page it was made from,
    for every node and every page of the address space. *)
Lemma decode_encode (node pa : Z) :
  is_byte node → fits 64 pa → pa mod 4096 = 0 → decode_handle (encode_handle node pa) = (node, pa).
Proof.
  intros Hn Hp Ha. unfold is_byte, fits in *.
  assert (encode_handle node pa = node * 2 ^ 56 + pa / 4096) as ->.
  { unfold encode_handle. change 0xFFFFFFFFFFFFFF with (Z.ones 56).
    rewrite Z.land_ones, Z.shiftl_mul_pow2, Z.shiftr_div_pow2 by lia. change (2 ^ 12) with 4096.
    rewrite wrap_small by (unfold fits; lia). rewrite (Z.mod_small (pa / 4096)) by dlia.
    apply (lor_low _ _ 56); [lia | apply Z_mod_mult | dlia]. }
  unfold decode_handle. change 0xFFFFFFFFFFFFFF with (Z.ones 56).
  rewrite Z.land_ones, Z.shiftl_mul_pow2, Z.shiftr_div_pow2 by lia.
  assert (0 <= pa / 4096 < 2 ^ 52) by dlia.
  rewrite Z.div_add_l, (Z.div_small (pa / 4096)), Z.add_0_r by lia.
  rewrite (Z.add_comm (node * _)), Z_mod_plus_full, (Z.mod_small (pa / 4096)) by lia.
  rewrite !wrap_small by (unfold fits; dlia). f_equal. change (2 ^ 12) with 4096. dlia.
Qed.

(** A table entry is never used again.  Once a node has had 256 requests
    granted, whatever is released later, every further request for the node
    fails; and when the pool reports enough pages and the allocator has a block,
    the request that failed has taken those pages off the pool for good. *)
Theorem table_fills_up (q0 : Z) (s s' : rmem) (node hart n : Z) (p : NodeMemoryPool)
    (r : option Z) (s'' : rmem) :
  pool_inv q0 s → has_pool (POOL s) node p → page_count p = 256 → rtc pool_step s s' →
  fits 64 n → remote_alloc_pages s' hart node n = Done (r, s'') →
  r = None ∧ ∃ p' p'', has_pool (POOL s') node p' ∧ has_pool (POOL s'') node p'' ∧
    page_count p'' = 256 ∧
    ∀ o phys b, 0 < n <= 16 → pages_to_order n = Done o →
      alloc_addr (buddies s') o = Done (Some phys, b) → 2 ^ o <= available_pages p' →
      available_pages p'' = available_pages p' - 2 ^ o.
Proof.
  intros Hs Hp Hfull Hst Hn E. destruct (steps_ok q0 s s' Hs Hst) as [[Hr' _] Hg].
  destruct (Hg node p Hp) as (p' & Hp' & Hc).
  assert (page_count p' = 256) as Hfull'.
  { destruct Hp' as (i & Hi & _). pose proof (po_count _ _ (ro_active _ _ Hr' _ _ Hi)). lia. }
  destruct (alloc_step q0 s' hart node n r s'' Hr' Hn E) as [Hr'' [(Hsame & -> & Hwhy) | (o & phys & b & Eo & Ho & Ea & Et & _)]].
  - split; [done |]. exists p', p'. rewrite Hsame. split_and!; try done.
    intros o phys b ? Eo Ea. destruct Hwhy as [? | (o' & b' & Eo' & Ea')]; [lia |]. congruence.
  - destruct (track_remote_ok q0 (POOL s') node (encode_handle node phys) (2 ^ o) Hr' (order_size o Ho))
      as (t & r1 & Et' & _ & _ & [(x & p'' & Hx & Hp'' & Ht) | (Hno & _)] & _); [| by destruct (Hno p')].
    rewrite Et in Et'. injection Et' as <- <-. rewrite (has_pool_unique _ _ _ _ _ Hr' Hx Hp') in Ht.
    unfold tracks in Ht. rewrite Hfull' in Ht.
    assert (r = None ∧ page_count p'' = 256 ∧
      (2 ^ o <= available_pages p' → available_pages p'' = available_pages p' - 2 ^ o)) as (-> & ? & Hav).
    { destruct (_ <? 2 ^ o) eqn:Elt; bools.
      - destruct Ht as [Hb%bool_decide_eq_false_1 ->]. split_and!; [by apply eq_None_not_Some | done | lia].
      - destruct Ht as (Hb & -> & -> & _). rewrite Hb. cbn in Hb. apply bool_decide_eq_false_1 in Hb.
        split_and!; [by apply eq_None_not_Some | done | done]. }
    split; [done |]. exists p', p''. split_and!; try done. intros o' ? ? _ Eo' _.
    rewrite Eo in Eo'. by injection Eo' as <-.
Qed.

Definition worn_pool : NodeMemoryPool :=
  NodeMemoryPool_new 0 <| available_pages := 16 |> <| page_count := 256 |>.
Definition ex_worn : rmem :=
  MkRmem (fresh_pools 16 <| per_node := <[Z.to_nat 0 := worn_pool]> (per_node (fresh_pools 16)) |>) (boot ex_buddy).

Lemma ex_worn_inv : pool_inv 16 ex_worn ∧ has_pool (POOL ex_worn) 0 worn_pool.
Proof.
  assert (pool_ok 16 worn_pool) as Hw.
  { assert (used worn_pool = 0) as Hu by (vm_compute; reflexivity).
    split; rewrite ?Hu; try done. unfold tracked. vm_compute take. repeat constructor; cbn; lia. }
  destruct (fresh_ok 16) as [Hf _]; [done |].
  destruct (update_pools 16 (fresh_pools 16) 0 (NodeMemoryPool_new 0 <| available_pages := 16 |>) worn_pool Hf)
    as [Hr Hp]; [by split | exact Hw | done |].
  assert (has_pool (POOL ex_worn) 0 worn_pool) as Hh by (apply Hp; done).
  split; [split; [exact Hr | by exists worn_pool] | exact Hh].
Qed.

Lemma table_fills_up_witness :
  ∃ s'', remote_alloc_pages ex_worn 0 0 1 = Done (None, s'') ∧
    ∃ p'', has_pool (POOL s'') 0 p'' ∧ page_count p'' = 256.
Proof.
  destruct (remote_alloc_pages ex_worn 0 0 1) as [[r s''] | | |] eqn:E;
    [| vm_compute in E; discriminate E ..].
  destruct (table_fills_up 16 ex_worn ex_worn 0 0 1 worn_pool r s'' (proj1 ex_worn_inv) (proj2 ex_worn_inv)
    eq_refl (rtc_refl _ _)) as (-> & p' & p'' & _ & Hp & Hc & _); [split; reflexivity || discriminate | exact E |].
  exists s''. split; [reflexivity |]. exists p''. split; assumption.
Defined.

(** ** The allocator's counter *)

Lemma push_free_count b page o b' :
  push_free b page o = Done b' → allocated_pages b' = allocated_pages b.
Proof. intros (h & _ & (f & _ & [= <-])%bind_Done)%bind_Done. done. Qed.

Lemma pop_free_count b o r b' :
  pop_free b o = Done (r, b') → allocated_pages b' = allocated_pages b.
Proof.
  intros ([p |] & _ & E)%bind_Done; [| by injection E as _ <-].
  apply bind_Done in E as (f & _ & [= _ <-]). done.
Qed.

Lemma split_loop_count k b o t r b' :
  split_loop k b o t = Done (r, b') → allocated_pages b' = allocated_pages b.
Proof.
  revert b o r b'. induction k as [| k IH]; intros b o r b'; cbn [split_loop]; destruct (o <=? t); try done.
  intros ([x b1] & E1%pop_free_count & (st & _ & (b2 & E2%push_free_count & E)%bind_Done)%bind_Done)%bind_Done.
  cbn [snd] in E2. destruct (t <? _).
  - apply bind_Done in E as (b3 & E3%push_free_count & E%IH). congruence.
  - injection E as _ <-. congruence.
Qed.

Lemma alloc_loop_count b o os pg b' :
  Forall (λ x, o <= x) os →
  alloc_loop b o os = Done (Some pg, b') → allocated_pages b' = u64 (allocated_pages b + 2 ^ o).
Proof.
  induction 1 as [| x os Hx _ IH]; [done |]. cbn [alloc_loop].
  intros ([hd |] & _ & E)%bind_Done; [| by apply IH]. destruct (o <? x) eqn:Eo; bools.
  - apply bind_Done in E as ([st b1] & E1%split_loop_count & [= _ <-]). cbn [snd set_allocated allocated_pages] in *.
    by rewrite E1.
  - apply bind_Done in E as ([st b1] & E1%pop_free_count & (pg' & _ & [= _ <-])%bind_Done).
    cbn [snd set_allocated allocated_pages] in *. rewrite E1. do 3 f_equal. lia.
Qed.

Lemma alloc_addr_count a o pa a' :
  alloc_addr a o = Done (Some pa, a') →
  fits 64 pa ∧ allocated_pages (ALLOCATOR a') = u64 (allocated_pages (ALLOCATOR a) + 2 ^ o).
Proof.
  intros ([[p |] b] & E & [= <- <-])%bind_Done. cbn [fst snd ALLOCATOR] in *.
  unfold alloc_pages in E. destruct (MAX_ORDER <? o); [done |]. split; [apply wrap_bound; lia |].
  eapply alloc_loop_count; [| exact E]. apply Forall_forall. intros x ?%elem_of_zseq. lia.
Qed.

Lemma merge_loop_count k b pg o r b' :
  merge_loop k b pg o = Done (r, b') → allocated_pages b' = allocated_pages b.
Proof.
  revert b pg o r b'. induction k as [| k IH]; intros b pg o r b'; cbn [merge_loop];
    (destruct (MAX_ORDER <=? o); [by intros [= _ <-] |]); [done |].
  destruct (negb _); [by intros [= _ <-] |].
  intros (h & _ & ([f pv] & _ & E)%bind_Done)%bind_Done. cbn [fst snd] in E.
  destruct (negb f); [by injection E as _ <- |].
  apply bind_Done in E as (b1 & E1 & E%IH). rewrite E. unfold unlink in E1.
  destruct pv; [by injection E1 as <- |]. by apply bind_Done in E1 as (fl & _ & [= <-]).
Qed.

Lemma free_page_count a hart addr a' :
  free_page a hart addr 0 = Done a' →
  allocated_pages (ALLOCATOR a') = allocated_pages (ALLOCATOR a) ∨
  allocated_pages (ALLOCATOR a') = u64 (allocated_pages (ALLOCATOR a) - 1).
Proof.
  unfold free_page. cbn [Z.eqb]. intros ([c a1] & E1 & E)%bind_Done. cbn [fst snd] in E.
  assert (ALLOCATOR a1 = ALLOCATOR a) as Ha.
  { unfold free_page_fast in E1. destruct (MAX_CPU_HARTS <=? hart); [by injection E1 as _ <- |].
    apply bind_Done in E1 as (k & _ & E1). destruct (count k <? _); [| by injection E1 as _ <-].
    by apply bind_Done in E1 as (l & _ & (cs & _ & [= _ <-])%bind_Done). }
  destruct c; [injection E as <-; left; congruence |].
  apply bind_Done in E as (b & E & [= <-]). right. cbn [ALLOCATOR]. rewrite Ha in E.
  unfold free_pages, try_merge in E. cbn [Z.ltb Z.compare MAX_ORDER] in E.
  apply bind_Done in E as ([[pg o] b1] & E1'%merge_loop_count & E2%push_free_count).
  cbn [snd] in *. rewrite E2, E1'. done.
Qed.

(** A granted request has added its entry to the table. *)
Lemma granted q0 s hart node n pa s1 :
  pools_ok q0 (POOL s) → fits 64 n → remote_alloc_pages s hart node n = Done (Some pa, s1) →
  ∃ o p p1, pages_to_order n = Done o ∧ 0 <= o <= 4 ∧ fits 64 pa ∧
    has_pool (POOL s) node p ∧ has_pool (POOL s1) node p1 ∧ pools_ok q0 (POOL s1) ∧
    available_pages p1 = available_pages p - 2 ^ o ∧
    tracked p1 = tracked p ++ [MkMeta (encode_handle node pa) (node_id p) (2 ^ o) true] ∧
    allocated_pages (ALLOCATOR (buddies s1)) = u64 (allocated_pages (ALLOCATOR (buddies s)) + 2 ^ o).
Proof.
  intros Hr Hn E. destruct (alloc_step q0 s hart node n _ s1 Hr Hn E)
    as [Hr1 [(_ & [=] & _) | (o & phys & b & Eo & Ho & Ea & Et & Hs)]].
  destruct Hs as [[= <-] Hb]; [done |]. apply alloc_addr_count in Ea as [Hf Hc].
  destruct (track_remote_ok q0 (POOL s) node (encode_handle node pa) (2 ^ o) Hr (order_size o Ho))
    as (t & r1 & Et' & _ & _ & [(p & p1 & Hp & Hp1 & Ht) | (_ & -> & _)] & _);
    rewrite Et in Et'; [| discriminate Et'].
  injection Et' as <- <-. exists o, p, p1.
  unfold tracks in Ht. destruct (_ <? _); [by destruct Ht |]. destruct Ht as (_ & ? & _ & _ & ?).
  rewrite Hb. split_and!; done || lia.
Qed.

(** A block of several pages is lost when it is freed.  Freeing the handle of
    a granted request succeeds and the pool reports as many pages available as
    before the request; but of the [2^o] pages the request took from the page
    allocator, at most one is back. *)
Theorem free_returns_one_page (q0 : Z) (s s1 s2 : rmem) (hart hart' node n pa : Z) (b : bool) :
  pools_ok q0 (POOL s) → is_byte node → fits 64 n →
  allocated_pages (ALLOCATOR (buddies s)) + 16 < 2 ^ 64 →
  0 <= allocated_pages (ALLOCATOR (buddies s)) →
  remote_alloc_pages s hart node n = Done (Some pa, s1) → pa mod 4096 = 0 →
  (∀ p m, has_pool (POOL s) node p → m ∈ tracked p → handle m = encode_handle node pa → in_use m = false) →
  remote_free_page s1 hart' (encode_handle node pa) = Done (b, s2) →
  b = true ∧ get_available_pages s2 node = get_available_pages s node ∧
  ∃ o, pages_to_order n = Done o ∧
    allocated_pages (ALLOCATOR (buddies s)) + 2 ^ o - 1 <= allocated_pages (ALLOCATOR (buddies s2)).
Proof.
  intros Hr Hnode Hn Hmax Hmin E Hal Hfresh E2.
  destruct (granted q0 s hart node n pa s1 Hr Hn E)
    as (o & p & p1 & Eo & Ho & Hf & Hp & Hp1 & Hr1 & Hav & Ht & Hc).
  set (h := encode_handle node pa) in *.
  assert (decode_handle h = (node, pa)) as Hd by (by apply decode_encode).
  unfold remote_free_page in E2.
  destruct (release_remote_ok q0 (POOL s1) h Hr1) as (c & r2 & Er & Hr2 & _ & Hrel & _).
  rewrite Hd in Hrel. cbn [fst] in Hrel. rewrite Er, Hd in E2. cbn [mbind outcome_bind fst snd] in E2.
  destruct Hrel as [(x & p2 & Hx & Hp2 & _ & Hrel) | (Hno & _)]; [| by destruct (Hno p1)].
  rewrite (has_pool_unique _ _ _ _ _ Hr1 Hx Hp1) in Hrel. destruct c.
  - destruct Hrel as (i & m & Hi & Hh & Hu & Hav2 & _). rewrite Ht in Hi.
    apply lookup_app_Some in Hi as [Hi | [_ Hi]].
    { apply list_elem_of_lookup_2 in Hi. rewrite (Hfresh p m Hp Hi Hh) in Hu. done. }
    apply list_lookup_singleton_Some in Hi as [_ <-]. cbn [size] in Hav2.
    apply bind_Done in E2 as (b2 & Ef%free_page_count & [= <- <-]). split; [done |].
    assert (available_pages p2 = available_pages p) as Hsame by lia. split.
    + unfold get_available_pages. cbn [POOL].
      by rewrite (available_run _ _ _ _ Hr2 Hp2), (available_run _ _ _ _ Hr Hp), Hsame.
    + exists o. split; [done |]. pose proof (order_size o Ho). assert (1 <= 2 ^ o) by lia.
      cbn [buddies]. rewrite Hc in Ef. rewrite (wrap_small 64) in Ef by (unfold fits; lia).
      destruct Ef as [-> | ->]; [lia |]. rewrite wrap_small by (unfold fits; lia). lia.
  - destruct Hrel as [_ Hno]. assert (MkMeta h (node_id p) (2 ^ o) true ∈ tracked p1) as Hin.
    { rewrite Ht. apply elem_of_app. right. by apply list_elem_of_singleton. }
    by specialize (Hno _ Hin eq_refl).
Qed.

Definition ex_pool0 : rmem := get_done ex_rmem (init ex_rmem).
Definition ex_pool2 : rmem :=
  match remote_free_page ex_pool1 0 (encode_handle 0 2147483648) with
  | Done (_, s) => s
  | _ => ex_rmem
  end.

Lemma free_returns_one_page_witness :
  remote_alloc_pages ex_pool0 0 0 3 = Done (Some 2147483648, ex_pool1) ∧
  ∃ b, remote_free_page ex_pool1 0 (encode_handle 0 2147483648) = Done (b, ex_pool2) ∧ b = true ∧
    get_available_pages ex_pool2 0 = get_available_pages ex_pool0 0 ∧
    ∃ o, pages_to_order 3 = Done o ∧ 2 ^ o - 1 <= allocated_pages (ALLOCATOR (buddies ex_pool2)).
Proof.
  assert (remote_alloc_pages ex_pool0 0 0 3 = Done (Some 2147483648, ex_pool1)) as E by (vm_compute; reflexivity).
  split; [exact E |]. exists true.
  assert (remote_free_page ex_pool1 0 (encode_handle 0 2147483648) = Done (true, ex_pool2)) as E2
    by (vm_compute; reflexivity).
  split; [exact E2 |].
  assert (POOL ex_pool0 = fresh_pools 16) as Ep by (vm_compute; reflexivity).
  apply (free_returns_one_page 16 ex_pool0 ex_pool1 ex_pool2 0 0 0 3 2147483648 true); try exact E; try exact E2.
  - rewrite Ep. apply fresh_ok. split; reflexivity || discriminate.
  - split; reflexivity || discriminate.
  - split; reflexivity || discriminate.
  - vm_compute. reflexivity.
  - vm_compute. discriminate.
  - reflexivity.
  - rewrite Ep. intros p m (i & [Hi Hp] & _) Hm. cbn in Hi. assert (i = 0) as -> by lia.
    injection Hp as <-. exact (False_ind _ (not_elem_of_nil _ Hm)).
Defined.

Lemma free_then_alloc a hart addr c a' :
  0 <= hart < MAX_CPU_HARTS → aget (CPU_CACHES a) hart = Done c → 0 <= count c < CPU_CACHE_SIZE →
  zlen (cached c) = CPU_CACHE_SIZE → free_page a hart addr 0 = Done a' →
  ∃ a'', alloc_page a' hart = Done (Some addr, a'').
Proof.
  intros Hh Ec Hc Hl E. pose proof (aget_done_range _ _ _ Ec) as Hr. unfold CPU_CACHE_SIZE in *.
  unfold free_page in E. cbn [Z.eqb] in E. unfold free_page_fast in E.
  rewrite (proj2 (Z.leb_gt _ _)), Ec in E by lia. cbn [mbind outcome_bind] in E.
  unfold CPU_CACHE_SIZE in E. rewrite (proj2 (Z.ltb_lt _ _)), aset_in_range in E by lia.
  cbn [mbind outcome_bind] in E. rewrite aset_in_range in E by lia.
  cbn [mbind outcome_bind mret outcome_ret fst snd] in E. injection E as <-.
  unfold alloc_page, alloc_page_fast. rewrite (proj2 (Z.leb_gt _ _)) by lia. cbn [CPU_CACHES].
  rewrite aget_insert_eq by lia. cbn [mbind outcome_bind count cached].
  rewrite (proj2 (Z.ltb_lt _ _)), aset_in_range by (rewrite ?zlen_insert; lia). cbn [mbind outcome_bind].
  rewrite Z.add_simpl_r, aget_insert_eq by lia. by eexists.
Qed.

(** Migration frees memory it does not own.  When it succeeds, the page at
    the address the caller named is handed out by the next allocation on the hart,
    whether or not the pool, or the caller, ever had it; the addresses the call
    refuses are 0 and those inside a page. *)
Theorem migrate_frees_any_page (s s' : rmem) (hart pa from_node to_node new : Z) (c : PerCpuPageCache) :
  0 <= hart < MAX_CPU_HARTS → aget (CPU_CACHES (buddies s)) hart = Done c →
  0 <= count c < CPU_CACHE_SIZE → zlen (cached c) = CPU_CACHE_SIZE →
  migrate_page_local s hart pa from_node to_node = Done (Ok new, s') →
  ∃ a, alloc_page (buddies s') hart = Done (Some pa, a).
Proof.
  intros Hh Ec Hc Hl E. unfold migrate_page_local in E.
  destruct (_ || _); [done |]. destruct (_ =? to_node); [done |].
  apply bind_Done in E as ([[n |] s1] & E1 & E); [| done].
  apply bind_Done in E as (y & _ & (b2 & Ef & [= <- <-])%bind_Done).
  assert (CPU_CACHES (buddies s1) = CPU_CACHES (buddies s)) as Hcs.
  { unfold remote_alloc_page, remote_alloc_pages in E1. cbn [Z.eqb Z.ltb Z.compare orb] in E1.
    apply bind_Done in E1 as (o & _ & ([[phys |] b] & Ea & E1)%bind_Done); [| done].
    apply bind_Done in E1 as ([t r] & _ & E1). cbn [fst snd] in E1. destruct t.
    - injection E1 as _ <-. cbn [buddies]. by apply bind_Done in Ea as (x & _ & [= _ <-]).
    - by apply bind_Done in E1 as (b' & _ & [=]). }
  cbn [buddies]. eapply free_then_alloc; [exact Hh | | exact Hc | exact Hl | exact Ef].
  cbn [CPU_CACHES]. by rewrite Hcs.
Qed.

Definition succeeds {A} (x : outcome (result string Z * A)) : bool :=
  match x with Done (Ok _, _) => true | _ => false end.

Lemma migrate_frees_any_page_witness :
  ∃ new s' a, migrate_page_local ex_pool0 0 (ex_base + 12 * PAGE_SIZE) 7 0 = Done (Ok new, s') ∧
    alloc_page (buddies s') 0 = Done (Some (ex_base + 12 * PAGE_SIZE), a).
Proof.
  assert (succeeds (migrate_page_local ex_pool0 0 (ex_base + 12 * PAGE_SIZE) 7 0) = true) as Hok
    by (vm_compute; reflexivity).
  destruct (migrate_page_local ex_pool0 0 (ex_base + 12 * PAGE_SIZE) 7 0) as [[[new | e] s'] | | |] eqn:E;
    [| discriminate Hok ..].
  destruct (migrate_frees_any_page ex_pool0 s' 0 (ex_base + 12 * PAGE_SIZE) 7 0 new
    (PageCache (replicate 8 0) 0)) as [a Ha];
    [split; [discriminate | reflexivity] | vm_compute; reflexivity | split; [discriminate | reflexivity]
    | reflexivity | exact E |].
  exists new, s', a. split; [reflexivity | exact Ha].
Defined.
End Pool.
