(* ===== verification/Remote.v ===== *)
(** * Nodes of a cluster

    distributed/mod.rs: the table of remote nodes and endpoints, heartbeats,
    messages and capabilities for other nodes, and the buffer of messages
    received.  Packets ([Wire]) travel as messages of 64 bytes to the endpoint 200 +
    node of the IPC component ([Ipc]); capabilities come from [Cap], pages from
    [Pool].  The state [dist] holds these components side by side.

    The mutexes of the file are left out: each function takes them one inside the
    other in one order and none twice, and nothing it calls takes them.  The calls
    that wait give up the hart between two looks at the state; what other threads do
    in between is the argument [resume].

    The theorems: the receive buffer is a queue of 32 messages that forgets the
    oldest when it is full ([rcv_refines_queue]); a message sent to a node is in the
    node's mailbox, in the bytes its receiver reads ([remote_send_exact]), unless
    its size makes the kernel panic; sending a capability always panics
    ([remote_mint_panics]) and none is ever accepted ([no_cap_arrives]); the answer
    to a heartbeat goes to the node that answers ([pong_goes_home]); a probe ends at
    the first answer, at the deadline or after 201 looks, if the scheduler comes back
    to it ([probe_returns]). *)
From Stdlib Require Import String.
From S2P Require Import Prelude Proc Queue Sched Cap Ipc Wire Pool.
Open Scope list_scope.

Module Remote.
Import Wire.
#[local] Existing Instance Cap.cap_lock_eq_dec.
#[local] Existing Instance Cap.CapType_eq_dec.

Definition MAX_REMOTE_NODES : Z := 8.
Definition MAX_REMOTE_EPS : Z := 16.
Definition MAX_RCV_BUF_MSGS : Z := 32.
Definition HEARTBEAT_INTERVAL : Z := 500.
Definition DIST_EP_BASE : Z := 200.

Record RemoteNode : Type := MkNode {
  node_id : Z;
  ip_addr : list Z;
  port : Z;
  online : bool;
  last_seen_tick : Z;
  failed_pings : Z;
  registered : bool;
}.
#[export] Instance RemoteNode_eta : Eta RemoteNode := λ n,
  MkNode (node_id n) (ip_addr n) (port n) (online n) (last_seen_tick n) (failed_pings n) (registered n).

Definition EMPTY_NODE : RemoteNode := MkNode 0 (replicate 16 0) 0 false 0 0 false.

Record RemoteEndpoint : Type := MkRemoteEp {
  ep_id : Z;
  remote_node : Z;
  remote_ep : Z;
  ep_registered : bool;
}.

Record RcvBufEntry : Type := MkRcv {
  src_node : Z;
  src_ep : Z;
  rcv_payload : list Z;
  rcv_len : Z;
  valid : bool;
}.
#[export] Instance RcvBufEntry_eta : Eta RcvBufEntry := λ e,
  MkRcv (src_node e) (src_ep e) (rcv_payload e) (rcv_len e) (valid e).

Record dist : Type := MkDist {
  CLUSTER_NODE_ID : Z;
  REMOTE_NODES : list RemoteNode;
  REMOTE_NODE_COUNT : Z;
  REMOTE_EPS : list RemoteEndpoint;
  REMOTE_EP_COUNT : Z;
  RCV_BUF : list RcvBufEntry;
  RCV_BUF_COUNT : Z;
  LAST_HEARTBEAT_TICK : Z;
  TICK_COUNT : Z;
  net : Ipc.ipc;
  kcaps : Cap.caps;
  pages : Pool.rmem;
}.
#[export] Instance dist_eta : Eta dist := λ s,
  MkDist (CLUSTER_NODE_ID s) (REMOTE_NODES s) (REMOTE_NODE_COUNT s) (REMOTE_EPS s) (REMOTE_EP_COUNT s)
    (RCV_BUF s) (RCV_BUF_COUNT s) (LAST_HEARTBEAT_TICK s) (TICK_COUNT s) (net s) (kcaps s) (pages s).

Abbreviation M := (cmd Empty_set dist).

(** Calls into the components, which hold none of their locks before or after. *)
Definition ipc_call {A} (m : Ipc.M A) : M A := λ h s,
  match m [] (net s) with
  | Done (a, [], n) => Done (a, h, s <| net := n |>)
  | Done _ => Deadlock
  | Panic => Panic
  | Deadlock => Deadlock
  | OutOfFuel => OutOfFuel
  end.

Definition cap_call {A} (m : Cap.M A) : M A := λ h s,
  match m [] (kcaps s) with
  | Done (a, [], c) => Done (a, h, s <| kcaps := c |>)
  | Done _ => Deadlock
  | Panic => Panic
  | Deadlock => Deadlock
  | OutOfFuel => OutOfFuel
  end.

Definition current_owner : M (option Z) :=
  cur ← ipc_call (Ipc.sched_call Sched.current_thread);
  match cur with
  | None => mret None
  | Some t => th ← ipc_call (Ipc.sched_call (Sched.deref_thread t)); mret (Some (owner th))
  end.

(** [msg.payload[..n].copy_from_slice(&buf[..n])] in a new message. *)
Definition packet_message (pid op : Z) (buf : list Z) (n : Z) : outcome Ipc.Message :=
  let msg := Ipc.Message_new pid op in
  bytes ← aslice buf 0 n;
  p ← asplice (Ipc.payload msg) 0 bytes;
  mret (Ipc.MkMessage pid op p n (Ipc.cap_transfers msg)).

(** ** Node discovery *)

(** [for i in 0..n { if f(l[i]) { return i } }]. *)
Abbreviation find_at := Pool.search.

Definition find_remote (s : dist) (id : Z) : outcome (option Z) :=
  find_at (λ n, node_id n =? id) (REMOTE_NODES s) (zseq 0 (REMOTE_NODE_COUNT s)).

Definition update_node (id : Z) (f : RemoteNode → RemoteNode) : M () :=
  s ← get;
  i ← lift (find_remote s id);
  match i with
  | None => mret ()
  | Some i =>
      n ← lift (aget (REMOTE_NODES s) i);
      l ← lift (aset (REMOTE_NODES s) i (f n));
      modify (λ s, s <| REMOTE_NODES := l |>)
  end.

Definition mark_node_online (id tick : Z) : M () :=
  update_node id (λ n, n <| online := true |> <| last_seen_tick := tick |> <| failed_pings := 0 |>).

Definition mark_node_offline (id : Z) : M () := update_node id (λ n, n <| online := false |>).

(** The loops over the messages received, which stop at the first that [f] accepts. *)
Fixpoint scan {A} (f : list Z → option A) (buf : list RcvBufEntry) (ids : list Z)
    : outcome (option A) :=
  match ids with
  | [] => mret None
  | i :: ids' =>
      e ← aget buf i;
      if negb (valid e) then scan f buf ids'
      else
        b ← aslice (rcv_payload e) 0 (rcv_len e);
        match f b with Some a => mret (Some a) | None => scan f buf ids' end
  end.

Definition check_for_pong (id : Z) : M bool :=
  s ← get;
  r ← lift (scan (λ b, match parse_pong b with
                       | Some n => if n =? id then Some () else None
                       | None => None
                       end) (RCV_BUF s) (zseq 0 (RCV_BUF_COUNT s)));
  mret (bool_decide (is_Some r)).

(** What the other threads did while this one waited. *)
Section waiting.
Variable resume : nat → dist → dist.

Fixpoint probe_loop (fuel : nat) (id deadline : Z) (waited : nat) : M bool :=
  match fuel with
  | O => lift OutOfFuel
  | S fuel' =>
      s ← get;
      if TICK_COUNT s <? deadline then
        pong ← check_for_pong id;
        if pong : bool then _ ← mark_node_online id (TICK_COUNT s); mret true
        else
          _ ← modify (resume waited);
          if (200 <? S waited)%nat then mret false
          else probe_loop fuel' id deadline (S waited)
      else mret false
  end.

Definition node_probe (id : Z) : M bool :=
  let '(ping_buf, n) := write_ping (replicate 64 0) id in
  match n with
  | None => mret false
  | Some _ =>
      p ← current_owner;
      let sender_pid := default 0 p in
      msg ← lift (packet_message sender_pid 0xD1 ping_buf 6);
      _ ← ipc_call (Ipc.send (DIST_EP_BASE + id) sender_pid msg);
      s ← get;
      probe_loop 1000 id (u64 (TICK_COUNT s + 1000)) 0
  end.
End waiting.

Definition send_ping (i : Z) (n : RemoteNode) : M () :=
  let '(ping_buf, w) := write_ping (replicate 64 0) (node_id n) in
  match w with
  | None => mret ()
  | Some _ =>
      msg ← lift (packet_message 0 0xD1 ping_buf 6);
      _ ← ipc_call (Ipc.send (DIST_EP_BASE + node_id n) 0 msg);
      if online n then mret ()
      else
        s ← get;
        l ← lift (aset (REMOTE_NODES s) i (n <| failed_pings := Z.min 255 (failed_pings n + 1) |>));
        modify (λ s, s <| REMOTE_NODES := l |>)
  end.

Fixpoint heartbeat_loop (tick : Z) (ids : list Z) : M () :=
  match ids with
  | [] => mret ()
  | i :: ids' =>
      s ← get;
      n ← lift (aget (REMOTE_NODES s) i);
      _ ← (if negb (registered n) then mret ()
           else if online n && (u64 (tick - last_seen_tick n) <? HEARTBEAT_INTERVAL * 3) then mret ()
           else send_ping i n);
      heartbeat_loop tick ids'
  end.

Definition heartbeat_tick : M () :=
  s ← get;
  let tick := TICK_COUNT s in
  if u64 (tick - LAST_HEARTBEAT_TICK s) <? HEARTBEAT_INTERVAL then mret ()
  else
    _ ← modify (λ s, s <| LAST_HEARTBEAT_TICK := tick |>);
    heartbeat_loop tick (zseq 0 (REMOTE_NODE_COUNT s)).

Definition handle_incoming_ping (src : Z) : M () :=
  s ← get;
  let '(pong_buf, w) := write_pong (replicate 64 0) (CLUSTER_NODE_ID s) in
  let plen := default 0 w in
  if plen =? 0 then mret ()
  else
    msg ← lift (packet_message 0 0xD1 pong_buf plen);
    _ ← ipc_call (Ipc.send (DIST_EP_BASE + src) 0 msg);
    mret ().

Definition handle_incoming_pong (src : Z) : M () :=
  s ← get; mark_node_online src (TICK_COUNT s).

(** ** Messages *)

Definition is_virtual (s : dist) (id : Z) : outcome bool :=
  i ← find_at (λ n, (node_id n =? id) && negb (port n =? 0)) (REMOTE_NODES s)
        (zseq 0 (REMOTE_NODE_COUNT s));
  mret (bool_decide (i = None)).

(** The message to the net service for a node with a port. *)
Definition net_message (pid prt : Z) (wire : list Z) (written : Z) : outcome Ipc.Message :=
  let data_len := Z.min written 62 in
  let msg := Ipc.Message_new pid 2 in
  bytes ← aslice wire 0 data_len;
  p ← asplice (Ipc.payload msg) 0 [u8 (Z.shiftr prt 8); u8 prt; u8 data_len];
  p ← asplice p 3 bytes;
  mret (Ipc.MkMessage pid 2 p (3 + data_len) (Ipc.cap_transfers msg)).

Definition remote_send (id ep : Z) (data : list Z) : M (result string ()) :=
  s ← get;
  let '(wire, w) := write_data (replicate 72 0) (CLUSTER_NODE_ID s) (u16 ep) data in
  match w with
  | None => mret (Err "packet too large"%string)
  | Some written =>
      p ← current_owner;
      let pid := default 0 p in
      v ← lift (is_virtual s id);
      if v : bool then
        msg ← lift (packet_message pid 0xD1 wire written);
        ipc_call (Ipc.send (DIST_EP_BASE + id) pid msg)
      else
        i ← lift (find_remote s id);
        match i with
        | None => mret (Err "remote node not found"%string)
        | Some i =>
            n ← lift (aget (REMOTE_NODES s) i);
            msg ← lift (net_message pid (port n) wire written);
            r ← ipc_call (Ipc.send 3 pid msg);
            mret (match r with Ok _ => Ok () | Err _ => Err "net send failed"%string end)
        end
  end.

(** The buffer moves down by one when it is full. *)
Definition queue_incoming_message (src ep : Z) (payload : list Z) : M () :=
  let plen := Z.min (zlen payload) 64 in
  s ← get;
  let full := MAX_RCV_BUF_MSGS <=? RCV_BUF_COUNT s in
  buf ← lift (if full
              then for_each (λ b i, e ← aget b i; aset b (i - 1) e) (RCV_BUF s) (zseq 1 31)
              else mret (RCV_BUF s));
  let count := if full then MAX_RCV_BUF_MSGS - 1 else RCV_BUF_COUNT s in
  p ← lift (if zlen payload =? plen then asplice (replicate 64 0) 0 payload else Panic);
  buf ← lift (aset buf count (MkRcv src ep p plen true));
  modify (λ s, s <| RCV_BUF := buf |> <| RCV_BUF_COUNT := count + 1 |>).

(** The compaction loop: [idx] is the next free place. *)
Definition compact_step (x : list RcvBufEntry * Z) (j : Z) : outcome (list RcvBufEntry * Z) :=
  let '(buf, idx) := x in
  e ← aget buf j;
  if valid e then
    buf ← (if negb (idx =? j) then
             b ← aset buf idx e;
             e' ← aget b j;
             aset b j (e' <| valid := false |>)
           else mret buf);
    mret (buf, idx + 1)
  else mret (buf, idx).

(** One look at the buffer. *)
Definition recv_round : M (option (Z * Z * list Z * Z)) :=
  s ← get;
  i ← lift (find_at valid (RCV_BUF s) (zseq 0 (RCV_BUF_COUNT s)));
  match i with
  | None => mret None
  | Some i =>
      e ← lift (aget (RCV_BUF s) i);
      b ← lift (aset (RCV_BUF s) i (e <| valid := false |>));
      r ← lift (for_each compact_step (b, 0) (zseq 0 (RCV_BUF_COUNT s)));
      _ ← modify (λ s, s <| RCV_BUF := fst r |> <| RCV_BUF_COUNT := snd r |>);
      mret (Some (src_node e, src_ep e, rcv_payload e, rcv_len e))
  end.

(** ** Capabilities *)

Definition cap_code (t : Cap.CapType) : Z :=
  match t with
  | Cap.CNull => 0
  | Cap.CMem => 1
  | Cap.CEP => 2
  | Cap.CProc => 3
  | Cap.CCNode => 4
  | Cap.CVector => 5
  end.

(** The type and rights of a slot of the caller. *)
Definition mint_slot (cnode slot : Z) : Cap.M (result string (Z * Z)) :=
  res ← Cap.get_resource cnode;
  match res with
  | None => mret (Err "cnode not found"%string)
  | Some id =>
      r ← Cap.the_resource id;
      match Cap.slots_of (Cap.data r) with
      | None => mret (Err "not a cnode"%string)
      | Some sl =>
          with_lock (Cap.LSlots id) (
            match sl !! Z.to_nat slot with
            | None => mret (Err "slot not found"%string)
            | Some x =>
                if bool_decide (Cap.cap_type x = Cap.CNull) then mret (Err "null cap"%string)
                else mret (Ok (cap_code (Cap.cap_type x), Cap.rights x))
            end)
      end
  end.

(** The packet and the message, once the slot is known. *)
Definition mint_send (id pid slot remote_cnode : Z) (tr : Z * Z) : M (result string ()) :=
  s ← get;
  let res_data := le_bytes 4 slot ++ le_bytes 4 remote_cnode ++ replicate 56 0 in
  let '(wire, w) := write_cap (replicate 80 0) (CLUSTER_NODE_ID s) (fst tr) (snd tr) slot res_data in
  match w with
  | None => mret (Err "cap serialize failed"%string)
  | Some written =>
      msg ← lift (packet_message pid 0xD1 wire written);
      ipc_call (Ipc.send (DIST_EP_BASE + id) pid msg)
  end.

Definition remote_mint (id slot remote_cnode : Z) : M (result string ()) :=
  p ← current_owner;
  match p with
  | None => mret (Err "no proc"%string)
  | Some pid =>
      cnode ←? cap_call (Cap.proc_cnode pid "proc not found");
      tr ←? cap_call (mint_slot cnode slot);
      mint_send id pid slot remote_cnode tr
  end.

Definition remote_copy (id src_slot remote_cnode : Z) : M (result string ()) :=
  remote_mint id src_slot remote_cnode.

Definition cap_of_code (c : Z) : option Cap.CapType :=
  if c =? 1 then Some Cap.CMem
  else if c =? 2 then Some Cap.CEP
  else if c =? 3 then Some Cap.CProc
  else if c =? 4 then Some Cap.CCNode
  else None.

(** The resource is allocated before the CNode is looked up. *)
Definition cap_receive (cnode : Z) (buf : list Z) : M (result string ()) :=
  match parse_cap buf with
  | None => mret (Err "invalid cap packet"%string)
  | Some (src, ct, rights, slot, _) =>
      if ct =? 0 then mret (Err "null cap type"%string)
      else
        match cap_of_code ct with
        | None => mret (Err "unknown cap type"%string)
        | Some ktype =>
            cap_call (
              rid ← Cap.alloc_resource ktype Cap.RNull;
              res ← Cap.get_resource cnode;
              match res with
              | None => mret (Err "cnode not found"%string)
              | Some id =>
                  r ← Cap.the_resource id;
                  match Cap.slots_of (Cap.data r) with
                  | None => mret (Ok ())
                  | Some sl =>
                      with_lock (Cap.LSlots id) (
                        _ ← Cap.set_slots id
                              (<[Z.to_nat slot := Cap.MkSlot ktype rights rid]>
                                 (Cap.push_until sl slot Cap.Slot_null));
                        mret (Ok ()))
                  end
              end)
        end
  end.

(** ** Cluster coordination *)

Definition encode_global_pid (node local_pid : Z) : Z :=
  Z.lor (u32 (Z.shiftl node 24)) (Z.land local_pid 0xFFFFFF).

Definition pid_to_node (p : Z) : Z := u8 (Z.shiftr p 24).
Definition pid_to_local (p : Z) : Z := Z.land p 0xFFFFFF.

Definition get_global_pid : M Z :=
  p ← current_owner;
  s ← get;
  mret (encode_global_pid (CLUSTER_NODE_ID s) (default 0 p)).

(** The scan for a list of processes: every attempt may write to the caller's
    array, also one that fails. *)
Fixpoint scan_proclist (buf : list RcvBufEntry) (out : list RemoteProcEntry) (ids : list Z)
    : outcome (list RemoteProcEntry * option Z) :=
  match ids with
  | [] => mret (out, None)
  | i :: ids' =>
      e ← aget buf i;
      if negb (valid e) then scan_proclist buf out ids'
      else
        b ← aslice (rcv_payload e) 0 (rcv_len e);
        match parse_proclist_resp b out with
        | (out', Some n) => mret (out', Some n)
        | (out', None) => scan_proclist buf out' ids'
        end
  end.

Section proclist.
Variable resume : nat → dist → dist.

Fixpoint proclist_loop (fuel : nat) (out : list RemoteProcEntry) (deadline : Z) (waited : nat)
    : M (list RemoteProcEntry * result string Z) :=
  match fuel with
  | O => lift OutOfFuel
  | S fuel' =>
      s ← get;
      r ← lift (scan_proclist (RCV_BUF s) out (zseq 0 (RCV_BUF_COUNT s)));
      match r with
      | (out', Some n) => mret (out', Ok n)
      | (out', None) =>
          if deadline <=? TICK_COUNT s then mret (out', Err "proclist timeout"%string)
          else _ ← modify (resume waited); proclist_loop fuel' out' deadline (S waited)
      end
  end.

Definition remote_proclist (fuel : nat) (id : Z) (out : list RemoteProcEntry)
    : M (list RemoteProcEntry * result string Z) :=
  s ← get;
  let '(req_buf, w) := write_proclist_req (replicate 8 0) (CLUSTER_NODE_ID s) in
  match w with
  | None => mret (out, Err "serialize error"%string)
  | Some written =>
      p ← current_owner;
      let pid := default 0 p in
      msg ← lift (packet_message pid 0xD1 req_buf written);
      r ← ipc_call (Ipc.send (DIST_EP_BASE + id) pid msg);
      match r with
      | Err e => mret (out, Err e)
      | Ok _ => s ← get; proclist_loop fuel out (u64 (TICK_COUNT s + 200)) 0
      end
  end.
End proclist.

Definition state_byte (st : ProcessState) : Z :=
  match st with PsReady => 0 | PsRunning => 1 | PsWaiting => 2 | PsDead => 3 end.

(** Every process is reported under the name proc. *)
Definition raw_entry (p : Process) : Z * Z * list Z :=
  (Proc.pid p, state_byte (p_state p), [112; 114; 111; 99]).

Definition handle_proclist_request (src : Z) : M () :=
  s ← get;
  let raw := raw_entry <$> take 64 (Cap.PROCESSES (kcaps s)) in
  r ← lift (write_proclist_resp (replicate 512 0) raw);
  match r with
  | (_, None) => mret ()
  | (resp, Some len) =>
      msg ← lift (packet_message 0 0xD1 resp (Z.min len 64));
      _ ← ipc_call (Ipc.send (DIST_EP_BASE + src) 0 msg);
      mret ()
  end.

Definition process_incoming_message (msg : Ipc.Message) : M () :=
  buf ← lift (aslice (Ipc.payload msg) 0 (Ipc.payload_len msg));
  if zlen buf <? 2 then mret ()
  else
    let magic := le_at buf 0 2 in
    if magic =? MAGIC_PING then
      match parse_ping buf with Some src => handle_incoming_ping src | None => mret () end
    else if magic =? MAGIC_PONG then
      match parse_pong buf with Some src => handle_incoming_pong src | None => mret () end
    else if magic =? MAGIC_DATA then
      match parse_data buf with
      | Some (src, ep, pl) => queue_incoming_message src ep pl
      | None => mret ()
      end
    else if magic =? MAGIC_CAP then
      p ← current_owner;
      s ← get;
      let cnode := default 0 (cnode_id <$> find_pid (Cap.PROCESSES (kcaps s)) (default 0 p)) in
      if 0 <? cnode then _ ← cap_receive cnode buf; mret () else mret ()
    else if magic =? MAGIC_PROCLIST_REQ then
      match parse_proclist_req buf with Some r => handle_proclist_request r | None => mret () end
    else mret ().

(** ** The registry *)

Definition add_remote_node (ip : list Z) (prt : Z) : M (option Z) :=
  s ← get;
  let count := REMOTE_NODE_COUNT s in
  if MAX_REMOTE_NODES <=? count then mret None
  else
    let addr := take 16 ip ++ replicate (16 - length ip) 0 in
    l ← lift (aset (REMOTE_NODES s) count (MkNode count addr prt false 0 0 true));
    r ← lift (Pool.register_mem_node (pages s) (u8 count));
    _ ← modify (λ s, s <| REMOTE_NODES := l |> <| REMOTE_NODE_COUNT := count + 1 |> <| pages := snd r |>);
    mret (Some count).

Definition publish_endpoint (local_ep node ep : Z) : M bool :=
  s ← get;
  let count := REMOTE_EP_COUNT s in
  if MAX_REMOTE_EPS <=? count then mret false
  else
    l ← lift (aset (REMOTE_EPS s) count (MkRemoteEp local_ep node ep true));
    _ ← modify (λ s, s <| REMOTE_EPS := l |> <| REMOTE_EP_COUNT := count + 1 |>);
    mret true.

Definition lookup_remote_ep (s : dist) (local_ep : Z) : outcome (option (Z * Z)) :=
  i ← find_at (λ e, ep_registered e && (ep_id e =? local_ep)) (REMOTE_EPS s) (zseq 0 (REMOTE_EP_COUNT s));
  match i with
  | None => mret None
  | Some i => e ← aget (REMOTE_EPS s) i; mret (Some (remote_node e, remote_ep e))
  end.

Definition is_node_online (s : dist) (id : Z) : outcome bool :=
  i ← find_remote s id;
  match i with
  | None => mret false
  | Some i => n ← aget (REMOTE_NODES s) i; mret (online n)
  end.

Definition get_node_info (s : dist) (id : Z) : outcome (option (Z * list Z * Z * bool)) :=
  i ← find_remote s id;
  match i with
  | None => mret None
  | Some i => n ← aget (REMOTE_NODES s) i; mret (Some (node_id n, ip_addr n, port n, online n))
  end.

(** ** System calls (syscall/proc.rs)

    [mem] is the caller's memory; what a call writes there is part of its result. *)

Definition user_bytes (mem : Z → Z) (ptr len : Z) : list Z := (λ i, mem (u64 (ptr + i))) <$> zseq 0 len.

Definition sys_remote_node_add (mem : Z → Z) (ip_ptr prt : Z) : M (result string Z) :=
  r ← add_remote_node (user_bytes mem ip_ptr 16) (u16 prt);
  mret (ok_or r "full"%string).

Definition sys_remote_ep_publish (local_ep node ep : Z) : M (result string Z) :=
  b ← publish_endpoint local_ep (u32 node) ep;
  mret (if b : bool then Ok 0 else Err "full"%string).

(** The bytes written are given with their offsets; two of each number are stored. *)
Definition sys_remote_ep_lookup (s : dist) (local_ep buf_ptr : Z)
    : outcome (result string (list (Z * Z) * Z)) :=
  r ← lookup_remote_ep s local_ep;
  mret (match r with
        | None => Err "not found"%string
        | Some (node, ep) =>
            Ok (if buf_ptr =? 0 then []
                else [(0, u8 node); (1, u8 (Z.shiftr node 8)); (4, u8 ep); (5, u8 (Z.shiftr ep 8))], 0)
        end).

Definition sys_remote_send (mem : Z → Z) (id ep data_ptr data_len : Z) : M (result string Z) :=
  _ ←? remote_send id ep (user_bytes mem data_ptr data_len); mret (Ok 0).

Definition sys_remote_probe (resume : nat → dist → dist) (id : Z) : M (result string Z) :=
  b ← node_probe resume id; mret (Ok (if b : bool then 1 else 0)).

(** One round of [remote_recv], and what it writes at [buf_ptr]. *)
Definition sys_remote_recv (buf_ptr buf_len : Z) : M (option (list Z * Z)) :=
  r ← recv_round;
  match r with
  | None => mret None
  | Some (src, ep, payload, payload_len) =>
      if negb (buf_ptr =? 0) && (4 <=? buf_len) then
        let copy_len := Z.min (Z.min (payload_len + 4) buf_len) 68 in
        mret (Some ([src] ++ le_bytes 2 ep ++ [u8 payload_len] ++
                    take (Z.to_nat (copy_len - 4)) payload, copy_len))
      else mret (Some ([], 4))
  end.

Definition pool_call {A} (f : Pool.rmem → outcome (A * Pool.rmem)) : M A :=
  s ← get;
  r ← lift (f (pages s));
  _ ← modify (λ s, s <| pages := snd r |>);
  mret (fst r).

Definition sys_remote_mem_alloc (hart node num_pages : Z) : M (result string Z) :=
  r ← pool_call (λ m, Pool.remote_alloc_pages m hart node num_pages); mret (ok_or r "OOM"%string).

Definition sys_remote_mem_free (hart h : Z) : M (result string Z) :=
  b ← pool_call (λ m, Pool.remote_free_page m hart h);
  mret (if b : bool then Ok 0 else Err "free failed"%string).

Definition sys_remote_migrate_page (hart pa from_node to_node : Z) : M (result string Z) :=
  pool_call (λ m, Pool.migrate_page_local m hart pa from_node to_node).

(** The loop that copies entries to the caller's buffer while they fit. *)
Fixpoint copy_entries (entries : list RemoteProcEntry) (buf_len : Z) (written : list Z) : list Z :=
  match entries with
  | [] => written
  | e :: entries' =>
      if buf_len <? zlen written + (6 + name_len e) then written
      else copy_entries entries' buf_len
             (written ++ le_bytes 4 (pid e) ++ [state e; u8 (name_len e)]
                ++ take (Z.to_nat (name_len e)) (name e))
  end.

Definition sys_remote_proclist (resume : nat → dist → dist) (fuel : nat) (id buf_ptr buf_len : Z)
    : M (result string (list Z * Z)) :=
  if (buf_ptr =? 0) || (buf_len <? 6) then mret (Err "invalid buffer"%string)
  else
    r ← remote_proclist resume fuel id (replicate 32 (MkProcEntry 0 0 (replicate 48 0) 0));
    match r with
    | (_, Err e) => mret (Err e)
    | (entries, Ok count) =>
        let w := copy_entries (take (Z.to_nat count) entries) buf_len [] in
        mret (Ok (w, zlen w))
    end.

Definition sys_remote_mint (id slot remote_cnode : Z) : M (result string Z) :=
  _ ←? remote_mint id slot remote_cnode; mret (Ok 0).

Definition sys_node_id : M (result string Z) := s ← get; mret (Ok (CLUSTER_NODE_ID s)).

(** ** The receive buffer *)

Record rcv_ok (s : dist) : Prop := {
  rc_len : zlen (RCV_BUF s) = 32;
  rc_count : 0 <= RCV_BUF_COUNT s <= 32;
  rc_entries : ∀ i e, 0 <= i < RCV_BUF_COUNT s → RCV_BUF s !! Z.to_nat i = Some e →
    valid e = true ∧ length (rcv_payload e) = 64%nat ∧ 0 <= rcv_len e <= 64;
}.

(** A message as its receiver sees it. *)
Definition message_of (e : RcvBufEntry) : Z * Z * list Z :=
  (src_node e, src_ep e, take (Z.to_nat (rcv_len e)) (rcv_payload e)).

Definition waiting (s : dist) : list (Z * Z * list Z) :=
  message_of <$> take (Z.to_nat (RCV_BUF_COUNT s)) (RCV_BUF s).

(** [b] holds [l] moved down by one up to [n], and [l] itself from [k] on. *)
Definition moved (l b : list RcvBufEntry) (n k : Z) : Prop :=
  length b = length l ∧
  (∀ j, 0 <= j < n → b !! Z.to_nat j = l !! Z.to_nat (j + 1)) ∧
  (∀ j, k <= j → b !! Z.to_nat j = l !! Z.to_nat j).

Lemma moved_take l b n k : 0 <= n → n < zlen l → moved l b n k →
  take (Z.to_nat n) b = take (Z.to_nat n) (drop 1 l).
Proof.
  intros Hn Hl (Hb & Hlow & _). unfold zlen in Hl. apply list_eq. intros i.
  destruct (decide (i < Z.to_nat n)%nat) as [Hi | Hi].
  - rewrite !lookup_take_lt, lookup_drop by done.
    pose proof (Hlow (Z.of_nat i) ltac:(lia)) as E. rewrite Nat2Z.id in E. rewrite E. f_equal. lia.
  - by rewrite !lookup_take_ge by lia.
Qed.

Lemma shift_run l : zlen l = 32 →
  ∃ b, for_each (λ b i, e ← aget b i; aset b (i - 1) e) l (zseq 1 31) = Done b ∧ moved l b 31 31.
Proof.
  intros Hl. unfold zlen in Hl.
  destruct (for_each_inv (λ i b, moved l b (i - 1) (i - 1))
    (λ b i, e ← aget b i; aset b (i - 1) e) 1 31 l) as (b & E & Hb).
  - lia.
  - split_and!; [done | lia | done].
  - intros i b Hi (Hlen & Hlow & Hhigh).
    destruct (lookup_lt_is_Some_2 l (Z.to_nat i)) as [e He]; [lia |].
    rewrite (proj2 (aget_lookup b i e)) by (rewrite Hhigh by lia; split; [lia | done]).
    cbn [mbind outcome_bind]. rewrite aset_in_range by (unfold zlen; lia). eexists. split; [done |].
    split_and!; [by rewrite length_insert | |].
    + intros j Hj. destruct (decide (j = i - 1)) as [-> | Hne].
      * rewrite list_lookup_insert_eq by lia. rewrite <-He. f_equal. lia.
      * rewrite list_lookup_insert_ne by lia. apply Hlow. lia.
    + intros j Hj. rewrite list_lookup_insert_ne by lia. apply Hhigh. lia.
  - exists b. by split.
Qed.

(** The compaction after entry 0 was taken out. *)
Lemma compact_run l e c :
  zlen l = 32 → 0 < c <= 32 → l !! 0%nat = Some e →
  (∀ i x, 0 <= i < c → l !! Z.to_nat i = Some x → valid x = true) →
  ∃ b, for_each compact_step (<[0%nat := e <| valid := false |>]> l, 0) (zseq 0 c) = Done (b, c - 1) ∧
    moved l b (c - 1) c.
Proof.
  intros Hl Hc He Hv. unfold zlen in Hl. set (b0 := <[0%nat := e <| valid := false |>]> l).
  destruct (for_each_inv (λ j x, (j = 0 ∧ x = (b0, 0)) ∨
      (1 <= j ∧ snd x = j - 1 ∧ moved l (fst x) (j - 1) j)) compact_step 0 c (b0, 0))
    as ([b idx] & E & Hb).
  - lia.
  - by left.
  - intros j x Hj [[-> ->] | (Hj1 & Hidx & Hm)].
    + unfold compact_step. rewrite (proj2 (aget_lookup b0 0 (e <| valid := false |>)))
        by (split; [lia |]; apply list_lookup_insert_eq; lia).
      eexists. split; [reflexivity |]. right. cbn [fst snd]. split; [lia |]. split; [lia |].
      subst b0. split_and!; [by rewrite length_insert | lia |]. intros k Hk. by rewrite list_lookup_insert_ne by lia.
    + destruct x as [b idx]. cbn [fst snd] in *. subst idx. destruct Hm as (Hlen & Hlow & Hhigh).
      destruct (lookup_lt_is_Some_2 l (Z.to_nat j)) as [x Hx]; [lia |]. unfold compact_step.
      rewrite (proj2 (aget_lookup b j x)) by (rewrite Hhigh by lia; split; [lia | done]).
      cbn [mbind outcome_bind]. rewrite (Hv j x) by (done || lia).
      rewrite (proj2 (Z.eqb_neq _ _)) by lia. cbn [negb]. rewrite aset_in_range by (unfold zlen; lia).
      cbn [mbind outcome_bind].
      rewrite (proj2 (aget_lookup _ j x)) by (split; [lia |]; rewrite list_lookup_insert_ne, Hhigh by lia; done).
      cbn [mbind outcome_bind]. rewrite aset_in_range by (rewrite zlen_insert; unfold zlen; lia).
      eexists. split; [reflexivity |]. right. cbn [fst snd]. split; [lia |]. split; [lia |].
      split_and!; [by rewrite !length_insert | |].
      * intros k Hk. rewrite list_lookup_insert_ne by lia. destruct (decide (k = j - 1)) as [-> | Hne].
        -- rewrite list_lookup_insert_eq by lia. rewrite <-Hx. f_equal. lia.
        -- rewrite list_lookup_insert_ne by lia. apply Hlow. lia.
      * intros k Hk. rewrite !list_lookup_insert_ne by lia. apply Hhigh. lia.
  - destruct Hb as [[? _] | (_ & Hi & Hm)]; [lia |]. cbn [fst snd] in *. subst idx.
    exists b. split; [exact E | exact Hm].
Qed.

Lemma lookup_take_fmap {A B} (f : A → B) (l : list A) n m :
  take n (f <$> take m l) = f <$> take (n `min` m) l.
Proof. by rewrite <-fmap_take, take_take. Qed.

(** The entry at [count] is new; those below come from [l]. *)
Lemma rcv_put s b n src ep pl :
  length b = 32%nat → 0 <= n < 32 → (length pl <= 64)%nat →
  (∀ i e, 0 <= i < n → b !! Z.to_nat i = Some e →
     valid e = true ∧ length (rcv_payload e) = 64%nat ∧ 0 <= rcv_len e <= 64) →
  let p := pl ++ drop (length pl) (replicate 64 0) in
  let s' := s <| RCV_BUF := <[Z.to_nat n := MkRcv src ep p (zlen pl) true]> b |>
              <| RCV_BUF_COUNT := n + 1 |> in
  rcv_ok s' ∧ waiting s' = (message_of <$> take (Z.to_nat n) b) ++ [(src, ep, pl)].
Proof.
  intros Hb Hn Hpl He p s'. split.
  - split; cbn; [unfold zlen; rewrite length_insert; lia | lia |].
    intros i e Hi E. destruct (decide (i = n)) as [-> | Hne].
    + rewrite list_lookup_insert_eq in E by lia. injection E as <-. cbn. split_and!; [done | | unfold zlen; lia | unfold zlen; lia].
      unfold p. rewrite length_app, length_drop, length_replicate. lia.
    + rewrite list_lookup_insert_ne in E by lia. apply (He i); [lia | done].
  - unfold waiting. cbn. replace (Z.to_nat (n + 1)) with (S (Z.to_nat n)) by lia.
    erewrite take_S_r by (apply list_lookup_insert_eq; lia).
    rewrite take_insert_ge, fmap_app by lia. f_equal. cbn. do 2 f_equal.
    unfold message_of. cbn. rewrite to_nat_zlen. unfold p. by rewrite take_app_length.
Qed.

Lemma queue_run s h src ep pl :
  rcv_ok s → (length pl <= 64)%nat →
  ∃ s', queue_incoming_message src ep pl h s = Done ((), h, s') ∧ rcv_ok s' ∧
    waiting s' = (if RCV_BUF_COUNT s =? 32 then drop 1 (waiting s) else waiting s) ++ [(src, ep, pl)] ∧
    net s' = net s ∧ kcaps s' = kcaps s.
Proof.
  intros Hs Hpl. pose proof (rc_len _ Hs) as Hl. pose proof (rc_count _ Hs) as Hc. unfold zlen in Hl.
  unfold queue_incoming_message. rewrite Z.min_l by (unfold zlen; lia). cpure.
  set (full := MAX_RCV_BUF_MSGS <=? RCV_BUF_COUNT s).
  set (n := if full then MAX_RCV_BUF_MSGS - 1 else RCV_BUF_COUNT s).
  assert (∃ b, (if full then for_each (λ b i, e ← aget b i; aset b (i - 1) e) (RCV_BUF s) (zseq 1 31)
                else mret (RCV_BUF s)) = Done b ∧ length b = 32%nat ∧ 0 <= n < 32 ∧
    (∀ i e, 0 <= i < n → b !! Z.to_nat i = Some e →
       valid e = true ∧ length (rcv_payload e) = 64%nat ∧ 0 <= rcv_len e <= 64) ∧
    message_of <$> take (Z.to_nat n) b =
      if RCV_BUF_COUNT s =? 32 then drop 1 (waiting s) else waiting s)
    as (b & Eb & Hb & Hn & He & Hw).
  { subst full n. unfold MAX_RCV_BUF_MSGS. destruct (32 <=? RCV_BUF_COUNT s) eqn:E; bools.
    - assert (RCV_BUF_COUNT s = 32) as E32 by lia. rewrite (proj2 (Z.eqb_eq _ _)) by done.
      destruct (shift_run (RCV_BUF s)) as (b & Eb & Hm); [unfold zlen; lia |]. exists b.
      pose proof (moved_take (RCV_BUF s) b 31 31 ltac:(lia) ltac:(unfold zlen; lia) Hm) as Ht.
      destruct Hm as (Hlen & Hlow & _). split_and!; [done | lia | lia | lia | |].
      + intros i e Hi Ei. rewrite Hlow in Ei by lia. apply (rc_entries _ Hs (i + 1)); [lia | done].
      + change (32 - 1) with 31. rewrite Ht. unfold waiting. rewrite E32, fmap_take, fmap_drop, fmap_take.
        rewrite skipn_firstn_comm. done.
    - rewrite (proj2 (Z.eqb_neq _ _)) by lia. exists (RCV_BUF s).
      split_and!; [done | lia | lia | lia | apply (rc_entries _ Hs) | done]. }
  rewrite Eb. cpure. rewrite Z.eqb_refl, asplice_in_range by (unfold zlen; rewrite ?length_replicate; lia).
  cpure. fold n. rewrite aset_in_range by (unfold zlen; lia). cpure.
  change (take (Z.to_nat 0) (replicate 64 0)) with (@nil Z). cbn [app]. rewrite Z.add_0_l, to_nat_zlen.
  destruct (rcv_put s b n src ep pl Hb Hn Hpl He) as [Hok Hwait].
  eexists. split; [reflexivity |]. split; [exact Hok |]. rewrite Hw in Hwait. by split.
Qed.

Lemma recv_run s h :
  rcv_ok s →
  match waiting s with
  | [] => recv_round h s = Done (None, h, s)
  | (src, ep, pl) :: rest =>
      ∃ p n s', recv_round h s = Done (Some (src, ep, p, n), h, s') ∧ take (Z.to_nat n) p = pl ∧
        rcv_ok s' ∧ waiting s' = rest ∧ net s' = net s ∧ kcaps s' = kcaps s
  end.
Proof.
  intros Hs. pose proof (rc_len _ Hs) as Hl. pose proof (rc_count _ Hs) as Hc. unfold zlen in Hl.
  unfold recv_round, waiting. destruct (decide (RCV_BUF_COUNT s = 0)) as [E0 | Hne].
  - rewrite E0. change (message_of <$> take (Z.to_nat 0) (RCV_BUF s)) with (@nil (Z * Z * list Z)).
    cpure. rewrite E0. done.
  - destruct (RCV_BUF s) as [| e l] eqn:El; [cbn in Hl; lia |].
    replace (Z.to_nat (RCV_BUF_COUNT s)) with (S (Z.to_nat (RCV_BUF_COUNT s - 1))) by lia.
    cbn [take]. rewrite fmap_cons. unfold message_of at 1.
    pose proof (rc_entries _ Hs 0 e ltac:(lia) ltac:(by rewrite El)) as (Hv & Hp & Hlen).
    cpure. rewrite El, zseq_cons by lia. cbn [find_at]. change (aget (e :: l) 0) with (Done e).
    cbn [mbind outcome_bind]. rewrite Hv. cpure. cbv iota. change (aget (e :: l) 0) with (Done e). cpure.
    rewrite aset_in_range by (unfold zlen; cbn in *; lia). cpure. change (Z.to_nat 0) with 0%nat.
    destruct (compact_run (e :: l) e (RCV_BUF_COUNT s)) as (b & Eb & Hm);
      [unfold zlen; cbn in *; lia | lia | done | |].
    { intros i x Hi Hx. apply (rc_entries _ Hs i x Hi). by rewrite El. }
    replace (zseq 0 (RCV_BUF_COUNT s)) with (0 :: zseq (0 + 1) (RCV_BUF_COUNT s - 1)) in Eb by (by rewrite <-zseq_cons by lia).
    rewrite Eb. cpure. cpure. do 3 eexists. split; [reflexivity |]. split; [done |].
    pose proof (moved_take (e :: l) b (RCV_BUF_COUNT s - 1) (RCV_BUF_COUNT s) ltac:(lia) ltac:(unfold zlen; cbn in *; lia) Hm) as Ht.
    destruct Hm as (Hblen & Hlow & _). split; [| split_and!; [| done | done]].
    + split; cbn; [unfold zlen; cbn in *; lia | lia |]. intros i x Hi Hx.
      rewrite Hlow in Hx by lia. apply (rc_entries _ Hs (i + 1)); [lia | by rewrite El].
    + unfold waiting. cbn. by rewrite Ht.
Qed.

(** A state after boot, with eight registered endpoints of the IPC component. *)
Definition booted_net (n : Ipc.ipc) : dist :=
  MkDist 0 (replicate 8 EMPTY_NODE) 0 (replicate 16 (MkRemoteEp 0 0 0 false)) 0
    (replicate 32 (MkRcv 0 0 (replicate 64 0) 0 false)) 0 0 0 n Cap.initial
    (Pool.MkRmem Pool.RemoteMemPool_new (Buddy.boot Buddy.ex_buddy)).

Lemma booted_rcv_ok n : rcv_ok (booted_net n).
Proof. split; cbn; [done | lia | lia]. Qed.

(** C18. The receive buffer is a bounded queue.  Queueing a message of up to 64
    bytes appends it and, when 32 messages were waiting, forgets the oldest; a
    longer one makes the kernel panic.  Receiving takes the oldest message and
    leaves the others in order, however the entries were moved; with none
    waiting it changes nothing.  Neither touches another component. *)
Theorem rcv_refines_queue (s : dist) (src ep : Z) (pl : list Z) :
  rcv_ok s →
  (if 64 <? zlen pl then queue_incoming_message src ep pl [] s = Panic
   else ∃ s', queue_incoming_message src ep pl [] s = Done ((), [], s') ∧ rcv_ok s' ∧
     waiting s' = (if RCV_BUF_COUNT s =? 32 then drop 1 (waiting s) else waiting s) ++ [(src, ep, pl)] ∧
     net s' = net s ∧ kcaps s' = kcaps s) ∧
  match waiting s with
  | [] => recv_round [] s = Done (None, [], s)
  | (src', ep', pl') :: rest =>
      ∃ p n s', recv_round [] s = Done (Some (src', ep', p, n), [], s') ∧ take (Z.to_nat n) p = pl' ∧
        rcv_ok s' ∧ waiting s' = rest ∧ net s' = net s ∧ kcaps s' = kcaps s
  end.
Proof.
  intros Hs. split; [| by apply recv_run]. destruct (64 <? zlen pl) eqn:E; bools.
  - unfold queue_incoming_message. cpure. rewrite Z.min_r by lia.
    destruct (MAX_RCV_BUF_MSGS <=? RCV_BUF_COUNT s).
    + destruct (shift_run (RCV_BUF s) (rc_len _ Hs)) as (b & -> & _). cpure.
      by rewrite (proj2 (Z.eqb_neq _ _)) by lia.
    + cpure. by rewrite (proj2 (Z.eqb_neq _ _)) by lia.
  - apply queue_run; [done |]. unfold zlen in E. lia.
Qed.

Lemma rcv_refines_queue_witness :
  ∃ s', queue_incoming_message 2 7 [1; 2; 3] [] (booted_net Ipc.initial_ipc) = Done ((), [], s') ∧
    waiting s' = [(2, 7, [1; 2; 3])].
Proof.
  destruct (rcv_refines_queue (booted_net Ipc.initial_ipc) 2 7 [1; 2; 3] (booted_rcv_ok _))
    as [(s' & E & _ & Hw & _) _].
  exists s'. split; [exact E | exact Hw].
Defined.

(** ** Calls into the IPC component *)

Lemma ipc_call_run {A} (m : Ipc.M A) h s a n :
  m [] (net s) = Done (a, [], n) → ipc_call m h s = Done (a, h, s <| net := n |>).
Proof. intros E. unfold ipc_call. by rewrite E. Qed.

Lemma ipc_call_read {A} (m : Ipc.M A) h s a :
  m [] (net s) = Done (a, [], net s) → ipc_call m h s = Done (a, h, s).
Proof. intros E. rewrite (ipc_call_run m h s a _ E). by destruct s. Qed.

Lemma current_owner_run h s c th :
  Ipc.running (net s) c th → current_owner h s = Done (Some (owner th), h, s).
Proof.
  intros (Hc & Ht & _). unfold current_owner.
  erewrite cmd_bind_Done; [| apply ipc_call_read, Ipc.sched_call_read, Ipc.current_thread_run].
  rewrite Hc. erewrite cmd_bind_Done; [| apply ipc_call_read, Ipc.deref_call, Ht]. done.
Qed.

(** A message to an endpoint: in its mailbox and no other, or refused. *)
Definition posts (s : dist) (ep pid : Z) (msg : Ipc.Message) (r : result string ()) (s' : dist) : Prop :=
  match Ipc.mailbox (net s) ep with
  | None => r = Err "invalid ep"%string ∧ s' = s
  | Some l => r = Ok () ∧ s' = s <| net := net s' |> ∧ Ipc.ipc_ok (net s') ∧
      ∀ ep', Ipc.mailbox (net s') ep' =
        if decide (ep' = ep) then Some (l ++ [(pid, msg)]) else Ipc.mailbox (net s) ep'
  end.

Lemma send_posts h s ep pid msg :
  Ipc.ipc_ok (net s) →
  ∃ r s', ipc_call (Ipc.send ep pid msg) h s = Done (r, h, s') ∧ posts s ep pid msg r s'.
Proof.
  intros Hs. unfold posts, Ipc.mailbox at 1. destruct (Ipc.ep_at (Ipc.ENDPOINTS (net s)) ep) as [e |] eqn:He.
  - destruct (Ipc.send_run (net s) ep pid msg e Hs He) as (n & E & Hok & _ & _ & Hm).
    exists (Ok ()), (s <| net := n |>). split; [by apply ipc_call_run |]. by split_and!.
  - exists (Err "invalid ep"%string), s. split; [| done].
    apply ipc_call_read. by apply Ipc.send_invalid_run.
Qed.

(** A packet of up to 64 bytes goes into a message; a longer one panics. *)
Lemma packet_message_run pid op bytes rest :
  (length bytes <= 64)%nat →
  ∃ msg, packet_message pid op (bytes ++ rest) (zlen bytes) = Done msg ∧
    length (Ipc.payload msg) = 64%nat ∧
    aslice (Ipc.payload msg) 0 (Ipc.payload_len msg) = Done bytes.
Proof.
  intros Hl. unfold packet_message. pose proof (zlen_nonneg bytes).
  rewrite aslice_in_range by (rewrite ?zlen_app; pose proof (zlen_nonneg rest); lia).
  rewrite Z.sub_0_r, to_nat_zlen. change (drop (Z.to_nat 0) ?l) with l. rewrite take_app_length.
  cbn [mbind outcome_bind]. rewrite asplice_in_range by (unfold zlen; cbn; lia). cbn [mbind outcome_bind].
  eexists. split; [reflexivity |]. cbn [Ipc.payload Ipc.payload_len].
  change (take (Z.to_nat 0) _) with (@nil Z). cbn [app]. rewrite Z.add_0_l, to_nat_zlen.
  assert (length (bytes ++ drop (length bytes) (Ipc.payload (Ipc.Message_new pid op))) = 64%nat) as H64
    by (rewrite length_app, length_drop; cbn; lia).
  split; [exact H64 |].
  rewrite aslice_in_range by (unfold zlen; lia). rewrite Z.sub_0_r, to_nat_zlen.
  change (drop (Z.to_nat 0) ?l) with l. by rewrite take_app_length.
Qed.

Lemma packet_message_long pid op bytes rest :
  (64 < length bytes)%nat → packet_message pid op (bytes ++ rest) (zlen bytes) = Panic.
Proof.
  intros Hl. unfold packet_message. pose proof (zlen_nonneg bytes).
  rewrite aslice_in_range by (rewrite ?zlen_app; pose proof (zlen_nonneg rest); lia).
  rewrite Z.sub_0_r, to_nat_zlen. change (drop (Z.to_nat 0) ?l) with l. rewrite take_app_length.
  cbn [mbind outcome_bind]. unfold asplice. rewrite (proj2 (Z.leb_gt (0 + _) _)); [by rewrite andb_false_r |].
  unfold zlen. cbn [Ipc.payload Ipc.Message_new]. rewrite length_replicate. lia.
Qed.

(** ** Packets at their destination *)

Lemma own_data src ep pl :
  packet_ok (Data src ep pl) → parse_data (packet_bytes (Data src ep pl)) = Some (src, ep, pl).
Proof.
  intros Hp. pose proof (parse_own_accepts _ [] Hp) as E. rewrite app_nil_r in E. cbn [parse_own] in E.
  destruct (parse_data _) as [[[a b] c] |]; [by injection E as -> -> -> | done].
Qed.

Lemma own_ping n : packet_ok (Ping n) → parse_ping (packet_bytes (Ping n)) = Some n.
Proof.
  intros Hp. pose proof (parse_own_accepts _ [] Hp) as E. rewrite app_nil_r in E. cbn [parse_own] in E.
  destruct (parse_ping _) as [a |]; [by injection E as -> | done].
Qed.


Lemma incoming_data msg src ep pl h s :
  aslice (Ipc.payload msg) 0 (Ipc.payload_len msg) = Done (packet_bytes (Data src ep pl)) →
  packet_ok (Data src ep pl) →
  process_incoming_message msg h s = queue_incoming_message src ep pl h s.
Proof.
  intros E Hp. unfold process_incoming_message. rewrite E. cpure.
  pose proof (magic_at (Data src ep pl) []) as Hm. rewrite app_nil_r in Hm. pose proof (zlen_nonneg pl).
  rewrite (proj2 (Z.ltb_ge _ _)) by (rewrite zlen_packet by done; lia).
  rewrite Hm, own_data by done. done.
Qed.

Lemma incoming_ping msg n h s :
  aslice (Ipc.payload msg) 0 (Ipc.payload_len msg) = Done (packet_bytes (Ping n)) → fits 32 n →
  process_incoming_message msg h s = handle_incoming_ping n h s.
Proof.
  intros E Hp. unfold process_incoming_message. rewrite E. cpure.
  pose proof (magic_at (Ping n) []) as Hm. rewrite app_nil_r in Hm.
  rewrite (proj2 (Z.ltb_ge _ _)) by (rewrite zlen_packet by done; lia).
  by rewrite Hm, own_ping by done.
Qed.

Lemma write_fits p n : packet_ok p → zlen (packet_bytes p) <= n →
  write_packet (replicate (Z.to_nat n) 0) p =
    (packet_bytes p ++ drop (length (packet_bytes p)) (replicate (Z.to_nat n) 0), Some (zlen (packet_bytes p))).
Proof.
  intros Hp Hn. rewrite write_packet_spec by done. pose proof (zlen_nonneg (packet_bytes p)).
  by rewrite (proj2 (Z.ltb_ge _ _)) by (rewrite zlen_replicate; lia).
Qed.

(** A message to a node without a network port reaches it unharmed, except
    for one size.  More than 59 bytes are refused; exactly 59 bytes make the
    kernel panic, because the packet then has 65 bytes and a message 64; otherwise
    the packet is appended to the mailbox of endpoint 200 + node, or the call
    reports that there is no such endpoint; and the node that takes the message
    out queues exactly the bytes sent, with the sender's node and the endpoint
    (truncated to 16 bits). *)
Theorem remote_send_exact (s : dist) (id ep : Z) (data : list Z) (c : Z) (th : Thread) :
  Ipc.ipc_ok (net s) → Ipc.running (net s) c th → is_virtual s id = Done true →
  is_byte (CLUSTER_NODE_ID s) → Forall is_byte data →
  if 59 <? zlen data then remote_send id ep data [] s = Done (Err "packet too large"%string, [], s)
  else if zlen data =? 59 then remote_send id ep data [] s = Panic
  else ∃ r s' msg, remote_send id ep data [] s = Done (r, [], s') ∧
    posts s (DIST_EP_BASE + id) (owner th) msg r s' ∧
    ∀ h t, process_incoming_message msg h t =
      queue_incoming_message (CLUSTER_NODE_ID s) (u16 ep) data h t.
Proof.
  intros Hs Hrun Hv Hc Hd. unfold remote_send. cpure.
  destruct (59 <? zlen data) eqn:E59.
  { unfold write_data, MAX_WIRE_PAYLOAD. by rewrite E59. }
  bools. set (p := Data (CLUSTER_NODE_ID s) (u16 ep) data).
  assert (packet_ok p) as Hp by (split_and!; [done | by apply wrap_bound | done | done]).
  pose proof (write_fits p 72 Hp ltac:(rewrite zlen_packet by done; cbn; lia)) as Hw.
  change (Z.to_nat 72) with 72%nat in Hw.
  change (write_packet _ p) with (write_data (replicate 72 0) (CLUSTER_NODE_ID s) (u16 ep) data) in Hw.
  rewrite Hw. cstep (current_owner_run [] s c th Hrun). rewrite Hv. cpure.
  assert (zlen (packet_bytes p) = 6 + zlen data) as Hl by exact (zlen_packet p Hp). destruct (zlen data =? 59) eqn:E; bools.
  - rewrite packet_message_long by (unfold zlen in *; lia). done.
  - destruct (packet_message_run (owner th) 0xD1 (packet_bytes p)
      (drop (length (packet_bytes p)) (replicate 72 0))) as (msg & Em & _ & Hb);
      [unfold zlen in *; lia |].
    change (default 0 (Some (owner th))) with (owner th). rewrite Em. cpure. destruct (send_posts [] s (DIST_EP_BASE + id) (owner th) msg Hs) as (r & s' & Es & Hpost).
    exists r, s', msg. split; [exact Es |]. split; [exact Hpost |].
    intros h t. by apply incoming_data.
Qed.

Lemma remote_send_exact_witness :
  ∃ r s' msg, remote_send 4 9 [5; 6] [] (booted_net Ipc.ex_waiting) = Done (r, [], s') ∧
    posts (booted_net Ipc.ex_waiting) 204 2 msg r s'.
Proof.
  destruct (remote_send_exact (booted_net Ipc.ex_waiting) 4 9 [5; 6] 8192
    (Ipc.thread_at Ipc.ex_waiting 8192)) as (r & s' & msg & E & Hp & _);
    [exact (Ipc.ipc_reachable_ok _ Ipc.ex_waiting_reachable) | exact Ipc.ex_waiting_running | reflexivity
    | split; discriminate || reflexivity
    | repeat constructor; discriminate || reflexivity |].
  exists r, s', msg. split; [exact E | exact Hp].
Defined.

(** ** Capabilities between nodes *)

Lemma cap_call_done {A} (m : Cap.M A) h s a h' s' :
  cap_call m h s = Done (a, h', s') → h' = h ∧ net s' = net s.
Proof.
  unfold cap_call. destruct (m [] (kcaps s)) as [[[x [|]] k] | | |]; try done. by intros [= _ <- <-].
Qed.

Lemma ipc_call_done {A} (m : Ipc.M A) h s a h' s' :
  ipc_call m h s = Done (a, h', s') → h' = h ∧ kcaps s' = kcaps s.
Proof.
  unfold ipc_call. destruct (m [] (net s)) as [[[x [|]] k] | | |]; try done. by intros [= _ <- <-].
Qed.

(** The packet for a capability never fits in a message. *)
Lemma mint_send_panics id pid slot rc tr h s : mint_send id pid slot rc tr h s = Panic.
Proof.
  unfold mint_send, write_cap. cpure. change (zlen (replicate 80 0) <? 73) with false. cbv iota.
  set (bytes := le_bytes 2 MAGIC_CAP ++ _).
  assert (length bytes = 73%nat) as Hl
    by (subst bytes; rewrite !length_app, !length_le_bytes; reflexivity).
  unfold fill. replace 73 with (zlen bytes) by (unfold zlen; lia).
  rewrite packet_message_long by lia. done.
Qed.

Lemma cap_call_read {A} (m : Cap.M A) h s a :
  m [] (kcaps s) = Done (a, [], kcaps s) → cap_call m h s = Done (a, h, s).
Proof. intros E. unfold cap_call. rewrite E. by destruct s. Qed.

Lemma minter_cnode_run h s p q :
  find_pid (Cap.PROCESSES (kcaps s)) p = Some q →
  cap_call (Cap.proc_cnode p "proc not found") h s = Done (Ok (cnode_id q), h, s).
Proof.
  intros Hq. apply cap_call_read. apply with_lock_run; [apply not_elem_of_nil |].
  cpure. by rewrite Hq.
Qed.

Lemma mint_slot_run h s cnode slot r sl x :
  Cap.res_at (Cap.RESOURCES (kcaps s)) cnode = Some r → Cap.slots_of (Cap.data r) = Some sl →
  sl !! Z.to_nat slot = Some x → Cap.cap_type x ≠ Cap.CNull →
  cap_call (mint_slot cnode slot) h s = Done (Ok (cap_code (Cap.cap_type x), Cap.rights x), h, s).
Proof.
  intros Hr Hsl Hx Ht. apply cap_call_read. unfold mint_slot.
  erewrite cmd_bind_Done; [| apply with_lock_run; [apply not_elem_of_nil | cpure; by rewrite Hr]]. cbv iota.
  erewrite cmd_bind_Done; [| unfold Cap.the_resource; cpure; by rewrite Hr].
  rewrite Hsl. apply with_lock_run; [apply not_elem_of_nil |]. rewrite Hx. by rewrite bool_decide_false.
Qed.

(** No capability leaves the kernel.  A transfer to another node never
    succeeds; and for a caller that has the capability it names, it makes the
    kernel panic, since the packet has 73 bytes and a message 64. *)
Theorem remote_mint_panics (s : dist) (id slot remote_cnode : Z) :
  (∀ h s', remote_mint id slot remote_cnode [] s ≠ Done (Ok (), h, s')) ∧
  ∀ c th q r sl x, Ipc.running (net s) c th →
    find_pid (Cap.PROCESSES (kcaps s)) (owner th) = Some q →
    Cap.res_at (Cap.RESOURCES (kcaps s)) (cnode_id q) = Some r →
    Cap.slots_of (Cap.data r) = Some sl → sl !! Z.to_nat slot = Some x → Cap.cap_type x ≠ Cap.CNull →
    remote_mint id slot remote_cnode [] s = Panic.
Proof.
  split.
  - intros h s' E. unfold remote_mint, mbind, cmd_bind in E.
    destruct (current_owner [] s) as [[[[pid |] h1] s1] | | |]; try done.
    unfold try_bind, mbind, cmd_bind in E.
    destruct (cap_call (Cap.proc_cnode pid _) h1 s1) as [[[[cnode | ?] h2] s2] | | |]; try done.
    destruct (cap_call (mint_slot cnode slot) h2 s2) as [[[[tr | ?] h3] s3] | | |]; try done.
  - intros c th q r sl x Hrun Hq Hr Hsl Hx Ht. unfold remote_mint.
    cstep (current_owner_run [] s c th Hrun).
    unfold try_bind. erewrite cmd_bind_Done; [| apply (minter_cnode_run [] s _ q Hq)]. cbv iota.
    erewrite cmd_bind_Done; [| apply (mint_slot_run [] s _ _ r sl x Hr Hsl Hx Ht)].
    apply mint_send_panics.
Qed.

Definition ex_caps : Cap.caps :=
  let k := Cap.final (Cap.add_process 2 32 0x80001000 None) Cap.booted in
  Cap.final (Cap.ep_create_cap 9)
    (Cap.MkCaps (Cap.RESOURCES k) (Cap.NEXT_RESOURCE_ID k) (Cap.PROCESSES k) (Some 2)
       (Cap.CAP_AUDIT_LOG k) (Cap.CAP_AUDIT_IDX k) (Cap.TICK_COUNT k)).
Definition ex_mint : dist := booted_net Ipc.ex_waiting <| kcaps := ex_caps |>.

Lemma remote_mint_panics_witness : remote_mint 4 0 1 [] ex_mint = Panic.
Proof.
  destruct (find_pid (Cap.PROCESSES ex_caps) 2) as [q |] eqn:Eq; [| vm_compute in Eq; discriminate Eq].
  assert (cnode_id q = 1) as Ec by (vm_compute in Eq; injection Eq as <-; reflexivity).
  destruct (Cap.res_at (Cap.RESOURCES ex_caps) 1) as [r |] eqn:Er; [| vm_compute in Er; discriminate Er].
  assert (Cap.slots_of (Cap.data r) = Some Cap.ex_slots) as Es
    by (vm_compute in Er; injection Er as <-; vm_compute; reflexivity).
  apply (proj2 (remote_mint_panics ex_mint 4 0 1) 8192 (Ipc.thread_at Ipc.ex_waiting 8192) q r
    Cap.ex_slots (Cap.MkSlot Cap.CEP 48 2)); [exact Ipc.ex_waiting_running | exact Eq | | exact Es
    | reflexivity | discriminate].
  rewrite Ec. exact Er.
Defined.

(** ** What arrives *)

Lemma short_cap buf : zlen buf <= 64 → parse_cap buf = None.
Proof. intros. unfold parse_cap. by rewrite (proj2 (Z.ltb_lt _ _)) by lia. Qed.

(** [m] leaves the capabilities alone. *)
Definition keeps_caps {A} (m : M A) : Prop :=
  ∀ h s a h' s', m h s = Done (a, h', s') → kcaps s' = kcaps s.

Lemma keeps_bind {A B} (m : M A) (f : A → M B) :
  keeps_caps m → (∀ a, keeps_caps (f a)) → keeps_caps (m ≫= f).
Proof.
  intros Hm Hf h s b h' s' E. unfold mbind, cmd_bind in E.
  destruct (m h s) as [[[a h1] s1] | | |] eqn:E1; try done.
  rewrite (Hf a _ _ _ _ _ E). by eapply Hm.
Qed.

Lemma keeps_ret {A} (a : A) : keeps_caps (mret a).
Proof. by intros h s ? h' s' [= _ _ <-]. Qed.

Lemma keeps_get : keeps_caps get.
Proof. by intros h s ? h' s' [= _ _ <-]. Qed.

Lemma keeps_lift {A} (m : outcome A) : keeps_caps (lift m).
Proof. intros h s a h' s'. destruct m; try done. by intros [= _ _ <-]. Qed.

Lemma keeps_ipc {A} (m : Ipc.M A) : keeps_caps (ipc_call m).
Proof. intros h s a h' s' E. by apply ipc_call_done in E as [_ ->]. Qed.

Lemma keeps_modify f : (∀ s, kcaps (f s) = kcaps s) → keeps_caps (modify f).
Proof. intros Hf h s a h' s' [= _ _ <-]. apply Hf. Qed.

Ltac keeps :=
  repeat first
    [ apply keeps_bind; [| intros ?] | apply keeps_ret | apply keeps_get | apply keeps_lift
    | apply keeps_ipc | apply keeps_modify; intros ?; reflexivity
    | case_match ].

(** No capability is accepted from another node.  Whatever message arrives,
    the tables of capabilities are as before: a message holds 64 bytes, and the
    packet that carries a capability 73. *)
Theorem no_cap_arrives (msg : Ipc.Message) (s s' : dist) :
  length (Ipc.payload msg) = 64%nat → process_incoming_message msg [] s = Done ((), [], s') →
  kcaps s' = kcaps s.
Proof.
  intros Hl. unfold process_incoming_message.
  destruct (aslice (Ipc.payload msg) 0 (Ipc.payload_len msg)) as [buf | | |] eqn:Eb; try done.
  assert (zlen buf <= 64) as Hb.
  { unfold aslice in Eb. destruct (_ && _); [| done]. injection Eb as <-.
    unfold zlen. rewrite length_take, length_drop. lia. }
  cpure. intros E. revert E. unfold cap_receive. rewrite (short_cap buf Hb).
  match goal with |- ?m [] s = _ → _ => assert (keeps_caps m) as Hk end; [| apply Hk].
  unfold handle_incoming_ping, handle_incoming_pong, mark_node_online, update_node,
    queue_incoming_message, handle_proclist_request, current_owner. keeps.
Qed.

Definition ex_cap_message : Ipc.Message :=
  Ipc.MkMessage 7 0xD1 (take 64 (fst (write_cap (replicate 80 0) 1 2 48 0 (replicate 64 0)))) 64
    (replicate 4 None).

Lemma no_cap_arrives_witness :
  ∃ s', process_incoming_message ex_cap_message [] ex_mint = Done ((), [], s') ∧ kcaps s' = kcaps ex_mint.
Proof.
  destruct (process_incoming_message ex_cap_message [] ex_mint) as [[[[] [| x h]] s'] | | |] eqn:E;
    [| destruct x | vm_compute in E; discriminate E ..].
  exists s'. split; [reflexivity |]. exact (no_cap_arrives ex_cap_message ex_mint s' eq_refl E).
Defined.

(** The answer to a heartbeat does not reach the node that asked.  A ping
    carries the number of the node it is sent to, which takes it for the number
    of the sender: the node posts its answer to its own endpoint and changes no
    other mailbox. *)
Theorem pong_goes_home (t : dist) (pid : Z) (ping : Ipc.Message) :
  Ipc.ipc_ok (net t) → is_byte (CLUSTER_NODE_ID t) →
  packet_message pid 0xD1 (fst (write_ping (replicate 64 0) (CLUSTER_NODE_ID t))) 6 = Done ping →
  ∃ r t' pong bytes, process_incoming_message ping [] t = Done ((), [], t') ∧
    posts t (DIST_EP_BASE + CLUSTER_NODE_ID t) 0 pong r t' ∧
    aslice (Ipc.payload pong) 0 (Ipc.payload_len pong) = Done bytes ∧
    parse_all bytes = [Pong (CLUSTER_NODE_ID t)].
Proof.
  intros Hs Hc Ep. set (n := CLUSTER_NODE_ID t) in *.
  assert (fits 32 n) as Hn by (unfold is_byte, fits in *; lia).
  change (fst (write_ping (replicate 64 0) n))
    with (packet_bytes (Ping n) ++ drop 6 (replicate 64 0)) in Ep.
  destruct (packet_message_run pid 0xD1 (packet_bytes (Ping n)) (drop 6 (replicate 64 0)))
    as (msg & Em & _ & Hb); [vm_compute; lia |].
  assert (msg = ping) as -> by (change (zlen (packet_bytes (Ping n))) with 6 in Em; congruence).
  rewrite (incoming_ping ping n [] t Hb Hn). unfold handle_incoming_ping. cpure. fold n.
  change (write_pong (replicate 64 0) n)
    with (packet_bytes (Pong n) ++ drop 6 (replicate 64 0), Some 6). cbv iota beta.
  change (default 0 (Some 6)) with (zlen (packet_bytes (Pong n))).
  change (zlen (packet_bytes (Pong n)) =? 0) with false. cbv iota.
  destruct (packet_message_run 0 0xD1 (packet_bytes (Pong n)) (drop 6 (replicate 64 0)))
    as (pong & Eq & _ & Hq); [vm_compute; lia |].
  rewrite Eq. cpure. destruct (send_posts [] t (DIST_EP_BASE + n) 0 pong Hs) as (r & t' & Es & Hp).
  cstep Es. exists r, t', pong, (packet_bytes (Pong n)). split_and!; try done.
  rewrite <-(app_nil_r (packet_bytes _)), (parse_all_magic (Pong n)) by apply magic_at.
  by apply parse_own_accepts.
Qed.

Definition ex_node1 : dist := booted_net Ipc.booted <| CLUSTER_NODE_ID := 1 |>.
Definition ex_ping : Ipc.Message :=
  match packet_message 0 0xD1 (fst (write_ping (replicate 64 0) 1)) 6 with
  | Done m => m
  | _ => Ipc.Message_new 0 0
  end.

Lemma pong_goes_home_witness :
  ∃ r t' pong, process_incoming_message ex_ping [] ex_node1 = Done ((), [], t') ∧
    posts ex_node1 201 0 pong r t'.
Proof.
  destruct (pong_goes_home ex_node1 0 ex_ping) as (r & t' & pong & bytes & E & Hp & _);
    [exact Ipc.booted_ok | split; discriminate || reflexivity | vm_compute; reflexivity |].
  exists r, t', pong. split; [exact E | exact Hp].
Defined.

(** ** Waiting for an answer *)

Record good (s : dist) : Prop := {
  g_rcv : rcv_ok s;
  g_nodes : zlen (REMOTE_NODES s) = 8;
  g_count : 0 <= REMOTE_NODE_COUNT s <= 8;
  g_net : Ipc.ipc_ok (net s);
}.

(** A pong of node [id] is among the messages that wait. *)
Definition answered (id : Z) (s : dist) : bool :=
  existsb (λ m, bool_decide (parse_pong m.2 = Some id)) (waiting s).

Lemma scan_run {A} (f : list Z → option A) buf l : ∀ i,
  (∀ e, e ∈ l → valid e = true ∧ length (rcv_payload e) = 64%nat ∧ 0 <= rcv_len e <= 64) →
  0 <= i → l `prefix_of` drop (Z.to_nat i) buf →
  ∃ r, scan f buf (zseq i (zlen l)) = Done r ∧
    bool_decide (is_Some r) = existsb (λ m, bool_decide (is_Some (f m.2))) (message_of <$> l).
Proof.
  induction l as [| e l IH]; intros i Hl Hi [rest Hd]; [by exists None |].
  replace (zlen (e :: l)) with (zlen l + 1) by (unfold zlen; cbn; lia).
  rewrite zseq_cons by (pose proof (zlen_nonneg l); lia). replace (zlen l + 1 - 1) with (zlen l) by lia.
  cbn [scan]. assert (buf !! Z.to_nat i = Some e) as He.
  { rewrite <- (Nat.add_0_r (Z.to_nat i)), <- lookup_drop, Hd. done. }
  rewrite (proj2 (aget_lookup _ _ e)) by done. cbn [mbind outcome_bind].
  destruct (Hl e ltac:(by left)) as (Hv & Hp & Hn). rewrite Hv. cbn [negb].
  rewrite aslice_in_range by (unfold zlen; lia). cbn [mbind outcome_bind]. rewrite fmap_cons. cbn [existsb].
  unfold message_of at 1. cbn [snd]. change (drop (Z.to_nat 0) (rcv_payload e)) with (rcv_payload e).
  rewrite Z.sub_0_r. destruct (f _) as [a |]; [by exists (Some a) |].
  destruct (IH (i + 1)) as (r & Er & Hr); [intros; apply Hl; by right | lia | | by exists r].
  exists rest. replace (Z.to_nat (i + 1)) with (Z.to_nat i + 1)%nat by lia. by rewrite <- drop_drop, Hd.
Qed.

(** [check_for_pong] finds an answer exactly when one waits. *)
Lemma check_for_pong_run id h s : rcv_ok s → check_for_pong id h s = Done (answered id s, h, s).
Proof.
  intros Hs. unfold check_for_pong. cpure.
  pose proof (rc_len _ Hs) as Hl. pose proof (rc_count _ Hs) as Hc. unfold zlen in Hl.
  set (f := λ b, match parse_pong b with Some n => if n =? id then Some () else None | None => None end).
  destruct (scan_run f (RCV_BUF s) (take (Z.to_nat (RCV_BUF_COUNT s)) (RCV_BUF s)) 0) as (r & Er & Hr).
  - intros e He. apply list_elem_of_lookup in He as [n He]. apply lookup_take_Some in He as [He Hn].
    apply (rc_entries _ Hs (Z.of_nat n)); [lia | by rewrite Nat2Z.id].
  - done.
  - rewrite drop_0. apply prefix_take.
  - replace (zlen (take _ _)) with (RCV_BUF_COUNT s) in Er by (unfold zlen; rewrite length_take; lia).
    assert (answered id s = bool_decide (is_Some r)) as ->; [| by rewrite Er; cpure].
    rewrite Hr. clear Hr Er. unfold answered, waiting.
    induction (message_of <$> _) as [| m ms IH]; [done |]. cbn [existsb]. rewrite IH. f_equal. unfold f.
    apply bool_decide_ext. destruct (parse_pong m.2) as [n |]; [| by split; [| intros [? ?]]].
    destruct (n =? id) eqn:E; bools; (split; [intros H | intros [? H]]); subst; (by eexists) || congruence.
Qed.

Lemma update_node_run h s id f :
  good s → ∃ s', update_node id f h s = Done ((), h, s') ∧ good s'.
Proof.
  intros Hs. unfold update_node. cpure. pose proof (g_nodes _ Hs) as Hl. pose proof (g_count _ Hs).
  destruct (Pool.search_spec (λ n, node_id n =? id) (REMOTE_NODES s) (zseq 0 (REMOTE_NODE_COUNT s)))
    as [(i & n & E & Hi & Hn & _) | [E _]].
  - apply Forall_forall. intros i ?%elem_of_zseq. lia.
  - apply elem_of_zseq in Hi. unfold find_remote. rewrite E. cpure. cbv iota.
    rewrite (proj2 (aget_lookup _ _ _)) by (split; [lia | done]). cpure.
    rewrite aset_in_range by lia. cpure. eexists. split; [reflexivity |].
    destruct Hs as [Hr _ _ Hi']. split; cbn; [by destruct Hr | by rewrite zlen_insert | done | done].
  - unfold find_remote. rewrite E. cpure. exists s. by split.
Qed.

(** The state at the [k]-th look at the receive buffer: the caller has waited [k]
    times. *)
Fixpoint looks (resume : nat → dist → dist) (s : dist) (k : nat) : dist :=
  match k with O => s | S k => resume k (looks resume s k) end.

(** The probe ends at look [k], with [b] in the state [s']: at the first one at
    which an answer is there or the time is over, and else after 201. *)
Record ends_at (resume : nat → dist → dist) (s : dist) (id deadline : Z) (k : nat) (b : bool) (s' : dist) : Prop := {
  ea_max : (k <= 201)%nat;
  ea_before : ∀ j, (j < k)%nat → TICK_COUNT (looks resume s j) < deadline ∧ answered id (looks resume s j) = false;
  ea_result :
    if b then (k <= 200)%nat ∧ TICK_COUNT (looks resume s k) < deadline ∧ answered id (looks resume s k) = true ∧
      mark_node_online id (TICK_COUNT (looks resume s k)) [] (looks resume s k) = Done ((), [], s')
    else s' = looks resume s k ∧ (k = 201%nat ∨ deadline <= TICK_COUNT (looks resume s k));
}.

Lemma probe_loop_returns resume id deadline s : (∀ n t, good t → good (resume n t)) → ∀ fuel waited,
  (∀ j, (j < waited)%nat → TICK_COUNT (looks resume s j) < deadline ∧ answered id (looks resume s j) = false) →
  good (looks resume s waited) → (200 < waited + fuel)%nat → (waited <= 200)%nat →
  ∃ k b s', probe_loop resume fuel id deadline waited [] (looks resume s waited) = Done (b, [], s') ∧
    good s' ∧ ends_at resume s id deadline k b s'.
Proof.
  intros Hres. induction fuel as [| fuel IH]; intros waited Hbef Hs Hf Hw; [lia |]. cbn [probe_loop]. cpure.
  set (t := looks resume s waited) in *. destruct (TICK_COUNT t <? deadline) eqn:Et; bools.
  2: { exists waited, false, t. split; [done |]. split; [done |]. split; [lia | done | auto]. }
  cstep (check_for_pong_run id [] t (g_rcv _ Hs)). destruct (answered id t) eqn:Ea.
  - destruct (update_node_run [] t id (λ n, n <| online := true |> <| last_seen_tick := TICK_COUNT t |>
      <| failed_pings := 0 |>) Hs) as (s' & E & Hs'). exists waited, true, s'.
    split; [unfold mark_node_online; cstep E; done |]. split; [done |]. by split; [lia | done |].
  - cpure. change (resume waited t) with (looks resume s (S waited)).
    assert (∀ j, (j < S waited)%nat →
      TICK_COUNT (looks resume s j) < deadline ∧ answered id (looks resume s j) = false) as Hbef'.
    { intros j Hj. destruct (decide (j = waited)) as [-> | Hne]; [done | apply Hbef; lia]. }
    assert (good (looks resume s (S waited))) as Hg by (by apply Hres).
    destruct (200 <? S waited)%nat eqn:E.
    + apply Nat.ltb_lt in E. exists (S waited), false, (looks resume s (S waited)). split; [done |]. split; [done |].
      split; [lia | done | split; [done | left; lia]].
    + apply Nat.ltb_ge in E. apply IH; [done | done | lia | lia].
Qed.

(** C40. A probe of a node always ends, after at most 201 looks at the receive buffer.
    Whatever the other threads do in a call of the scheduler, as long as they keep the
    tables in order and the scheduler comes back to the caller, and whether or not the
    clock moves: the probe posts its message and returns.  It succeeds at the first look
    at which a pong of the node waits, if that comes before the deadline and is one of
    the first 201, and marks the node online; otherwise it fails, at the first look
    after the deadline or after 201 of them, and itself changes nothing more. *)
Theorem probe_returns (resume : nat → dist → dist) (s : dist) (id c : Z) (th : Thread) :
  (∀ n t, good t → good (resume n t)) → good s → Ipc.running (net s) c th →
  ∃ r msg s1 k b s', node_probe resume id [] s = Done (b, [], s') ∧ good s' ∧
    posts s (DIST_EP_BASE + id) (owner th) msg r s1 ∧
    aslice (Ipc.payload msg) 0 (Ipc.payload_len msg) = Done (packet_bytes (Ping id)) ∧
    ends_at resume s1 id (u64 (TICK_COUNT s + 1000)) k b s'.
Proof.
  intros Hres Hs Hrun. unfold node_probe.
  change (write_ping (replicate 64 0) id)
    with (fill (replicate 64 0) (le_bytes 2 MAGIC_PING ++ le_bytes 4 id), Some 6). cbv iota beta.
  cstep (current_owner_run [] s c th Hrun). change (default 0 (Some (owner th))) with (owner th).
  destruct (packet_message_run (owner th) 0xD1 (packet_bytes (Ping id)) (drop 6 (replicate 64 0)))
    as (msg & Em & _ & Hping); [vm_compute; lia |].
  change (packet_message (owner th) 0xD1 (packet_bytes (Ping id) ++ drop 6 (replicate 64 0))
    (zlen (packet_bytes (Ping id)))) with (packet_message (owner th) 0xD1
      (fill (replicate 64 0) (le_bytes 2 MAGIC_PING ++ le_bytes 4 id)) 6) in Em.
  rewrite Em. cpure.
  destruct (send_posts [] s (DIST_EP_BASE + id) (owner th) msg (g_net _ Hs)) as (r & s1 & Es & Hp).
  cstep Es. cpure. assert (good s1 ∧ TICK_COUNT s1 = TICK_COUNT s) as [Hs1 ->].
  { unfold posts in Hp. destruct (Ipc.mailbox (net s) _); [| by destruct Hp as [_ ->]].
    destruct Hp as (_ & -> & Hok & _). destruct Hs as [[] ? ? _]. by split. }
  destruct (probe_loop_returns resume id (u64 (TICK_COUNT s + 1000)) s1 Hres 1000 0) as (k & b & s' & E & Hg & He);
    [lia | done | lia | lia |].
  exists r, msg, s1, k, b, s'. done.
Qed.

(** The clock moves by one tick at each look. *)
Lemma probe_returns_witness :
  ∃ s1 k b s', node_probe (λ _ t, t <| TICK_COUNT := TICK_COUNT t + 1 |>) 4 [] (booted_net Ipc.ex_waiting)
      = Done (b, [], s') ∧
    ends_at (λ _ t, t <| TICK_COUNT := TICK_COUNT t + 1 |>) s1 4 1000 k b s'.
Proof.
  destruct (probe_returns (λ _ t, t <| TICK_COUNT := TICK_COUNT t + 1 |>) (booted_net Ipc.ex_waiting) 4
    8192 (Ipc.thread_at Ipc.ex_waiting 8192)) as (r & msg & s1 & k & b & s' & E & _ & _ & _ & He).
  - intros n t [[] ? ? ?]. by split.
  - split; [apply booted_rcv_ok | reflexivity | split; discriminate
      | exact (Ipc.ipc_reachable_ok _ Ipc.ex_waiting_reachable)].
  - exact Ipc.ex_waiting_running.
  - exists s1, k, b, s'. split; [exact E | exact He].
Defined.

(** A global process number gives back the node and the local number, which is
    cut to 24 bits. *)
Lemma global_pid_roundtrip node p :
  is_byte node → fits 32 p →
  pid_to_node (encode_global_pid node p) = node ∧
  pid_to_local (encode_global_pid node p) = p mod 2 ^ 24.
Proof.
  intros Hn Hp. unfold is_byte, fits in *.
  assert (encode_global_pid node p = node * 2 ^ 24 + p mod 2 ^ 24) as ->.
  { unfold encode_global_pid. change 0xFFFFFF with (Z.ones 24).
    rewrite Z.land_ones, Z.shiftl_mul_pow2, wrap_small by (unfold fits; lia).
    apply (lor_low _ _ 24); [lia | apply Z_mod_mult | by apply Z.mod_pos_bound]. }
  unfold pid_to_node, pid_to_local. change 0xFFFFFF with (Z.ones 24).
  rewrite Z.land_ones, Z.shiftr_div_pow2 by lia. pose proof (Z.mod_pos_bound p (2 ^ 24) ltac:(lia)).
  rewrite Z.div_add_l, (Z.div_small (p mod _)), Z.add_0_r by lia. split; [by apply wrap_small |].
  rewrite Z.add_comm, Z_mod_plus_full. by apply Z.mod_small.
Qed.

End Remote.
