(* ===== verification/Block.v ===== *)
(** * Block requests

    device/merge.rs: adjacent requests are merged before they go to a disk.
    device/sched.rs: the order in which requests go, as a plain queue
    ([NoopScheduler]) or with deadlines ([DeadlineScheduler]).

    [merge_exact]: merging loses no sector of the first 128 requests and adds none,
    the result is in order and cannot be merged further, as long as the number of
    sectors fits in 32 bits.  [deadline_refines]: with a
    clock that does not go back the deadline scheduler is two queues, of which the
    reads go first, late ones before late writes, until a write is late or sixteen
    reads in a row were served in time with no late one between them.
    [write_starves]: late reads keep a write waiting for ever. *)
From S2P Require Import Prelude.
Open Scope list_scope.

Module Block.

Record BlockRequest : Type := MkReq {
  sector : Z;
  count : Z;
  buf : Z;
  write : bool;
}.
#[export] Instance BlockRequest_eta : Eta BlockRequest := λ r,
  MkReq (sector r) (count r) (buf r) (write r).

Definition empty : BlockRequest := MkReq 0 0 0 false.

(** ** Merging (device/merge.rs) *)

(** The inner loop: [n] neighbours are compared from the left and swapped. *)
Fixpoint bubble_pass (n : nat) (l : list BlockRequest) : list BlockRequest :=
  match n, l with
  | S n', x :: y :: l' =>
      if sector y <? sector x then y :: bubble_pass n' (x :: l') else x :: bubble_pass n' (y :: l')
  | _, _ => l
  end.

(** The outer loop, with [i] and the passes left. *)
Fixpoint bubble_sort (todo : nat) (i : nat) (l : list BlockRequest) : list BlockRequest :=
  match todo with
  | O => l
  | S todo' => bubble_sort todo' (S i) (bubble_pass (length l - i - 1) l)
  end.

(** The merge loop: [prev] is the entry at [write_idx], [l] the entries from [i]. *)
Fixpoint coalesce (prev : BlockRequest) (l : list BlockRequest) : list BlockRequest :=
  match l with
  | [] => [prev]
  | cur :: l' =>
      let prev_end := u64 (sector prev + count prev) in
      if bool_decide (write prev = write cur) && (prev_end =? sector cur)
      then coalesce (prev <| count := u32 (count prev + count cur) |>) l'
      else prev :: coalesce cur l'
  end.

Definition merge_requests (reqs : list BlockRequest) : list BlockRequest :=
  match take 128 reqs with
  | [] => replicate 128 empty
  | reqs' =>
      match bubble_sort (length reqs') 0 reqs' with
      | [] => replicate 128 empty
      | p :: l =>
          let merged := coalesce p l in
          merged ++ replicate (128 - length merged) empty
      end
  end.

(** ** Scheduling (device/sched.rs) *)

(** [head] and [tail] only grow, by one per call, so that in 2^64 calls they do not
    wrap; they are kept as plain integers. *)
Definition SCHED_MAX : Z := 256.
Definition READ_DEADLINE_TICKS : Z := 50.
Definition WRITE_DEADLINE_TICKS : Z := 500.
Definition STARVE_LIMIT : Z := 16.

(** [impl IoScheduler]: what a scheduler offers to the block layer. *)
Class IoScheduler (S : Type) := {
  enqueue : S → BlockRequest → Z → outcome S;
  dequeue : S → Z → outcome (option BlockRequest * S);
  pending_count : S → Z;
}.

Record NoopScheduler : Type := MkNoop {
  queue : list BlockRequest;
  head : Z;
  tail : Z;
}.

Definition noop_new : NoopScheduler := MkNoop (replicate 256 empty) 0 0.

Definition noop_enqueue (s : NoopScheduler) (req : BlockRequest) : outcome NoopScheduler :=
  if tail s - head s <? SCHED_MAX then
    q ← aset (queue s) (tail s mod SCHED_MAX) req;
    mret (MkNoop q (head s) (tail s + 1))
  else mret s.

Definition noop_dequeue (s : NoopScheduler) : outcome (option BlockRequest * NoopScheduler) :=
  if head s <? tail s then
    req ← aget (queue s) (head s mod SCHED_MAX);
    mret (Some req, MkNoop (queue s) (head s + 1) (tail s))
  else mret (None, s).

#[export] Instance noop_scheduler : IoScheduler NoopScheduler := {|
  enqueue s r _ := noop_enqueue s r;
  dequeue s _ := noop_dequeue s;
  pending_count s := tail s - head s;
|}.

(** One direction of the deadline scheduler: requests and their deadlines. *)
Record dqueue : Type := MkDq {
  dq_reqs : list BlockRequest;
  dq_deadlines : list Z;
  dq_head : Z;
  dq_tail : Z;
}.
#[export] Instance dqueue_eta : Eta dqueue := λ q,
  MkDq (dq_reqs q) (dq_deadlines q) (dq_head q) (dq_tail q).

Record DeadlineScheduler : Type := MkDeadline {
  reads : dqueue;
  writes : dqueue;
  starve_counter : Z;
}.

Definition dqueue_new : dqueue := MkDq (replicate 256 empty) (replicate 256 0) 0 0.
Definition deadline_new : DeadlineScheduler := MkDeadline dqueue_new dqueue_new 0.

Definition dq_put (q : dqueue) (req : BlockRequest) (deadline : Z) : outcome dqueue :=
  if dq_tail q - dq_head q <? SCHED_MAX then
    let idx := dq_tail q mod SCHED_MAX in
    rs ← aset (dq_reqs q) idx req;
    ds ← aset (dq_deadlines q) idx deadline;
    mret (MkDq rs ds (dq_head q) (dq_tail q + 1))
  else mret q.

Definition deadline_enqueue (s : DeadlineScheduler) (req : BlockRequest) (now : Z)
    : outcome DeadlineScheduler :=
  if write req then
    w ← dq_put (writes s) req (u64 (now + WRITE_DEADLINE_TICKS));
    mret (MkDeadline (reads s) w (starve_counter s))
  else
    r ← dq_put (reads s) req (u64 (now + READ_DEADLINE_TICKS));
    mret (MkDeadline r (writes s) (starve_counter s)).

(** [while i < tail]: the first entry whose deadline has passed is taken, and the
    head moves behind it. *)
Fixpoint expired (q : dqueue) (now : Z) (ids : list Z) : outcome (option (BlockRequest * dqueue)) :=
  match ids with
  | [] => mret None
  | i :: ids' =>
      let idx := i mod SCHED_MAX in
      d ← aget (dq_deadlines q) idx;
      if d <=? now then req ← aget (dq_reqs q) idx; mret (Some (req, q <| dq_head := i + 1 |>))
      else expired q now ids'
  end.

Definition find_expired (q : dqueue) (now : Z) : outcome (option (BlockRequest * dqueue)) :=
  expired q now (zseq (dq_head q) (dq_tail q - dq_head q)).

Definition dq_take (q : dqueue) : outcome (BlockRequest * dqueue) :=
  req ← aget (dq_reqs q) (dq_head q mod SCHED_MAX);
  mret (req, q <| dq_head := dq_head q + 1 |>).

Definition deadline_dequeue (s : DeadlineScheduler) (now : Z)
    : outcome (option BlockRequest * DeadlineScheduler) :=
  e ← find_expired (reads s) now;
  match e with
  | Some (req, r) => mret (Some req, MkDeadline r (writes s) 0)
  | None =>
      e ← find_expired (writes s) now;
      match e with
      | Some (req, w) => mret (Some req, MkDeadline (reads s) w 0)
      | None =>
          if dq_head (reads s) <? dq_tail (reads s) then
            if (STARVE_LIMIT <=? starve_counter s) && (dq_head (writes s) <? dq_tail (writes s)) then
              x ← dq_take (writes s);
              mret (Some (fst x), MkDeadline (reads s) (snd x) 0)
            else
              x ← dq_take (reads s);
              mret (Some (fst x), MkDeadline (snd x) (writes s) (starve_counter s + 1))
          else if dq_head (writes s) <? dq_tail (writes s) then
            x ← dq_take (writes s);
            mret (Some (fst x), MkDeadline (reads s) (snd x) 0)
          else mret (None, s)
      end
  end.

#[export] Instance deadline_scheduler : IoScheduler DeadlineScheduler := {|
  enqueue := deadline_enqueue;
  dequeue := deadline_dequeue;
  pending_count s := (dq_tail (reads s) - dq_head (reads s)) + (dq_tail (writes s) - dq_head (writes s));
|}.

(** ** Sorting *)

Definition in_order (x y : BlockRequest) : Prop := sector x <= sector y.

Lemma bubble_pass_perm n l : bubble_pass n l ≡ₚ l.
Proof.
  revert l. induction n as [| n IH]; intros [| x [| y l]]; cbn [bubble_pass]; try done.
  destruct (_ <? _); rewrite IH; [apply perm_swap | done].
Qed.

Lemma bubble_sort_perm k i l : bubble_sort k i l ≡ₚ l.
Proof.
  revert i l. induction k as [| k IH]; intros i l; cbn [bubble_sort]; [done |].
  by rewrite IH, bubble_pass_perm.
Qed.

(** A pass over [a] carries a greatest element to its end. *)
Lemma bubble_pass_max a b : a ≠ [] →
  ∃ a' m, bubble_pass (length a - 1) (a ++ b) = a' ++ m :: b ∧ a' ++ [m] ≡ₚ a ∧
    Forall (λ x, in_order x m) a'.
Proof.
  remember (length a) as n eqn:Hn. revert a Hn. induction n as [| n IH]; intros a Hn Hne; [by destruct a |].
  destruct a as [| x [| y a]]; [done | |].
  - injection Hn as ->. by exists [], x.
  - cbn [length] in Hn. injection Hn as ->. replace (S (S (length a)) - 1)%nat with (S (length a)) by lia.
    assert (∀ z, ∃ a' m, bubble_pass (length a) (z :: a ++ b) = a' ++ m :: b ∧ a' ++ [m] ≡ₚ z :: a ∧
      Forall (λ x, in_order x m) a') as Hz.
    { intros z. destruct (IH (z :: a)) as (a' & m & E & Hp & Hm); [done | done |].
      exists a', m. split_and!; try done. by replace (S (length a) - 1)%nat with (length a) in E by lia. }
    cbn [bubble_pass app]. destruct (sector y <? sector x) eqn:Es; bools.
    + destruct (Hz x) as (a' & m & -> & Hp & Hm). exists (y :: a'), m.
      split; [done |]. split; [cbn; rewrite Hp; apply perm_swap |]. constructor; [| done].
      assert (x ∈ a' ++ [m]) as Hx by (rewrite Hp; left).
      apply elem_of_app in Hx as [Hx | ->%list_elem_of_singleton]; unfold in_order; [| lia].
      rewrite Forall_forall in Hm. specialize (Hm _ Hx). unfold in_order in Hm. lia.
    + destruct (Hz y) as (a' & m & -> & Hp & Hm). exists (x :: a'), m.
      split; [done |]. split; [cbn; by rewrite Hp |]. constructor; [| done].
      assert (y ∈ a' ++ [m]) as Hy by (rewrite Hp; left).
      apply elem_of_app in Hy as [Hy | ->%list_elem_of_singleton]; unfold in_order; [| lia].
      rewrite Forall_forall in Hm. specialize (Hm _ Hy). unfold in_order in Hm. lia.
Qed.

(** After [i] passes the last [i] requests are in place. *)
Lemma bubble_sort_sorted k i a b :
  length a = k → length b = i → StronglySorted in_order b →
  (∀ x y, x ∈ a → y ∈ b → in_order x y) →
  StronglySorted in_order (bubble_sort k i (a ++ b)).
Proof.
  revert i a b. induction k as [| k IH]; intros i a b Ha Hb Hs Hab; cbn [bubble_sort].
  - by destruct a.
  - replace (length (a ++ b) - i - 1)%nat with (length a - 1)%nat by (rewrite length_app; lia).
    destruct (bubble_pass_max a b) as (a' & m & -> & Hp & Hm); [by destruct a |].
    assert (∀ x, x ∈ a' ++ [m] → x ∈ a) as Hin by (intros x; by rewrite Hp).
    apply (IH (S i)).
    + apply Permutation_length in Hp. rewrite length_app in Hp. cbn in Hp. lia.
    + cbn. lia.
    + constructor; [done |]. apply Forall_forall. intros y Hy. apply Hab; [| done].
      apply Hin, elem_of_app. right. by apply list_elem_of_singleton.
    + intros x y Hx [-> | Hy]%elem_of_cons.
      * rewrite Forall_forall in Hm. by apply Hm.
      * apply Hab; [| done]. apply Hin, elem_of_app. by left.
Qed.

(** ** Merging *)

(** The sectors that the requests in one direction cover, in order. *)
Definition cover (w : bool) (l : list BlockRequest) : list Z :=
  mjoin ((λ r, if bool_decide (write r = w) then zseq (sector r) (count r) else []) <$> l).

Definition mergeable (x y : BlockRequest) : Prop :=
  write x = write y ∧ sector x + count x = sector y.

Fixpoint total (l : list BlockRequest) : Z :=
  match l with [] => 0 | r :: l' => count r + total l' end.

Definition req_ok (r : BlockRequest) : Prop :=
  0 <= sector r ∧ 0 <= count r < 2 ^ 32 ∧ sector r + count r < 2 ^ 64.

Lemma total_nonneg l : Forall req_ok l → 0 <= total l.
Proof. induction 1 as [| r l (_ & ? & _) _ IH]; cbn; lia. Qed.

Lemma coalesce_head p l :
  ∃ q l', coalesce p l = q :: l' ∧ sector q = sector p ∧ write q = write p.
Proof.
  revert p. induction l as [| c l IH]; intros p; cbn [coalesce]; [by eexists _, _ |].
  destruct (_ && _); [| by eexists _, _].
  destruct (IH (p <| count := u32 (count p + count c) |>)) as (q & l' & -> & ? & ?). by exists q, l'.
Qed.

Lemma cover_cons w r l : cover w (r :: l) =
  (if bool_decide (write r = w) then zseq (sector r) (count r) else []) ++ cover w l.
Proof. done. Qed.

Lemma coalesce_spec p l :
  Forall req_ok (p :: l) → total (p :: l) < 2 ^ 32 → Sorted in_order (p :: l) →
  (∀ w, cover w (coalesce p l) = cover w (p :: l)) ∧
  Sorted in_order (coalesce p l) ∧ Sorted (λ x y, ¬ mergeable x y) (coalesce p l).
Proof.
  revert p. induction l as [| c l IH]; intros p Hok Ht Hs; cbn [coalesce].
  { split_and!; [done | repeat constructor ..]. }
  inversion Hok as [| ? ? Hp Hok']. inversion Hok' as [| ? ? Hc Hl]. subst.
  inversion Hs as [| ? ? Hs' Hh]. inversion Hs' as [| ? ? Hs'' Hh']. inversion Hh. subst.
  pose proof (total_nonneg l Hl) as Hn. cbn [total] in Ht.
  destruct Hp as (? & ? & ?). destruct Hc as (? & ? & ?).
  rewrite wrap_small by (unfold fits; lia). case_bool_decide as Hw; cbn [andb].
  1: destruct (sector p + count p =? sector c) eqn:E; bools.
  - set (q := p <| count := u32 (count p + count c) |>).
    assert (count q = count p + count c) as Hq by (apply wrap_small; unfold fits; lia).
    assert (sector q = sector p ∧ write q = write p) as [Hqs Hqw] by done.
    destruct (IH q) as (Hcov & Ho & Hm).
    + constructor; [| done]. unfold req_ok. rewrite Hqs, Hq. lia.
    + cbn [total]. rewrite Hq. lia.
    + constructor; [done |]. destruct l as [| d l]; constructor. inversion Hh'. unfold in_order in *. lia.
    + split_and!; [| done | done]. intros w. rewrite Hcov, !cover_cons, Hqs, Hqw, Hq, <-Hw, <-E.
      case_bool_decide; [| done]. by rewrite zseq_app, app_assoc by lia.
  - destruct (IH c) as (Hcov & Ho & Hm); [done | cbn; lia | done |].
    destruct (coalesce_head c l) as (q & l' & Eq & Hqs & Hqw). split_and!.
    + intros w. by rewrite cover_cons, Hcov.
    + constructor; [done |]. rewrite Eq. constructor. unfold in_order in *. lia.
    + constructor; [done |]. rewrite Eq. constructor. intros [_ ?]. lia.
  - destruct (IH c) as (Hcov & Ho & Hm); [done | cbn; lia | done |].
    destruct (coalesce_head c l) as (q & l' & Eq & Hqs & Hqw). split_and!.
    + intros w. by rewrite cover_cons, Hcov.
    + constructor; [done |]. rewrite Eq. constructor. unfold in_order in *. lia.
    + constructor; [done |]. rewrite Eq. constructor. intros [? _]. congruence.
Qed.

Lemma coalesce_length p l : (length (coalesce p l) <= S (length l))%nat.
Proof.
  revert p. induction l as [| c l IH]; intros p; cbn [coalesce length]; [done |].
  destruct (_ && _); cbn [length]; [specialize (IH (p <| count := u32 (count p + count c) |>)) | specialize (IH c)]; lia.
Qed.

Lemma cover_app w l k : cover w (l ++ k) = cover w l ++ cover w k.
Proof. unfold cover. by rewrite fmap_app, join_app. Qed.

Lemma cover_empty w n : cover w (replicate n empty) = [].
Proof. induction n as [| n IH]; [done |]. cbn [replicate]. rewrite cover_cons, IH. by case_bool_decide. Qed.

Lemma cover_perm w l k : l ≡ₚ k → cover w l ≡ₚ cover w k.
Proof. intros Hp. unfold cover. by rewrite Hp. Qed.

Lemma total_perm l k : l ≡ₚ k → total l = total k.
Proof. induction 1; cbn; lia. Qed.

Lemma merge_run reqs :
  Forall req_ok reqs → total (take 128 reqs) < 2 ^ 32 →
  ∃ l n, merge_requests reqs = l ++ replicate n empty ∧ (length l + n = 128)%nat ∧
    Sorted in_order l ∧ Sorted (λ x y, ¬ mergeable x y) l ∧
    ∀ w, cover w (merge_requests reqs) ≡ₚ cover w (take 128 reqs).
Proof.
  intros Hok Ht. unfold merge_requests.
  destruct (take 128 reqs) as [| r rs] eqn:E.
  { exists [], 128%nat. split_and!; [done | done | constructor | constructor |]. intros w. by rewrite cover_empty. }
  set (l := r :: rs) in *. assert (Forall req_ok l) as Hl by (rewrite <-E; by apply Forall_take).
  assert (length l <= 128)%nat as Hlen by (rewrite <-E, length_take; lia).
  pose proof (bubble_sort_sorted (length l) 0 l [] eq_refl eq_refl (SSorted_nil _)
    ltac:(by intros ? ? _ ?%not_elem_of_nil)) as Hs. rewrite app_nil_r in Hs.
  pose proof (bubble_sort_perm (length l) 0 l) as Hp.
  destruct (bubble_sort (length l) 0 l) as [| p k]; [by apply Permutation_nil_l in Hp |].
  destruct (coalesce_spec p k) as (Hc & Ho & Hm).
  - by rewrite Hp.
  - by rewrite (total_perm _ _ Hp).
  - by apply StronglySorted_Sorted.
  - pose proof (coalesce_length p k). pose proof (Permutation_length Hp) as Hpl. cbn [length] in Hpl.
    eexists _, _. split; [done |]. split_and!; [lia | done | done |].
    intros w. rewrite cover_app, cover_empty, app_nil_r, Hc. by apply cover_perm.
Qed.

(** The sum of two counts is cut to 32 bits. *)
Lemma merge_wraps a b :
  req_ok a → req_ok b → mergeable a b → 2 ^ 32 <= count a + count b →
  zlen (cover (write a) (merge_requests [a; b])) = count a + count b - 2 ^ 32.
Proof.
  intros (Ha & Ha' & Ha'') (Hb & Hb' & Hb'') [Hw He] Hc.
  assert (merge_requests [a; b] = [a <| count := count a + count b - 2 ^ 32 |>] ++ replicate 127 empty) as ->.
  { unfold merge_requests. cbn [take length bubble_sort bubble_pass Nat.sub].
    rewrite (proj2 (Z.ltb_ge _ _)) by lia. cbn [length Nat.sub bubble_pass coalesce].
    rewrite wrap_small by (unfold fits; lia). rewrite bool_decide_true by done.
    rewrite (proj2 (Z.eqb_eq _ _)) by done. cbn [andb coalesce].
    rewrite <-(wrap_small 32 (count a + count b - 2 ^ 32)) by (unfold fits; lia).
    replace (u32 (count a + count b - 2 ^ 32)) with (u32 (count a + count b)); [done |].
    unfold wrap. replace (count a + count b - 2 ^ 32) with (count a + count b + (-1) * 2 ^ 32) by lia. by rewrite Z_mod_plus_full. }
  rewrite cover_app, cover_empty, app_nil_r, cover_cons. cbn [write sector count].
  rewrite bool_decide_true by done. unfold zlen. rewrite length_app, length_zseq. cbn. lia.
Qed.

(** C30. Merging requests whose sectors together number less than 2^32 is exact.  The
    result has 128 entries: first requests in ascending order of their sector of
    which no two neighbours could be merged, then empty ones.  In each direction
    they cover exactly the sectors of the first 128 requests given, each as often
    as it was asked for; requests after the 128th are not covered.  (No request goes
    past the last sector number.)  Without that bound sectors are lost: two adjacent
    requests of 2^32 sectors or more are merged into one that has 2^32 fewer. *)
Theorem merge_exact (reqs : list BlockRequest) :
  Forall req_ok reqs →
  (total (take 128 reqs) < 2 ^ 32 →
   ∃ l n, merge_requests reqs = l ++ replicate n empty ∧ (length l + n = 128)%nat ∧
     Sorted in_order l ∧ Sorted (λ x y, ¬ mergeable x y) l ∧
     ∀ w, cover w (merge_requests reqs) ≡ₚ cover w (take 128 reqs)) ∧
  (∀ a b, reqs = [a; b] → mergeable a b → 2 ^ 32 <= total reqs →
   zlen (cover (write a) (merge_requests reqs)) = total reqs - 2 ^ 32).
Proof.
  intros Hok. split; [by apply merge_run |]. intros a b -> Hm Ht. cbn [total] in *.
  apply Forall_cons in Hok as [Ha [Hb _]%Forall_cons]. rewrite (merge_wraps a b); [lia | done | done | done | lia].
Qed.

Lemma merge_exact_witness :
  zlen (cover true (merge_requests [MkReq 0 (2 ^ 31) 0 true; MkReq (2 ^ 31) (2 ^ 31) 0 true])) = 0 ∧
  ∃ l n, merge_requests [MkReq 8 2 0 true; MkReq 4 4 0 true; MkReq 10 1 0 false] = l ++ replicate n empty ∧
    Sorted in_order l ∧
    cover true (merge_requests [MkReq 8 2 0 true; MkReq 4 4 0 true; MkReq 10 1 0 false]) ≡ₚ [8; 9; 4; 5; 6; 7].
Proof.
  split.
  { refine (proj2 (merge_exact [MkReq 0 (2 ^ 31) 0 true; MkReq (2 ^ 31) (2 ^ 31) 0 true] _) _ _ eq_refl _ _);
      [repeat constructor; discriminate | split; reflexivity | discriminate]. }
  destruct (proj1 (merge_exact [MkReq 8 2 0 true; MkReq 4 4 0 true; MkReq 10 1 0 false]
    ltac:(repeat constructor; discriminate)) eq_refl) as (l & n & E & _ & Ho & _ & Hc).
  exists l, n. split; [exact E |]. split; [exact Ho | exact (Hc true)].
Defined.

(** ** Rings *)

(** The entries from [h] up to [t] of an array of 256 used as a ring. *)
Definition ring {A} (d : A) (l : list A) (h t : Z) : list A :=
  (λ k, default d (l !! Z.to_nat (k mod 256))) <$> zseq h (t - h).

Lemma ring_put {A} (d : A) l h t x :
  length l = 256%nat → 0 <= h <= t → t - h < 256 →
  aset l (t mod 256) x = Done (<[Z.to_nat (t mod 256) := x]> l) ∧
  ring d (<[Z.to_nat (t mod 256) := x]> l) h (t + 1) = ring d l h t ++ [x].
Proof.
  intros Hl Hh Hlt. pose proof (Z.mod_pos_bound t 256 ltac:(lia)).
  split; [apply aset_in_range; unfold zlen; lia |]. unfold ring.
  replace (t + 1 - h) with ((t - h) + 1) by lia. rewrite zseq_app, fmap_app by lia. f_equal.
  - apply list_fmap_ext. intros i k Hk. apply list_elem_of_lookup_2, elem_of_zseq in Hk.
    rewrite list_lookup_insert_ne; [done |]. pose proof (Z.mod_pos_bound k 256 ltac:(lia)).
    assert (k mod 256 ≠ t mod 256) by dlia. lia.
  - replace (h + (t - h)) with t by lia. rewrite zseq_cons, zseq_nil by lia. cbn [fmap list_fmap].
    by rewrite list_lookup_insert_eq by lia.
Qed.

Lemma ring_take {A} (d : A) l h t :
  length l = 256%nat → 0 <= h < t →
  ∃ x, aget l (h mod 256) = Done x ∧ ring d l h t = x :: ring d l (h + 1) t.
Proof.
  intros Hl Hh. pose proof (Z.mod_pos_bound h 256 ltac:(lia)).
  destruct (lookup_lt_is_Some_2 l (Z.to_nat (h mod 256))) as [x Hx]; [lia |]. exists x.
  split; [apply aget_lookup; split; [lia | done] |]. unfold ring. rewrite zseq_cons by lia.
  cbn [fmap list_fmap]. rewrite Hx. by replace (t - (h + 1)) with (t - h - 1) by lia.
Qed.

Lemma ring_empty {A} (d : A) l h t : t <= h → ring d l h t = [].
Proof. intros. unfold ring. by rewrite zseq_nil by lia. Qed.

Lemma length_ring {A} (d : A) l h t : length (ring d l h t) = Z.to_nat (t - h).
Proof. unfold ring. by rewrite length_fmap, length_zseq. Qed.

(** ** The plain queue *)

Record noop_ok (s : NoopScheduler) : Prop := {
  no_len : length (queue s) = 256%nat;
  no_range : 0 <= head s <= tail s;
  no_size : tail s - head s <= 256;
}.

Definition noop_view (s : NoopScheduler) : list BlockRequest := ring empty (queue s) (head s) (tail s).

(** The plain scheduler is a queue of at most 256 requests; more are dropped. *)
Lemma noop_refines s r now :
  noop_ok s →
  (∃ s', enqueue s r now = Done s' ∧ noop_ok s' ∧
     noop_view s' = if (length (noop_view s) <? 256)%nat then noop_view s ++ [r] else noop_view s) ∧
  ∃ s', dequeue s now = Done (hd_error (noop_view s), s') ∧ noop_ok s' ∧ noop_view s' = tl (noop_view s).
Proof.
  intros [Hl Hr Hz]. cbn [enqueue dequeue noop_scheduler]. split.
  - unfold noop_enqueue, SCHED_MAX, noop_view at 2. rewrite length_ring.
    destruct (tail s - head s <? 256) eqn:E; bools.
    + rewrite (proj2 (Nat.ltb_lt _ _)) by lia.
      destruct (ring_put empty (queue s) (head s) (tail s) r Hl Hr E) as [-> Hring].
      eexists. split; [reflexivity |]. split; [| exact Hring].
      split; cbn; [by rewrite length_insert | lia | lia].
    + rewrite (proj2 (Nat.ltb_ge _ _)) by lia. by exists s.
  - unfold noop_dequeue. destruct (head s <? tail s) eqn:E; bools.
    + destruct (ring_take empty (queue s) (head s) (tail s) Hl) as (x & Hx & Hring); [lia |].
      unfold SCHED_MAX. rewrite Hx. unfold noop_view. rewrite Hring.
      eexists. split; [reflexivity |]. split; [| done]. split; cbn; [done | lia | lia].
    + unfold noop_view. rewrite ring_empty by lia. exists s. split; [done |]. split; [done |].
      cbn. by rewrite ring_empty by lia.
Qed.

(** ** Deadlines *)

Definition dq_dls (q : dqueue) : list Z := ring 0 (dq_deadlines q) (dq_head q) (dq_tail q).

(** The requests of a queue with their deadlines. *)
Definition dq_view (q : dqueue) : list (BlockRequest * Z) :=
  zip (ring empty (dq_reqs q) (dq_head q) (dq_tail q)) (dq_dls q).

(** Deadlines ascend, and none is later than [lim]. *)
Record dq_ok (lim : Z) (q : dqueue) : Prop := {
  dk_reqs : length (dq_reqs q) = 256%nat;
  dk_dls : length (dq_deadlines q) = 256%nat;
  dk_range : 0 <= dq_head q <= dq_tail q;
  dk_size : dq_tail q - dq_head q <= 256;
  dk_sorted : StronglySorted Z.le (dq_dls q);
  dk_lim : Forall (λ d, d <= lim) (dq_dls q);
}.

Lemma dq_ok_later lim lim' q : lim <= lim' → dq_ok lim q → dq_ok lim' q.
Proof.
  intros Hle []. split; try done. eapply Forall_impl; [done |]. intros d. cbn. lia.
Qed.

Lemma dq_new_ok lim : dq_ok lim dqueue_new.
Proof. split; try done; constructor. Qed.

Lemma length_dq_view q : length (dq_view q) = Z.to_nat (dq_tail q - dq_head q).
Proof. unfold dq_view, dq_dls. rewrite length_zip_with, !length_ring. lia. Qed.

Lemma sorted_snoc (l : list Z) x :
  StronglySorted Z.le l → Forall (λ d, d <= x) l → StronglySorted Z.le (l ++ [x]).
Proof.
  induction 1 as [| y l Hs IH Hy]; intros Hx; cbn; [repeat constructor |].
  inversion Hx; subst. constructor; [by apply IH |]. apply Forall_app. by split; [| repeat constructor].
Qed.

Lemma dq_put_ok lim q r d :
  dq_ok lim q → lim <= d →
  ∃ q', dq_put q r d = Done q' ∧ dq_ok d q' ∧
    dq_view q' = if (length (dq_view q) <? 256)%nat then dq_view q ++ [(r, d)] else dq_view q.
Proof.
  intros Hq Hd. pose proof (dq_ok_later _ _ _ Hd Hq) as Hq'. destruct Hq as [Hr Hl Hh Hz Hs Hm].
  unfold dq_put, SCHED_MAX. rewrite length_dq_view.
  destruct (dq_tail q - dq_head q <? 256) eqn:E; bools.
  - rewrite (proj2 (Nat.ltb_lt _ _)) by lia.
    destruct (ring_put empty (dq_reqs q) _ _ r Hr Hh E) as [-> Hring]. cbn [mbind outcome_bind].
    destruct (ring_put 0 (dq_deadlines q) _ _ d Hl Hh E) as [-> Hringd]. cbn [mbind outcome_bind].
    eexists. split; [reflexivity |]. split.
    + split; unfold dq_dls; cbn; rewrite ?length_insert, ?Hringd; try done; try lia.
      * apply sorted_snoc; [done |]. eapply Forall_impl; [exact Hm |]. cbn. intros. lia.
      * apply Forall_app. split; [apply (dk_lim _ _ Hq') | repeat constructor; lia].
    + unfold dq_view, dq_dls. cbn [dq_reqs dq_deadlines dq_head dq_tail]. rewrite Hring, Hringd.
      rewrite zip_with_app by (by rewrite !length_ring). done.
  - rewrite (proj2 (Nat.ltb_ge _ _)) by lia. by exists q.
Qed.

Lemma dq_nonempty lim q : dq_ok lim q → (dq_head q <? dq_tail q) = negb (bool_decide (dq_view q = [])).
Proof.
  intros Hq. pose proof (length_dq_view q) as Hl. pose proof (dk_range _ _ Hq).
  case_bool_decide as E.
  - rewrite E in Hl. cbn in Hl. cbn [negb]. apply Z.ltb_ge. lia.
  - apply Z.ltb_lt. destruct (dq_view q); [done |]. cbn in Hl. lia.
Qed.

(** Taking the request at the head. *)
Lemma dq_take_ok lim q r d rest :
  dq_ok lim q → dq_view q = (r, d) :: rest →
  aget (dq_reqs q) (dq_head q mod 256) = Done r ∧ aget (dq_deadlines q) (dq_head q mod 256) = Done d ∧
  dq_head q < dq_tail q ∧
  dq_ok lim (q <| dq_head := dq_head q + 1 |>) ∧ dq_view (q <| dq_head := dq_head q + 1 |>) = rest ∧
  Forall (λ d', d <= d') (dq_dls q).
Proof.
  intros Hq Ev. pose proof (dq_nonempty _ _ Hq) as Hne. rewrite Ev in Hne. cbn in Hne. bools.
  destruct Hq as [Hr Hl Hh Hz Hs Hm]. pose proof Hs as Hs0.
  destruct (ring_take empty (dq_reqs q) (dq_head q) (dq_tail q) Hr) as (x & -> & Hx); [lia |].
  destruct (ring_take 0 (dq_deadlines q) (dq_head q) (dq_tail q) Hl) as (y & -> & Hy); [lia |].
  unfold dq_view, dq_dls in Ev. rewrite Hx, Hy in Ev. injection Ev as -> -> Ev.
  unfold dq_dls in *. rewrite Hy in *. inversion Hs as [| ? ? Hs' Hf]. inversion Hm. subst.
  split_and!; try done; [split; cbn; try done; lia |]. by constructor.
Qed.

Lemma expired_none q now ids :
  length (dq_deadlines q) = 256%nat →
  Forall (λ i, 0 <= i ∧ ∀ d, dq_deadlines q !! Z.to_nat (i mod 256) = Some d → now < d) ids →
  expired q now ids = Done None.
Proof.
  intros Hl. induction 1 as [| i ids [Hi Hd] _ IH]; cbn [expired]; [done |].
  pose proof (Z.mod_pos_bound i 256 ltac:(lia)). unfold SCHED_MAX.
  destruct (lookup_lt_is_Some_2 (dq_deadlines q) (Z.to_nat (i mod 256))) as [d Ed]; [lia |].
  rewrite (proj2 (aget_lookup (dq_deadlines q) (i mod 256) d)) by (split; [lia | done]). cbn [mbind outcome_bind].
  specialize (Hd d Ed). rewrite (proj2 (Z.leb_gt _ _)) by lia. exact IH.
Qed.

(** With ascending deadlines, only the head can be the first late request. *)
Lemma find_expired_run lim q now :
  dq_ok lim q →
  find_expired q now =
    Done (match dq_view q with
          | (r, d) :: _ => if d <=? now then Some (r, q <| dq_head := dq_head q + 1 |>) else None
          | [] => None
          end).
Proof.
  intros Hq. unfold find_expired. destruct (dq_view q) as [| [r d] rest] eqn:Ev.
  - rewrite zseq_nil; [done |]. pose proof (length_dq_view q) as Hl. rewrite Ev in Hl. cbn in Hl. lia.
  - destruct (dq_take_ok _ _ _ _ _ Hq Ev) as (Hr & Hd & Hlt & _ & _ & Hall).
    destruct (d <=? now) eqn:E; bools.
    + rewrite zseq_cons by lia. cbn [expired]. unfold SCHED_MAX. rewrite Hd. cbn [mbind outcome_bind].
      rewrite (proj2 (Z.leb_le _ _)), Hr by done. done.
    + apply expired_none; [apply Hq |]. apply Forall_forall. intros i Hi%elem_of_zseq.
      pose proof (dk_range _ _ Hq). split; [lia |]. intros d' Hd'. rewrite Forall_forall in Hall.
      cut (d <= d'); [lia |]. apply Hall. unfold dq_dls, ring. apply list_elem_of_fmap.
      exists i. split; [by rewrite Hd' | apply elem_of_zseq; lia].
Qed.

(** ** The contract of the deadline scheduler *)

(** Two queues and the number of reads served before their deadline since the last
    write or late read. *)
Definition dl_view (s : DeadlineScheduler) : list (BlockRequest * Z) * list (BlockRequest * Z) * Z :=
  (dq_view (reads s), dq_view (writes s), starve_counter s).

Definition put_limited (l : list (BlockRequest * Z)) (x : BlockRequest * Z) : list (BlockRequest * Z) :=
  if (length l <? 256)%nat then l ++ [x] else l.

Definition spec_enqueue (v : list (BlockRequest * Z) * list (BlockRequest * Z) * Z) (r : BlockRequest) (now : Z)
    : list (BlockRequest * Z) * list (BlockRequest * Z) * Z :=
  let '(rs, ws, n) := v in
  if write r then (rs, put_limited ws (r, now + 500), n) else (put_limited rs (r, now + 50), ws, n).

Definition late (l : list (BlockRequest * Z)) (now : Z) : bool :=
  match l with (_, d) :: _ => d <=? now | [] => false end.

(** A late read, else a late write, else a read, unless a write waits and the
    sixteen or more reads before were served in time, else a write.  A late read, like a write, starts
    the count anew. *)
Definition spec_dequeue (v : list (BlockRequest * Z) * list (BlockRequest * Z) * Z) (now : Z)
    : option BlockRequest * (list (BlockRequest * Z) * list (BlockRequest * Z) * Z) :=
  let '(rs, ws, n) := v in
  match rs, ws with
  | (r, _) :: rs', (w, _) :: ws' =>
      if late rs now then (Some r, (rs', ws, 0))
      else if late ws now then (Some w, (rs, ws', 0))
      else if 16 <=? n then (Some w, (rs, ws', 0))
      else (Some r, (rs', ws, n + 1))
  | (r, _) :: rs', [] => (Some r, (rs', [], if late rs now then 0 else n + 1))
  | [], (w, _) :: ws' => (Some w, ([], ws', 0))
  | [], [] => (None, v)
  end.

Record dl_ok (now : Z) (s : DeadlineScheduler) : Prop := {
  dl_reads : dq_ok (now + 50) (reads s);
  dl_writes : dq_ok (now + 500) (writes s);
}.

(** Calls with a clock that does not go back. *)
Inductive dl_reach : Z → DeadlineScheduler → Prop :=
| dl_start : dl_reach 0 deadline_new
| dl_enqueue t s now r s' :
    dl_reach t s → t <= now → now + 500 < 2 ^ 64 → enqueue s r now = Done s' → dl_reach now s'
| dl_dequeue t s now o s' :
    dl_reach t s → t <= now → dequeue s now = Done (o, s') → dl_reach now s'.

Lemma enqueue_run t s now r :
  dl_ok t s → 0 <= t <= now → now + 500 < 2 ^ 64 →
  ∃ s', enqueue s r now = Done s' ∧ dl_ok now s' ∧ dl_view s' = spec_enqueue (dl_view s) r now.
Proof.
  intros [Hr Hw] Ht Hn. cbn [enqueue deadline_scheduler].
  unfold deadline_enqueue, spec_enqueue, dl_view, put_limited, READ_DEADLINE_TICKS, WRITE_DEADLINE_TICKS.
  rewrite !wrap_small by (unfold fits; lia). destruct (write r).
  - destruct (dq_put_ok _ _ r (now + 500) Hw) as (q & -> & Hq & Hv); [lia |]. cbn [mbind outcome_bind].
    eexists. split; [reflexivity |]. split; [split; [eapply dq_ok_later; [| done]; lia | done] |].
    cbn [reads writes starve_counter]. by rewrite Hv.
  - destruct (dq_put_ok _ _ r (now + 50) Hr) as (q & -> & Hq & Hv); [lia |]. cbn [mbind outcome_bind].
    eexists. split; [reflexivity |]. split; [split; [done | eapply dq_ok_later; [| done]; lia] |].
    cbn [reads writes starve_counter]. by rewrite Hv.
Qed.

Lemma dequeue_run t s now :
  dl_ok t s → t <= now →
  ∃ s', dequeue s now = Done (fst (spec_dequeue (dl_view s) now), s') ∧ dl_ok now s' ∧
    dl_view s' = snd (spec_dequeue (dl_view s) now).
Proof.
  intros [Hr Hw] Ht. apply (dq_ok_later _ (now + 50)) in Hr; [| lia].
  apply (dq_ok_later _ (now + 500)) in Hw; [| lia].
  cbn [dequeue deadline_scheduler]. unfold deadline_dequeue, dq_take, SCHED_MAX, STARVE_LIMIT, dl_view, spec_dequeue.
  rewrite (find_expired_run _ _ now Hr), (find_expired_run _ _ now Hw).
  rewrite (dq_nonempty _ _ Hr), (dq_nonempty _ _ Hw). cbn [mbind outcome_bind].
  destruct (dq_view (reads s)) as [| [r dr] rs] eqn:Er, (dq_view (writes s)) as [| [w dw] ws] eqn:Ew;
    try (destruct (dq_take_ok _ _ _ _ _ Hr Er) as (Hra & _ & _ & Hrok & Hrv & _));
    try (destruct (dq_take_ok _ _ _ _ _ Hw Ew) as (Hwa & _ & _ & Hwok & Hwv & _)); cbn [late andb negb];
    rewrite ?andb_false_r, ?andb_true_r; rewrite ?bool_decide_true by done; rewrite ?bool_decide_false by done;
    rewrite ?andb_false_r, ?andb_true_r; cbn [negb];
    repeat match goal with |- context [if (?a <=? ?b) then _ else _] => destruct (a <=? b) eqn:? end;
    rewrite ?Hra, ?Hwa; cbn [mbind outcome_bind fst snd];
    eexists; (split; [reflexivity |]); (split; [by split |]); cbn [reads writes starve_counter snd];
    congruence.
Qed.

Lemma dl_reach_ok t s : dl_reach t s → 0 <= t ∧ dl_ok t s.
Proof.
  induction 1 as [| t s now r s' _ [Ht Hs] Hn Hm E | t s now o s' _ [Ht Hs] Hn E].
  - split; [lia |]. split; apply dq_new_ok.
  - destruct (enqueue_run t s now r Hs) as (s1 & E1 & Hok & _); [lia | done |].
    rewrite E in E1. injection E1 as <-. split; [lia | done].
  - destruct (dequeue_run t s now Hs Hn) as (s1 & E1 & Hok & _).
    rewrite E in E1. injection E1 as _ <-. split; [lia | done].
Qed.

(** C29. The deadline scheduler keeps its contract.  As long as the clock does not go
    back, in every reachable state both calls return, a request is appended to the
    queue of its direction unless 256 are waiting there, and the request that goes
    next is the oldest read or the oldest write: a late read, else a late write,
    else the write if sixteen reads have been served in time since the last write or
    late read, else the read; no other request moves or is lost. *)
Theorem deadline_refines (t now : Z) (s : DeadlineScheduler) (r : BlockRequest) :
  dl_reach t s → t <= now → now + 500 < 2 ^ 64 →
  (∃ s', enqueue s r now = Done s' ∧ dl_view s' = spec_enqueue (dl_view s) r now) ∧
  ∃ s', dequeue s now = Done (fst (spec_dequeue (dl_view s) now), s') ∧
    dl_view s' = snd (spec_dequeue (dl_view s) now).
Proof.
  intros [H0 Hs]%dl_reach_ok Ht Hn. split.
  - destruct (enqueue_run t s now r Hs) as (s' & ? & _ & ?); [lia | done |]. by exists s'.
  - destruct (dequeue_run t s now Hs Ht) as (s' & ? & _ & ?). by exists s'.
Qed.

Definition ex_read : BlockRequest := MkReq 40 8 0 false.
Definition ex_write : BlockRequest := MkReq 80 8 0 true.
Definition ex_deadline : DeadlineScheduler :=
  match deadline_enqueue deadline_new ex_write 3 with Done s => s | _ => deadline_new end.

Lemma ex_deadline_reach : dl_reach 3 ex_deadline.
Proof. apply (dl_enqueue 0 deadline_new 3 ex_write); [constructor | lia | lia | vm_compute; reflexivity]. Qed.

Lemma deadline_refines_witness :
  ∃ s', dequeue ex_deadline 5 = Done (Some ex_write, s') ∧ dl_view s' = ([], [], 0).
Proof.
  destruct (deadline_refines 3 5 ex_deadline ex_read ex_deadline_reach) as [_ (s' & E & Hv)];
    [discriminate | reflexivity |].
  exists s'. split; [exact E | exact Hv].
Defined.

(** One read comes in, and is asked for when it is late. *)
Fixpoint late_reads (n : nat) (s : DeadlineScheduler) (now : Z) (r : BlockRequest)
    : outcome (list (option BlockRequest) * DeadlineScheduler) :=
  match n with
  | O => mret ([], s)
  | S n' =>
      s ← enqueue s r now;
      x ← dequeue s (now + 50);
      rest ← late_reads n' (snd x) (now + 50) r;
      mret (fst x :: fst rest, snd rest)
  end.

(** A write can wait for ever.  Late reads go before late writes, and put the
    counter that protects writes back to zero: if reads come in one by one and
    each is fetched when its deadline has passed, then however long this goes on
    every request fetched is the read, and the writes are as they were. *)
Theorem write_starves (t now : Z) (s : DeadlineScheduler) (r : BlockRequest) (n : nat) :
  dl_reach t s → t <= now → dq_view (reads s) = [] → write r = false →
  now + 50 * Z.of_nat n + 500 < 2 ^ 64 →
  ∃ s', late_reads n s now r = Done (replicate n (Some r), s') ∧
    dq_view (writes s') = dq_view (writes s) ∧ dq_view (reads s') = [].
Proof.
  intros [H0 Hs]%dl_reach_ok. revert t now s H0 Hs.
  induction n as [| n IH]; intros t now s H0 Hs Ht Hr Hw Hmax; cbn [late_reads replicate]; [by exists s |].
  destruct (enqueue_run t s now r Hs) as (s1 & -> & Hs1 & Hv1); [lia | lia |]. cbn [mbind outcome_bind].
  unfold spec_enqueue, dl_view, put_limited in Hv1. rewrite Hw, Hr in Hv1.
  injection Hv1 as Hr1 Hw1 _. cbn in Hr1.
  destruct (dequeue_run now s1 (now + 50) Hs1) as (s2 & -> & Hs2 & Hv2); [lia |]. cbn [mbind outcome_bind fst snd].
  assert (spec_dequeue (dl_view s1) (now + 50) = (Some r, ([], dq_view (writes s), 0)) ∨
          dq_view (writes s) = [] ∧ spec_dequeue (dl_view s1) (now + 50) = (Some r, ([], [], 0))) as Hspec.
  { unfold spec_dequeue, dl_view. rewrite Hr1, Hw1. cbn [late].
    rewrite (proj2 (Z.leb_le _ _)) by lia. destruct (dq_view (writes s)) as [| [w d] ws]; [by right | by left]. }
  assert (fst (spec_dequeue (dl_view s1) (now + 50)) = Some r ∧
          snd (spec_dequeue (dl_view s1) (now + 50)) = ([], dq_view (writes s), 0)) as [-> Hsnd]
    by (destruct Hspec as [-> | [E ->]]; [done | by rewrite E]).
  rewrite Hsnd in Hv2. injection Hv2 as Hr2 Hw2 _.
  destruct (IH (now + 50) (now + 50) s2) as (s' & -> & Hw' & Hr'); [lia | done | lia | done | done | lia |].
  exists s'. split; [done |]. split; congruence.
Qed.

Lemma write_starves_witness :
  ∃ s', late_reads 100 ex_deadline 3 ex_read = Done (replicate 100 (Some ex_read), s') ∧
    dq_view (writes s') = [(ex_write, 503)].
Proof.
  destruct (write_starves 3 3 ex_deadline ex_read 100 ex_deadline_reach) as (s' & E & Hw & _);
    [discriminate | vm_compute; reflexivity | reflexivity | reflexivity |].
  exists s'. split; [exact E | exact Hw].
Defined.

End Block.
