(* ===== verification/Tx.v ===== *)
(** * Transactions on page tables

    kernel/src/mem/txmmu.rs: [TxMMU] collects up to sixteen changes of a page
    table and makes them in [commit]; [rollback_on_conflict] looks whether the
    table still is as the changes expect it.  proc/elf.rs:
    [load_elf_transactional], a loader that maps a program with it.

    On the page tables of Sv39.v.  TLB fences and console output are not modelled.

    [commit_exact]: after the check, a commit makes exactly the changes asked for;
    when it fails, it has made those before the one that failed, and the
    transaction is still open.  [tx_load_limit]: the loader refuses every program
    of more than sixteen pages and keeps the pages it took for it. *)
From S2P Require Import Prelude Buddy Frames Proc Sv39 Elf.
Import Sv39 Elf.

Module Tx.

(** ** Transactions (mem/txmmu.rs) *)

Definition MAX_OPS : Z := 16.

Inductive TxOp : Type :=
| Map (va pa flags : Z)
| Unmap (va : Z)
| Protect (va flags : Z).

Record TxMMU : Type := MkTx {
  root_phys : Z;
  pending_ops : list (option TxOp);
  op_count : Z;
  in_tx : bool;
}.
#[export] Instance TxMMU_eta : Eta TxMMU := λ t, MkTx (root_phys t) (pending_ops t) (op_count t) (in_tx t).

Definition FLAG_R : Z := 1.
Definition FLAG_W : Z := 2.
Definition FLAG_X : Z := 4.
Definition FLAG_U : Z := 8.

Definition begin (root : Z) : TxMMU := MkTx root (replicate 16 None) 0 true.

(** The body that [map], [unmap] and [protect] share. *)
Definition queue_op (tx : TxMMU) (op : TxOp) : outcome (result string () * TxMMU) :=
  if negb (in_tx tx) then Done (Err "TxMMU: no transaction in progress"%string, tx) else
  if MAX_OPS <=? op_count tx then Done (Err "TxMMU: transaction operation buffer full"%string, tx) else
  ops ← aset (pending_ops tx) (op_count tx) (Some op);
  Done (Ok (), tx <| pending_ops := ops |> <| op_count := op_count tx + 1 |>).

Definition tx_map (tx : TxMMU) (va pa flags : Z) : outcome (result string () * TxMMU) :=
  queue_op tx (Map va pa flags).
Definition tx_unmap (tx : TxMMU) (va : Z) : outcome (result string () * TxMMU) := queue_op tx (Unmap va).
Definition tx_protect (tx : TxMMU) (va flags : Z) : outcome (result string () * TxMMU) :=
  queue_op tx (Protect va flags).

Definition abort (tx : TxMMU) : TxMMU := MkTx (root_phys tx) (replicate 16 None) 0 false.

Section tx.
Context {A : Type} `{FA : FrameAllocator A} (hart : Z).

Definition commit_map (s : @vm A) (root va pa flags : Z) : outcome (result string () * vm) :=
  '(o, s) ← walk_process_pt hart s root va true;
  match o with
  | None => Done (Err "TxMMU commit_map: page table walk failed"%string, s)
  | Some (l0, idx) =>
      s ← set_pte s l0 idx (leaf_pte pa (flag_r flags) (flag_w flags) (flag_x flags) (flag_u flags));
      Done (Ok (), s)
  end.

Definition commit_unmap (s : @vm A) (root va : Z) : outcome vm :=
  '(o, s) ← walk_process_pt hart s root va false;
  match o with
  | None => Done s
  | Some (l0, idx) => set_pte s l0 idx 0
  end.

Definition commit_protect (s : @vm A) (root va flags : Z) : outcome vm :=
  '(o, s) ← walk_process_pt hart s root va false;
  match o with
  | None => Done s
  | Some (l0, idx) =>
      e ← pte_at s l0 idx;
      set_pte s l0 idx (set_flags e (flag_r flags) (flag_w flags) (flag_x flags) (flag_u flags))
  end.

Definition commit_op (s : @vm A) (root : Z) (op : option TxOp) : outcome (result string () * vm) :=
  match op with
  | Some (Map va pa flags) => commit_map s root va pa flags
  | Some (Unmap va) => s ← commit_unmap s root va; Done (Ok (), s)
  | Some (Protect va flags) => s ← commit_protect s root va flags; Done (Ok (), s)
  | None => Done (Ok (), s)
  end.

(** [for i in 0..self.op_count], left by [?]. *)
Fixpoint commit_loop (s : @vm A) (tx : TxMMU) (ids : list Z) : outcome (result string () * vm) :=
  match ids with
  | [] => Done (Ok (), s)
  | i :: ids' =>
      op ← aget (pending_ops tx) i;
      '(r, s) ← commit_op s (root_phys tx) op;
      match r with
      | Ok _ => commit_loop s tx ids'
      | Err e => Done (Err e, s)
      end
  end.

Definition commit (s : @vm A) (tx : TxMMU) : outcome (result string () * TxMMU * vm) :=
  if negb (in_tx tx) then Done (Err "TxMMU: no transaction in progress"%string, tx, s) else
  '(r, s) ← commit_loop s tx (zseq 0 (op_count tx));
  match r with
  | Ok _ => Done (Ok (), abort tx, s)
  | Err e => Done (Err e, tx, s)
  end.

(** Whether the last-level entry of the address is a valid leaf. *)
Definition present (s : @vm A) (root va : Z) : outcome (bool * vm) :=
  '(o, s) ← walk_process_pt hart s root va false;
  match o with
  | None => Done (false, s)
  | Some (l0, idx) => e ← pte_at s l0 idx; Done (is_valid e && is_leaf e, s)
  end.

Definition conflict (s : @vm A) (root : Z) (op : option TxOp) : outcome (bool * vm) :=
  match op with
  | Some (Map va _ _) => present s root va
  | Some (Unmap va) | Some (Protect va _) => '(b, s) ← present s root va; Done (negb b, s)
  | None => Done (false, s)
  end.

Fixpoint conflict_loop (s : @vm A) (tx : TxMMU) (ids : list Z) : outcome (bool * vm) :=
  match ids with
  | [] => Done (false, s)
  | i :: ids' =>
      op ← aget (pending_ops tx) i;
      '(b, s) ← conflict s (root_phys tx) op;
      if negb b then conflict_loop s tx ids' else Done (true, s)
  end.

Definition rollback_on_conflict (s : @vm A) (tx : TxMMU) : outcome (bool * TxMMU * vm) :=
  if negb (in_tx tx) then Done (false, tx, s) else
  '(b, s) ← conflict_loop s tx (zseq 0 (op_count tx));
  Done (b, if negb b then tx else abort tx, s).

(** ** The loader (proc/elf.rs) *)

(** A row of [va_buf], [pa_buf] and [flags_buf]. *)
Record MapEntry : Type := MkEntry { me_va : Z; me_pa : Z; me_flags : Z }.

Record SegInfo : Type := MkSeg {
  data_offset : Z;
  si_vaddr : Z;
  si_filesz : Z;
  page_start_idx : Z;
  page_count : Z;
}.

Definition seg_flags (p : Elf64Phdr) : Z :=
  Z.lor (Z.lor (Z.lor (if seg_r p then FLAG_R else 0) (if seg_w p then FLAG_W else 0))
               (if seg_x p then FLAG_X else 0)) FLAG_U.

(** A cleared page for each address; [alloc_page()?] gives up. *)
Fixpoint alloc_entries (s : @vm A) (flags : Z) (pages : list Z) : outcome (option (list MapEntry) * vm) :=
  match pages with
  | [] => Done (Some [], s)
  | page_va :: rest =>
      '(o, s) ← alloc_page hart s;
      match o with
      | None => Done (None, s)
      | Some phys =>
          s ← zero s phys PAGE_SIZE;
          '(l, s) ← alloc_entries s flags rest;
          Done (option_map (cons (MkEntry page_va phys flags)) l, s)
      end
  end.

(** Phase 1: headers and pages.  The rows in use are kept, [num_entries] and
    [num_segs] are their numbers. *)
Definition collect_segment (s : @vm A) (entries : list MapEntry) (segs : list SegInfo) (p : Elf64Phdr)
    : outcome (option (list MapEntry * list SegInfo) * vm) :=
  if negb (p_type p =? PT_LOAD) then Done (Some (entries, segs), s) else
  if p_memsz p =? 0 then Done (Some (entries, segs), s) else
  let count := u64 (seg_end p - seg_start p) / PAGE_SIZE in
  if (512 <? zlen entries + count) || (8 <=? zlen segs) then Done (None, s) else
  '(o, s) ← alloc_entries s (seg_flags p) (page_steps (seg_start p) (seg_end p));
  match o with
  | None => Done (None, s)
  | Some l =>
      Done (Some (entries ++ l,
        segs ++ [MkSeg (p_offset p) (p_vaddr p) (p_filesz p) (zlen entries) count]), s)
  end.

Fixpoint collect (s : @vm A) (data : list Z) (h : Elf64Header) (entries : list MapEntry)
    (segs : list SegInfo) (ids : list Z) : outcome (option (list MapEntry * list SegInfo) * vm) :=
  match ids with
  | [] => Done (Some (entries, segs), s)
  | i :: ids' =>
      p ← read_phdr data (e_phoff h + i * e_phentsize h);
      '(o, s) ← collect_segment s entries segs p;
      match o with
      | None => Done (None, s)
      | Some (entries, segs) => collect s data h entries segs ids'
      end
  end.

(** Phase 2: one transaction for all pages. *)
Fixpoint queue_entries (tx : TxMMU) (l : list MapEntry) : outcome (option TxMMU) :=
  match l with
  | [] => Done (Some tx)
  | e :: l' =>
      '(r, tx) ← tx_map tx (me_va e) (me_pa e) (me_flags e);
      match r with
      | Ok _ => queue_entries tx l'
      | Err _ => Done None
      end
  end.

Definition map_entries (s : @vm A) (root : Z) (entries : list MapEntry) : outcome (bool * vm) :=
  o ← queue_entries (begin root) entries;
  match o with
  | None => Done (false, s)
  | Some tx =>
      '(b, tx, s) ← rollback_on_conflict s tx;
      if negb b then
        '(r, _, s) ← commit s tx;
        Done (match r with Ok _ => true | Err _ => false end, s)
      else
        s ← for_each (λ s pa, free_page hart s pa 0) s (me_pa <$> entries);
        Done (false, s)
  end.

(** Phase 3.  Rows not in use hold zero, and there are 512. *)
Definition row (f : MapEntry → Z) (entries : list MapEntry) (i : Z) : outcome Z :=
  if (0 <=? i) && (i <? 512) then Done (default 0 (f <$> entries !! Z.to_nat i)) else Panic.

Fixpoint copy_seg_loop (fuel : nat) (s : @vm A) (data : list Z) (entries : list MapEntry) (seg : SegInfo)
    (copy_va remaining : Z) : outcome vm :=
  if remaining <=? 0 then Done s else
  match fuel with
  | O => OutOfFuel
  | S fuel' =>
      let page_off := Z.land copy_va (PAGE_SIZE - 1) in
      let chunk := Z.min remaining (PAGE_SIZE - page_off) in
      first ← row me_va entries (page_start_idx seg);
      let page_idx := u64 (copy_va - first) / PAGE_SIZE in
      phys ← row me_pa entries (page_start_idx seg + page_idx);
      let src := u64 (data_offset seg + u64 (copy_va - si_vaddr seg)) in
      bs ← aslice data src (src + chunk);
      s ← copy_in s (phys + page_off) bs;
      copy_seg_loop fuel' s data entries seg (u64 (copy_va + chunk)) (remaining - chunk)
  end.

Definition copy_seg (s : @vm A) (data : list Z) (entries : list MapEntry) (seg : SegInfo) : outcome vm :=
  if si_filesz seg =? 0 then Done s else
  if zlen data <? u64 (data_offset seg + si_filesz seg) then Done s else
  copy_seg_loop (Z.to_nat (si_filesz seg / PAGE_SIZE + 2)) s data entries seg (si_vaddr seg) (si_filesz seg).

Fixpoint copy_segs (s : @vm A) (data : list Z) (entries : list MapEntry) (segs : list SegInfo) : outcome vm :=
  match segs with
  | [] => Done s
  | seg :: segs' => s ← copy_seg s data entries seg; copy_segs s data entries segs'
  end.

(** Phase 4: the stack, in a transaction of its own. *)
Definition map_stack (s : @vm A) (root : Z) : outcome (bool * vm) :=
  '(o, s) ← alloc_page hart s;
  match o with
  | None => Done (false, s)
  | Some stack_phys =>
      s ← zero s stack_phys PAGE_SIZE;
      '(r, tx) ← tx_map (begin root) STACK_BOTTOM stack_phys (Z.lor (Z.lor FLAG_R FLAG_W) FLAG_U);
      match r with
      | Err _ => Done (false, s)
      | Ok _ =>
          '(r, _, s) ← commit s tx;
          Done (match r with Ok _ => true | Err _ => false end, s)
      end
  end.

Definition load_elf_transactional (s : @vm A) (data : list Z) (root : Z) : outcome (option (Z * Z) * vm) :=
  match check_header data with
  | None => Done (None, s)
  | Some h =>
      '(o, s) ← collect s data h [] [] (zseq 0 (e_phnum h));
      match o with
      | None => Done (None, s)
      | Some (entries, segs) =>
          '(ok, s) ← map_entries s root entries;
          if negb ok then Done (None, s) else
          s ← copy_segs s data entries segs;
          '(ok, s) ← map_stack s root;
          if negb ok then Done (None, s) else
          '(s, _) ← force_wxorx s root;
          Done (Some (e_entry h, STACK_BOTTOM + PAGE_SIZE - 16), s)
      end
  end.
End tx.

(** ** What a change does to a leaf *)

Definition op_va (op : TxOp) : Z := match op with Map va _ _ | Unmap va | Protect va _ => va end.

Definition leaf_of (e : Z) : option (Z * Z) := if is_leaf e then Some (0, e) else None.

(** The leaf of the page of a change, from the one before. *)
Definition new_leaf (op : TxOp) (l : option (Z * Z)) : option (Z * Z) :=
  match op, l with
  | Map _ pa f, _ => leaf_of (leaf_pte pa (flag_r f) (flag_w f) (flag_x f) (flag_u f))
  | Unmap _, Some (0, _) => None
  | Protect _ f, Some (0, e) => leaf_of (set_flags e (flag_r f) (flag_w f) (flag_x f) (flag_u f))
  | _, _ => l
  end.

(** A change finds its page as it expects it. *)
Definition expected (m : Z → Z) (root : Z) (op : TxOp) : Prop :=
  match op with
  | Map va _ _ => frame_4k m root va = None
  | Unmap va | Protect va _ => is_Some (frame_4k m root va)
  end.

Section laws.
Context {A : Type} `{FL : FrameLaws A} (hart : Z).
Hypothesis hart_ok : 0 <= hart.

Lemma present_run s bl roots root va :
  spaces_ok s bl roots → root ∈ roots →
  present hart s root va = Done (bool_decide (is_Some (frame_4k (mem s) root va)), s).
Proof.
  intros Hok Hr. unfold present.
  destruct (walk_run hart hart_ok s bl roots root va false Hok Hr) as (o & s1 & k & -> & _ & Hsame & Ho).
  destruct (Hsame eq_refl) as [-> _]. cbn [mbind outcome_bind]. destruct o as [[l0 idx] |].
  - destruct Ho as (Ht & -> & _). destruct (vpn_bounds va) as (_ & _ & H0).
    rewrite (pte_at_run s bl) by (apply Hok || done || eapply so_owned; eauto using path_last).
    cbn [mbind outcome_bind]. destruct (frame_4k_table _ _ _ _ Ht) as [-> _].
    replace (is_valid _ && is_leaf _) with (is_leaf (mem s (l0 + 8 * vpn0 va)))
      by (unfold is_leaf; by destruct (is_valid _)).
    by destruct (is_leaf _); [rewrite bool_decide_true | rewrite bool_decide_false by (by intros [])].
  - rewrite bool_decide_false; [done |]. unfold frame_4k.
    destruct (hw_leaf (mem s) root va) as [[k' e] |] eqn:E; [| by intros []].
    destruct k'; [| by intros []..]. apply hw_leaf_4k in E as (_ & l0 & E & _).
    destruct Ho as [Ho _]. congruence.
Qed.

Lemma conflict_run s bl roots root op :
  spaces_ok s bl roots → root ∈ roots →
  ∃ b, conflict hart s root (Some op) = Done (b, s) ∧ (b = false ↔ expected (mem s) root op).
Proof.
  intros Hok Hr. unfold conflict, expected.
  destruct op as [va pa f | va | va f]; rewrite (present_run s bl roots) by done; cbn [mbind outcome_bind];
    eexists; (split; [reflexivity |]); destruct (frame_4k (mem s) root va);
    rewrite ?bool_decide_true by eauto; rewrite ?bool_decide_false by (by intros []); split; try done; by intros [].
Qed.

(** Writing the last-level entry of an address. *)
Lemma last_entry_run s bl roots root va l0 e :
  spaces_ok s bl roots → root ∈ roots → table (mem s) root [vpn2 va; vpn1 va] = Some l0 →
  ∃ s', set_pte s l0 (vpn0 va) e = Done s' ∧ (spaces_ok s' bl roots ∧ free_frames hart s' = free_frames hart s) ∧
    ∀ r va', r ∈ roots → hw_leaf (mem s') r va' =
      if decide (r = root ∧ vpath va' = vpath va) then leaf_of e else hw_leaf (mem s) r va'.
Proof.
  intros Hok Hr Ht. destruct (vpn_bounds va) as (_ & _ & H0).
  destruct (set_entry_run hart s bl roots root _ l0 (vpn0 va) e Hok Hr (path_last va) Ht H0 ltac:(by left))
    as (s' & -> & R). exists s'. split; [done |]. split; [split; apply R |]. intros r va' Hr'.
  rewrite (rw_leaf _ _ _ _ _ _ _ _ _ _ R) by done. by apply decide_ext; rewrite vpath_last.
Qed.

(** [res] and the leaves after the change [op] of an address space. *)
Definition op_done (s : @vm A) (roots : list Z) (root : Z) (op : TxOp)
    (res : result string ()) (s' : vm) : Prop :=
  match res with
  | Ok _ => ∀ r va', r ∈ roots → hw_leaf (mem s') r va' =
      if decide (r = root ∧ vpath va' = vpath (op_va op)) then new_leaf op (hw_leaf (mem s) r va')
      else hw_leaf (mem s) r va'
  | Err _ => (∃ va pa f, op = Map va pa f ∧ no_room hart s root va) ∧
      ∀ r va', r ∈ roots → hw_leaf (mem s') r va' = hw_leaf (mem s) r va'
  end.

Lemma hw_leaf_vpath m r va va' : vpath va' = vpath va → hw_leaf m r va' = hw_leaf m r va.
Proof. unfold hw_leaf, vpath. by intros [= -> -> ->]. Qed.

(** A change that takes back or restricts a page finds the entry of the page. *)
Lemma find_entry s bl roots root va :
  spaces_ok s bl roots → root ∈ roots → is_Some (frame_4k (mem s) root va) →
  ∃ l0 e, walk_process_pt hart s root va false = Done (Some (l0, vpn0 va), s) ∧
    pte_at s l0 (vpn0 va) = Done e ∧ hw_leaf (mem s) root va = Some (0, e) ∧
    table (mem s) root [vpn2 va; vpn1 va] = Some l0.
Proof.
  intros Hok Hr Hf. unfold frame_4k in Hf.
  destruct (hw_leaf (mem s) root va) as [[k e] |] eqn:E; [| by destruct Hf].
  destruct k; [| by destruct Hf..]. pose proof E as E'. apply hw_leaf_4k in E as (_ & l0 & Ht & He).
  destruct (walk_run hart hart_ok s bl roots root va false Hok Hr) as (o & s1 & k & Ew & _ & Hsame & Ho).
  destruct (Hsame eq_refl) as [-> _].
  destruct o as [[l0' idx] |]; [destruct Ho as (Ht' & -> & _) | destruct Ho; congruence].
  assert (l0' = l0) as -> by congruence. exists l0, e. split; [done |]. split; [| done].
  destruct (vpn_bounds va) as (_ & _ & H0).
  rewrite (pte_at_run s bl) by (apply Hok || done || eapply so_owned; eauto using path_last). by rewrite He.
Qed.

Lemma commit_op_run s bl roots root op :
  spaces_ok s bl roots → root ∈ roots → expected (mem s) root op →
  ∃ res s' k, commit_op hart s root (Some op) = Done (res, s') ∧ spaces_ok s' (k ++ bl) roots ∧
    op_done s roots root op res s' ∧ (res = Ok () → free_frames hart s - 2 <= free_frames hart s').
Proof.
  intros Hok Hr Hx. destruct op as [va pa f | va | va f]; cbn [commit_op expected op_va] in *.
  - unfold commit_map.
    destruct (walk_run hart hart_ok s bl roots root va true Hok Hr) as (o & s1 & k & -> & G & _ & Ho).
    cbn [mbind outcome_bind]. destruct o as [[l0 idx] |].
    2: { eexists _, s1, k. split; [reflexivity |]. split; [apply G |]. split; [| done].
         split; [exists va, pa, f; split; [done | by apply Ho] | intros; by apply G]. }
    destruct Ho as (Ht & -> & Hk). pose proof (missing_two (mem s) root va). pose proof (gr_spare _ _ _ _ _ _ G).
    destruct (last_entry_run s1 (k ++ bl) roots root va l0
                (leaf_pte pa (flag_r f) (flag_w f) (flag_x f) (flag_u f)) (gr_ok _ _ _ _ _ _ G) Hr Ht)
      as (s2 & -> & [Hok2 Hf2] & Hl). cbn [mbind outcome_bind].
    eexists _, s2, k. split; [reflexivity |]. split; [done |]. split; [| lia]. cbn. intros r va' Hr'.
    by rewrite Hl, (gr_leaf _ _ _ _ _ _ G) by done.
  - unfold commit_unmap. destruct (find_entry s bl roots root va Hok Hr Hx) as (l0 & e & -> & _ & E & Ht).
    cbn [mbind outcome_bind]. destruct (last_entry_run s bl roots root va l0 0 Hok Hr Ht) as (s' & -> & [Hok' Hf'] & Hl).
    eexists _, s', []. split; [reflexivity |]. split; [done |]. split; [| lia]. cbn [op_done op_va]. intros r va' Hr'. rewrite Hl by done.
    case_decide as D; [| done]. destruct D as [-> D]. by rewrite (hw_leaf_vpath _ _ va va' D), E.
  - unfold commit_protect. destruct (find_entry s bl roots root va Hok Hr Hx) as (l0 & e & -> & Ee & E & Ht).
    cbn [mbind outcome_bind]. rewrite Ee. cbn [mbind outcome_bind].
    destruct (last_entry_run s bl roots root va l0
                (set_flags e (flag_r f) (flag_w f) (flag_x f) (flag_u f)) Hok Hr Ht) as (s' & -> & [Hok' Hf'] & Hl).
    eexists _, s', []. split; [reflexivity |]. split; [done |]. split; [| lia]. cbn [op_done op_va]. intros r va' Hr'. rewrite Hl by done.
    case_decide as D; [| done]. destruct D as [-> D]. by rewrite (hw_leaf_vpath _ _ va va' D), E.
Qed.

(** ** Open transactions *)

(** Begun for [root], with [ops] accepted. *)
Inductive opened (root : Z) : list TxOp → TxMMU → Prop :=
| opened_begin : opened root [] (begin root)
| opened_op ops tx op tx' :
    opened root ops tx → queue_op tx op = Done (Ok (), tx') → opened root (ops ++ [op]) tx'.

Definition opened_tx (root : Z) (ops : list TxOp) : TxMMU :=
  MkTx root ((Some <$> ops) ++ replicate (16 - length ops) None) (zlen ops) true.

Lemma queue_opened root ops op :
  (length ops <= 16)%nat →
  queue_op (opened_tx root ops) op =
    if (length ops =? 16)%nat
    then Done (Err "TxMMU: transaction operation buffer full"%string, opened_tx root ops)
    else Done (Ok (), opened_tx root (ops ++ [op])).
Proof.
  intros Hn. unfold queue_op, MAX_OPS. change (in_tx (opened_tx root ops)) with true.
  change (op_count (opened_tx root ops)) with (zlen ops).
  change (pending_ops (opened_tx root ops)) with ((Some <$> ops) ++ replicate (16 - length ops) None).
  cbn [negb].
  destruct (length ops =? 16)%nat eqn:E; [apply Nat.eqb_eq in E | apply Nat.eqb_neq in E].
  - by rewrite (proj2 (Z.leb_le _ _)) by (unfold zlen; lia).
  - rewrite (proj2 (Z.leb_gt _ _)) by (unfold zlen; lia).
    rewrite aset_in_range by (rewrite zlen_app, zlen_replicate; unfold zlen; rewrite length_fmap; lia).
    cbn [mbind outcome_bind]. unfold opened_tx. cbn. do 4 f_equal.
    + rewrite to_nat_zlen, insert_app_r_alt by (rewrite length_fmap; lia).
      rewrite length_fmap, Nat.sub_diag, fmap_app, <-app_assoc, length_app. cbn [length].
      by replace (16 - length ops)%nat with (S (16 - (length ops + 1)))%nat by lia.
    + rewrite zlen_app. done.
Qed.

Lemma opened_holds root ops tx : opened root ops tx → (length ops <= 16)%nat ∧ tx = opened_tx root ops.
Proof.
  induction 1 as [| ops tx op tx' _ [Hn ->] E]; [by split; [cbn; lia |] |].
  rewrite queue_opened in E by done. destruct (length ops =? 16)%nat eqn:En; [done |].
  apply Nat.eqb_neq in En. injection E as <-. rewrite length_app. cbn [length]. split; [lia | done].
Qed.

Lemma opened_get root ops i op :
  ops !! i = Some op → aget (pending_ops (opened_tx root ops)) (Z.of_nat i) = Done (Some op).
Proof.
  intros Hi. apply aget_lookup. split; [lia |]. rewrite Nat2Z.id. cbn.
  rewrite lookup_app_l by (rewrite length_fmap; by eapply lookup_lt_Some). by rewrite list_lookup_fmap, Hi.
Qed.

(** The loops of [commit] and of [rollback_on_conflict] over the changes. *)
Fixpoint commit_ops (s : @vm A) (root : Z) (ops : list TxOp) : outcome (result string () * vm) :=
  match ops with
  | [] => Done (Ok (), s)
  | op :: ops' =>
      '(r, s) ← commit_op hart s root (Some op);
      match r with
      | Ok _ => commit_ops s root ops'
      | Err e => Done (Err e, s)
      end
  end.

Lemma zseq_cons_nat (i n : nat) : zseq (Z.of_nat i) (Z.of_nat (S n)) = Z.of_nat i :: zseq (Z.of_nat (S i)) (Z.of_nat n).
Proof.
  rewrite zseq_cons by lia. do 2 f_equal; lia.
Qed.

Lemma commit_loop_ops s root pre post :
  commit_loop hart s (opened_tx root (pre ++ post)) (zseq (Z.of_nat (length pre)) (Z.of_nat (length post))) =
    commit_ops s root post.
Proof.
  revert s pre. induction post as [| op post IH]; intros s pre; [done |].
  cbn [length]. rewrite zseq_cons_nat. cbn [commit_loop commit_ops].
  rewrite (opened_get _ _ _ op) by by apply list_lookup_middle. cbn [mbind outcome_bind].
  change (root_phys (opened_tx root (pre ++ op :: post))) with root.
  destruct (commit_op hart s root (Some op)) as [[[[] | e] s'] | | |]; cbn [mbind outcome_bind]; try done.
  specialize (IH s' (pre ++ [op])). rewrite <-app_assoc, length_app in IH. cbn [app length] in IH.
  by rewrite Nat.add_1_r in IH.
Qed.

(** The check before a commit is exact. *)
Lemma conflict_loop_run s bl roots root pre post :
  spaces_ok s bl roots → root ∈ roots →
  ∃ b, conflict_loop hart s (opened_tx root (pre ++ post)) (zseq (Z.of_nat (length pre)) (Z.of_nat (length post))) =
      Done (b, s) ∧ (b = false ↔ Forall (expected (mem s) root) post).
Proof.
  intros Hok Hr. revert pre. induction post as [| op post IH]; intros pre; [by exists false |].
  cbn [length]. rewrite zseq_cons_nat. cbn [conflict_loop].
  rewrite (opened_get _ _ _ op) by by apply list_lookup_middle. cbn [mbind outcome_bind].
  change (root_phys (opened_tx root (pre ++ op :: post))) with root.
  destruct (conflict_run s bl roots root op Hok Hr) as (b & -> & Hb). cbn [mbind outcome_bind].
  destruct b; cbn [negb].
  - exists true. split; [done |]. split; [done |]. intros [Hop%Hb _]%Forall_cons. done.
  - destruct (IH (pre ++ [op])) as (b & E & Hb'). rewrite <-app_assoc, length_app, Nat.add_1_r in E.
    cbn [app length] in E. exists b. split; [done |]. rewrite Hb', Forall_cons. split; [| by intros [_ ?]].
    intros ?. split; [by apply Hb | done].
Qed.

Lemma rollback_run s bl roots root ops tx :
  spaces_ok s bl roots → root ∈ roots → opened root ops tx →
  ∃ b, rollback_on_conflict hart s tx = Done (b, if negb b then tx else abort tx, s) ∧
    (b = false ↔ Forall (expected (mem s) root) ops).
Proof.
  intros Hok Hr [_ ->]%opened_holds. destruct (conflict_loop_run s bl roots root [] ops Hok Hr) as (b & E & Hb).
  exists b. split; [| done]. unfold rollback_on_conflict. cbn [in_tx opened_tx negb op_count].
  unfold zlen. cbn [app length] in E. change (Z.of_nat 0) with 0 in E. by rewrite E.
Qed.

(** Why change number [n] fails: its page lies in a huge page, or there were fewer
    pages left than two tables for each change so far. *)
Definition no_table (s : @vm A) (n : nat) (root va : Z) : Prop :=
  (∃ l e, 0 < l ∧ hw_leaf (mem s) root va = Some (l, e)) ∨ free_frames hart s < 2 * (Z.of_nat n + 1).

(** The leaves after the changes [ops]. *)
Definition leaves_after (s : @vm A) (roots : list Z) (root : Z) (ops : list TxOp) (s' : vm) : Prop :=
  (∀ op va', op ∈ ops → vpath va' = vpath (op_va op) →
     hw_leaf (mem s') root va' = new_leaf op (hw_leaf (mem s) root va')) ∧
  ∀ r va', r ∈ roots → (r = root → Forall (λ op, vpath va' ≠ vpath (op_va op)) ops) →
    hw_leaf (mem s') r va' = hw_leaf (mem s) r va'.

Lemma leaves_after_cons s s1 s' roots root op ops :
  root ∈ roots → Forall (λ op', vpath (op_va op') ≠ vpath (op_va op)) ops →
  op_done s roots root op (Ok ()) s1 → leaves_after s1 roots root ops s' →
  leaves_after s roots root (op :: ops) s'.
Proof.
  intros Hr Hne H1 [Ha Hs]. split.
  - intros op' va' Hin Hv. rewrite Forall_forall in Hne. apply elem_of_cons in Hin as [-> | Hin].
    + rewrite Hs, H1, decide_True by done || (intros _; apply Forall_forall; intros o Ho; rewrite Hv; intros E; by apply (Hne o Ho)).
      done.
    + rewrite (Ha op' va' Hin Hv), H1, decide_False; [done | | done]. intros [_ E]. apply (Hne op' Hin). congruence.
  - intros r va' Hr' Hd. rewrite Hs, H1; [| done | done |].
    + rewrite decide_False; [done |]. intros [-> E]. by destruct (proj1 (Forall_cons _ _ _) (Hd eq_refl)).
    + intros ->. by destruct (proj1 (Forall_cons _ _ _) (Hd eq_refl)).
Qed.

Lemma expected_leaf m m' root op :
  hw_leaf m' root (op_va op) = hw_leaf m root (op_va op) → expected m root op → expected m' root op.
Proof. unfold expected, frame_4k. by destruct op; cbn; intros ->. Qed.

Lemma commit_ops_run s bl roots root ops :
  spaces_ok s bl roots → root ∈ roots → Forall (expected (mem s) root) ops →
  NoDup ((λ op, vpath (op_va op)) <$> ops) →
  ∃ res n s' k, commit_ops s root ops = Done (res, s') ∧ spaces_ok s' (k ++ bl) roots ∧
    leaves_after s roots root (take n ops) s' ∧
    match res with
    | Ok _ => n = length ops
    | Err _ => ∃ va pa f, ops !! n = Some (Map va pa f) ∧ no_table s n root va
    end.
Proof.
  revert s bl. induction ops as [| op ops IH]; intros s bl Hok Hr Hx Hnd; cbn [commit_ops].
  { exists (Ok ()), 0%nat, s, []. split; [done |]. split; [done |].
    split; [| done]. split; [by intros ? ? ?%not_elem_of_nil | done]. }
  apply Forall_cons in Hx as [Hop Hx]. rewrite fmap_cons in Hnd. apply NoDup_cons in Hnd as [Hni Hnd].
  assert (Forall (λ op', vpath (op_va op') ≠ vpath (op_va op)) ops) as Hne.
  { apply Forall_forall. intros op' Hin E. apply Hni. rewrite <-E. apply list_elem_of_fmap. eauto. }
  destruct (commit_op_run s bl roots root op Hok Hr Hop) as (res & s1 & k1 & -> & Hok1 & H1 & Hf1).
  cbn [mbind outcome_bind]. destruct res as [[] | e].
  - assert (∀ op', op' ∈ ops → hw_leaf (mem s1) root (op_va op') = hw_leaf (mem s) root (op_va op')) as Hsame.
    { intros op' Hin. rewrite H1, decide_False by done || (intros [_ E]; by apply (proj1 (Forall_forall _ _) Hne op')).
      done. }
    destruct (IH s1 (k1 ++ bl)) as (res & n & s' & k & E & Hok' & Hl & Hres); [done | done | | done |].
    { apply Forall_forall. intros op' Hin. rewrite Forall_forall in Hx. eapply expected_leaf, Hx; auto. }
    exists res, (S n), s', (k ++ k1). rewrite <-app_assoc. split; [done |]. split; [done |]. split.
    + cbn [take]. eapply leaves_after_cons; [done | by apply Forall_take | done | done].
    + destruct res; [by cbn; f_equal |]. destruct Hres as (va & pa & f & Hn & Hno).
      exists va, pa, f. split; [done |]. destruct Hno as [(l & e' & Hl' & He) | Hlt].
      * left. exists l, e'. split; [done |]. rewrite <-He. symmetry. apply (Hsame (Map va pa f)).
        by eapply list_elem_of_lookup_2.
      * right. specialize (Hf1 eq_refl). lia.
  - destruct H1 as [(va & pa & f & -> & Hno) Hsame]. exists (Err e), 0%nat, s1, k1.
    split; [done |]. split; [done |].
    split; [| exists va, pa, f; split; [done |]; destruct Hno as [? | ?]; [by left | right];
              pose proof (missing_two (mem s) root va); lia].
    split; [by intros ? ? ?%not_elem_of_nil | intros; by apply Hsame].
Qed.

(** ** What a commit does to translations *)

(** The address leads to the frame [p] with the rights [f], if the architecture
    accepts them, and to nothing otherwise. *)
Definition granted (m : Z → Z) (root va p f : Z) : Prop :=
  if usable (flag_r f) (flag_w f) (flag_x f)
  then ∃ e, translate m root va = Some (p + va mod 4096, e) ∧ rights e = (flag_r f, flag_w f, flag_x f, flag_u f)
  else translate m root va = None.

Definition op_result (s s' : @vm A) (root : Z) (op : TxOp) (va : Z) : Prop :=
  match op with
  | Map _ pa f => granted (mem s') root va pa f
  | Unmap _ => translate (mem s') root va = None
  | Protect page f => ∃ p, frame_4k (mem s) root page = Some p ∧ granted (mem s') root va p f
  end.

Definition op_ok (op : TxOp) : Prop :=
  canonical (op_va op) = true ∧ match op with Map _ pa _ => frame_addr pa | _ => True end.

Lemma leaf_granted m root va e p f :
  canonical va = true → hw_leaf m root va = leaf_of e → p mod 4096 = 0 →
  leaf_says e p (flag_r f) (flag_w f) (flag_x f) (flag_u f) → granted m root va p f.
Proof.
  intros Hc Hl Hp Hs. unfold granted, usable. unfold leaf_of in Hl. rewrite (ls_leaf _ _ _ _ _ _ Hs) in Hl.
  destruct (flag_r f || flag_w f || flag_x f); cbn [andb]; [| by apply translate_none].
  pose proof (translate_leaf _ _ _ _ _ _ _ _ _ _ Hc Hl Hs Hp) as Ht.
  destruct (negb _); [| done]. exists e. split; [done |]. unfold rights.
  by rewrite (ls_r _ _ _ _ _ _ Hs), (ls_w _ _ _ _ _ _ Hs), (ls_x _ _ _ _ _ _ Hs), (ls_u _ _ _ _ _ _ Hs).
Qed.

Lemma new_leaf_result s s' root op va :
  op_ok op → expected (mem s) root op → canonical va = true → vpath va = vpath (op_va op) →
  hw_leaf (mem s') root va = new_leaf op (hw_leaf (mem s) root va) → op_result s s' root op va.
Proof.
  intros [_ Hop] Hx Hc Hv Hl. rewrite (hw_leaf_vpath (mem s) root _ _ Hv) in Hl.
  destruct op as [va0 pa f | va0 | va0 f]; cbn [op_result new_leaf op_va expected] in *.
  - eapply leaf_granted; [done | done | apply Hop | by apply leaf_pte_spec].
  - apply translate_none. rewrite Hl. unfold frame_4k in Hx.
    destruct (hw_leaf (mem s) root va0) as [[[] ?] |]; [done | by destruct Hx..].
  - unfold frame_4k in *.
    destruct (hw_leaf (mem s) root va0) as [[[] e] |]; [| by destruct Hx..].
    exists (phys_addr e). split; [done |]. eapply leaf_granted; [done | done | | apply set_flags_says].
    rewrite phys_addr_eq. apply Z_mod_mult.
Qed.

Lemma leaves_translate s s' roots root ops r va :
  leaves_after s roots root ops s' → Forall op_ok ops → r ∈ roots →
  (r = root → Forall (λ op, va / 4096 ≠ op_va op / 4096) ops) →
  translate (mem s') r va = translate (mem s) r va.
Proof.
  intros [_ Hs] Hok Hr Hne. destruct (canonical va) eqn:Hc; [| unfold translate; by rewrite Hc].
  apply translate_same, Hs; [done |]. intros E. specialize (Hne E).
  rewrite !Forall_forall in *. intros op Hin Hv. apply (Hne op Hin).
  by apply (proj1 (vpath_page (op_va op) va (proj1 (Hok op Hin)) Hc)).
Qed.

Lemma pages_distinct ops :
  Forall op_ok ops → NoDup ((λ op, op_va op / 4096) <$> ops) → NoDup ((λ op, vpath (op_va op)) <$> ops).
Proof.
  induction ops as [| op ops IH]; [constructor |]. rewrite !fmap_cons, !NoDup_cons, Forall_cons.
  intros [Hop Hok] [Hni Hnd]. split; [| by apply IH].
  intros (op' & E & Hin)%list_elem_of_fmap. apply Hni, list_elem_of_fmap. exists op'. split; [| done].
  rewrite Forall_forall in Hok. apply (vpath_page _ _ (proj1 (Hok op' Hin)) (proj1 Hop)), E.
Qed.

(** C13. A transaction that was checked does what was asked.  Take any changes of
    pages that are all different, accepted by an open transaction in which
    [rollback_on_conflict] finds no conflict.  Then [commit] returns, and the
    address spaces stay disjoint trees.  When it succeeds the transaction is
    closed; every page mapped leads to its frame with its rights, every page
    unmapped to nothing, every page protected to the frame it had, with the new
    rights; and every other address, here or in another address space, is
    translated as before.  When it fails it is because of a page to be mapped
    that lies in a huge page, or for which fewer pages were left than two tables for
    each change so far; the changes before that one, and no others,
    have been made, and the transaction is open with all its changes as before. *)
Theorem commit_exact (s : @vm A) (bl : list (Z * Z)) (roots : list Z) (root : Z) (ops : list TxOp) (tx : TxMMU) :
  spaces_ok s bl roots → root ∈ roots → opened root ops tx → Forall op_ok ops →
  NoDup ((λ op, op_va op / 4096) <$> ops) → rollback_on_conflict hart s tx = Done (false, tx, s) →
  ∃ res tx' s' k n, commit hart s tx = Done (res, tx', s') ∧ spaces_ok s' (k ++ bl) roots ∧
    (∀ op va, op ∈ take n ops → canonical va = true → va / 4096 = op_va op / 4096 → op_result s s' root op va) ∧
    (∀ r va, r ∈ roots → (r = root → Forall (λ op, va / 4096 ≠ op_va op / 4096) (take n ops)) →
       translate (mem s') r va = translate (mem s) r va) ∧
    match res with
    | Ok _ => n = length ops ∧ in_tx tx' = false
    | Err _ => tx' = tx ∧ ∃ va pa f, ops !! n = Some (Map va pa f) ∧ no_table s n root va
    end.
Proof.
  intros Hok Hr Ho Hops Hnd Hc. destruct (rollback_run s bl roots root ops tx Hok Hr Ho) as (b & E & Hb).
  rewrite E in Hc. assert (b = false) as Hx%Hb by congruence. clear E Hb Hc.
  apply opened_holds in Ho as [_ ->]. unfold commit. cbn [in_tx opened_tx negb op_count]. unfold zlen.
  pose proof (commit_loop_ops s root [] ops) as E. cbn [app length] in E. change (Z.of_nat 0) with 0 in E. rewrite E.
  destruct (commit_ops_run s bl roots root ops Hok Hr Hx (pages_distinct ops Hops Hnd))
    as (res & n & s' & k & -> & Hok' & Hl & Hres). cbn [mbind outcome_bind].
  exists res, (match res with Ok _ => abort (opened_tx root ops) | Err _ => opened_tx root ops end), s', k, n.
  split; [by destruct res as [[] |] |]. split; [done |].
  split; [| split; [intros r va; apply leaves_translate; [done | by apply Forall_take] |]].
  - intros op va Hin Hcv Hp. rewrite Forall_forall in Hops, Hx.
    assert (op ∈ ops) as Hin' by (by eapply elem_of_sublist, sublist_take).
    eapply new_leaf_result; [by apply Hops | by apply Hx | done | by apply vpath_div |].
    apply Hl; [done | by apply vpath_div].
  - by destruct res.
Qed.

(** ** The transactional loader *)

Definition seg_count (p : Elf64Phdr) : Z := zlen (page_steps (seg_start p) (seg_end p)).
Definition pages_taken (ps : list Elf64Phdr) : Z := foldr (λ p n, seg_count p + n) 0 ps.

(** What the loader checks against its 512 rows, which differs if the segment
    goes past the end of the address space. *)
Definition pages_needed (ps : list Elf64Phdr) : Z :=
  foldr (λ p n, u64 (seg_end p - seg_start p) / PAGE_SIZE + n) 0 ps.

Lemma seg_count_le p : 0 <= p_vaddr p → seg_count p <= u64 (seg_end p - seg_start p) / PAGE_SIZE.
Proof.
  intros Hv. unfold seg_count, page_steps, zlen. rewrite length_fmap, length_zseq.
  assert (0 <= seg_start p) as Hs by (unfold seg_start; rewrite page_align_down_eq; dlia).
  assert (seg_end p < 2 ^ 64) as He.
  { unfold seg_end, page_align_up. set (y := u64 (u64 (p_vaddr p + p_memsz p) + PAGE_SIZE - 1)).
    pose proof (wrap_bound 64 (u64 (p_vaddr p + p_memsz p) + PAGE_SIZE - 1) ltac:(lia)) as Hy. fold y in Hy.
    change (PAGE_SIZE - 1) with (2 ^ 12 - 1). rewrite (ldiff_low y 12) by lia. dlia. }
  destruct (Z.le_gt_cases (seg_start p) (seg_end p)).
  - rewrite (wrap_small 64) by (unfold fits; lia). unfold PAGE_SIZE. dlia.
  - pose proof (wrap_bound 64 (seg_end p - seg_start p) ltac:(lia)) as Hw. unfold PAGE_SIZE in *. dlia.
Qed.

Definition addresses_ok (ps : list Elf64Phdr) : Prop := Forall (λ p, 0 <= p_vaddr p) ps.

Lemma taken_needed ps : addresses_ok ps → pages_taken ps <= pages_needed ps.
Proof.
  induction 1 as [| p ps Hp _ IH]; [done |]. pose proof (seg_count_le p Hp). cbn. unfold pages_taken, pages_needed in IH. lia.
Qed.

(** Some pages have been taken from the allocator, and no memory in use changed. *)
Definition took (s : @vm A) (bl : list (Z * Z)) (s' : vm) (k : list (Z * Z)) : Prop :=
  (fa_ok (frames s') (k ++ bl) ∧ free_frames hart s' = free_frames hart s - zlen k) ∧
  ∀ x, in_use bl x → mem s' x = mem s x.

Lemma took_none s bl : fa_ok (frames s) bl → took s bl s [].
Proof. intros Hf. split; [split; [done | unfold zlen; cbn; lia] | done]. Qed.

Lemma took_trans s1 s2 s3 bl k k' :
  took s1 bl s2 k → took s2 (k ++ bl) s3 k' → took s1 bl s3 (k' ++ k).
Proof.
  intros [[_ F1] H1] [[Hf F2] H2]. split; [split; [by rewrite <-app_assoc | rewrite zlen_app; lia] |]. intros x Hx.
  rewrite H2 by (apply in_use_app; by right). by apply H1.
Qed.

Lemma alloc_entries_run s bl flags pages :
  fa_ok (frames s) bl →
  ∃ o s' k, alloc_entries hart s flags pages = Done (o, s') ∧ took s bl s' k ∧
    match o with
    | Some l => zlen l = zlen pages ∧ zlen k = zlen pages
    | None => free_frames hart s < zlen pages
    end.
Proof.
  revert s bl. induction pages as [| va pages IH]; intros s bl Hf; cbn [alloc_entries].
  { exists (Some []), s, []. split; [done |]. split; [by apply took_none | done]. }
  destruct (alloc_page_run hart hart_ok s bl Hf) as (o & s1 & E & _ & Hm & _ & Hf1). rewrite E. cbn [mbind outcome_bind].
  pose proof (alloc_page_spare hart hart_ok s bl o s1 Hf E) as S1.
  assert (zlen (va :: pages) = 1 + zlen pages) as -> by (unfold zlen; cbn [length]; lia).
  pose proof (zlen_nonneg pages). destruct o as [p |].
  2: { destruct S1 as [S0 S1]. exists None, s1, []. split; [done |]. split; [| lia].
       split; [split; [done | unfold zlen; cbn; lia] | done]. }
  destruct (zero_run s1 _ p 0 Hf1 ltac:(apply elem_of_cons; by left)) as [Ez Hf2].
  change (2 ^ 0 * PAGE_SIZE) with PAGE_SIZE in *. rewrite Ez. cbn [mbind outcome_bind]. set (s2 := stored s1 _) in *.
  pose proof (zero_spare hart s1 _ p s2 Hf1 ltac:(apply elem_of_cons; by left) Ez) as S2.
  destruct (IH s2 ((p, 0) :: bl) Hf2) as (o & s' & k & -> & Ht & Ho). cbn [mbind outcome_bind].
  exists (option_map (cons (MkEntry va p flags)) o), s', (k ++ [(p, 0)]). split; [done |]. split.
  - eapply took_trans; [| exact Ht]. split; [split; [done | unfold zlen; cbn; lia] |]. intros x Hx. unfold s2. rewrite mem_stored.
    rewrite cleared_out; [by apply Hm |]. intros Hin. apply (fa_disjoint _ _ _ _ x Hf1); [| done].
    unfold in_block, PAGE_SIZE in *. change (2 ^ 0) with 1. lia.
  - destruct o as [l |]; cbn [option_map].
    + rewrite zlen_app. unfold zlen in *. cbn [length]. lia.
    + lia.
Qed.

Lemma pages_taken_nonneg ps : 0 <= pages_taken ps.
Proof.
  induction ps as [| p ps IH]; [done |]. change (pages_taken (p :: ps)) with (seg_count p + pages_taken ps).
  pose proof (zlen_nonneg (page_steps (seg_start p) (seg_end p))). unfold seg_count. lia.
Qed.

Lemma pages_needed_nonneg ps : 0 <= pages_needed ps.
Proof.
  induction ps as [| p ps IH]; [done |].
  change (pages_needed (p :: ps)) with (u64 (seg_end p - seg_start p) / PAGE_SIZE + pages_needed ps).
  pose proof (wrap_bound 64 (seg_end p - seg_start p) ltac:(lia)).
  assert (0 <= u64 (seg_end p - seg_start p) / PAGE_SIZE) by (apply Z.div_pos; [lia | done]). lia.
Qed.

Lemma phdr_vaddr_nonneg data off : Forall is_byte data → 0 <= p_vaddr (phdr_at data off).
Proof. intros Hd. apply of_le_bytes_bound. by apply Forall_take, Forall_drop. Qed.

Lemma collect_segment_run s bl entries segs p :
  fa_ok (frames s) bl → loadable p = true →
  ∃ o s' k, collect_segment hart s entries segs p = Done (o, s') ∧ took s bl s' k ∧
    match o with
    | Some (es, sgs) => zlen es = zlen entries + seg_count p ∧ zlen sgs = zlen segs + 1 ∧ zlen k = seg_count p
    | None => 512 < zlen entries + u64 (seg_end p - seg_start p) / PAGE_SIZE ∨ 8 <= zlen segs ∨ free_frames hart s < seg_count p
    end.
Proof.
  intros Hf Hl. unfold loadable in Hl. unfold collect_segment.
  destruct (p_type p =? PT_LOAD), (p_memsz p =? 0); try done. cbn [negb].
  destruct (_ || _) eqn:Hb.
  { exists None, s, []. split; [done |]. split; [by apply took_none |].
    apply orb_true_iff in Hb as [?%Z.ltb_lt | ?%Z.leb_le]; auto. }
  destruct (alloc_entries_run s bl (seg_flags p) (page_steps (seg_start p) (seg_end p)) Hf)
    as (o & s' & k & -> & Ht & Ho). cbn [mbind outcome_bind].
  destruct o as [l |]; [| exists None, s', k; auto].
  eexists _, s', k. split; [reflexivity |]. split; [done |]. cbn. rewrite !zlen_app. unfold seg_count.
  change (zlen [_]) with 1. lia.
Qed.

Lemma collect_run s bl data h entries segs ids :
  let ps := filter loadable ((λ i, phdr_at data (e_phoff h + i * e_phentsize h)) <$> ids) in
  fa_ok (frames s) bl → Forall is_byte data →
  (∀ i, i ∈ ids → e_phoff h + i * e_phentsize h + PHDR_SIZE <= zlen data) →
  ∃ o s' k, collect hart s data h entries segs ids = Done (o, s') ∧ took s bl s' k ∧
    match o with
    | Some (es, _) => zlen es = zlen entries + pages_taken ps ∧ zlen k = pages_taken ps
    | None => 512 < zlen entries + pages_needed ps ∨ 8 < zlen segs + zlen ps ∨ free_frames hart s < pages_taken ps
    end.
Proof.
  intros ps. revert s bl entries segs ps. induction ids as [| i ids IH]; intros s bl entries segs ps Hf Hd Hrd; cbn [collect].
  { exists (Some (entries, segs)), s, []. split; [done |]. split; [by apply took_none |].
    change (pages_taken ps) with 0. split; [lia | done]. }
  unfold read_phdr. rewrite (proj2 (Z.leb_le _ _) (Hrd i ltac:(apply elem_of_cons; by left))). cbn [mbind outcome_bind].
  assert (∀ j, j ∈ ids → e_phoff h + j * e_phentsize h + PHDR_SIZE <= zlen data) as Hrd'.
  { intros j Hj. apply Hrd, elem_of_cons. by right. }
  pose proof (phdr_vaddr_nonneg data (e_phoff h + i * e_phentsize h) Hd) as Hv.
  set (p := phdr_at data (e_phoff h + i * e_phentsize h)) in *.
  set (tl := filter loadable ((λ i, phdr_at data (e_phoff h + i * e_phentsize h)) <$> ids)) in *.
  pose proof (pages_needed_nonneg tl) as Hnn. pose proof (pages_taken_nonneg tl) as Hnt. pose proof (zlen_nonneg tl).
  destruct (loadable p) eqn:Hld.
  2: { assert (ps = tl) as -> by (unfold ps; rewrite fmap_cons, filter_cons_False by (fold p; rewrite Hld; by intros []); done).
       replace (collect_segment hart s entries segs p) with (Done (Some (entries, segs), s)); [by apply IH |].
       unfold collect_segment, loadable in *. destruct (p_type p =? PT_LOAD); [| done]. by destruct (p_memsz p =? 0). }
  assert (ps = p :: tl) as -> by (unfold ps; rewrite fmap_cons, filter_cons_True by (fold p; by rewrite Hld); done).
  change (pages_taken (p :: tl)) with (seg_count p + pages_taken tl).
  change (pages_needed (p :: tl)) with (u64 (seg_end p - seg_start p) / PAGE_SIZE + pages_needed tl).
  assert (zlen (p :: tl) = 1 + zlen tl) as -> by (unfold zlen; cbn [length]; lia).
  destruct (collect_segment_run s bl entries segs p Hf Hld) as (o & s1 & k1 & -> & T1 & Ho). cbn [mbind outcome_bind].
  destruct o as [[es sgs] |].
  2: { exists None, s1, k1. split; [done |]. split; [done |]. destruct Ho as [? | [? | ?]]; [left | right; left | right; right]; lia. }
  destruct Ho as (He & Hs & Hk). destruct (IH s1 (k1 ++ bl) es sgs (proj1 (proj1 T1)) Hd Hrd') as (o & s' & k & -> & T & Ho).
  exists o, s', (k ++ k1). split; [done |]. split; [by eapply took_trans |].
  pose proof (seg_count_le p Hv). destruct o as [[es' sgs'] |]; [rewrite zlen_app; cbn in Ho |- *; lia |].
  destruct Ho as [? | [? | ?]]; [left; lia | right; left; lia | right; right].
  destruct T1 as [[_ F1] _]. lia.
Qed.

(** Seventeen mappings do not fit in a transaction. *)
Lemma queue_entries_run root ops l :
  (length ops <= 16)%nat →
  queue_entries (opened_tx root ops) l =
    Done (if (length ops + length l <=? 16)%nat
          then Some (opened_tx root (ops ++ ((λ e, Map (me_va e) (me_pa e) (me_flags e)) <$> l)))
          else None).
Proof.
  revert ops. induction l as [| e l IH]; intros ops Hn; cbn [queue_entries fmap list_fmap length].
  { rewrite (proj2 (Nat.leb_le _ _)) by lia. by rewrite app_nil_r. }
  unfold tx_map. rewrite queue_opened by done.
  destruct (length ops =? 16)%nat eqn:E; [apply Nat.eqb_eq in E | apply Nat.eqb_neq in E]; cbn [mbind outcome_bind].
  - by rewrite (proj2 (Nat.leb_gt _ _)) by lia.
  - rewrite IH by (rewrite length_app; cbn [length]; lia). rewrite length_app, <-app_assoc. cbn [length app].
    by rewrite <-Nat.add_assoc.
Qed.

(** The transactional loader loads no program of more than sixteen pages, and
    loses memory on each.  For an image with readable headers whose segments have
    more than sixteen pages it returns [None], leaves all memory in use alone, and
    the pages it allocated, which no table refers to, stay in use: one for every
    page of the segments, unless there are more than eight segments or 512 pages, or
    fewer pages are left than the segments have. *)
Theorem tx_load_limit (s : @vm A) (bl : list (Z * Z)) (root : Z) (data : list Z) (h : Elf64Header) :
  let segs := filter loadable (phdrs data h) in
  fa_ok (frames s) bl → Forall is_byte data → check_header data = Some h → PHDR_SIZE <= e_phentsize h →
  e_phoff h + e_phnum h * e_phentsize h <= zlen data → 16 < pages_taken segs →
  ∃ s' k, load_elf_transactional hart s data root = Done (None, s') ∧ fa_ok (frames s') (k ++ bl) ∧
    (∀ x, in_use bl x → mem s' x = mem s x) ∧
    (zlen k = pages_taken segs ∨ 512 < pages_needed segs ∨ 8 < zlen segs ∨ free_frames hart s < pages_taken segs).
Proof.
  intros segs Hf Hd Hh Hsz Hlen Hmany. unfold load_elf_transactional. rewrite Hh.
  destruct (collect_run s bl data h [] [] (zseq 0 (e_phnum h)) Hf Hd) as (o & s' & k & -> & [[Ht _] Hm] & Ho).
  { intros i Hi%elem_of_zseq. unfold PHDR_SIZE in *.
    pose proof (Z.mul_le_mono_nonneg_r (i + 1) (e_phnum h) (e_phentsize h) ltac:(lia) ltac:(lia)). lia. }
  fold (phdrs data h) in Ho. fold segs in Ho. cbn [mbind outcome_bind]. exists s', k.
  destruct o as [[es sgs] |].
  - destruct Ho as [He Hk]. change (zlen []) with 0 in He. unfold map_entries.
    change (begin root) with (opened_tx root []). rewrite queue_entries_run by (cbn; lia). cbn [length Nat.add].
    rewrite (proj2 (Nat.leb_gt _ _)) by (unfold zlen in He; lia). cbn [mbind outcome_bind negb].
    split; [done |]. split; [done |]. split; [done | by left].
  - split; [done |]. split; [done |]. split; [done | right; exact Ho].
Qed.
End laws.

(** ** An example *)

Definition ex_ops : list TxOp := [Protect 0x10000 9; Map 0x11000 0x80C01000 11].

Lemma ex_opened : opened ex_root ex_ops (opened_tx ex_root ex_ops).
Proof.
  apply (opened_op ex_root [Protect 0x10000 9] (opened_tx ex_root [Protect 0x10000 9]));
    [apply (opened_op ex_root [] (begin ex_root)); [constructor |] |]; reflexivity.
Qed.

Lemma commit_exact_witness :
  ∃ tx s' e, commit 0 (ex_mapped false) (opened_tx ex_root ex_ops) = Done (Ok (), tx, s') ∧
    translate (mem s') ex_root 0x10008 = Some (0x80C00008, e) ∧ rights e = (true, false, false, true).
Proof.
  destruct (ex_mapped_spaces false) as [k Hok].
  destruct (rollback_run 0 ltac:(lia) _ _ _ _ _ _ Hok ex_root_in ex_opened) as (b & E & Hb).
  assert (b = false) as ->.
  { apply Hb, Forall_cons. split; [eexists; vm_compute; reflexivity |].
    apply Forall_singleton. vm_compute. reflexivity. }
  destruct (commit_exact 0 ltac:(lia) (ex_mapped false) _ [ex_root] ex_root ex_ops _ Hok ex_root_in ex_opened)
    as (res & tx & s' & k' & n & Ec & _ & Hop & _ & Hres).
  - apply Forall_cons. split; [split; [reflexivity | exact I] |]. apply Forall_singleton.
    split; [reflexivity |]. vm_compute. split; [reflexivity | split; congruence].
  - apply (bool_decide_unpack _). vm_compute. exact I.
  - exact E.
  - assert (match commit 0 (ex_mapped false) (opened_tx ex_root ex_ops) with
            | Done (Ok _, _, _) => true | _ => false end = true) as Ho by (vm_compute; reflexivity).
    rewrite Ec in Ho. destruct res as [[] | ?]; [| discriminate Ho]. destruct Hres as [-> _].
    destruct (Hop (Protect 0x10000 9) 0x10008) as (p & Hp & e & Ht & He);
      [apply elem_of_cons; left; reflexivity | reflexivity | reflexivity |].
    assert (frame_4k (mem (ex_mapped false)) ex_root 0x10000 = Some 0x80C00000) as Hf by (vm_compute; reflexivity).
    rewrite Hf in Hp. injection Hp as <-.
    exists tx, s', e. split; [exact Ec |]. split; [exact Ht | exact He].
Defined.

(** The example of Elf.v with seventeen pages. *)
Definition ex_big_elf : list Z :=
  take 104 (ex_elf 0x10000) ++ le_bytes 8 0x11000 ++ drop 112 (ex_elf 0x10000).

Lemma tx_load_limit_witness :
  ∃ s' k, load_elf_transactional 0 ex_vm ex_big_elf ex_root = Done (None, s') ∧
    fa_ok (frames s') (k ++ [(ex_root, 0)]).
Proof.
  destruct (tx_load_limit 0 ltac:(lia) ex_vm [(ex_root, 0)] ex_root ex_big_elf (read_header ex_big_elf))
    as (s' & k & E & Hf & _).
  - exact (so_frames _ _ _ ex_spaces).
  - apply (bool_decide_unpack _). vm_compute. exact I.
  - vm_compute. reflexivity.
  - vm_compute. congruence.
  - vm_compute. congruence.
  - vm_compute. reflexivity.
  - exists s', k. split; [exact E | exact Hf].
Defined.
End Tx.
