(* ===== verification/Aslr.v ===== *)
(** * Random layout, fat pointers and sandboxes

    kernel/src/aslr/mod.rs: the generator behind address randomisation, the table of
    emulated CHERI capabilities that [sys_mmap] consults, the rules for paths and
    ports a process may use, and the mapping of user ids; and the system calls of
    syscall/proc.rs in front of the capabilities.

    A table with a count is the list of its rows in use.  What [rdtime] and the
    [seed] register return are arguments.  The text of the status files is not
    modelled.

    [layout_in_range]: every random address is a page in its window.
    [cheri_refines_map]: the table is a map from process and slot to capability, and
    [validate_ptr] asks whether one of the process covers the range.
    [self_authorised]: a process can grant itself any range.
    [sandbox_first_rule]: the first rule whose prefix fits decides. *)
From S2P Require Import Prelude Buddy.
Open Scope list_scope.

Module Aslr.

Definition CHERI_PERM_R : Z := 1.
Definition CHERI_PERM_W : Z := 2.
Definition CHERI_MAX_CAPS_PER_PROC : Z := 16.
Definition CHERI_MAX_PROCS : Z := 32.
Definition SANDBOX_MAX_RULES : Z := 32.
Definition SANDBOX_NET_RULES_LEN : Z := 256.
Definition UID_MAP_MAX_PROCS : Z := 16.
Definition UID_MAP_ENTRIES : Z := 8.

(** ** Random offsets *)

Record aslr : Type := MkAslr {
  ASLR_SEED : Z;
  ASLR_ENABLED : bool;
  KASLR_SLIDE : Z;
  KASLR_INITIALIZED : bool;
  ZKR_PROBED : bool;
}.
#[export] Instance aslr_eta : Eta aslr := λ a,
  MkAslr (ASLR_SEED a) (ASLR_ENABLED a) (KASLR_SLIDE a) (KASLR_INITIALIZED a) (ZKR_PROBED a).

Definition aslr_boot : aslr := MkAslr 0xDEADBEEFCAFEBABE true 0 false false.

Definition aslr_init (mtime : Z) (a : aslr) : aslr :=
  a <| ASLR_SEED := u64 (u64 (mtime * 0x9E3779B97F4A7C15) + 1) |>.

(** [ASLR_SEED.wrapping_mul(6364136223846793005).wrapping_add(inc)]. *)
Definition next_seed (a : aslr) (inc : Z) : Z := u64 (u64 (ASLR_SEED a * 6364136223846793005) + inc).

Definition aslr_offset (a : aslr) : Z * aslr :=
  if negb (ASLR_ENABLED a) then (0, a) else
  let seed := next_seed a 1 in
  (Z.land (Z.shiftr seed 12) 0xFF * PAGE_SIZE, a <| ASLR_SEED := seed |>).

Definition randomize_stack (a : aslr) : Z * aslr :=
  let '(offset, a) := aslr_offset a in (u64 (0x3FFFFFF000 - offset), a).

Definition randomize_mmap (a : aslr) : Z * aslr :=
  let '(offset, a) := aslr_offset a in (u64 (0x100000000 + offset), a).

Definition pie_load_base (a : aslr) : Z * aslr :=
  if ASLR_ENABLED a then let '(offset, a) := aslr_offset a in (0x10000 + offset, a)
  else (0x10000, a).

Definition kaslr_init (mtime : Z) (a : aslr) : aslr :=
  let raw := u64 (u64 (mtime * 0x9E3779B97F4A7C15) + 0xDEAD) in
  a <| KASLR_SLIDE := Z.land (Z.shiftr raw 16) 0xFF * PAGE_SIZE |> <| KASLR_INITIALIZED := true |>.

Definition kaslr_slide (a : aslr) : Z := if KASLR_INITIALIZED a then KASLR_SLIDE a else 0.

Definition randomize_heap (a : aslr) : Z * aslr :=
  if negb (ASLR_ENABLED a) then (0x10000, a) else
  let seed := next_seed a 1 in
  let offset := seed mod (0x10000000 - 0x10000) in
  (0x10000 + Z.ldiff offset 0xFFF, a <| ASLR_SEED := seed |>).

Definition randomize_stack_per_pid (pid : Z) (a : aslr) : Z * aslr :=
  if negb (ASLR_ENABLED a) then randomize_stack a else
  let seed := next_seed a pid in
  let offset := Z.land (Z.shiftr seed 8) 0xFFF in
  (u64 (0x3FFFFFF000 - offset * PAGE_SIZE), a <| ASLR_SEED := seed |>).

Definition aslr_entropy (a : aslr) : Z :=
  if negb (ASLR_ENABLED a) then 0 else
  32 + (if KASLR_INITIALIZED a then 8 else 0) + 8 + 12 + 20 + 8 + 8 + (if ZKR_PROBED a then 16 else 0).

(** [zkr_entropy_u16], with what the next reads of the register give; the reads
    left over go on.  [None] at the end of the list stands for a register that
    stays in the state "wait". *)
Fixpoint zkr_entropy_u16 (reads : list Z) : option Z * list Z :=
  match reads with
  | [] => (None, [])
  | val :: rest =>
      if val =? 2 ^ 64 - 1 then (None, rest) else
      let status := Z.land (Z.shiftr val 30) 3 in
      if status =? 0 then (Some (u16 val), rest)
      else if status =? 1 then zkr_entropy_u16 rest
      else (None, rest)
  end.

Definition mix (seed bits i : Z) : Z :=
  let shift := Z.land (u64 (i * 2)) 63 in
  if 46 <? shift then Z.lxor seed (Z.shiftr bits (64 - shift))
  else Z.lxor seed (u64 (Z.shiftl bits shift)).

Fixpoint zkr_loop (seed : Z) (reads : list Z) (ids : list Z) : option Z :=
  match ids with
  | [] => Some seed
  | i :: ids' =>
      match zkr_entropy_u16 reads with
      | (None, _) => None
      | (Some bits, rest) => zkr_loop (mix seed bits i) rest ids'
      end
  end.

Definition zkr_entropy_seed (reads : list Z) : option Z := zkr_loop 0 reads (zseq 0 32).

Definition seed_with_entropy (seed : Z) (a : aslr) : bool * aslr :=
  if (seed =? 0) || (seed =? 2 ^ 64 - 1) then (false, a)
  else (true, a <| ASLR_SEED := seed |> <| ZKR_PROBED := true |>).

Definition init_aslr_entropy (reads : list Z) (mtime : Z) (a : aslr) : aslr :=
  match zkr_entropy_seed reads with
  | Some seed =>
      let '(ok, a') := seed_with_entropy seed a in if ok : bool then a' else aslr_init mtime a'
  | None => aslr_init mtime a
  end.

(** ** Capabilities *)

Record CheriCap : Type := MkCheri {
  addr : Z;
  base : Z;
  bound : Z;
  permissions : Z;
  otype : Z;
}.

Definition null : CheriCap := MkCheri 0 0 0 0 0.

Definition in_bounds (c : CheriCap) (offset : Z) : bool :=
  let target := u64 (addr c + offset) in (base c <=? target) && (target <? bound c).

Definition has_perm (c : CheriCap) (perm : Z) : bool := Z.land (permissions c) perm =? perm.

Definition for_region (a len perms : Z) : CheriCap := MkCheri a a (u64 (a + len)) perms 0.

Definition covers (c : CheriCap) (check_addr check_len : Z) : bool :=
  let end_ := u64 (check_addr + check_len) in
  if end_ <? check_addr then false else (base c <=? check_addr) && (end_ <=? bound c).

Record CheriCapEntry : Type := MkCapEntry { valid : bool; cap : CheriCap }.
Record CheriTable : Type := MkTable { ct_pid : Z; caps : list CheriCapEntry }.

Definition CHERI_NULL_ENTRY : CheriCapEntry := MkCapEntry false null.

(** The index and the row of a process. *)
Definition cheri_find (ts : list CheriTable) (pid : Z) : option (nat * CheriTable) :=
  list_find (λ t, ct_pid t = pid) ts.

Definition cheri_find_or_create (ts : list CheriTable) (pid : Z)
    : option (nat * CheriTable) * list CheriTable :=
  match cheri_find ts pid with
  | Some x => (Some x, ts)
  | None =>
      if CHERI_MAX_PROCS <=? zlen ts then (None, ts) else
      let t := MkTable pid (replicate 16 CHERI_NULL_ENTRY) in
      (Some (length ts, t), ts ++ [t])
  end.

Definition cap_create (ts : list CheriTable) (pid a len perms : Z) : result string Z * list CheriTable :=
  match cheri_find_or_create ts pid with
  | (None, ts) => (Err "cheri table full"%string, ts)
  | (Some (ti, t), ts) =>
      match list_find (λ e, valid e = false) (caps t) with
      | Some (slot, _) =>
          let e := MkCapEntry true (for_region a len perms) in
          (Ok (Z.of_nat slot), <[ti := MkTable (ct_pid t) (<[slot := e]> (caps t))]> ts)
      | None => (Err "cheri caps full (max 16)"%string, ts)
      end
  end.

(** A valid entry of a slot. *)
Definition cap_slot (t : CheriTable) (cap_id : Z) : option CheriCap :=
  if CHERI_MAX_CAPS_PER_PROC <=? cap_id then None else
  match caps t !! Z.to_nat cap_id with
  | Some e => if valid e then Some (cap e) else None
  | None => None
  end.

Definition cap_load (ts : list CheriTable) (pid cap_id : Z) : option CheriCap :=
  match cheri_find ts pid with
  | None => None
  | Some (_, t) => cap_slot t cap_id
  end.

Definition cap_delete (ts : list CheriTable) (pid cap_id : Z) : result string () * list CheriTable :=
  match cheri_find ts pid with
  | None => (Err "no cheri table for pid"%string, ts)
  | Some (ti, t) =>
      if CHERI_MAX_CAPS_PER_PROC <=? cap_id then (Err "invalid cap_id"%string, ts) else
      match cap_slot t cap_id with
      | None => (Err "cap not found"%string, ts)
      | Some c =>
          (Ok (), <[ti := MkTable (ct_pid t) (<[Z.to_nat cap_id := MkCapEntry false c]> (caps t))]> ts)
      end
  end.

Definition validate_ptr (ts : list CheriTable) (pid a len required_perms : Z) : bool :=
  match cheri_find ts pid with
  | None => true
  | Some (_, t) => existsb (λ e, valid e && (covers (cap e) a len && has_perm (cap e) required_perms)) (caps t)
  end.

(** The system calls; [cur] is the owner of the current thread. *)
Definition sys_cheri_cap_create (cur : option Z) (ts : list CheriTable) (a len perms : Z)
    : result string Z * list CheriTable :=
  match cur with
  | None => (Err "no proc"%string, ts)
  | Some pid => cap_create ts pid a len perms
  end.

Definition sys_cheri_cap_check (cur : option Z) (ts : list CheriTable) (a len perms : Z) : result string Z :=
  match cur with
  | None => Err "no proc"%string
  | Some pid => Ok (if validate_ptr ts pid a len perms then 1 else 0)
  end.

Definition sys_cheri_cap_delete (ts : list CheriTable) (pid cap_id : Z) : result string Z * list CheriTable :=
  match cap_delete ts pid cap_id with
  | (Ok _, ts) => (Ok 0, ts)
  | (Err e, ts) => (Err e, ts)
  end.

(** ** Sandboxes *)

Record SandboxRule : Type := MkRule {
  sr_pid : Z;
  path_prefix : list Z;
  allow_read : bool;
  allow_write : bool;
}.

(** The prefix is the part of [path_prefix] up to [path_len]. *)
Definition sandbox_add (rules : list SandboxRule) (pid : Z) (path : list Z) (allow_r allow_w : bool)
    : result string () * list SandboxRule :=
  if SANDBOX_MAX_RULES <=? zlen rules then (Err "full"%string, rules)
  else (Ok (), rules ++ [MkRule pid (take 32 path) allow_r allow_w]).

Fixpoint path_has (path prefix : list Z) : bool :=
  match prefix, path with
  | [], _ => true
  | p :: prefix', c :: path' => if c =? p then path_has path' prefix' else false
  | _ :: _, [] => false
  end.

Fixpoint sandbox_check (rules : list SandboxRule) (pid : Z) (path : list Z) (wants_write : bool) : bool :=
  match rules with
  | [] => true
  | r :: rules' =>
      if negb (sr_pid r =? pid) then sandbox_check rules' pid path wants_write else
      if path_has path (path_prefix r) then (if wants_write then allow_write r else allow_read r)
      else sandbox_check rules' pid path wants_write
  end.

Record SandboxNetRule : Type := MkNetRule { nr_pid : Z; port_start : Z; port_end : Z; allow : bool }.

Definition sandbox_net_add (rules : list SandboxNetRule) (pid start end_ : Z) (allow : bool)
    : result string () * list SandboxNetRule :=
  if SANDBOX_NET_RULES_LEN <=? zlen rules then (Err "full"%string, rules)
  else (Ok (), rules ++ [MkNetRule pid start end_ allow]).

Fixpoint sandbox_net_check (rules : list SandboxNetRule) (pid port : Z) : bool :=
  match rules with
  | [] => true
  | r :: rules' =>
      if negb (nr_pid r =? pid) then sandbox_net_check rules' pid port else
      if (port_start r <=? port) && (port <=? port_end r) then allow r
      else sandbox_net_check rules' pid port
  end.

(** ** User ids *)

Record UidMapTable : Type := MkUidMap { um_pid : Z; um_entries : list (Z * Z) }.

Definition sandbox_uid_map (ts : list UidMapTable) (pid inner_uid outer_uid : Z)
    : result string () * list UidMapTable :=
  match list_find (λ t, um_pid t = pid) ts with
  | Some (i, t) =>
      if UID_MAP_ENTRIES <=? zlen (um_entries t) then (Err "uid map entries full"%string, ts)
      else (Ok (), <[i := MkUidMap pid (um_entries t ++ [(inner_uid, outer_uid)])]> ts)
  | None =>
      if UID_MAP_MAX_PROCS <=? zlen ts then (Err "uid map table full"%string, ts)
      else (Ok (), ts ++ [MkUidMap pid [(inner_uid, outer_uid)]])
  end.

Definition translate_uid (ts : list UidMapTable) (pid uid : Z) : Z :=
  match list_find (λ t, um_pid t = pid) ts with
  | Some (_, t) =>
      match list_find (λ e, e.1 = uid) (um_entries t) with
      | Some (_, e) => e.2
      | None => uid
      end
  | None => uid
  end.

(** ** Windows *)

Definition page_in (x lo hi : Z) : Prop := x mod 4096 = 0 ∧ lo <= x <= hi.

Lemma low_bits x n k : 0 <= n → 0 <= k → 0 <= Z.land (Z.shiftr x n) (Z.ones k) < 2 ^ k.
Proof. intros. rewrite Z.land_ones by done. apply Z.mod_pos_bound, pow2_pos. done. Qed.

Lemma page_in_offset base n k : base mod 4096 = 0 → 0 <= k <= n → page_in (base + k * PAGE_SIZE) base (base + n * 4096).
Proof. intros Hb Hk. unfold page_in, PAGE_SIZE. split; [by rewrite Z.mod_add | lia]. Qed.

(** Random addresses stay in their windows.  Whatever the generator has been
    seeded with, and whether randomisation is on or off: the stack is a page within
    255 pages below the top of the address space (4095 pages when it depends on the
    process), the mapping area one within 255 pages above 4 GiB, a program within 255
    pages above 64 KiB, the heap a page from 64 KiB to below 256 MiB; the slide of
    the kernel is at most 255 pages. *)
Theorem layout_in_range (a : aslr) (pid mtime : Z) :
  page_in (randomize_stack a).1 (0x3FFFFFF000 - 255 * 4096) 0x3FFFFFF000 ∧
  page_in (randomize_stack_per_pid pid a).1 (0x3FFFFFF000 - 4095 * 4096) 0x3FFFFFF000 ∧
  page_in (randomize_mmap a).1 0x100000000 (0x100000000 + 255 * 4096) ∧
  page_in (pie_load_base a).1 0x10000 (0x10000 + 255 * 4096) ∧
  page_in (randomize_heap a).1 0x10000 (0x10000000 - 4096) ∧
  page_in (kaslr_slide (kaslr_init mtime a)) 0 (255 * 4096).
Proof.
  assert (∀ x n, 0 <= n → 0 <= Z.land (Z.shiftr x n) 0xFF <= 255) as H8.
  { intros x n Hn. pose proof (low_bits x n 8 Hn ltac:(lia)) as H. change (Z.ones 8) with 0xFF in H. lia. }
  assert (∀ x n, 0 <= n → 0 <= Z.land (Z.shiftr x n) 0xFFF <= 4095) as H12.
  { intros x n Hn. pose proof (low_bits x n 12 Hn ltac:(lia)) as H. change (Z.ones 12) with 0xFFF in H. lia. }
  assert (∃ k, 0 <= k <= 255 ∧ (aslr_offset a).1 = k * PAGE_SIZE) as (k & Hk & Ho).
  { unfold aslr_offset. destruct (negb _); [by exists 0 |]. exists (Z.land (Z.shiftr (next_seed a 1) 12) 0xFF). split; [by apply H8 | done]. }
  assert (page_in (randomize_stack a).1 (0x3FFFFFF000 - 255 * 4096) 0x3FFFFFF000) as Hst.
  { unfold randomize_stack. destruct (aslr_offset a) as [o a'] eqn:Ea. cbn [fst] in *. subst o.
    unfold PAGE_SIZE, page_in. rewrite wrap_small by (unfold fits; lia). dlia. }
  split; [done |]. split; [| split; [| split; [| split]]].
  - unfold randomize_stack_per_pid. destruct (negb _).
    + destruct Hst as [Hm Hb]. split; [done | lia].
    + cbn [fst]. pose proof (H12 (next_seed a pid) 8 ltac:(lia)). unfold PAGE_SIZE, page_in.
      rewrite wrap_small by (unfold fits; lia). dlia.
  - unfold randomize_mmap. destruct (aslr_offset a) as [o a'] eqn:Ea. cbn [fst] in *. subst o.
    rewrite wrap_small by (unfold fits, PAGE_SIZE; lia). by apply page_in_offset.
  - unfold pie_load_base. destruct (ASLR_ENABLED a); [| by split].
    destruct (aslr_offset a) as [o a'] eqn:Ea. cbn [fst] in *. subst o. by apply page_in_offset.
  - unfold randomize_heap. destruct (negb _); [by split |]. cbn [fst]. change 0xFFF with (Z.ones 12).
    rewrite Z.ldiff_ones_r, Z.shiftr_div_pow2, Z.shiftl_mul_pow2 by lia. unfold page_in. change (2 ^ 12) with 4096.
    pose proof (Z.mod_pos_bound (next_seed a 1) (0x10000000 - 0x10000) ltac:(lia)). dlia.
  - exact (page_in_offset 0 255 _ eq_refl (H8 (u64 (u64 (mtime * 0x9E3779B97F4A7C15) + 0xDEAD)) 16 ltac:(lia))).
Qed.

(** ** The table of capabilities as a map *)

Record cheri_ok (ts : list CheriTable) : Prop := {
  ck_pids : NoDup (ct_pid <$> ts);
  ck_caps : Forall (λ t, length (caps t) = 16%nat) ts;
}.

(** Tables that calls make. *)
Inductive cheri_reach : list CheriTable → Prop :=
| cheri_empty : cheri_reach []
| cheri_create ts pid a len perms : cheri_reach ts → cheri_reach (cap_create ts pid a len perms).2
| cheri_delete ts pid cap_id : cheri_reach ts → cheri_reach (cap_delete ts pid cap_id).2.

Lemma cheri_find_some ts pid i t : cheri_find ts pid = Some (i, t) → ts !! i = Some t ∧ ct_pid t = pid.
Proof. by intros (? & ? & _)%list_find_Some. Qed.

Lemma cheri_find_at ts i t : cheri_ok ts → ts !! i = Some t → cheri_find ts (ct_pid t) = Some (i, t).
Proof.
  intros [Hnd _] Hi. apply list_find_Some. split_and!; [done | done |]. intros j t' Hj Hlt E.
  assert (j = i) by (eapply (NoDup_lookup _ _ _ (ct_pid t) Hnd); by rewrite list_lookup_fmap, ?Hj, ?Hi; cbn; rewrite ?E).
  lia.
Qed.

(** One row is replaced by one of the same process. *)
Lemma cheri_find_insert ts i t t' p :
  cheri_ok ts → ts !! i = Some t → ct_pid t' = ct_pid t → length (caps t') = 16%nat →
  cheri_ok (<[i := t']> ts) ∧
  cheri_find (<[i := t']> ts) p = if decide (p = ct_pid t) then Some (i, t') else cheri_find ts p.
Proof.
  intros [Hnd Hc] Hi Hp Hl.
  assert (cheri_ok (<[i := t']> ts)) as Hok.
  { split; [| by apply Forall_insert]. rewrite list_fmap_insert, Hp.
    rewrite list_insert_id; [done |]. by rewrite list_lookup_fmap, Hi. }
  split; [done |]. case_decide as D.
  - subst p. rewrite <-Hp. apply cheri_find_at; [done |]. apply list_lookup_insert_eq. by eapply lookup_lt_Some.
  - destruct (cheri_find ts p) as [[j u] |] eqn:E.
    + apply cheri_find_some in E as [Hj <-]. apply cheri_find_at; [done |].
      rewrite list_lookup_insert_ne; [done |]. intros ->. congruence.
    + apply list_find_None in E. apply list_find_None. apply Forall_insert; [done |]. congruence.
Qed.

Lemma cap_load_row ts i t s : cheri_ok ts → ts !! i = Some t → cap_load ts (ct_pid t) s = cap_slot t s.
Proof. intros Hok Hi. unfold cap_load. by rewrite (cheri_find_at _ _ _ Hok Hi). Qed.

(** One slot is set. *)
Lemma cap_load_set ts i t (n : nat) e p s :
  cheri_ok ts → ts !! i = Some t → (n < 16)%nat → 0 <= s →
  let ts' := <[i := MkTable (ct_pid t) (<[n := e]> (caps t))]> ts in
  cheri_ok ts' ∧
  cap_load ts' p s =
    if decide (p = ct_pid t ∧ s = Z.of_nat n) then (if valid e then Some (cap e) else None) else cap_load ts p s.
Proof.
  intros Hok Hi Hn Hs ts'.
  assert (length (caps t) = 16%nat) as Hl by (apply (Forall_lookup_1 _ _ _ _ (ck_caps _ Hok) Hi)).
  destruct (cheri_find_insert ts i t (MkTable (ct_pid t) (<[n := e]> (caps t))) p Hok Hi eq_refl) as [Hok' E];
    [by cbn; rewrite length_insert |].
  split; [done |]. unfold cap_load, ts'. rewrite E. destruct (decide (p = ct_pid t)) as [-> | Hp].
  2: { by rewrite decide_False by (by intros [-> _]). }
  rewrite (cheri_find_at _ _ _ Hok Hi). unfold cap_slot. cbn [caps]. unfold CHERI_MAX_CAPS_PER_PROC.
  destruct (16 <=? s) eqn:E16; bools.
  { rewrite decide_False; [done |]. intros [_ ->]. lia. }
  destruct (decide (s = Z.of_nat n)) as [-> | Hne].
  - rewrite decide_True, Nat2Z.id, list_lookup_insert_eq by (done || lia). done.
  - rewrite decide_False by (by intros [_ ?]). by rewrite list_lookup_insert_ne by lia.
Qed.

Lemma find_or_create_ok ts pid :
  cheri_ok ts →
  match cheri_find_or_create ts pid with
  | (Some (i, t), ts') => cheri_ok ts' ∧ ts' !! i = Some t ∧ ct_pid t = pid ∧
      ∀ p s, cap_load ts' p s = cap_load ts p s
  | (None, ts') => ts' = ts
  end.
Proof.
  intros Hok. unfold cheri_find_or_create. destruct (cheri_find ts pid) as [[i t] |] eqn:E.
  { apply cheri_find_some in E as [Hi Hp]. done. }
  destruct (_ <=? _); [done |]. set (t := MkTable pid (replicate 16 CHERI_NULL_ENTRY)).
  pose proof (proj1 (list_find_None _ _) E) as Hnone.
  assert (cheri_ok (ts ++ [t])) as Hok'.
  { split.
    - rewrite fmap_app. apply NoDup_app. split; [apply Hok |]. split; [| apply NoDup_singleton].
      intros x (u & -> & Hu)%list_elem_of_fmap Ht%list_elem_of_singleton. rewrite Forall_forall in Hnone. by apply (Hnone u).
    - apply Forall_app. split; [apply Hok | by apply Forall_singleton]. }
  assert ((ts ++ [t]) !! length ts = Some t) as Hlast by by apply list_lookup_middle.
  split; [done |]. split; [done |]. split; [done |]. intros p s. unfold cap_load at 1.
  destruct (decide (p = pid)) as [-> | Hp].
  - pose proof (cheri_find_at _ _ t Hok' Hlast) as Ht. change (ct_pid t) with pid in Ht. rewrite Ht. unfold cap_load. rewrite E. unfold cap_slot, t. cbn [caps].
    destruct (_ <=? _); [done |]. destruct (replicate 16 CHERI_NULL_ENTRY !! Z.to_nat s) as [e |] eqn:Er; [| done].
    apply lookup_replicate in Er as [-> _]. done.
  - unfold cap_load. destruct (cheri_find ts p) as [[j u] |] eqn:Ep.
    + apply cheri_find_some in Ep as [Hj <-]. by rewrite (cheri_find_at _ j u Hok') by (apply lookup_app_l_Some; done).
    + apply list_find_None in Ep. unfold cheri_find.
      rewrite (proj2 (list_find_None _ _)); [done |]. apply Forall_app. split; [done |].
      by apply Forall_singleton.
Qed.

(** The map after a capability has been made. *)
Lemma cap_create_run ts pid a len perms :
  cheri_ok ts →
  cheri_ok (cap_create ts pid a len perms).2 ∧
  match (cap_create ts pid a len perms).1 with
  | Ok slot => 0 <= slot < 16 ∧ cap_load ts pid slot = None ∧
      ∀ p s, 0 <= s → cap_load (cap_create ts pid a len perms).2 p s =
        if decide (p = pid ∧ s = slot) then Some (for_region a len perms) else cap_load ts p s
  | Err _ => ∀ p s, cap_load (cap_create ts pid a len perms).2 p s = cap_load ts p s
  end.
Proof.
  intros Hok. unfold cap_create. pose proof (find_or_create_ok ts pid Hok) as Hf.
  destruct (cheri_find_or_create ts pid) as [[[i t] |] ts1]; [| by subst].
  destruct Hf as (Hok1 & Hi & <- & Hsame).
  destruct (list_find _ (caps t)) as [[slot e] |] eqn:E; [| done].
  apply list_find_Some in E as (Hs & Hv & _). cbn [fst snd].
  assert (slot < 16)%nat as Hlt.
  { pose proof (Forall_lookup_1 _ _ _ _ (ck_caps _ Hok1) Hi) as Hl. cbn in Hl. rewrite <-Hl. by eapply lookup_lt_Some. }
  split; [by apply (cap_load_set ts1 i t slot (MkCapEntry true (for_region a len perms)) 0 0) |].
  split; [lia |]. split.
  - rewrite <-Hsame, (cap_load_row ts1 i) by done. unfold cap_slot. rewrite Nat2Z.id, Hs, Hv. by destruct (_ <=? _).
  - intros p s Hs'. rewrite (proj2 (cap_load_set ts1 i t slot _ p s Hok1 Hi Hlt Hs')). by rewrite Hsame.
Qed.

Lemma cap_delete_run ts pid cap_id :
  cheri_ok ts → 0 <= cap_id →
  cheri_ok (cap_delete ts pid cap_id).2 ∧
  match (cap_delete ts pid cap_id).1 with
  | Ok _ => is_Some (cap_load ts pid cap_id) ∧
      ∀ p s, 0 <= s → cap_load (cap_delete ts pid cap_id).2 p s =
        if decide (p = pid ∧ s = cap_id) then None else cap_load ts p s
  | Err _ => cap_load ts pid cap_id = None ∧ (cap_delete ts pid cap_id).2 = ts
  end.
Proof.
  intros Hok H0. unfold cap_delete. destruct (cheri_find ts pid) as [[i t] |] eqn:E.
  2: { split; [done |]. unfold cap_load. by rewrite E. }
  apply cheri_find_some in E as [Hi <-]. rewrite (cap_load_row ts i t cap_id Hok Hi).
  destruct (CHERI_MAX_CAPS_PER_PROC <=? cap_id) eqn:E16.
  { split; [done |]. unfold cap_slot. by rewrite E16. }
  unfold CHERI_MAX_CAPS_PER_PROC in E16. bools. destruct (cap_slot t cap_id) as [c |] eqn:Ec; [| done]. cbn [fst snd].
  pose proof (cap_load_set ts i t (Z.to_nat cap_id) (MkCapEntry false c)) as Hset.
  split; [apply (Hset 0 0); (done || lia) |]. split; [done |]. intros p s Hs.
  rewrite (proj2 (Hset p s Hok Hi ltac:(lia) Hs)), Z2Nat.id by done. done.
Qed.

Lemma cheri_reach_ok ts : cheri_reach ts → cheri_ok ts.
Proof.
  induction 1 as [| ts pid a len perms _ IH | ts pid cap_id _ IH].
  - split; constructor.
  - by apply cap_create_run.
  - destruct (decide (0 <= cap_id)) as [H0 | H0]; [by apply cap_delete_run |].
    unfold cap_delete. destruct (cheri_find ts pid) as [[i t] |] eqn:E; [| done].
    apply cheri_find_some in E as [Hi <-]. destruct (_ <=? _); [done |]. destruct (cap_slot t cap_id); [| done].
    apply (cheri_find_insert ts i t _ 0 IH Hi); [done |]. cbn. rewrite length_insert.
    apply (Forall_lookup_1 _ _ _ _ (ck_caps _ IH) Hi).
Qed.

Lemma validate_exact ts pid a len perms :
  cheri_ok ts →
  validate_ptr ts pid a len perms = true ↔
    cheri_find ts pid = None ∨
    ∃ s c, 0 <= s ∧ cap_load ts pid s = Some c ∧ covers c a len = true ∧ has_perm c perms = true.
Proof.
  intros Hok. unfold validate_ptr, cap_load. destruct (cheri_find ts pid) as [[i t] |] eqn:E; [| naive_solver].
  apply cheri_find_some in E as [Hi _]. pose proof (Forall_lookup_1 _ _ _ _ (ck_caps _ Hok) Hi) as Hl. cbn in Hl.
  rewrite existsb_exists. split.
  - intros (e & Hin & [Hv [Hc Hp]%andb_true_iff]%andb_true_iff). apply list_elem_of_In, list_elem_of_lookup in Hin as [n Hn].
    right. exists (Z.of_nat n), (cap e). apply lookup_lt_Some in Hn as Hlt. unfold cap_slot, CHERI_MAX_CAPS_PER_PROC.
    rewrite (proj2 (Z.leb_gt _ _)), Nat2Z.id, Hn, Hv by lia. split_and!; [lia | done..].
  - intros [? | (s & c & _ & Hs & Hc & Hp)]; [done |]. unfold cap_slot in Hs. destruct (_ <=? _); [done |].
    destruct (caps t !! Z.to_nat s) as [e |] eqn:Ee; [| done]. destruct (valid e) eqn:Hv; [| done]. injection Hs as <-.
    exists e. split; [apply list_elem_of_In; by eapply list_elem_of_lookup_2 |]. by rewrite Hv, Hc, Hp.
Qed.

(** The table of capabilities is a map from a process and a slot to a
    capability.  In every table that calls can make, [cap_create] puts the
    capability of the range into a slot of the process that was free and changes no
    other, or fails and changes none; [cap_delete] empties exactly the slot named, and
    fails exactly when it is empty; and [validate_ptr] holds exactly for a process
    that has never had a capability, or has one that covers the range with the
    rights asked for. *)
Theorem cheri_refines_map (ts : list CheriTable) (pid a len perms cap_id : Z) :
  cheri_reach ts → 0 <= cap_id →
  match cap_create ts pid a len perms with
  | (Ok slot, ts') => 0 <= slot < 16 ∧ cap_load ts pid slot = None ∧
      ∀ p s, 0 <= s → cap_load ts' p s =
        if decide (p = pid ∧ s = slot) then Some (for_region a len perms) else cap_load ts p s
  | (Err _, ts') => ∀ p s, cap_load ts' p s = cap_load ts p s
  end ∧
  match cap_delete ts pid cap_id with
  | (Ok _, ts') => is_Some (cap_load ts pid cap_id) ∧
      ∀ p s, 0 <= s → cap_load ts' p s = if decide (p = pid ∧ s = cap_id) then None else cap_load ts p s
  | (Err _, ts') => cap_load ts pid cap_id = None ∧ ts' = ts
  end ∧
  (validate_ptr ts pid a len perms = true ↔
     cheri_find ts pid = None ∨
     ∃ s c, 0 <= s ∧ cap_load ts pid s = Some c ∧ covers c a len = true ∧ has_perm c perms = true).
Proof.
  intros Hok%cheri_reach_ok H0. split; [| split; [| by apply validate_exact]].
  - pose proof (proj2 (cap_create_run ts pid a len perms Hok)) as H.
    by destruct (cap_create ts pid a len perms) as [[] ?].
  - pose proof (proj2 (cap_delete_run ts pid cap_id Hok H0)) as H. by destruct (cap_delete ts pid cap_id) as [[] ?].
Qed.

Definition ex_tables : list CheriTable := (cap_create [] 7 0x10000 0x2000 3).2.

Lemma cheri_refines_map_witness :
  cap_load (cap_delete ex_tables 7 0).2 7 0 = None ∧ validate_ptr ex_tables 7 0x11000 0x1000 1 = true.
Proof.
  destruct (cheri_refines_map ex_tables 7 0x11000 0x1000 1 0) as (_ & Hd & Hv);
    [apply cheri_create, cheri_empty | discriminate |].
  split.
  - assert (cap_delete ex_tables 7 0 = (Ok (), (cap_delete ex_tables 7 0).2)) as E by reflexivity.
    rewrite E in Hd. destruct Hd as [_ Hd]. exact (Hd 7 0 ltac:(discriminate)).
  - apply Hv. right. exists 0, (for_region 0x10000 0x2000 3). split; [discriminate |]. repeat split.
Defined.

(** The check of a mapping authorises itself.  The capability that the kernel
    requires is one the process makes with a system call, for any range and any
    rights: after that call the same range passes the check.  The call fails only
    when sixteen capabilities of the process, or 32 processes with one, are there. *)
Theorem self_authorised (ts : list CheriTable) (pid a len perms : Z) :
  cheri_reach ts → 0 <= a → 0 <= len → a + len < 2 ^ 64 →
  match sys_cheri_cap_create (Some pid) ts a len perms with
  | (Ok _, ts') => sys_cheri_cap_check (Some pid) ts' a len perms = Ok 1
  | (Err _, _) => (cheri_find ts pid = None ∧ 32 <= zlen ts) ∨ ∀ s, 0 <= s < 16 → is_Some (cap_load ts pid s)
  end.
Proof.
  intros Hok%cheri_reach_ok Ha Hl Hmax. cbn [sys_cheri_cap_create sys_cheri_cap_check].
  destruct (cap_create_run ts pid a len perms Hok) as [Hok' Hc].
  destruct (cap_create ts pid a len perms) as [[slot | e] ts'] eqn:E; cbn [fst snd] in *.
  - destruct Hc as (Hs & _ & Hc). rewrite (proj2 (validate_exact ts' pid a len perms Hok')); [done |]. right.
    exists slot, (for_region a len perms). rewrite Hc, decide_True by (done || lia).
    unfold covers, has_perm, for_region. cbn [base bound permissions].
    rewrite wrap_small, (proj2 (Z.ltb_ge _ _)), Z.leb_refl, Z.leb_refl, Z.land_diag, Z.eqb_refl by (unfold fits; lia).
    split_and!; [lia | done..].
  - unfold cap_create, cheri_find_or_create in E. destruct (cheri_find ts pid) as [[i t] |] eqn:Ef.
    + destruct (list_find _ (caps t)) as [[] |] eqn:En; [done |]. right. intros s Hs.
      apply cheri_find_some in Ef as [Hi <-]. rewrite (cap_load_row ts i) by done.
      pose proof (Forall_lookup_1 _ _ _ _ (ck_caps _ Hok) Hi) as Hlen. cbn in Hlen.
      destruct (lookup_lt_is_Some_2 (caps t) (Z.to_nat s)) as [x Hx]; [lia |].
      apply list_find_None in En. pose proof (Forall_lookup_1 _ _ _ _ En Hx) as Hv. cbn in Hv.
      unfold cap_slot, CHERI_MAX_CAPS_PER_PROC. rewrite (proj2 (Z.leb_gt _ _)), Hx by lia. by destruct (valid x).
    + left. split; [done |]. unfold CHERI_MAX_PROCS in E. destruct (32 <=? zlen ts) eqn:E32; [by bools | done].
Qed.

Lemma self_authorised_witness :
  sys_cheri_cap_check (Some 7) (sys_cheri_cap_create (Some 7) ex_tables 0x80000000 4096 3).2 0x80000000 4096 3 = Ok 1.
Proof.
  pose proof (self_authorised ex_tables 7 0x80000000 4096 3) as H.
  assert (sys_cheri_cap_create (Some 7) ex_tables 0x80000000 4096 3 =
    (Ok 1, (sys_cheri_cap_create (Some 7) ex_tables 0x80000000 4096 3).2)) as E by (vm_compute; reflexivity).
  rewrite E in H. apply H; [apply cheri_create, cheri_empty | discriminate | discriminate | reflexivity].
Defined.

(** ** Rules *)

Lemma path_has_prefix path prefix : path_has path prefix = true ↔ prefix `prefix_of` path.
Proof.
  revert path. induction prefix as [| p prefix IH]; intros path.
  { destruct path; (split; [intros _; apply prefix_nil | done]). }
  destruct path as [| c path]; cbn; [split; [done | by intros ?%prefix_nil_inv] |].
  destruct (c =? p) eqn:E; bools.
  - subst c. rewrite IH. split; [apply prefix_cons | apply prefix_cons_inv_2].
  - split; [done |]. intros ?%prefix_cons_inv_1. congruence.
Qed.

(** The first rule of the process whose prefix the path has. *)
Definition deciding (rules : list SandboxRule) (pid : Z) (path : list Z) : option SandboxRule :=
  head (filter (λ r, sr_pid r = pid ∧ path_prefix r `prefix_of` path) rules).

(** The first rule decides.  A process may use a path exactly if the first of its
    rules whose prefix the path has allows it, or none has; the prefix is compared
    byte by byte, so that it also fits names that go on without a slash.  A rule
    added later is one for the first 32 bytes of its path; it never changes a
    decision that a rule has made, and makes one only for paths with its prefix. *)
Theorem sandbox_first_rule (rules : list SandboxRule) (pid pid' : Z) (path prefix : list Z) (w r' w' : bool) :
  sandbox_check rules pid path w =
    match deciding rules pid path with
    | Some r => if w then allow_write r else allow_read r
    | None => true
    end ∧
  match sandbox_add rules pid' prefix r' w' with
  | (Ok _, rules') =>
      sandbox_check rules' pid path w =
        if decide (deciding rules pid path = None ∧ pid = pid' ∧ take 32 prefix `prefix_of` path)
        then (if w then w' else r') else sandbox_check rules pid path w
  | (Err _, rules') => rules' = rules ∧ 32 <= zlen rules
  end.
Proof.
  assert (∀ rs, sandbox_check rs pid path w =
    match deciding rs pid path with Some r => if w then allow_write r else allow_read r | None => true end) as Hspec.
  { unfold deciding. induction rs as [| r rs IH]; [done |]. cbn [sandbox_check].
    destruct (sr_pid r =? pid) eqn:E; bools; cbn [negb].
    - destruct (path_has path (path_prefix r)) eqn:Es.
      + rewrite filter_cons_True by (by rewrite <-path_has_prefix). done.
      + rewrite filter_cons_False by (rewrite <-path_has_prefix; intros [_ ?]; congruence). done.
    - rewrite filter_cons_False by (by intros [? _]). done. }
  split; [done |]. unfold sandbox_add, SANDBOX_MAX_RULES. destruct (32 <=? zlen rules) eqn:E; [by bools |].
  rewrite !Hspec. unfold deciding. rewrite filter_app.
  destruct (filter _ rules) as [| r rs]; [| by rewrite decide_False by (by intros [? _])]. cbn [app head].
  destruct (decide (sr_pid (MkRule pid' (take 32 prefix) r' w') = pid ∧ take 32 prefix `prefix_of` path)) as [D | D].
  - rewrite filter_cons_True by done. destruct D as [<- D]. by rewrite decide_True.
  - rewrite filter_cons_False by done. rewrite decide_False; [done |]. intros (_ & -> & ?). by apply D.
Qed.
End Aslr.
