(* ===== verification/Mmap.v ===== *)
(** * Mapping and sealing memory

    kernel/src/syscall/memory.rs: the system calls that map and unmap pages of the
    calling process, and mem/mseal.rs: the table of ranges that are sealed against
    them; on the page tables of Sv39.v and the capabilities of Aslr.v.

    The table of seals and the one of heap ends are the lists of their rows in use.
    [cur] is the owner of the current thread.  [sys_mincore] returns the bytes it
    writes at the address given.

    [sealed_stays]: calls with ordinary addresses never change a sealed page.
    [seals_bypassed]: an address that differs in the bits the tables ignore, and the
    end of the heap, get around a seal.  [mseal_exact]: the seals of a process are
    disjoint, and [is_sealed] says whether one meets the range. *)
From S2P Require Import Prelude Buddy Frames Proc Sv39 Aslr.
Import Sv39 Aslr.
Open Scope list_scope.

Module Mmap.

(** ** Seals (mem/mseal.rs) *)

Definition MAX_SEALS : Z := 64.

Record MemSeal : Type := MkSeal { ms_pid : Z; ms_start : Z; ms_end : Z }.
#[export] Instance MemSeal_eq : EqDecision MemSeal.
Proof. solve_decision. Defined.

(** [s.pid == pid && s.start < end && s.end > start]. *)
Definition meets (pid start end_ : Z) (s : MemSeal) : bool :=
  (ms_pid s =? pid) && ((ms_start s <? end_) && (start <? ms_end s)).

Definition mseal (seals : list MemSeal) (pid start len : Z) : result string () * list MemSeal :=
  if negb (Z.land start 0xFFF =? 0) then (Err "mseal: unaligned address"%string, seals) else
  if len =? 0 then (Err "mseal: zero length"%string, seals) else
  let end_ := u64 (start + len) in
  if end_ <? start then (Err "mseal: wrapped end"%string, seals) else
  if existsb (meets pid start end_) seals then (Err "mseal: range overlaps existing seal"%string, seals) else
  if MAX_SEALS <=? zlen seals then (Err "mseal: too many seals (max 64)"%string, seals) else
  (Ok (), seals ++ [MkSeal pid start end_]).

(** The rows behind the one found move up. *)
Definition munseal (seals : list MemSeal) (pid start len : Z) : result string () * list MemSeal :=
  if negb (Z.land start 0xFFF =? 0) then (Err "munseal: unaligned address"%string, seals) else
  if len =? 0 then (Err "munseal: zero length"%string, seals) else
  let end_ := u64 (start + len) in
  match list_find (λ s, s = MkSeal pid start end_) seals with
  | Some (i, _) => (Ok (), delete i seals)
  | None => (Err "munseal: no matching seal found"%string, seals)
  end.

Definition is_sealed (seals : list MemSeal) (pid addr len : Z) : bool :=
  if len =? 0 then false else
  let end_ := Z.min (addr + len) (2 ^ 64 - 1) in
  existsb (meets pid addr end_) seals.

Definition sealed_pages (s : MemSeal) : Z := u64 (ms_end s - ms_start s) / 4096.
Definition count_sealed (seals : list MemSeal) (pid : Z) : Z :=
  foldr (λ s n, if ms_pid s =? pid then sealed_pages s + n else n) 0 seals.
Definition total_sealed_pages (seals : list MemSeal) : Z := foldr (λ s n, sealed_pages s + n) 0 seals.
Definition seal_count (seals : list MemSeal) : Z := zlen seals.

(** ** System calls (syscall/memory.rs) *)

Section mmap.
Context {A : Type} `{FA : FrameAllocator A} (hart : Z).

Record memsys : Type := MkMem {
  vms : @vm A;
  procs : list Process;
  seals : list MemSeal;
  brks : list (Z * Z);
  cheri : list CheriTable;
}.
#[export] Instance memsys_eta : Eta memsys := λ m, MkMem (vms m) (procs m) (seals m) (brks m) (cheri m).

Definition get_page_table_root (ps : list Process) (pid : Z) : option Z := page_table_root <$> find_pid ps pid.

(** A new page at each address, until one fails. *)
Fixpoint map_new (s : @vm A) (root : Z) (vas : list Z) : outcome (result string () * vm) :=
  match vas with
  | [] => Done (Ok (), s)
  | va :: vas' =>
      '(o, s) ← alloc_page hart s;
      match o with
      | None => Done (Err "OOM"%string, s)
      | Some page =>
          '(r, s) ← map_user_page hart s root va page true true;
          match r with
          | Ok _ => map_new s root vas'
          | Err e => Done (Err e, s)
          end
      end
  end.

Fixpoint unmap_all (s : @vm A) (root : Z) (vas : list Z) : outcome vm :=
  match vas with
  | [] => Done s
  | va :: vas' => s ← unmap_user_page hart s root va; unmap_all s root vas'
  end.

(** [(addr + 0xFFF) >> 12]. *)
Definition brk_page (addr : Z) : Z := Z.shiftr (u64 (addr + 0xFFF)) 12.

(** [page_idx << 12] for the pages [from..to]. *)
Definition brk_range (from to : Z) : list Z := (λ i, u64 (Z.shiftl i 12)) <$> zseq from (to - from).

(** The row of a process in [BRK_TABLE], made if there is room. *)
Definition brk_entry (brks : list (Z * Z)) (pid : Z) : option (nat * Z) * list (Z * Z) :=
  match list_find (λ e, e.1 = pid) brks with
  | Some (i, e) => (Some (i, e.2), brks)
  | None =>
      if 8 <=? zlen brks then (None, brks)
      else (Some (length brks, 0x400000), brks ++ [(pid, 0x400000)])
  end.

Definition sys_brk (cur : option Z) (addr : Z) (m : memsys) : outcome (result string Z * memsys) :=
  match cur with
  | None => Done (Err "no proc"%string, m)
  | Some pid =>
      match brk_entry (brks m) pid with
      | (None, _) => Done (Err "too many brk entries"%string, m)
      | (Some (i, current_brk), bs) =>
          let m := m <| brks := bs |> in
          if addr =? 0 then Done (Ok current_brk, m) else
          match get_page_table_root (procs m) pid with
          | None => Done (Err "no proc pt"%string, m)
          | Some root =>
              '(r, s) ← (if current_brk <? addr
                         then map_new (vms m) root (brk_range (brk_page current_brk) (brk_page addr))
                         else if addr <? current_brk
                         then s ← unmap_all (vms m) root (brk_range (brk_page addr) (brk_page current_brk));
                              Done (Ok (), s)
                         else Done (Ok (), vms m));
              let m := m <| vms := s |> in
              match r with
              | Err e => Done (Err e, m)
              | Ok _ => Done (Ok addr, m <| brks := <[i := (pid, addr)]> bs |>)
              end
          end
      end
  end.

(** [va + i * PAGE_SIZE] for the pages of a length. *)
Definition page_range (va len : Z) : list Z :=
  (λ i, u64 (va + i * PAGE_SIZE)) <$> zseq 0 (Z.shiftr (u64 (len + PAGE_SIZE - 1)) 12).

Definition sys_mmap (cur : option Z) (addr len : Z) (m : memsys) : outcome (result string Z * memsys) :=
  match cur with
  | None => Done (Err "no proc"%string, m)
  | Some pid =>
      match get_page_table_root (procs m) pid with
      | None => Done (Err "no proc pt"%string, m)
      | Some root =>
          let va := if addr =? 0 then 0x10000000 else addr in
          if is_sealed (seals m) pid va len then Done (Err "mmap: range is sealed"%string, m) else
          if negb (validate_ptr (cheri m) pid va len (Z.lor CHERI_PERM_R CHERI_PERM_W))
          then Done (Err "cheri: mmap range not authorized"%string, m) else
          '(r, s) ← map_new (vms m) root (page_range va len);
          let m := m <| vms := s |> in
          match r with
          | Err e => Done (Err e, m)
          | Ok _ => Done (Ok va, m)
          end
      end
  end.

Definition sys_munmap (cur : option Z) (addr len : Z) (m : memsys) : outcome (result string Z * memsys) :=
  match cur with
  | None => Done (Err "no proc"%string, m)
  | Some pid =>
      if is_sealed (seals m) pid addr len then Done (Err "munmap: range is sealed"%string, m) else
      match get_page_table_root (procs m) pid with
      | None => Done (Err "no proc pt"%string, m)
      | Some root => s ← unmap_all (vms m) root (page_range addr len); Done (Ok 0, m <| vms := s |>)
      end
  end.

Definition sys_mprotect (cur : option Z) (addr len : Z) (m : memsys) : outcome (result string Z * memsys) :=
  match cur with
  | None => Done (Ok 0, m)
  | Some pid =>
      if is_sealed (seals m) pid addr len then Done (Err "mprotect: range is sealed"%string, m)
      else Done (Ok 0, m)
  end.

Definition sys_mseal (cur : option Z) (addr len : Z) (m : memsys) : outcome (result string Z * memsys) :=
  match cur with
  | None => Done (Err "no proc"%string, m)
  | Some pid =>
      match mseal (seals m) pid addr len with
      | (Err e, _) => Done (Err e, m)
      | (Ok _, ss) => Done (Ok 0, m <| seals := ss |>)
      end
  end.

Fixpoint presence (s : @vm A) (root : Z) (vas : list Z) : outcome (list Z) :=
  match vas with
  | [] => Done []
  | va :: vas' => b ← is_user_page_present s root va; bs ← presence s root vas'; Done (b :: bs)
  end.

Definition sys_mincore (cur : option Z) (addr len vec_ptr : Z) (m : memsys) : outcome (result string (list Z)) :=
  if vec_ptr =? 0 then Done (Err "null vec"%string) else
  if len =? 0 then Done (Ok []) else
  match cur with
  | None => Done (Err "no proc"%string)
  | Some pid =>
      match get_page_table_root (procs m) pid with
      | None => Done (Err "no pt"%string)
      | Some root =>
          let pages := Z.shiftr (u64 (len + 0xFFF)) 12 in
          bs ← presence (vms m) root ((λ i, u64 (addr + i * 4096)) <$> zseq 0 (Z.min pages 4096));
          Done (Ok bs)
      end
  end.

Inductive mem_call : Type :=
| SYS_MMAP (addr len : Z)
| SYS_MUNMAP (addr len : Z)
| SYS_MPROTECT (addr len : Z)
| SYS_MSEAL (addr len : Z)
| SYS_BRK (addr : Z).

Definition do_call (cur : option Z) (c : mem_call) (m : memsys) : outcome (result string Z * memsys) :=
  match c with
  | SYS_MMAP addr len => sys_mmap cur addr len m
  | SYS_MUNMAP addr len => sys_munmap cur addr len m
  | SYS_MPROTECT addr len => sys_mprotect cur addr len m
  | SYS_MSEAL addr len => sys_mseal cur addr len m
  | SYS_BRK addr => sys_brk cur addr m
  end.
End mmap.
Arguments memsys : clear implicits.

(** ** The table of seals *)

Inductive seals_reach : list MemSeal → Prop :=
| seals_none : seals_reach []
| seals_mseal ss pid start len :
    seals_reach ss → fits 64 start → fits 64 len → seals_reach (mseal ss pid start len).2
| seals_munseal ss pid start len : seals_reach ss → seals_reach (munseal ss pid start len).2.

Definition apart (s t : MemSeal) : Prop := ms_pid s = ms_pid t → ms_end s <= ms_start t ∨ ms_end t <= ms_start s.

Record seals_ok (ss : list MemSeal) : Prop := {
  sl_len : zlen ss <= 64;
  sl_range : Forall (λ s, 0 <= ms_start s < ms_end s ∧ ms_end s < 2 ^ 64 ∧ ms_start s mod 4096 = 0) ss;
  sl_apart i j s t : ss !! i = Some s → ss !! j = Some t → i ≠ j → apart s t;
}.

Lemma meets_apart pid start end_ s :
  meets pid start end_ s = false ↔ apart (MkSeal pid start end_) s.
Proof.
  unfold meets, apart. cbn [ms_pid ms_start ms_end].
  destruct (ms_pid s =? pid) eqn:E1, (ms_start s <? end_) eqn:E2, (start <? ms_end s) eqn:E3; bools; cbn;
    (split; [intros ?; try done; intros; (congruence || lia) | intros H; try done]); exfalso; lia.
Qed.

Lemma mseal_ok_inv ss pid start len ss' :
  fits 64 start → fits 64 len → mseal ss pid start len = (Ok (), ss') →
  ss' = ss ++ [MkSeal pid start (start + len)] ∧ start mod 4096 = 0 ∧ 0 < len ∧ start + len < 2 ^ 64 ∧
  Forall (apart (MkSeal pid start (start + len))) ss ∧ zlen ss < 64.
Proof.
  unfold fits, mseal, MAX_SEALS. intros Hs Hl E.
  destruct (Z.land start 0xFFF =? 0) eqn:E1; [| done]. destruct (len =? 0) eqn:E2; [done |]. cbn [negb] in E. bools.
  change 0xFFF with (Z.ones 12) in E1. rewrite Z.land_ones in E1 by lia. change (2 ^ 12) with 4096 in E1.
  assert (start + len < 2 ^ 64) as Hmax.
  { destruct (Z.lt_ge_cases (start + len) (2 ^ 64)) as [? | Hge]; [done |].
    replace (u64 (start + len)) with (start + len - 2 ^ 64) in E
      by (unfold wrap; rewrite <-(Z.mod_small (start + len - 2 ^ 64) (2 ^ 64)) by lia;
          symmetry; replace (start + len) with (start + len - 2 ^ 64 + 1 * 2 ^ 64) at 1 by lia; by rewrite Z_mod_plus_full).
    by rewrite (proj2 (Z.ltb_lt _ _)) in E by lia. }
  rewrite wrap_small in E by (unfold fits; lia).
  rewrite (proj2 (Z.ltb_ge _ _)) in E by lia.
  destruct (existsb _ ss) eqn:E3; [done |]. destruct (64 <=? zlen ss) eqn:E4; [done |]. bools. injection E as <-.
  split_and!; try done; [lia |]. apply Forall_forall. intros s Hin. apply meets_apart.
  destruct (meets _ _ _ s) eqn:Em; [| done]. rewrite <-E3. symmetry. apply existsb_exists. exists s.
  split; [by apply list_elem_of_In | done].
Qed.

Lemma mseal_err ss pid start len : (mseal ss pid start len).1 ≠ Ok () → (mseal ss pid start len).2 = ss.
Proof. unfold mseal. by repeat case_match. Qed.

Lemma seals_ok_snoc ss s :
  seals_ok ss → zlen ss < 64 → 0 <= ms_start s < ms_end s → ms_end s < 2 ^ 64 → ms_start s mod 4096 = 0 →
  Forall (apart s) ss → seals_ok (ss ++ [s]).
Proof.
  intros [Hl Hr Ha] Hn H1 H2 H3 Hs. split.
  - rewrite zlen_app. change (zlen [s]) with 1. lia.
  - apply Forall_app. split; [done |]. by apply Forall_singleton.
  - rewrite Forall_forall in Hs. assert (∀ t u, apart t u → apart u t) as Hsym by (unfold apart; intros; naive_solver).
    intros i j t u [Ht | [? Ht]]%lookup_app_Some [Hu | [? Hu]]%lookup_app_Some Hne.
    + by eapply (Ha i j).
    + apply list_lookup_singleton_Some in Hu as [_ ->]. apply Hsym, Hs. by eapply list_elem_of_lookup_2.
    + apply list_lookup_singleton_Some in Ht as [_ ->]. apply Hs. by eapply list_elem_of_lookup_2.
    + apply list_lookup_singleton_Some in Ht as [? ->], Hu as [? ->]. lia.
Qed.

Lemma seals_ok_delete ss i : seals_ok ss → seals_ok (delete i ss).
Proof.
  intros [Hl Hr Ha]. split.
  - unfold zlen in *. pose proof (sublist_length _ _ (sublist_delete ss i)). lia.
  - by apply Forall_delete.
  - intros a b s t Hs Ht Hne. rewrite list_lookup_delete in Hs, Ht. repeat case_decide;
      eapply Ha; [exact Hs | exact Ht | lia | exact Hs | exact Ht | lia | exact Hs | exact Ht | lia | exact Hs | exact Ht | lia].
Qed.

Lemma seals_reach_ok ss : seals_reach ss → seals_ok ss.
Proof.
  induction 1 as [| ss pid start len _ IH Hs Hl | ss pid start len _ IH].
  - split; [done | constructor | by intros ? ? ? ? ?].
  - destruct (mseal ss pid start len) as [[[] | e] ss'] eqn:E; cbn [snd].
    + apply mseal_ok_inv in E as (-> & Hm & Hp & Hmax & Hap & Hn); [| done | done]. unfold fits in *.
      apply seals_ok_snoc; cbn; (done || lia).
    + pose proof (mseal_err ss pid start len) as He. rewrite E in He. cbn in He. rewrite He; done.
  - unfold munseal. repeat case_match; try done. cbn. by apply seals_ok_delete.
Qed.

(** Seals are disjoint, looked up exactly, and can be taken back.  In every table
    that calls can make there are at most 64 seals, those of one process share no
    address, and each starts at a page.  [is_sealed] holds exactly if some address of
    the range, cut at the end of the address space, is in a seal of the process.
    A seal that was set is removed by [munseal] of the same range, which restores the
    table. *)
Theorem mseal_exact (ss : list MemSeal) (pid addr len : Z) :
  seals_reach ss → fits 64 addr → fits 64 len →
  seals_ok ss ∧
  (is_sealed ss pid addr len = true ↔
     ∃ s x, s ∈ ss ∧ ms_pid s = pid ∧ ms_start s <= x < ms_end s ∧ addr <= x < Z.min (addr + len) (2 ^ 64 - 1)) ∧
  match mseal ss pid addr len with
  | (Ok _, ss') => munseal ss' pid addr len = (Ok (), ss)
  | (Err _, ss') => ss' = ss
  end.
Proof.
  intros Hok%seals_reach_ok Ha Hl. split; [done |]. split.
  - unfold is_sealed. destruct (len =? 0) eqn:E; bools.
    { split; [done |]. intros (s & x & _ & _ & _ & Hx). lia. }
    rewrite existsb_exists. split.
    + intros (s & Hin & Hm). apply list_elem_of_In in Hin. unfold meets in Hm.
      apply andb_true_iff in Hm as [?%Z.eqb_eq [?%Z.ltb_lt ?%Z.ltb_lt]%andb_true_iff].
      pose proof (proj1 (Forall_forall _ _) (sl_range _ Hok) s Hin) as Hr. cbn in Hr. unfold fits in *.
      exists s, (Z.max (ms_start s) addr). split_and!; (done || lia).
    + intros (s & x & Hin & <- & Hs & Hx). exists s. split; [by apply list_elem_of_In |]. unfold meets.
      rewrite Z.eqb_refl, (proj2 (Z.ltb_lt _ _)), (proj2 (Z.ltb_lt _ _)) by lia. done.
  - destruct (mseal ss pid addr len) as [[[] | e] ss'] eqn:E.
    + pose proof E as E'. apply mseal_ok_inv in E as (-> & Hm & Hp & Hmax & Hap & _); [| done | done].
      unfold munseal. change 0xFFF with (Z.ones 12). rewrite Z.land_ones by lia. change (2 ^ 12) with 4096.
      rewrite Hm, (proj2 (Z.eqb_neq len 0)) by lia. cbn [Z.eqb negb].
      rewrite wrap_small by (unfold fits in *; lia). set (s := MkSeal pid addr (addr + len)) in *.
      assert (list_find (λ t, t = s) (ss ++ [s]) = Some (length ss, s)) as ->.
      { apply list_find_Some. split_and!; [by apply list_lookup_middle | done |].
        intros j t Hj Hlt ->. rewrite lookup_app_l in Hj by done.
        rewrite Forall_forall in Hap. destruct (Hap s); [by eapply list_elem_of_lookup_2 | done | |]; cbn in *; lia. }
      f_equal. rewrite delete_take_drop, take_app_length, drop_ge, app_nil_r; [done |]. rewrite length_app. cbn. lia.
    + pose proof (mseal_err ss pid addr len) as He. rewrite E in He. cbn in He. by apply He.
Qed.

Lemma mseal_exact_witness :
  is_sealed (mseal [] 7 0x10000 0x2000).2 7 0x11fff 1 = true ∧
  munseal (mseal [] 7 0x10000 0x2000).2 7 0x10000 0x2000 = (Ok (), []).
Proof.
  split.
  - apply (mseal_exact (mseal [] 7 0x10000 0x2000).2 7 0x11fff 1);
      [apply seals_mseal; [constructor | |]; unfold fits; lia | unfold fits; lia | unfold fits; lia |].
    exists (MkSeal 7 0x10000 0x12000), 0x11fff. split; [apply elem_of_cons; left; reflexivity |].
    split; [reflexivity |]. cbn. lia.
  - destruct (mseal_exact [] 7 0x10000 0x2000) as (_ & _ & H); [constructor | unfold fits; lia | unfold fits; lia |].
    exact H.
Defined.

(** ** Pages touched *)

Section laws.
Context {A : Type} `{FL : FrameLaws A} (hart : Z).
Hypothesis hart_ok : 0 <= hart.

(** A leaf of a 4K page is gone; a huge page stays. *)
Definition no_4k (l : option (Z * Z)) : option (Z * Z) := match l with Some (0, _) => None | _ => l end.

Lemma unmap_user_run s bl roots root va :
  spaces_ok s bl roots → root ∈ roots →
  ∃ s', unmap_user_page hart s root va = Done s' ∧ spaces_ok s' bl roots ∧
    ∀ r va', r ∈ roots → hw_leaf (mem s') r va' =
      if decide (r = root ∧ vpath va' = vpath va) then no_4k (hw_leaf (mem s) r va') else hw_leaf (mem s) r va'.
Proof.
  intros Hok Hr. unfold unmap_user_page.
  destruct (walk_run hart hart_ok s bl roots root va false Hok Hr) as (o & s1 & k & -> & _ & Hsame & Ho).
  destruct (Hsame eq_refl) as [-> _]. cbn [mbind outcome_bind]. destruct o as [[l0 idx] |].
  - destruct Ho as (Ht & -> & _). destruct (vpn_bounds va) as (_ & _ & H0).
    destruct (set_entry_run hart s bl roots root _ l0 (vpn0 va) 0 Hok Hr (path_last va) Ht H0 ltac:(by left)) as (s' & -> & R).
    exists s'. split; [done |]. split; [apply R |]. intros r va' Hr'.
    rewrite (rw_leaf _ _ _ _ _ _ _ _ _ _ R) by done. change (is_leaf 0) with false.
    destruct (decide (r = root ∧ vpath va' = vpath va)) as [[-> D] | D].
    + rewrite decide_True by (by rewrite vpath_last).
      assert (hw_leaf (mem s) root va' = hw_leaf (mem s) root va) as -> by (revert D; unfold hw_leaf, vpath; by intros [= -> -> ->]).
      pose proof (hw_leaf_stops (mem s) root va [vpn2 va; vpn1 va] (vpn0 va) [] l0 eq_refl Ht) as E.
      cbn in E. rewrite E by auto. by destruct (is_leaf _).
    + rewrite decide_False by (by rewrite vpath_last). done.
  - exists s. split; [done |]. split; [done |]. intros r va' Hr'. case_decide as D; [| done]. destruct D as [-> D].
    destruct (hw_leaf (mem s) root va') as [[[] e] |] eqn:E; try done.
    assert (hw_leaf (mem s) root va = Some (0, e)) as E' by (rewrite <-E; revert D; unfold hw_leaf, vpath; by intros [= -> -> ->]).
    apply hw_leaf_4k in E' as (_ & l0 & E' & _). destruct Ho as [Ho _]. congruence.
Qed.

Lemma map_user_run s bl roots root va pa r w :
  spaces_ok s bl roots → root ∈ roots →
  ∃ res s' k, map_user_page hart s root va pa r w = Done (res, s') ∧ spaces_ok s' (k ++ bl) roots ∧
    ∀ r' va', r' ∈ roots → hw_leaf (mem s') r' va' =
      match res with
      | Ok _ => if decide (r' = root ∧ vpath va' = vpath va)
                then (if is_leaf (leaf_pte pa r w false true) then Some (0, leaf_pte pa r w false true) else None)
                else hw_leaf (mem s) r' va'
      | Err _ => hw_leaf (mem s) r' va'
      end.
Proof.
  intros Hok Hr.
  destruct (map_page_run hart hart_ok s bl roots root va pa r w false true Hok Hr)
    as (res & s' & k & E & Hok' & _ & _ & _ & _ & Hl).
  unfold map_page in E. unfold map_user_page.
  destruct (walk_process_pt hart s root va true) as [[[[l0 idx] |] s1] | | |]; cbn [mbind outcome_bind] in *; try done.
  - exists res, s', k. done.
  - injection E as <- <-. eexists _, s1, k. split; [reflexivity |]. done.
Qed.

(** Only the pages of [vas] in the address space [root] may differ. *)
Definition touched (roots : list Z) (root : Z) (vas : list Z) (s s' : @vm A) : Prop :=
  ∀ r va, r ∈ roots → (r = root → Forall (λ v, vpath va ≠ vpath v) vas) →
    hw_leaf (mem s') r va = hw_leaf (mem s) r va.

Lemma touched_cons roots root va vas s1 s2 s3 :
  touched roots root [va] s1 s2 → touched roots root vas s2 s3 → touched roots root (va :: vas) s1 s3.
Proof.
  intros H1 H2 r x Hr Hx. rewrite H2, H1; [done | done | | done |]; intros E; specialize (Hx E);
    apply Forall_cons in Hx as [? ?]; [by apply Forall_singleton | done].
Qed.

Lemma touched_none roots root vas (s s' : @vm A) : mem s' = mem s → touched roots root vas s s'.
Proof. intros E r va _ _. by rewrite E. Qed.

Lemma unmap_all_run s bl roots root vas :
  spaces_ok s bl roots → root ∈ roots →
  ∃ s', unmap_all hart s root vas = Done s' ∧ spaces_ok s' bl roots ∧ touched roots root vas s s' ∧
    ∀ va, Exists (λ v, vpath va = vpath v) vas → hw_leaf (mem s') root va = no_4k (hw_leaf (mem s) root va).
Proof.
  intros Hok Hr. revert s Hok. induction vas as [| v vas IH]; intros s Hok; cbn [unmap_all].
  { exists s. split; [done |]. split; [done |]. split; [by apply touched_none | by intros va ?%Exists_nil]. }
  destruct (unmap_user_run s bl roots root v Hok Hr) as (s1 & -> & Hok1 & H1). cbn [mbind outcome_bind].
  destruct (IH s1 Hok1) as (s' & -> & Hok' & Ht & Hx). exists s'. split; [done |]. split; [done |]. split.
  - eapply touched_cons, Ht. intros r va Hr' Hne. rewrite H1, decide_False; [done | | done].
    intros [-> E]. exact (Forall_inv (Hne eq_refl) E).
  - intros va Hva. assert (no_4k (no_4k (hw_leaf (mem s) root va)) = no_4k (hw_leaf (mem s) root va)) as Hi
      by (by destruct (hw_leaf (mem s) root va) as [[[] ?] |]).
    destruct (decide (Exists (λ v, vpath va = vpath v) vas)) as [He | He].
    + rewrite (Hx va He), H1 by done. case_decide; [done | done].
    + apply Exists_cons in Hva as [Hva | ?]; [| done].
      rewrite Ht by (done || (intros _; by apply Forall_Exists_neg)).
      by rewrite H1, decide_True.
Qed.

Lemma alloc_quiet s bl roots :
  spaces_ok s bl roots →
  ∃ o s', alloc_page hart s = Done (o, s') ∧
    spaces_ok s' (match o with Some p => [(p, 0)] | None => [] end ++ bl) roots ∧
    ∀ r va, r ∈ roots → hw_leaf (mem s') r va = hw_leaf (mem s) r va.
Proof.
  intros Hok. destruct (alloc_page_run hart hart_ok s bl (so_frames _ _ _ Hok)) as (o & s' & E & _ & Hm & _ & Hf).
  destruct (spaces_quiet s s' bl (match o with Some p => [(p, 0)] | None => [] end) roots Hok) as (Hok' & _ & Hl).
  - by destruct o.
  - intros x Hx. apply Hm. by eapply table_word_in_use.
  - by exists o, s'.
Qed.

Lemma map_new_run s bl roots root vas :
  spaces_ok s bl roots → root ∈ roots →
  ∃ res s' k, map_new hart s root vas = Done (res, s') ∧ spaces_ok s' (k ++ bl) roots ∧ touched roots root vas s s'.
Proof.
  intros Hok Hr. revert s bl Hok. induction vas as [| v vas IH]; intros s bl Hok; cbn [map_new].
  { exists (Ok ()), s, []. split; [done |]. split; [done | by apply touched_none]. }
  destruct (alloc_quiet s bl roots Hok) as (o & s1 & -> & Hok1 & Hl1). cbn [mbind outcome_bind].
  destruct o as [page |].
  2: { eexists _, s1, []. split; [reflexivity |]. split; [done |]. intros r va Hr' _. by apply Hl1. }
  destruct (map_user_run s1 _ roots root v page true true Hok1 Hr) as (res & s2 & k2 & -> & Hok2 & Hl2).
  cbn [mbind outcome_bind].
  assert (touched roots root [v] s s2) as Ht.
  { intros r va Hr' Hne. rewrite Hl2 by done. destruct res; [| by apply Hl1].
    rewrite decide_False; [by apply Hl1 |]. intros [-> E]. exact (Forall_inv (Hne eq_refl) E). }
  destruct res as [[] | e].
  - destruct (IH s2 _ Hok2) as (res & s' & k & -> & Hok' & Ht').
    exists res, s', (k ++ k2 ++ [(page, 0)]). split; [done |].
    split; [by rewrite <-!app_assoc | by eapply touched_cons].
  - eexists _, s2, (k2 ++ [(page, 0)]). split; [reflexivity |]. split; [by rewrite <-app_assoc |].
    eapply touched_cons; [done | by apply touched_none].
Qed.

(** ** Calls *)

(** A range below half of the user's address space, which does not wrap. *)
Definition plain (addr len : Z) : Prop := 0 <= addr ∧ 0 <= len ∧ addr + len <= 2 ^ 37.

Definition plain_call (c : mem_call) : Prop :=
  match c with
  | SYS_MMAP addr len | SYS_MUNMAP addr len | SYS_MPROTECT addr len | SYS_MSEAL addr len => plain addr len
  | SYS_BRK _ => False
  end.

(** Processes have address spaces of their own. *)
Record mem_ok (m : memsys A) (bl : list (Z * Z)) (roots : list Z) : Prop := {
  mo_spaces : spaces_ok (vms m) bl roots;
  mo_root pid r : get_page_table_root (procs m) pid = Some r → r ∈ roots;
  mo_inj pid pid' r : get_page_table_root (procs m) pid = Some r →
    get_page_table_root (procs m) pid' = Some r → pid = pid';
}.

Lemma page_range_in va len v :
  0 <= va → 0 <= len → va + len <= 2 ^ 38 → v ∈ page_range va len → va <= v < va + len ∧ canonical v = true ∧ 0 < len.
Proof.
  intros Hva Hlen Hmax (i & -> & Hi)%list_elem_of_fmap. apply elem_of_zseq in Hi.
  rewrite Z.shiftr_div_pow2, wrap_small in Hi by (unfold fits, PAGE_SIZE; lia).
  assert (0 <= i * 4096 < len) as Hb by (unfold PAGE_SIZE in Hi; dlia).
  unfold PAGE_SIZE. rewrite wrap_small by (unfold fits; lia). split; [lia |]. split; [| lia].
  unfold canonical. rewrite (proj2 (Z.leb_le _ _)), (proj2 (Z.ltb_lt _ _)) by lia. done.
Qed.

(** A range that is not sealed has no page of a seal. *)
Lemma unsealed_pages ss pid start end_ addr len v va :
  MkSeal pid start end_ ∈ ss → is_sealed ss pid addr len = false → start mod 4096 = 0 → end_ mod 4096 = 0 →
  start <= va < end_ → addr <= v < addr + len → addr + len < 2 ^ 64 → va / 4096 ≠ v / 4096.
Proof.
  intros Hin Hs H1 H2 Hva Hv Hmax E. unfold is_sealed in Hs. rewrite (proj2 (Z.eqb_neq _ _)) in Hs by lia.
  assert (existsb (meets pid addr (Z.min (addr + len) (2 ^ 64 - 1))) ss = true) as Ht; [| congruence].
  apply existsb_exists. exists (MkSeal pid start end_). split; [by apply list_elem_of_In |]. unfold meets. cbn.
  rewrite Z.eqb_refl, (proj2 (Z.ltb_lt _ _)), (proj2 (Z.ltb_lt _ _)); [done | dlia | dlia].
Qed.

(** A sealed range is left alone by changes of pages that are not sealed. *)
Lemma sealed_untouched ss roots pid start end_ addr len root root' (s s' : @vm A) va :
  MkSeal pid start end_ ∈ ss → start mod 4096 = 0 → end_ mod 4096 = 0 → start <= va < end_ → root ∈ roots →
  touched roots root' (page_range addr len) s s' → 0 <= addr → 0 <= len → addr + len <= 2 ^ 38 →
  (root = root' → is_sealed ss pid addr len = false) →
  translate (mem s') root va = translate (mem s) root va.
Proof.
  intros Hin H1 H2 Hva Hr Ht Ha Hl Hmax Hs. destruct (canonical va) eqn:Hc; [| unfold translate; by rewrite Hc].
  apply translate_same, Ht; [done |]. intros E. apply Forall_forall. intros v Hv Hp.
  destruct (page_range_in addr len v Ha Hl Hmax Hv) as (Hb & Hcv & _).
  apply (vpath_page v va Hcv Hc) in Hp. eapply unsealed_pages; eauto. lia.
Qed.

(** What a call keeps: the seals, and what sealed whole pages lead to. *)
Definition keeps_seals (m m' : memsys A) : Prop :=
  procs m' = procs m ∧ (∀ s, s ∈ seals m → s ∈ seals m') ∧
  ∀ pid start end_ root va, MkSeal pid start end_ ∈ seals m → start mod 4096 = 0 → end_ mod 4096 = 0 →
    start <= va < end_ → get_page_table_root (procs m) pid = Some root →
    translate (mem (vms m')) root va = translate (mem (vms m)) root va.

Lemma keeps_seals_refl m : keeps_seals m m.
Proof. done. Qed.

Lemma mem_ok_vms m bl bl' roots s :
  mem_ok m bl roots → spaces_ok s bl' roots → mem_ok (m <| vms := s |>) bl' roots.
Proof. intros [_ Hr Hi] Hs. by split. Qed.

(** The two calls that change pages, when the range is not sealed. *)
Lemma keeps_touched m bl roots pid root' addr len s :
  mem_ok m bl roots → get_page_table_root (procs m) pid = Some root' → is_sealed (seals m) pid addr len = false →
  0 <= addr → 0 <= len → addr + len <= 2 ^ 38 →
  touched roots root' (page_range addr len) (vms m) s → keeps_seals m (m <| vms := s |>).
Proof.
  intros Hok Hroot Hs Ha Hl Hmax Ht. split; [done |]. split; [done |].
  intros p start end_ root va Hin H1 H2 Hva Hr. cbn [vms].
  eapply (sealed_untouched (seals m)); try done; [by eapply mo_root |]. intros ->.
  by rewrite (mo_inj _ _ _ Hok _ _ _ Hr Hroot).
Qed.

Lemma call_run m bl roots cur c :
  mem_ok m bl roots → plain_call c →
  ∃ r m' k, do_call hart cur c m = Done (r, m') ∧ mem_ok m' (k ++ bl) roots ∧ keeps_seals m m'.
Proof.
  intros Hok Hc. destruct c as [addr len | addr len | addr len | addr len | addr]; cbn [do_call plain_call] in *;
    [| | | | done]; destruct Hc as (Ha & Hl & Hmax).
  - unfold sys_mmap. destruct cur as [pid |]; [| by eexists _, m, []].
    destruct (get_page_table_root (procs m) pid) as [root |] eqn:Er; [| by eexists _, m, []].
    set (va := if addr =? 0 then 0x10000000 else addr).
    assert (0 <= va ∧ va + len <= 2 ^ 38) as [Hva Hmax'] by (unfold va; destruct (addr =? 0); lia).
    destruct (is_sealed (seals m) pid va len) eqn:Es; [by eexists _, m, [] |].
    destruct (negb _); [by eexists _, m, [] |].
    destruct (map_new_run (vms m) bl roots root (page_range va len) (mo_spaces _ _ _ Hok) (mo_root _ _ _ Hok _ _ Er))
      as (res & s' & k & -> & Hok' & Ht). cbn [mbind outcome_bind].
    exists (match res with Ok _ => Ok va | Err e => Err e end), (m <| vms := s' |>), k.
    split; [by destruct res |]. split; [by eapply mem_ok_vms |]. by eapply keeps_touched.
  - unfold sys_munmap. destruct cur as [pid |]; [| by eexists _, m, []].
    destruct (is_sealed (seals m) pid addr len) eqn:Es; [by eexists _, m, [] |].
    destruct (get_page_table_root (procs m) pid) as [root |] eqn:Er; [| by eexists _, m, []].
    destruct (unmap_all_run (vms m) bl roots root (page_range addr len) (mo_spaces _ _ _ Hok) (mo_root _ _ _ Hok _ _ Er))
      as (s' & -> & Hok' & Ht & _). cbn [mbind outcome_bind].
    eexists _, (m <| vms := s' |>), []. split; [reflexivity |]. split; [by eapply mem_ok_vms |].
    eapply keeps_touched; (done || lia).
  - unfold sys_mprotect. destruct cur as [pid |]; [| by eexists _, m, []].
    destruct (is_sealed _ _ _ _); by eexists _, m, [].
  - unfold sys_mseal. destruct cur as [pid |]; [| by eexists _, m, []].
    destruct (mseal (seals m) pid addr len) as [[[] | e] ss] eqn:E; [| by eexists _, m, []].
    apply mseal_ok_inv in E as (-> & _); [| unfold fits; lia | unfold fits; lia].
    eexists _, (m <| seals := _ |>), []. split; [reflexivity |]. split; [by destruct Hok |].
    split; [done |]. split; [| done]. intros s Hs. cbn [seals]. apply elem_of_app. by left.
Qed.

(** Any number of calls, by any process. *)
Inductive calls : memsys A → memsys A → Prop :=
| calls_none m : calls m m
| calls_one m cur c r m' m'' :
    plain_call c → do_call hart cur c m = Done (r, m') → calls m' m'' → calls m m''.

(** C12. A seal holds.  Let whole pages of a process be sealed.  Whatever system calls
    to map, unmap, protect and seal memory any processes make, with ranges that lie in
    the lower half of the user addresses, the seal stays in the table, every address in
    it is translated to the same frame with the same rights as before, the address
    spaces stay disjoint, and the next such call returns. *)
Theorem sealed_stays (m m' : memsys A) (bl : list (Z * Z)) (roots : list Z) (pid start end_ root : Z) :
  mem_ok m bl roots → MkSeal pid start end_ ∈ seals m → start mod 4096 = 0 → end_ mod 4096 = 0 →
  get_page_table_root (procs m) pid = Some root → calls m m' →
  MkSeal pid start end_ ∈ seals m' ∧
  (∀ va, start <= va < end_ → translate (mem (vms m')) root va = translate (mem (vms m)) root va) ∧
  (∃ k, mem_ok m' (k ++ bl) roots) ∧
  ∀ cur c, plain_call c → ∃ r m'', do_call hart cur c m' = Done (r, m'').
Proof.
  intros Hok Hin H1 H2 Hr Hcalls. revert bl Hok Hin Hr.
  induction Hcalls as [m | m cur c r m1 m' Hc E _ IH]; intros bl Hok Hin Hr.
  - split; [done |]. split; [done |]. split; [by exists [] |]. intros cur c Hc.
    destruct (call_run m bl roots cur c Hok Hc) as (r & m'' & k & E & _). eauto.
  - destruct (call_run m bl roots cur c Hok Hc) as (r' & m2 & k & E' & Hok' & Hp & Hs & Ht).
    rewrite E in E'. injection E' as <- <-.
    destruct (IH (k ++ bl) Hok') as (Hin' & Ht' & [k' Hok''] & Hret); [by apply Hs | by rewrite Hp |].
    split; [done |]. split; [| split; [exists (k' ++ k); by rewrite <-app_assoc | done]].
    intros va Hva. rewrite Ht' by done. by eapply Ht.
Qed.

(** ** Around a seal *)

(** Bit 39 and those above do not select an entry. *)
Lemma vpath_alias va : vpath (va + 2 ^ 39) = vpath va.
Proof.
  unfold vpath. rewrite !vpn2_eq, !vpn1_eq, !vpn0_eq.
  replace (va + 2 ^ 39) with (va + 2 ^ 9 * 2 ^ 30) at 1 by lia. rewrite Z.div_add by lia.
  replace (va + 2 ^ 39) with (va + 2 ^ 18 * 2 ^ 21) at 1 by lia. rewrite Z.div_add by lia.
  replace (va + 2 ^ 39) with (va + 2 ^ 27 * 2 ^ 12) by lia. rewrite Z.div_add by lia.
  change (2 ^ 9) with (1 * 512). change (2 ^ 18) with (512 * 512). change (2 ^ 27) with (2 ^ 18 * 512).
  by rewrite !Z_mod_plus_full.
Qed.

Lemma unmapped_none s bl roots root vas va :
  spaces_ok s bl roots → root ∈ roots → is_Some (frame_4k (mem s) root va) → Exists (λ v, vpath va = vpath v) vas →
  ∃ s', unmap_all hart s root vas = Done s' ∧ translate (mem s') root va = None.
Proof.
  intros Hok Hr Hf Hx. destruct (unmap_all_run s bl roots root vas Hok Hr) as (s' & E & _ & _ & Hl).
  exists s'. split; [done |]. apply translate_none. rewrite Hl by done. unfold frame_4k in Hf.
  by destruct (hw_leaf (mem s) root va) as [[[] ?] |]; try destruct Hf.
Qed.

Lemma brk_page_eq a : 0 <= a <= 2 ^ 38 → brk_page a = (a + 4095) / 4096.
Proof.
  intros Ha. unfold brk_page. rewrite wrap_small by (unfold fits; lia). by rewrite Z.shiftr_div_pow2 by lia.
Qed.

(** C38. A seal can be got around.  Let a mapped page of a process be sealed, and all
    seals end below the end of the user addresses.  Then unmapping the address with
    bit 39 set succeeds and unmaps the sealed page, because the tables ignore that bit
    and the seals do not.  And if the page lies below the end of the heap, lowering
    that end unmaps it without a look at the seals. *)
Theorem seals_bypassed (m : memsys A) (bl : list (Z * Z)) (roots : list Z) (pid root start end_ va : Z) :
  mem_ok m bl roots → get_page_table_root (procs m) pid = Some root →
  MkSeal pid start end_ ∈ seals m → start <= va < end_ → Forall (λ s, ms_end s <= 2 ^ 38) (seals m) →
  0 <= va < 2 ^ 38 → va mod 4096 = 0 → is_Some (frame_4k (mem (vms m)) root va) →
  (∃ m', do_call hart (Some pid) (SYS_MUNMAP (va + 2 ^ 39) 4096) m = Done (Ok 0, m') ∧
     seals m' = seals m ∧ translate (mem (vms m')) root va = None) ∧
  ∀ i b addr, list_find (λ e, e.1 = pid) (brks m) = Some (i, (pid, b)) → 0 < addr <= va → va < b <= 2 ^ 38 →
    ∃ m', do_call hart (Some pid) (SYS_BRK addr) m = Done (Ok addr, m') ∧
      seals m' = seals m ∧ translate (mem (vms m')) root va = None.
Proof.
  intros Hok Hr Hin Hva Hends H38 Hal Hf. pose proof (mo_spaces _ _ _ Hok) as Hsp. pose proof (mo_root _ _ _ Hok _ _ Hr) as Hrt.
  split.
  - cbn [do_call]. unfold sys_munmap.
    assert (is_sealed (seals m) pid (va + 2 ^ 39) 4096 = false) as ->.
    { unfold is_sealed. destruct (existsb _ _) eqn:E; [| done]. apply existsb_exists in E as (s & Hs & Hm).
      apply list_elem_of_In in Hs. unfold meets in Hm. apply andb_true_iff in Hm as [_ [_ ?%Z.ltb_lt]%andb_true_iff].
      pose proof (proj1 (Forall_forall _ _) Hends s Hs) as He. cbn in He. lia. }
    rewrite Hr. destruct (unmapped_none (vms m) bl roots root (page_range (va + 2 ^ 39) 4096) va Hsp Hrt Hf)
      as (s' & -> & Ht).
    { apply Exists_exists. exists (va + 2 ^ 39). split; [| by rewrite vpath_alias].
      apply list_elem_of_fmap. exists 0. split; [rewrite wrap_small by (unfold fits; lia); lia |].
      by apply elem_of_zseq. }
    cbn [mbind outcome_bind]. eexists. split; [reflexivity | done].
  - intros i b addr Hb Haddr Hvb. cbn [do_call]. unfold sys_brk, brk_entry. rewrite Hb. cbn [snd].
    rewrite (proj2 (Z.eqb_neq addr 0)) by lia.
    change (procs (m <| brks := brks m |>)) with (procs m). change (vms (m <| brks := brks m |>)) with (vms m). rewrite Hr.
    rewrite (proj2 (Z.ltb_ge _ _)), (proj2 (Z.ltb_lt _ _)) by lia.
    rewrite !brk_page_eq by lia.
    destruct (unmapped_none (vms m) bl roots root (brk_range ((addr + 4095) / 4096) ((b + 4095) / 4096)) va Hsp Hrt Hf)
      as (s' & -> & Ht).
    { apply Exists_exists. exists va. split; [| done]. apply list_elem_of_fmap. exists (va / 4096).
      rewrite Z.shiftl_mul_pow2 by lia. change (2 ^ 12) with 4096. split.
      - rewrite wrap_small by (unfold fits; dlia). dlia.
      - apply elem_of_zseq. dlia. }
    cbn [mbind outcome_bind]. eexists. split; [reflexivity | done].
Qed.
End laws.

(** ** An example *)

(** The page of the example of Sv39.v, sealed, with the heap up to 64 KiB behind it. *)
Definition ex_mem : memsys allocator :=
  MkMem (ex_mapped false) [Process_new 7 10 ex_root 0 0 0] [MkSeal 7 0x10000 0x11000] [(7, 0x20000)] [].

Lemma one_process root pid r :
  get_page_table_root [Process_new 7 10 root 0 0 0] pid = Some r → pid = 7 ∧ r = root.
Proof. unfold get_page_table_root, find_pid. cbn. case_decide; cbn; [by intros [= <-] | done]. Qed.

Lemma ex_mem_ok : ∃ bl, mem_ok ex_mem bl [ex_root].
Proof.
  destruct (ex_mapped_spaces false) as [k Hok]. exists (k ++ [(ex_root, 0)]).
  split; [exact Hok | |].
  - intros pid r Hr. destruct (one_process ex_root pid r Hr) as [_ ->]. exact ex_root_in.
  - intros pid pid' r Hr Hr'. destruct (one_process ex_root pid r Hr) as [-> _].
    destruct (one_process ex_root pid' r Hr') as [-> _]. reflexivity.
Qed.

Lemma ex_frame : frame_4k (mem (vms ex_mem)) ex_root 0x10000 = Some 0x80C00000.
Proof. vm_compute. reflexivity. Qed.

Lemma ex_sealed : MkSeal 7 0x10000 0x11000 ∈ seals ex_mem.
Proof. apply elem_of_cons. by left. Qed.

Lemma sealed_stays_witness :
  ∃ r m', do_call 0 (Some 7) (SYS_MUNMAP 0x11000 0x1000) ex_mem = Done (r, m') ∧
    translate (mem (vms m')) ex_root 0x10000 = translate (mem (vms ex_mem)) ex_root 0x10000.
Proof.
  destruct ex_mem_ok as [bl Hok].
  destruct (call_run 0 ltac:(lia) ex_mem bl [ex_root] (Some 7) (SYS_MUNMAP 0x11000 0x1000) Hok)
    as (r & m' & k & E & _); [split; [discriminate | split; discriminate] |].
  exists r, m'. split; [exact E |].
  apply (sealed_stays 0 ltac:(lia) ex_mem m' bl [ex_root] 7 0x10000 0x11000 ex_root Hok ex_sealed eq_refl eq_refl eq_refl);
    [| split; [discriminate | reflexivity]].
  apply (calls_one 0 ex_mem (Some 7) (SYS_MUNMAP 0x11000 0x1000) r m' m');
    [split; [discriminate | split; discriminate] | exact E | apply calls_none].
Defined.

Lemma seals_bypassed_witness :
  ∃ m', do_call 0 (Some 7) (SYS_MUNMAP (0x10000 + 2 ^ 39) 4096) ex_mem = Done (Ok 0, m') ∧
    translate (mem (vms m')) ex_root 0x10000 = None.
Proof.
  destruct ex_mem_ok as [bl Hok].
  destruct (seals_bypassed 0 ltac:(lia) ex_mem bl [ex_root] 7 ex_root 0x10000 0x11000 0x10000 Hok eq_refl ex_sealed)
    as [(m' & E & _ & Ht) _].
  - split; [discriminate | reflexivity].
  - apply Forall_singleton. discriminate.
  - split; [discriminate | reflexivity].
  - reflexivity.
  - exists 0x80C00000. exact ex_frame.
  - exists m'. split; [exact E | exact Ht].
Defined.
End Mmap.
