(* ===== verification/Tcp.v ===== *)
(** * The TCP service

    services/tcp/src/main.rs: a user-level server with eight connections, a handshake,
    one packet in flight per connection and a retransmission timer.

    The service is a state machine; [turn] is one pass of its loop, with what
    [tros::recv] returned ([None] for an error) and the time as inputs.  What it sends
    is collected in [sent].  A packet is delivered by putting its bytes at the start
    of the receiver's 64-byte buffer.  Console output and the registration of the port
    at the start are not modelled.

    [tcp_invariant]: every reachable connection is well formed, the congestion window
    never limits anything, and a turn returns unless the length byte of a message
    exceeds 62, when the service panics.  [tcp_transfer]: two services that are in
    sync transfer up to 56 bytes unchanged.  [handshake_exact]: they get in sync, both
    ways, exactly when both give the connection the same number.
    [retransmission_exact]: a packet sent again has no header, and is ignored by the
    receiver or ends it.  [fins_exhaust]: FIN leaves connections that nothing but
    FIN-ACK frees. *)
From S2P Require Import Prelude Words.
Open Scope list_scope.

Module Tcp.

Inductive TcpState : Type :=
| Closed | Listen | SynSent | SynReceived | Established
| FinWait1 | FinWait2 | CloseWait | LastAck | TimeWait.
#[export] Instance TcpState_eq : EqDecision TcpState.
Proof. solve_decision. Defined.

Record TcpConn : Type := MkConn {
  state : TcpState;
  local_port : Z;
  remote_ep : Z;
  remote_pid : Z;
  snd_seq : Z;
  rcv_seq : Z;
  snd_una : Z;
  cwnd : Z;
  ssthresh : Z;
  send_buf : list Z;
  send_len : Z;
  recv_buf : list Z;
  recv_len : Z;
  retry_count : Z;
  retrans_timer : Z;
  rto : Z;
}.
#[export] Instance TcpConn_eta : Eta TcpConn := λ c,
  MkConn (state c) (local_port c) (remote_ep c) (remote_pid c) (snd_seq c) (rcv_seq c) (snd_una c) (cwnd c)
    (ssthresh c) (send_buf c) (send_len c) (recv_buf c) (recv_len c) (retry_count c) (retrans_timer c) (rto c).

Definition TcpConn_new : TcpConn :=
  MkConn Closed 0 0 0 0 0 0 1460 65535 (replicate 64 0) 0 (replicate 64 0) 0 0 0 10.

(** [tros::send(ep, opcode, data)]. *)
Record packet : Type := MkPacket { p_ep : Z; p_op : Z; p_data : list Z }.

Record tcp : Type := MkTcp {
  CONNS : list TcpConn;
  poll_count : Z;
  sent : list packet;
}.
#[export] Instance tcp_eta : Eta tcp := λ t, MkTcp (CONNS t) (poll_count t) (sent t).

Definition tcp_start : tcp := MkTcp (replicate 8 TcpConn_new) 0 [].

Definition OP_LISTEN : Z := 1.
Definition OP_CONNECT : Z := 2.
Definition OP_SEND : Z := 3.
Definition OP_RECV : Z := 4.
Definition OP_CLOSE : Z := 5.
Definition TCP_SYN : Z := 0x10.
Definition TCP_SYN_ACK : Z := 0x11.
Definition TCP_ACK : Z := 0x12.
Definition TCP_DATA : Z := 0x13.
Definition TCP_FIN : Z := 0x14.
Definition TCP_FIN_ACK : Z := 0x15.

Definition send (t : tcp) (ep op : Z) (data : list Z) : tcp := t <| sent := sent t ++ [MkPacket ep op data] |>.
Definition set_conn (t : tcp) (id : Z) (c : TcpConn) : tcp := t <| CONNS := <[Z.to_nat id := c]> (CONNS t) |>.

(** [CONNS[id]] behind [if id >= CONNS.len() { return; }]. *)
Definition conn_at (t : tcp) (id : Z) : option TcpConn :=
  if zlen (CONNS t) <=? id then None else CONNS t !! Z.to_nat id.

(** ** Bytes *)

(** [for i in 0..src.len() { dst[off + i] = src[i]; }], in range. *)
Definition put (dst : list Z) (off : Z) (src : list Z) : list Z :=
  take (Z.to_nat off) dst ++ src ++ drop (Z.to_nat off + length src) dst.

Definition read_u32 (buf : list Z) (off : Z) : Z :=
  if off + 4 <=? zlen buf then
    match drop (Z.to_nat off) buf with
    | b0 :: b1 :: b2 :: b3 :: _ =>
        Z.lor (Z.lor (Z.lor (Z.shiftl b0 24) (Z.shiftl b1 16)) (Z.shiftl b2 8)) b3
    | _ => 0
    end
  else 0.

Definition be_u32 (val : Z) : list Z :=
  [u8 (Z.shiftr val 24); u8 (Z.shiftr val 16); u8 (Z.shiftr val 8); u8 val].

Definition write_u32 (buf : list Z) (off val : Z) : list Z :=
  if off + 4 <=? zlen buf then put buf off (be_u32 val) else buf.

Definition zero_pkt : list Z := replicate 64 0.

Definition byte (buf : list Z) (i : nat) : Z := default 0 (buf !! i).

(** ** Congestion control *)

Definition cwnd_increase (c : TcpConn) : TcpConn :=
  if cwnd c <? ssthresh c then c <| cwnd := u32 (cwnd c + 64) |>
  else c <| cwnd := u32 (cwnd c + 64 * 64 / Z.max (cwnd c) 1) |>.

Definition on_timeout (c : TcpConn) : TcpConn :=
  c <| ssthresh := Z.max (cwnd c / 2) 64 |> <| cwnd := 64 |>
    <| rto := Z.min (u64 (rto c * 2)) 100 |> <| retrans_timer := 0 |>.

Definition on_ack (c : TcpConn) : TcpConn := c <| rto := 10 |> <| retry_count := 0 |> <| retrans_timer := 0 |>.

(** ** Connections *)

Definition reusable (c : TcpConn) : Prop := state c = Closed ∨ state c = TimeWait.

Definition alloc_conn (t : tcp) : option (Z * tcp) :=
  match list_find reusable (CONNS t) with
  | Some (i, _) => Some (Z.of_nat i, set_conn t (Z.of_nat i) TcpConn_new)
  | None => None
  end.

Definition port_bytes (port : Z) : list Z := [u8 (Z.shiftr port 8); u8 port].

Definition handle_listen (t : tcp) (port : Z) : tcp := send t 3 1 (take 4 (put zero_pkt 0 (port_bytes port))).

(** The packet [SYN] for a port and a sequence number. *)
Definition syn_packet (port seq : Z) : list Z := take 6 (write_u32 (put zero_pkt 0 (port_bytes port)) 2 seq).

Definition handle_connect (t : tcp) (port caller_pid uptime_ms : Z) : Z * tcp :=
  match alloc_conn t with
  | None => (2 ^ 64 - 1, t)
  | Some (conn_id, t) =>
      let seq := 1000 + conn_id in
      let c := TcpConn_new <| state := SynSent |> <| local_port := port |> <| remote_pid := caller_pid |>
                 <| snd_seq := seq + 1 |> <| rcv_seq := 0 |>
                 <| retrans_timer := u64 (uptime_ms / 10 + rto TcpConn_new) |> in
      (conn_id, send (set_conn t conn_id c) 3 TCP_SYN (syn_packet port seq))
  end.

Definition handle_incoming_syn (t : tcp) (port sender remote_seq : Z) : tcp :=
  match alloc_conn t with
  | None => t
  | Some (conn_id, t) =>
      let seq := 2000 + conn_id in
      let c := TcpConn_new <| state := SynReceived |> <| local_port := port |> <| remote_ep := sender |>
                 <| remote_pid := u32 sender |> <| rcv_seq := u32 (remote_seq + 1) |> <| snd_seq := seq + 1 |> in
      let pkt := write_u32 (write_u32 (put zero_pkt 0 [u8 conn_id]) 1 seq) 5 (rcv_seq c) in
      send (set_conn t conn_id c) sender TCP_SYN_ACK (take 9 pkt)
  end.

Definition handle_incoming_syn_ack (t : tcp) (conn_id sender remote_seq : Z) : tcp :=
  match conn_at t conn_id with
  | None => t
  | Some c =>
      if negb (bool_decide (state c = SynSent)) then t else
      let c := on_ack (c <| state := Established |> <| remote_ep := sender |> <| rcv_seq := u32 (remote_seq + 1) |>) in
      send (set_conn t conn_id c) sender TCP_ACK (take 1 (put zero_pkt 0 [u8 conn_id]))
  end.

Definition handle_incoming_ack (t : tcp) (conn_id : Z) : tcp :=
  match conn_at t conn_id with
  | None => t
  | Some c =>
      if bool_decide (state c = SynReceived)
      then set_conn t conn_id (cwnd_increase (on_ack (c <| state := Established |>)))
      else if bool_decide (state c = Established)
      then set_conn t conn_id (cwnd_increase (on_ack c) <| send_len := 0 |>)
      else t
  end.

(** The bytes of a data packet: number, length, data, sequence number. *)
Definition data_packet (conn_id : Z) (data : list Z) (seq : Z) : list Z :=
  let len := zlen data in
  take (Z.to_nat (2 + len + 4)) (write_u32 (put (put zero_pkt 0 [u8 conn_id; u8 len]) 2 data) (2 + len) seq).

Definition handle_send (t : tcp) (conn_id : Z) (data : list Z) (uptime_ms : Z) : tcp :=
  match conn_at t conn_id with
  | None => t
  | Some c =>
      if negb (bool_decide (state c = Established)) then t else
      let allowed := Z.min (cwnd c) 56 in
      let len := Z.min (zlen data) allowed in
      let data := take (Z.to_nat len) data in
      let pkt := data_packet conn_id data (snd_seq c) in
      let c := c <| snd_seq := u32 (snd_seq c + len) |> <| send_buf := put (send_buf c) 0 data |>
                 <| send_len := len |> <| retrans_timer := u64 (uptime_ms / 10 + rto c) |> in
      send (set_conn t conn_id c) (remote_ep c) TCP_DATA pkt
  end.

Definition handle_incoming_data (t : tcp) (conn_id : Z) (data : list Z) (seq : Z) : tcp :=
  match conn_at t conn_id with
  | None => t
  | Some c =>
      if negb (bool_decide (state c = Established)) then t else
      if negb (seq =? rcv_seq c) then t else
      let len := Z.min (zlen data) 64 in
      let c := c <| recv_buf := put (recv_buf c) 0 (take (Z.to_nat len) data) |> <| recv_len := len |>
                 <| rcv_seq := u32 (rcv_seq c + len) |> in
      send (set_conn t conn_id c) (remote_ep c) TCP_ACK
        (take 5 (write_u32 (put zero_pkt 0 [u8 conn_id]) 1 (rcv_seq c)))
  end.

Definition handle_recv (t : tcp) (conn_id caller_pid : Z) : tcp :=
  match conn_at t conn_id with
  | None => t
  | Some c =>
      if 0 <? recv_len c
      then set_conn (send t caller_pid 4 (take (Z.to_nat (recv_len c)) (recv_buf c))) conn_id (c <| recv_len := 0 |>)
      else send t caller_pid 4 []
  end.

Definition handle_close (t : tcp) (conn_id : Z) : tcp :=
  match conn_at t conn_id with
  | None => t
  | Some c =>
      if negb (bool_decide (state c = Established)) then t else
      send (set_conn t conn_id (c <| state := FinWait1 |>)) (remote_ep c) TCP_FIN (take 1 (put zero_pkt 0 [u8 conn_id]))
  end.

Definition handle_incoming_fin (t : tcp) (conn_id : Z) : tcp :=
  match conn_at t conn_id with
  | None => t
  | Some c =>
      send (set_conn t conn_id (c <| state := LastAck |>)) (remote_ep c) TCP_FIN_ACK
        (take 1 (put zero_pkt 0 [u8 conn_id]))
  end.

Definition handle_incoming_fin_ack (t : tcp) (conn_id : Z) : tcp :=
  match conn_at t conn_id with
  | None => t
  | Some c => set_conn t conn_id (c <| state := Closed |>)
  end.

(** ** Retransmission *)

Definition retransmit (tick : Z) (t : tcp) (i : Z) : tcp :=
  match conn_at t i with
  | None => t
  | Some c =>
      if negb ((0 <? retrans_timer c) && (retrans_timer c <=? tick)) then t else
      let again c := let c := on_timeout (c <| retry_count := retry_count c + 1 |>) in
                     c <| retrans_timer := u64 (tick + rto c) |> in
      if bool_decide (state c = SynSent) && (retry_count c <? 3)
      then set_conn (send t 3 TCP_SYN (syn_packet (local_port c) (u32 (snd_seq c - 1)))) i (again c)
      else if bool_decide (state c = Established) && (0 <? send_len c) && (retry_count c <? 3)
      then set_conn (send t (remote_ep c) TCP_DATA (take (Z.to_nat (send_len c)) (send_buf c))) i (again c)
      else if 3 <=? retry_count c then set_conn t i (c <| state := Closed |>)
      else t
  end.

Definition check_retransmissions (t : tcp) (uptime_ms : Z) : tcp :=
  foldl (retransmit (uptime_ms / 10)) t (zseq 0 8).

(** ** The loop *)

(** The message in [buf]; a slice of the buffer that is too long panics. *)
Definition handle (t : tcp) (sender op : Z) (buf : list Z) (uptime_ms : Z) : outcome tcp :=
  let id := byte buf 0 in
  let port := Z.lor (Z.shiftl (byte buf 0) 8) (byte buf 1) in
  let data_len := byte buf 1 in
  if op =? OP_LISTEN then Done (handle_listen t port)
  else if op =? OP_CONNECT then
    let '(conn_id, t) := handle_connect t port (u32 sender) uptime_ms in
    Done (send t sender 2 [u8 (Z.shiftr conn_id 8); u8 conn_id])
  else if op =? OP_SEND then data ← aslice buf 2 (2 + data_len); Done (handle_send t id data uptime_ms)
  else if op =? OP_RECV then Done (handle_recv t id sender)
  else if op =? OP_CLOSE then Done (handle_close t id)
  else if op =? TCP_SYN then Done (handle_incoming_syn t port sender (read_u32 buf 2))
  else if op =? TCP_SYN_ACK then Done (handle_incoming_syn_ack t id sender (read_u32 buf 1))
  else if op =? TCP_ACK then Done (handle_incoming_ack t id)
  else if op =? TCP_DATA then
    let seq := read_u32 buf (2 + data_len) in
    data ← aslice buf 2 (2 + data_len); Done (handle_incoming_data t id data seq)
  else if op =? TCP_FIN then Done (handle_incoming_fin t id)
  else if op =? TCP_FIN_ACK then Done (handle_incoming_fin_ack t id)
  else Done t.

Definition turn (t : tcp) (msg : option (Z * Z * list Z)) (uptime_ms : Z) : outcome tcp :=
  t ← (match msg with Some (sender, op, buf) => handle t sender op buf uptime_ms | None => Done t end);
  let n := u64 (poll_count t + 1) in
  let t := t <| poll_count := n |> in
  Done (if n - n / 100 * 100 =? 0 then check_retransmissions t uptime_ms else t).

(** ** Well-formed connections *)

Record conn_ok (c : TcpConn) : Prop := {
  co_send : length (send_buf c) = 64%nat ∧ 0 <= send_len c <= 56;
  co_recv : length (recv_buf c) = 64%nat ∧ 0 <= recv_len c <= 64;
  co_cwnd : 64 <= cwnd c <= 65598 ∧ 64 <= ssthresh c <= 65535;
  co_rto : 10 <= rto c <= 100;
  co_retry : 0 <= retry_count c <= 3;
}.

Record tcp_ok (t : tcp) : Prop := {
  tk_len : length (CONNS t) = 8%nat;
  tk_conns : Forall conn_ok (CONNS t);
}.

Lemma conn_new_ok : conn_ok TcpConn_new.
Proof. split; cbn; lia. Qed.

Lemma conn_at_ok t id c : tcp_ok t → conn_at t id = Some c → conn_ok c.
Proof.
  intros Hok. unfold conn_at. destruct (_ <=? _); [done |]. apply Forall_lookup_1, Hok.
Qed.

Lemma set_conn_ok t id c : tcp_ok t → conn_ok c → tcp_ok (set_conn t id c).
Proof.
  intros [Hl Hc] Hk. split; cbn; [by rewrite length_insert | by apply Forall_insert].
Qed.

Lemma send_ok t ep op data : tcp_ok t → tcp_ok (send t ep op data).
Proof. by intros [Hl Hc]. Qed.

Lemma alloc_conn_ok t id t' : tcp_ok t → alloc_conn t = Some (id, t') → tcp_ok t' ∧ 0 <= id < 8.
Proof.
  intros Hok. unfold alloc_conn. destruct (list_find _ _) as [[i c] |] eqn:E; [| done]. intros [= <- <-].
  split; [apply set_conn_ok; [done | apply conn_new_ok] |].
  apply list_find_Some in E as (Hi%lookup_lt_Some & _). rewrite (tk_len _ Hok) in Hi. lia.
Qed.

Lemma length_put dst off src :
  0 <= off → off + zlen src <= zlen dst → length (put dst off src) = length dst.
Proof.
  intros H0 H1. unfold put, zlen in *. rewrite !length_app, length_take, length_drop. lia.
Qed.

Lemma cwnd_increase_ok c : conn_ok c → conn_ok (cwnd_increase c).
Proof.
  intros [Hs Hr Hc Ho Ht]. unfold cwnd_increase.
  assert (0 <= 64 * 64 / Z.max (cwnd c) 1 <= 64 ∧ (4096 < cwnd c → 64 * 64 / Z.max (cwnd c) 1 = 0)) as [Hd Hz].
  { rewrite Z.max_l by lia. split; [| intros; apply Z.div_small; lia].
    split; [apply Z.div_pos; lia |]. apply Z.div_le_upper_bound; lia. }
  set (d := 64 * 64 / Z.max (cwnd c) 1) in *. clearbody d.
  destruct (cwnd c <? ssthresh c) eqn:E; bools;
    (split; cbn -[wrap Z.add]; try done;
     rewrite wrap_small by (unfold fits; lia)); [lia |].
  destruct (Z.le_gt_cases (cwnd c) 4096); [lia |]. rewrite Hz by done. lia.
Qed.

Lemma on_ack_ok c : conn_ok c → conn_ok (on_ack c).
Proof. intros [Hs Hr Hc Ho Ht]. split; cbn; (done || lia). Qed.

Lemma on_timeout_ok c : conn_ok c → conn_ok (on_timeout c).
Proof.
  intros [Hs Hr Hc Ho Ht]. split; cbn; try done.
  - split; [lia |]. assert (cwnd c / 2 <= 32799) by (apply Z.div_le_upper_bound; lia). lia.
  - rewrite wrap_small by (unfold fits; lia). lia.
Qed.

(** A change of fields that the invariant does not speak of. *)
Ltac conn_ok_same := match goal with H : conn_ok _ |- conn_ok _ => by destruct H end.

Lemma retransmit_ok tick t i : tcp_ok t → tcp_ok (retransmit tick t i).
Proof.
  intros Hok. unfold retransmit. destruct (conn_at t i) as [c |] eqn:E; [| done].
  pose proof (conn_at_ok _ _ _ Hok E) as Hc. destruct (negb _); [done |].
  assert (retry_count c < 3 → ∀ x, conn_ok (on_timeout (c <| retry_count := retry_count c + 1 |>) <| retrans_timer := x |>)) as Ha.
  { intros Hr x. assert (conn_ok (on_timeout (c <| retry_count := retry_count c + 1 |>))) as H; [| conn_ok_same].
    apply on_timeout_ok. destruct Hc as [Hs Hr' Hw Ho Ht]. split; cbn; (done || lia). }
  destruct (bool_decide (state c = SynSent) && (retry_count c <? 3)) eqn:E1.
  { apply andb_true_iff in E1 as [_ ?%Z.ltb_lt]. apply set_conn_ok; [by apply send_ok | by apply Ha]. }
  destruct (bool_decide (state c = Established) && (0 <? send_len c) && (retry_count c <? 3)) eqn:E2.
  { apply andb_true_iff in E2 as [_ ?%Z.ltb_lt]. apply set_conn_ok; [by apply send_ok | by apply Ha]. }
  destruct (3 <=? retry_count c); [| done]. apply set_conn_ok; [done | conn_ok_same].
Qed.

Lemma check_ok t now : tcp_ok t → tcp_ok (check_retransmissions t now).
Proof.
  unfold check_retransmissions. generalize (zseq 0 8). intros l. revert t.
  induction l as [| i l IH]; intros t Hok; [done |]. cbn. by apply IH, retransmit_ok.
Qed.

(** A message: the buffer has 64 bytes. *)
Definition buf_ok (buf : list Z) : Prop := length buf = 64%nat ∧ Forall is_byte buf.

(** A length byte that reaches past the buffer. *)
Definition too_long (op : Z) (buf : list Z) : Prop := (op = OP_SEND ∨ op = TCP_DATA) ∧ 62 < byte buf 1.

Lemma byte_bound buf i : Forall is_byte buf → 0 <= byte buf i < 256.
Proof.
  intros Hb. unfold byte. destruct (buf !! i) as [b |] eqn:E; cbn; [| lia].
  apply (Forall_lookup_1 _ _ _ _ Hb E).
Qed.

Lemma slice_message (buf : list Z) n :
  length buf = 64%nat → 0 <= n →
  aslice buf 2 (2 + n) = if n <=? 62 then Done (take (Z.to_nat n) (drop 2 buf)) else Panic.
Proof.
  intros Hl Hn. assert (zlen buf = 64) as Hz by (unfold zlen; lia). destruct (n <=? 62) eqn:E; bools.
  - rewrite aslice_in_range by lia. replace (2 + n - 2) with n by lia. done.
  - unfold aslice. rewrite Hz, (proj2 (Z.leb_gt _ 64)) by lia. by rewrite andb_false_r.
Qed.

Lemma handle_send_ok t id data now : tcp_ok t → tcp_ok (handle_send t id data now).
Proof.
  intros Hok. unfold handle_send. destruct (conn_at t id) as [c |] eqn:E; [| done].
  pose proof (conn_at_ok _ _ _ Hok E) as [Hs Hr Hw Ho Ht]. destruct (negb _); [done |].
  apply send_ok, set_conn_ok; [done |]. pose proof (zlen_nonneg data). split; cbn -[put firstn Z.min]; try done.
  split; [| lia]. rewrite length_put; [by apply Hs | lia |]. unfold zlen in *. rewrite length_take. lia.
Qed.

Lemma incoming_data_ok t id data seq : tcp_ok t → tcp_ok (handle_incoming_data t id data seq).
Proof.
  intros Hok. unfold handle_incoming_data. destruct (conn_at t id) as [c |] eqn:E; [| done].
  pose proof (conn_at_ok _ _ _ Hok E) as [Hs Hr Hw Ho Ht]. destruct (negb _); [done |]. destruct (negb _); [done |].
  apply send_ok, set_conn_ok; [done |]. pose proof (zlen_nonneg data). split; cbn -[put firstn Z.min]; try done.
  split; [| lia]. rewrite length_put; [by apply Hr | lia |]. unfold zlen in *. rewrite length_take. lia.
Qed.

Lemma handle_connect_ok t port pid now : tcp_ok t → tcp_ok (handle_connect t port pid now).2.
Proof.
  intros Hok. unfold handle_connect. destruct (alloc_conn t) as [[id t'] |] eqn:E; [| done].
  apply (alloc_conn_ok _ _ _ Hok) in E as [Hok' _]. apply send_ok, set_conn_ok; [done |]. split; cbn; lia.
Qed.

Lemma incoming_syn_ok t port sender seq : tcp_ok t → tcp_ok (handle_incoming_syn t port sender seq).
Proof.
  intros Hok. unfold handle_incoming_syn. destruct (alloc_conn t) as [[id t'] |] eqn:E; [| done].
  apply (alloc_conn_ok _ _ _ Hok) in E as [Hok' _]. apply send_ok, set_conn_ok; [done |]. split; cbn; lia.
Qed.

(** The handlers that only look at one connection. *)
Lemma one_conn_ok t id f :
  tcp_ok t → (∀ c, conn_ok c → conn_at t id = Some c → tcp_ok (f c)) →
  tcp_ok (match conn_at t id with None => t | Some c => f c end).
Proof. intros Hok Hf. destruct (conn_at t id) as [c |] eqn:E; [| done]. apply Hf; [by eapply conn_at_ok | done]. Qed.

Lemma handle_run t sender op buf now :
  tcp_ok t → buf_ok buf →
  handle t sender op buf now = Panic ∧ too_long op buf ∨
  ∃ t', handle t sender op buf now = Done t' ∧ tcp_ok t' ∧ ¬ too_long op buf.
Proof.
  intros Hok [Hl Hb]. unfold handle, too_long. pose proof (byte_bound buf 1 Hb) as Hn.
  repeat match goal with
  | |- context [op =? ?c] => destruct (op =? c) eqn:?; bools; [subst op |]
  end; rewrite ?slice_message by (done || lia);
    try (right; eexists; split; [reflexivity |]; split; [| by intros [[? | ?] _]]).
  - by apply send_ok.
  - destruct (handle_connect t _ _ now) as [id t'] eqn:E. right. eexists. split; [reflexivity |].
    split; [| by intros [[? | ?] _]]. apply send_ok. change t' with ((id, t').2). rewrite <-E. by apply handle_connect_ok.
  - destruct (byte buf 1 <=? 62) eqn:E; bools; [right | left].
    + eexists. split; [reflexivity |]. split; [by apply handle_send_ok | lia].
    + split; [done |]. split; [by left | lia].
  - apply one_conn_ok; [done |]. intros c Hc _. destruct (0 <? recv_len c); [| by apply send_ok].
    apply set_conn_ok; [by apply send_ok |]. destruct Hc as [Hs Hr Hw Ho Ht]. split; cbn; (done || lia).
  - apply one_conn_ok; [done |]. intros c Hc _. destruct (negb _); [done |]. apply send_ok, set_conn_ok; [done | conn_ok_same].
  - by apply incoming_syn_ok.
  - apply one_conn_ok; [done |]. intros c Hc _. destruct (negb _); [done |]. apply send_ok, set_conn_ok; [done |].
    apply on_ack_ok. conn_ok_same.
  - apply one_conn_ok; [done |]. intros c Hc _. destruct (bool_decide (state c = SynReceived)).
    + apply set_conn_ok; [done |]. apply cwnd_increase_ok, on_ack_ok. conn_ok_same.
    + destruct (bool_decide _); [| done]. apply set_conn_ok; [done |].
      apply on_ack_ok, cwnd_increase_ok in Hc. destruct Hc as [Hs Hr Hw Ho Ht]. split; cbn -[cwnd_increase]; (done || lia).
  - destruct (byte buf 1 <=? 62) eqn:E; bools; [right | left].
    + eexists. split; [reflexivity |]. split; [by apply incoming_data_ok | lia].
    + split; [done |]. split; [by right | lia].
  - apply one_conn_ok; [done |]. intros c Hc _. apply send_ok, set_conn_ok; [done | conn_ok_same].
  - apply one_conn_ok; [done |]. intros c Hc _. apply set_conn_ok; [done | conn_ok_same].
  - done.
Qed.

Inductive tcp_reach : tcp → Prop :=
| tcp_boot : tcp_reach tcp_start
| tcp_turn t msg now t' :
    tcp_reach t → match msg with Some (_, _, buf) => buf_ok buf | None => True end →
    turn t msg now = Done t' → tcp_reach t'.

Lemma turn_run t msg now :
  tcp_ok t → match msg with Some (_, _, buf) => buf_ok buf | None => True end →
  turn t msg now = Panic ∧ (∃ sender op buf, msg = Some (sender, op, buf) ∧ too_long op buf) ∨
  (∃ t', turn t msg now = Done t' ∧ tcp_ok t') ∧ ∀ sender op buf, msg = Some (sender, op, buf) → ¬ too_long op buf.
Proof.
  intros Hok Hm. unfold turn.
  assert (∀ t' n, tcp_ok t' → tcp_ok (if n - n / 100 * 100 =? 0
    then check_retransmissions (t' <| poll_count := n |>) now else t' <| poll_count := n |>)) as Hend.
  { intros t' n [Hl Hc]. destruct (_ =? _); [apply check_ok |]; by split. }
  destruct msg as [[[sender op] buf] |]; cbn [mbind outcome_bind].
  - destruct (handle_run t sender op buf now Hok Hm) as [[-> Hlong] | (t' & -> & Hok' & Hs)]; cbn [mbind outcome_bind].
    + left. split; [done |]. eauto.
    + right. split; [eexists; split; [reflexivity | by apply Hend] |]. by intros ? ? ? [= <- <- <-].
  - right. split; [eexists; split; [reflexivity | by apply Hend] | done].
Qed.

Lemma tcp_reach_ok t : tcp_reach t → tcp_ok t.
Proof.
  induction 1 as [| t msg now t' _ IH Hm E].
  - split; [done |]. apply Forall_replicate, conn_new_ok.
  - destruct (turn_run t msg now IH Hm) as [[E' _] | [(t1 & E' & Hok) _]]; rewrite E in E'; [done |]. by injection E' as <-.
Qed.

(** C32. The service stays well formed, and stops only for a length that does not fit.
    In every state that messages and the timer can lead to there are eight
    connections, with at most 56 bytes to send again and 64 received, a congestion
    window from 64 to 65598 bytes, a timeout from 10 to 100 ticks and at most three
    retries.  So the window never limits a packet of at most 56 bytes.  A turn of the
    loop returns, except for SEND and DATA whose length byte is more than 62, which
    end the service. *)
Theorem tcp_invariant (t : tcp) (msg : option (Z * Z * list Z)) (now : Z) :
  tcp_reach t → match msg with Some (_, _, buf) => buf_ok buf | None => True end →
  tcp_ok t ∧ Forall (λ c, Z.min (cwnd c) 56 = 56) (CONNS t) ∧
  (turn t msg now = Panic ∧ (∃ sender op buf, msg = Some (sender, op, buf) ∧ too_long op buf) ∨
   (∃ t', turn t msg now = Done t') ∧ ∀ sender op buf, msg = Some (sender, op, buf) → ¬ too_long op buf).
Proof.
  intros Hok%tcp_reach_ok Hm. split; [done |]. split.
  - eapply Forall_impl; [apply Hok |]. intros c [_ _ [Hc _] _ _]. lia.
  - destruct (turn_run t msg now Hok Hm) as [? | [(t' & E & _) Hs]]; [by left | right; eauto].
Qed.

Lemma tcp_invariant_witness :
  turn tcp_start (Some (5, OP_SEND, 0 :: 63 :: replicate 62 0)) 0 = Panic ∧
  ∃ t', turn tcp_start (Some (5, OP_CONNECT, 0 :: 80 :: replicate 62 0)) 0 = Done t'.
Proof.
  split.
  - destruct (tcp_invariant tcp_start (Some (5, OP_SEND, 0 :: 63 :: replicate 62 0)) 0 tcp_boot) as (_ & _ & [[E _] | [_ H]]);
      [split; [reflexivity | apply (bool_decide_unpack _); vm_compute; exact I] | exact E |].
    destruct (H 5 OP_SEND _ eq_refl). split; [left; reflexivity | reflexivity].
  - destruct (tcp_invariant tcp_start (Some (5, OP_CONNECT, 0 :: 80 :: replicate 62 0)) 0 tcp_boot)
      as (_ & _ & [[_ (? & ? & ? & E & [Ho _])] | [E _]]);
      [split; [reflexivity | apply (bool_decide_unpack _); vm_compute; exact I] | | exact E].
    injection E as <- <- <-. destruct Ho; discriminate.
Defined.

(** ** Packets *)

Lemma put_at (pre rest src : list Z) off :
  off = zlen pre → put (pre ++ rest) off src = pre ++ src ++ drop (length src) rest.
Proof.
  intros ->. unfold put, zlen. rewrite Nat2Z.id, take_app_length, drop_app_ge by lia.
  do 3 f_equal. lia.
Qed.

Lemma u8_byte b : 0 <= b < 256 → u8 b = b.
Proof. intros H. by apply wrap_small. Qed.

(** Writing one field after another into a packet of zeroes, and sending what was written. *)
Lemma write_u32_at (pre rest : list Z) off val :
  off = zlen pre → (4 <= length rest)%nat → write_u32 (pre ++ rest) off val = (pre ++ be_u32 val) ++ drop 4 rest.
Proof.
  intros Ho Hl. unfold write_u32. replace (off + 4 <=? zlen (pre ++ rest)) with true.
  - rewrite put_at by done. by rewrite app_assoc.
  - symmetry. apply Z.leb_le. subst off. unfold zlen. rewrite length_app. lia.
Qed.

Lemma data_packet_eq id (data : list Z) seq :
  0 <= id < 8 → zlen data <= 56 → data_packet id data seq = id :: zlen data :: data ++ be_u32 seq.
Proof.
  intros Hid Hl. pose proof (zlen_nonneg data). unfold data_packet. cbv zeta. rewrite !u8_byte by lia.
  change (put zero_pkt 0 [id; zlen data]) with ([id; zlen data] ++ replicate 62 0).
  rewrite (put_at [id; zlen data]) by done. rewrite app_assoc.
  rewrite write_u32_at; [| unfold zlen; rewrite length_app; cbn; lia |
    rewrite length_drop, length_replicate; unfold zlen in *; lia].
  rewrite take_app_length'; [by rewrite <-app_assoc |].
  unfold zlen in *. rewrite !length_app. cbn. lia.
Qed.

Lemma read_be_u32 (pre rest : list Z) off val :
  off = zlen pre → fits 32 val → read_u32 (pre ++ be_u32 val ++ rest) off = val.
Proof.
  intros -> Hv. unfold read_u32. replace (_ <=? _) with true
    by (symmetry; apply Z.leb_le; unfold zlen; rewrite !length_app; cbn; lia).
  unfold zlen. rewrite Nat2Z.id, drop_app_length. cbn [be_u32 app].
  rewrite !Z.shiftr_div_pow2, !Z.shiftl_mul_pow2 by lia. unfold fits in Hv. unfold u8, wrap.
  rewrite (lor_low (_ * 2 ^ 24) _ 24) by dlia. rewrite (lor_low (_ + _) (_ * 2 ^ 8) 16) by dlia.
  rewrite (lor_low (_ + _) _ 8) by dlia. dlia.
Qed.

Lemma conn_at_send t ep op data i : conn_at (send t ep op data) i = conn_at t i.
Proof. done. Qed.

Lemma conn_at_range t i c : conn_at t i = Some c → i < zlen (CONNS t).
Proof. unfold conn_at. destruct (_ <=? _) eqn:E; [done |]. bools. lia. Qed.

Lemma conn_at_set t i c : 0 <= i < zlen (CONNS t) → conn_at (set_conn t i c) i = Some c.
Proof.
  intros Hi. unfold conn_at, set_conn, zlen in *. cbn. rewrite length_insert.
  rewrite (proj2 (Z.leb_gt _ _)) by lia. apply list_lookup_insert_eq. lia.
Qed.

Lemma conn_at_other t i j c : 0 <= i → 0 <= j → i ≠ j → conn_at (set_conn t i c) j = conn_at t j.
Proof.
  intros Hi Hj Hn. unfold conn_at, set_conn, zlen. cbn. rewrite length_insert. destruct (_ <=? _); [done |].
  apply list_lookup_insert_ne. lia.
Qed.

(** A message that names connection [id] in its first byte, with a length and data. *)
Lemma data_message id (data rest : list Z) :
  length (id :: zlen data :: data ++ rest) = 64%nat →
  aslice (id :: zlen data :: data ++ rest) 2 (2 + zlen data) = Done data.
Proof.
  intros Hl. rewrite slice_message; [| done | apply zlen_nonneg]. cbn in Hl. rewrite length_app in Hl.
  rewrite (proj2 (Z.leb_le _ 62)) by (unfold zlen; lia). unfold zlen. rewrite Nat2Z.id.
  change (drop 2 _) with (data ++ rest). by rewrite take_app_length.
Qed.

Lemma take_put (dst data : list Z) :
  take (length data) (put dst 0 data) = data.
Proof. apply (take_app_length data). Qed.

Lemma send_step t id c user (data rest : list Z) now :
  conn_at t id = Some c → conn_ok c → state c = Established → 0 <= id < 8 → zlen data <= 56 →
  length (id :: zlen data :: data ++ rest) = 64%nat →
  ∃ c', handle t user OP_SEND (id :: zlen data :: data ++ rest) now =
        Done (send (set_conn t id c') (remote_ep c) TCP_DATA (id :: zlen data :: data ++ be_u32 (snd_seq c))) ∧
        state c' = Established ∧ snd_seq c' = u32 (snd_seq c + zlen data) ∧ remote_ep c' = remote_ep c ∧
        rcv_seq c' = rcv_seq c.
Proof.
  intros Hc Hok Hs Hid Hd Hl. unfold handle. cbn -[aslice handle_send zlen app]. rewrite data_message by done.
  cbn [mbind outcome_bind]. unfold handle_send. rewrite Hc, Hs. rewrite bool_decide_true by done. cbn [negb].
  replace (Z.min (zlen data) (Z.min (cwnd c) 56)) with (zlen data) by (destruct Hok as [_ _ [? _] _ _]; lia).
  cbv zeta. rewrite take_ge by (unfold zlen; lia). rewrite data_packet_eq by done.
  eexists. split; [reflexivity | done].
Qed.

Lemma data_step t id c sender (data rest : list Z) now :
  conn_at t id = Some c → conn_ok c → state c = Established → 0 <= id < 8 → zlen data <= 56 → fits 32 (rcv_seq c) →
  length ((id :: zlen data :: data ++ be_u32 (rcv_seq c)) ++ rest) = 64%nat →
  ∃ c', handle t sender TCP_DATA ((id :: zlen data :: data ++ be_u32 (rcv_seq c)) ++ rest) now =
        Done (send (set_conn t id c') (remote_ep c) TCP_ACK (id :: be_u32 (rcv_seq c'))) ∧
        state c' = Established ∧ rcv_seq c' = u32 (rcv_seq c + zlen data) ∧
        snd_seq c' = snd_seq c ∧ recv_len c' = zlen data ∧ take (Z.to_nat (recv_len c')) (recv_buf c') = data.
Proof.
  intros Hc Hok Hs Hid Hd Hf Hl. cbn [app] in *. rewrite <-app_assoc in *.
  unfold handle. cbn -[aslice handle_incoming_data zlen app read_u32 be_u32]. rewrite data_message by done.
  cbn [mbind outcome_bind].
  assert (read_u32 (id :: zlen data :: data ++ be_u32 (rcv_seq c) ++ rest) (2 + zlen data) = rcv_seq c) as ->
    by (apply (read_be_u32 (id :: zlen data :: data)); [unfold zlen; cbn; lia | done]).
  unfold handle_incoming_data. rewrite Hc, Hs. rewrite bool_decide_true, Z.eqb_refl by done. cbn [negb].
  rewrite (Z.min_l (zlen data) 64) by lia. cbv zeta. rewrite (take_ge data) by (unfold zlen; lia).
  eexists. split.
  - do 2 f_equal. cbn -[Z.shiftr zlen]. by rewrite u8_byte by lia.
  - do 4 (split; [done |]). etrans; [| apply (take_put (recv_buf c))].
    f_equal. apply Nat2Z.id.
Qed.

(** [a] may send on connection [id] and [b] expects what comes. *)
Record in_sync (a b : tcp) (id : Z) (ca cb : TcpConn) : Prop := {
  is_a : conn_at a id = Some ca ∧ state ca = Established;
  is_b : conn_at b id = Some cb ∧ state cb = Established;
  is_seq : snd_seq ca = rcv_seq cb ∧ fits 32 (rcv_seq cb);
}.

(** [t'] differs from [t] at most in connection [id]. *)
Definition others_same (t t' : tcp) (id : Z) : Prop := ∀ i, 0 <= i → i ≠ id → conn_at t' i = conn_at t i.

Lemma recv_step t id c user (rest : list Z) now :
  conn_at t id = Some c → 0 <= recv_len c →
  ∃ t', handle t user OP_RECV (id :: rest) now = Done t' ∧
        sent t' = sent t ++ [MkPacket user 4 (take (Z.to_nat (recv_len c)) (recv_buf c))].
Proof.
  intros Hc Hr. unfold handle. cbn -[handle_recv]. unfold handle_recv. rewrite Hc.
  eexists. split; [reflexivity |]. destruct (0 <? recv_len c) eqn:E; bools; [done |].
  by replace (recv_len c) with 0 by lia.
Qed.

(** C19. Data arrives unchanged.
    When two services have an established connection under the same number and the
    receiver expects the sender's sequence number, SEND with at most 56 bytes emits
    one packet.  Its delivery is acknowledged, RECV at the other side then returns
    exactly the bytes that were sent, the two connections agree on the next sequence
    number, and no other connection is touched at either side. *)
Theorem tcp_transfer (a b : tcp) (id : Z) (ca cb : TcpConn) (user user' sender now now' now'' : Z)
    (data rest rest' rest'' : list Z) :
  tcp_ok a → tcp_ok b → 0 <= id → in_sync a b id ca cb → zlen data <= 56 →
  length (id :: zlen data :: data ++ rest) = 64%nat →
  length ((id :: zlen data :: data ++ be_u32 (snd_seq ca)) ++ rest') = 64%nat →
  ∃ a' b' b'' ca' cb',
    handle a user OP_SEND (id :: zlen data :: data ++ rest) now = Done a' ∧
    sent a' = sent a ++ [MkPacket (remote_ep ca) TCP_DATA (id :: zlen data :: data ++ be_u32 (snd_seq ca))] ∧
    handle b sender TCP_DATA ((id :: zlen data :: data ++ be_u32 (snd_seq ca)) ++ rest') now' = Done b' ∧
    sent b' = sent b ++ [MkPacket (remote_ep cb) TCP_ACK (id :: be_u32 (rcv_seq cb'))] ∧
    handle b' user' OP_RECV (id :: rest'') now'' = Done b'' ∧
    sent b'' = sent b' ++ [MkPacket user' 4 data] ∧
    in_sync a' b' id ca' cb' ∧ others_same a a' id ∧ others_same b b' id.
Proof.
  intros Ha Hb Hid [[Eca Hsa] [Ecb Hsb] [Hseq Hf]] Hd Hl Hl'.
  pose proof (conn_at_range _ _ _ Eca) as Hia. pose proof (conn_at_range _ _ _ Ecb) as Hib.
  assert (zlen (CONNS a) = 8) as Hza by (unfold zlen; by rewrite (tk_len _ Ha)).
  destruct (send_step a id ca user data rest now) as (ca' & Ea & Hsa' & Hna & _);
    [done | exact (conn_at_ok _ _ _ Ha Eca) | done | lia | done | done |].
  rewrite Hseq in Hl'.
  destruct (data_step b id cb sender data rest' now') as (cb' & Eb & Hsb' & Hnb & _ & Hrl & Hdata);
    [done | exact (conn_at_ok _ _ _ Hb Ecb) | done | lia | done | done | done |].
  rewrite <-Hseq in Eb at 1.
  set (b' := send (set_conn b id cb') (remote_ep cb) TCP_ACK (id :: be_u32 (rcv_seq cb'))) in *.
  assert (conn_at b' id = Some cb') as Eb' by (apply conn_at_set; lia).
  destruct (recv_step b' id cb' user' rest'' now'' Eb') as (b'' & E'' & Hs''); [rewrite Hrl; apply zlen_nonneg |].
  rewrite Hdata in Hs''.
  eexists _, b', b'', ca', cb'. do 6 (split; [done |]). split.
  - split; [split; [apply conn_at_set; lia | done] | done |]. split; [congruence |]. rewrite Hnb. apply wrap_bound. lia.
  - split; intros i Hi Hn; by apply conn_at_other.
Qed.

Definition ex_conn (snd rcv : Z) : TcpConn := TcpConn_new <| state := Established |> <| snd_seq := snd |> <| rcv_seq := rcv |>.
Definition ex_end (snd rcv : Z) : tcp := set_conn tcp_start 0 (ex_conn snd rcv).

Lemma ex_end_ok snd rcv : tcp_ok (ex_end snd rcv).
Proof. apply set_conn_ok; [apply tcp_reach_ok, tcp_boot |]. split; cbn; lia. Qed.

Lemma tcp_transfer_witness :
  ∃ a' b' b'', handle (ex_end 1001 2001) 5 OP_SEND (0 :: 3 :: [72; 105; 33] ++ replicate 59 0) 0 = Done a' ∧
    handle (ex_end 2001 1001) 6 TCP_DATA ((0 :: 3 :: [72; 105; 33] ++ be_u32 1001) ++ replicate 55 0) 0 = Done b' ∧
    handle b' 7 OP_RECV (0 :: replicate 63 0) 0 = Done b'' ∧ sent b'' = sent b' ++ [MkPacket 7 4 [72; 105; 33]].
Proof.
  destruct (tcp_transfer (ex_end 1001 2001) (ex_end 2001 1001) 0 (ex_conn 1001 2001) (ex_conn 2001 1001)
              5 7 6 0 0 0 [72; 105; 33] (replicate 59 0) (replicate 55 0) (replicate 63 0))
    as (a' & b' & b'' & _ & _ & E1 & _ & E2 & _ & E3 & Hs & _).
  - apply ex_end_ok.
  - apply ex_end_ok.
  - lia.
  - split; [done | done |]. split; [done | unfold fits; cbn; lia].
  - vm_compute. discriminate.
  - reflexivity.
  - reflexivity.
  - exists a', b', b''. split; [exact E1 |]. split; [exact E2 |]. split; [exact E3 | exact Hs].
Defined.

(** ** The handshake *)

(** The connection that [alloc_conn] takes next. *)
Definition next_conn (t : tcp) : option Z := (λ p, Z.of_nat p.1) <$> list_find reusable (CONNS t).

Lemma alloc_next t i : next_conn t = Some i → alloc_conn t = Some (i, set_conn t i TcpConn_new) ∧ 0 <= i < zlen (CONNS t).
Proof.
  unfold next_conn, alloc_conn. destruct (list_find _ _) as [[k c] |] eqn:E; [| done]. intros [= <-]. split; [done |].
  apply list_find_Some in E as (E & _). apply lookup_lt_Some in E. cbn. unfold zlen. lia.
Qed.

Lemma set_set t i c c' : set_conn (set_conn t i c) i c' = set_conn t i c'.
Proof. unfold set_conn. cbn. by rewrite list_insert_insert_eq. Qed.

Definition port_of (p1 p0 : Z) : Z := Z.lor (Z.shiftl p1 8) p0.

Lemma port_bytes_of p1 p0 : 0 <= p1 < 256 → 0 <= p0 < 256 → port_bytes (port_of p1 p0) = [p1; p0].
Proof.
  intros H1 H0. unfold port_bytes, port_of, u8, wrap. rewrite Z.shiftr_div_pow2, Z.shiftl_mul_pow2 by lia.
  rewrite (lor_low _ _ 8) by dlia. do 2 f_equal; [| f_equal]; dlia.
Qed.

Lemma syn_packet_eq p1 p0 seq :
  0 <= p1 < 256 → 0 <= p0 < 256 → syn_packet (port_of p1 p0) seq = p1 :: p0 :: be_u32 seq.
Proof.
  intros H1 H0. unfold syn_packet. rewrite port_bytes_of by done.
  change (put zero_pkt 0 [p1; p0]) with ([p1; p0] ++ replicate 62 0).
  rewrite write_u32_at; [done | done | cbn; lia].
Qed.

Lemma connect_step t i user p1 p0 (rest : list Z) now :
  next_conn t = Some i → 0 <= p1 < 256 → 0 <= p0 < 256 →
  ∃ t' c, handle t user OP_CONNECT (p1 :: p0 :: rest) now = Done t' ∧
    sent t' = sent t ++ [MkPacket 3 TCP_SYN (p1 :: p0 :: be_u32 (1000 + i)); MkPacket user 2 (port_bytes i)] ∧
    CONNS t' = <[Z.to_nat i := c]> (CONNS t) ∧
    state c = SynSent ∧ snd_seq c = 1001 + i ∧ local_port c = port_of p1 p0.
Proof.
  intros Hn H1 H0. destruct (alloc_next t i Hn) as [Ha Hi]. unfold handle. cbn -[handle_connect Z.shiftl u32 Z.lor].
  unfold handle_connect. rewrite Ha. cbv zeta. rewrite set_set.
  change (Z.lor (Z.shiftl p1 8) p0) with (port_of p1 p0). rewrite syn_packet_eq by done.
  eexists _, _. split; [reflexivity |]. split; [exact (eq_sym (app_assoc (sent t) [_] [_])) |].
  split; [reflexivity |]. split; [done |]. split; [cbn; lia | done].
Qed.

Lemma syn_step t j sender p1 p0 seq (rest : list Z) now :
  next_conn t = Some j → zlen (CONNS t) = 8 → fits 32 seq →
  ∃ t' c, handle t sender TCP_SYN (p1 :: p0 :: be_u32 seq ++ rest) now = Done t' ∧
    sent t' = sent t ++ [MkPacket sender TCP_SYN_ACK (j :: be_u32 (2000 + j) ++ be_u32 (u32 (seq + 1)))] ∧
    CONNS t' = <[Z.to_nat j := c]> (CONNS t) ∧
    state c = SynReceived ∧ snd_seq c = 2001 + j ∧ rcv_seq c = u32 (seq + 1) ∧
    local_port c = port_of p1 p0 ∧ remote_ep c = sender.
Proof.
  intros Hn Hz Hf. destruct (alloc_next t j Hn) as [Ha Hj]. unfold handle.
  cbn -[handle_incoming_syn Z.shiftl Z.lor read_u32 be_u32 app].
  assert (read_u32 (p1 :: p0 :: be_u32 seq ++ rest) 2 = seq) as -> by (by apply (read_be_u32 [p1; p0])).
  unfold handle_incoming_syn. rewrite Ha. cbv zeta. rewrite set_set. cbn [rcv_seq]. rewrite u8_byte by lia.
  change (put zero_pkt 0 [j]) with ([j] ++ replicate 63 0). 
  rewrite write_u32_at, write_u32_at; try (done || (cbn; lia)).
  eexists _, _. split; [reflexivity |]. split; [reflexivity |]. split; [reflexivity |]. split; [done |].
  split; [cbn; lia | done].
Qed.

Lemma conn_at_conns t i c k :
  0 <= i < zlen k → CONNS t = <[Z.to_nat i := c]> k → conn_at t i = Some c.
Proof.
  intros Hi E. unfold conn_at. rewrite E. unfold zlen in *. rewrite length_insert, (proj2 (Z.leb_gt _ _)) by lia.
  apply list_lookup_insert_eq. lia.
Qed.

Lemma syn_ack_step t j sender seq (rest : list Z) now :
  fits 32 seq → handle t sender TCP_SYN_ACK (j :: be_u32 seq ++ rest) now = Done (handle_incoming_syn_ack t j sender seq).
Proof.
  intros Hf. unfold handle. cbn -[handle_incoming_syn_ack read_u32 be_u32 app].
  do 2 f_equal. by apply (read_be_u32 [j]).
Qed.

Lemma syn_ack_other t i j sender seq :
  0 <= i → 0 <= j → i ≠ j → conn_at (handle_incoming_syn_ack t j sender seq) i = conn_at t i.
Proof.
  intros Hi Hj Hn. unfold handle_incoming_syn_ack. destruct (conn_at t j); [| done]. destruct (negb _); [done |].
  by apply conn_at_other.
Qed.

Lemma syn_ack_same t i c sender seq :
  conn_at t i = Some c → state c = SynSent → 0 <= i < 8 →
  ∃ c', handle_incoming_syn_ack t i sender seq = send (set_conn t i c') sender TCP_ACK [i] ∧
    state c' = Established ∧ rcv_seq c' = u32 (seq + 1) ∧ snd_seq c' = snd_seq c ∧
    remote_ep c' = sender ∧ local_port c' = local_port c.
Proof.
  intros Hc Hs Hi. unfold handle_incoming_syn_ack. rewrite Hc, Hs, bool_decide_true by done. cbn [negb].
  rewrite u8_byte by lia. eexists. split; [reflexivity | done].
Qed.

Lemma ack_step t i c sender (rest : list Z) now :
  conn_at t i = Some c → state c = SynReceived →
  ∃ c', handle t sender TCP_ACK (i :: rest) now = Done (set_conn t i c') ∧
    state c' = Established ∧ rcv_seq c' = rcv_seq c ∧ snd_seq c' = snd_seq c ∧
    remote_ep c' = remote_ep c ∧ local_port c' = local_port c.
Proof.
  intros Hc Hs. unfold handle. cbn -[handle_incoming_ack]. unfold handle_incoming_ack.
  rewrite Hc, Hs, bool_decide_true by done. eexists. split; [reflexivity |].
  unfold cwnd_increase. by destruct (_ <? _).
Qed.

(** C20. A connection is established exactly when both sides number it alike.
    Let [i] and [j] be the first free connections of the two services.  CONNECT at
    the first one emits a SYN; its delivery is answered with a SYN-ACK that carries
    [j].  When [i = j] the delivery of the SYN-ACK and of the ACK it triggers leaves
    both sides established, on the same port, each with the other's endpoint, and
    ready to transfer in both directions.  When they differ connection [i] of the
    first service stays in SynSent. *)
Theorem handshake_exact (a b : tcp) (i j user ea eb p1 p0 now : Z) (r1 r2 r3 r4 : list Z) :
  tcp_ok a → tcp_ok b → next_conn a = Some i → next_conn b = Some j → 0 <= p1 < 256 → 0 <= p0 < 256 →
  ∃ a1 a2 b1 syn synack,
    handle a user OP_CONNECT (p1 :: p0 :: r1) now = Done a1 ∧
    sent a1 = sent a ++ [MkPacket 3 TCP_SYN syn; MkPacket user 2 (port_bytes i)] ∧
    handle b ea TCP_SYN (syn ++ r2) now = Done b1 ∧
    sent b1 = sent b ++ [MkPacket ea TCP_SYN_ACK synack] ∧
    handle a1 eb TCP_SYN_ACK (synack ++ r3) now = Done a2 ∧
    (i ≠ j → ∃ ca, conn_at a2 i = Some ca ∧ state ca = SynSent) ∧
    (i = j → ∃ b2 ca cb,
       sent a2 = sent a1 ++ [MkPacket eb TCP_ACK [i]] ∧
       handle b1 ea TCP_ACK ([i] ++ r4) now = Done b2 ∧
       in_sync a2 b2 i ca cb ∧ in_sync b2 a2 i cb ca ∧
       remote_ep ca = eb ∧ remote_ep cb = ea ∧
       local_port ca = port_of p1 p0 ∧ local_port cb = port_of p1 p0).
Proof.
  intros Ha Hb Hi Hj H1 H0.
  assert (zlen (CONNS a) = 8) as Hza by (unfold zlen; by rewrite (tk_len _ Ha)).
  assert (zlen (CONNS b) = 8) as Hzb by (unfold zlen; by rewrite (tk_len _ Hb)).
  destruct (alloc_next a i Hi) as [_ Hri], (alloc_next b j Hj) as [_ Hrj].
  destruct (connect_step a i user p1 p0 r1 now Hi H1 H0) as (a1 & ca & Ea1 & Hs1 & Hc1 & Hst & Hsn & Hp).
  destruct (syn_step b j ea p1 p0 (1000 + i) r2 now Hj Hzb) as (b1 & cb & Eb1 & Hsb & Hcb & Hstb & Hsnb & Hrb & Hpb & Hrem);
    [unfold fits; lia |].
  assert (conn_at a1 i = Some ca) as Eca by (apply (conn_at_conns _ _ _ (CONNS a)); [lia | done]).
  assert (conn_at b1 j = Some cb) as Ecb by (apply (conn_at_conns _ _ _ (CONNS b)); [lia | done]).
  eexists a1, _, b1, _, _. split; [exact Ea1 |]. split; [exact Hs1 |]. split; [exact Eb1 |]. split; [exact Hsb |].
  cbn [app]. rewrite <-app_assoc. split; [apply syn_ack_step; unfold fits; lia |].
  split; intros Hij.
  - exists ca. by rewrite syn_ack_other by (done || lia).
  - subst j. destruct (syn_ack_same a1 i ca eb (2000 + i) Eca Hst) as (ca' & -> & Ha1 & Ha2 & Ha3 & Ha4 & Ha5); [lia |].
    destruct (ack_step b1 i cb ea r4 now Ecb Hstb) as (cb' & Eb2 & Hb1 & Hb2 & Hb3 & Hb4 & Hb5).
    pose proof (conn_at_range _ _ _ Eca). pose proof (conn_at_range _ _ _ Ecb).
    assert (conn_at (send (set_conn a1 i ca') eb TCP_ACK [i]) i = Some ca') by (apply conn_at_set; lia).
    assert (conn_at (set_conn b1 i cb') i = Some cb') by (apply conn_at_set; lia).
    assert (∀ x, 0 <= x < 10000 → u32 x = x) as Hu by (intros; apply wrap_small; unfold fits; lia).
    rewrite Hu in Ha2, Hrb by lia.
    exists (set_conn b1 i cb'), ca', cb'. split; [done |]. split; [done |].
    split; [split; [done | done | unfold fits; lia] |]. split; [split; [done | done | unfold fits; lia] |].
    by rewrite Ha4, Hb4, Ha5, Hb5.
Qed.

Lemma handshake_exact_witness :
  (∃ a2 b2 ca cb, in_sync a2 b2 0 ca cb ∧ in_sync b2 a2 0 cb ca ∧ local_port ca = 80) ∧
  ∃ a2 ca, conn_at a2 1 = Some ca ∧ state ca = SynSent.
Proof.
  assert (tcp_ok tcp_start) as Hok by apply tcp_reach_ok, tcp_boot. split.
  - destruct (handshake_exact tcp_start tcp_start 0 0 5 6 7 0 80 0 [] [] [] []) as (? & a2 & ? & ? & ? & _ & _ & _ & _ & _ & _ & H);
      [exact Hok | exact Hok | reflexivity | reflexivity | lia | lia |].
    destruct (H eq_refl) as (b2 & ca & cb & _ & _ & Hab & Hba & _ & _ & Hp & _). exists a2, b2, ca, cb.
    split; [exact Hab |]. split; [exact Hba |]. exact Hp.
  - destruct (handshake_exact (ex_end 1001 2001) tcp_start 1 0 5 6 7 0 80 0 [] [] [] []) as (? & a2 & ? & ? & ? & _ & _ & _ & _ & _ & H & _);
      [apply ex_end_ok | exact Hok | reflexivity | reflexivity | lia | lia |].
    destruct (H ltac:(lia)) as (ca & Hc & Hs). exists a2, ca. split; [exact Hc | exact Hs].
Defined.

(** ** Packets sent again *)

Lemma retransmit_data t i c tick :
  conn_at t i = Some c → state c = Established → 0 < send_len c → retry_count c < 3 → 0 < retrans_timer c <= tick →
  sent (retransmit tick t i) = sent t ++ [MkPacket (remote_ep c) TCP_DATA (take (Z.to_nat (send_len c)) (send_buf c))].
Proof.
  intros Hc Hs Hl Hr Ht. unfold retransmit. rewrite Hc, Hs. cbn [negb].
  rewrite (proj2 (Z.ltb_lt _ _)), (proj2 (Z.leb_le _ _)), (proj2 (Z.ltb_lt 0 (send_len c))), (proj2 (Z.ltb_lt _ 3)) by lia.
  done.
Qed.

Lemma data_elsewhere t sender d0 d1 (ds : list Z) now :
  tcp_ok t → 8 <= d0 → 0 <= d1 → length (d0 :: d1 :: ds) = 64%nat →
  handle t sender TCP_DATA (d0 :: d1 :: ds) now = if d1 <=? 62 then Done t else Panic.
Proof.
  intros Hok Hd0 Hd1 Hl. unfold handle. cbn -[handle_incoming_data aslice read_u32 zlen].
  rewrite slice_message by done. destruct (d1 <=? 62); [| done]. cbn [mbind outcome_bind].
  unfold handle_incoming_data, conn_at. replace (zlen (CONNS t)) with 8 by (unfold zlen; by rewrite (tk_len _ Hok)).
  by rewrite (proj2 (Z.leb_le _ _)).
Qed.

(** A packet that is sent again is not the packet.
    When the timer of unacknowledged data runs out the service sends the data alone,
    without the connection number, the length and the sequence number.  The receiver
    reads the first two bytes of the data in their place: when the first one is 8 or
    more, as it is in text, the receiver ignores the packet if the second byte is at
    most 62 and panics otherwise.  So a lost packet is never replaced, and text ends
    the service at the other side. *)
Theorem retransmission_exact (t b : tcp) (i tick sender now d0 d1 : Z) (ds rest : list Z) (c : TcpConn) :
  conn_at t i = Some c → state c = Established → take (Z.to_nat (send_len c)) (send_buf c) = d0 :: d1 :: ds →
  retry_count c < 3 → 0 < retrans_timer c <= tick →
  tcp_ok b → 8 <= d0 → 0 <= d1 → length ((d0 :: d1 :: ds) ++ rest) = 64%nat →
  sent (retransmit tick t i) = sent t ++ [MkPacket (remote_ep c) TCP_DATA (d0 :: d1 :: ds)] ∧
  handle b sender TCP_DATA ((d0 :: d1 :: ds) ++ rest) now = if d1 <=? 62 then Done b else Panic.
Proof.
  intros Hc Hs Hd Hr Ht Hb Hd0 Hd1 Hl. split; [| by apply data_elsewhere].
  rewrite <-Hd. apply retransmit_data; [done | done | | done | done].
  destruct (decide (0 < send_len c)) as [| Hn]; [done |]. by replace (Z.to_nat (send_len c)) with 0%nat in Hd by lia.
Qed.

Definition ex_sent : tcp :=
  match handle (ex_end 1001 2001) 5 OP_SEND (0 :: 2 :: [72; 105] ++ replicate 60 0) 0 with
  | Done t => t
  | _ => tcp_start
  end.

Lemma retransmission_exact_witness :
  sent (retransmit 10 ex_sent 0) = sent ex_sent ++ [MkPacket 0 TCP_DATA [72; 105]] ∧
  handle (ex_end 2001 1001) 6 TCP_DATA ([72; 105] ++ replicate 62 0) 100 = Panic.
Proof.
  destruct (retransmission_exact ex_sent (ex_end 2001 1001) 0 10 6 100 72 105 [] (replicate 62 0)
    (default TcpConn_new (conn_at ex_sent 0))) as [E1 E2].
  - vm_compute. reflexivity.
  - vm_compute. reflexivity.
  - vm_compute. reflexivity.
  - vm_compute. reflexivity.
  - vm_compute. split; [reflexivity | discriminate].
  - apply ex_end_ok.
  - lia.
  - lia.
  - reflexivity.
  - replace (remote_ep (default TcpConn_new (conn_at ex_sent 0))) with 0 in E1 by (vm_compute; reflexivity).
    split; [exact E1 | exact E2].
Defined.

(** ** Connections that are never freed *)

(** A connection that no timer and no message but FIN-ACK frees. *)
Definition stuck (c : TcpConn) : Prop := state c = LastAck ∧ retry_count c < 3.

Definition no_fin_ack (m : option (Z * Z * list Z) * Z) : Prop :=
  match m.1 with Some (_, op, _) => op ≠ TCP_FIN_ACK | None => True end.

Fixpoint turns (t : tcp) (msgs : list (option (Z * Z * list Z) * Z)) : outcome tcp :=
  match msgs with
  | [] => Done t
  | (msg, now) :: msgs => t ← turn t msg now; turns t msgs
  end.

Lemma stuck_at t i c : Forall stuck (CONNS t) → conn_at t i = Some c → stuck c.
Proof. intros H. unfold conn_at. destruct (_ <=? _); [done |]. by apply Forall_lookup_1. Qed.

Lemma stuck_alloc t : Forall stuck (CONNS t) → next_conn t = None ∧ alloc_conn t = None.
Proof.
  intros H. unfold next_conn, alloc_conn. rewrite (proj2 (list_find_None _ _)); [done |].
  eapply Forall_impl; [exact H |]. intros c [Hs _] [E | E]; congruence.
Qed.

Lemma stuck_set t i c : Forall stuck (CONNS t) → stuck c → Forall stuck (CONNS (set_conn t i c)).
Proof. intros H Hc. by apply Forall_insert. Qed.

Lemma stuck_retransmit tick t i : Forall stuck (CONNS t) → retransmit tick t i = t.
Proof.
  intros H. unfold retransmit. destruct (conn_at t i) as [c |] eqn:E; [| done]. destruct (stuck_at _ _ _ H E) as [Hs Hr].
  destruct (negb _); [done |]. rewrite Hs. cbn [bool_decide andb]. rewrite !bool_decide_false by done. cbn [andb].
  by rewrite (proj2 (Z.leb_gt _ _)).
Qed.

Lemma stuck_check t now : Forall stuck (CONNS t) → check_retransmissions t now = t.
Proof.
  intros H. unfold check_retransmissions. induction (zseq 0 8) as [| i l IH]; [done |]. cbn [foldl].
  by rewrite stuck_retransmit.
Qed.

Lemma stuck_handle t sender op (buf : list Z) now t' :
  Forall stuck (CONNS t) → op ≠ TCP_FIN_ACK → handle t sender op buf now = Done t' → Forall stuck (CONNS t').
Proof.
  intros H Hop. destruct (stuck_alloc t H) as [_ Ha].
  assert (∀ i f, (∀ c, conn_at t i = Some c → stuck c → Forall stuck (CONNS (f c))) →
    Forall stuck (CONNS (match conn_at t i with None => t | Some c => f c end))) as Hone.
  { intros i f Hf. destruct (conn_at t i) as [c |] eqn:E; [| done]. apply Hf; [done | by eapply stuck_at]. }
  unfold handle, handle_connect, handle_incoming_syn, handle_send, handle_recv, handle_close, handle_incoming_syn_ack,
    handle_incoming_ack, handle_incoming_data, handle_incoming_fin.
  rewrite Ha. cbv zeta.
  repeat (destruct (op =? _) eqn:?; bools;
    [try (destruct (aslice _ _ _); [cbn [mbind outcome_bind] | done..]); intros [= <-]; try done;
     try (apply Hone; intros c Hc [Hs Hr]; rewrite ?Hs, ?bool_decide_false by done; try done) |]).
  - destruct (_ <? _); [| done]. apply stuck_set; [done | by split].
  - apply stuck_set; [done | by split].
  - by intros [= <-].
Qed.

Lemma stuck_turns msgs t t' :
  Forall stuck (CONNS t) → Forall no_fin_ack msgs → turns t msgs = Done t' → Forall stuck (CONNS t').
Proof.
  revert t. induction msgs as [| [msg now] msgs IH]; intros t H Hm; cbn [turns]; [by intros [= <-] |].
  inversion_clear Hm as [| ? ? Hmsg Hrest]. unfold turn. intros E.
  assert (∃ t1, (match msg with Some (sender, op, buf) => handle t sender op buf now | None => Done t end) = Done t1 ∧
    Forall stuck (CONNS t1)) as (t1 & Et & H1).
  { destruct msg as [[[sender op] buf] |]; [| by exists t]. destruct (handle _ _ _ _ _) as [t1 | | |] eqn:Eh; try done.
    exists t1. split; [done |]. exact (stuck_handle _ _ _ _ _ _ H Hmsg Eh). }
  rewrite Et in E. cbn [mbind outcome_bind] in E.
  destruct (_ =? 0) in E; [rewrite stuck_check in E by done |]; by eapply IH in E.
Qed.

(** FIN makes connections useless for ever.
    FIN puts its connection into LastAck whatever its state was.  Once every
    connection got one and has fewer than three retries, no message but FIN-ACK and no
    timer frees any of them: after any sequence of turns without one there is no free
    connection, every CONNECT is answered with 0xFFFF and every SYN is ignored. *)
Theorem fins_exhaust (t t' : tcp) (msgs : list (option (Z * Z * list Z) * Z)) :
  Forall stuck (CONNS t) → Forall no_fin_ack msgs → turns t msgs = Done t' →
  next_conn t' = None ∧
  (∀ user buf now, handle t' user OP_CONNECT buf now = Done (send t' user 2 [255; 255])) ∧
  (∀ sender buf now, handle t' sender TCP_SYN buf now = Done t').
Proof.
  intros H Hm E. destruct (stuck_alloc t') as [Hn Ha]; [by eapply stuck_turns |]. split; [done |].
  split; intros; unfold handle; cbn -[handle_connect handle_incoming_syn Z.shiftl Z.lor u8 u32 read_u32 byte];
    unfold handle_connect, handle_incoming_syn; by rewrite Ha.
Qed.

Definition ex_fins : list (option (Z * Z * list Z) * Z) := (λ i, (Some (9, TCP_FIN, [i; 0]), 0)) <$> zseq 0 8.

Definition ex_full : tcp := match turns tcp_start ex_fins with Done t => t | _ => tcp_start end.

Lemma fins_exhaust_witness :
  turns tcp_start ex_fins = Done ex_full ∧
  ∀ user buf now, handle ex_full user OP_CONNECT buf now = Done (send ex_full user 2 [255; 255]).
Proof.
  split; [vm_compute; reflexivity |].
  refine (proj1 (proj2 (fins_exhaust ex_full ex_full [] _ _ eq_refl))); [| constructor].
  vm_compute. repeat constructor.
Defined.

End Tcp.
