(* ===== verification/Bitmanip.v ===== *)
(** * Bit manipulation

    kernel/src/mem/bitmanip.rs.  Every basic operation exists twice: for RISC-V as one
    instruction of the B extension, and in portable Rust for other targets.  The names
    of the source are the RISC-V versions, [_portable] marks the others.  The
    instructions ([_insn]) are given bit by bit, as the manual of the extension gives
    them; the methods of [u64] that the portable versions use are defined on the
    binary representation.  [grevi] is the draft instruction that the source names.

    [portable_agrees]: the two versions agree for every operation but [clz].
    [clz_portable_wrong]: there they differ on every word but zero.
    [bit_helpers_correct]: the helpers for bitmaps, logarithms, alignment and buddy
    orders compute what their comments say.  [sigma_exact]: the rotations for SHA-256
    rotate 64 bits instead of 32, and are right only for multiples of a power of two. *)
From S2P Require Import Prelude Words.
Open Scope list_scope.

Module Bitmanip.

(** ** The instructions *)

Definition bit (x i : Z) : Z := Z.b2z (Z.testbit x i).

(** Zero bits of [x] from bit [n - 1] down to the first one. *)
Fixpoint scan_down (x : Z) (n : nat) : Z :=
  match n with
  | O => 0
  | S k => if Z.testbit x (Z.of_nat k) then 0 else 1 + scan_down x k
  end.

(** Zero bits of [x] from bit [i] up to the first one, at most [n]. *)
Fixpoint scan_up (x i : Z) (n : nat) : Z :=
  match n with
  | O => 0
  | S k => if Z.testbit x i then 0 else 1 + scan_up x (i + 1) k
  end.

Fixpoint count_up (x i : Z) (n : nat) : Z :=
  match n with
  | O => 0
  | S k => bit x i + count_up x (i + 1) k
  end.

Definition clz_insn (x : Z) : Z := scan_down x 64.
Definition ctz_insn (x : Z) : Z := scan_up x 0 64.
Definition cpop_insn (x : Z) : Z := count_up x 0 64.

Definition ror_insn (x s : Z) : Z :=
  let sh := Z.land s 63 in Z.lor (Z.shiftr x sh) (u64 (Z.shiftl x (Z.land (64 - sh) 63))).
Definition rol_insn (x s : Z) : Z :=
  let sh := Z.land s 63 in Z.lor (u64 (Z.shiftl x sh)) (Z.shiftr x (Z.land (64 - sh) 63)).

(** Byte [i] of the result is byte [7 - i] of [x]. *)
Definition rev8_insn (x : Z) : Z :=
  foldr Z.lor 0 ((λ i, Z.shiftl (u8 (Z.shiftr x (8 * (7 - i)))) (8 * i)) <$> zseq 0 8).

(** One stage of [grevi]: neighbouring fields of [k] bits change places. *)
Definition grev_stage (x k m : Z) : Z :=
  Z.lor (Z.shiftl (Z.land x m) k) (Z.shiftr (Z.land x (Z.shiftl m k)) k).
Definition grevi_insn (x shamt : Z) : Z :=
  let x := if Z.testbit shamt 0 then grev_stage x 1 0x5555555555555555 else x in
  let x := if Z.testbit shamt 1 then grev_stage x 2 0x3333333333333333 else x in
  let x := if Z.testbit shamt 2 then grev_stage x 4 0x0F0F0F0F0F0F0F0F else x in
  let x := if Z.testbit shamt 3 then grev_stage x 8 0x00FF00FF00FF00FF else x in
  let x := if Z.testbit shamt 4 then grev_stage x 16 0x0000FFFF0000FFFF else x in
  if Z.testbit shamt 5 then grev_stage x 32 0x00000000FFFFFFFF else x.

Definition index_insn (i : Z) : Z := Z.shiftl 1 (Z.land i 63).
Definition bset_insn (x i : Z) : Z := Z.lor x (index_insn i).
Definition bclr_insn (x i : Z) : Z := Z.ldiff x (index_insn i).
Definition bext_insn (x i : Z) : Z := Z.land (Z.shiftr x (Z.land i 63)) 1.
Definition binv_insn (x i : Z) : Z := Z.lxor x (index_insn i).

(** ** Methods of [u64] *)

Definition leading_zeros (x : Z) : Z := if x =? 0 then 64 else 63 - Z.log2 x.

Fixpoint low_zeros (p : positive) : Z := match p with xO q => 1 + low_zeros q | _ => 0 end.
Definition trailing_zeros (x : Z) : Z := match x with Zpos p => low_zeros p | _ => 64 end.

Fixpoint ones (p : positive) : Z := match p with xH => 1 | xO q => ones q | xI q => 1 + ones q end.
Definition count_ones (x : Z) : Z := match x with Zpos p => ones p | _ => 0 end.

Definition swap_bytes (x : Z) : Z := of_le_bytes (reverse (le_bytes 8 x)).

(** [1u64 << bit]: in a release build the amount is taken modulo 64. *)
Definition shl1 (bit : Z) : Z := u64 (Z.shiftl 1 (bit mod 64)).

(** ** The operations, for RISC-V *)

Definition clz (x : Z) : Z := if x =? 0 then 64 else clz_insn x.
Definition ctz (x : Z) : Z := if x =? 0 then 64 else ctz_insn x.
Definition pcnt (x : Z) : Z := cpop_insn x.

Definition ror (x shift : Z) : Z := let s := Z.land shift 63 in if s =? 0 then x else ror_insn x s.
Definition rol (x shift : Z) : Z := let s := Z.land shift 63 in if s =? 0 then x else rol_insn x s.

Definition brev (x : Z) : Z := rev8_insn x.
Definition bitrev (x : Z) : Z := grevi_insn x 63.
Definition bset (x bit : Z) : Z := bset_insn x bit.
Definition bclr (x bit : Z) : Z := bclr_insn x bit.
Definition bext (x bit : Z) : Z := bext_insn x bit.
Definition binv (x bit : Z) : Z := binv_insn x bit.

(** ** The operations, for other targets *)

Definition clz_portable (x : Z) : Z := if x =? 0 then 64 else 63 - leading_zeros x.
Definition ctz_portable (x : Z) : Z := if x =? 0 then 64 else trailing_zeros x.
Definition pcnt_portable (x : Z) : Z := count_ones x.
Definition ror_portable (x shift : Z) : Z :=
  let s := Z.land shift 63 in
  if s =? 0 then x else Z.lor (Z.shiftr x s) (u64 (Z.shiftl x (64 - s))).
Definition rol_portable (x shift : Z) : Z :=
  let s := Z.land shift 63 in
  if s =? 0 then x else Z.lor (u64 (Z.shiftl x s)) (Z.shiftr x (64 - s)).
Definition brev_portable (x : Z) : Z := swap_bytes x.

Fixpoint bitrev_loop (n : nat) (result val : Z) : Z :=
  match n with
  | O => result
  | S n => bitrev_loop n (Z.lor (u64 (Z.shiftl result 1)) (Z.land val 1)) (Z.shiftr val 1)
  end.
Definition bitrev_portable (x : Z) : Z := bitrev_loop 64 0 x.

Definition bset_portable (x bit : Z) : Z := Z.lor x (shl1 bit).
Definition bclr_portable (x bit : Z) : Z := Z.land x (2 ^ 64 - 1 - shl1 bit).
Definition bext_portable (x bit : Z) : Z := Z.land (Z.shiftr x (bit mod 64)) 1.
Definition binv_portable (x bit : Z) : Z := Z.lxor x (shl1 bit).

(** ** Helpers *)

Definition brev32 (x : Z) : Z := u32 (Z.shiftr (brev x) 32).

Definition fast_bitmap_first_set (bits : Z) : Z := ctz bits.
Definition fast_bitmap_last_set (bits : Z) : Z := if bits =? 0 then 64 else 63 - clz bits.
Definition fast_bitmap_popcount (bits : Z) : Z := pcnt bits.
Definition fast_div_ceil (a b : Z) : Z := if b =? 0 then 0 else u64 (a + b - 1) / b.
Definition fast_log2 (x : Z) : Z := if x =? 0 then 0 else 63 - clz x.
Definition fast_is_power_of_2 (x : Z) : bool := negb (x =? 0) && (pcnt x =? 1).
Definition fast_align_up (x align : Z) : Z := Z.land (u64 (x + align - 1)) (2 ^ 64 - 1 - u64 (align - 1)).
Definition fast_align_down (x align : Z) : Z := Z.land x (2 ^ 64 - 1 - u64 (align - 1)).

Definition sha256_big_sigma0 (x : Z) : Z := u32 (Z.lxor (Z.lxor (ror x 2) (ror x 13)) (ror x 22)).
Definition sha256_big_sigma1 (x : Z) : Z := u32 (Z.lxor (Z.lxor (ror x 6) (ror x 11)) (ror x 25)).
Definition sha256_small_sigma0 (x : Z) : Z :=
  let r7 := u32 (ror x 7) in
  let r18 := u32 (ror x 18) in
  Z.lxor (Z.lxor r7 r18) (Z.shiftr x 3).
Definition sha256_small_sigma1 (x : Z) : Z := u32 (Z.lxor (Z.lxor (ror x 17) (ror x 19)) (Z.shiftr x 10)).

Definition sched_highest_ready (ready_bitmap : Z) : Z := fast_bitmap_last_set ready_bitmap.
Definition sched_ready_count (ready_bitmap : Z) : Z := fast_bitmap_popcount ready_bitmap.
Definition buddy_order_for_count (count : Z) : Z := if count <=? 1 then 0 else fast_log2 (count - 1) + 1.
Definition buddy_free_pages_from_bitmap (bitmap : Z) : Z := fast_bitmap_popcount bitmap.

(** ** Counting *)

Lemma scan_down_log2 x n : fits (Z.of_nat n) x → scan_down x n = if x =? 0 then Z.of_nat n else Z.of_nat n - 1 - Z.log2 x.
Proof.
  induction n as [| k IH]; intros Hx.
  - by replace x with 0 by (unfold fits in Hx; lia).
  - cbn [scan_down]. unfold fits in *. rewrite Nat2Z.inj_succ, Z.pow_succ_r in Hx by lia.
    destruct (Z.testbit x (Z.of_nat k)) eqn:E.
    + assert (2 ^ Z.of_nat k <= x).
      { apply Z.testbit_true in E; [| lia]. destruct (Z.lt_ge_cases x (2 ^ Z.of_nat k)); [| done].
        rewrite Z.div_small in E; [done | lia]. }
      replace (x =? 0) with false by (symmetry; apply Z.eqb_neq; lia).
      rewrite (Z.log2_unique x (Z.of_nat k)); [lia | lia |]. rewrite Z.pow_succ_r; lia.
    + assert (x < 2 ^ Z.of_nat k).
      { apply Z.testbit_false in E; [| lia]. destruct (Z.lt_ge_cases x (2 ^ Z.of_nat k)); [done |].
        rewrite <-(Z.div_unique x (2 ^ Z.of_nat k) 1 (x - 2 ^ Z.of_nat k)) in E; [done | lia | lia]. }
      rewrite IH by lia. destruct (x =? 0); lia.
Qed.

(** Bits from [i] on are the bits of [x] without its low [i] bits. *)
Lemma testbit_div2 x i p :
  0 <= i → Z.shiftr x i = Z.pos p →
  Z.testbit x i = match p with xO _ => false | _ => true end ∧
  Z.shiftr x (i + 1) = match p with xH => 0 | xO q | xI q => Z.pos q end.
Proof.
  intros Hi E. split.
  - replace (Z.testbit x i) with (Z.testbit (Z.shiftr x i) 0) by (rewrite Z.shiftr_spec; [f_equal; lia | lia]).
    rewrite E. by destruct p.
  - rewrite <-Z.shiftr_shiftr, E by lia. by destruct p.
Qed.

Lemma scan_up_low x i n p :
  0 <= i → Z.shiftr x i = Z.pos p → Z.pos p < 2 ^ Z.of_nat n → scan_up x i n = low_zeros p.
Proof.
  revert i p. induction n as [| n IH]; intros i p Hi E Hp; [cbn in Hp; lia |].
  destruct (testbit_div2 x i p Hi E) as [Hb Hs]. cbn [scan_up]. rewrite Hb.
  rewrite Nat2Z.inj_succ, Z.pow_succ_r in Hp by lia.
  destruct p as [q | q |]; cbn [low_zeros]; [done | | done]. rewrite (IH _ q); [done | lia | done | lia].
Qed.

Lemma count_up_zero x i n : 0 <= i → Z.shiftr x i = 0 → count_up x i n = 0.
Proof.
  revert i. induction n as [| n IH]; intros i Hi E; [done |]. cbn [count_up]. unfold bit.
  replace (Z.testbit x i) with (Z.testbit (Z.shiftr x i) 0) by (rewrite Z.shiftr_spec; [f_equal; lia | lia]).
  rewrite E, IH; [done | lia |]. by rewrite <-Z.shiftr_shiftr, E by lia.
Qed.

Lemma count_up_ones x i n p :
  0 <= i → Z.shiftr x i = Z.pos p → Z.pos p < 2 ^ Z.of_nat n → count_up x i n = ones p.
Proof.
  revert i p. induction n as [| n IH]; intros i p Hi E Hp; [cbn in Hp; lia |].
  destruct (testbit_div2 x i p Hi E) as [Hb Hs]. cbn [count_up]. unfold bit. rewrite Hb.
  rewrite Nat2Z.inj_succ, Z.pow_succ_r in Hp by lia.
  destruct p as [q | q |]; cbn [ones].
  - rewrite (IH _ q); [done | lia | done | lia].
  - rewrite (IH _ q); [done | lia | done | lia].
  - rewrite count_up_zero; [done | lia | done].
Qed.

Lemma clz_eq x : fits 64 x → clz x = leading_zeros x.
Proof.
  intros Hx. unfold clz, leading_zeros, clz_insn. destruct (x =? 0) eqn:E; [done |].
  rewrite scan_down_log2 by done. rewrite E. lia.
Qed.

Lemma ctz_eq x : fits 64 x → ctz x = ctz_portable x.
Proof.
  intros Hx. unfold ctz, ctz_portable, ctz_insn, trailing_zeros. destruct x as [| p | p]; [done | | unfold fits in Hx; lia].
  cbn [Z.eqb]. apply scan_up_low; [lia | apply Z.shiftr_0_r | apply Hx].
Qed.

Lemma pcnt_eq x : fits 64 x → pcnt x = pcnt_portable x.
Proof.
  intros Hx. unfold pcnt, pcnt_portable, cpop_insn, count_ones. destruct x as [| p | p]; [done | | unfold fits in Hx; lia].
  apply count_up_ones; [lia | apply Z.shiftr_0_r | apply Hx].
Qed.

(** ** Reversal *)

Lemma bitrev_loop_spec n r v j :
  fits (64 - Z.of_nat n) r → (n <= 64)%nat → 0 <= j →
  Z.testbit (bitrev_loop n r v) j =
  if j <? Z.of_nat n then Z.testbit v (Z.of_nat n - 1 - j) else Z.testbit r (j - Z.of_nat n).
Proof.
  revert r v. induction n as [| n IH]; intros r v Hr Hn Hj; cbn [bitrev_loop].
  - rewrite (proj2 (Z.ltb_ge _ _)) by lia. f_equal. lia.
  - assert (fits (64 - Z.of_nat n) (r * 2)) as Hr2.
    { unfold fits in *. replace (64 - Z.of_nat n) with (Z.succ (64 - Z.of_nat (S n))) by lia. rewrite Z.pow_succ_r; lia. }
    assert (u64 (Z.shiftl r 1) = r * 2) as ->.
    { rewrite Z.shiftl_mul_pow2 by lia. apply wrap_small. unfold fits in *. change (2 ^ 1) with 2.
      pose proof (Z.pow_le_mono_r 2 (64 - Z.of_nat n) 64 ltac:(lia) ltac:(lia)). lia. }
    assert (fits 1 (Z.land v 1)) as Hv by (change 1 with (Z.ones 1) at 2; rewrite Z.land_ones by lia; apply wrap_bound; lia).
    assert (Z.lor (r * 2) (Z.land v 1) = r * 2 + Z.land v 1) as Ho
      by (apply (lor_low _ _ 1); [lia | dlia | exact Hv]).
    rewrite IH; [| rewrite Ho | lia | done].
    2: { unfold fits in *. pose proof (Z.pow_pos_nonneg 2 (64 - Z.of_nat (S n)) ltac:(lia) ltac:(lia)).
         replace (64 - Z.of_nat n) with (Z.succ (64 - Z.of_nat (S n))) in * by lia. rewrite Z.pow_succ_r in * by lia. lia. }
    destruct (j <? Z.of_nat n) eqn:E1, (j <? Z.of_nat (S n)) eqn:E2; bools; try lia.
    + rewrite Z.shiftr_spec by lia. f_equal. lia.
    + replace (j - Z.of_nat n) with 0 by lia. rewrite Z.lor_spec, Z.land_spec.
      replace (Z.testbit (r * 2) 0) with false by (rewrite Z.mul_comm; symmetry; apply Z.testbit_even_0).
      change (Z.testbit 1 0) with true. rewrite andb_true_r, orb_false_l. f_equal. lia.
    + rewrite Z.lor_spec. rewrite (fits_testbit 1 (Z.land v 1)), orb_false_r by (done || lia).
      replace (j - Z.of_nat n) with (Z.succ (j - Z.of_nat (S n))) by lia.
      rewrite Z.mul_comm, Z.testbit_even_succ by lia. done.
Qed.

Definition mask_ok (k m : Z) : bool :=
  (m <? 2 ^ (64 - k)) && (0 <=? m) &&
  forallb (λ j, if Z.testbit m j then negb (Z.testbit m (j - k)) && (Z.lxor j k =? j + k)
                else Z.testbit m (j - k) && (Z.lxor j k =? j - k)) (zseq 0 64).

Lemma grev_stage_spec x k m j :
  mask_ok k m = true → 0 < k <= 64 → 0 <= j < 64 → Z.testbit (grev_stage x k m) j = Z.testbit x (Z.lxor j k).
Proof.
  intros Hm Hk Hj. unfold mask_ok in Hm. bools. unfold grev_stage.
  rewrite Z.lor_spec, Z.shiftl_spec, Z.shiftr_spec, !Z.land_spec, Z.shiftl_spec by lia.
  replace (j + k - k) with j by lia.
  match goal with H : forallb _ _ = true |- _ => rewrite forallb_forall in H; specialize (H j) end.
  rewrite <-list_elem_of_In, elem_of_zseq in *.
  destruct (Z.testbit m j) eqn:E, (Z.testbit m (j - k)), (Z.lxor j k =? j + k) eqn:E1, (Z.lxor j k =? j - k) eqn:E2;
    try (exfalso; naive_solver lia); bools; try lia; (rewrite E1 || rewrite E2);
    by rewrite ?andb_false_r, ?andb_true_r, ?orb_false_r.
Qed.

Lemma grev_stage_fits x k m : mask_ok k m = true → 0 < k <= 64 → fits 64 x → fits 64 (grev_stage x k m).
Proof.
  intros Hm Hk Hx. unfold mask_ok in Hm. bools. apply bits_fits; [lia |]. intros n Hn. unfold grev_stage.
  rewrite Z.lor_spec, Z.shiftl_spec, Z.shiftr_spec, !Z.land_spec by lia.
  rewrite (fits_testbit 64 x (n + k)), (fits_testbit (64 - k) m (n - k)), !andb_false_r by (done || lia). done.
Qed.

Lemma bitrev_spec x j : fits 64 x → 0 <= j < 64 → Z.testbit (bitrev x) j = Z.testbit x (63 - j).
Proof.
  intros Hx Hj. change (bitrev x) with (grev_stage (grev_stage (grev_stage (grev_stage (grev_stage (grev_stage x
    1 0x5555555555555555) 2 0x3333333333333333) 4 0x0F0F0F0F0F0F0F0F) 8 0x00FF00FF00FF00FF) 16 0x0000FFFF0000FFFF)
    32 0x00000000FFFFFFFF).
  assert (∀ a b, fits 6 a → fits 6 b → 0 <= Z.lxor a b < 64) as Hl by (intros a b Ha Hb; by apply (lxor_fits 6)).
  repeat (rewrite grev_stage_spec; [| reflexivity | lia | repeat (apply Hl || (unfold fits; lia))]).
  f_equal. revert j Hj. assert (forallb (λ j, Z.lxor (Z.lxor (Z.lxor (Z.lxor (Z.lxor (Z.lxor j 32) 16) 8) 4) 2) 1 =? 63 - j)
    (zseq 0 64) = true) as H by reflexivity.
  intros j Hj. rewrite forallb_forall in H. apply Z.eqb_eq, H. by rewrite <-list_elem_of_In, elem_of_zseq.
Qed.

Lemma bitrev_eq x : fits 64 x → bitrev x = bitrev_portable x.
Proof.
  intros Hx. apply Z.bits_inj'. intros j Hj. unfold bitrev_portable.
  rewrite bitrev_loop_spec by (done || (unfold fits; lia) || lia). destruct (j <? Z.of_nat 64) eqn:E; bools.
  - rewrite bitrev_spec by (done || lia). f_equal.
  - rewrite Z.testbit_0_l. apply (fits_testbit 64); [| lia]. unfold bitrev, grevi_insn. cbn [Z.testbit].
    by repeat (apply grev_stage_fits; [reflexivity | lia |]).
Qed.

Lemma lor_byte b r i :
  is_byte b → 0 <= i → 0 <= r → Z.lor (Z.shiftl b (8 * i)) (r * 2 ^ (8 * (i + 1))) = (b + 256 * r) * 2 ^ (8 * i).
Proof.
  intros Hb Hi Hr. replace (8 * (i + 1)) with (8 + 8 * i) by lia. rewrite Z.pow_add_r, Z.mul_assoc by lia.
  rewrite <-(Z.shiftl_mul_pow2 (r * 2 ^ 8)), <-Z.shiftl_lor, Z.lor_comm by lia.
  rewrite (lor_low _ _ 8), Z.shiftl_mul_pow2; [f_equal; lia | lia | lia | apply Z_mod_mult | exact Hb].
Qed.

Lemma lor_bytes (f : Z → Z) n i :
  (∀ j, is_byte (f j)) → 0 <= i →
  foldr Z.lor 0 ((λ j, Z.shiftl (f j) (8 * j)) <$> zseq i (Z.of_nat n)) = of_le_bytes (f <$> zseq i (Z.of_nat n)) * 2 ^ (8 * i).
Proof.
  intros Hf. revert i. induction n as [| n IH]; intros i Hi; [by rewrite zseq_nil |].
  rewrite zseq_cons by lia. replace (Z.of_nat (S n) - 1) with (Z.of_nat n) by lia. rewrite !fmap_cons. cbn [foldr of_le_bytes].
  rewrite IH by lia. apply lor_byte; [apply Hf | done |].
  apply of_le_bytes_bound, Forall_fmap, Forall_true. intros j. apply Hf.
Qed.

Lemma brev_eq x : brev x = brev_portable x.
Proof.
  unfold brev, brev_portable, rev8_insn, swap_bytes.
  rewrite (lor_bytes (λ i, u8 (Z.shiftr x (8 * (7 - i)))) 8) by (lia || (intros; by apply wrap_bound)).
  rewrite Z.mul_1_r. f_equal. change (zseq 0 (Z.of_nat 8)) with [0; 1; 2; 3; 4; 5; 6; 7].
  unfold reverse. cbn [fmap list_fmap le_bytes rev_append]. rewrite !Z.shiftr_div_pow2, !Z.div_div by lia.
  rewrite Z.div_1_r. reflexivity.
Qed.

Lemma land_63 s : Z.land s 63 = s mod 64.
Proof. change 63 with (Z.ones 6). by apply Z.land_ones. Qed.

Lemma shl1_eq b : shl1 b = index_insn b.
Proof.
  unfold shl1, index_insn. rewrite land_63. apply wrap_small. rewrite Z.shiftl_1_l. unfold fits.
  pose proof (Z.mod_pos_bound b 64 ltac:(lia)). split; [apply Z.pow_nonneg; lia | apply Z.pow_lt_mono_r; lia].
Qed.

(** [x & !m]. *)
Lemma land_not x m : fits 64 x → fits 64 m → Z.land x (2 ^ 64 - 1 - m) = Z.ldiff x m.
Proof.
  intros Hx Hm. unfold fits in Hm. replace (2 ^ 64 - 1 - m) with (Z.lnot m mod 2 ^ 64)
    by (unfold Z.lnot; rewrite <-(Z_mod_plus_full _ 1), Z.mod_small; lia).
  apply Z.bits_inj'. intros n Hn. rewrite Z.land_spec, Z.ldiff_spec. destruct (Z.lt_ge_cases n 64).
  - by rewrite Z.mod_pow2_bits_low, Z.lnot_spec by lia.
  - by rewrite (fits_testbit 64 x n).
Qed.

(** C22. The two versions of the bit operations agree.
    On every word, and for every amount and bit number, the instruction and the
    portable code give the same trailing zeros, number of ones, rotations, reversal of
    bytes and of bits, and the same word with a bit set, cleared, extracted or
    inverted. *)
Theorem portable_agrees (x s : Z) :
  fits 64 x →
  ctz x = ctz_portable x ∧ pcnt x = pcnt_portable x ∧
  ror x s = ror_portable x s ∧ rol x s = rol_portable x s ∧
  brev x = brev_portable x ∧ bitrev x = bitrev_portable x ∧
  bset x s = bset_portable x s ∧ bclr x s = bclr_portable x s ∧
  bext x s = bext_portable x s ∧ binv x s = binv_portable x s.
Proof.
  intros Hx. split; [by apply ctz_eq |]. split; [by apply pcnt_eq |].
  pose proof (Z.mod_pos_bound s 64 ltac:(lia)) as Hs.
  split; [| split].
  - unfold ror, ror_portable, ror_insn. rewrite !land_63. destruct (_ =? 0) eqn:E; [done |]. bools.
    by rewrite (Z.mod_small (s mod 64)), (Z.mod_small (64 - _)) by lia.
  - unfold rol, rol_portable, rol_insn. rewrite !land_63. destruct (_ =? 0) eqn:E; [done |]. bools.
    by rewrite (Z.mod_small (s mod 64)), (Z.mod_small (64 - _)) by lia.
  - split; [apply brev_eq |]. split; [by apply bitrev_eq |].
    unfold bset_portable, bclr_portable, bext_portable, binv_portable. rewrite shl1_eq, land_not; [| done |].
    + unfold bext, bext_insn. by rewrite land_63.
    + rewrite <-shl1_eq. by apply wrap_bound.
Qed.

Lemma portable_agrees_witness : bitrev 0x8000000000000001 = bitrev_portable 0x8000000000000001 ∧ ctz 0x100 = ctz_portable 0x100.
Proof.
  split.
  - refine (proj1 (proj2 (proj2 (proj2 (proj2 (proj2 (portable_agrees 0x8000000000000001 0 _))))))). unfold fits. lia.
  - refine (proj1 (portable_agrees 0x100 0 _)). unfold fits. lia.
Defined.

Lemma leading_zeros_range x : fits 64 x → x ≠ 0 → 0 <= leading_zeros x < 64.
Proof.
  intros Hx Hn. unfold leading_zeros. rewrite (proj2 (Z.eqb_neq x 0)) by done. unfold fits in Hx.
  pose proof (Z.log2_nonneg x). assert (Z.log2 x < 64) by (apply Z.log2_lt_pow2; lia). lia.
Qed.

(** The portable [clz] is wrong.
    For every word but zero it returns 63 minus the number of leading zeros, which is
    never that number; the instruction returns the number. *)
Theorem clz_portable_wrong (x : Z) :
  fits 64 x → x ≠ 0 → clz x = leading_zeros x ∧ clz_portable x = 63 - leading_zeros x ∧ clz_portable x ≠ clz x.
Proof.
  intros Hx Hn. rewrite clz_eq by done. unfold clz_portable. rewrite (proj2 (Z.eqb_neq x 0)) by done.
  split; [done |]. split; [done |]. lia.
Qed.

Lemma clz_portable_wrong_witness : clz_portable 1 ≠ clz 1.
Proof. refine (proj2 (proj2 (clz_portable_wrong 1 _ _))); [unfold fits |]; lia. Defined.

(** ** The helpers *)

Lemma low_zeros_spec p :
  0 <= low_zeros p ∧ Z.testbit (Z.pos p) (low_zeros p) = true ∧
  ∀ i, 0 <= i < low_zeros p → Z.testbit (Z.pos p) i = false.
Proof.
  induction p as [q _ | q (Hn & Hb & Hl) |]; cbn [low_zeros]; [by split; [| split; [| lia]] | | by split; [| split; [| lia]]].
  rewrite (Pos2Z.inj_xO q). split; [lia |]. split.
  - replace (1 + low_zeros q) with (Z.succ (low_zeros q)) by lia. by rewrite Z.testbit_even_succ.
  - intros i Hi. destruct (decide (i = 0)) as [-> |]; [apply Z.testbit_even_0 |].
    replace i with (Z.succ (i - 1)) by lia. rewrite Z.testbit_even_succ by lia. apply Hl. lia.
Qed.

Lemma ones_pos p : 1 <= ones p.
Proof. induction p; cbn [ones]; lia. Qed.

Lemma ones_one p : ones p = 1 ↔ ∃ k, 0 <= k ∧ Z.pos p = 2 ^ k.
Proof.
  split.
  - induction p as [q _ | q IH |]; cbn [ones]; intros H.
    + pose proof (ones_pos q). lia.
    + destruct (IH H) as (k & Hk & E). exists (Z.succ k). rewrite Z.pow_succ_r; lia.
    + by exists 0.
  - intros (k & Hk & E). revert p E. pattern k. apply natlike_ind; [by intros p [= ->] | | done].
    intros i Hi IH p E. rewrite Z.pow_succ_r in E by done. destruct p as [q | q |]; [lia | | lia].
    cbn [ones]. apply IH. lia.
Qed.

Lemma last_set_eq x : fits 64 x → x ≠ 0 → 63 - clz x = Z.log2 x.
Proof.
  intros Hx Hn. rewrite clz_eq by done. unfold leading_zeros. rewrite (proj2 (Z.eqb_neq x 0)) by done. lia.
Qed.

Lemma first_set_spec x :
  fits 64 x → x ≠ 0 → 0 <= ctz x ∧ Z.testbit x (ctz x) = true ∧ ∀ i, 0 <= i < ctz x → Z.testbit x i = false.
Proof.
  intros Hx Hn. rewrite ctz_eq by done. unfold ctz_portable. rewrite (proj2 (Z.eqb_neq x 0)) by done.
  destruct x as [| p | p]; [done | | unfold fits in Hx; lia]. apply low_zeros_spec.
Qed.

Lemma is_power_spec x : fits 64 x → fast_is_power_of_2 x = true ↔ ∃ k, 0 <= k ∧ x = 2 ^ k.
Proof.
  intros Hx. unfold fast_is_power_of_2. rewrite pcnt_eq, andb_true_iff, negb_true_iff, Z.eqb_neq, Z.eqb_eq by done.
  unfold pcnt_portable, count_ones. destruct x as [| p | p]; [| | unfold fits in Hx; lia].
  - split; [by intros [? _] |]. intros (k & Hk & E). pose proof (Z.pow_pos_nonneg 2 k). lia.
  - rewrite ones_one. split; [by intros [_ ?] | done].
Qed.

(** Clearing the low [k] bits. *)
Lemma align_mask x k : fits 64 x → 0 <= k < 64 → Z.land x (2 ^ 64 - 1 - u64 (2 ^ k - 1)) = x / 2 ^ k * 2 ^ k.
Proof.
  intros Hx Hk. pose proof (Z.pow_pos_nonneg 2 k ltac:(lia) ltac:(lia)). pose proof (Z.pow_lt_mono_r 2 k 64 ltac:(lia) ltac:(lia)).
  assert (fits 64 (2 ^ k - 1)) by (unfold fits; lia). rewrite (wrap_small 64), land_not by (done || lia).
  replace (2 ^ k - 1) with (Z.ones k) by (rewrite Z.ones_equiv; lia).
  rewrite Z.ldiff_ones_r, Z.shiftl_mul_pow2, Z.shiftr_div_pow2 by lia. done.
Qed.

Lemma div_ceil_least a b : 0 <= a → 0 < b → a <= (a + b - 1) / b * b < a + b.
Proof. intros Ha Hb. pose proof (Z.div_mod (a + b - 1) b). pose proof (Z.mod_pos_bound (a + b - 1) b). nia. Qed.

Lemma buddy_order_spec n :
  fits 32 n → 1 <= n → let o := buddy_order_for_count n in 0 <= o ∧ n <= 2 ^ o ∧ ∀ k, 0 <= k → n <= 2 ^ k → o <= k.
Proof.
  intros Hn H1. cbv zeta. unfold buddy_order_for_count. destruct (n <=? 1) eqn:E; bools.
  - replace n with 1 by lia. split; [done |]. split; [done |]. lia.
  - unfold fits in Hn. unfold fast_log2. rewrite (proj2 (Z.eqb_neq (n - 1) 0)), last_set_eq by (unfold fits; lia).
    destruct (Z.log2_spec (n - 1)) as [Hl Hu]; [lia |]. pose proof (Z.log2_nonneg (n - 1)).
    replace (Z.log2 (n - 1) + 1) with (Z.succ (Z.log2 (n - 1))) by lia. split; [lia |]. split; [lia |].
    intros k Hk Hnk. destruct (Z.le_gt_cases (Z.succ (Z.log2 (n - 1))) k); [done |].
    pose proof (Z.pow_le_mono_r 2 k (Z.log2 (n - 1)) ltac:(lia) ltac:(lia)). lia.
Qed.

(** The helpers compute what their comments say.
    On RISC-V, for every word but zero: the first set bit is set and none below it is,
    the last set bit and the logarithm are the binary logarithm, and the test for a
    power of two is exact.  Rounding down gives the largest multiple of [2 ^ k] up to
    [x]; rounding up the least from [x] on and ceiling division the least sufficient
    quotient, when the sum does not overflow; the buddy order for a count is the least
    whose block holds that many pages. *)
Theorem bit_helpers_correct (x k b n : Z) :
  fits 64 x → x ≠ 0 → 0 <= k < 64 → fits 64 b → b ≠ 0 → fits 32 n → 1 <= n →
  (let f := fast_bitmap_first_set x in
   Z.testbit x f = true ∧ ∀ i, 0 <= i < f → Z.testbit x i = false) ∧
  fast_bitmap_last_set x = Z.log2 x ∧ fast_log2 x = Z.log2 x ∧
  (fast_is_power_of_2 x = true ↔ ∃ i, 0 <= i ∧ x = 2 ^ i) ∧
  (let d := fast_align_down x (2 ^ k) in d mod 2 ^ k = 0 ∧ d <= x < d + 2 ^ k) ∧
  (x + 2 ^ k - 1 < 2 ^ 64 → let u := fast_align_up x (2 ^ k) in u mod 2 ^ k = 0 ∧ x <= u < x + 2 ^ k) ∧
  (x + b - 1 < 2 ^ 64 → let q := fast_div_ceil x b in x <= q * b < x + b) ∧
  (let o := buddy_order_for_count n in n <= 2 ^ o ∧ ∀ i, 0 <= i → n <= 2 ^ i → o <= i).
Proof.
  intros Hx Hn Hk Hb Hb0 Hc H1. unfold fits in Hb.
  pose proof (Z.pow_pos_nonneg 2 k ltac:(lia) ltac:(lia)). pose proof (Z.div_mod x (2 ^ k)). pose proof (Z.mod_pos_bound x (2 ^ k)).
  split; [by apply first_set_spec |].
  split; [unfold fast_bitmap_last_set; rewrite (proj2 (Z.eqb_neq x 0)) by done; by apply last_set_eq |].
  split; [unfold fast_log2; rewrite (proj2 (Z.eqb_neq x 0)) by done; by apply last_set_eq |].
  split; [by apply is_power_spec |].
  split; [unfold fast_align_down; cbv zeta; rewrite align_mask by done; split; [apply Z_mod_mult | lia] |].
  split.
  - intros Ho. unfold fast_align_up. cbv zeta. unfold fits in Hx.
    assert (fits 64 (x + 2 ^ k - 1)) as Hf by (unfold fits; lia).
    rewrite (wrap_small _ _ Hf), align_mask by done. split; [apply Z_mod_mult | apply div_ceil_least; lia].
  - split; [| by apply buddy_order_spec].
    intros Ho. unfold fast_div_ceil. rewrite (proj2 (Z.eqb_neq b 0)) by done. cbv zeta. unfold fits in Hx.
    rewrite wrap_small by (unfold fits; lia). apply div_ceil_least; lia.
Qed.

Lemma bit_helpers_correct_witness : fast_bitmap_last_set 0xFF = Z.log2 0xFF ∧ fast_log2 0xFF = Z.log2 0xFF.
Proof.
  destruct (bit_helpers_correct 0xFF 12 7 512) as (_ & H1 & H2 & _);
    [unfold fits; lia | lia | lia | unfold fits; lia | lia | unfold fits; lia | lia | split; [exact H1 | exact H2]].
Defined.

(** ** The rotations of SHA-256 *)

(** The functions of FIPS 180-4, with [rotr] on 32 bits. *)
Definition rotr (x n : Z) : Z := rotate_left x (32 - n).
Definition Sigma0 (x : Z) : Z := Z.lxor (Z.lxor (rotr x 2) (rotr x 13)) (rotr x 22).
Definition Sigma1 (x : Z) : Z := Z.lxor (Z.lxor (rotr x 6) (rotr x 11)) (rotr x 25).
Definition sigma0 (x : Z) : Z := Z.lxor (Z.lxor (rotr x 7) (rotr x 18)) (Z.shiftr x 3).
Definition sigma1 (x : Z) : Z := Z.lxor (Z.lxor (rotr x 17) (rotr x 19)) (Z.shiftr x 10).

(** The low half of a 64-bit rotation of a 32-bit word is a shift. *)
Lemma ror_low x n i : fits 32 x → 0 < n < 32 → 0 <= i < 32 → Z.testbit (ror x n) i = Z.testbit x (i + n).
Proof.
  intros Hx Hn Hi. unfold ror, ror_insn. rewrite !land_63, (Z.mod_small n) by lia.
  rewrite (proj2 (Z.eqb_neq n 0)) by lia. rewrite !Z.mod_small by (rewrite ?Z.mod_small; lia).
  unfold u64, wrap. rewrite Z.lor_spec, Z.shiftr_spec, Z.mod_pow2_bits_low, Z.shiftl_spec by lia.
  by rewrite (Z.testbit_neg_r x (i - _)), orb_false_r by lia.
Qed.

(** A rotation of 32 bits has the same low bits, and wraps the others around. *)
Lemma rotr_bit x n i :
  fits 32 x → 0 < n < 32 → 0 <= i < 32 →
  Z.testbit (rotr x n) i = xorb (Z.testbit x (i + n)) (Z.testbit x (i + n - 32)).
Proof.
  intros Hx Hn Hi. unfold rotr. rewrite rotate_left_spec by (done || lia).
  destruct (Z.lt_ge_cases (i + n) 32).
  - rewrite (Z.testbit_neg_r x (i + n - 32)), xorb_false_r by lia. f_equal.
    rewrite <-(Z_mod_plus_full _ 1), Z.mod_small; lia.
  - rewrite (fits_testbit 32 x (i + n)), xorb_false_l by (done || lia). f_equal. rewrite Z.mod_small; lia.
Qed.

Lemma low_zero_bits x N : 0 <= N → x mod 2 ^ N = 0 ↔ ∀ k, k < N → Z.testbit x k = false.
Proof.
  intros HN. split.
  - intros Hx k Hk. destruct (Z.lt_ge_cases k 0); [by apply Z.testbit_neg_r |].
    by rewrite <-(Z.mod_pow2_bits_low x N k), Hx, Z.testbit_0_l by lia.
  - intros H. apply Z.bits_inj'. intros k Hk. rewrite Z.testbit_0_l.
    destruct (Z.lt_ge_cases k N); [rewrite Z.mod_pow2_bits_low by lia; auto | apply Z.mod_pow2_bits_high; lia].
Qed.

(** The bits that wrap around vanish only with all of them: the lowest one that is set
    shows in the longest rotation first. *)
Lemma wrapped_zero x N (R : Z → bool) :
  0 < N < 32 → (∀ i, (∀ k, k < i + N - 32 → Z.testbit x k = false) → R i = false) →
  (∀ i, 0 <= i < 32 → xorb (Z.testbit x (i + N - 32)) (R i) = false) ↔ x mod 2 ^ N = 0.
Proof.
  intros HN HR. rewrite low_zero_bits by lia. split.
  - intros H. assert (∀ n k, k < Z.of_nat n → k < N → Z.testbit x k = false) as Hk.
    { induction n as [| n IH]; intros k Hk Hl; [apply Z.testbit_neg_r; lia |].
      destruct (Z.lt_ge_cases k (Z.of_nat n)); [by apply IH |]. specialize (H (k + 32 - N) ltac:(lia)).
      rewrite (HR (k + 32 - N)), xorb_false_r in H by (intros j Hj; apply IH; lia).
      by replace (k + 32 - N + N - 32) with k in H by lia. }
    intros k Hl. apply (Hk (Z.to_nat N)); lia.
  - intros H i Hi. rewrite H, HR by (intros; try apply H; lia). done.
Qed.

Lemma fits_eq_bits w x y :
  0 <= w → fits w x → fits w y → x = y ↔ ∀ i, 0 <= i < w → xorb (Z.testbit x i) (Z.testbit y i) = false.
Proof.
  intros Hw Hx Hy. split; [intros -> i _; apply xorb_nilpotent |]. intros H. apply Z.bits_inj'. intros i Hi.
  destruct (Z.lt_ge_cases i w); [by apply xorb_eq, H | by rewrite !(fits_testbit w)].
Qed.

(** Two words of 32 bits whose difference is [xorb (x [i + N - 32]) (R i)]. *)
Lemma differ_exact x N (R : Z → bool) f g :
  0 < N < 32 → fits 32 f → fits 32 g → (∀ i, (∀ k, k < i + N - 32 → Z.testbit x k = false) → R i = false) →
  (∀ i, 0 <= i < 32 → xorb (Z.testbit f i) (Z.testbit g i) = xorb (Z.testbit x (i + N - 32)) (R i)) →
  f = g ↔ x mod 2 ^ N = 0.
Proof.
  intros HN Hf Hg HR H. rewrite (fits_eq_bits 32), <-(wrapped_zero x N R) by (done || lia).
  split; intros Hi i Hr; [rewrite <-H | rewrite H]; auto.
Qed.

Lemma shiftr_fits w x n : 0 <= n → fits w x → fits w (Z.shiftr x n).
Proof.
  intros Hn [H0 H1]. rewrite Z.shiftr_div_pow2 by done. pose proof (Z.pow_pos_nonneg 2 n ltac:(lia) Hn).
  split; [apply Z.div_pos; lia | apply Z.div_lt_upper_bound; nia].
Qed.

Ltac sigma_bits x a b c :=
  intros i Hi; unfold u32, wrap; rewrite ?Z.mod_pow2_bits_low by lia;
  rewrite !Z.lxor_spec, ?Z.mod_pow2_bits_low by lia;
  rewrite ?(ror_low x a), ?(ror_low x b), ?(ror_low x c), ?(rotr_bit x a), ?(rotr_bit x b), ?(rotr_bit x c) by (done || lia);
  repeat match goal with |- context [Z.testbit ?y ?j] => destruct (Z.testbit y j) end; reflexivity.

(** The rotations for SHA-256 are right only for special words.
    They rotate the word as one of 64 bits and cut the result, which shifts it: the
    bits that should wrap around are lost.  The result is that of the standard exactly
    when the bits that the longest rotation wraps around are zero. *)
Theorem sigma_exact (x : Z) :
  fits 32 x →
  (sha256_big_sigma0 x = Sigma0 x ↔ x mod 2 ^ 22 = 0) ∧ (sha256_big_sigma1 x = Sigma1 x ↔ x mod 2 ^ 25 = 0) ∧
  (sha256_small_sigma0 x = sigma0 x ↔ x mod 2 ^ 18 = 0) ∧ (sha256_small_sigma1 x = sigma1 x ↔ x mod 2 ^ 19 = 0).
Proof.
  intros Hx. assert (∀ n, 0 < n < 32 → fits 32 (rotr x n)) as Hr by (intros; apply rotate_left_fits; [done | lia]).
  assert (∀ y, fits 32 (u32 y)) as Hu by (intros; by apply wrap_bound).
  assert (∀ n, 0 <= n → fits 32 (Z.shiftr x n)) as Hs by (intros; by apply shiftr_fits).
  split; [| split; [| split]].
  - apply (differ_exact x 22 (λ i, xorb (Z.testbit x (i + 2 - 32)) (Z.testbit x (i + 13 - 32)))); [lia | apply Hu | | |].
    + repeat apply lxor_fits; try apply Hr; lia.
    + intros i Hk. by rewrite !Hk by lia.
    + unfold sha256_big_sigma0, Sigma0. sigma_bits x 2 13 22.
  - apply (differ_exact x 25 (λ i, xorb (Z.testbit x (i + 6 - 32)) (Z.testbit x (i + 11 - 32)))); [lia | apply Hu | | |].
    + repeat apply lxor_fits; try apply Hr; lia.
    + intros i Hk. by rewrite !Hk by lia.
    + unfold sha256_big_sigma1, Sigma1. sigma_bits x 6 11 25.
  - apply (differ_exact x 18 (λ i, Z.testbit x (i + 7 - 32))); [lia | | | |].
    + repeat apply lxor_fits; try apply Hu; try apply Hs; lia.
    + repeat apply lxor_fits; try apply Hr; try apply Hs; lia.
    + intros i Hk. apply Hk. lia.
    + unfold sha256_small_sigma0, sigma0. sigma_bits x 7 18 18.
  - apply (differ_exact x 19 (λ i, Z.testbit x (i + 17 - 32))); [lia | apply Hu | | |].
    + repeat apply lxor_fits; try apply Hr; try apply Hs; lia.
    + intros i Hk. apply Hk. lia.
    + unfold sha256_small_sigma1, sigma1. sigma_bits x 17 19 19.
Qed.

Lemma sigma_exact_witness : sha256_big_sigma0 1 ≠ Sigma0 1.
Proof.
  intros E. apply (proj1 (proj1 (sigma_exact 1 ltac:(unfold fits; lia)))) in E. vm_compute in E. discriminate E.
Defined.

End Bitmanip.
