(* ===== verification/Input.v ===== *)
(** * Input events and the keyboard

    kernel/src/device/input.rs: the queue of input events, the state of the keyboard
    and the conversion of key codes to characters.  The two globals are the fields of
    [input]; a [char] is its code.

    [input_refines_queue]: the ring of packed words is a queue of at most 255 events
    that forgets the oldest one when full; key events come out as they went in, a
    mouse position loses all but sixteen bits of its row, and every other event comes
    out as nothing.  [serialize_injective]: different events have different bytes.
    [modifier_exact]: what the modifier byte says about the keys pressed so far.
    [ascii_complete]: every printable character is on exactly one key. *)
From S2P Require Import Prelude Words.
Open Scope list_scope.

Module Input.

Inductive InputEvent : Type :=
| KeyDown (keycode modifier : Z)
| KeyUp (keycode modifier : Z)
| MouseMove (x y : Z)
| MouseDown (x y button : Z)
| MouseUp (x y button : Z)
| MouseWheel (delta : Z)
| Resize (width height : Z).

(** [buf[..n].copy_from_slice(bytes)] and the number of bytes. *)
Definition put_front (buf bytes : list Z) : list Z * Z := (bytes ++ drop (length bytes) buf, zlen bytes).

Definition serialize (e : InputEvent) (buf : list Z) : list Z * Z :=
  match e with
  | KeyDown keycode modifier => put_front buf [1; keycode; modifier]
  | KeyUp keycode modifier => put_front buf [2; keycode; modifier]
  | MouseMove x y => put_front buf (3 :: le_bytes 4 (u32 x) ++ le_bytes 4 (u32 y))
  | MouseDown x y button => put_front buf (4 :: button :: le_bytes 4 (u32 x) ++ le_bytes 4 (u32 y))
  | MouseUp x y button => put_front buf (5 :: button :: le_bytes 4 (u32 x) ++ le_bytes 4 (u32 y))
  | MouseWheel delta => put_front buf (6 :: le_bytes 4 (u32 delta))
  | Resize width height => put_front buf (7 :: le_bytes 4 width ++ le_bytes 4 height)
  end.

(** ** The queue *)

Definition INPUT_QUEUE_SIZE : Z := 256.

Record InputQueue : Type := MkQueue { events : list Z; head : Z; tail : Z }.

Definition InputQueue_new : InputQueue := MkQueue (replicate 256 0) 0 0.

Definition pack (e : InputEvent) : Z :=
  match e with
  | KeyDown keycode modifier => Z.lor (Z.lor 1 (Z.shiftl keycode 8)) (Z.shiftl modifier 16)
  | KeyUp keycode modifier => Z.lor (Z.lor 2 (Z.shiftl keycode 8)) (Z.shiftl modifier 16)
  | MouseMove x y =>
      Z.lor (Z.lor 3 (Z.shiftl (Z.land (u64 x) 0xFFFFFFFF) 16)) (u64 (Z.shiftl (Z.land (u64 y) 0xFFFFFFFF) 48))
  | _ => 0
  end.

Definition unpack (packed : Z) : option InputEvent :=
  let event_type := Z.land packed 0xFF in
  if event_type =? 1 then Some (KeyDown (u8 (Z.shiftr packed 8)) (u8 (Z.shiftr packed 16)))
  else if event_type =? 2 then Some (KeyUp (u8 (Z.shiftr packed 8)) (u8 (Z.shiftr packed 16)))
  else if event_type =? 3 then
    Some (MouseMove (to_signed 32 (Z.land (Z.shiftr packed 16) 0xFFFFFFFF))
                    (to_signed 32 (Z.land (Z.shiftr packed 48) 0xFFFFFFFF)))
  else None.

Definition push (q : InputQueue) (e : InputEvent) : outcome InputQueue :=
  let next := (tail q + 1) mod INPUT_QUEUE_SIZE in
  let h := if next =? head q then (head q + 1) mod INPUT_QUEUE_SIZE else head q in
  ev ← aset (events q) (tail q) (pack e);
  mret (MkQueue ev h next).

Definition pop (q : InputQueue) : outcome (option InputEvent * InputQueue) :=
  if head q =? tail q then mret (None, q) else
  packed ← aget (events q) (head q);
  mret (unpack packed, MkQueue (events q) ((head q + 1) mod INPUT_QUEUE_SIZE) (tail q)).

Definition is_empty (q : InputQueue) : bool := head q =? tail q.

Definition len (q : InputQueue) : Z :=
  if head q <=? tail q then tail q - head q else INPUT_QUEUE_SIZE - head q + tail q.

(** ** The keyboard *)

Definition KEY_CTRL : Z := 29.
Definition KEY_SHIFT : Z := 42.
Definition KEY_SHIFT_R : Z := 54.
Definition KEY_ALT : Z := 56.
Definition KEY_CAPS : Z := 58.

Record KeyboardState : Type := MkKeyboard {
  shift_pressed : bool;
  ctrl_pressed : bool;
  alt_pressed : bool;
  caps_locked : bool;
  keys_down : list bool;
}.
#[export] Instance KeyboardState_eta : Eta KeyboardState := λ k,
  MkKeyboard (shift_pressed k) (ctrl_pressed k) (alt_pressed k) (caps_locked k) (keys_down k).

Definition KeyboardState_new : KeyboardState := MkKeyboard false false false false (replicate 256 false).

Definition modifier (k : KeyboardState) : Z :=
  let m := 0 in
  let m := if shift_pressed k then Z.lor m 1 else m in
  let m := if ctrl_pressed k then Z.lor m 2 else m in
  let m := if alt_pressed k then Z.lor m 4 else m in
  if caps_locked k then Z.lor m 8 else m.

Definition key_down (k : KeyboardState) (keycode : Z) : outcome (Z * KeyboardState) :=
  kd ← aset (keys_down k) keycode true;
  let k := k <| keys_down := kd |> in
  let k := if (keycode =? KEY_SHIFT) || (keycode =? KEY_SHIFT_R) then k <| shift_pressed := true |>
           else if keycode =? KEY_CTRL then k <| ctrl_pressed := true |>
           else if keycode =? KEY_ALT then k <| alt_pressed := true |>
           else if keycode =? KEY_CAPS then k <| caps_locked := negb (caps_locked k) |>
           else k in
  mret (modifier k, k).

Definition key_up (k : KeyboardState) (keycode : Z) : outcome (Z * KeyboardState) :=
  kd ← aset (keys_down k) keycode false;
  let k := k <| keys_down := kd |> in
  let k := if (keycode =? KEY_SHIFT) || (keycode =? KEY_SHIFT_R) then k <| shift_pressed := false |>
           else if keycode =? KEY_CTRL then k <| ctrl_pressed := false |>
           else if keycode =? KEY_ALT then k <| alt_pressed := false |>
           else k in
  mret (modifier k, k).

Definition is_key_down (k : KeyboardState) (keycode : Z) : outcome bool := aget (keys_down k) keycode.

(** Key code, character with shift, character without. *)
Definition ascii_table : list (Z * (Z * Z)) :=
  [(57, (32, 32)); (11, (41, 48)); (2, (33, 49)); (3, (64, 50)); (4, (35, 51)); (5, (36, 52));
   (6, (37, 53)); (7, (94, 54)); (8, (38, 55)); (9, (42, 56)); (10, (40, 57)); (12, (95, 45));
   (13, (43, 61)); (26, (123, 91)); (27, (125, 93)); (39, (58, 59)); (40, (34, 39)); (41, (126, 96));
   (43, (124, 92)); (51, (60, 44)); (52, (62, 46)); (53, (63, 47)); (15, (9, 9)); (28, (10, 10));
   (14, (127, 127)); (30, (65, 97)); (48, (66, 98)); (46, (67, 99)); (32, (68, 100)); (18, (69, 101));
   (33, (70, 102)); (34, (71, 103)); (35, (72, 104)); (23, (73, 105)); (36, (74, 106)); (37, (75, 107));
   (38, (76, 108)); (50, (77, 109)); (49, (78, 110)); (24, (79, 111)); (25, (80, 112)); (16, (81, 113));
   (19, (82, 114)); (31, (83, 115)); (20, (84, 116)); (22, (85, 117)); (47, (86, 118)); (17, (87, 119));
   (45, (88, 120)); (21, (89, 121)); (44, (90, 122))].

Definition keycode_to_ascii (keycode : Z) (shift : bool) : option Z :=
  match list_find (λ r, r.1 = keycode) ascii_table with
  | Some (_, (_, (upper, lower))) => Some (if shift then upper else lower)
  | None => None
  end.

Definition keycode_to_ascii_caps (keycode : Z) (shift caps : bool) : option Z :=
  keycode_to_ascii keycode (xorb shift caps).

(** ** The globals *)

Record input : Type := MkInput { INPUT_QUEUE : InputQueue; KEYBOARD_STATE : KeyboardState }.

Definition input_start : input := MkInput InputQueue_new KeyboardState_new.

Definition input_push (i : input) (e : InputEvent) : outcome input :=
  q ← push (INPUT_QUEUE i) e; mret (MkInput q (KEYBOARD_STATE i)).

Definition input_pop (i : input) : outcome (option InputEvent * input) :=
  '(e, q) ← pop (INPUT_QUEUE i); mret (e, MkInput q (KEYBOARD_STATE i)).

Definition input_available (i : input) : bool := negb (is_empty (INPUT_QUEUE i)).

Definition current_modifier (i : input) : Z := modifier (KEYBOARD_STATE i).

Definition process_key_down (i : input) (keycode : Z) : outcome input :=
  '(m, k) ← key_down (KEYBOARD_STATE i) keycode;
  q ← push (INPUT_QUEUE i) (KeyDown keycode m);
  mret (MkInput q k).

Definition process_key_up (i : input) (keycode : Z) : outcome input :=
  '(m, k) ← key_up (KEYBOARD_STATE i) keycode;
  q ← push (INPUT_QUEUE i) (KeyUp keycode m);
  mret (MkInput q k).

Definition process_mouse_move (i : input) (x y : Z) : outcome input := input_push i (MouseMove x y).
Definition process_mouse_down (i : input) (x y button : Z) : outcome input := input_push i (MouseDown x y button).
Definition process_mouse_up (i : input) (x y button : Z) : outcome input := input_push i (MouseUp x y button).

(** ** Events and words *)

Definition i32_ok (x : Z) : Prop := - 2 ^ 31 <= x < 2 ^ 31.

Definition event_ok (e : InputEvent) : Prop :=
  match e with
  | KeyDown k m | KeyUp k m => is_byte k ∧ is_byte m
  | MouseMove x y => i32_ok x ∧ i32_ok y
  | MouseDown x y b | MouseUp x y b => i32_ok x ∧ i32_ok y ∧ is_byte b
  | MouseWheel d => i32_ok d
  | Resize w h => fits 32 w ∧ fits 32 h
  end.

(** What comes out of the queue for an event. *)
Definition delivered (e : InputEvent) : option InputEvent :=
  match e with
  | KeyDown _ _ | KeyUp _ _ => Some e
  | MouseMove x y => Some (MouseMove x (y mod 2 ^ 16))
  | _ => None
  end.

Lemma low_mask a k : 0 <= k → Z.land a (2 ^ k - 1) = a mod 2 ^ k.
Proof. intros Hk. rewrite <-Z.land_ones by done. f_equal. rewrite Z.ones_equiv. lia. Qed.

Lemma to_signed_u32 x : i32_ok x → to_signed 32 (x mod 2 ^ 32) = x.
Proof.
  unfold i32_ok, to_signed, wrap. intros Hx. cbv zeta. rewrite Zmod_mod. destruct (_ <? _) eqn:E; bools; dlia.
Qed.

Lemma lor_shift a b k : 0 <= k → 0 <= a < 2 ^ k → Z.lor a (Z.shiftl b k) = a + b * 2 ^ k.
Proof.
  intros Hk Ha. rewrite Z.lor_comm, Z.shiftl_mul_pow2, (lor_low _ _ k); [lia | done | apply Z_mod_mult | done | done].
Qed.

Lemma pack_key t k m : 0 <= t < 256 → is_byte k → Z.lor (Z.lor t (Z.shiftl k 8)) (Z.shiftl m 16) = t + k * 2 ^ 8 + m * 2 ^ 16.
Proof. unfold is_byte. intros Ht Hk. rewrite (lor_shift t), lor_shift; lia. Qed.

Lemma unpack_key t k m :
  0 <= t < 256 → is_byte k → is_byte m → let p := t + k * 2 ^ 8 + m * 2 ^ 16 in
  Z.land p 0xFF = t ∧ u8 (Z.shiftr p 8) = k ∧ u8 (Z.shiftr p 16) = m.
Proof.
  unfold is_byte. intros Ht Hk Hm. cbv zeta. rewrite (low_mask _ 8), !Z.shiftr_div_pow2 by lia. unfold wrap. dlia.
Qed.

Lemma pack_mouse x y : pack (MouseMove x y) = 3 + x mod 2 ^ 32 * 2 ^ 16 + y mod 2 ^ 16 * 2 ^ 48.
Proof.
  cbn [pack]. unfold wrap. change 0xFFFFFFFF with (2 ^ 32 - 1). rewrite !low_mask, !lor_shift by lia.
  assert (∀ z, z mod 2 ^ 64 mod 2 ^ 32 = z mod 2 ^ 32) as Hm by (intros; dlia). rewrite !Hm.
  assert (Z.shiftl (y mod 2 ^ 32) 48 mod 2 ^ 64 = Z.shiftl (y mod 2 ^ 16) 48) as ->.
  { rewrite !Z.shiftl_mul_pow2 by lia. dlia. }
  rewrite lor_shift; [done | lia | dlia].
Qed.

Lemma unpack_pack e : event_ok e → unpack (pack e) = delivered e.
Proof.
  destruct e as [k m | k m | x y | x y b | x y b | d | w h]; intros He; try done.
  - destruct He as [Hk Hm]. cbn [pack]. rewrite pack_key by (done || lia).
    destruct (unpack_key 1 k m ltac:(lia) Hk Hm) as (E1 & E2 & E3). unfold unpack. by rewrite E1, E2, E3.
  - destruct He as [Hk Hm]. cbn [pack]. rewrite pack_key by (done || lia).
    destruct (unpack_key 2 k m ltac:(lia) Hk Hm) as (E1 & E2 & E3). unfold unpack. by rewrite E1, E2, E3.
  - destruct He as [Hx Hy]. rewrite pack_mouse. unfold unpack. cbn [delivered].
    set (p := 3 + _ + _). assert (Z.land p 0xFF = 3) as -> by (rewrite (low_mask _ 8) by lia; subst p; dlia).
    cbn [Z.eqb Pos.eqb]. do 2 f_equal.
    + rewrite (low_mask _ 32), Z.shiftr_div_pow2 by lia. etrans; [| by apply to_signed_u32]. f_equal. subst p. dlia.
    + rewrite (low_mask _ 32), Z.shiftr_div_pow2 by lia.
      replace (p / 2 ^ 48) with (y mod 2 ^ 16) by (subst p; dlia). apply to_signed_u32. unfold i32_ok. dlia.
Qed.

(** ** The queue is a queue *)

Record queue_is (q : InputQueue) (l : list InputEvent) : Prop := {
  qi_len : length (events q) = 256%nat;
  qi_head : 0 <= head q < 256;
  qi_count : zlen l <= 255;
  qi_tail : tail q = (head q + zlen l) mod 256;
  qi_at : ∀ k e, l !! k = Some e → events q !! Z.to_nat ((head q + Z.of_nat k) mod 256) = Some (pack e);
}.

Definition keep_newest (l : list InputEvent) : list InputEvent := if zlen l =? 255 then drop 1 l else l.

Lemma ring_ne h a b : 0 <= a → a < b → b - a < 256 → (h + a) mod 256 ≠ (h + b) mod 256.
Proof. intros. dlia. Qed.

(** A word at the end of the ring, seen from [h], with [l] before it. *)
Lemma queue_put ev h (l : list InputEvent) e :
  length ev = 256%nat → zlen l <= 255 →
  (∀ k x, l !! k = Some x → ev !! Z.to_nat ((h + Z.of_nat k) mod 256) = Some (pack x)) →
  ∀ k x, (l ++ [e]) !! k = Some x →
  <[Z.to_nat ((h + zlen l) mod 256) := pack e]> ev !! Z.to_nat ((h + Z.of_nat k) mod 256) = Some (pack x).
Proof.
  intros Hev Hl H k x Hk. unfold zlen in *.
  pose proof (Z.mod_pos_bound (h + Z.of_nat (length l)) 256 ltac:(lia)).
  pose proof (Z.mod_pos_bound (h + Z.of_nat k) 256 ltac:(lia)).
  destruct (decide (k = length l)) as [-> |].
  - rewrite list_lookup_middle in Hk by done. injection Hk as ->. apply list_lookup_insert_eq. lia.
  - pose proof (lookup_lt_Some _ _ _ Hk) as Hlt. rewrite length_app in Hlt. cbn in Hlt.
    rewrite lookup_app_l in Hk by lia. pose proof (ring_ne h (Z.of_nat k) (Z.of_nat (length l))).
    rewrite list_lookup_insert_ne by lia. by apply H.
Qed.

Lemma push_spec q l e : queue_is q l → ∃ q', push q e = Done q' ∧ queue_is q' (keep_newest l ++ [e]).
Proof.
  intros [Hlen Hh Hc Ht Ha]. pose proof (zlen_nonneg l). unfold push, INPUT_QUEUE_SIZE.
  assert (0 <= tail q < 256) by (rewrite Ht; apply Z.mod_pos_bound; lia).
  rewrite aset_in_range by (unfold zlen; lia). cbn [mbind outcome_bind]. eexists. split; [reflexivity |].
  unfold keep_newest. rewrite Ht. destruct (zlen l =? 255) eqn:E; bools.
  - destruct l as [| x l]; [done |]. unfold zlen in *. cbn in E, Hc. change (drop 1 (x :: l)) with l. cbn [length] in *.
    replace (((head q + Z.of_nat (S (length l))) mod 256 + 1) mod 256 =? head q) with true by (symmetry; apply Z.eqb_eq; dlia).
    assert (∀ k, ((head q + 1) mod 256 + k) mod 256 = (head q + (1 + k)) mod 256) as Hm by (intros; dlia).
    replace ((head q + Z.of_nat (S (length l))) mod 256) with (((head q + 1) mod 256 + zlen l) mod 256)
      by (unfold zlen; rewrite Hm; f_equal; lia).
    split; cbn [events head tail].
    + by rewrite length_insert.
    + apply Z.mod_pos_bound. lia.
    + unfold zlen. rewrite length_app. cbn. lia.
    + unfold zlen. rewrite length_app. cbn. dlia.
    + apply queue_put; [done | unfold zlen; lia |]. intros k y Hy. rewrite Hm. rewrite <-(Ha (S k) y Hy). do 3 f_equal. lia.
  - replace (((head q + zlen l) mod 256 + 1) mod 256 =? head q) with false by (symmetry; apply Z.eqb_neq; dlia).
    split; cbn [events head tail]; [by rewrite length_insert | done | | | by apply queue_put].
    + unfold zlen in *. rewrite length_app. cbn. lia.
    + unfold zlen in *. rewrite length_app. cbn. dlia.
Qed.

Lemma pop_spec q l :
  queue_is q l →
  match l with
  | [] => pop q = Done (None, q)
  | e :: l' => ∃ q', pop q = Done (unpack (pack e), q') ∧ queue_is q' l'
  end.
Proof.
  intros [Hlen Hh Hc Ht Ha]. unfold pop. destruct l as [| e l].
  - replace (head q =? tail q) with true; [done |]. symmetry. apply Z.eqb_eq. rewrite Ht. change (zlen (@nil InputEvent)) with 0. dlia.
  - unfold zlen in *. cbn [length] in *. replace (head q =? tail q) with false by (symmetry; apply Z.eqb_neq; rewrite Ht; dlia).
    assert (events q !! Z.to_nat (head q) = Some (pack e)) as E.
    { rewrite <-(Ha 0%nat e eq_refl). f_equal. dlia. }
    rewrite (proj2 (aget_lookup _ _ _) (conj (proj1 Hh) E)). cbn [mbind outcome_bind].
    eexists. split; [reflexivity |]. unfold INPUT_QUEUE_SIZE. split; cbn [events head tail]; [done | dlia | unfold zlen; lia | unfold zlen; dlia |].
    intros k x Hx. rewrite <-(Ha (S k) x Hx). f_equal. dlia.
Qed.

Lemma len_spec q l : queue_is q l → len q = zlen l ∧ is_empty q = (zlen l =? 0).
Proof.
  intros [Hlen Hh Hc Ht Ha]. pose proof (zlen_nonneg l). unfold len, is_empty, INPUT_QUEUE_SIZE. rewrite Ht. split.
  - destruct (_ <=? _) eqn:E; bools; dlia.
  - destruct (zlen l =? 0) eqn:E; bools; [apply Z.eqb_eq | apply Z.eqb_neq]; dlia.
Qed.

Lemma new_queue : queue_is InputQueue_new [].
Proof. split; [done | cbn; lia | done | done | done]. Qed.

Inductive qop : Type := Push (e : InputEvent) | Pop | Len.
Inductive qout : Type := Pushed | Popped (e : option InputEvent) | Length (n : Z) (empty : bool).

Definition q_step (q : InputQueue) (o : qop) : outcome (qout * InputQueue) :=
  match o with
  | Push e => q ← push q e; mret (Pushed, q)
  | Pop => '(e, q) ← pop q; mret (Popped e, q)
  | Len => mret (Length (len q) (is_empty q), q)
  end.

Fixpoint q_run (q : InputQueue) (ops : list qop) : outcome (list qout * InputQueue) :=
  match ops with
  | [] => mret ([], q)
  | o :: ops => '(r, q) ← q_step q o; '(rs, q) ← q_run q ops; mret (r :: rs, q)
  end.

(** The queue that forgets. *)
Definition spec_step (l : list InputEvent) (o : qop) : qout * list InputEvent :=
  match o with
  | Push e => (Pushed, keep_newest l ++ [e])
  | Pop => match l with [] => (Popped None, []) | e :: l => (Popped (delivered e), l) end
  | Len => (Length (zlen l) (zlen l =? 0), l)
  end.

Fixpoint spec_run (l : list InputEvent) (ops : list qop) : list qout :=
  match ops with
  | [] => []
  | o :: ops => let '(r, l) := spec_step l o in r :: spec_run l ops
  end.

Definition op_ok (o : qop) : Prop := match o with Push e => event_ok e | _ => True end.

Lemma q_step_spec q l o :
  queue_is q l → Forall event_ok l → op_ok o →
  ∃ q', q_step q o = Done ((spec_step l o).1, q') ∧ queue_is q' (spec_step l o).2 ∧ Forall event_ok (spec_step l o).2.
Proof.
  intros Hq Hl Ho. destruct o as [e | |]; cbn [q_step spec_step].
  - destruct (push_spec q l e Hq) as (q' & -> & Hq'). exists q'. split; [done |]. split; [done |].
    apply Forall_app. split; [| by constructor]. unfold keep_newest. destruct (_ =? _); [by apply Forall_drop | done].
  - pose proof (pop_spec q l Hq) as Hp. destruct l as [| e l]; [rewrite Hp; by exists q |].
    destruct Hp as (q' & -> & Hq'). inversion Hl; subst. exists q'. by rewrite unpack_pack.
  - destruct (len_spec q l Hq) as [-> ->]. by exists q.
Qed.

(** C31. The input queue is a queue of 255 events that forgets the oldest.
    Every sequence of pushes, pops and queries on a new queue returns what the same
    sequence on a list returns.  A push onto 255 events drops the oldest one.  A pop
    gives key events as they were pushed and a mouse position with its row modulo
    65536; for a button, a turn of the wheel or a new size it removes the event and
    returns nothing, as it does for an empty queue. *)
Theorem input_refines_queue (ops : list qop) :
  Forall op_ok ops → ∃ q, q_run InputQueue_new ops = Done (spec_run [] ops, q).
Proof.
  intros Ho. assert (∀ q l, queue_is q l → Forall event_ok l → ∃ q', q_run q ops = Done (spec_run l ops, q')) as H.
  { induction Ho as [| o ops Hop Hops IH]; intros q l Hq Hl; [by exists q |]. cbn [q_run spec_run].
    destruct (q_step_spec q l o Hq Hl Hop) as (q' & -> & Hq' & Hl'). destruct (spec_step l o) as [r l'].
    cbn [mbind outcome_bind fst snd] in *. destruct (IH q' l' Hq' Hl') as (q2 & ->). by exists q2. }
  apply H; [apply new_queue | done].
Qed.

Lemma input_refines_queue_witness :
  ∃ q, q_run InputQueue_new [Push (MouseMove 5 (-1)); Push (MouseWheel 3); Push (KeyDown 30 0); Len; Pop; Pop; Pop] =
       Done ([Pushed; Pushed; Pushed; Length 3 false; Popped (Some (MouseMove 5 65535)); Popped None;
              Popped (Some (KeyDown 30 0))], q).
Proof.
  apply (input_refines_queue [Push (MouseMove 5 (-1)); Push (MouseWheel 3); Push (KeyDown 30 0); Len; Pop; Pop; Pop]).
  repeat constructor; lia.
Defined.

(** ** Bytes of events *)

Lemma put_front_take buf bytes : (put_front buf bytes).2 = zlen bytes ∧ take (length bytes) (put_front buf bytes).1 = bytes.
Proof. split; [done |]. apply take_app_length. Qed.

(** The bytes of an event. *)
Definition wire (e : InputEvent) (buf : list Z) : list Z :=
  take (Z.to_nat (serialize e buf).2) (serialize e buf).1.

Lemma le_u32_inj x y : i32_ok x → i32_ok y → le_bytes 4 (u32 x) = le_bytes 4 (u32 y) → x = y.
Proof.
  intros Hx Hy E. apply (f_equal of_le_bytes) in E.
  rewrite !of_le_bytes_le_bytes in E. unfold wrap in E. change (8 * Z.of_nat 4) with 32 in E. rewrite !Zmod_mod in E.
  rewrite <-(to_signed_u32 x), <-(to_signed_u32 y) by done. by rewrite E.
Qed.

Lemma le_fits_inj x y : fits 32 x → fits 32 y → le_bytes 4 x = le_bytes 4 y → x = y.
Proof.
  intros Hx Hy E. apply (f_equal of_le_bytes) in E. rewrite !of_le_bytes_le_bytes in E.
  by rewrite !(Z.mod_small _ (2 ^ (8 * Z.of_nat 4))) in E.
Qed.

Lemma wire_put e buf bytes : serialize e buf = put_front buf bytes → wire e buf = bytes.
Proof. intros E. unfold wire. rewrite E. unfold put_front. cbn [fst snd]. unfold zlen. by rewrite Nat2Z.id, take_app_length. Qed.

Lemma two_words_inj a b c d :
  le_bytes 4 a ++ le_bytes 4 b = le_bytes 4 c ++ le_bytes 4 d → le_bytes 4 a = le_bytes 4 c ∧ le_bytes 4 b = le_bytes 4 d.
Proof. intros E. by apply app_inj_1 in E. Qed.

(** Different events have different bytes.
    The bytes that [serialize] writes determine the event, whatever the buffer held. *)
Theorem serialize_injective (e e' : InputEvent) (buf buf' : list Z) :
  event_ok e → event_ok e' → wire e buf = wire e' buf' → e = e'.
Proof.
  intros He He' E.
  assert (∀ b1 b2, serialize e buf = put_front buf b1 → serialize e' buf' = put_front buf' b2 → b1 = b2) as H.
  { intros b1 b2 E1 E2. by rewrite <-(wire_put e buf b1), <-(wire_put e' buf' b2). }
  destruct e, e'; specialize (H _ _ eq_refl eq_refl); try discriminate H; cbn [event_ok] in He, He'.
  1, 2: by injection H as -> ->.
  1, 5: apply cons_eq_inj in H as [_ H]; apply two_words_inj in H as [H1 H2]; destruct He, He';
    f_equal; first [by apply le_u32_inj | by apply le_fits_inj].
  1, 2: apply cons_eq_inj in H as [_ H]; apply cons_eq_inj in H as [-> H]; apply two_words_inj in H as [H1 H2];
    destruct He as (? & ? & ?), He' as (? & ? & ?); f_equal; by apply le_u32_inj.
  apply cons_eq_inj in H as [_ H]. f_equal. by apply le_u32_inj.
Qed.

Lemma serialize_injective_witness : wire (KeyDown 30 0) (replicate 16 0) ≠ wire (KeyUp 30 0) (replicate 16 0).
Proof.
  intros E. apply serialize_injective in E; [discriminate E | split; split; lia | split; split; lia].
Defined.

(** ** The keyboard *)

(** A press or a release of a key. *)
Definition key_event : Type := bool * Z.

Fixpoint k_run (k : KeyboardState) (evs : list key_event) : outcome KeyboardState :=
  match evs with
  | [] => mret k
  | (down, c) :: evs => '(_, k) ← (if down : bool then key_down k c else key_up k c); k_run k evs
  end.

(** Whether the last event of the keys [p] was a press. *)
Definition last_press (p : Z → bool) (before : bool) (evs : list key_event) : bool :=
  foldl (λ b e, if p e.2 then e.1 else b) before evs.

Definition odd_presses (c : Z) (before : bool) (evs : list key_event) : bool :=
  foldl (λ b e, if e.1 && (e.2 =? c) then negb b else b) before evs.

Definition is_shift (c : Z) : bool := (c =? KEY_SHIFT) || (c =? KEY_SHIFT_R).

Lemma k_step k down c :
  length (keys_down k) = 256%nat → is_byte c →
  ∃ k', (if down : bool then key_down k c else key_up k c) = Done (modifier k', k') ∧
    length (keys_down k') = 256%nat ∧
    shift_pressed k' = last_press is_shift (shift_pressed k) [(down, c)] ∧
    ctrl_pressed k' = last_press (Z.eqb KEY_CTRL) (ctrl_pressed k) [(down, c)] ∧
    alt_pressed k' = last_press (Z.eqb KEY_ALT) (alt_pressed k) [(down, c)] ∧
    caps_locked k' = odd_presses KEY_CAPS (caps_locked k) [(down, c)] ∧
    keys_down k' = <[Z.to_nat c := down]> (keys_down k).
Proof.
  intros Hl Hc. unfold is_byte in Hc. assert (0 <= c < zlen (keys_down k)) as Hr by (unfold zlen; lia).
  unfold last_press, odd_presses, is_shift. cbn [foldl fst snd].
  rewrite !(Z.eqb_sym _ c).
  destruct down; [unfold key_down | unfold key_up]; rewrite aset_in_range by done; cbn [mbind outcome_bind andb];
    (eexists; split; [reflexivity |]);
    destruct ((c =? KEY_SHIFT) || (c =? KEY_SHIFT_R)) eqn:E1, (c =? KEY_CTRL) eqn:E2, (c =? KEY_ALT) eqn:E3,
      (c =? KEY_CAPS) eqn:E4; bools; subst; try discriminate E1; try discriminate; cbn;
    rewrite length_insert; done.
Qed.

Lemma k_run_spec evs k :
  length (keys_down k) = 256%nat → Forall (λ e, is_byte e.2) evs →
  ∃ k', k_run k evs = Done k' ∧ length (keys_down k') = 256%nat ∧
    shift_pressed k' = last_press is_shift (shift_pressed k) evs ∧
    ctrl_pressed k' = last_press (Z.eqb KEY_CTRL) (ctrl_pressed k) evs ∧
    alt_pressed k' = last_press (Z.eqb KEY_ALT) (alt_pressed k) evs ∧
    caps_locked k' = odd_presses KEY_CAPS (caps_locked k) evs ∧
    ∀ c, is_byte c → keys_down k' !! Z.to_nat c =
      Some (last_press (Z.eqb c) (default false (keys_down k !! Z.to_nat c)) evs).
Proof.
  revert k. induction evs as [| [down c] evs IH]; intros k Hl Hevs.
  - exists k. do 6 (split; [done |]). intros c Hc. unfold is_byte in Hc.
    destruct (lookup_lt_is_Some_2 (keys_down k) (Z.to_nat c)) as [b Hb]; [lia |]. by rewrite Hb.
  - inversion_clear Hevs as [| ? ? Hc Hr]. cbn in Hc. cbn [k_run].
    destruct (k_step k down c Hl Hc) as (k1 & -> & Hl1 & Hs1 & Hc1 & Ha1 & Hk1 & Hd1). cbn [mbind outcome_bind].
    destruct (IH k1 Hl1 Hr) as (k2 & -> & Hl2 & Hs2 & Hc2 & Ha2 & Hk2 & Hd2). exists k2.
    rewrite Hs2, Hc2, Ha2, Hk2, Hs1, Hc1, Ha1, Hk1. do 6 (split; [done |]). intros x Hx. rewrite Hd2 by done. f_equal. unfold last_press. cbn [foldl fst snd]. f_equal.
    rewrite Hd1. unfold is_byte in *. destruct (x =? c) eqn:E; bools.
    + subst. rewrite list_lookup_insert_eq by lia. done.
    + by rewrite list_lookup_insert_ne by lia.
Qed.

Lemma modifier_bits k :
  Z.testbit (modifier k) 0 = shift_pressed k ∧ Z.testbit (modifier k) 1 = ctrl_pressed k ∧
  Z.testbit (modifier k) 2 = alt_pressed k ∧ Z.testbit (modifier k) 3 = caps_locked k.
Proof. destruct k as [[] [] [] [] ?]; done. Qed.

(** What the modifier byte says.
    After any sequence of presses and releases, starting with no key down: control and
    alt are set exactly if the last event of their key was a press; caps lock is set
    exactly if its key was pressed an odd number of times; a key counts as down
    exactly if its last event was a press.  Shift is set exactly if the last event of
    either shift key was a press: a release of one of them clears it also when the
    other one is still down. *)
Theorem modifier_exact (evs : list key_event) :
  Forall (λ e, is_byte e.2) evs →
  ∃ k, k_run KeyboardState_new evs = Done k ∧
    Z.testbit (modifier k) 0 = last_press is_shift false evs ∧
    Z.testbit (modifier k) 1 = last_press (Z.eqb KEY_CTRL) false evs ∧
    Z.testbit (modifier k) 2 = last_press (Z.eqb KEY_ALT) false evs ∧
    Z.testbit (modifier k) 3 = odd_presses KEY_CAPS false evs ∧
    ∀ c, is_byte c → is_key_down k c = Done (last_press (Z.eqb c) false evs).
Proof.
  intros Hevs. destruct (k_run_spec evs KeyboardState_new eq_refl Hevs) as (k & E & _ & Hs & Hc & Ha & Hk & Hd).
  exists k. destruct (modifier_bits k) as (-> & -> & -> & ->). do 5 (split; [done |]). intros c Hb.
  apply aget_lookup. split; [apply Hb |]. rewrite Hd by done. f_equal. f_equal. unfold is_byte in Hb.
  cbn [KeyboardState_new keys_down]. by rewrite lookup_replicate_2 by lia.
Qed.

Lemma modifier_exact_witness :
  ∃ k, k_run KeyboardState_new [(true, KEY_SHIFT); (true, KEY_SHIFT_R); (false, KEY_SHIFT_R)] = Done k ∧
    Z.testbit (modifier k) 0 = false ∧ is_key_down k KEY_SHIFT = Done true.
Proof.
  destruct (modifier_exact [(true, KEY_SHIFT); (true, KEY_SHIFT_R); (false, KEY_SHIFT_R)]) as (k & E & Hs & _ & _ & _ & Hd).
  - repeat constructor; discriminate.
  - exists k. split; [exact E |]. split; [exact Hs |]. apply (Hd KEY_SHIFT). split; [discriminate | reflexivity].
Defined.

(** ** Characters *)

Lemma ascii_row k s c :
  keycode_to_ascii k s = Some c → ∃ u l, (k, (u, l)) ∈ ascii_table ∧ c = if s then u else l.
Proof.
  unfold keycode_to_ascii. destruct (list_find _ _) as [[i [k' [u l]]] |] eqn:E; [| done]. intros [= <-].
  apply list_find_Some in E as (E & <- & _). exists u, l. split; [by eapply list_elem_of_lookup_2 | done].
Qed.

(** The keys that give [c]. *)
Definition keys_for (c : Z) : list (Z * (Z * Z)) := filter (λ r, r.2.1 = c ∨ r.2.2 = c) ascii_table.

Definition on_one_key (c : Z) : bool :=
  match keys_for c with
  | [(k, (u, _))] => bool_decide (keycode_to_ascii k (bool_decide (u = c)) = Some c)
  | _ => false
  end.

(** Every printable character is on exactly one key.
    For each code from 32 to 126 there is a key that gives it, with shift or without,
    and no other key does. *)
Theorem ascii_complete (c : Z) :
  32 <= c <= 126 →
  ∃ k s, keycode_to_ascii k s = Some c ∧ ∀ k' s', keycode_to_ascii k' s' = Some c → k' = k.
Proof.
  intros Hc. assert (forallb on_one_key (zseq 32 95) = true) as H by (vm_compute; reflexivity).
  rewrite forallb_forall in H. specialize (H c). rewrite <-list_elem_of_In, elem_of_zseq in H. specialize (H ltac:(lia)).
  unfold on_one_key in H. destruct (keys_for c) as [| [k [u l]] [| ? ?]] eqn:E; try done.
  apply bool_decide_eq_true in H. exists k, (bool_decide (u = c)). split; [done |].
  intros k' s' (u' & l' & Hin & Hs)%ascii_row.
  assert ((k', (u', l')) ∈ keys_for c) as Hk by (apply list_elem_of_filter; split; [destruct s'; subst; auto | done]).
  rewrite E in Hk. by apply list_elem_of_singleton in Hk as [= -> _ _].
Qed.

Lemma ascii_complete_witness : ∃ k s, keycode_to_ascii k s = Some 65.
Proof. destruct (ascii_complete 65) as (k & s & E & _); [lia |]. exists k, s. exact E. Defined.

End Input.
