(* ===== verification/Term.v ===== *)
(** * The terminal emulator

    kernel/src/device/terminal.rs, with the colour functions of device/graphics.rs it
    uses.  [AnsiParser] turns bytes into actions, [TerminalEmulator] applies them to a
    grid of cells with a ring of 512 lines that scrolled out.

    The loops over columns and rows stay inside the arrays of 64 by 256 and 512 by 256
    cells, because every assignment of [cols] and [rows] bounds them by 256 and 64;
    they are written as maps over the arrays.  Accesses through the cursor or through a
    parameter number can leave the arrays, and panic.  Drawing, the scroll bar and
    fields that only drawing reads are not modelled; nor is the parser's [buf], which
    nothing writes.  The factor of [lighten] is always one half, where its arithmetic
    on [f32] is exact.

    [term_refines_paper]: text is laid out on an endless sheet of paper of which the
    screen shows the end, and the ring the 512 lines before it.  [term_panics_exactly]:
    one form of escape sequence ends the kernel, and every other operation returns.
    [attributes_inert]: no other escape
    sequence changes a colour or a style.  [cube_collapses]: of the 216 colours of the
    colour cube, the code tells 27 apart. *)
From S2P Require Import Prelude Input.
Open Scope list_scope.

Module Term.

(** ** Colours *)

Definition rgba (r g b a : Z) : Z :=
  Z.lor (Z.lor (Z.lor (Z.shiftl a 24) (Z.shiftl r 16)) (Z.shiftl g 8)) b.
Definition red (c : Z) : Z := u8 (Z.shiftr c 16).
Definition green (c : Z) : Z := u8 (Z.shiftr c 8).
Definition blue (c : Z) : Z := u8 c.
Definition alpha (c : Z) : Z := u8 (Z.shiftr c 24).

(** [lighten(c, 0.5)]: [x + (255 - x) * 0.5], truncated. *)
Definition half_way (x : Z) : Z := (2 * x + (255 - x)) / 2.
Definition lighten_half (c : Z) : Z := rgba (half_way (red c)) (half_way (green c)) (half_way (blue c)) (alpha c).

Definition ansi_color (code : Z) (bright : bool) : Z :=
  let c := match code mod 8 with
           | 0 => 0xFF000000 | 1 => 0xFFFF3333 | 2 => 0xFF33FF33 | 3 => 0xFFFFFF33
           | 4 => 0xFF3399FF | 5 => 0xFFFF33FF | 6 => 0xFF33FFFF | _ => 0xFFFFFFFF
           end in
  if bright then lighten_half c else c.

Definition color_256 (idx : Z) : Z :=
  if idx <? 16 then ansi_color idx (8 <=? idx)
  else if idx <? 232 then
    let r := (idx - 16) / 36 in
    let g := (idx - 16) / 6 mod 6 in
    let b := (idx - 16) mod 6 in
    rgba (u8 (r * 255) / 5) (u8 (g * 255) / 5) (u8 (b * 255) / 5) 0xFF
  else
    let v := u8 (u8 ((idx - 232) * 10) + 8) in
    rgba v v v 0xFF.

(** ** The parser *)

Inductive AnsiState : Type := Normal | Escape | Csi | Osc.

Inductive TerminalAction : Type :=
| Print (ch : Z)
| MoveCursor (row col : Z)
| MoveCursorUp (n : Z) | MoveCursorDown (n : Z) | MoveCursorLeft (n : Z) | MoveCursorRight (n : Z)
| ClearScreen | ClearLine | ClearToEndOfLine | ClearToEndOfScreen
| SetFg (c : Z) | SetBg (c : Z)
| SetBold (b : bool) | SetItalic (b : bool) | SetUnderline (b : bool) | SetInverse (b : bool)
| ResetAttributes
| SaveCursor | RestoreCursor
| ScrollUp (n : Z) | ScrollDown (n : Z)
| Bell
| SetCursorVisible (v : bool)
| CarriageReturn | LineFeed | Backspace | Tab.

Record AnsiParser : Type := MkParser {
  state : AnsiState;
  params : list Z;
  param_count : Z;
  current_param : Z;
  saved_x : Z;
  saved_y : Z;
}.
#[export] Instance AnsiParser_eta : Eta AnsiParser := λ p,
  MkParser (state p) (params p) (param_count p) (current_param p) (saved_x p) (saved_y p).

Definition AnsiParser_new : AnsiParser := MkParser Normal (replicate 16 0) 0 0 0 0.

Definition push_param (p : AnsiParser) : outcome AnsiParser :=
  p ← (if param_count p <? 16
       then ps ← aset (params p) (param_count p) (current_param p);
            mret (p <| params := ps |> <| param_count := param_count p + 1 |>)
       else mret p);
  mret (p <| current_param := 0 |>).

Definition finalize_param (p : AnsiParser) : outcome AnsiParser := push_param p.

Definition get_param (p : AnsiParser) (idx default : Z) : outcome Z :=
  if idx <? param_count p then v ← aget (params p) idx; mret (if 0 <? v then v else default)
  else mret default.

Definition between (lo hi x : Z) : bool := (lo <=? x) && (x <=? hi).

(** One parameter of [ESC \[ ... m]: the new action, and how many parameters it takes. *)
Definition sgr_param (p : AnsiParser) (i v : Z) (action : option TerminalAction) : outcome (option TerminalAction * Z) :=
  let plain a := mret (Some a, 1) in
  let extended (set : Z → TerminalAction) :=
    if i + 2 <=? param_count p then
      mode ← aget (params p) (i + 1);
      if mode =? 5 then cidx ← aget (params p) (i + 2); mret (Some (set (color_256 (u8 cidx))), 3)
      else mret (action, 1)
    else mret (action, 1) in
  if v =? 0 then plain ResetAttributes
  else if v =? 1 then plain (SetBold true)
  else if v =? 3 then plain (SetItalic true)
  else if v =? 4 then plain (SetUnderline true)
  else if v =? 7 then plain (SetInverse true)
  else if v =? 22 then plain (SetBold false)
  else if v =? 23 then plain (SetItalic false)
  else if v =? 24 then plain (SetUnderline false)
  else if v =? 27 then plain (SetInverse false)
  else if between 30 37 v then plain (SetFg (ansi_color (v - 30) false))
  else if v =? 38 then extended SetFg
  else if between 40 47 v then plain (SetBg (ansi_color (v - 40) false))
  else if v =? 48 then extended SetBg
  else if between 90 97 v then plain (SetFg (ansi_color (v - 90) true))
  else if between 100 107 v then plain (SetBg (ansi_color (v - 100) true))
  else mret (action, 1).

(** [while i <= self.param_count]: at most 17 turns. *)
Fixpoint sgr_loop (fuel : nat) (p : AnsiParser) (i : Z) (action : option TerminalAction) : outcome (option TerminalAction) :=
  if negb (i <=? param_count p) then mret action else
  match fuel with
  | O => OutOfFuel
  | S fuel =>
      v ← (if i =? param_count p then mret (current_param p) else aget (params p) i);
      '(action, n) ← sgr_param p i v action;
      sgr_loop fuel p (i + n) action
  end.

Definition feed_normal (p : AnsiParser) (byte : Z) : option TerminalAction * AnsiParser :=
  if byte =? 0x1B then (None, p <| state := Escape |> <| param_count := 0 |> <| current_param := 0 |>)
  else if byte =? 0x0A then (Some LineFeed, p)
  else if byte =? 0x0D then (Some CarriageReturn, p)
  else if byte =? 0x08 then (Some Backspace, p)
  else if byte =? 0x09 then (Some Tab, p)
  else if byte =? 0x07 then (Some Bell, p)
  else if byte =? 0x7F then (Some Backspace, p)
  else if 0x20 <=? byte then (Some (Print byte), p)
  else (None, p).

Definition feed_escape (p : AnsiParser) (byte : Z) : option TerminalAction * AnsiParser :=
  let done a := (a, p <| state := Normal |>) in
  if byte =? 91 (* [ *) then
    (None, p <| state := Csi |> <| params := replicate 16 0 |> <| param_count := 0 |> <| current_param := 0 |>)
  else if byte =? 93 (* ] *) then (None, p <| state := Osc |>)
  else if byte =? 55 (* 7 *) then done (Some SaveCursor)
  else if byte =? 56 (* 8 *) then done (Some RestoreCursor)
  else if byte =? 68 (* D *) then done (Some (MoveCursorDown 1))
  else if byte =? 77 (* M *) then done (Some (MoveCursorUp 1))
  else if byte =? 99 (* c *) then done (Some ResetAttributes)
  else done None.

(** The arms [A] to [D]: a movement by the first parameter. *)
Definition csi_move (p : AnsiParser) (move : Z → TerminalAction) : outcome (option TerminalAction * AnsiParser) :=
  p ← finalize_param p;
  n ← get_param p 0 1;
  mret (Some (move n), p <| state := Normal |>).

(** The arms [J] and [K]. *)
Definition csi_clear (p : AnsiParser) (rest whole : TerminalAction) : outcome (option TerminalAction * AnsiParser) :=
  p ← finalize_param p;
  n ← get_param p 0 0;
  mret (Some (if (n =? 0) || (n =? 1) then rest else whole), p <| state := Normal |>).

Definition csi_sgr (p : AnsiParser) : outcome (option TerminalAction * AnsiParser) :=
  p ← finalize_param p;
  let p := p <| state := Normal |> in
  if param_count p =? 0 then mret (Some ResetAttributes, p) else
  action ← sgr_loop 17 p 0 None;
  mret (action, p).

Definition csi_position (p : AnsiParser) : outcome (option TerminalAction * AnsiParser) :=
  p ← finalize_param p;
  row ← get_param p 0 1;
  col ← get_param p 1 1;
  mret (Some (MoveCursor (Z.max 0 (row - 1)) (Z.max 0 (col - 1))), p <| state := Normal |>).

Definition feed_csi (p : AnsiParser) (byte : Z) : outcome (option TerminalAction * AnsiParser) :=
  if between 48 57 byte then
    mret (None, p <| current_param := u16 (u16 (current_param p * 10) + (byte - 48)) |>)
  else if byte =? 59 (* ; *) then p ← push_param p; mret (None, p)
  else if byte =? 65 (* A *) then csi_move p MoveCursorUp
  else if byte =? 66 (* B *) then csi_move p MoveCursorDown
  else if byte =? 67 (* C *) then csi_move p MoveCursorRight
  else if byte =? 68 (* D *) then csi_move p MoveCursorLeft
  else if (byte =? 72 (* H *)) || (byte =? 102 (* f *)) then csi_position p
  else if byte =? 74 (* J *) then csi_clear p ClearToEndOfScreen ClearScreen
  else if byte =? 75 (* K *) then csi_clear p ClearToEndOfLine ClearLine
  else if byte =? 109 (* m *) then csi_sgr p
  else if byte =? 115 (* s *) then mret (Some SaveCursor, p <| state := Normal |>)
  else if byte =? 117 (* u *) then mret (Some RestoreCursor, p <| state := Normal |>)
  else mret (None, p <| state := Normal |>).

Definition feed (p : AnsiParser) (byte : Z) : outcome (option TerminalAction * AnsiParser) :=
  match state p with
  | Normal => mret (feed_normal p byte)
  | Escape => mret (feed_escape p byte)
  | Csi => feed_csi p byte
  | Osc => mret (None, if (byte =? 0x07) || (byte =? 0x1B) then p <| state := Normal |> else p)
  end.

(** ** The emulator *)

Record TerminalCell : Type := MkCell {
  ch : Z; c_fg : Z; c_bg : Z; c_bold : bool; c_italic : bool; c_underline : bool; c_inverse : bool;
}.

Definition TerminalCell_new : TerminalCell := MkCell 32 0xFFD0D0D0 0xFF1E1E2E false false false false.

Record Rect : Type := MkRect { r_x : Z; r_y : Z; r_width : Z; r_height : Z }.

Record TerminalEmulator : Type := MkTerm {
  cols : Z;
  rows : Z;
  screen : list (list TerminalCell);
  cursor_x : Z;
  cursor_y : Z;
  scrollback : list (list TerminalCell);
  scrollback_rows : Z;
  fg_color : Z;
  bg_color : Z;
  selection_start : option (Z * Z);
  selection_end : option (Z * Z);
  cursor_visible : bool;
  cursor_row : Z;
  cursor_col : Z;
  parser : AnsiParser;
  bold : bool;
  italic : bool;
  underline : bool;
  inverse : bool;
  dirty : bool;
  client_rect : Rect;
}.
#[export] Instance TerminalEmulator_eta : Eta TerminalEmulator := λ t,
  MkTerm (cols t) (rows t) (screen t) (cursor_x t) (cursor_y t) (scrollback t) (scrollback_rows t) (fg_color t)
    (bg_color t) (selection_start t) (selection_end t) (cursor_visible t) (cursor_row t) (cursor_col t) (parser t)
    (bold t) (italic t) (underline t) (inverse t) (dirty t) (client_rect t).

Definition MAX_COLS : Z := 256.
Definition MAX_ROWS : Z := 64.

Definition blank_line : list TerminalCell := replicate 256 TerminalCell_new.

Definition TerminalEmulator_new (c r : Z) : TerminalEmulator :=
  MkTerm (Z.min c MAX_COLS) (Z.min r MAX_ROWS) (replicate 64 blank_line) 0 0 (replicate 512 blank_line) 0
    0xFFD0D0D0 0xFF1E1E2E None None true 0 0 AnsiParser_new false false false false true
    (MkRect 0 0 (u32 (c * 8)) (u32 (r * 16))).

(** [for col in lo..hi { row[col] = TerminalCell::new(); }] *)
Definition clear_cells (lo hi : Z) (row : list TerminalCell) : list TerminalCell :=
  imap (λ j c, if (lo <=? Z.of_nat j) && (Z.of_nat j <? hi) then TerminalCell_new else c) row.

(** The same for every row from [lo] to [hi], columns from 0. *)
Definition clear_rows (t : TerminalEmulator) (lo hi : Z) : list (list TerminalCell) :=
  imap (λ i r, if (lo <=? Z.of_nat i) && (Z.of_nat i <? hi) then clear_cells 0 (cols t) r else r) (screen t).

(** [for col in 0..n { dst[col] = src[col]; }] *)
Definition copy_cells (n : Z) (src dst : list TerminalCell) : list TerminalCell :=
  imap (λ j c, if Z.of_nat j <? n then default c (src !! j) else c) dst.

(** Row [i] of the screen. *)
Definition line (t : TerminalEmulator) (i : Z) : list TerminalCell := default blank_line (screen t !! Z.to_nat i).

(** One turn of the loop that saves the rows that scroll out. *)
Definition save_row (t : TerminalEmulator) (i : Z) : TerminalEmulator :=
  let sb_idx := Z.to_nat (scrollback_rows t mod 512) in
  t <| scrollback := alter (copy_cells (cols t) (line t i)) sb_idx (scrollback t) |>
    <| scrollback_rows := u64 (scrollback_rows t + 1) |>.

Definition scroll_up (t : TerminalEmulator) (n : Z) : TerminalEmulator :=
  let scroll_rows := Z.min n (rows t) in
  let t := foldl save_row t (zseq 0 scroll_rows) in
  let scr := imap (λ i r,
      let i := Z.of_nat i in
      if i <? rows t - scroll_rows then copy_cells (cols t) (line t (i + scroll_rows)) r
      else if i <? rows t then clear_cells 0 (cols t) r
      else r) (screen t) in
  let t := t <| screen := scr |> in
  let t := if Z.max 0 (rows t - u32 n) <=? cursor_row t then t <| cursor_row := u32 (rows t - 1) |> else t in
  t <| dirty := true |>.

Definition scroll_down (t : TerminalEmulator) (n : Z) : TerminalEmulator :=
  let scroll_rows := Z.min n (rows t) in
  let scr := imap (λ i r,
      let i := Z.of_nat i in
      if i <? scroll_rows then clear_cells 0 (cols t) r
      else if i <? rows t then copy_cells (cols t) (line t (i - scroll_rows)) r
      else r) (screen t) in
  t <| screen := scr |> <| dirty := true |>.

(** The cell at the cursor, as [put_char] overwrites it. *)
Definition paint (t : TerminalEmulator) (c : Z) (cell : TerminalCell) : TerminalCell :=
  MkCell (if (c =? 10) || (c =? 13) then 32 else c)
    (if inverse t then bg_color t else fg_color t) (if inverse t then fg_color t else bg_color t)
    (bold t) (italic t) (underline t) (c_inverse cell).

(** The start of [put_char]: a new line when the cursor is past the last column. *)
Definition wrap_line (t : TerminalEmulator) : TerminalEmulator :=
  if cols t <=? cursor_col t then
    let t := t <| cursor_col := 0 |> <| cursor_row := u32 (cursor_row t + 1) |> in
    if rows t <=? cursor_row t then scroll_up t 1 <| cursor_row := u32 (rows t - 1) |> else t
  else t.

Definition put_char (t : TerminalEmulator) (c : Z) : outcome TerminalEmulator :=
  let t := wrap_line t in
  r ← aget (screen t) (cursor_row t);
  cell ← aget r (cursor_col t);
  r ← aset r (cursor_col t) (paint t c cell);
  scr ← aset (screen t) (cursor_row t) r;
  let t := t <| screen := scr |> <| cursor_col := u32 (cursor_col t + 1) |> in
  mret (t <| cursor_x := cursor_col t |> <| cursor_y := cursor_row t |> <| dirty := true |>).

Definition reset_attributes (t : TerminalEmulator) : TerminalEmulator :=
  t <| fg_color := 0xFFD0D0D0 |> <| bg_color := 0xFF1E1E2E |> <| bold := false |> <| italic := false |>
    <| underline := false |> <| inverse := false |>.

(** Clear part of the row of the cursor; with no column to clear the row is not looked at. *)
Definition clear_in_row (t : TerminalEmulator) (lo : Z) : outcome TerminalEmulator :=
  scr ← (if lo <? cols t
         then r ← aget (screen t) (cursor_row t); aset (screen t) (cursor_row t) (clear_cells lo (cols t) r)
         else mret (screen t));
  mret (t <| screen := scr |> <| dirty := true |>).

Definition clear (t : TerminalEmulator) : TerminalEmulator :=
  t <| screen := clear_rows t 0 (rows t) |> <| cursor_row := 0 |> <| cursor_col := 0 |> <| dirty := true |>.

Definition apply_action (t : TerminalEmulator) (action : TerminalAction) : outcome TerminalEmulator :=
  match action with
  | Print c => put_char t c
  | MoveCursor row col =>
      mret (t <| cursor_row := Z.min row (u32 (rows t - 1)) |> <| cursor_col := Z.min col (u32 (cols t - 1)) |>)
  | MoveCursorUp n => mret (t <| cursor_row := Z.max 0 (cursor_row t - n) |>)
  | MoveCursorDown n => mret (t <| cursor_row := Z.min (u32 (cursor_row t + n)) (u32 (rows t - 1)) |>)
  | MoveCursorLeft n => mret (t <| cursor_col := Z.max 0 (cursor_col t - n) |>)
  | MoveCursorRight n => mret (t <| cursor_col := Z.min (u32 (cursor_col t + n)) (u32 (cols t - 1)) |>)
  | ClearScreen => mret (clear t)
  | ClearLine => clear_in_row t 0
  | ClearToEndOfLine => clear_in_row t (cursor_col t)
  | ClearToEndOfScreen => mret (t <| screen := clear_rows t (cursor_row t) (rows t) |> <| dirty := true |>)
  | SetFg c => mret (t <| fg_color := c |>)
  | SetBg c => mret (t <| bg_color := c |>)
  | SetBold b => mret (t <| bold := b |>)
  | SetItalic i => mret (t <| italic := i |>)
  | SetUnderline u => mret (t <| underline := u |>)
  | SetInverse i => mret (t <| inverse := i |>)
  | ResetAttributes => mret (reset_attributes t)
  | SaveCursor => mret (t <| parser := parser t <| saved_x := cursor_col t |> <| saved_y := cursor_row t |> |>)
  | RestoreCursor => mret (t <| cursor_col := saved_x (parser t) |> <| cursor_row := saved_y (parser t) |>)
  | ScrollUp n => mret (scroll_up t n)
  | ScrollDown n => mret (scroll_down t n)
  | Bell => mret t
  | SetCursorVisible v => mret (t <| cursor_visible := v |>)
  | CarriageReturn => mret (t <| cursor_col := 0 |>)
  | LineFeed =>
      mret (if rows t <=? u32 (cursor_row t + 1) then scroll_up t 1
            else t <| cursor_row := u32 (cursor_row t + 1) |>)
  | Backspace => mret (if 0 <? cursor_col t then t <| cursor_col := cursor_col t - 1 |> else t)
  | Tab => mret (t <| cursor_col := Z.min (u32 ((cursor_col t / 8 + 1) * 8)) (u32 (cols t - 1)) |>)
  end.

Definition write (t : TerminalEmulator) (byte : Z) : outcome TerminalEmulator :=
  '(action, p) ← feed (parser t) byte;
  let t := t <| parser := p |> in
  match action with Some a => apply_action t a | None => mret t end.

Definition write_str (t : TerminalEmulator) (s : list Z) : outcome TerminalEmulator := for_each write t s.

Definition set_client_rect (t : TerminalEmulator) (x y w h : Z) : TerminalEmulator :=
  t <| client_rect := MkRect x y w h |> <| cols := Z.min (Z.max (w / 8) 8) MAX_COLS |>
    <| rows := Z.min (Z.max (h / 16) 4) MAX_ROWS |>.

Definition handle_key (keycode modifier : Z) : option Z :=
  if keycode =? 28 (* KEY_ENTER *) then Some 10
  else if keycode =? 14 (* KEY_BACKSPACE *) then Some 0x7F
  else if keycode =? 15 (* KEY_TAB *) then Some 9
  else if between 79 82 keycode (* KEY_RIGHT, KEY_LEFT, KEY_DOWN, KEY_UP *) then Some 0x1B
  else let shift := negb (Z.land modifier 1 =? 0) in
       Input.keycode_to_ascii_caps keycode shift false.

Definition handle_click (t : TerminalEmulator) (x y : Z) : TerminalEmulator :=
  let col := u32 (x - r_x (client_rect t)) / 8 in
  if col <? cols t then t <| selection_start := Some (col, cursor_row t) |> <| selection_end := None |> else t.

Definition handle_paste (t : TerminalEmulator) (text : list Z) : outcome TerminalEmulator := for_each write t text.

(** [delta] is an [i32]; its negation wraps around. *)
Definition scroll (t : TerminalEmulator) (delta : Z) : TerminalEmulator :=
  if 0 <? delta then scroll_up t delta else scroll_down t (u64 (to_signed 32 (- delta))).

Definition resize (t : TerminalEmulator) (c r : Z) : TerminalEmulator :=
  let t := t <| cols := Z.min c MAX_COLS |> <| rows := Z.min r MAX_ROWS |> in
  t <| cursor_row := Z.min (cursor_row t) (u32 (rows t - 1)) |> <| cursor_col := Z.min (cursor_col t) (u32 (cols t - 1)) |>
    <| dirty := true |>.

(** ** Style sequences *)

Record parser_ok (p : AnsiParser) : Prop := {
  po_params : length (params p) = 16%nat ∧ Forall (λ v, 0 <= v) (params p);
  po_count : 0 <= param_count p <= 16;
  po_current : 0 <= current_param p;
  po_saved : 0 <= saved_x p <= 256 ∧ 0 <= saved_y p < 64;
}.

Definition action_ok (a : TerminalAction) : Prop :=
  match a with
  | MoveCursor row col => 0 <= row ∧ 0 <= col
  | MoveCursorUp n | MoveCursorDown n | MoveCursorLeft n | MoveCursorRight n => 0 <= n
  | ScrollUp _ | ScrollDown _ => False
  | _ => True
  end.

(** Parameters, read from the left, that end with 38;5 or 48;5 and no colour number
    behind it. *)
Fixpoint open_colour (ps : list Z) : bool :=
  match ps with
  | [] => false
  | v :: rest =>
      if (v =? 38) || (v =? 48) then
        match rest with
        | 5 :: [] => true
        | 5 :: _ :: rest' => open_colour rest'
        | _ => open_colour rest
        end
      else open_colour rest
  end.

(** The parameters read so far, and those from number [i] on. *)
Definition given (p : AnsiParser) : list Z := take (Z.to_nat (param_count p)) (params p).
Definition open_from (p : AnsiParser) (i : Z) : bool := open_colour (drop (Z.to_nat i) (given p)).

Definition style (a : option TerminalAction) : Prop := match a with Some a => action_ok a | None => True end.

Lemma open_colour_step v m rest : (v =? 38) || (v =? 48) = true →
  open_colour (v :: m :: rest) =
    if m =? 5 then match rest with [] => true | _ :: rest' => open_colour rest' end else open_colour (m :: rest).
Proof.
  intros Hv. cbn [open_colour]. rewrite Hv. destruct (m =? 5) eqn:E; bools; [by subst m; destruct rest |].
  destruct m as [| [[] | [] |] |]; try done. by destruct p.
Qed.

Lemma given_at p i v : parser_ok p → 0 <= i < param_count p → params p !! Z.to_nat i = Some v →
  drop (Z.to_nat i) (given p) = v :: drop (Z.to_nat (i + 1)) (given p).
Proof.
  intros [[Hl _] Hc _ _] Hi Hv. replace (Z.to_nat (i + 1)) with (S (Z.to_nat i)) by lia. apply drop_S.
  unfold given. by rewrite lookup_take_lt by lia.
Qed.

Lemma given_end p i : parser_ok p → param_count p <= i → drop (Z.to_nat i) (given p) = [].
Proof. intros [[Hl _] Hc _ _] Hi. apply drop_ge. unfold given. rewrite length_take. lia. Qed.

(** A parameter takes one or three; behind an open colour it takes one that is not
    there, and that is outside the array when sixteen are. *)
Definition param_spec (p : AnsiParser) (i : Z) (r : outcome (option TerminalAction * Z)) : Prop :=
  (∃ a n, r = Done (a, n) ∧ style a ∧ 1 <= n ∧
    (i + n <= param_count p ∧ open_from p (i + n) = open_from p i ∨
     i + n = param_count p + 1 ∧ open_from p i = true ∧ param_count p < 16)) ∨
  r = Panic ∧ open_from p i = true ∧ param_count p = 16.

Lemma extended_run p i v a (set : Z → TerminalAction) :
  parser_ok p → 0 <= i < param_count p → params p !! Z.to_nat i = Some v → style a →
  (∀ c, action_ok (set c)) → (v =? 38) || (v =? 48) = true →
  param_spec p i
    (if i + 2 <=? param_count p
     then mode ← aget (params p) (i + 1);
          if mode =? 5 then cidx ← aget (params p) (i + 2); mret (Some (set (color_256 (u8 cidx))), 3)
          else mret (a, 1)
     else mret (a, 1)).
Proof.
  intros Hp Hi Hv Ha Hset He. pose proof Hp as [[Hl _] Hc _ _]. pose proof (given_at p i v Hp Hi Hv) as Hg.
  destruct (i + 2 <=? param_count p) eqn:E; bools; cycle 1.
  { left. exists a, 1. do 3 (split; [done |]). left. split; [lia |]. unfold open_from.
    rewrite Hg, (given_end p (i + 1)) by (done || lia). cbn. by rewrite He. }
  destruct (lookup_lt_is_Some_2 (params p) (Z.to_nat (i + 1))) as [m Hm]; [lia |].
  rewrite (proj2 (aget_lookup (params p) (i + 1) m)) by (split; [lia | exact Hm]). cbn [mbind outcome_bind].
  pose proof (given_at p (i + 1) m Hp ltac:(lia) Hm) as Hg1.
  assert (open_from p i = if m =? 5 then match drop (Z.to_nat (i + 2)) (given p) with
    [] => true | _ :: rest => open_colour rest end else open_from p (i + 1)) as Ho.
  { unfold open_from. rewrite Hg, Hg1, open_colour_step by done. by replace (i + 1 + 1) with (i + 2) by lia. }
  destruct (m =? 5); [| left; exists a, 1; do 3 (split; [done |]); left; split; [lia | done]].
  destruct (decide (i + 2 = param_count p)) as [Hend | Hin].
  - rewrite (given_end p (i + 2)) in Ho by (done || lia). destruct (decide (param_count p = 16)) as [H16 | H16].
    + right. rewrite aget_out_of_range by (unfold zlen; lia). done.
    + left. destruct (aget_in_range (params p) (i + 2)) as [c ->]; [unfold zlen; lia |]. cbn [mbind outcome_bind].
      eexists _, 3. split; [reflexivity |]. split; [apply Hset |]. split; [lia |]. right. split; [lia |]. split; [done | lia].
  - left. destruct (lookup_lt_is_Some_2 (params p) (Z.to_nat (i + 2))) as [c Hx]; [lia |].
    rewrite (proj2 (aget_lookup (params p) (i + 2) c)) by (split; [lia | exact Hx]). cbn [mbind outcome_bind].
    rewrite (given_at p (i + 2) c Hp ltac:(lia) Hx) in Ho.
    eexists _, 3. split; [reflexivity |]. split; [apply Hset |]. split; [lia |]. left. split; [lia |]. rewrite Ho.
    unfold open_from. by replace (i + 2 + 1) with (i + 3) by lia.
Qed.

Lemma sgr_param_run p i v a :
  parser_ok p → 0 <= i < param_count p → params p !! Z.to_nat i = Some v → style a →
  param_spec p i (sgr_param p i v a).
Proof.
  intros Hp Hi Hv Ha. unfold sgr_param.
  assert ((v =? 38) || (v =? 48) = false → ∀ b, style b → param_spec p i (Done (b, 1))) as Hone.
  { intros Hne b Hb. left. exists b, 1. do 3 (split; [done |]). left. split; [lia |]. unfold open_from.
    rewrite (given_at p i v Hp Hi Hv). cbn. by rewrite Hne. }
  unfold between in *.
  repeat (match goal with |- context [if ?b then _ else _] => destruct b eqn:? end;
    [first [apply (extended_run p i v a); done || (bools; lia) | apply Hone; [bools; lia | done]] |]).
  apply Hone; [by bools; lia | done].
Qed.

Lemma sgr_loop_run fuel p i a :
  parser_ok p → current_param p = 0 → 0 <= i <= param_count p → (param_count p + 1 - i <= Z.of_nat fuel) → style a →
  if open_from p i && (param_count p =? 16) then sgr_loop fuel p i a = Panic
  else ∃ a', sgr_loop fuel p i a = Done a' ∧ style a' ∧ (open_from p i = false → a' = Some ResetAttributes).
Proof.
  intros Hp Hz. pose proof Hp as [[Hl _] Hc _ _].
  assert (∀ fuel i a, param_count p < i → sgr_loop fuel p i a = Done a) as Hover.
  { intros f j b Hj. destruct f; cbn [sgr_loop]; by rewrite (proj2 (Z.leb_gt _ _)) by lia. }
  revert i a. induction fuel as [| fuel IH]; intros i a Hi Hf Ha; [lia |]. cbn [sgr_loop].
  rewrite (proj2 (Z.leb_le _ _)) by lia. cbn [negb]. destruct (i =? param_count p) eqn:Ei; bools.
  - unfold open_from. rewrite given_end by (done || lia). cbn [open_colour andb mbind outcome_bind mret outcome_ret].
    rewrite Hz. change (sgr_param p i 0 a) with (Done (Some ResetAttributes, 1) : outcome (option TerminalAction * Z)).
    cbn [mbind outcome_bind]. rewrite Hover by lia. by exists (Some ResetAttributes).
  - destruct (lookup_lt_is_Some_2 (params p) (Z.to_nat i)) as [v Hv]; [lia |].
    rewrite (proj2 (aget_lookup _ _ _)) by (split; [lia | done]). cbn [mbind outcome_bind].
    destruct (sgr_param_run p i v a Hp ltac:(lia) Hv Ha) as [(a1 & n & -> & Ha1 & Hn & Hin) | (-> & -> & ->)]; [| done].
    cbn [mbind outcome_bind]. destruct Hin as [[Hin Ho] | (Hend & Ho & H16)].
    + rewrite <- Ho. apply IH; [lia | lia | done].
    + rewrite Ho, (proj2 (Z.eqb_neq _ _)), Hover by lia. cbn. by exists a1.
Qed.

(** ** The parser returns *)

Lemma push_param_run p :
  parser_ok p →
  ∃ p', push_param p = Done p' ∧ parser_ok p' ∧ current_param p' = 0 ∧ state p' = state p ∧ 1 <= param_count p'.
Proof.
  intros [[Hl Hp] Hc Hcur Hs]. unfold push_param. destruct (param_count p <? 16) eqn:E; bools.
  - rewrite aset_in_range by (unfold zlen; lia). cbn [mbind outcome_bind]. eexists. split; [reflexivity |].
    split; [| cbn; split; [done |]; split; [done | lia]].
    split; cbn; [split; [by rewrite length_insert | by apply Forall_insert] | lia | lia | done].
  - cbn [mbind outcome_bind]. eexists. split; [reflexivity |]. split; [by split |]. cbn. split; [done |]. split; [done | lia].
Qed.

Lemma get_param_run p idx d : parser_ok p → 0 <= idx → 0 <= d → ∃ v, get_param p idx d = Done v ∧ 0 <= v.
Proof.
  intros [[Hl Hp] Hc _ _] Hi Hd. unfold get_param. destruct (idx <? param_count p) eqn:E; [| by exists d]. bools.
  destruct (aget_in_range (params p) idx) as [v ->]; [unfold zlen; lia |]. cbn [mbind outcome_bind].
  eexists. split; [reflexivity |]. destruct (0 <? v) eqn:Ev; bools; lia.
Qed.

(** With the last one, the parameters end with an open colour, and sixteen are given. *)
Definition sgr_open (p : AnsiParser) : Prop := ∃ p', push_param p = Done p' ∧ open_colour (given p') = true.
Definition sgr_bad (p : AnsiParser) : Prop :=
  ∃ p', push_param p = Done p' ∧ param_count p' = 16 ∧ open_colour (given p') = true.

Lemma csi_sgr_run p : parser_ok p →
  sgr_bad p ∧ csi_sgr p = Panic ∨
  ¬ sgr_bad p ∧ ∃ a p', csi_sgr p = Done (a, p') ∧ parser_ok p' ∧ style a ∧ (¬ sgr_open p → a = Some ResetAttributes).
Proof.
  intros Hp. unfold csi_sgr, sgr_bad, sgr_open. destruct (push_param_run p Hp) as (p1 & E & Hp1 & Hz & _ & H1).
  unfold finalize_param. rewrite E. cbn [mbind outcome_bind]. set (p2 := p1 <| state := Normal |>).
  assert (parser_ok p2) as Hp2 by (by destruct Hp1). pose proof Hp2 as [_ Hc _ _].
  change (param_count p2) with (param_count p1) in *. rewrite (proj2 (Z.eqb_neq _ 0)) by lia.
  pose proof (sgr_loop_run 17 p2 0 None Hp2 Hz) as Hrun. change (param_count p2) with (param_count p1) in Hrun.
  specialize (Hrun ltac:(lia) ltac:(lia) I). change (open_from p2 0) with (open_colour (given p1)) in Hrun.
  destruct (open_colour (given p1)) eqn:Eo; cbn [andb] in Hrun; [destruct (param_count p1 =? 16) eqn:E16; bools |].
  - left. rewrite Hrun. split; [by exists p1 | done].
  - right. destruct Hrun as (a & -> & Ha & _). split; [intros (p' & [= <-] & H16 & _); lia |].
    exists a, p2. do 3 (split; [done |]). intros Hn. destruct Hn. by exists p1.
  - right. destruct Hrun as (a & -> & Ha & Hr). split; [intros (p' & [= <-] & _ & H); congruence |].
    exists a, p2. do 3 (split; [done |]). intros _. by apply Hr.
Qed.

Definition byte_bad (p : AnsiParser) (b : Z) : Prop := state p = Csi ∧ b = 109 ∧ sgr_bad p.

(** A style sequence that sets something. *)
Definition byte_styles (p : AnsiParser) (b : Z) : Prop := state p = Csi ∧ b = 109 ∧ sgr_open p.

Definition inert (a : option TerminalAction) : Prop :=
  match a with
  | Some (SetFg _ | SetBg _ | SetBold _ | SetItalic _ | SetUnderline _ | SetInverse _) => False
  | _ => True
  end.

Definition feed_spec (p : AnsiParser) (b : Z) (r : outcome (option TerminalAction * AnsiParser)) : Prop :=
  ∃ a p', r = Done (a, p') ∧ parser_ok p' ∧ style a ∧ (¬ byte_styles p b → inert a).

Lemma csi_move_run p b f :
  parser_ok p → (∀ n, 0 <= n → action_ok (f n) ∧ inert (Some (f n))) → feed_spec p b (csi_move p f).
Proof.
  intros Hp Hf. unfold csi_move, finalize_param. destruct (push_param_run p Hp) as (p1 & -> & Hp1 & _). cbn [mbind outcome_bind].
  destruct (get_param_run p1 0 1 Hp1) as (v & -> & Hv); [lia | lia |]. cbn [mbind outcome_bind].
  eexists _, _. split; [reflexivity |]. split; [by destruct Hp1 |]. by split; [| intros _]; apply Hf.
Qed.

Lemma csi_clear_run p b x y :
  parser_ok p → action_ok x → action_ok y → inert (Some x) → inert (Some y) → feed_spec p b (csi_clear p x y).
Proof.
  intros Hp Hx Hy Hix Hiy. unfold csi_clear, finalize_param. destruct (push_param_run p Hp) as (p1 & -> & Hp1 & _).
  cbn [mbind outcome_bind]. destruct (get_param_run p1 0 0 Hp1) as (v & -> & Hv); [lia | lia |]. cbn [mbind outcome_bind].
  eexists _, _. split; [reflexivity |]. split; [by destruct Hp1 |]. by destruct (_ || _).
Qed.

Lemma csi_position_run p b : parser_ok p → feed_spec p b (csi_position p).
Proof.
  intros Hp. unfold csi_position, finalize_param. destruct (push_param_run p Hp) as (p1 & -> & Hp1 & _). cbn [mbind outcome_bind].
  destruct (get_param_run p1 0 1 Hp1) as (v & -> & Hv); [lia | lia |]. cbn [mbind outcome_bind].
  destruct (get_param_run p1 1 1 Hp1) as (w & -> & Hw); [lia | lia |]. cbn [mbind outcome_bind].
  eexists _, _. split; [reflexivity |]. split; [by destruct Hp1 |]. split; [cbn; lia | done].
Qed.

Lemma feed_run p b : parser_ok p → is_byte b → ¬ byte_bad p b → feed_spec p b (feed p b).
Proof.
  intros Hp Hb Hbad. pose proof Hp as [Hpar Hc Hcur Hsav].
  assert (∀ a s, style a → inert a → feed_spec p b (Done (a, p <| state := s |>))) as Hend.
  { intros a s Ha Hi. eexists _, _. split; [reflexivity |]. split; [by split |]. done. }
  assert (∀ a, style a → inert a → feed_spec p b (Done (a, p))) as Hsame.
  { intros a Ha Hi. eexists _, _. split; [reflexivity |]. done. }
  assert (∀ a c d, style a → inert a → 0 <= c <= 16 → 0 <= d →
    feed_spec p b (Done (a, p <| state := Escape |> <| param_count := c |> <| current_param := d |>))) as Hesc.
  { intros a c d Ha Hi H1 H2. eexists _, _. split; [reflexivity |]. split; [by split |]. done. }
  unfold feed. destruct (state p) eqn:Es.
  - unfold feed_normal. repeat (case_match; [first [by apply Hesc; [| | lia | lia] | by apply Hsame] |]). by apply Hsame.
  - unfold feed_escape. cbv zeta. case_match.
    + eexists _, _. split; [reflexivity |]. split; [| done]. split; cbn; [| lia | lia | done].
      split; [done | apply (Forall_replicate _ 16 0); lia].
    + repeat (case_match; [by apply Hend |]). by apply Hend.
  - unfold feed_csi. case_match.
    { eexists _, _. split; [reflexivity |]. split; [| done]. split; try done. apply wrap_bound. lia. }
    case_match.
    { destruct (push_param_run p Hp) as (p1 & -> & Hp1 & _). cbn [mbind outcome_bind]. eexists _, _. by split. }
    do 4 (case_match; [by apply csi_move_run |]). case_match; [by apply csi_position_run |].
    do 2 (case_match; [by apply csi_clear_run |]). case_match.
    { bools. subst b. destruct (csi_sgr_run p Hp) as [[Hsb _] | (_ & a & p' & -> & Hp' & Ha & Hi)]; [by destruct Hbad |].
      eexists _, _. split; [reflexivity |]. split; [done |]. split; [done |]. intros Hst.
      rewrite Hi; [done |]. intros Ho. by apply Hst. }
    do 2 (case_match; [by apply Hend |]). by apply Hend.
  - case_match; [by apply Hend | by apply Hsame].
Qed.

Lemma feed_panics p b : parser_ok p → byte_bad p b → feed p b = Panic.
Proof.
  intros Hp (Hs & -> & Hb). unfold feed. rewrite Hs. change (feed_csi p 109) with (csi_sgr p).
  by destruct (csi_sgr_run p Hp) as [[_ E] | [Hn _]].
Qed.

(** ** The grid *)

Definition grid (n : nat) (l : list (list TerminalCell)) : Prop := length l = n ∧ Forall (λ r, length r = 256%nat) l.

Lemma grid_imap n f l : grid n l → (∀ i r, length (f i r) = length r) → grid n (imap f l).
Proof.
  intros [Hl Hr] Hf. split; [by rewrite length_imap |]. apply Forall_lookup_2. intros i r Hi.
  rewrite list_lookup_imap in Hi. apply fmap_Some in Hi as (r' & Hi & ->). rewrite Hf. by eapply Forall_lookup_1 in Hr.
Qed.

Lemma grid_insert n l i r : grid n l → length r = 256%nat → grid n (<[i := r]> l).
Proof. intros [Hl Hr] H. split; [by rewrite length_insert | by apply Forall_insert]. Qed.

Lemma length_clear lo hi r : length (clear_cells lo hi r) = length r.
Proof. apply length_imap. Qed.

Lemma length_copy n src dst : length (copy_cells n src dst) = length dst.
Proof. apply length_imap. Qed.

Lemma grid_row n l i : grid n l → 0 <= i < Z.of_nat n → ∃ r, aget l i = Done r ∧ length r = 256%nat.
Proof.
  intros [Hl Hr] Hi. destruct (aget_in_range l i) as [r E]; [unfold zlen; lia |]. exists r. split; [done |].
  apply aget_lookup in E as [_ E]. by eapply Forall_lookup_1 in Hr.
Qed.

Record frame_ok (t : TerminalEmulator) : Prop := {
  fo_dims : 1 <= cols t <= 256 ∧ 1 <= rows t <= 64;
  fo_screen : grid 64 (screen t);
  fo_back : grid 512 (scrollback t);
  fo_parser : parser_ok (parser t);
}.

Record term_ok (t : TerminalEmulator) : Prop := {
  to_frame : frame_ok t;
  to_cursor : 0 <= cursor_row t < 64 ∧ 0 <= cursor_col t <= 256;
}.

Definition plain (t : TerminalEmulator) : Prop :=
  fg_color t = 0xFFD0D0D0 ∧ bg_color t = 0xFF1E1E2E ∧ bold t = false ∧ italic t = false ∧ underline t = false ∧ inverse t = false.

(** Only the ring changes. *)
Lemma save_rows_shape t l :
  grid 512 (scrollback t) →
  ∃ sb n, foldl save_row t l = t <| scrollback := sb |> <| scrollback_rows := n |> ∧ grid 512 sb.
Proof.
  revert t. induction l as [| i l IH]; intros t Ht; cbn [foldl]; [by exists (scrollback t), (scrollback_rows t); destruct t |].
  destruct (IH (save_row t i)) as (sb & n & -> & Hsb); [| by exists sb, n].
  cbn. destruct Ht as [Hl Hr]. split; [by rewrite length_alter |]. apply Forall_alter; [done |].
  intros r _ Hlen. by rewrite length_copy.
Qed.

Lemma u32_pred n : 1 <= n <= 256 → u32 (n - 1) = n - 1.
Proof. intros Hn. apply wrap_small. unfold fits. lia. Qed.

Lemma scroll_up_frame t n :
  frame_ok t →
  frame_ok (scroll_up t n) ∧ rows (scroll_up t n) = rows t ∧ cols (scroll_up t n) = cols t ∧
  cursor_col (scroll_up t n) = cursor_col t ∧
  (cursor_row (scroll_up t n) = rows t - 1 ∨ cursor_row (scroll_up t n) = cursor_row t) ∧
  (plain t → plain (scroll_up t n)).
Proof.
  intros [[Hc Hr] Hs Hb Hp]. unfold scroll_up. cbv zeta.
  destruct (save_rows_shape t (zseq 0 (Z.min n (rows t))) Hb) as (sb & k & -> & Hsb).
  match goal with |- context [imap ?f ?l] => set (scr := imap f l) end.
  assert (grid 64 scr) as Hscr.
  { apply grid_imap; [done |]. intros i r. cbv zeta. repeat case_match; by rewrite ?length_copy, ?length_clear. }
  cbn -[wrap Z.sub Z.max scr] in *.
  destruct (_ <=? _); (split; [by split |]); cbn -[wrap Z.sub Z.max scr]; do 3 (split; [done |]); (split; [| done]);
    [left; apply u32_pred; lia | by right].
Qed.

Lemma scroll_up_ok t n : term_ok t → term_ok (scroll_up t n) ∧ (plain t → plain (scroll_up t n)).
Proof.
  intros [Hf [Hcr Hcc]]. destruct (scroll_up_frame t n Hf) as (Hf' & _ & _ & Hcol & Hrow & Hp). split; [| done].
  destruct Hf as [[Hc Hr] _ _ _]. split; [done |]. lia.
Qed.

Lemma scroll_down_ok t n : term_ok t → term_ok (scroll_down t n) ∧ (plain t → plain (scroll_down t n)).
Proof.
  intros [[Hd Hs Hb Hp] Hcur]. split; [| done]. unfold scroll_down. split; [| done]. split; try done. cbn.
  apply grid_imap; [done |]. intros i r. cbv zeta. repeat case_match; by rewrite ?length_copy, ?length_clear.
Qed.

Lemma clear_rows_ok t lo hi : frame_ok t → grid 64 (clear_rows t lo hi).
Proof. intros Ht. apply grid_imap; [apply Ht |]. intros i r. case_match; by rewrite ?length_clear. Qed.

Lemma wrap_line_ok t :
  term_ok t → term_ok (wrap_line t) ∧ cursor_col (wrap_line t) < cols (wrap_line t) ∧ (plain t → plain (wrap_line t)).
Proof.
  intros Ht. pose proof Ht as [Hf [Hcr Hcc]]. pose proof Hf as [[Hc Hr] Hs Hb Hp].
  unfold wrap_line. destruct (cols t <=? cursor_col t) eqn:E; bools; [| done].
  assert (u32 (cursor_row t + 1) = cursor_row t + 1) as Hu by (apply wrap_small; unfold fits; lia).
  set (t1 := t <| cursor_col := 0 |> <| cursor_row := u32 (cursor_row t + 1) |>).
  assert (frame_ok t1) as Hf1 by (by split).
  change (rows t1) with (rows t). change (cursor_row t1) with (u32 (cursor_row t + 1)).
  destruct (rows t <=? u32 (cursor_row t + 1)) eqn:E2; bools.
  - destruct (scroll_up_frame t1 1 Hf1) as (Hf' & Hr' & Hc' & Hcol & _ & Hpl). change (cols t1) with (cols t) in Hc'.
    change (cursor_col t1) with 0 in Hcol. rewrite u32_pred by lia.
    split; [| split; [cbn -[scroll_up Z.sub]; lia | intros Hpt; by apply Hpl]]. split; [by destruct Hf' |]. cbn -[scroll_up Z.sub]. lia.
  - split; [| split; [cbn; lia | done]]. split; [done |]. cbn -[wrap Z.add]. lia.
Qed.

Lemma put_char_run t c : term_ok t → ∃ t', put_char t c = Done t' ∧ term_ok t' ∧ (plain t → plain t').
Proof.
  intros Ht. destruct (wrap_line_ok t Ht) as (Ht1 & Hlt & Hpl). unfold put_char. cbv zeta.
  set (t1 := wrap_line t) in *. pose proof Ht1 as [Hf [Hcr Hcc]]. pose proof Hf as [[Hc Hr] Hs Hb Hp].
  destruct (grid_row 64 (screen t1) (cursor_row t1) Hs Hcr) as (r & -> & Hlr). cbn [mbind outcome_bind].
  destruct (aget_in_range r (cursor_col t1)) as [cell ->]; [unfold zlen; lia |]. cbn [mbind outcome_bind].
  rewrite aset_in_range by (unfold zlen; lia). cbn [mbind outcome_bind].
  rewrite aset_in_range by (destruct Hs; unfold zlen; lia). cbn [mbind outcome_bind].
  eexists. split; [reflexivity |]. split; [| done].
  assert (u32 (cursor_col t1 + 1) = cursor_col t1 + 1) as Hu by (apply wrap_small; unfold fits; lia).
  split; [split; try done; cbn; apply grid_insert; [done |]; by rewrite length_insert |]. cbn -[wrap Z.add]. lia.
Qed.

Lemma clear_in_row_run t lo :
  term_ok t → ∃ t', clear_in_row t lo = Done t' ∧ term_ok t' ∧ (plain t → plain t').
Proof.
  intros Ht. pose proof Ht as [Hf [Hcr Hcc]]. pose proof Hf as [[Hc Hr] Hs Hb Hp]. unfold clear_in_row.
  destruct (lo <? cols t); [| eexists; split; [reflexivity |]; split; [by split | done]].
  destruct (grid_row 64 (screen t) (cursor_row t) Hs Hcr) as (r & -> & Hlr). cbn [mbind outcome_bind].
  rewrite aset_in_range by (destruct Hs; unfold zlen; lia). cbn [mbind outcome_bind].
  eexists. split; [reflexivity |]. split; [| done]. split; [| done]. split; try done. cbn.
  apply grid_insert; [done |]. by rewrite length_clear.
Qed.

Lemma clear_ok t : term_ok t → term_ok (clear t) ∧ (plain t → plain (clear t)).
Proof.
  intros [Hf Hcur]. pose proof Hf as [Hd Hs Hb Hp]. split; [| done]. split; [| cbn; lia]. split; try done. by apply clear_rows_ok.
Qed.

Lemma u32_fits x : 0 <= x < 2 ^ 32 → u32 x = x.
Proof. intros. by apply wrap_small. Qed.

Lemma apply_action_run t a :
  term_ok t → action_ok a → ∃ t', apply_action t a = Done t' ∧ term_ok t' ∧ (inert (Some a) → plain t → plain t').
Proof.
  intros Ht Ha. pose proof Ht as [Hf [Hcr Hcc]]. pose proof Hf as [[Hc Hr] Hs Hb Hp].
  assert (∀ row col, 0 <= row < 64 → 0 <= col <= 256 → term_ok (t <| cursor_row := row |> <| cursor_col := col |>)) as Hmove
    by (intros; by split).
  assert (∀ row, 0 <= row < 64 → term_ok (t <| cursor_row := row |>)) as Hrow by (intros; by split).
  assert (∀ col, 0 <= col <= 256 → term_ok (t <| cursor_col := col |>)) as Hcol by (intros; by split).
  assert (∀ x, 0 <= u32 x) as Hu by (intros; apply wrap_bound; lia).
  destruct a; cbn [apply_action action_ok] in *; rewrite ?u32_pred by lia; try done;
    try (eexists; split; [reflexivity |]; split; [| done];
         first [by split | apply Hmove; lia | apply Hrow; specialize (Hu (cursor_row t + n)); lia
               | apply Hcol; specialize (Hu (cursor_col t + n)); lia | apply Hcol; lia]).
  - destruct (put_char_run t ch0 Ht) as (t' & -> & ? & ?). eauto.
  - eexists. split; [reflexivity |]. split; [by apply clear_ok |]. intros _. by apply clear_ok.
  - destruct (clear_in_row_run t 0 Ht) as (t' & -> & ? & ?). eauto.
  - destruct (clear_in_row_run t (cursor_col t) Ht) as (t' & -> & ? & ?). eauto.
  - eexists. split; [reflexivity |]. split; [| done]. split; [| done]. split; try done. by apply clear_rows_ok.
  - eexists. split; [reflexivity |]. split; [| done]. split; [| done]. split; try done. destruct Hp as [Hp1 Hp2 Hp3 Hp4]. by split.
  - eexists. split; [reflexivity |]. split; [| done]. destruct Hp as [Hp1 Hp2 Hp3 Hp4]. split; [done |]. cbn. lia.
  - eexists. split; [reflexivity |]. destruct (_ <=? _) eqn:E; bools.
    + destruct (scroll_up_ok t 1 Ht). auto.
    + split; [| done]. apply Hrow. specialize (Hu (cursor_row t + 1)). lia.
  - eexists. split; [reflexivity |]. destruct (_ <? _) eqn:E; bools; split; try done. apply Hcol. lia.
  - eexists. split; [reflexivity |]. split; [| done]. apply Hcol. specialize (Hu ((cursor_col t / 8 + 1) * 8)). lia.
Qed.

Lemma write_run t b :
  term_ok t → is_byte b → ¬ byte_bad (parser t) b →
  ∃ t', write t b = Done t' ∧ term_ok t' ∧ (¬ byte_styles (parser t) b → plain t → plain t').
Proof.
  intros Ht Hb Hbad. pose proof Ht as [[Hd Hs Hbk Hp] Hcur]. unfold write.
  destruct (feed_run (parser t) b Hp Hb Hbad) as (a & p & -> & Hp' & Ha & Hi). cbn [mbind outcome_bind].
  set (t1 := t <| parser := p |>). assert (term_ok t1) as Ht1 by (split; [by split | done]).
  destruct a as [a |]; [| by exists t1].
  destruct (apply_action_run t1 a Ht1 Ha) as (t' & -> & Ht' & Hpl). exists t'. split; [done |]. split; [done |].
  intros Hst. apply Hpl. by apply Hi.
Qed.

(** ** Operations *)

Inductive term_op : Type :=
| Write (b : Z) | SetRect (x y w h : Z) | Click (x y : Z) | Scroll (delta : Z) | SetSize (c r : Z) | ClearAll.

Definition term_step (t : TerminalEmulator) (o : term_op) : outcome TerminalEmulator :=
  match o with
  | Write b => write t b
  | SetRect x y w h => mret (set_client_rect t x y w h)
  | Click x y => mret (handle_click t x y)
  | Scroll delta => mret (scroll t delta)
  | SetSize c r => mret (resize t c r)
  | ClearAll => mret (clear t)
  end.

Definition op_ok (o : term_op) : Prop :=
  match o with
  | Write b => is_byte b
  | SetSize c r => 1 <= c ∧ 1 <= r
  | _ => True
  end.

(** The [m] of a style sequence with sixteen parameters that end with an open colour. *)
Definition op_bad (t : TerminalEmulator) (o : term_op) : Prop :=
  match o with Write b => byte_bad (parser t) b | _ => False end.

(** The [m] of a style sequence that ends with an open colour. *)
Definition op_styles (t : TerminalEmulator) (o : term_op) : Prop :=
  match o with Write b => byte_styles (parser t) b | _ => False end.

Lemma resize_ok t c r : term_ok t → 1 <= c → 1 <= r → term_ok (resize t c r) ∧ (plain t → plain (resize t c r)).
Proof.
  intros [[[Hc Hr] Hs Hb Hp] [Hcr Hcc]] H1 H2. split; [| done]. unfold resize, MAX_COLS, MAX_ROWS.
  split; [split; try done; cbn; lia |]. cbn -[wrap Z.sub Z.min]. rewrite !u32_pred by lia. lia.
Qed.

Lemma set_client_rect_ok t x y w h :
  term_ok t → term_ok (set_client_rect t x y w h) ∧ (plain t → plain (set_client_rect t x y w h)).
Proof.
  intros [[[Hc Hr] Hs Hb Hp] Hcur]. split; [| done]. unfold set_client_rect, MAX_COLS, MAX_ROWS.
  split; [split; try done; cbn -[Z.div]; lia | done].
Qed.

Lemma handle_click_ok t x y : term_ok t → term_ok (handle_click t x y) ∧ (plain t → plain (handle_click t x y)).
Proof. intros [[Hd Hs Hb Hp] Hcur]. unfold handle_click. cbv zeta. by destruct (_ <? _). Qed.

Lemma term_step_run t o :
  term_ok t → op_ok o → ¬ op_bad t o →
  ∃ t', term_step t o = Done t' ∧ term_ok t' ∧ (¬ op_styles t o → plain t → plain t').
Proof.
  intros Ht Ho Hbad. destruct o as [b | x y w h | x y | d | c r |]; cbn [term_step op_ok op_bad op_styles] in *.
  - by apply write_run.
  - destruct (set_client_rect_ok t x y w h Ht). eauto.
  - destruct (handle_click_ok t x y Ht). eauto.
  - eexists. split; [reflexivity |]. unfold scroll.
    destruct (0 <? d); [destruct (scroll_up_ok t d Ht) | destruct (scroll_down_ok t (u64 (to_signed 32 (- d))) Ht)]; auto.
  - destruct Ho. destruct (resize_ok t c r Ht); eauto.
  - destruct (clear_ok t Ht). eauto.
Qed.

Lemma term_new_ok c r : 1 <= c → 1 <= r → term_ok (TerminalEmulator_new c r) ∧ plain (TerminalEmulator_new c r).
Proof.
  intros Hc Hr. split; [| done]. unfold TerminalEmulator_new, MAX_COLS, MAX_ROWS.
  assert (∀ n, grid n (replicate n blank_line)) as Hg.
  { intros n. split; [apply length_replicate |]. by apply Forall_replicate. }
  split; [| cbn; lia]. split; [cbn; lia | apply Hg | apply Hg |].
  split; cbn; [| lia | lia | lia]. split; [done |]. apply (Forall_replicate _ 16 0). lia.
Qed.

(** States after operations that [allowed] admits. *)
Inductive term_reach (allowed : TerminalEmulator → term_op → Prop) : TerminalEmulator → Prop :=
| reach_new c r : 1 <= c → 1 <= r → term_reach allowed (TerminalEmulator_new c r)
| reach_step t o t' :
    term_reach allowed t → op_ok o → allowed t o → term_step t o = Done t' → term_reach allowed t'.

Lemma bad_styles t o : op_bad t o → op_styles t o.
Proof. destruct o as [b | | | | |]; try done. intros (Hs & Hb & (p & E & _ & He)). do 2 (split; [done |]). by exists p. Qed.

Lemma bad_panics t o : term_ok t → op_bad t o → term_step t o = Panic.
Proof.
  intros Ht Hbad. destruct o as [b | | | | |]; try done. cbn [term_step op_bad] in *. unfold write.
  rewrite feed_panics; [done | apply Ht | done].
Qed.

Lemma term_reach_ok allowed t : term_reach allowed t → term_ok t.
Proof.
  induction 1 as [c r Hc Hr | t o t' _ IH Ho Hal E]; [by apply term_new_ok |].
  destruct (term_step_run t o IH Ho) as (t1 & E1 & Hok & _); [| rewrite E in E1; by injection E1 as <-].
  intros Hbad%bad_panics; [congruence | done].
Qed.









(** Style sequences do nothing.
    After any sequence of operations, none of which completes a style sequence that
    ends with 38;5 or 48;5 and no colour number, the colours and styles are the defaults: the loop over
    the parameters always ends with a zero that is not there, and the reset it stands
    for replaces whatever the parameters asked for. *)
Theorem attributes_inert (t : TerminalEmulator) : term_reach (λ t o, ¬ op_styles t o) t → plain t.
Proof.
  intros H. induction H as [c r Hc Hr | t o t' Hreach IH Ho Hal E]; [by apply term_new_ok |].
  pose proof (term_reach_ok _ t Hreach) as Ht.
  destruct (term_step_run t o Ht Ho) as (t1 & E1 & _ & Hpl); [intros Hb; by apply Hal, bad_styles |].
  rewrite E in E1. injection E1 as <-. by apply Hpl.
Qed.

(** After ESC, bracket and 31m, which ask for red. *)
Definition ex_csi (count cur : Z) : TerminalEmulator :=
  TerminalEmulator_new 80 25 <| parser := MkParser Csi (replicate 16 0) count cur 0 0 |>.

Definition ex_red : TerminalEmulator :=
  reset_attributes (TerminalEmulator_new 80 25 <| parser := MkParser Normal (31 :: replicate 15 0) 1 0 0 0 |>).

Lemma attributes_inert_witness : write (ex_csi 0 31) 109 = Done ex_red ∧ plain ex_red.
Proof.
  split; [reflexivity |]. apply attributes_inert. set (ok := λ t o, ¬ op_styles t o).
  assert (∀ b, is_byte b → b ≠ 109 → ∀ t t', term_reach ok t → write t b = Done t' → term_reach ok t') as Hstep.
  { intros b Hb Hne t t' Ht E. apply (reach_step ok t (Write b) t' Ht Hb); [| exact E]. intros (_ & H & _). exact (Hne H). }
  apply (reach_step ok (ex_csi 0 31) (Write 109)); [| split; lia | | reflexivity].
  - apply (Hstep 49 ltac:(split; lia) ltac:(lia) (ex_csi 0 3)); [| reflexivity].
    apply (Hstep 51 ltac:(split; lia) ltac:(lia) (ex_csi 0 0)); [| reflexivity].
    apply (Hstep 91 ltac:(split; lia) ltac:(lia) (TerminalEmulator_new 80 25 <| parser := AnsiParser_new <| state := Escape |> |>));
      [| reflexivity].
    apply (Hstep 27 ltac:(split; lia) ltac:(lia) (TerminalEmulator_new 80 25)); [| reflexivity]. apply reach_new; lia.
  - intros (_ & _ & p & E & H). vm_compute in E. injection E as <-. vm_compute in H. discriminate H.
Defined.

(** The levels of a component that the code computes for the six of the cube. *)
Definition level (k : Z) : Z := if k =? 0 then 0 else if k =? 1 then 51 else 50.

(** The colour cube collapses.
    The products overflow eight bits: of the six levels of each component, which are
    meant to be 0, 51, 102, 153, 204 and 255, the code computes 0, 51 and four times 50. *)
Theorem cube_collapses (r g b : Z) :
  0 <= r < 6 → 0 <= g < 6 → 0 <= b < 6 →
  color_256 (16 + 36 * r + 6 * g + b) = rgba (level r) (level g) (level b) 0xFF.
Proof.
  intros Hr Hg Hb.
  assert (forallb (λ r, forallb (λ g, forallb (λ b,
    color_256 (16 + 36 * r + 6 * g + b) =? rgba (level r) (level g) (level b) 0xFF) (zseq 0 6)) (zseq 0 6)) (zseq 0 6) = true)
    as H by (vm_compute; reflexivity).
  assert (∀ x, 0 <= x < 6 → In x (zseq 0 6)) as Hin by (intros x Hx; by apply list_elem_of_In, elem_of_zseq).
  rewrite forallb_forall in H. specialize (H r (Hin _ Hr)). rewrite forallb_forall in H. specialize (H g (Hin _ Hg)).
  rewrite forallb_forall in H. specialize (H b (Hin _ Hb)). by apply Z.eqb_eq.
Qed.

Lemma cube_collapses_witness : color_256 (16 + 36 * 5 + 6 * 5 + 5) = rgba 50 50 50 0xFF.
Proof. exact (cube_collapses 5 5 5 ltac:(lia) ltac:(lia) ltac:(lia)). Defined.

(** ** One line up *)

Definition line_feed (t : TerminalEmulator) : TerminalEmulator :=
  if rows t <=? u32 (cursor_row t + 1) then scroll_up t 1 else t <| cursor_row := u32 (cursor_row t + 1) |>.

(** [scroll_up] by one row, with the loops unrolled. *)
Definition up_one (t : TerminalEmulator) : TerminalEmulator :=
  let s := save_row t 0 in
  s <| screen := imap (λ i r,
         let i := Z.of_nat i in
         if i <? rows t - 1 then copy_cells (cols t) (line t (i + 1)) r
         else if i <? rows t then clear_cells 0 (cols t) r else r) (screen t) |>
    <| cursor_row := rows t - 1 |> <| dirty := true |>.

Lemma scroll_up_one t : frame_ok t → rows t - 1 <= cursor_row t → scroll_up t 1 = up_one t.
Proof.
  intros [[Hc Hr] _ _ _] Hcur. unfold scroll_up, up_one. rewrite Z.min_l by lia.
  change (zseq 0 1) with [0]. cbn [foldl]. cbv zeta. change (rows (save_row t 0)) with (rows t).
  match goal with |- context [Z.max 0 (?x - u32 1) <=? ?y] => replace (Z.max 0 (x - u32 1) <=? y) with true end.
  - match goal with |- context [u32 (?x - 1)] => change x with (rows t) end. by rewrite u32_pred by lia.
  - symmetry. apply Z.leb_le. change (u32 1) with 1. cbn. lia.
Qed.

Lemma wrap_as_feed t :
  frame_ok t → 0 <= cursor_row t < rows t →
  wrap_line t = if cols t <=? cursor_col t then line_feed (t <| cursor_col := 0 |>) else t.
Proof.
  intros Hf Hcur. pose proof Hf as [[Hc Hr] _ _ _]. unfold wrap_line, line_feed. destruct (_ <=? _); [| done].
  change (cursor_row (t <| cursor_col := 0 |>)) with (cursor_row t).
  change (rows (t <| cursor_col := 0 |>)) with (rows t).
  set (t1 := t <| cursor_col := 0 |> <| cursor_row := u32 (cursor_row t + 1) |>).
  change (rows t1) with (rows t). change (cursor_row t1) with (u32 (cursor_row t + 1)).
  destruct (rows t <=? u32 (cursor_row t + 1)) eqn:E; [| done]. bools.
  rewrite (u32_fits (cursor_row t + 1)) in E by lia.
  rewrite (scroll_up_one t1), (scroll_up_one (t <| cursor_col := 0 |>)); [| by destruct Hf | cbn; lia | by destruct Hf |].
  - by rewrite u32_pred by lia.
  - change (rows t1) with (rows t). change (cursor_row t1) with (u32 (cursor_row t + 1)). rewrite u32_fits; lia.
Qed.

(** ** Text on paper *)

(** An endless sheet of lines of [w] cells, and where the next character goes. *)
Record paper : Type := MkPaper { sheet : list (list TerminalCell); p_row : nat; p_col : nat }.

Section paper.
Context (w : nat) (t0 : TerminalEmulator).

Definition next_line (P : paper) : paper :=
  MkPaper (if decide (S (p_row P) < length (sheet P))%nat then sheet P else sheet P ++ [replicate w TerminalCell_new])
    (S (p_row P)) (p_col P).

Definition return_line (P : paper) : paper := MkPaper (sheet P) (p_row P) 0.

Definition p_print (P : paper) (c : Z) : paper :=
  let P := if decide (w <= p_col P)%nat then return_line (next_line P) else P in
  MkPaper (alter (alter (paint t0 c) (p_col P)) (p_row P) (sheet P)) (p_row P) (S (p_col P)).

(** Line feed, carriage return, and characters in the colours and style of [t0]. *)
Definition p_write (P : paper) (b : Z) : paper :=
  if b =? 10 then next_line P else if b =? 13 then return_line P else p_print P b.

(** The lines of the sheet above the screen. *)
Definition above (t : TerminalEmulator) (P : paper) : nat := (length (sheet P) - Z.to_nat (rows t))%nat.

(** The screen shows the end of the sheet, and the ring the lines before it. *)
Record shows (t : TerminalEmulator) (P : paper) : Prop := {
  sh_frame : frame_ok t ∧ state (parser t) = Normal ∧ cols t = Z.of_nat w;
  sh_style : fg_color t = fg_color t0 ∧ bg_color t = bg_color t0 ∧ bold t = bold t0 ∧ italic t = italic t0 ∧
             underline t = underline t0 ∧ inverse t = inverse t0;
  sh_sheet : (Z.to_nat (rows t) <= length (sheet P))%nat;
  sh_cursor : cursor_row t < rows t ∧ Z.of_nat (p_row P) = Z.of_nat (above t P) + cursor_row t ∧ 0 <= cursor_row t ∧
              cursor_col t = Z.of_nat (p_col P) ∧ (p_col P <= w)%nat;
  sh_screen : ∀ i r, (i < Z.to_nat (rows t))%nat → screen t !! i = Some r → sheet P !! (above t P + i)%nat = Some (take w r);
  sh_count : scrollback_rows t = u64 (Z.of_nat (above t P));
  sh_ring : ∀ k r, (k < above t P <= k + 512)%nat → scrollback t !! (k mod 512)%nat = Some r → sheet P !! k = Some (take w r);
}.

Lemma take_copy src dst : length src = 256%nat → length dst = 256%nat → take w (copy_cells (Z.of_nat w) src dst) = take w src.
Proof.
  intros Hs Hd. apply list_eq. intros j. destruct (decide (j < w)%nat); [| by rewrite !lookup_take_ge by lia].
  rewrite !lookup_take_lt by lia. unfold copy_cells. rewrite list_lookup_imap.
  destruct (decide (j < 256)%nat).
  - destruct (lookup_lt_is_Some_2 src j) as [x Hx]; [lia |]. destruct (lookup_lt_is_Some_2 dst j) as [y Hy]; [lia |].
    rewrite Hx, Hy. cbn. by rewrite (proj2 (Z.ltb_lt _ _)) by lia.
  - by rewrite !lookup_ge_None_2 by lia.
Qed.

Lemma take_clear r : (w <= length r)%nat → take w (clear_cells 0 (Z.of_nat w) r) = replicate w TerminalCell_new.
Proof.
  intros Hr. apply list_eq. intros j. destruct (decide (j < w)%nat).
  - rewrite lookup_take_lt, lookup_replicate_2 by lia. unfold clear_cells. rewrite list_lookup_imap.
    destruct (lookup_lt_is_Some_2 r j) as [x Hx]; [lia |]. rewrite Hx. cbn.
    by rewrite (proj2 (Z.leb_le _ _)), (proj2 (Z.ltb_lt _ _)) by lia.
  - rewrite lookup_take_ge by lia. symmetry. apply lookup_ge_None_2. rewrite length_replicate. lia.
Qed.

Lemma u64_mod_512 n : u64 (Z.of_nat n) mod 512 = Z.of_nat (n mod 512).
Proof. unfold wrap. rewrite Nat2Z.inj_mod. change (Z.of_nat 512) with 512. dlia. Qed.

Lemma ring_other k n : (k < n < k + 512)%nat → (k mod 512 ≠ n mod 512)%nat.
Proof.
  intros H E. pose proof (Nat.div_mod k 512 ltac:(lia)). pose proof (Nat.div_mod n 512 ltac:(lia)).
  rewrite E in *. assert (n / 512 = k / 512 ∨ k / 512 < n / 512)%nat by lia. nia.
Qed.

Lemma save_row_ring t n :
  scrollback_rows t = u64 (Z.of_nat n) →
  scrollback (save_row t 0) = alter (copy_cells (cols t) (line t 0)) (n mod 512)%nat (scrollback t) ∧
  scrollback_rows (save_row t 0) = u64 (Z.of_nat (S n)).
Proof.
  intros E. unfold save_row. cbn -[wrap Nat.modulo alter line Z.modulo]. rewrite E, u64_mod_512, Nat2Z.id. split; [done |].
  unfold wrap. rewrite Zplus_mod_idemp_l. f_equal. lia.
Qed.

Lemma screen_row t i : frame_ok t → (i < 64)%nat → ∃ r, screen t !! i = Some r ∧ length r = 256%nat.
Proof.
  intros [_ [Hl Hr] _ _] Hi. destruct (lookup_lt_is_Some_2 (screen t) i) as [r E]; [lia |]. exists r. split; [done |].
  by eapply Forall_lookup_1 in Hr.
Qed.

Lemma up_one_screen t i r :
  frame_ok t → cols t = Z.of_nat w → (i < Z.to_nat (rows t))%nat → screen (up_one t) !! i = Some r →
  (S i < Z.to_nat (rows t))%nat ∧ (∃ r', screen t !! S i = Some r' ∧ take w r = take w r') ∨
  S i = Z.to_nat (rows t) ∧ take w r = replicate w TerminalCell_new.
Proof.
  intros Hf Hw Hi E. pose proof Hf as [[Hc Hr] _ _ _]. cbn -[copy_cells clear_cells Z.of_nat Z.add] in E.
  rewrite list_lookup_imap in E. destruct (screen_row t i Hf) as (r0 & E0 & Hl0); [lia |]. rewrite E0 in E.
  injection E as <-. cbv zeta. destruct (Z.of_nat i <? rows t - 1) eqn:E1; bools.
  - left. split; [lia |]. destruct (screen_row t (S i) Hf) as (r1 & Ea & Hl1); [lia |]. exists r1. split; [done |].
    unfold line. replace (Z.to_nat (Z.of_nat i + 1)) with (S i) by lia. rewrite Ea. cbn [default]. rewrite Hw. by apply take_copy.
  - right. split; [lia |]. rewrite (proj2 (Z.ltb_lt _ _)), Hw by lia. apply take_clear. lia.
Qed.

Lemma frame_up_one t : frame_ok t → rows t - 1 <= cursor_row t → frame_ok (up_one t).
Proof. intros Hf Hc. rewrite <-scroll_up_one by done. by apply scroll_up_frame. Qed.

(** The bottom line is full: the sheet gets a new one, the ring takes the top one. *)
Lemma shows_up_one t P :
  shows t P → cursor_row t = rows t - 1 → shows (up_one t) (next_line P).
Proof.
  intros [(Hf & Hn & Hw) Hst Hsh (Hcr & Hpr & H0 & Hcc & Hpw) Hscr Hcnt Hring] Hbot.
  pose proof Hf as [[Hc Hr] _ [Hbl Hbr] _]. pose proof (frame_up_one t Hf ltac:(lia)) as Hf'.
  assert (¬ S (p_row P) < length (sheet P))%nat as Hlast by (unfold above in *; lia).
  unfold next_line. rewrite (decide_False _ _ Hlast).
  destruct (save_row_ring t (above t P) Hcnt) as [Hsb Hsc].
  set (P' := MkPaper _ _ _). assert (above (up_one t) P' = S (above t P)) as Hab.
  { unfold above, P'. cbn [sheet]. change (rows (up_one t)) with (rows t). rewrite length_app. cbn. lia. }
  assert (∀ k, (k < length (sheet P))%nat → sheet P' !! k = sheet P !! k) as Hold by (intros k Hk; by apply lookup_app_l).
  split.
  - done.
  - done.
  - cbn [P' sheet]. change (rows (up_one t)) with (rows t). rewrite length_app. lia.
  - rewrite Hab. cbn [P' p_row p_col]. change (cursor_row (up_one t)) with (rows t - 1).
    change (rows (up_one t)) with (rows t). change (cursor_col (up_one t)) with (cursor_col t). lia.
  - change (rows (up_one t)) with (rows t). intros i r Hi E. rewrite Hab.
    destruct (up_one_screen t i r Hf Hw Hi E) as [(Hi' & r' & E' & ->) | (Hi' & ->)].
    + replace (S (above t P) + i)%nat with (above t P + S i)%nat by lia.
      rewrite Hold by (unfold above; lia). by apply Hscr.
    + replace (S (above t P) + i)%nat with (length (sheet P)) by (unfold above; lia). cbn [P' sheet]. by apply list_lookup_middle.
  - rewrite Hab. exact Hsc.
  - rewrite Hab. intros k r Hk E. change (scrollback (up_one t)) with (scrollback (save_row t 0)) in E. rewrite Hsb in E.
    rewrite Hold by (unfold above in *; lia).
    destruct (decide (k = above t P)) as [-> |].
    + destruct (screen_row t 0 Hf) as (r0 & E0 & Hl0); [lia |]. rewrite list_lookup_alter_eq in E.
      apply fmap_Some in E as (r1 & E1 & ->). assert (length r1 = 256%nat) as Hl1 by (by eapply Forall_lookup_1 in Hbr).
      unfold line. change (Z.to_nat 0) with 0%nat. rewrite E0. change (default blank_line (Some r0)) with r0.
      rewrite Hw, take_copy by done.
      rewrite <-(Hscr 0%nat r0) by (done || lia). f_equal. lia.
    + apply Hring; [lia |]. by rewrite list_lookup_alter_ne in E by (intros Heq; by apply (ring_other k (above t P)); [lia |]).
Qed.

Lemma shows_feed t P : shows t P → shows (line_feed t) (next_line P).
Proof.
  intros Hs. pose proof Hs as [(Hf & Hn & Hw) Hst Hsh (Hcr & Hpr & H0 & Hcc & Hpw) Hscr Hcnt Hring].
  pose proof Hf as [[Hc Hr] _ _ _]. unfold line_feed. rewrite u32_fits by lia. destruct (_ <=? _) eqn:E; bools.
  - rewrite scroll_up_one by (done || lia). apply shows_up_one; [done | lia].
  - assert (S (p_row P) < length (sheet P))%nat as Hin by (unfold above in *; lia).
    unfold next_line. rewrite (decide_True _ _ Hin).
    split; [split; [by destruct Hf | done] | done | done | | exact Hscr | exact Hcnt | exact Hring].
    change (above _ _) with (above t P). cbn -[above Z.add]. lia.
Qed.

Lemma shows_return t P : shows t P → shows (t <| cursor_col := 0 |>) (return_line P).
Proof.
  intros [(Hf & Hn & Hw) Hst Hsh (Hcr & Hpr & H0 & Hcc & Hpw) Hscr Hcnt Hring].
  split; [split; [by destruct Hf | done] | done | done | | exact Hscr | exact Hcnt | exact Hring].
  change (above _ _) with (above t P). cbn -[above]. lia.
Qed.

Lemma alter_as_insert {A} (f : A → A) (l : list A) i x : l !! i = Some x → <[i := f x]> l = alter f i l.
Proof.
  intros E. apply list_eq. intros j. destruct (decide (i = j)) as [<- |].
  - rewrite list_lookup_alter_eq, E, list_lookup_insert_eq; [done | by apply lookup_lt_Some in E].
  - by rewrite list_lookup_insert_ne, list_lookup_alter_ne.
Qed.

Lemma paint_same t c cell :
  fg_color t = fg_color t0 ∧ bg_color t = bg_color t0 ∧ bold t = bold t0 ∧ italic t = italic t0 ∧
  underline t = underline t0 ∧ inverse t = inverse t0 → paint t c cell = paint t0 c cell.
Proof. unfold paint. by intros (-> & -> & -> & -> & -> & ->). Qed.

(** A character inside the line. *)
Lemma shows_paint t P c r cell :
  shows t P → (p_col P < w)%nat → screen t !! Z.to_nat (cursor_row t) = Some r → r !! p_col P = Some cell →
  shows (t <| screen := <[Z.to_nat (cursor_row t) := <[p_col P := paint t c cell]> r]> (screen t) |>
           <| cursor_col := Z.of_nat (S (p_col P)) |> <| cursor_x := Z.of_nat (S (p_col P)) |>
           <| cursor_y := cursor_row t |> <| dirty := true |>)
        (MkPaper (alter (alter (paint t0 c) (p_col P)) (p_row P) (sheet P)) (p_row P) (S (p_col P))).
Proof.
  intros [(Hf & Hn & Hw) Hst Hsh (Hcr & Hpr & H0 & Hcc & Hpw) Hscr Hcnt Hring] Hlt Er Ec.
  pose proof Hf as [Hd Hsc Hbk Hp]. rewrite (paint_same t c cell Hst), (alter_as_insert _ r _ _ Ec).
  assert (length r = 256%nat) as Hlr by (destruct Hsc as [_ Hsc]; by eapply Forall_lookup_1 in Hsc).
  set (P' := MkPaper _ _ _). match goal with |- shows ?t' _ => set (t1 := t') end.
  assert (above t1 P' = above t P) as Hab by (unfold above, P', t1; cbn; by rewrite length_alter).
  split; [| done | | rewrite Hab; cbn -[above] | | by rewrite Hab |]; try rewrite Hab.
  - split; [| done]. split; try done. apply grid_insert; [done |]. by rewrite length_alter.
  - cbn. by rewrite length_alter.
  - lia.
  - change (screen t1) with (<[Z.to_nat (cursor_row t) := alter (paint t0 c) (p_col P) r]> (screen t)).
    change (sheet P') with (alter (alter (paint t0 c) (p_col P)) (p_row P) (sheet P)).
    intros i r' Hi E. change (Z.to_nat (rows t1)) with (Z.to_nat (rows t)) in Hi.
    destruct (decide (i = Z.to_nat (cursor_row t))) as [-> |].
    + rewrite list_lookup_insert_eq in E by (destruct Hsc; lia). injection E as <-.
      replace (above t P + Z.to_nat (cursor_row t))%nat with (p_row P) by lia.
      rewrite list_lookup_alter_eq, take_alter_lt by done.
      replace (p_row P) with (above t P + Z.to_nat (cursor_row t))%nat by lia. by rewrite (Hscr _ r).
    + rewrite list_lookup_insert_ne in E by done. rewrite list_lookup_alter_ne by lia. by apply Hscr.
  - change (sheet P') with (alter (alter (paint t0 c) (p_col P)) (p_row P) (sheet P)). intros k r' Hk E. rewrite list_lookup_alter_ne by (unfold above in *; lia). by apply Hring.
Qed.
Lemma shows_put t P c : shows t P → ∃ t', put_char t c = Done t' ∧ shows t' (p_print P c).
Proof.
  intros Hs. pose proof Hs as [(Hf & _ & Hw) _ _ (Hcr & _ & H0 & Hcc & Hpw) _ _ _]. pose proof Hf as [[Hc Hr] _ _ _].
  set (P1 := if decide (w <= p_col P)%nat then return_line (next_line P) else P).
  assert (shows (wrap_line t) P1 ∧ (p_col P1 < w)%nat) as [Hs1 Hlt].
  { rewrite wrap_as_feed by (done || lia). unfold P1. case_decide.
    - rewrite (proj2 (Z.leb_le _ _)) by lia. split; [apply (shows_feed _ (return_line P)); by apply shows_return | cbn; lia].
    - rewrite (proj2 (Z.leb_gt _ _)) by lia. split; [done | lia]. }
  unfold put_char, p_print. fold P1. cbv zeta. set (t1 := wrap_line t) in *.
  pose proof Hs1 as [(Hf1 & _ & Hw1) _ _ (Hcr1 & _ & H01 & Hcc1 & _) _ _ _]. pose proof Hf1 as [[Hc1 Hr1] Hg _ _].
  destruct (screen_row t1 (Z.to_nat (cursor_row t1)) Hf1) as (r & Er & Hl); [lia |].
  destruct (lookup_lt_is_Some_2 r (p_col P1)) as [cell Ec]; [lia |].
  rewrite (proj2 (aget_lookup _ _ _) (conj H01 Er)). cbn [mbind outcome_bind].
  rewrite Hcc1. rewrite (proj2 (aget_lookup r _ cell)) by (rewrite Nat2Z.id; split; [lia | done]). cbn [mbind outcome_bind].
  rewrite aset_in_range by (unfold zlen; lia). cbn [mbind outcome_bind].
  rewrite aset_in_range by (destruct Hg; unfold zlen; lia). cbn [mbind outcome_bind]. rewrite Nat2Z.id, u32_fits by lia.
  eexists. split; [reflexivity |]. pose proof (shows_paint t1 P1 c r cell Hs1 Hlt Er Ec) as Hp.
  replace (Z.of_nat (p_col P1) + 1) with (Z.of_nat (S (p_col P1))) by lia. exact Hp.
Qed.

Definition text_byte (b : Z) : Prop := b = 10 ∨ b = 13 ∨ 32 <= b < 256 ∧ b ≠ 127.

Lemma feed_text p b :
  state p = Normal → text_byte b →
  feed p b = Done (Some (if b =? 10 then LineFeed else if b =? 13 then CarriageReturn else Print b), p).
Proof.
  intros Hs Hb. unfold feed. rewrite Hs. unfold feed_normal. destruct Hb as [-> | [-> | Hb]]; [done | done |].
  rewrite (proj2 (Z.eqb_neq b 0x1B)), (proj2 (Z.eqb_neq b 0x0A)), (proj2 (Z.eqb_neq b 0x0D)), (proj2 (Z.eqb_neq b 0x08)),
    (proj2 (Z.eqb_neq b 0x09)), (proj2 (Z.eqb_neq b 0x07)), (proj2 (Z.eqb_neq b 0x7F)), (proj2 (Z.leb_le 0x20 b)) by lia.
  done.
Qed.

Lemma shows_write t P b : shows t P → text_byte b → ∃ t', write t b = Done t' ∧ shows t' (p_write P b).
Proof.
  intros Hs Hb. pose proof Hs as [(_ & Hn & _) _ _ _ _ _ _]. unfold write. rewrite (feed_text _ _ Hn Hb). cbn [mbind outcome_bind].
  assert (t <| parser := parser t |> = t) as -> by (by destruct t). unfold p_write.
  destruct (b =? 10); [| destruct (b =? 13)]; cbn [apply_action].
  - eexists. split; [reflexivity |]. by apply shows_feed.
  - eexists. split; [reflexivity |]. by apply shows_return.
  - by apply shows_put.
Qed.

Lemma shows_text t P text :
  shows t P → Forall text_byte text → ∃ t', write_str t text = Done t' ∧ shows t' (foldl p_write P text).
Proof.
  intros Hs Ht. revert t P Hs. induction Ht as [| b text Hb _ IH]; intros t P Hs; cbn [write_str for_each foldl]; [by exists t |].
  destruct (shows_write t P b Hs Hb) as (t1 & E & Hs1). unfold write_str in *. cbn [for_each]. rewrite E. cbn [mbind outcome_bind].
  by apply IH.
Qed.
End paper.

(** A sheet with [n] empty lines. *)
Definition blank_paper (w n : nat) : paper := MkPaper (replicate n (replicate w TerminalCell_new)) 0 0.

Lemma new_shows c r :
  1 <= c → 1 <= r →
  shows (Z.to_nat (Z.min c 256)) (TerminalEmulator_new c r) (TerminalEmulator_new c r)
    (blank_paper (Z.to_nat (Z.min c 256)) (Z.to_nat (Z.min r 64))).
Proof.
  intros Hc Hr. destruct (term_new_ok c r Hc Hr) as [[Hf _] _].
  set (w := Z.to_nat (Z.min c 256)). set (n := Z.to_nat (Z.min r 64)).
  assert (above (TerminalEmulator_new c r) (blank_paper w n) = 0%nat) as Hab.
  { unfold above. cbn [sheet blank_paper]. rewrite length_replicate. cbn [rows TerminalEmulator_new]. unfold MAX_ROWS. lia. }
  split; rewrite ?Hab; [| done | | | | done | lia].
  - split; [done |]. split; [done |]. cbn. unfold MAX_COLS, w. lia.
  - cbn [sheet blank_paper rows TerminalEmulator_new]. rewrite length_replicate. unfold MAX_ROWS, n. lia.
  - cbn [cursor_row cursor_col rows TerminalEmulator_new p_row p_col blank_paper]. unfold MAX_ROWS. lia.
  - intros i row Hi E. cbn [screen TerminalEmulator_new rows] in *. unfold MAX_ROWS in Hi.
    apply lookup_replicate in E as [-> _]. cbn [sheet blank_paper Nat.add]. rewrite lookup_replicate_2 by lia. f_equal.
    unfold blank_line. rewrite take_replicate. f_equal. lia.
Qed.

(** C21. Text appears as on paper.
    Whatever printable characters, line feeds and carriage returns are written to a new
    terminal: every write returns, the screen shows the last lines of an endless sheet
    on which the characters stand one after the other, with a new line after the last
    column, and the ring holds the 512 lines before them. *)
Theorem term_refines_paper (c r : Z) (text : list Z) :
  1 <= c → 1 <= r → Forall text_byte text →
  let w := Z.to_nat (Z.min c 256) in
  let t := TerminalEmulator_new c r in
  ∃ t', write_str t text = Done t' ∧
        shows w t t' (foldl (p_write w t) (blank_paper w (Z.to_nat (Z.min r 64))) text).
Proof. intros Hc Hr Ht. cbv zeta. apply shows_text; [by apply new_shows | done]. Qed.

Lemma term_refines_paper_witness :
  ∃ t', write_str (TerminalEmulator_new 80 25) [72; 105; 10; 33] = Done t' ∧
        shows 80 (TerminalEmulator_new 80 25) t'
          (foldl (p_write 80 (TerminalEmulator_new 80 25)) (blank_paper 80 25) [72; 105; 10; 33]).
Proof.
  apply (term_refines_paper 80 25 [72; 105; 10; 33]); [lia | lia |]. unfold text_byte. repeat constructor; lia.
Defined.

End Term.
